(* ===== verification/_CoqProject ===== *)
-Q . S2P
Prelude.v
Float64.v
Types.v
Reasons.v
Tree.v
Frontier.v
Mirror.v
Commit.v
Plateau.v
Rng.v
Policy.v
Ucb.v
Softmax.v
Staged.v
Client.v
Retry.v
Fault.v
MetaStore.v
Compile.v
Checkpoint.v
Runner.v
Durable.v
HvTypes.v
SynthTypes.v
Slots.v
Tasks.v
WorkerDriver.v
Grid.v
FakeHv.v
FakeHvPool.v
FakeHvGuest.v
WorkerWorld.v
Pipeline.v
ExecBatch.v
StoreTypes.v
NodeTable.v
NodeTableWf.v
NodeAttrs.v
SynthDriver.v
ScorerTypes.v
Events.v
SynthConfig.v
Bringup.v
WireConfig.v
CommitStage.v
ReplayStage.v
RunLoop.v
Resume.v
StageSample.v
Frames.v
RunBounds.v
RunOutcome.v
Fence.v
WalFirst.v
Replay.v
Rebuilt.v
FakeScorer.v
FakeScorerWf.v
ItemErrors.v
FakeSynth.v
FakeSynthWf.v
SimJournal.v
SimJournalWf.v
Quiet.v
SimWorld.v
QuietServices.v
SimWorldWf.v
SimRecovery.v
Service.v
ServiceWf.v
ProgressStream.v
Decimal.v
SynthGrpc.v
SynthGrpcWf.v
Metrics.v
Transcript.v
Daemon.v
Ports.v
