(* ===== verification/Prelude.v ===== *)
(** * Verification of the exploration orchestrator

    The orchestrator searches the state space of a deterministic guest.  It
    keeps a tree of snapshots, selects a frontier node, has input bursts run
    from it by a hypervisor, scores the resulting states and commits them as
    children, until a goal or a budget is reached.  A write-ahead log and
    checkpoints in a metadata store let a new process continue after a crash.

    ** Parts, files and sources (under src/crates)

    - [Prelude] (this file): outcomes of fallible code ([res]: [Ok], [Err],
      [Panic]), state passing ([st]: every operation on [&mut self] returns
      its outcome and the state it leaves, also when it fails), triples
      ([hoare]), machine integers, and the shared lemmas on lists.
    - [Float64]: IEEE binary64 as the sources use it, and [total_cmp].
    - [Types] (orch-core types.rs, config_rejections.rs): finite floats,
      enums, the configuration and its validation.
    - [Reasons] (orch-core runtime_reasons.rs): the catalog of terminal reasons.
    - [Tree] (orch-core tree.rs): node records and the dense tree.
    - [Frontier] (orch-core frontier.rs): vector with index, refined to a set.
    - [Mirror] (orch-core mirror.rs): cell counts and state-hash routes.
    - [Commit] (orch-core commit.rs): what a batch of scored children does to
      the tree, the frontier, the mirror, the routes and the streaks.
    - [Plateau] (orch-core plateau.rs): stall detector and escalation ladder.
    - [Rng] (orch-core rng.rs): seed derivation and counted draws.
    - [Policy], [Ucb], [Softmax], [Staged] (orch-core policy/): candidate
      snapshots and the three policies behind the interface [SelectionPolicy].
    - [Client] (orch-clients lib.rs, snapshot_store.rs): errors, metadata keys,
      and the interface [MetadataStore] with its laws.
    - [Retry] (orch-sched retry.rs): backoff and retry loops.
    - [MetaStore] (orch-fakes snapshot_store.rs, metadata part): the in-memory
      store, proved to satisfy the laws.
    - [Compile] (orch-core compile.rs): feature-map validation, packing and
      coarsening.
    - [Checkpoint] (orch-checkpoint lib.rs): checkpoint and log records.
    - [Runner] (orch-server experiment.rs): policy dispatch, budgets, and the
      building of an expansion intent.
    - [Durable] (orch-server experiment.rs): checkpointing, truncation and
      loading of the write-ahead log, ownership, and the crash points.
    - [Fault] (orch-fakes fault.rs): fault plans, rates and the decision of
      an injected fault per service and per call.
    - [HvTypes] (orch-clients hypervisor.rs), [SynthTypes] (orch-clients
      input_synth.rs): requests, replies and errors of the two services and
      the interfaces [Hypervisor] and [InputSynth].
    - [Slots] (orch-sched slots.rs): the permits of a worker, the queue of
      waiters and the hand-over of a released permit.
    - [Tasks]: asynchronous code as values.  A [proc] is a sequence of calls
      on the world with [await] points between them; a task list is polled one
      await at a time, and a dropped future is a task that is not polled
      again but whose guards still run.
    - [WorkerDriver] (orch-sched driver.rs): lease, boot, restore or fork,
      inputs, run, capture and destroy of the branches of a batch.
    - [Grid] (orch-fakes grid world): the guest the double runs.
    - [FakeHv], [FakeHvPool], [FakeHvGuest] (orch-fakes hypervisor.rs): the
      hypervisor double, the invariant of its lease pool, and what its guest
      computes.
    - [WorkerWorld]: the driver composed with the double and the permits.
    - [Pipeline] (orch-sched pipeline.rs, metrics.rs): the intents in flight,
      the reorder buffer and the gauges.
    - [ExecBatch] (orch-sched pipeline.rs, retry.rs): the execution of one
      batch, with its retries.
    - [StoreTypes] (orch-clients snapshot_store.rs): node rows, requests and
      the interface [NodeStore]; [NodeTable] (orch-fakes snapshot_store.rs,
      node part): the in-memory rows with their child index, and
      [NodeTableWf] its invariant.
    - [NodeAttrs] (orch-driver node_attrs.rs): the attributes of a row and the
      context of a proposal; [SynthDriver], [SynthConfig] (orch-driver
      input_synth.rs): proposal requests and responses, the fingerprint
      registry, bring-up, and the scanner of macro-pack references.
    - [ScorerTypes] (orch-clients scorer.rs): the interface [Scorer].
    - [Events] (orch-server events.rs, orch-clients and orch-fakes
      observatory.rs): payloads, the drop-oldest emitter, the recording sink.
    - [Bringup] (orch-server bringup.rs): one compiled feature map for scorer
      and hypervisor; [WireConfig] (orch-server config.rs): defaults and
      validation of the served configuration, and the way back to the wire.
    - [CommitStage], [ReplayStage], [RunLoop], [Resume] (orch-server
      experiment.rs): the commit of a completed batch with its store calls and
      events; dispatch, and the replay of a logged batch; the run loop with
      its control messages and its end; start, bootstrap and resume.
      [StageSample] is a small world they run in.
    - [Frames], [RunBounds], [RunOutcome], [Fence], [WalFirst], [Replay],
      [Rebuilt]: the theorems on the runner.  [Frames] says which part of the
      runner each operation leaves alone (hint database [keeps]).
    - [FakeScorer], [FakeScorerWf] (orch-fakes scorer.rs): the scorer double
      with its archives, checkpoints and batch cache; [ItemErrors]: what the
      runner makes of a state that could not be scored.
    - [FakeSynth], [FakeSynthWf] (orch-fakes synth.rs): the synthesizer
      double, its document scanner and its generators.
    - [SimJournal], [SimJournalWf] (orch-simstate journal.rs, records.rs): the
      framed journal of the persistent test world, torn writes and the scan.
    - [Quiet], [QuietServices]: calls whose answer does not depend on the
      fault bookkeeping of a double, for all calls of the four doubles.
    - [SimWorld], [SimWorldWf], [SimRecovery] (orch-simstate world.rs,
      compare.rs, bins/orchestratord simulate.rs): the four doubles behind one
      journal, the replay and the fingerprints; the agreement of a replayed
      service with the one that was lost; and the life of the world as steps
      (log, call, note, read) with kills and reloads.
    - [Service], [ServiceWf] (orch-server service.rs): the registry of
      experiments, the ids in bring-up and the handlers of its
      unary calls and of shutdown, as steps between their awaits; a handler can be dropped at an
      await.  A runner is the ends of its channels.
    - [ProgressStream] (orch-server service.rs, [stream_progress] and
      [goal_edge]): the turns of a progress stream and its edges.
    - [SynthGrpc], [SynthGrpcWf] (orch-driver input_synth/grpc.rs): the
      conversions from and to the generated messages, the error mapping and
      the retrying calls of the synthesizer client.
    - [Metrics] (orch-server metrics.rs): the snapshot, its text and the
      reader of that text.  [Decimal]: decimal numbers as text.
    - [Transcript] (orch-fakes transcript.rs, grid.rs): the bytes of a
      transcript and its hash.
    - [Ports] (orch-sched ports.rs): the adapter from a synchronous client to
      an asynchronous port, as steps between the accesses of what the callers
      share, with the history they see.
    - [Daemon] (bins/orchestratord main.rs and simulate.rs, orch-simstate
      journal.rs): command line, environment hooks, the built-in sources,
      standalone mode over [Resume] and [RunLoop], and the HTTP responder.

    A struct is a record, an enum an inductive type with the source's
    variants, a function or method one definition of the same name (prefixed
    where two modules share it).  Hash maps are finite maps; where the source
    sorts before it shows a map's content the listing is a function of the
    map.  A loop over a vector is a structural recursion; [expect], an index
    out of range and an unchecked overflow are [Panic].

    ** Interfaces

    Third-party code is an interface with its documented behaviour as laws:
    [Blake3] and [ChaCha12] (ranges of results), [Libm] (logarithm,
    exponential, square root), [Postcard] (decoding gives back what was
    encoded), [SortByStart] (an unstable sort: some sorted permutation),
    [F64Display].  Services are interfaces over an abstract world:
    [MetadataStore] with [MetadataStoreLaws] (a failed call has no effect),
    [Runtime] (clock and sleep), [ScorerArchive], [CrashPolicy],
    [Hypervisor], [InputSynth], [NodeStore], [Scorer], [EventSink],
    [BatchPipeline] (submit, next completed), [WorkerPort] (slots and root
    capture at start), [SlotPool], [Ledger] and [JobGauge].  [ServiceFrame]
    and [DispatchFrame] say which calls leave the rows, the log or the
    submitted batches alone; the theorems on the runner that need it are
    proved against them, and [StageSample]'s world discharges them.
    [WireEnums] is the numbering of the generated enumerations and
    [StoreEncoding] the encoding of requests and the digest of an input log.
    [WorkerLaws] says what the driver needs of the hypervisor and of the
    permits; the theorems on the driver are proved against it and
    [WorkerWorld] discharges it with the double.  [HvEncoding] stands for the
    byte encoding and digest of the double's snapshots; [ScorerEncoding],
    [SynthEncoding] and [ResponseEncoding] for encodings that are only hashed.
    [Concealed] and [FaultyService] say which part of a double holds its fault
    bookkeeping; [ShortRecords] that the journal's records of fixed size fit
    into a frame.  [SynthWire] with [SynthWireLaws] is the numbering of the synthesizer's
    generated enumerations and [SynthTransport] the calls of its generated client;
    [MetricFormat] with [MetricFormatLaws] the text of the numbers in a
    metrics file; [SocketAddrs] the parsing of socket addresses; [LatencyProbe]
    the latency a test asks a port to charge.  Each
    interface has an instance the witnesses run on.

    ** What is proved

    - Commit: consistency of the five parts of the commit state in every
      reachable state, the decision table of a child, the accounting and the
      eviction rules of a batch, the complete list of its errors, and that
      only counter overflow can make it panic.
    - Tree and frontier: well-formedness under any sequence of operations,
      paths to the root, permanence of committed records, refinement of the
      frontier to a set, and deterministic candidate listing.
    - Durability: a log entry is deleted only below a stored checkpoint; a
      process killed anywhere leaves a store from which the next one loads
      exactly the logged intents above it; loading terminates; a stale owner
      writes nothing; one writer wins a compare-and-swap.  Two findings are
      proved with them: a checkpoint forgets batches in flight, and the repair
      of an interrupted truncation can itself leak entries.
    - Runner: a batch is handed to the pipeline only with its intent in the
      log; a runner that lost its checkpoint commits nothing; the run loop
      keeps its budget and its in-flight limit and ends; a run that is not
      killed has an outcome that agrees with the last published status; a
      replayed batch in which no new state occurs twice commits what the commit
      rules commit, up to novelty;
      a resumed runner has every stored row, and its candidates are the rows
      stored as open.  Two findings are proved with them: replay is not exact
      for siblings of one cell and for equal siblings, and a stop during
      replay forgets a batch.
    - Node rows: consistency under any calls and faults, exact pruning, atomic
      updates, creations that are safe to retry, paths to the root.
    - Synthesizer: accepted proposals match the request and the pinned
      fingerprint.  Events: delivered in order or counted as dropped.
    - Selection: what each policy chooses and how many draws it takes, that an
      intent names an open node, and independence of the frontier's layout.
    - Escalation: the level as a function of the observed scores.
    - Feature maps: exact and minimal packing, totality on validated maps,
      independence of the unstable sort, and coarsening that keeps the layout.
    - Checkpoints: round trip and rejection of foreign checkpoints.
    - Configuration: validation is sound and complete, and what it accepts no
      later stage rejects; the effective configuration of a wire message is a
      fixed point of writing it back.
    - Retry: bound and outcome of the attempts, capped doubling.
    - Batches: a batch returns one outcome per burst in order, or an error
      with nothing left behind; however the driver is interrupted at an await,
      every lease it took is destroyed or was reported as failed to destroy,
      and the permits come back; a path that forks never waits for a permit.
    - Permits: every permit is free, held or handed to one waiter; a wake ends;
      waking alone serves the queue in order.
    - Pipeline: completed batches reach the consumer in the order of their
      numbers whatever order they finish in; a drained pipeline delivered all
      of them; the number in flight stays within its limit; and under any fair
      schedule it drains.
    - Hypervisor double: slots, leases and the parent relation agree in every
      reachable state; a branch forked from a frozen parent and one restored
      from a snapshot of it run alike; reclaiming a session empties the pool.
    - Scorer double: an archive reference restores the archive it names,
      replayed commits are idempotent, scoring without insertion only reads.
      Synthesizer double: accepted requests are answered from generators that
      are available, with bursts of the length asked for.  A finding: an item
      that could not be scored is committed as an ordinary child.
    - Persistent world: a journal cut at any byte reads back as its whole
      frames, damage before a whole frame is refused; whatever the
      interleaving of the services and wherever the process is killed, the
      reload succeeds and has every call that was logged.  Two findings: a
      kill inside the first write costs the journal its header and with it
      the next reload, and the read-only reload cuts the file.
    - Service: an id has at most one live runner, and it is the registered one
      or its id is reserved; an answered shutdown has drained every running
      experiment; a handler waiting for runners that are gone is answered; a
      progress stream gives every goal one turn, in order, and sends the rows
      it can read.  Two findings: a start whose caller goes away blocks its id
      for ever, and goals that come with the last status of a run, or whose
      row cannot be read at their turn, are not announced.
    - Synthesizer client: what is sent is read back unchanged; an accepted
      response matches its request and can be sent on; retries stay within
      their budget and follow retryable errors only.
    - Metrics: the text has exactly the required families and labels, and is
      served whole over HTTP.  Transcripts: different histories have different
      hash inputs.  Ports: histories of concurrent calls are linearizable, and
      each call is charged what the probe says.  Daemon: a hook set through the environment parks the
      process at exactly the arrival it names; standalone mode succeeds only
      for a run that ended without failure.

    ** Bounds and fuel

    Integers are [N] with the maximum of their width written out where the
    code checks or can exceed it.  [path_from_root] walks with one unit of
    fuel per record plus one, which the depth of a well-formed tree never
    exceeds; the two loops of [load_wal_entries] retry for ever on transient
    errors, so they take fuel as a parameter: what they return is correct for
    any fuel, and without faults one unit per entry and per probed miss is
    enough.  [Panic] also stands for running out of fuel.  [allocate] of the
    driver repeats while the hypervisor answers with back-pressure: its fuel
    is the number of repeats, and a run that uses them up is pending, not an
    error.  [reclaim_session] takes one unit of fuel per slot, as each pass
    frees a leaf.  The walk of [fake_get_path] takes one unit per row plus one
    and that of [subtree_ids] one per row, both enough in a consistent store;
    the scanners of [SynthConfig] take one unit per byte, as does the scan of
    a journal ([scan_frames]: a frame is never empty, so a whole file is read).  [run_loop] takes
    one unit per turn: one more than the expansion budget leaves is enough
    ([run_loop_ends]); running out is [None], not an outcome.  [fill] takes
    the in-flight limit.  The control messages of a run are a tape: what each
    read of the channel finds, where the end of the tape is a closed channel.
    A deadline is the number of awaits that complete before it;
    calls are atomic between awaits, as the in-process ports are.
    [WorkerWorld] refuses a call of the double once a 64-bit counter of it
    would wrap, so that its theorems need no bound on the length of a run.

    ** Not modelled

    Serde formats and the generated protobuf bindings (generated messages are
    records with the fields the source reads); the set-up of served mode in
    [serve_simulate] (sockets, server, signals), connecting to a service, and
    tracing, which are input and output only; lock poisoning in the service;
    the texts of most [Display] implementations and plain getters (record
    projections here); the hash functions of the index maps (not observable);
    [fill_bytes] of the generator (third-party code).  The NaN payload of a
    float is dropped.  Events the runner emits are a log on its state; the
    emitter and its sink are modelled apart from it.  The file of a journal is
    its bytes and how many of them are synced; a kill keeps the synced bytes
    and any number of the later ones.  Failing file operations are left out.

    ** Limits

    Each component is proved against the interfaces of those it calls; the
    compositions that are proved are the driver with the hypervisor double
    ([WorkerWorld]), the four doubles behind the journal ([SimRecovery]) and
    the stages of the runner with a store ([StageSample]).  The pipeline and
    the service are proved over arbitrary behaviour of the runners and workers
    behind them, so no theorem follows a batch from a call of the service to
    the guest.  The float formulas are computed exactly as IEEE operations;
    bounds on their rounding error are not stated. *)
From stdpp Require Export sorting gmap strings.
From Stdlib Require Export Lia.
From stdpp Require Export tactics prelude list.

Declare Scope orch_scope.
Delimit Scope orch_scope with orch.
Open Scope orch_scope.

(** ** Fallible computations

    Rust code returns [Result<A, E>] and may panic ([expect], an index out of
    range).  [res E A] keeps the three outcomes apart. *)
Inductive res (E A : Type) : Type :=
| Ok (a : A)
| Err (e : E)
| Panic.
Arguments Ok {E A} a.
Arguments Err {E A} e.
Arguments Panic {E A}.

Global Instance res_eq_dec {E A} `{EqDecision E, EqDecision A} : EqDecision (res E A).
Proof. solve_decision. Defined.

Global Instance res_ret {E} : MRet (res E) := fun A a => Ok a.

Global Instance res_bind {E} : MBind (res E) := fun A B f r =>
  match r with
  | Ok a => f a
  | Err e => Err e
  | Panic => Panic
  end.

Global Instance res_fmap {E} : FMap (res E) := fun A B f r =>
  match r with
  | Ok a => Ok (f a)
  | Err e => Err e
  | Panic => Panic
  end.

Definition ok_or {E A} (o : option A) (e : E) : res E A :=
  match o with Some a => Ok a | None => Err e end.

(** [Option::expect]: the value, or a panic. *)
Definition expect {E A} (o : option A) : res E A :=
  match o with Some a => Ok a | None => Panic end.

Definition map_err {E F A} (f : E -> F) (r : res E A) : res F A :=
  match r with Ok a => Ok a | Err e => Err (f e) | Panic => Panic end.

Definition is_Ok {E A} (r : res E A) : bool :=
  match r with Ok _ => true | _ => false end.

(** ** State passing

    An operation on [&mut self] is a function of the state that returns the
    outcome together with the state left behind, also when it fails. *)
Definition st (S E A : Type) : Type := S -> res E A * S.

Global Instance st_ret {S E} : MRet (st S E) := fun A a s => (Ok a, s).

Global Instance st_bind {S E} : MBind (st S E) := fun A B f m s =>
  match m s with
  | (Ok a, s') => f a s'
  | (Err e, s') => (Err e, s')
  | (Panic, s') => (Panic, s')
  end.

Definition lift_res {S E A} (r : res E A) : st S E A := fun s => (r, s).
Definition get_st {S E} : st S E S := fun s => (Ok s, s).
Definition put_st {S E} (s' : S) : st S E unit := fun _ => (Ok tt, s').
Definition gets {S E A} (f : S -> A) : st S E A := fun s => (Ok (f s), s).
Definition modify {S E} (f : S -> S) : st S E unit := fun s => (Ok tt, f s).

(** Runs an operation of a part of the state, converting its error the way
    the [From] implementation behind [?] does. *)
Definition zoom {S T E F A} (get : S -> T) (set : T -> S -> S) (conv : E -> F)
    (m : st T E A) : st S F A := fun s =>
  match m (get s) with
  | (r, t') => (map_err conv r, set t' s)
  end.

(** The loop [for x in xs { body(x)? }] collecting the results. *)
Fixpoint mapM_st {S E A B} (f : A -> st S E B) (xs : list A) : st S E (list B) :=
  match xs with
  | [] => mret []
  | x :: xs' => b ← f x; bs ← mapM_st f xs'; mret (b :: bs)
  end.

(** The same loop without state: [iter().map(..).collect::<Result<_, _>>()]. *)
Fixpoint mapM_res {E A B} (f : A -> res E B) (xs : list A) : res E (list B) :=
  match xs with
  | [] => Ok []
  | x :: xs' => b ← f x; bs ← mapM_res f xs'; Ok (b :: bs)
  end.

(** ** Machine integers

    Unsigned integers are [N] with their maximum written out; [usize] is 64
    bits wide. *)
Definition u8_max : N := 255.
Definition u16_max : N := 65535.
Definition u32_max : N := 4294967295.
Definition u64_max : N := 18446744073709551615.

Definition checked_add (max a b : N) : option N :=
  if decide (a + b <= max)%N then Some (a + b)%N else None.

(** Subtraction that panics below zero. *)
Definition checked_sub (a b : N) : option N :=
  if decide (b <= a)%N then Some (a - b)%N else None.

Definition saturating_add (max a b : N) : N := N.min (a + b) max.

(** [v.get(i)] with a [usize] index. *)
Definition vec_get {A} (l : list A) (i : N) : option A :=
  if (i <? N.of_nat (length l))%N then l !! N.to_nat i else None.

(** ** Inversion of monadic code *)

Lemma bind_Ok {E A B} (c : res E A) (k : A -> res E B) b :
  (c ≫= k) = Ok b <-> exists a, c = Ok a /\ k a = Ok b.
Proof. destruct c; cbn; naive_solver. Qed.

Lemma bind_Err {E A B} (c : res E A) (k : A -> res E B) e :
  (c ≫= k) = Err e <-> c = Err e \/ exists a, c = Ok a /\ k a = Err e.
Proof. destruct c; cbn; naive_solver. Qed.

Lemma bind_Panic {E A B} (c : res E A) (k : A -> res E B) :
  (c ≫= k) = Panic <-> c = Panic \/ exists a, c = Ok a /\ k a = Panic.
Proof. destruct c; cbn; naive_solver. Qed.

Lemma bind_no_panic {E A B} (c : res E A) (k : A -> res E B) :
  c <> Panic -> (forall a, c = Ok a -> k a <> Panic) -> (c ≫= k) <> Panic.
Proof. destruct c; cbn; auto. Qed.

Lemma st_bind_run {S E A B} (m : st S E A) (k : A -> st S E B) s :
  (m ≫= k) s = match m s with
               | (Ok a, s') => k a s'
               | (Err e, s') => (Err e, s')
               | (Panic, s') => (Panic, s')
               end.
Proof. reflexivity. Qed.

Lemma st_bind_Ok {S E A B} (m : st S E A) (k : A -> st S E B) s b s' :
  (m ≫= k) s = (Ok b, s') <-> exists a s1, m s = (Ok a, s1) /\ k a s1 = (Ok b, s').
Proof. rewrite st_bind_run. destruct (m s) as [[] ?]; naive_solver. Qed.

Lemma modify_bind {S E B} (f : S -> S) (k : unit -> st S E B) s : (modify f ≫= k) s = k tt (f s).
Proof. reflexivity. Qed.

Lemma gets_bind {S E A B} (f : S -> A) (k : A -> st S E B) s : (gets f ≫= k) s = k (f s) s.
Proof. reflexivity. Qed.

Lemma lift_Ok_bind {S E A B} (a : A) (k : A -> st S E B) s : (lift_res (Ok a) ≫= k) s = k a s.
Proof. reflexivity. Qed.

Lemma mret_bind {S E A B} (a : A) (k : A -> st S E B) s : (mret a ≫= k) s = k a s.
Proof. reflexivity. Qed.

(** ** Automation

    [orch] holds the invariant-preservation lemmas of the components,
    [st_run] the equations that run one step of state-passing code,
    which [run_st] applies. *)
Create HintDb orch discriminated.
Create Rewrite HintDb st_run.
#[export] Hint Rewrite @modify_bind @gets_bind @lift_Ok_bind @mret_bind : st_run.

Ltac run_st := autorewrite with st_run; cbv beta zeta.

(** ** Triples

    [hoare P m Q]: run in a state that satisfies [P], the operation leaves an
    outcome and a state that satisfy [Q], also when it fails. *)
Definition hoare {S E A} (P : S -> Prop) (m : st S E A) (Q : res E A -> S -> Prop) : Prop :=
  forall s r s', P s -> m s = (r, s') -> Q r s'.

(** The postcondition of a first step: [R] of its value, [Q] when it fails. *)
Definition ok_then {S E A B} (R : A -> S -> Prop) (Q : res E B -> S -> Prop) (r : res E A) (s : S) : Prop :=
  match r with Ok a => R a s | Err e => Q (Err e) s | Panic => Q Panic s end.

Lemma hoare_bind {S E A B} (P : S -> Prop) (m : st S E A) (k : A -> st S E B) R Q :
  hoare P m (ok_then R Q) -> (forall a, hoare (R a) (k a) Q) -> hoare P (m ≫= k) Q.
Proof.
  intros Hm Hk s r s' HP. rewrite st_bind_run. destruct (m s) as [x s1] eqn:Hs.
  specialize (Hm _ _ _ HP Hs). destruct x; cbn in Hm; [by apply Hk|by intros [= <- <-]..].
Qed.

Lemma hoare_gets {S E A B} (P : S -> Prop) (f : S -> A) (k : A -> st S E B) Q :
  (forall a, hoare (fun s => P s /\ a = f s) (k a) Q) -> hoare P (gets f ≫= k) Q.
Proof. intros Hk s r s' HP. rewrite gets_bind. by apply Hk. Qed.

Lemma hoare_lift {S E A B} (P : S -> Prop) (x : res E A) (k : A -> st S E B) Q :
  (forall a, x = Ok a -> hoare P (k a) Q) -> (forall e s, x = Err e -> P s -> Q (Err e) s) ->
  x <> Panic -> hoare P (lift_res x ≫= k) Q.
Proof.
  intros Ha He Hp s r s' HP. rewrite st_bind_run. unfold lift_res.
  destruct x; [by apply Ha|intros [= <- <-]; by apply He|done].
Qed.

Lemma hoare_modify {S E B} (P : S -> Prop) (f : S -> S) (k : unit -> st S E B) Q :
  hoare (fun s => exists s0, P s0 /\ s = f s0) (k tt) Q -> hoare P (modify f ≫= k) Q.
Proof. intros Hk s r s' HP. rewrite modify_bind. apply Hk. eauto. Qed.

Lemma ok_or_Ok {E A} (o : option A) (e : E) a : ok_or o e = Ok a <-> o = Some a.
Proof. destruct o; cbn; naive_solver. Qed.

Lemma expect_Ok {E A} (o : option A) a : expect (E:=E) o = Ok a <-> o = Some a.
Proof. destruct o; cbn; naive_solver. Qed.

Lemma map_err_Ok {E F A} (f : E -> F) (r : res E A) a :
  map_err f r = Ok a <-> r = Ok a.
Proof. destruct r; cbn; naive_solver. Qed.

Lemma checked_add_Some max a b c :
  checked_add max a b = Some c <-> (a + b <= max)%N /\ c = (a + b)%N.
Proof. unfold checked_add. case_decide; naive_solver. Qed.

Lemma checked_add_None max a b : checked_add max a b = None <-> (max < a + b)%N.
Proof. unfold checked_add. case_decide; naive_solver lia. Qed.

Lemma mapM_res_Ok {E A B} (f : A -> res E B) xs ys :
  mapM_res f xs = Ok ys <-> Forall2 (fun x y => f x = Ok y) xs ys.
Proof.
  revert ys. induction xs as [|x xs IH]; intros ys; cbn.
  - split; [intros [= <-]; constructor | inversion 1; reflexivity].
  - split.
    + intros (b & Hb & (bs & Hbs & [= <-])%bind_Ok)%bind_Ok.
      constructor; [done|]. by apply IH.
    + inversion 1 as [|? y ? ys' Hy Hys]; subst. apply IH in Hys.
      rewrite Hy. cbn. by rewrite Hys.
Qed.

Lemma vec_get_Some {A} (l : list A) i x : vec_get l i = Some x <-> l !! N.to_nat i = Some x.
Proof.
  unfold vec_get. destruct (N.ltb_spec i (N.of_nat (length l))); [done|].
  split; [done|]. intros Hl%lookup_lt_Some. lia.
Qed.

Lemma mapM_res_no_panic {E A B} (f : A -> res E B) xs :
  (forall x, x ∈ xs -> f x <> Panic) -> mapM_res f xs <> Panic.
Proof.
  induction xs as [|x xs IH]; intros Hf; cbn; [done|].
  specialize (Hf x (list_elem_of_here _ _)) as Hx. destruct (f x); cbn; [|done|done].
  assert (mapM_res f xs <> Panic) as Hn by (apply IH; intros; apply Hf; by right).
  by destruct (mapM_res f xs).
Qed.

Lemma mapM_res_length {E A B} (f : A -> res E B) xs ys : mapM_res f xs = Ok ys -> length ys = length xs.
Proof. intros H%mapM_res_Ok. symmetry. by eapply Forall2_length. Qed.

Lemma mapM_res_total {E A B} (f : A -> res E B) xs :
  (forall x, x ∈ xs -> exists y, f x = Ok y) -> exists ys, mapM_res f xs = Ok ys.
Proof.
  induction xs as [|x xs IH]; intros Hf; cbn; [eauto|].
  destruct (Hf x (list_elem_of_here _ _)) as [y ->]. cbn.
  destruct IH as [ys ->]; [intros z Hz; apply Hf; by right|]. cbn. eauto.
Qed.

(** If every error of the body is [e], so is every error of the loop. *)
Lemma mapM_res_only_error {E A B} (f : A -> res E B) (e : E) xs :
  (forall x, x ∈ xs -> (exists y, f x = Ok y) \/ f x = Err e) ->
  (exists ys, mapM_res f xs = Ok ys) \/ mapM_res f xs = Err e.
Proof.
  induction xs as [|x xs IH]; intros Hf; cbn; [left; eauto|].
  destruct (Hf x (list_elem_of_here _ _)) as [[y ->]| ->]; [|by right]. cbn.
  destruct IH as [[ys ->]| ->]; [intros z Hz; apply Hf; by right|left; cbn; eauto|by right].
Qed.

Lemma Forall2_impl_in {A B} (P Q : A -> B -> Prop) l k : Forall2 P l k ->
  (forall x y, x ∈ l -> P x y -> Q x y) -> Forall2 Q l k.
Proof.
  induction 1 as [|x y l k Hxy _ IH]; intros Himp; constructor.
  - apply Himp; [left|done].
  - apply IH. intros a b Ha. apply Himp. by right.
Qed.

(** ** Sorted lists *)

(** A sorted list without duplicates is strictly sorted. *)
Lemma StronglySorted_lt_of_le (l : list N) :
  StronglySorted N.le l -> NoDup l -> StronglySorted N.lt l.
Proof.
  induction 1 as [|x l Hl IH Hx]; intros Hnd; [constructor|].
  apply NoDup_cons in Hnd as [Hni Hnd]. constructor; [auto|].
  rewrite Forall_forall in Hx |- *. intros y Hy.
  assert (x <> y) by (intros ->; done). specialize (Hx y Hy). lia.
Qed.

Lemma filter_Permutation {A} (P : A -> Prop) `{forall x, Decision (P x)} (l1 l2 : list A) :
  l1 ≡ₚ l2 -> filter P l1 ≡ₚ filter P l2.
Proof. intros H1. by rewrite H1. Qed.

Lemma StronglySorted_mono {A} (R S : A -> A -> Prop) l :
  (forall a b, R a b -> S a b) -> StronglySorted R l -> StronglySorted S l.
Proof.
  intros HRS. induction 1 as [|x l Hl IH Hx]; constructor; auto.
  eapply Forall_impl; eauto.
Qed.
