(* ===== verification/Float64.v ===== *)
(** IEEE-754 binary64 arithmetic as the Rust sources use it.

    An [f64] is a [spec_float] of the Standard Library with 53 bits of
    precision and exponent bound 1024 (a NaN has no payload there).  The file
    holds the operations the search core calls on [f64], the facts that make
    [<], [<=] and [==] usable in proofs (a lexicographic key on which all
    comparisons are computed) and [f64::total_cmp] through the bit pattern,
    with the proof that it is the numeric order on finite, normalised
    values. *)
From Stdlib Require Export Floats.SpecFloat.
From Stdlib Require Import ZArith.
From S2P Require Import Prelude.

Abbreviation f64 := spec_float.
Global Instance spec_float_eq_dec : EqDecision spec_float.
Proof. solve_decision. Defined.

Definition f64_valid (x : f64) : bool := valid_binary 53 1024 x.

Definition is_nan (x : f64) : bool :=
  match x with S754_nan => true | _ => false end.

Definition is_finite (x : f64) : bool :=
  match x with S754_zero _ | S754_finite _ _ _ => true | _ => false end.

Definition f64_zero : f64 := S754_zero false.
Definition f64_one : f64 := S754_finite false 4503599627370496 (-52).
Definition f64_infinity : f64 := S754_infinity false.
Definition f64_neg_infinity : f64 := S754_infinity true.

Definition f64_add : f64 -> f64 -> f64 := SFadd 53 1024.
Definition f64_sub : f64 -> f64 -> f64 := SFsub 53 1024.
Definition f64_mul : f64 -> f64 -> f64 := SFmul 53 1024.
Definition f64_div : f64 -> f64 -> f64 := SFdiv 53 1024.
Definition f64_sqrt : f64 -> f64 := SFsqrt 53 1024.
Definition f64_abs : f64 -> f64 := SFabs.

(** Rust's [x < y], [x <= y], [x == y], [x > y], [x >= y]. *)
Definition f64_ltb (x y : f64) : bool := SFltb x y.
Definition f64_leb (x y : f64) : bool := SFleb x y.
Definition f64_eqb (x y : f64) : bool := SFeqb x y.
Definition f64_gtb (x y : f64) : bool := SFltb y x.
Definition f64_geb (x y : f64) : bool := SFleb y x.

(** [u32]/[u64] to [f64] ([f64::from], [as f64]): round to nearest even. *)
Definition f64_of_N (n : N) : f64 := binary_normalize 53 1024 (Z.of_N n) 0 false.

(** [f64::min] and [f64::max]: a NaN operand is ignored. *)
Definition f64_min (x y : f64) : f64 :=
  if is_nan x then y else if is_nan y then x else if f64_ltb y x then y else x.
Definition f64_max (x y : f64) : f64 :=
  if is_nan x then y else if is_nan y then x else if f64_ltb x y then y else x.

(** [x.clamp(lo, hi)]; a NaN stays a NaN. *)
Definition f64_clamp (x lo hi : f64) : f64 :=
  if f64_ltb x lo then lo else if f64_gtb x hi then hi else x.

Definition f64_floor_Z (s : bool) (m : positive) (e : Z) : Z :=
  let v := cond_Zopp s (Zpos m) in
  if (0 <=? e)%Z then (v * 2 ^ e)%Z else (v / 2 ^ (- e))%Z.

Definition f64_floor (x : f64) : f64 :=
  match x with
  | S754_finite s m e => binary_normalize 53 1024 (f64_floor_Z s m e) 0 s
  | _ => x
  end.

Definition f64_trunc_Z (s : bool) (m : positive) (e : Z) : Z :=
  let v := cond_Zopp s (Zpos m) in
  if (0 <=? e)%Z then (v * 2 ^ e)%Z else (Z.quot v (2 ^ (- e)))%Z.

(** [x as usize], [x as u32]: truncation, saturating at both ends, NaN to 0. *)
Definition f64_as_unsigned (max : N) (x : f64) : N :=
  match x with
  | S754_zero _ | S754_nan => 0%N
  | S754_infinity s => if s then 0%N else max
  | S754_finite s m e => N.min (Z.to_N (f64_trunc_Z s m e)) max
  end.

(** ** The comparison key *)

Definition fkey (x : f64) : Z * Z * Z :=
  match x with
  | S754_zero _ | S754_nan => (0, 0, 0)%Z
  | S754_infinity s => (if s then -2 else 2, 0, 0)%Z
  | S754_finite s m e => if s then (-1, - e, Zneg m)%Z else (1, e, Zpos m)%Z
  end.

Definition fkey_lt (a b : Z * Z * Z) : Prop :=
  let '(a1, a2, a3) := a in let '(b1, b2, b3) := b in
  (a1 < b1 \/ a1 = b1 /\ (a2 < b2 \/ a2 = b2 /\ a3 < b3))%Z.

Lemma SFcompare_finite_cases s1 m1 e1 s2 m2 e2 :
  exists c, SFcompare (S754_finite s1 m1 e1) (S754_finite s2 m2 e2) = Some c /\
  match c with
  | Eq => fkey (S754_finite s1 m1 e1) = fkey (S754_finite s2 m2 e2)
  | Lt => fkey_lt (fkey (S754_finite s1 m1 e1)) (fkey (S754_finite s2 m2 e2))
  | Gt => fkey_lt (fkey (S754_finite s2 m2 e2)) (fkey (S754_finite s1 m1 e1))
  end.
Proof.
  assert (forall a b, Pos.compare_cont Eq a b = Pos.compare a b) as HP by reflexivity.
  destruct s1, s2; cbn; rewrite ?HP; eexists; (split; [reflexivity|]); cbn; try lia;
    destruct (Z.compare_spec e1 e2); cbn; subst; try lia;
    destruct (Pos.compare_spec m1 m2); cbn; subst; try lia; auto.
Qed.

Lemma SFcompare_cases x y : is_nan x = false -> is_nan y = false ->
  exists c, SFcompare x y = Some c /\
  match c with
  | Eq => fkey x = fkey y
  | Lt => fkey_lt (fkey x) (fkey y)
  | Gt => fkey_lt (fkey y) (fkey x)
  end.
Proof.
  intros Hx Hy.
  destruct x as [sx|sx| |sx mx ex], y as [sy|sy| |sy my ey]; try discriminate;
    try apply SFcompare_finite_cases;
    repeat match goal with s : bool |- _ => destruct s end;
    eexists; (split; [reflexivity|]); cbn; auto; lia.
Qed.

Lemma f64_ltb_spec x y :
  f64_ltb x y = true <-> is_nan x = false /\ is_nan y = false /\ fkey_lt (fkey x) (fkey y).
Proof.
  unfold f64_ltb, SFltb.
  destruct (is_nan x) eqn:Hx; [destruct x; try discriminate; cbn; naive_solver|].
  destruct (is_nan y) eqn:Hy; [destruct x, y; try discriminate; cbn; naive_solver|].
  destruct (SFcompare_cases x y Hx Hy) as (c & -> & Hc).
  destruct (fkey x) as [[??]?], (fkey y) as [[??]?], c; cbn in *; simplify_eq;
    intuition (congruence || lia).
Qed.

Lemma f64_eqb_spec x y :
  f64_eqb x y = true <-> is_nan x = false /\ is_nan y = false /\ fkey x = fkey y.
Proof.
  unfold f64_eqb, SFeqb.
  destruct (is_nan x) eqn:Hx; [destruct x; try discriminate; cbn; naive_solver|].
  destruct (is_nan y) eqn:Hy; [destruct x, y; try discriminate; cbn; naive_solver|].
  destruct (SFcompare_cases x y Hx Hy) as (c & -> & Hc).
  destruct (fkey x) as [[??]?], (fkey y) as [[??]?], c; cbn in *; simplify_eq;
    intuition (try congruence); simplify_eq; lia.
Qed.

Lemma f64_leb_spec x y :
  f64_leb x y = true <->
  is_nan x = false /\ is_nan y = false /\ (fkey_lt (fkey x) (fkey y) \/ fkey x = fkey y).
Proof.
  unfold f64_leb, SFleb.
  destruct (is_nan x) eqn:Hx; [destruct x; try discriminate; cbn; naive_solver|].
  destruct (is_nan y) eqn:Hy; [destruct x, y; try discriminate; cbn; naive_solver|].
  destruct (SFcompare_cases x y Hx Hy) as (c & -> & Hc).
  destruct (fkey x) as [[??]?], (fkey y) as [[??]?], c; cbn in *; simplify_eq;
    intuition (try congruence); simplify_eq; lia.
Qed.

Lemma fkey_lt_trans a b c : fkey_lt a b -> fkey_lt b c -> fkey_lt a c.
Proof. destruct a as [[??]?], b as [[??]?], c as [[??]?]; cbn; lia. Qed.
Lemma fkey_lt_irrefl a : ~ fkey_lt a a.
Proof. destruct a as [[??]?]; cbn; lia. Qed.
Lemma fkey_lt_total a b : fkey_lt a b \/ a = b \/ fkey_lt b a.
Proof.
  destruct a as [[a1 a2] a3], b as [[b1 b2] b3]; cbn.
  destruct (Z.lt_trichotomy a1 b1) as [|[->|]]; [lia| |lia].
  destruct (Z.lt_trichotomy a2 b2) as [|[->|]]; [lia| |lia].
  destruct (Z.lt_trichotomy a3 b3) as [|[->|]]; [lia|auto|lia].
Qed.

Lemma is_finite_not_nan x : is_finite x = true -> is_nan x = false.
Proof. by destruct x. Qed.

(** [x <= y] is the negation of [y < x] when neither is a NaN. *)
Lemma f64_leb_negb_ltb x y : is_nan x = false -> is_nan y = false ->
  f64_leb x y = negb (f64_ltb y x).
Proof.
  intros Hx Hy. apply eq_bool_prop_intro.
  rewrite negb_True, !Is_true_true, f64_leb_spec, f64_ltb_spec.
  destruct (fkey_lt_total (fkey x) (fkey y)) as [H|[H|H]].
  - split; [|naive_solver]. intros _ (_ & _ & H'). eapply fkey_lt_irrefl, fkey_lt_trans; eauto.
  - rewrite H. split; [|naive_solver]. intros _ (_ & _ & H'). by eapply fkey_lt_irrefl.
  - split; [|intros []; naive_solver]. intros (_ & _ & [H'|H']) _.
    + eapply fkey_lt_irrefl, fkey_lt_trans; eauto.
    + rewrite H' in H. by eapply fkey_lt_irrefl.
Qed.

Lemma f64_leb_refl x : is_nan x = false -> f64_leb x x = true.
Proof. intros H. apply f64_leb_spec. auto. Qed.

Lemma f64_leb_trans x y z : f64_leb x y = true -> f64_leb y z = true -> f64_leb x z = true.
Proof.
  rewrite !f64_leb_spec. intros (Hx & Hy & Hxy) (_ & Hz & Hyz). split_and!; auto.
  destruct Hxy as [Hxy| ->]; auto. destruct Hyz as [Hyz|<-]; auto.
  left. eapply fkey_lt_trans; eauto.
Qed.

Lemma f64_ltb_leb x y : f64_ltb x y = true -> f64_leb x y = true.
Proof. rewrite f64_leb_spec, f64_ltb_spec. naive_solver. Qed.

Lemma f64_leb_ltb_trans x y z : f64_leb x y = true -> f64_ltb y z = true -> f64_ltb x z = true.
Proof.
  rewrite f64_leb_spec, !f64_ltb_spec. intros (Hx & Hy & Hxy) (_ & Hz & Hyz). split_and!; auto.
  destruct Hxy as [Hxy| ->]; auto. eapply fkey_lt_trans; eauto.
Qed.

Lemma f64_ltb_irrefl x : f64_ltb x x = false.
Proof.
  apply not_true_iff_false. rewrite f64_ltb_spec. intros (_ & _ & H). by eapply fkey_lt_irrefl.
Qed.

Lemma f64_eqb_leb x y : f64_eqb x y = true -> f64_leb x y = true /\ f64_leb y x = true.
Proof. rewrite f64_eqb_spec, !f64_leb_spec. naive_solver. Qed.

(** ** Bit patterns and [f64::total_cmp] *)

Definition mag_bits (x : f64) : Z :=
  match x with
  | S754_zero _ => 0
  | S754_infinity _ => 2047 * 2 ^ 52
  | S754_nan => 2047 * 2 ^ 52 + 2 ^ 51
  | S754_finite _ m e =>
      if (Zpos m <? 2 ^ 52)%Z then Zpos m else (e + 1075) * 2 ^ 52 + (Zpos m - 2 ^ 52)
  end%Z.

Definition sign_bit (x : f64) : bool :=
  match x with
  | S754_zero s | S754_infinity s | S754_finite s _ _ => s
  | S754_nan => false
  end.

(** [f64::to_bits]: the sign bit above 63 bits of exponent and mantissa. *)
Definition to_bits (x : f64) : Z :=
  ((if sign_bit x then 2 ^ 63 else 0) + mag_bits x)%Z.

Definition as_i64 (b : Z) : Z := if (2 ^ 63 <=? b)%Z then (b - 2 ^ 64)%Z else b.

(** The key of [f64::total_cmp]: the bits as [i64], the low 63 of them
    flipped when the sign is set. *)
Definition total_key (x : f64) : Z :=
  let left := as_i64 (to_bits x) in
  Z.lxor left (Z.shiftr (Z.shiftr left 63 mod 2 ^ 64) 1).

Definition total_cmp (x y : f64) : comparison := Z.compare (total_key x) (total_key y).

Lemma lxor_ones_63 m : (0 <= m < 2 ^ 63)%Z -> Z.lxor (m - 2 ^ 63) (2 ^ 63 - 1) = (-1 - m)%Z.
Proof.
  intros Hm.
  replace (m - 2 ^ 63)%Z with (Z.lnot (Z.ones 63 - m)%Z)
    by (rewrite Z.ones_equiv; unfold Z.lnot; lia).
  replace (2 ^ 63 - 1)%Z with (Z.ones 63) by reflexivity.
  rewrite (Z.sub_nocarry_ldiff (Z.ones 63) m).
  2: { destruct (Z.eq_dec m 0%Z) as [->|]; [reflexivity|].
       apply Z.ldiff_ones_r_low; [lia|]. apply Z.log2_lt_pow2; lia. }
  rewrite <- Z.lnot_lxor_l.
  replace (-1 - m)%Z with (Z.lnot m) by (unfold Z.lnot; lia). f_equal.
  apply Z.bits_inj'. intros n Hn. rewrite Z.lxor_spec, Z.ldiff_spec.
  destruct (Z.lt_ge_cases n 63%Z) as [Hlt|Hge].
  - rewrite Z.ones_spec_low by lia. by destruct (Z.testbit m n).
  - rewrite Z.ones_spec_high by lia. destruct (Z.eq_dec m 0%Z) as [->|];
      [by rewrite Z.bits_0|].
    rewrite Z.bits_above_log2; [done|lia|].
    apply Z.lt_le_trans with 63%Z; [|lia]. apply Z.log2_lt_pow2; lia.
Qed.

Lemma digits2_pos_log2 m : Zpos (digits2_pos m) = (Z.log2 (Zpos m) + 1)%Z.
Proof.
  induction m as [m IH|m IH|]; [| |reflexivity]; cbn [digits2_pos];
    rewrite Pos2Z.inj_succ, IH.
  - change (Z.pos m~1) with (2 * Z.pos m + 1)%Z. rewrite Z.log2_succ_double by lia. lia.
  - change (Z.pos m~0) with (2 * Z.pos m)%Z. rewrite Z.log2_double by lia. lia.
Qed.

(** The mantissa and exponent of a finite [f64]: subnormal or normal. *)
Lemma bounded_cases m e : bounded 53 1024 m e = true ->
  (e = -1074 /\ Zpos m < 2 ^ 53 \/
   -1074 <= e <= 971 /\ 2 ^ 52 <= Zpos m < 2 ^ 53)%Z.
Proof.
  unfold bounded, canonical_mantissa, fexp, emin. rewrite digits2_pos_log2.
  intros [He Hle]%andb_true_iff. apply Z.eqb_eq in He. apply Z.leb_le in Hle.
  pose proof (Z.log2_spec (Zpos m) ltac:(lia)) as [Hlo Hhi].
  destruct (Z.le_gt_cases (Z.log2 (Zpos m)) 51%Z) as [H|H].
  - left. split; [lia|]. eapply Z.lt_le_trans; [exact Hhi|]. apply Z.pow_le_mono_r; lia.
  - assert (Z.log2 (Zpos m) = 52%Z) as HL by lia. rewrite HL in *. right. lia.
Qed.

Lemma mag_bits_range x : f64_valid x = true -> (0 <= mag_bits x < 2 ^ 63)%Z.
Proof.
  destruct x as [s|s| |s m e]; cbn [mag_bits f64_valid valid_binary]; intros H; try lia.
  apply bounded_cases in H. destruct (Z.ltb_spec (Zpos m) (2 ^ 52)%Z); lia.
Qed.

Lemma total_key_spec x : f64_valid x = true ->
  total_key x = if sign_bit x then (-1 - mag_bits x)%Z else mag_bits x.
Proof.
  intros Hv. pose proof (mag_bits_range x Hv) as Hm. unfold total_key, to_bits, as_i64.
  destruct (sign_bit x).
  - destruct (Z.leb_spec (2 ^ 63)%Z (2 ^ 63 + mag_bits x)%Z); [|lia].
    replace (2 ^ 63 + mag_bits x - 2 ^ 64)%Z with (mag_bits x - 2 ^ 63)%Z by lia.
    rewrite (Z.shiftr_div_pow2 (_ - _)) by lia.
    replace ((mag_bits x - 2 ^ 63) / 2 ^ 63)%Z with (-1)%Z
      by (apply Z.div_unique with (mag_bits x); lia).
    by apply lxor_ones_63.
  - rewrite Z.add_0_l. destruct (Z.leb_spec (2 ^ 63)%Z (mag_bits x)); [lia|].
    rewrite (Z.shiftr_div_pow2 (mag_bits x)), Z.div_small by lia. apply Z.lxor_0_r.
Qed.

(** Finite, valid and not the negative zero. *)
Definition f64_normalized (x : f64) : bool :=
  f64_valid x && match x with S754_zero s => negb s | S754_finite _ _ _ => true | _ => false end.

Lemma mag_bits_mono m1 e1 m2 e2 s1 s2 :
  bounded 53 1024 m1 e1 = true -> bounded 53 1024 m2 e2 = true ->
  ((e1 < e2 \/ e1 = e2 /\ Zpos m1 < Zpos m2) ->
   mag_bits (S754_finite s1 m1 e1) < mag_bits (S754_finite s2 m2 e2))%Z.
Proof.
  intros H1%bounded_cases H2%bounded_cases. cbn [mag_bits].
  destruct (Z.ltb_spec (Zpos m1) (2 ^ 52)%Z), (Z.ltb_spec (Zpos m2) (2 ^ 52)%Z); lia.
Qed.

Lemma total_key_lt x y : f64_normalized x = true -> f64_normalized y = true ->
  fkey_lt (fkey x) (fkey y) -> (total_key x < total_key y)%Z.
Proof.
  unfold f64_normalized. intros [Hx Hx']%andb_true_iff [Hy Hy']%andb_true_iff Hlt.
  rewrite !total_key_spec by done.
  pose proof (mag_bits_range _ Hx). pose proof (mag_bits_range _ Hy).
  destruct x as [[]|[]| |[] m1 e1], y as [[]|[]| |[] m2 e2]; try discriminate;
    cbn [sign_bit fkey fkey_lt] in *; try lia.
  - cbn [mag_bits]. apply bounded_cases in Hy.
    destruct (Z.ltb_spec (Zpos m2) (2 ^ 52)%Z); lia.
  - pose proof (mag_bits_mono m2 e2 m1 e1 true true Hy Hx). lia.
  - pose proof (mag_bits_mono m1 e1 m2 e2 false false Hx Hy). lia.
Qed.

Lemma fkey_inj x y : f64_normalized x = true -> f64_normalized y = true ->
  fkey x = fkey y -> x = y.
Proof.
  unfold f64_normalized. intros [_ Hx']%andb_true_iff [_ Hy']%andb_true_iff.
  destruct x as [[]|[]| |[] m1 e1], y as [[]|[]| |[] m2 e2]; try discriminate;
    cbn; intros; simplify_eq; try done.
  do 2 f_equal; lia.
Qed.

(** On finite normalised values [total_cmp] is the IEEE order. *)
Lemma total_cmp_numeric x y : f64_normalized x = true -> f64_normalized y = true ->
  SFcompare x y = Some (total_cmp x y).
Proof.
  intros Hx Hy.
  assert (is_nan x = false /\ is_nan y = false) as [Nx Ny].
  { unfold f64_normalized in *. destruct x, y; rewrite ?andb_false_r in *; done. }
  destruct (SFcompare_cases x y Nx Ny) as (c & -> & Hc). f_equal. unfold total_cmp.
  destruct c.
  - apply fkey_inj in Hc; auto. subst. symmetry. apply Z.compare_refl.
  - apply total_key_lt in Hc; [|done|done]. symmetry. exact Hc.
  - apply total_key_lt in Hc; [|done|done]. symmetry. apply Z.compare_gt_iff. exact Hc.
Qed.

Lemma to_bits_inj x y : f64_normalized x = true -> f64_normalized y = true ->
  to_bits x = to_bits y -> x = y.
Proof.
  intros Hx Hy Hb.
  assert (total_cmp x y = Eq) as Hc.
  { unfold total_cmp, total_key. rewrite Hb. apply Z.compare_refl. }
  pose proof (total_cmp_numeric x y Hx Hy) as HS. rewrite Hc in HS.
  apply fkey_inj; auto. apply f64_eqb_spec. unfold f64_eqb, SFeqb. by rewrite HS.
Qed.
