(* ===== verification/Types.v ===== *)
(** Value types and configuration of the search core
    (crates/orch-core/src/types.rs and config_rejections.rs): identifiers,
    finite floats, the enums of the tree and of the configuration, the
    [ExperimentConfig] record with its defaults and its accumulating
    validation, and the rejection messages. *)
From stdpp Require Import pretty.
From S2P Require Import Prelude Float64.
Local Open Scope string_scope.

(** ** Identifiers *)

Abbreviation NodeId := N (only parsing).
Abbreviation CellKey := N (only parsing).
Abbreviation Stage := N (only parsing).
Abbreviation FrameCount := N (only parsing).
(** 32-byte digests are byte strings; their derived order is lexicographic. *)
Abbreviation SnapshotRef := (list N) (only parsing).
Abbreviation StateHash := (list N) (only parsing).

Definition DIGEST_LEN : nat := 32.
Definition EXPERIMENT_CONFIG_VERSION : N := 1.

Definition ROOT : NodeId := 0%N.
Definition NodeId_is_root (id : NodeId) : bool := (id =? ROOT)%N.

(** ** Finite floats *)

Record FiniteF64 := mkFinite {
  finite_get : f64;
  finite_ok : f64_normalized finite_get = true
}.

Record NonFiniteFloatError := mkNonFinite { nonfinite_value : f64 }.

Abbreviation Score := FiniteF64 (only parsing).
Abbreviation Novelty := FiniteF64 (only parsing).

(** The constructor of [FiniteF64]; the inner test only rejects terms that
    are not the value of any [f64]. *)
Definition FiniteF64_new (value : f64) : res NonFiniteFloatError FiniteF64 :=
  if negb (is_finite value) then Err (mkNonFinite value)
  else
    let normalized := if f64_eqb value f64_zero then f64_zero else value in
    match decide (f64_normalized normalized = true) with
    | left H => Ok (mkFinite normalized H)
    | right _ => Err (mkNonFinite value)
    end.

(** [PartialEq] and [Ord] of [FiniteF64]. *)
Definition FiniteF64_eq (x y : FiniteF64) : bool :=
  Z.eqb (to_bits (finite_get x)) (to_bits (finite_get y)).
Definition FiniteF64_cmp (x y : FiniteF64) : comparison :=
  total_cmp (finite_get x) (finite_get y).

Lemma FiniteF64_ext (x y : FiniteF64) : finite_get x = finite_get y -> x = y.
Proof.
  destruct x as [x Hx], y as [y Hy]; cbn; intros ->. f_equal. apply proof_irrel.
Qed.

Global Instance FiniteF64_eq_dec : EqDecision FiniteF64.
Proof.
  intros x y. destruct (decide (finite_get x = finite_get y)) as [H|H].
  - left. by apply FiniteF64_ext.
  - right. congruence.
Defined.

(** ** Enums *)

Inductive NodeStatus := StFrontier | StExpanded | StPruned | StGoal.
Inductive PruneAction := Exhausted | Drop.
Inductive OnGoal := StopOnGoal | ContinueOnGoal.
Inductive PolicyKind := Softmax | Ucb | Staged.
Inductive SchedMode := Fast | Deterministic.
Inductive DiscardReason := Duplicate | Regression | PruneDrop.
Inductive CommitDisposition :=
| Keep
| Discard (reason : DiscardReason)
| PrunedExhausted.
Inductive FrontierEvictReason := MaxVisits | AllDuplicateExpansions.

Global Instance NodeStatus_eq_dec : EqDecision NodeStatus.
Proof. solve_decision. Defined.
Global Instance PruneAction_eq_dec : EqDecision PruneAction.
Proof. solve_decision. Defined.
Global Instance PolicyKind_eq_dec : EqDecision PolicyKind.
Proof. solve_decision. Defined.
Global Instance SchedMode_eq_dec : EqDecision SchedMode.
Proof. solve_decision. Defined.
Global Instance DiscardReason_eq_dec : EqDecision DiscardReason.
Proof. solve_decision. Defined.
Global Instance CommitDisposition_eq_dec : EqDecision CommitDisposition.
Proof. solve_decision. Defined.
Global Instance FrontierEvictReason_eq_dec : EqDecision FrontierEvictReason.
Proof. solve_decision. Defined.

(** ** Configuration *)

Record Budgets := mkBudgets {
  max_nodes : N;
  max_wall_clock_s : N;
  max_guest_instructions : N;
  max_expansions : N
}.
Definition Budgets_default : Budgets := mkBudgets 1000000 86400 0 0.

Record StagedConfig := mkStagedConfig {
  staged_inner : PolicyKind;
  epsilon_regress : f64
}.

Record SelectionConfig := mkSelectionConfig {
  sel_policy : PolicyKind;
  alpha : f64;
  beta : f64;
  gamma : f64;
  delta : f64;
  temperature : f64;
  ucb_c : f64;
  staged : StagedConfig;
  max_visits_per_node : N;
  exhaust_after_dup_expansions : N
}.

Record BurstConfig := mkBurstConfig {
  k_per_expansion : N;
  base_burst_len_frames : N;
  max_burst_len_frames : N;
  max_guest_instructions_per_job : N
}.

Record LadderConfig := mkLadderConfig {
  burst_len_factor : f64;
  temp_factor : f64;
  macro_weight_hot : f64;
  backtrack_kappa : f64;
  backtrack_depth_quantile : f64;
  radius_factor : f64;
  max_level : N
}.

Record PlateauConfig := mkPlateauConfig {
  window_n : N;
  epsilon_s : f64;
  ladder : LadderConfig
}.

Record SchedulingConfig := mkSchedulingConfig {
  sched_mode : SchedMode;
  max_inflight_batches : N;
  job_timeout_s : N;
  retry_max : N;
  retry_backoff_ms : N;
  hypervisor_endpoints : list string;
  allow_class_mismatch : bool
}.

Record CheckpointConfig := mkCheckpointConfig {
  every_commits : N;
  every_seconds : N
}.

Record ExperimentConfig := mkExperimentConfig {
  cfg_version : N;
  cfg_seed : N;
  workload_image_ref : string;
  feature_map_ref : string;
  scoring_program_ref : string;
  synth_config_ref : string;
  macro_pack_refs : list string;
  budgets : Budgets;
  selection : SelectionConfig;
  burst : BurstConfig;
  plateau : PlateauConfig;
  scheduling : SchedulingConfig;
  checkpoint : CheckpointConfig;
  cfg_prune_action : PruneAction;
  on_goal : OnGoal;
  decoded_features : list string
}.

(** The float literals of the defaults, as the nearest [f64]. *)
Definition f64_lit (m : positive) (e : Z) : f64 := S754_finite false m e.
Definition f64_0_5 : f64 := f64_lit 4503599627370496 (-53).
Definition f64_0_3 : f64 := f64_lit 5404319552844595 (-54).
Definition f64_0_1 : f64 := f64_lit 7205759403792794 (-56).
Definition f64_1_4 : f64 := f64_lit 6305039478318694 (-52).
Definition f64_0_05 : f64 := f64_lit 7205759403792794 (-57).
Definition f64_0_001 : f64 := f64_lit 4611686018427388 (-62).
Definition f64_1_5 : f64 := f64_lit 6755399441055744 (-52).
Definition f64_1_75 : f64 := f64_lit 7881299347898368 (-52).
Definition f64_2 : f64 := f64_lit 4503599627370496 (-51).

Definition StagedConfig_default : StagedConfig := mkStagedConfig Softmax f64_0_05.
Definition SelectionConfig_default : SelectionConfig :=
  mkSelectionConfig Softmax f64_one f64_0_5 f64_0_3 f64_0_1 f64_one f64_1_4
    StagedConfig_default 64 8.
Definition BurstConfig_default : BurstConfig := mkBurstConfig 16 120 600 0.
Definition LadderConfig_default : LadderConfig :=
  mkLadderConfig f64_1_5 f64_1_75 f64_0_5 f64_one f64_0_5 f64_2 4.
Definition PlateauConfig_default : PlateauConfig :=
  mkPlateauConfig 200 f64_0_001 LadderConfig_default.
Definition SchedulingConfig_default : SchedulingConfig :=
  mkSchedulingConfig Fast 2 120 3 250 [] false.
Definition CheckpointConfig_default : CheckpointConfig := mkCheckpointConfig 64 30.

Definition ExperimentConfig_new (seed : N) (workload feature_map scoring synth : string)
    : ExperimentConfig :=
  mkExperimentConfig EXPERIMENT_CONFIG_VERSION seed workload feature_map scoring synth []
    Budgets_default SelectionConfig_default BurstConfig_default PlateauConfig_default
    SchedulingConfig_default CheckpointConfig_default Exhausted StopOnGoal [].

(** ** Validation *)

Inductive ConfigError :=
| InvalidVersion (version : N)
| MissingRequiredField (field : string)
| OutOfRange (field : string)
| UnknownEnumValue (field : string)
| InvalidStagedInnerPolicy
| DecodedFeatureNotInFeatureMap (name : string).

Global Instance ConfigError_eq_dec : EqDecision ConfigError.
Proof. solve_decision. Defined.

Definition require_non_empty (field value : string) : res ConfigError unit :=
  if decide (value = "") then Err (MissingRequiredField field) else Ok tt.

Definition finite_positive (value : f64) : bool := is_finite value && f64_gtb value f64_zero.
Definition finite_non_negative (value : f64) : bool := is_finite value && f64_geb value f64_zero.
Definition finite_unit_interval (value : f64) : bool :=
  is_finite value && (f64_leb f64_zero value && f64_leb value f64_one).

(** [if cond { errors.push(error) }] and its variants. *)
Definition push_if (cond : bool) (error : ConfigError) : list ConfigError :=
  if cond then [error] else [].
Definition push_err (r : res ConfigError unit) : list ConfigError :=
  match r with Err e => [e] | _ => [] end.

Definition validate_all (c : ExperimentConfig) : list ConfigError :=
  let s := selection c in
  let l := ladder (plateau c) in
  push_if (negb (cfg_version c =? EXPERIMENT_CONFIG_VERSION)%N) (InvalidVersion (cfg_version c))
  ++ push_if (cfg_seed c =? 0)%N (MissingRequiredField "seed")
  ++ push_err (require_non_empty "workload_image_ref" (workload_image_ref c))
  ++ push_err (require_non_empty "feature_map_ref" (feature_map_ref c))
  ++ push_err (require_non_empty "scoring_program_ref" (scoring_program_ref c))
  ++ push_err (require_non_empty "synth_config_ref" (synth_config_ref c))
  ++ push_if (negb ((1 <=? k_per_expansion (burst c))%N && (k_per_expansion (burst c) <=? 256)%N))
       (OutOfRange "burst.k_per_expansion")
  ++ push_if (max_burst_len_frames (burst c) <? base_burst_len_frames (burst c))%N
       (OutOfRange "burst.base_burst_len_frames")
  ++ push_if (negb (finite_positive (temperature s))) (OutOfRange "selection.temperature")
  ++ concat (map (fun '(field, value) =>
       push_if (negb (finite_non_negative value)) (OutOfRange field))
       [("selection.alpha", alpha s); ("selection.beta", beta s);
        ("selection.gamma", gamma s); ("selection.delta", delta s);
        ("selection.ucb_c", ucb_c s)])
  ++ push_if (negb (finite_unit_interval (epsilon_regress (staged s))))
       (OutOfRange "selection.staged.epsilon_regress")
  ++ push_if (max_visits_per_node s =? 0)%N (OutOfRange "selection.max_visits_per_node")
  ++ push_if (exhaust_after_dup_expansions s =? 0)%N
       (OutOfRange "selection.exhaust_after_dup_expansions")
  ++ push_if (bool_decide (sel_policy s = Staged) && bool_decide (staged_inner (staged s) = Staged))
       InvalidStagedInnerPolicy
  ++ push_if (base_burst_len_frames (burst c) =? 0)%N (OutOfRange "burst.base_burst_len_frames")
  ++ push_if (max_burst_len_frames (burst c) =? 0)%N (OutOfRange "burst.max_burst_len_frames")
  ++ push_if (window_n (plateau c) <? 10)%N (OutOfRange "plateau.window_n")
  ++ push_if (negb (finite_positive (epsilon_s (plateau c)))) (OutOfRange "plateau.epsilon_s")
  ++ push_if (4 <? max_level l)%N (OutOfRange "plateau.ladder.max_level")
  ++ push_if (bool_decide (sched_mode (scheduling c) = Deterministic)
              && negb (max_inflight_batches (scheduling c) =? 1)%N)
       (OutOfRange "scheduling.max_inflight_batches")
  ++ push_if (bool_decide (sched_mode (scheduling c) = Fast)
              && (max_inflight_batches (scheduling c) =? 0)%N)
       (OutOfRange "scheduling.max_inflight_batches")
  ++ push_if (job_timeout_s (scheduling c) =? 0)%N (OutOfRange "scheduling.job_timeout_s")
  ++ push_if (every_commits (checkpoint c) =? 0)%N (OutOfRange "checkpoint.every_commits")
  ++ push_if (every_seconds (checkpoint c) =? 0)%N (OutOfRange "checkpoint.every_seconds")
  ++ concat (map (fun '(field, value) =>
       push_if (negb (is_finite value) || f64_ltb value f64_one) (OutOfRange field))
       [("plateau.ladder.burst_len_factor", burst_len_factor l);
        ("plateau.ladder.temp_factor", temp_factor l);
        ("plateau.ladder.radius_factor", radius_factor l)])
  ++ push_if (negb (finite_non_negative (macro_weight_hot l)))
       (OutOfRange "plateau.ladder.macro_weight_hot")
  ++ push_if (negb (finite_non_negative (backtrack_kappa l)))
       (OutOfRange "plateau.ladder.backtrack_kappa")
  ++ push_if (negb (finite_unit_interval (backtrack_depth_quantile l)))
       (OutOfRange "plateau.ladder.backtrack_depth_quantile").

Definition validate (c : ExperimentConfig) : res ConfigError unit :=
  match validate_all c with
  | error :: _ => Err error
  | [] => Ok tt
  end.

(** ** Rejection messages (config_rejections.rs) *)

Definition missing_required_field (field : string) : string := "missing required field " +:+ field.
Definition field_out_of_range (field : string) : string := "field out of range " +:+ field.
Definition unknown_enum_value (field : string) : string := "unknown enum value " +:+ field.
Definition invalid_config_version (version : N) : string :=
  "invalid config version " +:+ pretty version.
Definition INVALID_STAGED_INNER_POLICY : string := "staged inner policy cannot be staged".
Definition decoded_feature_not_in_feature_map (name : string) : string :=
  "decoded feature not in feature_map " +:+ name.

(** [Display] of [ConfigError]. *)
Definition ConfigError_fmt (e : ConfigError) : string :=
  match e with
  | InvalidVersion version => invalid_config_version version
  | MissingRequiredField field => missing_required_field field
  | OutOfRange field => field_out_of_range field
  | UnknownEnumValue field => unknown_enum_value field
  | InvalidStagedInnerPolicy => INVALID_STAGED_INNER_POLICY
  | DecodedFeatureNotInFeatureMap name => decoded_feature_not_in_feature_map name
  end.

(** ** What a valid configuration guarantees *)

Definition f64_at_least_one (x : f64) : Prop := is_finite x = true /\ f64_leb f64_one x = true.

Record config_valid (c : ExperimentConfig) : Prop := {
  cv_version : cfg_version c = EXPERIMENT_CONFIG_VERSION;
  cv_seed : cfg_seed c <> 0%N;
  cv_refs : workload_image_ref c <> "" /\ feature_map_ref c <> "" /\
            scoring_program_ref c <> "" /\ synth_config_ref c <> "";
  cv_k : (1 <= k_per_expansion (burst c) <= 256)%N;
  cv_burst : (0 < base_burst_len_frames (burst c) <= max_burst_len_frames (burst c))%N;
  cv_temperature : finite_positive (temperature (selection c)) = true;
  cv_weights : Forall (fun v => finite_non_negative v = true)
    [alpha (selection c); beta (selection c); gamma (selection c); delta (selection c);
     ucb_c (selection c); macro_weight_hot (ladder (plateau c));
     backtrack_kappa (ladder (plateau c))];
  cv_unit : Forall (fun v => finite_unit_interval v = true)
    [epsilon_regress (staged (selection c)); backtrack_depth_quantile (ladder (plateau c))];
  cv_visits : (0 < max_visits_per_node (selection c))%N;
  cv_dup : (0 < exhaust_after_dup_expansions (selection c))%N;
  cv_inner : ~ (sel_policy (selection c) = Staged /\ staged_inner (staged (selection c)) = Staged);
  cv_window : (10 <= window_n (plateau c))%N;
  cv_epsilon : finite_positive (epsilon_s (plateau c)) = true;
  cv_level : (max_level (ladder (plateau c)) <= 4)%N;
  cv_inflight : (0 < max_inflight_batches (scheduling c))%N /\
    (sched_mode (scheduling c) = Deterministic -> max_inflight_batches (scheduling c) = 1%N);
  cv_timeout : (0 < job_timeout_s (scheduling c))%N;
  cv_checkpoint : (0 < every_commits (checkpoint c))%N /\ (0 < every_seconds (checkpoint c))%N;
  cv_factors : Forall f64_at_least_one
    [burst_len_factor (ladder (plateau c)); temp_factor (ladder (plateau c));
     radius_factor (ladder (plateau c))]
}.

Lemma push_if_nil b e : push_if b e = [] <-> b = false.
Proof. destruct b; cbn; naive_solver. Qed.

Lemma push_err_non_empty f v : push_err (require_non_empty f v) = [] <-> v <> "".
Proof. unfold require_non_empty. case_decide; cbn; naive_solver. Qed.

Lemma not_below_one v :
  negb (is_finite v) || f64_ltb v f64_one = false <-> f64_at_least_one v.
Proof.
  rewrite orb_false_iff, negb_false_iff. unfold f64_at_least_one.
  split; intros [Hf H]; split; auto; apply is_finite_not_nan in Hf.
  - by rewrite f64_leb_negb_ltb, H.
  - rewrite f64_leb_negb_ltb in H by done. by apply negb_true_iff in H.
Qed.

(** The configuration is accepted exactly when every rule holds. *)
Lemma validate_all_nil c : validate_all c = [] <-> config_valid c.
Proof.
  unfold validate_all. cbv zeta. cbn [map concat].
  rewrite ?app_nil, ?push_err_non_empty, ?push_if_nil, ?not_below_one,
    ?negb_false_iff, ?andb_true_iff, ?andb_false_iff, ?bool_decide_eq_false, ?negb_false_iff,
    ?N.eqb_eq, ?N.eqb_neq, ?N.leb_le, ?N.ltb_ge.
  split.
  - intros. destruct_and!.
    split; rewrite ?Forall_cons_iff; split_and?;
      try assumption; try apply Forall_nil; try done; try lia.
    + intros [??]; tauto.
    + destruct (sched_mode (scheduling c)); intuition (congruence || lia).
    + intros Hm. rewrite Hm in *. intuition congruence.
  - intros [? ? ? ? ? ? Hw Hu ? ? Hn ? ? ? Hi ? ? Hf].
    repeat match goal with H : Forall _ (_ :: _) |- _ => inversion_clear H end. destruct_and!.
    split_and!; auto; try lia.
    + destruct (decide (sel_policy (selection c) = Staged)); [right|left]; tauto.
    + destruct (sched_mode (scheduling c)); [left; discriminate|right; auto].
Qed.

Lemma FiniteF64_new_valid v : f64_valid v = true -> is_finite v = true ->
  exists x, FiniteF64_new v = Ok x /\ f64_eqb (finite_get x) v = true.
Proof.
  intros Hv Hf. unfold FiniteF64_new. rewrite Hf. cbn [negb].
  assert (f64_normalized (if f64_eqb v f64_zero then f64_zero else v) = true) as Hn.
  { destruct v as [[]|s| |s m e]; try discriminate; [reflexivity|reflexivity|].
    unfold f64_normalized. replace (f64_eqb _ _) with false by (by destruct s).
    by rewrite Hv. }
  destruct (decide _) as [H|]; [|done]. eexists; split; [done|]. cbn.
  destruct v as [s|s| |s m e]; try discriminate; [by destruct s|].
  destruct (f64_eqb (S754_finite s m e) f64_zero) eqn:E; [by destruct s|].
  by apply f64_eqb_spec.
Qed.

(** ** Properties *)

(** A score is ordered by its numeric value: [Ord] of [FiniteF64]
    (through [total_cmp] on the bits) is the IEEE comparison, [PartialEq]
    (through [to_bits]) is equality, and [FiniteF64::new] accepts every
    finite value and keeps it up to the sign of zero. *)
Theorem finite_f64_numeric_order (x y : FiniteF64) :
  SFcompare (finite_get x) (finite_get y) = Some (FiniteF64_cmp x y) /\
  (FiniteF64_eq x y = true <-> x = y) /\
  (FiniteF64_cmp x y = Eq <-> x = y) /\
  (forall v, is_finite v = false -> FiniteF64_new v = Err (mkNonFinite v)) /\
  (forall v, f64_valid v = true -> is_finite v = true ->
     exists z, FiniteF64_new v = Ok z /\ f64_eqb (finite_get z) v = true).
Proof.
  pose proof (total_cmp_numeric _ _ (finite_ok x) (finite_ok y)) as Hc.
  split_and!; auto using FiniteF64_new_valid.
  - unfold FiniteF64_eq. rewrite Z.eqb_eq. split; [|congruence].
    intros H. apply FiniteF64_ext, to_bits_inj; auto using finite_ok.
  - unfold FiniteF64_cmp. split.
    + intros H. rewrite H in Hc. apply FiniteF64_ext, fkey_inj; auto using finite_ok.
      apply f64_eqb_spec. unfold f64_eqb, SFeqb. by rewrite Hc.
    + intros ->. apply Z.compare_refl.
  - intros v Hv. unfold FiniteF64_new. by rewrite Hv.
Qed.

(** [validate] accepts exactly the configurations that satisfy every
    rule of the schema, and [validate_all] reports a violation exactly when
    one exists; when it rejects, it returns the first violation listed. *)
Theorem validate_sound_complete (c : ExperimentConfig) :
  (validate c = Ok tt <-> config_valid c) /\
  (validate_all c = [] <-> config_valid c) /\
  (forall e, validate c = Err e <-> head (validate_all c) = Some e) /\
  validate c <> Panic.
Proof.
  pose proof (validate_all_nil c). unfold validate in *.
  destruct (validate_all c); cbn in *; split_and!; naive_solver.
Qed.

(** Two different configuration errors never print the same message,
    so a caller can tell every rejection apart from its text. *)
Theorem config_error_message_injective (e1 e2 : ConfigError) :
  ConfigError_fmt e1 = ConfigError_fmt e2 <-> e1 = e2.
Proof.
  split; [|congruence].
  destruct e1, e2; cbn; intros H; repeat (injection H as H || discriminate H);
    try reflexivity; cbn in H; f_equal; try exact H.
  by apply (inj pretty).
Qed.
