(* ===== verification/Reasons.v ===== *)
(** Terminal failure reasons (crates/orch-core/src/runtime_reasons.rs): the
    catalog of grep-able prefixes and the classifier that forces every FAILED
    reason under one of them. *)
From S2P Require Import Prelude.
Local Open Scope string_scope.

Inductive TerminalStatus := Failed | BudgetExhaustedStatus.

Record RuntimeReason := mkRuntimeReason {
  rr_prefix : string;
  rr_status : TerminalStatus
}.

Definition REASON_CAS_OWNERSHIP_LOST : string := "checkpoint-cas-ownership-lost".
Definition REASON_ARCHIVE_SEQ_MISMATCH : string := "scorer-archive-seq-mismatch".
Definition REASON_FINGERPRINT_MISMATCH : string := "synth-fingerprint-mismatch".
Definition REASON_FRONTIER_EXHAUSTED : string := "frontier-exhausted".
Definition REASON_JOB_RETRIES_EXHAUSTED : string := "job-retries-exhausted".
Definition REASON_CLASS_MISMATCH : string := "determinism-class-mismatch".
Definition REASON_RUNTIME_ERROR : string := "runtime-error".

Definition CATALOG : list RuntimeReason :=
  [ mkRuntimeReason REASON_CAS_OWNERSHIP_LOST Failed;
    mkRuntimeReason REASON_ARCHIVE_SEQ_MISMATCH Failed;
    mkRuntimeReason REASON_FINGERPRINT_MISMATCH Failed;
    mkRuntimeReason REASON_JOB_RETRIES_EXHAUSTED Failed;
    mkRuntimeReason REASON_CLASS_MISMATCH Failed;
    mkRuntimeReason REASON_RUNTIME_ERROR Failed;
    mkRuntimeReason REASON_FRONTIER_EXHAUSTED BudgetExhaustedStatus ].

Definition FAILED_REASON_PREFIXES : list string :=
  [ REASON_CAS_OWNERSHIP_LOST; REASON_ARCHIVE_SEQ_MISMATCH; REASON_FINGERPRINT_MISMATCH;
    REASON_JOB_RETRIES_EXHAUSTED; REASON_CLASS_MISMATCH; REASON_RUNTIME_ERROR ].

(** [str::starts_with]. *)
Definition starts_with (prefix message : string) : bool := String.prefix prefix message.

Definition cataloged_failed_reason (message : string) : string :=
  if existsb (fun prefix => starts_with prefix message) FAILED_REASON_PREFIXES
  then message
  else REASON_RUNTIME_ERROR +:+ ": " +:+ message.

Lemma starts_with_app p s : starts_with p (p +:+ s) = true.
Proof.
  unfold starts_with. induction p as [|a p IH]; [by destruct s|].
  change (String a p +:+ s) with (String a (p +:+ s)). cbn.
  destruct (Ascii.ascii_dec a a); [exact IH|congruence].
Qed.

(** Every reason that leaves the classifier starts with a FAILED prefix
    of the catalog, classification is idempotent, and a message that already
    carries a prefix is not changed. *)
Theorem cataloged_failed_reason_total (message : string) :
  (exists r, In r CATALOG /\ rr_status r = Failed /\
     starts_with (rr_prefix r) (cataloged_failed_reason message) = true) /\
  cataloged_failed_reason (cataloged_failed_reason message) = cataloged_failed_reason message /\
  (forall p, In p FAILED_REASON_PREFIXES -> starts_with p message = true ->
     cataloged_failed_reason message = message).
Proof.
  assert (forall m, existsb (fun p => starts_with p m) FAILED_REASON_PREFIXES = true ->
    cataloged_failed_reason m = m) as Hid.
  { intros m Hm. unfold cataloged_failed_reason. by rewrite Hm. }
  destruct (existsb (fun p => starts_with p message) FAILED_REASON_PREFIXES) eqn:E.
  - rewrite !(Hid message E). split_and!; auto.
    apply existsb_exists in E as (p & Hp & Hs). exists (mkRuntimeReason p Failed).
    split_and!; auto. cbn in Hp |- *. naive_solver.
  - assert (cataloged_failed_reason message = REASON_RUNTIME_ERROR +:+ ": " +:+ message) as ->
      by (unfold cataloged_failed_reason; by rewrite E).
    split_and!.
    + exists (mkRuntimeReason REASON_RUNTIME_ERROR Failed).
      split_and!; [cbn; tauto|done|apply starts_with_app].
    + apply Hid. apply existsb_exists. exists REASON_RUNTIME_ERROR.
      split; [cbn; tauto|apply starts_with_app].
    + intros p Hp Hs. exfalso. apply not_true_iff_false in E. apply E, existsb_exists. eauto.
Qed.
