(* ===== verification/Tree.v ===== *)
(** The in-memory search tree (crates/orch-core/src/tree.rs): node records,
    the dense index of records and child lists, and every operation of
    [Tree].  The invariant [tree_wf] (dense ids, parents before children,
    depths, child lists that are exactly the inverse of the parent links,
    coherent status flags, counters within [u32]) holds of every tree the
    operations can build. *)
From S2P Require Import Prelude Float64 Types.

(** ** Data *)

Record NodePayload := mkNodePayload {
  np_snapshot : SnapshotRef;
  np_score : Score;
  np_novelty_at_commit : Novelty;
  np_cell : CellKey;
  np_state_hash : StateHash;
  np_stage : Stage;
  np_frame_counter : FrameCount
}.

Record NodeRecord := mkNodeRecord {
  nr_id : NodeId;
  nr_parent : option NodeId;
  nr_snapshot : SnapshotRef;
  nr_depth : N;
  nr_score : Score;
  nr_novelty_at_commit : Novelty;
  nr_cell : CellKey;
  nr_state_hash : StateHash;
  nr_stage : Stage;
  nr_frame_counter : FrameCount;
  nr_visits : N;
  nr_children : N;
  nr_exhausted : bool;
  nr_goal : bool;
  nr_status : NodeStatus
}.

Definition NodeRecord_new (id : NodeId) (parent : option NodeId) (depth : N)
    (payload : NodePayload) : NodeRecord :=
  mkNodeRecord id parent (np_snapshot payload) depth (np_score payload)
    (np_novelty_at_commit payload) (np_cell payload) (np_state_hash payload)
    (np_stage payload) (np_frame_counter payload) 0 0 false false StFrontier.

Definition NodeRecord_root (payload : NodePayload) : NodeRecord :=
  NodeRecord_new ROOT None 0 payload.

Definition NodeRecord_child (id parent : NodeId) (depth : N) (payload : NodePayload)
    : NodeRecord :=
  NodeRecord_new id (Some parent) depth payload.

Definition NodeRecord_payload (r : NodeRecord) : NodePayload :=
  mkNodePayload (nr_snapshot r) (nr_score r) (nr_novelty_at_commit r) (nr_cell r)
    (nr_state_hash r) (nr_stage r) (nr_frame_counter r).

Definition NodeRecord_is_root (r : NodeRecord) : bool :=
  NodeId_is_root (nr_id r) && bool_decide (nr_parent r = None).

Definition is_frontier_candidate (r : NodeRecord) : bool :=
  bool_decide (nr_status r = StFrontier) && negb (nr_exhausted r).

(** Field updates [record.field = value]. *)
Definition set_counters (visits children : N) (r : NodeRecord) : NodeRecord :=
  mkNodeRecord (nr_id r) (nr_parent r) (nr_snapshot r) (nr_depth r) (nr_score r)
    (nr_novelty_at_commit r) (nr_cell r) (nr_state_hash r) (nr_stage r)
    (nr_frame_counter r) visits children (nr_exhausted r) (nr_goal r) (nr_status r).

Definition set_flags (exhausted goal : bool) (status : NodeStatus) (r : NodeRecord)
    : NodeRecord :=
  mkNodeRecord (nr_id r) (nr_parent r) (nr_snapshot r) (nr_depth r) (nr_score r)
    (nr_novelty_at_commit r) (nr_cell r) (nr_state_hash r) (nr_stage r)
    (nr_frame_counter r) (nr_visits r) (nr_children r) exhausted goal status.

Inductive TreeError :=
| InvalidRootId (actual : NodeId)
| RootHasParent (parent : NodeId)
| RootDepthNotZero (depth : N)
| MissingParent (parent : NodeId)
| NodeNotFound (id : NodeId)
| RootHasChildren (children : N)
| RootHasVisits (visits : N)
| RootIsExhausted
| RootIsGoal
| RootStatusNotFrontier (status : NodeStatus)
| DepthOverflow (parent : NodeId)
| ChildCountOverflow (parent : NodeId)
| VisitOverflow (id : NodeId)
| TerminalGoalNode (id : NodeId)
| TerminalPrunedNode (id : NodeId).

Global Instance TreeError_eq_dec : EqDecision TreeError.
Proof. solve_decision. Defined.

Record Tree := mkTree {
  records : list NodeRecord;
  children_by_node : list (list NodeId)
}.

Record NodeContext := mkNodeContext {
  nc_record : NodeRecord;
  nc_parent : option NodeRecord;
  nc_children : list NodeId
}.

(** ** Operations *)

Definition validate_root (root : NodeRecord) : res TreeError unit :=
  if negb (NodeId_is_root (nr_id root)) then Err (InvalidRootId (nr_id root))
  else match nr_parent root with
  | Some parent => Err (RootHasParent parent)
  | None =>
  if negb (nr_depth root =? 0)%N then Err (RootDepthNotZero (nr_depth root))
  else if negb (nr_children root =? 0)%N then Err (RootHasChildren (nr_children root))
  else if negb (nr_visits root =? 0)%N then Err (RootHasVisits (nr_visits root))
  else if nr_exhausted root then Err RootIsExhausted
  else if nr_goal root then Err RootIsGoal
  else if negb (bool_decide (nr_status root = StFrontier))
       then Err (RootStatusNotFrontier (nr_status root))
  else Ok tt
  end.

Definition from_root_record (root : NodeRecord) : res TreeError Tree :=
  _ ← validate_root root; Ok (mkTree [root] [[]]).

(** [from_root] unwraps the result for a fresh root record. *)
Definition from_root (payload : NodePayload) : res TreeError Tree :=
  match from_root_record (NodeRecord_root payload) with
  | Ok t => Ok t
  | _ => Panic
  end.

Definition len (t : Tree) : nat := length (records t).
Definition next_id (t : Tree) : NodeId := N.of_nat (length (records t)).

Definition index_of (t : Tree) (id : NodeId) : option nat :=
  if (id <? N.of_nat (length (records t)))%N then Some (N.to_nat id) else None.

Definition index_or_not_found (t : Tree) (id : NodeId) : res TreeError nat :=
  ok_or (index_of t id) (NodeNotFound id).

Definition get (t : Tree) (id : NodeId) : option NodeRecord :=
  index ← index_of t id; records t !! index.

Definition contains (t : Tree) (id : NodeId) : bool :=
  match index_of t id with Some _ => true | None => false end.

Definition root (t : Tree) : option NodeRecord := records t !! 0%nat.

Definition insert_child (parent : NodeId) (payload : NodePayload)
    : st Tree TreeError NodeId := fun t =>
  match index_of t parent with
  | None => (Err (MissingParent parent), t)
  | Some parent_index =>
  match records t !! parent_index, children_by_node t !! parent_index with
  | Some pr, Some cs =>
    match checked_add u32_max (nr_depth pr) 1 with
    | None => (Err (DepthOverflow parent), t)
    | Some child_depth =>
    match checked_add u32_max (nr_children pr) 1 with
    | None => (Err (ChildCountOverflow parent), t)
    | Some child_count =>
      let child_id := next_id t in
      let records' := <[parent_index := set_counters (nr_visits pr) child_count pr]> (records t) in
      let children' := <[parent_index := cs ++ [child_id]]> (children_by_node t) in
      (Ok child_id,
       mkTree (records' ++ [NodeRecord_child child_id parent child_depth payload])
              (children' ++ [[]]))
    end end
  | _, _ => (Panic, t)
  end end.

Definition children_of (t : Tree) (id : NodeId) : res TreeError (list NodeId) :=
  index ← index_or_not_found t id; expect (children_by_node t !! index).

Definition context_of (t : Tree) (id : NodeId) : res TreeError NodeContext :=
  index ← index_or_not_found t id;
  record ← expect (records t !! index);
  parent ← match nr_parent record with
           | Some parent_id => pr ← expect (get t parent_id); Ok (Some pr)
           | None => Ok None
           end;
  children ← expect (children_by_node t !! index);
  Ok (mkNodeContext record parent children).

(** The parent walk of [path_from_root]; [Panic] stands for a walk that runs
    out of fuel. *)
Fixpoint path_walk (fuel : nat) (t : Tree) (current : NodeId) (path : list NodeId)
    : res TreeError (list NodeId) :=
  match fuel with
  | O => Panic
  | S fuel =>
    match get t current with
    | None => Err (NodeNotFound current)
    | Some record =>
      let path := path ++ [nr_id record] in
      match nr_parent record with
      | Some parent => path_walk fuel t parent path
      | None => Ok path
      end
    end
  end.

Definition path_from_root (t : Tree) (id : NodeId) : res TreeError (list NodeId) :=
  path ← path_walk (S (length (records t))) t id []; Ok (reverse path).

(** [record_mut] and the mutation of that one record. *)
Definition with_record {A} (id : NodeId) (f : NodeRecord -> res TreeError (A * NodeRecord))
    : st Tree TreeError A := fun t =>
  match index_or_not_found t id with
  | Ok index =>
    match records t !! index with
    | Some r =>
      match f r with
      | Ok (a, r') => (Ok a, mkTree (<[index := r']> (records t)) (children_by_node t))
      | Err e => (Err e, t)
      | Panic => (Panic, t)
      end
    | None => (Panic, t)
    end
  | Err e => (Err e, t)
  | Panic => (Panic, t)
  end.

Definition increment_visits (id : NodeId) : st Tree TreeError N :=
  with_record id (fun r =>
    v ← ok_or (checked_add u32_max (nr_visits r) 1) (VisitOverflow id);
    Ok (v, set_counters v (nr_children r) r)).

(** [!record.goal && record.status != Pruned] *)
Definition may_expand (r : NodeRecord) : bool :=
  negb (nr_goal r) && negb (bool_decide (nr_status r = StPruned)).

Definition is_goal_record (r : NodeRecord) : bool :=
  bool_decide (nr_status r = StGoal) || nr_goal r.

Definition mark_expanded (id : NodeId) : st Tree TreeError unit :=
  with_record id (fun r =>
    Ok (tt, if may_expand r then set_flags (nr_exhausted r) (nr_goal r) StExpanded r else r)).

Definition mark_exhausted (id : NodeId) : st Tree TreeError unit :=
  with_record id (fun r =>
    if is_goal_record r then Err (TerminalGoalNode id)
    else Ok (tt, set_flags true (nr_goal r)
                   (if may_expand r then StExpanded else nr_status r) r)).

Definition mark_goal (id : NodeId) : st Tree TreeError unit :=
  with_record id (fun r =>
    if decide (nr_status r = StPruned) then Err (TerminalPrunedNode id)
    else Ok (tt, set_flags false true StGoal r)).

Definition mark_pruned (id : NodeId) : st Tree TreeError unit :=
  with_record id (fun r =>
    if is_goal_record r then Err (TerminalGoalNode id)
    else Ok (tt, set_flags true false StPruned r)).

(** ** Invariant *)

Record record_wf (r : NodeRecord) : Prop := {
  rwf_goal : nr_goal r = true <-> nr_status r = StGoal;
  rwf_exhausted : nr_exhausted r = true -> nr_status r = StExpanded \/ nr_status r = StPruned;
  rwf_pruned : nr_status r = StPruned -> nr_exhausted r = true;
  rwf_depth : (nr_depth r <= u32_max)%N;
  rwf_visits : (nr_visits r <= u32_max)%N;
  rwf_children : (nr_children r <= u32_max)%N
}.

Definition link (r : NodeRecord) : NodeId * option NodeId := (nr_id r, nr_parent r).

(** The ids whose recorded parent is [p], in commit order. *)
Definition child_ids (rs : list NodeRecord) (p : NodeId) : list NodeId :=
  (filter (fun l => l.2 = Some p) (link <$> rs)).*1.

Record tree_wf (t : Tree) : Prop := {
  twf_len : length (children_by_node t) = length (records t);
  twf_root : exists r, records t !! 0%nat = Some r /\ nr_parent r = None /\ nr_depth r = 0%N;
  twf_id : forall i r, records t !! i = Some r -> nr_id r = N.of_nat i;
  twf_parent : forall i r, records t !! i = Some r -> i <> 0%nat ->
    exists p pr, nr_parent r = Some (N.of_nat p) /\ (p < i)%nat /\
      records t !! p = Some pr /\ nr_depth r = (nr_depth pr + 1)%N;
  twf_children : forall i r, records t !! i = Some r ->
    children_by_node t !! i = Some (child_ids (records t) (N.of_nat i)) /\
    nr_children r = N.of_nat (length (child_ids (records t) (N.of_nat i)));
  twf_records : forall i r, records t !! i = Some r -> record_wf r
}.


Lemma index_of_Some t id i :
  index_of t id = Some i <-> i = N.to_nat id /\ (i < length (records t))%nat.
Proof. unfold index_of. destruct (N.ltb_spec id (N.of_nat (length (records t)))); naive_solver lia. Qed.

Lemma index_of_None t id : index_of t id = None <-> (next_id t <= id)%N.
Proof.
  unfold index_of, next_id.
  destruct (N.ltb_spec id (N.of_nat (length (records t)))); naive_solver lia.
Qed.

Lemma get_Some t id r :
  get t id = Some r <-> records t !! N.to_nat id = Some r.
Proof.
  unfold get. destruct (index_of t id) as [i|] eqn:E; cbn.
  - apply index_of_Some in E as [-> _]. done.
  - split; [done|]. intros H%lookup_lt_Some. apply index_of_None in E.
    unfold next_id in E. lia.
Qed.

Lemma get_None t id : get t id = None <-> (next_id t <= id)%N.
Proof.
  rewrite eq_None_not_Some. unfold is_Some. setoid_rewrite get_Some.
  change (¬ is_Some (records t !! N.to_nat id) <-> (next_id t <= id)%N).
  rewrite lookup_lt_is_Some. unfold next_id. lia.
Qed.

Lemma get_id t id r : tree_wf t -> get t id = Some r -> nr_id r = id.
Proof. intros Hwf Hg%get_Some. rewrite (twf_id _ Hwf _ _ Hg). lia. Qed.

(** A successful [with_record] is an update of one existing record. *)
Lemma with_record_run {A} id (f : NodeRecord -> res TreeError (A * NodeRecord)) t :
  with_record id f t =
  match get t id with
  | None => (Err (NodeNotFound id), t)
  | Some r =>
    match f r with
    | Ok (a, r') => (Ok a, mkTree (<[N.to_nat id := r']> (records t)) (children_by_node t))
    | Err e => (Err e, t)
    | Panic => (Panic, t)
    end
  end.
Proof.
  unfold with_record, index_or_not_found, get.
  destruct (index_of t id) as [i|] eqn:E; [|done]. cbn.
  apply index_of_Some in E as [-> Hlt]. apply lookup_lt_is_Some in Hlt as [r Hr].
  by rewrite Hr.
Qed.

Lemma links_insert (i : nat) r r' (rs : list NodeRecord) :
  rs !! i = Some r -> link r' = link r -> link <$> <[i := r']> rs = link <$> rs.
Proof.
  intros Hr Hl. rewrite list_fmap_insert. apply list_insert_id.
  by rewrite list_lookup_fmap, Hr, Hl.
Qed.

Lemma child_ids_links (rs rs' : list NodeRecord) p : link <$> rs' = link <$> rs -> child_ids rs' p = child_ids rs p.
Proof. unfold child_ids. by intros ->. Qed.

(** Replacing a record by one with the same links, depth and child count. *)
Lemma tree_wf_replace t i r r' :
  tree_wf t -> records t !! i = Some r -> link r' = link r -> nr_depth r' = nr_depth r ->
  nr_children r' = nr_children r -> record_wf r' ->
  tree_wf (mkTree (<[i := r']> (records t)) (children_by_node t)).
Proof.
  intros Hwf Hr Hl Hd Hc Hw.
  assert (forall j s, <[i := r']> (records t) !! j = Some s ->
    exists s0, records t !! j = Some s0 /\ link s = link s0 /\ nr_depth s = nr_depth s0 /\
      nr_children s = nr_children s0) as Hback.
  { intros j s Hs. destruct (decide (j = i)) as [->|Hne].
    - rewrite list_lookup_insert_eq in Hs by (by eapply lookup_lt_Some). injection Hs as <-. exists r. auto.
    - rewrite list_lookup_insert_ne in Hs by done. eauto. }
  assert (forall j s0, records t !! j = Some s0 ->
    exists s, <[i := r']> (records t) !! j = Some s /\ link s = link s0 /\ nr_depth s = nr_depth s0)
    as Hfwd.
  { intros j s0 Hs. destruct (decide (j = i)) as [->|Hne].
    - rewrite list_lookup_insert_eq by (by eapply lookup_lt_Some). rewrite Hr in Hs. injection Hs as <-. exists r'. auto.
    - rewrite list_lookup_insert_ne by done. eauto. }
  assert (forall p, child_ids (<[i := r']> (records t)) p = child_ids (records t) p) as Hids
    by (intros p; eapply child_ids_links, links_insert; eauto).
  destruct Hwf as [Hlen (r0 & Hr0 & Hp0 & Hd0) Hid Hpar Hch Hrec]. split; cbn [records children_by_node].
  - by rewrite length_insert.
  - destruct (Hfwd _ _ Hr0) as (s & Hs & Hls & Hds). exists s.
    injection Hls as _ Hls. rewrite Hs, Hls, Hds. auto.
  - intros j s Hs. destruct (Hback _ _ Hs) as (s0 & Hs0 & Hls & _).
    injection Hls as -> _. eauto.
  - intros j s Hs Hj. destruct (Hback _ _ Hs) as (s0 & Hs0 & Hls & Hds & _).
    destruct (Hpar _ _ Hs0 Hj) as (p & pr & Hp & Hlt & Hpr & Hdp).
    destruct (Hfwd _ _ Hpr) as (pr' & Hpr' & _ & Hdpr). exists p, pr'.
    injection Hls as _ ->. rewrite Hds, Hdpr. auto.
  - intros j s Hs. destruct (Hback _ _ Hs) as (s0 & Hs0 & _ & _ & ->). rewrite Hids. eauto.
  - intros j s Hs. destruct (decide (j = i)) as [->|Hne].
    + rewrite list_lookup_insert_eq in Hs by (by eapply lookup_lt_Some). injection Hs as <-. auto.
    + rewrite list_lookup_insert_ne in Hs by done. eauto.
Qed.

(** The tree after a successful insertion below record [pr]. *)
Definition tree_insert (t : Tree) (parent : NodeId) (pr : NodeRecord) (payload : NodePayload) : Tree :=
  mkTree
    (<[N.to_nat parent := set_counters (nr_visits pr) (nr_children pr + 1)%N pr]> (records t)
       ++ [NodeRecord_child (next_id t) parent (nr_depth pr + 1)%N payload])
    (<[N.to_nat parent := child_ids (records t) parent ++ [next_id t]]> (children_by_node t)
       ++ [[]]).

Lemma insert_child_run t parent payload : tree_wf t ->
  insert_child parent payload t =
  match get t parent with
  | None => (Err (MissingParent parent), t)
  | Some pr =>
    if (u32_max <? nr_depth pr + 1)%N then (Err (DepthOverflow parent), t)
    else if (u32_max <? nr_children pr + 1)%N then (Err (ChildCountOverflow parent), t)
    else (Ok (next_id t), tree_insert t parent pr payload)
  end.
Proof.
  intros Hwf. unfold insert_child, get.
  destruct (index_of t parent) as [i|] eqn:E; [|done]. cbn.
  apply index_of_Some in E as [-> Hlt]. apply lookup_lt_is_Some in Hlt as [pr Hr].
  rewrite Hr. destruct (twf_children _ Hwf _ _ Hr) as [-> _].
  unfold checked_add, tree_insert. rewrite N2Nat.id.
  destruct (N.ltb_spec u32_max (nr_depth pr + 1)), (N.ltb_spec u32_max (nr_children pr + 1));
    repeat case_decide; try reflexivity; lia.
Qed.

Lemma NodeRecord_new_wf id p d payload : (d <= u32_max)%N ->
  record_wf (NodeRecord_new id p d payload).
Proof. intros Hd. split; cbn; naive_solver (unfold u32_max in *; lia). Qed.

Lemma record_wf_counters v c r : record_wf r -> (v <= u32_max)%N -> (c <= u32_max)%N ->
  record_wf (set_counters v c r).
Proof. intros [] ??. by split. Qed.

Lemma tree_insert_lookup t parent pr payload j s :
  get t parent = Some pr ->
  records (tree_insert t parent pr payload) !! j = Some s <->
  (j < len t)%nat /\
    (if decide (j = N.to_nat parent)
     then s = set_counters (nr_visits pr) (nr_children pr + 1)%N pr
     else records t !! j = Some s) \/
  j = len t /\ s = NodeRecord_child (next_id t) parent (nr_depth pr + 1)%N payload.
Proof.
  intros Hg%get_Some. unfold tree_insert, len. cbn [records].
  rewrite lookup_snoc_Some, length_insert. apply lookup_lt_Some in Hg as Hlt.
  case_decide as Hj.
  - subst j. rewrite list_lookup_insert_eq by done. naive_solver.
  - rewrite list_lookup_insert_ne by done. naive_solver.
Qed.

(** Old records keep everything but the parent's child count. *)
Lemma tree_insert_old t parent pr payload j s : tree_wf t -> get t parent = Some pr ->
  records t !! j = Some s ->
  exists s', records (tree_insert t parent pr payload) !! j = Some s' /\
    link s' = link s /\ nr_depth s' = nr_depth s /\
    nr_children s' = (nr_children s + (if decide (j = N.to_nat parent) then 1 else 0))%N.
Proof.
  intros Hwf Hg Hs. apply lookup_lt_Some in Hs as Hlt.
  setoid_rewrite tree_insert_lookup; [|done]. unfold len. case_decide as Hj.
  - subst j. apply get_Some in Hg. rewrite Hg in Hs. injection Hs as <-.
    eexists. split; [left; eauto|]. done.
  - eexists. split; [left; eauto|]. split_and!; [done..|lia].
Qed.

Lemma tree_insert_links t parent pr payload : get t parent = Some pr ->
  link <$> records (tree_insert t parent pr payload) =
  (link <$> records t) ++ [(next_id t, Some parent)].
Proof.
  intros Hg%get_Some. unfold tree_insert. cbn [records]. rewrite fmap_app.
  f_equal. by eapply links_insert.
Qed.

Lemma tree_insert_child_ids t parent pr payload p : get t parent = Some pr ->
  child_ids (records (tree_insert t parent pr payload)) p =
  child_ids (records t) p ++ (if decide (parent = p) then [next_id t] else []).
Proof.
  intros Hg. unfold child_ids. rewrite (tree_insert_links _ _ _ _ Hg), list.filter_app, fmap_app.
  f_equal. rewrite list.filter_cons, list.filter_nil. cbn. repeat case_decide; naive_solver.
Qed.

Lemma child_ids_bounds t i c : tree_wf t ->
  c ∈ child_ids (records t) (N.of_nat i) -> (i < N.to_nat c < len t)%nat.
Proof.
  intros Hwf. unfold child_ids. rewrite list_elem_of_fmap.
  intros ([c' p] & -> & [Hp Hin]%list_elem_of_filter). cbn in *.
  apply list_elem_of_fmap in Hin as (r & [= -> Hr] & (j & Hj)%list_elem_of_lookup).
  rewrite (twf_id _ Hwf _ _ Hj). apply lookup_lt_Some in Hj as Hlt. unfold len.
  destruct (decide (j = 0%nat)) as [->|Hne].
  - destruct (twf_root _ Hwf) as (r0 & Hr0 & Hp0 & _). congruence.
  - destruct (twf_parent _ Hwf _ _ Hj Hne) as (q & qr & Hq & Hqlt & _). assert (N.of_nat q = N.of_nat i) by congruence. lia.
Qed.

Lemma child_ids_fresh t : tree_wf t -> child_ids (records t) (next_id t) = [].
Proof.
  intros Hwf. destruct (child_ids (records t) (next_id t)) as [|c l] eqn:E; [done|].
  assert (c ∈ child_ids (records t) (next_id t)) as Hc by (rewrite E; left).
  apply (child_ids_bounds t (len t) c Hwf) in Hc. lia.
Qed.

Lemma tree_insert_wf t parent pr payload : tree_wf t -> get t parent = Some pr ->
  (nr_depth pr + 1 <= u32_max)%N -> (nr_children pr + 1 <= u32_max)%N ->
  tree_wf (tree_insert t parent pr payload).
Proof.
  intros Hwf Hg Hd Hc. pose proof Hwf as [Hlen (r0 & Hr0 & Hp0 & Hd0) Hid Hpar Hch Hrec].
  apply get_Some in Hg as Hgr. apply lookup_lt_Some in Hgr as Hplt.
  pose proof (fun j s => tree_insert_old t parent pr payload j s Hwf Hg) as Hold.
  split.
  - unfold tree_insert. cbn. rewrite !length_app, !length_insert. cbn. lia.
  - destruct (Hold _ _ Hr0) as (s & Hs & Hls & Hds & _). exists s.
    injection Hls as _ Hls. by rewrite Hs, Hls, Hds.
  - intros j s [[Hlt Hs]|[-> ->]]%tree_insert_lookup; [|done|done].
    case_decide; [subst j s; cbn|]; eauto.
  - intros j s [[Hlt Hs]|[-> ->]]%tree_insert_lookup Hj; [| |done].
    + assert (exists s0, records t !! j = Some s0 /\ nr_parent s = nr_parent s0 /\
        nr_depth s = nr_depth s0) as (s0 & Hs0 & -> & ->).
      { case_decide; [subst j s; eauto|eauto]. }
      destruct (Hpar _ _ Hs0 Hj) as (p & qr & Hq & Hqlt & Hqr & ->).
      destruct (Hold _ _ Hqr) as (q' & Hq' & _ & <- & _). eauto 10.
    + destruct (Hold _ _ Hgr) as (q' & Hq' & _ & Hqd & _).
      exists (N.to_nat parent), q'. unfold len in *. cbn. rewrite Hqd, N2Nat.id. auto.
  - intros j s Hs. rewrite tree_insert_child_ids by done. unfold tree_insert at 1. cbn [children_by_node].
    apply tree_insert_lookup in Hs as [[Hlt Hs]|[-> ->]]; [| |done]; unfold len in *.
    + rewrite lookup_app_l by (rewrite length_insert; lia).
      case_decide as Hj.
      * subst j s. destruct (Hch _ _ Hgr) as [Hc1 Hc2]. rewrite N2Nat.id in *.
        rewrite list_lookup_insert_eq by lia. rewrite decide_True by done. split; [done|].
        cbn. rewrite length_app. cbn. lia.
      * rewrite list_lookup_insert_ne by done. rewrite decide_False by lia.
        rewrite app_nil_r. eauto.
    + rewrite lookup_app_r by (rewrite length_insert; lia).
      rewrite length_insert, Hlen, Nat.sub_diag, decide_False by (unfold next_id in *; lia).
      fold (next_id t). by rewrite child_ids_fresh, app_nil_r.
  - intros j s [[Hlt Hs]|[-> ->]]%tree_insert_lookup; [| |done].
    + case_decide; [subst s|eauto]. apply record_wf_counters; eauto. by apply (Hrec _ _ Hgr).
    + by apply NodeRecord_new_wf.
Qed.

(** ** Sequences of operations *)

Inductive tree_call :=
| CallInsert (parent : NodeId) (payload : NodePayload)
| CallVisit (id : NodeId)
| CallExpanded (id : NodeId)
| CallExhausted (id : NodeId)
| CallGoal (id : NodeId)
| CallPruned (id : NodeId).

Definition discard {S E A} (m : st S E A) : st S E unit := _ ← m; mret tt.

Definition run_call (c : tree_call) : st Tree TreeError unit :=
  match c with
  | CallInsert parent payload => discard (insert_child parent payload)
  | CallVisit id => discard (increment_visits id)
  | CallExpanded id => mark_expanded id
  | CallExhausted id => mark_exhausted id
  | CallGoal id => mark_goal id
  | CallPruned id => mark_pruned id
  end.

Definition run_calls (cs : list tree_call) (t : Tree) : Tree :=
  fold_left (fun t c => (run_call c t).2) cs t.

(** What a record operation may change: the visit count and the flags. *)
Definition record_frame (r r' : NodeRecord) : Prop :=
  link r' = link r /\ nr_depth r' = nr_depth r /\ nr_children r' = nr_children r /\
  (nr_visits r <= nr_visits r')%N /\ NodeRecord_payload r' = NodeRecord_payload r.

Lemma with_record_wf {A} id (f : NodeRecord -> res TreeError (A * NodeRecord)) t :
  tree_wf t ->
  (forall r a r', record_wf r -> f r = Ok (a, r') -> record_wf r' /\ record_frame r r') ->
  (forall r, record_wf r -> f r <> Panic) ->
  tree_wf (with_record id f t).2 /\ (with_record id f t).1 <> Panic.
Proof.
  intros Hwf Hf Hp. rewrite with_record_run. destruct (get t id) as [r|] eqn:Hg; [|done].
  apply get_Some in Hg. pose proof (twf_records _ Hwf _ _ Hg) as Hr.
  destruct (f r) as [[a r']| |] eqn:Hfr; cbn; [|done|by destruct (Hp r)].
  split; [|done]. destruct (Hf _ _ _ Hr Hfr) as (Hw & Hl & Hd & Hc & _).
  by eapply tree_wf_replace.
Qed.

Lemma set_flags_frame e g s r : record_frame r (set_flags e g s r).
Proof. by destruct r; split_and!; cbn. Qed.

Lemma set_flags_wf e g s r : record_wf r -> (g = true <-> s = StGoal) ->
  (e = true -> s = StExpanded \/ s = StPruned) -> (s = StPruned -> e = true) ->
  record_wf (set_flags e g s r).
Proof. intros [] ???. by split. Qed.

Lemma is_goal_record_wf r : record_wf r -> is_goal_record r = nr_goal r.
Proof.
  intros Hr. unfold is_goal_record. case_bool_decide as H; [|done].
  symmetry. by apply (rwf_goal _ Hr).
Qed.

Lemma increment_visits_wf id t : tree_wf t ->
  tree_wf (increment_visits id t).2 /\ (increment_visits id t).1 <> Panic.
Proof.
  intros Hwf. apply with_record_wf; auto.
  - intros r a r' Hr (v & [Hv ->]%ok_or_Ok%checked_add_Some & [= <- <-])%bind_Ok.
    split; [apply record_wf_counters; [done|lia|apply Hr]|].
    destruct r; split_and!; cbn; try done. lia.
  - intros r Hr. cbn. by destruct (checked_add _ _ _).
Qed.

Lemma mark_expanded_wf id t : tree_wf t ->
  tree_wf (mark_expanded id t).2 /\ (mark_expanded id t).1 <> Panic.
Proof.
  intros Hwf. apply with_record_wf; [done| |done]. intros r a r' Hr [= <- <-].
  unfold may_expand. destruct (nr_goal r) eqn:Hg; cbn; [by destruct r; split_and!|].
  case_bool_decide; cbn; [by destruct r; split_and!|].
  split; [apply set_flags_wf; naive_solver|apply set_flags_frame].
Qed.

Lemma mark_exhausted_wf id t : tree_wf t ->
  tree_wf (mark_exhausted id t).2 /\ (mark_exhausted id t).1 <> Panic.
Proof.
  intros Hwf. apply with_record_wf; auto.
  - intros r a r' Hr. rewrite is_goal_record_wf by done. unfold may_expand.
    destruct (nr_goal r) eqn:Hg; [done|]. intros [= <- <-]. split; [|apply set_flags_frame].
    case_bool_decide; cbn; apply set_flags_wf; try done;
      destruct Hr; intuition congruence.
  - intros r Hr. by destruct (is_goal_record r).
Qed.

Lemma mark_goal_wf id t : tree_wf t ->
  tree_wf (mark_goal id t).2 /\ (mark_goal id t).1 <> Panic.
Proof.
  intros Hwf. apply with_record_wf; auto.
  - intros r a r' Hr. case_decide; [done|]. intros [= <- <-].
    split; [by apply set_flags_wf|apply set_flags_frame].
  - intros r Hr. by case_decide.
Qed.

Lemma mark_pruned_wf id t : tree_wf t ->
  tree_wf (mark_pruned id t).2 /\ (mark_pruned id t).1 <> Panic.
Proof.
  intros Hwf. apply with_record_wf; auto.
  - intros r a r' Hr. destruct (is_goal_record r); [done|]. intros [= <- <-].
    split; [apply set_flags_wf; naive_solver|apply set_flags_frame].
  - intros r Hr. by destruct (is_goal_record r).
Qed.

Lemma insert_child_wf parent payload t : tree_wf t ->
  tree_wf (insert_child parent payload t).2 /\ (insert_child parent payload t).1 <> Panic.
Proof.
  intros Hwf. rewrite insert_child_run by done.
  destruct (get t parent) as [pr|] eqn:Hg; [|done].
  destruct (N.ltb_spec u32_max (nr_depth pr + 1)); [done|].
  destruct (N.ltb_spec u32_max (nr_children pr + 1)); [done|].
  split; [|done]. by apply tree_insert_wf.
Qed.

Lemma discard_snd {S E A} (m : st S E A) s : (discard m s).2 = (m s).2.
Proof. unfold discard. rewrite st_bind_run. by destruct (m s) as [[] ?]. Qed.

Lemma discard_panic {S E A} (m : st S E A) s : (discard m s).1 = Panic <-> (m s).1 = Panic.
Proof. unfold discard. rewrite st_bind_run. destruct (m s) as [[] ?]; cbn; naive_solver. Qed.

Lemma run_call_wf c t : tree_wf t -> tree_wf (run_call c t).2 /\ (run_call c t).1 <> Panic.
Proof.
  intros Hwf. destruct c; cbn; rewrite ?discard_snd, ?discard_panic;
    auto using insert_child_wf, increment_visits_wf, mark_expanded_wf, mark_exhausted_wf,
      mark_goal_wf, mark_pruned_wf.
Qed.

Lemma from_root_wf payload t : from_root payload = Ok t -> tree_wf t.
Proof.
  intros [= <-]. split; cbn.
  - done.
  - by eexists.
  - intros [|i] r; [by intros [= <-]|done].
  - intros [|i] r; done.
  - intros [|i] r; [by intros [= <-]|done].
  - intros [|i] r; [|done]. intros [= <-]. by apply NodeRecord_new_wf.
Qed.

Lemma from_root_Ok payload : from_root payload = Ok (mkTree [NodeRecord_root payload] [[]]).
Proof. reflexivity. Qed.

(** ** The parent walk *)

Inductive ancestors (t : Tree) : NodeId -> list NodeId -> Prop :=
| anc_root id r : get t id = Some r -> nr_parent r = None -> ancestors t id [id]
| anc_step id r p l : get t id = Some r -> nr_parent r = Some p -> ancestors t p l ->
    ancestors t id (id :: l).

Lemma ancestors_exist t id r : tree_wf t -> get t id = Some r ->
  exists l, ancestors t id l /\ N.of_nat (length l) = (nr_depth r + 1)%N /\
    last l = Some ROOT /\ (length l <= S (N.to_nat id))%nat.
Proof.
  intros Hwf. revert r. induction id as [id IH] using (well_founded_induction N.lt_wf_0).
  intros r Hg. apply get_Some in Hg as Hr. destruct (decide (id = 0%N)) as [->|Hne].
  - destruct (twf_root _ Hwf) as (r0 & Hr0 & Hp0 & Hd0).
    change (N.to_nat 0) with 0%nat in Hr. rewrite Hr0 in Hr. injection Hr as ->.
    exists [0%N]. rewrite Hd0. split_and!; try done. by econstructor.
  - destruct (twf_parent _ Hwf _ _ Hr ltac:(lia)) as (p & pr & Hp & Hlt & Hpr & Hd).
    assert (get t (N.of_nat p) = Some pr) as Hgp by (apply get_Some; by rewrite Nat2N.id).
    destruct (IH (N.of_nat p) ltac:(lia) pr Hgp) as (l & Hl & Hlen & Hlast & Hle).
    exists (id :: l). split_and!.
    + by econstructor.
    + cbn [length]. lia.
    + destruct l; [by cbn in Hlen; lia|done].
    + cbn [length]. lia.
Qed.

Lemma path_walk_ancestors t id l fuel acc : tree_wf t -> ancestors t id l ->
  (length l <= fuel)%nat -> path_walk fuel t id acc = Ok (acc ++ l).
Proof.
  intros Hwf H. revert fuel acc. induction H as [id r Hg Hp|id r p l Hg Hp Hl IH];
    intros [|fuel] acc Hle; cbn in Hle; try lia; cbn; rewrite Hg, Hp, (get_id _ _ _ Hwf Hg); [done|].
  rewrite IH by lia. by rewrite <- app_assoc.
Qed.

Lemma ancestors_links t id l k a b : ancestors t id l ->
  l !! k = Some b -> l !! S k = Some a -> exists r, get t b = Some r /\ nr_parent r = Some a.
Proof.
  intros H. revert k. induction H as [id r Hg Hp|id r p l Hg Hp Hl IH]; intros k Hb Ha; [done|].
  destruct k as [|k]; [|by apply (IH k)]. injection Hb as <-. exists r. split; [done|].
  rewrite Hp. destruct Hl; cbn in Ha; congruence.
Qed.

Lemma run_calls_wf cs t : tree_wf t -> tree_wf (run_calls cs t).
Proof.
  revert t. induction cs as [|c cs IH]; intros t Hwf; [done|].
  apply IH. by apply run_call_wf.
Qed.
#[export] Hint Resolve run_calls_wf insert_child_wf increment_visits_wf : orch.

(** What one call may do to an existing record. *)
Record record_evolves (r r' : NodeRecord) : Prop := {
  ev_link : link r' = link r;
  ev_depth : nr_depth r' = nr_depth r;
  ev_payload : NodeRecord_payload r' = NodeRecord_payload r;
  ev_visits : (nr_visits r <= nr_visits r')%N;
  ev_children : (nr_children r <= nr_children r')%N;
  ev_goal : nr_status r = StGoal -> nr_status r' = StGoal;
  ev_pruned : nr_status r = StPruned -> nr_status r' = StPruned
}.

Lemma record_evolves_refl r : record_evolves r r.
Proof. by split. Qed.

Lemma record_evolves_trans r1 r2 r3 :
  record_evolves r1 r2 -> record_evolves r2 r3 -> record_evolves r1 r3.
Proof. intros [] []. split; try (etransitivity; eassumption); auto. Qed.

Lemma record_evolves_flags e g s r :
  (nr_status r = StGoal -> s = StGoal) -> (nr_status r = StPruned -> s = StPruned) ->
  record_evolves r (set_flags e g s r).
Proof. intros. destruct r. split; cbn in *; done. Qed.

Lemma record_evolves_counters v c r : (nr_visits r <= v)%N -> (nr_children r <= c)%N ->
  record_evolves r (set_counters v c r).
Proof. intros. destruct r. split; cbn in *; done. Qed.

Lemma with_record_evolves {A} id (f : NodeRecord -> res TreeError (A * NodeRecord)) t i r :
  tree_wf t -> records t !! i = Some r ->
  (forall r a r', record_wf r -> f r = Ok (a, r') -> record_evolves r r') ->
  exists r', records (with_record id f t).2 !! i = Some r' /\ record_evolves r r'.
Proof.
  intros Hwf Hr Hf. rewrite with_record_run.
  destruct (get t id) as [q|] eqn:Hg; [|eauto using record_evolves_refl].
  destruct (f q) as [[a q']| |] eqn:Hq; cbn; eauto using record_evolves_refl.
  apply get_Some in Hg. destruct (decide (i = N.to_nat id)) as [->|Hne].
  - rewrite list_lookup_insert_eq by (by eapply lookup_lt_Some).
    rewrite Hg in Hr. injection Hr as ->. eauto using twf_records.
  - rewrite list_lookup_insert_ne by done. eauto using record_evolves_refl.
Qed.

Lemma insert_child_evolves parent payload t i r : tree_wf t -> records t !! i = Some r ->
  exists r', records (insert_child parent payload t).2 !! i = Some r' /\ record_evolves r r'.
Proof.
  intros Hwf Hr. rewrite insert_child_run by done.
  destruct (get t parent) as [pr|] eqn:Hg; [|eauto using record_evolves_refl].
  destruct (_ <? _)%N; [eauto using record_evolves_refl|].
  destruct (_ <? _)%N; [eauto using record_evolves_refl|]. cbn [snd].
  setoid_rewrite tree_insert_lookup; [|done]. apply lookup_lt_Some in Hr as Hlt.
  case_decide as Hi.
  - subst i. apply get_Some in Hg. rewrite Hg in Hr. injection Hr as ->.
    eexists. split; [left; eauto|]. apply record_evolves_counters; lia.
  - exists r. split; [left; eauto|apply record_evolves_refl].
Qed.

Lemma run_call_evolves c t i r : tree_wf t -> records t !! i = Some r ->
  exists r', records (run_call c t).2 !! i = Some r' /\ record_evolves r r'.
Proof.
  intros Hwf Hr. destruct c as [p pl|id|id|id|id|id]; cbn [run_call]; rewrite ?discard_snd;
    [by apply insert_child_evolves|..];
    (apply with_record_evolves; [done|done|]); intros q a q' Hq; unfold may_expand.
  - intros (v & [Hv ->]%ok_or_Ok%checked_add_Some & [= <- <-])%bind_Ok.
    apply record_evolves_counters; lia.
  - intros [= <- <-]. destruct (nr_goal q) eqn:Hg; [apply record_evolves_refl|].
    case_bool_decide; [apply record_evolves_refl|].
    apply record_evolves_flags; intros E; [|done]. apply (rwf_goal _ Hq) in E. congruence.
  - rewrite is_goal_record_wf by done. destruct (nr_goal q) eqn:Hg; [done|]. intros [= <- <-].
    apply record_evolves_flags; intros E; [apply (rwf_goal _ Hq) in E; congruence|].
    by rewrite bool_decide_eq_true_2.
  - case_decide; [done|]. intros [= <- <-]. by apply record_evolves_flags.
  - rewrite is_goal_record_wf by done. destruct (nr_goal q) eqn:Hg; [done|]. intros [= <- <-].
    apply record_evolves_flags; intros E; [apply (rwf_goal _ Hq) in E; congruence|done].
Qed.

Lemma run_calls_evolves cs t i r : tree_wf t -> records t !! i = Some r ->
  exists r', records (run_calls cs t) !! i = Some r' /\ record_evolves r r'.
Proof.
  revert t r. induction cs as [|c cs IH]; intros t r Hwf Hr.
  - eauto using record_evolves_refl.
  - destruct (run_call_evolves c t i r Hwf Hr) as (r1 & Hr1 & He1).
    destruct (IH (run_call c t).2 r1) as (r2 & Hr2 & He2); [by apply run_call_wf|done|].
    exists r2. split; [done|]. eauto using record_evolves_trans.
Qed.

(** ** Properties *)

(** C30. The tree invariant holds of every tree any sequence of operations
    can build from a root, failing operations included: ids are dense, each
    non-root node's parent is an older node one level up, child lists and
    child counts are exactly the inverse of the parent links, status flags
    are coherent; and no operation panics on such a tree. *)
Theorem tree_reachable_wf (payload : NodePayload) (calls : list tree_call) (t0 : Tree) :
  from_root payload = Ok t0 ->
  tree_wf (run_calls calls t0) /\
  forall c, (run_call c (run_calls calls t0)).1 <> Panic.
Proof.
  intros H%from_root_wf. pose proof (run_calls_wf calls _ H) as Hwf.
  split; [done|]. intros c. by apply run_call_wf.
Qed.

(** [path_from_root] terminates and returns the chain of parent links:
    it starts at the root, ends at the requested node, has one entry per
    level, and every consecutive pair is a parent with its child; an unknown
    id is reported as [NodeNotFound]. *)
Theorem path_from_root_correct (t : Tree) (id : NodeId) :
  tree_wf t ->
  match get t id with
  | None => path_from_root t id = Err (NodeNotFound id)
  | Some r => exists p, path_from_root t id = Ok p /\
      head p = Some ROOT /\ last p = Some id /\
      N.of_nat (length p) = (nr_depth r + 1)%N /\
      forall k a b, p !! k = Some a -> p !! S k = Some b ->
        exists rb, get t b = Some rb /\ nr_parent rb = Some a
  end.
Proof.
  intros Hwf. unfold path_from_root. destruct (get t id) as [r|] eqn:Hg.
  - destruct (ancestors_exist _ _ _ Hwf Hg) as (l & Hl & Hlen & Hlast & Hle).
    exists (reverse l).
    rewrite (path_walk_ancestors _ _ _ _ [] Hwf Hl).
    2: { apply get_Some, lookup_lt_Some in Hg. lia. }
    split_and!; [done| | |by rewrite length_reverse|].
    + by rewrite <- Hlast, <- (reverse_involutive l), last_reverse, reverse_involutive.
    + rewrite last_reverse. by destruct Hl.
    + intros k a b Ha Hb. apply lookup_lt_Some in Hb as Hlt. rewrite length_reverse in Hlt.
      apply reverse_lookup_Some in Ha as [Ha ?], Hb as [Hb ?].
      eapply (ancestors_links _ _ _ _ _ _ Hl); [exact Hb|].
      by replace (S (length l - S (S k)))%nat with (length l - S k)%nat by lia.
  - cbn. by rewrite Hg.
Qed.

(** Committed nodes are permanent: along any sequence of operations a
    record keeps its id, parent, depth and payload, its counters never
    decrease, a goal node stays a goal node and a pruned node stays pruned. *)
Theorem tree_records_permanent (t : Tree) (calls : list tree_call) (id : NodeId) (r : NodeRecord) :
  tree_wf t -> get t id = Some r ->
  exists r', get (run_calls calls t) id = Some r' /\ record_evolves r r'.
Proof.
  intros Hwf Hg%get_Some. setoid_rewrite get_Some. by apply run_calls_evolves.
Qed.

(** ** Witnesses *)

Definition sample_score : Score := mkFinite f64_one eq_refl.
Definition sample_payload (seed : N) : NodePayload :=
  mkNodePayload (replicate DIGEST_LEN seed) sample_score sample_score seed
    (replicate DIGEST_LEN (seed + 1)%N) seed (seed * 10)%N.

Definition sample_calls : list tree_call :=
  [ CallInsert 0 (sample_payload 1); CallInsert 1 (sample_payload 2);
    CallInsert 9 (sample_payload 3); CallVisit 0; CallGoal 2; CallPruned 2; CallPruned 1 ].

Definition sample_root : Tree := mkTree [NodeRecord_root (sample_payload 0)] [[]].

Lemma tree_reachable_wf_witness :
  len (run_calls sample_calls sample_root) = 3%nat /\ tree_wf (run_calls sample_calls sample_root).
Proof.
  split; [vm_compute; reflexivity|].
  apply (tree_reachable_wf (sample_payload 0) sample_calls sample_root). reflexivity.
Defined.

Lemma path_from_root_correct_witness :
  path_from_root (run_calls sample_calls sample_root) 2 = Ok [0; 1; 2]%N /\
  exists p, path_from_root (run_calls sample_calls sample_root) 2 = Ok p /\ last p = Some 2%N.
Proof.
  split; [vm_compute; reflexivity|].
  destruct (path_from_root_correct (run_calls sample_calls sample_root) 2) as (p & H & _ & Hl & _).
  - apply run_calls_wf, (from_root_wf (sample_payload 0)). reflexivity.
  - exists p. split; [exact H|exact Hl].
Defined.

Lemma tree_records_permanent_witness :
  exists r r', get (run_calls sample_calls sample_root) 2 = Some r /\ nr_status r = StGoal /\
    get (run_calls [CallPruned 2; CallExhausted 2] (run_calls sample_calls sample_root)) 2 = Some r'
    /\ nr_status r' = StGoal.
Proof.
  destruct (get (run_calls sample_calls sample_root) 2) as [r|] eqn:E; [|discriminate E].
  destruct (tree_records_permanent (run_calls sample_calls sample_root)
    [CallPruned 2; CallExhausted 2] 2 r) as (r' & Hr' & Hev).
  - apply run_calls_wf, (from_root_wf (sample_payload 0)). reflexivity.
  - exact E.
  - exists r, r'.
    assert (option_map nr_status (get (run_calls sample_calls sample_root) 2) = Some StGoal) as Hs
      by (vm_compute; reflexivity).
    rewrite E in Hs. injection Hs as Hs.
    split; [reflexivity|]. split; [exact Hs|]. split; [exact Hr'|]. exact (ev_goal _ _ Hev Hs).
Defined.
