(* ===== verification/Frontier.v ===== *)
(** Frontier membership (crates/orch-core/src/frontier.rs): a vector of node
    ids with a hash index into it, insertion, removal by swap, and the
    deterministic listings selection works on.  The vector and the index are
    proved to implement a set: [frontier_wf] is the representation invariant,
    [members] the abstraction function. *)
From S2P Require Import Prelude Float64 Types Tree.

Inductive FrontierError :=
| DuplicateEntry (id : NodeId)
| Missing (id : NodeId)
| UnknownNode (id : NodeId).

Global Instance FrontierError_eq_dec : EqDecision FrontierError.
Proof. solve_decision. Defined.

Record Frontier := mkFrontier {
  entries : list NodeId;
  index : gmap NodeId nat
}.

(** ** Operations *)

Definition Frontier_new : Frontier := mkFrontier [] ∅.

Definition Frontier_insert (id : NodeId) : st Frontier FrontierError unit := fun f =>
  match index f !! id with
  | Some _ => (Err (DuplicateEntry id), f)
  | None =>
    let entry_index := length (entries f) in
    (Ok tt, mkFrontier (entries f ++ [id]) (<[id := entry_index]> (index f)))
  end.

Definition with_root : res FrontierError Frontier :=
  match Frontier_insert ROOT Frontier_new with
  | (Ok _, f) => Ok f
  | _ => Panic
  end.

(** [Vec::swap_remove]: the removed element and the vector, [None] where the
    index is out of range. *)
Definition swap_remove {A} (l : list A) (i : nat) : option (A * list A) :=
  removed ← l !! i;
  final ← last l;
  Some (removed, take (length l - 1) (<[i := final]> l)).

Definition Frontier_remove (id : NodeId) : st Frontier FrontierError unit := fun f =>
  match index f !! id with
  | None => (Err (Missing id), f)
  | Some entry_index =>
    let index' := delete id (index f) in
    match swap_remove (entries f) entry_index with
    | None => (Panic, mkFrontier (entries f) index')
    | Some (_, entries') =>
      (Ok tt, mkFrontier entries'
         (match entries' !! entry_index with
          | Some swapped => <[swapped := entry_index]> index'
          | None => index'
          end))
    end
  end.

Definition Frontier_contains (f : Frontier) (id : NodeId) : bool :=
  match index f !! id with Some _ => true | None => false end.
Definition Frontier_len (f : Frontier) : nat := length (entries f).
Definition Frontier_is_empty (f : Frontier) : bool :=
  match entries f with [] => true | _ => false end.

(** [sort_unstable] on ids: the ids are totally ordered, so every sorting
    algorithm returns this list. *)
Definition sort_ids (l : list NodeId) : list NodeId := merge_sort N.le l.

Definition deterministic_entries (f : Frontier) : list NodeId := sort_ids (entries f).

Fixpoint collect_candidates (t : Tree) (ids : list NodeId) : res FrontierError (list NodeId) :=
  match ids with
  | [] => Ok []
  | id :: ids' =>
    record ← ok_or (get t id) (UnknownNode id);
    rest ← collect_candidates t ids';
    Ok (if is_frontier_candidate record then id :: rest else rest)
  end.

Definition deterministic_candidates (f : Frontier) (t : Tree)
    : res FrontierError (list NodeId) :=
  candidates ← collect_candidates t (entries f);
  Ok (sort_ids candidates).

(** ** Representation invariant and abstraction *)

Definition frontier_wf (f : Frontier) : Prop :=
  forall id i, index f !! id = Some i <-> entries f !! i = Some id.

Definition members (f : Frontier) : gset NodeId := list_to_set (entries f).

Lemma wf_NoDup f : frontier_wf f -> NoDup (entries f).
Proof.
  intros Hwf. apply NoDup_alt. intros i j x Hi Hj.
  apply Hwf in Hi, Hj. congruence.
Qed.

Lemma elem_of_members f id : id ∈ members f <-> id ∈ entries f.
Proof. unfold members. by rewrite elem_of_list_to_set. Qed.

Lemma index_members f id : frontier_wf f -> is_Some (index f !! id) <-> id ∈ members f.
Proof.
  intros Hwf. rewrite elem_of_members, list_elem_of_lookup. unfold is_Some.
  split; intros [i Hi]; exists i; by apply Hwf.
Qed.

Lemma contains_members f id : frontier_wf f ->
  Frontier_contains f id = bool_decide (id ∈ members f).
Proof.
  intros Hwf. pose proof (index_members f id Hwf) as H. unfold Frontier_contains.
  destruct (index f !! id); case_bool_decide; try done; unfold is_Some in H; naive_solver.
Qed.

Lemma new_wf : frontier_wf Frontier_new.
Proof. intros id i. cbn. by rewrite lookup_empty. Qed.

(** Insertion adds a fresh member and rejects a known one without a change. *)
Lemma Frontier_insert_spec f id : frontier_wf f ->
  if decide (id ∈ members f)
  then Frontier_insert id f = (Err (DuplicateEntry id), f)
  else exists f', Frontier_insert id f = (Ok tt, f') /\ frontier_wf f' /\
         members f' = {[id]} ∪ members f /\ entries f' = entries f ++ [id].
Proof.
  intros Hwf. pose proof (index_members f id Hwf) as Hm. unfold Frontier_insert.
  case_decide as Hd.
  - apply Hm in Hd as [i ->]. done.
  - destruct (index f !! id) eqn:E; [destruct Hd; apply Hm; eauto|].
    eexists. split; [done|]. unfold members. cbn. split_and!; [|set_solver|done].
    intros id' i. cbn. rewrite lookup_snoc_Some, lookup_insert.
    case_decide as Hid.
    + subst id'. split; [intros [= <-]; auto|]. intros [[_ H]|[-> _]]; [|done].
      apply Hwf in H. congruence.
    + rewrite (Hwf id' i). split; [|naive_solver]. intros H. left.
      split; [by eapply lookup_lt_Some|done].
Qed.

Lemma swap_remove_lookup {A} (l : list A) (i : nat) x z : l !! i = Some x -> last l = Some z ->
  exists l', swap_remove l i = Some (x, l') /\
    (forall j, l' !! j = if decide (j < length l - 1)%nat
                         then (if decide (j = i) then Some z else l !! j) else None).
Proof.
  intros Hx Hz. unfold swap_remove. rewrite Hx, Hz. cbn. eexists. split; [done|].
  intros j. apply lookup_lt_Some in Hx as Hlt. case_decide as Hj.
  - rewrite lookup_take_lt by done. case_decide; [subst|].
    + by rewrite list_lookup_insert_eq.
    + by rewrite list_lookup_insert_ne.
  - apply lookup_take_ge. lia.
Qed.

(** The index after a removal still inverts the vector. *)
Lemma remove_index_wf f id i z l' :
  frontier_wf f -> entries f !! i = Some id ->
  entries f !! (length (entries f) - 1)%nat = Some z ->
  (forall j, l' !! j = if decide (j < length (entries f) - 1)%nat
                       then (if decide (j = i) then Some z else entries f !! j) else None) ->
  frontier_wf (mkFrontier l' (match l' !! i with
    | Some swapped => <[swapped := i]> (delete id (index f))
    | None => delete id (index f)
    end)).
Proof.
  intros Hwf He Hz Hl' y j. cbn [index entries]. rewrite !Hl'.
  apply lookup_lt_Some in He as Hlt.
  set (n := (length (entries f) - 1)%nat) in *.
  assert (forall k w, entries f !! k = Some w -> (k <= n)%nat) as Hle
    by (intros k w Hk%lookup_lt_Some; lia).
  pose proof (wf_NoDup _ Hwf) as Hnd. rewrite NoDup_alt in Hnd.
  assert (entries f !! j = Some y -> index f !! y = Some j) as Hx by apply Hwf.
  assert (index f !! y = Some j -> entries f !! j = Some y) as Hx' by apply Hwf.
  assert (entries f !! j = Some y -> (j <= n)%nat) as Hjn by eauto.
  destruct (decide (i < n)%nat) as [Hi|Hi].
  - rewrite (decide_True (P := i = i)) by done. rewrite lookup_insert, lookup_delete.
    destruct (decide (z = y)) as [->|Hzy].
    + split.
      * intros [= ->]. by rewrite !decide_True.
      * repeat case_decide; try congruence. intros H'. pose proof (Hnd _ _ _ H' Hz). lia.
    + destruct (decide (id = y)) as [->|Hidy].
      * split; [done|]. repeat case_decide; try congruence.
        intros H'. pose proof (Hnd _ _ _ H' He). lia.
      * split.
        -- intros H'%Hx'. destruct (decide (j = n)) as [->|]; [congruence|].
           destruct (decide (j = i)) as [->|]; [congruence|].
           rewrite decide_True by (pose proof (Hjn H'); lia). done.
        -- repeat case_decide; try congruence. auto.
  - rewrite lookup_delete. assert (i = n) as -> by lia.
    destruct (decide (id = y)) as [->|Hidy].
    + split; [done|]. repeat case_decide; try congruence.
      intros H'. pose proof (Hnd _ _ _ H' He). lia.
    + split.
      * intros H'%Hx'. destruct (decide (j = n)) as [->|]; [congruence|].
        rewrite decide_True by (pose proof (Hjn H'); lia). done.
      * repeat case_decide; try congruence. auto.
Qed.

(** Removal never panics; it takes exactly the requested member out. *)
Lemma Frontier_remove_spec f id : frontier_wf f ->
  if decide (id ∈ members f)
  then exists f', Frontier_remove id f = (Ok tt, f') /\ frontier_wf f' /\
         members f' = members f ∖ {[id]}
  else Frontier_remove id f = (Err (Missing id), f).
Proof.
  intros Hwf. pose proof (index_members f id Hwf) as Hm. unfold Frontier_remove.
  case_decide as Hd.
  2: { destruct (index f !! id) eqn:E; [|done]. destruct Hd. apply Hm. eauto. }
  apply Hm in Hd as [i Hi]. rewrite Hi. pose proof Hi as He. apply Hwf in He.
  apply lookup_lt_Some in He as Hlt.
  destruct (last (entries f)) as [z|] eqn:Hz.
  2: { apply last_None in Hz. rewrite Hz in He. done. }
  destruct (swap_remove_lookup _ _ _ _ He Hz) as (l' & -> & Hl').
  rewrite last_lookup in Hz.
  replace (pred (length (entries f))) with (length (entries f) - 1)%nat in Hz by lia.
  pose proof (remove_index_wf f id i z l' Hwf He Hz Hl') as Hwf'.
  eexists. split; [done|]. split; [exact Hwf'|].
  apply set_eq. intros y. rewrite elem_of_difference, elem_of_singleton, !elem_of_members.
  rewrite !list_elem_of_lookup. cbn [entries]. setoid_rewrite Hl'.
  pose proof (wf_NoDup _ Hwf) as Hnd. rewrite NoDup_alt in Hnd. split.
  - intros [j Hj]. case_decide as Hjn; [|done]. case_decide as Hji.
    + injection Hj as <-. split; [eauto|]. intros ->. pose proof (Hnd _ _ _ Hz He). lia.
    + split; [eauto|]. intros ->. pose proof (Hnd _ _ _ Hj He). lia.
  - intros [[j Hj] Hne]. apply lookup_lt_Some in Hj as Hjlt.
    destruct (decide (j = length (entries f) - 1)%nat) as [->|].
    + rewrite Hz in Hj. injection Hj as ->. exists i.
      destruct (decide (i = length (entries f) - 1)%nat) as [->|]; [congruence|].
      by rewrite decide_True, decide_True by lia.
    + exists j. rewrite decide_True by lia. case_decide; [subst; congruence|done].
Qed.
#[export] Hint Resolve new_wf : orch.

(** ** Deterministic listings *)

Global Instance N_le_total : Total N.le.
Proof. intros x y. lia. Qed.

Lemma sort_ids_perm l : sort_ids l ≡ₚ l.
Proof. apply merge_sort_Permutation. Qed.

Lemma sort_ids_sorted l : StronglySorted N.le (sort_ids l).
Proof. apply StronglySorted_merge_sort; apply _. Qed.

(** Two sorted lists with the same elements are equal. *)
Lemma sort_ids_ext l1 l2 : l1 ≡ₚ l2 -> sort_ids l1 = sort_ids l2.
Proof.
  intros Hp. eapply (StronglySorted_unique N.le); try apply sort_ids_sorted.
  by rewrite !sort_ids_perm.
Qed.

Definition is_candidate (t : Tree) (id : NodeId) : Prop :=
  exists r, get t id = Some r /\ is_frontier_candidate r = true.

Global Instance is_candidate_dec t id : Decision (is_candidate t id).
Proof.
  destruct (get t id) as [r|] eqn:E.
  - destruct (is_frontier_candidate r) eqn:F; [left; by exists r|].
    right. intros (r' & H & H'). congruence.
  - right. intros (r' & H & _). congruence.
Defined.

Lemma collect_candidates_spec t ids :
  (forall id, id ∈ ids -> contains t id = true) ->
  collect_candidates t ids = Ok (filter (is_candidate t) ids).
Proof.
  induction ids as [|id ids IH]; intros Hin; [done|]. cbn [collect_candidates].
  assert (contains t id = true) as Hc by (apply Hin; left).
  unfold contains in Hc. destruct (index_of t id) as [i|] eqn:E; [|done].
  destruct (get t id) as [r|] eqn:Hg.
  2: { apply get_None in Hg. apply index_of_None in Hg. congruence. }
  unfold mbind, res_bind. cbn [ok_or]. rewrite IH by (intros; apply Hin; by right).
  destruct (is_frontier_candidate r) eqn:F.
  - rewrite filter_cons_True; [done|]. by exists r.
  - rewrite filter_cons_False; [done|]. intros (r' & H & H'). congruence.
Qed.

Lemma collect_candidates_err t ids id : id ∈ ids -> contains t id = false ->
  exists id', collect_candidates t ids = Err (UnknownNode id') /\ id' ∈ ids /\
    contains t id' = false.
Proof.
  induction ids as [|x ids IH]; intros Hin Hc; [by apply elem_of_nil in Hin|].
  cbn [collect_candidates]. destruct (get t x) as [r|] eqn:Hg; cbn.
  - apply elem_of_cons in Hin as [->|Hin].
    + exfalso. unfold contains in Hc. destruct (index_of t x) eqn:E; [done|].
      apply index_of_None, get_None in E. congruence.
    + destruct (IH Hin Hc) as (id' & -> & Hid & Hc'). exists id'. split; [done|].
      split; [by right|done].
  - exists x. split; [done|]. split; [left|]. unfold contains.
    apply get_None, index_of_None in Hg. by rewrite Hg.
Qed.

(** ** Sequences of calls *)

Inductive frontier_call := FInsert (id : NodeId) | FRemove (id : NodeId).

Definition run_fcall (c : frontier_call) : st Frontier FrontierError unit :=
  match c with FInsert id => Frontier_insert id | FRemove id => Frontier_remove id end.

(** The abstract set the frontier promises, one call at a time. *)
Definition spec_fcall (c : frontier_call) (s : gset NodeId)
    : res FrontierError unit * gset NodeId :=
  match c with
  | FInsert id => if decide (id ∈ s) then (Err (DuplicateEntry id), s) else (Ok tt, {[id]} ∪ s)
  | FRemove id => if decide (id ∈ s) then (Ok tt, s ∖ {[id]}) else (Err (Missing id), s)
  end.

Lemma run_fcall_refines c f : frontier_wf f ->
  frontier_wf (run_fcall c f).2 /\
  (run_fcall c f).1 = (spec_fcall c (members f)).1 /\
  members (run_fcall c f).2 = (spec_fcall c (members f)).2.
Proof.
  intros Hwf. destruct c as [id|id]; cbn.
  - pose proof (Frontier_insert_spec f id Hwf) as H. case_decide.
    + by rewrite H.
    + destruct H as (f' & -> & ? & ? & _). done.
  - pose proof (Frontier_remove_spec f id Hwf) as H. case_decide.
    + destruct H as (f' & -> & ? & ?). done.
    + by rewrite H.
Qed.

(** ** Properties *)

(** C31. The frontier refines a finite set of node ids: starting from the
    empty frontier, along any sequence of insertions and removals each call
    returns what the set returns (duplicate and missing ids are reported,
    removal by swap never indexes out of range), the vector and the index
    stay inverse to each other, and the members are the set's. *)
Theorem frontier_refines_set (calls : list frontier_call) :
  let f := fold_left (fun f c => (run_fcall c f).2) calls Frontier_new in
  let s := fold_left (fun s c => (spec_fcall c s).2) calls (∅ : gset NodeId) in
  frontier_wf f /\ members f = s /\
  (forall id, Frontier_contains f id = bool_decide (id ∈ s)) /\
  Frontier_len f = size s /\
  forall c, (run_fcall c f).1 = (spec_fcall c s).1.
Proof.
  cbv zeta.
  assert (forall f s, frontier_wf f -> members f = s ->
    frontier_wf (fold_left (fun f c => (run_fcall c f).2) calls f) /\
    members (fold_left (fun f c => (run_fcall c f).2) calls f) =
      fold_left (fun s c => (spec_fcall c s).2) calls s) as H.
  { induction calls as [|c calls IH]; intros f s Hwf <-; [done|]. cbn.
    destruct (run_fcall_refines c f Hwf) as (Hw & _ & Hm). by apply IH. }
  destruct (H Frontier_new _ new_wf eq_refl) as [Hwf Hm].
  change (members Frontier_new) with (∅ : gset NodeId) in Hm. rewrite <- Hm.
  set (f := fold_left _ calls Frontier_new) in *. split_and!; auto.
  - intros id. by apply contains_members.
  - unfold members, Frontier_len. symmetry. apply size_list_to_set, wf_NoDup, Hwf.
  - intros c. by apply run_fcall_refines.
Qed.

(** Candidate listing is deterministic: when every member is a node of
    the tree the result is the strictly increasing list of exactly the
    members that are open frontier nodes, so two frontiers with the same
    members give the same list whatever the insertion order; when a member
    is unknown to the tree the call reports an unknown member. *)
Theorem deterministic_candidates_correct (f : Frontier) (t : Tree) :
  frontier_wf f ->
  ((forall id, id ∈ members f -> contains t id = true) ->
   exists l, deterministic_candidates f t = Ok l /\
     StronglySorted N.lt l /\
     (forall id, id ∈ l <-> id ∈ members f /\ is_candidate t id) /\
     (forall f', frontier_wf f' -> members f' = members f ->
        deterministic_candidates f' t = Ok l)) /\
  (forall id, id ∈ members f -> contains t id = false ->
   exists id', deterministic_candidates f t = Err (UnknownNode id') /\
     id' ∈ members f /\ contains t id' = false).
Proof.
  intros Hwf.
  assert (forall g, members g = members f -> (forall id, id ∈ members f -> contains t id = true) ->
    deterministic_candidates g t = Ok (sort_ids (filter (is_candidate t) (entries g)))) as Hrun.
  { intros g Hm Hin. unfold deterministic_candidates. rewrite collect_candidates_spec; [done|].
    intros id Hid. apply Hin. rewrite <- Hm. by apply elem_of_members. }
  split.
  - intros Hin. exists (sort_ids (filter (is_candidate t) (entries f))). split_and!.
    + by apply Hrun.
    + apply StronglySorted_lt_of_le; [apply sort_ids_sorted|].
      rewrite sort_ids_perm. by apply NoDup_filter, wf_NoDup.
    + intros id. rewrite sort_ids_perm, list_elem_of_filter, elem_of_members. tauto.
    + intros f' Hwf' Hm. rewrite Hrun by done. f_equal. apply sort_ids_ext, filter_Permutation.
      apply NoDup_Permutation; auto using wf_NoDup. intros id.
      by rewrite <- !elem_of_members, Hm.
  - intros id Hid Hc. apply elem_of_members in Hid.
    destruct (collect_candidates_err t (entries f) id Hid Hc) as (id' & Hrun' & Hid' & Hc').
    exists id'. unfold deterministic_candidates. rewrite Hrun', elem_of_members. done.
Qed.

(** ** Witnesses *)

Definition sample_frontier : Frontier :=
  fold_left (fun f c => (run_fcall c f).2)
    [FInsert 2; FInsert 0; FInsert 1; FInsert 2; FRemove 2] Frontier_new.

Lemma deterministic_candidates_correct_witness :
  deterministic_candidates sample_frontier (run_calls [CallInsert 0 (sample_payload 1)] sample_root)
    = Ok [0; 1]%N /\
  exists l, deterministic_candidates sample_frontier
    (run_calls [CallInsert 0 (sample_payload 1)] sample_root) = Ok l /\ StronglySorted N.lt l.
Proof.
  split; [vm_compute; reflexivity|].
  destruct (deterministic_candidates_correct sample_frontier
    (run_calls [CallInsert 0 (sample_payload 1)] sample_root)) as [H _].
  - apply run_fcall_refines, run_fcall_refines, run_fcall_refines, run_fcall_refines,
      run_fcall_refines, new_wf.
  - destruct H as (l & Hl & Hs & _); [|by exists l].
    intros id Hid. apply elem_of_members in Hid. vm_compute in Hid.
    repeat (apply elem_of_cons in Hid as [->|Hid]; [reflexivity|]). by apply elem_of_nil in Hid.
Defined.
