(* ===== verification/Mirror.v ===== *)
(** Selection-side cell mirror and state-hash routing
    (crates/orch-core/src/mirror.rs): visit counts per cell, the first node
    seen for each state hash, and the sorted vectors a checkpoint carries.
    The hash maps are finite maps; their sorted listings are functions of the
    map alone, and rebuilding from a listing gives the map back. *)
From S2P Require Import Prelude Float64 Types.

(** ** Byte-string order *)

(** The derived [Ord] of [StateHash]: lexicographic on the bytes. *)
Fixpoint bytes_compare (a b : list N) : comparison :=
  match a, b with
  | [], [] => Eq
  | [], _ :: _ => Lt
  | _ :: _, [] => Gt
  | x :: a', y :: b' =>
    match N.compare x y with Eq => bytes_compare a' b' | c => c end
  end.

Definition bytes_lt (a b : list N) : Prop := bytes_compare a b = Lt.
Definition bytes_le (a b : list N) : Prop := bytes_compare a b <> Gt.
Global Instance bytes_lt_dec : RelDecision bytes_lt := fun a b => decide (bytes_compare a b = Lt).
Global Instance bytes_le_dec : RelDecision bytes_le := fun a b => decide (bytes_compare a b <> Gt).

Lemma bytes_compare_eq a b : bytes_compare a b = Eq <-> a = b.
Proof.
  revert b. induction a as [|x a IH]; intros [|y b]; cbn; try (split; done).
  destruct (N.compare_spec x y); subst; rewrite ?IH; split; try done; try congruence;
    intros [= -> ->]; lia.
Qed.

Lemma bytes_compare_antisym a b : bytes_compare a b = CompOpp (bytes_compare b a).
Proof.
  revert b. induction a as [|x a IH]; intros [|y b]; cbn; try done.
  rewrite (N.compare_antisym y x). destruct (N.compare y x); cbn; auto.
Qed.

Lemma bytes_lt_trans a b c : bytes_lt a b -> bytes_lt b c -> bytes_lt a c.
Proof.
  unfold bytes_lt. revert b c. induction a as [|x a IH]; intros [|y b] [|z c]; cbn; try done.
  destruct (N.compare_spec x y), (N.compare_spec y z), (N.compare_spec x z); subst; try done;
    try lia; eauto.
Qed.

Lemma bytes_le_lt_eq a b : bytes_le a b <-> bytes_lt a b \/ a = b.
Proof.
  unfold bytes_le, bytes_lt. rewrite <- bytes_compare_eq. destruct (bytes_compare a b); naive_solver.
Qed.

Global Instance bytes_le_total : Total bytes_le.
Proof.
  intros a b. unfold bytes_le. rewrite (bytes_compare_antisym b a).
  destruct (bytes_compare a b); cbn; naive_solver.
Qed.

Global Instance bytes_le_trans : Transitive bytes_le.
Proof.
  intros a b c. rewrite !bytes_le_lt_eq. intros [H| ->] [H'| ->]; auto.
  left. eapply bytes_lt_trans; eauto.
Qed.

(** ** Sorted listings of a map *)

Section SortedListing.
Context {K V : Type} `{Countable K} (le : K -> K -> Prop) `{!RelDecision le}.
Context `{!Total le, !Transitive le}.

Definition key_le (a b : K * V) : Prop := le a.1 b.1.
Global Instance key_le_dec : RelDecision key_le := fun a b => decide (le a.1 b.1).
Global Instance key_le_total : Total key_le.
Proof. intros a b. apply (total le). Qed.
Global Instance key_le_trans : Transitive key_le.
Proof. intros a b c. apply (transitivity (R := le)). Qed.

(** [iter().collect()] followed by [sort_unstable_by_key]: the keys are
    distinct, so the order is determined. *)
Definition sorted_listing (m : gmap K V) : list (K * V) := merge_sort key_le (map_to_list m).

Lemma sorted_listing_perm m : sorted_listing m ≡ₚ map_to_list m.
Proof. apply merge_sort_Permutation. Qed.

Lemma elem_of_sorted_listing m k v : (k, v) ∈ sorted_listing m <-> m !! k = Some v.
Proof. by rewrite sorted_listing_perm, elem_of_map_to_list. Qed.

Lemma sorted_listing_keys m : NoDup (sorted_listing m).*1.
Proof. rewrite sorted_listing_perm. apply NoDup_fst_map_to_list. Qed.

Lemma sorted_listing_sorted m : StronglySorted key_le (sorted_listing m).
Proof. apply StronglySorted_merge_sort; apply _. Qed.

Lemma sorted_listing_strict m :
  StronglySorted (fun a b => le a.1 b.1 /\ a.1 <> b.1) (sorted_listing m).
Proof.
  pose proof (sorted_listing_keys m) as Hk. pose proof (sorted_listing_sorted m) as Hs.
  induction Hs as [|x l Hl IH Hx]; [constructor|]. cbn in Hk.
  apply NoDup_cons in Hk as [Hni Hk]. constructor; [auto|].
  rewrite Forall_forall in Hx |- *. intros y Hy. split; [by apply Hx|].
  intros Heq. apply Hni. rewrite Heq. by apply list_elem_of_fmap_2.
Qed.

Lemma list_to_map_sorted_listing m : list_to_map (sorted_listing m) = m.
Proof.
  rewrite <- (list_to_map_to_list m) at 2.
  apply list_to_map_proper; [apply sorted_listing_keys|apply sorted_listing_perm].
Qed.
End SortedListing.

(** ** Cell mirror *)

Record CellMirror := mkCellMirror { counts : gmap CellKey N }.
Definition CellMirror_new : CellMirror := mkCellMirror ∅.

Definition count (c : CellMirror) (cell : CellKey) : N := default 0%N (counts c !! cell).

Definition bump_by {E} (cell : CellKey) (amount : N) : st CellMirror E N := fun c =>
  if (amount =? 0)%N then (Ok (count c cell), c)
  else
    match checked_add u32_max (default 0%N (counts c !! cell)) amount with
    | Some v => (Ok v, mkCellMirror (<[cell := v]> (counts c)))
    | None => (Panic, c)
    end.

Definition bump {E} (cell : CellKey) : st CellMirror E N := bump_by cell 1.

Definition novelty (c : CellMirror) (cell : CellKey) : f64 :=
  f64_div f64_one (f64_sqrt (f64_add f64_one (f64_of_N (count c cell)))).

Definition reset_for_rebin (c : CellMirror) : CellMirror := mkCellMirror ∅.

Definition sorted_counts (c : CellMirror) : list (CellKey * N) := sorted_listing N.le (counts c).

Definition from_sorted_counts (l : list (CellKey * N)) : CellMirror :=
  fold_left (fun c '(cell, n) =>
    if (n =? 0)%N then c else mkCellMirror (<[cell := n]> (counts c))) l CellMirror_new.

(** ** Seen map *)

Record SeenMap := mkSeenMap { seen_map : gmap StateHash NodeId }.
Definition SeenMap_new : SeenMap := mkSeenMap ∅.

(** The existing route if there is one, otherwise the new one is recorded. *)
Definition SeenMap_insert (h : StateHash) (node : NodeId) (s : SeenMap)
    : option NodeId * SeenMap :=
  match seen_map s !! h with
  | Some existing => (Some existing, s)
  | None => (None, mkSeenMap (<[h := node]> (seen_map s)))
  end.

Definition SeenMap_get (s : SeenMap) (h : StateHash) : option NodeId := seen_map s !! h.

Definition sorted_entries (s : SeenMap) : list (StateHash * NodeId) :=
  sorted_listing bytes_le (seen_map s).

Definition from_sorted_entries (l : list (StateHash * NodeId)) : SeenMap :=
  fold_left (fun s '(h, node) => (SeenMap_insert h node s).2) l SeenMap_new.

(** ** Snapshot *)

Record MirrorSnapshot := mkMirrorSnapshot {
  cell_counts : list (CellKey * N);
  snap_seen : list (StateHash * NodeId)
}.

Definition from_parts (cells : CellMirror) (seen : SeenMap) : MirrorSnapshot :=
  mkMirrorSnapshot (sorted_counts cells) (sorted_entries seen).

Definition into_parts (m : MirrorSnapshot) : CellMirror * SeenMap :=
  (from_sorted_counts (cell_counts m), from_sorted_entries (snap_seen m)).

Definition reset_cell_counts_for_rebin (m : MirrorSnapshot) : MirrorSnapshot :=
  mkMirrorSnapshot [] (snap_seen m).

(** ** Invariant and lemmas *)

(** Stored counts are positive and fit in [u32]. *)
Definition mirror_wf (c : CellMirror) : Prop :=
  forall cell n, counts c !! cell = Some n -> (0 < n <= u32_max)%N.

Lemma count_bound c cell : mirror_wf c -> (count c cell <= u32_max)%N.
Proof.
  intros Hwf. unfold count. destruct (counts c !! cell) as [n|] eqn:E; cbn; [|done].
  apply Hwf in E. lia.
Qed.

Lemma bump_by_spec {E} c cell amount : mirror_wf c ->
  bump_by (E:=E) cell amount c =
  if decide (count c cell + amount <= u32_max)%N
  then (Ok (count c cell + amount)%N,
        if (amount =? 0)%N then c else mkCellMirror (<[cell := (count c cell + amount)%N]> (counts c)))
  else (Panic, c).
Proof.
  intros Hwf. pose proof (count_bound c cell Hwf). unfold bump_by, checked_add, count in *.
  destruct (N.eqb_spec amount 0) as [->|]; repeat case_decide; try done; try lia.
  by rewrite N.add_0_r.
Qed.

Lemma bump_by_wf {E} c cell amount : mirror_wf c -> mirror_wf (bump_by (E:=E) cell amount c).2.
Proof.
  intros Hwf. rewrite bump_by_spec by done. case_decide; [|done]. cbn.
  destruct (N.eqb_spec amount 0); [done|]. intros k v. cbn. rewrite lookup_insert.
  case_decide; [intros [= <-]; lia|apply Hwf].
Qed.

Lemma bump_by_count {E} c cell amount k : mirror_wf c ->
  (count c cell + amount <= u32_max)%N ->
  count (bump_by (E:=E) cell amount c).2 k =
  (count c k + (if decide (k = cell) then amount else 0))%N.
Proof.
  intros Hwf Hle. rewrite bump_by_spec, decide_True by done. cbn.
  destruct (N.eqb_spec amount 0) as [->|]; [by case_decide; rewrite N.add_0_r|].
  unfold count at 1. cbn. rewrite lookup_insert. repeat case_decide; subst; try done; cbn; try lia.
  fold (count c k). lia.
Qed.

Lemma CellMirror_ext a b : counts a = counts b -> a = b.
Proof. destruct a, b; cbn. congruence. Qed.

Lemma SeenMap_ext a b : seen_map a = seen_map b -> a = b.
Proof. destruct a, b; cbn. congruence. Qed.

Lemma from_sorted_counts_fold l m :
  NoDup l.*1 -> Forall (fun x => x.2 <> 0%N) l -> (forall k, k ∈ l.*1 -> m !! k = None) ->
  counts (fold_left (fun c '(cell, n) =>
    if (n =? 0)%N then c else mkCellMirror (<[cell := n]> (counts c))) l (mkCellMirror m))
  = list_to_map l ∪ m.
Proof.
  revert m. induction l as [|[k n] l IH]; intros m Hnd Hz Hm; cbn.
  - by rewrite map_empty_union.
  - cbn in Hnd. apply NoDup_cons in Hnd as [Hni Hnd]. inversion_clear Hz as [|? ? Hn Hz'].
    cbn in Hn. destruct (N.eqb_spec n 0); [done|]. rewrite IH; auto.
    + apply map_eq. intros j. rewrite !lookup_union, !lookup_insert.
      case_decide; [subst j|done].
      rewrite not_elem_of_list_to_map_1 by done. rewrite Hm by (by left). done.
    + intros j Hj. rewrite lookup_insert_ne by (intros ->; done). apply Hm. by right.
Qed.

Lemma from_sorted_entries_fold l m :
  NoDup l.*1 -> (forall k, k ∈ l.*1 -> m !! k = None) ->
  seen_map (fold_left (fun s '(h, node) => (SeenMap_insert h node s).2) l (mkSeenMap m))
  = list_to_map l ∪ m.
Proof.
  revert m. induction l as [|[k n] l IH]; intros m Hnd Hm; cbn.
  - by rewrite map_empty_union.
  - cbn in Hnd. apply NoDup_cons in Hnd as [Hni Hnd]. unfold SeenMap_insert. cbn.
    rewrite (Hm k) by (by left). cbn. rewrite IH; auto.
    + apply map_eq. intros j. rewrite !lookup_union, !lookup_insert.
      case_decide; [subst j|done].
      rewrite not_elem_of_list_to_map_1 by done. rewrite Hm by (by left). done.
    + intros j Hj. rewrite lookup_insert_ne by (intros ->; done). apply Hm. by right.
Qed.

(** First route wins when a hash is listed twice. *)
Lemma SeenMap_insert_get h node s k :
  SeenMap_get (SeenMap_insert h node s).2 k =
  match SeenMap_get s k with
  | Some n => Some n
  | None => if decide (k = h) then Some node else None
  end.
Proof.
  unfold SeenMap_insert, SeenMap_get.
  destruct (seen_map s !! h) as [n|] eqn:E; cbn.
  - destruct (seen_map s !! k) eqn:E'; [done|]. case_decide; [congruence|done].
  - rewrite lookup_insert. repeat case_decide; subst; try done.
    + by rewrite E.
    + by destruct (seen_map s !! k).
Qed.

(** ** Properties *)

(** A checkpoint's mirror vectors are a faithful encoding: taking the
    snapshot of a well-formed mirror and rebuilding from it gives back the
    same cell counts and the same hash routes, and the vectors are strictly
    sorted by cell key and by state hash. *)
Theorem mirror_snapshot_roundtrip (cells : CellMirror) (seen : SeenMap) :
  mirror_wf cells ->
  into_parts (from_parts cells seen) = (cells, seen) /\
  StronglySorted (fun a b => a.1 < b.1)%N (cell_counts (from_parts cells seen)) /\
  StronglySorted (fun a b => bytes_lt a.1 b.1) (snap_seen (from_parts cells seen)).
Proof.
  intros Hwf. split_and!.
  - unfold into_parts, from_parts, from_sorted_counts, from_sorted_entries, sorted_counts,
      sorted_entries. cbn [cell_counts snap_seen]. f_equal.
    + apply CellMirror_ext. unfold CellMirror_new. rewrite from_sorted_counts_fold.
      * by rewrite list_to_map_sorted_listing, map_union_empty.
      * apply sorted_listing_keys.
      * apply Forall_forall. intros [k n] Hin%elem_of_sorted_listing. apply Hwf in Hin. cbn. lia.
      * intros. apply lookup_empty.
    + apply SeenMap_ext. unfold SeenMap_new. rewrite from_sorted_entries_fold.
      * by rewrite list_to_map_sorted_listing, map_union_empty.
      * apply sorted_listing_keys.
      * intros. apply lookup_empty.
  - eapply StronglySorted_mono; [|apply (sorted_listing_strict N.le)]. intros a b [? ?]. lia.
  - eapply StronglySorted_mono; [|apply (sorted_listing_strict bytes_le)].
    intros a b [[H|H]%bytes_le_lt_eq ?]; done.
Qed.

(** Duplicate routing keeps the first node: rebuilding the seen map from
    any list of routes, sorted or not, maps each hash to the node of its
    first occurrence, and inserting a known hash returns the existing route
    and changes nothing. *)
Theorem seen_first_route_wins (l : list (StateHash * NodeId)) (h : StateHash) (node : NodeId) :
  SeenMap_get (from_sorted_entries l) h = (list_to_map l : gmap StateHash NodeId) !! h /\
  (forall s n, SeenMap_get s h = Some n -> SeenMap_insert h node s = (Some n, s)).
Proof.
  split.
  - unfold from_sorted_entries.
    assert (forall s, SeenMap_get (fold_left (fun s '(h, node) => (SeenMap_insert h node s).2) l s) h
      = match SeenMap_get s h with Some n => Some n
        | None => (list_to_map l : gmap StateHash NodeId) !! h end) as H.
    { induction l as [|[k n] l IH]; intros s; cbn.
      - by destruct (SeenMap_get s h).
      - rewrite IH, SeenMap_insert_get. destruct (SeenMap_get s h) as [x|]; [done|].
        rewrite lookup_insert. repeat case_decide; subst; done. }
    rewrite H. unfold SeenMap_get. cbn. by rewrite lookup_empty.
  - intros s n Hs. unfold SeenMap_get, SeenMap_insert in *. by rewrite Hs.
Qed.

(** Cell counts are exact and never wrap: a bump adds its amount to the
    cell it names and to no other, keeps the mirror well-formed, and panics
    exactly when the count would leave [u32]. *)
Theorem cell_bump_exact (c : CellMirror) (cell : CellKey) (amount : N) :
  mirror_wf c ->
  let r := bump_by (E:=unit) cell amount c in
  mirror_wf r.2 /\
  ((count c cell + amount <= u32_max)%N ->
     r.1 = Ok (count c cell + amount)%N /\
     forall k, count r.2 k = (count c k + (if decide (k = cell) then amount else 0))%N) /\
  ((u32_max < count c cell + amount)%N -> r.1 = Panic).
Proof.
  intros Hwf r. split; [by apply bump_by_wf|]. unfold r. split.
  - intros Hle. split; [|intros k; by apply bump_by_count].
    by rewrite bump_by_spec, decide_True.
  - intros Hlt. rewrite bump_by_spec, decide_False by (done || lia). done.
Qed.

(** ** Witnesses *)

Definition sample_mirror : CellMirror :=
  mkCellMirror (<[30%N := 3%N]> (<[10%N := 1%N]> ∅)).

Lemma sample_mirror_wf : mirror_wf sample_mirror.
Proof.
  intros k n. cbn. rewrite !lookup_insert, lookup_empty. unfold u32_max.
  repeat case_decide; intros; simplify_eq; lia.
Qed.

Lemma mirror_snapshot_roundtrip_witness :
  sorted_counts sample_mirror = [(10, 1); (30, 3)]%N /\
  into_parts (from_parts sample_mirror SeenMap_new) = (sample_mirror, SeenMap_new).
Proof.
  split; [vm_compute; reflexivity|].
  apply (mirror_snapshot_roundtrip sample_mirror SeenMap_new). exact sample_mirror_wf.
Defined.

Lemma cell_bump_exact_witness :
  (bump_by (E:=unit) 30%N 2 sample_mirror).1 = Ok 5%N /\
  (bump_by (E:=unit) 30%N u32_max sample_mirror).1 = Panic.
Proof.
  split.
  - apply (cell_bump_exact sample_mirror 30 2); [exact sample_mirror_wf|]. vm_compute. discriminate.
  - apply (cell_bump_exact sample_mirror 30 u32_max); [exact sample_mirror_wf|]. vm_compute. reflexivity.
Defined.
