(* ===== verification/Commit.v ===== *)
(** Commit rules (crates/orch-core/src/commit.rs): how a batch of scored
    children changes the tree, the frontier, the cell mirror, the seen map
    and the all-duplicate streaks.  [commit_wf] ties these parts together:
    frontier membership is exactly "not exhausted", every hash route points
    to a node with that hash, and every node's hash has a route. *)
From S2P Require Import Prelude Float64 Types Tree Frontier Mirror.
Local Open Scope string_scope.
Local Open Scope list_scope.

(** ** Data *)

Record CommitRules := mkCommitRules {
  prune_action : PruneAction;
  epsilon_keep : f64;
  rule_max_visits_per_node : N;
  rule_exhaust_after_dup_expansions : N
}.

Definition from_config (c : ExperimentConfig) : CommitRules :=
  mkCommitRules (cfg_prune_action c) (epsilon_s (plateau c))
    (max_visits_per_node (selection c)) (exhaust_after_dup_expansions (selection c)).

Record ScoredChild := mkScoredChild {
  sc_payload : NodePayload;
  sc_duplicate : bool;
  sc_prune : bool;
  sc_goal : bool
}.

Record ChildCommit := mkChildCommit {
  disposition : CommitDisposition;
  cc_node_id : option NodeId;
  duplicate_route : option NodeId
}.

Record BatchCommitOutcome := mkBatchCommitOutcome {
  bo_parent : NodeId;
  parent_visits : N;
  child_commits : list ChildCommit;
  parent_evicted : option FrontierEvictReason;
  goal_node : option NodeId
}.

Record CommitState := mkCommitState {
  cs_tree : Tree;
  cs_frontier : Frontier;
  cs_cell_mirror : CellMirror;
  cs_seen : SeenMap;
  all_duplicate_streaks : list N
}.

Inductive CommitError :=
| ParentNotFound (id : NodeId)
| InvalidRule (field : string)
| CommitTree (error : TreeError)
| CommitFrontier (error : FrontierError).

Definition set_tree (t : Tree) (s : CommitState) : CommitState :=
  mkCommitState t (cs_frontier s) (cs_cell_mirror s) (cs_seen s) (all_duplicate_streaks s).
Definition set_frontier (f : Frontier) (s : CommitState) : CommitState :=
  mkCommitState (cs_tree s) f (cs_cell_mirror s) (cs_seen s) (all_duplicate_streaks s).
Definition set_cell_mirror (c : CellMirror) (s : CommitState) : CommitState :=
  mkCommitState (cs_tree s) (cs_frontier s) c (cs_seen s) (all_duplicate_streaks s).
Definition set_seen (m : SeenMap) (s : CommitState) : CommitState :=
  mkCommitState (cs_tree s) (cs_frontier s) (cs_cell_mirror s) m (all_duplicate_streaks s).
Definition set_streaks (l : list N) (s : CommitState) : CommitState :=
  mkCommitState (cs_tree s) (cs_frontier s) (cs_cell_mirror s) (cs_seen s) l.

Definition on_tree {A} (m : st Tree TreeError A) : st CommitState CommitError A :=
  zoom cs_tree set_tree CommitTree m.
Definition on_frontier {A} (m : st Frontier FrontierError A) : st CommitState CommitError A :=
  zoom cs_frontier set_frontier CommitFrontier m.
Definition on_cells {A} (m : st CellMirror CommitError A) : st CommitState CommitError A :=
  zoom cs_cell_mirror set_cell_mirror (fun e => e) m.
Definition on_seen {A} (f : SeenMap -> A * SeenMap) : st CommitState CommitError A := fun s =>
  let '(a, m) := f (cs_seen s) in (Ok a, set_seen m s).

(** ** Construction *)

Definition CommitState_from_root (payload : NodePayload) : res CommitError CommitState :=
  let seen := (SeenMap_insert (np_state_hash payload) ROOT SeenMap_new).2 in
  match bump (E:=CommitError) (np_cell payload) CellMirror_new with
  | (Ok _, cells) =>
    t ← map_err CommitTree (from_root payload);
    f ← map_err CommitFrontier with_root;
    Ok (mkCommitState t f cells seen [0%N])
  | _ => Panic
  end.

(** Rebuilds the state on resume; streaks of unknown nodes are dropped. *)
Definition CommitState_from_parts (t : Tree) (f : Frontier) (cells : CellMirror) (seen : SeenMap)
    (streaks : list (NodeId * N)) : CommitState :=
  let vec := replicate (N.to_nat (next_id t)) 0%N in
  let vec := fold_left (fun v '(id, streak) =>
    if (id <? N.of_nat (length v))%N then <[N.to_nat id := streak]> v else v) streaks vec in
  mkCommitState t f cells seen vec.

Definition all_duplicate_streak (s : CommitState) (id : NodeId) : option N :=
  if (id <? N.of_nat (length (all_duplicate_streaks s)))%N
  then all_duplicate_streaks s !! N.to_nat id else None.

(** [Vec::resize] upwards. *)
Definition ensure_tracking (id : NodeId) (s : CommitState) : CommitState :=
  let index := N.to_nat id in
  let l := all_duplicate_streaks s in
  if decide (length l <= index)%nat
  then set_streaks (l ++ replicate (index + 1 - length l) 0%N) s
  else s.

(** ** The rules *)

Definition validate_rules (rules : CommitRules) : res CommitError unit :=
  if negb (is_finite (epsilon_keep rules)) || f64_ltb (epsilon_keep rules) f64_zero
  then Err (InvalidRule "epsilon_keep")
  else if (rule_max_visits_per_node rules =? 0)%N then Err (InvalidRule "max_visits_per_node")
  else if (rule_exhaust_after_dup_expansions rules =? 0)%N
       then Err (InvalidRule "exhaust_after_dup_expansions")
  else Ok tt.

Definition commit_child (parent : NodeId) (parent_score : f64) (child : ScoredChild)
    (rules : CommitRules) : st CommitState CommitError ChildCommit :=
  let payload := sc_payload child in
  if sc_prune child then
    match prune_action rules with
    | Drop => mret (mkChildCommit (Discard PruneDrop) None None)
    | Exhausted =>
      child_id ← on_tree (insert_child parent payload);
      _ ← modify (ensure_tracking child_id);
      _ ← on_tree (mark_pruned child_id);
      _ ← on_seen (SeenMap_insert (np_state_hash payload) child_id);
      _ ← on_cells (bump (np_cell payload));
      mret (mkChildCommit PrunedExhausted (Some child_id) None)
    end
  else if sc_duplicate child then
    _ ← on_cells (bump (np_cell payload));
    route ← gets (fun s => SeenMap_get (cs_seen s) (np_state_hash payload));
    _ ← match route with
        | Some existing =>
          if decide (existing = parent) then mret tt
          else _ ← on_tree (increment_visits existing); mret tt
        | None => mret tt
        end;
    mret (mkChildCommit (Discard Duplicate) None route)
  else
    let worse_than_parent :=
      f64_ltb (f64_add (finite_get (np_score payload)) (epsilon_keep rules)) parent_score in
    known_cell ← gets (fun s => (0 <? count (cs_cell_mirror s) (np_cell payload))%N);
    if worse_than_parent && known_cell then
      mret (mkChildCommit (Discard Regression) None None)
    else
      child_id ← on_tree (insert_child parent payload);
      _ ← modify (ensure_tracking child_id);
      _ ← on_seen (SeenMap_insert (np_state_hash payload) child_id);
      _ ← on_cells (bump (np_cell payload));
      _ ← on_frontier (Frontier_insert child_id);
      _ ← (if sc_goal child then on_tree (mark_goal child_id) else mret tt);
      mret (mkChildCommit Keep (Some child_id) None).

(** The loop over the children, with the first goal node found so far. *)
Fixpoint commit_children (parent : NodeId) (parent_score : f64) (rules : CommitRules)
    (children : list ScoredChild) (goal : option NodeId)
    : st CommitState CommitError (list ChildCommit * option NodeId) :=
  match children with
  | [] => mret ([], goal)
  | child :: children' =>
    commit ← commit_child parent parent_score child rules;
    let goal' :=
      if sc_goal child && bool_decide (disposition commit = Keep)
         && bool_decide (is_Some (cc_node_id commit)) && bool_decide (goal = None)
      then cc_node_id commit else goal in
    '(rest, g) ← commit_children parent parent_score rules children' goal';
    mret (commit :: rest, g)
  end.

Definition update_parent_exhaustion (parent : NodeId) (visits : N) (all_duplicate : bool)
    (rules : CommitRules) : st CommitState CommitError (option FrontierEvictReason) :=
  _ ← modify (ensure_tracking parent);
  streaks ← gets all_duplicate_streaks;
  current ← lift_res (expect (streaks !! N.to_nat parent));
  streak ← (if all_duplicate then lift_res (expect (checked_add u32_max current 1))
            else mret 0%N);
  _ ← modify (set_streaks (<[N.to_nat parent := streak]> streaks));
  let reason :=
    if (rule_max_visits_per_node rules <=? visits)%N then Some MaxVisits
    else if (rule_exhaust_after_dup_expansions rules <=? streak)%N
         then Some AllDuplicateExpansions
    else None in
  _ ← match reason with
      | Some _ =>
        _ ← on_tree (mark_exhausted parent);
        present ← gets (fun s => Frontier_contains (cs_frontier s) parent);
        (if (present : bool) then on_frontier (Frontier_remove parent) else mret tt)
      | None => mret tt
      end;
  mret reason.

Definition is_duplicate_commit (c : ChildCommit) : bool :=
  bool_decide (disposition c = Discard Duplicate).

Definition commit_batch (parent : NodeId) (children : list ScoredChild) (rules : CommitRules)
    : st CommitState CommitError BatchCommitOutcome :=
  _ ← lift_res (validate_rules rules);
  t ← gets cs_tree;
  record ← lift_res (ok_or (get t parent) (ParentNotFound parent));
  let parent_score := finite_get (nr_score record) in
  '(commits, goal) ← commit_children parent parent_score rules children None;
  visits ← on_tree (increment_visits parent);
  let all_duplicate := negb (bool_decide (commits = [])) && forallb is_duplicate_commit commits in
  evicted ← update_parent_exhaustion parent visits all_duplicate rules;
  mret (mkBatchCommitOutcome parent visits commits evicted goal).

(** ** What the other parts need to know of a tree *)

(** Hash and exhaustion flag of a record: all the commit invariant reads. *)
Definition view (r : NodeRecord) : StateHash * bool := (nr_state_hash r, nr_exhausted r).
Definition views (t : Tree) : list (StateHash * bool) := view <$> records t.

Lemma views_length t : length (views t) = len t.
Proof. apply length_fmap. Qed.

Lemma views_lookup t i h e :
  views t !! i = Some (h, e) <->
  exists r, records t !! i = Some r /\ nr_state_hash r = h /\ nr_exhausted r = e.
Proof.
  unfold views. rewrite list_lookup_fmap_Some. unfold view. split.
  - intros (r & H1 & H2). exists r. split_and!; congruence.
  - intros (r & Hr & H1 & H2). exists r. split; congruence.
Qed.

Lemma views_replace t i r r' cs : records t !! i = Some r -> view r' = view r ->
  views (mkTree (<[i := r']> (records t)) cs) = views t.
Proof.
  intros Hr Hv. unfold views. cbn. rewrite list_fmap_insert. apply list_insert_id.
  by rewrite list_lookup_fmap, Hr, Hv.
Qed.

Lemma get_replace t id r r' cs : get t id = Some r ->
  get (mkTree (<[N.to_nat id := r']> (records t)) cs) id = Some r'.
Proof.
  intros Hg%get_Some. apply get_Some. cbn. apply list_lookup_insert_eq. by eapply lookup_lt_Some.
Qed.

Lemma insert_child_Ok t parent payload id t' : tree_wf t ->
  insert_child parent payload t = (Ok id, t') ->
  id = next_id t /\ tree_wf t' /\
  views t' = views t ++ [(np_state_hash payload, false)] /\
  exists pr, get t parent = Some pr /\
    get t' id = Some (NodeRecord_child id parent (nr_depth pr + 1)%N payload).
Proof.
  intros Hwf H. pose proof (insert_child_wf parent payload t Hwf) as [Hwf' _].
  rewrite insert_child_run in H, Hwf' by done.
  destruct (get t parent) as [pr|] eqn:Hg; [|done].
  destruct (_ <? _)%N; [done|]. destruct (_ <? _)%N; [done|].
  injection H as <- <-. split_and!; [done|done| |].
  - unfold views, tree_insert. cbn. rewrite fmap_app. cbn. f_equal.
    apply get_Some in Hg. rewrite list_fmap_insert. apply list_insert_id.
    by rewrite list_lookup_fmap, Hg.
  - exists pr. split; [done|]. apply get_Some, tree_insert_lookup; [done|]. right.
    unfold next_id, len. split; [lia|done].
Qed.

Lemma insert_child_Err t parent payload e t' : tree_wf t ->
  insert_child parent payload t = (Err e, t') -> t' = t.
Proof.
  intros Hwf. rewrite insert_child_run by done.
  destruct (get t parent); [|congruence]. repeat (destruct (_ <? _)%N; [congruence|]). congruence.
Qed.

Lemma increment_visits_cases t id r : tree_wf t -> get t id = Some r ->
  (nr_visits r + 1 <= u32_max)%N /\
    (exists t', increment_visits id t = (Ok (nr_visits r + 1)%N, t') /\ tree_wf t' /\
      views t' = views t /\
      t' = mkTree (<[N.to_nat id := set_counters (nr_visits r + 1)%N (nr_children r) r]> (records t))
             (children_by_node t)) \/
  (u32_max < nr_visits r + 1)%N /\ increment_visits id t = (Err (VisitOverflow id), t).
Proof.
  intros Hwf Hg. pose proof (increment_visits_wf id t Hwf) as [Hwf' _].
  unfold increment_visits in *. rewrite with_record_run, Hg in *.
  destruct (checked_add u32_max (nr_visits r) 1) as [v|] eqn:E; cbn in *.
  - apply checked_add_Some in E as [Hle ->]. left. split; [done|].
    eexists. split; [done|]. split; [done|]. split; [|done].
    eapply views_replace; [by apply get_Some|done].
  - apply checked_add_None in E. right. done.
Qed.

(** Marking the node just inserted. *)
Lemma mark_pruned_fresh t parent payload id t' : tree_wf t ->
  insert_child parent payload t = (Ok id, t') ->
  exists t'', mark_pruned id t' = (Ok tt, t'') /\ tree_wf t'' /\
    views t'' = views t ++ [(np_state_hash payload, true)].
Proof.
  intros Hwf H. destruct (insert_child_Ok _ _ _ _ _ Hwf H) as (-> & Hwf' & Hv & pr & Hp & Hg).
  pose proof (mark_pruned_wf (next_id t) t' Hwf') as [Hw _].
  unfold mark_pruned in *. rewrite with_record_run, Hg in *. cbn in *.
  eexists. split; [done|]. split; [done|]. unfold views in *. cbn [records].
  rewrite list_fmap_insert, Hv. unfold next_id. rewrite Nat2N.id.
  by rewrite insert_app_r_alt, length_fmap, Nat.sub_diag by (rewrite length_fmap; lia).
Qed.

Lemma mark_goal_fresh t parent payload id t' : tree_wf t ->
  insert_child parent payload t = (Ok id, t') ->
  exists t'', mark_goal id t' = (Ok tt, t'') /\ tree_wf t'' /\
    views t'' = views t ++ [(np_state_hash payload, false)].
Proof.
  intros Hwf H. destruct (insert_child_Ok _ _ _ _ _ Hwf H) as (-> & Hwf' & Hv & pr & Hp & Hg).
  pose proof (mark_goal_wf (next_id t) t' Hwf') as [Hw _].
  unfold mark_goal in *. rewrite with_record_run, Hg in *. cbn in *.
  eexists. split; [done|]. split; [done|]. rewrite <- Hv.
  eapply views_replace; [by apply get_Some|done].
Qed.

(** ** The steps of [commit_child]

    One constructor per way the code can go, with the outcome and the state
    it leaves; the first failing call decides the outcome. *)
Section ChildStep.
Context (parent : NodeId) (parent_score : f64) (child : ScoredChild) (rules : CommitRules).
Let payload := sc_payload child.

Definition worse_than_parent : bool :=
  f64_ltb (f64_add (finite_get (np_score payload)) (epsilon_keep rules)) parent_score.

Definition known_cell (s : CommitState) : bool :=
  (0 <? count (cs_cell_mirror s) (np_cell payload))%N.

(** The rule that decides a child, in the code's order of precedence. *)
Definition rule_disposition (s : CommitState) : CommitDisposition :=
  if sc_prune child then
    match prune_action rules with Drop => Discard PruneDrop | Exhausted => PrunedExhausted end
  else if sc_duplicate child then Discard Duplicate
  else if worse_than_parent && known_cell s then Discard Regression
  else Keep.

Inductive child_step (s : CommitState) : res CommitError ChildCommit -> CommitState -> Prop :=
| step_prune_drop : rule_disposition s = Discard PruneDrop ->
    child_step s (Ok (mkChildCommit (Discard PruneDrop) None None)) s
| step_regression : rule_disposition s = Discard Regression ->
    child_step s (Ok (mkChildCommit (Discard Regression) None None)) s
| step_insert_error e :
    rule_disposition s = PrunedExhausted \/ rule_disposition s = Keep ->
    (insert_child parent payload (cs_tree s)).1 = Err e ->
    child_step s (Err (CommitTree e)) s
| step_pruned id t' t'' cells n :
    rule_disposition s = PrunedExhausted ->
    insert_child parent payload (cs_tree s) = (Ok id, t') ->
    mark_pruned id t' = (Ok tt, t'') ->
    bump (E:=CommitError) (np_cell payload) (cs_cell_mirror s) = (Ok n, cells) ->
    child_step s (Ok (mkChildCommit PrunedExhausted (Some id) None))
      (mkCommitState t'' (cs_frontier s) cells
         (SeenMap_insert (np_state_hash payload) id (cs_seen s)).2
         (all_duplicate_streaks (ensure_tracking id s)))
| step_keep id t' t'' f' cells n :
    rule_disposition s = Keep ->
    insert_child parent payload (cs_tree s) = (Ok id, t') ->
    (if sc_goal child then mark_goal id t' = (Ok tt, t'') else t'' = t') ->
    Frontier_insert id (cs_frontier s) = (Ok tt, f') ->
    bump (E:=CommitError) (np_cell payload) (cs_cell_mirror s) = (Ok n, cells) ->
    child_step s (Ok (mkChildCommit Keep (Some id) None))
      (mkCommitState t'' f' cells
         (SeenMap_insert (np_state_hash payload) id (cs_seen s)).2
         (all_duplicate_streaks (ensure_tracking id s)))
| step_duplicate t' cells n :
    rule_disposition s = Discard Duplicate ->
    bump (E:=CommitError) (np_cell payload) (cs_cell_mirror s) = (Ok n, cells) ->
    match SeenMap_get (cs_seen s) (np_state_hash payload) with
    | Some existing =>
      if decide (existing = parent) then t' = cs_tree s
      else exists v, increment_visits existing (cs_tree s) = (Ok v, t')
    | None => t' = cs_tree s
    end ->
    child_step s
      (Ok (mkChildCommit (Discard Duplicate) None
             (SeenMap_get (cs_seen s) (np_state_hash payload))))
      (set_tree t' (set_cell_mirror cells s))
| step_duplicate_overflow existing cells n :
    rule_disposition s = Discard Duplicate ->
    bump (E:=CommitError) (np_cell payload) (cs_cell_mirror s) = (Ok n, cells) ->
    SeenMap_get (cs_seen s) (np_state_hash payload) = Some existing -> existing <> parent ->
    (increment_visits existing (cs_tree s)).1 = Err (VisitOverflow existing) ->
    child_step s (Err (CommitTree (VisitOverflow existing))) (set_cell_mirror cells s)
| step_panic s' :
    (u32_max < count (cs_cell_mirror s) (np_cell payload) + 1)%N ->
    child_step s Panic s'.
End ChildStep.

(** ** Invariant *)

Record commit_wf (s : CommitState) : Prop := {
  cwf_tree : tree_wf (cs_tree s);
  cwf_frontier : frontier_wf (cs_frontier s);
  cwf_mirror : mirror_wf (cs_cell_mirror s);
  cwf_members : forall id, id ∈ members (cs_frontier s) <->
    exists h, views (cs_tree s) !! N.to_nat id = Some (h, false);
  cwf_routes : forall h n, SeenMap_get (cs_seen s) h = Some n ->
    exists e, views (cs_tree s) !! N.to_nat n = Some (h, e);
  cwf_hashes : forall i h e, views (cs_tree s) !! i = Some (h, e) ->
    is_Some (SeenMap_get (cs_seen s) h);
  cwf_streaks : length (all_duplicate_streaks s) = len (cs_tree s);
  cwf_streak_bound : Forall (fun n => n <= u32_max)%N (all_duplicate_streaks s)
}.

(** ** Running the parts of a state *)

Lemma on_tree_bind {A B} (m : st Tree TreeError A) (k : A -> st CommitState CommitError B) s :
  (on_tree m ≫= k) s =
  match m (cs_tree s) with
  | (Ok a, t') => k a (set_tree t' s)
  | (Err e, t') => (Err (CommitTree e), set_tree t' s)
  | (Panic, t') => (Panic, set_tree t' s)
  end.
Proof. rewrite st_bind_run. unfold on_tree, zoom. by destruct (m (cs_tree s)) as [[] ?]. Qed.

Lemma on_frontier_bind {A B} (m : st Frontier FrontierError A)
    (k : A -> st CommitState CommitError B) s :
  (on_frontier m ≫= k) s =
  match m (cs_frontier s) with
  | (Ok a, f') => k a (set_frontier f' s)
  | (Err e, f') => (Err (CommitFrontier e), set_frontier f' s)
  | (Panic, f') => (Panic, set_frontier f' s)
  end.
Proof. rewrite st_bind_run. unfold on_frontier, zoom. by destruct (m (cs_frontier s)) as [[] ?]. Qed.

Lemma on_cells_bump {B} cell (k : N -> st CommitState CommitError B) s :
  mirror_wf (cs_cell_mirror s) ->
  (on_cells (bump cell) ≫= k) s =
  if decide (count (cs_cell_mirror s) cell + 1 <= u32_max)%N
  then k (count (cs_cell_mirror s) cell + 1)%N
         (set_cell_mirror (bump (E:=CommitError) cell (cs_cell_mirror s)).2 s)
  else (Panic, set_cell_mirror (cs_cell_mirror s) s).
Proof.
  intros Hwf. rewrite st_bind_run. unfold on_cells, zoom, bump.
  rewrite bump_by_spec by done. by case_decide.
Qed.

Lemma bump_Ok c cell : mirror_wf c -> (count c cell + 1 <= u32_max)%N ->
  bump (E:=CommitError) cell c = (Ok (count c cell + 1)%N, (bump (E:=CommitError) cell c).2).
Proof. intros Hwf Hle. unfold bump. by rewrite bump_by_spec, decide_True. Qed.

Lemma set_tree_id s : set_tree (cs_tree s) s = s.
Proof. by destruct s. Qed.

Lemma ensure_tracking_tree id s t :
  ensure_tracking id (set_tree t s) = set_tree t (ensure_tracking id s).
Proof. unfold ensure_tracking. cbn. by case_decide. Qed.

Lemma ensure_tracking_parts id s :
  cs_tree (ensure_tracking id s) = cs_tree s /\ cs_frontier (ensure_tracking id s) = cs_frontier s /\
  cs_cell_mirror (ensure_tracking id s) = cs_cell_mirror s /\ cs_seen (ensure_tracking id s) = cs_seen s.
Proof. unfold ensure_tracking. by case_decide. Qed.

Lemma state_eta s : s = mkCommitState (cs_tree s) (cs_frontier s) (cs_cell_mirror s) (cs_seen s)
  (all_duplicate_streaks s).
Proof. by destruct s. Qed.

Lemma ensure_tracking_eta id s : ensure_tracking id s =
  mkCommitState (cs_tree s) (cs_frontier s) (cs_cell_mirror s) (cs_seen s)
    (all_duplicate_streaks (ensure_tracking id s)).
Proof.
  rewrite (state_eta (ensure_tracking id s)) at 1.
  by destruct (ensure_tracking_parts id s) as (-> & -> & -> & ->).
Qed.

Lemma next_id_fresh s : commit_wf s -> next_id (cs_tree s) ∉ members (cs_frontier s).
Proof.
  intros Hwf. rewrite (cwf_members _ Hwf). intros [h Hh%lookup_lt_Some].
  rewrite views_length in Hh. unfold next_id, len in Hh. lia.
Qed.

Lemma frontier_insert_fresh s : commit_wf s ->
  exists f', Frontier_insert (next_id (cs_tree s)) (cs_frontier s) = (Ok tt, f') /\
    frontier_wf f' /\ members f' = {[next_id (cs_tree s)]} ∪ members (cs_frontier s).
Proof.
  intros Hwf. pose proof (Frontier_insert_spec (cs_frontier s) (next_id (cs_tree s))
    (cwf_frontier _ Hwf)) as H.
  rewrite decide_False in H by (by apply next_id_fresh). naive_solver.
Qed.

Lemma route_in_tree s h n : commit_wf s -> SeenMap_get (cs_seen s) h = Some n ->
  exists r, get (cs_tree s) n = Some r /\ nr_state_hash r = h.
Proof.
  intros Hwf Hs. destruct (cwf_routes _ Hwf _ _ Hs) as [e He].
  apply views_lookup in He as (r & Hr & Hh & _). exists r. by rewrite get_Some.
Qed.

Lemma on_seen_bind {A B} (f : SeenMap -> A * SeenMap) (k : A -> st CommitState CommitError B) s :
  (on_seen f ≫= k) s = k (f (cs_seen s)).1 (set_seen (f (cs_seen s)).2 s).
Proof. rewrite st_bind_run. unfold on_seen. by destruct (f (cs_seen s)). Qed.

Section CommitChildStep.
Context (parent : NodeId) (score : f64) (child : ScoredChild) (rules : CommitRules).
Context (s : CommitState) (r : res CommitError ChildCommit) (s' : CommitState).
Context (Hwf : commit_wf s) (Hrun : commit_child parent score child rules s = (r, s')).

Lemma commit_child_pruned : sc_prune child = true -> prune_action rules = Exhausted ->
  child_step parent score child rules s r s'.
Proof.
  intros Ep Ea. pose proof (cwf_tree _ Hwf) as Htw. pose proof (cwf_mirror _ Hwf) as Hmw.
  assert (rule_disposition score child rules s = PrunedExhausted) as Hd
    by (unfold rule_disposition; by rewrite Ep, Ea).
  unfold commit_child in Hrun. rewrite Ep, Ea, on_tree_bind in Hrun.
  pose proof (insert_child_wf parent (sc_payload child) _ Htw) as [_ Hnp].
  destruct (insert_child parent (sc_payload child) (cs_tree s)) as [[id|e|] t'] eqn:Ei; [| |done].
  - destruct (mark_pruned_fresh _ _ _ _ _ Htw Ei) as (t'' & Em & _ & _).
    rewrite modify_bind, ensure_tracking_tree, ensure_tracking_eta, on_tree_bind in Hrun.
    cbn [cs_tree set_tree] in Hrun. rewrite Em, on_seen_bind, on_cells_bump in Hrun by done.
    cbn [cs_cell_mirror set_seen set_tree] in Hrun.
    case_decide as Hc; injection Hrun as <- <-; [|apply step_panic; lia].
    exact (step_pruned parent score child rules s id t' t'' _ _ Hd Ei Em (bump_Ok _ _ Hmw Hc)).
  - rewrite (insert_child_Err _ _ _ _ _ Htw Ei), set_tree_id in Hrun.
    injection Hrun as <- <-. apply step_insert_error; [by left|by rewrite Ei].
Qed.

Lemma commit_child_duplicate : sc_prune child = false -> sc_duplicate child = true ->
  child_step parent score child rules s r s'.
Proof.
  intros Ep Edup. pose proof (cwf_tree _ Hwf) as Htw. pose proof (cwf_mirror _ Hwf) as Hmw.
  assert (rule_disposition score child rules s = Discard Duplicate) as Hd
    by (unfold rule_disposition; by rewrite Ep, Edup).
  unfold commit_child in Hrun. rewrite Ep, Edup, on_cells_bump in Hrun by done.
  case_decide as Hc; [|injection Hrun as <- <-; apply step_panic; lia].
  pose proof (bump_Ok _ (np_cell (sc_payload child)) Hmw Hc) as Hb.
  set (cells := (bump _ _).2) in *.
  rewrite gets_bind in Hrun. cbn [cs_seen set_cell_mirror] in Hrun.
  assert (forall t' route, SeenMap_get (cs_seen s) (np_state_hash (sc_payload child)) = route ->
    match route with
    | Some existing => if decide (existing = parent) then t' = cs_tree s
                       else exists v, increment_visits existing (cs_tree s) = (Ok v, t')
    | None => t' = cs_tree s
    end ->
    child_step parent score child rules s (Ok (mkChildCommit (Discard Duplicate) None route))
      (set_tree t' (set_cell_mirror cells s))) as Hstep
    by (intros t' route <- Ht; eapply step_duplicate; eauto).
  destruct (SeenMap_get (cs_seen s) (np_state_hash (sc_payload child))) as [existing|] eqn:Eseen.
  - case_decide as Hex.
    + injection Hrun as <- <-. rewrite <- (set_tree_id (set_cell_mirror cells s)).
      apply Hstep; [done|]. by rewrite decide_True.
    + destruct (route_in_tree _ _ _ Hwf Eseen) as (er & Her & _).
      rewrite !st_bind_run in Hrun. unfold on_tree, zoom in Hrun.
      cbn [cs_tree set_cell_mirror] in Hrun.
      destruct (increment_visits_cases _ _ _ Htw Her) as [[_ (t' & Hv & _)]|[_ Hv]];
        rewrite Hv in Hrun; cbn in Hrun; injection Hrun as <- <-.
      * apply Hstep; [done|]. rewrite decide_False by done. eauto.
      * replace (set_tree _ _) with (set_cell_mirror cells s) by (by destruct s).
        eapply step_duplicate_overflow; eauto. by rewrite Hv.
  - injection Hrun as <- <-. rewrite <- (set_tree_id (set_cell_mirror cells s)).
    by apply Hstep.
Qed.

Lemma commit_child_kept : rule_disposition score child rules s = Keep ->
  child_step parent score child rules s r s'.
Proof.
  intros Hd. pose proof (cwf_tree _ Hwf) as Htw. pose proof (cwf_mirror _ Hwf) as Hmw.
  pose proof Hd as Hd'. unfold rule_disposition in Hd'. unfold commit_child in Hrun.
  destruct (sc_prune child); [by destruct (prune_action rules)|].
  destruct (sc_duplicate child); [done|]. rewrite gets_bind in Hrun.
  fold (worse_than_parent score child rules) in Hrun. fold (known_cell child s) in Hrun.
  destruct (worse_than_parent score child rules && known_cell child s); [done|].
  rewrite on_tree_bind in Hrun.
  pose proof (insert_child_wf parent (sc_payload child) _ Htw) as [_ Hnp].
  destruct (insert_child parent (sc_payload child) (cs_tree s)) as [[id|e|] t'] eqn:Ei; [| |done].
  - destruct (mark_goal_fresh _ _ _ _ _ Htw Ei) as (t'' & Em & _ & _).
    destruct (insert_child_Ok _ _ _ _ _ Htw Ei) as (-> & _).
    destruct (frontier_insert_fresh _ Hwf) as (f' & Ef & _).
    rewrite modify_bind, ensure_tracking_tree, ensure_tracking_eta, on_seen_bind, on_cells_bump
      in Hrun by done. cbn [cs_cell_mirror set_seen set_tree] in Hrun.
    case_decide as Hc; [|injection Hrun as <- <-; apply step_panic; lia].
    rewrite on_frontier_bind in Hrun. cbn [cs_frontier set_cell_mirror set_seen set_tree] in Hrun.
    rewrite Ef, st_bind_run in Hrun. destruct (sc_goal child) eqn:Eg.
    + unfold on_tree, zoom in Hrun.
      cbn [cs_tree set_frontier set_cell_mirror set_seen set_tree] in Hrun.
      rewrite Em in Hrun. injection Hrun as <- <-.
      refine (step_keep parent score child rules s _ t' t'' f' _ _ Hd Ei _ Ef (bump_Ok _ _ Hmw Hc)).
      by rewrite Eg.
    + injection Hrun as <- <-.
      refine (step_keep parent score child rules s _ t' t' f' _ _ Hd Ei _ Ef (bump_Ok _ _ Hmw Hc)).
      by rewrite Eg.
  - rewrite (insert_child_Err _ _ _ _ _ Htw Ei), set_tree_id in Hrun.
    injection Hrun as <- <-. apply step_insert_error; [by right|by rewrite Ei].
Qed.

(** Every run of [commit_child] is one of the steps. *)
Lemma commit_child_step : child_step parent score child rules s r s'.
Proof.
  destruct (sc_prune child) eqn:Ep.
  { destruct (prune_action rules) eqn:Ea; [by apply commit_child_pruned|].
    unfold commit_child in Hrun. rewrite Ep, Ea in Hrun. injection Hrun as <- <-.
    apply step_prune_drop. unfold rule_disposition. by rewrite Ep, Ea. }
  destruct (sc_duplicate child) eqn:Edup; [by apply commit_child_duplicate|].
  destruct (worse_than_parent score child rules && known_cell child s) eqn:Ew.
  - unfold commit_child in Hrun. rewrite Ep, Edup, gets_bind in Hrun.
    fold (worse_than_parent score child rules) in Hrun. fold (known_cell child s) in Hrun.
    rewrite Ew in Hrun. injection Hrun as <- <-. apply step_regression.
    unfold rule_disposition. by rewrite Ep, Edup, Ew.
  - apply commit_child_kept. unfold rule_disposition. by rewrite Ep, Edup, Ew.
Qed.
End CommitChildStep.

(** ** Preservation *)

Lemma ensure_tracking_next s : commit_wf s ->
  all_duplicate_streaks (ensure_tracking (next_id (cs_tree s)) s) = all_duplicate_streaks s ++ [0%N].
Proof.
  intros Hwf. pose proof (cwf_streaks _ Hwf) as Hl. unfold ensure_tracking, next_id.
  rewrite Nat2N.id. unfold len in Hl. rewrite decide_True by lia. cbn. f_equal.
  by replace (length (records (cs_tree s)) + 1 - length (all_duplicate_streaks s))%nat with 1%nat
    by lia.
Qed.

Lemma ensure_tracking_known s id : commit_wf s -> is_Some (get (cs_tree s) id) ->
  ensure_tracking id s = s.
Proof.
  intros Hwf [r Hr%get_Some%lookup_lt_Some]. pose proof (cwf_streaks _ Hwf) as Hl. unfold len in Hl.
  unfold ensure_tracking. by rewrite decide_False by lia.
Qed.

(** Committing one more node: its hash gets a route, its streak starts at 0,
    and it joins the frontier unless it is exhausted. *)
Lemma commit_wf_extend s t' f' cells h e : commit_wf s ->
  tree_wf t' -> views t' = views (cs_tree s) ++ [(h, e)] ->
  frontier_wf f' ->
  members f' = (if e then ∅ else {[next_id (cs_tree s)]}) ∪ members (cs_frontier s) ->
  mirror_wf cells ->
  commit_wf (mkCommitState t' f' cells
    (SeenMap_insert h (next_id (cs_tree s)) (cs_seen s)).2 (all_duplicate_streaks s ++ [0%N])).
Proof.
  intros Hwf Ht Hv Hf Hm Hc. pose proof (views_length (cs_tree s)) as Hlen.
  assert (forall id, N.to_nat id = len (cs_tree s) <-> id = next_id (cs_tree s)) as Hid
    by (intros id; unfold next_id, len; lia).
  split; cbn [cs_tree cs_frontier cs_cell_mirror cs_seen all_duplicate_streaks]; auto.
  - intros id. rewrite Hm, elem_of_union, (cwf_members _ Hwf), Hv. setoid_rewrite lookup_snoc_Some.
    rewrite Hlen. setoid_rewrite Hid. split.
    + intros [Hin|[h' Hh]].
      * destruct e; [set_solver|]. apply elem_of_singleton in Hin. eauto.
      * exists h'. left. split; [|done]. rewrite <- Hlen. by eapply lookup_lt_Some.
    + intros [h' [[_ Hh]|[-> [= _ ->]]]]; [right; eauto|left; by apply elem_of_singleton].
  - intros h' n. rewrite SeenMap_insert_get, Hv. setoid_rewrite lookup_snoc_Some.
    rewrite Hlen. destruct (SeenMap_get (cs_seen s) h') as [n'|] eqn:E.
    + intros [= <-]. destruct (cwf_routes _ Hwf _ _ E) as [e' He']. exists e'. left. split; [|done].
      rewrite <- Hlen. by eapply lookup_lt_Some.
    + case_decide; [|done]. intros [= <-]. subst h'. exists e. right. by rewrite Hid.
  - intros i h' e'. rewrite SeenMap_insert_get, Hv, lookup_snoc_Some.
    intros [[_ Hh]|[_ [= <- <-]]].
    + destruct (cwf_hashes _ Hwf _ _ _ Hh) as [n Hn]. rewrite Hn. eauto.
    + destruct (SeenMap_get _ _); [eauto|]. rewrite decide_True by done. eauto.
  - rewrite length_app, (cwf_streaks _ Hwf), <- !views_length, Hv, length_app. done.
  - apply Forall_app. split; [apply (cwf_streak_bound _ Hwf)|]. repeat constructor. done.
Qed.

Lemma commit_wf_same_views s t' cells : commit_wf s -> tree_wf t' ->
  views t' = views (cs_tree s) -> mirror_wf cells ->
  commit_wf (set_tree t' (set_cell_mirror cells s)).
Proof.
  intros Hwf Ht Hv Hc. destruct Hwf. split; cbn in *; rewrite ?Hv; auto.
  by rewrite <- views_length, Hv, views_length.
Qed.

Lemma bump_wf c cell (n : N) c' : mirror_wf c -> bump (E:=CommitError) cell c = (Ok n, c') -> mirror_wf c'.
Proof.
  intros Hwf H. pose proof (bump_by_wf (E:=CommitError) c cell 1 Hwf) as Hw.
  unfold bump in H. by rewrite H in Hw.
Qed.

Lemma child_step_wf parent score child rules s r s' : commit_wf s ->
  child_step parent score child rules s r s' -> r <> Panic -> commit_wf s'.
Proof.
  intros Hwf Hstep Hnp. pose proof (cwf_tree _ Hwf) as Htw. pose proof (cwf_mirror _ Hwf) as Hmw.
  destruct Hstep as [Hd|Hd|e Hd He|id t' t'' cells n Hd Hi Hm Hb|id t' t'' f' cells n Hd Hi Hm Hf Hb
    |t' cells n Hd Hb Ht|ex cells n Hd Hb Hs Hne Hv|s' Hc]; try done.
  - destruct (mark_pruned_fresh _ _ _ _ _ Htw Hi) as (t3 & Hm' & Hw & Hv).
    rewrite Hm in Hm'. injection Hm' as <-. destruct (insert_child_Ok _ _ _ _ _ Htw Hi) as (-> & _).
    rewrite ensure_tracking_next by done.
    apply (commit_wf_extend s t'' (cs_frontier s) cells _ true); eauto using bump_wf, cwf_frontier.
    by rewrite (left_id_L ∅ (∪)).
  - destruct (insert_child_Ok _ _ _ _ _ Htw Hi) as (-> & Hw & Hv & _).
    destruct (frontier_insert_fresh _ Hwf) as (f2 & Hf2 & Hfw & Hfm).
    rewrite Hf in Hf2. injection Hf2 as <-. rewrite ensure_tracking_next by done.
    assert (tree_wf t'' /\ views t'' = views (cs_tree s) ++ [(np_state_hash (sc_payload child), false)])
      as [Hw' Hv'].
    { destruct (sc_goal child); [|by subst].
      destruct (mark_goal_fresh _ _ _ _ _ Htw Hi) as (t3 & Hm' & ? & ?).
      rewrite Hm in Hm'. by injection Hm' as <-. }
    apply (commit_wf_extend s t'' f' cells _ false); eauto using bump_wf.
  - apply commit_wf_same_views; eauto using bump_wf.
    + destruct (SeenMap_get _ _) as [ex|]; [|by subst]. case_decide; [by subst|].
      destruct Ht as [v Hv]. pose proof (increment_visits_wf ex _ Htw) as [Hw _]. by rewrite Hv in Hw.
    + destruct (SeenMap_get _ _) as [ex|] eqn:Es; [|by subst]. case_decide; [by subst|].
      destruct Ht as [v Hv]. destruct (route_in_tree _ _ _ Hwf Es) as (er & Her & _).
      destruct (increment_visits_cases _ _ _ Htw Her) as [[_ (t2 & Hv2 & _ & Hvw & _)]|[_ Hv2]];
        rewrite Hv2 in Hv; [by injection Hv as _ <-|done].
  - rewrite <- (set_tree_id (set_cell_mirror cells s)).
    apply (commit_wf_same_views s (cs_tree s) cells); eauto using bump_wf.
Qed.

Lemma commit_child_wf parent score child rules s r s' : commit_wf s ->
  commit_child parent score child rules s = (r, s') -> r <> Panic -> commit_wf s'.
Proof. intros Hwf Hrun. by eapply child_step_wf, commit_child_step. Qed.

(** ** The parent's record and the ids a batch allocates *)

Lemma get_with_record_ne {A} id id' (f : NodeRecord -> res TreeError (A * NodeRecord)) t :
  id <> id' -> get (with_record id f t).2 id' = get t id'.
Proof.
  intros Hne. rewrite with_record_run. destruct (get t id); [|done].
  destruct (f n) as [[a r']| |]; [|done|done]. cbn.
  apply option_eq. intros r. rewrite !get_Some. cbn. by rewrite list_lookup_insert_ne by lia.
Qed.

(** What the commit of a child leaves untouched in its parent. *)
Definition same_selection_state (r r' : NodeRecord) : Prop :=
  nr_visits r' = nr_visits r /\ nr_score r' = nr_score r /\ nr_goal r' = nr_goal r /\
  nr_status r' = nr_status r /\ nr_exhausted r' = nr_exhausted r.

Lemma insert_child_parent t parent payload id t' pr : tree_wf t -> get t parent = Some pr ->
  insert_child parent payload t = (Ok id, t') ->
  exists pr', get t' parent = Some pr' /\ same_selection_state pr pr' /\ parent <> id.
Proof.
  intros Hwf Hg. rewrite insert_child_run, Hg by done.
  destruct (_ <? _)%N; [done|]. destruct (_ <? _)%N; [done|]. intros [= <- <-].
  apply get_Some in Hg as Hr. apply lookup_lt_Some in Hr as Hlt.
  setoid_rewrite get_Some. setoid_rewrite tree_insert_lookup; [|done].
  eexists. split; [left; split; [exact Hlt|]; by rewrite decide_True|].
  split; [done|]. unfold next_id. lia.
Qed.

Lemma child_step_parent parent score child rules s c s' pr : commit_wf s ->
  get (cs_tree s) parent = Some pr -> child_step parent score child rules s (Ok c) s' ->
  exists pr', get (cs_tree s') parent = Some pr' /\ same_selection_state pr pr'.
Proof.
  intros Hwf Hg Hstep. pose proof (cwf_tree _ Hwf) as Htw.
  assert (same_selection_state pr pr) as Hrefl by done.
  inversion Hstep as [Hd|Hd|e Hd He|id t' t'' cells n Hd Hi Hm Hb|id t' t'' f' cells n Hd Hi Hm Hf Hb
    |t' cells n Hd Hb Ht|ex cells n Hd Hb Hs Hne Hv|]; subst; cbn [cs_tree set_tree]; eauto.
  - destruct (insert_child_parent _ _ _ _ _ _ Htw Hg Hi) as (pr' & Hg' & Hs & Hne).
    exists pr'. split; [|done]. change t'' with (Ok (E:=TreeError) tt, t'').2. rewrite <- Hm.
    unfold mark_pruned. by rewrite get_with_record_ne.
  - destruct (insert_child_parent _ _ _ _ _ _ Htw Hg Hi) as (pr' & Hg' & Hs & Hne).
    exists pr'. split; [|done]. destruct (sc_goal child); [|by subst].
    change t'' with (Ok (E:=TreeError) tt, t'').2. rewrite <- Hm.
    unfold mark_goal. by rewrite get_with_record_ne.
  - destruct (SeenMap_get _ _) as [ex|]; [|subst; eauto]. case_decide; [subst; eauto|].
    destruct Ht as [v Hv]. exists pr. split; [|done]. change t' with (Ok (E:=TreeError) v, t').2.
    rewrite <- Hv. unfold increment_visits. by rewrite get_with_record_ne.
Qed.

Definition commits_node (d : CommitDisposition) : bool :=
  match d with Keep | PrunedExhausted => true | Discard _ => false end.

Lemma child_step_account parent score child rules s c s' : commit_wf s ->
  child_step parent score child rules s (Ok c) s' ->
  disposition c = rule_disposition score child rules s /\
  cc_node_id c = (if commits_node (disposition c) then Some (next_id (cs_tree s)) else None) /\
  len (cs_tree s') = (len (cs_tree s) + if commits_node (disposition c) then 1 else 0)%nat.
Proof.
  intros Hwf Hstep. pose proof (cwf_tree _ Hwf) as Htw.
  inversion Hstep as [Hd|Hd|e Hd He|id t' t'' cells n Hd Hi Hm Hb|id t' t'' f' cells n Hd Hi Hm Hf Hb
    |t' cells n Hd Hb Ht|ex cells n Hd Hb Hs Hne Hv|]; subst; cbn [disposition cc_node_id commits_node];
    rewrite ?Hd, <- !views_length; try (split_and!; [done|done|lia]).
  - destruct (insert_child_Ok _ _ _ _ _ Htw Hi) as (-> & _).
    destruct (mark_pruned_fresh _ _ _ _ _ Htw Hi) as (t3 & Hm' & Hw & Hv).
    rewrite Hm in Hm'. injection Hm' as <-. cbn [cs_tree]. by rewrite Hv, length_app.
  - destruct (insert_child_Ok _ _ _ _ _ Htw Hi) as (-> & _ & Hv & _). split_and!; [done..|].
    cbn [cs_tree]. destruct (sc_goal child); [|subst; by rewrite Hv, length_app].
    destruct (mark_goal_fresh _ _ _ _ _ Htw Hi) as (t3 & Hm' & Hw & Hv').
    rewrite Hm in Hm'. injection Hm' as <-. by rewrite Hv', length_app.
  - split_and!; [done..|]. cbn [cs_tree set_tree]. rewrite Nat.add_0_r.
    destruct (SeenMap_get _ _) as [ex|] eqn:Es; [|by subst]. case_decide; [by subst|].
    destruct Ht as [v Hv]. destruct (route_in_tree _ _ _ Hwf Es) as (er & Her & _).
    destruct (increment_visits_cases _ _ _ Htw Her) as [[_ (t2 & Hv2 & _ & Hvw & _)]|[_ Hv2]];
      rewrite Hv2 in Hv; [injection Hv as _ <-; by rewrite Hvw|done].
Qed.

(** The first kept goal child's id. *)
Definition first_goal (children : list ScoredChild) (commits : list ChildCommit) : option NodeId :=
  head (omap (fun '(child, c) =>
    if sc_goal child && bool_decide (disposition c = Keep) then cc_node_id c else None)
    (zip children commits)).

Record children_committed (parent : NodeId) (s s' : CommitState) (children : list ScoredChild)
    (commits : list ChildCommit) (pr : NodeRecord) : Prop := {
  ch_wf : commit_wf s';
  ch_length : length commits = length children;
  ch_ids : omap cc_node_id commits =
    N.of_nat <$> seq (len (cs_tree s)) (length (omap cc_node_id commits));
  ch_len : len (cs_tree s') = (len (cs_tree s) + length (omap cc_node_id commits))%nat;
  ch_node : Forall (fun c => is_Some (cc_node_id c) <-> commits_node (disposition c) = true) commits;
  ch_parent : exists pr', get (cs_tree s') parent = Some pr' /\ same_selection_state pr pr'
}.

Lemma same_selection_state_trans a b c :
  same_selection_state a b -> same_selection_state b c -> same_selection_state a c.
Proof. unfold same_selection_state. intuition congruence. Qed.

Lemma commit_children_spec parent score rules children goal s commits g s' pr : commit_wf s ->
  get (cs_tree s) parent = Some pr ->
  commit_children parent score rules children goal s = (Ok (commits, g), s') ->
  children_committed parent s s' children commits pr /\
  g = match goal with Some x => Some x | None => first_goal children commits end.
Proof.
  revert goal s commits pr. induction children as [|child children IH]; intros goal s commits pr Hwf Hg;
    cbn [commit_children].
  - intros [= <- <- <-]. split; [split; cbn; auto|by destruct goal]. by exists pr.
  - intros (c & s1 & Hc & Hrest)%st_bind_Ok.
    pose proof (commit_child_step _ _ _ _ _ _ _ Hwf Hc) as Hstep.
    pose proof (child_step_wf _ _ _ _ _ _ _ Hwf Hstep ltac:(done)) as Hwf1.
    destruct (child_step_parent _ _ _ _ _ _ _ _ Hwf Hg Hstep) as (pr1 & Hg1 & Hs1).
    destruct (child_step_account _ _ _ _ _ _ _ Hwf Hstep) as (_ & Hid & Hlen).
    apply st_bind_Ok in Hrest as ([rest g'] & s2 & Hrest & [= <- <- <-]).
    destruct (IH _ _ _ _ Hwf1 Hg1 Hrest) as [[Hw Hl Hids Hln Hnode (pr' & Hg' & Hs')] Hgoal].
    assert (omap cc_node_id (c :: rest) =
      (if commits_node (disposition c) then [next_id (cs_tree s)] else []) ++ omap cc_node_id rest) as Ho
      by (cbn; rewrite Hid; by destruct (commits_node _)).
    split; [split|].
    + done.
    + cbn. by rewrite Hl.
    + rewrite Ho, length_app. rewrite Hids at 1. rewrite Hlen.
      destruct (commits_node _); cbn; [|by rewrite Nat.add_0_r]. f_equal. by rewrite Nat.add_1_r.
    + rewrite Ho, length_app, Hln, Hlen. destruct (commits_node _); cbn; lia.
    + constructor; [|done]. rewrite Hid. destruct (commits_node _); split; naive_solver.
    + exists pr'. split; [done|]. eauto using same_selection_state_trans.
    + rewrite Hgoal. unfold first_goal. cbn. destruct goal as [x|];
        [by rewrite !andb_false_r|]. rewrite Hid.
      destruct (sc_goal child); cbn; [|done].
      case_bool_decide as Hk; cbn; [|done]. rewrite Hk. by cbn.
Qed.

(** ** The parent's exhaustion *)

(** Rules 4 and 5, the visit cap first. *)
Definition evict_reason (rules : CommitRules) (visits streak : N) : option FrontierEvictReason :=
  if (rule_max_visits_per_node rules <=? visits)%N then Some MaxVisits
  else if (rule_exhaust_after_dup_expansions rules <=? streak)%N then Some AllDuplicateExpansions
  else None.

Lemma commit_wf_streak s i n : commit_wf s -> (n <= u32_max)%N ->
  commit_wf (set_streaks (<[i := n]> (all_duplicate_streaks s)) s).
Proof.
  intros [] Hn. split; cbn; auto.
  - by rewrite length_insert.
  - by apply Forall_insert.
Qed.

(** Marking a node exhausted and taking it out of the frontier. *)
Lemma commit_wf_exhaust s parent pr t' f' h : commit_wf s ->
  views (cs_tree s) !! N.to_nat parent = Some (h, pr) ->
  tree_wf t' -> views t' = <[N.to_nat parent := (h, true)]> (views (cs_tree s)) ->
  frontier_wf f' -> members f' = members (cs_frontier s) ∖ {[parent]} ->
  commit_wf (set_frontier f' (set_tree t' s)).
Proof.
  intros Hwf Hp Ht Hv Hf Hm. apply lookup_lt_Some in Hp as Hlt.
  assert (forall i h' e, views t' !! i = Some (h', e) <->
    (i = N.to_nat parent /\ h' = h /\ e = true) \/
    (i <> N.to_nat parent /\ views (cs_tree s) !! i = Some (h', e))) as Hl.
  { intros i h' e. rewrite Hv, list_lookup_insert_Some. naive_solver. }
  split; cbn; auto.
  - apply Hwf.
  - intros id. rewrite Hm, elem_of_difference, elem_of_singleton, (cwf_members _ Hwf).
    setoid_rewrite Hl. split.
    + intros [[h' Hh] Hne]. exists h'. right. split; [lia|done].
    + intros [h' [(_ & _ & ?)|[Hne Hh]]]; [done|]. split; [eauto|]. by intros ->.
  - intros h' n Hn. destruct (cwf_routes _ Hwf _ _ Hn) as [e He]. setoid_rewrite Hl.
    destruct (decide (N.to_nat n = N.to_nat parent)) as [Heq|]; [|eauto].
    exists true. left. rewrite Heq, Hp in He. naive_solver.
  - intros i h' e [(-> & -> & ->)|[_ Hh]]%Hl; eapply (cwf_hashes _ Hwf); eauto.
  - by rewrite <- views_length, Hv, length_insert, views_length, (cwf_streaks _ Hwf).
  - apply Hwf.
Qed.

Lemma mark_exhausted_run t id r : tree_wf t -> get t id = Some r -> nr_goal r = false ->
  exists t', mark_exhausted id t = (Ok tt, t') /\ tree_wf t' /\
    views t' = <[N.to_nat id := (nr_state_hash r, true)]> (views t) /\
    get t' id = Some (set_flags true false (if may_expand r then StExpanded else nr_status r) r).
Proof.
  intros Hwf Hg Hng. pose proof (mark_exhausted_wf id t Hwf) as [Hw _].
  pose proof (get_Some t id r) as [Hgr _]. specialize (Hgr Hg).
  unfold mark_exhausted in *. rewrite with_record_run, Hg in *.
  pose proof (is_goal_record_wf r (twf_records _ Hwf _ _ Hgr)) as Hgo. rewrite Hng in Hgo.
  rewrite Hgo, Hng in *. cbn in *. eexists. split; [done|]. split; [done|]. split.
  - unfold views. cbn. by rewrite list_fmap_insert.
  - by rewrite (get_replace _ _ _ _ _ Hg).
Qed.

Lemma mark_exhausted_goal t id r : tree_wf t -> get t id = Some r -> nr_goal r = true ->
  mark_exhausted id t = (Err (TerminalGoalNode id), t).
Proof.
  intros Hwf Hg Hgo. unfold mark_exhausted. rewrite with_record_run, Hg.
  rewrite is_goal_record_wf, Hgo; [done|]. eapply twf_records; [done|by apply get_Some].
Qed.

(** The step up to the eviction decision. *)
Lemma update_parent_exhaustion_decision s parent visits (all_dup : bool) rules pr cur : commit_wf s ->
  get (cs_tree s) parent = Some pr -> all_duplicate_streaks s !! N.to_nat parent = Some cur ->
  let streak := if all_dup then (cur + 1)%N else 0%N in
  update_parent_exhaustion parent visits all_dup rules s =
  if all_dup && (cur =? u32_max)%N then (Panic, s)
  else
    match evict_reason rules visits streak with
    | None => mret None
    | Some why =>
      _ ← on_tree (mark_exhausted parent);
      present ← gets (fun s => Frontier_contains (cs_frontier s) parent);
      _ ← (if (present : bool) then on_frontier (Frontier_remove parent) else mret tt);
      mret (Some why)
    end (set_streaks (<[N.to_nat parent := streak]> (all_duplicate_streaks s)) s).
Proof.
  intros Hwf Hg Hcur. cbv zeta.
  assert (cur <= u32_max)%N as Hb by (by apply (Forall_lookup_1 _ _ _ _ (cwf_streak_bound _ Hwf) Hcur)).
  unfold update_parent_exhaustion. rewrite modify_bind, ensure_tracking_known, gets_bind by eauto.
  rewrite Hcur. cbn [expect]. rewrite lift_Ok_bind. destruct all_dup; cbn [andb].
  - unfold checked_add. destruct (N.eqb_spec cur u32_max) as [->|]; [done|].
    rewrite decide_True by lia. cbn [expect]. rewrite lift_Ok_bind, modify_bind.
    fold (evict_reason rules visits (cur + 1)). destruct (evict_reason _ _ _); [|done].
    rewrite st_bind_run, !on_tree_bind. destruct (mark_exhausted _ _) as [[] ?]; [|done|done].
    rewrite !gets_bind, !st_bind_run. done.
  - rewrite mret_bind, modify_bind. fold (evict_reason rules visits 0).
    destruct (evict_reason _ _ _); [|done].
    rewrite st_bind_run, !on_tree_bind. destruct (mark_exhausted _ _) as [[] ?]; [|done|done].
    rewrite !gets_bind, !st_bind_run. done.
Qed.

(** Every outcome of the exhaustion step. *)
Lemma update_parent_exhaustion_run s parent visits (all_dup : bool) rules pr cur : commit_wf s ->
  get (cs_tree s) parent = Some pr -> all_duplicate_streaks s !! N.to_nat parent = Some cur ->
  let streak := if all_dup then (cur + 1)%N else 0%N in
  let s1 := set_streaks (<[N.to_nat parent := streak]> (all_duplicate_streaks s)) s in
  let run := update_parent_exhaustion parent visits all_dup rules s in
  if all_dup && (cur =? u32_max)%N then run = (Panic, s)
  else commit_wf s1 /\
    match evict_reason rules visits streak with
    | None => run = (Ok None, s1)
    | Some why =>
      if nr_goal pr then run = (Err (CommitTree (TerminalGoalNode parent)), s1)
      else exists s', run = (Ok (Some why), s') /\ commit_wf s' /\
        (parent ∉ members (cs_frontier s')) /\ all_duplicate_streaks s' = all_duplicate_streaks s1 /\
        len (cs_tree s') = len (cs_tree s) /\
        exists pr', get (cs_tree s') parent = Some pr' /\ nr_exhausted pr' = true /\
          nr_visits pr' = nr_visits pr
    end.
Proof.
  intros Hwf Hg Hcur. cbv zeta. erewrite update_parent_exhaustion_decision by done.
  assert (cur <= u32_max)%N as Hb by (by apply (Forall_lookup_1 _ _ _ _ (cwf_streak_bound _ Hwf) Hcur)).
  destruct (all_dup && (cur =? u32_max)%N) eqn:Ep; [done|].
  set (streak := if all_dup then (cur + 1)%N else 0%N).
  assert (streak <= u32_max)%N as Hs.
  { subst streak. destruct all_dup; [|done]. apply N.eqb_neq in Ep. lia. }
  pose proof (commit_wf_streak s (N.to_nat parent) streak Hwf Hs) as Hwf1. split; [done|].
  destruct (evict_reason rules visits streak) as [why|]; [|done].
  rewrite on_tree_bind. cbn [cs_tree set_streaks].
  destruct (nr_goal pr) eqn:Hgo.
  { rewrite (mark_exhausted_goal _ _ _ (cwf_tree _ Hwf) Hg Hgo). done. }
  destruct (mark_exhausted_run _ _ _ (cwf_tree _ Hwf) Hg Hgo) as (t' & -> & Ht' & Hv & Hg').
  rewrite gets_bind. cbn [cs_frontier set_tree set_streaks].
  rewrite contains_members by apply Hwf.
  set (s1 := set_streaks _ s) in *.
  assert (views (cs_tree s1) !! N.to_nat parent = Some (nr_state_hash pr, nr_exhausted pr)) as Hview.
  { apply views_lookup. exists pr. split; [by apply get_Some|done]. }
  assert (len t' = len (cs_tree s)) as Hlen by (by rewrite <- !views_length, Hv, length_insert).
  pose proof (Frontier_remove_spec (cs_frontier s) parent (cwf_frontier _ Hwf)) as Hrm.
  rewrite st_bind_run.
  case_bool_decide as Hin; [rewrite decide_True in Hrm by done|rewrite decide_False in Hrm by done].
  - destruct Hrm as (f' & Hrm & Hfw & Hfm). unfold on_frontier, zoom. cbn. rewrite Hrm. cbn.
    eexists. split; [done|].
    split; [by apply (commit_wf_exhaust s1 parent (nr_exhausted pr) t' f' (nr_state_hash pr))|].
    cbn. rewrite Hfm. split_and!; [set_solver|done|done|]. eexists. by split; [exact Hg'|].
  - eexists. split; [done|].
    assert (set_tree t' s1 = set_frontier (cs_frontier s) (set_tree t' s1)) as Heq by done.
    split; [|cbn; split_and!; [done|done|done|]; eexists; by split; [exact Hg'|]].
    rewrite Heq. apply (commit_wf_exhaust s1 parent (nr_exhausted pr) t' (cs_frontier s) (nr_state_hash pr));
      [done|done|done|done|apply Hwf|cbn; set_solver].
Qed.

(** ** Counters a batch uses up *)

Lemma bump_count c cell (n : N) c' k : mirror_wf c -> bump (E:=CommitError) cell c = (Ok n, c') ->
  count c' k = (count c k + if decide (k = cell) then 1 else 0)%N.
Proof.
  intros Hwf Hb. assert (c' = (bump (E:=CommitError) cell c).2) as -> by (by rewrite Hb).
  assert (count c cell + 1 <= u32_max)%N.
  { unfold bump in Hb. rewrite bump_by_spec in Hb by done. by case_decide. }
  unfold bump. by rewrite (bump_by_count (E:=CommitError)).
Qed.

Lemma bump_count_le c cell (n : N) c' k : mirror_wf c -> bump (E:=CommitError) cell c = (Ok n, c') ->
  (count c' k <= count c k + 1)%N.
Proof. intros Hwf Hb. rewrite (bump_count _ _ _ _ _ Hwf Hb). case_decide; lia. Qed.

Lemma ensure_tracking_lookup id s i n : all_duplicate_streaks s !! i = Some n ->
  all_duplicate_streaks (ensure_tracking id s) !! i = Some n.
Proof. unfold ensure_tracking. case_decide; cbn; [|done]. by apply lookup_app_l_Some. Qed.

(** A child uses at most one unit of a cell counter and leaves streaks alone. *)
Lemma child_step_resources parent score child rules s c s' : commit_wf s ->
  child_step parent score child rules s (Ok c) s' ->
  (forall cell, count (cs_cell_mirror s') cell <= count (cs_cell_mirror s) cell + 1)%N /\
  (forall i n, all_duplicate_streaks s !! i = Some n -> all_duplicate_streaks s' !! i = Some n).
Proof.
  intros Hwf Hstep. pose proof (cwf_mirror _ Hwf) as Hm.
  inversion Hstep; subst; cbn; split; eauto using bump_count_le, ensure_tracking_lookup; lia.
Qed.

Lemma commit_children_resources parent score rules children goal s res s' : commit_wf s ->
  commit_children parent score rules children goal s = (Ok res, s') ->
  forall i n, all_duplicate_streaks s !! i = Some n -> all_duplicate_streaks s' !! i = Some n.
Proof.
  revert goal s res. induction children as [|child children IH]; intros goal s res Hwf;
    cbn [commit_children]; [by intros [= <- <-]|].
  intros (c & s1 & Hc & ([rest g] & s2 & Hrest & [= <- <-])%st_bind_Ok)%st_bind_Ok.
  pose proof (commit_child_step _ _ _ _ _ _ _ Hwf Hc) as Hstep. intros i n Hi.
  eapply IH; [by eapply child_step_wf|exact Hrest|]. by eapply child_step_resources.
Qed.

Lemma commit_children_wf parent score rules children goal s r s' : commit_wf s ->
  commit_children parent score rules children goal s = (r, s') -> r <> Panic -> commit_wf s'.
Proof.
  revert goal s r. induction children as [|child children IH]; intros goal s r Hwf;
    cbn [commit_children]; [by intros [= <- <-]|].
  rewrite st_bind_run. destruct (commit_child _ _ _ _ _) as [[c|e|] s1] eqn:Hc; cbv iota beta.
  - rewrite st_bind_run.
    destruct (commit_children _ _ _ children _ s1) as [[[rest g]|e|] s2] eqn:Hrest;
      intros [= <- <-] Hnp; try done; (eapply IH; [|exact Hrest|done]); by eapply commit_child_wf.
  - intros [= <- <-] _. by eapply commit_child_wf.
  - intros [= <- <-]. done.
Qed.

(** With enough room in the counters no child panics. *)
Lemma commit_children_no_panic parent score rules children goal s : commit_wf s ->
  (forall cell, count (cs_cell_mirror s) cell + N.of_nat (length children) <= u32_max)%N ->
  (commit_children parent score rules children goal s).1 <> Panic.
Proof.
  revert goal s. induction children as [|child children IH]; intros goal s Hwf Hroom;
    cbn [commit_children]; [done|]. cbn [length] in Hroom.
  rewrite st_bind_run. destruct (commit_child _ _ _ _ _) as [r s1] eqn:Hc.
  pose proof (commit_child_step _ _ _ _ _ _ _ Hwf Hc) as Hstep.
  destruct r as [c|e|]; [|done|].
  - destruct (child_step_resources _ _ _ _ _ _ _ Hwf Hstep) as [Hcnt _].
    rewrite st_bind_run.
    match goal with |- context [commit_children _ _ _ children ?g s1] =>
      pose proof (IH g s1) as Hn; destruct (commit_children _ _ _ children g s1) as [[[]| |] ?] end;
      try done.
    exfalso. apply Hn; [by eapply child_step_wf| |done].
    intros cell. specialize (Hroom cell). specialize (Hcnt cell). lia.
  - inversion Hstep as [| | | | | | |? Hp]. specialize (Hroom (np_cell (sc_payload child))). lia.
Qed.

(** ** The batch *)

Lemma commit_batch_run parent children rules s pr :
  validate_rules rules = Ok tt -> get (cs_tree s) parent = Some pr ->
  commit_batch parent children rules s =
  ('(commits, goal) ← commit_children parent (finite_get (nr_score pr)) rules children None;
   visits ← on_tree (increment_visits parent);
   evicted ← update_parent_exhaustion parent visits
     (negb (bool_decide (commits = [])) && forallb is_duplicate_commit commits) rules;
   mret (mkBatchCommitOutcome parent visits commits evicted goal)) s.
Proof.
  intros Hv Hg. unfold commit_batch. rewrite Hv, lift_Ok_bind, gets_bind, Hg. cbn [ok_or].
  by rewrite lift_Ok_bind.
Qed.

(** A rejected call: invalid rules or an unknown parent change nothing. *)
Lemma commit_batch_rejected parent children rules s :
  validate_rules rules <> Ok tt \/ get (cs_tree s) parent = None ->
  exists e, commit_batch parent children rules s = (Err e, s) /\
    (validate_rules rules = Err e \/
     validate_rules rules = Ok tt /\ e = ParentNotFound parent).
Proof.
  intros H. unfold commit_batch.
  destruct (validate_rules rules) as [[]|e|] eqn:Hv.
  - destruct H as [H|H]; [done|]. rewrite lift_Ok_bind, gets_bind, H. eexists. split; [done|]. by right.
  - exists e. split; [done|]. by left.
  - unfold validate_rules in Hv. by repeat destruct (_ || _) in Hv; repeat destruct (_ =? _)%N in Hv.
Qed.

(** A counter of the parent or of a duplicate's route is at its maximum. *)
Definition counter_error (parent : NodeId) (e : TreeError) : Prop :=
  e = DepthOverflow parent \/ e = ChildCountOverflow parent \/ exists id, e = VisitOverflow id.

Lemma child_step_error parent score child rules s e s' pr : commit_wf s ->
  get (cs_tree s) parent = Some pr -> child_step parent score child rules s (Err e) s' ->
  exists te, e = CommitTree te /\ counter_error parent te.
Proof.
  intros Hwf Hg Hstep. inversion Hstep as [| |te _ He| | | |ex| ]; subst.
  - exists te. split; [done|]. rewrite insert_child_run, Hg in He by apply Hwf.
    unfold counter_error. repeat destruct (_ <? _)%N; naive_solver.
  - eexists. split; [done|]. unfold counter_error. eauto.
Qed.

Lemma commit_children_error parent score rules children goal s e s' pr : commit_wf s ->
  get (cs_tree s) parent = Some pr ->
  commit_children parent score rules children goal s = (Err e, s') ->
  exists te, e = CommitTree te /\ counter_error parent te.
Proof.
  revert goal s pr. induction children as [|child children IH]; intros goal s pr Hwf Hg;
    cbn [commit_children]; [done|].
  rewrite st_bind_run. destruct (commit_child _ _ _ _ _) as [r s1] eqn:Hc.
  pose proof (commit_child_step _ _ _ _ _ _ _ Hwf Hc) as Hstep. destruct r as [c|e'|].
  - rewrite st_bind_run.
    destruct (child_step_parent _ _ _ _ _ _ _ _ Hwf Hg Hstep) as (pr1 & Hg1 & _).
    destruct (commit_children _ _ _ children _ s1) as [[[rest g]|e'|] s2] eqn:Hrest;
      [done| |done]. intros [= <- <-]. eapply IH; [|exact Hg1|exact Hrest].
    by eapply child_step_wf.
  - intros [= <- <-]. by eapply child_step_error.
  - done.
Qed.

(** The visit of the parent that follows its children. *)
Lemma batch_visit parent s pr : commit_wf s -> get (cs_tree s) parent = Some pr ->
  (nr_visits pr + 1 <= u32_max)%N /\
    (exists s1, on_tree (increment_visits parent) s = (Ok (nr_visits pr + 1)%N, s1) /\
      commit_wf s1 /\ len (cs_tree s1) = len (cs_tree s) /\
      members (cs_frontier s1) = members (cs_frontier s) /\
      all_duplicate_streaks s1 = all_duplicate_streaks s /\
      get (cs_tree s1) parent = Some (set_counters (nr_visits pr + 1)%N (nr_children pr) pr)) \/
  (u32_max < nr_visits pr + 1)%N /\
    on_tree (increment_visits parent) s = (Err (CommitTree (VisitOverflow parent)), s).
Proof.
  intros Hwf Hg.
  destruct (increment_visits_cases _ _ _ (cwf_tree _ Hwf) Hg)
    as [[Hle (t' & Hrun & Ht & Hv & Heq)]|[Hgt Hrun]]; [left|right]; (split; [done|]);
    unfold on_tree, zoom; rewrite Hrun; cbn; [|by rewrite set_tree_id].
  exists (set_tree t' s). split_and!; try done.
  - apply (commit_wf_same_views s t' (cs_cell_mirror s)); auto. apply Hwf.
  - cbn. by rewrite <- !views_length, Hv.
  - cbn. rewrite Heq. by eapply get_replace.
Qed.

Lemma parent_streak s parent pr : commit_wf s -> get (cs_tree s) parent = Some pr ->
  exists cur, all_duplicate_streaks s !! N.to_nat parent = Some cur.
Proof.
  intros Hwf Hg%get_Some%lookup_lt_Some. pose proof (cwf_streaks _ Hwf) as Hl. unfold len in Hl.
  apply lookup_lt_is_Some. lia.
Qed.

(** All outcomes of a batch on a well-formed state. *)
Inductive batch_result (parent : NodeId) (children : list ScoredChild) (rules : CommitRules)
    (s : CommitState) : res CommitError BatchCommitOutcome -> CommitState -> Prop :=
| batch_rejected e :
    validate_rules rules = Err e \/
      (validate_rules rules = Ok tt /\ get (cs_tree s) parent = None /\ e = ParentNotFound parent) ->
    batch_result parent children rules s (Err e) s
| batch_overflow te s' : commit_wf s' -> counter_error parent te ->
    batch_result parent children rules s (Err (CommitTree te)) s'
| batch_terminal s' pr : commit_wf s' -> get (cs_tree s) parent = Some pr -> nr_goal pr = true ->
    batch_result parent children rules s (Err (CommitTree (TerminalGoalNode parent))) s'
| batch_ok s1 s' commits pr pr' cur streak evicted :
    get (cs_tree s) parent = Some pr ->
    children_committed parent s s1 children commits pr ->
    all_duplicate_streaks s !! N.to_nat parent = Some cur ->
    streak = (if negb (bool_decide (commits = [])) && forallb is_duplicate_commit commits
              then (cur + 1)%N else 0%N) ->
    evicted = evict_reason rules (nr_visits pr + 1)%N streak ->
    (nr_visits pr + 1 <= u32_max)%N ->
    commit_wf s' -> len (cs_tree s') = len (cs_tree s1) ->
    get (cs_tree s') parent = Some pr' -> nr_visits pr' = (nr_visits pr + 1)%N ->
    all_duplicate_streaks s' !! N.to_nat parent = Some streak ->
    match evicted with
    | Some _ => nr_exhausted pr' = true /\ parent ∉ members (cs_frontier s')
    | None => nr_exhausted pr' = nr_exhausted pr
    end ->
    batch_result parent children rules s
      (Ok (mkBatchCommitOutcome parent (nr_visits pr + 1)%N commits evicted
             (first_goal children commits))) s'
| batch_panic s' :
    (exists cell, u32_max < count (cs_cell_mirror s) cell + N.of_nat (length children))%N \/
    all_duplicate_streaks s !! N.to_nat parent = Some u32_max ->
    batch_result parent children rules s Panic s'.

Lemma room_dec c n :
  (forall cell, count c cell + n <= u32_max)%N \/ (exists cell, u32_max < count c cell + n)%N.
Proof.
  destruct (decide (map_Forall (fun _ v => v + n <= u32_max)%N (counts c))) as [Hd|Hd].
  - destruct (decide (n <= u32_max)%N) as [Hn|Hn].
    + left. intros cell. unfold count. destruct (counts c !! cell) as [v|] eqn:E; cbn; [|lia].
      apply (Hd cell v E).
    + right. exists 0%N. lia.
  - right. apply map_not_Forall in Hd as (cell & v & Hl & Hv); [|apply _].
    exists cell. unfold count. rewrite Hl. cbn. lia.
Qed.

Lemma commit_batch_result parent children rules s r s' : commit_wf s ->
  commit_batch parent children rules s = (r, s') -> batch_result parent children rules s r s'.
Proof.
  intros Hwf Hrun.
  assert (validate_rules rules = Ok tt \/ validate_rules rules <> Ok tt) as [Hv|Hv]
    by (destruct (validate_rules rules) as [[]| |]; auto);
    [destruct (get (cs_tree s) parent) as [pr|] eqn:Hg|].
  2, 3: destruct (commit_batch_rejected parent children rules s) as (e & Hr & He); [by eauto|];
    rewrite Hrun in Hr; injection Hr as -> ->; apply batch_rejected; naive_solver.
  rewrite (commit_batch_run _ _ _ _ pr Hv Hg), st_bind_run in Hrun.
  destruct (commit_children _ _ _ _ _ s) as [[[commits goal]|e|] s1] eqn:Hc.
  2: { injection Hrun as <- <-.
    destruct (commit_children_error _ _ _ _ _ _ _ _ _ Hwf Hg Hc) as (te & -> & Hte).
    apply batch_overflow; [|done]. by eapply commit_children_wf. }
  2: { injection Hrun as <- <-. apply batch_panic. left.
    destruct (room_dec (cs_cell_mirror s) (N.of_nat (length children))) as [Hr|]; [|done].
    exfalso. eapply commit_children_no_panic; [exact Hwf|exact Hr|by rewrite Hc]. }
  destruct (commit_children_spec _ _ _ _ _ _ _ _ _ _ Hwf Hg Hc) as [Hcc ->].
  pose proof Hcc as [Hwf1 _ _ _ _ (pr1 & Hg1 & (Hvis & _ & Hgoal & _ & Hex))].
  destruct (parent_streak _ _ _ Hwf Hg) as [cur Hcur].
  pose proof (commit_children_resources _ _ _ _ _ _ _ _ Hwf Hc _ _ Hcur) as Hcur1.
  rewrite st_bind_run in Hrun.
  destruct (batch_visit _ _ _ Hwf1 Hg1) as [[Hle (s2 & Hvr & Hwf2 & Hlen2 & Hm2 & Hst2 & Hg2)]|[Hgt Hvr]].
  2: { rewrite Hvr in Hrun. injection Hrun as <- <-. apply batch_overflow; [done|].
    unfold counter_error. eauto. }
  rewrite Hvr, Hvis in *. rewrite <- Hst2 in Hcur1. rewrite st_bind_run in Hrun.
  set (dup := negb (bool_decide (commits = [])) && forallb is_duplicate_commit commits) in *.
  pose proof (update_parent_exhaustion_run s2 parent (nr_visits pr + 1)%N dup rules _ cur Hwf2 Hg2 Hcur1)
    as Hx. cbv zeta in Hx. cbn [nr_goal set_counters nr_visits] in Hx.
  destruct (dup && (cur =? u32_max)%N) eqn:Ep.
  { rewrite Hx in Hrun. injection Hrun as <- <-. apply batch_panic. right.
    apply andb_true_iff in Ep as [_ ->%N.eqb_eq]. done. }
  destruct Hx as [Hwf3 Hx].
  assert (forall x, (<[N.to_nat parent := x]> (all_duplicate_streaks s2)) !! N.to_nat parent = Some x)
    as Hins by (intros x; apply list_lookup_insert_eq; by eapply lookup_lt_Some).
  destruct (evict_reason rules (nr_visits pr + 1) (if dup then cur + 1 else 0)%N) as [why|] eqn:Ev.
  - destruct (nr_goal pr1) eqn:Hgo.
    { rewrite Hx in Hrun. injection Hrun as <- <-. by eapply batch_terminal; [|exact Hg|]. }
    destruct Hx as (s3 & Hx & Hw & Hnin & Hst & Hl3 & pr' & Hg' & Hex' & Hv').
    rewrite Hx in Hrun. injection Hrun as <- <-.
    apply (batch_ok parent children rules s s1 s3 commits pr pr' cur
      (if dup then (cur + 1)%N else 0%N) (Some why)); try done; [congruence|by rewrite Hst; cbn].
  - rewrite Hx in Hrun. injection Hrun as <- <-.
    by apply (batch_ok parent children rules s s1 _ commits pr _ cur (if dup then (cur + 1)%N else 0%N)
      None Hg Hcc Hcur eq_refl (eq_sym Ev) Hle Hwf3 Hlen2 Hg2 eq_refl (Hins _) Hex).
Qed.

Lemma batch_result_wf parent children rules s r s' : commit_wf s ->
  batch_result parent children rules s r s' -> r <> Panic -> commit_wf s'.
Proof. intros Hwf Hr Hnp. by destruct Hr. Qed.

Lemma SeenMap_get_new h : SeenMap_get SeenMap_new h = None.
Proof. apply lookup_empty. Qed.

(** The initial state: the root alone, open, with its hash and cell known. *)
Lemma CommitState_from_root_Ok payload : exists s, CommitState_from_root payload = Ok s /\ commit_wf s /\
  len (cs_tree s) = 1%nat /\ members (cs_frontier s) = {[ROOT]}.
Proof.
  unfold CommitState_from_root, bump. rewrite bump_by_spec by (intros k v; cbn; by rewrite lookup_empty).
  rewrite from_root_Ok. eexists. split; [reflexivity|]. cbn [cs_tree cs_frontier].
  split; [|split; [done|set_solver]].
  split; cbn [cs_tree cs_frontier cs_cell_mirror cs_seen all_duplicate_streaks].
  - by apply (from_root_wf payload), from_root_Ok.
  - intros id i. cbn. rewrite lookup_insert_Some, lookup_empty. destruct i as [|i]; cbn; [naive_solver|].
    split; [naive_solver|done].
  - intros k v. cbn. rewrite lookup_insert_Some, lookup_empty. intros [[_ <-]|[_ ?]]; [|done].
    unfold count. cbn. rewrite lookup_empty. done.
  - intros id. unfold members. cbn. rewrite elem_of_union, elem_of_singleton, elem_of_empty. split.
    + intros [->|[]]. cbn. eauto.
    + intros [h Hh]. apply lookup_lt_Some in Hh. cbn in Hh. left. unfold ROOT. lia.
  - intros h n. rewrite SeenMap_insert_get, SeenMap_get_new.
    case_decide; [|done]. intros [= <-]. subst. cbn. eauto.
  - intros i h e. rewrite SeenMap_insert_get, SeenMap_get_new.
    destruct i as [|i]; [|done]. cbn. intros [= <- <-]. rewrite decide_True; eauto.
  - done.
  - repeat constructor. done.
Qed.

(** ** Reachable states *)

Inductive commit_reachable : CommitState -> Prop :=
| reach_root payload s : CommitState_from_root payload = Ok s -> commit_reachable s
| reach_batch s parent children rules r s' : commit_reachable s ->
    commit_batch parent children rules s = (r, s') -> r <> Panic -> commit_reachable s'.

Lemma commit_reachable_inv s : commit_reachable s -> commit_wf s.
Proof.
  induction 1 as [payload s Hs|s parent children rules r s' Hr IH Hrun Hnp].
  - destruct (CommitState_from_root_Ok payload) as (s0 & H0 & Hwf & _). congruence.
  - eapply batch_result_wf; [exact IH| |exact Hnp]. by apply commit_batch_result.
Qed.

(** ** Properties *)

(** C1. In every state reached from a root by batch commits, also by batches
    that failed half-way, the five parts of the commit state agree: the tree
    is well formed, a node is in the frontier exactly when it is not
    exhausted, a hash has a route exactly when a node of the tree has that
    hash and the route is such a node, every node has a streak counter, and
    listing the candidates succeeds. *)
Theorem commit_reachable_consistent (s : CommitState) :
  commit_reachable s ->
  tree_wf (cs_tree s) /\
  (forall id, Frontier_contains (cs_frontier s) id = true <->
     exists r, get (cs_tree s) id = Some r /\ nr_exhausted r = false) /\
  (forall h n, SeenMap_get (cs_seen s) h = Some n ->
     exists r, get (cs_tree s) n = Some r /\ nr_state_hash r = h) /\
  (forall id r, get (cs_tree s) id = Some r ->
     is_Some (SeenMap_get (cs_seen s) (nr_state_hash r)) /\ is_Some (all_duplicate_streak s id)) /\
  (exists l, deterministic_candidates (cs_frontier s) (cs_tree s) = Ok l /\
     forall id, id ∈ l <-> is_candidate (cs_tree s) id).
Proof.
  intros Hr. pose proof (commit_reachable_inv _ Hr) as Hwf.
  assert (forall id, id ∈ members (cs_frontier s) <->
     exists r, get (cs_tree s) id = Some r /\ nr_exhausted r = false) as Hmem.
  { intros id. rewrite (cwf_members _ Hwf). setoid_rewrite views_lookup. setoid_rewrite get_Some.
    naive_solver. }
  split_and!.
  - apply Hwf.
  - intros id. rewrite contains_members, bool_decide_eq_true by apply Hwf. apply Hmem.
  - intros h n. by apply route_in_tree.
  - intros id r Hg%get_Some. split.
    + eapply (cwf_hashes _ Hwf). apply views_lookup. eauto.
    + unfold all_duplicate_streak. apply lookup_lt_Some in Hg.
      pose proof (cwf_streaks _ Hwf) as Hl. unfold len in Hl.
      rewrite (proj2 (N.ltb_lt _ _)) by lia. apply lookup_lt_is_Some. lia.
  - unfold deterministic_candidates. rewrite collect_candidates_spec.
    + eexists. split; [done|]. intros id. rewrite sort_ids_perm, list_elem_of_filter, <- elem_of_members, Hmem.
      split; [tauto|]. intros Hc. split; [done|]. destruct Hc as (r & Hg & Hc). exists r. split; [done|].
      unfold is_frontier_candidate in Hc. destruct (nr_exhausted r); [|done].
      by rewrite ?andb_false_r in Hc.
    + intros id Hid%elem_of_members%Hmem. destruct Hid as (r & Hg & _).
      unfold contains. destruct (index_of (cs_tree s) id) eqn:E; [done|].
      apply index_of_None, get_None in E. congruence.
Qed.

(** C3. What a successful batch adds up to: one commit per child, in order;
    the nodes it creates have consecutive ids starting at the next id and
    the tree grows by exactly their number; the parent gains exactly one
    visit, which is the reported count; the reported goal is the first
    child kept with the goal flag. *)
Theorem commit_batch_accounting (s : CommitState) (parent : NodeId) (children : list ScoredChild)
    (rules : CommitRules) (o : BatchCommitOutcome) (s' : CommitState) :
  commit_wf s -> commit_batch parent children rules s = (Ok o, s') ->
  let ids := omap cc_node_id (child_commits o) in
  length (child_commits o) = length children /\
  ids = N.of_nat <$> seq (len (cs_tree s)) (length ids) /\
  len (cs_tree s') = (len (cs_tree s) + length ids)%nat /\
  Forall (fun c => is_Some (cc_node_id c) <-> disposition c = Keep \/ disposition c = PrunedExhausted)
    (child_commits o) /\
  goal_node o = first_goal children (child_commits o) /\
  bo_parent o = parent /\
  exists r r', get (cs_tree s) parent = Some r /\ get (cs_tree s') parent = Some r' /\
    parent_visits o = (nr_visits r + 1)%N /\ nr_visits r' = parent_visits o.
Proof.
  intros Hwf Hrun%commit_batch_result; [|done]. cbv zeta.
  inversion Hrun as [| | |s1 ? commits pr pr' cur streak ev Hg [] _ _ _ _ _ Hl Hg' Hv|]; subst; cbn.
  split_and!; auto.
  - by rewrite Hl.
  - eapply Forall_impl; [eassumption|]. intros c ->. destruct (disposition c); cbn; naive_solver.
  - exists pr, pr'. done.
Qed.

Lemma evict_reason_cases rules visits streak :
  (evict_reason rules visits streak = Some MaxVisits <-> rule_max_visits_per_node rules <= visits)%N /\
  (evict_reason rules visits streak = Some AllDuplicateExpansions <->
     visits < rule_max_visits_per_node rules /\ rule_exhaust_after_dup_expansions rules <= streak)%N.
Proof.
  unfold evict_reason. destruct (N.leb_spec (rule_max_visits_per_node rules) visits) as [H|H];
    [|destruct (N.leb_spec (rule_exhaust_after_dup_expansions rules) streak) as [H'|H']];
    split; split; intros Hx; try done; try lia.
Qed.

Lemma all_duplicates_true commits : forallb is_duplicate_commit commits = true ->
  Forall (fun c => disposition c = Discard Duplicate) commits.
Proof.
  induction commits as [|c commits IH]; cbn; [constructor|].
  intros [Hc ?]%andb_true_iff. constructor; [by apply bool_decide_eq_true in Hc|auto].
Qed.

Lemma all_duplicates_false commits : forallb is_duplicate_commit commits = false ->
  Exists (fun c => disposition c <> Discard Duplicate) commits.
Proof.
  induction commits as [|c commits IH]; cbn; [done|].
  intros [Hc|?]%andb_false_iff; [left; by apply bool_decide_eq_false in Hc|right; auto].
Qed.

(** Eviction follows rules 4 and 5: the parent's streak grows when every
    child of a non-empty batch was a duplicate and is reset otherwise; the
    reported reason is the visit cap when the visits reach it, else the
    duplicate streak when it reaches its limit, else none; an evicted parent
    is exhausted, outside the frontier and no candidate, and a parent that
    is not evicted keeps its exhaustion flag. *)
Theorem commit_batch_eviction (s : CommitState) (parent : NodeId) (children : list ScoredChild)
    (rules : CommitRules) (o : BatchCommitOutcome) (s' : CommitState) :
  commit_wf s -> commit_batch parent children rules s = (Ok o, s') ->
  exists r r' cur streak,
    get (cs_tree s) parent = Some r /\ get (cs_tree s') parent = Some r' /\
    all_duplicate_streaks s !! N.to_nat parent = Some cur /\
    all_duplicate_streaks s' !! N.to_nat parent = Some streak /\
    (streak = cur + 1 /\ child_commits o <> [] /\
       Forall (fun c => disposition c = Discard Duplicate) (child_commits o) \/
     streak = 0 /\ (child_commits o = [] \/
       Exists (fun c => disposition c <> Discard Duplicate) (child_commits o)))%N /\
    (parent_evicted o = Some MaxVisits <-> rule_max_visits_per_node rules <= parent_visits o)%N /\
    (parent_evicted o = Some AllDuplicateExpansions <->
       parent_visits o < rule_max_visits_per_node rules /\
       rule_exhaust_after_dup_expansions rules <= streak)%N /\
    (if parent_evicted o is Some _
     then nr_exhausted r' = true /\ Frontier_contains (cs_frontier s') parent = false /\
          ~ is_candidate (cs_tree s') parent
     else nr_exhausted r' = nr_exhausted r).
Proof.
  intros Hwf Hrun%commit_batch_result; [|done].
  inversion Hrun as [| | |s1 ? commits pr pr' cur streak ev Hg Hcc Hcur Hs Hev _ Hwf' Hl Hg' Hv Hst Hx|];
    subst o s'0; cbn [child_commits parent_visits parent_evicted].
  exists pr, pr', cur, streak. split_and!; [done|done|done|exact Hst| | | |].
  - subst streak. case_bool_decide as Hn; cbn [negb andb]; [right; split; [done|by left]|].
    destruct (forallb is_duplicate_commit commits) eqn:Hd.
    + left. split_and!; [done|done|]. by apply all_duplicates_true.
    + right. split; [done|]. right. by apply all_duplicates_false.
  - subst ev. apply evict_reason_cases.
  - subst ev. apply evict_reason_cases.
  - destruct ev; [|done]. destruct Hx as [Hx Hnin]. split_and!; [done| |].
    + rewrite contains_members, bool_decide_eq_false by apply Hwf'. done.
    + intros (r & Hr & Hc). assert (r = pr') as -> by congruence.
      unfold is_frontier_candidate in Hc. rewrite Hx in Hc. by rewrite ?andb_false_r in Hc.
Qed.

(** An accepted configuration never makes a batch fail on its rules. *)
Lemma from_config_rules_valid c : config_valid c -> validate_rules (from_config c) = Ok tt.
Proof.
  intros Hc. pose proof (cv_visits _ Hc). pose proof (cv_dup _ Hc). pose proof (cv_epsilon _ Hc) as He.
  unfold finite_positive in He. apply andb_true_iff in He as [Hf Hp].
  unfold validate_rules, from_config. cbn. rewrite Hf. cbn [negb orb].
  replace (f64_ltb (epsilon_s (plateau c)) f64_zero) with false.
  2: { symmetry. apply not_true_iff_false. intros Hlt.
    assert (f64_ltb f64_zero (epsilon_s (plateau c)) = true) as Hgt by exact Hp.
    pose proof (f64_leb_ltb_trans _ _ _ (f64_ltb_leb _ _ Hlt) Hgt) as Hx.
    by rewrite f64_ltb_irrefl in Hx. }
  by rewrite !(proj2 (N.eqb_neq _ _)) by lia.
Qed.

(** What a decision does to the parts of the state: one visit more for a
    record, one state more in a cell, and a node more in the tree, in the seen
    map (which keeps an older route) and in the streaks. *)
Definition visited (r : NodeRecord) : NodeRecord := set_counters (nr_visits r + 1)%N (nr_children r) r.
Definition cell_counted (cell : CellKey) (s s' : CommitState) : Prop := forall k,
  count (cs_cell_mirror s') k = (count (cs_cell_mirror s) k + if decide (k = cell) then 1 else 0)%N.
Definition node_added (parent : NodeId) (payload : NodePayload) (exhausted goal : bool) (status : NodeStatus) (s s' : CommitState) : Prop :=
  let id := next_id (cs_tree s) in
  (exists pr, get (cs_tree s) parent = Some pr /\
     records (cs_tree s') = <[N.to_nat parent := set_counters (nr_visits pr) (nr_children pr + 1)%N pr]> (records (cs_tree s)) ++
       [set_flags exhausted goal status (NodeRecord_child id parent (nr_depth pr + 1)%N payload)]) /\
  children_by_node (cs_tree s') = <[N.to_nat parent := child_ids (records (cs_tree s)) parent ++ [id]]> (children_by_node (cs_tree s)) ++ [[]] /\
  (forall h, SeenMap_get (cs_seen s') h =
     if decide (h = np_state_hash payload) then Some (default id (SeenMap_get (cs_seen s) h)) else SeenMap_get (cs_seen s) h) /\
  all_duplicate_streaks s' = all_duplicate_streaks s ++ [0%N].

(** The records after [insert_child] and a change of the new record's flags. *)
Lemma insert_then_flags t parent payload id t' flags : tree_wf t -> insert_child parent payload t = (Ok id, t') ->
  id = next_id t /\ children_by_node t' = <[N.to_nat parent := child_ids (records t) parent ++ [id]]> (children_by_node t) ++ [[]] /\
  exists pr, get t parent = Some pr /\
    get t' id = Some (NodeRecord_child id parent (nr_depth pr + 1)%N payload) /\
    <[N.to_nat id := flags (NodeRecord_child id parent (nr_depth pr + 1)%N payload)]> (records t') =
      <[N.to_nat parent := set_counters (nr_visits pr) (nr_children pr + 1)%N pr]> (records t) ++
        [flags (NodeRecord_child id parent (nr_depth pr + 1)%N payload)].
Proof.
  intros Hwf Hi. destruct (insert_child_Ok _ _ _ _ _ Hwf Hi) as (-> & _ & _ & pr & Hg & Hg'). split; [done|].
  rewrite insert_child_run, Hg in Hi by done. destruct (_ <? _)%N; [done|]. destruct (_ <? _)%N; [done|]. injection Hi as <-.
  split; [done|]. exists pr. split; [done|]. split; [done|].
  unfold tree_insert, next_id, len. cbn [records]. rewrite insert_app_r_alt by (rewrite length_insert; lia).
  by rewrite length_insert, Nat2N.id, Nat.sub_diag.
Qed.

Lemma seen_after_insert payload id s h : SeenMap_get (SeenMap_insert (np_state_hash payload) id (cs_seen s)).2 h =
  if decide (h = np_state_hash payload) then Some (default id (SeenMap_get (cs_seen s) h)) else SeenMap_get (cs_seen s) h.
Proof. rewrite SeenMap_insert_get. destruct (SeenMap_get (cs_seen s) h); by case_decide. Qed.

(** C2. The decision table of one child, in its order of precedence: prune
    first, then duplicate, then regression (worse than the parent by more
    than epsilon and into a known cell), else keep; and what each decision
    changes, nothing else changing.  A dropped or regressed child leaves the
    state as it is.  A duplicate counts its cell and a visit of the node it
    repeats (unless that is the parent being expanded).  A pruned child counts
    its cell and joins the tree exhausted, leaving the frontier as it is; a
    kept child counts its cell and joins the tree and the frontier, as a goal
    when flagged.  A new node counts as a child of its parent and routes its
    hash unless an older node has it. *)
Theorem commit_child_decision (s : CommitState) (parent : NodeId) (score : f64) (child : ScoredChild)
    (rules : CommitRules) (c : ChildCommit) (s' : CommitState) :
  commit_wf s -> commit_child parent score child rules s = (Ok c, s') ->
  let payload := sc_payload child in
  let id := next_id (cs_tree s) in
  let route := SeenMap_get (cs_seen s) (np_state_hash payload) in
  disposition c = rule_disposition score child rules s /\
  match disposition c with
  | Discard PruneDrop | Discard Regression => s' = s /\ cc_node_id c = None /\ duplicate_route c = None
  | Discard Duplicate =>
    cc_node_id c = None /\ duplicate_route c = route /\ cell_counted (np_cell payload) s s' /\
    cs_frontier s' = cs_frontier s /\ cs_seen s' = cs_seen s /\ all_duplicate_streaks s' = all_duplicate_streaks s /\
    children_by_node (cs_tree s') = children_by_node (cs_tree s) /\
    records (cs_tree s') = match route with
      | Some n => if decide (n = parent) then records (cs_tree s) else alter visited (N.to_nat n) (records (cs_tree s))
      | None => records (cs_tree s)
      end
  | PrunedExhausted =>
    cc_node_id c = Some id /\ duplicate_route c = None /\ cell_counted (np_cell payload) s s' /\
    cs_frontier s' = cs_frontier s /\ node_added parent payload true false StPruned s s'
  | Keep =>
    cc_node_id c = Some id /\ duplicate_route c = None /\ cell_counted (np_cell payload) s s' /\
    members (cs_frontier s') = {[id]} ∪ members (cs_frontier s) /\
    node_added parent payload false (sc_goal child) (if sc_goal child then StGoal else StFrontier) s s'
  end.
Proof.
  intros Hwf Hrun%commit_child_step; [|done]. cbv zeta.
  destruct (child_step_account _ _ _ _ _ _ _ Hwf Hrun) as (Hd & _). split; [exact Hd|]. clear Hd.
  pose proof (cwf_tree _ Hwf) as Htw.
  assert (forall n cells t f seen streaks, bump (E:=CommitError) (np_cell (sc_payload child)) (cs_cell_mirror s) = (Ok n, cells) ->
    cell_counted (np_cell (sc_payload child)) s (mkCommitState t f cells seen streaks)) as Hcell
    by (intros n cells t f seen streaks Hb k; by apply (bump_count _ _ n), Hb; apply Hwf).
  inversion Hrun as [H|H|e H He|id t' t'' cells n H Hi Hm Hb|id t' t'' f' cells n H Hi Hm Hf Hb
    |t' cells n H Hb Ht|ex cells n H Hb Hs Hne Hv|]; subst; cbn [disposition]; try done.
  - destruct (insert_then_flags _ _ _ _ _ (set_flags true false StPruned) Htw Hi) as (-> & Hkids & pr & Hpr & Hg & Hrec).
    unfold mark_pruned in Hm. rewrite with_record_run, Hg in Hm. injection Hm as <-.
    split_and!; [done|done|by eapply Hcell|done|]. split; [by exists pr|]. split; [done|]. split; [intros h; apply seen_after_insert|by apply ensure_tracking_next].
  - destruct (insert_then_flags _ _ _ _ _ (set_flags false (sc_goal child) (if sc_goal child then StGoal else StFrontier)) Htw Hi) as (-> & Hkids & pr & Hpr & Hg & Hrec).
    destruct (frontier_insert_fresh _ Hwf) as (f2 & Hf2 & _ & Hfm). rewrite Hf in Hf2. injection Hf2 as <-.
    split_and!; [done|done|by eapply Hcell|done|]. split; [|split; [|split; [intros h; apply seen_after_insert|by apply ensure_tracking_next]]].
    2:{ rewrite <- Hkids. destruct (sc_goal child); [|by subst t'']. unfold mark_goal in Hm. rewrite with_record_run, Hg in Hm. by injection Hm as <-. }
    exists pr. split; [done|]. cbn [cs_tree]. rewrite <- Hrec. destruct (sc_goal child).
    + unfold mark_goal in Hm. rewrite with_record_run, Hg in Hm. cbn in Hm. by injection Hm as <-.
    + subst t''. symmetry. apply list_insert_id. by apply get_Some.
  - split_and!; try done; [by eapply Hcell| |]; destruct (SeenMap_get _ _) as [n'|] eqn:Er; try (by subst t'); (case_decide; [by subst t'|]);
      destruct Ht as [v Hv]; destruct (cwf_routes _ Hwf _ _ Er) as (ex & (r & Hr & _)%views_lookup); apply get_Some in Hr as Hg;
      destruct (increment_visits_cases _ _ _ Htw Hg) as [[_ (t2 & Hv2 & _ & _ & Heq)]|[_ Hv2]]; rewrite Hv2 in Hv; try done; injection Hv as <- <-; rewrite Heq; [done|].
    cbn [cs_tree set_tree records]. rewrite list_insert_alter. apply (list_alter_ext _ _ _ (records (cs_tree s))); [|done]. intros x Hx. by replace x with r by congruence.
Qed.

(** C29. How a batch can fail: the rules are invalid or the parent unknown,
    and then the state is untouched; or a depth, child or visit counter is
    at its maximum; or the exhausted parent is a goal node.  No other error
    is possible - in particular the frontier never rejects a commit - and
    the state left behind is consistent. *)
Theorem commit_batch_errors (s : CommitState) (parent : NodeId) (children : list ScoredChild)
    (rules : CommitRules) (e : CommitError) (s' : CommitState) :
  commit_wf s -> commit_batch parent children rules s = (Err e, s') ->
  commit_wf s' /\
  (validate_rules rules = Err e /\ s' = s \/
   e = ParentNotFound parent /\ get (cs_tree s) parent = None /\ s' = s \/
   (exists te, e = CommitTree te /\ counter_error parent te) \/
   e = CommitTree (TerminalGoalNode parent) /\
     exists r, get (cs_tree s) parent = Some r /\ nr_goal r = true).
Proof.
  intros Hwf Hrun%commit_batch_result; [|done].
  inversion Hrun as [? He|te ? Hw Hte|? pr Hw Hg Hgo| |]; subst; (split; [done|]); naive_solver.
Qed.

(** Overflow is the only way a batch can panic: with room for the
    children in every cell counter and the parent's streak below its
    maximum it returns. *)
Theorem commit_batch_no_panic (s : CommitState) (parent : NodeId) (children : list ScoredChild)
    (rules : CommitRules) :
  commit_wf s ->
  (forall cell, count (cs_cell_mirror s) cell + N.of_nat (length children) <= u32_max)%N ->
  (forall n, all_duplicate_streak s parent = Some n -> n < u32_max)%N ->
  (commit_batch parent children rules s).1 <> Panic.
Proof.
  intros Hwf Hroom Hstreak. destruct (commit_batch parent children rules s) as [r s'] eqn:Hrun.
  apply commit_batch_result in Hrun; [|done]. cbn. intros ->.
  inversion Hrun as [| | | |? [[cell Hc]|Hs]]; subst; [specialize (Hroom cell); lia|].
  apply lookup_lt_Some in Hs as Hlt. specialize (Hstreak u32_max).
  unfold all_duplicate_streak in Hstreak. rewrite (proj2 (N.ltb_lt _ _)) in Hstreak by lia.
  specialize (Hstreak Hs). lia.
Qed.

(** ** Witnesses *)

Definition sample_child (seed : N) : ScoredChild := mkScoredChild (sample_payload seed) false false false.
Definition sample_children : list ScoredChild :=
  [ sample_child 1;
    mkScoredChild (sample_payload 2) false false true;
    mkScoredChild (sample_payload 3) false true false;
    mkScoredChild (sample_payload 1) true false false ].
Definition sample_rules : CommitRules := mkCommitRules Exhausted f64_zero 2 1.

Definition sample_state : CommitState :=
  match CommitState_from_root (sample_payload 0) with
  | Ok s => s
  | _ => CommitState_from_parts sample_root Frontier_new CellMirror_new SeenMap_new []
  end.

(** The state after one and two batches on the root. *)
Definition after_batch (s : CommitState) : CommitState := (commit_batch ROOT sample_children sample_rules s).2.
Definition batch_outcome (s : CommitState) : option BatchCommitOutcome :=
  match (commit_batch ROOT sample_children sample_rules s).1 with Ok o => Some o | _ => None end.

Lemma sample_state_reachable : commit_reachable sample_state.
Proof. apply (reach_root (sample_payload 0)). reflexivity. Defined.

Lemma sample_state_wf : commit_wf sample_state.
Proof. apply commit_reachable_inv, sample_state_reachable. Qed.

Lemma after_batch_reachable : commit_reachable (after_batch sample_state).
Proof.
  eapply (reach_batch _ ROOT sample_children sample_rules _ _ sample_state_reachable);
    [apply surjective_pairing|]. vm_compute. discriminate.
Defined.

Lemma commit_reachable_consistent_witness :
  exists l, deterministic_candidates (cs_frontier (after_batch sample_state))
              (cs_tree (after_batch sample_state)) = Ok l /\
    forall id, id ∈ l <-> is_candidate (cs_tree (after_batch sample_state)) id.
Proof.
  destruct (commit_reachable_consistent (after_batch sample_state) after_batch_reachable)
    as (_ & _ & _ & _ & H). exact H.
Defined.

Lemma commit_batch_accounting_witness :
  exists o, (commit_batch ROOT sample_children sample_rules sample_state).1 = Ok o /\
    length (child_commits o) = 4%nat /\ goal_node o = first_goal sample_children (child_commits o).
Proof.
  destruct (commit_batch ROOT sample_children sample_rules sample_state) as [r s'] eqn:E.
  destruct r as [o|e|]; [|vm_compute in E; discriminate E|vm_compute in E; discriminate E].
  destruct (commit_batch_accounting _ _ _ _ _ _ sample_state_wf E) as (Hl & _ & _ & _ & Hg & _).
  exists o. split; [reflexivity|]. split; [exact Hl|exact Hg].
Defined.

Lemma commit_batch_eviction_witness :
  exists o, (commit_batch ROOT sample_children sample_rules (after_batch sample_state)).1 = Ok o /\
    parent_evicted o = Some MaxVisits.
Proof.
  destruct (commit_batch ROOT sample_children sample_rules (after_batch sample_state)) as [r s'] eqn:E.
  destruct r as [o|e|]; [|vm_compute in E; discriminate E|vm_compute in E; discriminate E].
  destruct (commit_batch_eviction _ _ _ _ _ _ (commit_reachable_inv _ after_batch_reachable) E)
    as (r & r' & cur & streak & _ & _ & _ & _ & _ & Hm & _).
  exists o. split; [reflexivity|]. apply Hm.
  assert (option_map parent_visits (batch_outcome (after_batch sample_state)) = Some 2%N) as Hv
    by (vm_compute; reflexivity).
  unfold batch_outcome in Hv. rewrite E in Hv. cbn in Hv. injection Hv as ->. cbn. lia.
Defined.

Lemma commit_child_decision_witness :
  exists c, (commit_child ROOT f64_one (sample_child 1) sample_rules sample_state).1 = Ok c /\
    disposition c = Keep /\ cc_node_id c = Some 1%N.
Proof.
  destruct (commit_child ROOT f64_one (sample_child 1) sample_rules sample_state) as [r s'] eqn:E.
  destruct r as [c|e|]; [|vm_compute in E; discriminate E|vm_compute in E; discriminate E].
  destruct (commit_child_decision _ _ _ _ _ _ _ sample_state_wf E) as [Hd H].
  assert (rule_disposition f64_one (sample_child 1) sample_rules sample_state = Keep) as Hk
    by (vm_compute; reflexivity).
  rewrite Hk in Hd. rewrite Hd in H. exists c. split; [reflexivity|]. split; [exact Hd|].
  destruct H as [H _]. exact H.
Defined.

Lemma commit_batch_errors_witness :
  (commit_batch 9 sample_children sample_rules sample_state).1 = Err (ParentNotFound 9) /\
  commit_wf (commit_batch 9 sample_children sample_rules sample_state).2.
Proof.
  split; [vm_compute; reflexivity|].
  destruct (commit_batch 9 sample_children sample_rules sample_state) as [r s'] eqn:E.
  destruct r as [o|e|]; [vm_compute in E; discriminate E| |vm_compute in E; discriminate E].
  destruct (commit_batch_errors _ _ _ _ _ _ sample_state_wf E) as [H _]. exact H.
Defined.

Lemma sample_state_room cell :
  (count (cs_cell_mirror sample_state) cell + N.of_nat (length sample_children) <= u32_max)%N.
Proof.
  change (cs_cell_mirror sample_state) with (mkCellMirror {[0%N := 1%N]}). unfold count. cbn [counts].
  destruct (decide (cell = 0%N)) as [->|];
    [rewrite lookup_singleton|rewrite lookup_singleton_ne by done]; vm_compute; discriminate.
Qed.

Lemma commit_batch_no_panic_witness :
  (commit_batch ROOT sample_children sample_rules sample_state).1 <> Panic.
Proof.
  apply (commit_batch_no_panic sample_state ROOT sample_children sample_rules sample_state_wf
    sample_state_room).
  intros n Hn. vm_compute in Hn. injection Hn as <-. vm_compute. reflexivity.
Defined.
