(* ===== verification/Plateau.v ===== *)
(** Stall detection and the escalation ladder (crates/orch-core/src/plateau.rs).
    A detector counts observations since the best score last improved; each
    full window without improvement raises the ladder one level, up to a cap,
    and entering the last level bumps the feature-map version. *)
From S2P Require Import Prelude Float64 Types.
Local Open Scope list_scope.

(** ** Levels *)

Inductive EscalationLevel := L0 | L1 | L2 | L3 | L4.

Global Instance EscalationLevel_eq_dec : EqDecision EscalationLevel.
Proof. solve_decision. Defined.

Definition level_get (l : EscalationLevel) : N :=
  match l with L0 => 0 | L1 => 1 | L2 => 2 | L3 => 3 | L4 => 4 end%N.

Definition from_capped_u32 (value : N) : EscalationLevel :=
  match value with
  | 0%N => L0 | 1%N => L1 | 2%N => L2 | 3%N => L3 | _ => L4
  end.

Definition includes (self level : EscalationLevel) : bool := (level_get level <=? level_get self)%N.

(** The derived order of the enum is the order of its variants. *)
Definition level_max (a b : EscalationLevel) : EscalationLevel :=
  if (level_get a <=? level_get b)%N then b else a.
Definition level_min (a b : EscalationLevel) : EscalationLevel :=
  if (level_get a <=? level_get b)%N then a else b.

(** ** Knobs *)

Record EscalationKnobs := mkEscalationKnobs {
  k_burst_len_factor : f64;
  k_temp_factor : f64;
  k_macro_weight_hot : f64;
  k_backtrack_kappa : f64;
  k_backtrack_depth_quantile : f64;
  k_radius_factor : f64;
  k_max_level : EscalationLevel
}.

Definition from_ladder_config (c : LadderConfig) : EscalationKnobs :=
  mkEscalationKnobs (burst_len_factor c) (temp_factor c) (macro_weight_hot c) (backtrack_kappa c)
    (backtrack_depth_quantile c) (radius_factor c) (from_capped_u32 (max_level c)).

Record PlateauKnobs := mkPlateauKnobs {
  k_window_n : N;
  k_epsilon_s : f64;
  k_ladder : EscalationKnobs
}.

Definition from_plateau_config (c : PlateauConfig) : PlateauKnobs :=
  mkPlateauKnobs (window_n c) (epsilon_s c) (from_ladder_config (ladder c)).
Definition PlateauKnobs_from_config (c : ExperimentConfig) : PlateauKnobs :=
  from_plateau_config (plateau c).

(** ** Stall detector *)

Record StallObservation := mkStallObservation {
  so_observation_index : N;
  so_score : Score;
  so_best_score : Score;
  so_improved : bool;
  so_observations_since_improvement : N;
  so_completed_stall_windows : N;
  so_stalled : bool;
  so_completed_new_window : bool
}.

Record StallDetector := mkStallDetector {
  d_window_n : N;
  d_epsilon_s : f64;
  d_observations : N;
  d_best_score : option Score;
  d_observations_since_improvement : N;
  d_completed_stall_windows : N
}.

Definition StallDetector_new (window_n : N) (epsilon_s : f64) : StallDetector :=
  mkStallDetector window_n epsilon_s 0 None 0 0.
Definition StallDetector_from_knobs (k : PlateauKnobs) : StallDetector :=
  StallDetector_new (k_window_n k) (k_epsilon_s k).

Definition StallDetector_reset (d : StallDetector) : StallDetector :=
  mkStallDetector (d_window_n d) (d_epsilon_s d) 0 None 0 0.

Definition StallDetector_restore (k : PlateauKnobs) (observations : N) (best_score : option Score)
    (since windows : N) : StallDetector :=
  mkStallDetector (k_window_n k) (k_epsilon_s k) observations best_score since windows.

(** [score.get() > best_score.get() + epsilon_s] *)
Definition improves (epsilon : f64) (best score : Score) : bool :=
  f64_gtb (finite_get score) (f64_add (finite_get best) epsilon).

(** The counters after the [match] of [observe], and whether it improved. *)
Definition observe_counters (d : StallDetector) (observations : N) (score : Score)
    : StallDetector * bool :=
  let window_n := d_window_n d in
  match d_best_score d with
  | Some best =>
    if improves (d_epsilon_s d) best score
    then (mkStallDetector window_n (d_epsilon_s d) observations (Some score) 0 0, true)
    else
      let since := saturating_add u64_max (d_observations_since_improvement d) 1 in
      (mkStallDetector window_n (d_epsilon_s d) observations (Some best) since
         (if (window_n =? 0)%N then 0%N else (since / window_n)%N), false)
  | None =>
    (mkStallDetector window_n (d_epsilon_s d) observations (Some score)
       (d_observations_since_improvement d) (d_completed_stall_windows d), true)
  end.

Definition observe (score : Score) : st StallDetector Empty_set StallObservation := fun d =>
  let observations := saturating_add u64_max (d_observations d) 1 in
  match checked_sub observations 1 with
  | None => (Panic, d)
  | Some observation_index =>
    let '(d', improved) := observe_counters d observations score in
    let since := d_observations_since_improvement d' in
    let completed_new_window :=
      negb improved && (0 <? d_window_n d')%N && (0 <? since)%N && (since mod d_window_n d' =? 0)%N in
    match d_best_score d' with
    | None => (Panic, d')
    | Some best =>
      (Ok (mkStallObservation observation_index score best improved since
             (d_completed_stall_windows d') (0 <? d_completed_stall_windows d')%N
             completed_new_window), d')
    end
  end.

(** ** Escalation ladder *)

Record BacktrackKnobs := mkBacktrackKnobs { bk_kappa : f64; bk_depth_quantile : f64 }.
Record L3Override := mkL3Override { l3_macro_weight_hot : f64; l3_backtrack : BacktrackKnobs }.
Record L4Rebin := mkL4Rebin { l4_feature_map_version : N; l4_radius_factor : f64 }.
Record EscalationSnapshot := mkEscalationSnapshot {
  es_level : EscalationLevel;
  es_burst_len_factor : f64;
  es_temp_factor : f64;
  es_l3_override : option L3Override;
  es_l4_rebin : option L4Rebin
}.

Record EscalationLadder := mkEscalationLadder {
  el_knobs : EscalationKnobs;
  el_level : EscalationLevel;
  el_feature_map_version : N
}.

Definition EscalationLadder_new (k : EscalationKnobs) : EscalationLadder := mkEscalationLadder k L0 0.
Definition EscalationLadder_from_knobs (k : PlateauKnobs) : EscalationLadder :=
  EscalationLadder_new (k_ladder k).
Definition EscalationLadder_restore (k : EscalationKnobs) (level : EscalationLevel) (version : N)
    : EscalationLadder := mkEscalationLadder k level version.

Definition snapshot (l : EscalationLadder) : EscalationSnapshot :=
  let k := el_knobs l in
  mkEscalationSnapshot (el_level l)
    (if includes (el_level l) L1 then k_burst_len_factor k else f64_one)
    (if includes (el_level l) L2 then k_temp_factor k else f64_one)
    (if includes (el_level l) L3
     then Some (mkL3Override (k_macro_weight_hot k)
                  (mkBacktrackKnobs (k_backtrack_kappa k) (k_backtrack_depth_quantile k)))
     else None)
    (if includes (el_level l) L4
     then Some (mkL4Rebin (el_feature_map_version l) (k_radius_factor k)) else None).

Definition reset_for_improvement (l : EscalationLadder) : EscalationLadder :=
  mkEscalationLadder (el_knobs l) L0 (el_feature_map_version l).

Definition set_level (requested : EscalationLevel) (l : EscalationLadder) : EscalationLadder :=
  let next := level_max (el_level l) (level_min requested (k_max_level (el_knobs l))) in
  let version :=
    if negb (includes (el_level l) L4) && includes next L4
    then saturating_add u32_max (el_feature_map_version l) 1 else el_feature_map_version l in
  mkEscalationLadder (el_knobs l) next version.

Definition set_completed_stall_windows (windows : N) (l : EscalationLadder)
    : EscalationSnapshot * EscalationLadder :=
  let capped := N.min windows (level_get (k_max_level (el_knobs l))) in
  let l' := set_level (from_capped_u32 (if (capped <=? u32_max)%N then capped else u32_max)) l in
  (snapshot l', l').

Definition advance_one_stall_window (l : EscalationLadder) : EscalationSnapshot * EscalationLadder :=
  let next := saturating_add u32_max (level_get (el_level l)) 1 in
  let l' := set_level (from_capped_u32 next) l in
  (snapshot l', l').

Definition apply_stall_observation (o : StallObservation) (l : EscalationLadder)
    : EscalationSnapshot * EscalationLadder :=
  let l' :=
    if so_improved o then reset_for_improvement l
    else if so_completed_new_window o
         then (set_completed_stall_windows (so_completed_stall_windows o) l).2
    else l in
  (snapshot l', l').

(** ** Runs: a score is observed and the ladder follows *)

Definition plateau_step (p : StallDetector * EscalationLadder) (score : Score)
    : StallDetector * EscalationLadder :=
  match observe score p.1 with
  | (Ok o, d') => (d', (apply_stall_observation o p.2).2)
  | (_, d') => (d', p.2)
  end.

Definition plateau_start (k : PlateauKnobs) : StallDetector * EscalationLadder :=
  (StallDetector_from_knobs k, EscalationLadder_from_knobs k).

Definition plateau_run (k : PlateauKnobs) (scores : list Score) : StallDetector * EscalationLadder :=
  fold_left plateau_step scores (plateau_start k).

Lemma plateau_run_snoc k scores s :
  plateau_run k (scores ++ [s]) = plateau_step (plateau_run k scores) s.
Proof. unfold plateau_run. by rewrite fold_left_app. Qed.

Lemma from_capped_u32_get v : level_get (from_capped_u32 v) = N.min v 4.
Proof. destruct v as [|[[[|[]|]|[]|]|[[|[]|]|[]|]|]]; cbn; lia. Qed.

Lemma level_get_bound l : (level_get l <= 4)%N.
Proof. destruct l; cbn; lia. Qed.

Lemma level_get_inj a b : level_get a = level_get b -> a = b.
Proof. destruct a, b; cbn; (done || lia). Qed.

Lemma level_max_get a b : level_get (level_max a b) = N.max (level_get a) (level_get b).
Proof. unfold level_max. destruct (N.leb_spec (level_get a) (level_get b)); lia. Qed.

Lemma level_min_get a b : level_get (level_min a b) = N.min (level_get a) (level_get b).
Proof. unfold level_min. destruct (N.leb_spec (level_get a) (level_get b)); lia. Qed.

Lemma set_completed_level windows l :
  level_get (el_level (set_completed_stall_windows windows l).2) =
  N.max (level_get (el_level l)) (N.min windows (level_get (k_max_level (el_knobs l)))).
Proof.
  cbn. rewrite level_max_get, level_min_get, from_capped_u32_get.
  pose proof (level_get_bound (k_max_level (el_knobs l))).
  destruct (N.leb_spec (N.min windows (level_get (k_max_level (el_knobs l)))) u32_max);
    unfold u32_max in *; lia.
Qed.

(** ** What the detector computes *)

Definition since_of (p : StallDetector * EscalationLadder) : N := d_observations_since_improvement p.1.
Definition best_of (p : StallDetector * EscalationLadder) : option Score := d_best_score p.1.

Lemma observe_run d score : exists o,
  observe score d = (Ok o, (observe_counters d (saturating_add u64_max (d_observations d) 1) score).1) /\
  so_improved o = (observe_counters d (saturating_add u64_max (d_observations d) 1) score).2 /\
  so_best_score o = default score (d_best_score
    (observe_counters d (saturating_add u64_max (d_observations d) 1) score).1) /\
  let d' := (observe_counters d (saturating_add u64_max (d_observations d) 1) score).1 in
  so_completed_stall_windows o = d_completed_stall_windows d' /\
  so_observations_since_improvement o = d_observations_since_improvement d' /\
  so_completed_new_window o =
    negb (so_improved o) && (0 <? d_window_n d')%N && (0 <? d_observations_since_improvement d')%N &&
    (d_observations_since_improvement d' mod d_window_n d' =? 0)%N.
Proof.
  unfold observe, checked_sub. rewrite decide_True.
  2: { unfold saturating_add, u64_max. lia. }
  unfold observe_counters. destruct (d_best_score d) as [b|]; [destruct (improves _ _ _)|];
    cbn; eexists; repeat split.
Qed.

(** One step of the pair, by cases on the detector. *)
Record plateau_inv (k : PlateauKnobs) (scores : list Score) (p : StallDetector * EscalationLadder)
    : Prop := {
  pi_window : d_window_n p.1 = k_window_n k;
  pi_epsilon : d_epsilon_s p.1 = k_epsilon_s k;
  pi_knobs : el_knobs p.2 = k_ladder k;
  pi_observations : d_observations p.1 = N.of_nat (length scores);
  pi_windows : d_completed_stall_windows p.1 = (since_of p / k_window_n k)%N;
  pi_since : (since_of p <= N.of_nat (length scores))%N;
  pi_level : level_get (el_level p.2) =
    N.min (level_get (k_max_level (k_ladder k))) (since_of p / k_window_n k);
  pi_best : best_of p = None -> scores = [] /\ since_of p = 0%N
}.

(** The number of complete windows changes only at a multiple. *)
Lemma div_step n w : (0 < w)%N -> ((n + 1) mod w <> 0)%N -> ((n + 1) / w = n / w)%N.
Proof.
  intros Hw Hm. pose proof (N.div_mod' (n + 1) w) as Hd.
  assert ((n + 1) mod w < w)%N as Hlt by (apply N.mod_lt; lia).
  revert Hd Hlt Hm. generalize ((n + 1) mod w)%N ((n + 1) / w)%N. intros r q Hd Hlt Hm.
  apply (N.div_unique n w q (r - 1)); lia.
Qed.

Section Law.
Context (k : PlateauKnobs) (Hwin : (0 < k_window_n k)%N).

Lemma plateau_start_inv : plateau_inv k [] (plateau_start k).
Proof.
  split; try done; unfold since_of; cbn. by rewrite N.min_0_r.
Qed.

(** The three things an observation can do. *)
Lemma plateau_step_cases scores p s : plateau_inv k scores p ->
  (N.of_nat (length scores) < u64_max)%N ->
  let p' := plateau_step p s in
  plateau_inv k (scores ++ [s]) p' /\
  match best_of p with
  | None => best_of p' = Some s /\ since_of p' = 0%N /\ el_level p'.2 = L0 /\
      el_feature_map_version p'.2 = el_feature_map_version p.2
  | Some b =>
    if improves (k_epsilon_s k) b s
    then best_of p' = Some s /\ since_of p' = 0%N /\ el_level p'.2 = L0 /\
      el_feature_map_version p'.2 = el_feature_map_version p.2
    else best_of p' = Some b /\ since_of p' = (since_of p + 1)%N /\
      el_feature_map_version p'.2 =
        (if includes (el_level p.2) L4 then el_feature_map_version p.2
         else if includes (el_level p'.2) L4
              then saturating_add u32_max (el_feature_map_version p.2) 1
              else el_feature_map_version p.2)
  end.
Proof.
  intros [Hw He Hk Ho Hwi Hs Hl Hb] Hlen. destruct p as [d l]. cbn [fst snd] in *.
  unfold plateau_step, best_of, since_of in *. cbn [fst snd] in *.
  destruct (observe_run d s) as (o & -> & Him & _ & Hcw & _ & Hnw). cbn [fst snd].
  revert Him Hcw Hnw. unfold observe_counters. rewrite Hw, He.
  assert (saturating_add u64_max (d_observations d) 1 = N.of_nat (length (scores ++ [s]))) as ->.
  { rewrite length_app, Ho. unfold saturating_add. cbn. lia. }
  destruct (d_best_score d) as [b|] eqn:Hbest; [destruct (improves (k_epsilon_s k) b s)|];
    cbn [fst snd d_best_score d_observations_since_improvement d_completed_stall_windows d_window_n];
    intros Him Hcw Hnw.
  - unfold apply_stall_observation. rewrite Him. cbn. split; [|done].
    split; cbn; auto; unfold since_of; cbn; rewrite ?N.Div0.div_0_l; try done; lia.
  - rewrite (proj2 (N.eqb_neq _ _)) in Hcw |- * by lia.
    assert (saturating_add u64_max (d_observations_since_improvement d) 1 =
      d_observations_since_improvement d + 1)%N as Hsat by (unfold saturating_add; lia).
    rewrite Hsat in *. set (n := d_observations_since_improvement d) in *.
    rewrite Him in Hnw. cbn [negb andb] in Hnw. rewrite !(proj2 (N.ltb_lt _ _)) in Hnw by lia.
    cbn [andb] in Hnw. unfold apply_stall_observation. rewrite Him, Hnw, Hcw.
    assert (level_get (k_max_level (el_knobs l)) = level_get (k_max_level (k_ladder k))) as Hkm
      by (by rewrite Hk).
    destruct (N.eqb_spec ((n + 1) mod k_window_n k) 0) as [Hm|Hm]; cbn [fst snd].
    + pose proof (set_completed_level ((n + 1) / k_window_n k) l) as Hlev.
      split; [split; cbn [fst snd]; auto; unfold since_of; cbn [fst snd d_observations_since_improvement
        d_completed_stall_windows]|].
      * rewrite length_app. cbn. lia.
      * rewrite Hlev, Hl, Hkm. assert (n / k_window_n k <= (n + 1) / k_window_n k)%N
          by (apply N.Div0.div_le_mono; lia). lia.
      * done.
      * split_and!; [done|done|]. cbn. by destruct (includes (el_level l) L4).
    + pose proof (div_step n (k_window_n k) Hwin Hm) as Hdiv.
      split; [split; cbn [fst snd]; auto; unfold since_of; cbn [fst snd d_observations_since_improvement
        d_completed_stall_windows]|].
      * rewrite length_app. cbn. lia.
      * by rewrite Hl, Hdiv.
      * done.
      * split_and!; [done|done|]. by destruct (includes (el_level l) L4).
  - destruct Hb as [-> Hz]; [done|]. unfold apply_stall_observation. rewrite Him. cbn. split; [|done].
    split; cbn; auto; unfold since_of; cbn; rewrite ?Hwi, ?Hz, ?N.Div0.div_0_l; try done; lia.
Qed.

Lemma plateau_run_inv scores : (N.of_nat (length scores) <= u64_max)%N ->
  plateau_inv k scores (plateau_run k scores).
Proof.
  induction scores as [|s scores IH] using rev_ind; intros Hlen; [apply plateau_start_inv|].
  rewrite length_app in Hlen. cbn in Hlen. rewrite plateau_run_snoc.
  apply plateau_step_cases; [apply IH; lia|lia].
Qed.
End Law.

(** ** Properties *)

(** The law of the ladder.  After observing any non-empty sequence of
    scores from a fresh start, the sequence splits at the observation that
    set the best score: no later score beats it by more than epsilon, the
    counter is the number of later scores, the completed windows are that
    number divided by the window, and the level is the number of completed
    windows capped by the configured maximum. *)
Theorem plateau_level_law (k : PlateauKnobs) (scores : list Score) :
  (0 < k_window_n k)%N -> (N.of_nat (length scores) <= u64_max)%N -> scores <> [] ->
  let p := plateau_run k scores in
  exists pre x suf, scores = pre ++ x :: suf /\
    d_best_score p.1 = Some x /\
    Forall (fun y => improves (k_epsilon_s k) x y = false) suf /\
    (pre = [] \/ exists b, d_best_score (plateau_run k pre).1 = Some b /\
       improves (k_epsilon_s k) b x = true) /\
    d_observations_since_improvement p.1 = N.of_nat (length suf) /\
    d_completed_stall_windows p.1 = (N.of_nat (length suf) / k_window_n k)%N /\
    level_get (el_level p.2) =
      N.min (level_get (k_max_level (k_ladder k))) (N.of_nat (length suf) / k_window_n k).
Proof.
  intros Hw. cbv zeta. induction scores as [|s scores IH] using rev_ind; intros Hlen Hne; [done|].
  rewrite length_app in Hlen. cbn in Hlen. rewrite plateau_run_snoc.
  pose proof (plateau_run_inv k Hw scores ltac:(lia)) as Hinv.
  destruct (plateau_step_cases k Hw scores _ s Hinv ltac:(lia)) as [[_ _ _ _ Hwi _ Hl _] Hc].
  set (p := plateau_run k scores) in *. set (p' := plateau_step p s) in *.
  unfold best_of, since_of in *. destruct (d_best_score p.1) as [b|] eqn:Hb;
    [destruct (improves (k_epsilon_s k) b s) eqn:Himp|].
  - destruct Hc as (Hbest & Hs & _). exists scores, s, []. rewrite Hs in *.
    split_and!; auto. right. exists b. split; [exact Hb|done].
  - destruct Hc as (Hbest & Hs & _).
    destruct IH as (pre & x & suf & Heq & Hx & Hsuf & Hpre & Hn & _); [lia|by intros ->|].
    assert (x = b) as -> by congruence. exists pre, b, (suf ++ [s]).
    assert (N.of_nat (length suf) + 1 = N.of_nat (length (suf ++ [s])))%N as Hl1
      by (rewrite length_app; cbn; lia).
    rewrite Hs, Hn, Hl1 in *. split_and!; auto.
    + by rewrite Heq, <- app_assoc.
    + apply Forall_app. split; [done|]. by repeat constructor.
  - destruct (pi_best _ _ _ Hinv Hb) as [-> _]. destruct Hc as (Hbest & Hs & _).
    exists [], s, []. rewrite Hs in *. split_and!; auto.
Qed.

(** The feature-map version counts the plateaus that reach the last
    level: an observation bumps it (saturating) exactly when it completes
    the fourth window since the last improvement and the cap allows level
    4, and leaves it alone otherwise; an improvement drops the level to 0. *)
Theorem plateau_version_counts_l4 (k : PlateauKnobs) (scores : list Score) (s : Score) :
  (0 < k_window_n k)%N -> (N.of_nat (length scores) < u64_max)%N ->
  let p := plateau_run k scores in
  let p' := plateau_run k (scores ++ [s]) in
  (el_feature_map_version p'.2 =
     if decide (k_max_level (k_ladder k) = L4 /\
                d_observations_since_improvement p'.1 = 4 * k_window_n k)%N
     then saturating_add u32_max (el_feature_map_version p.2) 1
     else el_feature_map_version p.2) /\
  (d_observations_since_improvement p'.1 = 0%N -> el_level p'.2 = L0).
Proof.
  intros Hw Hlen. cbv zeta. rewrite plateau_run_snoc.
  pose proof (plateau_run_inv k Hw scores ltac:(lia)) as Hinv.
  destruct (plateau_step_cases k Hw scores _ s Hinv ltac:(lia)) as [Hinv' Hc].
  set (p := plateau_run k scores) in *. set (p' := plateau_step p s) in *.
  pose proof (pi_level _ _ _ Hinv) as Hl. pose proof (pi_level _ _ _ Hinv') as Hl'.
  unfold best_of, since_of in *. destruct (d_best_score p.1) as [b|] eqn:Hb;
    [destruct (improves (k_epsilon_s k) b s) eqn:Himp|].
  1, 3: destruct Hc as (Hbest & Hs & Hlev & Hv); (split; [|done]);
    rewrite Hv, decide_False; [done|]; rewrite Hs; lia.
  destruct Hc as (Hbest & Hs & Hv). split; [|lia]. rewrite Hv.
  set (n := d_observations_since_improvement p.1) in *. rewrite Hs in *. unfold includes.
  cbn [level_get]. pose proof (level_get_bound (k_max_level (k_ladder k))) as Hmb.
  assert (forall m, 4 <= m / k_window_n k <-> 4 * k_window_n k <= m)%N as Hd4.
  { intros m. split; intros H.
    - pose proof (N.Div0.mul_div_le m (k_window_n k)). nia.
    - apply N.div_le_lower_bound; lia. }
  pose proof (Hd4 n) as Hn. pose proof (Hd4 (n + 1)%N) as Hn1. clear Hd4.
  revert Hl Hl' Hn Hn1. generalize (n / k_window_n k)%N ((n + 1) / k_window_n k)%N.
  intros q q' Hl Hl' Hn Hn1.
  destruct (decide (k_max_level (k_ladder k) = L4)) as [Hm|Hm].
  - rewrite Hm in *. cbn [level_get] in *.
    destruct (N.leb_spec 4 (level_get (el_level p.2))), (N.leb_spec 4 (level_get (el_level p'.2)));
      case_decide as Hd; try done; exfalso; (destruct Hd as [_ Hd] || apply not_and_l in Hd as [Hd|Hd]);
      try done; lia.
  - assert (level_get (k_max_level (k_ladder k)) <> 4)%N
      by (intros E; apply Hm, level_get_inj, E).
    rewrite decide_False by tauto.
    destruct (N.leb_spec 4 (level_get (el_level p.2))), (N.leb_spec 4 (level_get (el_level p'.2)));
      try done; exfalso; lia.
Qed.

(** What a level switches on: the snapshot carries the configured burst
    factor from level 1, the temperature factor from level 2, the backtrack
    override from level 3 and the rebin request, with the current version,
    at level 4; below, the neutral value.  The ladder never exceeds its cap
    and never drops without an improvement, whatever observation arrives. *)
Theorem ladder_snapshot_thresholds (l : EscalationLadder) (o : StallObservation) :
  (level_get (el_level l) <= level_get (k_max_level (el_knobs l)))%N ->
  let r := apply_stall_observation o l in
  let n := level_get (el_level r.2) in
  es_level r.1 = el_level r.2 /\
  (n <= level_get (k_max_level (el_knobs l)))%N /\
  (so_improved o = false -> level_get (el_level l) <= n)%N /\
  (so_improved o = true -> n = 0)%N /\
  es_burst_len_factor r.1 = (if (1 <=? n)%N then k_burst_len_factor (el_knobs l) else f64_one) /\
  es_temp_factor r.1 = (if (2 <=? n)%N then k_temp_factor (el_knobs l) else f64_one) /\
  (is_Some (es_l3_override r.1) <-> 3 <= n)%N /\
  (forall rb, es_l4_rebin r.1 = Some rb <-> n = 4%N /\
     rb = mkL4Rebin (el_feature_map_version r.2) (k_radius_factor (el_knobs l))).
Proof.
  intros Hcap. cbv zeta.
  assert (exists l', apply_stall_observation o l = (snapshot l', l') /\ el_knobs l' = el_knobs l /\
    (level_get (el_level l') <= level_get (k_max_level (el_knobs l)))%N /\
    (so_improved o = false -> level_get (el_level l) <= level_get (el_level l'))%N /\
    (so_improved o = true -> level_get (el_level l') = 0)%N) as (l' & -> & Hk & H1 & H2 & H3).
  { unfold apply_stall_observation. destruct (so_improved o); [|destruct (so_completed_new_window o)];
      eexists; (split; [reflexivity|]); (split; [done|]); rewrite ?set_completed_level; cbn;
      split_and!; try done; lia. }
  cbn [fst snd]. unfold snapshot, includes. rewrite Hk.
  cbn [es_level es_burst_len_factor es_temp_factor es_l3_override es_l4_rebin level_get].
  pose proof (level_get_bound (el_level l')) as Hb. split_and!; auto.
  - destruct (N.leb_spec 3 (level_get (el_level l'))); split; try done; try lia.
  - intros rb. destruct (N.leb_spec 4 (level_get (el_level l'))); split.
    + intros [= <-]. split; [lia|done].
    + intros [_ ->]. done.
    + done.
    + lia.
Qed.

(** ** Witnesses *)

Definition sample_knobs : PlateauKnobs :=
  mkPlateauKnobs 2 f64_zero (from_ladder_config LadderConfig_default).
Definition sample_one : Score := mkFinite f64_one eq_refl.
Definition sample_scores : list Score := replicate 8 sample_one.

Lemma plateau_level_law_witness :
  exists x, d_best_score (plateau_run sample_knobs sample_scores).1 = Some x /\  level_get (el_level (plateau_run sample_knobs sample_scores).2) = 3%N.
Proof.
  destruct (plateau_level_law sample_knobs sample_scores) as (pre & x & suf & Heq & Hx & _);
    [reflexivity|vm_compute; discriminate|discriminate|].
  exists x. split; [exact Hx|vm_compute; reflexivity].
Defined.

Lemma plateau_version_counts_l4_witness :
  el_feature_map_version (plateau_run sample_knobs (sample_scores ++ [sample_one])).2 = 1%N.
Proof.
  destruct (plateau_version_counts_l4 sample_knobs sample_scores sample_one) as [H _];
    [reflexivity|vm_compute; reflexivity|].
  rewrite H. rewrite decide_True; [vm_compute; reflexivity|].
  split; [reflexivity|vm_compute; reflexivity].
Defined.

Lemma ladder_snapshot_thresholds_witness :
  let l := EscalationLadder_restore (from_ladder_config LadderConfig_default) L3 7 in
  let o := mkStallObservation 9 sample_one sample_one false 8 4 true true in
  es_l4_rebin (apply_stall_observation o l).1 = Some (mkL4Rebin 8 f64_2).
Proof.
  cbv zeta.
  destruct (ladder_snapshot_thresholds
    (EscalationLadder_restore (from_ladder_config LadderConfig_default) L3 7)
    (mkStallObservation 9 sample_one sample_one false 8 4 true true)) as (_ & _ & _ & _ & _ & _ & _ & H).
  - vm_compute. discriminate.
  - apply H. split; vm_compute; reflexivity.
Defined.
