(* ===== verification/Rng.v ===== *)
(** Deterministic random streams (crates/orch-core/src/rng.rs).  The stream
    cipher (rand_chacha) and the hash (blake3) are third-party code: they are
    the interfaces [ChaCha12] and [Blake3] below, with the documented ranges
    of their results as laws.  The module derives every seed from a hash
    input; the theorems show that no two streams share a hash input. *)
From S2P Require Import Prelude Float64 Types.
Local Open Scope string_scope.
Local Open Scope list_scope.

Definition STREAM_SEED_LEN : nat := 32.

(** ** Interfaces of the third-party crates *)

(** [blake3 m] is the digest, 32 bytes, after hashing the bytes [m], in any
    number of [update] calls. *)
Class Blake3 := {
  blake3 : list N -> list N;
  blake3_length : forall m, length (blake3 m) = STREAM_SEED_LEN;
  blake3_bytes : forall m, Forall (fun b => b < 256)%N (blake3 m)
}.

Class ChaCha12 := {
  ChaCha12Rng : Type;
  chacha_from_seed : list N -> ChaCha12Rng;
  chacha_next_u32 : ChaCha12Rng -> N * ChaCha12Rng;
  chacha_next_u64 : ChaCha12Rng -> N * ChaCha12Rng;
  chacha_u32_bound : forall g, ((chacha_next_u32 g).1 <= u32_max)%N;
  chacha_u64_bound : forall g, ((chacha_next_u64 g).1 <= u64_max)%N
}.

(** ** Bytes *)

(** [to_le_bytes] of an [n]-byte integer. *)
Fixpoint le_bytes (n : nat) (v : N) : list N :=
  match n with
  | O => []
  | S n' => (v mod 256)%N :: le_bytes n' (v / 256)
  end.

Definition bytes_of_string (s : string) : list N := Ascii.N_of_ascii <$> String.list_ascii_of_string s.

Lemma le_bytes_length n v : length (le_bytes n v) = n.
Proof. revert v. induction n as [|n IH]; intros v; cbn; [done|]. by rewrite IH. Qed.

Lemma le_bytes_inj n v w : (v < 256 ^ N.of_nat n)%N -> (w < 256 ^ N.of_nat n)%N ->
  le_bytes n v = le_bytes n w -> v = w.
Proof.
  revert v w. induction n as [|n IH]; intros v w Hv Hw; [cbn in *; lia|].
  rewrite Nat2N.inj_succ, N.pow_succ_r' in Hv, Hw. cbn [le_bytes]. intros [= Hm Hd].
  apply IH in Hd; [|apply N.Div0.div_lt_upper_bound; lia..].
  rewrite (N.div_mod' v 256), (N.div_mod' w 256). lia.
Qed.

Lemma le_bytes_u64_inj v w : (v <= u64_max)%N -> (w <= u64_max)%N ->
  le_bytes 8 v = le_bytes 8 w -> v = w.
Proof. intros Hv Hw. apply le_bytes_inj; unfold u64_max in *; cbn; lia. Qed.

Lemma le_bytes_u32_inj v w : (v <= u32_max)%N -> (w <= u32_max)%N ->
  le_bytes 4 v = le_bytes 4 w -> v = w.
Proof. intros Hv Hw. apply le_bytes_inj; unfold u32_max in *; cbn; lia. Qed.

(** ** Purposes and streams *)

Inductive RngPurpose := Selection | Synth | Misc | Boot | Entropy.

Global Instance RngPurpose_eq_dec : EqDecision RngPurpose.
Proof. solve_decision. Defined.

Definition tag (p : RngPurpose) : list N :=
  bytes_of_string
    match p with
    | Selection => "selection"
    | Synth => "synth"
    | Misc => "misc"
    | Boot => "boot"
    | Entropy => "entropy"
    end.

Record StreamSpec := mkStreamSpec {
  spec_seed : N;
  spec_purpose : RngPurpose;
  spec_batch_seq : N
}.

(** What [derive_stream_seed] feeds the hasher. *)
Definition stream_preimage (seed : N) (purpose : RngPurpose) (batch_seq : N) : list N :=
  le_bytes 8 seed ++ tag purpose ++ le_bytes 8 batch_seq.

Section Rng.
Context `{Blake3, ChaCha12}.

Definition derive_stream_seed (seed : N) (purpose : RngPurpose) (batch_seq : N) : list N :=
  blake3 (stream_preimage seed purpose batch_seq).

Record DeterministicRng := mkDeterministicRng {
  rng_spec : StreamSpec;
  rng_inner : ChaCha12Rng;
  rng_draws : N
}.

Definition from_spec (spec : StreamSpec) : DeterministicRng :=
  mkDeterministicRng spec
    (chacha_from_seed (derive_stream_seed (spec_seed spec) (spec_purpose spec) (spec_batch_seq spec))) 0.
Definition Rng_new (seed : N) (purpose : RngPurpose) (batch_seq : N) : DeterministicRng :=
  from_spec (mkStreamSpec seed purpose batch_seq).
Definition rng_selection (seed batch_seq : N) : DeterministicRng := Rng_new seed Selection batch_seq.
Definition rng_synth (seed batch_seq : N) : DeterministicRng := Rng_new seed Synth batch_seq.
Definition rng_misc (seed batch_seq : N) : DeterministicRng := Rng_new seed Misc batch_seq.

(** Counting a draw panics on overflow. *)
Definition bump_draws {E} : st DeterministicRng E unit := fun r =>
  match checked_add u64_max (rng_draws r) 1 with
  | Some draws => (Ok tt, mkDeterministicRng (rng_spec r) (rng_inner r) draws)
  | None => (Panic, r)
  end.

Definition draw {E} (f : ChaCha12Rng -> N * ChaCha12Rng) : st DeterministicRng E N := fun r =>
  let '(value, inner) := f (rng_inner r) in
  (_ ← bump_draws; mret value) (mkDeterministicRng (rng_spec r) inner (rng_draws r)).

Definition next_u32 {E} : st DeterministicRng E N := draw chacha_next_u32.
Definition next_u64 {E} : st DeterministicRng E N := draw chacha_next_u64.

(** [1.0 / ((1u64 << 53) as f64)] *)
Definition SCALE : f64 := f64_div f64_one (f64_of_N (N.shiftl 1 53)).

Definition next_unit_f64 {E} : st DeterministicRng E f64 :=
  v ← next_u64;
  mret (f64_mul (f64_of_N (N.shiftr v 11)) SCALE).

Definition derive_synth_request_seed {E} (experiment_seed batch_seq : N) : res E N :=
  (next_u64 (rng_synth experiment_seed batch_seq)).1.

Definition derive_boot_entropy_seed (experiment_seed : N) : list N :=
  derive_stream_seed experiment_seed Boot 0.

(** What [derive_job_entropy_seed] feeds the second hasher. *)
Definition job_preimage (experiment_seed batch_seq job_idx : N) : list N :=
  derive_stream_seed experiment_seed Entropy batch_seq ++ le_bytes 4 job_idx.

Definition derive_job_entropy_seed (experiment_seed batch_seq job_idx : N) : list N :=
  blake3 (job_preimage experiment_seed batch_seq job_idx).

(** ** Draws *)

Lemma draw_run {E} f (r : DeterministicRng) :
  draw (E:=E) f r =
  if decide (rng_draws r + 1 <= u64_max)%N
  then (Ok (f (rng_inner r)).1, mkDeterministicRng (rng_spec r) (f (rng_inner r)).2 (rng_draws r + 1)%N)
  else (Panic, mkDeterministicRng (rng_spec r) (f (rng_inner r)).2 (rng_draws r)).
Proof.
  unfold draw. destruct (f (rng_inner r)) as [v g] eqn:E1. rewrite st_bind_run. unfold bump_draws, checked_add.
  cbn. by case_decide.
Qed.

(** A unit draw takes one value of the stream. *)
Lemma next_unit_f64_run {E} (r : DeterministicRng) : (rng_draws r + 1 <= u64_max)%N ->
  next_unit_f64 (E:=E) r =
  (Ok (f64_mul (f64_of_N (N.shiftr (chacha_next_u64 (rng_inner r)).1 11)) SCALE),
   mkDeterministicRng (rng_spec r) (chacha_next_u64 (rng_inner r)).2 (rng_draws r + 1)%N).
Proof.
  intros Hd. unfold next_unit_f64, next_u64. rewrite st_bind_run, draw_run.
  by rewrite decide_True by done.
Qed.

Lemma next_unit_f64_cases {E} (r : DeterministicRng) :
  (exists u r', next_unit_f64 (E:=E) r = (Ok u, r') /\ rng_draws r' = (rng_draws r + 1)%N /\
     rng_spec r' = rng_spec r) \/
  (u64_max < rng_draws r + 1)%N /\ (next_unit_f64 (E:=E) r).1 = Panic.
Proof.
  destruct (decide (rng_draws r + 1 <= u64_max)%N) as [Hd|Hd].
  - left. rewrite next_unit_f64_run by done. eauto.
  - right. split; [lia|]. unfold next_unit_f64, next_u64. rewrite st_bind_run, draw_run.
    by rewrite decide_False by done.
Qed.
End Rng.

(** ** Separation of streams *)

Lemma tag_eq_length p q : length (tag p) = length (tag q) -> tag p = tag q -> p = q.
Proof. destruct p, q; cbn; done. Qed.

Lemma stream_preimage_inj s p b s' p' b' :
  (s <= u64_max)%N -> (b <= u64_max)%N -> (s' <= u64_max)%N -> (b' <= u64_max)%N ->
  stream_preimage s p b = stream_preimage s' p' b' -> s = s' /\ p = p' /\ b = b'.
Proof.
  intros Hs Hb Hs' Hb' Heq. unfold stream_preimage in Heq.
  assert (length (tag p) = length (tag p')) as Hl.
  { apply (f_equal length) in Heq. rewrite !length_app, !le_bytes_length in Heq. lia. }
  apply app_inj_1 in Heq as [H1 Heq]; [|by rewrite !le_bytes_length].
  apply app_inj_1 in Heq as [H2 H3]; [|done].
  split; [by apply le_bytes_u64_inj|]. split; [by apply tag_eq_length|by apply le_bytes_u64_inj].
Qed.

(** Streams never share a hash input: two substreams have the same
    preimage only for the same experiment seed, purpose and batch, so a
    collision of stream seeds is a collision of the hash; the job-entropy
    preimage is never the preimage of any substream, and two jobs of a batch
    have different preimages. *)
Theorem stream_seeds_separated `{Blake3} (s b s' b' : N) (p p' : RngPurpose) (j j' : N) :
  (s <= u64_max)%N -> (b <= u64_max)%N -> (s' <= u64_max)%N -> (b' <= u64_max)%N ->
  (j <= u32_max)%N -> (j' <= u32_max)%N ->
  (stream_preimage s p b = stream_preimage s' p' b' <-> s = s' /\ p = p' /\ b = b') /\
  (derive_stream_seed s p b = derive_stream_seed s' p' b' ->
     (s, p, b) = (s', p', b') \/
     exists m m', m <> m' /\ blake3 m = blake3 m') /\
  job_preimage s b j <> stream_preimage s' p' b' /\
  (job_preimage s b j = job_preimage s b j' -> j = j').
Proof.
  intros Hs Hb Hs' Hb' Hj Hj'. split_and!.
  - split; [by apply stream_preimage_inj|]. by intros (-> & -> & ->).
  - intros Heq. destruct (decide (stream_preimage s p b = stream_preimage s' p' b')) as [Hp|Hp].
    + left. by apply stream_preimage_inj in Hp as (-> & -> & ->).
    + right. by exists (stream_preimage s p b), (stream_preimage s' p' b').
  - intros Heq%(f_equal length). unfold job_preimage, derive_stream_seed, stream_preimage in Heq.
    rewrite !length_app, !le_bytes_length, blake3_length in Heq. unfold STREAM_SEED_LEN in Heq.
    destruct p'; cbn in Heq; lia.
  - intros Heq. unfold job_preimage in Heq. apply app_inv_head in Heq. by apply le_bytes_u32_inj.
Qed.

(** A concrete instance of the interfaces, to evaluate the code. *)
Definition toy_digest (m : list N) : list N := (fun b => b mod 256)%N <$> resize STREAM_SEED_LEN 0%N (reverse m).

Lemma toy_digest_length m : length (toy_digest m) = STREAM_SEED_LEN.
Proof. unfold toy_digest. by rewrite length_fmap, length_resize. Qed.

Lemma toy_digest_bytes m : Forall (fun b => b < 256)%N (toy_digest m).
Proof. apply Forall_fmap, Forall_true. intros b. cbn. by apply N.mod_lt. Qed.

Definition toy_blake3 : Blake3 :=
  {| blake3 := toy_digest; blake3_length := toy_digest_length; blake3_bytes := toy_digest_bytes |}.

Definition toy_next (modulus mult g : N) : N * N := ((g * mult mod modulus)%N, (g + 1)%N).

Lemma toy_next_bound modulus mult g : (0 < modulus)%N -> ((toy_next modulus mult g).1 <= modulus - 1)%N.
Proof. intros Hm. cbn. pose proof (N.mod_lt (g * mult) modulus). lia. Qed.

Definition toy_chacha : ChaCha12 :=
  {| ChaCha12Rng := N;
     chacha_from_seed := fun seed => foldr N.add 0%N seed;
     chacha_next_u32 := toy_next (u32_max + 1) 2654435761;
     chacha_next_u64 := toy_next (u64_max + 1) 11400714819323198485;
     chacha_u32_bound := fun g => toy_next_bound (u32_max + 1) _ g eq_refl;
     chacha_u64_bound := fun g => toy_next_bound (u64_max + 1) _ g eq_refl |}.

Lemma stream_seeds_separated_witness :
  @derive_stream_seed toy_blake3 7 Boot 0 <> @derive_stream_seed toy_blake3 7 Misc 0 /\
  stream_preimage 7 Boot 0 <> stream_preimage 7 Misc 0.
Proof.
  split; [vm_compute; discriminate|]. intros Heq.
  destruct (@stream_seeds_separated toy_blake3 7 0 7 0 Boot Misc 1 2) as [H _];
    [vm_compute; discriminate..|].
  apply H in Heq as (_ & Heq & _). discriminate Heq.
Defined.
