(* ===== verification/Policy.v ===== *)
(** Selection policies, the shared part (crates/orch-core/src/policy/mod.rs):
    candidate snapshots with their priority terms, and the interface every
    policy implements.  The logarithm, exponential and square root come from
    the [libm] crate and are a parameter. *)
From S2P Require Import Prelude Float64 Types Tree Frontier Mirror Commit Plateau Rng.
Local Open Scope string_scope.
Local Open Scope list_scope.

(** The functions of the libm crate the policies call. *)
Class Libm := {
  libm_log : f64 -> f64;
  libm_exp : f64 -> f64;
  libm_sqrt : f64 -> f64
}.

(** ** Data *)

Inductive PolicyError :=
| PolicyFrontier (error : FrontierError)
| EmptyCandidateSet
| InvalidConfig (field : string)
| InvalidWeight (field : string) (value : f64)
| NonFiniteValue (field : string) (value : f64).

Record PolicyContext := mkPolicyContext {
  ctx_tree : Tree;
  ctx_frontier : Frontier;
  ctx_mirror : CellMirror;
  ctx_plateau : PlateauKnobs;
  ctx_selection : SelectionConfig;
  ctx_backtrack : option BacktrackKnobs
}.

Definition PolicyContext_new (t : Tree) (f : Frontier) (m : CellMirror) (p : PlateauKnobs)
    (s : SelectionConfig) : PolicyContext := mkPolicyContext t f m p s None.
Definition with_backtrack (b : option BacktrackKnobs) (c : PolicyContext) : PolicyContext :=
  mkPolicyContext (ctx_tree c) (ctx_frontier c) (ctx_mirror c) (ctx_plateau c) (ctx_selection c) b.

Record SelectionChoice := mkSelectionChoice {
  selected : NodeId;
  candidate_index : N
}.

Record PriorityTerms := mkPriorityTerms {
  normalized_score : f64;
  pt_novelty : f64;
  pt_visit_penalty : f64;
  pt_depth_penalty : f64
}.

Record CandidateSnapshot := mkCandidateSnapshot {
  cd_id : NodeId;
  cd_parent : option NodeId;
  cd_depth : N;
  cd_visits : N;
  cd_children : N;
  cd_cell : CellKey;
  cd_stage : Stage;
  cd_raw_score : f64;
  cd_priority_terms : PriorityTerms;
  cd_priority : f64
}.

(** ** Validation *)

Definition ensure_finite (field : string) (value : f64) : res PolicyError unit :=
  if is_finite value then Ok tt else Err (NonFiniteValue field value).

Definition ensure_non_negative_weight (field : string) (value : f64) : res PolicyError unit :=
  if negb (is_finite value) || f64_ltb value f64_zero then Err (InvalidWeight field value) else Ok tt.

Definition validate_selection_weights (s : SelectionConfig) : res PolicyError unit :=
  _ ← mapM_res (fun '(field, value) => ensure_non_negative_weight field value)
        [("selection.alpha", alpha s); ("selection.beta", beta s); ("selection.gamma", gamma s);
         ("selection.delta", delta s); ("selection.ucb_c", ucb_c s)];
  if negb (is_finite (temperature s)) || f64_leb (temperature s) f64_zero
  then Err (InvalidWeight "selection.temperature" (temperature s))
  else if negb (is_finite (epsilon_regress (staged s)))
       || negb (f64_leb f64_zero (epsilon_regress (staged s)) && f64_leb (epsilon_regress (staged s)) f64_one)
  then Err (InvalidWeight "selection.staged.epsilon_regress" (epsilon_regress (staged s)))
  else if (max_visits_per_node s =? 0)%N then Err (InvalidConfig "selection.max_visits_per_node")
  else if (exhaust_after_dup_expansions s =? 0)%N
  then Err (InvalidConfig "selection.exhaust_after_dup_expansions")
  else if bool_decide (sel_policy s = Staged) && bool_decide (staged_inner (staged s) = Staged)
  then Err (InvalidConfig "selection.staged.inner")
  else Ok tt.

(** ** Score normalization *)

(** The loop that checks the scores and finds their range. *)
Fixpoint score_range (scores : list f64) (min max : f64) : res PolicyError (f64 * f64) :=
  match scores with
  | [] => Ok (min, max)
  | score :: scores' =>
    _ ← ensure_finite "score" score;
    score_range scores' (f64_min min score) (f64_max max score)
  end.

Definition normalize_scores_with_scale (scores : list f64) (min max : f64) : res PolicyError (list f64) :=
  let scale := f64_max (f64_abs min) (f64_abs max) in
  _ ← ensure_finite "score.scale" scale;
  if f64_eqb scale f64_zero then Ok (replicate (length scores) f64_zero)
  else
    let scaled_min := f64_div min scale in
    let scaled_max := f64_div max scale in
    let span := f64_sub scaled_max scaled_min in
    _ ← ensure_finite "score.span" span;
    if f64_eqb span f64_zero then Ok (replicate (length scores) f64_zero)
    else
      mapM_res (fun score =>
        let normalized := f64_div (f64_sub (f64_div score scale) scaled_min) span in
        _ ← ensure_finite "score.normalized" normalized;
        Ok normalized) scores.

Definition normalize_scores (scores : list f64) : res PolicyError (list f64) :=
  match scores with
  | [] => Ok []
  | _ =>
    '(min, max) ← score_range scores f64_infinity f64_neg_infinity;
    let span := f64_sub max min in
    if f64_eqb span f64_zero then Ok (replicate (length scores) f64_zero)
    else if negb (is_finite span) then normalize_scores_with_scale scores min max
    else
      mapM_res (fun score =>
        let normalized := f64_div (f64_sub score min) span in
        _ ← ensure_finite "score.normalized" normalized;
        Ok normalized) scores
  end.

(** ** Priorities *)

Section Policy.
Context `{Libm}.

Definition visit_penalty (visits : N) : res PolicyError f64 :=
  let penalty := libm_log (f64_add f64_one (f64_of_N visits)) in
  _ ← ensure_finite "priority.visit_penalty" penalty;
  Ok penalty.

Definition depth_penalty (depth : N) : res PolicyError f64 :=
  let penalty := libm_log (f64_add f64_one (f64_of_N depth)) in
  _ ← ensure_finite "priority.depth_penalty" penalty;
  Ok penalty.

Definition priority_formula (terms : PriorityTerms) (s : SelectionConfig) : f64 :=
  f64_sub (f64_sub (f64_add (f64_mul (alpha s) (normalized_score terms))
                            (f64_mul (beta s) (pt_novelty terms)))
                   (f64_mul (gamma s) (pt_visit_penalty terms)))
          (f64_mul (delta s) (pt_depth_penalty terms)).

Definition weighted_priority (terms : PriorityTerms) (s : SelectionConfig) : res PolicyError f64 :=
  _ ← validate_selection_weights s;
  _ ← ensure_finite "priority.normalized_score" (normalized_score terms);
  _ ← ensure_finite "priority.novelty" (pt_novelty terms);
  _ ← ensure_finite "priority.visit_penalty" (pt_visit_penalty terms);
  _ ← ensure_finite "priority.depth_penalty" (pt_depth_penalty terms);
  let priority := priority_formula terms s in
  _ ← ensure_finite "priority.weighted" priority;
  Ok priority.

(** The depth at the configured quantile of the candidate depths. *)
Definition backtrack_cutoff (ctx : PolicyContext) : res PolicyError (option (f64 * N)) :=
  match ctx_backtrack ctx with
  | None => Ok None
  | Some knobs =>
    match deterministic_candidates (ctx_frontier ctx) (ctx_tree ctx) with
    | Ok ids =>
      depths ← mapM_res (fun id => record ← expect (get (ctx_tree ctx) id); Ok (nr_depth record)) ids;
      let depths := sort_ids depths in
      let quantile := f64_clamp (bk_depth_quantile knobs) f64_zero f64_one in
      let rank := f64_as_unsigned u64_max
        (f64_floor (f64_mul (f64_of_N (N.of_nat (length depths - 1))) quantile)) in
      cutoff ← expect (vec_get depths rank);
      Ok (Some (bk_kappa knobs, cutoff))
    | _ => Panic
    end
  end.

Definition backtrack_bonus (cutoff : option (f64 * N)) (depth : N) (novelty priority : f64)
    : res PolicyError f64 :=
  match cutoff with
  | Some (kappa, cutoff_depth) =>
    if (depth <=? cutoff_depth)%N then
      let priority := f64_add priority (f64_mul kappa novelty) in
      _ ← ensure_finite "priority.backtrack" priority;
      Ok priority
    else Ok priority
  | None => Ok priority
  end.

(** The body of the loop over the candidates. *)
Definition candidate_snapshot (ctx : PolicyContext) (cutoff : option (f64 * N))
    (raw_scores normalized_scores : list f64) (entry : nat * NodeId) : res PolicyError CandidateSnapshot :=
  let '(index, id) := entry in
  record ← expect (get (ctx_tree ctx) id);
  let nov := novelty (ctx_mirror ctx) (nr_cell record) in
  _ ← ensure_finite "candidate.novelty" nov;
  normalized ← expect (normalized_scores !! index);
  visit ← visit_penalty (nr_visits record);
  depth ← depth_penalty (nr_depth record);
  let terms := mkPriorityTerms normalized nov visit depth in
  priority ← weighted_priority terms (ctx_selection ctx);
  priority ← backtrack_bonus cutoff (nr_depth record) nov priority;
  raw ← expect (raw_scores !! index);
  Ok (mkCandidateSnapshot id (nr_parent record) (nr_depth record) (nr_visits record)
        (nr_children record) (nr_cell record) (nr_stage record) raw terms priority).

Definition candidate_snapshots (ctx : PolicyContext) : res PolicyError (list CandidateSnapshot) :=
  _ ← validate_selection_weights (ctx_selection ctx);
  ids ← map_err PolicyFrontier (deterministic_candidates (ctx_frontier ctx) (ctx_tree ctx));
  match ids with
  | [] => Err EmptyCandidateSet
  | _ =>
    raw_scores ← mapM_res (fun id =>
      record ← expect (get (ctx_tree ctx) id); Ok (finite_get (nr_score record))) ids;
    normalized_scores ← normalize_scores raw_scores;
    cutoff ← backtrack_cutoff ctx;
    mapM_res (candidate_snapshot ctx cutoff raw_scores normalized_scores) (imap pair ids)
  end.

(** ** Facts about snapshots *)

Lemma ensure_finite_Ok field v u : ensure_finite field v = Ok u <-> is_finite v = true.
Proof. unfold ensure_finite. destruct u. by destruct (is_finite v). Qed.

Lemma ensure_finite_no_panic field v : ensure_finite field v <> Panic.
Proof. unfold ensure_finite. by destruct (is_finite v). Qed.

(** What a snapshot says of its record. *)
Record snapshot_of (ctx : PolicyContext) (cutoff : option (f64 * N)) (c : CandidateSnapshot)
    (r : NodeRecord) : Prop := {
  sn_record : get (ctx_tree ctx) (cd_id c) = Some r;
  sn_fields : (cd_parent c, cd_depth c, cd_visits c, cd_children c, cd_cell c, cd_stage c) =
    (nr_parent r, nr_depth r, nr_visits r, nr_children r, nr_cell r, nr_stage r);
  sn_novelty : pt_novelty (cd_priority_terms c) = novelty (ctx_mirror ctx) (nr_cell r);
  sn_visit : pt_visit_penalty (cd_priority_terms c) = libm_log (f64_add f64_one (f64_of_N (nr_visits r)));
  sn_depth : pt_depth_penalty (cd_priority_terms c) = libm_log (f64_add f64_one (f64_of_N (nr_depth r)));
  sn_priority : cd_priority c =
    let base := priority_formula (cd_priority_terms c) (ctx_selection ctx) in
    match cutoff with
    | Some (kappa, d) =>
      if (nr_depth r <=? d)%N then f64_add base (f64_mul kappa (novelty (ctx_mirror ctx) (nr_cell r)))
      else base
    | None => base
    end;
  sn_finite : is_finite (cd_priority c) = true
}.

Lemma weighted_priority_Ok terms s p : weighted_priority terms s = Ok p ->
  p = priority_formula terms s /\ is_finite p = true.
Proof.
  unfold weighted_priority.
  intros (? & _ & (? & _ & (? & _ & (? & _ & (? & _ & (? & Hf & [= <-])%bind_Ok)%bind_Ok)%bind_Ok)%bind_Ok)%bind_Ok)%bind_Ok.
  split; [done|]. by apply ensure_finite_Ok in Hf.
Qed.

Lemma candidate_snapshot_Ok ctx cutoff raw norm i id c :
  candidate_snapshot ctx cutoff raw norm (i, id) = Ok c ->
  cd_id c = id /\ raw !! i = Some (cd_raw_score c) /\
  norm !! i = Some (normalized_score (cd_priority_terms c)) /\
  exists r, snapshot_of ctx cutoff c r.
Proof.
  unfold candidate_snapshot, visit_penalty, depth_penalty.
  intros (r & Hr%expect_Ok & (? & Hnov & (n & Hn%expect_Ok & (v & Hv & (d & Hd & (p & Hp & (q & Hq & (w &
    Hw%expect_Ok & [= <-])%bind_Ok)%bind_Ok)%bind_Ok)%bind_Ok)%bind_Ok)%bind_Ok)%bind_Ok)%bind_Ok.
  apply bind_Ok in Hv as (? & _ & [= <-]). apply bind_Ok in Hd as (? & _ & [= <-]).
  apply weighted_priority_Ok in Hp as [-> Hf]. split_and!; [done|done|done|].
  exists r. unfold backtrack_bonus in Hq.
  assert (q = match cutoff with
    | Some (kappa, dd) => if (nr_depth r <=? dd)%N
        then f64_add (priority_formula (mkPriorityTerms n (novelty (ctx_mirror ctx) (nr_cell r))
               (libm_log (f64_add f64_one (f64_of_N (nr_visits r))))
               (libm_log (f64_add f64_one (f64_of_N (nr_depth r))))) (ctx_selection ctx))
             (f64_mul kappa (novelty (ctx_mirror ctx) (nr_cell r)))
        else priority_formula (mkPriorityTerms n (novelty (ctx_mirror ctx) (nr_cell r))
               (libm_log (f64_add f64_one (f64_of_N (nr_visits r))))
               (libm_log (f64_add f64_one (f64_of_N (nr_depth r))))) (ctx_selection ctx)
    | None => priority_formula (mkPriorityTerms n (novelty (ctx_mirror ctx) (nr_cell r))
               (libm_log (f64_add f64_one (f64_of_N (nr_visits r))))
               (libm_log (f64_add f64_one (f64_of_N (nr_depth r))))) (ctx_selection ctx)
    end /\ is_finite q = true) as [Hqe Hqf].
  { destruct cutoff as [[kappa dd]|]; [destruct (_ <=? _)%N|]; [|injection Hq as <-; by split..].
    apply bind_Ok in Hq as (? & Hfin & [= <-]). split; [done|]. by apply ensure_finite_Ok in Hfin. }
  by split.
Qed.

Lemma ids_imap_pair {A} (l : list A) (i : nat) x : imap pair l !! i = Some x <->
  x.1 = i /\ l !! i = Some x.2.
Proof.
  rewrite list_lookup_imap. destruct (l !! i) as [a|]; cbn; destruct x as [j b]; cbn; naive_solver.
Qed.

(** The list as a whole. *)
Lemma candidate_snapshots_Ok ctx l : candidate_snapshots ctx = Ok l ->
  exists cutoff norm,
    deterministic_candidates (ctx_frontier ctx) (ctx_tree ctx) = Ok (cd_id <$> l) /\ l <> [] /\
    validate_selection_weights (ctx_selection ctx) = Ok tt /\
    backtrack_cutoff ctx = Ok cutoff /\ normalize_scores (cd_raw_score <$> l) = Ok norm /\
    Forall (fun c => exists r, snapshot_of ctx cutoff c r /\ cd_raw_score c = finite_get (nr_score r)) l /\
    forall i c, l !! i = Some c -> norm !! i = Some (normalized_score (cd_priority_terms c)).
Proof.
  unfold candidate_snapshots.
  intros ([] & Hv & (ids & Hids%map_err_Ok & Hrest)%bind_Ok)%bind_Ok.
  assert (ids <> [] /\ exists raw norm cutoff,
    mapM_res (E:=PolicyError) (fun id => record ← expect (get (ctx_tree ctx) id);
      Ok (finite_get (nr_score record))) ids = Ok raw /\
    normalize_scores raw = Ok norm /\ backtrack_cutoff ctx = Ok cutoff /\
    mapM_res (candidate_snapshot ctx cutoff raw norm) (imap pair ids) = Ok l)
    as (Hne & raw & norm & cutoff & Hraw & Hnorm & Hcut & Hl).
  { destruct ids as [|id0 ids0]; [done|]. split; [done|].
    apply bind_Ok in Hrest as (raw & Hraw & (norm & Hnorm & (cutoff & Hcut & Hl)%bind_Ok)%bind_Ok).
    by exists raw, norm, cutoff. }
  clear Hrest. apply mapM_res_Ok in Hraw, Hl.
  assert (forall i c, l !! i = Some c -> exists id, ids !! i = Some id /\ cd_id c = id /\
    raw !! i = Some (cd_raw_score c) /\ norm !! i = Some (normalized_score (cd_priority_terms c)) /\
    exists r, snapshot_of ctx cutoff c r) as Hat.
  { intros i c Hc. destruct (Forall2_lookup_r _ _ _ _ _ Hl Hc) as ([j id] & Hx%ids_imap_pair & Hs).
    cbn in Hx. destruct Hx as [-> Hid]. apply candidate_snapshot_Ok in Hs as (? & ? & ? & ?). by exists id. }
  assert (length l = length ids) as Hlen.
  { apply Forall2_length in Hl. by rewrite length_imap in Hl. }
  assert (cd_id <$> l = ids) as Hidl.
  { apply (list_eq_same_length _ _ (length ids)); [done|by rewrite length_fmap|].
    intros i x y _ Hx Hy. apply list_lookup_fmap_Some in Hx as (c & -> & Hc).
    destruct (Hat _ _ Hc) as (id & Hid & <- & _). congruence. }
  assert (cd_raw_score <$> l = raw) as Hrawl.
  { apply (list_eq_same_length _ _ (length ids)); [|by rewrite length_fmap|].
    - by apply Forall2_length in Hraw.
    - intros i x y _ Hx Hy. apply list_lookup_fmap_Some in Hx as (c & -> & Hc).
      destruct (Hat _ _ Hc) as (id & Hid & _ & Hr & _). congruence. }
  exists cutoff, norm. rewrite Hidl, Hrawl. split_and!; auto.
  - intros ->. destruct ids; [done|]. cbn in Hlen. lia.
  - apply Forall_lookup. intros i c Hc. destruct (Hat _ _ Hc) as (id & Hid & Hcid & Hr & _ & r & Hs).
    exists r. split; [done|]. destruct (Forall2_lookup_l _ _ _ _ _ Hraw Hid) as (x & Hx & Hg).
    pose proof (sn_record _ _ _ _ Hs) as Hrec. rewrite Hcid in Hrec. rewrite Hrec in Hg. cbn in Hg.
    congruence.
  - intros i c Hc. destruct (Hat _ _ Hc) as (id & Hid & _ & _ & Hn & _). done.
Qed.

(** ** No panics *)

Lemma validate_selection_weights_no_panic s : validate_selection_weights s <> Panic.
Proof.
  unfold validate_selection_weights.
  match goal with |- (?m ≫= _) <> _ => assert (m <> Panic) as Hm; [|destruct m; [|done|done]] end.
  { apply mapM_res_no_panic. intros [f v] _. unfold ensure_non_negative_weight. by case_match. }
  cbn. by repeat case_match.
Qed.

Lemma score_range_no_panic scores min max : score_range scores min max <> Panic.
Proof.
  revert min max. induction scores as [|x xs IH]; intros min max; cbn; [done|].
  unfold ensure_finite. destruct (is_finite x); cbn; [apply IH|done].
Qed.

Lemma ensure_bind_no_panic {A} field v (k : unit -> res PolicyError A) :
  k tt <> Panic -> (ensure_finite field v ≫= k) <> Panic.
Proof. unfold ensure_finite. by destruct (is_finite v). Qed.

Lemma normalize_scores_no_panic scores : normalize_scores scores <> Panic.
Proof.
  unfold normalize_scores. destruct scores as [|x xs]; [done|].
  pose proof (score_range_no_panic (x :: xs) f64_infinity f64_neg_infinity) as Hn.
  destruct (score_range _ _ _) as [[min max]|e|]; [|done|done]. cbn [mbind res_bind].
  destruct (f64_eqb _ _); [done|]. destruct (negb _).
  - apply ensure_bind_no_panic. destruct (f64_eqb _ _); [done|].
    apply ensure_bind_no_panic. destruct (f64_eqb _ _); [done|].
    apply mapM_res_no_panic. intros y _. by apply ensure_bind_no_panic.
  - apply mapM_res_no_panic. intros y _. by apply ensure_bind_no_panic.
Qed.

Lemma normalize_scores_length scores l : normalize_scores scores = Ok l -> length l = length scores.
Proof.
  unfold normalize_scores. destruct scores as [|x xs]; [by intros [= <-]|].
  intros ([min max] & _ & Hrest)%bind_Ok.
  destruct (f64_eqb _ _); [injection Hrest as <-; cbn; by rewrite length_replicate|].
  destruct (negb _); [|by apply mapM_res_length in Hrest].
  apply bind_Ok in Hrest as (? & _ & Hrest).
  destruct (f64_eqb _ _); [injection Hrest as <-; cbn; by rewrite length_replicate|].
  apply bind_Ok in Hrest as (? & _ & Hrest).
  destruct (f64_eqb _ _); [injection Hrest as <-; cbn; by rewrite length_replicate|].
  by apply mapM_res_length in Hrest.
Qed.

(** Candidates returned by the frontier are nodes of the tree. *)
Lemma deterministic_candidates_in_tree f t ids id : deterministic_candidates f t = Ok ids ->
  id ∈ ids -> is_candidate t id /\ id ∈ members f.
Proof.
  unfold deterministic_candidates. intros (l & Hl & [= <-])%bind_Ok Hin.
  rewrite sort_ids_perm in Hin. rewrite elem_of_members. revert l Hl Hin.
  induction (entries f) as [|x xs IH]; intros l; cbn [collect_candidates].
  { intros [= <-] Hin. by apply elem_of_nil in Hin. }
  intros (r & Hr%ok_or_Ok & (rest & Hrest & [= <-])%bind_Ok)%bind_Ok Hin.
  destruct (is_frontier_candidate r) eqn:Hc; [apply elem_of_cons in Hin as [->|Hin]|].
  - split; [by exists r|left].
  - destruct (IH _ Hrest Hin). split; [done|by right].
  - destruct (IH _ Hrest Hin). split; [done|by right].
Qed.

Lemma candidate_snapshot_no_panic ctx cutoff raw norm i id :
  is_Some (get (ctx_tree ctx) id) -> is_Some (raw !! i) -> is_Some (norm !! i) ->
  candidate_snapshot ctx cutoff raw norm (i, id) <> Panic.
Proof.
  intros [r Hr] [x Hx] [y Hy]. unfold candidate_snapshot. rewrite Hr, Hx, Hy. cbn [expect mbind res_bind].
  apply ensure_bind_no_panic.
  apply bind_no_panic; [by apply ensure_bind_no_panic|intros visit _].
  apply bind_no_panic; [by apply ensure_bind_no_panic|intros depth _].
  apply bind_no_panic; [|intros p _; apply bind_no_panic; [|done]].
  - apply bind_no_panic; [apply validate_selection_weights_no_panic|intros _ _].
    by repeat apply ensure_bind_no_panic.
  - unfold backtrack_bonus. destruct cutoff as [[kappa d]|]; [|done].
    destruct (_ <=? _)%N; [|done]. by apply ensure_bind_no_panic.
Qed.

(** ** The empty candidate set *)

(** Computations that never report an empty candidate set. *)
Definition not_empty_error {A} (r : res PolicyError A) : Prop := r <> Err EmptyCandidateSet.

Lemma not_empty_bind {A B} (m : res PolicyError A) (k : A -> res PolicyError B) :
  not_empty_error m -> (forall a, m = Ok a -> not_empty_error (k a)) -> not_empty_error (m ≫= k).
Proof. unfold not_empty_error. destruct m; cbn; auto. congruence. Qed.

Lemma not_empty_ensure field v : not_empty_error (ensure_finite field v).
Proof. unfold not_empty_error, ensure_finite. by destruct (is_finite v). Qed.

Lemma not_empty_mapM {A B} (f : A -> res PolicyError B) xs :
  (forall x, not_empty_error (f x)) -> not_empty_error (mapM_res f xs).
Proof.
  intros Hf. induction xs as [|x xs IH]; cbn; [done|].
  apply not_empty_bind; [apply Hf|intros b _]. by apply not_empty_bind.
Qed.

Lemma not_empty_expect {A} (o : option A) : not_empty_error (expect o).
Proof. by destruct o. Qed.

Lemma not_empty_weights s : not_empty_error (validate_selection_weights s).
Proof.
  apply not_empty_bind.
  - apply not_empty_mapM. intros [f v]. unfold not_empty_error, ensure_non_negative_weight. by case_match.
  - intros _ _. unfold not_empty_error. by repeat case_match.
Qed.

#[local] Hint Resolve not_empty_bind not_empty_ensure not_empty_mapM not_empty_expect not_empty_weights : orch.

Lemma not_empty_normalize scores : not_empty_error (normalize_scores scores).
Proof.
  assert (forall l min max, not_empty_error (score_range l min max)) as Hr.
  { intros l. induction l as [|x xs IH]; intros min max; [done|]. cbn [score_range]. eauto with orch. }
  unfold normalize_scores. destruct scores as [|x xs]; [done|].
  apply not_empty_bind; [apply Hr|intros [min max] _]. destruct (f64_eqb _ _); [done|]. destruct (negb _).
  - apply not_empty_bind; [apply not_empty_ensure|intros _ _]. destruct (f64_eqb _ _); [done|].
    apply not_empty_bind; [apply not_empty_ensure|intros _ _]. destruct (f64_eqb _ _); [done|].
    apply not_empty_mapM. intros y. by apply not_empty_bind; [apply not_empty_ensure|].
  - apply not_empty_mapM. intros y. by apply not_empty_bind; [apply not_empty_ensure|].
Qed.

Lemma not_empty_cutoff ctx : not_empty_error (backtrack_cutoff ctx).
Proof.
  unfold backtrack_cutoff. destruct (ctx_backtrack ctx); [|done].
  destruct (deterministic_candidates _ _); [|done|done].
  apply not_empty_bind; [apply not_empty_mapM; intros id|intros d _].
  - by apply not_empty_bind; [apply not_empty_expect|].
  - by apply not_empty_bind; [apply not_empty_expect|].
Qed.

Lemma not_empty_snapshot ctx cutoff raw norm e : not_empty_error (candidate_snapshot ctx cutoff raw norm e).
Proof.
  destruct e as [i id]. unfold candidate_snapshot.
  apply not_empty_bind; [apply not_empty_expect|intros r _].
  apply not_empty_bind; [apply not_empty_ensure|intros _ _].
  apply not_empty_bind; [apply not_empty_expect|intros n _].
  apply not_empty_bind; [by apply not_empty_bind; [apply not_empty_ensure|]|intros v _].
  apply not_empty_bind; [by apply not_empty_bind; [apply not_empty_ensure|]|intros d _].
  apply not_empty_bind.
  { apply not_empty_bind; [apply not_empty_weights|intros _ _].
    by repeat (apply not_empty_bind; [apply not_empty_ensure|intros _ _]). }
  intros p _. apply not_empty_bind.
  { unfold backtrack_bonus. destruct cutoff as [[kappa cd]|]; [|done]. destruct (_ <=? _)%N; [|done].
    by apply not_empty_bind; [apply not_empty_ensure|]. }
  intros q _. by apply not_empty_bind; [apply not_empty_expect|].
Qed.

(** The list is reported empty exactly when the frontier has no open node. *)
Lemma candidate_snapshots_empty ctx : candidate_snapshots ctx = Err EmptyCandidateSet <->
  validate_selection_weights (ctx_selection ctx) = Ok tt /\
  deterministic_candidates (ctx_frontier ctx) (ctx_tree ctx) = Ok [].
Proof.
  unfold candidate_snapshots. split.
  - pose proof (not_empty_weights (ctx_selection ctx)) as Hw.
    destruct (validate_selection_weights _) as [[]|e|]; [|by intros [= ->]|done]. cbn [mbind res_bind].
    destruct (deterministic_candidates _ _) as [ids|e|]; [|done|done]. cbn [map_err mbind res_bind].
    destruct ids as [|id ids]; [done|]. intros Hx. exfalso. revert Hx.
    change (not_empty_error (mapM_res (fun id => record ← expect (get (ctx_tree ctx) id);
      Ok (finite_get (nr_score record))) (id :: ids) ≫= fun raw_scores =>
      normalize_scores raw_scores ≫= fun normalized_scores => backtrack_cutoff ctx ≫= fun cutoff =>
      mapM_res (candidate_snapshot ctx cutoff raw_scores normalized_scores) (imap pair (id :: ids)))).
    apply not_empty_bind.
    { apply not_empty_mapM. intros x. by apply not_empty_bind; [apply not_empty_expect|]. }
    intros raw _. apply not_empty_bind; [apply not_empty_normalize|intros norm _].
    apply not_empty_bind; [apply not_empty_cutoff|intros cut _].
    apply not_empty_mapM. intros e. apply not_empty_snapshot.
  - intros [Hv Hd]. by rewrite Hv, Hd.
Qed.

(** Without the backtrack override the listing never panics, whatever the
    frontier and the tree are. *)
Lemma candidate_snapshots_no_panic ctx : ctx_backtrack ctx = None -> candidate_snapshots ctx <> Panic.
Proof.
  intros Hb. unfold candidate_snapshots.
  pose proof (validate_selection_weights_no_panic (ctx_selection ctx)) as Hv.
  destruct (validate_selection_weights _); [|done|done]. cbn [mbind res_bind].
  destruct (deterministic_candidates (ctx_frontier ctx) (ctx_tree ctx)) as [ids|e|] eqn:Hids;
    [|done|].
  2: { exfalso. unfold deterministic_candidates in Hids. revert Hids.
    induction (entries (ctx_frontier ctx)) as [|x xs IH]; cbn; [done|].
    destruct (get (ctx_tree ctx) x); cbn; [|done].
    destruct (collect_candidates (ctx_tree ctx) xs); done. }
  cbn [map_err mbind res_bind].
  assert (forall id, id ∈ ids -> is_Some (get (ctx_tree ctx) id)) as Hin.
  { intros id Hid. destruct (deterministic_candidates_in_tree _ _ _ _ Hids Hid) as [(r & Hr & _) _]. eauto. }
  assert (mapM_res (E:=PolicyError) (fun id => record ← expect (get (ctx_tree ctx) id);
    Ok (finite_get (nr_score record))) ids <> Panic) as Hraw.
  { apply mapM_res_no_panic. intros id Hid. by destruct (Hin id Hid) as [r ->]. }
  destruct ids as [|id0 ids0]; [done|]. set (ids := id0 :: ids0) in *.
  destruct (mapM_res _ ids) as [raw|e|] eqn:Er; [|done|done]. cbn [mbind res_bind].
  pose proof (normalize_scores_no_panic raw) as Hn.
  destruct (normalize_scores raw) as [norm|e|] eqn:En; [|done|done]. cbn [mbind res_bind].
  unfold backtrack_cutoff. rewrite Hb. cbn [mbind res_bind].
  apply mapM_res_no_panic. intros [i id] Hx. apply list_elem_of_lookup in Hx as [j Hj].
  apply ids_imap_pair in Hj as [<- Hid]. cbn [fst snd] in *. apply mapM_res_length in Er.
  apply normalize_scores_length in En. apply lookup_lt_Some in Hid as Hlt.
  apply candidate_snapshot_no_panic.
  - apply Hin. by eapply list_elem_of_lookup_2.
  - apply lookup_lt_is_Some. lia.
  - apply lookup_lt_is_Some. lia.
Qed.
End Policy.

(** An accepted selection section passes the policies' own checks. *)
Lemma config_weights_valid c : config_valid c -> validate_selection_weights (selection c) = Ok tt.
Proof.
  intros Hc. pose proof (cv_weights _ Hc) as Hw. pose proof (cv_unit _ Hc) as Hu.
  pose proof (cv_temperature _ Hc) as Ht. pose proof (cv_visits _ Hc). pose proof (cv_dup _ Hc).
  pose proof (cv_inner _ Hc) as Hi.
  assert (forall field v, finite_non_negative v = true -> ensure_non_negative_weight field v = Ok tt) as Hnn.
  { intros field v Hv. unfold finite_non_negative in Hv. apply andb_true_iff in Hv as [Hf Hle].
    unfold ensure_non_negative_weight. rewrite Hf. cbn [negb orb].
    change (f64_leb f64_zero v = true) in Hle.
    rewrite f64_leb_negb_ltb in Hle by (done || by apply is_finite_not_nan).
    apply negb_true_iff in Hle. by rewrite Hle. }
  repeat match goal with Hx : Forall _ (_ :: _) |- _ => inversion_clear Hx end.
  unfold validate_selection_weights. cbn [mapM_res mbind res_bind].
  rewrite !Hnn by done. cbn [mbind res_bind].
  unfold finite_positive in Ht. apply andb_true_iff in Ht as [Htf Htp].
  rewrite Htf. cbn [negb orb]. change (f64_ltb f64_zero (temperature (selection c)) = true) in Htp.
  replace (f64_leb (temperature (selection c)) f64_zero) with false.
  2: { rewrite f64_leb_negb_ltb by (done || by apply is_finite_not_nan). by rewrite Htp. }
  match goal with Hx : finite_unit_interval (epsilon_regress _) = true |- _ =>
    unfold finite_unit_interval in Hx; apply andb_true_iff in Hx as [-> ->] end.
  cbn [negb orb]. rewrite !(proj2 (N.eqb_neq _ _)) by lia.
  destruct (bool_decide (sel_policy (selection c) = Staged)) eqn:E1; [|done].
  destruct (bool_decide (staged_inner (staged (selection c)) = Staged)) eqn:E2; [|done].
  apply bool_decide_eq_true in E1, E2. tauto.
Qed.

(** ** Properties *)

(** A configuration that validation accepts is never rejected later:
    the commit rules and the selection weights built from it pass the checks
    of commit and of every policy, the stall window is positive and the
    ladder's cap is the configured level. *)
Theorem accepted_config_never_rejected (c : ExperimentConfig) :
  validate c = Ok tt ->
  validate_rules (Commit.from_config c) = Ok tt /\
  validate_selection_weights (selection c) = Ok tt /\
  (0 < k_window_n (PlateauKnobs_from_config c))%N /\
  level_get (k_max_level (k_ladder (PlateauKnobs_from_config c))) = max_level (ladder (plateau c)).
Proof.
  intros Hv. assert (config_valid c) as Hc.
  { apply validate_all_nil. unfold validate in Hv. by destruct (validate_all c). }
  split_and!.
  - by apply from_config_rules_valid.
  - by apply config_weights_valid.
  - pose proof (cv_window _ Hc). cbn. lia.
  - pose proof (cv_level _ Hc). cbn. rewrite from_capped_u32_get. lia.
Qed.

(** The candidate list is exactly the frontier's open nodes in id order,
    one snapshot each: the snapshot copies the node's record, its terms are
    the normalized score, the cell's novelty and the logarithmic visit and
    depth penalties, its priority is the weighted sum (plus the backtrack
    bonus for nodes at or above the cutoff depth) and is finite.  Without a
    backtrack override the listing cannot panic. *)
Theorem candidate_snapshots_correct `{Libm} (ctx : PolicyContext) :
  (forall l, candidate_snapshots ctx = Ok l ->
   exists cutoff norm,
    deterministic_candidates (ctx_frontier ctx) (ctx_tree ctx) = Ok (cd_id <$> l) /\ l <> [] /\
    backtrack_cutoff ctx = Ok cutoff /\ normalize_scores (cd_raw_score <$> l) = Ok norm /\
    (forall i c, l !! i = Some c ->
       norm !! i = Some (normalized_score (cd_priority_terms c)) /\
       exists r, snapshot_of ctx cutoff c r /\ cd_raw_score c = finite_get (nr_score r) /\
         is_candidate (ctx_tree ctx) (cd_id c) /\ cd_id c ∈ members (ctx_frontier ctx))) /\
  (ctx_backtrack ctx = None -> candidate_snapshots ctx <> Panic).
Proof.
  split; [|apply candidate_snapshots_no_panic].
  intros l Hl. destruct (candidate_snapshots_Ok ctx l Hl)
    as (cutoff & norm & Hids & Hne & _ & Hcut & Hn & Hall & Hnorm).
  exists cutoff, norm. split_and!; auto. intros i c Hc. split; [by apply Hnorm|].
  destruct (Forall_lookup_1 _ _ _ _ Hall Hc) as (r & Hs & Hr). exists r. split; [done|]. split; [done|].
  apply (deterministic_candidates_in_tree _ _ _ _ Hids).
  apply list_elem_of_fmap. exists c. split; [done|]. by eapply list_elem_of_lookup_2.
Qed.

(** ** Witnesses *)

Definition sample_config : ExperimentConfig := ExperimentConfig_new 7 "workload" "map" "program" "synth".

Lemma accepted_config_never_rejected_witness :
  validate sample_config = Ok tt /\ validate_selection_weights (selection sample_config) = Ok tt.
Proof.
  assert (validate sample_config = Ok tt) as Hv by (vm_compute; reflexivity).
  split; [exact Hv|]. destruct (accepted_config_never_rejected sample_config Hv) as (_ & H & _). exact H.
Defined.

(** Stand-ins for libm that keep the values finite. *)
Definition toy_libm : Libm := {| libm_log := fun x => x; libm_exp := fun _ => f64_one; libm_sqrt := f64_sqrt |}.

Definition sample_context : PolicyContext :=
  PolicyContext_new (cs_tree (after_batch sample_state)) (cs_frontier (after_batch sample_state))
    (cs_cell_mirror (after_batch sample_state)) sample_knobs SelectionConfig_default.

Lemma candidate_snapshots_correct_witness :
  exists l, @candidate_snapshots toy_libm sample_context = Ok l /\ cd_id <$> l = [0; 1]%N /\ l <> [].
Proof.
  destruct (@candidate_snapshots toy_libm sample_context) as [l|e|] eqn:E;
    [|vm_compute in E; discriminate E|vm_compute in E; discriminate E].
  destruct (@candidate_snapshots_correct toy_libm sample_context) as [H _].
  destruct (H l E) as (cutoff & norm & Hids & Hne & _). exists l. split; [reflexivity|].
  split; [|exact Hne].
  assert (deterministic_candidates (ctx_frontier sample_context) (ctx_tree sample_context) = Ok [0; 1]%N)
    as Hd by (vm_compute; reflexivity).
  rewrite Hd in Hids. injection Hids as Hids. by symmetry.
Defined.

(** ** The interface of a policy

    [SelectionPolicy] is the trait; no implementation assigns to [self], so
    a policy is a value.  [SelectionPolicyLaws] is what a policy promises to
    the scheduler that calls it. *)
Class SelectionPolicy `{Libm, ChaCha12} (P : Type) := {
  policy_kind : P -> PolicyKind;
  policy_select : P -> PolicyContext -> st DeterministicRng PolicyError SelectionChoice
}.

Class SelectionPolicyLaws `{HL : Libm, HC : ChaCha12} (P : Type) {HP : SelectionPolicy P} : Prop := {
  select_candidate : forall p ctx rng choice rng',
    policy_select p ctx rng = (Ok choice, rng') ->
    exists l c, candidate_snapshots ctx = Ok l /\
      l !! N.to_nat (candidate_index choice) = Some c /\ cd_id c = selected choice;
  select_draws : forall p ctx rng r rng',
    policy_select p ctx rng = (r, rng') ->
    rng_spec rng' = rng_spec rng /\ (rng_draws rng <= rng_draws rng' <= rng_draws rng + 2)%N;
  select_empty : forall p ctx rng rng',
    policy_select p ctx rng = (Err EmptyCandidateSet, rng') ->
    candidate_snapshots ctx = Err EmptyCandidateSet
}.
