(* ===== verification/Ucb.v ===== *)
(** The UCB policy (crates/orch-core/src/policy/ucb.rs): the candidate with
    the largest priority plus exploration bonus, ties broken towards the
    smaller id, without any random draw. *)
From S2P Require Import Prelude Float64 Types Tree Frontier Mirror Plateau Rng Policy.
Local Open Scope string_scope.
Local Open Scope list_scope.

Record UcbPolicy := mkUcbPolicy { ucb_total_expansions : N }.
Definition UcbPolicy_new : UcbPolicy := mkUcbPolicy 0.
Definition UcbPolicy_set_total_expansions (n : N) (p : UcbPolicy) : UcbPolicy := mkUcbPolicy n.

Definition validate_ucb_c (c : f64) : res PolicyError unit :=
  if negb (is_finite c) || f64_ltb c f64_zero then Err (InvalidWeight "selection.ucb_c" c) else Ok tt.

Section Ucb.
Context `{HL : Libm, HC : ChaCha12}.

Definition ucb_value (candidate : CandidateSnapshot) (total_expansions : N) (c : f64)
    : res PolicyError f64 :=
  _ ← validate_ucb_c c;
  _ ← ensure_finite "candidate.priority" (cd_priority candidate);
  let effective_total := f64_of_N (N.max total_expansions 2) in
  let visit_denominator := f64_of_N (saturating_add u64_max (cd_visits candidate) 1) in
  let exploration := f64_mul c (libm_sqrt (f64_div (libm_log effective_total) visit_denominator)) in
  _ ← ensure_finite "ucb.exploration" exploration;
  let value := f64_add (cd_priority candidate) exploration in
  _ ← ensure_finite "ucb.value" value;
  Ok value.

(** [best] is the index, candidate and value of the best one so far. *)
Definition ucb_better (candidate : CandidateSnapshot) (value : f64) (best : N * CandidateSnapshot * f64) : bool :=
  f64_gtb value best.2 || (f64_eqb value best.2 && (cd_id candidate <? cd_id best.1.2)%N).

Fixpoint ucb_scan (index : N) (rest : list CandidateSnapshot) (best : N * CandidateSnapshot * f64)
    (total_expansions : N) (c : f64) : res PolicyError (N * CandidateSnapshot * f64) :=
  match rest with
  | [] => Ok best
  | candidate :: rest' =>
    value ← ucb_value candidate total_expansions c;
    ucb_scan (index + 1) rest' (if ucb_better candidate value best then (index, candidate, value) else best)
      total_expansions c
  end.

Definition ucb_select_from_candidates (candidates : list CandidateSnapshot) (total_expansions : N) (c : f64)
    : res PolicyError SelectionChoice :=
  match candidates with
  | [] => Err EmptyCandidateSet
  | first :: rest =>
    value ← ucb_value first total_expansions c;
    best ← ucb_scan 1 rest (0%N, first, value) total_expansions c;
    Ok (mkSelectionChoice (cd_id best.1.2) best.1.1)
  end.

Definition ucb_select (p : UcbPolicy) (ctx : PolicyContext) : st DeterministicRng PolicyError SelectionChoice :=
  candidates ← lift_res (candidate_snapshots ctx);
  lift_res (ucb_select_from_candidates candidates (ucb_total_expansions p) (ucb_c (ctx_selection ctx))).

(** ** The scan keeps a maximum *)

Lemma ucb_value_finite cand n c v : ucb_value cand n c = Ok v -> is_finite v = true.
Proof.
  unfold ucb_value.
  intros (? & _ & (? & _ & (? & _ & (? & Hf & [= <-])%bind_Ok)%bind_Ok)%bind_Ok)%bind_Ok.
  by apply ensure_finite_Ok in Hf.
Qed.

(** [b] is at least as good as [x]: a larger value, or an equal one with an
    id that is not larger. *)
Definition dominates (b x : CandidateSnapshot * f64) : Prop :=
  f64_ltb x.2 b.2 = true \/ f64_eqb x.2 b.2 = true /\ (cd_id b.1 <= cd_id x.1)%N.

Lemma dominates_spec b x : is_nan b.2 = false -> is_nan x.2 = false ->
  dominates b x <-> fkey_lt (fkey x.2) (fkey b.2) \/ fkey x.2 = fkey b.2 /\ (cd_id b.1 <= cd_id x.1)%N.
Proof. intros Hb Hx. unfold dominates. rewrite f64_ltb_spec, f64_eqb_spec. tauto. Qed.

Lemma dominates_trans a b c : is_nan a.2 = false -> is_nan b.2 = false -> is_nan c.2 = false ->
  dominates a b -> dominates b c -> dominates a c.
Proof.
  intros Ha Hb Hc. rewrite !dominates_spec by done.
  intros [H1|[H1 I1]] [H2|[H2 I2]].
  - left. by eapply fkey_lt_trans.
  - left. by rewrite H2.
  - left. by rewrite <- H1.
  - right. split; [congruence|lia].
Qed.

(** One comparison of the scan. *)
Lemma ucb_better_dominates cand v best : is_nan v = false -> is_nan best.2 = false ->
  if ucb_better cand v best then dominates (cand, v) (best.1.2, best.2)
  else dominates (best.1.2, best.2) (cand, v).
Proof.
  intros Hv Hb. destruct (ucb_better cand v best) eqn:E; rewrite dominates_spec by done; cbn.
  - unfold ucb_better in E. apply orb_true_iff in E as [E|E].
    + left. apply f64_ltb_spec in E. tauto.
    + right. apply andb_true_iff in E as [E1 E2%N.ltb_lt]. apply f64_eqb_spec in E1.
      split; [intuition congruence|lia].
  - unfold ucb_better in E. apply orb_false_iff in E as [E1 E2].
    destruct (fkey_lt_total (fkey v) (fkey best.2)) as [Hl|[He|Hg]]; [by left| |].
    + right. split; [done|]. apply andb_false_iff in E2 as [E2|E2%N.ltb_ge]; [|lia].
      exfalso. apply not_true_iff_false in E2. apply E2, f64_eqb_spec. auto.
    + exfalso. apply not_true_iff_false in E1. apply E1, f64_ltb_spec. auto.
Qed.

(** What the scan returns, from any best so far. *)
Lemma ucb_scan_spec n c rest : forall (i : nat) best pre,
  length pre = i -> (forall j x, pre !! j = Some x -> exists v, ucb_value x n c = Ok v /\
     dominates (best.1.2, best.2) (x, v)) ->
  pre !! N.to_nat best.1.1 = Some best.1.2 -> ucb_value best.1.2 n c = Ok best.2 ->
  forall b, ucb_scan (N.of_nat i) rest best n c = Ok b ->
  (pre ++ rest) !! N.to_nat b.1.1 = Some b.1.2 /\ ucb_value b.1.2 n c = Ok b.2 /\
  forall j x, (pre ++ rest) !! j = Some x -> exists v, ucb_value x n c = Ok v /\
     dominates (b.1.2, b.2) (x, v).
Proof.
  induction rest as [|cand rest IH]; intros i best pre Hi Hpre Hbest Hval b; cbn [ucb_scan].
  { intros [= <-]. rewrite app_nil_r. auto. }
  intros (v & Hv & Hscan)%bind_Ok.
  assert (is_nan v = false /\ is_nan best.2 = false) as [Hnv Hnb]
    by (split; apply is_finite_not_nan; by eapply ucb_value_finite).
  pose proof (ucb_better_dominates cand v best Hnv Hnb) as Hbd.
  replace (N.of_nat i + 1)%N with (N.of_nat (S i)) in Hscan by lia.
  replace (pre ++ cand :: rest) with ((pre ++ [cand]) ++ rest) by (by rewrite <- app_assoc).
  eapply (IH (S i)); [..|exact Hscan].
  - rewrite length_app. cbn. lia.
  - intros j x. rewrite lookup_snoc_Some. intros [[_ Hx]|[_ <-]].
    + destruct (Hpre _ _ Hx) as (w & Hw & Hd). exists w. split; [done|].
      destruct (ucb_better cand v best); cbn; [|done].
      eapply (dominates_trans _ (best.1.2, best.2)); auto.
      apply is_finite_not_nan. by eapply ucb_value_finite.
    + exists v. split; [done|]. destruct (ucb_better cand v best); cbn; [|done].
      apply dominates_spec; auto.
  - destruct (ucb_better cand v best); cbn [fst snd].
    + rewrite lookup_snoc_Some. right. split; [lia|done].
    + by apply lookup_app_l_Some.
  - by destruct (ucb_better cand v best).
Qed.

Lemma ucb_select_from_candidates_Ok candidates n c choice :
  ucb_select_from_candidates candidates n c = Ok choice ->
  exists b v, candidates !! N.to_nat (candidate_index choice) = Some b /\ cd_id b = selected choice /\
    ucb_value b n c = Ok v /\
    forall j x, candidates !! j = Some x -> exists w, ucb_value x n c = Ok w /\ dominates (b, v) (x, w).
Proof.
  unfold ucb_select_from_candidates. destruct candidates as [|first rest]; [done|].
  intros (v & Hv & (best & Hscan & [= <-])%bind_Ok)%bind_Ok. cbn [candidate_index selected].
  assert (is_nan v = false) as Hnv by (apply is_finite_not_nan; by eapply ucb_value_finite).
  destruct (ucb_scan_spec n c rest 1 (0%N, first, v) [first]) with (b := best)
    as (Hl & Hval & Hdom); auto.
  - intros j x Hx. apply list_lookup_singleton_Some in Hx as [-> <-]. exists v. split; [done|].
    apply dominates_spec; cbn; auto using N.le_refl.
  - exists best.1.2, best.2. split; [exact Hl|]. split; [done|]. split; [done|exact Hdom].
Qed.

Lemma not_empty_ucb l n c : l <> [] -> not_empty_error (ucb_select_from_candidates l n c).
Proof.
  assert (forall cand, not_empty_error (ucb_value cand n c)) as Hv.
  { intros cand. apply not_empty_bind.
    - unfold not_empty_error, validate_ucb_c. by case_match.
    - intros _ _. by repeat (apply not_empty_bind; [apply not_empty_ensure|intros _ _]). }
  intros Hne. destruct l as [|first rest]; [done|].
  apply not_empty_bind; [apply Hv|intros v _]. apply not_empty_bind; [|done].
  clear Hne. generalize 1%N (0%N, first, v). induction rest as [|x rest IH]; intros i best; cbn [ucb_scan]; [done|].
  apply not_empty_bind; [apply Hv|intros w _]. apply IH.
Qed.

Global Instance ucb_policy : SelectionPolicy UcbPolicy :=
  {| policy_kind := fun _ => Ucb; policy_select := ucb_select |}.

Global Instance ucb_laws : SelectionPolicyLaws UcbPolicy.
Proof.
  split.
  - intros p ctx rng choice rng' (l & r1 & Hl & Hsel)%st_bind_Ok.
    unfold lift_res in *. injection Hl as Hl <-. injection Hsel as Hsel <-.
    destruct (ucb_select_from_candidates_Ok _ _ _ _ Hsel) as (b & v & Hb & Hid & _).
    by exists l, b.
  - intros p ctx rng r rng' Hs. cbn in Hs. unfold ucb_select in Hs. rewrite st_bind_run in Hs.
    unfold lift_res in Hs. destruct (candidate_snapshots ctx); injection Hs as _ <-; split; auto; lia.
  - intros p ctx rng rng' Hs. cbn in Hs. unfold ucb_select in Hs. rewrite st_bind_run in Hs.
    unfold lift_res in Hs. destruct (candidate_snapshots ctx) as [l|e|] eqn:El;
      [|by injection Hs as -> _|done].
    exfalso. injection Hs as Hs _. destruct (candidate_snapshots_Ok _ _ El) as (_ & _ & _ & Hne & _).
    by apply (not_empty_ucb l (ucb_total_expansions p) (ucb_c (ctx_selection ctx)) Hne).
Qed.

(** UCB picks the best arm: every candidate has a value, the chosen
    one's is the largest, among equal values its id is the smallest, and no
    random draw is taken. *)
Theorem ucb_selects_best (p : UcbPolicy) (ctx : PolicyContext) (rng : DeterministicRng)
    (choice : SelectionChoice) (rng' : DeterministicRng) :
  ucb_select p ctx rng = (Ok choice, rng') ->
  rng' = rng /\
  exists l b v, candidate_snapshots ctx = Ok l /\
    l !! N.to_nat (candidate_index choice) = Some b /\ cd_id b = selected choice /\
    ucb_value b (ucb_total_expansions p) (ucb_c (ctx_selection ctx)) = Ok v /\
    forall x, x ∈ l -> exists w,
      ucb_value x (ucb_total_expansions p) (ucb_c (ctx_selection ctx)) = Ok w /\
      (f64_ltb w v = true \/ f64_eqb w v = true /\ (cd_id b <= cd_id x)%N).
Proof.
  intros (l & r1 & Hl & Hsel)%st_bind_Ok. unfold lift_res in *.
  injection Hl as Hl <-. injection Hsel as Hsel <-. split; [done|].
  destruct (ucb_select_from_candidates_Ok _ _ _ _ Hsel) as (b & v & Hb & Hid & Hv & Hdom).
  exists l, b, v. split_and!; auto. intros x [j Hx]%list_elem_of_lookup. exact (Hdom j x Hx).
Qed.
End Ucb.

Definition sample_rng : @DeterministicRng toy_chacha := @rng_selection toy_blake3 toy_chacha 7 1.

Lemma ucb_selects_best_witness :
  exists choice, (@ucb_select toy_libm toy_chacha UcbPolicy_new sample_context sample_rng).1 = Ok choice /\
    exists l, @candidate_snapshots toy_libm sample_context = Ok l.
Proof.
  destruct (@ucb_select toy_libm toy_chacha UcbPolicy_new sample_context sample_rng) as [r rng'] eqn:E.
  destruct r as [choice|e|]; [|vm_compute in E; discriminate E|vm_compute in E; discriminate E].
  destruct (ucb_selects_best _ _ _ _ _ E) as [_ (l & b & v & Hl & _)].
  exists choice. split; [reflexivity|]. exists l. exact Hl.
Defined.
