(* ===== verification/Softmax.v ===== *)
(** The softmax policy (crates/orch-core/src/policy/softmax.rs): sampling in
    proportion to exp((priority - max) / temperature) with one draw, or the
    first maximum when the temperature is at most 1e-12. *)
From S2P Require Import Prelude Float64 Types Tree Frontier Mirror Plateau Rng Policy.
Local Open Scope string_scope.
Local Open Scope list_scope.

(** 1.0e-12 *)
Definition ARGMAX_TEMPERATURE : f64 := f64_lit 4951760157141521 (-92).

Inductive SoftmaxPolicy := SoftmaxPolicy_new.

Definition validate_temperature (t : f64) : res PolicyError unit :=
  if negb (is_finite t) || f64_leb t f64_zero then Err (InvalidWeight "selection.temperature" t) else Ok tt.

Definition validate_priorities (candidates : list CandidateSnapshot) : res PolicyError unit :=
  match candidates with
  | [] => Err EmptyCandidateSet
  | _ => _ ← mapM_res (fun c => ensure_finite "candidate.priority" (cd_priority c)) candidates; Ok tt
  end.

Fixpoint argmax_scan (index : N) (rest : list CandidateSnapshot) (best : N * CandidateSnapshot)
    : N * CandidateSnapshot :=
  match rest with
  | [] => best
  | c :: rest' =>
    argmax_scan (index + 1) rest'
      (if f64_gtb (cd_priority c) (cd_priority best.2) then (index, c) else best)
  end.

Definition argmax_choice (candidates : list CandidateSnapshot) : res PolicyError SelectionChoice :=
  match candidates with
  | [] => Err EmptyCandidateSet
  | first :: rest =>
    let best := argmax_scan 1 rest (0%N, first) in
    Ok (mkSelectionChoice (cd_id best.2) best.1)
  end.

(** The walk over the prefix sums; falling off the end is [unreachable!]. *)
Fixpoint prefix_walk (candidates : list CandidateSnapshot) (target : f64) (index : nat) (prefix : f64)
    (weights : list f64) : res PolicyError SelectionChoice :=
  match weights with
  | [] => Panic
  | weight :: weights' =>
    let prefix := f64_add prefix weight in
    if f64_ltb target prefix || (index + 1 =? length candidates)%nat
    then c ← expect (candidates !! index); Ok (mkSelectionChoice (cd_id c) (N.of_nat index))
    else prefix_walk candidates target (index + 1) prefix weights'
  end.

Section Softmax.
Context `{HL : Libm, HC : ChaCha12}.

Definition softmax_max (candidates : list CandidateSnapshot) : f64 :=
  fold_left f64_max (cd_priority <$> candidates) f64_neg_infinity.

Definition softmax_weight (max_priority temperature : f64) (c : CandidateSnapshot) : f64 :=
  libm_exp (f64_div (f64_sub (cd_priority c) max_priority) temperature).

(** The weights and their total, checked as they are accumulated. *)
Fixpoint softmax_weights (max_priority temperature : f64) (candidates : list CandidateSnapshot)
    (total_weight : f64) : res PolicyError (list f64 * f64) :=
  match candidates with
  | [] => Ok ([], total_weight)
  | c :: rest =>
    let weight := softmax_weight max_priority temperature c in
    _ ← ensure_finite "softmax.weight" weight;
    let total_weight := f64_add total_weight weight in
    _ ← ensure_finite "softmax.total_weight" total_weight;
    '(weights, total) ← softmax_weights max_priority temperature rest total_weight;
    Ok (weight :: weights, total)
  end.

Definition softmax_select_from_candidates (candidates : list CandidateSnapshot) (temperature : f64)
    : st DeterministicRng PolicyError SelectionChoice :=
  _ ← lift_res (validate_temperature temperature);
  _ ← lift_res (validate_priorities candidates);
  if f64_leb temperature ARGMAX_TEMPERATURE then lift_res (argmax_choice candidates)
  else
    let max_priority := softmax_max candidates in
    '(weights, total_weight) ← lift_res (softmax_weights max_priority temperature candidates f64_zero);
    if f64_leb total_weight f64_zero
    then lift_res (Err (NonFiniteValue "softmax.total_weight" total_weight))
    else
      unit ← next_unit_f64;
      let target := f64_mul unit total_weight in
      lift_res (prefix_walk candidates target 0 f64_zero weights).

Definition softmax_select (p : SoftmaxPolicy) (ctx : PolicyContext)
    : st DeterministicRng PolicyError SelectionChoice :=
  candidates ← lift_res (candidate_snapshots ctx);
  softmax_select_from_candidates candidates (temperature (ctx_selection ctx)).

(** ** Greedy choice *)

Definition le_priority (x b : CandidateSnapshot) : Prop := f64_leb (cd_priority x) (cd_priority b) = true.

Lemma argmax_scan_spec rest : forall pre best,
  Forall (fun c => is_finite (cd_priority c) = true) (pre ++ rest) ->
  pre !! N.to_nat best.1 = Some best.2 ->
  (forall j x, pre !! j = Some x -> le_priority x best.2) ->
  (forall j x, pre !! j = Some x -> (j < N.to_nat best.1)%nat ->
     f64_ltb (cd_priority x) (cd_priority best.2) = true) ->
  let b := argmax_scan (N.of_nat (length pre)) rest best in
  (pre ++ rest) !! N.to_nat b.1 = Some b.2 /\
  (forall j x, (pre ++ rest) !! j = Some x -> le_priority x b.2) /\
  (forall j x, (pre ++ rest) !! j = Some x -> (j < N.to_nat b.1)%nat ->
     f64_ltb (cd_priority x) (cd_priority b.2) = true).
Proof.
  induction rest as [|c rest IH]; intros pre best Hfin Hb Hle Hlt; cbn [argmax_scan].
  { cbv zeta. rewrite app_nil_r. auto. }
  replace (N.of_nat (length pre) + 1)%N with (N.of_nat (length (pre ++ [c])))
    by (rewrite length_app; cbn; lia).
  replace (pre ++ c :: rest) with ((pre ++ [c]) ++ rest) in * by (by rewrite <- app_assoc).
  assert (is_nan (cd_priority c) = false /\ is_nan (cd_priority best.2) = false) as [Hc Hbn].
  { rewrite <- app_assoc, Forall_app in Hfin. cbn in Hfin. destruct Hfin as [H1 H2].
    apply Forall_cons_iff in H2 as [H2 _]. split; apply is_finite_not_nan; [done|].
    exact (Forall_lookup_1 _ _ _ _ H1 Hb). }
  unfold le_priority, f64_gtb in *.
  apply IH; [done|destruct (SFltb _ _) eqn:E; cbn [fst snd]..].
  - rewrite lookup_snoc_Some. right. split; [lia|done].
  - by apply lookup_app_l_Some.
  - intros j x. rewrite lookup_snoc_Some. intros [[_ Hx]|[_ <-]]; [|by apply f64_leb_refl].
    eapply f64_leb_trans; [by eapply Hle|]. by apply f64_ltb_leb.
  - intros j x. rewrite lookup_snoc_Some. intros [[_ Hx]|[_ <-]]; [by eapply Hle|].
    rewrite f64_leb_negb_ltb by done. unfold f64_ltb. by rewrite E.
  - intros j x. rewrite lookup_snoc_Some. intros [[_ Hx]|[-> <-]] Hj; [|lia].
    eapply f64_leb_ltb_trans; [by eapply Hle|exact E].
  - intros j x. rewrite lookup_snoc_Some. intros [[_ Hx]|[-> <-]] Hj; [by eapply Hlt|].
    apply lookup_lt_Some in Hb. lia.
Qed.

Lemma argmax_choice_spec candidates choice :
  Forall (fun c => is_finite (cd_priority c) = true) candidates ->
  argmax_choice candidates = Ok choice ->
  exists b, candidates !! N.to_nat (candidate_index choice) = Some b /\ cd_id b = selected choice /\
    (forall x, x ∈ candidates -> le_priority x b) /\
    (forall j x, candidates !! j = Some x -> (j < N.to_nat (candidate_index choice))%nat ->
       f64_ltb (cd_priority x) (cd_priority b) = true).
Proof.
  intros Hfin. unfold argmax_choice. destruct candidates as [|first rest]; [done|]. intros [= <-].
  cbn [candidate_index selected].
  destruct (argmax_scan_spec rest [first] (0%N, first)) as (Hl & Hle & Hlt); auto.
  - intros j x Hx. apply list_lookup_singleton_Some in Hx as [_ <-]. apply f64_leb_refl.
    apply is_finite_not_nan. by apply Forall_cons_iff in Hfin as [? _].
  - intros j x _ Hj. cbn in Hj. lia.
  - eexists. split; [exact Hl|]. split; [done|]. split; [|exact Hlt].
    intros x [j Hx]%list_elem_of_lookup. by eapply Hle.
Qed.

(** ** Sampling *)

(** Running sums of the weights, in the order the code adds them. *)
Fixpoint prefix_sums (acc : f64) (weights : list f64) : list f64 :=
  match weights with
  | [] => []
  | w :: ws => f64_add acc w :: prefix_sums (f64_add acc w) ws
  end.

Lemma prefix_walk_spec candidates target : forall weights index prefix,
  length candidates = (index + length weights)%nat -> weights <> [] ->
  exists i c, prefix_walk candidates target index prefix weights =
      Ok (mkSelectionChoice (cd_id c) (N.of_nat (index + i))) /\
    candidates !! (index + i)%nat = Some c /\ (i < length weights)%nat /\
    (forall j s, (j < i)%nat -> prefix_sums prefix weights !! j = Some s -> f64_ltb target s = false) /\
    (exists s, prefix_sums prefix weights !! i = Some s /\
       (f64_ltb target s = true \/ (index + i + 1)%nat = length candidates)).
Proof.
  induction weights as [|w ws IH]; intros index prefix Hlen Hne; [done|]. cbn [prefix_walk prefix_sums].
  cbn [length] in Hlen.
  destruct (f64_ltb target (f64_add prefix w) || (index + 1 =? length candidates)%nat) eqn:E.
  - destruct (lookup_lt_is_Some_2 candidates index) as [c Hc]; [lia|]. rewrite Hc. cbn [expect mbind res_bind].
    exists 0%nat, c. rewrite Nat.add_0_r. split_and!; auto; [cbn; lia|intros; lia|].
    exists (f64_add prefix w). split; [done|]. apply orb_true_iff in E as [E|E%Nat.eqb_eq]; auto.
  - apply orb_false_iff in E as [E1 E2%Nat.eqb_neq].
    destruct (IH (index + 1)%nat (f64_add prefix w)) as (i & c & Hrun & Hc & Hi & Hj & (s & Hs & Hor));
      [lia|by destruct ws; cbn in *; [lia|]|].
    exists (S i), c. replace (index + S i)%nat with (index + 1 + i)%nat by lia.
    split_and!; auto; [cbn; lia| |].
    + intros [|j] s' Hji Hsj; [cbn in Hsj; congruence|]. eapply (Hj j); [lia|exact Hsj].
    + exists s. split; [exact Hs|]. done.
Qed.

Lemma softmax_weights_Ok m t candidates acc ws total :
  softmax_weights m t candidates acc = Ok (ws, total) ->
  ws = softmax_weight m t <$> candidates /\ Forall (fun w => is_finite w = true) ws /\
  total = default acc (last (prefix_sums acc ws)).
Proof.
  revert acc ws total. induction candidates as [|c rest IH]; intros acc ws total; cbn [softmax_weights].
  { by intros [= <- <-]. }
  intros (? & Hf & (? & _ & ([ws' tot] & Hr & [= <- <-])%bind_Ok)%bind_Ok)%bind_Ok.
  apply ensure_finite_Ok in Hf. destruct (IH _ _ _ Hr) as (-> & Hall & ->). split_and!; [done| |].
  - by constructor.
  - cbn. rewrite last_cons. by destruct (last _).
Qed.

Lemma validate_priorities_Ok candidates u : validate_priorities candidates = Ok u ->
  candidates <> [] /\ Forall (fun c => is_finite (cd_priority c) = true) candidates.
Proof.
  unfold validate_priorities. destruct candidates as [|c rest]; [done|].
  intros (us & Hus & _)%bind_Ok. split; [done|]. apply mapM_res_Ok in Hus.
  revert us Hus. generalize (c :: rest). induction 1 as [|x y xs ys Hxy _ IH]; constructor; [|done].
  by apply ensure_finite_Ok in Hxy.
Qed.

Lemma softmax_weights_no_panic m t candidates acc : softmax_weights m t candidates acc <> Panic.
Proof.
  revert acc. induction candidates as [|c rest IH]; intros acc; cbn [softmax_weights]; [done|].
  by do 2 apply ensure_bind_no_panic; apply bind_no_panic; [apply IH|intros [? ?]].
Qed.

(** Every way [select_from_candidates] can end. *)
Lemma softmax_select_from_candidates_run candidates t rng r rng' :
  softmax_select_from_candidates candidates t rng = (r, rng') ->
  (rng' = rng /\ ((exists e, r = Err e) \/ f64_leb t ARGMAX_TEMPERATURE = true /\
     Forall (fun c => is_finite (cd_priority c) = true) candidates /\ r = argmax_choice candidates)) \/
  (f64_leb t ARGMAX_TEMPERATURE = false /\ candidates <> [] /\
   exists ws total, softmax_weights (softmax_max candidates) t candidates f64_zero = Ok (ws, total) /\
   ((u64_max < rng_draws rng + 1)%N /\ r = Panic /\ rng_spec rng' = rng_spec rng /\
      rng_draws rng' = rng_draws rng \/
    exists unit, next_unit_f64 (E:=PolicyError) rng = (Ok unit, rng') /\
      r = prefix_walk candidates (f64_mul unit total) 0 f64_zero ws)).
Proof.
  unfold softmax_select_from_candidates.
  destruct (validate_temperature t) as [[]|e|] eqn:Ht.
  2: { intros [= <- <-]. left. split; [done|]. left. eauto. }
  2: { unfold validate_temperature in Ht. by case_match. }
  rewrite lift_Ok_bind.
  destruct (validate_priorities candidates) as [[]|e|] eqn:Hp.
  2: { intros [= <- <-]. left. split; [done|]. left. eauto. }
  2: { exfalso. unfold validate_priorities in Hp. destruct candidates as [|c rest]; [done|].
    revert Hp. apply bind_no_panic; [|done]. apply mapM_res_no_panic. intros. apply ensure_finite_no_panic. }
  rewrite lift_Ok_bind. apply validate_priorities_Ok in Hp as [Hne Hfin].
  destruct (f64_leb t ARGMAX_TEMPERATURE).
  { intros [= <- <-]. left. split; [done|]. right. done. }
  cbv zeta. destruct (softmax_weights _ t candidates f64_zero) as [[ws total]|e|] eqn:Hw.
  2: { intros [= <- <-]. left. split; [done|]. left. eauto. }
  2: by apply softmax_weights_no_panic in Hw.
  rewrite lift_Ok_bind. destruct (f64_leb total f64_zero).
  { intros [= <- <-]. left. split; [done|]. left. eauto. }
  intros Hrun. right. split; [done|]. split; [done|]. exists ws, total. split; [done|].
  rewrite st_bind_run in Hrun. destruct (next_unit_f64_cases (E:=PolicyError) rng) as
    [(u & r2 & Hu & _)|[Hov Hpan]].
  - rewrite Hu in Hrun. injection Hrun as <- <-. right. by exists u.
  - left. unfold next_unit_f64, next_u64 in Hrun, Hpan. rewrite st_bind_run, draw_run in Hrun, Hpan.
    rewrite decide_False in Hrun by lia. injection Hrun as <- <-. done.
Qed.

Lemma softmax_select_from_candidates_laws candidates t rng r rng' :
  softmax_select_from_candidates candidates t rng = (r, rng') ->
  rng_spec rng' = rng_spec rng /\ (rng_draws rng <= rng_draws rng' <= rng_draws rng + 1)%N /\
  forall choice, r = Ok choice -> exists c, candidates !! N.to_nat (candidate_index choice) = Some c /\
    cd_id c = selected choice.
Proof.
  intros [(-> & [[e ->]|(_ & Hfin & ->)])|(_ & Hne & ws & total & Hw &
    [(_ & -> & Hs & Hd)|(u & Hu & ->)])]%softmax_select_from_candidates_run.
  - split; [done|]. split; [lia|done].
  - split; [done|]. split; [lia|]. intros choice Hc.
    destruct (argmax_choice_spec _ _ Hfin Hc) as (b & Hb & Hid & _). eauto.
  - split; [done|]. split; [lia|done].
  - destruct (next_unit_f64_cases (E:=PolicyError) rng) as [(u' & r2 & Hu' & Hd & Hs)|[_ Hp]];
      [|by rewrite Hu in Hp].
    rewrite Hu in Hu'. injection Hu' as -> <-. split; [done|]. split; [lia|].
    intros choice Hc. destruct (softmax_weights_Ok _ _ _ _ _ _ Hw) as (-> & _ & _).
    destruct (prefix_walk_spec candidates (f64_mul u' total)
      (softmax_weight (softmax_max candidates) t <$> candidates) 0 f64_zero) as (i & c & Hrun & Hc' & _);
      [by rewrite length_fmap|by destruct candidates|].
    rewrite Hrun in Hc. injection Hc as <-. cbn. rewrite Nat2N.id. eauto.
Qed.

Lemma not_empty_prefix_walk candidates target ws i p :
  not_empty_error (prefix_walk candidates target i p ws).
Proof.
  revert i p. induction ws as [|w ws IH]; intros i p; cbn [prefix_walk]; [done|].
  destruct (_ || _); [|apply IH]. by apply not_empty_bind; [apply not_empty_expect|].
Qed.

Lemma not_empty_softmax l t rng : l <> [] -> not_empty_error (softmax_select_from_candidates l t rng).1.
Proof.
  intros Hne. unfold softmax_select_from_candidates.
  destruct (validate_temperature t) as [[]|e|] eqn:Ht.
  2, 3: unfold validate_temperature in Ht; cbn; destruct (_ || _) in Ht; by simplify_eq.
  rewrite lift_Ok_bind.
  assert (not_empty_error (validate_priorities l)) as Hp.
  { unfold validate_priorities. destruct l; [done|].
    apply not_empty_bind; [|done]. apply not_empty_mapM. intros cand. apply not_empty_ensure. }
  destruct (validate_priorities l) as [[]|e|]; [|cbn; intros [= ->]; by apply Hp|done]. rewrite lift_Ok_bind.
  destruct (f64_leb t ARGMAX_TEMPERATURE); [by destruct l|]. cbv zeta.
  assert (forall m l acc, not_empty_error (softmax_weights m t l acc)) as Hw.
  { intros m l'. induction l' as [|c rest IH]; intros acc; cbn [softmax_weights]; [done|].
    do 2 (apply not_empty_bind; [apply not_empty_ensure|intros _ _]).
    apply not_empty_bind; [apply IH|]. by intros [? ?] _. }
  specialize (Hw (softmax_max l) l f64_zero).
  destruct (softmax_weights _ t l f64_zero) as [[ws total]|e|]; [|cbn; intros [= ->]; by apply Hw|done].
  rewrite lift_Ok_bind.
  destruct (f64_leb total f64_zero); [done|]. rewrite st_bind_run.
  destruct (next_unit_f64_cases (E:=PolicyError) rng) as [(u & r2 & Hu & _)|[_ Hp']].
  - rewrite Hu. cbn. apply not_empty_prefix_walk.
  - destruct (next_unit_f64 rng) as [[]]; cbn in Hp'; done.
Qed.

Global Instance softmax_policy : SelectionPolicy SoftmaxPolicy :=
  {| policy_kind := fun _ => Softmax; policy_select := softmax_select |}.

Global Instance softmax_laws : SelectionPolicyLaws SoftmaxPolicy.
Proof.
  split.
  - intros p ctx rng choice rng' (l & r1 & Hl & Hsel)%st_bind_Ok.
    unfold lift_res in Hl. injection Hl as Hl <-.
    destruct (softmax_select_from_candidates_laws _ _ _ _ _ Hsel) as (_ & _ & Hc).
    destruct (Hc choice eq_refl) as (c & Hi & Hid). by exists l, c.
  - intros p ctx rng r rng' Hs. cbn in Hs. unfold softmax_select in Hs. rewrite st_bind_run in Hs.
    unfold lift_res in Hs. destruct (candidate_snapshots ctx) as [l|e|].
    + destruct (softmax_select_from_candidates_laws _ _ _ _ _ Hs) as (? & ? & _). split; [done|lia].
    + injection Hs as _ <-. split; [done|lia].
    + injection Hs as _ <-. split; [done|lia].
  - intros p ctx rng rng' Hs. cbn in Hs. unfold softmax_select in Hs. rewrite st_bind_run in Hs.
    unfold lift_res in Hs. destruct (candidate_snapshots ctx) as [l|e|] eqn:El;
      [|by injection Hs as -> _|done].
    exfalso. destruct (candidate_snapshots_Ok _ _ El) as (_ & _ & _ & Hne & _).
    apply (not_empty_softmax l (temperature (ctx_selection ctx)) rng Hne). by rewrite Hs.
Qed.

(** Sampling: above the greedy temperature a successful selection takes
    exactly one draw u and returns the first candidate whose running weight
    sum exceeds u times the total, or the last candidate when rounding lets
    none exceed it; the weights are exp((priority - max) / temperature), all
    finite, the total is the last running sum, and with a draw left on the
    counter the prefix walk never falls off its end. *)
Theorem softmax_samples_prefix (candidates : list CandidateSnapshot) (t : f64) (rng : DeterministicRng) :
  f64_leb t ARGMAX_TEMPERATURE = false -> (rng_draws rng < u64_max)%N ->
  let r := softmax_select_from_candidates candidates t rng in
  r.1 <> Panic /\
  forall choice rng', r = (Ok choice, rng') ->
  exists ws total u c sums,
    ws = softmax_weight (softmax_max candidates) t <$> candidates /\
    Forall (fun w => is_finite w = true) ws /\
    sums = prefix_sums f64_zero ws /\ last sums = Some total /\
    next_unit_f64 (E:=PolicyError) rng = (Ok u, rng') /\ rng_draws rng' = (rng_draws rng + 1)%N /\
    candidates !! N.to_nat (candidate_index choice) = Some c /\ cd_id c = selected choice /\
    (forall j s, (j < N.to_nat (candidate_index choice))%nat -> sums !! j = Some s ->
       f64_ltb (f64_mul u total) s = false) /\
    (exists s, sums !! N.to_nat (candidate_index choice) = Some s /\
       (f64_ltb (f64_mul u total) s = true \/
        N.to_nat (candidate_index choice + 1) = length candidates)).
Proof.
  intros Ht Hdraws. cbv zeta.
  destruct (softmax_select_from_candidates candidates t rng) as [r rng'] eqn:Hrun. cbn [fst].
  apply softmax_select_from_candidates_run in Hrun as [(-> & [[e ->]|(Ht' & _)])|(_ & Hne & ws & total & Hw &
    [(Hov & _)|(u & Hu & ->)])]; [done|congruence|lia|].
  destruct (softmax_weights_Ok _ _ _ _ _ _ Hw) as (Hws & Hfin & Htot).
  destruct (prefix_walk_spec candidates (f64_mul u total) ws 0 f64_zero)
    as (i & c & Hpw & Hc & Hi & Hbefore & Hat);
    [by rewrite Hws, length_fmap|by rewrite Hws; destruct candidates|].
  rewrite Hpw. split; [done|]. intros choice rng2 [= <- <-]. cbn [candidate_index selected].
  exists ws, total, u, c, (prefix_sums f64_zero ws). rewrite !Nat2N.id.
  split_and!; auto.
  - rewrite Htot. destruct (prefix_sums f64_zero ws) as [|x xs] eqn:Hp.
    + by destruct ws; [cbn in Hi; lia|].
    + rewrite last_cons. by destruct (last xs).
  - destruct (next_unit_f64_cases (E:=PolicyError) rng) as [(u' & r2 & Hu' & Hd & _)|[Hov _]]; [|lia].
    rewrite Hu in Hu'. by injection Hu' as -> <-.
  - destruct Hat as (s & Hs & Hor). exists s. split; [done|]. destruct Hor as [|Hl]; [by left|right].
    cbn in *. lia.
Qed.

(** At a temperature of at most 1e-12 the choice is greedy: the first
    candidate of maximal priority (strictly above every earlier one), taken
    without a random draw. *)
Theorem softmax_greedy_argmax (candidates : list CandidateSnapshot) (t : f64) (rng rng' : DeterministicRng)
    (choice : SelectionChoice) :
  f64_leb t ARGMAX_TEMPERATURE = true ->
  softmax_select_from_candidates candidates t rng = (Ok choice, rng') ->
  rng' = rng /\
  exists b, candidates !! N.to_nat (candidate_index choice) = Some b /\ cd_id b = selected choice /\
    (forall x, x ∈ candidates -> f64_leb (cd_priority x) (cd_priority b) = true) /\
    (forall j x, candidates !! j = Some x -> (j < N.to_nat (candidate_index choice))%nat ->
       f64_ltb (cd_priority x) (cd_priority b) = true).
Proof.
  intros Ht [(-> & [[e ?]|(_ & Hfin & Hc)])|(Ht' & _)]%softmax_select_from_candidates_run;
    [done| |congruence].
  split; [done|]. symmetry in Hc. apply (argmax_choice_spec _ _ Hfin Hc).
Qed.
End Softmax.

(** ** Witnesses *)

Definition sample_candidate (id : N) (priority : f64) : CandidateSnapshot :=
  mkCandidateSnapshot id None 0 0 0 0 0 priority (mkPriorityTerms f64_zero f64_zero f64_zero f64_zero) priority.
Definition sample_candidates : list CandidateSnapshot :=
  [sample_candidate 3 f64_0_5; sample_candidate 5 f64_one; sample_candidate 9 f64_one].

Lemma softmax_samples_prefix_witness :
  (@softmax_select_from_candidates toy_libm toy_chacha sample_candidates f64_one
     (@rng_selection toy_blake3 toy_chacha 7 1)).1 <> Panic.
Proof.
  destruct (@softmax_samples_prefix toy_libm toy_chacha sample_candidates f64_one
    (@rng_selection toy_blake3 toy_chacha 7 1)) as [H _]; [vm_compute; reflexivity..|]. exact H.
Defined.

Lemma softmax_greedy_argmax_witness :
  exists b, sample_candidates !! 1%nat = Some b /\
    forall x, x ∈ sample_candidates -> f64_leb (cd_priority x) (cd_priority b) = true.
Proof.
  destruct (@softmax_greedy_argmax toy_libm toy_chacha sample_candidates ARGMAX_TEMPERATURE
    (@rng_selection toy_blake3 toy_chacha 7 1) (@rng_selection toy_blake3 toy_chacha 7 1)
    (mkSelectionChoice 5 1)) as [_ (b & Hb & _ & Hmax & _)]; [vm_compute; reflexivity..|].
  exists b. split; [exact Hb|exact Hmax].
Defined.
