(* ===== verification/Staged.v ===== *)
(** The staged policy (crates/orch-core/src/policy/staged.rs): one draw decides
    between the candidates at the tree's highest stage and the others, each
    set standing in for the other when empty; an inner policy picks from the
    chosen set and its index is mapped back to the full candidate list. *)
From S2P Require Import Prelude Float64 Types Tree Frontier Mirror Plateau Rng Policy Ucb Softmax.
Local Open Scope string_scope.
Local Open Scope list_scope.

Record StagedPolicy := mkStagedPolicy { staged_total_expansions : N }.
Definition StagedPolicy_new : StagedPolicy := mkStagedPolicy 0.
Definition StagedPolicy_set_total_expansions (n : N) (p : StagedPolicy) : StagedPolicy := mkStagedPolicy n.

Record StagedSelectionParams := mkStagedSelectionParams {
  sp_target_stage : Stage;
  sp_inner : PolicyKind;
  sp_epsilon_regress : f64;
  sp_temperature : f64;
  sp_ucb_c : f64;
  sp_total_expansions : N
}.

Definition validate_staged_config (inner : PolicyKind) (epsilon : f64) : res PolicyError unit :=
  if decide (inner = Staged) then Err (InvalidConfig "selection.staged.inner")
  else if negb (is_finite epsilon) || negb (f64_leb f64_zero epsilon && f64_leb epsilon f64_one)
  then Err (InvalidWeight "selection.staged.epsilon_regress" epsilon)
  else Ok tt.

(** The highest stage of any node, by a scan over all ids. *)
Definition target_stage_from_tree (t : Tree) : res PolicyError Stage :=
  ok_or (fold_left (fun target raw_id =>
      match get t raw_id with
      | Some record =>
        Some match target with None => nr_stage record | Some current => N.max current (nr_stage record) end
      | None => target
      end) (N.of_nat <$> seq 0 (N.to_nat (next_id t))) None)
    EmptyCandidateSet.

(** [PartitionEntry]: original index and candidate. *)
Definition partition_candidates (candidates : list CandidateSnapshot) (target : Stage)
    : list (nat * CandidateSnapshot) * list (nat * CandidateSnapshot) :=
  (filter (fun e => cd_stage e.2 = target) (imap pair candidates),
   filter (fun e => cd_stage e.2 <> target) (imap pair candidates)).

(** The set the draw selects; [None] when both are empty. *)
Definition staged_pool (regress_mix : bool) (leading regress : list (nat * CandidateSnapshot))
    : option (list (nat * CandidateSnapshot)) :=
  match regress_mix, regress, leading with
  | true, _ :: _, _ => Some regress
  | true, [], _ :: _ => Some leading
  | false, _, _ :: _ => Some leading
  | false, _ :: _, [] => Some regress
  | _, [], [] => None
  end.

Section Staged.
Context `{HL : Libm, HC : ChaCha12}.

Definition dispatch_inner (candidates : list CandidateSnapshot) (inner : PolicyKind) (temperature c : f64)
    (total_expansions : N) : st DeterministicRng PolicyError SelectionChoice :=
  match inner with
  | Softmax => softmax_select_from_candidates candidates temperature
  | Ucb => lift_res (ucb_select_from_candidates candidates total_expansions c)
  | Staged => lift_res (Err (InvalidConfig "selection.staged.inner"))
  end.

Definition staged_select_from_candidates (candidates : list CandidateSnapshot) (params : StagedSelectionParams)
    : st DeterministicRng PolicyError SelectionChoice :=
  _ ← lift_res (validate_staged_config (sp_inner params) (sp_epsilon_regress params));
  let partition := partition_candidates candidates (sp_target_stage params) in
  unit ← next_unit_f64;
  let regress_mix := f64_ltb unit (sp_epsilon_regress params) in
  pool ← lift_res (ok_or (staged_pool regress_mix partition.1 partition.2) EmptyCandidateSet);
  inner_choice ← dispatch_inner pool.*2 (sp_inner params) (sp_temperature params) (sp_ucb_c params)
    (sp_total_expansions params);
  original ← lift_res (expect (vec_get pool (candidate_index inner_choice)));
  mret (mkSelectionChoice (selected inner_choice) (N.of_nat original.1)).

Definition staged_select (p : StagedPolicy) (ctx : PolicyContext)
    : st DeterministicRng PolicyError SelectionChoice :=
  candidates ← lift_res (candidate_snapshots ctx);
  target_stage ← lift_res (target_stage_from_tree (ctx_tree ctx));
  let s := ctx_selection ctx in
  staged_select_from_candidates candidates
    (mkStagedSelectionParams target_stage (staged_inner (staged s)) (epsilon_regress (staged s))
       (temperature s) (ucb_c s) (staged_total_expansions p)).

(** ** The pieces *)

Lemma dispatch_inner_laws l inner t c n rng r rng' :
  dispatch_inner l inner t c n rng = (r, rng') ->
  rng_spec rng' = rng_spec rng /\ (rng_draws rng <= rng_draws rng' <= rng_draws rng + 1)%N /\
  forall choice, r = Ok choice -> exists b, l !! N.to_nat (candidate_index choice) = Some b /\
    cd_id b = selected choice.
Proof.
  destruct inner; cbn [dispatch_inner].
  - apply softmax_select_from_candidates_laws.
  - intros [= <- <-]. split; [done|]. split; [lia|]. intros choice Hc.
    destruct (ucb_select_from_candidates_Ok _ _ _ _ Hc) as (b & v & Hb & Hid & _). eauto.
  - intros [= <- <-]. split; [done|]. split; [lia|done].
Qed.

Lemma filter_imap_lookup (P : nat * CandidateSnapshot -> Prop) `{forall x, Decision (P x)} l k e :
  filter P (imap pair l) !! k = Some e -> l !! e.1 = Some e.2 /\ P e.
Proof.
  intros Hk%list_elem_of_lookup_2. apply list_elem_of_filter in Hk as [HP Hin]. split; [|done].
  apply list_elem_of_lookup in Hin as [j Hj]. apply ids_imap_pair in Hj as [<- Hl]. done.
Qed.

Lemma fmap_snd_imap_pair (l : list CandidateSnapshot) : (imap pair l).*2 = l.
Proof. apply list_eq. intros i. rewrite list_lookup_fmap, list_lookup_imap. by destruct (l !! i). Qed.

Lemma filter_imap_snd (P : CandidateSnapshot -> Prop) `{forall x, Decision (P x)}
    (dec : forall e : nat * CandidateSnapshot, Decision (P e.2)) l :
  (filter (fun e => P e.2) (imap pair l)).*2 = filter P l.
Proof.
  rewrite <- (fmap_snd_imap_pair l) at 2. generalize (imap pair l).
  induction l0 as [|x xs IH]; [done|]. cbn [fmap list_fmap].
  destruct (decide (P x.2)); [rewrite !filter_cons_True by done|rewrite !filter_cons_False by done]; cbn;
    by rewrite <- IH.
Qed.

(** The pool is one side of the partition. *)
Lemma staged_pool_Some mix leading regress pool : staged_pool mix leading regress = Some pool ->
  (pool = leading /\ (mix = false \/ regress = []) \/ pool = regress /\ (mix = true \/ leading = [])) /\
  pool <> [].
Proof. destruct mix, leading, regress; cbn; naive_solver. Qed.

Lemma staged_select_from_candidates_Ok candidates params rng choice rng' :
  staged_select_from_candidates candidates params rng = (Ok choice, rng') ->
  exists u rng1 pool inner_choice e,
    next_unit_f64 (E:=PolicyError) rng = (Ok u, rng1) /\
    staged_pool (f64_ltb u (sp_epsilon_regress params))
      (partition_candidates candidates (sp_target_stage params)).1
      (partition_candidates candidates (sp_target_stage params)).2 = Some pool /\
    dispatch_inner pool.*2 (sp_inner params) (sp_temperature params) (sp_ucb_c params)
      (sp_total_expansions params) rng1 = (Ok inner_choice, rng') /\
    pool !! N.to_nat (candidate_index inner_choice) = Some e /\
    choice = mkSelectionChoice (selected inner_choice) (N.of_nat e.1) /\
    candidates !! e.1 = Some e.2 /\ cd_id e.2 = selected inner_choice.
Proof.
  unfold staged_select_from_candidates. cbv zeta.
  intros ([] & r0 & Hv & (u & r1 & Hu & (pool & r2 & Hp & (ic & r3 & Hd & (e & r4 & He & Hret)%st_bind_Ok)%st_bind_Ok)%st_bind_Ok)%st_bind_Ok)%st_bind_Ok.
  unfold lift_res in *. injection Hv as _ <-. injection Hp as Hp <-. apply ok_or_Ok in Hp.
  injection He as He <-. apply expect_Ok, vec_get_Some in He. injection Hret as <- <-.
  exists u, r1, pool, ic, e. split_and!; auto.
  - destruct (staged_pool_Some _ _ _ _ Hp) as [[[-> _]|[-> _]] _];
      by apply filter_imap_lookup in He as [? _].
  - destruct (dispatch_inner_laws _ _ _ _ _ _ _ _ Hd) as (_ & _ & Hc).
    destruct (Hc ic eq_refl) as (b & Hb & Hid). rewrite list_lookup_fmap, He in Hb. cbn in Hb.
    congruence.
Qed.

Lemma staged_select_from_candidates_draws candidates params rng r rng' :
  staged_select_from_candidates candidates params rng = (r, rng') ->
  rng_spec rng' = rng_spec rng /\ (rng_draws rng <= rng_draws rng' <= rng_draws rng + 2)%N.
Proof.
  unfold staged_select_from_candidates. cbv zeta. rewrite st_bind_run. unfold lift_res at 1.
  destruct (validate_staged_config _ _) as [[]|e|]; [|intros [= _ <-]; split; [done|lia]..].
  rewrite st_bind_run.
  destruct (next_unit_f64 (E:=PolicyError) rng) as [ru r1] eqn:Hu.
  assert (rng_spec r1 = rng_spec rng /\ (rng_draws rng <= rng_draws r1 <= rng_draws rng + 1)%N) as [Hs Hd].
  { destruct (next_unit_f64_cases (E:=PolicyError) rng) as [(u & r2 & Hu' & Hd & Hs)|[Hov Hp]].
    - rewrite Hu in Hu'. injection Hu' as -> ->. split; [done|lia].
    - unfold next_unit_f64, next_u64 in Hu. rewrite st_bind_run, draw_run, decide_False in Hu by lia.
      injection Hu as <- <-. cbn. split; [done|lia]. }
  destruct ru as [u|e|]; [|intros [= _ <-]; split; [done|lia]..].
  rewrite st_bind_run. unfold lift_res at 1.
  destruct (ok_or _ _) as [pool|e|]; [|intros [= _ <-]; split; [done|lia]..].
  rewrite st_bind_run. destruct (dispatch_inner _ _ _ _ _ r1) as [ri r2] eqn:Hi.
  destruct (dispatch_inner_laws _ _ _ _ _ _ _ _ Hi) as (Hs2 & Hd2 & _).
  destruct ri as [ic|e|]; [|intros [= _ <-]; split; [congruence|lia]..].
  rewrite st_bind_run. unfold lift_res. destruct (expect _); intros [= _ <-]; split; (congruence || lia).
Qed.

(** The scan computes the maximum stage. *)
Lemma target_stage_fold t ids acc :
  fold_left (fun target raw_id =>
      match get t raw_id with
      | Some record =>
        Some match target with None => nr_stage record | Some current => N.max current (nr_stage record) end
      | None => target
      end) ids acc =
  match acc, omap (fun id => nr_stage <$> get t id) ids with
  | None, [] => None
  | None, x :: xs => Some (fold_left N.max xs x)
  | Some a, xs => Some (fold_left N.max xs a)
  end.
Proof.
  revert acc. induction ids as [|id ids IH]; intros acc; cbn; [by destruct acc|].
  destruct (get t id) as [r|]; rewrite IH; [|done]. cbn. by destruct acc.
Qed.

(** A tree with a node has a target stage. *)
Lemma target_stage_exists t id r e : get t id = Some r -> target_stage_from_tree t <> Err e.
Proof.
  intros Hr. unfold target_stage_from_tree. rewrite target_stage_fold.
  assert (nr_stage r ∈ omap (fun id => nr_stage <$> get t id) (N.of_nat <$> seq 0 (N.to_nat (next_id t)))) as Hin.
  { apply list_elem_of_omap. exists id. split; [|by rewrite Hr].
    apply list_elem_of_fmap. exists (N.to_nat id). split; [lia|]. apply elem_of_seq.
    apply get_Some, lookup_lt_Some in Hr. unfold next_id. lia. }
  destruct (omap _ _); [by apply elem_of_nil in Hin|done].
Qed.

Lemma partition_nonempty l stage :
  l <> [] -> (partition_candidates l stage).1 <> [] \/ (partition_candidates l stage).2 <> [].
Proof.
  destruct l as [|c l]; [done|]. intros _. unfold partition_candidates. cbn [imap fst snd].
  destruct (decide (cd_stage c = stage)) as [Hs|Hs].
  - left. rewrite filter_cons_True by done. done.
  - right. rewrite filter_cons_True by done. done.
Qed.

Lemma not_empty_staged l params rng : l <> [] ->
  not_empty_error (staged_select_from_candidates l params rng).1.
Proof.
  intros Hne. unfold staged_select_from_candidates. cbv zeta.
  destruct (validate_staged_config _ _) as [[]|e|] eqn:Hv.
  2: { unfold validate_staged_config in Hv. intros [= ->]. destruct (decide _); [done|]. by destruct (_ || _). }
  2: { unfold validate_staged_config in Hv. destruct (decide _); [done|]. by destruct (_ || _). }
  rewrite lift_Ok_bind, st_bind_run.
  destruct (next_unit_f64_cases (E:=PolicyError) rng) as [(u & r2 & Hu & _)|[_ Hp]].
  2: { destruct (next_unit_f64 rng) as [[]]; cbn in Hp; done. }
  rewrite Hu. destruct (staged_pool _ _ _) as [pool|] eqn:Hpool.
  2: { exfalso. destruct (partition_nonempty l (sp_target_stage params) Hne);
       destruct (f64_ltb _ _), (partition_candidates l (sp_target_stage params)).1,
         (partition_candidates l (sp_target_stage params)).2; done. }
  cbn [ok_or]. rewrite lift_Ok_bind, st_bind_run.
  assert (pool.*2 <> []) as Hpn.
  { destruct (staged_pool_Some _ _ _ _ Hpool) as [_ Hn]. by destruct pool. }
  assert (not_empty_error (dispatch_inner pool.*2 (sp_inner params) (sp_temperature params)
    (sp_ucb_c params) (sp_total_expansions params) r2).1) as Hd.
  { destruct (sp_inner params); cbn [dispatch_inner];
      [by apply not_empty_softmax|by apply not_empty_ucb|done]. }
  destruct (dispatch_inner _ _ _ _ _ r2) as [[ic|e|] r3]; [|by cbn in *|done].
  rewrite st_bind_run. unfold lift_res. by destruct (vec_get _ _).
Qed.

Global Instance staged_policy : SelectionPolicy StagedPolicy :=
  {| policy_kind := fun _ => Staged; policy_select := staged_select |}.

Global Instance staged_laws : SelectionPolicyLaws StagedPolicy.
Proof.
  split.
  - intros p ctx rng choice rng' (l & r1 & Hl & (st & r2 & Hst & Hsel)%st_bind_Ok)%st_bind_Ok.
    unfold lift_res in *. injection Hl as Hl <-. injection Hst as Hst <-.
    apply staged_select_from_candidates_Ok in Hsel
      as (u & r1' & pool & ic & e & _ & _ & _ & _ & -> & Hc & Hid).
    exists l, e.2. cbn. by rewrite Nat2N.id.
  - intros p ctx rng r rng' Hs. cbn in Hs. unfold staged_select in Hs. rewrite st_bind_run in Hs.
    unfold lift_res at 1 in Hs. destruct (candidate_snapshots ctx) as [l|e|];
      [|injection Hs as _ <-; split; [done|lia]..].
    rewrite st_bind_run in Hs. unfold lift_res in Hs.
    destruct (target_stage_from_tree _) as [st|e|]; [|injection Hs as _ <-; split; [done|lia]..].
    by apply staged_select_from_candidates_draws in Hs.
  - intros p ctx rng rng' Hs. cbn in Hs. unfold staged_select in Hs. rewrite st_bind_run in Hs.
    unfold lift_res at 1 in Hs. destruct (candidate_snapshots ctx) as [l|e|] eqn:El;
      [|by injection Hs as -> _|done].
    exfalso. destruct (candidate_snapshots_Ok _ _ El) as (cutoff & norm & Hids & Hne & _).
    destruct l as [|c0 l0]; [done|].
    destruct (deterministic_candidates_in_tree _ _ _ (cd_id c0) Hids) as [(r0 & Hr0 & _) _]; [left|].
    rewrite st_bind_run in Hs. unfold lift_res in Hs.
    destruct (target_stage_from_tree (ctx_tree ctx)) as [st|e|] eqn:Et.
    + apply (not_empty_staged (c0 :: l0) (mkStagedSelectionParams st (staged_inner (staged (ctx_selection ctx)))
        (epsilon_regress (staged (ctx_selection ctx))) (temperature (ctx_selection ctx))
        (ucb_c (ctx_selection ctx)) (staged_total_expansions p)) rng); [done|]. by rewrite Hs.
    + by apply (target_stage_exists _ _ _ e Hr0) in Et.
    + done.
Qed.

Lemma fold_max_spec xs a : (fold_left N.max xs a = a \/ fold_left N.max xs a ∈ xs) /\
  (a <= fold_left N.max xs a)%N /\ Forall (fun x => x <= fold_left N.max xs a)%N xs.
Proof.
  revert a. induction xs as [|x xs IH]; intros a; cbn; [split_and!; auto; lia|].
  destruct (IH (N.max a x)) as (H1 & H2 & H3). split_and!.
  - destruct H1 as [H1|H1]; [|right; by right]. rewrite H1.
    destruct (N.max_spec a x) as [[_ ->]|[_ ->]]; [right; left|by left].
  - lia.
  - constructor; [lia|done].
Qed.

Lemma target_stage_spec t stage : target_stage_from_tree t = Ok stage ->
  (exists id r, get t id = Some r /\ nr_stage r = stage) /\
  forall id r, get t id = Some r -> (nr_stage r <= stage)%N.
Proof.
  unfold target_stage_from_tree. rewrite target_stage_fold. intros Ht%ok_or_Ok.
  assert (forall id r, get t id = Some r ->
    nr_stage r ∈ omap (fun id => nr_stage <$> get t id) (N.of_nat <$> seq 0 (N.to_nat (next_id t)))) as Hin.
  { intros id r Hr. apply list_elem_of_omap. exists id. split; [|by rewrite Hr].
    apply list_elem_of_fmap. exists (N.to_nat id). split; [lia|]. apply elem_of_seq.
    apply get_Some, lookup_lt_Some in Hr. unfold next_id. lia. }
  assert (forall s, s ∈ omap (fun id => nr_stage <$> get t id) (N.of_nat <$> seq 0 (N.to_nat (next_id t))) ->
    exists id r, get t id = Some r /\ nr_stage r = s) as Hout.
  { intros s Hs. apply list_elem_of_omap in Hs as (id & _ & Hs).
    destruct (get t id) as [r|] eqn:Hr; [|done]. injection Hs as Hs. eauto. }
  destruct (omap _ _) as [|x xs] eqn:Eo; [done|]. injection Ht as <-.
  destruct (fold_max_spec xs x) as (H1 & H2 & H3). split.
  - apply Hout. destruct H1 as [->|]; [left|by right].
  - intros id r Hr. specialize (Hin _ _ Hr). rewrite Forall_forall in H3.
    apply elem_of_cons in Hin as [->|Hi]; [done|by apply H3].
Qed.

(** The staged policy: its target is the highest stage of any node of
    the tree; one draw below epsilon prefers the candidates of the other
    stages, otherwise those at the target stage, and an empty preference
    falls back to the other side; the inner policy (never staged itself)
    chooses within that pool, and the returned index is the chosen
    candidate's place in the full list. *)
Theorem staged_selects_from_pool (p : StagedPolicy) (ctx : PolicyContext) (rng rng' : DeterministicRng)
    (choice : SelectionChoice) :
  staged_select p ctx rng = (Ok choice, rng') ->
  exists l stage u rng1 c,
    candidate_snapshots ctx = Ok l /\ target_stage_from_tree (ctx_tree ctx) = Ok stage /\
    (forall id r, get (ctx_tree ctx) id = Some r -> (nr_stage r <= stage)%N) /\
    next_unit_f64 (E:=PolicyError) rng = (Ok u, rng1) /\
    l !! N.to_nat (candidate_index choice) = Some c /\ cd_id c = selected choice /\
    staged_inner (staged (ctx_selection ctx)) <> Staged /\
    let leading := filter (fun c => cd_stage c = stage) l in
    let regress := filter (fun c => cd_stage c <> stage) l in
    let mix := f64_ltb u (epsilon_regress (staged (ctx_selection ctx))) in
    (if decide (cd_stage c = stage) then mix = false \/ regress = [] else mix = true \/ leading = []) /\
    exists inner_choice,
      dispatch_inner (if decide (cd_stage c = stage) then leading else regress)
        (staged_inner (staged (ctx_selection ctx))) (temperature (ctx_selection ctx))
        (ucb_c (ctx_selection ctx)) (staged_total_expansions p) rng1 = (Ok inner_choice, rng') /\
      selected inner_choice = selected choice.
Proof.
  intros (l & r1 & Hl & (stage & r2 & Hst & Hsel)%st_bind_Ok)%st_bind_Ok.
  unfold lift_res in *. injection Hl as Hl <-. injection Hst as Hst <-.
  assert (staged_inner (staged (ctx_selection ctx)) <> Staged) as Hinner.
  { intros Heq. unfold staged_select_from_candidates in Hsel. cbn [sp_inner] in Hsel.
    rewrite Heq in Hsel. unfold validate_staged_config in Hsel. cbn in Hsel. done. }
  apply staged_select_from_candidates_Ok in Hsel
    as (u & r1' & pool & ic & e & Hu & Hpool & Hd & He & -> & Hc & Hid).
  cbn [sp_epsilon_regress sp_target_stage sp_inner sp_temperature sp_ucb_c sp_total_expansions] in *.
  exists l, stage, u, r1', e.2. cbn [candidate_index selected]. rewrite Nat2N.id.
  destruct (target_stage_spec _ _ Hst) as [_ Hmax]. repeat (split; [done|]). cbv zeta.
  assert ((filter (fun e => cd_stage e.2 = stage) (imap pair l)).*2 =
    filter (fun c => cd_stage c = stage) l) as Hf1
    by exact (filter_imap_snd (fun c => cd_stage c = stage) _ l).
  assert ((filter (fun e => cd_stage e.2 <> stage) (imap pair l)).*2 =
    filter (fun c => cd_stage c <> stage) l) as Hf2
    by exact (filter_imap_snd (fun c => cd_stage c <> stage) _ l).
  destruct (staged_pool_Some _ _ _ _ Hpool) as [[[-> Hor]|[-> Hor]] _];
    apply filter_imap_lookup in He as [_ Hstage]; cbn [partition_candidates fst snd] in *.
  - rewrite !decide_True by done. rewrite Hf1 in Hd. split; [|eauto].
    destruct Hor as [|Hr]; [by left|right]. by rewrite <- Hf2, Hr.
  - rewrite !decide_False by done. rewrite Hf2 in Hd. split; [|eauto].
    destruct Hor as [|Hr]; [by left|right]. by rewrite <- Hf1, Hr.
Qed.
End Staged.

Definition sample_staged_selection : SelectionConfig :=
  mkSelectionConfig Staged f64_one f64_0_5 f64_0_3 f64_0_1 f64_one f64_1_4 (mkStagedConfig Ucb f64_0_5) 64 8.
Definition sample_staged_context : PolicyContext :=
  PolicyContext_new (ctx_tree sample_context) (ctx_frontier sample_context) (ctx_mirror sample_context)
    (ctx_plateau sample_context) sample_staged_selection.

Lemma staged_selects_from_pool_witness :
  exists choice stage, (@staged_select toy_libm toy_chacha StagedPolicy_new sample_staged_context
      (@rng_selection toy_blake3 toy_chacha 7 1)).1 = Ok choice /\
    target_stage_from_tree (ctx_tree sample_staged_context) = Ok stage.
Proof.
  destruct (@staged_select toy_libm toy_chacha StagedPolicy_new sample_staged_context
    (@rng_selection toy_blake3 toy_chacha 7 1)) as [r rng'] eqn:E.
  destruct r as [choice|e|]; [|vm_compute in E; discriminate E|vm_compute in E; discriminate E].
  destruct (staged_selects_from_pool _ _ _ _ _ E) as (l & stage & u & rng1 & c & _ & Ht & _).
  exists choice, stage. split; [reflexivity|exact Ht].
Defined.
