(* ===== verification/Client.v ===== *)
(** The client boundary (crates/orch-clients/src/lib.rs and the metadata part
    of crates/orch-clients/src/snapshot_store.rs): client errors, metadata
    keys, generations and expectations, and the interface [MetadataStore] of
    the service that keeps checkpoints and write-ahead-log entries. *)
From S2P Require Import Prelude.
Local Open Scope string_scope.
Local Open Scope list_scope.

(** ** Errors *)

Inductive ClientErrorKind :=
| InvalidRequest | FailedPrecondition | NotFound | AlreadyExists | ResourceExhausted
| Unavailable | DataLoss | Internal.

Global Instance ClientErrorKind_eq_dec : EqDecision ClientErrorKind.
Proof. solve_decision. Defined.

Definition kind_as_str (k : ClientErrorKind) : string :=
  match k with
  | InvalidRequest => "invalid request"
  | FailedPrecondition => "failed precondition"
  | NotFound => "not found"
  | AlreadyExists => "already exists"
  | ResourceExhausted => "resource exhausted"
  | Unavailable => "unavailable"
  | DataLoss => "data loss"
  | Internal => "internal"
  end.

Record ClientError := mkClientError { ce_kind : ClientErrorKind; ce_message : string }.

Global Instance ClientError_eq_dec : EqDecision ClientError.
Proof. solve_decision. Defined.

Definition ClientError_fmt (e : ClientError) : string :=
  if decide (ce_message e = "") then kind_as_str (ce_kind e)
  else kind_as_str (ce_kind e) +:+ ": " +:+ ce_message e.

(** ** Metadata *)

Abbreviation MetadataGeneration := N (only parsing).
Abbreviation MetadataKey := string (only parsing).
Definition CREATE_ONLY : MetadataGeneration := 0%N.

Inductive MetadataExpectation :=
| Unconditional
| CreateOnly
| Generation (generation : MetadataGeneration).

Definition wire_generation (e : MetadataExpectation) : option MetadataGeneration :=
  match e with
  | Unconditional => None
  | CreateOnly => Some CREATE_ONLY
  | Generation g => Some g
  end.

(** [{seq:020}]: decimal digits, zero-padded to 20; a [u64] never has more. *)
Definition digit (n : N) : string := String (Ascii.ascii_of_N (48 + n)) "".
Fixpoint fixed_digits (width : nat) (n : N) : string :=
  match width with
  | O => ""
  | S w => fixed_digits w (n / 10) +:+ digit (n mod 10)
  end.

Definition checkpoint_key (experiment_id : string) : MetadataKey := "orch/ckpt/" +:+ experiment_id.
Definition wal_key (experiment_id : string) (seq : N) : MetadataKey :=
  "orch/wal/" +:+ experiment_id +:+ "/" +:+ fixed_digits 20 seq.

(** ** Keys are distinct *)

Lemma digit_inj a b : (a < 10)%N -> (b < 10)%N -> digit a = digit b -> a = b.
Proof.
  intros Ha Hb [= H]. apply (f_equal Ascii.N_of_ascii) in H. rewrite !Ascii.N_ascii_embedding in H by lia. lia.
Qed.

Lemma string_length_app (a b : string) : String.length (a +:+ b) = (String.length a + String.length b)%nat.
Proof. induction a as [|x a IH]; [done|]. exact (f_equal S IH). Qed.

Lemma fixed_digits_length w n : String.length (fixed_digits w n) = w.
Proof.
  revert n. induction w as [|w IH]; intros n; [done|]. cbn [fixed_digits].
  rewrite string_length_app, IH. cbn. lia.
Qed.

Lemma string_app_inj (a b c d : string) : String.length a = String.length c ->
  a +:+ b = c +:+ d -> a = c /\ b = d.
Proof.
  revert c. induction a as [|x a IH]; intros [|y c] Hl; try done. cbn in *.
  intros [= -> Happ]. injection Hl as Hl. destruct (IH _ Hl Happ) as [-> ->]. done.
Qed.

Lemma string_app_inj_r (a b c d : string) : String.length b = String.length d ->
  a +:+ b = c +:+ d -> a = c /\ b = d.
Proof.
  intros Hl Happ. apply string_app_inj; [|done].
  apply (f_equal String.length) in Happ. rewrite !string_length_app in Happ. lia.
Qed.

Lemma fixed_digits_inj w n m : (n < 10 ^ N.of_nat w)%N -> (m < 10 ^ N.of_nat w)%N ->
  fixed_digits w n = fixed_digits w m -> n = m.
Proof.
  revert n m. induction w as [|w IH]; intros n m Hn Hm; [cbn in *; lia|].
  rewrite Nat2N.inj_succ, N.pow_succ_r' in Hn, Hm. cbn [fixed_digits].
  intros [Hq Hr]%string_app_inj; [|by rewrite !fixed_digits_length].
  apply IH in Hq; [|apply N.Div0.div_lt_upper_bound; lia..].
  apply digit_inj in Hr; [|apply N.mod_lt; lia..].
  rewrite (N.div_mod n 10), (N.div_mod m 10) by lia. by rewrite Hq, Hr.
Qed.

Lemma wal_key_inj id id' n m : (n <= u64_max)%N -> (m <= u64_max)%N ->
  wal_key id n = wal_key id' m -> id = id' /\ n = m.
Proof.
  intros Hn Hm [_ H]%string_app_inj; [|done].
  apply string_app_inj_r in H as [-> H]; [|by rewrite !string_length_app, !fixed_digits_length].
  apply string_app_inj in H as [_ H]; [|done]. split; [done|].
  apply (fixed_digits_inj 20); [| |done]; (eapply N.le_lt_trans; [eassumption|done]).
Qed.

Lemma wal_key_not_checkpoint id id' n : wal_key id n <> checkpoint_key id'.
Proof. done. Qed.

(** ** The metadata service *)

(** The three calls the orchestrator makes, on the service's state [W]. *)
Class MetadataStore (W : Type) := {
  get_metadata : MetadataKey -> st W ClientError (list N * MetadataGeneration);
  put_metadata : MetadataKey -> list N -> MetadataExpectation -> st W ClientError MetadataGeneration;
  delete_metadata : MetadataKey -> MetadataExpectation -> st W ClientError unit
}.

(** Whether an expectation admits a write over the current entry. *)
Definition expectation_met (e : MetadataExpectation) (current : option (list N * MetadataGeneration)) : Prop :=
  match e with
  | Unconditional => True
  | CreateOnly => current = None
  | Generation g => snd <$> current = Some g
  end.

(** What the calls promise of a store in order ([store_ok]): reads do not
    change the entries and report what is there; a write that succeeds met
    its expectation, has its effect and changes the generation; a call that
    fails has no effect. *)
Class MetadataStoreLaws (W : Type) {MS : MetadataStore W} := {
  store_ok : W -> Prop;
  entries_of : W -> gmap string (list N * MetadataGeneration);
  get_laws : forall k w r w', store_ok w -> get_metadata k w = (r, w') ->
    store_ok w' /\ entries_of w' = entries_of w /\ r <> Panic /\
    (forall v, r = Ok v -> entries_of w !! k = Some v) /\
    (forall e, r = Err e -> ce_kind e = NotFound -> entries_of w !! k = None);
  put_laws : forall k v x w r w', store_ok w -> put_metadata k v x w = (r, w') ->
    store_ok w' /\ r <> Panic /\
    (forall g, r = Ok g -> expectation_met x (entries_of w !! k) /\
       entries_of w' = <[k := (v, g)]> (entries_of w) /\
       snd <$> entries_of w !! k <> Some g) /\
    (forall e, r = Err e -> entries_of w' = entries_of w);
  delete_laws : forall k x w r w', store_ok w -> delete_metadata k x w = (r, w') ->
    store_ok w' /\ r <> Panic /\
    (r = Ok tt -> entries_of w' = delete k (entries_of w)) /\
    (forall e, r = Err e -> entries_of w' = entries_of w /\
       (ce_kind e = NotFound -> entries_of w !! k = None))
}.
