(* ===== verification/Retry.v ===== *)
(** Retry policy (crates/orch-sched/src/retry.rs): the capped exponential
    backoff and the two retry loops, over an abstract call on a state whose
    clock the sleeps advance. *)
From S2P Require Import Prelude Types Reasons Client.

(** A duration is a number of nanoseconds, up to the largest [Duration]. *)
Definition nanos_per_sec : N := 1000000000.
Definition nanos_per_milli : N := 1000000.
Definition duration_max : N := u64_max * nanos_per_sec + 999999999.

Definition from_secs (s : N) : N := s * nanos_per_sec.
Definition from_millis (ms : N) : N := ms * nanos_per_milli.

Definition duration_checked_mul (d factor : N) : option N :=
  if decide (d * factor <= duration_max)%N then Some (d * factor)%N else None.

Definition DETERMINISTIC_RETRIES_EXHAUSTED_REASON : string := REASON_JOB_RETRIES_EXHAUSTED.
Definition BACKOFF_CAP : N := from_secs 10.

Record RetryPolicy := mkRetryPolicy {
  rp_job_timeout : N;
  rp_retry_max : N;
  rp_backoff_base : N
}.

Definition from_scheduling (c : SchedulingConfig) : RetryPolicy :=
  mkRetryPolicy (from_secs (job_timeout_s c)) (retry_max c) (from_millis (retry_backoff_ms c)).

(** [1u32.checked_shl(attempt).unwrap_or(u32::MAX)] *)
Definition backoff_factor (attempt : N) : N :=
  if (attempt <? 32)%N then (2 ^ attempt)%N else u32_max.

Definition backoff (p : RetryPolicy) (attempt : N) : N :=
  N.min (default BACKOFF_CAP (duration_checked_mul (rp_backoff_base p) (backoff_factor attempt))) BACKOFF_CAP.

Definition is_retryable (e : ClientError) : bool :=
  match ce_kind e with
  | Unavailable | Internal | DataLoss | ResourceExhausted => true
  | _ => false
  end.

(** The clock of the state a call runs in: [tokio::time::Instant::now] and
    [tokio::time::sleep], in nanoseconds. *)
Class Runtime (S : Type) := { now : S -> N; sleep : N -> S -> S }.

Section Retry.
Context {S A : Type} `{RT : Runtime S}.

(** The loop from attempt number [attempt] on, with [remaining] attempts left
    before [attempt] reaches the limit. *)
Fixpoint retry_from (p : RetryPolicy) (remaining : nat) (attempt : N) (call : st S ClientError A)
    : st S ClientError A := fun s =>
  match call s with
  | (Ok value, s') => (Ok value, s')
  | (Err error, s') =>
    if negb (is_retryable error) then (Err error, s')
    else match remaining with
         | O => (Err error, s')
         | Datatypes.S rest => retry_from p rest (attempt + 1) call (sleep (backoff p attempt) s')
         end
  | (Panic, s') => (Panic, s')
  end.

Definition retry_rpc (p : RetryPolicy) (call : st S ClientError A) : st S ClientError A :=
  retry_from p (N.to_nat (rp_retry_max p)) 0 call.

(** Every attempt of a job is bounded by the job timeout. *)
Definition run_job_with_retry {Spec} (run_job_deadline : Spec -> option N -> st S ClientError A)
    (p : RetryPolicy) (spec : Spec) : st S ClientError A :=
  retry_from p (N.to_nat (rp_retry_max p)) 0 (run_job_deadline spec (Some (rp_job_timeout p))).

(** [failed_attempts p call a n s s']: attempts number [a] to [a + n - 1] all
    failed with retryable errors, each followed by its backoff. *)
Inductive failed_attempts (p : RetryPolicy) (call : st S ClientError A) : N -> nat -> S -> S -> Prop :=
| failed_none a s : failed_attempts p call a 0 s s
| failed_more a n s e t s' : call s = (Err e, t) -> is_retryable e = true ->
    failed_attempts p call (a + 1) n (sleep (backoff p a) t) s' ->
    failed_attempts p call a (Datatypes.S n) s s'.

(** When the loop stops after a call. *)
Definition final_outcome (r : res ClientError A) (last_attempt : bool) : Prop :=
  match r with Err e => is_retryable e = false \/ last_attempt = true | _ => True end.

Lemma retry_from_spec p call remaining : forall a s r s',
  retry_from p remaining a call s = (r, s') <->
  exists n u, (n <= remaining)%nat /\ failed_attempts p call a n s u /\ call u = (r, s') /\
    final_outcome r (bool_decide (n = remaining)).
Proof.
  induction remaining as [|rest IH]; intros a s r s'; cbn [retry_from];
    destruct (call s) as [[v|e|] t] eqn:Hc.
  1,3,4,6: split;
    [intros [= <- <-]; exists 0%nat, s; split_and!; [lia|constructor|done|done]
    |intros (n & u & _ & Hf & Hu & _); inversion Hf; subst; congruence].
  - split.
    + intros H. exists 0%nat, s. destruct (negb (is_retryable e)) eqn:Hr; injection H as <- <-;
        (split_and!; [lia|constructor|done|]); [left; by apply negb_true_iff|by right].
    + intros (n & u & Hn & Hf & Hu & _). inversion Hf; subst; [|lia]. by destruct (negb _); congruence.
  - destruct (is_retryable e) eqn:Hr; cbn [negb].
    + rewrite IH. split.
      * intros (n & u & Hn & Hf & Hu & Ho). exists (Datatypes.S n), u. split_and!; [lia|by econstructor|done|].
        by erewrite bool_decide_ext; [exact Ho|lia].
      * intros (n & u & Hn & Hf & Hu & Ho). inversion Hf as [|a' n' s0 e' t' s0' Hc' _ Hf']; subst.
        { rewrite Hc in Hu. injection Hu as <- <-. cbn in Ho. rewrite Hr in Ho.
          by destruct Ho as [|Ho%bool_decide_eq_true]. }
        rewrite Hc in Hc'. injection Hc' as <- <-. exists n', u. split_and!; [lia|done|done|].
        by erewrite bool_decide_ext; [exact Ho|lia].
    + split.
      * intros [= <- <-]. exists 0%nat, s. split_and!; [lia|constructor|done|by left].
      * intros (n & u & _ & Hf & Hu & _). inversion Hf; subst; congruence.
Qed.

(** An invariant of failed calls and of sleeping holds before the last call. *)
Lemma retry_rpc_last (I : S -> Prop) p call s r s' :
  (forall d u, I u -> I (sleep d u)) ->
  (forall u e u', I u -> call u = (Err e, u') -> I u') ->
  I s -> retry_rpc p call s = (r, s') -> exists u, I u /\ call u = (r, s').
Proof.
  intros Hsleep Hfail Hs (n & u & _ & Hf & Hu & _)%retry_from_spec. exists u. split; [|done].
  clear Hu r s'. induction Hf as [|a n s e t s' Hc _ _ IH]; [done|]. eauto.
Qed.
End Retry.

(** ** Backoff *)

Lemma backoff_small_base p attempt : (32 <= attempt)%N -> (nanos_per_milli <= rp_backoff_base p)%N ->
  backoff p attempt = BACKOFF_CAP.
Proof.
  intros Ha Hb. unfold backoff, backoff_factor. rewrite (proj2 (N.ltb_ge attempt 32)) by done.
  unfold duration_checked_mul. case_decide; cbn [default]; [|by rewrite N.min_id].
  apply N.min_r. transitivity (nanos_per_milli * u32_max)%N; [done|]. by apply N.mul_le_mono_r.
Qed.

Lemma power_above_cap attempt : (32 <= attempt)%N -> (BACKOFF_CAP <= nanos_per_milli * 2 ^ attempt)%N.
Proof.
  intros Ha. transitivity (nanos_per_milli * 2 ^ 32)%N; [done|]. apply N.mul_le_mono_l.
  by apply N.pow_le_mono_r.
Qed.

(** Backoff is capped doubling: with the policy of any scheduling
    configuration, the pause after attempt [a] is the configured base times
    [2^a], at most ten seconds; neither the 32-bit shift nor the duration
    product can make it differ. *)
Theorem backoff_capped_doubling (c : SchedulingConfig) (attempt : N) :
  (retry_backoff_ms c <= u32_max)%N ->
  backoff (from_scheduling c) attempt =
  N.min (from_millis (retry_backoff_ms c) * 2 ^ attempt) (from_secs 10).
Proof.
  intros Hmax. change (from_secs 10) with BACKOFF_CAP.
  destruct (N.eq_dec (retry_backoff_ms c) 0%N) as [E|E].
  { unfold backoff, from_scheduling, from_millis, duration_checked_mul. cbn. rewrite E, !N.mul_0_l.
    by rewrite decide_True by done. }
  assert (nanos_per_milli <= from_millis (retry_backoff_ms c))%N as Hbase
    by (unfold from_millis; pose proof (N.mul_le_mono_r 1 (retry_backoff_ms c) nanos_per_milli ltac:(lia)); lia).
  destruct (N.lt_ge_cases attempt 32) as [Ha|Ha].
  - unfold backoff, backoff_factor. rewrite (proj2 (N.ltb_lt attempt 32)) by done.
    unfold duration_checked_mul. cbn [from_scheduling rp_backoff_base].
    case_decide as Hd; cbn [default]; [done|]. rewrite N.min_id, N.min_r; [done|].
    apply N.nle_gt, N.lt_le_incl in Hd. etransitivity; [|exact Hd]. done.
  - rewrite backoff_small_base by done. symmetry. apply N.min_r.
    etransitivity; [by apply power_above_cap|]. by apply N.mul_le_mono_r.
Qed.

(** The retry loop makes at most [retry_max + 1] attempts and returns what
    the last one returned: it stops at the first success, panic or
    non-retryable error, or when the attempts are used up, and between two
    attempts it sleeps for the backoff of the failed one. *)
Theorem retry_rpc_spec {S A : Type} `{RT : Runtime S} (p : RetryPolicy) (call : st S ClientError A)
    (s s' : S) (r : res ClientError A) :
  retry_rpc p call s = (r, s') <->
  exists n u, (N.of_nat n <= rp_retry_max p)%N /\ failed_attempts p call 0 n s u /\ call u = (r, s') /\
    final_outcome r (bool_decide (N.of_nat n = rp_retry_max p)).
Proof.
  unfold retry_rpc. rewrite retry_from_spec.
  split; intros (n & u & Hn & Hf & Hu & Ho); exists n, u;
    (split_and!; [lia|done|done|by erewrite bool_decide_ext; [exact Ho|lia]]).
Qed.

Definition sample_scheduling : SchedulingConfig := SchedulingConfig_default.

Lemma backoff_capped_doubling_witness :
  backoff (from_scheduling sample_scheduling) 3 = N.min (from_millis 250 * 2 ^ 3) (from_secs 10).
Proof. apply (backoff_capped_doubling sample_scheduling 3). done. Defined.
