(* ===== verification/Fault.v ===== *)
(** Deterministic fault injection of the service doubles
    (crates/orch-fakes/src/fault.rs): rates, plans, and the injector that
    decides, from a hash of the request and of its attempt number, whether a
    call is delayed, fails, is truncated or corrupts a fingerprint. *)
From S2P Require Import Prelude Types Rng Client.
Local Open Scope string_scope.
Local Open Scope list_scope.

Inductive FaultTarget :=
| TargetHypervisor | TargetSnapshotStore | TargetScorer | TargetSynth | TargetGrid | TargetObservatory.

Global Instance FaultTarget_eq_dec : EqDecision FaultTarget.
Proof. solve_decision. Defined.

Definition target_tag (t : FaultTarget) : string :=
  match t with
  | TargetHypervisor => "hypervisor"
  | TargetSnapshotStore => "snapshot_store"
  | TargetScorer => "scorer"
  | TargetSynth => "synth"
  | TargetGrid => "grid"
  | TargetObservatory => "observatory"
  end.

Global Instance FaultTarget_countable : Countable FaultTarget.
Proof.
  refine (inj_countable target_tag (fun s => list_find (fun t => target_tag t = s)
    [TargetHypervisor; TargetSnapshotStore; TargetScorer; TargetSynth; TargetGrid; TargetObservatory] ≫= (fun p => Some p.2)) _).
  by intros [].
Defined.

Record FaultRequest := mkFaultRequest {
  fr_target : FaultTarget;
  fr_operation : string;
  fr_request_identity : list N
}.

(** ** Rates *)

Definition DENOMINATOR : N := 1000000.
Record FaultRate := mkFaultRate { per_million : N }.
Definition never : FaultRate := mkFaultRate 0.
Definition always : FaultRate := mkFaultRate DENOMINATOR.

Inductive FaultConfigError :=
| RateOutOfRange (per_million : N)
| InvalidSynthFingerprintFlip (byte_index bit_index : N).

Definition FaultRate_per_million (n : N) : res FaultConfigError FaultRate :=
  if (DENOMINATOR <? n)%N then Err (RateOutOfRange n) else Ok (mkFaultRate n).

Definition fires (r : FaultRate) (draw : N) : bool :=
  if (per_million r =? 0)%N then false
  else if (per_million r =? DENOMINATOR)%N then true
  else (draw mod DENOMINATOR <? per_million r)%N.

(** ** Kinds of faults *)

Record LatencyFault := mkLatencyFault { base_ticks : N; jitter_ticks : N }.
Definition latency_disabled : LatencyFault := mkLatencyFault 0 0.
Definition latency_decide (f : LatencyFault) (draw : N) : N :=
  if (jitter_ticks f =? 0)%N then base_ticks f
  else saturating_add u32_max (base_ticks f) (draw mod (jitter_ticks f + 1)).

Record PartialResponseFault := mkPartialResponseFault { pf_rate : FaultRate; min_keep_items : N }.
Definition partial_disabled : PartialResponseFault := mkPartialResponseFault never 0.
(** A partial response is the number of items kept. *)
Definition partial_decide (f : PartialResponseFault) (total_items fires_draw len_draw : N) : option N :=
  if (total_items =? 0)%N || (total_items <=? min_keep_items f)%N || negb (fires (pf_rate f) fires_draw) then None
  else
    let span := (total_items - min_keep_items f)%N in
    let keep_items := (min_keep_items f + len_draw mod span)%N in
    if (keep_items <? total_items)%N then Some keep_items else None.

Inductive FaultTerminal :=
| FaultNone
| FaultError (kind : ClientErrorKind)
| FaultTimeout.

Global Instance FaultTerminal_eq_dec : EqDecision FaultTerminal.
Proof. solve_decision. Defined.

Definition CONFIG_FINGERPRINT_LEN : N := 32.
Record SynthFingerprintFlip := mkFlip { flip_byte_index : N; flip_bit_mask : N }.
Definition SynthFingerprintFlip_new (byte_index bit_index : N) : res FaultConfigError SynthFingerprintFlip :=
  if (CONFIG_FINGERPRINT_LEN <=? byte_index)%N || (8 <=? bit_index)%N
  then Err (InvalidSynthFingerprintFlip byte_index bit_index)
  else Ok (mkFlip byte_index (N.shiftl 1 bit_index)).
(** Indexing a fingerprint out of range would panic; [new] excludes it. *)
Definition flip_apply (f : SynthFingerprintFlip) (fingerprint : list N) : list N :=
  alter (N.lxor (flip_bit_mask f)) (N.to_nat (flip_byte_index f)) fingerprint.

Record FaultDecision := mkFaultDecision {
  fd_latency_ticks : N;
  fd_terminal : FaultTerminal;
  fd_partial : option N;
  fd_synth_fingerprint_flip : option SynthFingerprintFlip
}.
Definition FaultDecision_default : FaultDecision := mkFaultDecision 0 FaultNone None None.

Definition client_error (f : FaultTerminal) : option ClientError :=
  match f with
  | FaultNone => None
  | FaultError kind => Some (mkClientError kind "deterministic fake fault")
  | FaultTimeout => Some (mkClientError Unavailable "deterministic fake timeout")
  end.
Definition truncate_len (d : FaultDecision) (len : nat) : nat :=
  match fd_partial d with None => len | Some keep => Nat.min len (N.to_nat keep) end.
Definition apply_synth_fingerprint (d : FaultDecision) (fingerprint : list N) : list N :=
  match fd_synth_fingerprint_flip d with None => fingerprint | Some f => flip_apply f fingerprint end.

(** ** Plans *)

Record FaultPlan := mkFaultPlan {
  fp_seed : N;
  fp_latency : LatencyFault;
  fp_error_rate : FaultRate;
  fp_error_kind : ClientErrorKind;
  fp_timeout_rate : FaultRate;
  fp_partial_response : PartialResponseFault;
  fp_synth_fingerprint_flip_rate : FaultRate;
  fp_one_shot_errors : gmap string ClientErrorKind
}.

Definition plan_disabled (seed : N) : FaultPlan :=
  mkFaultPlan seed latency_disabled never Unavailable never partial_disabled never ∅.
Definition with_latency (f : LatencyFault) (p : FaultPlan) : FaultPlan :=
  mkFaultPlan (fp_seed p) f (fp_error_rate p) (fp_error_kind p) (fp_timeout_rate p) (fp_partial_response p)
    (fp_synth_fingerprint_flip_rate p) (fp_one_shot_errors p).
Definition with_error (rate : FaultRate) (kind : ClientErrorKind) (p : FaultPlan) : FaultPlan :=
  mkFaultPlan (fp_seed p) (fp_latency p) rate kind (fp_timeout_rate p) (fp_partial_response p)
    (fp_synth_fingerprint_flip_rate p) (fp_one_shot_errors p).
Definition with_timeout (rate : FaultRate) (p : FaultPlan) : FaultPlan :=
  mkFaultPlan (fp_seed p) (fp_latency p) (fp_error_rate p) (fp_error_kind p) rate (fp_partial_response p)
    (fp_synth_fingerprint_flip_rate p) (fp_one_shot_errors p).
Definition with_partial_response (f : PartialResponseFault) (p : FaultPlan) : FaultPlan :=
  mkFaultPlan (fp_seed p) (fp_latency p) (fp_error_rate p) (fp_error_kind p) (fp_timeout_rate p) f
    (fp_synth_fingerprint_flip_rate p) (fp_one_shot_errors p).
Definition with_synth_fingerprint_flip (rate : FaultRate) (p : FaultPlan) : FaultPlan :=
  mkFaultPlan (fp_seed p) (fp_latency p) (fp_error_rate p) (fp_error_kind p) (fp_timeout_rate p)
    (fp_partial_response p) rate (fp_one_shot_errors p).
Definition with_one_shot_error (operation : string) (kind : ClientErrorKind) (p : FaultPlan) : FaultPlan :=
  mkFaultPlan (fp_seed p) (fp_latency p) (fp_error_rate p) (fp_error_kind p) (fp_timeout_rate p)
    (fp_partial_response p) (fp_synth_fingerprint_flip_rate p) (<[operation := kind]> (fp_one_shot_errors p)).

(** ** Draws *)

Inductive FaultChannel :=
| ChLatency | ChTerminal | ChPartialResponse | ChPartialResponseLen | ChSynthFingerprintFlip
| ChSynthFingerprintFlipBit.

Definition channel_tag (c : FaultChannel) : string :=
  match c with
  | ChLatency => "latency"
  | ChTerminal => "terminal"
  | ChPartialResponse => "partial_response"
  | ChPartialResponseLen => "partial_response_len"
  | ChSynthFingerprintFlip => "synth_fingerprint_flip"
  | ChSynthFingerprintFlipBit => "synth_fingerprint_flip_bit"
  end.

(** [u64::from_le_bytes] *)
Fixpoint of_le_bytes (bytes : list N) : N :=
  match bytes with
  | [] => 0
  | b :: rest => b + 256 * of_le_bytes rest
  end.

Definition len_prefixed (bytes : list N) : list N := le_bytes 8 (N.of_nat (length bytes)) ++ bytes.

Definition decide_terminal (timeout_rate error_rate : FaultRate) (error_kind : ClientErrorKind) (draw : N)
    : FaultTerminal :=
  let terminal_draw := (draw mod DENOMINATOR)%N in
  let timeout_cutoff := per_million timeout_rate in
  let error_cutoff := N.min (saturating_add u64_max timeout_cutoff (per_million error_rate)) DENOMINATOR in
  if (terminal_draw <? timeout_cutoff)%N then FaultTimeout
  else if (terminal_draw <? error_cutoff)%N then FaultError error_kind
  else FaultNone.

Section Injector.
Context `{B3 : Blake3}.

Definition draw_preimage (seed : N) (request : FaultRequest) (attempt : N) (channel : FaultChannel) : list N :=
  bytes_of_string "orch-fakes/fault/v2" ++ le_bytes 8 seed ++ le_bytes 8 attempt ++
  len_prefixed (bytes_of_string (channel_tag channel)) ++
  len_prefixed (bytes_of_string (target_tag (fr_target request))) ++
  len_prefixed (bytes_of_string (fr_operation request)) ++
  len_prefixed (fr_request_identity request).
Definition draw_u64 (seed : N) (request : FaultRequest) (attempt : N) (channel : FaultChannel) : N :=
  of_le_bytes (take 8 (blake3 (draw_preimage seed request attempt channel))).

Definition fault_terminal (p : FaultPlan) (request : FaultRequest) (attempt : N) : FaultTerminal :=
  if (attempt =? 1)%N then
    match fp_one_shot_errors p !! fr_operation request with
    | Some kind => FaultError kind
    | None => FaultNone
    end
  else
    decide_terminal (fp_timeout_rate p) (fp_error_rate p) (fp_error_kind p)
      (draw_u64 (fp_seed p) request attempt ChTerminal).

(** The generated flip is always in range. *)
Definition draw_flip (p : FaultPlan) (request : FaultRequest) (attempt : N) : res FaultConfigError SynthFingerprintFlip :=
  let draw := draw_u64 (fp_seed p) request attempt ChSynthFingerprintFlipBit in
  match SynthFingerprintFlip_new (draw mod CONFIG_FINGERPRINT_LEN) (N.shiftr draw 8 mod 8) with
  | Ok f => Ok f
  | _ => Panic
  end.

Definition decide_with_attempt (p : FaultPlan) (request : FaultRequest) (response_items attempt : N)
    : res FaultConfigError FaultDecision :=
  let draw := draw_u64 (fp_seed p) request attempt in
  let latency_ticks := latency_decide (fp_latency p) (draw ChLatency) in
  let terminal := fault_terminal p request attempt in
  let has_response := bool_decide (terminal = FaultNone) in
  let partial :=
    if has_response then
      partial_decide (fp_partial_response p) response_items (draw ChPartialResponse) (draw ChPartialResponseLen)
    else None in
  flip ← (if has_response && bool_decide (fr_target request = TargetSynth) &&
             fires (fp_synth_fingerprint_flip_rate p) (draw ChSynthFingerprintFlip)
          then f ← draw_flip p request attempt; Ok (Some f)
          else Ok None);
  Ok (mkFaultDecision latency_ticks terminal partial flip).

(** ** The injector *)

Record FaultStats := mkFaultStats {
  decisions_total : N;
  latency_faults_total : N;
  terminal_faults_total : N;
  partial_response_faults_total : N;
  synth_fingerprint_flip_faults_total : N
}.

Record FaultInjector := mkFaultInjector {
  fi_plan : FaultPlan;
  fi_attempts : gmap (FaultTarget * string) N;
  fi_stats : FaultStats
}.

Definition injector_new (p : FaultPlan) : FaultInjector := mkFaultInjector p ∅ (mkFaultStats 0 0 0 0 0).

Definition bump_if (b : bool) (n : N) : N := if b then saturating_add u64_max n 1 else n.
Definition record_stats (d : FaultDecision) (s : FaultStats) : FaultStats :=
  mkFaultStats (bump_if true (decisions_total s))
    (bump_if (0 <? fd_latency_ticks d)%N (latency_faults_total s))
    (bump_if (negb (bool_decide (fd_terminal d = FaultNone))) (terminal_faults_total s))
    (bump_if (bool_decide (is_Some (fd_partial d))) (partial_response_faults_total s))
    (bump_if (match fd_synth_fingerprint_flip d with Some _ => true | None => false end)
       (synth_fingerprint_flip_faults_total s)).

Definition stream_attempt (request : FaultRequest) (i : FaultInjector) : N :=
  default 0%N (fi_attempts i !! (fr_target request, fr_operation request)).

(** [*counter += 1] on a 64-bit counter. *)
Definition fault_decide (request : FaultRequest) (response_items : N) : st FaultInjector FaultConfigError FaultDecision := fun i =>
  let attempt := stream_attempt request i in
  match checked_add u64_max attempt 1 with
  | None => (Panic, i)
  | Some next =>
    let attempts := <[(fr_target request, fr_operation request) := next]> (fi_attempts i) in
    match decide_with_attempt (fi_plan i) request response_items attempt with
    | Ok d => (Ok d, mkFaultInjector (fi_plan i) attempts (record_stats d (fi_stats i)))
    | Err e => (Err e, mkFaultInjector (fi_plan i) attempts (fi_stats i))
    | Panic => (Panic, mkFaultInjector (fi_plan i) attempts (fi_stats i))
    end
  end.

Definition peek (request : FaultRequest) (response_items : N) (i : FaultInjector) : res FaultConfigError FaultDecision :=
  decide_with_attempt (fi_plan i) request response_items (stream_attempt request i).

(** ** Properties *)

Lemma draw_flip_ok p request attempt : exists f, draw_flip p request attempt = Ok f.
Proof.
  unfold draw_flip, SynthFingerprintFlip_new. set (d := draw_u64 _ _ _ _).
  assert (d mod CONFIG_FINGERPRINT_LEN < CONFIG_FINGERPRINT_LEN)%N as H1 by (apply N.mod_lt; done).
  assert (N.shiftr d 8 mod 8 < 8)%N as H2 by (apply N.mod_lt; done).
  rewrite (proj2 (N.leb_gt _ _) H1), (proj2 (N.leb_gt _ _) H2). eauto.
Qed.

Lemma decide_with_attempt_total p request items attempt : exists d, decide_with_attempt p request items attempt = Ok d.
Proof.
  unfold decide_with_attempt. destruct (draw_flip_ok p request attempt) as [f ->].
  destruct (_ && fires _ _); eexists; reflexivity.
Qed.

Lemma decide_with_attempt_terminal p request items attempt d :
  decide_with_attempt p request items attempt = Ok d ->
  fd_terminal d = fault_terminal p request attempt /\
  (fd_terminal d <> FaultNone -> fd_partial d = None /\ fd_synth_fingerprint_flip d = None) /\
  (forall keep, fd_partial d = Some keep -> (min_keep_items (fp_partial_response p) <= keep < items)%N).
Proof.
  unfold decide_with_attempt. intros (flip & Hf & [= <-])%bind_Ok. cbn. split_and!; [done| |].
  - intros Hn. rewrite bool_decide_false in Hf |- * by done. cbn in Hf. by simplify_eq.
  - intros keep. destruct (bool_decide _); [|done]. unfold partial_decide. destruct (_ || _ || negb _); [done|].
    destruct (N.ltb_spec (min_keep_items (fp_partial_response p) +
      draw_u64 (fp_seed p) request attempt ChPartialResponseLen mod (items - min_keep_items (fp_partial_response p))) items);
      [|done]. intros [= <-]. split; [apply N.le_add_r|done].
Qed.

(** Number of decisions taken so far in the stream of [request]. *)
Fixpoint decide_all (rs : list (FaultRequest * N)) : st FaultInjector FaultConfigError (list FaultDecision) :=
  match rs with
  | [] => mret []
  | (r, n) :: rest => d ← fault_decide r n; ds ← decide_all rest; mret (d :: ds)
  end.

Definition same_stream (r q : FaultRequest) : Prop := fr_target r = fr_target q /\ fr_operation r = fr_operation q.
Global Instance same_stream_dec r q : Decision (same_stream r q).
Proof. unfold same_stream. apply _. Defined.

Lemma fault_decide_run r n i : (stream_attempt r i < u64_max)%N -> exists d,
  decide_with_attempt (fi_plan i) r n (stream_attempt r i) = Ok d /\
  fault_decide r n i = (Ok d, mkFaultInjector (fi_plan i)
    (<[(fr_target r, fr_operation r) := (stream_attempt r i + 1)%N]> (fi_attempts i)) (record_stats d (fi_stats i))).
Proof.
  intros Hlt. destruct (decide_with_attempt_total (fi_plan i) r n (stream_attempt r i)) as [d Hd].
  exists d. split; [done|]. unfold fault_decide. unfold checked_add. rewrite decide_True by lia. by rewrite Hd.
Qed.

Lemma stream_attempt_after r q n i : (stream_attempt q i < u64_max)%N ->
  stream_attempt r (fault_decide q n i).2 = (stream_attempt r i + if decide (same_stream r q) then 1 else 0)%N.
Proof.
  intros Hlt. destruct (fault_decide_run q n i Hlt) as (d & _ & ->). unfold stream_attempt. cbn [snd fi_attempts].
  destruct (decide (same_stream r q)) as [[-> ->]|Hn]; [by rewrite lookup_insert_eq|].
  rewrite lookup_insert_ne; [by rewrite N.add_0_r|]. intros [= ? ?]. by apply Hn.
Qed.

Lemma decide_all_streams rs r : forall i ds i',
  (forall q, stream_attempt q i + N.of_nat (length rs) < u64_max)%N -> decide_all rs i = (Ok ds, i') ->
  fi_plan i' = fi_plan i /\
  stream_attempt r i' = (stream_attempt r i + N.of_nat (length (filter (fun q => same_stream r q.1) rs)))%N.
Proof.
  induction rs as [|[q n] rs IH]; intros i ds i' Hb; cbn [decide_all].
  - intros [= _ <-]. cbn. split; [done|lia].
  - assert (stream_attempt q i < u64_max)%N as Hq by (specialize (Hb q); lia).
    pose proof (stream_attempt_after r q n i Hq) as Hr.
    destruct (fault_decide_run q n i Hq) as (d & _ & Hd). rewrite st_bind_run, Hd.
    intros (ds' & i1 & Hrun & [= _ <-])%st_bind_Ok. rewrite Hd in Hr. cbn [snd] in Hr.
    edestruct IH as [H1 H2]; [|exact Hrun|].
    + intros q'. pose proof (stream_attempt_after q' q n i Hq) as Hq'. rewrite Hd in Hq'. cbn [snd] in Hq'.
      rewrite Hq'. specialize (Hb q'). cbn in Hb. case_decide; lia.
    + split; [done|]. rewrite H2, Hr, filter_cons. cbn [fst]. case_decide; cbn; lia.
Qed.

(** Deciding never panics before a stream has used up a 64-bit counter. *)
Lemma decide_all_total rs : forall i, (forall q, stream_attempt q i + N.of_nat (length rs) < u64_max)%N ->
  exists i' ds, decide_all rs i = (Ok ds, i').
Proof.
  induction rs as [|[q n] rs IH]; intros i Hb; cbn [decide_all]; [by eexists _, _|].
  assert (stream_attempt q i < u64_max)%N as Hq by (specialize (Hb q); lia).
  destruct (fault_decide_run q n i Hq) as (d & _ & Hd). rewrite st_bind_run, Hd.
  edestruct IH as (i' & ds & Hrun); [|rewrite st_bind_run, Hrun; by eexists _, _].
  intros q'. pose proof (stream_attempt_after q' q n i Hq) as Hq'. rewrite Hd in Hq'. cbn [snd] in Hq'.
  rewrite Hq'. specialize (Hb q'). cbn in Hb. case_decide; lia.
Qed.

(** Every decision depends on its own stream only: after any calls, the
    decision for a request is the one its plan assigns to the number of
    earlier calls with the same target and operation, whatever else was
    called in between and with whatever identities; [peek] shows it before it
    is taken; and it is either a failure without response faults, or a
    response that keeps at least the configured minimum and drops at least
    one item when it is truncated. *)
Theorem faults_stream_local (plan : FaultPlan) (before : list (FaultRequest * N)) (r : FaultRequest) (items : N)
    (i : FaultInjector) (ds : list FaultDecision) :
  (N.of_nat (length before) < u64_max)%N -> decide_all before (injector_new plan) = (Ok ds, i) ->
  let n := N.of_nat (length (filter (fun q => same_stream r q.1) before)) in
  exists d, fst (fault_decide r items i) = Ok d /\ peek r items i = Ok d /\
    decide_with_attempt plan r items n = Ok d /\
    fd_terminal d = fault_terminal plan r n /\
    (fd_terminal d <> FaultNone -> fd_partial d = None /\ fd_synth_fingerprint_flip d = None) /\
    (forall keep, fd_partial d = Some keep -> (min_keep_items (fp_partial_response plan) <= keep < items)%N).
Proof.
  intros Hlen Hrun n.
  assert (fi_plan i = plan /\ stream_attempt r i = n) as [Hp Hn].
  { destruct (decide_all_streams before r (injector_new plan) ds i) as [H1 H2]; [|done|].
    - intros q. unfold stream_attempt. cbn. rewrite lookup_empty. cbn. lia.
    - split; [done|]. rewrite H2. unfold stream_attempt. cbn. by rewrite lookup_empty. }
  assert (n <= N.of_nat (length before))%N as Hle by (unfold n; pose proof (length_filter (fun q => same_stream r q.1) before); lia).
  destruct (fault_decide_run r items i ltac:(rewrite Hn; lia)) as (d & Hd & ->). rewrite Hp, Hn in Hd.
  exists d. split; [done|]. split; [unfold peek; by rewrite Hp, Hn|]. split; [done|].
  by apply decide_with_attempt_terminal in Hd.
Qed.

(** The second call of a stream never fails by chance: whatever the
    configured rates, even when every call is to fail, the call with attempt
    number one fails only by a one-shot error. *)
Theorem second_call_ignores_rates (plan : FaultPlan) (r : FaultRequest) :
  fault_terminal (with_timeout always (with_error always DataLoss plan)) r 0 = FaultTimeout /\
  fault_terminal (with_timeout always (with_error always DataLoss plan)) r 2 = FaultTimeout /\
  (fp_one_shot_errors plan !! fr_operation r = None ->
   fault_terminal (with_timeout always (with_error always DataLoss plan)) r 1 = FaultNone).
Proof.
  assert (forall d k, decide_terminal always always k d = FaultTimeout) as Ht.
  { intros d k. unfold decide_terminal. rewrite (proj2 (N.ltb_lt _ _)); [done|]. apply N.mod_lt. done. }
  split_and!; [apply Ht|apply Ht|]. intros Hn. unfold fault_terminal. cbn. by rewrite Hn.
Qed.

(** A rate of [k] in a million fires for exactly [k] of the million residues. *)
Lemma fires_exact (k draw : N) (r : FaultRate) : FaultRate_per_million k = Ok r ->
  fires r draw = true <-> (draw mod DENOMINATOR < k)%N.
Proof.
  unfold FaultRate_per_million. destruct (N.ltb_spec DENOMINATOR k); [done|]. intros [= <-]. unfold fires. cbn.
  assert (draw mod DENOMINATOR < DENOMINATOR)%N by (apply N.mod_lt; done).
  destruct (N.eqb_spec k 0) as [->|]; [split; [done|by intros ?%N.nlt_0_r]|].
  destruct (N.eqb_spec k DENOMINATOR) as [->|]; [done|]. apply N.ltb_lt.
Qed.

(** A generated flip changes exactly one bit of the fingerprint, and flipping
    twice restores it. *)
Lemma flip_involutive (byte bit : N) (f : SynthFingerprintFlip) (fingerprint : list N) :
  SynthFingerprintFlip_new byte bit = Ok f -> length fingerprint = N.to_nat CONFIG_FINGERPRINT_LEN ->
  flip_apply f (flip_apply f fingerprint) = fingerprint /\ flip_apply f fingerprint <> fingerprint.
Proof.
  unfold SynthFingerprintFlip_new. destruct (N.leb_spec CONFIG_FINGERPRINT_LEN byte); [done|].
  destruct (N.leb_spec 8 bit); [done|]. intros [= <-] Hl. unfold flip_apply. cbn.
  destruct (lookup_lt_is_Some_2 fingerprint (N.to_nat byte)) as [x Hx]; [lia|]. split.
  - apply list_eq. intros j. destruct (decide (j = N.to_nat byte)) as [->|Hj];
      [|by rewrite !list_lookup_alter_ne by done].
    rewrite !list_lookup_alter_eq, Hx. cbn. by rewrite <- N.lxor_assoc, N.lxor_nilpotent, N.lxor_0_l.
  - intros E. apply (f_equal (.!! N.to_nat byte)) in E. rewrite list_lookup_alter_eq, Hx in E. injection E as E.
    apply (f_equal (fun y => N.lxor y x)) in E. rewrite N.lxor_assoc, N.lxor_nilpotent, N.lxor_0_r in E.
    by apply N.shiftl_eq_0_iff in E.
Qed.
End Injector.

(** ** Witness *)

Definition sample_fault_request (op : string) (id : N) : FaultRequest := mkFaultRequest TargetSynth op [id].
Definition sample_fault_plan : FaultPlan :=
  with_partial_response (mkPartialResponseFault always 1) (with_error (mkFaultRate 1) DataLoss (plan_disabled 7)).
Definition sample_calls : list (FaultRequest * N) :=
  [(sample_fault_request "health" 1, 0%N); (sample_fault_request "propose_bursts" 1, 8%N);
   (sample_fault_request "health" 2, 0%N)].

Lemma sample_calls_run : exists i ds,
  @decide_all toy_blake3 sample_calls (injector_new sample_fault_plan) = (Ok ds, i).
Proof. apply decide_all_total. intros q. unfold stream_attempt. cbn [fi_attempts injector_new]. by rewrite lookup_empty. Qed.

Lemma faults_stream_local_witness : exists i d,
  fst (@fault_decide toy_blake3 (sample_fault_request "propose_bursts" 9) 8 i) = Ok d /\
  @decide_with_attempt toy_blake3 sample_fault_plan (sample_fault_request "propose_bursts" 9) 8 1 = Ok d.
Proof.
  destruct sample_calls_run as (i & ds & E). exists i.
  destruct (@faults_stream_local toy_blake3 sample_fault_plan sample_calls (sample_fault_request "propose_bursts" 9) 8
    i ds eq_refl E) as (d & H1 & _ & H3 & _).
  exists d. split; [exact H1|exact H3].
Defined.

Lemma second_call_ignores_rates_witness :
  @fault_terminal toy_blake3 (with_timeout always (with_error always DataLoss (plan_disabled 0)))
    (sample_fault_request "health" 1) 1 = FaultNone.
Proof. apply (@second_call_ignores_rates toy_blake3 (plan_disabled 0) (sample_fault_request "health" 1)). done. Defined.
