(* ===== verification/MetaStore.v ===== *)
(** The metadata part of the in-memory snapshot store
    (crates/orch-fakes/src/snapshot_store.rs) with its injected faults (the
    sequence of decisions only): versioned entries with compare-and-swap
    writes.  The file proves that the store keeps the
    promises of the interface [MetadataStore]. *)
From S2P Require Import Prelude Client Retry Fault.
Local Open Scope string_scope.
Local Open Scope list_scope.

Record MetadataEntry := mkMetadataEntry { me_value : list N; me_generation : MetadataGeneration }.

(** [faults] are the decisions of the fault injector for the coming calls, in
    order, and then no more faults; [clock] is the virtual time. *)
Record FakeStore := mkFakeStore {
  metadata : gmap string MetadataEntry;
  faults : list FaultTerminal;
  clock : N
}.

Definition set_metadata (m : gmap string MetadataEntry) (s : FakeStore) : FakeStore :=
  mkFakeStore m (faults s) (clock s).

Definition decide_fault : st FakeStore ClientError unit := fun s =>
  let s' := mkFakeStore (metadata s) (tail (faults s)) (clock s) in
  match head (faults s) ≫= client_error with
  | Some e => (Err e, s')
  | None => (Ok tt, s')
  end.

Definition metadata_generation_conflict : ClientError :=
  mkClientError FailedPrecondition "metadata generation conflict".

Definition check_metadata_expectation (current : option MetadataGeneration) (expected : MetadataExpectation)
    (allow_create_only : bool) : res ClientError unit :=
  match expected with
  | Unconditional => Ok tt
  | CreateOnly =>
    if allow_create_only then
      if decide (current = None) then Ok tt else Err metadata_generation_conflict
    else Err (mkClientError FailedPrecondition "create-only expectation is invalid for delete")
  | Generation g => if decide (current = Some g) then Ok tt else Err metadata_generation_conflict
  end.

Definition fake_get_metadata (k : MetadataKey) : st FakeStore ClientError (list N * MetadataGeneration) :=
  _ ← decide_fault;
  m ← gets metadata;
  entry ← lift_res (ok_or (m !! k) (mkClientError NotFound "metadata not found"));
  mret (me_value entry, me_generation entry).

Definition fake_put_metadata (k : MetadataKey) (value : list N) (expected : MetadataExpectation)
    : st FakeStore ClientError MetadataGeneration :=
  _ ← decide_fault;
  m ← gets metadata;
  let current := me_generation <$> m !! k in
  _ ← lift_res (check_metadata_expectation current expected true);
  generation ← lift_res (ok_or
    (match current with None => Some 1%N | Some g => checked_add u64_max g 1 end)
    (mkClientError Internal "metadata generation overflow"));
  _ ← modify (set_metadata (<[k := mkMetadataEntry value generation]> m));
  mret generation.

Definition fake_delete_metadata (k : MetadataKey) (expected : MetadataExpectation)
    : st FakeStore ClientError unit :=
  _ ← decide_fault;
  m ← gets metadata;
  _ ← lift_res (check_metadata_expectation (me_generation <$> m !! k) expected false);
  _ ← lift_res (ok_or (m !! k) (mkClientError NotFound "metadata not found"));
  modify (set_metadata (delete k m)).

Global Instance fake_metadata_store : MetadataStore FakeStore := {|
  get_metadata := fake_get_metadata;
  put_metadata := fake_put_metadata;
  delete_metadata := fake_delete_metadata
|}.

Global Instance fake_runtime : Runtime FakeStore := {|
  now := clock;
  sleep d s := mkFakeStore (metadata s) (faults s) (clock s + d)
|}.

(** ** The promises *)

(** No injected fault poses as a missing entry. *)
Definition fake_ok (s : FakeStore) : Prop := Forall (fun f => f <> FaultError NotFound) (faults s).

Definition fake_entries (s : FakeStore) : gmap string (list N * MetadataGeneration) :=
  (fun e => (me_value e, me_generation e)) <$> metadata s.

Lemma decide_fault_spec s r s' : fake_ok s -> decide_fault s = (r, s') ->
  fake_ok s' /\ metadata s' = metadata s /\ r <> Panic /\ forall e, r = Err e -> ce_kind e <> NotFound.
Proof.
  unfold fake_ok, decide_fault. intros Hok. destruct s as [m [|f fs] c]; cbn in *.
  - intros [= <- <-]. done.
  - apply Forall_cons_iff in Hok as [Hf Hfs].
    destruct f as [|k|]; cbn; intros [= <- <-]; split_and!; try done; intros e [= <-]; cbn; congruence.
Qed.

Lemma fake_entries_lookup s k : fake_entries s !! k =
  (fun e => (me_value e, me_generation e)) <$> metadata s !! k.
Proof. apply lookup_fmap. Qed.

Lemma fake_entries_generation s k : snd <$> fake_entries s !! k = me_generation <$> metadata s !! k.
Proof. rewrite fake_entries_lookup. by destruct (metadata s !! k). Qed.

Lemma fake_get_laws k w r w' : fake_ok w -> fake_get_metadata k w = (r, w') ->
  fake_ok w' /\ fake_entries w' = fake_entries w /\ r <> Panic /\
  (forall v, r = Ok v -> fake_entries w !! k = Some v) /\
  (forall e, r = Err e -> ce_kind e = NotFound -> fake_entries w !! k = None).
Proof.
  intros Hok. unfold fake_get_metadata. rewrite st_bind_run.
  destruct (decide_fault w) as [d w1] eqn:Hd.
  destruct (decide_fault_spec _ _ _ Hok Hd) as (Hok1 & Hm & Hp & Hnf).
  destruct d as [[]|e|]; [|by intros [= <- <-]; unfold fake_entries; rewrite Hm; naive_solver|done].
  rewrite gets_bind, Hm. unfold lift_res. rewrite st_bind_run. rewrite fake_entries_lookup.
  destruct (metadata w !! k) as [entry|]; cbn; intros [= <- <-];
    unfold fake_entries; rewrite Hm; naive_solver.
Qed.

Lemma check_expectation_met w k x allow : check_metadata_expectation (me_generation <$> metadata w !! k) x allow = Ok tt ->
  expectation_met x (fake_entries w !! k).
Proof.
  unfold check_metadata_expectation. rewrite <- fake_entries_generation. destruct x; cbn; [done| |].
  - destruct allow; [|done]. case_decide as Hn; [|done]. by destruct (fake_entries w !! k).
  - by case_decide.
Qed.

Lemma check_expectation_total c x allow :
  check_metadata_expectation c x allow = Ok tt \/
  exists e, check_metadata_expectation c x allow = Err e /\ ce_kind e = FailedPrecondition.
Proof.
  unfold check_metadata_expectation. destruct x; [by left| |].
  - destruct allow; [case_decide|]; eauto.
  - case_decide; eauto.
Qed.

Lemma fake_put_laws k v x w r w' : fake_ok w -> fake_put_metadata k v x w = (r, w') ->
  fake_ok w' /\ r <> Panic /\
  (forall g, r = Ok g -> expectation_met x (fake_entries w !! k) /\
     fake_entries w' = <[k := (v, g)]> (fake_entries w) /\
     snd <$> fake_entries w !! k <> Some g) /\
  (forall e, r = Err e -> fake_entries w' = fake_entries w).
Proof.
  intros Hok. unfold fake_put_metadata. rewrite st_bind_run.
  destruct (decide_fault w) as [d w1] eqn:Hd.
  destruct (decide_fault_spec _ _ _ Hok Hd) as (Hok1 & Hm & Hp & Hnf).
  destruct d as [[]|e|]; [|by intros [= <- <-]; unfold fake_entries; rewrite Hm|done].
  run_st. rewrite Hm. unfold lift_res. rewrite st_bind_run.
  destruct (check_expectation_total (me_generation <$> metadata w !! k) x true) as [Hc|(e & Hc & _)]; rewrite Hc.
  2: by intros [= <- <-]; unfold fake_entries; rewrite Hm.
  rewrite st_bind_run.
  destruct (match me_generation <$> metadata w !! k with None => Some 1%N | Some g => checked_add u64_max g 1 end)
    as [g|] eqn:Hg; cbn [ok_or].
  2: by intros [= <- <-]; unfold fake_entries; rewrite Hm.
  rewrite modify_bind. intros [= <- <-]. split_and!; [done|done| |done].
  intros g' [= <-]. split_and!.
  - by apply (check_expectation_met w k x true).
  - unfold fake_entries. cbn. by rewrite fmap_insert.
  - rewrite fake_entries_generation. destruct (metadata w !! k) as [en|]; cbn in *; [|done].
    apply checked_add_Some in Hg as [_ ->]. intros [= Hx]. lia.
Qed.

Lemma fake_delete_laws k x w r w' : fake_ok w -> fake_delete_metadata k x w = (r, w') ->
  fake_ok w' /\ r <> Panic /\
  (r = Ok tt -> fake_entries w' = delete k (fake_entries w)) /\
  (forall e, r = Err e -> fake_entries w' = fake_entries w /\
     (ce_kind e = NotFound -> fake_entries w !! k = None)).
Proof.
  intros Hok. unfold fake_delete_metadata. rewrite st_bind_run.
  destruct (decide_fault w) as [d w1] eqn:Hd.
  destruct (decide_fault_spec _ _ _ Hok Hd) as (Hok1 & Hm & Hp & Hnf).
  destruct d as [[]|e|]; [|by intros [= <- <-]; unfold fake_entries; rewrite Hm; naive_solver|done].
  rewrite gets_bind, Hm. unfold lift_res. rewrite st_bind_run.
  destruct (check_expectation_total (me_generation <$> metadata w !! k) x false) as [Hc|(e & Hc & Hk)]; rewrite Hc.
  2: intros [= <- <-]; unfold fake_entries; rewrite Hm; split_and!; [done|done|done|intros e' [= <-]; split; [done|congruence]].
  rewrite st_bind_run, fake_entries_lookup. destruct (metadata w !! k) as [en|]; cbn [ok_or].
  - intros [= <- <-]. split_and!; [done|done| |done]. intros _. unfold fake_entries. cbn. by rewrite fmap_delete.
  - intros [= <- <-]. unfold fake_entries. rewrite Hm. naive_solver.
Qed.

Global Instance fake_store_laws : MetadataStoreLaws FakeStore := {|
  store_ok := fake_ok;
  entries_of := fake_entries;
  get_laws := fake_get_laws;
  put_laws := fake_put_laws;
  delete_laws := fake_delete_laws
|}.

(** ** Compare and swap *)

(** One writer per generation: once a conditional write has succeeded, a
    second write under the same expectation, while the entry is as the first
    one left it, is refused with a generation conflict and changes nothing;
    the generation of an entry grows by one with every write. *)
Theorem cas_single_winner (k : MetadataKey) (v v' : list N) (x : MetadataExpectation) (w w1 w2 : FakeStore)
    (g : MetadataGeneration) :
  fake_ok w -> x <> Unconditional -> fake_put_metadata k v x w = (Ok g, w1) ->
  metadata w2 !! k = metadata w1 !! k -> faults w2 = [] ->
  fake_put_metadata k v' x w2 = (Err metadata_generation_conflict, w2) /\
  g = (default 0 (me_generation <$> metadata w !! k) + 1)%N.
Proof.
  intros Hok Hx Hput Hsame Hf.
  destruct (fake_put_laws _ _ _ _ _ _ Hok Hput) as (_ & _ & Hdone & _).
  destruct (Hdone g eq_refl) as (Hmet & Hent & Hne). rewrite fake_entries_generation in Hne.
  assert (me_generation <$> metadata w2 !! k = Some g) as Hg.
  { rewrite Hsame, <- fake_entries_generation, Hent, lookup_insert_eq. done. }
  split.
  - unfold fake_put_metadata. rewrite st_bind_run. unfold decide_fault. rewrite Hf.
    destruct w2 as [m fs c]. cbn in *. subst fs. rewrite gets_bind. cbv zeta. cbn [metadata]. rewrite Hg.
    destruct x as [| |gx]; [done| |]; cbn [check_metadata_expectation].
    + by rewrite decide_False by done.
    + rewrite decide_False; [done|]. intros [= ->]. cbn in Hmet.
      rewrite fake_entries_generation in Hmet. done.
  - revert Hput. unfold fake_put_metadata. rewrite st_bind_run. destruct (decide_fault w) as [d w0] eqn:Hd.
    destruct (decide_fault_spec _ _ _ Hok Hd) as (_ & Hm & _ & _). destruct d as [[]|e|]; [|done|done].
    run_st. rewrite Hm. unfold lift_res. rewrite st_bind_run.
    destruct (check_metadata_expectation _ x true); [|done|done]. rewrite st_bind_run.
    destruct (me_generation <$> metadata w !! k) as [g0|]; cbn [default].
    + destruct (checked_add u64_max g0 1) as [g1|] eqn:Ha; [|done]. apply checked_add_Some in Ha as [_ ->].
      cbn [ok_or]. run_st. by intros [= <- _].
    + cbn [ok_or]. run_st. by intros [= <- _].
Qed.

Lemma cas_single_winner_witness :
  let w := mkFakeStore ∅ [] 0 in
  fake_put_metadata "k" [2%N] CreateOnly (fake_put_metadata "k" [1%N] CreateOnly w).2 =
  (Err metadata_generation_conflict, (fake_put_metadata "k" [1%N] CreateOnly w).2).
Proof.
  cbv zeta. apply (cas_single_winner "k" [1%N] [2%N] CreateOnly (mkFakeStore ∅ [] 0)
    (fake_put_metadata "k" [1%N] CreateOnly (mkFakeStore ∅ [] 0)).2
    (fake_put_metadata "k" [1%N] CreateOnly (mkFakeStore ∅ [] 0)).2 1); [constructor|discriminate|vm_compute; reflexivity..].
Defined.
