(* ===== verification/Compile.v ===== *)
(** Feature-map compilation and L4 coarsening (crates/orch-core/src/compile.rs):
    validation, the merge of feature intervals into extraction ranges, the
    packed offsets of the fields, and the coarsening that scales bucket and
    grid sizes. *)
From S2P Require Import Prelude.
Local Open Scope string_scope.
Local Open Scope list_scope.

(** ** Data *)

Inductive FeatureValueType :=
| U8 | U16Le | U16Be | U32Le | U32Be | I8 | I16Le | I16Be | I32Le | I32Be
| Bitflags8 | Bitflags16Le | Bitflags32Le | Bcd8 | Bcd16Le | Bytes.

Definition derived_width (v : FeatureValueType) : option N :=
  match v with
  | U8 | I8 | Bitflags8 | Bcd8 => Some 1%N
  | U16Le | U16Be | I16Le | I16Be | Bitflags16Le | Bcd16Le => Some 2%N
  | U32Le | U32Be | I32Le | I32Be | Bitflags32Le => Some 4%N
  | Bytes => None
  end.

Definition is_integer_scalar (v : FeatureValueType) : bool :=
  match v with
  | U8 | U16Le | U16Be | U32Le | U32Be | I8 | I16Le | I16Be | I32Le | I32Be => true
  | _ => false
  end.

Definition is_bitflags (v : FeatureValueType) : bool :=
  match v with Bitflags8 | Bitflags16Le | Bitflags32Le => true | _ => false end.

Inductive FeatureStability := Stable | Volatile.

Global Instance FeatureStability_eq_dec : EqDecision FeatureStability.
Proof. solve_decision. Defined.

Inductive Discretize :=
| DNone
| DIdentity
| DBucket (size : N)
| DThreshold (edges : list Z)
| DBits
| DGrid (x y room : string) (cell_w cell_h : N).

Global Instance Discretize_eq_dec : EqDecision Discretize.
Proof. solve_decision. Defined.

Inductive PredicateOp := OpEq | OpNe | OpGe | OpLe.
Record FeaturePredicate := mkFeaturePredicate {
  fp_feature : string;
  fp_op : PredicateOp;
  fp_value : Z
}.

#[local] Set Warnings "-register-all".

(** Values of fields the schema does not name, in key order. *)
Inductive ExtraValue :=
| EBool (b : bool)
| EI64 (z : Z)
| EU64 (n : N)
| EString (s : string)
| ESeq (l : list ExtraValue)
| EMap (m : list (string * ExtraValue)).
Definition Extra : Type := list (string * ExtraValue).

Record Feature := mkFeature {
  ft_name : string;
  ft_region : string;
  ft_offset : N;
  ft_value_type : FeatureValueType;
  ft_width : option N;
  ft_semantics : string;
  ft_stability : FeatureStability;
  ft_discretize : Discretize;
  ft_valid_when : option FeaturePredicate;
  ft_extra : Extra
}.

Record FeatureRegion := mkFeatureRegion { rg_name : string; rg_size : N; rg_extra : Extra }.
Record RegionLayout := mkRegionLayout { rl_size : N; rl_layout_version : N }.
Definition RegionLayouts : Type := gmap string RegionLayout.

Record FeatureMapMeta := mkFeatureMapMeta {
  meta_name : string;
  meta_workload : string;
  meta_game_revision : string;
  meta_version : N;
  meta_extra : Extra
}.

Inductive FeatureMapKind := KindFeatureMap.

Record FeatureMap := mkFeatureMap {
  fm_schema_version : N;
  fm_kind : FeatureMapKind;
  fm_meta : FeatureMapMeta;
  fm_regions : list FeatureRegion;
  fm_features : list Feature;
  fm_extra : Extra
}.

Record ExtractRange := mkExtractRange {
  er_region : string;
  er_layout_version : N;
  er_offset : N;
  er_len : N
}.

Global Instance ExtractRange_eq_dec : EqDecision ExtractRange.
Proof. solve_decision. Defined.

Record CompiledField := mkCompiledField {
  cf_field_index : N;
  cf_name : string;
  cf_region : string;
  cf_source_offset : N;
  cf_width : N;
  cf_packed_offset : N;
  cf_value_type : FeatureValueType;
  cf_semantics : string;
  cf_stability : FeatureStability;
  cf_discretize : Discretize;
  cf_valid_when : option FeaturePredicate
}.

(** [layout] is the list of ranges. *)
Record CompiledFeatureMap := mkCompiledFeatureMap {
  cm_meta : FeatureMapMeta;
  cm_layout : list ExtractRange;
  cm_fields : list CompiledField;
  cm_total_len : N
}.

Record RadiusFactor := mkRadiusFactor {
  numerator : N;
  denominator : N;
  denominator_nonzero : (denominator =? 0)%N = false
}.

Inductive CompileError :=
| WrongSchemaVersion (version : N)
| InvalidName (field name : string)
| DuplicateRegion (name : string)
| DuplicateFeature (name : string)
| UnknownRegion (feature region : string)
| UnknownRegionLayout (region : string)
| RegionSizeMismatch (region : string)
| MissingBytesWidth (feature : string)
| EmptyBytesFeature (feature : string)
| WidthMismatch (feature : string)
| FeatureOutOfBounds (feature region : string)
| TotalLengthOverflow
| FeatureNotCovered (feature : string)
| InvalidGridReference (feature target : string)
| InvalidGridDoubleCount (feature target : string)
| InvalidGridCellSize (feature : string)
| InvalidBucketSize (feature : string)
| InvalidBitflagsDiscretize (feature : string)
| InvalidRadiusFactor
| RadiusOverflow
| VersionOverflow
| LayoutChangedByCoarsening.

(** [slice::sort_unstable_by_key] on the interval starts: some permutation
    with increasing starts; the order of intervals with equal starts is not
    specified. *)
Class SortByStart := {
  sort_by_start : list (N * N) -> list (N * N);
  sort_by_start_perm : forall l, sort_by_start l ≡ₚ l;
  sort_by_start_sorted : forall l, StronglySorted (fun a b => a.1 <= b.1)%N (sort_by_start l)
}.

(** ** Widths and radii *)

Definition width (f : Feature) : res CompileError N :=
  match derived_width (ft_value_type f) with
  | Some derived =>
    match ft_width f with
    | Some w => if (w =? derived)%N then Ok derived else Err (WidthMismatch (ft_name f))
    | None => Ok derived
    end
  | None =>
    w ← ok_or (ft_width f) (MissingBytesWidth (ft_name f));
    if (w =? 0)%N then Err (EmptyBytesFeature (ft_name f)) else Ok w
  end.

Definition RadiusFactor_new (num den : N) : res CompileError RadiusFactor :=
  match (den =? 0)%N as b return (den =? 0)%N = b -> _ with
  | true => fun _ => Err InvalidRadiusFactor
  | false => fun H => if (num <? den)%N then Err InvalidRadiusFactor else Ok (mkRadiusFactor num den H)
  end eq_refl.
Definition RadiusFactor_integer (value : N) : res CompileError RadiusFactor := RadiusFactor_new value 1.

(** The product is taken in 128 bits, where it cannot overflow. *)
Definition scale_positive (value : N) (r : RadiusFactor) : res CompileError N :=
  let product := (value * numerator r)%N in
  let scaled := ((product + denominator r - 1) / denominator r)%N in
  if (u64_max <? scaled)%N then Err RadiusOverflow else Ok (N.max scaled 1).

(** ** Validation *)

Definition is_ascii_lowercase (c : Ascii.ascii) : bool :=
  (97 <=? Ascii.N_of_ascii c)%N && (Ascii.N_of_ascii c <=? 122)%N.
Definition is_ascii_digit (c : Ascii.ascii) : bool :=
  (48 <=? Ascii.N_of_ascii c)%N && (Ascii.N_of_ascii c <=? 57)%N.
Definition is_char (n : N) (c : Ascii.ascii) : bool := (Ascii.N_of_ascii c =? n)%N.

Definition validate_name (field name : string) (allow_hyphen : bool) : res CompileError unit :=
  match name with
  | EmptyString => Err (InvalidName field name)
  | String first chars =>
    if negb (is_ascii_lowercase first) then Err (InvalidName field name)
    else if negb (forallb (fun ch => is_ascii_lowercase ch || is_ascii_digit ch || is_char 95 ch
                      || (allow_hyphen && is_char 45 ch)) (String.list_ascii_of_string chars))
    then Err (InvalidName field name)
    else Ok tt
  end.

Definition validate_feature_bounds (map : FeatureMap) (f : Feature) : res CompileError unit :=
  region ← ok_or (list_find (fun r => rg_name r = ft_region f) (fm_regions map))
             (UnknownRegion (ft_name f) (ft_region f));
  w ← width f;
  end_ ← ok_or (checked_add u64_max (ft_offset f) w) (FeatureOutOfBounds (ft_name f) (ft_region f));
  if (rg_size region.2 <? end_)%N then Err (FeatureOutOfBounds (ft_name f) (ft_region f)) else Ok tt.

Definition validate_grid_target (map : FeatureMap) (f : Feature) (target : string) (must_be_integer : bool)
    : res CompileError unit :=
  tf ← ok_or (list_find (fun c => ft_name c = target) (fm_features map))
         (InvalidGridReference (ft_name f) target);
  let t := tf.2 in
  if must_be_integer && negb (is_integer_scalar (ft_value_type t))
  then Err (InvalidGridReference (ft_name f) target)
  else if must_be_integer && negb (bool_decide (ft_name t = ft_name f))
          && negb (bool_decide (ft_discretize t = DNone))
  then Err (InvalidGridDoubleCount (ft_name f) target)
  else if negb must_be_integer && negb (bool_decide (ft_stability t = Stable))
  then Err (InvalidGridReference (ft_name f) target)
  else Ok tt.

Definition validate_discretize (map : FeatureMap) (f : Feature) : res CompileError unit :=
  if is_bitflags (ft_value_type f)
     && negb (match ft_discretize f with DBits | DNone => true | _ => false end)
  then Err (InvalidBitflagsDiscretize (ft_name f))
  else
    match ft_discretize f with
    | DBucket size => if (size =? 0)%N then Err (InvalidBucketSize (ft_name f)) else Ok tt
    | DGrid x y room cell_w cell_h =>
      if (cell_w =? 0)%N || (cell_h =? 0)%N then Err (InvalidGridCellSize (ft_name f))
      else
        _ ← validate_grid_target map f x true;
        _ ← validate_grid_target map f y true;
        validate_grid_target map f room false
    | DNone | DIdentity | DThreshold _ | DBits => Ok tt
    end.

(** The two loops carry the set of names seen so far. *)
Fixpoint validate_regions (layouts : RegionLayouts) (names : gset string) (regions : list FeatureRegion)
    : res CompileError unit :=
  match regions with
  | [] => Ok tt
  | r :: rest =>
    _ ← validate_name "region" (rg_name r) false;
    if decide (rg_name r ∈ names) then Err (DuplicateRegion (rg_name r))
    else
      layout ← ok_or (layouts !! rg_name r) (UnknownRegionLayout (rg_name r));
      if (rl_size layout <? rg_size r)%N then Err (RegionSizeMismatch (rg_name r))
      else validate_regions layouts ({[rg_name r]} ∪ names) rest
  end.

Fixpoint validate_features (map : FeatureMap) (names : gset string) (features : list Feature)
    : res CompileError unit :=
  match features with
  | [] => Ok tt
  | f :: rest =>
    _ ← validate_name "feature" (ft_name f) false;
    if decide (ft_name f ∈ names) then Err (DuplicateFeature (ft_name f))
    else
      _ ← validate_feature_bounds map f;
      _ ← validate_discretize map f;
      validate_features map ({[ft_name f]} ∪ names) rest
  end.

Definition validate_feature_map (map : FeatureMap) (layouts : RegionLayouts) : res CompileError unit :=
  if negb (fm_schema_version map =? 1)%N then Err (WrongSchemaVersion (fm_schema_version map))
  else
    _ ← validate_name "meta.name" (meta_name (fm_meta map)) true;
    _ ← validate_regions layouts ∅ (fm_regions map);
    validate_features map ∅ (fm_features map).

(** ** Layout *)

(** Intervals in order, an interval that touches the last one extending it;
    [current] is the last one pushed. *)
Fixpoint merge_from (current : N * N) (intervals : list (N * N)) : list (N * N) :=
  match intervals with
  | [] => [current]
  | (start, end_) :: rest =>
    if (start <=? current.2)%N then merge_from (current.1, N.max current.2 end_) rest
    else current :: merge_from (start, end_) rest
  end.

Definition merge_intervals (intervals : list (N * N)) : list (N * N) :=
  match intervals with
  | [] => []
  | i :: rest => merge_from i rest
  end.

Definition feature_interval (f : Feature) : res CompileError (N * N) :=
  w ← width f;
  end_ ← ok_or (checked_add u64_max (ft_offset f) w) (FeatureOutOfBounds (ft_name f) (ft_region f));
  Ok (ft_offset f, end_).

Definition range_of (region : FeatureRegion) (layout : RegionLayout) (i : N * N)
    : res CompileError ExtractRange :=
  size ← expect (checked_sub i.2 i.1);
  if (u32_max <? size)%N then Err TotalLengthOverflow
  else Ok (mkExtractRange (rg_name region) (rl_layout_version layout) i.1 size).

Definition total_feature_bytes_len (layout : list ExtractRange) : res CompileError N :=
  fold_left (fun total range =>
    t ← total; ok_or (checked_add u32_max t (er_len range)) TotalLengthOverflow) layout (Ok 0%N).

(** The condition of [find] in [compile_field]; its sums may overflow. *)
Definition range_covers (f : Feature) (w : N) (range : ExtractRange) : res CompileError bool :=
  if bool_decide (er_region range = ft_region f) && (er_offset range <=? ft_offset f)%N then
    a ← expect (checked_add u64_max (ft_offset f) w);
    b ← expect (checked_add u64_max (er_offset range) (er_len range));
    Ok (a <=? b)%N
  else Ok false.

(** [scan] with the packed base, stopping when it overflows, and [find]. *)
Fixpoint find_range (f : Feature) (w packed_base : N) (ranges : list ExtractRange)
    : res CompileError (option (N * ExtractRange)) :=
  match ranges with
  | [] => Ok None
  | range :: rest =>
    match checked_add u32_max packed_base (er_len range) with
    | None => Ok None
    | Some next_base =>
      hit ← range_covers f w range;
      if (hit : bool) then Ok (Some (packed_base, range)) else find_range f w next_base rest
    end
  end.

Definition compile_field (layout : list ExtractRange) (entry : nat * Feature) : res CompileError CompiledField :=
  let '(index, f) := entry in
  w ← width f;
  found ← find_range f w 0 layout;
  range ← ok_or found (FeatureNotCovered (ft_name f));
  delta ← expect (checked_sub (ft_offset f) (er_offset range.2));
  delta32 ← (if (u32_max <? delta)%N then Err (FeatureNotCovered (ft_name f)) else Ok delta);
  packed_offset ← ok_or (checked_add u32_max range.1 delta32) TotalLengthOverflow;
  field_index ← (if (u32_max <? N.of_nat index)%N then Err TotalLengthOverflow else Ok (N.of_nat index));
  Ok (mkCompiledField field_index (ft_name f) (ft_region f) (ft_offset f) w packed_offset
        (ft_value_type f) (ft_semantics f) (ft_stability f) (ft_discretize f) (ft_valid_when f)).

Section Compile.
Context `{SB : SortByStart}.

Definition region_ranges (map : FeatureMap) (layouts : RegionLayouts) (region : FeatureRegion)
    : res CompileError (list ExtractRange) :=
  layout ← ok_or (layouts !! rg_name region) (UnknownRegionLayout (rg_name region));
  intervals ← mapM_res feature_interval (filter (fun f => ft_region f = rg_name region) (fm_features map));
  mapM_res (range_of region layout) (merge_intervals (sort_by_start intervals)).

Definition compile_feature_map (map : FeatureMap) (layouts : RegionLayouts)
    : res CompileError CompiledFeatureMap :=
  _ ← validate_feature_map map layouts;
  ranges ← mapM_res (region_ranges map layouts) (fm_regions map);
  let layout := concat ranges in
  total_len ← total_feature_bytes_len layout;
  fields ← mapM_res (compile_field layout) (imap pair (fm_features map));
  Ok (mkCompiledFeatureMap (fm_meta map) layout fields total_len).

(** ** Coarsening *)

Definition coarsen_discretize (r : RadiusFactor) (d : Discretize) : res CompileError Discretize :=
  match d with
  | DBucket size => size' ← scale_positive size r; Ok (DBucket size')
  | DGrid x y room cell_w cell_h =>
    w' ← scale_positive cell_w r;
    h' ← scale_positive cell_h r;
    Ok (DGrid x y room w' h')
  | DNone | DIdentity | DThreshold _ | DBits => Ok d
  end.

Definition coarsen_feature (r : RadiusFactor) (f : Feature) : res CompileError Feature :=
  d ← coarsen_discretize r (ft_discretize f);
  Ok (mkFeature (ft_name f) (ft_region f) (ft_offset f) (ft_value_type f) (ft_width f) (ft_semantics f)
        (ft_stability f) d (ft_valid_when f) (ft_extra f)).

Definition bump_version (m : FeatureMapMeta) : res CompileError FeatureMapMeta :=
  v ← ok_or (checked_add u32_max (meta_version m) 1) VersionOverflow;
  Ok (mkFeatureMapMeta (meta_name m) (meta_workload m) (meta_game_revision m) v (meta_extra m)).

Definition coarsen_l4 (map : FeatureMap) (layouts : RegionLayouts) (r : RadiusFactor)
    : res CompileError FeatureMap :=
  _ ← validate_feature_map map layouts;
  meta ← bump_version (fm_meta map);
  features ← mapM_res (coarsen_feature r) (fm_features map);
  Ok (mkFeatureMap (fm_schema_version map) (fm_kind map) meta (fm_regions map) features (fm_extra map)).

Definition coarsen_l4_preserving_layout (map : FeatureMap) (layouts : RegionLayouts) (r : RadiusFactor)
    : res CompileError FeatureMap :=
  before ← compile_feature_map map layouts;
  coarsened ← coarsen_l4 map layouts r;
  after ← compile_feature_map coarsened layouts;
  if bool_decide (cm_layout before = cm_layout after) then Ok coarsened
  else Err LayoutChangedByCoarsening.
End Compile.

(** ** Merging *)

Definition covered (x : N) (l : list (N * N)) : Prop := exists i, i ∈ l /\ (i.1 <= x < i.2)%N.

(** Non-empty intervals in increasing order, with a gap between neighbours. *)
Definition separated (l : list (N * N)) : Prop :=
  StronglySorted (fun a b => a.2 < b.1)%N l /\ Forall (fun i => i.1 < i.2)%N l.

Lemma covered_cons x i l : covered x (i :: l) <-> (i.1 <= x < i.2)%N \/ covered x l.
Proof. unfold covered. setoid_rewrite elem_of_cons. naive_solver. Qed.

Lemma merge_from_starts cur l s : (s <= cur.1)%N -> Forall (fun i => s <= i.1)%N l ->
  Forall (fun i => s <= i.1)%N (merge_from cur l).
Proof.
  revert cur. induction l as [|[a b] l IH]; intros cur Hs Hl; cbn; [by repeat constructor|].
  apply Forall_cons_iff in Hl as [Ha Hl]. cbn in Ha.
  destruct (a <=? cur.2)%N; [by apply IH|]. constructor; [done|]. by apply IH.
Qed.

Lemma merge_from_spec cur l : (cur.1 < cur.2)%N -> Forall (fun i => i.1 < i.2)%N l ->
  StronglySorted (fun a b => a.1 <= b.1)%N (cur :: l) ->
  separated (merge_from cur l) /\
  (forall x, covered x (merge_from cur l) <-> covered x (cur :: l)) /\
  (forall i, i ∈ cur :: l -> exists j, j ∈ merge_from cur l /\ j.1 <= i.1 /\ i.2 <= j.2)%N.
Proof.
  revert cur. induction l as [|[a b] l IH]; intros cur Hcur Hne Hs; cbn [merge_from].
  { split; [split; repeat constructor; done|]. split; [done|].
    intros i ->%list_elem_of_singleton. exists cur. rewrite list_elem_of_singleton. split; [done|lia]. }
  apply Forall_cons_iff in Hne as [Hab Hne]. cbn in Hab.
  inversion_clear Hs as [|? ? Hs' Hle]. apply Forall_cons_iff in Hle as [Hle1 Hle]. cbn in Hle1.
  inversion_clear Hs' as [|? ? Hs'' Hle2]. cbn in Hle2.
  destruct (N.leb_spec a cur.2) as [Hm|Hm].
  - destruct (IH (cur.1, N.max cur.2 b)) as (H1 & H2 & H3); [cbn; lia|done|by constructor|].
    split; [done|]. split.
    + intros x. rewrite H2, !covered_cons. cbn. split; [|naive_solver lia].
      intros [Hx|Hx]; [|auto]. destruct (decide (x < cur.2)%N); [left; lia|right; left; lia].
    + intros i Hi. apply elem_of_cons in Hi as [->|Hi]; [|apply elem_of_cons in Hi as [->|Hi]].
      * destruct (H3 (cur.1, N.max cur.2 b)) as (j & Hj & ? & ?); [left|]. exists j. cbn in *. split; [done|lia].
      * destruct (H3 (cur.1, N.max cur.2 b)) as (j & Hj & ? & ?); [left|]. exists j. cbn in *. split; [done|lia].
      * apply H3. by right.
  - destruct (IH (a, b)) as ([H1 H1'] & H2 & H3); [done|done|by constructor|]. split; [split|split].
    + constructor; [done|]. eapply Forall_impl; [apply (merge_from_starts (a, b) l a); [done|exact Hle2]|].
      cbn. lia.
    + by constructor.
    + intros x. rewrite !(covered_cons _ cur). by rewrite H2.
    + intros i Hi. apply elem_of_cons in Hi as [->|Hi]; [exists cur; split; [left|lia]|].
      destruct (H3 i Hi) as (j & Hj & ?). exists j. split; [by right|done].
Qed.

Lemma merge_intervals_spec l : Forall (fun i => i.1 < i.2)%N l ->
  StronglySorted (fun a b => a.1 <= b.1)%N l ->
  separated (merge_intervals l) /\
  (forall x, covered x (merge_intervals l) <-> covered x l) /\
  (forall i, i ∈ l -> exists j, j ∈ merge_intervals l /\ j.1 <= i.1 /\ i.2 <= j.2)%N.
Proof.
  intros Hne Hs. destruct l as [|i l]; cbn.
  - split; [repeat constructor|]. split; [done|]. intros i Hi. by apply elem_of_nil in Hi.
  - apply Forall_cons_iff in Hne as [Hi Hne]. by apply merge_from_spec.
Qed.

Lemma separated_start_le a l x : separated (a :: l) -> covered x (a :: l) -> (a.1 <= x)%N.
Proof.
  intros [Hs Hne] (i & [->|Hi]%elem_of_cons & Hx); [lia|].
  inversion_clear Hs as [|? ? _ Hf]. rewrite Forall_forall in Hf. specialize (Hf i Hi).
  apply Forall_cons_iff in Hne as [? _]. lia.
Qed.

Lemma separated_end_not_covered a l : separated (a :: l) -> ~ covered a.2 (a :: l).
Proof.
  intros [Hs Hne] (i & [->|Hi]%elem_of_cons & Hx); [lia|].
  inversion_clear Hs as [|? ? _ Hf]. rewrite Forall_forall in Hf. specialize (Hf i Hi). lia.
Qed.

Lemma separated_tail a l : separated (a :: l) -> separated l.
Proof. intros [Hs Hne]. inversion_clear Hs. apply Forall_cons_iff in Hne as [_ ?]. by split. Qed.

(** The first interval is determined by the covered set. *)
Lemma separated_head a b l m : separated (a :: l) -> separated (b :: m) ->
  (forall x, covered x (a :: l) <-> covered x (b :: m)) -> (b.1 <= a.1 /\ b.2 <= a.2)%N.
Proof.
  intros Ha Hb Heq. destruct (Ha) as [_ Hna]. destruct (Hb) as [_ Hnb].
  apply Forall_cons_iff in Hna as [Hna _]. apply Forall_cons_iff in Hnb as [Hnb _].
  assert (b.1 <= a.1)%N as H1.
  { apply (separated_start_le b m); [done|]. apply Heq, covered_cons. lia. }
  split; [done|]. destruct (N.le_gt_cases b.2 a.2) as [|Hlt]; [done|]. exfalso.
  apply (separated_end_not_covered a l Ha), Heq, covered_cons. lia.
Qed.

(** Separated lists with the same covered set are equal. *)
Lemma separated_unique l m : separated l -> separated m ->
  (forall x, covered x l <-> covered x m) -> l = m.
Proof.
  revert m. induction l as [|a l IH]; intros m Hl Hm Heq.
  - destruct m as [|b m]; [done|]. exfalso. destruct Hm as [_ Hne]. apply Forall_cons_iff in Hne as [Hb _].
    assert (covered b.1 []) as (i & Hi & _) by (apply Heq, covered_cons; lia). by apply elem_of_nil in Hi.
  - destruct m as [|b m].
    { exfalso. destruct Hl as [_ Hne]. apply Forall_cons_iff in Hne as [Ha _].
      assert (covered a.1 []) as (i & Hi & _) by (apply Heq, covered_cons; lia). by apply elem_of_nil in Hi. }
    pose proof (separated_head a b l m Hl Hm Heq) as [H1 H2].
    assert (a.1 <= b.1 /\ a.2 <= b.2)%N as [H3 H4] by (apply (separated_head b a m l); naive_solver).
    assert (a = b) as ->. { destruct a, b. cbn in *. f_equal; lia. }
    f_equal. apply IH; eauto using separated_tail.
    assert (forall k x, separated (b :: k) -> covered x k -> (b.2 < x)%N) as Hafter.
    { intros k x [Hs _] (i & Hi & Hx). inversion_clear Hs as [|? ? _ Hf]. rewrite Forall_forall in Hf.
      specialize (Hf i Hi). lia. }
    intros x. split; intros Hx.
    + pose proof (Hafter l x Hl Hx). assert (covered x (b :: m)) as Hc by (apply Heq, covered_cons; auto).
      apply covered_cons in Hc as [|]; [lia|done].
    + pose proof (Hafter m x Hm Hx). assert (covered x (b :: l)) as Hc by (apply Heq, covered_cons; auto).
      apply covered_cons in Hc as [|]; [lia|done].
Qed.

(** ** Validated maps *)

Lemma width_positive f w : width f = Ok w -> (0 < w)%N.
Proof.
  unfold width. destruct (derived_width (ft_value_type f)) as [d|] eqn:Hd.
  - assert (0 < d)%N by (destruct (ft_value_type f); cbn in Hd; simplify_eq; lia).
    destruct (ft_width f) as [x|]; [destruct (x =? d)%N|]; intros [= <-]; done.
  - intros (x & _ & Hx)%bind_Ok. destruct (N.eqb_spec x 0); [done|]. injection Hx as <-. lia.
Qed.

(** What validation guarantees of a feature. *)
Record feature_fits (map : FeatureMap) (f : Feature) (w : N) : Prop := {
  fits_width : width f = Ok w;
  fits_region : exists r, r ∈ fm_regions map /\ rg_name r = ft_region f /\ (ft_offset f + w <= rg_size r)%N;
  fits_u64 : (ft_offset f + w <= u64_max)%N
}.

Lemma validate_features_fits map names features u : validate_features map names features = Ok u ->
  Forall (fun f => exists w, feature_fits map f w) features.
Proof.
  revert names. induction features as [|f rest IH]; intros names; [constructor|]. cbn [validate_features].
  intros (? & _ & Hrest)%bind_Ok. case_decide; [done|].
  apply bind_Ok in Hrest as (? & Hb & (? & _ & Hrest)%bind_Ok).
  constructor; [|by eapply IH]. unfold validate_feature_bounds in Hb.
  apply bind_Ok in Hb as ([k r] & Hr%ok_or_Ok & (w & Hw & (e & He%ok_or_Ok & Hsz)%bind_Ok)%bind_Ok).
  apply checked_add_Some in He as [Hle ->]. cbn in Hsz.
  destruct (N.ltb_spec (rg_size r) (ft_offset f + w)); [done|].
  apply list_find_Some in Hr as (Hk & Hn & _). exists w. split; [done| |done].
  exists r. split; [by eapply list_elem_of_lookup_2|done].
Qed.

Lemma validate_regions_Ok layouts names regions u : validate_regions layouts names regions = Ok u ->
  Forall (fun r => exists l, layouts !! rg_name r = Some l /\ rg_size r <= rl_size l)%N regions /\
  Forall (fun r => rg_name r ∉ names) regions /\ NoDup (rg_name <$> regions).
Proof.
  revert names. induction regions as [|r rest IH]; intros names; [repeat constructor|].
  cbn [validate_regions]. intros (? & _ & Hrest)%bind_Ok. case_decide as Hn; [done|].
  apply bind_Ok in Hrest as (l & Hl%ok_or_Ok & Hrest).
  destruct (N.ltb_spec (rl_size l) (rg_size r)); [done|].
  destruct (IH _ Hrest) as (H1 & H2 & H3). split_and!.
  - constructor; [eauto|done].
  - constructor; [done|]. eapply Forall_impl; [exact H2|]. set_solver.
  - cbn. constructor; [|done]. intros Hin. apply list_elem_of_fmap in Hin as (r' & Heq & Hr').
    rewrite Forall_forall in H2. specialize (H2 r' Hr'). set_solver.
Qed.

Record map_valid (map : FeatureMap) (layouts : RegionLayouts) : Prop := {
  mv_regions : Forall (fun r => exists l, layouts !! rg_name r = Some l /\ rg_size r <= rl_size l)%N
    (fm_regions map);
  mv_region_names : NoDup (rg_name <$> fm_regions map);
  mv_features : Forall (fun f => exists w, feature_fits map f w) (fm_features map)
}.

Lemma validate_feature_map_Ok map layouts u : validate_feature_map map layouts = Ok u -> map_valid map layouts.
Proof.
  unfold validate_feature_map. destruct (negb _); [done|].
  intros (? & _ & (? & Hr & Hf)%bind_Ok)%bind_Ok. apply validate_regions_Ok in Hr as (H1 & _ & H2).
  split; [done|done|by eapply validate_features_fits].
Qed.

(** ** The layout of a valid map *)

(** Length of the ranges before a position. *)
Definition lens (ranges : list ExtractRange) : N := foldr (fun r n => er_len r + n)%N 0%N ranges.

Lemma lens_app a b : lens (a ++ b) = (lens a + lens b)%N.
Proof. induction a as [|x a IH]; cbn; [done|]. fold (lens a). fold (lens (a ++ b)). lia. Qed.

Lemma total_len_fold ranges t :
  fold_left (fun total range => t ← total; ok_or (checked_add u32_max t (er_len range)) TotalLengthOverflow)
    ranges (Ok t) =
  (if (t + lens ranges <=? u32_max)%N then Ok (t + lens ranges)%N else Err TotalLengthOverflow) \/
  (u32_max < t)%N.
Proof.
  assert (forall l (e : CompileError), fold_left (fun total range =>
    t ← total; ok_or (checked_add u32_max t (er_len range)) TotalLengthOverflow) l (Err e) = Err e) as Herr
    by (induction l; done).
  revert t. induction ranges as [|r ranges IH]; intros t; cbn.
  - destruct (N.leb_spec (t + 0) u32_max); [left; by rewrite N.add_0_r|right; lia].
  - fold (lens ranges). unfold checked_add at 2. case_decide as Hd; cbn [ok_or].
    + destruct (IH (t + er_len r)%N) as [->|?]; [left; by rewrite !N.add_assoc|lia].
    + left. rewrite Herr. by rewrite (proj2 (N.leb_gt _ _)) by lia.
Qed.

Lemma total_len_spec ranges : total_feature_bytes_len ranges =
  if (lens ranges <=? u32_max)%N then Ok (lens ranges) else Err TotalLengthOverflow.
Proof. destruct (total_len_fold ranges 0) as [H|H]; [exact H|lia]. Qed.

(** A range that contains a feature's bytes. *)
Definition range_contains (f : Feature) (w : N) (r : ExtractRange) : Prop :=
  er_region r = ft_region f /\ (er_offset r <= ft_offset f)%N /\
  (ft_offset f + w <= er_offset r + er_len r)%N.

Lemma range_covers_spec f w r : (ft_offset f + w <= u64_max)%N -> (er_offset r + er_len r <= u64_max)%N ->
  exists b, range_covers f w r = Ok b /\ (b = true <-> range_contains f w r).
Proof.
  intros Hf Hr. unfold range_covers, range_contains, checked_add.
  destruct (bool_decide (er_region r = ft_region f)) eqn:E1; cbn [andb].
  2: { exists false. apply bool_decide_eq_false in E1. split; [done|]. naive_solver. }
  apply bool_decide_eq_true in E1.
  destruct (N.leb_spec (er_offset r) (ft_offset f)) as [Hle|Hle].
  - rewrite !decide_True by done. cbn. eexists. split; [done|]. rewrite N.leb_le. naive_solver.
  - exists false. split; [done|]. split; [done|]. lia.
Qed.

Lemma find_range_spec f w ranges : forall base,
  (ft_offset f + w <= u64_max)%N -> Forall (fun r => er_offset r + er_len r <= u64_max)%N ranges ->
  (base + lens ranges <= u32_max)%N -> (exists r, r ∈ ranges /\ range_contains f w r) ->
  exists pre r post, ranges = pre ++ r :: post /\ range_contains f w r /\
    find_range f w base ranges = Ok (Some (base + lens pre, r))%N.
Proof.
  induction ranges as [|r ranges IH]; intros base Hf Hall Hlen (r0 & Hin & Hc).
  { by apply elem_of_nil in Hin. }
  apply Forall_cons_iff in Hall as [Hr Hall]. cbn in Hlen. fold (lens ranges) in Hlen. cbn [find_range].
  unfold checked_add. rewrite decide_True by lia.
  destruct (range_covers_spec f w r Hf Hr) as ([] & -> & Hb); cbn [mbind res_bind].
  - exists [], r, ranges. split; [done|]. split; [by apply Hb|]. by rewrite N.add_0_r.
  - apply elem_of_cons in Hin as [->|Hin]; [by apply Hb in Hc|].
    destruct (IH (base + er_len r)%N) as (pre & r' & post & -> & Hc' & Hrun); [done|done|lia|eauto|].
    exists (r :: pre), r', post. split; [done|]. split; [done|]. rewrite Hrun. cbn. fold (lens pre).
    by rewrite N.add_assoc.
Qed.

Definition range_at (region : FeatureRegion) (lay : RegionLayout) (i : N * N) : ExtractRange :=
  mkExtractRange (rg_name region) (rl_layout_version lay) i.1 (i.2 - i.1)%N.

Lemma feature_interval_fits map f w : feature_fits map f w ->
  feature_interval f = Ok (ft_offset f, (ft_offset f + w)%N).
Proof.
  intros [Hw _ Hu]. unfold feature_interval, checked_add. rewrite Hw. cbn. by rewrite decide_True.
Qed.

Lemma range_of_run region lay i : (i.1 < i.2)%N ->
  range_of region lay i =
  if (u32_max <? i.2 - i.1)%N then Err TotalLengthOverflow else Ok (range_at region lay i).
Proof. intros Hi. unfold range_of, checked_sub. by rewrite decide_True by lia. Qed.

Lemma ranges_of_merged region lay merged : separated merged ->
  (mapM_res (range_of region lay) merged = Ok (range_at region lay <$> merged) /\
     Forall (fun i => i.2 - i.1 <= u32_max)%N merged) \/
  mapM_res (range_of region lay) merged = Err TotalLengthOverflow.
Proof.
  intros [_ Hne]. induction merged as [|i merged IH]; [left; split; [done|constructor]|].
  apply Forall_cons_iff in Hne as [Hi Hne]. cbn [mapM_res]. rewrite range_of_run by done.
  destruct (N.ltb_spec u32_max (i.2 - i.1)); [by right|]. cbn.
  destruct (IH Hne) as [[-> Hall]| ->]; [|by right]. left. cbn. split; [done|]. by constructor.
Qed.

Section Layout.
Context `{SB : SortByStart} (map : FeatureMap) (layouts : RegionLayouts) (Hv : map_valid map layouts).

(** The intervals of a region, and what merging makes of them. *)
Record region_merge (region : FeatureRegion) (ivs merged : list (N * N)) (lay : RegionLayout) : Prop := {
  rm_layout : layouts !! rg_name region = Some lay;
  rm_intervals : forall i, i ∈ ivs <-> exists f w, f ∈ fm_features map /\ ft_region f = rg_name region /\
    width f = Ok w /\ i = (ft_offset f, ft_offset f + w)%N;
  rm_separated : separated merged;
  rm_covered : forall x, covered x merged <-> covered x ivs;
  rm_contains : forall i, i ∈ ivs -> exists j, j ∈ merged /\ (j.1 <= i.1 /\ i.2 <= j.2)%N;
  rm_bound : Forall (fun j => j.2 <= u64_max)%N merged
}.

Lemma region_ranges_run region : region ∈ fm_regions map ->
  exists ivs merged lay, region_merge region ivs merged lay /\
    ((region_ranges map layouts region = Ok (range_at region lay <$> merged) /\
        Forall (fun i => i.2 - i.1 <= u32_max)%N merged) \/
     region_ranges map layouts region = Err TotalLengthOverflow).
Proof.
  intros Hreg. destruct (proj1 (Forall_forall _ _) (mv_regions _ _ Hv) region Hreg) as (lay & Hlay & _).
  set (fs := filter (fun f => ft_region f = rg_name region) (fm_features map)).
  assert (forall f, f ∈ fs -> exists w, feature_fits map f w) as Hfits.
  { intros f Hf. apply list_elem_of_filter in Hf as [_ Hf].
    exact (proj1 (Forall_forall _ _) (mv_features _ _ Hv) f Hf). }
  destruct (mapM_res_total feature_interval fs) as [ivs Hivs].
  { intros f Hf. destruct (Hfits f Hf) as [w Hw]. rewrite (feature_interval_fits _ _ _ Hw). eauto. }
  pose proof (proj1 (mapM_res_Ok _ _ _) Hivs) as Hiv2.
  assert (forall i, i ∈ ivs -> exists f w, f ∈ fs /\ feature_fits map f w /\
    i = (ft_offset f, ft_offset f + w)%N) as Hin.
  { intros i [k Hk]%list_elem_of_lookup. destruct (Forall2_lookup_r _ _ _ _ _ Hiv2 Hk) as (f & Hf & Hfi).
    apply list_elem_of_lookup_2 in Hf. destruct (Hfits f Hf) as [w Hw].
    rewrite (feature_interval_fits _ _ _ Hw) in Hfi. injection Hfi as <-. eauto. }
  assert (Forall (fun i => i.1 < i.2)%N (sort_by_start ivs)) as Hne.
  { apply Forall_forall. intros i. rewrite sort_by_start_perm. intros Hi.
    destruct (Hin i Hi) as (f & w & _ & Hw & ->). cbn. pose proof (width_positive _ _ (fits_width _ _ _ Hw)). lia. }
  destruct (merge_intervals_spec _ Hne (sort_by_start_sorted ivs)) as (Hsep & Hcov & Hcont).
  assert (forall x, covered x (sort_by_start ivs) <-> covered x ivs) as Hperm.
  { intros x. unfold covered. by setoid_rewrite sort_by_start_perm. }
  exists ivs, (merge_intervals (sort_by_start ivs)), lay. split.
  - split; auto.
    + intros i. split.
      * intros Hi. destruct (Hin i Hi) as (f & w & Hf & Hw & ->). apply list_elem_of_filter in Hf as [Hr Hf].
        exists f, w. split_and!; auto. apply Hw.
      * intros (f & w & Hf & Hr & Hw & ->). assert (f ∈ fs) as Hfs by (by apply list_elem_of_filter).
        destruct (Hfits f Hfs) as [w' Hw']. assert (w' = w) as -> by (destruct Hw'; congruence).
        apply list_elem_of_lookup in Hfs as [k Hk].
        destruct (Forall2_lookup_l _ _ _ _ _ Hiv2 Hk) as (i & Hi & Hfi).
        rewrite (feature_interval_fits _ _ _ Hw') in Hfi. injection Hfi as <-.
        by eapply list_elem_of_lookup_2.
    + intros x. by rewrite Hcov.
    + intros i Hi. apply Hcont. by rewrite sort_by_start_perm.
    + apply Forall_forall. intros j Hj.
      pose proof (proj1 (Forall_forall _ _) (proj2 Hsep) j Hj) as Hjn. cbn in Hjn.
      assert (covered (j.2 - 1) ivs) as (i & Hi & Hx).
      { apply Hperm, Hcov. exists j. split; [done|]. lia. }
      destruct (Hin i Hi) as (f & w & _ & [_ _ Hu] & ->). cbn in Hx. lia.
  - unfold region_ranges. rewrite Hlay. cbn [ok_or mbind res_bind]. fold fs. rewrite Hivs.
    cbn [mbind res_bind]. by apply ranges_of_merged.
Qed.

(** The ranges of all regions. *)
Lemma all_ranges_run : 
  (exists rss, mapM_res (region_ranges map layouts) (fm_regions map) = Ok rss /\
     Forall2 (fun region rs => exists ivs merged lay, region_merge region ivs merged lay /\
       rs = range_at region lay <$> merged /\ Forall (fun i => i.2 - i.1 <= u32_max)%N merged)
       (fm_regions map) rss) \/
  mapM_res (region_ranges map layouts) (fm_regions map) = Err TotalLengthOverflow.
Proof.
  destruct (mapM_res_only_error (region_ranges map layouts) TotalLengthOverflow (fm_regions map)) as [[rss Hr]|];
    [| |by right].
  { intros r Hr. destruct (region_ranges_run r Hr) as (ivs & merged & lay & _ & [[-> _]|]); eauto. }
  left. exists rss. split; [done|]. apply mapM_res_Ok in Hr.
  eapply Forall2_impl_in; [exact Hr|]. intros region rs Hin Hrs. cbv beta in Hrs.
  destruct (region_ranges_run region Hin) as (ivs & merged & lay & Hm & [[Hrun Hall]|Hrun]);
    rewrite Hrun in Hrs; [|done]. injection Hrs as <-. eauto 10.
Qed.

(** A range of the layout comes from one merged interval of its region. *)
Lemma layout_range rss r :
  Forall2 (fun region rs => exists ivs merged lay, region_merge region ivs merged lay /\
       rs = range_at region lay <$> merged /\ Forall (fun i => i.2 - i.1 <= u32_max)%N merged)
       (fm_regions map) rss ->
  r ∈ concat rss ->
  exists region ivs merged lay i, region ∈ fm_regions map /\ region_merge region ivs merged lay /\
    i ∈ merged /\ r = range_at region lay i /\ (er_offset r + er_len r = i.2)%N.
Proof.
  intros Hall Hr. apply list_elem_of_In, in_concat in Hr as (rs & Hrs & Hr).
  apply list_elem_of_In in Hrs, Hr. apply list_elem_of_lookup in Hrs as [k Hk].
  destruct (Forall2_lookup_r _ _ _ _ _ Hall Hk) as (region & Hreg & ivs & merged & lay & Hm & -> & _).
  apply list_elem_of_fmap in Hr as (i & -> & Hi). exists region, ivs, merged, lay, i.
  split; [by eapply list_elem_of_lookup_2|]. split_and!; auto. cbn.
  pose proof (proj1 (Forall_forall _ _) (proj2 (rm_separated _ _ _ _ Hm)) i Hi) as Hlt. cbn in Hlt. lia.
Qed.

(** Every feature is contained in some range. *)
Lemma layout_contains rss f w :
  Forall2 (fun region rs => exists ivs merged lay, region_merge region ivs merged lay /\
       rs = range_at region lay <$> merged /\ Forall (fun i => i.2 - i.1 <= u32_max)%N merged)
       (fm_regions map) rss ->
  f ∈ fm_features map -> feature_fits map f w -> exists r, r ∈ concat rss /\ range_contains f w r.
Proof.
  intros Hall Hf [Hw (region & Hreg & Hname & _) _].
  apply list_elem_of_lookup in Hreg as [k Hk].
  destruct (Forall2_lookup_l _ _ _ _ _ Hall Hk) as (rs & Hrs & ivs & merged & lay & Hm & -> & _).
  destruct (rm_contains _ _ _ _ Hm (ft_offset f, ft_offset f + w)%N) as (j & Hj & Hj1 & Hj2).
  { apply (rm_intervals _ _ _ _ Hm). exists f, w. done. }
  exists (range_at region lay j). split.
  - apply list_elem_of_In, in_concat. exists (range_at region lay <$> merged).
    split; apply list_elem_of_In; [by eapply list_elem_of_lookup_2|]. by apply list_elem_of_fmap_2.
  - unfold range_contains. cbn in *. split; [done|]. lia.
Qed.
End Layout.

(** ** Fields *)

Lemma lens_le pre r post : (lens pre + er_len r <= lens (pre ++ r :: post))%N.
Proof. rewrite lens_app. cbn. fold (lens post). lia. Qed.

(** The field compiled for a feature. *)
Record field_of (layout : list ExtractRange) (index : nat) (f : Feature) (c : CompiledField) : Prop := {
  fo_index : cf_field_index c = N.of_nat index;
  fo_source : (cf_name c, cf_region c, cf_source_offset c, cf_value_type c, cf_semantics c) =
    (ft_name f, ft_region f, ft_offset f, ft_value_type f, ft_semantics f);
  fo_decode : (cf_stability c, cf_discretize c, cf_valid_when c) =
    (ft_stability f, ft_discretize f, ft_valid_when f);
  fo_width : width f = Ok (cf_width c);
  fo_packed : exists pre r post, layout = pre ++ r :: post /\ range_contains f (cf_width c) r /\
    cf_packed_offset c = (lens pre + (ft_offset f - er_offset r))%N
}.

Lemma compile_field_run map layout index f w : feature_fits map f w ->
  Forall (fun r => er_offset r + er_len r <= u64_max)%N layout -> (lens layout <= u32_max)%N ->
  (exists r, r ∈ layout /\ range_contains f w r) ->
  (exists c, compile_field layout (index, f) = Ok c /\ field_of layout index f c) \/
  compile_field layout (index, f) = Err TotalLengthOverflow.
Proof.
  intros [Hw _ Hu] Hb Hl Hc. unfold compile_field. rewrite Hw. cbn [mbind res_bind].
  destruct (find_range_spec f w layout 0 Hu Hb Hl Hc) as (pre & r & post & Heq & Hr & ->).
  cbn [mbind res_bind ok_or fst snd]. destruct (Hr) as (Hreg & Hle & Hend).
  pose proof (width_positive _ _ Hw) as Hpos. pose proof (lens_le pre r post) as Hpre. rewrite <- Heq in Hpre.
  unfold checked_sub, checked_add. rewrite decide_True by lia. cbn [expect mbind res_bind].
  rewrite (proj2 (N.ltb_ge u32_max (ft_offset f - er_offset r))) by lia. cbn [mbind res_bind]. rewrite decide_True by lia.
  cbn [ok_or mbind res_bind]. destruct (N.ltb_spec u32_max (N.of_nat index)); [by right|]. left.
  cbn [mbind res_bind]. eexists. split; [done|]. split; cbn; auto.
  exists pre, r, post. split; [done|]. split; [done|]. by rewrite N.add_0_l.
Qed.

(** Ranges of one region are in increasing order and never touch. *)
Definition ranges_apart (a b : ExtractRange) : Prop :=
  er_region a = er_region b -> (er_offset a + er_len a < er_offset b)%N.

Lemma ranges_at_apart region lay merged : separated merged ->
  StronglySorted ranges_apart (range_at region lay <$> merged).
Proof.
  intros [Hs Hne]. induction Hs as [|i l Hl IH Hi]; [constructor|].
  apply Forall_cons_iff in Hne as [Hi' Hne]. cbn. constructor; [auto|].
  apply Forall_fmap. eapply Forall_impl; [exact Hi|]. unfold ranges_apart. cbn. lia.
Qed.

Lemma StronglySorted_app_apart l k : StronglySorted ranges_apart l -> StronglySorted ranges_apart k ->
  (forall a b, a ∈ l -> b ∈ k -> er_region a <> er_region b) -> StronglySorted ranges_apart (l ++ k).
Proof.
  intros Hl Hk Hd. induction Hl as [|a l Hl IH Ha]; [done|]. cbn. constructor.
  - apply IH. intros x y Hx. apply Hd. by right.
  - apply Forall_app. split; [done|]. apply Forall_forall. intros b Hb Heq.
    exfalso. apply (Hd a b); [left|done|done].
Qed.

Lemma concat_apart (Q : FeatureRegion -> list ExtractRange -> Prop) regions rss :
  (forall region rs, Q region rs -> StronglySorted ranges_apart rs /\
     Forall (fun r => er_region r = rg_name region) rs) ->
  Forall2 Q regions rss -> NoDup (rg_name <$> regions) ->
  StronglySorted ranges_apart (concat rss) /\
  Forall (fun r => er_region r ∈ (rg_name <$> regions)) (concat rss).
Proof.
  intros HQ. induction 1 as [|region rs regions rss Hq _ IH]; intros Hnd; [split; constructor|].
  cbn in *. apply NoDup_cons in Hnd as [Hni Hnd]. destruct (IH Hnd) as [Hs Hf].
  destruct (HQ _ _ Hq) as [Hs1 Hf1]. split.
  - apply StronglySorted_app_apart; auto. intros a b Ha Hb Heq. apply Hni.
    rewrite Forall_forall in Hf1, Hf. rewrite <- (Hf1 a Ha), Heq. by apply Hf.
  - apply Forall_app. split; (eapply Forall_impl; [eassumption|]); cbn; intros r Hr;
      rewrite elem_of_cons; auto.
Qed.

Section CompileSpec.
Context `{SB : SortByStart}.

(** All outcomes of compiling a validated map. *)
Lemma compile_valid_run map layouts : validate_feature_map map layouts = Ok tt ->
  compile_feature_map map layouts = Err TotalLengthOverflow \/
  exists c rss,
    compile_feature_map map layouts = Ok c /\ cm_layout c = concat rss /\ cm_meta c = fm_meta map /\
    Forall2 (fun region rs => exists ivs merged lay, region_merge map layouts region ivs merged lay /\
       rs = range_at region lay <$> merged /\ Forall (fun i => i.2 - i.1 <= u32_max)%N merged)
       (fm_regions map) rss /\
    cm_total_len c = lens (cm_layout c) /\ (lens (cm_layout c) <= u32_max)%N /\
    Forall2 (fun e fld => field_of (cm_layout c) e.1 e.2 fld) (imap pair (fm_features map)) (cm_fields c).
Proof.
  intros Hval. pose proof (validate_feature_map_Ok _ _ _ Hval) as Hv.
  unfold compile_feature_map. rewrite Hval. cbn [mbind res_bind].
  destruct (all_ranges_run map layouts Hv) as [(rss & -> & Hall)| ->]; [|by left]. cbn [mbind res_bind].
  rewrite total_len_spec. destruct (N.leb_spec (lens (concat rss)) u32_max) as [Hl|Hl]; [|by left].
  cbn [mbind res_bind].
  assert (Forall (fun r => er_offset r + er_len r <= u64_max)%N (concat rss)) as Hb.
  { apply Forall_forall. intros r Hr.
    destruct (layout_range map layouts rss r Hall Hr) as (region & ivs & merged & lay & i & _ & Hm & Hi & _ & Hend).
    rewrite Hend. exact (proj1 (Forall_forall _ _) (rm_bound _ _ _ _ _ _ Hm) i Hi). }
  assert (forall e, e ∈ imap pair (fm_features map) ->
    (exists c, compile_field (concat rss) e = Ok c /\ field_of (concat rss) e.1 e.2 c) \/
    compile_field (concat rss) e = Err TotalLengthOverflow) as Hf.
  { intros [i f] [k Hk]%list_elem_of_lookup. rewrite list_lookup_imap in Hk.
    destruct (fm_features map !! k) as [f'|] eqn:Hf; [|done]. cbn in Hk. injection Hk as <- <-.
    apply list_elem_of_lookup_2 in Hf.
    destruct (proj1 (Forall_forall _ _) (mv_features _ _ Hv) f' Hf) as [w Hw].
    eapply compile_field_run; eauto using layout_contains. }
  destruct (mapM_res_only_error (compile_field (concat rss)) TotalLengthOverflow (imap pair (fm_features map)))
    as [[flds Hflds]| ->]; [|right|by left].
  { intros e He. destruct (Hf e He) as [(c & Hc & _)|]; eauto. }
  rewrite Hflds. cbn [mbind res_bind]. eexists _, rss. split; [done|]. cbn. split_and!; auto.
  apply mapM_res_Ok in Hflds. eapply Forall2_impl_in; [exact Hflds|]. intros e c He Hc. cbv beta in Hc.
  destruct (Hf e He) as [(c' & Hc' & Hfo)|Herr]; rewrite ?Hc' in Hc; [by injection Hc as <-|by rewrite Herr in Hc].
Qed.

Lemma compile_validates map layouts c : compile_feature_map map layouts = Ok c ->
  validate_feature_map map layouts = Ok tt.
Proof. intros ([] & Hv & _)%bind_Ok. done. Qed.

(** C32. The compiled layout is a faithful, minimal packing: the total length
    is the sum of the ranges and fits 32 bits; the ranges of a region are in
    increasing order with gaps between them, and contain exactly the bytes
    of that region's features; every feature becomes one field, in order,
    contained in a range, at the packed offset of that range plus its
    distance from the range's start, and ends within the packed buffer. *)
Theorem compile_feature_map_correct (map : FeatureMap) (layouts : RegionLayouts) (c : CompiledFeatureMap) :
  compile_feature_map map layouts = Ok c ->
  cm_total_len c = lens (cm_layout c) /\ (cm_total_len c <= u32_max)%N /\
  StronglySorted ranges_apart (cm_layout c) /\
  (forall r x, r ∈ cm_layout c -> (er_offset r <= x < er_offset r + er_len r)%N ->
     exists f w, f ∈ fm_features map /\ ft_region f = er_region r /\ width f = Ok w /\
       (ft_offset f <= x < ft_offset f + w)%N) /\
  length (cm_fields c) = length (fm_features map) /\
  forall i f fld, fm_features map !! i = Some f -> cm_fields c !! i = Some fld ->
    field_of (cm_layout c) i f fld /\ (cf_packed_offset fld + cf_width fld <= cm_total_len c)%N.
Proof.
  intros Hc. destruct (compile_valid_run map layouts (compile_validates _ _ _ Hc))
    as [Herr|(c' & rss & Hc' & Hlay & _ & Hall & Htot & Hle & Hf)]; [congruence|].
  assert (c' = c) as -> by congruence.
  pose proof (validate_feature_map_Ok _ _ _ (compile_validates _ _ _ Hc)) as Hv.
  split_and!; [done|congruence| | | |].
  - rewrite Hlay. eapply concat_apart; [|exact Hall|exact (mv_region_names _ _ Hv)].
    intros region rs (ivs & merged & lay & Hm & -> & _). split.
    + apply ranges_at_apart, (rm_separated _ _ _ _ _ _ Hm).
    + by apply Forall_fmap, Forall_true.
  - intros r x Hr Hx. rewrite Hlay in Hr.
    destruct (layout_range map layouts rss r Hall Hr) as (region & ivs & merged & lay & i & _ & Hm & Hi & -> & Hend).
    assert (covered x ivs) as (j & Hj & Hxj).
    { apply (rm_covered _ _ _ _ _ _ Hm). exists i. split; [done|]. cbn in *. lia. }
    apply (rm_intervals _ _ _ _ _ _ Hm) in Hj as (f & w & Hf' & Hreg & Hw & ->). exists f, w. done.
  - apply Forall2_length in Hf. by rewrite length_imap in Hf.
  - intros i f fld Hfi Hfld. destruct (Forall2_lookup_r _ _ _ _ _ Hf Hfld) as ([j g] & Hg & Hfo).
    rewrite list_lookup_imap, Hfi in Hg. injection Hg as <- <-. cbn in Hfo. split; [done|].
    destruct (fo_packed _ _ _ _ Hfo) as (pre & r & post & Heq & (_ & Hlo & Hhi) & ->).
    pose proof (lens_le pre r post) as Hpre. rewrite <- Heq in Hpre. rewrite Htot. lia.
Qed.

(** Compilation is total on validated maps: it succeeds or reports that
    the packed buffer does not fit 32 bits.  It never reports an uncovered
    feature, never overflows an offset, and never panics. *)
Theorem compile_feature_map_total (map : FeatureMap) (layouts : RegionLayouts) :
  validate_feature_map map layouts = Ok tt ->
  (exists c, compile_feature_map map layouts = Ok c) \/
  compile_feature_map map layouts = Err TotalLengthOverflow.
Proof. intros Hv. destruct (compile_valid_run map layouts Hv) as [|(c & _ & Hc & _)]; eauto. Qed.
End CompileSpec.

(** ** The unstable sort does not matter *)

Lemma merge_sort_independent (S1 S2 : SortByStart) l : Forall (fun i => i.1 < i.2)%N l ->
  merge_intervals (@sort_by_start S1 l) = merge_intervals (@sort_by_start S2 l).
Proof.
  intros Hne.
  assert (forall S : SortByStart, separated (merge_intervals (@sort_by_start S l)) /\
    forall x, covered x (merge_intervals (@sort_by_start S l)) <-> covered x l) as H.
  { intros S. destruct (merge_intervals_spec (@sort_by_start S l)) as (Hs & Hc & _).
    - by rewrite sort_by_start_perm.
    - apply sort_by_start_sorted.
    - split; [done|]. intros x. rewrite Hc. unfold covered. by setoid_rewrite sort_by_start_perm. }
  destruct (H S1) as [A1 B1], (H S2) as [A2 B2]. apply separated_unique; auto.
  intros x. by rewrite B1, B2.
Qed.

Lemma region_ranges_independent (S1 S2 : SortByStart) map layouts region : map_valid map layouts ->
  @region_ranges S1 map layouts region = @region_ranges S2 map layouts region.
Proof.
  intros Hv. unfold region_ranges. destruct (layouts !! rg_name region) as [lay|]; [|done]. cbn [ok_or].
  destruct (mapM_res feature_interval _) as [ivs|e|] eqn:Hi; [|done|done]. cbn [mbind res_bind].
  rewrite (merge_sort_independent S1 S2); [done|]. apply mapM_res_Ok in Hi.
  apply Forall_lookup. intros k i Hk. destruct (Forall2_lookup_r _ _ _ _ _ Hi Hk) as (f & Hf & Hfi).
  apply list_elem_of_lookup_2, list_elem_of_filter in Hf as [_ Hf].
  destruct (proj1 (Forall_forall _ _) (mv_features _ _ Hv) f Hf) as [w Hw].
  rewrite (feature_interval_fits _ _ _ Hw) in Hfi. injection Hfi as <-. cbn.
  pose proof (width_positive _ _ (fits_width _ _ _ Hw)). lia.
Qed.

Lemma mapM_res_ext {E A B} (f g : A -> res E B) xs : (forall x, x ∈ xs -> f x = g x) ->
  mapM_res f xs = mapM_res g xs.
Proof.
  induction xs as [|x xs IH]; intros Hfg; cbn; [done|].
  rewrite (Hfg x (list_elem_of_here _ _)), IH; [done|]. intros y Hy. apply Hfg. by right.
Qed.

(** The compiled map is determined by the document: [sort_unstable_by_key]
    leaves the order of intervals with equal starts open, and no choice of
    that order changes the result. *)
Theorem compile_sort_independent (S1 S2 : SortByStart) (map : FeatureMap) (layouts : RegionLayouts) :
  @compile_feature_map S1 map layouts = @compile_feature_map S2 map layouts.
Proof.
  unfold compile_feature_map. destruct (validate_feature_map map layouts) as [u|e|] eqn:Hval; [|done|done].
  apply validate_feature_map_Ok in Hval. cbn [mbind res_bind].
  rewrite (mapM_res_ext (@region_ranges S1 map layouts) (@region_ranges S2 map layouts)); [done|].
  intros region _. by apply region_ranges_independent.
Qed.

(** ** Coarsening *)

(** Same feature up to the sizes of its discretization. *)
Inductive same_discretize : Discretize -> Discretize -> Prop :=
| same_plain d : (match d with DBucket _ | DGrid _ _ _ _ _ => False | _ => True end) -> same_discretize d d
| same_bucket a b : (0 < b)%N -> same_discretize (DBucket a) (DBucket b)
| same_grid x y room w h w' h' : (0 < w')%N -> (0 < h')%N ->
    same_discretize (DGrid x y room w h) (DGrid x y room w' h').

Record same_feature (f f' : Feature) : Prop := {
  sf_place : (ft_name f', ft_region f', ft_offset f') = (ft_name f, ft_region f, ft_offset f);
  sf_type : (ft_value_type f', ft_width f') = (ft_value_type f, ft_width f);
  sf_meta : (ft_semantics f', ft_stability f', ft_valid_when f') =
    (ft_semantics f, ft_stability f, ft_valid_when f);
  sf_discretize : same_discretize (ft_discretize f) (ft_discretize f')
}.

Lemma scale_positive_Ok v r s : scale_positive v r = Ok s ->
  s = N.max ((v * numerator r + denominator r - 1) / denominator r) 1.
Proof. unfold scale_positive. destruct (_ <? _)%N; [done|]. by intros [= <-]. Qed.

Lemma coarsen_feature_same r f f' : coarsen_feature r f = Ok f' -> same_feature f f'.
Proof.
  intros (d & Hd & [= <-])%bind_Ok. split; cbn; auto.
  destruct (ft_discretize f); cbn in Hd; try (injection Hd as <-; by constructor).
  - apply bind_Ok in Hd as (s & Hs%scale_positive_Ok & [= <-]). constructor. lia.
  - apply bind_Ok in Hd as (w & Hw%scale_positive_Ok & (h & Hh%scale_positive_Ok & [= <-])%bind_Ok).
    constructor; lia.
Qed.

Section SameFeatures.
Context (map map' : FeatureMap) (Hregions : fm_regions map' = fm_regions map).
Context (Hsame : Forall2 same_feature (fm_features map) (fm_features map')).

Lemma same_width f f' : same_feature f f' -> width f' = width f.
Proof. intros [[= Hn _ _] [= Ht Hw] _ _]. unfold width. by rewrite Hn, Ht, Hw. Qed.

Lemma same_interval f f' : same_feature f f' -> feature_interval f' = feature_interval f.
Proof.
  intros Hs. unfold feature_interval. rewrite (same_width _ _ Hs). by destruct Hs as [[= -> -> ->] _ _ _].
Qed.

Lemma same_intervals region :
  mapM_res feature_interval (filter (fun f => ft_region f = region) (fm_features map')) =
  mapM_res feature_interval (filter (fun f => ft_region f = region) (fm_features map)).
Proof.
  induction Hsame as [|f f' l l' Hf Hl IH]; [done|]. specialize (IH Hl).
  assert (ft_region f' = ft_region f) as Hr by (by destruct Hf as [[= _ -> _] _ _ _]).
  destruct (decide (ft_region f = region)).
  - rewrite !filter_cons_True by (done || by rewrite Hr). cbn [mapM_res]. by rewrite IH, (same_interval _ _ Hf).
  - by rewrite !filter_cons_False by (done || by rewrite Hr).
Qed.

(** Looking a name up finds the related feature. *)
Lemma same_find target :
  match list_find (fun c => ft_name c = target) (fm_features map),
        list_find (fun c => ft_name c = target) (fm_features map') with
  | Some t, Some t' => same_feature t.2 t'.2
  | None, None => True
  | _, _ => False
  end.
Proof.
  induction Hsame as [|f f' l l' Hf Hl IH]; [done|]. specialize (IH Hl).
  assert (ft_name f' = ft_name f) as Hn by (by destruct Hf as [[= -> _ _] _ _ _]). cbn.
  destruct (decide (ft_name f = target)), (decide (ft_name f' = target)); [done|congruence|congruence|].
  destruct (list_find _ l), (list_find _ l'); done.
Qed.

Lemma same_grid_target f f' target b : same_feature f f' ->
  validate_grid_target map f target b = Ok tt -> validate_grid_target map' f' target b = Ok tt.
Proof.
  intros Hf. unfold validate_grid_target. pose proof (same_find target) as Ht.
  destruct (list_find _ (fm_features map)) as [[i t]|], (list_find _ (fm_features map')) as [[i' t']|]; try done.
  cbn [ok_or mbind res_bind snd] in *. destruct Hf as [[= -> _ _] _ _ _].
  destruct Ht as [[= -> _ _] [= -> _] [= _ -> _] Hd].
  destruct (b && negb (is_integer_scalar (ft_value_type t))); [done|].
  replace (bool_decide (ft_discretize t' = DNone)) with (bool_decide (ft_discretize t = DNone)); [done|].
  apply bool_decide_ext. inversion Hd; naive_solver.
Qed.

Lemma same_validate_discretize f f' : same_feature f f' ->
  validate_discretize map f = Ok tt -> validate_discretize map' f' = Ok tt.
Proof.
  intros Hf. pose proof (sf_discretize _ _ Hf) as Hd. pose proof Hf as [[= Hn _ _] [= Ht _] _ _].
  unfold validate_discretize. rewrite Ht. revert Hd.
  generalize (ft_discretize f), (ft_discretize f'). intros d d' Hd.
  destruct (is_bitflags (ft_value_type f)); cbn [andb];
    destruct Hd as [d Hp|a b Hb|x y room w h w' h' Hw Hh]; try done; try (by destruct d).
  - intros _. by rewrite (proj2 (N.eqb_neq b 0)) by lia.
  - rewrite (proj2 (N.eqb_neq w' 0)), (proj2 (N.eqb_neq h' 0)) by lia. cbn [orb].
    destruct ((w =? 0)%N || (h =? 0)%N); [done|].
    intros ([] & Hx & ([] & Hy & Hr)%bind_Ok)%bind_Ok.
    by rewrite (same_grid_target _ _ _ _ Hf Hx), (same_grid_target _ _ _ _ Hf Hy), (same_grid_target _ _ _ _ Hf Hr).
Qed.

Lemma same_bounds f f' : same_feature f f' -> validate_feature_bounds map' f' = validate_feature_bounds map f.
Proof.
  intros Hf. unfold validate_feature_bounds. rewrite Hregions, (same_width _ _ Hf).
  by destruct Hf as [[= -> -> ->] _ _ _].
Qed.

Lemma same_validate_features names : forall l l', Forall2 same_feature l l' ->
  validate_features map names l = Ok tt -> validate_features map' names l' = Ok tt.
Proof.
  intros l l' Hl. revert names. induction Hl as [|f f' l l' Hf _ IH]; intros names; [done|].
  cbn [validate_features]. intros ([] & Hn & Hrest)%bind_Ok.
  assert (ft_name f' = ft_name f) as Hname by (by destruct Hf as [[= -> _ _] _ _ _]).
  rewrite Hname, Hn. cbn [mbind res_bind]. case_decide; [done|].
  apply bind_Ok in Hrest as ([] & Hb & ([] & Hd & Hrest)%bind_Ok).
  rewrite (same_bounds _ _ Hf), Hb. cbn [mbind res_bind].
  rewrite (same_validate_discretize _ _ Hf Hd). cbn [mbind res_bind]. by apply IH.
Qed.

(** A field differs only in the discretization it carries. *)
Lemma same_compile_field layout i f f' c : same_feature f f' -> compile_field layout (i, f) = Ok c ->
  exists c', compile_field layout (i, f') = Ok c'.
Proof.
  intros Hf. unfold compile_field. rewrite (same_width _ _ Hf).
  assert (forall w base rs, find_range f' w base rs = find_range f w base rs) as Hfind.
  { intros w base rs. revert base. induction rs as [|r rs IH]; intros base; cbn [find_range]; [done|].
    assert (range_covers f' w r = range_covers f w r) as ->
      by (unfold range_covers; by destruct Hf as [[= _ -> ->] _ _ _]).
    destruct (checked_add _ _ _); [|done]. by destruct (range_covers f w r) as [[]| |]; cbn; rewrite ?IH. }
  destruct (width f) as [w|e|]; [|done|done]. cbn [mbind res_bind]. rewrite Hfind.
  destruct Hf as [[= -> -> ->] _ _ _].
  intros (fo & -> & (rg & Hrg & (dl & Hdl & (d32 & Hd32 & (po & Hpo & (fi & Hfi & _)%bind_Ok)%bind_Ok)%bind_Ok)%bind_Ok)%bind_Ok)%bind_Ok.
  cbn [mbind res_bind]. rewrite Hrg. cbn [mbind res_bind]. rewrite Hdl. cbn [mbind res_bind].
  rewrite Hd32. cbn [mbind res_bind]. rewrite Hpo. cbn [mbind res_bind]. rewrite Hfi. cbn [mbind res_bind]. eauto.
Qed.
End SameFeatures.

Lemma imap_pair_same l l' : Forall2 same_feature l l' ->
  Forall2 (fun e e' => e'.1 = e.1 /\ same_feature e.2 e'.2) (imap pair l) (imap pair l').
Proof.
  intros Hl. apply Forall2_same_length_lookup_2.
  { rewrite !length_imap. by apply Forall2_length in Hl. }
  intros i [j f] [j' f']. rewrite !list_lookup_imap.
  destruct (l !! i) as [g|] eqn:Hg, (l' !! i) as [g'|] eqn:Hg'; try done. cbn.
  intros [= <- <-] [= <- <-]. split; [done|]. exact (Forall2_lookup_lr _ _ _ _ _ _ Hl Hg Hg').
Qed.

Lemma same_compile_fields layout l l' flds : Forall2 same_feature l l' ->
  mapM_res (compile_field layout) (imap pair l) = Ok flds ->
  exists flds', mapM_res (compile_field layout) (imap pair l') = Ok flds'.
Proof.
  intros Hl%imap_pair_same Hflds%mapM_res_Ok.
  apply mapM_res_total. intros [i' f'] [k Hk]%list_elem_of_lookup.
  destruct (Forall2_lookup_r _ _ _ _ _ Hl Hk) as ([i f] & Hk0 & Hi & Hf). cbn in Hi, Hf. subst i'.
  destruct (Forall2_lookup_l _ _ _ _ _ Hflds Hk0) as (c & _ & Hc). exact (same_compile_field _ _ _ _ _ Hf Hc).
Qed.

Section Coarsening.
Context `{SB : SortByStart}.

Lemma coarsen_l4_Ok map layouts r m : coarsen_l4 map layouts r = Ok m ->
  fm_schema_version m = fm_schema_version map /\ fm_regions m = fm_regions map /\
  bump_version (fm_meta map) = Ok (fm_meta m) /\ fm_extra m = fm_extra map /\
  Forall2 (fun f f' => coarsen_feature r f = Ok f') (fm_features map) (fm_features m).
Proof.
  intros (u & _ & (meta & Hm & (fs & Hfs%mapM_res_Ok & [= <-])%bind_Ok)%bind_Ok)%bind_Ok. done.
Qed.

(** Recompiling a coarsened map succeeds with the same ranges. *)
Lemma coarsened_compiles map layouts r c m : compile_feature_map map layouts = Ok c ->
  coarsen_l4 map layouts r = Ok m ->
  exists c', compile_feature_map m layouts = Ok c' /\ cm_layout c' = cm_layout c.
Proof.
  intros Hc Hm. destruct (coarsen_l4_Ok _ _ _ _ Hm) as (Hsv & Hreg & Hmeta & _ & Hfs).
  assert (Forall2 same_feature (fm_features map) (fm_features m)) as Hsame
    by (eapply Forall2_impl; [exact Hfs|]; intros f f'; apply coarsen_feature_same).
  apply bind_Ok in Hc as ([] & Hval & (rss & Hrss & (tot & Htot & (flds & Hflds & [= <-])%bind_Ok)%bind_Ok)%bind_Ok).
  assert (validate_feature_map m layouts = Ok tt) as Hval'.
  { revert Hval. unfold validate_feature_map. rewrite Hsv, Hreg. destruct (negb _); [done|].
    intros ([] & Hn & ([] & Hr & Hf)%bind_Ok)%bind_Ok.
    assert (meta_name (fm_meta m) = meta_name (fm_meta map)) as ->
      by (by apply bind_Ok in Hmeta as (v & _ & [= <-])).
    rewrite Hn, Hr. cbn [mbind res_bind]. by apply (same_validate_features map m Hreg Hsame ∅ _ _ Hsame). }
  assert (forall region, region_ranges m layouts region = region_ranges map layouts region) as Hrr
    by (intros region; unfold region_ranges; by rewrite (same_intervals map m Hsame)).
  destruct (same_compile_fields _ _ _ _ Hsame Hflds) as [flds' Hflds'].
  unfold compile_feature_map. rewrite Hval', Hreg. cbn [mbind res_bind].
  rewrite (mapM_res_ext _ (region_ranges map layouts)), Hrss by (intros; apply Hrr). cbn [mbind res_bind].
  rewrite Htot. cbn [mbind res_bind]. rewrite Hflds'. cbn [mbind res_bind]. eauto.
Qed.

(** Coarsening never moves a byte: on a map that compiles, the
    layout-preserving coarsening is the plain one, so its recompilation
    cannot fail and [LayoutChangedByCoarsening] is unreachable; the coarsened
    map compiles to the same ranges, carries the next version, and every
    feature keeps its name, place, type, stability and guard. *)
Theorem coarsen_preserving_layout_equiv (map : FeatureMap) (layouts : RegionLayouts) (r : RadiusFactor)
    (c : CompiledFeatureMap) :
  compile_feature_map map layouts = Ok c ->
  coarsen_l4_preserving_layout map layouts r = coarsen_l4 map layouts r /\
  forall m, coarsen_l4 map layouts r = Ok m ->
    meta_version (fm_meta m) = (meta_version (fm_meta map) + 1)%N /\
    Forall2 same_feature (fm_features map) (fm_features m) /\
    exists c', compile_feature_map m layouts = Ok c' /\ cm_layout c' = cm_layout c.
Proof.
  intros Hc. split.
  - unfold coarsen_l4_preserving_layout. rewrite Hc. cbn [mbind res_bind].
    destruct (coarsen_l4 map layouts r) as [m|e|] eqn:Hm; [|done|done]. cbn [mbind res_bind].
    destruct (coarsened_compiles _ _ _ _ _ Hc Hm) as (c' & -> & Heq). cbn [mbind res_bind].
    by rewrite bool_decide_eq_true_2 by done.
  - intros m Hm. destruct (coarsen_l4_Ok _ _ _ _ Hm) as (_ & _ & Hmeta & _ & Hfs). split_and!.
    + apply bind_Ok in Hmeta as (v & Hv & [= <-]). cbn. revert Hv.
      destruct (checked_add _ _ _) as [v'|] eqn:Ha; [|done]. apply checked_add_Some in Ha as [_ ->].
      by intros [= <-].
    + eapply Forall2_impl; [exact Hfs|]. intros f f'. apply coarsen_feature_same.
    + by apply (coarsened_compiles map layouts r).
Qed.

Lemma RadiusFactor_new_Ok n d r : RadiusFactor_new n d = Ok r ->
  numerator r = n /\ denominator r = d /\ (0 < d <= n)%N.
Proof.
  unfold RadiusFactor_new. generalize (eq_refl (d =? 0)%N). generalize (d =? 0)%N at 2 3. 
  intros [|] Hd; [done|]. destruct (N.ltb_spec n d); [done|]. intros [= <-].
  split_and!; [done|done| |done]. apply N.eqb_neq in Hd. lia.
Qed.

(** Scaling a size by a radius factor rounds the exact quotient up: for
    a factor the constructor accepts and a positive size the result is the
    least integer at or above it, never below the size, and the overflow
    error is reported exactly when that integer exceeds 64 bits. *)
Theorem scale_positive_rounds_up (n d v : N) (r : RadiusFactor) :
  RadiusFactor_new n d = Ok r -> (0 < v)%N ->
  (forall s, scale_positive v r = Ok s ->
     (v <= s)%N /\ (v * n <= s * d)%N /\ ((s - 1) * d < v * n)%N) /\
  (scale_positive v r = Err RadiusOverflow <-> (u64_max * d < v * n)%N).
Proof.
  intros (Hn & Hd & Hle)%RadiusFactor_new_Ok Hv. unfold scale_positive. rewrite Hn, Hd.
  pose proof (N.div_mod (v * n + d - 1) d ltac:(lia)) as Hdm.
  pose proof (N.mod_lt (v * n + d - 1) d ltac:(lia)) as Hlt.
  set (q := ((v * n + d - 1) / d)%N) in *. set (k := ((v * n + d - 1) mod d)%N) in *.
  assert (v * d <= v * n)%N as Hvd by (apply N.mul_le_mono_l; lia).
  assert (0 < v * n)%N as Hpos by lia.
  assert (v * n <= q * d)%N as Hup by lia.
  assert (0 < q)%N as Hq by (destruct (N.eq_dec q 0%N) as [E|E]; [rewrite E in Hup; lia|lia]).
  assert ((q - 1) * d < v * n)%N as Hlow by (rewrite N.mul_sub_distr_r; lia).
  split.
  - intros s. destruct (N.ltb_spec u64_max q); [done|]. intros [= <-]. rewrite N.max_l by lia.
    split_and!; [|done|done]. apply (N.mul_le_mono_pos_r _ _ d); lia.
  - destruct (N.ltb_spec u64_max q) as [Hgt|Hge]; split; try done; intros HH.
    + apply N.le_lt_trans with ((q - 1) * d)%N; [|done]. apply N.mul_le_mono_r. lia.
    + exfalso. assert (q * d <= u64_max * d)%N by (apply N.mul_le_mono_r; lia). lia.
Qed.
End Coarsening.

(** ** Samples *)

(** A concrete sort by starts. *)
Definition start_le (a b : N * N) : Prop := (a.1 <= b.1)%N.
Global Instance start_le_dec a b : Decision (start_le a b).
Proof. unfold start_le. apply _. Defined.

Lemma start_le_total : Total start_le.
Proof. intros a b. unfold start_le. lia. Qed.

Lemma start_le_trans : Transitive start_le.
Proof. intros a b c. unfold start_le. lia. Qed.

Lemma merge_sort_starts_perm l : merge_sort start_le l ≡ₚ l.
Proof. apply merge_sort_Permutation. Qed.

Lemma merge_sort_starts_sorted l : StronglySorted (fun a b => a.1 <= b.1)%N (merge_sort start_le l).
Proof. apply (@StronglySorted_merge_sort _ start_le _ start_le_trans start_le_total). Qed.

Definition sample_sort : SortByStart := {|
  sort_by_start := merge_sort start_le;
  sort_by_start_perm := merge_sort_starts_perm;
  sort_by_start_sorted := merge_sort_starts_sorted
|}.

(** Two adjacent features, one overlapping them and one apart. *)
Definition sample_feature (name : string) (offset : N) (t : FeatureValueType) (d : Discretize) : Feature :=
  mkFeature name "wram" offset t None "position" Stable d None [].
Definition sample_map : FeatureMap :=
  mkFeatureMap 1 KindFeatureMap (mkFeatureMapMeta "sample-map" "game" "r1" 7 [])
    [mkFeatureRegion "wram" 64 []]
    [sample_feature "tail" 40 U16Le (DBucket 3); sample_feature "y" 12 U16Le DNone;
     sample_feature "x" 10 U16Le DNone; sample_feature "room" 10 U8 DIdentity;
     sample_feature "pos" 13 U16Le (DGrid "x" "y" "room" 16 16)] [].
Definition sample_layouts : RegionLayouts := {["wram" := mkRegionLayout 128 4]}.

Definition sample_compiled : CompiledFeatureMap :=
  match @compile_feature_map sample_sort sample_map sample_layouts with
  | Ok c => c
  | _ => mkCompiledFeatureMap (fm_meta sample_map) [] [] 0
  end.

Lemma compile_feature_map_correct_witness :
  cm_layout sample_compiled = [mkExtractRange "wram" 4 10 5; mkExtractRange "wram" 4 40 2] /\
  cm_total_len sample_compiled = lens (cm_layout sample_compiled).
Proof.
  split; [vm_compute; reflexivity|].
  apply (@compile_feature_map_correct sample_sort sample_map sample_layouts sample_compiled).
  vm_compute. reflexivity.
Defined.

Lemma compile_feature_map_total_witness :
  (exists c, @compile_feature_map sample_sort sample_map sample_layouts = Ok c) \/
  @compile_feature_map sample_sort sample_map sample_layouts = Err TotalLengthOverflow.
Proof. apply compile_feature_map_total. vm_compute. reflexivity. Defined.

Definition sample_factor : RadiusFactor := mkRadiusFactor 3 2 eq_refl.

Lemma coarsen_preserving_layout_equiv_witness :
  @coarsen_l4_preserving_layout sample_sort sample_map sample_layouts sample_factor =
  coarsen_l4 sample_map sample_layouts sample_factor.
Proof.
  apply (@coarsen_preserving_layout_equiv sample_sort sample_map sample_layouts sample_factor sample_compiled).
  vm_compute. reflexivity.
Defined.

Lemma scale_positive_rounds_up_witness :
  scale_positive 5 sample_factor = Ok 8%N /\
  (scale_positive 5 sample_factor = Err RadiusOverflow <-> (u64_max * 2 < 5 * 3)%N).
Proof.
  split; [vm_compute; reflexivity|].
  apply (scale_positive_rounds_up 3 2 5 sample_factor); [vm_compute; reflexivity|lia].
Defined.
