(* ===== verification/Checkpoint.v ===== *)
(** Checkpoint and write-ahead-log records (crates/orch-checkpoint/src/lib.rs):
    their data, encoding, decoding and validation.  The byte format is the
    third-party [postcard] crate: the interface [Postcard], whose law is that
    deserializing what was serialized gives the value back. *)
From S2P Require Import Prelude Float64 Types Mirror.
From stdpp Require Import pretty.
Local Open Scope string_scope.
Local Open Scope list_scope.

Definition CHECKPOINT_VERSION : N := 1.

(** ** Data *)

Inductive ExperimentState :=
| Pending | Running | Paused | Stopped | GoalReached | BudgetExhausted | FailedState.

Global Instance ExperimentState_eq_dec : EqDecision ExperimentState.
Proof. solve_decision. Defined.

Record BudgetsUsed := mkBudgetsUsed {
  used_nodes : N;
  used_wall_clock_s : N;
  used_guest_instructions : N;
  used_expansions : N
}.

Record RngCheckpoint := mkRngCheckpoint { rc_seed : N }.

Record FrontierEntry := mkFrontierEntry {
  fe_node : NodeId;
  fe_visits : N;
  fe_exhausted : bool;
  fe_consecutive_all_dup : N
}.

Record PlateauKnobsInEffect := mkPlateauKnobsInEffect {
  kie_window_n : N;
  kie_epsilon_s : f64;
  kie_burst_len_factor : f64;
  kie_temp_factor : f64;
  kie_macro_weight_hot : f64;
  kie_backtrack_kappa : f64;
  kie_backtrack_depth_quantile : f64;
  kie_radius_factor : f64;
  kie_max_level : N
}.

Record PlateauCheckpoint := mkPlateauCheckpoint {
  pc_best_score : option f64;
  pc_observations : N;
  pc_observations_since_improvement : N;
  pc_completed_stall_windows : N;
  pc_level : N;
  pc_knobs_in_effect : PlateauKnobsInEffect
}.

Record CheckpointV1 := mkCheckpointV1 {
  ck_version : N;
  ck_experiment_id : string;
  ck_config_hash : list N;
  ck_last_committed_node : NodeId;
  ck_batch_seq : N;
  ck_expansions : N;
  ck_budgets_used : BudgetsUsed;
  ck_rng : RngCheckpoint;
  ck_frontier : list FrontierEntry;
  ck_scorer_archive_ref : string;
  ck_scorer_archive_seq : N;
  ck_scorer_checkpoint_id : string;
  ck_feature_map_version : N;
  ck_feature_map_hash : list N;
  ck_scoring_program_hash : list N;
  ck_synth_config_fingerprint : list N;
  ck_cell_mirror : list (CellKey * N);
  ck_seen : list (StateHash * NodeId);
  ck_plateau : PlateauCheckpoint;
  ck_goal_nodes : list NodeId;
  ck_status : ExperimentState
}.

Record IntentKnobs := mkIntentKnobs {
  ik_k : N;
  ik_length_hint_frames : N;
  ik_escalation_level : N;
  ik_config_overrides_yaml : list N
}.

Record ExpansionIntent := mkExpansionIntent {
  ei_seq : N;
  ei_node : NodeId;
  ei_burst_seed : N;
  ei_knobs : IntentKnobs;
  ei_client_batch_id : string
}.

Inductive CheckpointError :=
| Encode (detail : string)
| Decode (detail : string)
| Mismatch (detail : string).

Definition CheckpointError_fmt (e : CheckpointError) : string :=
  match e with
  | Encode detail => "checkpoint encode failed: " +:+ detail
  | Decode detail => "checkpoint decode failed: " +:+ detail
  | Mismatch detail => "checkpoint mismatch: " +:+ detail
  end.

(** ** The codec *)

(** [postcard::to_allocvec] and [postcard::from_bytes] at a type, failing
    with the text of their error. *)
Class Postcard (A : Type) := {
  to_allocvec : A -> res string (list N);
  from_bytes : list N -> res string A;
  postcard_roundtrip : forall a bytes, to_allocvec a = Ok bytes -> from_bytes bytes = Ok a;
  to_allocvec_no_panic : forall a, to_allocvec a <> Panic;
  from_bytes_no_panic : forall bytes, from_bytes bytes <> Panic
}.

(** [windows(2).all(|pair| ...)]. *)
Fixpoint windows2_all {A} (ok : A -> A -> bool) (l : list A) : bool :=
  match l with
  | x :: (y :: _) as rest => ok x y && windows2_all ok rest
  | _ => true
  end.

Definition validate_sorted (c : CheckpointV1) : res string unit :=
  if negb (windows2_all (fun a b => (a.1 <? b.1)%N) (ck_cell_mirror c))
  then Err "cell_mirror must be strictly sorted by cell key"
  else if negb (windows2_all (fun a b => bool_decide (bytes_compare a.1 b.1 = Lt)) (ck_seen c))
  then Err "seen must be strictly sorted by state hash"
  else Ok tt.

Section Codec.
Context `{PC : Postcard CheckpointV1, PI : Postcard ExpansionIntent}.

Definition encode_checkpoint (c : CheckpointV1) : res CheckpointError (list N) :=
  if negb (ck_version c =? CHECKPOINT_VERSION)%N
  then Err (Encode ("unsupported checkpoint version " +:+ pretty (ck_version c)))
  else
    _ ← map_err Encode (validate_sorted c);
    map_err Encode (to_allocvec c).

Definition decode_checkpoint (bytes : list N) (expected_experiment_id : string)
    (expected_config_hash : list N) : res CheckpointError CheckpointV1 :=
  c ← map_err Decode (from_bytes bytes);
  if negb (ck_version c =? CHECKPOINT_VERSION)%N
  then Err (Mismatch ("checkpoint version " +:+ pretty (ck_version c) +:+ " != supported "
                      +:+ pretty CHECKPOINT_VERSION))
  else if negb (bool_decide (ck_experiment_id c = expected_experiment_id))
  then Err (Mismatch ("checkpoint experiment '" +:+ ck_experiment_id c +:+ "' != requested '"
                      +:+ expected_experiment_id +:+ "'"))
  else if negb (bool_decide (ck_config_hash c = expected_config_hash))
  then Err (Mismatch "checkpoint config_hash does not match the supplied config")
  else
    _ ← map_err Decode (validate_sorted c);
    Ok c.

Definition encode_intent (i : ExpansionIntent) : res CheckpointError (list N) :=
  map_err Encode (to_allocvec i).
Definition decode_intent (bytes : list N) : res CheckpointError ExpansionIntent :=
  map_err Decode (from_bytes bytes).

(** ** Sortedness *)

Lemma windows2_all_sorted {A} (R : A -> A -> Prop) (ok : A -> A -> bool) (l : list A) : Transitive R ->
  (forall a b, ok a b = true <-> R a b) -> windows2_all ok l = true <-> StronglySorted R l.
Proof.
  intros HT Hok. induction l as [|x [|y l] IH]; [split; [constructor|done]|split; [repeat constructor|done]|].
  change (windows2_all ok (x :: y :: l)) with (ok x y && windows2_all ok (y :: l)).
  rewrite andb_true_iff, Hok, IH. split.
  - intros [Hxy Hs]. constructor; [done|]. inversion_clear Hs as [|? ? _ Hy]. constructor; [done|].
    eapply Forall_impl; [exact Hy|]. intros z Hz. by etransitivity.
  - intros Hs. inversion_clear Hs as [|? ? Hs' Hx]. split; [by inversion_clear Hx|done].
Qed.

(** The two lists a checkpoint keeps sorted. *)
Definition checkpoint_sorted (c : CheckpointV1) : Prop :=
  StronglySorted (fun a b => a.1 < b.1)%N (ck_cell_mirror c) /\
  StronglySorted (fun a b => bytes_lt a.1 b.1) (ck_seen c).

Lemma validate_sorted_Ok c u : validate_sorted c = Ok u <-> checkpoint_sorted c.
Proof.
  unfold validate_sorted, checkpoint_sorted.
  rewrite <- (windows2_all_sorted _ (fun a b => (a.1 <? b.1)%N)).
  2: { intros x y z. lia. }
  2: { intros a b. apply N.ltb_lt. }
  rewrite <- (windows2_all_sorted _ (fun a b => bool_decide (bytes_compare a.1 b.1 = Lt))).
  2: { intros x y z. apply bytes_lt_trans. }
  2: { intros a b. apply bool_decide_eq_true. }
  destruct (windows2_all _ (ck_cell_mirror c)), (windows2_all _ (ck_seen c)), u; cbn; intuition congruence.
Qed.

Lemma validate_sorted_no_panic c : validate_sorted c <> Panic.
Proof. unfold validate_sorted. by repeat case_match. Qed.

Lemma decode_checkpoint_Ok bytes id h c : decode_checkpoint bytes id h = Ok c <->
  from_bytes bytes = Ok c /\ ck_version c = CHECKPOINT_VERSION /\ ck_experiment_id c = id /\
  ck_config_hash c = h /\ checkpoint_sorted c.
Proof.
  unfold decode_checkpoint. rewrite bind_Ok. setoid_rewrite map_err_Ok. split.
  - intros (c' & Hb & Hrest).
    destruct (N.eqb_spec (ck_version c') CHECKPOINT_VERSION) as [Hv|]; [|done]. cbn [negb] in Hrest.
    destruct (bool_decide (ck_experiment_id c' = id)) eqn:Hid; [|done]. cbn [negb] in Hrest.
    destruct (bool_decide (ck_config_hash c' = h)) eqn:Hh; [|done]. cbn [negb] in Hrest.
    apply bind_Ok in Hrest as (u & Hs%map_err_Ok%validate_sorted_Ok & [= <-]).
    apply bool_decide_eq_true in Hid, Hh. done.
  - intros (Hb & Hv & Hid & Hh & Hs). exists c. split; [done|].
    rewrite (proj2 (N.eqb_eq _ _) Hv), !bool_decide_eq_true_2 by done. cbn [negb].
    rewrite (proj2 (validate_sorted_Ok c tt) Hs). done.
Qed.

Lemma encode_checkpoint_Ok c bytes : encode_checkpoint c = Ok bytes <->
  ck_version c = CHECKPOINT_VERSION /\ checkpoint_sorted c /\ to_allocvec c = Ok bytes.
Proof.
  unfold encode_checkpoint. destruct (N.eqb_spec (ck_version c) CHECKPOINT_VERSION) as [Hv|Hv]; cbn [negb].
  - rewrite bind_Ok. setoid_rewrite map_err_Ok. split.
    + by intros (u & Hs%validate_sorted_Ok & Hb).
    + intros (_ & Hs & Hb). exists tt. by rewrite validate_sorted_Ok.
  - split; [done|]. by intros (? & _).
Qed.

(** ** Properties *)

(** Checkpoints round-trip: what [encode_checkpoint] accepts decodes to
    the same checkpoint under its own experiment id and configuration hash,
    and intents likewise. *)
Theorem checkpoint_roundtrip (c : CheckpointV1) (i : ExpansionIntent) (bytes ibytes : list N) :
  encode_checkpoint c = Ok bytes -> encode_intent i = Ok ibytes ->
  decode_checkpoint bytes (ck_experiment_id c) (ck_config_hash c) = Ok c /\
  decode_intent ibytes = Ok i.
Proof.
  intros (Hv & Hs & Hb)%encode_checkpoint_Ok Hi. split.
  - apply decode_checkpoint_Ok. by rewrite (postcard_roundtrip _ _ Hb).
  - unfold encode_intent in Hi. apply map_err_Ok in Hi. unfold decode_intent. apply map_err_Ok.
    by apply postcard_roundtrip.
Qed.

(** Resume accepts only its own checkpoint: whatever the bytes, a
    decoded checkpoint has the supported version, the requested experiment
    id, the expected configuration hash and both lists strictly sorted; a
    checkpoint of another experiment or configuration is reported as a
    mismatch, and decoding never panics. *)
Theorem decode_checkpoint_guards (bytes : list N) (id : string) (h : list N) :
  decode_checkpoint bytes id h <> Panic /\
  (forall c, decode_checkpoint bytes id h = Ok c ->
     ck_version c = CHECKPOINT_VERSION /\ ck_experiment_id c = id /\ ck_config_hash c = h /\
     checkpoint_sorted c) /\
  (forall c, encode_checkpoint c = Ok bytes -> ck_experiment_id c <> id \/ ck_config_hash c <> h ->
     exists detail, decode_checkpoint bytes id h = Err (Mismatch detail)).
Proof.
  split_and!.
  - unfold decode_checkpoint. apply bind_no_panic.
    + pose proof (from_bytes_no_panic (A:=CheckpointV1) bytes) as Hn. by destruct (from_bytes bytes).
    + intros c _. destruct (negb _); [done|]. destruct (negb _); [done|]. destruct (negb _); [done|].
      apply bind_no_panic; [|done]. pose proof (validate_sorted_no_panic c) as Hn.
      by destruct (validate_sorted c).
  - intros c (_ & ? & ? & ? & ?)%decode_checkpoint_Ok. done.
  - intros c (Hv & Hs & Hb)%encode_checkpoint_Ok Hne.
    unfold decode_checkpoint. rewrite (postcard_roundtrip _ _ Hb). cbn [map_err mbind res_bind].
    rewrite (proj2 (N.eqb_eq _ _) Hv). cbn [negb].
    destruct (bool_decide (ck_experiment_id c = id)) eqn:Hid; cbn [negb]; [|eauto].
    destruct (bool_decide (ck_config_hash c = h)) eqn:Hh; cbn [negb]; [|eauto].
    apply bool_decide_eq_true in Hid, Hh. naive_solver.
Qed.
End Codec.

(** A checkpoint written from the live mirrors always passes the
    sortedness check: the exported cell counts and hash routes are strictly
    sorted, so the encoder never refuses a checkpoint of a running search. *)
Theorem live_mirrors_encode (c : CheckpointV1) (cells : CellMirror) (seen : SeenMap) :
  ck_cell_mirror c = sorted_counts cells -> ck_seen c = sorted_entries seen ->
  validate_sorted c = Ok tt.
Proof.
  intros Hc Hs. apply validate_sorted_Ok. unfold checkpoint_sorted. rewrite Hc, Hs. split.
  - eapply StronglySorted_mono; [|apply sorted_listing_strict; apply _].
    intros a b [Hle Hne]. cbn in *. lia.
  - eapply StronglySorted_mono; [|apply sorted_listing_strict; apply _].
    intros a b [Hle Hne]. cbn in *. by apply bytes_le_lt_eq in Hle as [?|?].
Qed.

(** ** Witnesses *)

Definition sample_checkpoint : CheckpointV1 :=
  mkCheckpointV1 CHECKPOINT_VERSION "exp" [1; 2]%N 4 7 7 (mkBudgetsUsed 5 1 0 7) (mkRngCheckpoint 7)
    [mkFrontierEntry 1 2 false 0] "ref" 3 "ckpt-7" 0 [] [] [] [(1, 2); (4, 1)]%N [([0; 1], 0); ([0; 2], 1)]%N
    (mkPlateauCheckpoint None 0 0 0 0
       (mkPlateauKnobsInEffect 200 f64_0_001 f64_1_5 f64_1_75 f64_0_5 f64_one f64_0_5 f64_2 4))
    [] Running.
Definition sample_intent : ExpansionIntent := mkExpansionIntent 7 1 99 (mkIntentKnobs 16 120 0 []) "b7".

Global Instance BudgetsUsed_eq_dec : EqDecision BudgetsUsed.
Proof. solve_decision. Defined.
Global Instance RngCheckpoint_eq_dec : EqDecision RngCheckpoint.
Proof. solve_decision. Defined.
Global Instance FrontierEntry_eq_dec : EqDecision FrontierEntry.
Proof. solve_decision. Defined.
Global Instance PlateauKnobsInEffect_eq_dec : EqDecision PlateauKnobsInEffect.
Proof. solve_decision. Defined.
Global Instance PlateauCheckpoint_eq_dec : EqDecision PlateauCheckpoint.
Proof. solve_decision. Defined.
Global Instance CheckpointV1_eq_dec : EqDecision CheckpointV1.
Proof. solve_decision. Defined.
Global Instance IntentKnobs_eq_dec : EqDecision IntentKnobs.
Proof. solve_decision. Defined.
Global Instance ExpansionIntent_eq_dec : EqDecision ExpansionIntent.
Proof. solve_decision. Defined.

(** A codec that knows one value: enough to run the code around it. *)
Definition one_value_codec {A} `{EqDecision A} (known : A) : Postcard A.
Proof.
  refine {| to_allocvec := fun a => if decide (a = known) then Ok [1%N] else Err "unsupported";
            from_bytes := fun bytes => if decide (bytes = [1%N]) then Ok known else Err "corrupt" |}.
  - intros a bytes. case_decide as Ha; [|done]. intros [= <-]. by rewrite decide_True, Ha.
  - intros a. by case_decide.
  - intros bytes. by case_decide.
Defined.

Definition sample_codec : Postcard CheckpointV1 := one_value_codec sample_checkpoint.
Definition sample_intent_codec : Postcard ExpansionIntent := one_value_codec sample_intent.

Lemma checkpoint_roundtrip_witness :
  @encode_checkpoint sample_codec sample_checkpoint = Ok [1%N] /\
  @decode_checkpoint sample_codec [1%N] "exp" [1; 2]%N = Ok sample_checkpoint.
Proof.
  assert (@encode_checkpoint sample_codec sample_checkpoint = Ok [1%N]) as He by (vm_compute; reflexivity).
  split; [exact He|].
  destruct (@checkpoint_roundtrip sample_codec sample_intent_codec sample_checkpoint sample_intent [1%N] [1%N])
    as [H _]; [exact He|vm_compute; reflexivity|exact H].
Defined.

Lemma decode_checkpoint_guards_witness :
  exists detail, @decode_checkpoint sample_codec [1%N] "other" [1; 2]%N = Err (Mismatch detail).
Proof.
  destruct (@decode_checkpoint_guards sample_codec [1%N] "other" [1; 2]%N) as (_ & _ & H).
  apply (H sample_checkpoint); [vm_compute; reflexivity|left; discriminate].
Defined.

Lemma live_mirrors_encode_witness : validate_sorted sample_checkpoint = Ok tt.
Proof.
  apply (live_mirrors_encode sample_checkpoint
    (from_sorted_counts [(1, 2); (4, 1)]%N) (from_sorted_entries [([0; 1], 0); ([0; 2], 1)]%N));
    vm_compute; reflexivity.
Defined.
