(* ===== verification/Runner.v ===== *)
(** The runner's selection stage (crates/orch-server/src/experiment.rs):
    policy dispatch from the configuration, the budget check and the building
    of an expansion intent from the search state.  The theorems about the
    selected node are proved from the policy interface. *)
From S2P Require Import Prelude Float64 Types Tree Frontier Mirror Commit Plateau Rng Policy.
From S2P Require Import Ucb Softmax Staged Checkpoint.
From stdpp Require Import pretty.
Local Open Scope string_scope.
Local Open Scope list_scope.

(** [format!] of an [f64]. *)
Class F64Display := { f64_display : f64 -> string }.

(** ** Policy dispatch *)

Inductive PolicyBox :=
| BoxSoftmax (policy : SoftmaxPolicy)
| BoxUcb (policy : UcbPolicy)
| BoxStaged (policy : StagedPolicy).

Definition PolicyBox_from_config (c : ExperimentConfig) : PolicyBox :=
  match sel_policy (selection c) with
  | Softmax => BoxSoftmax SoftmaxPolicy_new
  | Ucb => BoxUcb UcbPolicy_new
  | Staged => BoxStaged StagedPolicy_new
  end.

(** Only the staged policy is told the number of expansions. *)
Definition PolicyBox_set_total_expansions (total : N) (p : PolicyBox) : PolicyBox :=
  match p with
  | BoxStaged policy => BoxStaged (StagedPolicy_set_total_expansions total policy)
  | _ => p
  end.

(** ** The part of the runner's state the stage reads *)

Record SearchState := mkSearchState {
  ss_config : ExperimentConfig;
  ss_commit_state : CommitState;
  ss_policy : PolicyBox;
  ss_ladder : EscalationLadder;
  ss_batch_seq : N;
  ss_expansions : N;
  ss_guest_instructions_used : N
}.

Definition ss_set_policy (p : PolicyBox) (s : SearchState) : SearchState :=
  mkSearchState (ss_config s) (ss_commit_state s) p (ss_ladder s) (ss_batch_seq s) (ss_expansions s)
    (ss_guest_instructions_used s).

(** [elapsed] is the time since the start, in nanoseconds. *)
Definition budget_exhausted (s : SearchState) (elapsed : N) : option string :=
  let b := budgets (ss_config s) in
  if (0 <? max_nodes b)%N && (max_nodes b <=? N.of_nat (len (cs_tree (ss_commit_state s))))%N
  then Some "budget-exhausted: max_nodes"
  else if (0 <? max_expansions b)%N && (max_expansions b <=? ss_expansions s)%N
  then Some "budget-exhausted: max_expansions"
  else if (0 <? max_guest_instructions b)%N && (max_guest_instructions b <=? ss_guest_instructions_used s)%N
  then Some "budget-exhausted: max_guest_instructions"
  else if (0 <? max_wall_clock_s b)%N && (max_wall_clock_s b * 1000000000 <=? elapsed)%N
  then Some "budget-exhausted: max_wall_clock_s"
  else None.

(** [selection.temperature *= factor] *)
Definition scale_temperature (factor : f64) (s : SelectionConfig) : SelectionConfig :=
  mkSelectionConfig (sel_policy s) (alpha s) (beta s) (gamma s) (delta s)
    (f64_mul (temperature s) factor) (ucb_c s) (staged s) (max_visits_per_node s)
    (exhaust_after_dup_expansions s).

(** [(base_len * factor).min(f64::from(max.max(1))).max(1.0) as u32] *)
Definition length_hint (b : BurstConfig) (factor : f64) : N :=
  f64_as_unsigned u32_max
    (f64_max (f64_min (f64_mul (f64_of_N (base_burst_len_frames b)) factor)
                      (f64_of_N (N.max (max_burst_len_frames b) 1))) f64_one).

(** The error a failed selection is reported with. *)
Inductive RunnerError := SelectionFailed (error : PolicyError).

Section Runner.
Context `{HL : Libm, HB : Blake3, HC : ChaCha12, HD : F64Display}.

Definition PolicyBox_select (p : PolicyBox) (ctx : PolicyContext)
    : st DeterministicRng PolicyError SelectionChoice :=
  match p with
  | BoxSoftmax policy => policy_select policy ctx
  | BoxUcb policy => policy_select policy ctx
  | BoxStaged policy => policy_select policy ctx
  end.

Definition overrides_yaml (o : L3Override) : list N :=
  bytes_of_string ("generator_mix:
  macro: " +:+ f64_display (l3_macro_weight_hot o) +:+ "
").

(** What the policy is shown. *)
Definition selection_context (s : SearchState) : PolicyContext :=
  let snap := snapshot (ss_ladder s) in
  with_backtrack (l3_backtrack <$> es_l3_override snap)
    (PolicyContext_new (cs_tree (ss_commit_state s)) (cs_frontier (ss_commit_state s))
       (cs_cell_mirror (ss_commit_state s)) (from_plateau_config (plateau (ss_config s)))
       (scale_temperature (es_temp_factor snap) (selection (ss_config s)))).

Definition build_intent : st SearchState RunnerError (option ExpansionIntent) := fun s =>
  let snap := snapshot (ss_ladder s) in
  let ctx := selection_context s in
  let seed := cfg_seed (ss_config s) in
  let rng := rng_selection seed (ss_batch_seq s) in
  let policy := PolicyBox_set_total_expansions (ss_expansions s) (ss_policy s) in
  let s := ss_set_policy policy s in
  match (PolicyBox_select policy ctx rng).1 with
  | Ok choice =>
    match derive_synth_request_seed seed (ss_batch_seq s) with
    | Ok burst_seed =>
      (Ok (Some (mkExpansionIntent (ss_batch_seq s) (selected choice) burst_seed
         (mkIntentKnobs (k_per_expansion (burst (ss_config s)))
            (length_hint (burst (ss_config s)) (es_burst_len_factor snap))
            (level_get (es_level snap))
            (match es_l3_override snap with Some o => overrides_yaml o | None => [] end))
         ("b" +:+ pretty (ss_batch_seq s)))), s)
    | Err e => (Err e, s)
    | Panic => (Panic, s)
    end
  | Err EmptyCandidateSet => (Ok None, s)
  | Err e => (Err (SelectionFailed e), s)
  | Panic => (Panic, s)
  end.

(** ** What any lawful policy guarantees *)

(** Proved from the interface alone. *)
Lemma lawful_choice_open `{HP : SelectionPolicy P} `{!SelectionPolicyLaws P} p ctx rng choice rng' :
  policy_select p ctx rng = (Ok choice, rng') ->
  is_candidate (ctx_tree ctx) (selected choice) /\ selected choice ∈ members (ctx_frontier ctx).
Proof.
  intros (l & c & Hl & Hc & Hid)%select_candidate.
  destruct (candidate_snapshots_Ok ctx l Hl) as (cutoff & norm & Hids & _).
  rewrite <- Hid. apply (deterministic_candidates_in_tree _ _ _ _ Hids).
  apply list_elem_of_fmap. exists c. split; [done|]. by eapply list_elem_of_lookup_2.
Qed.

Lemma PolicyBox_choice_open p ctx rng choice rng' : PolicyBox_select p ctx rng = (Ok choice, rng') ->
  is_candidate (ctx_tree ctx) (selected choice) /\ selected choice ∈ members (ctx_frontier ctx).
Proof. destruct p; apply lawful_choice_open. Qed.

(** The frontier enters only through its member set. *)
Lemma candidates_same_members f f' t : frontier_wf f -> frontier_wf f' -> members f = members f' ->
  (forall id, id ∈ members f -> contains t id = true) ->
  deterministic_candidates f t = deterministic_candidates f' t.
Proof.
  intros Hf Hf' Hm Hin. unfold deterministic_candidates.
  rewrite !collect_candidates_spec.
  2: { intros id Hid. apply Hin. rewrite Hm. by apply elem_of_members. }
  2: { intros id Hid. apply Hin. by apply elem_of_members. }
  cbn. f_equal. apply sort_ids_ext, filter_Permutation, NoDup_Permutation; auto using wf_NoDup.
  intros id. by rewrite <- !elem_of_members, Hm.
Qed.

Lemma candidate_snapshots_same_members ctx f' :
  let ctx' := mkPolicyContext (ctx_tree ctx) f' (ctx_mirror ctx) (ctx_plateau ctx) (ctx_selection ctx)
    (ctx_backtrack ctx) in
  frontier_wf (ctx_frontier ctx) -> frontier_wf f' -> members (ctx_frontier ctx) = members f' ->
  (forall id, id ∈ members f' -> contains (ctx_tree ctx) id = true) ->
  candidate_snapshots ctx = candidate_snapshots ctx'.
Proof.
  intros ctx' Hf Hf' Hm Hin. unfold candidate_snapshots, backtrack_cutoff, ctx'. cbn [ctx_tree ctx_frontier
    ctx_mirror ctx_plateau ctx_selection ctx_backtrack].
  rewrite (candidates_same_members _ f') by (done || by rewrite Hm).
  destruct (validate_selection_weights (ctx_selection ctx)); [|done|done].
  destruct (deterministic_candidates f' (ctx_tree ctx)) as [[|]| |]; done.
Qed.

(** Same candidates, same selection: every policy reads the frontier only
    through the candidate list. *)
Lemma PolicyBox_select_ext p ctx ctx' rng :
  candidate_snapshots ctx = candidate_snapshots ctx' -> ctx_tree ctx = ctx_tree ctx' ->
  ctx_selection ctx = ctx_selection ctx' -> PolicyBox_select p ctx rng = PolicyBox_select p ctx' rng.
Proof.
  intros Hc Ht Hs. destruct p; cbn; unfold softmax_select, ucb_select, staged_select;
    by rewrite Hc, ?Ht, Hs.
Qed.

Lemma PolicyBox_empty p ctx rng rng' : PolicyBox_select p ctx rng = (Err EmptyCandidateSet, rng') ->
  candidate_snapshots ctx = Err EmptyCandidateSet.
Proof. destruct p; apply select_empty. Qed.

Lemma synth_seed_Ok {E} seed seq : derive_synth_request_seed (E:=E) seed seq =
  Ok (chacha_next_u64 (chacha_from_seed (derive_stream_seed seed Synth seq))).1.
Proof.
  unfold derive_synth_request_seed, next_u64. rewrite draw_run.
  rewrite decide_True; [done|]. cbn. unfold u64_max. lia.
Qed.

(** ** Properties *)

(** The stage expands only open nodes: from a consistent search state a
    built intent names a frontier node that is not exhausted, not a goal and
    not pruned, carries the current batch sequence, and its burst seed is
    the first draw of the synth stream of that batch; the absence of an
    intent means that the frontier has no open node; the commit state is not
    touched. *)
Theorem build_intent_open_node (s s' : SearchState) (r : res RunnerError (option ExpansionIntent)) :
  commit_wf (ss_commit_state s) -> build_intent s = (r, s') ->
  ss_commit_state s' = ss_commit_state s /\
  (forall i, r = Ok (Some i) ->
     is_candidate (cs_tree (ss_commit_state s)) (ei_node i) /\
     Frontier_contains (cs_frontier (ss_commit_state s)) (ei_node i) = true /\
     ei_seq i = ss_batch_seq s /\
     ei_burst_seed i = (chacha_next_u64 (chacha_from_seed
       (derive_stream_seed (cfg_seed (ss_config s)) Synth (ss_batch_seq s)))).1 /\
     ik_escalation_level (ei_knobs i) = level_get (el_level (ss_ladder s))) /\
  (r = Ok None ->
     deterministic_candidates (cs_frontier (ss_commit_state s)) (cs_tree (ss_commit_state s)) = Ok []).
Proof.
  intros Hwf. unfold build_intent. cbv zeta. rewrite synth_seed_Ok.
  set (policy := PolicyBox_set_total_expansions (ss_expansions s) (ss_policy s)).
  set (rng := rng_selection (cfg_seed (ss_config s)) (ss_batch_seq s)).
  destruct (PolicyBox_select policy (selection_context s) rng) as [sel rng'] eqn:Hsel. cbn [fst].
  destruct sel as [choice|e|].
  - intros [= <- <-]. split; [done|]. split; [|done]. intros i [= <-]. cbn.
    destruct (PolicyBox_choice_open _ _ _ _ _ Hsel) as [Hc Hin]. cbn in Hc, Hin.
    split_and!; auto. rewrite contains_members by apply Hwf. by apply bool_decide_eq_true.
  - intros Hrun.
    assert (ss_commit_state s' = ss_commit_state s /\
      ((r = Ok None /\ e = EmptyCandidateSet) \/ r = Err (SelectionFailed e))) as [Hcs Hr].
    { destruct e; injection Hrun as <- <-; split; auto. }
    split; [done|]. split; [intros i ->; by destruct Hr as [[? _]|?]|]. intros ->.
    destruct Hr as [[_ ->]|?]; [|done].
    apply PolicyBox_empty, candidate_snapshots_empty in Hsel as [_ Hd]. exact Hd.
  - intros [= <- <-]. split; [done|]. split; done.
Qed.

(** Selection is reproducible: the intent does not depend on the order
    in which nodes entered the frontier.  Two consistent search states that
    agree on everything but the frontier's internal layout build the same
    intent. *)
Theorem build_intent_layout_independent (s : SearchState) (f' : Frontier) :
  commit_wf (ss_commit_state s) -> frontier_wf f' ->
  members f' = members (cs_frontier (ss_commit_state s)) ->
  let s2 := mkSearchState (ss_config s) (set_frontier f' (ss_commit_state s)) (ss_policy s) (ss_ladder s)
    (ss_batch_seq s) (ss_expansions s) (ss_guest_instructions_used s) in
  (build_intent s2).1 = (build_intent s).1.
Proof.
  intros Hwf Hf Hm s2. unfold build_intent. cbv zeta.
  change (ss_config s2) with (ss_config s). change (ss_batch_seq s2) with (ss_batch_seq s).
  change (ss_policy s2) with (ss_policy s). change (ss_expansions s2) with (ss_expansions s).
  change (ss_ladder s2) with (ss_ladder s).
  rewrite <- (PolicyBox_select_ext _ (selection_context s) (selection_context s2)).
  - destruct (PolicyBox_select _ _ _) as [[choice|[]|] ?]; cbn [fst]; try done.
    cbn [ss_batch_seq ss_set_policy]. by destruct (derive_synth_request_seed _ _).
  - apply (candidate_snapshots_same_members (selection_context s) f'); [apply Hwf|done|done|].
    cbn. intros id Hid. rewrite Hm in Hid. apply (cwf_members _ Hwf) in Hid as [h Hh].
    apply lookup_lt_Some in Hh. rewrite views_length in Hh. unfold contains.
    destruct (index_of (cs_tree (ss_commit_state s)) id) eqn:E; [done|].
    apply index_of_None in E. unfold next_id, len in *. lia.
  - done.
  - done.
Qed.

(** The stand-alone UCB policy never learns how many expansions were
    made: the runner's [set_total_expansions] reaches only the staged
    policy, so with the UCB policy the exploration term is computed for a
    total of 0 at every step and the choice does not change with the
    expansion count. *)
Theorem ucb_total_never_updated (c : ExperimentConfig) (ctx : PolicyContext) (rng : DeterministicRng)
    (total : N) :
  sel_policy (selection c) = Ucb ->
  PolicyBox_select (PolicyBox_set_total_expansions total (PolicyBox_from_config c)) ctx rng =
  ucb_select (mkUcbPolicy 0) ctx rng.
Proof. intros Hu. unfold PolicyBox_from_config. by rewrite Hu. Qed.

(** Budgets: the search stops exactly when some positive limit is
    reached; a limit of zero is no limit. *)
Theorem budget_exhausted_iff (s : SearchState) (elapsed : N) :
  let b := budgets (ss_config s) in
  budget_exhausted s elapsed <> None <->
  (0 < max_nodes b <= N.of_nat (len (cs_tree (ss_commit_state s))) \/
   0 < max_expansions b <= ss_expansions s \/
   0 < max_guest_instructions b <= ss_guest_instructions_used s \/
   0 < max_wall_clock_s b /\ max_wall_clock_s b * 1000000000 <= elapsed)%N.
Proof.
  cbv zeta. unfold budget_exhausted.
  assert (forall a b, (0 <? a)%N && (a <=? b)%N = true <-> (0 < a <= b)%N) as H1
    by (intros; rewrite andb_true_iff, N.ltb_lt, N.leb_le; done).
  assert (forall a b, (0 <? a)%N && (a * 1000000000 <=? b)%N = true <->
    (0 < a /\ a * 1000000000 <= b)%N) as H2
    by (intros; rewrite andb_true_iff, N.ltb_lt, N.leb_le; done).
  rewrite <- !H1, <- H2. repeat (destruct (_ && _); [naive_solver|]).
  split; [done|]. intros [|[|[|]]]; done.
Qed.
End Runner.

(** ** Witnesses *)

Definition toy_display : F64Display := {| f64_display := fun _ => "0.5" |}.
Definition sample_search : SearchState :=
  mkSearchState sample_config (after_batch sample_state) (PolicyBox_from_config sample_config)
    (EscalationLadder_from_knobs sample_knobs) 1 1 0.

Lemma build_intent_open_node_witness :
  exists i, (@build_intent toy_libm toy_blake3 toy_chacha toy_display sample_search).1 = Ok (Some i) /\
    is_candidate (cs_tree (after_batch sample_state)) (ei_node i).
Proof.
  destruct (@build_intent toy_libm toy_blake3 toy_chacha toy_display sample_search) as [r s'] eqn:E.
  destruct r as [[i|]|e|]; [|vm_compute in E; discriminate E..].
  destruct (build_intent_open_node sample_search s' (Ok (Some i))
    (commit_reachable_inv _ after_batch_reachable) E) as (_ & H & _).
  exists i. split; [reflexivity|]. apply (H i eq_refl).
Defined.

(** The same frontier built in another order. *)
Definition sample_reordered : Frontier :=
  fold_left (fun f id => (Frontier_insert id f).2) (reverse (entries (cs_frontier (after_batch sample_state))))
    Frontier_new.

Lemma sample_reordered_wf : frontier_wf sample_reordered /\
  members sample_reordered = members (cs_frontier (after_batch sample_state)).
Proof.
  split; [|vm_compute; reflexivity].
  unfold sample_reordered. generalize (reverse (entries (cs_frontier (after_batch sample_state)))).
  intros l. assert (forall f, frontier_wf f -> frontier_wf (fold_left
    (fun f id => (Frontier_insert id f).2) l f)) as H; [|apply H, new_wf].
  induction l as [|x l IH]; intros f Hf; [done|]. apply IH.
  pose proof (Frontier_insert_spec f x Hf) as Hs. case_decide; [by rewrite Hs|].
  destruct Hs as (f' & -> & Hw & _). exact Hw.
Qed.

Lemma build_intent_layout_independent_witness :
  (@build_intent toy_libm toy_blake3 toy_chacha toy_display
     (mkSearchState (ss_config sample_search) (set_frontier sample_reordered (ss_commit_state sample_search))
        (ss_policy sample_search) (ss_ladder sample_search) (ss_batch_seq sample_search)
        (ss_expansions sample_search) (ss_guest_instructions_used sample_search))).1 =
  (@build_intent toy_libm toy_blake3 toy_chacha toy_display sample_search).1.
Proof.
  apply (@build_intent_layout_independent toy_libm toy_blake3 toy_chacha toy_display sample_search
    sample_reordered (commit_reachable_inv _ after_batch_reachable)); apply sample_reordered_wf.
Defined.

Definition sample_ucb_config : ExperimentConfig :=
  mkExperimentConfig 1 7 "w" "m" "p" "s" [] Budgets_default
    (mkSelectionConfig Ucb f64_one f64_0_5 f64_0_3 f64_0_1 f64_one f64_1_4 StagedConfig_default 64 8)
    BurstConfig_default PlateauConfig_default SchedulingConfig_default CheckpointConfig_default
    Exhausted StopOnGoal [].

Lemma ucb_total_never_updated_witness :
  @PolicyBox_select toy_libm toy_chacha
    (PolicyBox_set_total_expansions 1000 (PolicyBox_from_config sample_ucb_config)) sample_context
    (@rng_selection toy_blake3 toy_chacha 7 1) =
  @ucb_select toy_libm toy_chacha (mkUcbPolicy 0) sample_context (@rng_selection toy_blake3 toy_chacha 7 1).
Proof. apply ucb_total_never_updated. reflexivity. Defined.
