(* ===== verification/Durable.v ===== *)
(** Durability of the runner (crates/orch-server/src/experiment.rs): the
    checkpoint with its compare-and-swap write and the truncation of the
    write-ahead log, the loading of surviving log entries on resume, the
    ownership check and the injected crash points.  The metadata service, the
    scorer's archive, the clock and the crash policy are interfaces; the
    theorems hold for every lawful store, whatever calls fail and wherever
    the process dies. *)
From S2P Require Import Prelude Float64 Types Tree Frontier Mirror Commit Plateau Reasons Client Retry.
From S2P Require Import Fault MetaStore Rng Policy Softmax Checkpoint Runner.
From stdpp Require Import pretty.
Local Open Scope string_scope.
Local Open Scope list_scope.

(** ** Crash points *)

Inductive CrashPoint :=
| AfterWalWrite | AfterDispatch | BeforeCommitOwnerCheck | MidBatchCommit | AfterCreateNode
| BeforeWalDelete | AfterWalDelete | AfterCommitBeforeCheckpoint | BeforeCheckpointArchive
| AfterCheckpointArchive | BeforeCasPut | AfterCasPut.

Global Instance CrashPoint_eq_dec : EqDecision CrashPoint.
Proof. solve_decision. Defined.

Definition crash_point_as_str (p : CrashPoint) : string :=
  match p with
  | AfterWalWrite => "AfterWalWrite"
  | AfterDispatch => "AfterDispatch"
  | BeforeCommitOwnerCheck => "BeforeCommitOwnerCheck"
  | MidBatchCommit => "MidBatchCommit"
  | AfterCreateNode => "AfterCreateNode"
  | BeforeWalDelete => "BeforeWalDelete"
  | AfterWalDelete => "AfterWalDelete"
  | AfterCommitBeforeCheckpoint => "AfterCommitBeforeCheckpoint"
  | BeforeCheckpointArchive => "BeforeCheckpointArchive"
  | AfterCheckpointArchive => "AfterCheckpointArchive"
  | BeforeCasPut => "BeforeCasPut"
  | AfterCasPut => "AfterCasPut"
  end.

Definition CRASHED_MARKER : string := "simulated-crash".

(** Where to die, with a state of its own. *)
Class CrashPolicy (CP : Type) := { should_crash : CrashPoint -> CP -> bool * CP }.

(** The scorer's archive snapshot: its reference and sequence number. *)
Class ScorerArchive (W : Type) := {
  checkpoint_archive : string -> string -> st W ClientError (string * N)
}.

(** ** State *)

(** Search progress a checkpoint records besides the search state. *)
Record Progress := mkProgress {
  pg_stall : StallDetector;
  pg_feature_map_hash : list N;
  pg_scoring_program_hash : list N;
  pg_fingerprint : option (list N);
  pg_best_score : option f64;
  pg_goal_nodes : list NodeId;
  pg_scorer_archive_seq : N;
  pg_started_at : N;
  pg_status : ExperimentState
}.

(** What the runner knows of its durable state. *)
Record DurableState := mkDurableState {
  du_ckpt_generation : option MetadataGeneration;
  du_checkpointed_batch_seq : N;
  du_wal_floor : N;
  du_commits_since_checkpoint : N;
  du_last_checkpoint_at : N;
  du_replay_queue : list ExpansionIntent
}.

(** The event a checkpoint emits, with its time stamp. *)
Record CheckpointEvent := mkCheckpointEvent {
  ev_ts : N;
  ev_batch_seq : N;
  ev_expansions : N;
  ev_archive_seq : N
}.

Record Run (W CP : Type) := mkRun {
  rn_experiment_id : string;
  rn_config_hash : list N;
  rn_retry : RetryPolicy;
  rn_search : SearchState;
  rn_progress : Progress;
  rn_durable : DurableState;
  rn_events : list CheckpointEvent;
  rn_crash : option CP;
  rn_world : W
}.
Arguments mkRun {W CP}.
Arguments rn_experiment_id {W CP}.
Arguments rn_config_hash {W CP}.
Arguments rn_retry {W CP}.
Arguments rn_search {W CP}.
Arguments rn_progress {W CP}.
Arguments rn_durable {W CP}.
Arguments rn_events {W CP}.
Arguments rn_crash {W CP}.
Arguments rn_world {W CP}.

(** The seqs [a..b]. *)
Definition range (a b : N) : list N := (fun i => a + N.of_nat i)%N <$> seq 0 (N.to_nat (b - a)).

Section Durable.
Context {W CP : Type} `{MS : MetadataStore W, RT : Runtime W, SA : ScorerArchive W, CR : CrashPolicy CP}.
Context `{PC : Postcard CheckpointV1, PI : Postcard ExpansionIntent}.
Implicit Types s : Run W CP.

Definition set_world (w : W) s : Run W CP :=
  mkRun (rn_experiment_id s) (rn_config_hash s) (rn_retry s) (rn_search s) (rn_progress s) (rn_durable s)
    (rn_events s) (rn_crash s) w.
Definition set_crash (c : option CP) s : Run W CP :=
  mkRun (rn_experiment_id s) (rn_config_hash s) (rn_retry s) (rn_search s) (rn_progress s) (rn_durable s)
    (rn_events s) c (rn_world s).
Definition set_durable (d : DurableState) s : Run W CP :=
  mkRun (rn_experiment_id s) (rn_config_hash s) (rn_retry s) (rn_search s) (rn_progress s) d
    (rn_events s) (rn_crash s) (rn_world s).
Definition emit_event (e : CheckpointEvent) s : Run W CP :=
  mkRun (rn_experiment_id s) (rn_config_hash s) (rn_retry s) (rn_search s) (rn_progress s) (rn_durable s)
    (rn_events s ++ [e]) (rn_crash s) (rn_world s).

Definition set_generation (g : MetadataGeneration) (d : DurableState) : DurableState :=
  mkDurableState (Some g) (du_checkpointed_batch_seq d) (du_wal_floor d) (du_commits_since_checkpoint d)
    (du_last_checkpoint_at d) (du_replay_queue d).
Definition set_wal_floor (n : N) (d : DurableState) : DurableState :=
  mkDurableState (du_ckpt_generation d) (du_checkpointed_batch_seq d) n (du_commits_since_checkpoint d)
    (du_last_checkpoint_at d) (du_replay_queue d).
Definition set_checkpointed (seq t : N) (d : DurableState) : DurableState :=
  mkDurableState (du_ckpt_generation d) seq (du_wal_floor d) 0 t (du_replay_queue d).

(** A call of a service, on the world's part of the state. *)
Definition on_world {A} (m : st W ClientError A) : st (Run W CP) ClientError A := fun s =>
  let '(r, w') := m (rn_world s) in (r, set_world w' s).

(** A service call behind the runner's retry policy. *)
Definition rpc {A} (m : st W ClientError A) : st (Run W CP) ClientError A := fun s =>
  on_world (retry_rpc (rn_retry s) m) s.

Definition crash_check (point : CrashPoint) : st (Run W CP) ClientError unit := fun s =>
  match rn_crash s with
  | None => (Ok tt, s)
  | Some policy =>
    let '(crash, policy') := should_crash point policy in
    let s' := set_crash (Some policy') s in
    if (crash : bool)
    then (Err (mkClientError Internal (CRASHED_MARKER +:+ ": " +:+ crash_point_as_str point)), s')
    else (Ok tt, s')
  end.

(** [?]-conversion of a checkpoint error. *)
Definition as_client_error {A} (kind : ClientErrorKind) (r : res CheckpointError A) : res ClientError A :=
  map_err (fun e => mkClientError kind (CheckpointError_fmt e)) r.

(** ** Ownership *)

Definition ensure_checkpoint_owner (window : string) : st (Run W CP) ClientError unit := fun s =>
  match du_ckpt_generation (rn_durable s) with
  | None => (Ok tt, s)
  | Some expected =>
    match rpc (get_metadata (checkpoint_key (rn_experiment_id s))) s with
    | (Ok (_, generation), s') =>
      if decide (generation = expected) then (Ok tt, s')
      else (Err (mkClientError FailedPrecondition
             (REASON_CAS_OWNERSHIP_LOST +:+ ": " +:+ window +:+ ": checkpoint generation "
              +:+ pretty generation +:+ " != owned " +:+ pretty expected)), s')
    | (Err error, s') =>
      match ce_kind error with
      | NotFound | FailedPrecondition | AlreadyExists =>
        (Err (mkClientError FailedPrecondition
           (REASON_CAS_OWNERSHIP_LOST +:+ ": " +:+ window +:+ ": " +:+ ce_message error)), s')
      | _ => (Err error, s')
      end
    | (Panic, s') => (Panic, s')
    end
  end.

(** ** Checkpoint *)

Definition effective_checkpoint_seq s : N :=
  match du_replay_queue (rn_durable s) with
  | intent :: _ => ei_seq intent
  | [] => ss_batch_seq (rn_search s)
  end.

Definition frontier_entry (cs : CommitState) (id : NodeId) : res ClientError FrontierEntry :=
  record ← ok_or (get (cs_tree cs) id) (mkClientError Internal "frontier node missing from tree");
  Ok (mkFrontierEntry id (nr_visits record) (nr_exhausted record)
        (N.min (default 0%N (all_duplicate_streak cs id)) u16_max)).

Definition knobs_in_effect (k : PlateauKnobs) : PlateauKnobsInEffect :=
  let l := k_ladder k in
  mkPlateauKnobsInEffect (k_window_n k) (k_epsilon_s k) (k_burst_len_factor l) (k_temp_factor l)
    (k_macro_weight_hot l) (k_backtrack_kappa l) (k_backtrack_depth_quantile l) (k_radius_factor l)
    (level_get (k_max_level l)).

Definition build_checkpoint (s : Run W CP) (checkpoint_id archive_ref : string) (archive_seq : N)
    : res ClientError CheckpointV1 :=
  let search := rn_search s in
  let cs := ss_commit_state search in
  let p := rn_progress s in
  frontier_entries ← mapM_res (frontier_entry cs) (deterministic_entries (cs_frontier cs));
  Ok (mkCheckpointV1 CHECKPOINT_VERSION (rn_experiment_id s) (rn_config_hash s)
        (next_id (cs_tree cs) - 1) (effective_checkpoint_seq s) (ss_expansions search)
        (mkBudgetsUsed (N.of_nat (len (cs_tree cs))) ((now (rn_world s) - pg_started_at p) / nanos_per_sec)
           (ss_guest_instructions_used search) (ss_expansions search))
        (mkRngCheckpoint (cfg_seed (ss_config search))) frontier_entries
        archive_ref archive_seq checkpoint_id
        (el_feature_map_version (ss_ladder search)) (pg_feature_map_hash p) (pg_scoring_program_hash p)
        (default (repeat 0%N 32) (pg_fingerprint p))
        (sorted_counts (cs_cell_mirror cs)) (sorted_entries (cs_seen cs))
        (mkPlateauCheckpoint (pg_best_score p) (d_observations (pg_stall p))
           (d_observations_since_improvement (pg_stall p)) (d_completed_stall_windows (pg_stall p))
           (level_get (el_level (ss_ladder search)))
           (knobs_in_effect (from_plateau_config (plateau (ss_config search)))))
        (pg_goal_nodes p) (pg_status p)).

(** The scorer's archive, asked again once when its sequence is not the one
    the runner applied last. *)
Definition archive_in_lockstep (checkpoint_id : string) : st (Run W CP) ClientError (string * N) := fun s =>
  let request := checkpoint_archive (rn_experiment_id s) checkpoint_id in
  let applied := pg_scorer_archive_seq (rn_progress s) in
  (archive ← rpc request;
   if decide (archive.2 = applied) then mret archive
   else
     archive ← rpc request;
     if decide (archive.2 = applied) then mret archive
     else lift_res (Err (mkClientError FailedPrecondition
            (REASON_ARCHIVE_SEQ_MISMATCH +:+ ": archive " +:+ pretty (archive.2) +:+ " vs applied "
             +:+ pretty applied)))) s.

(** The write of the checkpoint, conditional on the generation owned. *)
Definition cas_put (bytes : list N) : st (Run W CP) ClientError MetadataGeneration := fun s =>
  let expected := match du_ckpt_generation (rn_durable s) with
                  | Some g => Generation g
                  | None => CreateOnly
                  end in
  match rpc (put_metadata (checkpoint_key (rn_experiment_id s)) bytes expected) s with
  | (Err error, s') =>
    match ce_kind error with
    | FailedPrecondition | AlreadyExists =>
      (Err (mkClientError FailedPrecondition (REASON_CAS_OWNERSHIP_LOST +:+ ": " +:+ ce_message error)), s')
    | _ => (Err error, s')
    end
  | other => other
  end.

(** One deletion of a log entry; an entry already gone is fine. *)
Definition delete_wal_entry (seq : N) : st (Run W CP) ClientError unit := fun s =>
  match rpc (delete_metadata (wal_key (rn_experiment_id s) seq) Unconditional) s with
  | (Err error, s') => if decide (ce_kind error = NotFound) then (Ok tt, s') else (Err error, s')
  | other => other
  end.

Fixpoint truncate_wal (seqs : list N) : st (Run W CP) ClientError unit :=
  match seqs with
  | [] => mret tt
  | seq :: rest => _ ← delete_wal_entry seq; truncate_wal rest
  end.

(** First half: the archive and the encoded checkpoint. *)
Definition prepare_checkpoint : st (Run W CP) ClientError (list N * N) :=
  expansions ← gets (fun s => ss_expansions (rn_search s));
  let checkpoint_id := "ckpt-" +:+ pretty expansions in
  _ ← crash_check BeforeCheckpointArchive;
  archive ← archive_in_lockstep checkpoint_id;
  _ ← crash_check AfterCheckpointArchive;
  c ← (fun s => (build_checkpoint s checkpoint_id archive.1 archive.2, s));
  bytes ← lift_res (as_client_error Internal (encode_checkpoint c));
  mret (bytes, archive.2).

(** Second half: the conditional write, then the truncation of the log. *)
Definition publish_checkpoint (bytes : list N) (archive_seq : N) : st (Run W CP) ClientError unit :=
  _ ← crash_check BeforeCasPut;
  generation ← cas_put bytes;
  _ ← modify (fun s => set_durable (set_generation generation (rn_durable s)) s);
  _ ← crash_check AfterCasPut;
  effective_seq ← gets effective_checkpoint_seq;
  _ ← crash_check BeforeWalDelete;
  floor ← gets (fun s => du_wal_floor (rn_durable s));
  _ ← truncate_wal (range floor effective_seq);
  _ ← modify (fun s => set_durable (set_wal_floor effective_seq (rn_durable s)) s);
  _ ← crash_check AfterWalDelete;
  modify (fun s =>
    let s := set_durable (set_checkpointed effective_seq (now (rn_world s)) (rn_durable s)) s in
    emit_event (mkCheckpointEvent (ss_expansions (rn_search s)) (ss_batch_seq (rn_search s))
      (ss_expansions (rn_search s)) archive_seq) s).

Definition checkpoint : st (Run W CP) ClientError unit :=
  '(bytes, archive_seq) ← prepare_checkpoint; publish_checkpoint bytes archive_seq.

Definition maybe_checkpoint : st (Run W CP) ClientError unit := fun s =>
  let cadence := Types.checkpoint (ss_config (rn_search s)) in
  let due_commits := (0 <? every_commits cadence)%N
    && (every_commits cadence <=? du_commits_since_checkpoint (rn_durable s))%N in
  let due_time := (0 <? every_seconds cadence)%N
    && (from_secs (every_seconds cadence) <=? now (rn_world s) - du_last_checkpoint_at (rn_durable s))%N in
  if due_commits || due_time then checkpoint s else (Ok tt, s).

(** ** Loading the log on resume *)

(** The unbounded loops take fuel; [Panic] stands for running out of it. *)
Definition out_of_fuel {A} : st (Run W CP) ClientError A := fun s => (Panic, s).

Definition retry_pause : st (Run W CP) ClientError unit :=
  modify (fun s => set_world (sleep (from_millis 2) (rn_world s)) s).

(** Downward from [seq - 1] until the first miss. *)
Fixpoint finish_truncation (fuel : nat) (seq : N) : st (Run W CP) ClientError unit := fun s =>
  match fuel with
  | O => out_of_fuel s
  | S fuel =>
    if (seq =? 0)%N then (Ok tt, s)
    else
      let seq' := (seq - 1)%N in
      match on_world (get_metadata (wal_key (rn_experiment_id s) seq')) s with
      | (Ok _, s') =>
        match delete_wal_entry seq' s' with
        | (Ok _, s'') => finish_truncation fuel seq' s''
        | (Err e, s'') => (Err e, s'')
        | (Panic, s'') => (Panic, s'')
        end
      | (Err error, s') =>
        if decide (ce_kind error = NotFound) then (Ok tt, s')
        else if is_retryable error then (_ ← retry_pause; finish_truncation fuel seq) s'
        else (Err error, s')
      | (Panic, s') => (Panic, s')
      end
  end.

(** Upward from [seq] until more than [allowed] consecutive misses. *)
Fixpoint collect_window (fuel : nat) (allowed : N) (seq misses : N) (intents : list ExpansionIntent)
    : st (Run W CP) ClientError (list ExpansionIntent) := fun s =>
  match fuel with
  | O => out_of_fuel s
  | S fuel =>
    if (misses <=? allowed)%N then
      match on_world (get_metadata (wal_key (rn_experiment_id s) seq)) s with
      | (Ok (value, _), s') =>
        (intent ← lift_res (as_client_error DataLoss (decode_intent value));
         seq' ← lift_res (expect (checked_add u64_max seq 1));
         collect_window fuel allowed seq' 0 (intents ++ [intent])) s'
      | (Err error, s') =>
        if decide (ce_kind error = NotFound) then
          (seq' ← lift_res (expect (checked_add u64_max seq 1));
           collect_window fuel allowed seq' (misses + 1) intents) s'
        else if is_retryable error then (_ ← retry_pause; collect_window fuel allowed seq misses intents) s'
        else (Err error, s')
      | (Panic, s') => (Panic, s')
      end
    else (Ok intents, s)
  end.

Definition seq_le (a b : ExpansionIntent) : Prop := (ei_seq a <= ei_seq b)%N.
Global Instance seq_le_dec a b : Decision (seq_le a b).
Proof. unfold seq_le. apply _. Defined.

Definition load_wal_entries (fuel : nat) (c : CheckpointV1) : st (Run W CP) ClientError (list ExpansionIntent) :=
  _ ← finish_truncation fuel (ck_batch_seq c);
  inflight ← gets (fun s => N.max (max_inflight_batches (scheduling (ss_config (rn_search s)))) 1);
  intents ← collect_window fuel (inflight + 1) (ck_batch_seq c) 0 [];
  mret (merge_sort seq_le intents).

(** Step 7 of [resume]: where batch numbering and truncation continue, and
    the intents to replay first. *)
Definition queue_replays (c : CheckpointV1) (intents : list ExpansionIntent) : N * N * list ExpansionIntent :=
  (fold_left (fun next i => N.max next (ei_seq i + 1)) intents (ck_batch_seq c),
   match intents with i :: _ => ei_seq i | [] => ck_batch_seq c end,
   intents).
End Durable.

(** ** Laws of the services *)

(** Time passing and the scorer's archive leave the metadata alone. *)
Class ServiceLaws (W : Type) `{ML : MetadataStoreLaws W, RT : Runtime W, SA : ScorerArchive W} := {
  sleep_laws : forall d w, store_ok w -> store_ok (sleep d w) /\ entries_of (sleep d w) = entries_of w;
  archive_laws : forall id ckpt w r w', store_ok w -> checkpoint_archive id ckpt w = (r, w') ->
    store_ok w' /\ entries_of w' = entries_of w /\ r <> Panic
}.

(** The log holds exactly the entries [lo..hi]. *)
Definition wal_window (id : string) (m : gmap string (list N * MetadataGeneration)) (lo hi : N) : Prop :=
  forall n, (n <= u64_max)%N -> is_Some (m !! wal_key id n) <-> (lo <= n < hi)%N.

(** [m'] is [m] without the log entries [a..b]. *)
Record wal_cleared (id : string) (a b : N) (m m' : gmap string (list N * MetadataGeneration)) : Prop := {
  wc_gone : forall n, (a <= n < b)%N -> m' !! wal_key id n = None;
  wc_kept : forall k, (forall n, (a <= n < b)%N -> k <> wal_key id n) -> m' !! k = m !! k
}.

Lemma wal_cleared_refl id a m : wal_cleared id a a m m.
Proof. split; [lia|done]. Qed.

Lemma wal_cleared_delete id a b n m m' : (n <= u64_max)%N -> (b <= u64_max + 1)%N ->
  wal_cleared id a b m m' -> (n = b \/ n + 1 = a)%N -> (a <= b)%N ->
  wal_cleared id (N.min n a) (N.max (n + 1) b) m (delete (wal_key id n) m').
Proof.
  intros Hn Hb [Hg Hk] Hadj Hab. split.
  - intros k Hkr. destruct (decide (k = n)) as [->|Hne]; [apply lookup_delete_eq|].
    rewrite lookup_delete_ne; [apply Hg; lia|]. intros [_ ?]%wal_key_inj; lia.
  - intros k Hkr. rewrite lookup_delete_ne; [|intros <-; apply (Hkr n); [lia|done]].
    apply Hk. intros n' Hn'. apply Hkr. lia.
Qed.

Lemma wal_cleared_lookup id a b m m' n : (n <= u64_max)%N -> (b <= u64_max + 1)%N -> wal_cleared id a b m m' ->
  ~ (a <= n < b)%N -> m' !! wal_key id n = m !! wal_key id n.
Proof. intros Hn Hb [_ Hk] Hnot. apply Hk. intros n' Hn' [_ ->]%wal_key_inj; lia. Qed.

Lemma wal_cleared_checkpoint id id' a b m m' : wal_cleared id a b m m' ->
  m' !! checkpoint_key id' = m !! checkpoint_key id'.
Proof. intros [_ Hk]. apply Hk. intros n _ H. symmetry in H. by apply wal_key_not_checkpoint in H. Qed.

(** ** What the service calls do to the runner *)

Section Laws.
Context {W CP : Type} `{MS : MetadataStore W, RT : Runtime W, SA : ScorerArchive W, CR : CrashPolicy CP}.
Context `{PC : Postcard CheckpointV1, PI : Postcard ExpansionIntent}.
Context {ML : MetadataStoreLaws W} {SL : ServiceLaws W}.
Implicit Types s : Run W CP.

Definition entries_at s : gmap string (list N * MetadataGeneration) := entries_of (rn_world s).
Definition world_ok s : Prop := store_ok (rn_world s).

(** Same runner apart from the world, the crash policy and the durable part. *)
Record same_run s s' : Prop := {
  sr_id : rn_experiment_id s' = rn_experiment_id s;
  sr_hash : rn_config_hash s' = rn_config_hash s;
  sr_retry : rn_retry s' = rn_retry s;
  sr_search : rn_search s' = rn_search s;
  sr_progress : rn_progress s' = rn_progress s
}.

Lemma same_run_refl s : same_run s s.
Proof. done. Qed.

Lemma same_run_trans s1 s2 s3 : same_run s1 s2 -> same_run s2 s3 -> same_run s1 s3.
Proof. intros [? ? ? ? ?] [? ? ? ? ?]. split; congruence. Qed.

(** A service call changes the world only, and ends with one run of the call
    from a world in order with the same entries. *)
Lemma rpc_run {A} (m : st W ClientError A) s r s' : world_ok s ->
  (forall u e u', store_ok u -> m u = (Err e, u') -> store_ok u' /\ entries_of u' = entries_of u) ->
  rpc m s = (r, s') ->
  s' = set_world (rn_world s') s /\
  exists u, store_ok u /\ entries_of u = entries_at s /\ m u = (r, rn_world s').
Proof.
  intros Hok Hfail. unfold rpc, on_world. destruct (retry_rpc _ _ _) as [x w'] eqn:Hr. intros [= <- <-].
  split; [done|]. cbn.
  destruct (retry_rpc_last (fun u => store_ok u /\ entries_of u = entries_at s) _ _ _ _ _
    (fun d u => ltac:(intros [Hu He]; destruct (sleep_laws d u Hu) as [? ->]; done))
    (fun u e u' => ltac:(intros [Hu He] Hm; destruct (Hfail _ _ _ Hu Hm) as [? ->]; done))
    (conj Hok eq_refl) Hr) as (u & [Hu He] & Hm). eauto.
Qed.

Lemma delete_wal_entry_run seq s r s' : world_ok s -> delete_wal_entry seq s = (r, s') ->
  s' = set_world (rn_world s') s /\ world_ok s' /\ r <> Panic /\
  (r = Ok tt -> entries_at s' = delete (wal_key (rn_experiment_id s) seq) (entries_at s)) /\
  (r <> Ok tt -> entries_at s' = entries_at s).
Proof.
  intros Hok. unfold delete_wal_entry. destruct (rpc _ s) as [x s1] eqn:Hx.
  apply rpc_run in Hx as (Heq & u & Hu & He & Hm); [|done|].
  2: { intros u e u' Hu Hm. destruct (delete_laws _ _ _ _ _ Hu Hm) as (? & _ & _ & Herr).
       split; [done|by apply (Herr e)]. }
  destruct (delete_laws _ _ _ _ _ Hu Hm) as (Hok1 & Hp & Hdone & Herr). unfold entries_at, world_ok in *.
  destruct x as [[]|e|]; [| |done].
  - intros [= <- <-]. split_and!; try done. intros _. by rewrite Hdone, He by done.
  - destruct (Herr e eq_refl) as [Hsame Hnf].
    case_decide as Hk; intros [= <- <-]; (split_and!; [done|done|done| |]); try done; intros _.
    + rewrite Hsame, He, delete_id; [done|]. rewrite <- He. by apply Hnf.
    + by rewrite Hsame.
Qed.

Lemma range_cons a b : (a < b)%N -> range a b = a :: range (a + 1) b.
Proof.
  intros Hab. unfold range. replace (N.to_nat (b - a)) with (S (N.to_nat (b - (a + 1)))) by lia.
  cbn [seq]. rewrite fmap_cons, <- fmap_S_seq, <- list_fmap_compose. f_equal; [lia|].
  apply list_fmap_ext. intros i x _. cbn. lia.
Qed.

Lemma range_nil a b : (b <= a)%N -> range a b = [].
Proof. intros Hab. unfold range. by replace (N.to_nat (b - a)) with 0%nat by lia. Qed.

(** Truncation clears a lower part of its range, all of it when it succeeds. *)
Lemma truncate_wal_run fuel : forall a b m0 s r s', N.to_nat (b - a) = fuel -> (b <= u64_max)%N ->
  world_ok s -> truncate_wal (range a b) s = (r, s') ->
  forall lo, (lo <= a <= b)%N -> wal_cleared (rn_experiment_id s) lo a m0 (entries_at s) ->
  s' = set_world (rn_world s') s /\ world_ok s' /\ r <> Panic /\
  exists k, (a <= k <= b)%N /\ wal_cleared (rn_experiment_id s) lo k m0 (entries_at s') /\ (r = Ok tt -> k = b).
Proof.
  induction fuel as [|fuel IH]; intros a b m0 s r s' Hf Hb Hok.
  { rewrite range_nil by lia. intros [= <- <-] lo Hlo Hcl. split_and!; [by destruct s|done|done|].
    exists a. split_and!; [lia|lia|done|lia]. }
  rewrite range_cons by lia. cbn [truncate_wal]. rewrite st_bind_run.
  destruct (delete_wal_entry a s) as [x s1] eqn:Hd. intros Hrest lo Hlo Hcl.
  destruct (delete_wal_entry_run _ _ _ _ Hok Hd) as (Heq & Hok1 & Hp & Hdone & Hfail).
  destruct x as [[]|e|]; [| |done].
  - assert (rn_experiment_id s1 = rn_experiment_id s) as Hid by (by rewrite Heq).
    destruct (IH (a + 1)%N b m0 s1 r s' ltac:(lia) Hb Hok1 Hrest lo ltac:(lia)) as (Heq' & Hok' & Hp' & k & Hk & Hcl' & Hall).
    { rewrite Hid, Hdone by done.
      pose proof (wal_cleared_delete _ lo a a _ _ ltac:(lia) ltac:(lia) Hcl ltac:(lia) ltac:(lia)) as Hc.
      by rewrite N.min_r, N.max_l in Hc by lia. }
    rewrite Hid in Hcl'. split_and!; [by rewrite Heq', Heq|done|done|].
    exists k. split_and!; [lia|lia|done|done].
  - injection Hrest as <- <-. split_and!; [done|done|done|]. exists a. rewrite Hfail by done.
    split_and!; [lia|lia|done|done].
Qed.

(** ** The checkpoint, phase by phase *)

(** An assertion the crash policy's state does not matter to. *)
Definition crash_stable (P : Run W CP -> Prop) : Prop := forall c s, P s -> P (set_crash c s).

Lemma crash_check_hoare {B} (P : Run W CP -> Prop) (Q : res ClientError B -> Run W CP -> Prop) point :
  crash_stable P -> (forall e s, P s -> Q (Err e) s) ->
  hoare P (crash_check point) (ok_then (fun _ => P) Q).
Proof.
  intros Hst Herr s r s' HP. unfold crash_check. destruct (rn_crash s) as [cp|]; [|by intros [= <- <-]].
  destruct (should_crash point cp) as [[] cp']; intros [= <- <-]; cbn; auto.
Qed.

(** Nothing durable has happened since [s0]. *)
Record quiet (s0 s : Run W CP) : Prop := {
  q_same : same_run s0 s;
  q_durable : rn_durable s = rn_durable s0;
  q_ok : world_ok s;
  q_entries : entries_at s = entries_at s0
}.

(** [bytes] is the encoding of a checkpoint of [s0]. *)
Record checkpoint_of (s0 : Run W CP) (c : CheckpointV1) (bytes : list N) : Prop := {
  co_bytes : encode_checkpoint c = Ok bytes;
  co_seq : ck_batch_seq c = effective_checkpoint_seq s0;
  co_id : ck_experiment_id c = rn_experiment_id s0;
  co_hash : ck_config_hash c = rn_config_hash s0
}.

Definition expected_of (s0 : Run W CP) : MetadataExpectation :=
  match du_ckpt_generation (rn_durable s0) with Some g => Generation g | None => CreateOnly end.

(** A checkpoint of [s0] is stored and the log is cleared below [lo]. *)
Record stored (s0 : Run W CP) (lo : N) (s : Run W CP) : Prop := {
  sd_same : same_run s0 s;
  sd_floor : du_wal_floor (rn_durable s) = du_wal_floor (rn_durable s0) \/ du_wal_floor (rn_durable s) = lo;
  sd_queue : du_replay_queue (rn_durable s) = du_replay_queue (rn_durable s0);
  sd_ok : world_ok s;
  sd_owned : expectation_met (expected_of s0) (entries_at s0 !! checkpoint_key (rn_experiment_id s0));
  sd_lo : (du_wal_floor (rn_durable s0) <= lo)%N;
  sd_entries : exists c bytes g, checkpoint_of s0 c bytes /\ du_ckpt_generation (rn_durable s) = Some g /\
    wal_cleared (rn_experiment_id s0) (du_wal_floor (rn_durable s0)) lo
      (<[checkpoint_key (rn_experiment_id s0) := (bytes, g)]> (entries_at s0)) (entries_at s)
}.

(** Every outcome of a checkpoint: nothing durable, or the checkpoint stored
    and a lower part of the log gone. *)
Definition checkpoint_outcome (s0 : Run W CP) (r : res ClientError unit) (s : Run W CP) : Prop :=
  r <> Panic /\
  (quiet s0 s /\ r <> Ok tt \/
   exists lo, stored s0 lo s /\ (lo <= effective_checkpoint_seq s0)%N /\
     (r = Ok tt -> lo = effective_checkpoint_seq s0 /\
        du_wal_floor (rn_durable s) = lo /\ du_checkpointed_batch_seq (rn_durable s) = lo)).

Lemma quiet_refl s : world_ok s -> quiet s s.
Proof. done. Qed.

Lemma quiet_stable s0 : crash_stable (quiet s0).
Proof. intros c s [[? ? ? ? ?] ? ? ?]. done. Qed.

Lemma quiet_fails s0 e s : quiet s0 s -> checkpoint_outcome s0 (Err e) s.
Proof. intros Hq. split; [done|]. by left. Qed.

Lemma stored_stable s0 lo : crash_stable (stored s0 lo).
Proof. intros c s [[? ? ? ? ?] ? ? ? ? ? ?]. done. Qed.

Lemma stored_fails s0 lo e s : stored s0 lo s -> (lo <= effective_checkpoint_seq s0)%N ->
  checkpoint_outcome s0 (Err e) s.
Proof. intros Hs Hlo. split; [done|]. right. exists lo. done. Qed.

Lemma effective_same s0 s : rn_search s = rn_search s0 ->
  du_replay_queue (rn_durable s) = du_replay_queue (rn_durable s0) ->
  effective_checkpoint_seq s = effective_checkpoint_seq s0.
Proof. intros H1 H2. unfold effective_checkpoint_seq. by rewrite H1, H2. Qed.

Lemma archive_hoare s0 ckpt :
  hoare (quiet s0) (archive_in_lockstep ckpt) (fun r s => quiet s0 s /\ r <> Panic).
Proof.
  assert (forall id, hoare (quiet s0) (rpc (checkpoint_archive id ckpt)) (fun r s => quiet s0 s /\ r <> Panic)) as Hone.
  { intros id s r s' [[? ? ? ? ?] Hd Hok He] Hr.
    apply rpc_run in Hr as (Heq & u & Hu & Heu & Hm); [|done|].
    2: { intros u e u' Hu Hm. by destruct (archive_laws _ _ _ _ _ Hu Hm) as (? & ? & _). }
    destruct (archive_laws _ _ _ _ _ Hu Hm) as (Hok' & He' & Hp). rewrite Heq. split; [|done].
    split; [done|done|done|]. unfold entries_at in *. cbn. congruence. }
  intros s r s' Hq. unfold archive_in_lockstep. rewrite st_bind_run.
  destruct (rpc _ s) as [x s1] eqn:Hx. destruct (Hone _ _ _ _ Hq Hx) as [Hq1 Hp1].
  destruct x as [a|e|]; [|by intros [= <- <-]|done].
  case_decide; [by intros [= <- <-]|]. rewrite st_bind_run.
  destruct (rpc _ s1) as [y s2] eqn:Hy. destruct (Hone _ _ _ _ Hq1 Hy) as [Hq2 Hp2].
  destruct y as [b|e|]; [|by intros [= <- <-]|done].
  case_decide; by intros [= <- <-].
Qed.

Lemma build_checkpoint_Ok s0 s ckpt ref aseq c bytes : quiet s0 s ->
  build_checkpoint s ckpt ref aseq = Ok c -> encode_checkpoint c = Ok bytes -> checkpoint_of s0 c bytes.
Proof.
  intros Hq Hb Hbytes. apply bind_Ok in Hb as (fes & _ & Hb). injection Hb as <-. split; cbn.
  - done.
  - apply effective_same; [apply (sr_search _ _ (q_same _ _ Hq))|by rewrite (q_durable _ _ Hq)].
  - apply (sr_id _ _ (q_same _ _ Hq)).
  - apply (sr_hash _ _ (q_same _ _ Hq)).
Qed.

Lemma build_checkpoint_no_panic s ckpt ref aseq : build_checkpoint s ckpt ref aseq <> Panic.
Proof.
  apply bind_no_panic; [|done]. apply mapM_res_no_panic. intros id _. unfold frontier_entry.
  by destruct (get _ id).
Qed.

Lemma encode_no_panic c : as_client_error Internal (encode_checkpoint c) <> Panic.
Proof.
  unfold as_client_error, encode_checkpoint. destruct (negb _); [done|].
  pose proof (validate_sorted_no_panic c). pose proof (to_allocvec_no_panic c).
  destruct (validate_sorted c); cbn; [|done|done]. by destruct (to_allocvec c).
Qed.

(** What the first half leaves behind. *)
Definition prepared (s0 : Run W CP) (r : res ClientError (list N * N)) (s : Run W CP) : Prop :=
  quiet s0 s /\ match r with Ok p => exists c, checkpoint_of s0 c p.1 | Err _ => True | Panic => False end.

Lemma prepare_hoare s0 : hoare (quiet s0) prepare_checkpoint (prepared s0).
Proof.
  assert (forall point, hoare (quiet s0) (crash_check point) (ok_then (fun _ => quiet s0) (prepared s0))) as Hcq
    by (intros point; apply crash_check_hoare; [apply quiet_stable|done]).
  unfold prepare_checkpoint. apply hoare_gets. intros expansions.
  eapply hoare_bind; [intros s r s' [Hq _]; by apply (Hcq BeforeCheckpointArchive)|intros []].
  eapply hoare_bind with (R := fun _ => quiet s0).
  { intros s r s' Hq Hr. destruct (archive_hoare _ _ _ _ _ Hq Hr) as [Hq' Hnp]. by destruct r. }
  intros archive. eapply hoare_bind; [apply (Hcq AfterCheckpointArchive)|intros []].
  intros s r s' Hq. rewrite st_bind_run. cbv beta.
  destruct (build_checkpoint s _ _ _) as [c|e|] eqn:Hb; [|by intros [= <- <-]|by apply build_checkpoint_no_panic in Hb].
  pose proof (encode_no_panic c) as Hnp. destruct (encode_checkpoint c) as [bytes|e|] eqn:Hbytes; [|by intros [= <- <-]|done].
  intros [= <- <-]. split; [done|]. exists c. exact (build_checkpoint_Ok _ _ _ _ _ _ _ Hq Hb Hbytes).
Qed.

(** The conditional write: stored under the owned generation, or no effect. *)
Lemma cas_put_hoare s0 c bytes : checkpoint_of s0 c bytes ->
  hoare (quiet s0) (cas_put bytes) (ok_then
    (fun g s => stored s0 (du_wal_floor (rn_durable s0))
       (set_durable (set_generation g (rn_durable s)) s))
    (checkpoint_outcome s0)).
Proof.
  intros Hco s r s' Hq. pose proof Hq as [[Hid Hhash Hrt Hse Hpg] Hd Hok He]. unfold cas_put.
  rewrite Hd, Hid. change (match du_ckpt_generation (rn_durable s0) with Some g => Generation g | None => CreateOnly end)
    with (expected_of s0).
  destruct (rpc _ s) as [x s1] eqn:Hx.
  apply rpc_run in Hx as (Heq & u & Hu & Heu & Hm); [|done|].
  2: { intros u e u' Hu Hm. destruct (put_laws _ _ _ _ _ _ Hu Hm) as (? & _ & _ & Herr). split; [done|by apply (Herr e)]. }
  destruct (put_laws _ _ _ _ _ _ Hu Hm) as (Hok1 & Hp & Hdone & Herr).
  rewrite Heu, He in Hdone, Herr.
  destruct x as [g|e|]; [| |done].
  - intros [= <- <-]. destruct (Hdone g eq_refl) as (Hmet & Hent & _). cbn.
    rewrite Heq. split; cbn; try done; [by rewrite Hd; left|by rewrite Hd|].
    exists c, bytes, g. split_and!; [done|done|]. unfold entries_at at 2. cbn. rewrite Hent. apply wal_cleared_refl.
  - assert (quiet s0 s1) as Hq1.
    { rewrite Heq. split; [done|done|done|]. unfold entries_at. cbn. by apply (Herr e). }
    intros Hend. assert (exists e', r = Err e' /\ s' = s1) as (e' & -> & ->)
      by (destruct (ce_kind e); injection Hend as <- <-; eauto).
    by apply quiet_fails.
Qed.

(** The truncation stage. *)
Lemma truncate_hoare s0 floor eff : (floor <= eff <= u64_max)%N -> floor = du_wal_floor (rn_durable s0) ->
  eff = effective_checkpoint_seq s0 ->
  hoare (stored s0 floor) (truncate_wal (range floor eff)) (ok_then (fun _ => stored s0 eff) (checkpoint_outcome s0)).
Proof.
  intros Hfe Hfl Heff s r s' [[Hid Hh Hr Hse Hp] Hflo Hq Hok Hown Hlo (c & bytes & g & Hco & Hg & Hcl)] Hrun.
  rewrite <- Hid, <- Hfl in Hcl.
  destruct (truncate_wal_run _ floor eff _ s r s' eq_refl ltac:(lia) Hok Hrun floor ltac:(lia) Hcl)
    as (Heq & Hok' & Hnp & k & Hk & Hcl' & Hall).
  assert (stored s0 k s') as Hs'.
  { rewrite Heq. split; [done|left; cbn; destruct Hflo; congruence|done|done|done|lia|].
    exists c, bytes, g. split_and!; [done|done|]. rewrite <- Hid, <- Hfl.
    unfold entries_at at 2. cbn. exact Hcl'. }
  destruct r as [[]|e|]; [|apply (stored_fails s0 k); [done|lia]|done]. cbn. by rewrite <- (Hall eq_refl).
Qed.

Lemma stored_floor s0 lo n s : stored s0 lo s -> n = lo -> stored s0 lo (set_durable (set_wal_floor n (rn_durable s)) s).
Proof. intros [[? ? ? ? ?] ? ? ? ? ? ?] ->. split; try done. by right. Qed.

Lemma publish_hoare s0 c bytes aseq : checkpoint_of s0 c bytes ->
  (du_wal_floor (rn_durable s0) <= effective_checkpoint_seq s0 <= u64_max)%N ->
  hoare (quiet s0) (publish_checkpoint bytes aseq) (checkpoint_outcome s0).
Proof.
  intros Hco Hfe. set (eff := effective_checkpoint_seq s0) in *. set (floor := du_wal_floor (rn_durable s0)) in *.
  assert (forall point, hoare (stored s0 floor) (crash_check point) (ok_then (fun _ => stored s0 floor) (checkpoint_outcome s0)))
    as Hcs by (intros point; apply crash_check_hoare; [apply stored_stable|intros; apply (stored_fails s0 floor); [done|apply Hfe]]).
  unfold publish_checkpoint.
  eapply hoare_bind; [apply (crash_check_hoare (quiet s0)); [apply quiet_stable|intros; by apply quiet_fails]|intros []].
  eapply hoare_bind; [by apply (cas_put_hoare _ c)|intros g].
  apply hoare_modify. eapply hoare_bind; [intros s r s' (s1 & Hs1 & ->); by apply (Hcs AfterCasPut)|intros []].
  apply hoare_gets. intros eff'.
  eapply hoare_bind with (R := fun _ s => stored s0 floor s /\ eff' = eff).
  { intros s r s' [Hs ->] Hr. pose proof (Hcs BeforeWalDelete _ _ _ Hs Hr) as Hpost.
    destruct r as [[]|e|]; [split; [done|]|done|done].
    destruct Hs as [[? ? ? ? ?] ? ? ? ? ? ?]. by apply effective_same. }
  intros []. apply hoare_gets. intros fl.
  eapply hoare_bind with (R := fun _ s => stored s0 eff s /\ eff' = eff).
  { intros s r s' [[Hs ->] ->] Hr.
    assert (du_wal_floor (rn_durable s) = floor) as Hfl by (by destruct Hs as [_ [? | ?] _ _ _ _ _]).
    rewrite Hfl in Hr. pose proof (truncate_hoare s0 floor eff Hfe eq_refl eq_refl _ _ _ Hs Hr) as Hpost.
    by destruct r as [[]|e|]. }
  intros []. apply hoare_modify.
  eapply hoare_bind with (R := fun _ s => stored s0 eff s /\ du_wal_floor (rn_durable s) = eff /\ eff' = eff).
  { intros s r s' (s1 & [Hs1 ->] & ->) Hr.
    eapply (crash_check_hoare (fun s => stored s0 eff s /\ du_wal_floor (rn_durable s) = eff /\ eff = eff)); [| | |exact Hr].
    - intros cp s (Hs & Hf & _). split; [by apply stored_stable|done].
    - intros e s (Hs & _ & _). by apply (stored_fails s0 eff).
    - split; [by apply stored_floor|done]. }
  intros [] s r s' ([[? ? ? ? ?] ? ? ? ? ? ?] & Hf & ->) [= <- <-]. split; [done|]. right. exists eff.
  split; [split; try done; by right|done].
Qed.

Lemma checkpoint_run s r s' : world_ok s ->
  (du_wal_floor (rn_durable s) <= effective_checkpoint_seq s <= u64_max)%N ->
  checkpoint s = (r, s') -> checkpoint_outcome s r s'.
Proof.
  intros Hok Hfe. unfold checkpoint. rewrite st_bind_run.
  destruct (prepare_checkpoint s) as [x s1] eqn:Hp.
  apply (prepare_hoare s s _ _ (quiet_refl s Hok)) in Hp as [Hq Hx].
  destruct x as [[bytes aseq]|e|]; [|by intros [= <- <-]; apply quiet_fails|done].
  destruct Hx as [c Hco]. by apply (publish_hoare s c).
Qed.

(** ** Loading *)

Lemma get_run k s r s' : world_ok s -> on_world (get_metadata k) s = (r, s') ->
  s' = set_world (rn_world s') s /\ world_ok s' /\ entries_at s' = entries_at s /\ r <> Panic /\
  (forall v, r = Ok v -> entries_at s !! k = Some v) /\
  (forall e, r = Err e -> ce_kind e = NotFound -> entries_at s !! k = None).
Proof.
  intros Hok. unfold on_world. destruct (get_metadata k (rn_world s)) as [x w'] eqn:Hg. intros [= <- <-].
  destruct (get_laws _ _ _ _ Hok Hg) as (Hok' & He & Hp & Hv & Hnf). done.
Qed.

(** The repair removes what lies between the first entry and [b], from the
    top; when it succeeds all of it is gone. *)
Lemma finish_truncation_run id lo hi b m0 fuel : (b <= u64_max)%N -> (lo <= b <= hi)%N -> wal_window id m0 lo hi ->
  forall seq s r s', rn_experiment_id s = id -> world_ok s -> (lo <= seq <= b)%N ->
  wal_cleared id seq b m0 (entries_at s) -> finish_truncation fuel seq s = (r, s') ->
  s' = set_world (rn_world s') s /\ world_ok s' /\
  exists k, (lo <= k <= seq)%N /\ wal_cleared id k b m0 (entries_at s') /\ (r = Ok tt -> k = lo).
Proof.
  intros Hb Hlob Hwin. induction fuel as [|fuel IH]; intros seq s r s' Hid Hok Hseq Hcl; cbn [finish_truncation].
  { intros [= <- <-]. split_and!; [by destruct s|done|]. exists seq. split_and!; [lia|lia|done|done]. }
  destruct (N.eqb_spec seq 0) as [->|Hpos].
  { intros [= <- <-]. split_and!; [by destruct s|done|]. exists 0%N. split_and!; [lia|lia|done|lia]. }
  rewrite Hid. destruct (on_world _ s) as [x s1] eqn:Hg.
  destruct (get_run _ _ _ _ Hok Hg) as (Heq & Hok1 & He & Hp & Hv & Hnf).
  pose proof (wal_cleared_lookup id seq b m0 (entries_at s) (seq - 1)%N ltac:(lia) ltac:(lia) Hcl ltac:(lia)) as Hsame.
  pose proof (Hwin (seq - 1)%N ltac:(lia)) as Hwn. rewrite <- Hsame in Hwn.
  assert (rn_experiment_id s1 = id) as Hid1 by (by rewrite Heq).
  destruct x as [v|e|]; [| |done].
  - assert (lo <= seq - 1)%N as Hge by (apply Hwn; rewrite (Hv v eq_refl); done).
    destruct (delete_wal_entry (seq - 1) s1) as [y s2] eqn:Hd.
    destruct (delete_wal_entry_run _ _ _ _ Hok1 Hd) as (Heq2 & Hok2 & Hp2 & Hdone & Hfail).
    assert (rn_experiment_id s2 = id) as Hid2 by (by rewrite Heq2).
    destruct y as [[]|e|]; [| |done].
    + intros Hrest. destruct (IH (seq - 1)%N s2 r s' Hid2 Hok2 ltac:(lia)) as (Heq' & Hok' & k & Hk & Hcl' & Hall); [|done|].
      { rewrite Hdone, He, Hid1 by done.
        pose proof (wal_cleared_delete id seq b (seq - 1)%N m0 (entries_at s) ltac:(lia) ltac:(lia) Hcl ltac:(lia) ltac:(lia)) as Hc.
        by rewrite N.min_l, N.max_r in Hc by lia. }
      split_and!; [by rewrite Heq', Heq2, Heq|done|]. exists k. split_and!; [lia|lia|done|done].
    + intros [= <- <-]. rewrite Hfail, He by done. split_and!; [by rewrite Heq2, Heq|done|]. exists seq. split_and!; [lia|lia|done|done].
  - case_decide as Hk.
    + intros [= <- <-]. rewrite He. split_and!; [done|done|]. exists seq. split_and!; [lia|lia|done|]. intros _.
      assert (~ (lo <= seq - 1 < hi)%N) as Hout by (rewrite <- Hwn, (Hnf e eq_refl Hk); by intros []). lia.
    + destruct (is_retryable e).
      * unfold retry_pause. run_st. destruct (sleep_laws (from_millis 2) (rn_world s1) Hok1) as [Hsl Hse].
        intros Hrest. destruct (IH seq (set_world (sleep (from_millis 2) (rn_world s1)) s1) r s' Hid1 Hsl ltac:(lia))
          as (Heq' & Hok' & k & Hkk & Hcl' & Hall); [|done|].
        { unfold entries_at in *. cbn. by rewrite Hse, He. }
        split_and!; [by rewrite Heq', Heq|done|]. exists k. done.
      * intros [= <- <-]. rewrite He. split_and!; [done|done|]. exists seq. split_and!; [lia|lia|done|done].
Qed.

(** The log holds intent [i] under its number. *)
Definition logged_at (id : string) (m : gmap string (list N * MetadataGeneration)) (n : N) (i : ExpansionIntent) : Prop :=
  exists bytes g, m !! wal_key id n = Some (bytes, g) /\ decode_intent bytes = Ok i /\ ei_seq i = n.

Lemma collect_window_run id hi allowed fuel : forall seq misses acc rest s l s', rn_experiment_id s = id ->
  world_ok s -> (seq <= u64_max)%N ->
  (forall n, (seq <= n <= u64_max)%N -> is_Some (entries_at s !! wal_key id n) <-> (n < hi)%N) ->
  Forall2 (logged_at id (entries_at s)) (range seq hi) rest -> (seq < hi -> misses <= allowed)%N ->
  collect_window fuel allowed seq misses acc s = (Ok l, s') ->
  s' = set_world (rn_world s') s /\ world_ok s' /\ entries_at s' = entries_at s /\ l = acc ++ rest.
Proof.
  induction fuel as [|fuel IH]; intros seq misses acc rest s l s' Hid Hok Hseq Hwin Hlog Hmiss; [done|].
  cbn [collect_window]. destruct (N.leb_spec misses allowed) as [Hle|Hgt].
  2: { intros [= <- <-]. split_and!; [by destruct s|done|done|].
       rewrite range_nil in Hlog by (apply N.nlt_ge; intros ?%Hmiss; lia). inversion Hlog. by rewrite app_nil_r. }
  rewrite Hid. destruct (on_world _ s) as [x s1] eqn:Hg.
  destruct (get_run _ _ _ _ Hok Hg) as (Heq & Hok1 & He & Hp & Hv & Hnf).
  assert (rn_experiment_id s1 = id) as Hid1 by (by rewrite Heq).
  pose proof (Hwin seq ltac:(lia)) as Hws.
  destruct x as [[bytes g]|e|]; [| |done].
  - assert (seq < hi)%N as Hlt by (apply Hws; rewrite (Hv _ eq_refl); done).
    rewrite range_cons in Hlog by done. inversion Hlog as [|n i ns il (bytes' & g' & Hl & Hdec & Hsi) Hlog']; subst n ns rest.
    rewrite (Hv _ eq_refl) in Hl. injection Hl as <- <-. rewrite Hdec. cbn [as_client_error map_err].
    run_st. destruct (checked_add u64_max seq 1) as [seq'|] eqn:Hadd; [|done].
    apply checked_add_Some in Hadd as [Hmax ->]. cbn [expect]. run_st. intros Hrest.
    destruct (IH (seq + 1)%N 0%N (acc ++ [i]) il s1 l s' Hid1 Hok1 Hmax) as (Heq' & Hok' & He' & ->); try done.
    { intros n Hn. rewrite He. apply Hwin. lia. }
    { by rewrite He. }
    { lia. }
    split_and!; [by rewrite Heq', Heq|done|by rewrite He'|]. by rewrite <- app_assoc.
  - case_decide as Hk.
    + assert (hi <= seq)%N as Hge by (apply N.nlt_ge; intros Hc%Hws; rewrite (Hnf e eq_refl Hk) in Hc; by destruct Hc).
      destruct (checked_add u64_max seq 1) as [seq'|] eqn:Hadd; [|done].
      apply checked_add_Some in Hadd as [Hmax ->]. cbn [expect]. run_st. intros Hrest.
      destruct (IH (seq + 1)%N (misses + 1)%N acc rest s1 l s' Hid1 Hok1 Hmax) as (Heq' & Hok' & He' & ->); try done.
      { intros n Hn. rewrite He. apply Hwin. lia. }
      { rewrite He, range_nil by lia. by rewrite range_nil in Hlog by lia. }
      { lia. }
      split_and!; [by rewrite Heq', Heq|done|by rewrite He'|done].
    + destruct (is_retryable e); [|done]. unfold retry_pause. run_st.
      destruct (sleep_laws (from_millis 2) (rn_world s1) Hok1) as [Hsl Hse].
      assert (entries_at (set_world (sleep (from_millis 2) (rn_world s1)) s1) = entries_at s) as Hes
        by (unfold entries_at in *; cbn; by rewrite Hse, He).
      intros Hrest. destruct (IH seq misses acc rest (set_world (sleep (from_millis 2) (rn_world s1)) s1) l s' Hid1 Hsl Hseq) as (Heq' & Hok' & He' & ->); try done.
      { by rewrite Hes. }
      { by rewrite Hes. }
      split_and!; [by rewrite Heq', Heq|done|by rewrite He', Hes|done].
Qed.

Lemma logged_sorted id m lo hi l : Forall2 (logged_at id m) (range lo hi) l -> ei_seq <$> l = range lo hi.
Proof.
  intros Hl. symmetry. induction Hl as [|n i ns il (_ & _ & _ & _ & Hs) _ IH]; [done|]. cbn. by rewrite Hs, IH.
Qed.

Lemma elem_of_range n a b : n ∈ range a b <-> (a <= n < b)%N.
Proof.
  unfold range. rewrite list_elem_of_fmap. setoid_rewrite elem_of_seq. split.
  - intros (i & -> & Hi). lia.
  - intros Hn. exists (N.to_nat (n - a)). lia.
Qed.

Lemma range_sorted a b : StronglySorted N.lt (range a b).
Proof.
  unfold range. generalize (N.to_nat (b - a)). intros n. generalize 0%nat as k.
  induction n as [|n IH]; intros k; [constructor|]. cbn [seq]. rewrite fmap_cons. constructor; [apply IH|].
  apply Forall_fmap, Forall_forall. intros i Hi%elem_of_seq. cbn. lia.
Qed.

Lemma sort_logged id m lo hi l : Forall2 (logged_at id m) (range lo hi) l -> merge_sort seq_le l = l.
Proof.
  intros Hl%logged_sorted.
  assert (StronglySorted (fun a b => ei_seq a < ei_seq b)%N l) as Hs.
  { assert (StronglySorted N.lt (ei_seq <$> l)) as H by (rewrite Hl; apply range_sorted).
    clear Hl. induction l as [|i l IH]; [constructor|]. inversion H as [|? ? H1 H2]. subst. constructor; [by apply IH|].
    exact (proj1 (Forall_fmap ei_seq _ l) H2). }
  apply StronglySorted_unique_strong with (R := seq_le).
  - assert (NoDup (ei_seq <$> l)) as Hnd.
    { clear Hl. induction Hs as [|i l _ IH Hi]; [constructor|]. cbn. constructor; [|done].
      intros (j & Hj & Hin)%list_elem_of_fmap. pose proof (proj1 (Forall_forall _ _) Hi j Hin). cbn in *. lia. }
    intros i j Hi Hj H1 H2. rewrite merge_sort_Permutation in Hi. unfold seq_le in *.
    apply list_elem_of_lookup in Hi as [a Ha], Hj as [b Hb].
    assert (a = b) as <-; [|congruence]. eapply (NoDup_lookup _ _ _ (ei_seq i) Hnd); rewrite list_lookup_fmap.
    + by rewrite Ha.
    + rewrite Hb. cbn. f_equal. lia.
  - apply (@StronglySorted_merge_sort _ seq_le _); [intros x y z H1 H2|intros x y]; unfold seq_le in *; lia.
  - eapply StronglySorted_mono; [|exact Hs]. intros x y Hxy. unfold seq_le. cbv beta in Hxy. lia.
  - apply merge_sort_Permutation.
Qed.

Lemma queue_replays_spec c id m hi l : (ck_batch_seq c <= hi)%N -> Forall2 (logged_at id m) (range (ck_batch_seq c) hi) l ->
  queue_replays c l = (hi, ck_batch_seq c, l).
Proof.
  intros Hle Hl. unfold queue_replays. apply logged_sorted in Hl. f_equal. f_equal.
  - assert (forall b k, (b <= hi)%N -> ei_seq <$> k = range b hi ->
      fold_left (fun next i => N.max next (ei_seq i + 1)) k b = hi) as Hf; [|by apply Hf].
    clear. intros b k. revert b. induction k as [|i k IH]; intros b Hb; cbn.
    + destruct (N.eq_dec b hi) as [->|]; [done|]. by rewrite range_cons by lia.
    + destruct (N.eq_dec b hi) as [->|]; [by rewrite range_nil by lia|]. rewrite range_cons by lia. intros [= -> Hk].
      rewrite N.max_r by lia. apply IH; [lia|done].
  - destruct l as [|i l]; [done|]. cbn in Hl. destruct (N.eq_dec (ck_batch_seq c) hi) as [E|E].
    + by rewrite E, range_nil in Hl by lia.
    + rewrite range_cons in Hl by lia. by injection Hl as ->.
Qed.

Lemma load_wal_entries_run fuel c s s' lo hi logged l : world_ok s -> (hi <= u64_max)%N ->
  (lo <= ck_batch_seq c <= hi)%N ->
  wal_window (rn_experiment_id s) (entries_at s) lo hi ->
  Forall2 (logged_at (rn_experiment_id s) (entries_at s)) (range (ck_batch_seq c) hi) logged ->
  load_wal_entries fuel c s = (Ok l, s') ->
  l = logged /\ s' = set_world (rn_world s') s /\ world_ok s' /\
  wal_cleared (rn_experiment_id s) lo (ck_batch_seq c) (entries_at s) (entries_at s').
Proof.
  intros Hok Hhi Hlob Hwin Hlog. assert (ck_batch_seq c <= u64_max)%N as Hb by lia.
  unfold load_wal_entries. rewrite st_bind_run.
  destruct (finish_truncation fuel (ck_batch_seq c) s) as [x s1] eqn:Hft.
  destruct (finish_truncation_run (rn_experiment_id s) lo hi (ck_batch_seq c) (entries_at s) fuel Hb Hlob Hwin
    (ck_batch_seq c) s _ _ eq_refl Hok (conj (proj1 Hlob) (N.le_refl _))
    (wal_cleared_refl _ _ _) Hft) as (Heq & Hok1 & k & Hk & Hcl & Hdone).
  destruct x as [[]|e|]; [|done|done]. rewrite (Hdone eq_refl) in Hcl. rewrite gets_bind, st_bind_run.
  destruct (collect_window _ _ _ _ _ s1) as [y s2] eqn:Hcw. destruct y as [l'|e|]; [|done|done].
  intros [= <- <-].
  assert (forall n, (ck_batch_seq c <= n <= u64_max)%N ->
    entries_at s1 !! wal_key (rn_experiment_id s) n = entries_at s !! wal_key (rn_experiment_id s) n) as Hsame
    by (intros n Hn; eapply wal_cleared_lookup; [| |exact Hcl|]; lia).
  assert (rn_experiment_id s1 = rn_experiment_id s) as Hid1 by (by rewrite Heq).
  apply (collect_window_run (rn_experiment_id s) hi _ _ _ _ _ logged _ _ _ Hid1 Hok1 Hb) in Hcw as (Heq2 & Hok2 & He2 & ->).
  - split_and!; [by apply (sort_logged (rn_experiment_id s) (entries_at s) (ck_batch_seq c) hi)|by rewrite Heq2, Heq|done|by rewrite He2].
  - intros n Hn. rewrite Hsame by lia. rewrite (Hwin n ltac:(lia)). lia.
  - eapply Forall2_impl_in; [exact Hlog|]. intros n i Hn (bytes & g & Hl & Hd & Hi). exists bytes, g.
    apply elem_of_range in Hn. rewrite Hsame by lia. done.
  - lia.
Qed.

(** ** From outcomes to the log *)

Lemma window_cleared id m m' lo k hi : (k <= hi <= u64_max)%N -> (lo <= k)%N -> wal_window id m lo hi ->
  wal_cleared id lo k m m' -> wal_window id m' k hi.
Proof.
  intros Hk Hlo Hwin Hcl n Hn. destruct (decide (lo <= n < k)%N) as [Hin|Hout].
  - rewrite (wc_gone _ _ _ _ _ Hcl n Hin). split; [by intros []|lia].
  - rewrite (wal_cleared_lookup id lo k m m' n) by (done || lia). rewrite (Hwin n Hn). lia.
Qed.

Lemma window_insert id id' m v lo hi : wal_window id m lo hi -> wal_window id (<[checkpoint_key id' := v]> m) lo hi.
Proof.
  intros Hwin n Hn. rewrite lookup_insert_ne by (intros Heq; symmetry in Heq; by apply wal_key_not_checkpoint in Heq).
  by apply Hwin.
Qed.

Lemma checkpoint_decodes s c bytes : checkpoint_of s c bytes ->
  decode_checkpoint bytes (rn_experiment_id s) (rn_config_hash s) = Ok c.
Proof.
  intros [(Hv & Hs & Hb)%encode_checkpoint_Ok _ Hid Hh]. apply decode_checkpoint_Ok.
  split_and!; [by apply postcard_roundtrip|done..].
Qed.

(** What the store holds after a checkpoint that may have failed anywhere. *)
Record after_checkpoint (s s' : Run W CP) (hi lo : N) (r : res ClientError unit) : Prop := {
  ac_lo : (du_wal_floor (rn_durable s) <= lo <= effective_checkpoint_seq s)%N;
  ac_window : wal_window (rn_experiment_id s) (entries_at s') lo hi;
  ac_kept : forall n, (lo <= n < hi)%N ->
    entries_at s' !! wal_key (rn_experiment_id s) n = entries_at s !! wal_key (rn_experiment_id s) n;
  ac_checkpoint :
    entries_at s' !! checkpoint_key (rn_experiment_id s) = entries_at s !! checkpoint_key (rn_experiment_id s) /\
      lo = du_wal_floor (rn_durable s) /\ r <> Ok tt \/
    exists c bytes g, entries_at s' !! checkpoint_key (rn_experiment_id s) = Some (bytes, g) /\
      decode_checkpoint bytes (rn_experiment_id s) (rn_config_hash s) = Ok c /\
      ck_batch_seq c = effective_checkpoint_seq s;
  ac_done : r = Ok tt -> lo = effective_checkpoint_seq s /\ du_wal_floor (rn_durable s') = lo
}.

Lemma checkpoint_window s r s' hi : world_ok s ->
  (du_wal_floor (rn_durable s) <= effective_checkpoint_seq s <= hi)%N -> (hi <= u64_max)%N ->
  wal_window (rn_experiment_id s) (entries_at s) (du_wal_floor (rn_durable s)) hi ->
  checkpoint s = (r, s') -> world_ok s' /\ r <> Panic /\ exists lo, after_checkpoint s s' hi lo r.
Proof.
  intros Hok Hfe Hhi Hwin Hrun. apply checkpoint_run in Hrun as [Hnp Hout]; [|done|lia].
  destruct Hout as [[[Hsame Hd Hok' He] Hne]|(lo & [Hsame Hfl Hq Hok' Hown Hlo (c & bytes & g & Hco & Hg & Hcl)] & Hle & Hdone)].
  - split_and!; [done|done|]. exists (du_wal_floor (rn_durable s)). split; rewrite ?He; [lia|done|done|by left|done].
  - split_and!; [done|done|]. exists lo. split; [lia| | | |].
    + eapply (window_cleared _ _ _ _ lo); [lia| |by apply window_insert|exact Hcl]. done.
    + intros n Hn. erewrite (wal_cleared_lookup _ _ lo); [| | |exact Hcl|]; [|lia..].
      rewrite lookup_insert_ne; [done|]. intros Heq. symmetry in Heq. by apply wal_key_not_checkpoint in Heq.
    + right. exists c, bytes, g. rewrite (wal_cleared_checkpoint _ _ _ _ _ _ Hcl), lookup_insert_eq.
      split_and!; [done|by apply checkpoint_decodes|apply (co_seq _ _ _ Hco)].
    + intros Hr. destruct (Hdone Hr) as (? & ? & _). done.
Qed.

Lemma logged_drop id m a b hi l : (a <= b)%N -> Forall2 (logged_at id m) (range a hi) l ->
  Forall2 (logged_at id m) (range b hi) (drop (N.to_nat (b - a)) l).
Proof.
  intros Hab Hl. replace (range b hi) with (drop (N.to_nat (b - a)) (range a hi)); [by apply Forall2_drop|].
  unfold range. rewrite <- fmap_drop, drop_seq. replace (N.to_nat (hi - a) - N.to_nat (b - a))%nat with (N.to_nat (hi - b)) by lia.
  replace (0 + N.to_nat (b - a))%nat with (N.to_nat (b - a) + 0)%nat by lia.
  rewrite <- fmap_add_seq, <- list_fmap_compose.
  apply list_fmap_ext. intros i x _. cbn. lia.
Qed.

Lemma logged_same id m m' a b l : (b <= u64_max)%N ->
  (forall n, (a <= n < b)%N -> m' !! wal_key id n = m !! wal_key id n) ->
  Forall2 (logged_at id m) (range a b) l -> Forall2 (logged_at id m') (range a b) l.
Proof.
  intros Hb Hsame Hl. eapply Forall2_impl_in; [exact Hl|]. intros n i Hn%elem_of_range (bytes & g & Hk & Hd & Hi).
  exists bytes, g. by rewrite Hsame.
Qed.

(** ** Properties *)

(** Loading the write-ahead log is exact: when the log holds the entries
    [lo..hi] with the checkpoint's sequence in between, whatever transient
    failures occur, the loaded intents are exactly those logged at or above
    the checkpoint, in order; the stale ones below it are deleted and the
    others kept; and numbering continues at [hi], so no replayed number is
    reused. *)
Theorem load_wal_entries_exact (fuel : nat) (c : CheckpointV1) s s' (lo hi : N)
    (logged intents : list ExpansionIntent) :
  world_ok s -> (hi <= u64_max)%N -> (lo <= ck_batch_seq c <= hi)%N ->
  wal_window (rn_experiment_id s) (entries_at s) lo hi ->
  Forall2 (logged_at (rn_experiment_id s) (entries_at s)) (range (ck_batch_seq c) hi) logged ->
  load_wal_entries fuel c s = (Ok intents, s') ->
  intents = logged /\ queue_replays c intents = (hi, ck_batch_seq c, logged) /\
  wal_window (rn_experiment_id s) (entries_at s') (ck_batch_seq c) hi /\
  forall n, (ck_batch_seq c <= n < hi)%N ->
    entries_at s' !! wal_key (rn_experiment_id s) n = entries_at s !! wal_key (rn_experiment_id s) n.
Proof.
  intros Hok Hhi Hlob Hwin Hlog Hload.
  destruct (load_wal_entries_run _ _ _ _ _ _ _ _ Hok Hhi Hlob Hwin Hlog Hload) as (-> & _ & _ & Hcl).
  split_and!; [done| | |].
  - eapply queue_replays_spec; [|exact Hlog]. lia.
  - eapply window_cleared; [| |exact Hwin|exact Hcl]; lia.
  - intros n Hn. eapply wal_cleared_lookup; [| |exact Hcl|]; lia.
Qed.

(** A checkpoint never loses a log entry it does not cover: whatever
    service call fails and wherever the process is killed, the log still
    holds one contiguous segment up to [hi], unchanged; entries are deleted
    only once a checkpoint is stored whose sequence is above them; and a
    checkpoint that succeeds has cleared everything below its sequence. *)
Theorem checkpoint_wal_safe s (r : res ClientError unit) s' (hi : N) :
  world_ok s -> (du_wal_floor (rn_durable s) <= effective_checkpoint_seq s <= hi)%N -> (hi <= u64_max)%N ->
  wal_window (rn_experiment_id s) (entries_at s) (du_wal_floor (rn_durable s)) hi ->
  checkpoint s = (r, s') ->
  world_ok s' /\ r <> Panic /\ exists lo, after_checkpoint s s' hi lo r.
Proof. apply checkpoint_window. Qed.

(** C4. Crash and resume: a process that dies anywhere in a checkpoint leaves
    a store from which the next process, whatever it decodes there, loads
    exactly the logged intents from the stored checkpoint's sequence on - the
    old sequence or the new one - and continues numbering after them. *)
Theorem checkpoint_crash_recovery (fuel : nat) s (r : res ClientError unit) s1 s2 s3 (hi : N)
    (logged intents : list ExpansionIntent) (c0 c1 : CheckpointV1) (v0 v1 : list N * MetadataGeneration) :
  world_ok s -> (du_wal_floor (rn_durable s) <= effective_checkpoint_seq s <= hi)%N -> (hi <= u64_max)%N ->
  wal_window (rn_experiment_id s) (entries_at s) (du_wal_floor (rn_durable s)) hi ->
  Forall2 (logged_at (rn_experiment_id s) (entries_at s)) (range (du_wal_floor (rn_durable s)) hi) logged ->
  entries_at s !! checkpoint_key (rn_experiment_id s) = Some v0 ->
  decode_checkpoint v0.1 (rn_experiment_id s) (rn_config_hash s) = Ok c0 ->
  ck_batch_seq c0 = du_wal_floor (rn_durable s) ->
  checkpoint s = (r, s1) ->
  rn_world s2 = rn_world s1 -> rn_experiment_id s2 = rn_experiment_id s -> rn_config_hash s2 = rn_config_hash s ->
  entries_at s2 !! checkpoint_key (rn_experiment_id s) = Some v1 ->
  decode_checkpoint v1.1 (rn_experiment_id s2) (rn_config_hash s2) = Ok c1 ->
  load_wal_entries fuel c1 s2 = (Ok intents, s3) ->
  (ck_batch_seq c1 = du_wal_floor (rn_durable s) \/ ck_batch_seq c1 = effective_checkpoint_seq s) /\
  intents = drop (N.to_nat (ck_batch_seq c1 - du_wal_floor (rn_durable s))) logged /\
  queue_replays c1 intents = (hi, ck_batch_seq c1, intents) /\
  wal_window (rn_experiment_id s) (entries_at s3) (ck_batch_seq c1) hi.
Proof.
  intros Hok Hfe Hhi Hwin Hlog Hv0 Hc0 Hs0 Hrun Hw Hid Hh Hv1 Hc1 Hload.
  destruct (checkpoint_window _ _ _ _ Hok Hfe Hhi Hwin Hrun) as (Hok1 & _ & lo & [Hlo Hwin1 Hkept Hck _]).
  assert (entries_at s2 = entries_at s1) as He2 by (unfold entries_at; by rewrite Hw).
  rewrite He2 in Hv1. rewrite Hid, Hh in Hc1.
  assert ((ck_batch_seq c1 = du_wal_floor (rn_durable s) /\ lo = du_wal_floor (rn_durable s)) \/
    ck_batch_seq c1 = effective_checkpoint_seq s) as Hcase.
  { destruct Hck as [(Hsame & Hl & _)|(c & bytes & g & Hk & Hd & Hseq)].
    - left. rewrite Hsame, Hv0 in Hv1. injection Hv1 as <-. split; congruence.
    - right. rewrite Hk in Hv1. injection Hv1 as <-. cbn in Hc1. congruence. }
  assert (du_wal_floor (rn_durable s) <= ck_batch_seq c1 <= hi /\ lo <= ck_batch_seq c1)%N as [Hb1 Hb2]
    by (destruct Hcase as [[-> ->]| ->]; lia).
  assert (Forall2 (logged_at (rn_experiment_id s) (entries_at s1)) (range (ck_batch_seq c1) hi)
    (drop (N.to_nat (ck_batch_seq c1 - du_wal_floor (rn_durable s))) logged)) as Hlog1.
  { apply (logged_same _ (entries_at s)); [done| |by apply logged_drop; [lia|]]. intros n Hn. apply Hkept. lia. }
  rewrite <- He2, <- Hid in Hwin1, Hlog1.
  assert (world_ok s2) as Hok2 by (unfold world_ok in *; by rewrite Hw).
  destruct (load_wal_entries_run fuel c1 s2 s3 lo hi _ intents Hok2 Hhi ltac:(lia) Hwin1 Hlog1 Hload) as (-> & _ & _ & Hcl).
  split_and!; [naive_solver|done| |].
  - eapply queue_replays_spec; [|exact Hlog1]. lia.
  - rewrite <- Hid. eapply window_cleared; [| |exact Hwin1|exact Hcl]; lia.
Qed.

(** An orchestrator that lost ownership stands down: when the stored
    checkpoint's generation is not the one it owns, a checkpoint fails
    without writing or deleting anything. *)
Theorem stale_owner_never_writes s (r : res ClientError unit) s' (g : MetadataGeneration) :
  world_ok s -> (du_wal_floor (rn_durable s) <= effective_checkpoint_seq s <= u64_max)%N ->
  du_ckpt_generation (rn_durable s) = Some g ->
  snd <$> entries_at s !! checkpoint_key (rn_experiment_id s) <> Some g ->
  checkpoint s = (r, s') -> entries_at s' = entries_at s /\ exists e, r = Err e.
Proof.
  intros Hok Hfe Hg Hstale Hrun. apply checkpoint_run in Hrun as [Hnp Hout]; [|done|done].
  destruct Hout as [[[_ _ _ He] Hne]|(lo & [_ _ _ _ Hown _ _] & _)].
  - split; [done|]. destruct r as [[]|e|]; [done|eauto|done].
  - unfold expected_of in Hown. rewrite Hg in Hown. done.
Qed.

(** C37. A checkpoint taken while batches are in flight forgets them: with
    nothing left to replay, it truncates the log up to the next batch
    number, so no intent dispatched before it - committed or not - is
    loaded by a later resume. *)
Theorem checkpoint_forgets_inflight (fuel : nat) s s1 s2 s3 (c : CheckpointV1)
    (v : list N * MetadataGeneration) (intents : list ExpansionIntent) :
  world_ok s -> du_replay_queue (rn_durable s) = [] ->
  (du_wal_floor (rn_durable s) <= ss_batch_seq (rn_search s) <= u64_max)%N ->
  wal_window (rn_experiment_id s) (entries_at s) (du_wal_floor (rn_durable s)) (ss_batch_seq (rn_search s)) ->
  checkpoint s = (Ok tt, s1) ->
  rn_world s2 = rn_world s1 -> rn_experiment_id s2 = rn_experiment_id s -> rn_config_hash s2 = rn_config_hash s ->
  entries_at s2 !! checkpoint_key (rn_experiment_id s) = Some v ->
  decode_checkpoint v.1 (rn_experiment_id s2) (rn_config_hash s2) = Ok c ->
  load_wal_entries fuel c s2 = (Ok intents, s3) ->
  intents = [] /\ forall n, (n < ss_batch_seq (rn_search s))%N ->
    entries_at s1 !! wal_key (rn_experiment_id s) n = None.
Proof.
  intros Hok Hq Hfe Hwin Hrun Hw Hid Hh Hv Hc Hload.
  assert (effective_checkpoint_seq s = ss_batch_seq (rn_search s)) as Heff
    by (unfold effective_checkpoint_seq; by rewrite Hq).
  destruct (checkpoint_window s (Ok tt) s1 (ss_batch_seq (rn_search s)) Hok ltac:(lia) ltac:(lia) Hwin Hrun)
    as (Hok1 & _ & lo & [_ Hwin1 _ Hck Hdone]).
  destruct (Hdone eq_refl) as [-> _]. rewrite Heff in Hwin1.
  assert (entries_at s2 = entries_at s1) as He2 by (unfold entries_at; by rewrite Hw).
  rewrite He2 in Hv. rewrite Hid, Hh in Hc.
  assert (ck_batch_seq c = ss_batch_seq (rn_search s)) as Hseq.
  { destruct Hck as [(_ & _ & Hne)|(c' & bytes & g & Hk & Hd & Hseq)]; [done|].
    rewrite Hk in Hv. injection Hv as <-. cbn in Hc. congruence. }
  split.
  - rewrite <- He2, <- Hid in Hwin1. rewrite <- Hseq in Hwin1, Hfe.
    eapply (load_wal_entries_run fuel c s2 s3 (ck_batch_seq c) (ck_batch_seq c) [] intents);
      [unfold world_ok in *; by rewrite Hw|lia|lia|exact Hwin1|by rewrite range_nil by lia|exact Hload].
  - intros n Hn. apply eq_None_not_Some. intros Hs%Hwin1; lia.
Qed.
End Laws.

(** ** On the in-memory store *)

(** A codec that knows a table of values, each encoded as its index. *)
Lemma table_roundtrip {A} `{EqDecision A} (table : list A) (a : A) (bytes : list N) :
  match list_find (fun x => x = a) table with Some (i, _) => Ok [N.of_nat i] | None => Err "unsupported" end
    = Ok (E:=string) bytes ->
  match bytes with [n] => ok_or (table !! N.to_nat n) "corrupt" | _ => Err "corrupt" end = Ok (E:=string) a.
Proof.
  destruct (list_find _ table) as [[i x]|] eqn:Hf; [|done]. intros [= <-].
  apply list_find_Some in Hf as (Hi & -> & _). rewrite Nat2N.id, Hi. done.
Qed.

Lemma table_encode_total {A} `{EqDecision A} (table : list A) (a : A) :
  match list_find (fun x => x = a) table with Some (i, _) => Ok [N.of_nat i] | None => Err "unsupported" end
    <> Panic (E:=string).
Proof. by destruct (list_find _ table) as [[]|]. Qed.

Lemma table_decode_total {A} (table : list A) (bytes : list N) :
  match bytes with [n] => ok_or (table !! N.to_nat n) "corrupt" | _ => Err "corrupt" end <> Panic (E:=string).
Proof. destruct bytes as [|n [|]]; [done| |done]. by destruct (table !! N.to_nat n). Qed.

Definition table_codec {A} `{EqDecision A} (table : list A) : Postcard A := {|
  to_allocvec := fun a =>
    match list_find (fun x => x = a) table with Some (i, _) => Ok [N.of_nat i] | None => Err "unsupported" end;
  from_bytes := fun bytes =>
    match bytes with [n] => ok_or (table !! N.to_nat n) "corrupt" | _ => Err "corrupt" end;
  postcard_roundtrip := table_roundtrip table;
  to_allocvec_no_panic := table_encode_total table;
  from_bytes_no_panic := table_decode_total table
|}.

(** A scorer whose archive stays at sequence 0, and a policy that crashes at
    one point. *)
Definition fixed_archive : ScorerArchive FakeStore := {|
  checkpoint_archive := fun _ _ w => (Ok ("archive", 0%N), w)
|}.
Definition crash_at : CrashPolicy CrashPoint := {|
  should_crash := fun point chosen => (bool_decide (point = chosen), chosen)
|}.

Lemma fake_sleep_laws d (w : FakeStore) : store_ok w -> store_ok (sleep d w) /\ entries_of (sleep d w) = entries_of w.
Proof. done. Qed.

Lemma fixed_archive_laws id ckpt (w : FakeStore) r w' : store_ok w ->
  @checkpoint_archive _ fixed_archive id ckpt w = (r, w') ->
  store_ok w' /\ entries_of w' = entries_of w /\ r <> Panic.
Proof. intros Hok [= <- <-]. done. Qed.

Definition fake_service_laws : @ServiceLaws FakeStore fake_metadata_store fake_store_laws fake_runtime fixed_archive := {|
  sleep_laws := fake_sleep_laws;
  archive_laws := fixed_archive_laws
|}.

(** ** Loading terminates *)

Section FakeLoad.
Context {CP : Type} `{PI : Postcard ExpansionIntent}.
Implicit Types s : Run FakeStore CP.

Lemma set_world_self s : set_world (rn_world s) s = s.
Proof. by destruct s. Qed.

Lemma fake_get_run k s : faults (rn_world s) = [] ->
  on_world (get_metadata k) s =
  (match fake_entries (rn_world s) !! k with
   | Some v => Ok v
   | None => Err (mkClientError NotFound "metadata not found")
   end, s).
Proof.
  intros Hf. unfold on_world. cbn [get_metadata fake_metadata_store]. unfold fake_get_metadata.
  rewrite st_bind_run. unfold decide_fault. rewrite Hf. cbn [head tail option_bind mbind].
  rewrite fake_entries_lookup. destruct s as [a b c d e f g h [m fs cl]]; cbn in *. subst fs.
  rewrite gets_bind. cbn [metadata]. by destruct (m !! k).
Qed.

Lemma fake_delete_run seq s v : faults (rn_world s) = [] ->
  fake_entries (rn_world s) !! wal_key (rn_experiment_id s) seq = Some v ->
  exists w, delete_wal_entry seq s = (Ok tt, set_world w s) /\ faults w = [] /\
    fake_entries w = delete (wal_key (rn_experiment_id s) seq) (fake_entries (rn_world s)).
Proof.
  intros Hf Hk. exists (set_metadata (delete (wal_key (rn_experiment_id s) seq) (metadata (rn_world s))) (rn_world s)).
  split_and!; [|done|unfold fake_entries; cbn; by rewrite fmap_delete].
  rewrite fake_entries_lookup in Hk. unfold delete_wal_entry, rpc, on_world, retry_rpc.
  destruct s as [a b c d e f g h [m fs cl]]; cbn in *. subst fs.
  destruct (N.to_nat (rp_retry_max c)); cbn [retry_from]; unfold fake_delete_metadata;
    rewrite st_bind_run; unfold decide_fault; cbn; rewrite gets_bind; cbn [metadata];
    destruct (m !! wal_key a seq); by cbn.
Qed.

Lemma finish_truncation_total id lo hi b m0 : (b <= u64_max)%N -> (lo <= b <= hi)%N -> wal_window id m0 lo hi ->
  forall fuel seq s, rn_experiment_id s = id -> faults (rn_world s) = [] -> (lo <= seq <= b)%N ->
  wal_cleared id seq b m0 (fake_entries (rn_world s)) -> (N.to_nat (seq - lo) + 1 < fuel)%nat ->
  exists w, finish_truncation fuel seq s = (Ok tt, set_world w s) /\ faults w = [] /\
    wal_cleared id lo b m0 (fake_entries w).
Proof.
  intros Hb Hlob Hwin. induction fuel as [|fuel IH]; intros seq s Hid Hf Hseq Hcl Hfuel; [lia|].
  cbn [finish_truncation]. destruct (N.eqb_spec seq 0) as [->|Hpos].
  { exists (rn_world s). rewrite set_world_self. replace lo with 0%N by lia. done. }
  rewrite fake_get_run, Hid by done.
  pose proof (wal_cleared_lookup id seq b m0 _ (seq - 1)%N ltac:(lia) ltac:(lia) Hcl ltac:(lia)) as Hsame.
  pose proof (Hwin (seq - 1)%N ltac:(lia)) as Hwn. rewrite <- Hsame in Hwn.
  destruct (fake_entries (rn_world s) !! wal_key id (seq - 1)) as [v|] eqn:Hk.
  - assert (lo <= seq - 1)%N as Hge by (apply Hwn; done). rewrite <- Hid in Hk.
    destruct (fake_delete_run _ _ _ Hf Hk) as (w & -> & Hfw & Hew). rewrite Hid in Hew.
    destruct (IH (seq - 1)%N (set_world w s) Hid Hfw ltac:(lia)) as (w' & -> & Hw'); [|lia|by exists w'].
    cbn. rewrite Hew.
    pose proof (wal_cleared_delete id seq b (seq - 1)%N m0 _ ltac:(lia) ltac:(lia) Hcl ltac:(lia) ltac:(lia)) as Hc.
    by rewrite N.min_l, N.max_r in Hc by lia.
  - rewrite decide_True by done. exists (rn_world s). rewrite set_world_self. split_and!; [done|done|].
    assert (~ (lo <= seq - 1 < hi)%N) as Hout by (rewrite <- Hwn; by intros []).
    replace lo with seq by lia. done.
Qed.

Lemma collect_window_total id hi allowed m : (hi + allowed + 1 <= u64_max)%N ->
  forall fuel seq misses acc rest s, rn_experiment_id s = id -> faults (rn_world s) = [] ->
  fake_entries (rn_world s) = m -> (seq + (allowed + 1 - misses) <= hi + allowed + 1 \/ seq <= hi)%N ->
  (forall n, (seq <= n <= u64_max)%N -> is_Some (m !! wal_key id n) <-> (n < hi)%N) ->
  Forall2 (logged_at id m) (range seq hi) rest -> (seq < hi -> misses = 0)%N ->
  (N.to_nat (hi - seq) + N.to_nat (allowed + 1 - misses) < fuel)%nat ->
  exists l, collect_window fuel allowed seq misses acc s = (Ok l, s).
Proof.
  intros Hmax. induction fuel as [|fuel IH]; intros seq misses acc rest s Hid Hf He Hsm Hwin Hlog Hmiss Hfuel; [lia|].
  cbn [collect_window]. destruct (N.leb_spec misses allowed) as [Hle|Hgt]; [|eauto].
  rewrite fake_get_run, Hid, He by done.
  assert (checked_add u64_max seq 1 = Some (seq + 1)%N) as Hadd by (apply checked_add_Some; split; [lia|done]).
  destruct (m !! wal_key id seq) as [[bytes g]|] eqn:Hk.
  - assert (seq < hi)%N as Hlt by (apply (Hwin seq); [lia|by rewrite Hk]).
    rewrite range_cons in Hlog by done. inversion Hlog as [|n i ns il (bytes' & g' & Hl & Hdec & Hsi) Hlog']; subst n ns rest.
    rewrite Hk in Hl. injection Hl as <- <-. rewrite Hdec. cbn [as_client_error map_err].
    run_st. rewrite Hadd. cbn [expect]. run_st.
    apply (IH _ _ _ il); [done|done|done|lia|intros n Hn; apply Hwin; lia|done|lia|lia].
  - assert (hi <= seq)%N as Hge by (apply N.nlt_ge; intros Hc; apply (Hwin seq) in Hc; [rewrite Hk in Hc; by destruct Hc|lia]).
    cbn [ce_kind]. rewrite decide_True by done. rewrite Hadd. cbn [expect]. run_st.
    apply (IH _ _ _ rest); [done|done|done|lia|intros n Hn; apply Hwin; lia| |lia|lia].
    rewrite range_nil by lia. by rewrite range_nil in Hlog by lia.
Qed.

(** Loading terminates with every surviving intent: on the in-memory
    store without faults, when the log holds [lo..hi] around the
    checkpoint's sequence with readable intents from it on, enough fuel
    (one unit per entry and per probed miss) makes the load succeed. *)
Theorem load_wal_entries_terminates (fuel : nat) (c : CheckpointV1) s (lo hi : N) (logged : list ExpansionIntent) :
  faults (rn_world s) = [] -> (lo <= ck_batch_seq c <= hi)%N ->
  let window := N.max (max_inflight_batches (scheduling (ss_config (rn_search s)))) 1 in
  (hi + window + 2 <= u64_max)%N ->
  wal_window (rn_experiment_id s) (fake_entries (rn_world s)) lo hi ->
  Forall2 (logged_at (rn_experiment_id s) (fake_entries (rn_world s))) (range (ck_batch_seq c) hi) logged ->
  (N.to_nat (hi - lo) + N.to_nat window + 3 < fuel)%nat ->
  exists intents w, load_wal_entries fuel c s = (Ok intents, set_world w s).
Proof.
  intros Hf Hlob window Hmax Hwin Hlog Hfuel. unfold load_wal_entries. rewrite st_bind_run.
  destruct (finish_truncation_total (rn_experiment_id s) lo hi (ck_batch_seq c) (fake_entries (rn_world s)) ltac:(lia) Hlob Hwin fuel (ck_batch_seq c) s
    eq_refl Hf ltac:(lia) (wal_cleared_refl _ _ _) ltac:(lia)) as (w & -> & Hfw & Hcl).
  rewrite gets_bind, st_bind_run. cbn [rn_search set_world]. fold window.
  destruct (collect_window_total (rn_experiment_id s) hi (window + 1)%N (fake_entries w) ltac:(lia) fuel (ck_batch_seq c) 0 []
    logged (set_world w s) eq_refl Hfw eq_refl ltac:(lia)) as (l & ->); [| |lia|lia|by exists (merge_sort seq_le l), w].
  - intros n Hn. erewrite wal_cleared_lookup; [| | |exact Hcl|]; [|lia..]. rewrite (Hwin n) by lia. lia.
  - apply (logged_same _ (fake_entries (rn_world s))); [lia| |done]. intros n Hn.
    eapply wal_cleared_lookup; [| |exact Hcl|]; lia.
Qed.
End FakeLoad.

(** ** Samples *)

Definition sample_wal_intent (n : N) : ExpansionIntent :=
  mkExpansionIntent n 1 (90 + n) (mkIntentKnobs 16 120 0 []) ("b" +:+ pretty n).

(** A checkpoint at batch [n] of the sample experiment. *)
Definition checkpoint_at (n : N) : CheckpointV1 :=
  mkCheckpointV1 CHECKPOINT_VERSION "exp" [1; 2]%N 0 n 0 (mkBudgetsUsed 1 0 0 0) (mkRngCheckpoint 7)
    [] "archive" 0 "ckpt-0" 0 [] [] [] [] []
    (mkPlateauCheckpoint None 0 0 0 0 (knobs_in_effect (from_plateau_config (plateau sample_config))))
    [] Running.

(** The log holds batches 0 and 1, the stored checkpoint is at batch 0. *)
Definition sample_world (fs : list FaultTerminal) : FakeStore :=
  mkFakeStore (<[checkpoint_key "exp" := mkMetadataEntry [0%N] 1]>
    (<[wal_key "exp" 0 := mkMetadataEntry [0%N] 1]> (<[wal_key "exp" 1 := mkMetadataEntry [1%N] 1]> ∅))) fs 0.

Definition sample_run (owned : MetadataGeneration) (crash : option CrashPoint) : Run FakeStore CrashPoint :=
  mkRun "exp" [1; 2]%N (from_scheduling SchedulingConfig_default)
    (mkSearchState sample_config (after_batch sample_state) (PolicyBox_from_config sample_config)
       (EscalationLadder_from_knobs sample_knobs) 2 1 0)
    (mkProgress (StallDetector_from_knobs sample_knobs) [] [] None None [] 0 0 Running)
    (mkDurableState (Some owned) 0 0 1 0 []) [] crash (sample_world []).

Definition sample_next : CheckpointV1 :=
  match build_checkpoint (sample_run 1 None) "ckpt-1" "archive" 0 with Ok c => c | _ => checkpoint_at 0 end.

#[local] Instance sample_checkpoints : Postcard CheckpointV1 := table_codec [checkpoint_at 0; sample_next].
#[local] Instance sample_intents : Postcard ExpansionIntent := table_codec [sample_wal_intent 0; sample_wal_intent 1].
#[local] Existing Instance fixed_archive.
#[local] Existing Instance crash_at.
#[local] Existing Instance fake_service_laws.

Lemma sample_window fs : wal_window "exp" (fake_entries (sample_world fs)) 0 2.
Proof.
  intros n Hn. rewrite fake_entries_lookup, fmap_is_Some. unfold sample_world. cbn [metadata].
  rewrite lookup_insert_ne by done.
  destruct (decide (n = 0%N)) as [->|H0]; [rewrite lookup_insert_eq; split; [lia|eauto]|].
  rewrite lookup_insert_ne by (intros [_ ?]%wal_key_inj; [lia|lia|done]).
  destruct (decide (n = 1%N)) as [->|H1]; [rewrite lookup_insert_eq; split; [lia|eauto]|].
  rewrite lookup_insert_ne by (intros [_ ?]%wal_key_inj; [lia|lia|done]).
  rewrite lookup_empty. split; [by intros []|lia].
Qed.

Lemma sample_logged fs : Forall2 (logged_at "exp" (fake_entries (sample_world fs))) (range 0 2)
  [sample_wal_intent 0; sample_wal_intent 1].
Proof.
  repeat constructor; eexists _, _; (split; [vm_compute; reflexivity|split; vm_compute; reflexivity]).
Qed.

Lemma load_wal_entries_exact_witness :
  (load_wal_entries 20 (checkpoint_at 1) (sample_run 1 None)).1 = Ok [sample_wal_intent 1] /\
  queue_replays (checkpoint_at 1) [sample_wal_intent 1] = (2%N, 1%N, [sample_wal_intent 1]).
Proof.
  assert ((load_wal_entries 20 (checkpoint_at 1) (sample_run 1 None)).1 = Ok [sample_wal_intent 1]) as H
    by (vm_compute; reflexivity).
  split; [exact H|].
  apply (load_wal_entries_exact 20 (checkpoint_at 1) (sample_run 1 None)
    (load_wal_entries 20 (checkpoint_at 1) (sample_run 1 None)).2 0 2 [sample_wal_intent 1] [sample_wal_intent 1]).
  - constructor.
  - vm_compute; discriminate.
  - vm_compute; split; discriminate.
  - apply sample_window.
  - exact (logged_drop _ _ 0 1 2 _ ltac:(lia) (sample_logged [])).
  - rewrite <- H. apply surjective_pairing.
Defined.

Lemma checkpoint_wal_safe_witness :
  exists lo, after_checkpoint (sample_run 1 (Some BeforeWalDelete)) (checkpoint (sample_run 1 (Some BeforeWalDelete))).2 2 lo
    (checkpoint (sample_run 1 (Some BeforeWalDelete))).1.
Proof.
  apply (checkpoint_wal_safe (sample_run 1 (Some BeforeWalDelete))
    (checkpoint (sample_run 1 (Some BeforeWalDelete))).1 (checkpoint (sample_run 1 (Some BeforeWalDelete))).2 2).
  - constructor.
  - vm_compute; split; discriminate.
  - vm_compute; discriminate.
  - apply sample_window.
  - apply surjective_pairing.
Defined.

(** Killed before the write: the next process replays both batches. *)
Definition sample_killed : Run FakeStore CrashPoint := (checkpoint (sample_run 1 (Some BeforeCasPut))).2.

Lemma checkpoint_crash_recovery_witness :
  queue_replays (checkpoint_at 0) [sample_wal_intent 0; sample_wal_intent 1] =
  (2%N, 0%N, [sample_wal_intent 0; sample_wal_intent 1]).
Proof.
  assert ((load_wal_entries 20 (checkpoint_at 0) sample_killed).1 = Ok [sample_wal_intent 0; sample_wal_intent 1]) as H
    by (vm_compute; reflexivity).
  apply (checkpoint_crash_recovery 20 (sample_run 1 (Some BeforeCasPut)) (checkpoint (sample_run 1 (Some BeforeCasPut))).1
    sample_killed sample_killed (load_wal_entries 20 (checkpoint_at 0) sample_killed).2 2
    [sample_wal_intent 0; sample_wal_intent 1] [sample_wal_intent 0; sample_wal_intent 1]
    (checkpoint_at 0) (checkpoint_at 0) ([0%N], 1%N) ([0%N], 1%N)).
  - constructor.
  - vm_compute; split; discriminate.
  - vm_compute; discriminate.
  - apply sample_window.
  - apply sample_logged.
  - vm_compute; reflexivity.
  - vm_compute; reflexivity.
  - vm_compute; reflexivity.
  - apply surjective_pairing.
  - reflexivity.
  - vm_compute; reflexivity.
  - vm_compute; reflexivity.
  - vm_compute; reflexivity.
  - vm_compute; reflexivity.
  - rewrite <- H. apply surjective_pairing.
Defined.

Lemma stale_owner_never_writes_witness :
  entries_at (checkpoint (sample_run 5 None)).2 = entries_at (sample_run 5 None).
Proof.
  apply (stale_owner_never_writes (sample_run 5 None) (checkpoint (sample_run 5 None)).1 (checkpoint (sample_run 5 None)).2 5).
  - constructor.
  - vm_compute; split; discriminate.
  - reflexivity.
  - vm_compute; discriminate.
  - apply surjective_pairing.
Defined.

Definition sample_done : Run FakeStore CrashPoint := (checkpoint (sample_run 1 None)).2.

Lemma checkpoint_forgets_inflight_witness :
  entries_at sample_done !! wal_key "exp" 1 = None.
Proof.
  apply (checkpoint_forgets_inflight 20 (sample_run 1 None) sample_done sample_done
    (load_wal_entries 20 sample_next sample_done).2 sample_next ([1%N], 2%N) []).
  - constructor.
  - reflexivity.
  - vm_compute; split; discriminate.
  - apply sample_window.
  - assert ((checkpoint (sample_run 1 None)).1 = Ok tt) as H by (vm_compute; reflexivity).
    rewrite <- H. apply surjective_pairing.
  - reflexivity.
  - vm_compute; reflexivity.
  - vm_compute; reflexivity.
  - vm_compute; reflexivity.
  - vm_compute; reflexivity.
  - assert ((load_wal_entries 20 sample_next sample_done).1 = Ok []) as H by (vm_compute; reflexivity).
    rewrite <- H. apply surjective_pairing.
  - vm_compute; reflexivity.
Defined.

Lemma load_wal_entries_terminates_witness :
  exists intents w, load_wal_entries 20 (checkpoint_at 1) (sample_run 1 None) = (Ok intents, set_world w (sample_run 1 None)).
Proof.
  apply (load_wal_entries_terminates 20 (checkpoint_at 1) (sample_run 1 None) 0 2 [sample_wal_intent 1]).
  - reflexivity.
  - vm_compute; split; discriminate.
  - vm_compute; discriminate.
  - apply sample_window.
  - exact (logged_drop _ _ 0 1 2 _ ltac:(lia) (sample_logged [])).
  - vm_compute. lia.
Defined.

(** The repair of an interrupted truncation is not itself safe against
    interruption: it deletes from the top, so when it stops half-way the
    entries left below the gap are never found again.  With two stale
    entries and a checkpoint above them, a first load that fails after one
    deletion leaves the other one behind, and the next load succeeds without
    removing it. *)
Theorem interrupted_repair_leaks :
  let s0 := set_world (sample_world [FaultNone; FaultNone; FaultError FailedPrecondition]) (sample_run 1 None) in
  let first := load_wal_entries 20 (checkpoint_at 2) s0 in
  let second := load_wal_entries 20 (checkpoint_at 2) first.2 in
  (exists e, first.1 = Err e) /\ second.1 = Ok [] /\
  entries_at second.2 !! wal_key "exp" 1 = None /\ is_Some (entries_at second.2 !! wal_key "exp" 0).
Proof. cbv zeta. split_and!; [eexists|..]; vm_compute; eauto. Qed.
