(* ===== verification/HvTypes.v ===== *)
(** Hypervisor worker boundary (crates/orch-clients/src/hypervisor.rs, ports in
    crates/orch-sched/src/ports.rs): leases, machine configurations, captures,
    scheduled inputs, run conditions, the request and response shapes, and the
    interface [Hypervisor] of a worker. *)
From S2P Require Import Prelude Types Client.
Local Open Scope string_scope.
Local Open Scope list_scope.

Abbreviation GuestInstructions := N (only parsing).
Abbreviation SlotId := N (only parsing).
Abbreviation LeaseToken := (list N) (only parsing).
Abbreviation EntropySeed := (list N) (only parsing).
Abbreviation Digest32 := (list N) (only parsing).
Abbreviation InputLogId := (list N) (only parsing).
Definition LEASE_TOKEN_LEN : nat := 16.

Record Lease := mkLease { le_slot_id : SlotId; le_token : LeaseToken }.

(** ** Machine configuration *)

Inductive HashEpochs := EpochsUnspecified | EpochsOn | FinalOnly.
Record ElfBoot := mkElfBoot { elf_kernel_hash : Digest32; elf_cmdline : list N }.
Record BzImageBoot := mkBzImageBoot {
  bz_kernel_hash : Digest32;
  bz_initramfs_hash : Digest32;
  bz_cmdline : list N
}.
Inductive BootSpec := Elf (b : ElfBoot) | BzImage (b : BzImageBoot).
Record MachineConfig := mkMachineConfig {
  mc_version : N;
  mc_mem_bytes : N;
  mc_vcpus : N;
  mc_clock_num : N;
  mc_clock_den : N;
  mc_base_image_hash : Digest32;
  mc_boot : BootSpec;
  mc_epoch_len : GuestInstructions;
  mc_hash_epochs : HashEpochs;
  mc_skid_margin : N
}.

(** ** Captures *)

Record ExtractRange := mkExtractRange {
  er_region : string;
  er_layout_version : N;
  er_offset : N;
  er_len : N
}.
Record CaptureSpec := mkCaptureSpec { cs_ranges : list ExtractRange; cs_framebuffer : bool }.
Inductive PixelFormat := PixelUnspecified | Xrgb8888 | Rgb565.
Record FbInfo := mkFbInfo {
  fb_width : N;
  fb_height : N;
  fb_stride : N;
  fb_format : PixelFormat;
  fb_frame_counter : FrameCount
}.

(** ** Inputs *)

Inductive ScheduleAt := AtIcount (i : GuestInstructions) | AtVns (v : N) | AtFrame (f : FrameCount).
Record PadSet := mkPadSet { pad_port : N; pad_buttons : N }.
Record DeviceEvent := mkDeviceEvent { de_device_id : N; de_event_type : N; de_payload : list N }.
Inductive InputEvent :=
| InPadSet (p : PadSet)
| InDeviceEvent (d : DeviceEvent)
| InNetRx (frame : list N).
Record ScheduledEvent := mkScheduledEvent { se_at : ScheduleAt; se_event : InputEvent }.

(** ** Running *)

Inductive PredicateOp := OpUnspecified | OpEq | OpNe | OpGe | OpLe.
Record MemPredicate := mkMemPredicate {
  pred_gpa : N; pred_width : N; pred_mask : N; pred_op : PredicateOp; pred_value : N
}.
Record GoalCondition := mkGoalCondition {
  gc_all_of : list MemPredicate;
  gc_poll_period : option GuestInstructions
}.
Inductive RunUntil :=
| IcountBudget (i : GuestInstructions)
| VnsBudget (v : N)
| FrameBudget (f : FrameCount)
| UntilNextSdkEvent (stream : option N)
| UntilGoal (g : GoalCondition).

Inductive StopReason :=
| StopUnspecified | BudgetReached | GoalSatisfied | NextSdkEvent | HardCap | StopPaused
| GuestHalted | StopFaulted.

Global Instance StopReason_eq_dec : EqDecision StopReason.
Proof. solve_decision. Defined.

(** The derived [Debug] text of a variant. *)
Definition StopReason_debug (r : StopReason) : string :=
  match r with
  | StopUnspecified => "Unspecified" | BudgetReached => "BudgetReached"
  | GoalSatisfied => "GoalSatisfied" | NextSdkEvent => "NextSdkEvent" | HardCap => "HardCap"
  | StopPaused => "Paused" | GuestHalted => "GuestHalted" | StopFaulted => "Faulted"
  end.

Record GuestEvent := mkGuestEvent {
  gev_stream : N;
  gev_icount : GuestInstructions;
  gev_vns : N;
  gev_payload : list N
}.
Record DeterminismClass := mkDeterminismClass {
  dc_cpu_model : string;
  dc_microcode : string;
  dc_host_kernel : string;
  dc_vmm_version : string
}.
Global Instance DeterminismClass_eq_dec : EqDecision DeterminismClass.
Proof. solve_decision. Defined.

(** ** Slots *)

Inductive SlotState := SlotUnspecified | Empty | Paused | Running | Frozen | Faulted.
Global Instance SlotState_eq_dec : EqDecision SlotState.
Proof. solve_decision. Defined.

Record SlotInfo := mkSlotInfo {
  si_slot_id : SlotId;
  si_state : SlotState;
  si_icount : GuestInstructions;
  si_base : option SnapshotRef;
  si_live_children : N
}.
(** [SlotEvent] wraps one [SlotInfo]. *)
Record SlotEvent := mkSlotEvent { ev_slot : SlotInfo }.

Global Instance ExtractRange_eq_dec : EqDecision ExtractRange.
Proof. solve_decision. Defined.
Global Instance Lease_eq_dec : EqDecision Lease.
Proof. solve_decision. Defined.
Global Instance Lease_countable : Countable Lease.
Proof.
  refine (inj_countable' (fun l => (le_slot_id l, le_token l)) (fun p => mkLease p.1 p.2) _). by intros [].
Defined.

(** ** Requests and responses *)

Record CreateVmRequest := mkCreateVmRequest { cv_config : MachineConfig; cv_entropy_seed : EntropySeed }.
Record CreateVmResponse := mkCreateVmResponse { cvr_lease : Lease; cvr_icount : GuestInstructions }.
Record RestoreSnapshotRequest := mkRestoreSnapshotRequest {
  rs_snapshot : SnapshotRef;
  rs_entropy_seed : option EntropySeed
}.
Record RestoreSnapshotResponse := mkRestoreSnapshotResponse {
  rsr_lease : Lease;
  rsr_config : MachineConfig;
  rsr_state_hash : StateHash;
  rsr_frame_counter : FrameCount
}.
Record ForkRequest := mkForkRequest {
  fq_parent : Lease;
  fq_count : N;
  fq_entropy_seeds : list EntropySeed
}.

Definition ForkRequest_validate (r : ForkRequest) : res ClientError unit :=
  if (fq_count r =? 0)%N then Err (mkClientError InvalidRequest "fork count must be nonzero")
  else if negb (N.of_nat (length (fq_entropy_seeds r)) =? fq_count r)%N then
    Err (mkClientError InvalidRequest "fork entropy seed count must match fork count")
  else Ok tt.

Definition ForkRequest_new (parent : Lease) (entropy_seeds : list EntropySeed) : res ClientError ForkRequest :=
  if (u32_max <? N.of_nat (length entropy_seeds))%N then
    Err (mkClientError InvalidRequest "fork entropy seed count exceeds u32")
  else
    let request := mkForkRequest parent (N.of_nat (length entropy_seeds)) entropy_seeds in
    _ ← ForkRequest_validate request;
    Ok request.

Record InjectInputsRequest := mkInjectInputsRequest { ii_lease : Lease; ii_events : list ScheduledEvent }.
Record RunRequest := mkRunRequest {
  rq_lease : Lease;
  rq_until : RunUntil;
  rq_hard_icount_cap : option GuestInstructions;
  rq_capture : option CaptureSpec
}.
Record RunResponse := mkRunResponse {
  rr_reason : StopReason;
  rr_icount : GuestInstructions;
  rr_vns : N;
  rr_state_hash : StateHash;
  rr_frames_elapsed : N;
  rr_sdk_event : option GuestEvent;
  rr_feature_bytes : option (list N);
  rr_fb_lz4 : option (list N);
  rr_fb_info : option FbInfo
}.
Record TakeSnapshotRequest := mkTakeSnapshotRequest {
  ts_lease : Lease;
  ts_seal_input_log : bool;
  ts_capture : option CaptureSpec
}.
Record TakeSnapshotResponse := mkTakeSnapshotResponse {
  tr_snapshot : SnapshotRef;
  tr_input_log_id : option InputLogId;
  tr_icount : GuestInstructions;
  tr_vns : N;
  tr_state_hash : StateHash;
  tr_dirty_pages : N;
  tr_machine_config_hash : Digest32;
  tr_determinism_class : DeterminismClass;
  tr_feature_bytes : option (list N);
  tr_fb_lz4 : option (list N);
  tr_fb_info : option FbInfo;
  tr_frame_counter : FrameCount
}.
Record GetWorkerInfoResponse := mkGetWorkerInfoResponse {
  wi_worker_id : string;
  wi_slots_total : N;
  wi_slots_free : N;
  wi_class : DeterminismClass;
  wi_version : string
}.

(** The ten calls of a worker, on the state [W] of the service. *)
Class Hypervisor (W : Type) := {
  create_vm : CreateVmRequest -> st W ClientError CreateVmResponse;
  restore_snapshot : RestoreSnapshotRequest -> st W ClientError RestoreSnapshotResponse;
  fork : ForkRequest -> st W ClientError (list Lease);
  inject_inputs : InjectInputsRequest -> st W ClientError N;
  run : RunRequest -> st W ClientError RunResponse;
  take_snapshot : TakeSnapshotRequest -> st W ClientError TakeSnapshotResponse;
  destroy_vm : Lease -> st W ClientError unit;
  list_slots : st W ClientError (list SlotInfo);
  watch_slots : st W ClientError (list SlotEvent);
  worker_info : st W ClientError GetWorkerInfoResponse
}.

(** A request built by [ForkRequest::new] passes [validate]; it is refused
    exactly when it asks for no child or for more than a 32-bit count. *)
Lemma ForkRequest_new_Ok parent seeds r : ForkRequest_new parent seeds = Ok r <->
  seeds <> [] /\ (N.of_nat (length seeds) <= u32_max)%N /\
  r = mkForkRequest parent (N.of_nat (length seeds)) seeds.
Proof.
  unfold ForkRequest_new. destruct (N.ltb_spec u32_max (N.of_nat (length seeds))) as [H|H]; [naive_solver lia|].
  unfold ForkRequest_validate. cbn. rewrite N.eqb_refl. cbn.
  destruct seeds as [|x seeds]; cbn; [naive_solver|]. naive_solver.
Qed.
