(* ===== verification/SynthTypes.v ===== *)
(** Input synthesizer boundary (crates/orch-clients/src/input_synth.rs): bursts
    with their provenance, the proposal request and response, and the
    interface [InputSynth] of the service. *)
From S2P Require Import Prelude Float64 Types Client.

(** ** Bursts *)

Abbreviation BurstId := (list N) (only parsing).
Abbreviation ConfigFingerprint := (list N) (only parsing).

Record PadSegment := mkPadSegment { seg_buttons : N; seg_hold_frames : FrameCount }.
Record PadBurst := mkPadBurst { pb_segments : list PadSegment; pb_button_alphabet : string }.

Inductive FieldValue :=
| FieldInt (v : Z)
| FieldEnum (v : string)
| FieldDurationNs (v : N)
| FieldBytes (v : list N).

Record GrammarField := mkGrammarField { gf_name : string; gf_value : FieldValue }.
Record GrammarEvent := mkGrammarEvent {
  ge_event_type : string;
  ge_at_offset_ns : N;
  ge_fields : list GrammarField;
  ge_payload : list N
}.
Record EventBurst := mkEventBurst { eb_events : list GrammarEvent; eb_grammar_id : string }.

Inductive BurstBody := Pad (b : PadBurst) | Event (b : EventBurst).

Record Burst := mkBurst {
  bu_format_version : N;
  bu_burst_id : BurstId;
  bu_body : BurstBody
}.

(** ** Provenance *)

Inductive GeneratorKind := GenWeightedRandom | GenMacro | GenMutation | GenPolicy.

Record MacroProvenance := mkMacroProvenance {
  mp_pack_id : string;
  mp_macro_name : string;
  mp_param_bindings : list (string * string);
  mp_macro_frames : FrameCount;
  mp_tail_frames : FrameCount;
  mp_chain_index : N
}.

Record MutationOp := mkMutationOp { mo_op : string; mo_args : list (string * string) }.

Record MutationProvenance := mkMutationProvenance {
  mu_base_burst_id : list N;
  mu_donor_burst_id : list N;
  mu_base_was_sibling : bool;
  mu_ops : list MutationOp;
  mu_post_clamp : bool
}.

Record PolicyProvenance := mkPolicyProvenance {
  pp_model_id : string;
  pp_model_version : string;
  pp_temperature : FiniteF64;
  pp_server_attested_deterministic : bool
}.

Record Provenance := mkProvenance {
  pr_generator : GeneratorKind;
  pr_slot : N;
  pr_rng_stream : string;
  pr_config_fingerprint : ConfigFingerprint;
  pr_fallback_from : option GeneratorKind;
  pr_macro_provenance : option MacroProvenance;
  pr_mutation_provenance : option MutationProvenance;
  pr_policy_provenance : option PolicyProvenance
}.

Record ProvenancedBurst := mkProvenancedBurst { pv_burst : Burst; pv_provenance : Provenance }.
Record ScoredBurst := mkScoredBurst { sb_burst : ProvenancedBurst; sb_score_delta : FiniteF64 }.

Global Instance GeneratorKind_eq_dec : EqDecision GeneratorKind.
Proof. solve_decision. Defined.
Global Instance PadSegment_eq_dec : EqDecision PadSegment.
Proof. solve_decision. Defined.
Global Instance PadBurst_eq_dec : EqDecision PadBurst.
Proof. solve_decision. Defined.
Global Instance FieldValue_eq_dec : EqDecision FieldValue.
Proof. solve_decision. Defined.
Global Instance GrammarField_eq_dec : EqDecision GrammarField.
Proof. solve_decision. Defined.
Global Instance GrammarEvent_eq_dec : EqDecision GrammarEvent.
Proof. solve_decision. Defined.
Global Instance EventBurst_eq_dec : EqDecision EventBurst.
Proof. solve_decision. Defined.
Global Instance BurstBody_eq_dec : EqDecision BurstBody.
Proof. solve_decision. Defined.
Global Instance Burst_eq_dec : EqDecision Burst.
Proof. solve_decision. Defined.

(** ** Requests and responses *)

Inductive DocumentKind := DocMacroPack | DocExperimentConfig | DocEventGrammar.
Inductive LoadMacroPackSource := DocumentYaml (bytes : list N) | ArtifactRef (ref : string).
Record LoadMacroPackRequest := mkLoadMacroPackRequest {
  lmp_source : LoadMacroPackSource;
  lmp_kind : DocumentKind
}.
Record LoadMacroPackResponse := mkLoadMacroPackResponse {
  lmr_document_id : string;
  lmr_items_loaded : N;
  lmr_warnings : list string
}.

Inductive HealthStatus := Serving | Degraded | NotServing.
Record HealthResponse := mkHealthResponse {
  he_status : HealthStatus;
  he_synth_version : string;
  he_loaded_packs : list string;
  he_loaded_experiments : list string;
  he_policy_endpoint_up : bool;
  he_policy_deterministic : bool;
  he_mining_in_progress : bool
}.

Record NodeContext := mkNodeContext {
  nc_node_id : NodeId;
  nc_parent_node_id : option NodeId;
  nc_snapshot_ref : SnapshotRef;
  nc_state_hash : StateHash;
  nc_cell_key : CellKey;
  nc_stage : Stage;
  nc_depth : N;
  nc_frame_counter : FrameCount;
  nc_node_score : FiniteF64;
  nc_novelty : FiniteF64;
  nc_ram_features : list (string * FiniteF64);
  nc_frame_embedding : list FiniteF64;
  nc_recent_inputs : option Burst;
  nc_parent_burst : option ProvenancedBurst;
  nc_sibling_bursts : list ScoredBurst
}.

Inductive ModelKind := ModelPad | ModelEventGrammar.

Record ProposeBurstsRequest := mkProposeBurstsRequest {
  pq_experiment_id : string;
  pq_node_context : NodeContext;
  pq_k : N;
  pq_length_hint : FrameCount;
  pq_seed : N;
  pq_model : ModelKind;
  pq_config_overrides_yaml : list N
}.

Record DegradedGenerator := mkDegradedGenerator { dg_generator : GeneratorKind; dg_reason : string }.

Record ProposeBurstsResponse := mkProposeBurstsResponse {
  ps_bursts : list ProvenancedBurst;
  ps_config_fingerprint : ConfigFingerprint;
  ps_synth_version : string;
  ps_seed : N;
  ps_degraded : list DegradedGenerator
}.

Record PathSample := mkPathSample { ph_expansions : list ScoredBurst; ph_terminal_score : FiniteF64 }.
Record MiningParams := mkMiningParams {
  mi_min_support : option N;
  mi_min_paths : option N;
  mi_max_len_tokens : option N;
  mi_max_macros : option N;
  mi_containment_alpha : option FiniteF64;
  mi_dedup_edit_dist : option FiniteF64
}.
Record MineMacrosRequest := mkMineMacrosRequest {
  mq_experiment_id : string;
  mq_paths : list PathSample;
  mq_params : MiningParams
}.
Record MinedMacroStats := mkMinedMacroStats {
  mm_name : string;
  mm_support : N;
  mm_paths : N;
  mm_lift : FiniteF64;
  mm_score : FiniteF64;
  mm_len_tokens : N
}.
Record MineMacrosResponse := mkMineMacrosResponse {
  mr_macro_pack_yaml : list N;
  mr_pack_id : string;
  mr_stats : list MinedMacroStats;
  mr_paths_used : N;
  mr_tokens_scanned : N
}.

(** The calls the orchestrator makes of the synthesizer, on its state [W]. *)
Class InputSynth (W : Type) := {
  load_macro_pack : LoadMacroPackRequest -> st W ClientError LoadMacroPackResponse;
  health : st W ClientError HealthResponse;
  propose_bursts : ProposeBurstsRequest -> st W ClientError ProposeBurstsResponse
}.
