(* ===== verification/Slots.v ===== *)
(** Slot accounting of the scheduler (crates/orch-sched/src/slots.rs): the view
    of a worker's capacity, reservations as permits, and the queue of waiting
    acquirers.

    Several tasks share the view behind one mutex and run on several threads.
    A step of the model is one critical section, or one use of a oneshot
    channel; [wake_free_waiters] and the destructor of a permit, which take
    the mutex several times, are threads of such steps that other tasks may
    interleave with.  A thread is a stack of frames because a failed send
    destroys the permit inside the loop, whose destructor wakes again. *)
From stdpp Require Import pretty.
From S2P Require Import Prelude Types Reasons Client Retry HvTypes.
Local Open Scope string_scope.
Local Open Scope list_scope.

Record SlotViewConfig := mkSlotViewConfig { sv_drain_interval : N; sv_allow_class_mismatch : bool }.
Definition SlotViewConfig_default : SlotViewConfig := mkSlotViewConfig (from_millis 5) false.
Definition CLASS_MISMATCH_REASON : string := REASON_CLASS_MISMATCH.

(** ** The view

    Waiters are the identities of their oneshot channels. *)
Record ViewState := mkViewState {
  vs_capacity : N;
  vs_reserved : N;
  vs_known : gmap SlotId SlotState;
  vs_waiters : list N;
  vs_worker_class : DeterminismClass;
  vs_busy_integral : N;
  vs_capacity_integral : N;
  vs_last_advance : N
}.

Definition vs_live (v : ViewState) : N :=
  N.min (N.of_nat (size (filter (fun p => p.2 <> Empty) (vs_known v)))) u32_max.
Definition vs_busy (v : ViewState) : N := N.max (vs_reserved v) (vs_live v).
(** Truncated subtraction is [saturating_sub]. *)
Definition vs_free (v : ViewState) : N := vs_capacity v - vs_busy v.

Definition advance_integrals (now : N) (v : ViewState) : ViewState :=
  let dt := (now - vs_last_advance v)%N in
  if (0 <? dt)%N then
    mkViewState (vs_capacity v) (vs_reserved v) (vs_known v) (vs_waiters v) (vs_worker_class v)
      (vs_busy_integral v + dt * N.min (vs_busy v) (vs_capacity v))
      (vs_capacity_integral v + dt * vs_capacity v) now
  else v.

Definition set_reserved (n : N) (v : ViewState) : ViewState :=
  mkViewState (vs_capacity v) n (vs_known v) (vs_waiters v) (vs_worker_class v)
    (vs_busy_integral v) (vs_capacity_integral v) (vs_last_advance v).
Definition set_waiters (ws : list N) (v : ViewState) : ViewState :=
  mkViewState (vs_capacity v) (vs_reserved v) (vs_known v) ws (vs_worker_class v)
    (vs_busy_integral v) (vs_capacity_integral v) (vs_last_advance v).
Definition set_known (cap : N) (known : gmap SlotId SlotState) (v : ViewState) : ViewState :=
  mkViewState cap (vs_reserved v) known (vs_waiters v) (vs_worker_class v)
    (vs_busy_integral v) (vs_capacity_integral v) (vs_last_advance v).

(** Taking a reservation, under the mutex. *)
Definition reserve (now : N) (v : ViewState) : ViewState :=
  let v := advance_integrals now v in set_reserved (vs_reserved v + 1) v.

(** [SlotView::start]: the view seeded from the worker's answers. *)
Definition view_seed (info : GetWorkerInfoResponse) (listed : list SlotInfo) (now : N) : ViewState :=
  mkViewState (wi_slots_total info) 0
    (foldl (fun m s => <[si_slot_id s := si_state s]> m) ∅ listed) [] (wi_class info) 0 0 now.

Definition try_acquire (now : N) (v : ViewState) : bool * ViewState :=
  if (0 <? vs_free v)%N then (true, reserve now v) else (false, v).

(** The locked part of [acquire]: reserve now, or queue behind the others. *)
Definition acquire_locked (now : N) (sender : N) (v : ViewState) : bool * ViewState :=
  if (0 <? vs_free v)%N then (true, reserve now v)
  else (false, set_waiters (vs_waiters v ++ [sender]) v).

(** The locked part of [SlotPermit::drop]. *)
Definition drop_locked (now : N) (v : ViewState) : ViewState :=
  let v := advance_integrals now v in set_reserved (vs_reserved v - 1) v.

(** The two critical sections of an iteration of [wake_free_waiters]. *)
Definition wake_reserve (now : N) (v : ViewState) : option ViewState :=
  if (vs_free v =? 0)%N || bool_decide (vs_waiters v = []) then None else Some (reserve now v).
Definition wake_pop (v : ViewState) : option N * ViewState :=
  match vs_waiters v with
  | [] => (None, v)
  | w :: ws => (Some w, set_waiters ws v)
  end.

(** One round of the drain task: watched transitions, then the capacity when
    the worker answered. *)
Definition drain_locked (now : N) (events : list SlotEvent) (capacity : option N) (v : ViewState) : ViewState :=
  let v := advance_integrals now v in
  let known := foldl (fun m e => <[si_slot_id (ev_slot e) := si_state (ev_slot e)]> m) (vs_known v) events in
  set_known (default (vs_capacity v) capacity) known v.

Definition acquire_class_check (allow_class_mismatch : bool) (required : DeterminismClass) (v : ViewState)
    : res ClientError unit :=
  if negb allow_class_mismatch && negb (bool_decide (required = vs_worker_class v)) then
    Err (mkClientError FailedPrecondition
      (CLASS_MISMATCH_REASON +:+ ": job requires cpu_model=" +:+ dc_cpu_model required +:+
       " vmm=" +:+ dc_vmm_version required +:+ ", worker offers cpu_model=" +:+
       dc_cpu_model (vs_worker_class v) +:+ " vmm=" +:+ dc_vmm_version (vs_worker_class v)))
  else Ok tt.

Record SlotSnapshot := mkSlotSnapshot { ssn_capacity : N; ssn_reserved : N; ssn_live : N; ssn_free : N }.
Definition view_snapshot (v : ViewState) : SlotSnapshot :=
  mkSlotSnapshot (vs_capacity v) (vs_reserved v) (vs_live v) (vs_free v).

Record SlotUtilization := mkSlotUtilization { su_busy : N; su_capacity : N }.
Definition utilization (now : N) (v : ViewState) : SlotUtilization * ViewState :=
  let v := advance_integrals now v in (mkSlotUtilization (vs_busy_integral v) (vs_capacity_integral v), v).

(** ** Tasks sharing the view *)

(** A oneshot channel: the receiver waits, the permit is in it, or the
    receiver is gone. *)
Inductive Chan := Waiting | Delivered | Closed.
Global Instance Chan_eq_dec : EqDecision Chan.
Proof. solve_decision. Defined.

(** Where a thread stands: at the head of the wake loop; holding a permit
    before the pop; holding a permit and the popped sender; about to run the
    destructor of a permit. *)
Inductive frame := FWake | FPop | FSend (w : N) | FDrop.

Record Sys := mkSys {
  sys_view : ViewState;
  sys_chans : gmap N Chan;
  sys_next : N;
  (** permits owned by running jobs *)
  sys_held : nat;
  sys_threads : list (list frame)
}.

Definition sys_start (v : ViewState) : Sys := mkSys v ∅ 0 0 [].
Definition set_view (v : ViewState) (s : Sys) : Sys :=
  mkSys v (sys_chans s) (sys_next s) (sys_held s) (sys_threads s).
Definition spawn (k : list frame) (s : Sys) : Sys :=
  mkSys (sys_view s) (sys_chans s) (sys_next s) (sys_held s) (sys_threads s ++ [k]).
Definition set_held (n : nat) (s : Sys) : Sys :=
  mkSys (sys_view s) (sys_chans s) (sys_next s) n (sys_threads s).
Definition set_chans (m : gmap N Chan) (s : Sys) : Sys :=
  mkSys (sys_view s) m (sys_next s) (sys_held s) (sys_threads s).

(** [wake_free_waiters] and [SlotPermit::drop], one critical section at a time. *)
Definition frame_step (now : N) (f : frame) (k : list frame) (v : ViewState) (chans : gmap N Chan)
    : list frame * ViewState * gmap N Chan :=
  match f with
  | FWake =>
    match wake_reserve now v with
    | None => (k, v, chans)
    | Some v' => (FPop :: k, v', chans)
    end
  | FPop =>
    match wake_pop v with
    | (Some w, v') => (FSend w :: k, v', chans)
    | (None, v') => (FDrop :: k, v', chans)
    end
  | FSend w =>
    if decide (chans !! w = Some Waiting) then (FWake :: k, v, <[w := Delivered]> chans)
    else (FDrop :: FWake :: k, v, chans)
  | FDrop => (FWake :: k, drop_locked now v, chans)
  end.

(** Thread [i] continues with [k]; a finished thread is gone. *)
Definition put_thread (i : nat) (k : list frame) (ts : list (list frame)) : list (list frame) :=
  take i ts ++ (if decide (k = []) then [] else [k]) ++ drop (S i) ts.

Inductive event :=
| EvAcquire (now : N)
| EvTryAcquire (now : N)
| EvReceive (w : N)
| EvCancel (w : N)
| EvRelease
| EvDrain (now : N) (events : list SlotEvent) (capacity : option N)
| EvUtilization (now : N)
| EvThread (i : nat) (now : N).

(** What an event does; [None] when it cannot happen. *)
Definition apply (e : event) (s : Sys) : option Sys :=
  match e with
  | EvAcquire now =>
    match acquire_locked now (sys_next s) (sys_view s) with
    | (true, v) => Some (set_held (S (sys_held s)) (set_view v s))
    | (false, v) =>
      Some (mkSys v (<[sys_next s := Waiting]> (sys_chans s)) (sys_next s + 1) (sys_held s) (sys_threads s))
    end
  | EvTryAcquire now =>
    match try_acquire now (sys_view s) with
    | (true, v) => Some (set_held (S (sys_held s)) (set_view v s))
    | (false, v) => Some (set_view v s)
    end
  | EvReceive w =>
    match sys_chans s !! w with
    | Some Delivered => Some (set_held (S (sys_held s)) (set_chans (delete w (sys_chans s)) s))
    | _ => None
    end
  | EvCancel w =>
    match sys_chans s !! w with
    | Some Waiting => Some (set_chans (<[w := Closed]> (sys_chans s)) s)
    | Some Delivered => Some (spawn [FDrop] (set_chans (delete w (sys_chans s)) s))
    | _ => None
    end
  | EvRelease =>
    match sys_held s with
    | O => None
    | S n => Some (spawn [FDrop] (set_held n s))
    end
  | EvDrain now events capacity =>
    if (default 0 capacity <=? u32_max)%N then
      Some (spawn [FWake] (set_view (drain_locked now events capacity (sys_view s)) s))
    else None
  | EvUtilization now => Some (set_view (snd (utilization now (sys_view s))) s)
  | EvThread i now =>
    match sys_threads s !! i with
    | Some (f :: k) =>
      let '(k', v, m) := frame_step now f k (sys_view s) (sys_chans s) in
      Some (mkSys v m (sys_next s) (sys_held s) (put_thread i k' (sys_threads s)))
    | _ => None
    end
  end.

Definition step (s s' : Sys) : Prop := exists e, apply e s = Some s'.
(** Steps of the threads alone: nobody acquires, cancels, releases or drains. *)
Definition thread_step (s s' : Sys) : Prop := exists i now, apply (EvThread i now) s = Some s'.
Definition slots_reachable (s : Sys) : Prop :=
  exists info listed now, (wi_slots_total info <= u32_max)%N /\
    rtc step (sys_start (view_seed info listed now)) s.

(** ** Channels and frames *)

Definition delivered (m : gmap N Chan) : gset N := dom (filter (fun p => p.2 = Delivered) m).

Definition frame_permits (f : frame) : nat := match f with FWake => 0 | _ => 1 end.
Definition frame_senders (f : frame) : list N := match f with FSend w => [w] | _ => [] end.
Definition permits (ts : list (list frame)) : nat := sum_list_with frame_permits (concat ts).
Definition senders (ts : list (list frame)) : list N := concat (frame_senders <$> concat ts).

Arguments permits : simpl never.
Arguments senders : simpl never.

Lemma elem_of_delivered m w : w ∈ delivered m <-> m !! w = Some Delivered.
Proof.
  unfold delivered. rewrite elem_of_dom. split.
  - intros [c Hc]. apply map_lookup_filter_Some in Hc as [? ?]. naive_solver.
  - intros H. exists Delivered. by apply map_lookup_filter_Some.
Qed.

Lemma delivered_insert_other m w c : c <> Delivered -> m !! w <> Some Delivered ->
  delivered (<[w := c]> m) = delivered m.
Proof.
  intros Hc Hw. apply set_eq. intros x. rewrite !elem_of_delivered, lookup_insert.
  case_decide; naive_solver.
Qed.

Lemma size_delivered_insert m w : m !! w <> Some Delivered ->
  size (delivered (<[w := Delivered]> m)) = S (size (delivered m)).
Proof.
  intros Hw. assert (delivered (<[w := Delivered]> m) = {[w]} ∪ delivered m) as ->.
  { apply set_eq. intros x. rewrite elem_of_union, elem_of_singleton, !elem_of_delivered, lookup_insert.
    case_decide; naive_solver. }
  rewrite size_union, size_singleton; [done|]. rewrite disjoint_singleton_l, elem_of_delivered. done.
Qed.

Lemma size_delivered_delete m w : m !! w = Some Delivered ->
  size (delivered m) = S (size (delivered (delete w m))).
Proof.
  intros Hw. rewrite <- (size_delivered_insert (delete w m) w) by (by rewrite lookup_delete_eq).
  by rewrite insert_delete_id.
Qed.

Lemma concat_put_thread i f k k' ts : ts !! i = Some (f :: k) ->
  exists l r, concat ts = l ++ f :: k ++ r /\ concat (put_thread i k' ts) = l ++ k' ++ r.
Proof.
  intros Hi. exists (concat (take i ts)), (concat (drop (S i) ts)). split.
  - rewrite <- (take_drop_middle ts i _ Hi) at 1. by rewrite concat_app.
  - unfold put_thread. rewrite !concat_app. do 2 f_equal. case_decide; [by subst|]. cbn. by rewrite app_nil_r.
Qed.

Lemma put_thread_nonempty i k ts : Forall (fun k => k <> []) ts -> Forall (fun k => k <> []) (put_thread i k ts).
Proof.
  intros H. unfold put_thread. rewrite !Forall_app. split_and!.
  - by apply Forall_take.
  - case_decide; by repeat constructor.
  - by apply Forall_drop.
Qed.

(** ** Arithmetic of the view *)

Lemma advance_frame now v : let v' := advance_integrals now v in
  vs_capacity v' = vs_capacity v /\ vs_reserved v' = vs_reserved v /\ vs_known v' = vs_known v /\
  vs_waiters v' = vs_waiters v /\ vs_worker_class v' = vs_worker_class v.
Proof. unfold advance_integrals. case_match; by split_and!. Qed.

Lemma advance_capacity now v : vs_capacity (advance_integrals now v) = vs_capacity v.
Proof. apply advance_frame. Qed.
Lemma advance_reserved now v : vs_reserved (advance_integrals now v) = vs_reserved v.
Proof. apply advance_frame. Qed.
Lemma advance_known now v : vs_known (advance_integrals now v) = vs_known v.
Proof. apply advance_frame. Qed.
Lemma advance_waiters now v : vs_waiters (advance_integrals now v) = vs_waiters v.
Proof. apply advance_frame. Qed.

Lemma advance_free now v : vs_free (advance_integrals now v) = vs_free v.
Proof.
  unfold vs_free, vs_busy, vs_live. by rewrite advance_capacity, advance_reserved, advance_known.
Qed.

Create Rewrite HintDb slots.
#[export] Hint Rewrite advance_capacity advance_reserved advance_known advance_waiters advance_free : slots.

(** Busy time never exceeds capacity time. *)
Definition integrals_ok (v : ViewState) : Prop := (vs_busy_integral v <= vs_capacity_integral v)%N.

Lemma advance_integrals_ok now v : integrals_ok v -> integrals_ok (advance_integrals now v).
Proof.
  unfold integrals_ok, advance_integrals. case_match; [|done]. cbn. intros H'.
  apply N.add_le_mono; [done|]. apply N.mul_le_mono_l. apply N.le_min_r.
Qed.
#[export] Hint Resolve advance_integrals_ok : orch.

(** ** The invariant *)

Record sys_inv (s : Sys) : Prop := {
  (** every reservation is owned: by a job, in a channel, or by a thread *)
  inv_owned : vs_reserved (sys_view s) =
    N.of_nat (sys_held s + size (delivered (sys_chans s)) + permits (sys_threads s));
  inv_bounds : (vs_reserved (sys_view s) <= u32_max)%N /\ (vs_capacity (sys_view s) <= u32_max)%N;
  (** a free slot with somebody queued is being handed out *)
  inv_wake : (0 < vs_free (sys_view s))%N -> vs_waiters (sys_view s) <> [] -> sys_threads s <> [];
  inv_threads : Forall (fun k => k <> []) (sys_threads s);
  (** the queue is in order of arrival; whoever left it served is older *)
  inv_fifo : StronglySorted N.lt (vs_waiters (sys_view s));
  inv_arrived : forall w, w ∈ vs_waiters (sys_view s) -> (w < sys_next s)%N;
  inv_older : forall w q, w ∈ senders (sys_threads s) \/ sys_chans s !! w = Some Delivered ->
    q ∈ vs_waiters (sys_view s) -> (w < q)%N;
  inv_queued : forall w, w ∈ vs_waiters (sys_view s) ->
    sys_chans s !! w = Some Waiting \/ sys_chans s !! w = Some Closed;
  inv_fresh : forall w, is_Some (sys_chans s !! w) -> (w < sys_next s)%N;
  (** a waiting receiver is queued or its sender is in a thread's hands *)
  inv_waiting : forall w, sys_chans s !! w = Some Waiting ->
    w ∈ vs_waiters (sys_view s) \/ w ∈ senders (sys_threads s);
  inv_senders : NoDup (senders (sys_threads s));
  inv_sending : forall w, w ∈ senders (sys_threads s) ->
    sys_chans s !! w = Some Waiting \/ sys_chans s !! w = Some Closed;
  inv_integrals : integrals_ok (sys_view s)
}.

Lemma put_thread_permits i f k k' ts : ts !! i = Some (f :: k) ->
  (permits (put_thread i k' ts) + frame_permits f + sum_list_with frame_permits k =
   permits ts + sum_list_with frame_permits k')%nat.
Proof.
  intros (l & r & Ht & Hp)%(concat_put_thread _ _ _ k'). unfold permits. rewrite Ht, Hp.
  repeat (rewrite sum_list_with_app; cbn). lia.
Qed.

Lemma put_thread_senders i f k k' ts : ts !! i = Some (f :: k) ->
  exists rest, senders ts ≡ₚ frame_senders f ++ concat (frame_senders <$> k) ++ rest /\
    senders (put_thread i k' ts) ≡ₚ concat (frame_senders <$> k') ++ rest.
Proof.
  intros (l & r & Ht & Hp)%(concat_put_thread _ _ _ k').
  exists (concat (frame_senders <$> l) ++ concat (frame_senders <$> r)).
  unfold senders. rewrite Ht, Hp, !fmap_app, !concat_app. cbn. rewrite fmap_app, concat_app. split; solve_Permutation.
Qed.

Lemma put_thread_alive i k ts : k <> [] -> put_thread i k ts <> [].
Proof. intros Hk. unfold put_thread. rewrite decide_False by done. by destruct (take i ts). Qed.

Lemma reserve_free_le now v : (vs_free (reserve now v) <= vs_free v)%N.
Proof. unfold reserve, vs_free, vs_busy, vs_live. cbn. autorewrite with slots. lia. Qed.

Lemma free_room v : (0 < vs_free v)%N -> (vs_reserved v < vs_capacity v)%N.
Proof. unfold vs_free, vs_busy. lia. Qed.

(** The view changes, its queue and its reservations do not. *)
Lemma inv_view s v : sys_inv s -> vs_reserved v = vs_reserved (sys_view s) ->
  vs_waiters v = vs_waiters (sys_view s) -> (vs_capacity v <= u32_max)%N -> integrals_ok v ->
  ((0 < vs_free v)%N -> vs_waiters v <> [] -> sys_threads s <> []) -> sys_inv (set_view v s).
Proof.
  intros [] Hr Hw Hc Hi Hf. constructor; cbn in *; rewrite ?Hr, ?Hw in *; naive_solver.
Qed.

(** A reservation taken on the fast path. *)
Lemma inv_grant s now : sys_inv s -> (0 < vs_free (sys_view s))%N ->
  sys_inv (set_held (S (sys_held s)) (set_view (reserve now (sys_view s)) s)).
Proof.
  intros [] Hf. pose proof (free_room _ Hf). pose proof (reserve_free_le now (sys_view s)).
  constructor; cbn [sys_view sys_chans sys_held sys_threads set_held set_view sys_next] in *;
    cbn [reserve set_reserved vs_reserved vs_capacity vs_waiters]; autorewrite with slots; try done.
  - rewrite inv_owned0. lia.
  - lia.
  - intros ? ?. apply inv_wake0; [lia|done].
  - by apply advance_integrals_ok.
Qed.

Lemma spawn_threads k s : sys_threads (spawn k s) = sys_threads s ++ [k].
Proof. done. Qed.

Lemma permits_snoc k ts : permits (ts ++ [k]) = (permits ts + sum_list_with frame_permits k)%nat.
Proof. unfold permits. rewrite concat_app, sum_list_with_app. cbn. by rewrite app_nil_r. Qed.

Lemma senders_snoc k ts : senders (ts ++ [k]) = senders ts ++ concat (frame_senders <$> k).
Proof. unfold senders. rewrite concat_app, fmap_app, concat_app. cbn. by rewrite app_nil_r. Qed.
#[export] Hint Rewrite permits_snoc senders_snoc : slots.

(** A new thread that owns [n] permits it takes from [s]. *)
Lemma inv_spawn s s0 f : sys_inv s0 -> f = FWake \/ f = FDrop ->
  sys_next s = sys_next s0 -> sys_threads s = sys_threads s0 ->
  vs_reserved (sys_view s) = vs_reserved (sys_view s0) ->
  vs_waiters (sys_view s) = vs_waiters (sys_view s0) -> (vs_capacity (sys_view s) <= u32_max)%N ->
  integrals_ok (sys_view s) ->
  (frame_permits f + sys_held s + size (delivered (sys_chans s)) =
   sys_held s0 + size (delivered (sys_chans s0)))%nat ->
  (forall w, sys_chans s !! w = sys_chans s0 !! w \/
     sys_chans s !! w = None /\ sys_chans s0 !! w = Some Delivered) -> sys_inv (spawn [f] s).
Proof.
  intros [] Hf Hn Ht Hr Hw Hc Hi Hp Hm.
  assert (frame_senders f = []) as Hs by (destruct Hf; by subst).
  assert (forall w c, sys_chans s !! w = Some c -> sys_chans s0 !! w = Some c) as Hm1.
  { intros w c E. destruct (Hm w) as [<-|[E' _]]; congruence. }
  assert (forall w c, c <> Delivered -> sys_chans s0 !! w = Some c -> sys_chans s !! w = Some c) as Hm2.
  { intros w c Hd E. destruct (Hm w) as [->|[_ E']]; congruence. }
  constructor; cbn [sys_view sys_chans sys_held sys_threads spawn sys_next] in *; rewrite ?Ht, ?Hn, ?Hr, ?Hw;
    autorewrite with slots; cbn [fmap list_fmap concat sum_list_with]; rewrite ?Hs, ?app_nil_r; try done.
  - rewrite inv_owned0. lia.
  - lia.
  - intros _ _ E. by apply app_eq_nil in E as [_ ?].
  - rewrite Forall_app. split; [done|]. by repeat constructor.
  - naive_solver.
  - intros w Hq. destruct (inv_queued0 w Hq); [left|right]; by apply Hm2.
  - intros w [c Hc']. apply inv_fresh0. eauto.
  - intros w E. apply inv_waiting0. by apply Hm1.
  - intros w Hq. destruct (inv_sending0 w Hq); [left|right]; by apply Hm2.
Qed.

Lemma inv_enqueue s : sys_inv s -> vs_free (sys_view s) = 0%N ->
  sys_inv (mkSys (set_waiters (vs_waiters (sys_view s) ++ [sys_next s]) (sys_view s))
    (<[sys_next s := Waiting]> (sys_chans s)) (sys_next s + 1) (sys_held s) (sys_threads s)).
Proof.
  intros [] Hf. assert (sys_chans s !! sys_next s = None) as Hnew.
  { destruct (sys_chans s !! sys_next s) eqn:E; [|done].
    specialize (inv_fresh0 (sys_next s) ltac:(eauto)). lia. }
  constructor; cbn [sys_view sys_chans sys_held sys_threads sys_next set_waiters vs_waiters vs_reserved
    vs_capacity] in *; try done.
  - by rewrite delivered_insert_other by (rewrite ?Hnew; done).
  - unfold vs_free, vs_busy, vs_live in *. cbn. lia.
  - apply StronglySorted_app. split_and!; [|done|by repeat constructor].
    intros x y Hx ->%list_elem_of_singleton. auto.
  - intros w [Hw| ->%list_elem_of_singleton]%elem_of_app; [|lia]. specialize (inv_arrived0 w Hw). lia.
  - intros w q Hw Hq. rewrite lookup_insert_Some in Hw.
    assert (w ∈ senders (sys_threads s) \/ sys_chans s !! w = Some Delivered) as Hw' by naive_solver.
    apply elem_of_app in Hq as [Hq| ->%list_elem_of_singleton]; [eauto|].
    destruct Hw' as [Hw'|Hw']; apply inv_fresh0; [|eauto]. destruct (inv_sending0 w Hw'); eauto.
  - intros w [Hw| ->%list_elem_of_singleton]%elem_of_app; rewrite lookup_insert; case_decide; naive_solver.
  - intros w. rewrite lookup_insert. case_decide; [lia|]. intros H'%inv_fresh0. lia.
  - intros w. rewrite lookup_insert, elem_of_app, list_elem_of_singleton. case_decide; naive_solver.
  - intros w Hw. rewrite lookup_insert. case_decide; auto.
Qed.

Lemma inv_receive s w : sys_inv s -> sys_chans s !! w = Some Delivered ->
  sys_inv (set_held (S (sys_held s)) (set_chans (delete w (sys_chans s)) s)).
Proof.
  intros [] Hw. constructor; cbn [sys_view sys_chans sys_held sys_threads sys_next set_held set_chans]; try done.
  - rewrite inv_owned0, (size_delivered_delete _ _ Hw). lia.
  - intros x q. rewrite lookup_delete_Some. naive_solver.
  - intros q Hq. assert (w <> q) by (intros ->; destruct (inv_queued0 q Hq); congruence).
    rewrite lookup_delete_ne by done. auto.
  - intros x [c [_ Hc]%lookup_delete_Some]. eauto.
  - intros x [_ Hc]%lookup_delete_Some. auto.
  - intros q Hq. assert (w <> q) by (intros ->; destruct (inv_sending0 q Hq); congruence).
    rewrite lookup_delete_ne by done. auto.
Qed.

(** The acquirer gives up before it is served. *)
Lemma inv_close s w : sys_inv s -> sys_chans s !! w = Some Waiting ->
  sys_inv (set_chans (<[w := Closed]> (sys_chans s)) s).
Proof.
  intros [] Hw. constructor; cbn [sys_view sys_chans sys_held sys_threads sys_next set_chans]; try done.
  - by rewrite delivered_insert_other by congruence.
  - intros x q. rewrite lookup_insert_Some. naive_solver.
  - intros q Hq. rewrite lookup_insert. case_decide; auto.
  - intros x. rewrite lookup_insert_is_Some'. intros [->|]; eauto.
  - intros x. rewrite lookup_insert_Some. naive_solver.
  - intros q Hq. rewrite lookup_insert. case_decide; auto.
Qed.

(** What thread [i] does when it goes from [f :: k] to [k'], the rest of its
    effect being on the view and the channels. *)
Lemma inv_thread s i f k k' v m : sys_inv s -> sys_threads s !! i = Some (f :: k) ->
  (frame_permits f + sum_list_with frame_permits k + size (delivered (sys_chans s)) +
     N.to_nat (vs_reserved v) =
   sum_list_with frame_permits k' + size (delivered m) + N.to_nat (vs_reserved (sys_view s)))%nat ->
  (vs_reserved v <= u32_max)%N -> vs_capacity v = vs_capacity (sys_view s) -> integrals_ok v ->
  ((0 < vs_free v)%N -> vs_waiters v <> [] -> k' <> []) ->
  (forall rest, NoDup (frame_senders f ++ concat (frame_senders <$> k) ++ rest) ->
     (forall w q, w ∈ frame_senders f ++ concat (frame_senders <$> k) ++ rest ->
        q ∈ vs_waiters (sys_view s) -> (w < q)%N) ->
     NoDup (concat (frame_senders <$> k') ++ rest) /\
     StronglySorted N.lt (vs_waiters v) /\
     (forall q, q ∈ vs_waiters v -> q ∈ vs_waiters (sys_view s)) /\
     (forall w q, w ∈ concat (frame_senders <$> k') ++ rest \/ m !! w = Some Delivered ->
        q ∈ vs_waiters v -> (w < q)%N) /\
     (forall w, w ∈ vs_waiters v \/ w ∈ concat (frame_senders <$> k') ++ rest -> m !! w = sys_chans s !! w) /\
     (forall w, w ∈ concat (frame_senders <$> k') ++ rest ->
        w ∈ frame_senders f ++ concat (frame_senders <$> k) ++ rest \/ w ∈ vs_waiters (sys_view s)) /\
     (forall w, is_Some (m !! w) -> is_Some (sys_chans s !! w)) /\
     (forall w, m !! w = Some Waiting -> sys_chans s !! w = Some Waiting /\
        (w ∈ vs_waiters (sys_view s) \/ w ∈ frame_senders f ++ concat (frame_senders <$> k) ++ rest ->
         w ∈ vs_waiters v \/ w ∈ concat (frame_senders <$> k') ++ rest))) ->
  sys_inv (mkSys v m (sys_next s) (sys_held s) (put_thread i k' (sys_threads s))).
Proof.
  intros [] Hi Hp Hr Hc Hint Hw Hrest. pose proof (put_thread_permits i f k k' _ Hi) as Hpt.
  destruct (put_thread_senders i f k k' _ Hi) as (rest & Hs & Hs').
  destruct (Hrest rest) as (H1 & H2 & H3 & H4 & H5 & H6 & H7 & H8).
  { by rewrite <- Hs. }
  { intros w q Hw' Hq. apply inv_older0; [|done]. left. by rewrite Hs. }
  constructor; cbn [sys_view sys_chans sys_held sys_threads sys_next]; try done.
  - lia.
  - split; [done|]. rewrite Hc. lia.
  - intros Hf Hq. apply put_thread_alive. auto.
  - by apply put_thread_nonempty.
  - auto.
  - intros w q. rewrite Hs'. apply H4.
  - intros w Hq. rewrite H5 by auto. auto.
  - intros w E%H7. auto.
  - intros w E. rewrite Hs'. destruct (H8 w E) as [E' Hk]. apply Hk. rewrite <- Hs. auto.
  - by rewrite Hs'.
  - intros w. rewrite Hs'. intros Hq. rewrite H5 by auto. destruct (H6 w Hq) as [Ho|Ho]; [|by auto].
    apply inv_sending0. by rewrite Hs.
Qed.

Lemma wake_reserve_None now v : wake_reserve now v = None -> vs_free v = 0%N \/ vs_waiters v = [].
Proof.
  unfold wake_reserve. destruct (N.eqb_spec (vs_free v) 0); [auto|]. cbn. case_bool_decide; [auto|done].
Qed.

Lemma wake_reserve_Some now v v' : wake_reserve now v = Some v' ->
  (0 < vs_free v)%N /\ vs_waiters v <> [] /\ v' = reserve now v.
Proof.
  unfold wake_reserve. destruct (N.eqb_spec (vs_free v) 0); [done|]. cbn. case_bool_decide; [done|].
  intros [= <-]. split_and!; [lia|done|done].
Qed.

Lemma inv_frame_step s i now f k : sys_inv s -> sys_threads s !! i = Some (f :: k) ->
  let '(k', v, m) := frame_step now f k (sys_view s) (sys_chans s) in
  sys_inv (mkSys v m (sys_next s) (sys_held s) (put_thread i k' (sys_threads s))).
Proof.
  intros Hinv Hi. pose proof Hinv as [Hown Hb _ _ Hsort _ Hold Hqd _ _ _ Hsd Hio].
  destruct f as [| |w|]; cbn [frame_step].
  - destruct (wake_reserve now (sys_view s)) as [v'|] eqn:Hw.
    + apply wake_reserve_Some in Hw as (Hf & Hq & ->). pose proof (free_room _ Hf).
      apply (inv_thread _ _ _ _ _ _ _ Hinv Hi); cbn [reserve set_reserved vs_reserved vs_capacity vs_waiters];
        autorewrite with slots; cbn; try done; [lia|lia|by apply advance_integrals_ok|].
      intros rest Hnd Holder. split_and!; naive_solver.
    + apply wake_reserve_None in Hw.
      apply (inv_thread _ _ _ _ _ _ _ Hinv Hi); cbn; try done; [lia|intros; destruct Hw; [lia|done]|].
      intros rest Hnd Holder. split_and!; naive_solver.
  - unfold wake_pop. destruct (vs_waiters (sys_view s)) as [|w ws] eqn:Hws.
    + apply (inv_thread _ _ _ _ _ _ _ Hinv Hi); cbn; try done; [lia|].
      intros rest Hnd Holder. rewrite Hws in *. split_and!; naive_solver.
    + apply StronglySorted_cons in Hsort as [Hlt Hsort]. rewrite Forall_forall in Hlt.
      apply (inv_thread _ _ _ _ _ _ _ Hinv Hi); cbn; try done; [lia|].
      intros rest Hnd Holder. rewrite Hws in *. setoid_rewrite elem_of_cons. setoid_rewrite elem_of_cons in Holder.
      split_and!; [|done|by right| |done|by intros x [->|]; auto|done|by intros x ?; split; [|intros [[]|]; auto]].
      * constructor; [|done]. intros Hin. specialize (Holder w w Hin ltac:(auto)). lia.
      * intros x q [[->|Hx]|Hx] Hq; [by apply Hlt|eauto|]. apply Hold; [by right|]. by right.
  - case_decide as Hd.
    + apply (inv_thread _ _ _ _ _ _ _ Hinv Hi); cbn; try done.
      { rewrite size_delivered_insert by (rewrite Hd; done). lia. }
      { lia. }
      intros rest Hnd Holder. apply NoDup_cons in Hnd as [Hni Hnd].
      setoid_rewrite lookup_insert_Some. setoid_rewrite elem_of_cons in Holder. setoid_rewrite elem_of_cons.
      split_and!; [done|done|done| | |by auto| |].
      * intros x q [Hx|[[<- _]|[_ Hx]]] Hq; eauto.
      * intros x Hx. rewrite lookup_insert_ne; [done|]. intros ->. destruct Hx as [Hx|Hx]; [|done].
        specialize (Holder x x ltac:(by left) Hx). lia.
      * intros x [y Hy]. apply lookup_insert_Some in Hy as [[<- _]|[_ Hy]]; eauto.
      * intros x [[_ ?]|[Hne Hx]]; [done|]. split; [done|]. intros [|[|]]; auto. congruence.
    + apply (inv_thread _ _ _ _ _ _ _ Hinv Hi); cbn; try done; [lia|].
      intros rest Hnd Holder. apply NoDup_cons in Hnd as [Hni Hnd].
      setoid_rewrite elem_of_cons in Holder. setoid_rewrite elem_of_cons. split_and!; naive_solver.
  - apply (inv_thread _ _ _ _ _ _ _ Hinv Hi); cbn [drop_locked set_reserved vs_reserved vs_capacity vs_waiters];
      autorewrite with slots; cbn; try done; [|lia|by apply advance_integrals_ok|].
    + pose proof (put_thread_permits i FDrop k [] _ Hi) as Hp. cbn in Hp. lia.
    + intros rest Hnd Holder. split_and!; naive_solver.
Qed.

Lemma start_inv info listed now : (wi_slots_total info <= u32_max)%N ->
  sys_inv (sys_start (view_seed info listed now)).
Proof.
  intros Hc. constructor; cbn [sys_start view_seed sys_view sys_chans sys_held sys_threads sys_next vs_reserved
    vs_capacity vs_waiters]; try done; try (by constructor); try (by intros w ?%elem_of_nil).
  - by intros w q _ ?%elem_of_nil.
  - by intros w [c ?%lookup_empty_Some].
Qed.

Lemma inv_apply e s s' : sys_inv s -> apply e s = Some s' -> sys_inv s'.
Proof.
  intros Hinv. pose proof Hinv as [Hown Hb Hwk _ _ _ Hold Hqd Hfr Hwt _ Hsd Hio].
  destruct e as [now|now|w|w| |now events cap|now|i now]; cbn [apply].
  - unfold acquire_locked. destruct (N.ltb_spec 0 (vs_free (sys_view s))) as [Hf|Hf]; intros [= <-].
    + by apply inv_grant.
    + apply inv_enqueue; [done|lia].
  - unfold try_acquire. destruct (N.ltb_spec 0 (vs_free (sys_view s))) as [Hf|Hf]; intros [= <-].
    + by apply inv_grant.
    + by apply inv_view; try done; apply Hb.
  - destruct (sys_chans s !! w) as [[]|] eqn:Hw; try done. intros [= <-]. by apply inv_receive.
  - destruct (sys_chans s !! w) as [[]|] eqn:Hw; try done; intros [= <-]; [by apply inv_close|].
    apply (inv_spawn _ s); try done; [by right|apply Hb| |].
    + cbn. rewrite (size_delivered_delete _ _ Hw). lia.
    + intros x. cbn. rewrite lookup_delete. case_decide; naive_solver.
  - destruct (sys_held s) as [|n] eqn:Hh; [done|]. intros [= <-].
    apply (inv_spawn _ s); try done; [by right|apply Hb|cbn; lia|auto].
  - destruct (N.leb_spec (default 0%N cap) u32_max) as [Hc|]; [|done]. intros [= <-].
    apply (inv_spawn _ s); try done; cbn; autorewrite with slots; try done; [by left| | |auto].
    + destruct cap; cbn in *; [done|apply Hb].
    + unfold integrals_ok. cbn. by apply advance_integrals_ok.
  - intros [= <-]. apply inv_view; cbn; autorewrite with slots; try done; [apply Hb|by apply advance_integrals_ok].
  - destruct (sys_threads s !! i) as [[|f k]|] eqn:Hi; try done.
    pose proof (inv_frame_step s i now f k Hinv Hi) as H.
    destruct (frame_step now f k (sys_view s) (sys_chans s)) as [[k' v] m]. intros [= <-]. exact H.
Qed.

Lemma reachable_inv s : slots_reachable s -> sys_inv s.
Proof.
  intros (info & listed & now & Hc & Hs). pose proof (start_inv info listed now Hc) as H0.
  induction Hs as [s|s s1 s' [e He] _ IH]; [done|]. apply IH. by eapply inv_apply.
Qed.

(** ** Waking terminates *)

Definition frame_weight (queue_empty : bool) (f : frame) : nat :=
  match f with
  | FWake => if queue_empty then 1 else 2
  | FPop => if queue_empty then 3 else 1
  | FSend _ => if queue_empty then 4 else 6
  | FDrop => if queue_empty then 2 else 3
  end.
Definition weight (s : Sys) : nat :=
  sum_list_with (frame_weight (bool_decide (vs_waiters (sys_view s) = []))) (concat (sys_threads s)).

Lemma put_thread_weight b i f k k' ts : ts !! i = Some (f :: k) ->
  (sum_list_with (frame_weight b) (concat (put_thread i k' ts)) + frame_weight b f +
     sum_list_with (frame_weight b) k =
   sum_list_with (frame_weight b) (concat ts) + sum_list_with (frame_weight b) k')%nat.
Proof.
  intros (l & r & Ht & Hp)%(concat_put_thread _ _ _ k'). rewrite Ht, Hp.
  repeat (rewrite sum_list_with_app; cbn). lia.
Qed.

(** A step of a thread pops a waiter, or leaves the queue and lowers the weight. *)
Lemma thread_step_decreases s s' : thread_step s s' ->
  (length (vs_waiters (sys_view s')) < length (vs_waiters (sys_view s)))%nat \/
  vs_waiters (sys_view s') = vs_waiters (sys_view s) /\ (weight s' < weight s)%nat.
Proof.
  intros (i & now & H). cbn in H. destruct (sys_threads s !! i) as [[|f k]|] eqn:Hi; try done.
  destruct (frame_step now f k (sys_view s) (sys_chans s)) as [[k' v] m] eqn:Hf. injection H as <-.
  unfold weight. cbn [sys_view sys_threads].
  set (b := bool_decide (vs_waiters (sys_view s) = [])).
  pose proof (put_thread_weight b i f k k' _ Hi) as Hw.
  enough ((length (vs_waiters v) < length (vs_waiters (sys_view s)))%nat \/
    vs_waiters v = vs_waiters (sys_view s) /\
    (sum_list_with (frame_weight b) k' < frame_weight b f + sum_list_with (frame_weight b) k)%nat) as [|[E ?]].
  { by left. }
  { right. split; [done|]. rewrite E. fold b. lia. }
  clear Hw. destruct f as [| |w|]; cbn in Hf.
  - destruct (wake_reserve now (sys_view s)) as [v'|] eqn:Hr; simplify_eq; right.
    + apply wake_reserve_Some in Hr as (_ & Hq & ->). cbn. rewrite advance_waiters. split; [done|].
      unfold b. rewrite bool_decide_false by done. cbn. lia.
    + split; [done|]. cbn. destruct b; lia.
  - unfold wake_pop in Hf. destruct (vs_waiters (sys_view s)) eqn:Hq; simplify_eq; [right|left; cbn; lia].
    split; [done|]. cbn. lia.
  - right. case_decide; simplify_eq; cbn; (split; [done|]); destruct b; lia.
  - simplify_eq. right. cbn. rewrite advance_waiters. split; [done|]. destruct b; lia.
Qed.

Lemma thread_step_wf s : Acc (flip thread_step) s.
Proof.
  remember (length (vs_waiters (sys_view s))) as n eqn:Hn. revert s Hn.
  induction (lt_wf n) as [n _ IHn]. intros s Hn. remember (weight s) as m eqn:Hm. revert s Hn Hm.
  induction (lt_wf m) as [m _ IHm]. intros s Hn Hm. constructor. intros s' Hs'.
  apply thread_step_decreases in Hs' as [Hl|[E Hl]].
  - eapply IHn; [|done]. lia.
  - eapply IHm; [|by rewrite E|done]. lia.
Qed.

Lemma thread_progress s : Forall (fun k => k <> []) (sys_threads s) -> sys_threads s <> [] ->
  exists s', thread_step s s'.
Proof.
  destruct (sys_threads s) as [|[|f k] ts] eqn:Ht; [done|by intros [? _]%Forall_cons|]. intros _ _.
  unfold thread_step. cbn. setoid_rewrite Ht.
  destruct (frame_step 0 f k (sys_view s) (sys_chans s)) as [[k' v] m] eqn:Hf.
  eexists _, 0%nat, 0%N. cbn. by rewrite Hf.
Qed.

Lemma thread_steps_inv s s' : sys_inv s -> rtc thread_step s s' -> sys_inv s'.
Proof.
  intros Hs H. induction H as [s|s s1 s' (i & now & He) _ IH]; [done|]. apply IH. by eapply inv_apply.
Qed.

Lemma threads_finish s : sys_inv s -> exists s', rtc thread_step s s' /\ sys_threads s' = [].
Proof.
  intros Hs. induction (thread_step_wf s) as [s _ IH].
  destruct (decide (sys_threads s = [])) as [E|E]; [by exists s|].
  destruct (thread_progress s) as [s1 H1]; [apply Hs|done|].
  destruct (IH s1 H1) as (s' & Hs' & E'); [destruct H1 as (i & now & He); by eapply inv_apply|].
  exists s'. split; [by eapply rtc_l|done].
Qed.

(** ** Waking without interference *)

(** One thread alone, at one instant. *)
Definition alone (now : N) (c c' : list frame * ViewState * gmap N Chan) : Prop :=
  match c with
  | (f :: k, v, m) => frame_step now f k v m = c'
  | _ => False
  end.

(** Reference: hand out free slots in order of arrival, passing over the
    receivers that are gone. *)
Fixpoint serve (capacity live reserved : N) (ws : list N) (m : gmap N Chan) : N * list N * gmap N Chan :=
  match ws with
  | [] => (reserved, [], m)
  | w :: ws' =>
    if (capacity - N.max reserved live =? 0)%N then (reserved, ws, m)
    else if decide (m !! w = Some Waiting) then serve capacity live (reserved + 1) ws' (<[w := Delivered]> m)
    else serve capacity live reserved ws' m
  end.

Lemma wake_alone_runs now ws : forall v m k, vs_waiters v = ws -> exists v' m',
  rtc (alone now) (FWake :: k, v, m) (k, v', m') /\
  (vs_reserved v', vs_waiters v', m') = serve (vs_capacity v) (vs_live v) (vs_reserved v) ws m /\
  vs_capacity v' = vs_capacity v /\ vs_known v' = vs_known v /\
  (vs_free v' = 0%N \/ vs_waiters v' = []).
Proof.
  induction ws as [|w ws IH]; intros v m k Hw.
  - exists v, m. split_and!; [|by cbn; rewrite Hw|done|done|by right].
    apply rtc_once. cbn. unfold wake_reserve. by rewrite Hw, bool_decide_true, orb_true_r by done.
  - cbn [serve]. fold (vs_busy v). fold (vs_free v). destruct (N.eqb_spec (vs_free v) 0) as [Hf|Hf].
    { exists v, m. split_and!; [|by rewrite Hw|done|done|by left]. apply rtc_once. cbn.
      unfold wake_reserve. by rewrite Hf. }
    set (v1 := set_waiters ws (reserve now v)).
    assert (rtc (alone now) (FWake :: k, v, m) (FSend w :: k, v1, m)) as Hstart.
    { eapply rtc_l; [cbn; unfold wake_reserve; rewrite (proj2 (N.eqb_neq _ _) Hf), bool_decide_false by congruence; done|].
      apply rtc_once. cbn. unfold wake_pop. cbn. by rewrite advance_waiters, Hw. }
    assert (vs_capacity v1 = vs_capacity v /\ vs_known v1 = vs_known v /\ vs_live v1 = vs_live v) as (E1 & E2 & E3)
      by (unfold vs_live; cbn; autorewrite with slots; done).
    case_decide as Hd.
    + destruct (IH v1 (<[w := Delivered]> m) k eq_refl) as (v' & m' & Hr & Hsv & Hc & Hk & He).
      exists v', m'. split_and!; [|rewrite Hsv, E1, E3; cbn; by rewrite advance_reserved|congruence|congruence|done].
      etransitivity; [exact Hstart|]. eapply rtc_l; [|exact Hr]. cbn. by rewrite decide_True.
    + set (v2 := drop_locked now v1).
      destruct (IH v2 m (FWake :: k)) as (v' & m' & Hr & Hsv & Hc & Hk & He).
      { unfold v2. cbn. by rewrite advance_waiters. }
      assert (vs_capacity v2 = vs_capacity v /\ vs_known v2 = vs_known v /\ vs_live v2 = vs_live v /\
              vs_reserved v2 = vs_reserved v) as (F1 & F2 & F3 & F4).
      { unfold v2, vs_live. cbn. autorewrite with slots. cbn. autorewrite with slots. split_and!; try done. lia. }
      exists v', m'. split_and!; [|by rewrite Hsv, F1, F3, F4|congruence|congruence|done].
      etransitivity; [exact Hstart|]. eapply rtc_l; [cbn; by rewrite decide_False|].
      eapply rtc_l; [done|]. fold v2. etransitivity; [exact Hr|]. apply rtc_once. cbn.
      unfold wake_reserve. destruct He as [->|E]; [done|].
      by rewrite E, bool_decide_true, orb_true_r by done.
Qed.

(** ** Properties *)

(** C21. No permit is lost or counted twice: in every reachable interleaving
    the reservations of the view are exactly the permits owned by jobs, lying
    in a channel or held by a waking thread, so the subtraction of a
    destructor never saturates and the counter never overflows; and the busy
    time accumulated never exceeds the capacity time, so that the utilization
    is at most one. *)
Theorem slots_every_permit_owned (s : Sys) (now : N) : slots_reachable s ->
  vs_reserved (sys_view s) =
    N.of_nat (sys_held s + size (delivered (sys_chans s)) + permits (sys_threads s)) /\
  (vs_reserved (sys_view s) <= u32_max)%N /\
  (forall i k, sys_threads s !! i = Some (FDrop :: k) -> (0 < vs_reserved (sys_view s))%N) /\
  (su_busy (utilization now (sys_view s)).1 <= su_capacity (utilization now (sys_view s)).1)%N.
Proof.
  intros [Hown Hb _ _ _ _ _ _ _ _ _ _ Hi]%reachable_inv. split_and!; [done|apply Hb| |].
  - intros i k Hk. pose proof (put_thread_permits i FDrop k [] _ Hk). cbn in *. lia.
  - cbn. by apply advance_integrals_ok.
Qed.

(** C22. No wakeup is lost.  From any reachable state the threads that are
    waking or releasing finish, however they interleave (no infinite run of
    their steps exists, and one is possible as long as a thread is left); and
    once they have, an acquirer that still waits is queued while no slot is
    free. *)
Theorem slots_wake_completes (s : Sys) : slots_reachable s ->
  Acc (flip thread_step) s /\
  (exists s', rtc thread_step s s' /\ sys_threads s' = []) /\
  (forall s', rtc thread_step s s' -> (forall s'', ~ thread_step s' s'') ->
     sys_threads s' = [] /\
     forall w, sys_chans s' !! w = Some Waiting -> w ∈ vs_waiters (sys_view s') /\ vs_free (sys_view s') = 0%N).
Proof.
  intros Hs%reachable_inv. split; [apply thread_step_wf|]. split; [by apply threads_finish|].
  intros s' Hr Hstuck. pose proof (thread_steps_inv _ _ Hs Hr) as [_ _ Hwk Hth _ _ _ _ _ Hwt _ _ _].
  assert (sys_threads s' = []) as E.
  { destruct (decide (sys_threads s' = [])) as [|E]; [done|].
    destruct (thread_progress s' Hth E) as [s'' H]. by destruct (Hstuck s''). }
  split; [done|]. intros w Hw. destruct (Hwt w Hw) as [Hq|Hq].
  - split; [done|]. destruct (N.eq_0_gt_0_cases (vs_free (sys_view s'))) as [|Hf]; [done|].
    destruct (Hwk Hf); [|done]. by intros E'; rewrite E' in Hq; apply elem_of_nil in Hq.
  - rewrite E in Hq. by apply elem_of_nil in Hq.
Qed.

(** Waiters are served in order of arrival: the queue is ordered, and when
    an acquirer has its permit, one that queued earlier and still waits has
    already left the queue, its permit in the hands of a waking thread. *)
Theorem slots_fifo (s : Sys) (earlier later : N) : slots_reachable s -> (earlier < later)%N ->
  sys_chans s !! later = Some Delivered -> sys_chans s !! earlier = Some Waiting ->
  StronglySorted N.lt (vs_waiters (sys_view s)) /\ earlier ∈ senders (sys_threads s).
Proof.
  intros [_ _ _ _ Hsort _ Hold _ _ Hwt _ _ _]%reachable_inv Hlt Hd Hw. split; [done|].
  destruct (Hwt earlier Hw) as [Hq|]; [|done]. specialize (Hold later earlier ltac:(by right) Hq). lia.
Qed.

(** A wake loop that runs undisturbed, with all its nested calls from the
    destructors of undeliverable permits, hands out the free slots exactly as
    the reference does: to the waiters in order of arrival, skipping those
    that gave up, until no slot is free or nobody waits. *)
Theorem wake_alone_serves_fifo (now : N) (v : ViewState) (m : gmap N Chan) : exists v' m',
  rtc (alone now) ([FWake], v, m) ([], v', m') /\
  (vs_reserved v', vs_waiters v', m') =
    serve (vs_capacity v) (vs_live v) (vs_reserved v) (vs_waiters v) m /\
  vs_capacity v' = vs_capacity v /\ vs_known v' = vs_known v.
Proof.
  destruct (wake_alone_runs now _ v m [] eq_refl) as (v' & m' & H1 & H2 & H3 & H4 & _). eauto 10.
Qed.

(** ** Witnesses *)

Fixpoint run_events (es : list event) (s : Sys) : option Sys :=
  match es with
  | [] => Some s
  | e :: es' => match apply e s with Some s' => run_events es' s' | None => None end
  end.

Lemma run_events_steps es : forall s s', run_events es s = Some s' -> rtc step s s'.
Proof.
  induction es as [|e es IH]; intros s s'; cbn; [by intros [= <-]|].
  destruct (apply e s) as [s1|] eqn:E; [|done]. intros H. eapply rtc_l; [by exists e|auto].
Qed.

Definition sample_class : DeterminismClass := mkDeterminismClass "cpu" "0x1" "6.8" "vmm".
Definition sample_start : Sys :=
  sys_start (view_seed (mkGetWorkerInfoResponse "w" 2 2 sample_class "v") [] 0).
(** Two jobs hold the slots, three acquirers queue and the first gives up; a
    release has been processed up to the pop of the second. *)
Definition sample_events : list event :=
  [EvAcquire 0; EvAcquire 0; EvAcquire 1; EvAcquire 2; EvAcquire 3; EvCancel 0; EvRelease;
   EvThread 0 10; EvThread 0 10; EvThread 0 10; EvThread 0 10; EvThread 0 10; EvThread 0 10; EvThread 0 10].
Definition sample_sys : Sys := default sample_start (run_events sample_events sample_start).

Lemma sample_sys_reachable : slots_reachable sample_sys.
Proof.
  exists (mkGetWorkerInfoResponse "w" 2 2 sample_class "v"), [], 0%N. split; [done|].
  apply (run_events_steps sample_events). by vm_compute.
Qed.

Lemma slots_every_permit_owned_witness :
  vs_reserved (sys_view sample_sys) = 2%N /\ sys_held sample_sys = 1%nat /\
  permits (sys_threads sample_sys) = 1%nat /\
  (su_busy (utilization 20 (sys_view sample_sys)).1 <= su_capacity (utilization 20 (sys_view sample_sys)).1)%N.
Proof.
  split_and!; [by vm_compute..|].
  apply (slots_every_permit_owned sample_sys 20 sample_sys_reachable).
Defined.

Lemma slots_wake_completes_witness :
  sys_threads sample_sys <> [] /\ exists s', rtc thread_step sample_sys s' /\ sys_threads s' = [].
Proof.
  split; [by vm_compute|]. apply (slots_wake_completes sample_sys sample_sys_reachable).
Defined.

(** Two wakers: the second has delivered while the first still holds the
    permit of the older acquirer. *)
Definition sample_race_events : list event :=
  [EvAcquire 0; EvAcquire 0; EvAcquire 1; EvAcquire 2; EvRelease; EvRelease;
   EvThread 0 10; EvThread 0 10; EvThread 0 10; EvThread 1 10; EvThread 1 10; EvThread 1 10; EvThread 1 10].
Definition sample_race : Sys := default sample_start (run_events sample_race_events sample_start).

Lemma sample_race_reachable : slots_reachable sample_race.
Proof.
  exists (mkGetWorkerInfoResponse "w" 2 2 sample_class "v"), [], 0%N. split; [done|].
  apply (run_events_steps sample_race_events). by vm_compute.
Qed.

Lemma slots_fifo_witness : sys_chans sample_race !! 1%N = Some Delivered /\ 0%N ∈ senders (sys_threads sample_race).
Proof.
  split; [by vm_compute|].
  apply (slots_fifo sample_race 0 1 sample_race_reachable); [done|by vm_compute|by vm_compute].
Defined.

(** A release is two steps, so an acquirer that arrives between them takes the
    slot on the fast path although another one is queued. *)
Lemma fast_path_can_overtake : exists s s',
  slots_reachable s /\ sys_chans s !! 0%N = Some Waiting /\ vs_waiters (sys_view s) = [0%N] /\
  apply (EvAcquire 5) s = Some s' /\ sys_held s' = S (sys_held s) /\ vs_waiters (sys_view s') = [0%N].
Proof.
  eexists (default sample_start (run_events [EvAcquire 0; EvAcquire 0; EvAcquire 1; EvRelease; EvThread 0 2] sample_start)), _.
  split_and!; [|by vm_compute|by vm_compute|by vm_compute|by vm_compute|by vm_compute].
  exists (mkGetWorkerInfoResponse "w" 2 2 sample_class "v"), [], 0%N. split; [done|].
  apply (run_events_steps [EvAcquire 0; EvAcquire 0; EvAcquire 1; EvRelease; EvThread 0 2]). by vm_compute.
Qed.
