(* ===== verification/Tasks.v ===== *)
(** Asynchronous tasks of the scheduler.

    An [async fn] of crates/orch-sched is a [proc]: it is finished, or it
    awaits a call, which at some later moment is polled on the state of the
    services then current and either is not ready or makes one atomic change
    and continues.  Between two polls other tasks run.  A [task] may also
    spawn a set of procs and join them, as [futures_join_all] does.

    [safe] is the ownership discipline the worker driver is proved with: a
    task changes only the leases it owns, and what it owns when it finishes
    is known; [task_runs_safe] composes it over all interleavings. *)
From S2P Require Import Prelude Client HvTypes.

(** ** Procs *)

#[local] Set Warnings "-register-all".
Inductive proc (W A : Type) : Type :=
| Done (r : res ClientError A)
| Await (poll : W -> option (proc W A * W)).
Arguments Done {W A} r.
Arguments Await {W A} poll.

Section Proc.
Context {W : Type}.

(** [k] continues with the outcome of [p], whatever it is. *)
Fixpoint pthen {A B} (p : proc W A) (k : res ClientError A -> proc W B) : proc W B :=
  match p with
  | Done r => k r
  | Await poll => Await (fun w =>
      match poll w with
      | Some (p', w') => Some (pthen p' k, w')
      | None => None
      end)
  end.

Global Instance proc_ret : MRet (proc W) := fun A a => Done (Ok a).
(** The operator [?] after an [await]. *)
Global Instance proc_bind : MBind (proc W) := fun A B f p =>
  pthen p (fun r => match r with Ok a => f a | Err e => Done (Err e) | Panic => Done Panic end).

(** One call of a service. *)
Definition call {A} (m : st W ClientError A) : proc W A :=
  Await (fun w => match m w with (r, w') => Some (Done r, w') end).

(** An [await] that never completes. *)
Definition pending {A} : proc W A := Await (fun _ => None).

(** [tokio::time::timeout]: the deadline passes when [n] awaits have
    completed; [k] learns the outcome, or [None] when it passed first. *)
Fixpoint cut {A B} (n : nat) (p : proc W A) (k : option (res ClientError A) -> nat -> proc W B)
    {struct p} : proc W B :=
  match p with
  | Done r => k (Some r) n
  | Await poll =>
    match n with
    | O => k None 0
    | S n' => Await (fun w =>
        match poll w with
        | Some (p', w') => Some (cut n' p' k, w')
        | None => None
        end)
    end
  end.

(** ** Tasks *)

Inductive task (C A : Type) : Type :=
| TProc (p : proc W A)
| TThen {B : Type} (p : proc W B) (k : res ClientError B -> task C A)
| TJoin (ps : list (proc W C)) (k : list (res ClientError C) -> task C A).

End Proc.
Arguments task W C A : clear implicits.
Arguments TProc {W C A} p.
Arguments TThen {W C A B} p k.
Arguments TJoin {W C A} ps k.

(** [k] continues with the outcome of a task. *)
Fixpoint task_then {W C A B} (t : task W C A) (k : res ClientError A -> task W C B) : task W C B :=
  match t with
  | TProc p => TThen p k
  | TThen p k0 => TThen p (fun r => task_then (k0 r) k)
  | TJoin ps k0 => TJoin ps (fun rs => task_then (k0 rs) k)
  end.

(** Induction over the polls. *)
Lemma proc_poll_ind {W A} (P : proc W A -> Prop) :
  (forall r, P (Done r)) ->
  (forall poll, (forall w p' w', poll w = Some (p', w') -> P p') -> P (Await poll)) ->
  forall p, P p.
Proof.
  intros Hd Ha. fix IH 1. intros [r|poll]; [apply Hd|]. apply Ha. intros w p' w' Hp.
  destruct (poll w) as [[q v]|]; [|discriminate]. injection Hp as <- <-. apply IH.
Qed.

Section Steps.
Context {W C A : Type}.

(** One step of a task: a poll that is ready, or the passage to the next part. *)
Inductive tstep : task W C A * W -> task W C A * W -> Prop :=
| ts_proc poll p' w w' : poll w = Some (p', w') -> tstep (TProc (Await poll), w) (TProc p', w')
| ts_then {B} (poll : W -> option (proc W B * W)) p' k w w' : poll w = Some (p', w') ->
    tstep (TThen (Await poll) k, w) (TThen p' k, w')
| ts_then_done {B} (r : res ClientError B) k w : tstep (TThen (Done r) k, w) (k r, w)
| ts_join ps k i poll p' w w' : ps !! i = Some (Await poll) -> poll w = Some (p', w') ->
    tstep (TJoin ps k, w) (TJoin (<[i := p']> ps) k, w')
| ts_join_done rs k w : tstep (TJoin (Done <$> rs) k, w) (k rs, w).
End Steps.

(** ** One schedule

    The schedule that polls each part to its end before the next; [None] when
    an await never completes. *)
Fixpoint drain {W A} (p : proc W A) (w : W) : option (res ClientError A * W) :=
  match p with
  | Done r => Some (r, w)
  | Await poll => match poll w with Some (p', w') => drain p' w' | None => None end
  end.
Fixpoint drain_all {W C} (ps : list (proc W C)) (w : W) : option (list (res ClientError C) * W) :=
  match ps with
  | [] => Some ([], w)
  | p :: rest => '(r, w1) ← drain p w; '(rs, w2) ← drain_all rest w1; Some (r :: rs, w2)
  end.
Fixpoint exec {W C A} (t : task W C A) (w : W) : option (res ClientError A * W) :=
  match t with
  | TProc p => drain p w
  | TThen p k => '(r, w1) ← drain p w; exec (k r) w1
  | TJoin ps k => '(rs, w1) ← drain_all ps w; exec (k rs) w1
  end.

Section Schedule.
Context {W C A : Type}.

(** Draining a proc is a run of any context that polls it. *)
Lemma drain_rtc {B} (ctx : proc W B -> task W C A) (p : proc W B) : forall w r w',
  (forall poll q v v', poll v = Some (q, v') -> tstep (ctx (Await poll), v) (ctx q, v')) ->
  drain p w = Some (r, w') -> rtc tstep (ctx p, w) (ctx (Done r), w').
Proof.
  induction p as [r0|poll IH] using proc_poll_ind; intros w r w' Hctx; cbn; [by intros [= -> ->]|].
  destruct (poll w) as [[q v]|] eqn:E; [|done]. intros Hd. eapply rtc_l; [by apply Hctx|]. by eapply IH.
Qed.

Lemma drain_all_rtc (k : list (res ClientError C) -> task W C A) ps : forall pre w rs w',
  drain_all ps w = Some (rs, w') ->
  rtc tstep (TJoin ((Done <$> pre) ++ ps) k, w) (TJoin (Done <$> (pre ++ rs)) k, w').
Proof.
  induction ps as [|p ps IH]; intros pre w rs w'; cbn [drain_all].
  - intros [= <- <-]. by rewrite !app_nil_r.
  - intros ([r w1] & Hd & ([rs1 w2] & Hr & [= <- <-])%bind_Some)%bind_Some.
    etrans.
    + apply (drain_rtc (fun q => TJoin ((Done <$> pre) ++ q :: ps) k) p w r w1); [|exact Hd].
      intros poll q v v' Hq.
      replace ((Done <$> pre) ++ q :: ps) with (<[length pre := q]> ((Done <$> pre) ++ Await poll :: ps)).
      * eapply ts_join; [|exact Hq]. rewrite lookup_app_r; rewrite length_fmap; [by rewrite Nat.sub_diag|lia].
      * rewrite insert_app_r_alt by (rewrite length_fmap; lia). by rewrite length_fmap, Nat.sub_diag.
    + specialize (IH (pre ++ [r]) w1 rs1 w2 Hr). rewrite fmap_app in IH. cbn in IH.
      rewrite <- !app_assoc in IH. exact IH.
Qed.

Lemma exec_rtc (t : task W C A) : forall w r w', exec t w = Some (r, w') -> rtc tstep (t, w) (TProc (Done r), w').
Proof.
  induction t as [p|B p k IH|ps k IH]; intros w r w'; cbn [exec].
  - intros Hd. apply (drain_rtc TProc p w r w'); [|done]. intros. by constructor.
  - intros ([x w1] & Hd & He)%bind_Some. etrans; [apply (drain_rtc (fun q => TThen q k) p w x w1); [|done]; intros; by constructor|].
    eapply rtc_l; [constructor|]. by apply IH.
  - intros ([rs w1] & Hd & He)%bind_Some. etrans; [exact (drain_all_rtc k ps [] w rs w1 Hd)|].
    eapply rtc_l; [constructor|]. by apply IH.
Qed.
End Schedule.

(** ** Ownership *)

(** What the discipline observes of the services: the leases alive on the
    worker, the slot permits outstanding, and how many calls to destroy a
    lease have failed so far. *)
Class Ledger (W : Type) := {
  live : W -> gset Lease;
  permits_out : W -> nat;
  fails : W -> Lease -> nat;
  w_ok : W -> Prop
}.

(** Owned leases, each with a number of destroy calls known to have failed,
    and owned permits. *)
Record rsrc := mkRsrc { r_leases : list (Lease * nat); r_permits : nat }.
Definition rnone : rsrc := mkRsrc [] 0.

(** A task gives up on a lease after this many failed destroy calls. *)
Definition GIVE_UP : nat := 9.
(** Nothing is owned but leases given up. *)
Definition spent (R : rsrc) : Prop :=
  r_permits R = 0%nat /\ Forall (fun p => (GIVE_UP <= p.2)%nat) (r_leases R).

Section Safe.
Context {W : Type} `{LG : Ledger W}.

Definition known (R : rsrc) (w : W) : Prop :=
  Forall (fun p => (p.2 <= fails w p.1)%nat) (r_leases R).

Definition owned (R : rsrc) : gset Lease := list_to_set (r_leases R).*1.
Arguments owned : simpl never.

(** The task owned [R] and owns [R'] afterwards; what it did not own is
    untouched, and a lease it no longer owns is gone. *)
Record effect (R R' : rsrc) (w w' : W) : Prop := {
  eff_ok : w_ok w';
  eff_nodup : NoDup (r_leases R').*1;
  eff_known : known R' w';
  eff_mono : forall l, (fails w l <= fails w' l)%nat;
  eff_permits : (permits_out w' + r_permits R = permits_out w + r_permits R')%nat;
  eff_live : live w' = (live w ∖ owned R) ∪ owned R' /\ owned R' ## (live w ∖ owned R)
}.

Definition holds (R : rsrc) (w : W) : Prop :=
  w_ok w /\ NoDup (r_leases R).*1 /\ owned R ⊆ live w /\ known R w /\ (r_permits R <= permits_out w)%nat.

(** [psafe p R I Q]: run by anybody at any pace, [p] changes only what it
    owns, owns something satisfying [I] whenever it awaits, and finishes with
    an outcome and ownership satisfying [Q]. *)
Fixpoint psafe {A} (p : proc W A) (R : rsrc) (I : rsrc -> Prop) (Q : res ClientError A -> rsrc -> Prop) : Prop :=
  match p with
  | Done r => Q r R
  | Await poll => I R /\ forall w, holds R w ->
      match poll w with
      | None => True
      | Some (p', w') => exists R', effect R R' w w' /\ psafe p' R' I Q
      end
  end.
Definition anything (R : rsrc) : Prop := True.

Fixpoint tsafe {C A} (t : task W C A) (R : rsrc) (Q : res ClientError A -> rsrc -> Prop) : Prop :=
  match t with
  | TProc p => psafe p R anything Q
  | TThen p k => exists Q1, psafe p R anything Q1 /\ forall r R', Q1 r R' -> tsafe (k r) R' Q
  | TJoin ps k => exists R0 Rs (Pc : nat -> res ClientError C -> Prop),
      r_leases R ≡ₚ r_leases R0 ++ concat (r_leases <$> Rs) /\
      r_permits R = (r_permits R0 + sum_list (r_permits <$> Rs))%nat /\ length Rs = length ps /\
      (forall i p Ri, ps !! i = Some p -> Rs !! i = Some Ri ->
         psafe p Ri anything (fun r R' => spent R' /\ Pc i r)) /\
      (forall rs, length rs = length ps -> (forall i r, rs !! i = Some r -> Pc i r) -> tsafe (k rs) R0 Q)
  end.

Lemma psafe_mono {A} (p : proc W A) : forall R (I I' : rsrc -> Prop) (Q Q' : res ClientError A -> rsrc -> Prop),
  (forall R', I R' -> I' R') -> (forall r R', Q r R' -> Q' r R') -> psafe p R I Q -> psafe p R I' Q'.
Proof.
  induction p as [r|poll IH] using proc_poll_ind; intros R I I' Q Q' HI HQ; [apply HQ|].
  intros [Hi H]. split; [by apply HI|]. intros w Hw. specialize (H w Hw).
  destruct (poll w) as [[p' w']|] eqn:E; [|done].
  destruct H as (R' & He & Hs). exists R'. split; [done|]. by eapply (IH w p' w' E).
Qed.

Lemma psafe_then {A B} (p : proc W A) : forall R (k : res ClientError A -> proc W B) I Q Q',
  psafe p R I Q -> (forall r R', Q r R' -> psafe (k r) R' I Q') -> psafe (pthen p k) R I Q'.
Proof.
  induction p as [r|poll IH] using proc_poll_ind; intros R k I Q Q' Hp Hk; [by apply Hk|].
  destruct Hp as [Hi Hp]. split; [done|]. intros w Hw. cbn. specialize (Hp w Hw).
  destruct (poll w) as [[p' w']|] eqn:E; [|done].
  destruct Hp as (R' & He & Hs). exists R'. split; [done|]. by eapply (IH w p' w' E).
Qed.

Lemma psafe_bind {A B} (p : proc W A) R (k : A -> proc W B) I Q Q' :
  psafe p R I Q ->
  (forall a R', Q (Ok a) R' -> psafe (k a) R' I Q') ->
  (forall e R', Q (Err e) R' -> Q' (Err e) R') -> (forall R', Q Panic R' -> Q' Panic R') ->
  psafe (p ≫= k) R I Q'.
Proof. intros Hp H1 H2 H3. eapply psafe_then; [exact Hp|]. intros [a|e|] R' HQ; cbn; auto. Qed.

Lemma psafe_pending {A} R (I : rsrc -> Prop) (Q : res ClientError A -> rsrc -> Prop) : I R -> psafe pending R I Q.
Proof. by intros HI; split. Qed.

(** A proc can be cut at any await if what it owns there can be taken over. *)
Lemma psafe_cut {A B} (p : proc W A) : forall n R (k : option (res ClientError A) -> nat -> proc W B) (I I' : rsrc -> Prop) Q Q',
  psafe p R I Q -> (forall R', I R' -> I' R') ->
  (forall r n' R', Q r R' -> psafe (k (Some r) n') R' I' Q') ->
  (forall R', I R' -> psafe (k None 0%nat) R' I' Q') -> psafe (cut n p k) R I' Q'.
Proof.
  induction p as [r|poll IH] using proc_poll_ind; intros n R k I I' Q Q' Hp HI Hs Hn; [by apply (Hs r n R)|].
  destruct Hp as [Hi Hp]. destruct n as [|n]; [by apply Hn|]. split; [by apply HI|].
  intros w Hw. specialize (Hp w Hw). destruct (poll w) as [[p' w']|] eqn:E; [|done].
  destruct Hp as (R' & He & Hps). exists R'. split; [done|]. by eapply (IH w p' w' E).
Qed.

(** ** All interleavings *)

(** Somebody else owns [E]; [G] was given up; the rest of the leases is [R]. *)
Record account (E : gset Lease) (base : nat) (R : rsrc) (w : W) : Prop := {
  acc_ok : w_ok w;
  acc_nodup : NoDup (r_leases R).*1;
  acc_known : known R w;
  acc_permits : permits_out w = (base + r_permits R)%nat;
  acc_live : exists G, live w = E ∪ owned R ∪ G /\ E ## owned R /\ G ## (E ∪ owned R) /\
    forall l, l ∈ G -> (GIVE_UP <= fails w l)%nat
}.

Definition same_rsrc (R R' : rsrc) : Prop := r_leases R ≡ₚ r_leases R' /\ r_permits R = r_permits R'.
Definition join_rsrc (R R' : rsrc) : rsrc := mkRsrc (r_leases R ++ r_leases R') (r_permits R + r_permits R').

Lemma owned_join R R' : owned (join_rsrc R R') = owned R ∪ owned R'.
Proof. unfold owned. cbn. by rewrite fmap_app, list_to_set_app_L. Qed.

Lemma account_same E b R R' w : same_rsrc R R' -> account E b R w -> account E b R' w.
Proof.
  intros [HL HP] []. assert (owned R = owned R') as Ho by (unfold owned; by rewrite HL).
  constructor; rewrite <- ?Ho, <- ?HP; try done; unfold known; by rewrite <- HL.
Qed.

Lemma account_holds E b R1 R2 w : account E b (join_rsrc R1 R2) w -> holds R1 w.
Proof.
  intros [Hok Hnd Hk Hp (G & Hl & _)]. unfold known, holds in *. cbn in *. rewrite fmap_app in Hnd.
  apply NoDup_app in Hnd as (Hnd & _ & _). apply Forall_app in Hk as [Hk _]. rewrite owned_join in Hl.
  split_and!; [done|done|set_solver|done|lia].
Qed.

(** The sets of [account_effect]. *)
Lemma rest_of_live (L E X Y G : gset Lease) : L = E ∪ (X ∪ Y) ∪ G -> E ## X ∪ Y -> G ## E ∪ (X ∪ Y) -> X ## Y ->
  L ∖ X = E ∪ Y ∪ G.
Proof.
  intros -> H1 H2 H3. apply set_eq. intros l. specialize (H1 l). specialize (H2 l). specialize (H3 l).
  rewrite elem_of_difference, !elem_of_union in *. tauto.
Qed.

Lemma account_sets (L E X Y G : gset Lease) : L = E ∪ Y ∪ G ∪ X -> X ## (E ∪ Y ∪ G) ->
  G ## E -> G ## Y -> E ## Y -> L = E ∪ (X ∪ Y) ∪ G /\ E ## X ∪ Y /\ G ## E ∪ (X ∪ Y).
Proof.
  intros -> H1 H3 H4 H5. split_and!; [apply set_eq|..]; intros l; specialize (H1 l);
    specialize (H3 l); specialize (H4 l); specialize (H5 l); rewrite !elem_of_union in *; tauto.
Qed.

Lemma account_effect E b R1 R1' R2 w w' : account E b (join_rsrc R1 R2) w -> effect R1 R1' w w' ->
  account E b (join_rsrc R1' R2) w'.
Proof.
  intros [Hok Hnd Hk Hp (G & Hl & He & HG & Hg)] [Eok End Ek Em Ep [El Ed]].
  rewrite owned_join in *. unfold known in *. cbn in *. rewrite fmap_app in *.
  apply NoDup_app in Hnd as (Hnd1 & Hdis & Hnd2).
  assert (owned R1 ## owned R2) as Hd12.
  { intros l. unfold owned. rewrite !elem_of_list_to_set. apply Hdis. }
  assert (live w ∖ owned R1 = E ∪ owned R2 ∪ G) as Hrest by (by apply rest_of_live).
  rewrite Hrest in *. constructor; [done| | |cbn; lia|].
  - cbn. rewrite fmap_app. apply NoDup_app. split_and!; [done| |done]. intros l H1 H2.
    assert (l ∈ owned R1') by (unfold owned; by rewrite elem_of_list_to_set).
    assert (l ∈ owned R2) by (unfold owned; by rewrite elem_of_list_to_set).
    apply (Ed l); [done|rewrite !elem_of_union; auto].
  - unfold known. cbn. apply Forall_app in Hk as [_ Hk]. apply Forall_app. split; [done|].
    eapply Forall_impl; [exact Hk|]. intros p Hpk. cbn in *. etransitivity; [exact Hpk|]. apply Em.
  - exists G. rewrite owned_join.
    destruct (account_sets (live w') E (owned R1') (owned R2) G) as (S1 & S2 & S3);
      [done|done|clear -HG; set_solver|clear -HG; set_solver|clear -He; set_solver|].
    split_and!; [done..|]. intros l Hl'. etransitivity; [by apply Hg|]. apply Em.
Qed.

Lemma concat_insert {X} (ls : list (list X)) i l l' : ls !! i = Some l ->
  exists rest, concat ls ≡ₚ l ++ rest /\ concat (<[i := l']> ls) ≡ₚ l' ++ rest.
Proof.
  intros Hi. exists (concat (take i ls) ++ concat (drop (S i) ls)). split.
  - rewrite <- (take_drop_middle ls i l Hi) at 1. rewrite concat_app. cbn. solve_Permutation.
  - rewrite insert_take_drop by (by eapply lookup_lt_Some). rewrite concat_app. cbn. solve_Permutation.
Qed.

Lemma sum_list_insert (ns : list nat) i n n' : ns !! i = Some n ->
  (sum_list (<[i := n']> ns) + n = sum_list ns + n')%nat.
Proof.
  intros Hi. rewrite insert_take_drop by (by eapply lookup_lt_Some).
  rewrite <- (take_drop_middle ns i n Hi) at 3. rewrite !sum_list_with_app. cbn. lia.
Qed.

(** What is spent is nobody's any more. *)
Lemma account_spent E b R1 R2 w : spent R1 -> account E b (join_rsrc R1 R2) w -> account E b R2 w.
Proof.
  intros [Hp1 Hs] [Hok Hnd Hk Hp (G & Hl & He & HG & Hg)]. rewrite owned_join in *. unfold known in *.
  cbn in *. rewrite fmap_app in Hnd. apply NoDup_app in Hnd as (Hnd1 & Hdis & Hnd2).
  apply Forall_app in Hk as [Hk1 Hk2]. constructor; [done|done|done|lia|].
  assert (owned R1 ## owned R2) as Hd12.
  { intros l. unfold owned. rewrite !elem_of_list_to_set. apply Hdis. }
  exists (G ∪ owned R1). split_and!; [rewrite Hl; clear; set_solver|clear -He; set_solver|clear -He HG Hd12; set_solver|].
  intros l [Hl'|Hl']%elem_of_union; [by apply Hg|]. unfold owned in Hl'. apply elem_of_list_to_set in Hl'.
  apply list_elem_of_fmap in Hl' as ([l' a] & -> & Hin). rewrite Forall_forall in Hk1, Hs.
  specialize (Hk1 _ Hin). specialize (Hs _ Hin). cbn in *. lia.
Qed.

Lemma spent_list Rs : Forall spent Rs -> spent (mkRsrc (concat (r_leases <$> Rs)) (sum_list (r_permits <$> Rs))).
Proof.
  induction 1 as [|R Rs [Hp Hl] _ [IHp IHl]]; [done|]. split; cbn in *; [lia|]. by apply Forall_app.
Qed.

(** The resources of one child apart from those of the others. *)
Lemma child_rsrc R0 Rs i Ri : Rs !! i = Some Ri -> exists others, forall Ri',
  same_rsrc (join_rsrc Ri' others) (mkRsrc (r_leases R0 ++ concat (r_leases <$> <[i := Ri']> Rs)) (r_permits R0 + sum_list (r_permits <$> <[i := Ri']> Rs))).
Proof.
  intros Hi. assert ((r_leases <$> Rs) !! i = Some (r_leases Ri)) as Hl by (by rewrite list_lookup_fmap, Hi).
  assert ((r_permits <$> Rs) !! i = Some (r_permits Ri)) as Hp by (by rewrite list_lookup_fmap, Hi).
  destruct (concat_insert _ i _ [] Hl) as (rest & Hc & _). pose proof (sum_list_insert _ i _ 0 Hp) as Hsum.
  exists (mkRsrc (r_leases R0 ++ rest) (r_permits R0 + sum_list (<[i := 0%nat]> (r_permits <$> Rs)))). intros Ri'.
  destruct (concat_insert _ i _ (r_leases Ri') Hl) as (rest' & Hc1 & Hc2). pose proof (sum_list_insert _ i _ (r_permits Ri') Hp) as Hsum'.
  assert (rest' ≡ₚ rest) as Hrest by (rewrite Hc in Hc1; by apply Permutation_app_inv_l in Hc1).
  split; cbn; rewrite list_fmap_insert; [rewrite Hc2, Hrest; solve_Permutation|lia].
Qed.

Lemma tstep_safe {C A} E b (Q : res ClientError A -> rsrc -> Prop) (t t' : task W C A) w w' :
  tstep (t, w) (t', w') -> (exists R, tsafe t R Q /\ account E b R w) ->
  exists R, tsafe t' R Q /\ account E b R w'.
Proof.
  assert (forall R, same_rsrc R (join_rsrc R rnone)) as Hr
    by (intros R; split; cbn; [by rewrite app_nil_r|lia]).
  inversion 1 as [poll p' ? ? Hpoll|B poll p' k ? ? Hpoll|B r k ?|ps k i poll p' ? ? Hget Hpoll|rs k ?]; subst;
    intros (R & Hs & Ha); cbn in Hs.
  - destruct Hs as [_ Hs]. pose proof (account_same _ _ _ _ _ (Hr R) Ha) as Ha'.
    specialize (Hs w (account_holds _ _ _ _ _ Ha')). rewrite Hpoll in Hs. destruct Hs as (R' & He & Hs).
    exists R'. split; [done|]. apply (account_same _ _ (join_rsrc R' rnone)); [by destruct (Hr R') as [? ?]; split|].
    by eapply account_effect.
  - destruct Hs as (Q1 & [_ Hs] & Hk). pose proof (account_same _ _ _ _ _ (Hr R) Ha) as Ha'.
    specialize (Hs w (account_holds _ _ _ _ _ Ha')). rewrite Hpoll in Hs. destruct Hs as (R' & He & Hs).
    exists R'. split; [by exists Q1|]. apply (account_same _ _ (join_rsrc R' rnone)); [by destruct (Hr R') as [? ?]; split|].
    by eapply account_effect.
  - destruct Hs as (Q1 & Hs & Hk). exists R. split; [by apply Hk|done].
  - destruct Hs as (R0 & Rs & Pc & HL & HP & Hlen & Hps & Hk).
    destruct (lookup_lt_is_Some_2 Rs i) as [Ri Hi]; [rewrite Hlen; by eapply lookup_lt_Some|].
    destruct (Hps _ _ _ Hget Hi) as [_ Hpi].
    destruct (child_rsrc R0 Rs i Ri Hi) as (others & Hothers).
    assert (account E b (join_rsrc Ri others) w) as Ha'.
    { eapply account_same; [|exact Ha]. destruct (Hothers Ri) as [HL' HP']. rewrite list_insert_id in HL', HP' by done. cbn [r_leases r_permits] in HL', HP'.
      split; [by rewrite HL, HL'|by rewrite HP, HP']. }
    specialize (Hpi w (account_holds _ _ _ _ _ Ha')). rewrite Hpoll in Hpi. destruct Hpi as (Ri' & He & Hpi).
    destruct (Hothers Ri') as [HL' HP'].
    exists (join_rsrc Ri' others). split; [|by eapply account_effect].
    exists R0, (<[i := Ri']> Rs), Pc. split_and!; [exact HL'|exact HP'| | |].
    + by rewrite !length_insert.
    + intros j q Rj [(-> & <- & _)|[Hne Hq]]%list_lookup_insert_Some [(Ej & <- & _)|[Hne' HR]]%list_lookup_insert_Some;
        [exact Hpi|congruence|congruence|by eapply Hps].
    + rewrite length_insert. done.
  - destruct Hs as (R0 & Rs & Pc & HL & HP & Hlen & Hps & Hk). rewrite length_fmap in *.
    assert (forall i r, rs !! i = Some r -> Pc i r) as Hpc.
    { intros i r Hi. destruct (lookup_lt_is_Some_2 Rs i) as [Ri HRi]; [rewrite Hlen; by eapply lookup_lt_Some|].
      by destruct (Hps i (Done r) Ri) as [_ ?]; [by rewrite list_lookup_fmap, Hi|done|]. }
    assert (Forall spent Rs) as Hsp.
    { apply Forall_lookup. intros i Ri HRi.
      destruct (lookup_lt_is_Some_2 rs i) as [r Hr']; [rewrite <- Hlen; by eapply lookup_lt_Some|].
      by destruct (Hps i (Done r) Ri) as [? _]; [by rewrite list_lookup_fmap, Hr'|done|]. }
    exists R0. split; [by apply Hk|].
    apply (account_spent _ _ (mkRsrc (concat (r_leases <$> Rs)) (sum_list (r_permits <$> Rs)))).
    + by apply spent_list.
    + eapply account_same; [|exact Ha]. split; cbn; [by rewrite HL, Permutation_app_comm|lia].
Qed.

(** The order in which leases are owned does not matter. *)
Lemma psafe_same {A} (p : proc W A) R R2 (I : rsrc -> Prop) (Q : res ClientError A -> rsrc -> Prop) :
  same_rsrc R R2 -> (I R -> I R2) -> (forall r, p = Done r -> Q r R -> Q r R2) -> psafe p R I Q -> psafe p R2 I Q.
Proof.
  intros [HL HP] HI HQ. destruct p as [r|poll]; [by apply HQ|]. intros [Hi Hp]. split; [by apply HI|].
  assert (owned R = owned R2) as Ho by (unfold owned; by rewrite HL).
  intros w (Hok & Hnd & Hl & Hk & Hn).
  assert (holds R w) as Hw.
  { unfold holds, known. rewrite HL, HP, Ho. done. }
  specialize (Hp w Hw). destruct (poll w) as [[p' w']|]; [|done]. destruct Hp as (R' & [] & Hs).
  exists R'. split; [|done]. constructor; rewrite <- ?Ho, <- ?HP; done.
Qed.

Lemma tsafe_then {C A B} (t : task W C A) : forall R (k : res ClientError A -> task W C B) Q Q',
  tsafe t R Q -> (forall r R', Q r R' -> tsafe (k r) R' Q') -> tsafe (task_then t k) R Q'.
Proof.
  induction t as [p|B0 p k0 IH|ps k0 IH]; intros R k Q Q' Ht Hk; cbn in *.
  - by exists Q.
  - destruct Ht as (Q1 & Hp & Hk0). exists Q1. split; [done|]. intros r R' Hr. eapply IH; [by apply Hk0|done].
  - destruct Ht as (R0 & Rs & Pc & H1 & H2 & H3 & H4 & H5). exists R0, Rs, Pc. split_and!; [done..|].
    intros rs Hl Hrs. eapply IH; [by apply H5|done].
Qed.

(** A proc does not touch what it does not own. *)
Lemma effect_frame F R R' w w' : holds (join_rsrc F R) w -> effect R R' w w' -> effect (join_rsrc F R) (join_rsrc F R') w w'.
Proof.
  intros (Hok & Hnd & Hl & Hk & Hp) [Eok End Ek Em Ep [El Ed]]. rewrite owned_join in Hl. unfold known in *. cbn in *.
  rewrite fmap_app in Hnd. apply NoDup_app in Hnd as (Hnd1 & Hdis & Hnd2). apply Forall_app in Hk as [Hk1 Hk2].
  assert (owned F ## owned R) as HFR by (intros l; unfold owned; rewrite !elem_of_list_to_set; apply Hdis).
  assert (owned F ## owned R') as HFR' by (clear -Ed Hl HFR; set_solver).
  constructor; [done| | |done|cbn; lia|].
  - cbn. rewrite fmap_app. apply NoDup_app. split_and!; [done| |done]. intros l H1 H2. apply (HFR' l);
      unfold owned; by rewrite elem_of_list_to_set.
  - unfold known. cbn. apply Forall_app. split; [|done]. eapply Forall_impl; [exact Hk1|]. intros x Hx. cbn in *.
    etransitivity; [exact Hx|]. apply Em.
  - rewrite !owned_join. split.
    + rewrite El. apply set_eq. intros l. specialize (HFR l). specialize (Hl l).
      rewrite !elem_of_union, !elem_of_difference in *. rewrite elem_of_union. destruct (decide (l ∈ owned F)); tauto.
    + clear -Ed Hl. set_solver.
Qed.

Lemma psafe_frame {A} (p : proc W A) F : forall R (Q : res ClientError A -> rsrc -> Prop),
  psafe p R anything Q -> psafe p (join_rsrc F R) anything (fun r R' => exists R1, Q r R1 /\ R' = join_rsrc F R1).
Proof.
  induction p as [r|poll IH] using proc_poll_ind; intros R Q; [by exists R|]. intros [_ Hp]. split; [done|].
  intros w Hw.
  assert (holds R w) as HR.
  { destruct Hw as (Hok & Hnd & Hl & Hk & Hpe). unfold holds, known in *. rewrite owned_join in Hl. cbn in *.
    rewrite fmap_app in Hnd. apply NoDup_app in Hnd as (_ & _ & Hnd). apply Forall_app in Hk as [_ Hk].
    split_and!; [done|done|clear -Hl; set_solver|done|lia]. }
  specialize (Hp w HR). destruct (poll w) as [[p' w']|] eqn:E; [|done]. destruct Hp as (R' & He & Hs).
  exists (join_rsrc F R'). split; [by apply effect_frame|]. by eapply (IH w p' w' E).
Qed.

(** Along any interleaving of its procs a safe task keeps its account; when it
    has finished, its postcondition holds of what it then owns. *)
Lemma task_runs_safe {C A} E b (Q : res ClientError A -> rsrc -> Prop) (t t' : task W C A) R w w' :
  tsafe t R Q -> account E b R w -> rtc tstep (t, w) (t', w') ->
  exists R', tsafe t' R' Q /\ account E b R' w'.
Proof.
  intros Hs Ha Hr. assert (exists R, tsafe t R Q /\ account E b R w) as H by eauto. clear Hs Ha R.
  remember (t, w) as c eqn:Ec. remember (t', w') as c' eqn:Ec'. revert t w Ec H.
  induction Hr as [c|c [t1 w1] c' Hstep _ IH]; intros t w Ec H; [by simplify_eq|].
  subst c. eapply IH; [done|done|]. by eapply tstep_safe.
Qed.
End Safe.
