(* ===== verification/WorkerDriver.v ===== *)
(** Worker driver (crates/orch-sched/src/driver.rs): one job is restore or
    fork, inject, run, snapshot, destroy; a batch forks its jobs from one
    parent when enough slots are free and restores each otherwise; and the
    bootstrap of the root.

    The functions are procs and tasks over an abstract world that offers the
    worker's calls, a clock and the slot pool.  The deadline of a job is the
    number of awaits that complete before it passes; the loops that wait out
    back-pressure take fuel and are pending for ever when it runs out. *)
From stdpp Require Import pretty.
From S2P Require Import Prelude Types Rng Client Retry HvTypes SynthTypes Tasks.
Local Open Scope string_scope.
Local Open Scope list_scope.

Definition EXHAUSTED_BACKOFF : N := from_millis 5.

Record DriverConfig := mkDriverConfig {
  dv_experiment_seed : N;
  dv_capture : CaptureSpec;
  dv_hard_icount_cap : option GuestInstructions
}.

Record JobSpec := mkJobSpec {
  js_batch_seq : N;
  js_job_idx : N;
  js_parent_snapshot : SnapshotRef;
  js_required_class : option DeterminismClass;
  js_burst : ProvenancedBurst
}.

Inductive JobVerdict := VerdictOk | GuestHang | GuestCrash.
Global Instance JobVerdict_eq_dec : EqDecision JobVerdict.
Proof. solve_decision. Defined.

Definition verdict_from_stop_reason (reason : StopReason) : res ClientError JobVerdict :=
  match reason with
  | BudgetReached | GoalSatisfied | NextSdkEvent => Ok VerdictOk
  | HardCap => Ok GuestHang
  | GuestHalted | StopFaulted => Ok GuestCrash
  | StopUnspecified | StopPaused =>
    Err (mkClientError Internal ("unexpected worker stop reason " +:+ StopReason_debug reason))
  end.

Record ChildCapture := mkChildCapture {
  cc_snapshot : SnapshotRef;
  cc_input_log_id : option InputLogId;
  cc_state_hash : StateHash;
  cc_machine_config_hash : Digest32;
  cc_determinism_class : DeterminismClass;
  cc_icount : GuestInstructions;
  cc_vns : N;
  cc_frame_counter : FrameCount;
  cc_feature_bytes : option (list N);
  cc_fb_lz4 : option (list N);
  cc_fb_info : option FbInfo
}.

Record JobResult := mkJobResult {
  jr_job_idx : N;
  jr_verdict : JobVerdict;
  jr_burst : ProvenancedBurst;
  jr_capture : option ChildCapture;
  jr_sdk_events : list GuestEvent
}.

Record RootCapture := mkRootCapture {
  rc_snapshot : SnapshotRef;
  rc_state_hash : StateHash;
  rc_machine_config_hash : Digest32;
  rc_determinism_class : DeterminismClass;
  rc_icount : GuestInstructions;
  rc_vns : N;
  rc_frame_counter : FrameCount;
  rc_feature_bytes : option (list N);
  rc_fb_lz4 : option (list N);
  rc_fb_info : option FbInfo;
  rc_ready_event : GuestEvent
}.

Record BootstrapSpec := mkBootstrapSpec {
  bs_machine_config : MachineConfig;
  bs_bootstrap_icount_cap : option GuestInstructions
}.

(** ** Inputs of a burst *)

Fixpoint segment_events (base offset : N) (segments : list PadSegment) : list ScheduledEvent * N :=
  match segments with
  | [] => ([], offset)
  | s :: rest =>
    let event := mkScheduledEvent (AtFrame (saturating_add u32_max base offset)) (InPadSet (mkPadSet 0 (seg_buttons s))) in
    let '(events, total) := segment_events base (saturating_add u32_max offset (seg_hold_frames s)) rest in
    (event :: events, total)
  end.

Definition burst_events (burst : PadBurst) (parent_frame : FrameCount)
    : res ClientError (list ScheduledEvent * FrameCount) :=
  match pb_segments burst with
  | [] => Err (mkClientError InvalidRequest "pad burst has no segments")
  | _ =>
    let base := saturating_add u32_max parent_frame 1 in
    let '(events, offset) := segment_events base 0 (pb_segments burst) in
    if (offset =? 0)%N then Err (mkClientError InvalidRequest "pad burst holds zero frames")
    else Ok (events, offset)
  end.

Definition pad_burst (burst : ProvenancedBurst) : res ClientError PadBurst :=
  match bu_body (pv_burst burst) with
  | Pad pad => Ok pad
  | Event _ => Err (mkClientError InvalidRequest "event bursts are not supported by the M3 driver")
  end.

Definition is_backpressure (e : ClientError) : bool := bool_decide (ce_kind e = ResourceExhausted).

(** ** The driver *)

(** A job's index and result; a batch reports one per burst. *)
Abbreviation JobOutput := (N * res ClientError JobResult)%type (only parsing).
Abbreviation BatchOutcome := (list (N * res ClientError JobResult)) (only parsing).

(** The slot view as the driver uses it (orch-sched slots.rs): [acquire]
    waits until a slot is free. *)
Class SlotPool (W : Type) := {
  slots_acquire : option DeterminismClass -> W -> option (res ClientError unit * W);
  slots_try_acquire : W -> bool * W;
  slots_class_check : DeterminismClass -> W -> res ClientError unit;
  permit_drop : W -> W
}.

Section Driver.
Context {W : Type} `{B3 : Blake3, HV : Hypervisor W, RT : Runtime W, SP : SlotPool W}.
(** The text of a [tokio::task::JoinError]. *)
Context (join_error_text : string).
Context (config : DriverConfig).

Definition pause (d : N) : proc W unit := call (fun w => (Ok tt, sleep d w)).
Definition lift {A} (r : res ClientError A) : proc W A := Done r.
(** A look at the state, under the lock. *)
Definition look {A} (f : W -> A) : proc W A := call (fun w => (Ok (f w), w)).

Definition acquire (required : option DeterminismClass) : proc W unit :=
  Await (fun w => match slots_acquire required w with Some (r, w') => Some (Done r, w') | None => None end).
Definition try_acquire : proc W bool := call (fun w => let '(b, w') := slots_try_acquire w in (Ok b, w')).
Definition drop_permit : proc W unit := call (fun w => (Ok tt, permit_drop w)).

(** Dropping a vector of permits. *)
Fixpoint drop_permits (n : nat) : proc W unit :=
  match n with
  | O => mret tt
  | S n' => _ ← drop_permit; drop_permits n'
  end.

(** The ladder from the current attempt on; [remaining] more are allowed. *)
Fixpoint destroy_from (remaining : nat) (lease : Lease) : proc W unit :=
  pthen (call (destroy_vm lease)) (fun r =>
    match r with
    | Ok _ => mret tt
    | Err error =>
      if decide (ce_kind error = NotFound) then mret tt
      else match remaining with
           | O => Done (Err error)
           | S n => _ ← pause (from_millis 2); destroy_from n lease
           end
    | Panic => Done Panic
    end).
Definition destroy_with_retry (lease : Lease) : proc W unit := destroy_from 8 lease.

Definition child_capture (s : TakeSnapshotResponse) : ChildCapture :=
  mkChildCapture (tr_snapshot s) (tr_input_log_id s) (tr_state_hash s) (tr_machine_config_hash s)
    (tr_determinism_class s) (tr_icount s) (tr_vns s) (tr_frame_counter s) (tr_feature_bytes s)
    (tr_fb_lz4 s) (tr_fb_info s).

Definition drive_leased_job_inner (spec : JobSpec) (lease : Lease) (parent_frame : FrameCount) : proc W JobResult :=
  pad ← lift (pad_burst (js_burst spec));
  ef ← lift (burst_events pad parent_frame);
  let '(events, frame_budget) := ef in
  _ ← call (inject_inputs (mkInjectInputsRequest lease events));
  run ← call (run (mkRunRequest lease (FrameBudget frame_budget) (dv_hard_icount_cap config)
                     (Some (dv_capture config))));
  verdict ← lift (verdict_from_stop_reason (rr_reason run));
  let sdk_events := option_list (rr_sdk_event run) in
  if decide (verdict = GuestCrash) then
    _ ← destroy_with_retry lease;
    mret (mkJobResult (js_job_idx spec) verdict (js_burst spec) None sdk_events)
  else
    snapshot ← call (take_snapshot (mkTakeSnapshotRequest lease true (Some (dv_capture config))));
    pthen (destroy_with_retry lease) (fun _ =>
    mret (mkJobResult (js_job_idx spec) verdict (js_burst spec) (Some (child_capture snapshot)) sdk_events)).

Definition drive_leased_job (spec : JobSpec) (lease : Lease) (parent_frame : FrameCount) : proc W JobResult :=
  pthen (drive_leased_job_inner spec lease parent_frame) (fun result =>
    match result with
    | Err _ => pthen (destroy_with_retry lease) (fun _ => Done result)
    | _ => Done result
    end).

(** An allocation, retried while the worker answers with back-pressure. *)
Fixpoint allocate {A} (fuel : nat) (m : st W ClientError A) : proc W A :=
  match fuel with
  | O => pending
  | S n =>
    pthen (call m) (fun r =>
      match r with
      | Err error =>
        if is_backpressure error then _ ← pause EXHAUSTED_BACKOFF; allocate n m else Done (Err error)
      | _ => Done r
      end)
  end.

Definition job_entropy (batch_seq job_idx : N) : EntropySeed :=
  derive_job_entropy_seed (dv_experiment_seed config) batch_seq job_idx.

Definition timed_out (deadline : N) : ClientError :=
  mkClientError Unavailable ("job timed out after " +:+ pretty (deadline / nanos_per_milli)%N +:+ " ms").

(** [deadline] comes with the number of awaits that complete before it.  The
    lease is in the cell [active_lease] from the completed restore until
    the job is driven, so only then is there something to tear down. *)
Definition run_job_deadline (fuel : nat) (spec : JobSpec) (deadline : option (N * nat)) : proc W JobResult :=
  _ ← acquire (js_required_class spec);
  let entropy := job_entropy (js_batch_seq spec) (js_job_idx spec) in
  let restore := allocate fuel (restore_snapshot (mkRestoreSnapshotRequest (js_parent_snapshot spec) (Some entropy))) in
  let finish (result : res ClientError JobResult) := _ ← drop_permit; Done result in
  match deadline with
  | None =>
    pthen restore (fun r =>
      match r with
      | Ok restored => pthen (drive_leased_job spec (rsr_lease restored) (rsr_frame_counter restored)) finish
      | Err e => finish (Err e)
      | Panic => finish Panic
      end)
  | Some (d, n) =>
    cut n restore (fun r n' =>
      match r with
      | None => finish (Err (timed_out d))
      | Some (Ok restored) =>
        cut n' (drive_leased_job spec (rsr_lease restored) (rsr_frame_counter restored)) (fun r' _ =>
          match r' with
          | None => pthen (destroy_with_retry (rsr_lease restored)) (fun _ => finish (Err (timed_out d)))
          | Some result => finish result
          end)
      | Some (Err e) => finish (Err e)
      | Some Panic => finish Panic
      end)
  end.

Definition run_job (fuel : nat) (spec : JobSpec) : proc W JobResult := run_job_deadline fuel spec None.

(** ** Batches *)


(** [u32::try_from(i).unwrap_or(u32::MAX)] and [i as u32]. *)
Definition u32_saturated (i : nat) : N := N.min (N.of_nat i) u32_max.
Definition u32_wrapped (i : nat) : N := (N.of_nat i mod (u32_max + 1))%N.

(** The future of one job: its index with its result, unless it panics. *)
Definition with_index (job_idx : N) (p : proc W JobResult) : proc W JobOutput :=
  pthen p (fun r => match r with Panic => Done Panic | _ => mret (job_idx, r) end).

(** A joined job is its pair; only a panic makes a [JoinError]. *)
Definition join_result_to_job (index : nat) (result : res ClientError JobOutput) : JobOutput :=
  match result with
  | Ok output => output
  | _ => (u32_wrapped index, Err (mkClientError Internal ("job task panicked: " +:+ join_error_text)))
  end.

Definition all_failed (count : nat) (error : ClientError) : BatchOutcome :=
  (fun i => (u32_wrapped i, Err error)) <$> seq 0 count.

(** [count + 1] permits, all or none. *)
Fixpoint try_acquire_all (wanted got : nat) : proc W bool :=
  match wanted with
  | O => mret true
  | S n =>
    b ← try_acquire;
    if b : bool then try_acquire_all n (S got) else _ ← drop_permits got; mret false
  end.

Definition job_spec (batch_seq : N) (parent_snapshot : SnapshotRef) (required_class : option DeterminismClass)
    (job_idx : N) (burst : ProvenancedBurst) : JobSpec :=
  mkJobSpec batch_seq job_idx parent_snapshot required_class burst.

(** Destroying a list of leases, best effort. *)
Fixpoint destroy_all (leases : list Lease) : proc W unit :=
  match leases with
  | [] => mret tt
  | l :: rest => pthen (destroy_with_retry l) (fun _ => destroy_all rest)
  end.

(** How the fork path goes on once the permits are taken: fall back (no work
    was done), report, or run the children. *)
Inductive fork_plan :=
| FallBack
| Report (outcome : BatchOutcome)
| Forked (parent : RestoreSnapshotResponse) (children : list Lease).

Definition fork_setup (batch_seq : N) (parent_snapshot : SnapshotRef) (required_class : option DeterminismClass)
    (count : nat) : proc W fork_plan :=
  all ← try_acquire_all (S count) 0;
  if negb all then mret FallBack
  else
    checked ← look (fun w => match required_class with
                             | Some required => slots_class_check required w
                             | None => Ok tt
                             end);
    match checked with
    | Err error => _ ← drop_permits (S count); mret (Report (all_failed count error))
    | Panic => Done Panic
    | Ok _ =>
      pthen (call (restore_snapshot (mkRestoreSnapshotRequest parent_snapshot None))) (fun restored =>
      match restored with
      | Err _ => _ ← drop_permits (S count); mret FallBack
      | Panic => Done Panic
      | Ok parent =>
        let entropy_seeds := (fun i => job_entropy batch_seq (u32_wrapped i)) <$> seq 0 count in
        match ForkRequest_new (rsr_lease parent) entropy_seeds with
        | Err error =>
          pthen (destroy_with_retry (rsr_lease parent)) (fun _ =>
          _ ← drop_permits (S count); mret (Report (all_failed count error)))
        | Panic => Done Panic
        | Ok request =>
          pthen (call (fork request)) (fun forked =>
          match forked with
          | Ok children =>
            if decide (length children = count) then mret (Forked parent children)
            else
              pthen (destroy_all children) (fun _ =>
              pthen (destroy_with_retry (rsr_lease parent)) (fun _ =>
              _ ← drop_permits (S count);
              mret (Report (all_failed count (mkClientError DataLoss "fork returned a wrong child count")))))
          | Err error =>
            pthen (destroy_with_retry (rsr_lease parent)) (fun _ =>
            _ ← drop_permits (S count);
            mret (if is_backpressure error then FallBack else Report (all_failed count error)))
          | Panic => Done Panic
          end)
        end
      end)
    end.

(** The restore path: every job restores for itself. *)
Definition restored_child (fuel : nat) (batch_seq : N) (parent_snapshot : SnapshotRef)
    (required_class : option DeterminismClass) (i : nat) (burst : ProvenancedBurst) : proc W JobOutput :=
  let spec := job_spec batch_seq parent_snapshot required_class (u32_saturated i) burst in
  with_index (js_job_idx spec) (run_job fuel spec).

Definition run_restored (fuel : nat) (batch_seq : N) (parent_snapshot : SnapshotRef)
    (required_class : option DeterminismClass) (bursts : list ProvenancedBurst) : task W JobOutput BatchOutcome :=
  TJoin (imap (restored_child fuel batch_seq parent_snapshot required_class) bursts)
    (fun rs => TProc (mret (imap join_result_to_job rs))).

(** A forked child drives its job and releases its permit. *)
Definition forked_child (batch_seq : N) (parent_snapshot : SnapshotRef) (required_class : option DeterminismClass)
    (parent_frame : FrameCount) (i : nat) (p : ProvenancedBurst * Lease) : proc W JobOutput :=
  let spec := job_spec batch_seq parent_snapshot required_class (u32_wrapped i) p.1 in
  with_index (js_job_idx spec)
    (pthen (drive_leased_job spec p.2 parent_frame) (fun result => _ ← drop_permit; Done result)).

Definition run_batch (fuel : nat) (batch_seq : N) (parent_snapshot : SnapshotRef)
    (required_class : option DeterminismClass) (bursts : list ProvenancedBurst) : task W JobOutput BatchOutcome :=
  let restored := run_restored fuel batch_seq parent_snapshot required_class bursts in
  if (length bursts <? 2)%nat then restored
  else
    TThen (fork_setup batch_seq parent_snapshot required_class (length bursts)) (fun plan =>
    match plan with
    | Ok FallBack => restored
    | Ok (Report outcome) => TProc (mret outcome)
    | Ok (Forked parent children) =>
      TJoin (imap (forked_child batch_seq parent_snapshot required_class (rsr_frame_counter parent))
               (zip bursts children))
        (fun rs => TProc (
           pthen (destroy_with_retry (rsr_lease parent)) (fun _ =>
           _ ← drop_permit; mret (imap join_result_to_job rs))))
    | Err e => TProc (Done (Err e))
    | Panic => TProc (Done Panic)
    end).

(** ** Bootstrap *)

Definition root_capture (s : TakeSnapshotResponse) (ready_event : GuestEvent) : RootCapture :=
  mkRootCapture (tr_snapshot s) (tr_state_hash s) (tr_machine_config_hash s) (tr_determinism_class s)
    (tr_icount s) (tr_vns s) (tr_frame_counter s) (tr_feature_bytes s) (tr_fb_lz4 s) (tr_fb_info s) ready_event.

Definition bootstrap_leased (spec : BootstrapSpec) (lease : Lease) : proc W RootCapture :=
  run ← call (run (mkRunRequest lease (UntilNextSdkEvent None) (bs_bootstrap_icount_cap spec)
                     (Some (dv_capture config))));
  if decide (rr_reason run = NextSdkEvent) then
    ready_event ← lift (ok_or (rr_sdk_event run)
      (mkClientError DataLoss "worker reported NEXT_SDK_EVENT without an event"));
    snapshot ← call (take_snapshot (mkTakeSnapshotRequest lease false (Some (dv_capture config))));
    _ ← destroy_with_retry lease;
    mret (root_capture snapshot ready_event)
  else
    Done (Err (mkClientError FailedPrecondition
      ("bootstrap did not reach the Ready event: " +:+ StopReason_debug (rr_reason run)))).

Definition bootstrap (fuel : nat) (spec : BootstrapSpec) : proc W RootCapture :=
  _ ← acquire None;
  let entropy := derive_boot_entropy_seed (dv_experiment_seed config) in
  pthen (allocate fuel (create_vm (mkCreateVmRequest (bs_machine_config spec) entropy))) (fun created =>
  match created with
  | Ok response =>
    pthen (bootstrap_leased spec (cvr_lease response)) (fun result =>
    pthen (match result with
           | Err _ => destroy_with_retry (cvr_lease response)
           | _ => mret tt
           end) (fun _ =>
    _ ← drop_permit; Done result))
  | Err e => _ ← drop_permit; Done (Err e)
  | Panic => _ ← drop_permit; Done Panic
  end).
End Driver.

(** ** What the worker and the slot pool promise *)

Section Laws.
Context {W : Type} `{LG : Ledger W}.

(** Only the clock and the guests changed. *)
Record unchanged (w w' : W) : Prop := {
  un_ok : w_ok w';
  un_live : live w' = live w;
  un_fails : forall l, fails w' l = fails w l;
  un_permits : permits_out w' = permits_out w
}.
(** The worker has allocated the leases [ls]. *)
Record allocated (ls : list Lease) (w w' : W) : Prop := {
  al_ok : w_ok w';
  al_fresh : forall l, l ∈ ls -> l ∉ live w;
  al_nodup : NoDup ls;
  al_live : live w' = live w ∪ list_to_set ls;
  al_fails : forall l, fails w' l = fails w l;
  al_permits : permits_out w' = permits_out w
}.
(** [n] permits are out now. *)
Record permitted (n : nat) (w w' : W) : Prop := {
  pe_ok : w_ok w';
  pe_live : live w' = live w;
  pe_fails : forall l, fails w' l = fails w l;
  pe_permits : permits_out w' = n
}.
End Laws.

(** A worker that allocates fresh leases, keeps them until they are destroyed
    and says "not found" only of leases it does not have; a failed call
    changes nothing but the count of failed destroy calls. *)
Class WorkerLaws (W : Type) `{LG : Ledger W, HV : Hypervisor W, RT : Runtime W, SP : SlotPool W} := {
  restore_law : forall q (w w' : W) r, w_ok w -> restore_snapshot q w = (r, w') ->
    match r with Ok x => allocated [rsr_lease x] w w' | Err _ => unchanged w w' | Panic => False end;
  create_law : forall q (w w' : W) r, w_ok w -> create_vm q w = (r, w') ->
    match r with Ok x => allocated [cvr_lease x] w w' | Err _ => unchanged w w' | Panic => False end;
  fork_law : forall q (w w' : W) r, w_ok w -> fork q w = (r, w') ->
    match r with Ok cs => allocated cs w w' | Err _ => unchanged w w' | Panic => False end;
  inject_law : forall q (w w' : W) r, w_ok w -> inject_inputs q w = (r, w') -> r <> Panic /\ unchanged w w';
  run_law : forall q (w w' : W) r, w_ok w -> run q w = (r, w') -> r <> Panic /\ unchanged w w';
  snapshot_law : forall q (w w' : W) r, w_ok w -> take_snapshot q w = (r, w') -> r <> Panic /\ unchanged w w';
  destroy_law : forall l (w w' : W) r, w_ok w -> destroy_vm l w = (r, w') ->
    w_ok w' /\ permits_out w' = permits_out w /\
    match r with
    | Ok _ => live w' = live w ∖ {[l]} /\ forall l', fails w' l' = fails w l'
    | Err e => live w' = live w /\ fails w' l = S (fails w l) /\
        (forall l', l' <> l -> fails w' l' = fails w l') /\ (ce_kind e = NotFound -> l ∉ live w)
    | Panic => False
    end;
  sleep_law : forall d (w : W), w_ok w -> unchanged w (sleep d w);
  acquire_law : forall c (w w' : W) r, w_ok w -> slots_acquire c w = Some (r, w') ->
    match r with Ok _ => permitted (S (permits_out w)) w w' | Err _ => unchanged w w' | Panic => False end;
  class_check_law : forall c (w : W), slots_class_check c w <> Panic;
  try_acquire_law : forall (w w' : W) b, w_ok w -> slots_try_acquire w = (b, w') ->
    if b : bool then permitted (S (permits_out w)) w w' else unchanged w w';
  drop_law : forall (w : W), w_ok w -> (0 < permits_out w)%nat -> permitted (Nat.pred (permits_out w)) w (permit_drop w)
}.

(** ** Ownership of leases and permits *)

Section Safety.
Context {W : Type} `{B3 : Blake3, WL : WorkerLaws W}.
Context (join_error_text : string).
Context (config : DriverConfig).

Definition lease_r (l : Lease) (a : nat) : rsrc := mkRsrc [(l, a)] 0.
Definition permits_r (n : nat) : rsrc := mkRsrc [] n.
(** The lease [l], with some known number of failures, besides [F]. *)
Definition owns (l : Lease) (F R : rsrc) : Prop := exists a, R = join_rsrc (lease_r l a) F.

Lemma owned_lease l a F : owned (join_rsrc (lease_r l a) F) = {[l]} ∪ owned F.
Proof. rewrite owned_join. f_equal. unfold owned. cbn. set_solver. Qed.

Lemma effect_unchanged R w w' : holds R w -> unchanged w w' -> effect R R w w'.
Proof.
  intros (Hok & Hnd & Hl & Hk & Hp) []. constructor; [done|done| |intros l; by rewrite un_fails0|lia|].
  - eapply Forall_impl; [exact Hk|]. intros p. by rewrite un_fails0.
  - rewrite un_live0. split; [|set_solver]. apply set_eq. intros l. specialize (Hl l).
    rewrite elem_of_union, elem_of_difference. destruct (decide (l ∈ owned R)); naive_solver.
Qed.

Lemma effect_permitted R n m w w' : holds R w -> permitted n w w' ->
  (n + r_permits R = permits_out w + m)%nat -> effect R (mkRsrc (r_leases R) m) w w'.
Proof.
  intros (Hok & Hnd & Hl & Hk & Hp) [] Hn. constructor; [done|done| |intros l; by rewrite pe_fails0|cbn; lia|].
  - eapply Forall_impl; [exact Hk|]. intros p. by rewrite pe_fails0.
  - rewrite pe_live0. change (owned (mkRsrc (r_leases R) _)) with (owned R).
    split; [|set_solver]. apply set_eq. intros l. specialize (Hl l).
    rewrite elem_of_union, elem_of_difference. destruct (decide (l ∈ owned R)); naive_solver.
Qed.

Lemma effect_allocated R ls w w' : holds R w -> allocated ls w w' ->
  effect R (join_rsrc (mkRsrc ((., 0%nat) <$> ls) 0) R) w w'.
Proof.
  intros (Hok & Hnd & Hl & Hk & Hp) [].
  assert (((., 0%nat) <$> ls).*1 = ls) as Hfst by (rewrite <- list_fmap_compose; apply list_fmap_id).
  assert (owned (mkRsrc ((., 0%nat) <$> ls) 0) = list_to_set ls) as Ho by (unfold owned; cbn; by rewrite Hfst).
  constructor; [done| | |intros l; by rewrite al_fails0|cbn; lia|].
  - cbn. rewrite fmap_app, Hfst. apply NoDup_app. split_and!; [done| |done]. intros l H1 H2.
    apply (al_fresh0 l H1), Hl. unfold owned. by rewrite elem_of_list_to_set.
  - unfold known. cbn. apply Forall_app. split.
    + apply Forall_fmap, Forall_true. intros; cbn; lia.
    + eapply Forall_impl; [exact Hk|]. intros p. by rewrite al_fails0.
  - rewrite owned_join, Ho, al_live0. split.
    + apply set_eq. intros l. specialize (Hl l). rewrite !elem_of_union, elem_of_difference.
      destruct (decide (l ∈ owned R)); naive_solver.
    + intros l [H1|H1]%elem_of_union [H2 H3]%elem_of_difference; [|done].
      apply elem_of_list_to_set in H1. by eapply al_fresh0.
Qed.

(** ** Single calls *)

Lemma call_unchanged {A} (m : st W ClientError A) R I :
  (forall w w' r, w_ok w -> m w = (r, w') -> r <> Panic /\ unchanged w w') -> I R ->
  psafe (call m) R I (fun r R' => R' = R /\ r <> Panic).
Proof.
  intros Hm HI. split; [done|]. intros w Hw. cbn. destruct (m w) as [r w'] eqn:E.
  destruct (Hm w w' r) as [Hr Hu]; [apply Hw|done|]. exists R. split; [by apply effect_unchanged|done].
Qed.

Lemma pause_safe d R I : I R -> psafe (pause d) R I (fun r R' => R' = R /\ r = Ok tt).
Proof.
  intros HI. split; [done|]. intros w Hw. exists R. split; [|done]. apply effect_unchanged; [done|].
  apply sleep_law. apply Hw.
Qed.

Lemma look_safe {A} (f : W -> A) R I : I R -> psafe (look f) R I (fun r R' => R' = R /\ exists w, r = Ok (f w)).
Proof.
  intros HI. split; [done|]. intros w Hw. exists R. split; [|split; [done|by exists w]].
  apply effect_unchanged; [done|]. constructor; [apply Hw|done..].
Qed.

Lemma drop_permit_safe ls n I : I (mkRsrc ls (S n)) ->
  psafe drop_permit (mkRsrc ls (S n)) I (fun r R' => R' = mkRsrc ls n /\ r = Ok tt).
Proof.
  intros HI. split; [done|]. intros w Hw. pose proof Hw as (Hok & _ & _ & _ & Hp). cbn in Hp.
  exists (mkRsrc ls n). split; [|done]. pose proof (drop_law w Hok ltac:(lia)) as Hd.
  apply (effect_permitted _ _ n _ _ Hw Hd). cbn. lia.
Qed.

Lemma acquire_safe c R I : I R ->
  psafe (acquire c) R I (fun r R' => match r with
    | Ok _ => R' = mkRsrc (r_leases R) (S (r_permits R)) | Err _ => R' = R | Panic => False end).
Proof.
  intros HI. split; [done|]. intros w Hw. cbn. destruct (slots_acquire c w) as [[r w']|] eqn:E; [|done].
  pose proof (acquire_law c w w' r ltac:(apply Hw) E) as Hl. destruct r as [[]|e|]; [| |done].
  - eexists. split; [|done]. eapply effect_permitted; [done|done|lia].
  - exists R. split; [by apply effect_unchanged|done].
Qed.

Lemma try_acquire_safe R I : I R ->
  psafe try_acquire R I (fun r R' => match r with
    | Ok true => R' = mkRsrc (r_leases R) (S (r_permits R)) | Ok false => R' = R | _ => False end).
Proof.
  intros HI. split; [done|]. intros w Hw. cbn. destruct (slots_try_acquire w) as [b w'] eqn:E.
  pose proof (try_acquire_law w w' b ltac:(apply Hw) E) as Hl. destruct b.
  - eexists. split; [|done]. eapply effect_permitted; [done|done|lia].
  - exists R. split; [by apply effect_unchanged|done].
Qed.

(** What an allocating call leaves: the new leases in front, or nothing new. *)
Definition grants {A} (leases_of : A -> list Lease) (R : rsrc) (r : res ClientError A) (R' : rsrc) : Prop :=
  match r with
  | Ok x => R' = join_rsrc (mkRsrc ((., 0%nat) <$> leases_of x) 0) R
  | Err _ => R' = R
  | Panic => False
  end.

Lemma call_grants {A} (leases_of : A -> list Lease) (m : st W ClientError A) R I :
  (forall w w' r, w_ok w -> m w = (r, w') ->
     match r with Ok x => allocated (leases_of x) w w' | Err _ => unchanged w w' | Panic => False end) -> I R ->
  psafe (call m) R I (grants leases_of R).
Proof.
  intros Hm HI. split; [done|]. intros w Hw. cbn. destruct (m w) as [r w'] eqn:E.
  specialize (Hm w w' r ltac:(apply Hw) E). destruct r as [x|e|]; [| |done].
  - eexists. split; [by apply effect_allocated|done].
  - exists R. split; [by apply effect_unchanged|done].
Qed.

Lemma destroy_call_safe l F a :
  psafe (call (destroy_vm l)) (join_rsrc (lease_r l a) F) (owns l F)
    (fun r R' => match r with
                 | Ok _ => R' = F
                 | Err e => R' = join_rsrc (lease_r l (S a)) F /\ ce_kind e <> NotFound
                 | Panic => False
                 end).
Proof.
  split; [by exists a|]. intros w Hw. cbn. destruct (destroy_vm l w) as [r w'] eqn:E.
  pose proof Hw as (Hok & Hnd & Hl & Hk & Hp). rewrite owned_lease in Hl. cbn in Hnd, Hp.
  apply NoDup_cons in Hnd as [Hni Hnd].
  assert (l ∉ owned F) as Hnl by (unfold owned; by rewrite elem_of_list_to_set).
  apply Forall_cons in Hk as [Hka Hk]. cbn in Hka.
  destruct (destroy_law l w w' r Hok E) as (Hok' & Hp' & Hr). destruct r as [[]|e|]; [| |done].
  - destruct Hr as [Hl' Hf]. exists F. split; [|done]. constructor; [done|done| |intros x; by rewrite Hf|cbn; lia|].
    + eapply Forall_impl; [exact Hk|]. intros p. by rewrite Hf.
    + rewrite owned_lease, Hl'. split; [|set_solver]. apply set_eq. intros x. specialize (Hl x).
      rewrite !elem_of_union, !elem_of_difference, elem_of_union, elem_of_singleton in *.
      destruct (decide (x ∈ owned F)); naive_solver.
  - destruct Hr as (Hl' & Hf & Hfo & Hnf). exists (join_rsrc (lease_r l (S a)) F). split.
    + constructor; [done|cbn; by apply NoDup_cons| | |cbn; lia|].
      * apply Forall_cons. split; [cbn; lia|]. rewrite Forall_forall in Hk |- *. intros p Hin.
        rewrite Hfo; [by apply Hk|]. intros <-. apply Hni. by apply list_elem_of_fmap_2.
      * intros x. destruct (decide (x = l)) as [->|]; [lia|]. by rewrite Hfo.
      * rewrite !owned_lease, Hl'. split; [|set_solver]. apply set_eq. intros x. specialize (Hl x).
        rewrite !elem_of_union, !elem_of_difference, elem_of_union, elem_of_singleton in *.
        destruct (decide (x = l)), (decide (x ∈ owned F)); naive_solver.
    + split; [done|]. intros Hn%Hnf. apply Hn, Hl. set_solver.
Qed.

Lemma destroy_from_safe n l F : forall a,
  psafe (destroy_from n l) (join_rsrc (lease_r l a) F) (owns l F)
    (fun r R' => match r with
                 | Ok _ => R' = F
                 | Err _ => R' = join_rsrc (lease_r l (a + S n)) F
                 | Panic => False
                 end).
Proof.
  induction n as [|n IH]; intros a; cbn [destroy_from];
    (eapply psafe_then; [apply destroy_call_safe|]); intros [[]|e|] R' HR; try done.
  - destruct HR as [-> Hn]. rewrite decide_False by done. cbn. by rewrite Nat.add_1_r.
  - destruct HR as [-> Hn]. rewrite decide_False by done.
    eapply psafe_bind; [apply pause_safe; by eexists| |by intros e' R' [_ ?]|by intros R' [_ ?]].
    intros [] R' [-> _]. eapply psafe_mono; [done| |apply IH]. intros r R' Hr.
    by replace (a + S (S n))%nat with (S a + S n)%nat by lia.
Qed.

(** The ladder ends with the lease gone, or given up. *)
Definition torn_down (l : Lease) (F R : rsrc) : Prop := R = F \/ exists a, R = join_rsrc (lease_r l a) F /\ (GIVE_UP <= a)%nat.

Lemma destroy_safe l a F : psafe (destroy_with_retry l) (join_rsrc (lease_r l a) F) (owns l F)
  (fun r R' => match r with Ok _ => R' = F | Err _ => exists a', R' = join_rsrc (lease_r l a') F /\ (GIVE_UP <= a')%nat
               | Panic => False end).
Proof.
  eapply psafe_mono; [done| |apply destroy_from_safe]. intros [[]|e|] R'; [done| |done].
  intros ->. eexists. split; [done|]. unfold GIVE_UP. lia.
Qed.

(** ** Jobs *)

(** What a result says of the job it belongs to. *)
Definition job_ok (spec : JobSpec) (r : res ClientError JobResult) : Prop :=
  r <> Panic /\ forall j, r = Ok j ->
    jr_job_idx j = js_job_idx spec /\ jr_burst j = js_burst spec /\
    (jr_capture j = None <-> jr_verdict j = GuestCrash).

Lemma job_ok_err spec e : job_ok spec (Err e).
Proof. by split. Qed.

Lemma drive_inner_safe spec l pf F :
  psafe (drive_leased_job_inner config spec l pf) (join_rsrc (lease_r l 0) F) (owns l F)
    (fun r R' => job_ok spec r /\
       match r with Ok _ => torn_down l F R' | Err _ => owns l F R' | Panic => False end).
Proof.
  assert (owns l F (join_rsrc (lease_r l 0) F)) as H0 by (by exists 0%nat).
  assert (forall e R', owns l F R' -> job_ok spec (Err e) /\ owns l F R') as Herr by (by split).
  unfold drive_leased_job_inner, lift.
  destruct (pad_burst (js_burst spec)) as [pad|e|] eqn:Hpad; cbn [mbind proc_bind pthen];
    [|by apply Herr|by unfold pad_burst in Hpad; case_match].
  destruct (burst_events pad pf) as [[events budget]|e|] eqn:Hev; cbn [mbind proc_bind pthen];
    [|by apply Herr|by unfold burst_events in Hev; repeat case_match].
  eapply psafe_bind; [apply call_unchanged; [apply inject_law|done]| |by intros e R' [-> _]; apply Herr|by intros R' [_ ?]].
  intros n R' [-> _].
  eapply psafe_bind; [apply call_unchanged; [apply run_law|done]| |by intros e R' [-> _]; apply Herr|by intros R' [_ ?]].
  intros rn R' [-> _].
  destruct (verdict_from_stop_reason (rr_reason rn)) as [v|e|] eqn:Hv; cbn [mbind proc_bind pthen];
    [|by apply Herr|by destruct (rr_reason rn)].
  case_decide as Hc.
  - eapply psafe_bind; [apply destroy_safe| |intros e R' (a & -> & _); apply Herr; by exists a|done].
    intros [] R' ->. cbn. split; [|by left]. split; [done|]. intros j [= <-]. by rewrite Hc.
  - eapply psafe_bind; [apply call_unchanged; [apply snapshot_law|done]| |by intros e R' [-> _]; apply Herr|by intros R' [_ ?]].
    intros sn R' [-> _]. eapply psafe_then; [apply destroy_safe|].
    intros r R' Hr. cbn. split; [split; [done|]; by intros j [= <-]|].
    destruct r as [[]|e|]; [by left|destruct Hr as (a & -> & ?); right; eauto|done].
Qed.

Lemma torn_down_again {B} l F R' (k : proc W B) I Q : owns l F R' -> (forall X, owns l F X -> I X) ->
  (forall X, torn_down l F X -> psafe k X I Q) -> psafe (pthen (destroy_with_retry l) (fun _ => k)) R' I Q.
Proof.
  intros [a ->] HI Hk. eapply psafe_then; [eapply psafe_mono; [exact HI|done|apply destroy_safe]|].
  intros [[]|e|] R' Hr; [by apply Hk; left|apply Hk; right; naive_solver|done].
Qed.

Lemma drive_safe spec l pf F :
  psafe (drive_leased_job config spec l pf) (join_rsrc (lease_r l 0) F) (owns l F)
    (fun r R' => job_ok spec r /\ torn_down l F R').
Proof.
  eapply psafe_then; [apply drive_inner_safe|]. intros [j|e|] R' [Hj HR]; [done| |done].
  apply (torn_down_again l F); [done|done|]. by intros X HX.
Qed.

Lemma allocate_safe {A} (leases_of : A -> list Lease) (m : st W ClientError A) R I fuel :
  (forall w w' r, w_ok w -> m w = (r, w') ->
     match r with Ok x => allocated (leases_of x) w w' | Err _ => unchanged w w' | Panic => False end) -> I R ->
  psafe (allocate fuel m) R I (grants leases_of R).
Proof.
  intros Hm HI. induction fuel as [|n IH]; cbn [allocate]; [by apply psafe_pending|].
  eapply psafe_then; [by apply (call_grants leases_of)|]. intros [x|e|] R' HR; [done| |done].
  cbn in HR. subst R'. case_match; [|done].
  eapply psafe_bind; [by apply pause_safe| |by intros e' R' [_ ?]|by intros R' [_ ?]].
  by intros [] R' [-> _].
Qed.

(** Only leases given up, and [n] permits. *)
Definition only_permits (n : nat) (R : rsrc) : Prop :=
  r_permits R = n /\ Forall (fun p => (GIVE_UP <= p.2)%nat) (r_leases R).

Lemma torn_down_permits l n F R : only_permits n F -> torn_down l F R -> only_permits n R.
Proof. intros [Hp Hl] [->|(a & -> & Ha)]; [done|]. split; [done|]. by constructor. Qed.

Lemma drop_permits_safe n R : only_permits n R ->
  psafe (drop_permits n) R anything (fun r R' => r = Ok tt /\ spent R').
Proof.
  revert R. induction n as [|n IH]; intros [ls m] [Hp Hl]; cbn in Hp, Hl; subst m; [done|].
  eapply psafe_bind; [by apply drop_permit_safe| |by intros e R' [_ ?]|by intros R' [_ ?]].
  intros [] R' [-> _]. by apply IH.
Qed.

Lemma finish_safe {B} (r : res ClientError B) R (Q : res ClientError B -> rsrc -> Prop) : only_permits 1 R ->
  (forall R', spent R' -> Q r R') -> psafe (_ ← drop_permit; Done r) R anything Q.
Proof.
  intros HR HQ. pose proof (drop_permits_safe 1 R HR) as H. cbn [drop_permits] in H. destruct R as [ls m].
  destruct HR as [Hm Hl]. cbn in Hm, Hl. subst m.
  eapply psafe_bind; [by apply drop_permit_safe| |by intros e R' [_ ?]|by intros R' [_ ?]].
  intros [] R' [-> _]. apply HQ. done.
Qed.

Lemma run_job_deadline_safe fuel spec deadline :
  psafe (run_job_deadline config fuel spec deadline) rnone anything (fun r R' => spent R' /\ job_ok spec r).
Proof.
  unfold run_job_deadline.
  eapply psafe_bind; [by apply acquire_safe| |by intros e R' ->|done]. intros [] R' ->. cbn [r_leases rnone r_permits].
  change (mkRsrc [] 1) with (permits_r 1).
  assert (only_permits 1 (permits_r 1)) as H1 by done.
  assert (forall r R, only_permits 1 R -> job_ok spec r -> psafe (_ ← drop_permit; Done r) R anything
    (fun r R' => spent R' /\ job_ok spec r)) as Hfin by (intros r R HR Hr; by apply finish_safe).
  set (m := restore_snapshot _).
  pose proof (allocate_safe (fun x => [rsr_lease x]) m (permits_r 1) (.= permits_r 1) fuel (restore_law _) eq_refl) as Hal.
  destruct deadline as [[d n]|].
  - eapply psafe_cut; [exact Hal|done| |intros R' ->; by apply Hfin].
    intros [x|e|] n' R' HR; cbn in HR; subst; [|by apply Hfin|done].
    eapply psafe_cut; [apply drive_safe|done| |].
    + intros r _ R' [Hr HR']. apply Hfin; [|done]. by eapply torn_down_permits.
    + intros R' HR'. apply (torn_down_again (rsr_lease x) (permits_r 1)); [done|done|].
      intros X HX. apply Hfin; [|done]. by eapply torn_down_permits.
  - eapply psafe_then; [eapply psafe_mono; [done|done|exact Hal]|].
    intros [x|e|] R' HR; cbn in HR; subst; [|by apply Hfin|done].
    eapply psafe_then; [eapply psafe_mono; [done|done|apply drive_safe]|].
    intros r R' [Hr HR']. apply Hfin; [|done]. by eapply torn_down_permits.
Qed.

Lemma bootstrap_leased_safe spec l F :
  psafe (bootstrap_leased config spec l) (join_rsrc (lease_r l 0) F) anything
    (fun r R' => match r with Ok _ => R' = F | Err _ => owns l F R' | Panic => False end).
Proof.
  assert (owns l F (join_rsrc (lease_r l 0) F)) as H0 by (by exists 0%nat).
  eapply psafe_bind; [by apply call_unchanged; [apply run_law|]| |by intros e R' [-> _]|by intros R' [_ ?]].
  intros rn R' [-> _]. case_decide; [|done]. unfold lift.
  destruct (rr_sdk_event rn) as [ev|]; cbn [ok_or mbind proc_bind pthen]; [|done].
  eapply psafe_bind; [by apply call_unchanged; [apply snapshot_law|]| |by intros e R' [-> _]|by intros R' [_ ?]].
  intros sn R' [-> _].
  eapply psafe_bind; [eapply psafe_mono; [done|done|apply destroy_safe]| |by intros e R' (a & -> & _); exists a|done].
  by intros [] R' ->.
Qed.

Lemma bootstrap_safe fuel spec :
  psafe (bootstrap config fuel spec) rnone anything (fun r R' => spent R' /\ r <> Panic).
Proof.
  unfold bootstrap.
  eapply psafe_bind; [by apply acquire_safe| |by intros e R' ->|done]. intros [] R' ->. cbn [r_leases rnone r_permits].
  change (mkRsrc [] 1) with (permits_r 1).
  assert (only_permits 1 (permits_r 1)) as H1 by done.
  assert (forall (r : res ClientError RootCapture) R, only_permits 1 R -> r <> Panic ->
    psafe (_ ← drop_permit; Done r) R anything (fun r R' => spent R' /\ r <> Panic)) as Hfin
    by (intros r R HR Hr; by apply finish_safe).
  set (m := create_vm _).
  pose proof (allocate_safe (fun x => [cvr_lease x]) m (permits_r 1) anything fuel (create_law _) I) as Hal.
  eapply psafe_then; [exact Hal|]. intros [x|e|] R' HR; cbn in HR; subst; [|by apply Hfin|done].
  eapply psafe_then; [apply bootstrap_leased_safe|]. intros [c|e|] R' HR; [|..|done].
  - subst R'. cbn. by apply Hfin.
  - apply (torn_down_again (cvr_lease x) (permits_r 1)); [done|done|].
    intros X HX. apply Hfin; [|done]. by eapply torn_down_permits.
Qed.

(** ** Batches *)

Lemma same_rsrc_refl R : same_rsrc R R.
Proof. done. Qed.

Lemma try_acquire_all_safe n : forall got,
  psafe (try_acquire_all n got) (permits_r got) anything
    (fun r R' => match r with Ok true => R' = permits_r (n + got) | Ok false => spent R' | _ => False end).
Proof.
  induction n as [|n IH]; intros got; cbn [try_acquire_all]; [done|].
  eapply psafe_bind; [by apply try_acquire_safe| |by intros e R'|by intros R'].
  intros [] R' HR; subst R'.
  - cbn [permits_r r_leases r_permits]. eapply psafe_mono; [done| |apply IH]. intros [[]|e|] R'; try done.
    by rewrite Nat.add_succ_r.
  - eapply psafe_bind; [by apply drop_permits_safe| |by intros e R' [? _]|by intros R' [? _]].
    by intros [] R' [_ ?].
Qed.

Lemma destroy_all_safe ls : forall F,
  psafe (destroy_all ls) (join_rsrc (mkRsrc ((., 0%nat) <$> ls) 0) F) anything
    (fun r R' => r = Ok tt /\ exists gs, Forall (fun p => (GIVE_UP <= p.2)%nat) gs /\ same_rsrc R' (join_rsrc (mkRsrc gs 0) F)).
Proof.
  induction ls as [|l ls IH]; intros F; cbn [destroy_all].
  - split; [done|]. exists []. by split.
  - apply (torn_down_again l (join_rsrc (mkRsrc ((., 0%nat) <$> ls) 0) F)); [by exists 0%nat|done|].
    intros X [->|(a & -> & Ha)]; [apply IH|].
    eapply (psafe_same _ (join_rsrc (mkRsrc ((., 0%nat) <$> ls) 0) (join_rsrc (lease_r l a) F)));
      [split; cbn; [by rewrite Permutation_middle|done]|done| |].
    + intros r _ (-> & gs & Hgs & HL & HP). split; [done|]. exists gs. split; [done|].
      split; [|done]. cbn in *. rewrite <- HL. by rewrite Permutation_middle.
    + eapply psafe_mono; [done| |apply IH]. intros r R' (-> & gs & Hgs & HL & HP). split; [done|].
      exists ((l, a) :: gs). split; [by constructor|]. split; [|done]. rewrite HL. cbn.
      by rewrite Permutation_middle.
Qed.

Lemma torn_down_same l F F' R : same_rsrc F F' -> torn_down l F R -> forall n, only_permits n F' -> only_permits n R.
Proof.
  intros [HL HP] Ht n [Hn Hl]. apply (torn_down_permits l n F); [|done]. split; [congruence|]. by rewrite HL.
Qed.

(** The indices [0 .. n-1] of a batch that fits 32 bits. *)
Definition indexed (n : nat) (outcome : BatchOutcome) : Prop := outcome.*1 = N.of_nat <$> seq 0 n.

Lemma u32_wrapped_id i : (N.of_nat i <= u32_max)%N -> u32_wrapped i = N.of_nat i.
Proof. intros H. unfold u32_wrapped. apply N.mod_small. lia. Qed.

Lemma u32_saturated_id i : (N.of_nat i <= u32_max)%N -> u32_saturated i = N.of_nat i.
Proof. intros H. unfold u32_saturated. lia. Qed.

Lemma all_failed_indexed count e : (N.of_nat count <= u32_max)%N -> indexed count (all_failed count e).
Proof.
  intros H. unfold indexed, all_failed. rewrite <- list_fmap_compose. apply list_fmap_ext.
  intros i x [-> Hx]%lookup_seq. cbn. apply u32_wrapped_id. lia.
Qed.

(** What the fork path owns when it hands over. *)
Definition fork_post (count : nat) (r : res ClientError fork_plan) (R : rsrc) : Prop :=
  match r with
  | Ok FallBack => spent R
  | Ok (Report outcome) => spent R /\ exists e, outcome = all_failed count e
  | Ok (Forked parent children) => length children = count /\
      R = mkRsrc (((., 0%nat) <$> children) ++ [(rsr_lease parent, 0%nat)]) (S count)
  | _ => False
  end.

Lemma release_then count plan R : only_permits (S count) R -> (forall R', spent R' -> fork_post count (Ok plan) R') ->
  psafe (_ ← drop_permits (S count); mret plan) R anything (fork_post count).
Proof.
  intros HR Hp. eapply psafe_bind; [by apply drop_permits_safe| |by intros e R' [? _]|by intros R' [? _]].
  intros [] R' [_ ?]. by apply Hp.
Qed.

Lemma fork_setup_safe batch_seq snap required count :
  psafe (fork_setup config batch_seq snap required count) rnone anything (fork_post count).
Proof.
  unfold fork_setup.
  eapply psafe_bind; [apply (try_acquire_all_safe (S count) 0)| |by intros e R'|by intros R'].
  intros [] R' HR; cbn [negb]; [|done]. subst R'. rewrite Nat.add_0_r.
    assert (forall e R, spent R -> fork_post count (Ok (Report (all_failed count e))) R) as Hrep by (intros; split; eauto).
  eapply psafe_bind; [by apply look_safe| |by intros e R' [_ [? ?]]|by intros R' [_ [? ?]]].
  intros checked R' [-> [w [= Hc]]]. destruct checked as [[]|e|];
    [|apply release_then; [done|by apply Hrep]|
     destruct required; [by destruct (class_check_law d w)|done]].
  eapply psafe_then; [by apply (call_grants (fun x => [rsr_lease x])); [apply restore_law|]|].
  intros [parent|e|] R' HR; cbn in HR; subst; [|by apply release_then|done].
  set (F := permits_r (S count)). change (join_rsrc _ _) with (join_rsrc (lease_r (rsr_lease parent) 0) F).
  destruct (ForkRequest_new (rsr_lease parent) _) as [request|e|] eqn:Hreq.
  - eapply psafe_then; [by apply (call_grants id); [apply fork_law|]|].
    intros [children|e|] R' HR; cbn in HR; subst; [| |done].
    + case_decide as Hlen; [done|].
      eapply psafe_then; [apply destroy_all_safe|]. intros _ R' (_ & gs & Hgs & HL & HP).
      eapply (psafe_same _ (join_rsrc (lease_r (rsr_lease parent) 0) (join_rsrc (mkRsrc gs 0) F))).
      { split; [|done]. rewrite HL. cbn. by rewrite Permutation_middle. }
      { done. }
      { done. }
      apply (torn_down_again (rsr_lease parent) (join_rsrc (mkRsrc gs 0) F)); [by exists 0%nat|done|].
      intros X HX. apply release_then; [|by apply Hrep]. eapply torn_down_permits; [|done].
      split; [done|]. cbn. by rewrite app_nil_r.
    + apply (torn_down_again (rsr_lease parent) F); [by exists 0%nat|done|].
      intros X HX. apply release_then; [by apply (torn_down_permits (rsr_lease parent) _ F)|].
      intros R' HR'. destruct (is_backpressure e); [exact HR'|by apply Hrep].
  - apply (torn_down_again (rsr_lease parent) F); [by exists 0%nat|done|].
    intros X HX. apply release_then; [by apply (torn_down_permits (rsr_lease parent) _ F)|by apply Hrep].
  - unfold ForkRequest_new, ForkRequest_validate in Hreq. repeat case_match; try done; cbn in *; repeat case_match; done.
Qed.

(** What the outcome of a batch says of its bursts. *)
Definition batch_ok (bursts : list ProvenancedBurst) (outcome : BatchOutcome) : Prop :=
  length outcome = length bursts /\
  forall i burst o, bursts !! i = Some burst -> outcome !! i = Some o ->
    o.1 = N.of_nat i /\ o.2 <> Panic /\
    forall j, o.2 = Ok j -> jr_job_idx j = N.of_nat i /\ jr_burst j = burst /\
      (jr_capture j = None <-> jr_verdict j = GuestCrash).

(** What one joined child of the batch reports. *)
Definition child_ok (bursts : list ProvenancedBurst) (i : nat) (r : res ClientError JobOutput) : Prop :=
  exists o, r = Ok o /\ o.1 = N.of_nat i /\ o.2 <> Panic /\
    forall burst j, bursts !! i = Some burst -> o.2 = Ok j -> jr_job_idx j = N.of_nat i /\ jr_burst j = burst /\
      (jr_capture j = None <-> jr_verdict j = GuestCrash).

Lemma children_batch_ok bursts rs : length rs = length bursts -> (forall i r, rs !! i = Some r -> child_ok bursts i r) ->
  batch_ok bursts (imap (join_result_to_job join_error_text) rs).
Proof.
  intros Hlen Hrs. split; [by rewrite length_imap|]. intros i burst o Hb. rewrite list_lookup_imap.
  destruct (rs !! i) as [r|] eqn:Hr; [|done]. cbn. intros [= <-].
  destruct (Hrs i r Hr) as (o & -> & Ho & Hn & Hj). cbn. split_and!; [done|done|]. intros j. by apply Hj.
Qed.

Lemma all_failed_batch_ok bursts e : (N.of_nat (length bursts) <= u32_max)%N ->
  batch_ok bursts (all_failed (length bursts) e).
Proof.
  intros Hb. split; [unfold all_failed; by rewrite length_fmap, length_seq|]. intros i burst o Hi.
  unfold all_failed. rewrite list_lookup_fmap_Some. intros (k & -> & [-> Hk]%lookup_seq). cbn.
  split_and!; [apply u32_wrapped_id; lia|done|done].
Qed.

Lemma with_index_safe p i spec burst bursts R :
  bursts !! i = Some burst -> js_job_idx spec = N.of_nat i -> js_burst spec = burst ->
  psafe p R anything (fun r R' => spent R' /\ job_ok spec r) ->
  psafe (with_index (js_job_idx spec) p) R anything (fun r R' => spent R' /\ child_ok bursts i r).
Proof.
  intros Hb Hidx Hbu Hp. eapply psafe_then; [exact Hp|]. intros r R' [HR [Hn Hj]]. rewrite Hidx in *.
  destruct r as [j|e|]; [| |done]; (split; [done|]); eexists; (split; [done|]); cbn; (split_and!; [done|done|]);
    [|done]. intros b j' Hb' [= <-]. destruct (Hj j eq_refl) as (H1 & H2 & H3). split_and!; [done|congruence|apply H3..].
Qed.

Lemma run_restored_safe fuel batch_seq snap required bursts R : (N.of_nat (length bursts) <= u32_max)%N -> spent R ->
  tsafe (run_restored join_error_text config fuel batch_seq snap required bursts) R
    (fun r R' => spent R' /\ exists outcome, r = Ok outcome /\ batch_ok bursts outcome).
Proof.
  intros Hb HR. exists R, (replicate (length bursts) rnone), (child_ok bursts). split_and!.
  - rewrite fmap_replicate. assert (forall n, concat (replicate n (r_leases rnone)) = []) as ->
      by (induction n; cbn; done). by rewrite app_nil_r.
  - rewrite fmap_replicate, sum_list_replicate. cbn. lia.
  - by rewrite length_replicate, length_imap.
  - intros i p Ri Hp [-> _]%lookup_replicate. rewrite list_lookup_imap in Hp.
    destruct (bursts !! i) as [burst|] eqn:Hi; [|done]. apply Some_inj in Hp. subst p.
    pose proof (lookup_lt_Some _ _ _ Hi).
    apply (with_index_safe _ i (job_spec batch_seq snap required (u32_saturated i) burst) burst);
      [exact Hi|apply u32_saturated_id; lia|done|].
    apply run_job_deadline_safe.
  - rewrite length_imap. intros rs Hlen Hrs. split; [done|]. eexists. split; [done|]. by apply children_batch_ok.
Qed.

Lemma run_batch_safe fuel batch_seq snap required bursts : (N.of_nat (length bursts) <= u32_max)%N ->
  tsafe (run_batch join_error_text config fuel batch_seq snap required bursts) rnone
    (fun r R' => spent R' /\ exists outcome, r = Ok outcome /\ batch_ok bursts outcome).
Proof.
  intros Hb. unfold run_batch. case_match; [by apply run_restored_safe|].
  eexists. split; [apply fork_setup_safe|]. intros [[|outcome|parent children]|e|] R' HR; [| | |done|done].
  - by apply run_restored_safe.
  - destruct HR as [HR [e ->]]. split; [done|]. eexists. split; [done|]. by apply all_failed_batch_ok.
  - destruct HR as [Hlen ->].
    exists (mkRsrc [(rsr_lease parent, 0%nat)] 1), ((fun c => mkRsrc [(c, 0%nat)] 1) <$> children), (child_ok bursts).
    assert (length (zip bursts children) = length bursts) as Hz by (rewrite length_zip_with_l_eq; done).
    split_and!.
    + cbn. rewrite <- list_fmap_compose. rewrite Permutation_app_comm. cbn. apply Permutation_skip.
      clear. induction children; cbn; [done|]. by f_equiv.
    + cbn. rewrite <- list_fmap_compose, <- Hlen. f_equal. clear. induction children; cbn; [done|]. congruence.
    + by rewrite length_fmap, length_imap, Hz.
    + intros i p Ri Hp HRi. rewrite list_lookup_imap, lookup_zip_with in Hp.
      rewrite list_lookup_fmap in HRi.
      destruct (bursts !! i) as [burst|] eqn:Hi; [|done]. destruct (children !! i) as [c|] eqn:Hc; [|done].
      apply Some_inj in Hp, HRi. subst p Ri. pose proof (lookup_lt_Some _ _ _ Hi).
      apply (with_index_safe _ i (job_spec batch_seq snap required (u32_wrapped i) burst) burst);
        [exact Hi|apply u32_wrapped_id; lia|done|].
      change (mkRsrc [(c, 0%nat)] 1) with (join_rsrc (lease_r c 0) (permits_r 1)).
      eapply psafe_then; [eapply psafe_mono; [done|done|apply drive_safe]|].
      intros r R' [Hr HR]. apply finish_safe; [|done]. by apply (torn_down_permits c _ (permits_r 1)).
    + rewrite length_imap, Hz. intros rs Hrs Hch.
      apply (torn_down_again (rsr_lease parent) (permits_r 1)); [by exists 0%nat|done|].
      intros X HX. change (mret (imap _ rs)) with (Done (W:=W) (Ok (imap (join_result_to_job join_error_text) rs))).
      apply finish_safe; [by apply (torn_down_permits (rsr_lease parent) _ (permits_r 1))|]. intros R' HR. split; [done|]. eexists. split; [done|].
      by apply children_batch_ok.
Qed.
End Safety.

(** ** Never waiting for a slot *)

Section Ready.
Context {W : Type} `{B3 : Blake3, HV : Hypervisor W, RT : Runtime W, SP : SlotPool W}.
Context (join_error_text : string).
Context (config : DriverConfig).

(** Every await of the proc completes when polled, so it runs to its end. *)
Fixpoint ready {A} (p : proc W A) : Prop :=
  match p with
  | Done _ => True
  | Await poll => forall w, match poll w with Some (p', _) => ready p' | None => False end
  end.

Lemma ready_then {A B} (p : proc W A) (k : res ClientError A -> proc W B) :
  ready p -> (forall r, ready (k r)) -> ready (pthen p k).
Proof.
  intros Hp Hk. induction p as [r|poll IH] using proc_poll_ind; [apply Hk|].
  intros w. specialize (Hp w). cbn. destruct (poll w) as [[p' w']|] eqn:E; [|done]. by eapply IH.
Qed.

Lemma ready_bind {A B} (p : proc W A) (k : A -> proc W B) : ready p -> (forall a, ready (k a)) -> ready (p ≫= k).
Proof. intros Hp Hk. apply ready_then; [done|]. by intros [a|e|]; cbn; auto. Qed.

Lemma ready_call {A} (m : st W ClientError A) : ready (call m).
Proof. intros w. cbn. by destruct (m w). Qed.

Lemma ready_drop_permits n : ready (drop_permits n).
Proof. induction n; cbn [drop_permits]; [done|]. apply ready_bind; [apply ready_call|done]. Qed.

Lemma ready_destroy n l : ready (destroy_from n l).
Proof.
  induction n as [|n IH]; cbn [destroy_from]; (apply ready_then; [apply ready_call|]);
    intros [[]|e|]; try done; case_decide; try done.
  apply ready_bind; [apply ready_call|done].
Qed.

Lemma ready_destroy_all ls : ready (destroy_all ls).
Proof. induction ls; cbn [destroy_all]; [done|]. apply ready_then; [apply ready_destroy|done]. Qed.

Lemma ready_try_acquire_all n : forall got, ready (try_acquire_all n got).
Proof.
  induction n as [|n IH]; intros got; cbn [try_acquire_all]; [done|].
  apply ready_bind; [apply ready_call|]. intros []; [apply IH|].
  apply ready_bind; [apply ready_drop_permits|done].
Qed.

Lemma ready_drive spec l pf : ready (drive_leased_job config spec l pf).
Proof.
  apply ready_then.
  - unfold drive_leased_job_inner, lift. repeat (apply ready_bind; [by apply ready_call||done|intros]).
    destruct a0 as [events budget].
    do 2 (apply ready_bind; [apply ready_call|intros]). apply ready_bind; [done|intros].
    case_decide; [apply ready_bind; [apply ready_destroy|done]|].
    apply ready_bind; [apply ready_call|intros]. apply ready_then; [apply ready_destroy|done].
  - intros [j|e|]; try done. apply ready_then; [apply ready_destroy|done].
Qed.

Lemma ready_fork_setup batch_seq snap required count : ready (fork_setup config batch_seq snap required count).
Proof.
  assert (forall (plan : fork_plan), ready (_ ← drop_permits (S count); mret plan)) as Hr
    by (intros plan; apply ready_bind; [apply ready_drop_permits|done]).
  unfold fork_setup. apply ready_bind; [apply ready_try_acquire_all|intros []; cbn [negb]; [|done]].
  apply ready_bind; [apply ready_call|intros [[]|e|]; [|apply Hr|done]].
  apply ready_then; [apply ready_call|intros [parent|e|]; [|apply Hr|done]].
  destruct (ForkRequest_new _ _); [|apply ready_then; [apply ready_destroy|intros; apply Hr]|done].
  apply ready_then; [apply ready_call|]. intros [children|e|]; [|apply ready_then; [apply ready_destroy|intros; apply Hr]|done].
  case_decide; [done|]. apply ready_then; [apply ready_destroy_all|intros].
  apply ready_then; [apply ready_destroy|intros; apply Hr].
Qed.

(** Fork dispatch never waits for a slot: once it has begun to take permits,
    every part of it (the set-up with its all-or-nothing reservation, the
    children, the teardown of the parent) completes at each poll and ends,
    whatever the worker answers, so batches that hold permits cannot
    deadlock with each other. *)
Theorem fork_path_never_waits (batch_seq : N) (snap : SnapshotRef) (required : option DeterminismClass) (count : nat) :
  ready (fork_setup config batch_seq snap required count) /\
  (forall frame i p, ready (forked_child config batch_seq snap required frame i p)) /\
  (forall l n, ready (pthen (destroy_with_retry l) (fun _ => drop_permits n))).
Proof.
  split_and!; [apply ready_fork_setup|..].
  - intros frame i p. apply ready_then; [|by intros []]. apply ready_then; [apply ready_drive|].
    intros r. apply ready_bind; [apply ready_call|done].
  - intros l n. apply ready_then; [apply ready_destroy|]. intros _. apply ready_drop_permits.
Qed.
End Ready.

(** ** Input schedule of a burst *)

Definition hold_sum (segments : list PadSegment) : N := foldr (fun s n => seg_hold_frames s + n)%N 0%N segments.

Lemma segment_events_spec base segments : forall offset, (base + offset + hold_sum segments <= u32_max)%N ->
  (segment_events base offset segments).2 = (offset + hold_sum segments)%N /\
  forall i s, segments !! i = Some s ->
    (segment_events base offset segments).1 !! i =
    Some (mkScheduledEvent (AtFrame (base + offset + hold_sum (take i segments))) (InPadSet (mkPadSet 0 (seg_buttons s)))).
Proof.
  induction segments as [|s rest IH]; intros offset Hmax; cbn [segment_events hold_sum foldr] in *.
  - split; [cbn; lia|done].
  - fold (hold_sum rest) in *. assert (saturating_add u32_max offset (seg_hold_frames s) = offset + seg_hold_frames s)%N as Hs
      by (unfold saturating_add; lia).
    rewrite Hs. destruct (IH (offset + seg_hold_frames s)%N) as [IH1 IH2]; [lia|].
    destruct (segment_events base (offset + seg_hold_frames s) rest) as [evs total]. cbn in IH1, IH2 |- *.
    split; [lia|]. intros [|i] x.
    + cbn. intros [= ->]. do 3 f_equal. unfold saturating_add. lia.
    + change (rest !! i = Some x -> evs !! i = Some (mkScheduledEvent (AtFrame
        (base + offset + (seg_hold_frames s + hold_sum (take i rest)))) (InPadSet (mkPadSet 0 (seg_buttons x))))).
      intros Hx. rewrite (IH2 i x Hx). do 3 f_equal. lia.
Qed.

(** The schedule of a pad burst, while frame numbers fit 32 bits: one event
    per segment, pressing its buttons at the first frame after the parent
    plus the frames held before, so in the future of the parent and inside
    the budget, which is the sum of the holds; it is refused exactly when no
    frame is held. *)
Theorem burst_events_spec (burst : PadBurst) (parent : FrameCount) :
  (parent + 1 + hold_sum (pb_segments burst) <= u32_max)%N ->
  match burst_events burst parent with
  | Ok (events, budget) =>
    budget = hold_sum (pb_segments burst) /\ (0 < budget)%N /\ length events = length (pb_segments burst) /\
    forall i s, pb_segments burst !! i = Some s ->
      let frame := (parent + 1 + hold_sum (take i (pb_segments burst)))%N in
      events !! i = Some (mkScheduledEvent (AtFrame frame) (InPadSet (mkPadSet 0 (seg_buttons s)))) /\
      (parent < frame)%N /\ (seg_hold_frames s <> 0 -> frame <= parent + budget)%N
  | Err e => ce_kind e = InvalidRequest /\ hold_sum (pb_segments burst) = 0%N
  | Panic => False
  end.
Proof.
  intros Hmax. unfold burst_events. destruct (pb_segments burst) as [|s0 rest] eqn:Hseg; [done|].
  rewrite <- Hseg in *. clear Hseg s0 rest. set (segs := pb_segments burst) in *.
  assert (saturating_add u32_max parent 1 = parent + 1)%N as -> by (unfold saturating_add; lia).
  destruct (segment_events_spec (parent + 1) segs 0) as [Ht He]; [lia|].
  assert (length (segment_events (parent + 1) 0 segs).1 = length segs) as Hl.
  { clear. generalize 0%N as o. induction segs as [|s r IH]; intros o; cbn; [done|].
    specialize (IH (saturating_add u32_max o (seg_hold_frames s))).
    destruct (segment_events _ _ r). cbn in *. lia. }
  destruct (segment_events (parent + 1) 0 segs) as [evs total]. cbn in Ht, He, Hl. subst total.
  rewrite N.add_0_l in *. destruct (N.eqb_spec (hold_sum segs) 0) as [E|E]; [done|].
  split_and!; [done|lia|done|]. intros i s Hi. cbv zeta. rewrite (He i s Hi), N.add_0_r. split; [done|].
  assert (hold_sum (take i segs) + seg_hold_frames s <= hold_sum segs)%N; [|lia].
  rewrite <- (take_drop_middle segs i s Hi) at 2. clear.
  unfold hold_sum. induction (take i segs) as [|x l IH]; cbn in *; lia.
Qed.

(** ** Witness *)

Lemma burst_events_spec_witness :
  match burst_events (mkPadBurst [mkPadSegment 1 2; mkPadSegment 64 3] "grid") 10 with
  | Ok (events, budget) => budget = 5%N /\ length events = 2%nat
  | _ => False
  end.
Proof.
  pose proof (burst_events_spec (mkPadBurst [mkPadSegment 1 2; mkPadSegment 64 3] "grid") 10) as H.
  destruct (burst_events _ _) as [[events budget]|e|].
  - destruct H as (H1 & _ & H2 & _); [by vm_compute|]. by split.
  - destruct H as [_ H]; [by vm_compute|]. discriminate H.
  - apply H. by vm_compute.
Defined.
