(* ===== verification/Grid.v ===== *)
(** The synthetic grid world (crates/orch-fakes/src/grid.rs) that the doubles of
    the hypervisor and the scorer run and score: three rooms of five by five
    cells, doors, a key, a boss and a goal. *)
From S2P Require Import Prelude Float64 Types Rng.
Local Open Scope string_scope.
Local Open Scope list_scope.

Definition GRID_WIDTH : N := 5.
Definition GRID_HEIGHT : N := 5.
Definition BOSS_MAX_HP : N := 3.
Definition KEY_BOSS_DOOR : N := 1.

Inductive Room := RoomStart | RoomKeyVault | RoomBoss.
Global Instance Room_eq_dec : EqDecision Room.
Proof. solve_decision. Defined.
Definition Room_id (r : Room) : N := match r with RoomStart => 0 | RoomKeyVault => 1 | RoomBoss => 2 end.

Inductive GridAction := Wait | Up | Down | Left | Right | Attack.
Global Instance GridAction_eq_dec : EqDecision GridAction.
Proof. solve_decision. Defined.

Inductive StepOutcome :=
| Moved | BlockedByWall | BlockedByDoor | PickedKey | HitBoss | BossDefeated | GoalReached | Noop.

Record GridPos := mkGridPos { gp_room : Room; gp_x : N; gp_y : N }.
Record GridState := mkGridState { gs_x : N; gs_y : N; gs_room : Room; gs_keys : N; gs_boss_hp : N }.
Global Instance GridState_eq_dec : EqDecision GridState.
Proof. solve_decision. Defined.

Definition pos_matches (p : GridPos) (s : GridState) : bool :=
  (Room_id (gs_room s) =? Room_id (gp_room p))%N && (gs_x s =? gp_x p)%N && (gs_y s =? gp_y p)%N.

Record GridDoor := mkGridDoor { gd_at : GridPos; gd_action : GridAction; gd_to : GridPos; gd_requires_key : bool }.

(** The score tables are indexed by the room id. *)
Record GridWorld := mkGridWorld {
  gw_name : string;
  gw_start : GridPos;
  gw_walls : list GridPos;
  gw_doors : list GridDoor;
  gw_key : option GridPos;
  gw_boss : option GridPos;
  gw_goal : GridPos;
  gw_room_base_score : f64 * f64 * f64;
  gw_room_x_weight : f64 * f64 * f64;
  gw_room_y_weight : f64 * f64 * f64;
  gw_prune_cell : option GridPos
}.

(** ** Worlds *)

Definition f64_small (n : N) : f64 := f64_of_N n.

Definition three_room : GridWorld :=
  mkGridWorld "three-room" (mkGridPos RoomStart 0 2)
    ([mkGridPos RoomStart 1 0; mkGridPos RoomStart 1 1; mkGridPos RoomStart 1 3; mkGridPos RoomStart 1 4] ++
     [mkGridPos RoomKeyVault 3 1] ++ [mkGridPos RoomBoss 1 3; mkGridPos RoomBoss 3 3])
    [mkGridDoor (mkGridPos RoomStart 4 2) Right (mkGridPos RoomKeyVault 0 2) false;
     mkGridDoor (mkGridPos RoomKeyVault 0 2) Left (mkGridPos RoomStart 4 2) false;
     mkGridDoor (mkGridPos RoomStart 2 0) Up (mkGridPos RoomBoss 2 4) true]
    (Some (mkGridPos RoomKeyVault 2 2)) (Some (mkGridPos RoomBoss 2 2)) (mkGridPos RoomBoss 4 0)
    (f64_zero, f64_small 100, f64_small 200) (f64_small 10, f64_small 10, f64_small 10)
    (f64_one, f64_one, f64_one) (Some (mkGridPos RoomStart 0 0)).

Definition corridor_hidden_key : GridWorld :=
  mkGridWorld "corridor-hidden-key" (mkGridPos RoomStart 0 2)
    (concat ((fun x : nat =>
       [mkGridPos RoomStart (N.of_nat x) 3; mkGridPos RoomStart (N.of_nat x) 4] ++
       (if (x =? 0)%nat then [] else [mkGridPos RoomStart (N.of_nat x) 1; mkGridPos RoomStart (N.of_nat x) 0]))
       <$> seq 0 5))
    [mkGridDoor (mkGridPos RoomStart 0 0) Up (mkGridPos RoomKeyVault 0 0) false;
     mkGridDoor (mkGridPos RoomKeyVault 4 0) Up (mkGridPos RoomStart 0 2) false;
     mkGridDoor (mkGridPos RoomStart 4 2) Right (mkGridPos RoomBoss 0 2) true]
    (Some (mkGridPos RoomKeyVault 4 0)) None (mkGridPos RoomBoss 4 2)
    (f64_zero, f64_zero, f64_small 200) (f64_small 10, f64_zero, f64_small 10)
    (f64_zero, f64_zero, f64_zero) None.

(** ** Dynamics *)

Definition has_key (s : GridState) : bool := negb (N.land (gs_keys s) KEY_BOSS_DOOR =? 0)%N.

Definition boss_hp_max (w : GridWorld) : N := match gw_boss w with Some _ => BOSS_MAX_HP | None => 0 end.
Definition initial_state (w : GridWorld) : GridState :=
  mkGridState (gp_x (gw_start w)) (gp_y (gw_start w)) (gp_room (gw_start w)) 0 (boss_hp_max w).
Definition goal_reached (w : GridWorld) (s : GridState) : bool :=
  pos_matches (gw_goal w) s && (gs_boss_hp s =? 0)%N.
Definition is_wall (w : GridWorld) (room : Room) (x y : N) : bool :=
  existsb (fun p => bool_decide (gp_room p = room) && (gp_x p =? x)%N && (gp_y p =? y)%N) (gw_walls w).

Definition set_pos (room : Room) (x y : N) (s : GridState) : GridState :=
  mkGridState x y room (gs_keys s) (gs_boss_hp s).

(** [add_delta]: one step of a coordinate, or out of the range of a byte. *)
Definition add_delta (value : N) (delta : Z) : option N :=
  if (delta <? 0)%Z then checked_sub value (Z.to_N (- delta)) else checked_add u8_max value (Z.to_N delta).

Definition action_delta (a : GridAction) : Z * Z :=
  match a with
  | Up => (0, -1)%Z | Down => (0, 1)%Z | Left => (-1, 0)%Z | Right => (1, 0)%Z
  | Wait | Attack => (0, 0)%Z
  end.

Definition attack (w : GridWorld) (s : GridState) : GridState * StepOutcome :=
  match gw_boss w with
  | None => (s, Noop)
  | Some boss =>
    if negb (pos_matches boss s) || (gs_boss_hp s =? 0)%N then (s, Noop)
    else
      let s' := mkGridState (gs_x s) (gs_y s) (gs_room s) (gs_keys s) (gs_boss_hp s - 1) in
      (s', if (gs_boss_hp s' =? 0)%N then BossDefeated else HitBoss)
  end.

Definition walk (w : GridWorld) (s : GridState) (a : GridAction) : GridState * StepOutcome :=
  let '(dx, dy) := action_delta a in
  match add_delta (gs_x s) dx, add_delta (gs_y s) dy with
  | Some next_x, Some next_y =>
    if (GRID_WIDTH <=? next_x)%N || (GRID_HEIGHT <=? next_y)%N || is_wall w (gs_room s) next_x next_y
    then (s, BlockedByWall)
    else (set_pos (gs_room s) next_x next_y s, Moved)
  | _, _ => (s, BlockedByWall)
  end.

(** The first door that opens here in this direction decides. *)
Fixpoint through_doors (doors : list GridDoor) (w : GridWorld) (s : GridState) (a : GridAction) : GridState * StepOutcome :=
  match doors with
  | [] => walk w s a
  | d :: rest =>
    if pos_matches (gd_at d) s && bool_decide (gd_action d = a) then
      if gd_requires_key d && negb (has_key s) then (s, BlockedByDoor)
      else (set_pos (gp_room (gd_to d)) (gp_x (gd_to d)) (gp_y (gd_to d)) s, Moved)
    else through_doors rest w s a
  end.
Definition move_dir (w : GridWorld) (s : GridState) (a : GridAction) : GridState * StepOutcome :=
  through_doors (gw_doors w) w s a.

(** The end of a step: the key is picked up, the goal is noticed. *)
Definition after_move (w : GridWorld) (r : GridState * StepOutcome) : GridState * StepOutcome :=
  let '(s, outcome) := r in
  if match gw_key w with Some key => pos_matches key s && negb (has_key s) | None => false end then
    (mkGridState (gs_x s) (gs_y s) (gs_room s) (N.lor (gs_keys s) KEY_BOSS_DOOR) (gs_boss_hp s), PickedKey)
  else if goal_reached w s then (s, GoalReached)
  else (s, outcome).

Definition grid_step (w : GridWorld) (s : GridState) (a : GridAction) : GridState * StepOutcome :=
  after_move w
    match a with
    | Wait => (s, Noop)
    | Attack => attack w s
    | Up | Down | Left | Right => move_dir w s a
    end.

Definition apply_actions (w : GridWorld) (s : GridState) (actions : list GridAction) : GridState :=
  foldl (fun s a => (grid_step w s a).1) s actions.

(** ** Scores *)

Definition by_room (t : f64 * f64 * f64) (r : Room) : f64 :=
  match r with RoomStart => t.1.1 | RoomKeyVault => t.1.2 | RoomBoss => t.2 end.

Definition progress_score_value (w : GridWorld) (s : GridState) : f64 :=
  let room := gs_room s in
  f64_add (f64_add (f64_add (f64_add (f64_add (by_room (gw_room_base_score w) room)
    (f64_mul (f64_of_N (gs_x s)) (by_room (gw_room_x_weight w) room)))
    (f64_mul (f64_of_N (GRID_HEIGHT - 1 - gs_y s)) (by_room (gw_room_y_weight w) room)))
    (if has_key s then f64_small 25 else f64_zero))
    (f64_mul (f64_of_N (boss_hp_max w - gs_boss_hp s)) (f64_small 40)))
    (if goal_reached w s then f64_small 1000 else f64_zero).

Definition stage_value (w : GridWorld) (s : GridState) : N :=
  if goal_reached w s then 4
  else if decide (gs_room s = RoomBoss) then 3
  else if has_key s then 2
  else if decide (gs_room s = RoomStart) then 1
  else 0.

Definition grid_prune (w : GridWorld) (s : GridState) : bool :=
  match gw_prune_cell w with Some cell => pos_matches cell s | None => false end.

(** ** States *)

Definition GridState_new : GridState := mkGridState 0 2 RoomStart 0 BOSS_MAX_HP.
(** The shortcut for the default world. *)
Definition state_goal_reached (s : GridState) : bool :=
  match gs_room s with RoomBoss => true | _ => false end && (gs_boss_hp s =? 0)%N && (gs_x s =? 4)%N && (gs_y s =? 0)%N.

Definition state_bytes (s : GridState) : list N := [Room_id (gs_room s); gs_x s; gs_y s; gs_keys s; gs_boss_hp s].
Definition grid_state_hash `{B3 : Blake3} (s : GridState) : StateHash :=
  blake3 (bytes_of_string "orch-fakes/grid-state/v1" ++ state_bytes s).

Definition grid_cell_key (s : GridState) : CellKey :=
  N.lor (N.lor (N.lor (N.lor (N.shiftl (gs_boss_hp s) 48) (N.shiftl (gs_keys s) 40))
    (N.shiftl (Room_id (gs_room s)) 32)) (N.shiftl (gs_x s) 16)) (gs_y s).

(** The feature bytes of a state (crates/orch-fakes/src/scorer.rs). *)
Definition encode_grid_features (s : GridState) : list N := state_bytes s.

(** ** Reachable states *)

(** A position inside its room and not in a wall. *)
Definition pos_ok (w : GridWorld) (p : GridPos) : Prop :=
  (gp_x p < GRID_WIDTH)%N /\ (gp_y p < GRID_HEIGHT)%N /\ is_wall w (gp_room p) (gp_x p) (gp_y p) = false.
Definition world_ok (w : GridWorld) : Prop :=
  pos_ok w (gw_start w) /\ Forall (fun d => pos_ok w (gd_to d)) (gw_doors w).

Record state_ok (w : GridWorld) (s : GridState) : Prop := {
  so_pos : pos_ok w (mkGridPos (gs_room s) (gs_x s) (gs_y s));
  so_keys : gs_keys s = 0%N \/ gs_keys s = KEY_BOSS_DOOR;
  so_boss : (gs_boss_hp s <= boss_hp_max w)%N
}.

(** Keys are kept and the boss does not recover. *)
Definition progresses (s s' : GridState) : Prop :=
  (has_key s = true -> has_key s' = true) /\ (gs_boss_hp s' <= gs_boss_hp s)%N.

Lemma initial_ok w : world_ok w -> state_ok w (initial_state w).
Proof. intros [Hs _]. constructor; [done|by left|done]. Qed.

Lemma walk_ok w s a : state_ok w s -> state_ok w (walk w s a).1 /\ gs_keys (walk w s a).1 = gs_keys s /\
  gs_boss_hp (walk w s a).1 = gs_boss_hp s.
Proof.
  intros Hs. unfold walk. destruct (action_delta a) as [dx dy].
  destruct (add_delta (gs_x s) dx) as [x|]; [|done]. destruct (add_delta (gs_y s) dy) as [y|]; [|done].
  destruct (N.leb_spec GRID_WIDTH x); [done|]. destruct (N.leb_spec GRID_HEIGHT y); [done|]. cbn.
  destruct (is_wall w (gs_room s) x y) eqn:Hw; [done|]. split; [|done].
  destruct Hs. by constructor.
Qed.

Lemma move_ok w s a : world_ok w -> state_ok w s ->
  state_ok w (move_dir w s a).1 /\ gs_keys (move_dir w s a).1 = gs_keys s /\
  gs_boss_hp (move_dir w s a).1 = gs_boss_hp s.
Proof.
  intros [_ Hd] Hs. unfold move_dir. induction Hd as [|d ds Hp _ IH]; cbn; [by apply walk_ok|].
  destruct (_ && _); [|done]. destruct (_ && _); [done|]. cbn. split; [|done]. destruct Hs. by constructor.
Qed.

Lemma attack_ok w s : state_ok w s -> state_ok w (attack w s).1 /\ gs_keys (attack w s).1 = gs_keys s /\
  (gs_boss_hp (attack w s).1 <= gs_boss_hp s)%N.
Proof.
  intros Hs. unfold attack. destruct (gw_boss w); [|done]. destruct (_ || _); [done|]. cbn. split; [|lia].
  destruct Hs. constructor; [done|done|cbn; lia].
Qed.

Lemma after_move_ok w s r : state_ok w r.1 -> gs_keys r.1 = gs_keys s -> (gs_boss_hp r.1 <= gs_boss_hp s)%N ->
  state_ok w (after_move w r).1 /\ progresses s (after_move w r).1.
Proof.
  destruct r as [s1 outcome]. cbn. intros H1 H2 H3. unfold progresses, has_key.
  destruct (match gw_key w with Some key => _ | None => false end); cbn.
  - destruct H1 as [Hp Hk Hb]. split.
    + constructor; [done| |done]. cbn. right. by destruct Hk as [->| ->].
    + split; [|done]. intros _. by destruct Hk as [->| ->].
  - destruct (goal_reached w s1); cbn; by rewrite H2.
Qed.

Lemma grid_step_ok w s a : world_ok w -> state_ok w s ->
  state_ok w (grid_step w s a).1 /\ progresses s (grid_step w s a).1.
Proof.
  intros Hw Hs. unfold grid_step.
  assert (forall b, state_ok w (after_move w (move_dir w s b)).1 /\ progresses s (after_move w (move_dir w s b)).1) as Hm.
  { intros b. destruct (move_ok w s b Hw Hs) as (? & ? & ?). apply after_move_ok; [done|done|lia]. }
  destruct a; try apply Hm.
  - by apply after_move_ok.
  - destruct (attack_ok w s Hs) as (? & ? & ?). by apply after_move_ok.
Qed.

Lemma apply_actions_ok w actions : world_ok w -> forall s, state_ok w s ->
  state_ok w (apply_actions w s actions) /\ progresses s (apply_actions w s actions).
Proof.
  intros Hw. induction actions as [|a l IH]; intros s Hs; cbn.
  - split; [done|]. by split.
  - destruct (grid_step_ok w s a Hw Hs) as [H1 [H2 H3]]. destruct (IH _ H1) as [H4 [H5 H6]].
    split; [done|]. split; [auto|]. by etransitivity.
Qed.

Lemma three_room_ok : world_ok three_room.
Proof. split; [by split_and!|]. repeat constructor. Qed.

Lemma corridor_ok : world_ok corridor_hidden_key.
Proof. split; [by split_and!|]. repeat constructor. Qed.

(** The boss room of the default world is entered with the key only. *)
Definition boss_needs_key (s : GridState) : Prop := gs_room s = RoomBoss -> has_key s = true.

Lemma after_move_boss r : boss_needs_key r.1 -> boss_needs_key (after_move three_room r).1.
Proof.
  destruct r as [s1 outcome]. cbn [fst after_move gw_key three_room]. unfold boss_needs_key. intros H1.
  destruct (_ && _) eqn:E; [|by destruct (goal_reached _ _)].
  cbn. intros Hr. unfold pos_matches in E. rewrite Hr in E. done.
Qed.

Lemma move_boss s a : boss_needs_key s -> boss_needs_key (move_dir three_room s a).1.
Proof.
  intros Hs. unfold move_dir. cbn [gw_doors three_room through_doors].
  destruct (pos_matches _ s && _); [done|]. destruct (pos_matches _ s && _); [done|].
  destruct (pos_matches _ s && _); [|unfold walk; destruct (action_delta a); repeat case_match; done].
  cbn [gd_requires_key andb]. destruct (has_key s) eqn:Hk; [|done]. by intros _.
Qed.

Lemma three_room_boss_step s a : boss_needs_key s -> boss_needs_key (grid_step three_room s a).1.
Proof.
  intros Hs. destruct a; apply after_move_boss; try (by apply move_boss); [done|].
  unfold attack. cbn [gw_boss three_room]. by destruct (_ || _).
Qed.

(** The grid world is well behaved: in any world whose start and door
    targets are free cells, every state a sequence of actions reaches lies
    inside its room and outside the walls, holds at most the one key, never
    loses it, and has a boss that never recovers; and the default world and
    the corridor are such worlds. *)
Theorem grid_states_valid (w : GridWorld) (before after : list GridAction) : world_ok w ->
  let s := apply_actions w (initial_state w) before in
  state_ok w s /\ progresses s (apply_actions w s after).
Proof.
  intros Hw s. destruct (apply_actions_ok w before Hw _ (initial_ok w Hw)) as [Hs _].
  split; [done|]. by apply apply_actions_ok.
Qed.

(** Both worlds can be solved, and only through their obstacles: the default
    world has a path to the goal, and every path to it has taken the key and
    beaten the boss; the corridor is solved with moves up, right and left
    alone. *)
Theorem grid_worlds_solvable :
  (exists path, goal_reached three_room (apply_actions three_room (initial_state three_room) path) = true) /\
  (forall path, let s := apply_actions three_room (initial_state three_room) path in
     goal_reached three_room s = true -> has_key s = true /\ gs_boss_hp s = 0%N /\ state_goal_reached s = true) /\
  (exists path, Forall (fun a => a = Up \/ a = Right \/ a = Left) path /\
     goal_reached corridor_hidden_key (apply_actions corridor_hidden_key (initial_state corridor_hidden_key) path) = true).
Proof.
  split_and!.
  - exists (replicate 4 Right ++ [Right; Right; Right] ++ replicate 3 Left ++ [Left; Left] ++ [Up; Up; Up] ++
      [Up; Up] ++ replicate 3 Attack ++ [Up; Up; Right; Right]). by vm_compute.
  - intros path s Hg. unfold goal_reached, pos_matches in Hg. rewrite !andb_true_iff, !N.eqb_eq in Hg.
    destruct Hg as [[[Hr Hx] Hy] Hb].
    assert (gs_room s = RoomBoss) as Hroom by (by destruct (gs_room s)).
    split_and!; [|done|unfold state_goal_reached; by rewrite Hroom, Hb, Hx, Hy].
    revert Hroom. unfold s. clear. rewrite <- (reverse_involutive path). induction (reverse path) as [|a l IH]; [done|].
    rewrite reverse_cons. unfold apply_actions. rewrite foldl_app. cbn. by apply (three_room_boss_step _ a).
  - exists ([Up; Up; Up; Right; Right; Right; Right; Up] ++ replicate 5 Right ++ replicate 4 Right).
    split; [repeat (constructor; [by auto|]); constructor|by vm_compute].
Qed.

(** ** Identity of states *)

Lemma lor_shift_inj (a b c d n : N) : (b < 2 ^ n)%N -> (d < 2 ^ n)%N ->
  N.lor (N.shiftl a n) b = N.lor (N.shiftl c n) d -> a = c /\ b = d.
Proof.
  intros Hb Hd E.
  assert (forall x y, (y < 2 ^ n)%N -> N.shiftr (N.lor (N.shiftl x n) y) n = x /\ N.land (N.lor (N.shiftl x n) y) (N.ones n) = y) as Hs.
  { intros x y Hy. split.
    - rewrite N.shiftr_lor, N.shiftr_shiftl_l, N.sub_diag, N.shiftl_0_r by done.
      rewrite (N.shiftr_div_pow2 y), N.div_small by done. apply N.lor_0_r.
    - rewrite N.land_lor_distr_l, !N.land_ones, N.shiftl_mul_pow2, N.Div0.mod_mul. cbn. by apply N.mod_small. }
  destruct (Hs a b Hb) as [H1 H2], (Hs c d Hd) as [H3 H4]. rewrite E in H1, H2. split; congruence.
Qed.

(** Distinct states have distinct cell keys: the fields do not overlap. *)
Lemma grid_cell_key_inj (s t : GridState) :
  Forall (fun b => (b <= u8_max)%N) (state_bytes s) -> Forall (fun b => (b <= u8_max)%N) (state_bytes t) ->
  grid_cell_key s = grid_cell_key t -> s = t.
Proof.
  destruct s as [x y r k b], t as [x' y' r' k' b']. unfold grid_cell_key, state_bytes. cbn. intros Hs Ht.
  rewrite !Forall_cons in Hs, Ht. unfold u8_max in *.
  assert (forall b k r x y : N, N.lor (N.lor (N.lor (N.lor (N.shiftl b 48) (N.shiftl k 40)) (N.shiftl r 32)) (N.shiftl x 16)) y =
    N.lor (N.shiftl (N.lor (N.shiftl (N.lor (N.shiftl (N.lor (N.shiftl b 8) k) 8) r) 16) x) 16) y) as Hn.
  { intros. rewrite !N.shiftl_lor, !N.shiftl_shiftl. done. }
  rewrite !Hn. intros E.
  apply lor_shift_inj in E as [E ->]; [|lia..]. apply lor_shift_inj in E as [E ->]; [|lia..].
  apply lor_shift_inj in E as [E Er]; [|lia..]. apply lor_shift_inj in E as [-> ->]; [|lia..].
  f_equal. by destruct r, r'.
Qed.

Lemma grid_states_valid_witness :
  let s := apply_actions three_room (initial_state three_room) [Right; Right] in
  state_ok three_room s /\ progresses s (apply_actions three_room s [Left]).
Proof. apply (grid_states_valid three_room [Right; Right] [Left]). exact three_room_ok. Defined.
