(* ===== verification/FakeHv.v ===== *)
(** The hypervisor double (crates/orch-fakes/src/hypervisor.rs): leased slots
    that run the grid world, forked children that freeze their parent,
    snapshots, captures and the slot-watch buffer.  Every call first asks the
    fault injector.  Postcard encodings of requests, configurations and input
    logs are parameters. *)
From stdpp Require Import pretty.
From S2P Require Import Prelude Types Rng Client HvTypes Fault Grid.
Local Open Scope string_scope.
Local Open Scope list_scope.

Definition DEFAULT_SLOTS_TOTAL : N := 8.
Definition FAKE_HYPERVISOR_VERSION : string := "fake-hypervisor/0.1".
Definition ICOUNT_PER_FRAME : N := 1000.
Definition VNS_PER_FRAME : N := 16666667.
Definition READY_PAYLOAD : list N := bytes_of_string "Ready".

Definition BUTTON_ATTACK_A : N := 1.
Definition BUTTON_ATTACK_B : N := 2.
Definition BUTTON_ATTACK_Y : N := 8.
Definition BUTTON_UP : N := 64.
Definition BUTTON_DOWN : N := 128.
Definition BUTTON_LEFT : N := 256.
Definition BUTTON_RIGHT : N := 512.
Definition GRID_REGION : string := "grid".
Definition GRID_LAYOUT_VERSION : N := 1.

Record PendingAction := mkPendingAction { pa_at_frame : FrameCount; pa_order : N; pa_action : GridAction }.

Record Slot := mkSlot {
  sl_lease : Lease;
  sl_config : MachineConfig;
  sl_state : GridState;
  sl_icount : GuestInstructions;
  sl_frame_counter : FrameCount;
  sl_vns : N;
  sl_base : option SnapshotRef;
  sl_parent : option SlotId;
  sl_pending_actions : list PendingAction;
  sl_input_log : list ScheduledEvent;
  sl_next_input_order : N;
  sl_state_kind : SlotState
}.

Record SnapshotRecord := mkSnapshotRecord {
  sr_config : MachineConfig;
  sr_state : GridState;
  sr_icount : GuestInstructions;
  sr_frame_counter : FrameCount;
  sr_vns : N;
  sr_input_log : list ScheduledEvent;
  sr_pending_actions : list PendingAction;
  sr_next_input_order : N;
  sr_machine_config_hash : Digest32
}.

Record FakeHypervisor := mkFakeHypervisor {
  fh_worker_id : string;
  fh_world : GridWorld;
  fh_slots_total : N;
  fh_class : DeterminismClass;
  fh_next_slot_id : N;
  fh_slots : gmap SlotId Slot;
  fh_snapshots : gmap SnapshotRef SnapshotRecord;
  fh_watch_events : list SlotEvent;
  fh_watch_cursor : nat;
  fh_fault_injector : FaultInjector;
  fh_last_fault : option FaultDecision
}.

Definition fake_determinism_class : DeterminismClass :=
  mkDeterminismClass "family-6-model-85-stepping-7" "0x5003605" "6.8.0-kvm" FAKE_HYPERVISOR_VERSION.
Definition zero_entropy_seed : EntropySeed := replicate 32 0%N.

Definition with_world_slots_and_fault_plan (world : GridWorld) (slots_total : N) (plan : FaultPlan) : FakeHypervisor :=
  mkFakeHypervisor "fake-grid-worker-0" world slots_total fake_determinism_class 1 ∅ ∅ [] 0 (injector_new plan) None.

(** ** Updates *)

Definition set_slots (m : gmap SlotId Slot) (h : FakeHypervisor) : FakeHypervisor :=
  mkFakeHypervisor (fh_worker_id h) (fh_world h) (fh_slots_total h) (fh_class h) (fh_next_slot_id h) m
    (fh_snapshots h) (fh_watch_events h) (fh_watch_cursor h) (fh_fault_injector h) (fh_last_fault h).
Definition set_next_slot_id (n : N) (h : FakeHypervisor) : FakeHypervisor :=
  mkFakeHypervisor (fh_worker_id h) (fh_world h) (fh_slots_total h) (fh_class h) n (fh_slots h)
    (fh_snapshots h) (fh_watch_events h) (fh_watch_cursor h) (fh_fault_injector h) (fh_last_fault h).
Definition set_snapshots (m : gmap SnapshotRef SnapshotRecord) (h : FakeHypervisor) : FakeHypervisor :=
  mkFakeHypervisor (fh_worker_id h) (fh_world h) (fh_slots_total h) (fh_class h) (fh_next_slot_id h) (fh_slots h)
    m (fh_watch_events h) (fh_watch_cursor h) (fh_fault_injector h) (fh_last_fault h).
Definition set_watch (events : list SlotEvent) (cursor : nat) (h : FakeHypervisor) : FakeHypervisor :=
  mkFakeHypervisor (fh_worker_id h) (fh_world h) (fh_slots_total h) (fh_class h) (fh_next_slot_id h) (fh_slots h)
    (fh_snapshots h) events cursor (fh_fault_injector h) (fh_last_fault h).
Definition set_fault (i : FaultInjector) (d : option FaultDecision) (h : FakeHypervisor) : FakeHypervisor :=
  mkFakeHypervisor (fh_worker_id h) (fh_world h) (fh_slots_total h) (fh_class h) (fh_next_slot_id h) (fh_slots h)
    (fh_snapshots h) (fh_watch_events h) (fh_watch_cursor h) i d.
Definition set_slots_total (n : N) (h : FakeHypervisor) : FakeHypervisor :=
  mkFakeHypervisor (fh_worker_id h) (fh_world h) n (fh_class h) (fh_next_slot_id h) (fh_slots h)
    (fh_snapshots h) (fh_watch_events h) (fh_watch_cursor h) (fh_fault_injector h) (fh_last_fault h).

Definition with_state_kind (k : SlotState) (s : Slot) : Slot :=
  mkSlot (sl_lease s) (sl_config s) (sl_state s) (sl_icount s) (sl_frame_counter s) (sl_vns s) (sl_base s)
    (sl_parent s) (sl_pending_actions s) (sl_input_log s) (sl_next_input_order s) k.
Definition with_counters (icount vns : N) (s : Slot) : Slot :=
  mkSlot (sl_lease s) (sl_config s) (sl_state s) icount (sl_frame_counter s) vns (sl_base s)
    (sl_parent s) (sl_pending_actions s) (sl_input_log s) (sl_next_input_order s) (sl_state_kind s).
Definition with_progress (state : GridState) (frame : FrameCount) (pending : list PendingAction) (s : Slot) : Slot :=
  mkSlot (sl_lease s) (sl_config s) state (sl_icount s) frame (sl_vns s) (sl_base s)
    (sl_parent s) pending (sl_input_log s) (sl_next_input_order s) (sl_state_kind s).
Definition with_inputs (pending : list PendingAction) (log : list ScheduledEvent) (order : N) (s : Slot) : Slot :=
  mkSlot (sl_lease s) (sl_config s) (sl_state s) (sl_icount s) (sl_frame_counter s) (sl_vns s) (sl_base s)
    (sl_parent s) pending log order (sl_state_kind s).

Definition new_root (lease : Lease) (config : MachineConfig) (state : GridState) : Slot :=
  mkSlot lease config state 0 0 0 None None [] [] 0 Paused.
Definition from_snapshot (lease : Lease) (snapshot : SnapshotRef) (r : SnapshotRecord) : Slot :=
  mkSlot lease (sr_config r) (sr_state r) (sr_icount r) (sr_frame_counter r) (sr_vns r) (Some snapshot) None
    (sr_pending_actions r) (sr_input_log r) (sr_next_input_order r) Paused.
Definition clone_as_child (lease : Lease) (parent : SlotId) (s : Slot) : Slot :=
  mkSlot lease (sl_config s) (sl_state s) (sl_icount s) (sl_frame_counter s) (sl_vns s) (sl_base s) (Some parent)
    (sl_pending_actions s) (sl_input_log s) (sl_next_input_order s) Paused.

(** ** Slots *)

Definition is_child_of (parent : SlotId) (s : Slot) : bool := bool_decide (sl_parent s = Some parent).
Definition children_of (parent : SlotId) (m : gmap SlotId Slot) : list Slot :=
  filter (fun s => sl_parent s = Some parent) (map_to_list m).*2.
Definition has_live_children (parent : SlotId) (m : gmap SlotId Slot) : bool :=
  negb (bool_decide (children_of parent m = [])).

Arguments has_live_children : simpl never.

Definition slot_info (h : FakeHypervisor) (s : Slot) : SlotInfo :=
  mkSlotInfo (le_slot_id (sl_lease s)) (sl_state_kind s) (sl_icount s) (sl_base s)
    (N.min (N.of_nat (length (children_of (le_slot_id (sl_lease s)) (fh_slots h)))) u32_max).
Definition empty_event (slot_id : SlotId) (s : Slot) : SlotEvent :=
  mkSlotEvent (mkSlotInfo slot_id Empty (sl_icount s) (sl_base s) 0).
Definition push_event (e : SlotEvent) (h : FakeHypervisor) : FakeHypervisor :=
  set_watch (fh_watch_events h ++ [e]) (fh_watch_cursor h) h.
Definition push_slot_event (slot_id : SlotId) (h : FakeHypervisor) : FakeHypervisor :=
  match fh_slots h !! slot_id with
  | Some s => push_event (mkSlotEvent (slot_info h s)) h
  | None => h
  end.

Definition ensure_capacity (needed : N) (h : FakeHypervisor) : res ClientError unit :=
  let used := N.of_nat (size (fh_slots h)) in
  if (u32_max <? used)%N then Err (mkClientError Internal "active slot count exceeds u32")
  else if (fh_slots_total h - used <? needed)%N then
    Err (mkClientError ResourceExhausted "fake hypervisor slot capacity exhausted")
  else Ok tt.

Definition get_slot (lease : Lease) (h : FakeHypervisor) : res ClientError Slot :=
  match fh_slots h !! le_slot_id lease with
  | None => Err (mkClientError NotFound ("unknown slot " +:+ pretty (le_slot_id lease)))
  | Some s =>
    if decide (le_token (sl_lease s) = le_token lease) then Ok s
    else Err (mkClientError FailedPrecondition "lease token does not match slot")
  end.

Definition put_slot (s : Slot) (lease : Lease) (h : FakeHypervisor) : FakeHypervisor :=
  set_slots (<[le_slot_id lease := s]> (fh_slots h)) h.

Definition ensure_paused (s : Slot) (operation : string) : res ClientError unit :=
  if decide (sl_state_kind s = Paused) then Ok tt
  else Err (mkClientError FailedPrecondition (operation +:+ " requires a paused slot")).

Definition maybe_unfreeze_parent (parent_id : SlotId) (h : FakeHypervisor) : FakeHypervisor :=
  if has_live_children parent_id (fh_slots h) then h
  else
    let h1 := match fh_slots h !! parent_id with
              | Some parent =>
                if decide (sl_state_kind parent = Frozen)
                then set_slots (<[parent_id := with_state_kind Paused parent]> (fh_slots h)) h
                else h
              | None => h
              end in
    push_slot_event parent_id h1.

(** ** Inputs *)

Definition event_frame (e : ScheduledEvent) : FrameCount :=
  match se_at e with
  | AtFrame frame => frame
  | AtIcount i => N.min (i / ICOUNT_PER_FRAME) u32_max
  | AtVns v => N.min (v / VNS_PER_FRAME) u32_max
  end.

Definition validate_scheduled_event (s : Slot) (e : ScheduledEvent) : res ClientError unit :=
  match se_at e with
  | AtFrame frame =>
    if (frame <=? sl_frame_counter s)%N then Err (mkClientError InvalidRequest "input frame is not in the future") else Ok tt
  | AtIcount i =>
    if (i <=? sl_icount s)%N then Err (mkClientError InvalidRequest "input icount is not in the future") else Ok tt
  | AtVns v =>
    if (v <=? sl_vns s)%N then Err (mkClientError InvalidRequest "input vns is not in the future") else Ok tt
  end.

Definition pressed (buttons mask : N) : bool := negb (N.land buttons mask =? 0)%N.
Definition event_to_action (e : InputEvent) : GridAction :=
  match e with
  | InPadSet pad =>
    let buttons := pad_buttons pad in
    if pressed buttons BUTTON_RIGHT then Right
    else if pressed buttons BUTTON_LEFT then Left
    else if pressed buttons BUTTON_UP then Up
    else if pressed buttons BUTTON_DOWN then Down
    else if pressed buttons (N.lor (N.lor BUTTON_ATTACK_A BUTTON_ATTACK_B) BUTTON_ATTACK_Y) then Attack
    else Wait
  | _ => Wait
  end.

(** The sort key [(at_frame, order)]. *)
Definition pending_le (a b : PendingAction) : Prop :=
  (pa_at_frame a < pa_at_frame b)%N \/ pa_at_frame a = pa_at_frame b /\ (pa_order a <= pa_order b)%N.
Global Instance pending_le_dec a b : Decision (pending_le a b).
Proof. unfold pending_le. apply _. Defined.

(** Scheduling one event after the other; a counter that overflows stops it. *)
Fixpoint schedule (events : list ScheduledEvent) (s : Slot) : res ClientError unit * Slot :=
  match events with
  | [] => (Ok tt, s)
  | e :: rest =>
    match checked_add u64_max (sl_next_input_order s) 1 with
    | None => (Err (mkClientError Internal "input order overflow"), s)
    | Some next =>
      let pending := mkPendingAction (event_frame e) (sl_next_input_order s) (event_to_action (se_event e)) in
      schedule rest (with_inputs (sl_pending_actions s ++ [pending]) (sl_input_log s ++ [e]) next s)
    end
  end.

(** ** Running *)

Definition drain_due_actions (pending : list PendingAction) (end_frame : N) : list PendingAction * list PendingAction :=
  (merge_sort pending_le (filter (fun p => (pa_at_frame p <= end_frame)%N) pending),
   filter (fun p => ~ (pa_at_frame p <= end_frame)%N) pending).

(** How many frames fit under the cap, and why the run stops. *)
Definition capped_frames (icount requested : N) (cap : option GuestInstructions) : N * StopReason :=
  match cap with
  | None => (requested, BudgetReached)
  | Some cap =>
    if (cap <=? icount)%N then (0%N, HardCap)
    else if (cap - icount <? N.min (requested * ICOUNT_PER_FRAME) u64_max)%N
    then (N.min ((cap - icount) / ICOUNT_PER_FRAME) u32_max, HardCap)
    else (requested, BudgetReached)
  end.

Definition advance_frames (world : GridWorld) (requested : N) (cap : option GuestInstructions)
    : st Slot ClientError (N * StopReason) := fun s =>
  let '(frames, reason) := capped_frames (sl_icount s) requested cap in
  match checked_add u32_max (sl_frame_counter s) frames with
  | None => (Err (mkClientError Internal "frame counter overflow"), s)
  | Some end_frame =>
    let '(due, remaining) := drain_due_actions (sl_pending_actions s) end_frame in
    let s1 := with_progress (apply_actions world (sl_state s) (pa_action <$> due)) end_frame remaining s in
    match checked_add u64_max (sl_icount s) (N.min (frames * ICOUNT_PER_FRAME) u64_max) with
    | None => (Err (mkClientError Internal "icount overflow"), s1)
    | Some icount =>
      let s2 := with_counters icount (sl_vns s) s1 in
      match checked_add u64_max (sl_vns s) (N.min (frames * VNS_PER_FRAME) u64_max) with
      | None => (Err (mkClientError Internal "vns overflow"), s2)
      | Some vns => (Ok (frames, reason), with_counters icount vns s2)
      end
    end
  end.

Definition advance_icount_budget (budget : N) (cap : option GuestInstructions) : st Slot ClientError StopReason := fun s =>
  let '(amount, reason) :=
    match cap with
    | None => (budget, BudgetReached)
    | Some cap =>
      if (cap <=? sl_icount s)%N then (0%N, HardCap)
      else if (cap - sl_icount s <? budget)%N then (cap - sl_icount s, HardCap)%N
      else (budget, BudgetReached)
    end in
  match checked_add u64_max (sl_icount s) amount with
  | None => (Err (mkClientError Internal "icount overflow"), s)
  | Some icount =>
    let s1 := with_counters icount (sl_vns s) s in
    match checked_add u64_max (sl_vns s) amount with
    | None => (Err (mkClientError Internal "vns overflow"), s1)
    | Some vns => (Ok reason, with_counters icount vns s1)
    end
  end.

Definition advance_vns_budget (budget : N) : st Slot ClientError StopReason := fun s =>
  match checked_add u64_max (sl_vns s) budget with
  | None => (Err (mkClientError Internal "vns overflow"), s)
  | Some vns => (Ok BudgetReached, with_counters (sl_icount s) vns s)
  end.

Definition run_slot (world : GridWorld) (until : RunUntil) (cap : option GuestInstructions)
    : st Slot ClientError (StopReason * N * option GuestEvent) := fun s =>
  match until with
  | UntilNextSdkEvent stream =>
    (Ok (NextSdkEvent, 0%N, Some (mkGuestEvent (default 0%N stream) (sl_icount s) (sl_vns s) READY_PAYLOAD)), s)
  | FrameBudget frames =>
    ('(elapsed, reason) ← advance_frames world frames cap; mret (reason, elapsed, None)) s
  | IcountBudget budget => (reason ← advance_icount_budget budget cap; mret (reason, 0%N, None)) s
  | VnsBudget budget => (reason ← advance_vns_budget budget; mret (reason, 0%N, None)) s
  | UntilGoal _ =>
    if goal_reached world (sl_state s) then (Ok (GoalSatisfied, 0%N, None), s)
    else
      ('(elapsed, reason) ← advance_frames world 1 cap;
       reached ← gets (fun s' => goal_reached world (sl_state s'));
       mret (if reached : bool then GoalSatisfied else reason, elapsed, None)) s
  end.

(** ** Captures *)

Record CaptureResponse := mkCaptureResponse {
  cr_feature_bytes : option (list N);
  cr_fb_lz4 : option (list N);
  cr_fb_info : option FbInfo
}.

Definition GRID_FEATURE_BYTES_LEN : N := 5.

Definition validate_range (r : ExtractRange) : res ClientError unit :=
  if negb (bool_decide (er_region r = GRID_REGION)) then
    Err (mkClientError FailedPrecondition ("unknown fake capture region '" +:+ er_region r +:+ "'"))
  else if negb (er_layout_version r =? GRID_LAYOUT_VERSION)%N then
    Err (mkClientError FailedPrecondition
      ("fake capture layout version must be " +:+ pretty GRID_LAYOUT_VERSION +:+ ", got " +:+ pretty (er_layout_version r)))
  else match checked_add u64_max (er_offset r) (er_len r) with
       | None => Err (mkClientError InvalidRequest "capture range end overflow")
       | Some range_end =>
         if (N.of_nat (length (encode_grid_features GridState_new)) <? range_end)%N
         then Err (mkClientError InvalidRequest "capture range out of fake grid bounds")
         else Ok tt
       end.

Definition validate_capture_spec (capture : option CaptureSpec) : res ClientError unit :=
  match capture with
  | None => Ok tt
  | Some c => _ ← mapM_res validate_range (cs_ranges c); Ok tt
  end.

Definition pack_range (grid : list N) (r : ExtractRange) : res ClientError (list N) :=
  match checked_add u64_max (er_offset r) (er_len r) with
  | None => Err (mkClientError InvalidRequest "capture range end overflow")
  | Some range_end =>
    if (range_end <=? N.of_nat (length grid))%N
    then Ok (take (N.to_nat (er_len r)) (drop (N.to_nat (er_offset r)) grid))
    else Err (mkClientError InvalidRequest "capture range out of fake grid bounds")
  end.

Definition pack_capture_ranges (s : GridState) (c : CaptureSpec) : res ClientError (list N) :=
  _ ← validate_capture_spec (Some c);
  parts ← mapM_res (pack_range (encode_grid_features s)) (cs_ranges c);
  Ok (concat parts).

Definition fake_framebuffer_pixels (s : GridState) (frame : FrameCount) : list N :=
  [N.land frame 255; Room_id (gs_room s); gs_x s; gs_y s].

(** Four pixels need the short form of the block only. *)
Definition size_prefixed_lz4_literal_block (bytes : list N) : list N :=
  le_bytes 4 (N.of_nat (length bytes)) ++
  (if (length bytes <? 15)%nat then [N.shiftl (N.of_nat (length bytes)) 4]
   else
     let remaining := (length bytes - 15)%nat in
     [240%N] ++ replicate (remaining / 255) 255%N ++ [N.of_nat (remaining mod 255)]) ++
  bytes.

Definition capture_response (s : GridState) (frame : FrameCount) (capture : option CaptureSpec) : res ClientError CaptureResponse :=
  match capture with
  | None => Ok (mkCaptureResponse None None None)
  | Some c =>
    packed ← pack_capture_ranges s c;
    Ok (mkCaptureResponse (Some packed)
      (if cs_framebuffer c then Some (size_prefixed_lz4_literal_block (fake_framebuffer_pixels s frame)) else None)
      (if cs_framebuffer c then Some (mkFbInfo 1 1 4 Xrgb8888 frame) else None))
  end.

(** ** Hashes and identities *)

(** The postcard encodings of the data that is hashed or identifies a request. *)
Class HvEncoding := {
  enc_config : MachineConfig -> list N;
  enc_input_log : list ScheduledEvent -> list N;
  enc_create_vm : CreateVmRequest -> list N;
  enc_restore_snapshot : RestoreSnapshotRequest -> list N;
  enc_fork : ForkRequest -> list N;
  enc_inject_inputs : InjectInputsRequest -> list N;
  enc_run : RunRequest -> list N;
  enc_take_snapshot : TakeSnapshotRequest -> list N;
  enc_destroy_vm : Lease -> list N;
  enc_list_slots : list N;
  enc_watch_slots : list N;
  enc_worker_info : list N
}.

(** [BTreeMap::values]: in the order of the keys. *)
Definition key_le (a b : SlotId * Slot) : Prop := (a.1 <= b.1)%N.
Global Instance key_le_dec a b : Decision (key_le a b).
Proof. unfold key_le. apply _. Defined.
Definition slots_in_order (m : gmap SlotId Slot) : list Slot := snd <$> merge_sort key_le (map_to_list m).

Section Calls.
Context `{B3 : Blake3, ENC : HvEncoding}.

Definition digest_bytes (domain : string) (bytes : list N) : list N :=
  blake3 (bytes_of_string domain ++ len_prefixed bytes).
Definition machine_config_hash (config : MachineConfig) : Digest32 :=
  digest_bytes "orch-fakes/hypervisor/machine-config/v1" (enc_config config).
Definition input_log_id (log : list ScheduledEvent) : InputLogId :=
  digest_bytes "orch-fakes/hypervisor/input-log/v1" (enc_input_log log).
Definition lease_token (slot_id : SlotId) (config : MachineConfig) (seed : EntropySeed) : LeaseToken :=
  take LEASE_TOKEN_LEN (blake3 (bytes_of_string "orch-fakes/hypervisor/lease-token/v1" ++
    le_bytes 8 slot_id ++ machine_config_hash config ++ seed)).
Definition fake_snapshot_ref (config : MachineConfig) (state : GridState) (icount vns : N) (frame : FrameCount)
    (log : list ScheduledEvent) : SnapshotRef :=
  blake3 (bytes_of_string "orch-fakes/hypervisor/snapshot/v1" ++ machine_config_hash config ++
    grid_state_hash state ++ le_bytes 8 icount ++ le_bytes 8 vns ++ le_bytes 4 frame ++ input_log_id log).

(** ** Faults and leases *)

Definition decide_fault (operation : string) (identity : list N) (response_items : N)
    : st FakeHypervisor ClientError FaultDecision := fun h =>
  match fault_decide (mkFaultRequest TargetHypervisor operation identity) response_items (fh_fault_injector h) with
  | (Ok d, i) =>
    let h1 := set_fault i (Some d) h in
    (match client_error (fd_terminal d) with Some e => Err e | None => Ok d end, h1)
  | (_, i) => (Panic, set_fault i (fh_last_fault h) h)
  end.

Definition allocate_lease (config : MachineConfig) (seed : EntropySeed) : st FakeHypervisor ClientError Lease := fun h =>
  let slot_id := fh_next_slot_id h in
  (Ok (mkLease slot_id (lease_token slot_id config seed)), set_next_slot_id (saturating_add u64_max slot_id 1) h).

Definition slot (lease : Lease) : st FakeHypervisor ClientError Slot := fun h => (get_slot lease h, h).
Definition insert_slot (id : SlotId) (s : Slot) : st FakeHypervisor ClientError unit :=
  modify (fun h => set_slots (<[id := s]> (fh_slots h)) h).
Definition notify (id : SlotId) : st FakeHypervisor ClientError unit := modify (push_slot_event id).

(** ** The calls *)

Definition fake_create_vm (request : CreateVmRequest) : st FakeHypervisor ClientError CreateVmResponse :=
  _ ← decide_fault "create_vm" (enc_create_vm request) 0;
  h ← get_st; _ ← lift_res (ensure_capacity 1 h);
  lease ← allocate_lease (cv_config request) (cv_entropy_seed request);
  _ ← insert_slot (le_slot_id lease) (new_root lease (cv_config request) (initial_state (fh_world h)));
  _ ← notify (le_slot_id lease);
  mret (mkCreateVmResponse lease 0).

Definition fake_restore_snapshot (request : RestoreSnapshotRequest)
    : st FakeHypervisor ClientError RestoreSnapshotResponse :=
  _ ← decide_fault "restore_snapshot" (enc_restore_snapshot request) 0;
  h ← get_st; _ ← lift_res (ensure_capacity 1 h);
  record ← lift_res (ok_or (fh_snapshots h !! rs_snapshot request) (mkClientError NotFound "snapshot not found"));
  lease ← allocate_lease (sr_config record) (default zero_entropy_seed (rs_entropy_seed request));
  _ ← insert_slot (le_slot_id lease) (from_snapshot lease (rs_snapshot request) record);
  _ ← notify (le_slot_id lease);
  mret (mkRestoreSnapshotResponse lease (sr_config record) (grid_state_hash (sr_state record)) (sr_frame_counter record)).

Definition fork_one (parent : Slot) (parent_id : SlotId) (seed : EntropySeed) : st FakeHypervisor ClientError Lease :=
  lease ← allocate_lease (sl_config parent) seed;
  _ ← insert_slot (le_slot_id lease) (clone_as_child lease parent_id parent);
  mret lease.

(** [get_mut(..).expect(..).state_kind = Frozen] *)
Definition freeze (id : SlotId) : st FakeHypervisor ClientError unit := fun h =>
  match fh_slots h !! id with
  | Some s => (Ok tt, set_slots (<[id := with_state_kind Frozen s]> (fh_slots h)) h)
  | None => (Panic, h)
  end.

Definition fake_fork (request : ForkRequest) : st FakeHypervisor ClientError (list Lease) :=
  _ ← lift_res (ForkRequest_validate request);
  _ ← decide_fault "fork" (enc_fork request) (fq_count request);
  h ← get_st; _ ← lift_res (ensure_capacity (fq_count request) h);
  parent ← slot (fq_parent request);
  _ ← lift_res (ensure_paused parent "fork");
  children ← mapM_st (fork_one parent (le_slot_id (fq_parent request))) (fq_entropy_seeds request);
  _ ← freeze (le_slot_id (fq_parent request));
  _ ← notify (le_slot_id (fq_parent request));
  _ ← mapM_st notify (le_slot_id <$> children);
  mret children.

Definition sort_pending (s : Slot) : Slot :=
  with_inputs (merge_sort pending_le (sl_pending_actions s)) (sl_input_log s) (sl_next_input_order s) s.

Definition fake_inject_inputs (request : InjectInputsRequest) : st FakeHypervisor ClientError N :=
  let count := N.of_nat (length (ii_events request)) in
  _ ← decide_fault "inject_inputs" (enc_inject_inputs request) (count mod 2 ^ 32);
  _ ← lift_res (if (u32_max <? count)%N then Err (mkClientError InvalidRequest "too many scheduled events") else Ok tt);
  s ← slot (ii_lease request);
  _ ← lift_res (ensure_paused s "inject inputs");
  _ ← lift_res (mapM_res (validate_scheduled_event s) (ii_events request));
  match schedule (ii_events request) s with
  | (Ok _, s') => _ ← insert_slot (le_slot_id (ii_lease request)) (sort_pending s'); mret count
  | (r, s') => _ ← insert_slot (le_slot_id (ii_lease request)) s'; lift_res ((fun _ => 0%N) <$> r)
  end.

Definition fake_run (request : RunRequest) : st FakeHypervisor ClientError RunResponse :=
  _ ← decide_fault "run" (enc_run request) 0;
  let id := le_slot_id (rq_lease request) in
  _ ← lift_res (validate_capture_spec (rq_capture request));
  s ← slot (rq_lease request);
  _ ← lift_res (ensure_paused s "run");
  _ ← insert_slot id (with_state_kind Running s);
  _ ← notify id;
  world ← gets fh_world;
  match run_slot world (rq_until request) (rq_hard_icount_cap request) (with_state_kind Running s) with
  | (Ok (reason, frames_elapsed, sdk_event), s') =>
    _ ← insert_slot id (with_state_kind Paused s');
    _ ← notify id;
    capture ← lift_res (capture_response (sl_state s') (sl_frame_counter s') (rq_capture request));
    mret (mkRunResponse reason (sl_icount s') (sl_vns s') (grid_state_hash (sl_state s')) frames_elapsed sdk_event
      (cr_feature_bytes capture) (cr_fb_lz4 capture) (cr_fb_info capture))
  | (Err e, s') =>
    _ ← insert_slot id (with_state_kind Paused s');
    _ ← notify id;
    lift_res (Err e)
  | (Panic, s') => _ ← insert_slot id s'; lift_res Panic
  end.

(** [1u32.saturating_add(u32::try_from(len).unwrap_or(u32::MAX - 1))] *)
Definition dirty_pages (log : list ScheduledEvent) : N :=
  let len := N.of_nat (length log) in
  saturating_add u32_max 1 (if (len <=? u32_max)%N then len else u32_max - 1).

Definition snapshot_record (s : Slot) : SnapshotRecord :=
  mkSnapshotRecord (sl_config s) (sl_state s) (sl_icount s) (sl_frame_counter s) (sl_vns s) (sl_input_log s)
    (sl_pending_actions s) (sl_next_input_order s) (machine_config_hash (sl_config s)).
Definition slot_ref (s : Slot) : SnapshotRef :=
  fake_snapshot_ref (sl_config s) (sl_state s) (sl_icount s) (sl_vns s) (sl_frame_counter s) (sl_input_log s).

Definition fake_take_snapshot (request : TakeSnapshotRequest) : st FakeHypervisor ClientError TakeSnapshotResponse :=
  _ ← decide_fault "take_snapshot" (enc_take_snapshot request) 0;
  s ← slot (ts_lease request);
  _ ← lift_res (ensure_paused s "take snapshot");
  capture ← lift_res (capture_response (sl_state s) (sl_frame_counter s) (ts_capture request));
  _ ← modify (fun h => set_snapshots (<[slot_ref s := snapshot_record s]> (fh_snapshots h)) h);
  class ← gets fh_class;
  mret (mkTakeSnapshotResponse (slot_ref s)
    (if ts_seal_input_log request then Some (input_log_id (sl_input_log s)) else None)
    (sl_icount s) (sl_vns s) (grid_state_hash (sl_state s)) (dirty_pages (sl_input_log s))
    (machine_config_hash (sl_config s)) class
    (cr_feature_bytes capture) (cr_fb_lz4 capture) (cr_fb_info capture) (sl_frame_counter s)).

Definition remove_slot (id : SlotId) (h : FakeHypervisor) : FakeHypervisor :=
  match fh_slots h !! id with
  | Some s => push_event (empty_event id s) (set_slots (delete id (fh_slots h)) h)
  | None => h
  end.

Definition fake_destroy_vm (lease : Lease) : st FakeHypervisor ClientError unit :=
  _ ← decide_fault "destroy_vm" (enc_destroy_vm lease) 0;
  s ← slot lease;
  h ← get_st;
  _ ← lift_res (if decide (sl_state_kind s = Running)
                then Err (mkClientError FailedPrecondition "cannot destroy a running slot") else Ok tt);
  _ ← lift_res (if has_live_children (le_slot_id lease) (fh_slots h)
                then Err (mkClientError FailedPrecondition "cannot destroy a slot with live children") else Ok tt);
  _ ← modify (fun h => push_event (empty_event (le_slot_id (sl_lease s)) s)
                         (set_slots (delete (le_slot_id lease) (fh_slots h)) h));
  match sl_parent s with
  | Some parent_id => modify (maybe_unfreeze_parent parent_id)
  | None => mret tt
  end.

Definition fake_list_slots : st FakeHypervisor ClientError (list SlotInfo) :=
  h ← get_st;
  let slots := slot_info h <$> slots_in_order (fh_slots h) in
  decision ← decide_fault "list_slots" enc_list_slots (N.of_nat (length slots) mod 2 ^ 32);
  mret (take (truncate_len decision (length slots)) slots).

Definition fake_watch_slots : st FakeHypervisor ClientError (list SlotEvent) :=
  h ← get_st;
  let start := Nat.min (fh_watch_cursor h) (length (fh_watch_events h)) in
  let available := (length (fh_watch_events h) - start)%nat in
  decision ← decide_fault "watch_slots" enc_watch_slots (N.of_nat available mod 2 ^ 32);
  let keep := truncate_len decision available in
  _ ← modify (set_watch (fh_watch_events h) (start + keep)%nat);
  mret (take keep (drop start (fh_watch_events h))).

Definition fake_worker_info : st FakeHypervisor ClientError GetWorkerInfoResponse :=
  _ ← decide_fault "worker_info" enc_worker_info 0;
  h ← get_st;
  mret (mkGetWorkerInfoResponse (fh_worker_id h) (fh_slots_total h)
    (fh_slots_total h - N.min (N.of_nat (size (fh_slots h))) u32_max) (fh_class h) FAKE_HYPERVISOR_VERSION).

Global Instance fake_hypervisor : Hypervisor FakeHypervisor := {|
  create_vm := fake_create_vm; restore_snapshot := fake_restore_snapshot; fork := fake_fork;
  inject_inputs := fake_inject_inputs; run := fake_run; take_snapshot := fake_take_snapshot;
  destroy_vm := fake_destroy_vm; list_slots := fake_list_slots; watch_slots := fake_watch_slots;
  worker_info := fake_worker_info |}.
End Calls.

(** ** Housekeeping *)

Definition retain_live_snapshots (committed : gset SnapshotRef) (h : FakeHypervisor) : gset SnapshotRef * FakeHypervisor :=
  (dom (fh_snapshots h) ∖ committed,
   set_snapshots (filter (fun kv => kv.1 ∈ committed) (fh_snapshots h)) h).

Definition compact_consumed_watch_events (h : FakeHypervisor) : nat * FakeHypervisor :=
  let consumed := Nat.min (fh_watch_cursor h) (length (fh_watch_events h)) in
  (consumed, if (0 <? consumed)%nat then set_watch (drop consumed (fh_watch_events h)) 0 h else h).

Definition leaves (m : gmap SlotId Slot) : list SlotId :=
  le_slot_id ∘ sl_lease <$> filter (fun s => has_live_children (le_slot_id (sl_lease s)) m = false) (slots_in_order m).

(** One pass removes the slots that are no slot's parent. *)
Definition reclaim_pass (h : FakeHypervisor) : FakeHypervisor := foldl (flip remove_slot) h (leaves (fh_slots h)).

(** [while !self.slots.is_empty()]: [None] when the fuel runs out first. *)
Fixpoint reclaim_session (fuel : nat) (h : FakeHypervisor) : option FakeHypervisor :=
  if decide (fh_slots h = ∅) then Some h
  else match fuel with
       | O => None
       | S fuel' => reclaim_session fuel' (reclaim_pass h)
       end.
