(* ===== verification/FakeHvPool.v ===== *)
(** The slots of the hypervisor double stay consistent: the invariant of the
    pool, what every call does to the set of live leases, and the end of a
    session. *)
From stdpp Require Import pretty.
From S2P Require Import Prelude Types Rng Client HvTypes Fault Grid FakeHv.
Local Open Scope string_scope.
Local Open Scope list_scope.

(** ** The pool of slots *)

Lemma has_live_children_true p m :
  has_live_children p m = true <-> exists id s, m !! id = Some s /\ sl_parent s = Some p.
Proof.
  unfold has_live_children, children_of. rewrite negb_true_iff, bool_decide_eq_false. split.
  - intros Hne. destruct (filter _ _) as [|s l] eqn:E; [done|].
    assert (s ∈ filter (fun s => sl_parent s = Some p) (map_to_list m).*2) as Hs by (rewrite E; left).
    apply list_elem_of_filter in Hs as [Hp ([id s'] & -> & Hin)%list_elem_of_fmap].
    exists id, s'. split; [by apply elem_of_map_to_list|done].
  - intros (id & s & Hl & Hp) Hnil.
    assert (s ∈ filter (fun s => sl_parent s = Some p) (map_to_list m).*2) as Hs.
    { apply list_elem_of_filter. split; [done|]. apply list_elem_of_fmap. exists (id, s).
      split; [done|]. by apply elem_of_map_to_list. }
    rewrite Hnil in Hs. by apply not_elem_of_nil in Hs.
Qed.

Lemma has_live_children_false p m :
  has_live_children p m = false <-> forall id s, m !! id = Some s -> sl_parent s <> Some p.
Proof.
  rewrite <- not_true_iff_false, has_live_children_true. naive_solver.
Qed.

Lemma has_live_children_ext p m m' : (forall id, sl_parent <$> m !! id = sl_parent <$> m' !! id) ->
  has_live_children p m = has_live_children p m'.
Proof.
  intros Hm. apply eq_true_iff_eq. rewrite !has_live_children_true.
  split; intros (id & s & Hl & Hp); specialize (Hm id); rewrite Hl in Hm.
  - destruct (m' !! id) as [s'|] eqn:E; [|done]. injection Hm as Hm. exists id, s'. by rewrite <- Hm.
  - destruct (m !! id) as [s'|] eqn:E; [|done]. injection Hm as Hm. exists id, s'. by rewrite Hm.
Qed.

(** A slot is frozen while it has children and paused otherwise; [x] names a
    slot whose kind lags behind. *)
Definition expected_kind (x : option (SlotId * SlotState)) (m : gmap SlotId Slot) (id : SlotId) : SlotState :=
  match x with
  | Some (i, k) => if decide (i = id) then k else if has_live_children id m then Frozen else Paused
  | None => if has_live_children id m then Frozen else Paused
  end.

Lemma expected_kind_ext x m m' id : (forall j, sl_parent <$> m !! j = sl_parent <$> m' !! j) ->
  expected_kind x m id = expected_kind x m' id.
Proof. intros Hm. unfold expected_kind. by rewrite (has_live_children_ext id _ _ Hm). Qed.

(** Slots are filed under their lease, older than the next identifier, and a
    parent is an older live slot. *)
Record slot_ok (x : option (SlotId * SlotState)) (m : gmap SlotId Slot) (next : N) (id : SlotId) (s : Slot) : Prop := {
  ok_lease : le_slot_id (sl_lease s) = id;
  ok_old : (id < next)%N;
  ok_kind : sl_state_kind s = expected_kind x m id;
  ok_parent : forall p, sl_parent s = Some p -> (p < id)%N /\ is_Some (m !! p)
}.
Definition pool_ok (x : option (SlotId * SlotState)) (m : gmap SlotId Slot) (next : N) : Prop :=
  map_Forall (slot_ok x m next) m.

Lemma pool_ok_lookup x m next id s : pool_ok x m next -> m !! id = Some s -> slot_ok x m next id s.
Proof. intros Hp Hl. by apply Hp. Qed.

Lemma pool_ok_update x m next id s s' : pool_ok x m next -> m !! id = Some s ->
  sl_lease s' = sl_lease s -> sl_parent s' = sl_parent s -> sl_state_kind s' = sl_state_kind s ->
  pool_ok x (<[id := s']> m) next.
Proof.
  intros Hp Hl E1 E2 E3.
  assert (forall j, sl_parent <$> <[id := s']> m !! j = sl_parent <$> m !! j) as Hpar.
  { intros j. destruct (decide (j = id)) as [->|]; [by rewrite lookup_insert_eq, Hl; cbn; rewrite E2|].
    by rewrite lookup_insert_ne. }
  assert (forall j, expected_kind x (<[id := s']> m) j = expected_kind x m j) as Hexp by (intros j; by apply expected_kind_ext).
  assert (forall j, is_Some (m !! j) -> is_Some (<[id := s']> m !! j)) as Hsome.
  { intros j Hj. destruct (decide (j = id)) as [->|]; [rewrite lookup_insert_eq; by eexists|by rewrite lookup_insert_ne]. }
  assert (forall j s0, slot_ok x m next j s0 -> slot_ok x (<[id := s']> m) next j s0) as Hmono.
  { intros j s0 []. split; [done|done|by rewrite Hexp|]. intros p Hq. naive_solver. }
  intros j s0. destruct (decide (j = id)) as [->|]; [rewrite lookup_insert_eq|rewrite lookup_insert_ne by done].
  - intros [= <-]. destruct (Hmono _ _ (Hp _ _ Hl)). split; congruence || (rewrite E2; done).
  - intros Hj. by apply Hmono, Hp.
Qed.

(** A lagging kind is put right once it is what the slot should be. *)
Lemma pool_ok_settle i k m next s : pool_ok (Some (i, k)) m next -> m !! i = Some s ->
  pool_ok None (<[i := with_state_kind (expected_kind None m i) s]> m) next.
Proof.
  intros Hp Hl.
  assert (forall j, sl_parent <$> <[i := with_state_kind (expected_kind None m i) s]> m !! j = sl_parent <$> m !! j) as Hpar.
  { intros j. destruct (decide (j = i)) as [->|]; [by rewrite lookup_insert_eq, Hl|by rewrite lookup_insert_ne]. }
  intros j s0. destruct (decide (j = i)) as [->|Hne]; [rewrite lookup_insert_eq|rewrite lookup_insert_ne by done].
  - intros [= <-]. destruct (Hp _ _ Hl) as [H1 H2 _ H4]. split; [done|done| |].
    + by rewrite (expected_kind_ext None _ _ i Hpar).
    + intros p Hq. destruct (H4 p Hq) as [H5 H6]. split; [done|]. rewrite lookup_insert_ne by lia. done.
  - intros Hj. destruct (Hp _ _ Hj) as [H1 H2 H3 H4]. split; [done|done| |].
    + rewrite H3, (expected_kind_ext None _ _ j Hpar). cbn. by rewrite decide_False by done.
    + intros p Hq. destruct (H4 p Hq) as [H5 H6]. split; [done|].
      destruct (decide (p = i)) as [->|]; [rewrite lookup_insert_eq; by eexists|by rewrite lookup_insert_ne].
Qed.

(** Adding a slot under the next identifier: a root, or a child of the slot
    whose kind lags behind. *)
Lemma pool_ok_add x m next s : pool_ok x m next -> le_slot_id (sl_lease s) = next -> sl_state_kind s = Paused ->
  (forall p, sl_parent s = Some p -> exists k, x = Some (p, k)) -> (forall i k, x = Some (i, k) -> is_Some (m !! i)) ->
  pool_ok x (<[next := s]> m) (next + 1).
Proof.
  intros Hp E1 E2 Hpar Hx.
  assert (forall j s0, m !! j = Some s0 -> (j < next)%N) as Hold by (intros j s0 Hj; apply (Hp _ _ Hj)).
  assert (m !! next = None) as Hnone by (destruct (m !! next) eqn:E; [apply Hold in E; lia|done]).
  assert (forall j, (j < next)%N -> expected_kind x (<[next := s]> m) j = expected_kind x m j) as Hexp.
  { intros j Hj. unfold expected_kind.
    assert ((exists k, x = Some (j, k)) \/ has_live_children j (<[next := s]> m) = has_live_children j m) as [[k ->]| ->]; [|by rewrite !decide_True by done|done].
    destruct (decide (sl_parent s = Some j)) as [Hj'|Hj']; [left; by apply Hpar|right].
    apply eq_true_iff_eq. rewrite !has_live_children_true. split; intros (i & s0 & Hi & Hs0).
    - apply lookup_insert_Some in Hi as [[<- <-]|[_ Hi]]; [done|eauto].
    - exists i, s0. split; [|done]. apply lookup_insert_Some. right. split; [apply Hold in Hi; lia|done]. }
  intros j s0 [[<- <-]|[Hne Hj]]%lookup_insert_Some.
  - split; [done|lia| |].
    + rewrite E2. unfold expected_kind.
      assert (has_live_children next (<[next := s]> m) = false) as ->.
      { apply has_live_children_false. intros i s0 [[<- <-]|[_ Hi]]%lookup_insert_Some Hq.
        - destruct (Hpar _ Hq) as [k Hk]. apply Hx in Hk as [? Hk]. by rewrite Hnone in Hk.
        - destruct (ok_parent _ _ _ _ _ (Hp _ _ Hi) _ Hq) as [? _]. apply Hold in Hi. lia. }
      destruct x as [[i k]|]; [|done]. case_decide as Hd; [|done].
      subst i. destruct (Hx _ _ eq_refl) as [? Hk]. by rewrite Hnone in Hk.
    + intros p Hq. destruct (Hpar p Hq) as [k Hk]. apply Hx in Hk as [s1 Hs1]. split; [by eapply Hold|].
      rewrite lookup_insert_ne by (apply Hold in Hs1; lia). by eexists.
  - destruct (Hp _ _ Hj) as [H1 H2 H3 H4]. split; [done|lia|by rewrite Hexp|].
    intros p Hq. destruct (H4 p Hq) as [H5 H6]. split; [done|]. rewrite lookup_insert_ne by lia. done.
Qed.

(** Removing a childless slot leaves its parent's kind behind. *)
Lemma pool_ok_delete m next id s : pool_ok None m next -> m !! id = Some s -> has_live_children id m = false ->
  pool_ok ((fun p => (p, Frozen)) <$> sl_parent s) (delete id m) next.
Proof.
  intros Hp Hl Hc. rewrite has_live_children_false in Hc.
  intros j s0 [Hne Hj]%lookup_delete_Some. destruct (Hp _ _ Hj) as [H1 H2 H3 H4]. split; [done|done| |].
  - rewrite H3. unfold expected_kind.
    destruct (decide (sl_parent s = Some j)) as [E|E].
    + rewrite E. cbn. rewrite decide_True by done.
      assert (has_live_children j m = true) as -> by (apply has_live_children_true; eauto). done.
    + assert (has_live_children j (delete id m) = has_live_children j m) as ->.
      { apply eq_true_iff_eq. rewrite !has_live_children_true. split; intros (i & s1 & Hi & Hs1).
        - apply lookup_delete_Some in Hi as [_ Hi]. eauto.
        - exists i, s1. split; [|done]. apply lookup_delete_Some. split; [|done]. intros ->. congruence. }
      destruct (sl_parent s) as [p|]; cbn; [|done]. rewrite decide_False; [done|congruence].
  - intros p Hq. destruct (H4 p Hq) as [H5 H6]. split; [done|]. rewrite lookup_delete_ne; [done|].
    intros ->. by apply (Hc _ _ Hj).
Qed.

(** ** Guests *)

(** A valid grid state, and pending inputs with distinct ticket numbers. *)
Definition guest_ok (w : GridWorld) (state : GridState) (pending : list PendingAction) (order : N) : Prop :=
  state_ok w state /\ NoDup (pa_order <$> pending) /\ Forall (fun p => (pa_order p < order)%N) pending.
Definition slot_guest_ok (w : GridWorld) (s : Slot) : Prop :=
  guest_ok w (sl_state s) (sl_pending_actions s) (sl_next_input_order s).
Definition record_guest_ok (w : GridWorld) (r : SnapshotRecord) : Prop :=
  guest_ok w (sr_state r) (sr_pending_actions r) (sr_next_input_order r).

(** What running or scheduling leaves alone. *)
Definition same_place (s s' : Slot) : Prop :=
  sl_lease s' = sl_lease s /\ sl_parent s' = sl_parent s /\ sl_state_kind s' = sl_state_kind s /\
  sl_config s' = sl_config s /\ sl_base s' = sl_base s.

Lemma same_place_refl s : same_place s s.
Proof. done. Qed.

Lemma schedule_ok w events : forall s r s', schedule events s = (r, s') ->
  r <> Panic /\ same_place s s' /\ (slot_guest_ok w s -> slot_guest_ok w s').
Proof.
  induction events as [|e events IH]; intros s r s'; cbn [schedule]; [by intros [= <- <-]|].
  destruct (checked_add _ _ _) as [next|] eqn:E; [|by intros [= <- <-]].
  apply checked_add_Some in E as [_ ->]. intros Hs. apply IH in Hs as (H1 & H2 & H3).
  split; [done|]. split; [done|]. intros (Hw & Hnd & Hall). apply H3. split; [done|]. cbn. split.
  - rewrite fmap_app. apply NoDup_app. split; [done|]. split; [|apply NoDup_singleton].
    intros x (p & -> & Hp)%list_elem_of_fmap Hin. apply list_elem_of_singleton in Hin.
    rewrite Forall_forall in Hall. apply Hall in Hp. cbn in Hin. lia.
  - apply Forall_app. split; [|by apply Forall_singleton; cbn; lia].
    eapply Forall_impl; [exact Hall|]. cbn. lia.
Qed.

Lemma sort_pending_ok w s : slot_guest_ok w s -> slot_guest_ok w (sort_pending s).
Proof.
  intros (Hw & Hnd & Hall). unfold slot_guest_ok, guest_ok. cbn.
  pose proof (merge_sort_Permutation pending_le (sl_pending_actions s)) as Hperm.
  split; [done|]. by rewrite Hperm.
Qed.

Lemma drain_ok (f : N) w state pending order due rest : drain_due_actions pending f = (due, rest) ->
  guest_ok w state pending order -> guest_ok w state rest order.
Proof.
  intros [= _ <-] (Hw & Hnd & Hall). split; [done|]. rewrite Forall_forall in Hall |- *.
  split; [|intros p [_ Hp]%list_elem_of_filter; auto].
  eapply sublist_NoDup; [exact Hnd|]. apply fmap_sublist, sublist_filter.
Qed.

Lemma advance_frames_ok w n cap s r s' : advance_frames w n cap s = (r, s') ->
  r <> Panic /\ same_place s s' /\ (world_ok w -> slot_guest_ok w s -> slot_guest_ok w s').
Proof.
  unfold advance_frames. destruct (capped_frames _ _ _) as [frames reason].
  destruct (checked_add u32_max _ _) as [stop|]; [|by intros [= <- <-]].
  destruct (drain_due_actions _ _) as [due rest] eqn:Hd.
  assert (world_ok w -> slot_guest_ok w s ->
    guest_ok w (apply_actions w (sl_state s) (pa_action <$> due)) rest (sl_next_input_order s)) as Hg.
  { intros Hw Hs. eapply drain_ok in Hs as (H1 & H2 & H3); [|exact Hd].
    split; [|done]. by apply apply_actions_ok. }
  destruct (checked_add u64_max _ _) as [i|]; [|by intros [= <- <-]].
  destruct (checked_add u64_max _ _) as [v|]; by intros [= <- <-].
Qed.

Lemma advance_budget_ok w budget cap s :
  (forall r s', advance_icount_budget budget cap s = (r, s') ->
     r <> Panic /\ same_place s s' /\ (slot_guest_ok w s -> slot_guest_ok w s')) /\
  (forall r s', advance_vns_budget budget s = (r, s') ->
     r <> Panic /\ same_place s s' /\ (slot_guest_ok w s -> slot_guest_ok w s')).
Proof.
  split; intros r s'.
  - unfold advance_icount_budget. destruct (match cap with Some _ => _ | None => _ end) as [amount reason].
    destruct (checked_add u64_max _ _) as [i|]; [|by intros [= <- <-]].
    destruct (checked_add u64_max _ _) as [v|]; by intros [= <- <-].
  - unfold advance_vns_budget. destruct (checked_add u64_max _ _) as [v|]; by intros [= <- <-].
Qed.

Lemma run_slot_ok w until cap s r s' : run_slot w until cap s = (r, s') ->
  r <> Panic /\ same_place s s' /\ (world_ok w -> slot_guest_ok w s -> slot_guest_ok w s').
Proof.
  unfold run_slot. destruct until as [i|v|f|st0|g].
  - rewrite st_bind_run. destruct (advance_icount_budget i cap s) as [x s1] eqn:E.
    apply (proj1 (advance_budget_ok w i cap s)) in E. destruct x; intros [= <- <-]; naive_solver.
  - rewrite st_bind_run. destruct (advance_vns_budget v s) as [x s1] eqn:E.
    apply (proj2 (advance_budget_ok w v cap s)) in E. destruct x; intros [= <- <-]; naive_solver.
  - rewrite st_bind_run. destruct (advance_frames w f cap s) as [x s1] eqn:E.
    apply advance_frames_ok in E. destruct x as [[]| |]; intros [= <- <-]; naive_solver.
  - by intros [= <- <-].
  - destruct (goal_reached w (sl_state s)); [by intros [= <- <-]|].
    rewrite st_bind_run. destruct (advance_frames w 1 cap s) as [x s1] eqn:E.
    apply advance_frames_ok in E. destruct x as [[]| |]; intros [= <- <-]; naive_solver.
Qed.

(** ** The invariant *)

Record hv_ok (h : FakeHypervisor) : Prop := {
  hv_world : world_ok (fh_world h);
  hv_pool : pool_ok None (fh_slots h) (fh_next_slot_id h);
  hv_guests : map_Forall (fun _ s => slot_guest_ok (fh_world h) s) (fh_slots h);
  hv_records : map_Forall (fun _ r => record_guest_ok (fh_world h) r) (fh_snapshots h)
}.

(** The invariant looks at the slots, the identifiers, the snapshots and the
    world only. *)
Record core_eq (h h' : FakeHypervisor) : Prop := {
  ce_world : fh_world h' = fh_world h;
  ce_slots : fh_slots h' = fh_slots h;
  ce_next : fh_next_slot_id h' = fh_next_slot_id h;
  ce_snapshots : fh_snapshots h' = fh_snapshots h
}.

Lemma hv_ok_core h h' : core_eq h h' -> hv_ok h -> hv_ok h'.
Proof. intros [E1 E2 E3 E4] []. split; by rewrite ?E1, ?E2, ?E3, ?E4. Qed.

Lemma core_eq_refl h : core_eq h h.
Proof. done. Qed.

Lemma core_eq_trans h1 h2 h3 : core_eq h1 h2 -> core_eq h2 h3 -> core_eq h1 h3.
Proof. intros [] []. split; congruence. Qed.

Lemma core_eq_push id h : core_eq h (push_slot_event id h).
Proof. unfold push_slot_event. by destruct (fh_slots h !! id). Qed.

Lemma hv_ok_push id h : hv_ok h -> hv_ok (push_slot_event id h).
Proof. apply hv_ok_core, core_eq_push. Qed.

(** Replacing a slot by one in the same place. *)
Lemma hv_ok_replace h id s s' : hv_ok h -> fh_slots h !! id = Some s -> same_place s s' ->
  (slot_guest_ok (fh_world h) s -> slot_guest_ok (fh_world h) s') -> hv_ok (set_slots (<[id := s']> (fh_slots h)) h).
Proof.
  intros [Hw Hp Hg Hr] Hl (E1 & E2 & E3 & _) Hs'. split; cbn; [done| | |done].
  - by eapply pool_ok_update.
  - apply map_Forall_insert_2; [|done]. apply Hs', (Hg _ _ Hl).
Qed.

(** A fresh slot under the next identifier. *)
Lemma hv_ok_add h s : hv_ok h -> (fh_next_slot_id h < u64_max)%N -> le_slot_id (sl_lease s) = fh_next_slot_id h ->
  sl_state_kind s = Paused -> sl_parent s = None -> slot_guest_ok (fh_world h) s ->
  hv_ok (set_slots (<[fh_next_slot_id h := s]> (fh_slots h)) (set_next_slot_id (saturating_add u64_max (fh_next_slot_id h) 1) h)).
Proof.
  intros [Hw Hp Hg Hr] Hn E1 E2 E3 Hs. unfold saturating_add. rewrite N.min_l by lia. split; cbn; [done| | |done].
  - apply pool_ok_add; [done..|by rewrite E3|done].
  - by apply map_Forall_insert_2.
Qed.

Section Invariant.
Context `{B3 : Blake3, ENC : HvEncoding}.

(** ** Steps of a call *)

(** The 64-bit counters have room for another call and [k] more slots. *)
Definition room (k : N) (h : FakeHypervisor) : Prop :=
  map_Forall (fun _ n => (n < u64_max)%N) (fi_attempts (fh_fault_injector h)) /\ (fh_next_slot_id h + k <= u64_max)%N.
Global Instance room_dec k h : Decision (room k h).
Proof. unfold room. apply _. Defined.

(** The errors a plan can inject. *)
Definition injected (p : FaultPlan) (e : ClientError) : Prop :=
  e = mkClientError Unavailable "deterministic fake timeout" \/
  exists k, e = mkClientError k "deterministic fake fault" /\
    (k = fp_error_kind p \/ exists op, fp_one_shot_errors p !! op = Some k).

Lemma fault_terminal_injected p q n e : client_error (fault_terminal p q n) = Some e -> injected p e.
Proof.
  unfold fault_terminal, decide_terminal, injected.
  destruct (n =? 1)%N.
  - destruct (fp_one_shot_errors p !! fr_operation q) eqn:E; [|done]. intros [= <-]. right. eauto.
  - destruct (_ <? _)%N; [intros [= <-]; by left|]. destruct (_ <? _)%N; [|done]. intros [= <-]. right. eauto.
Qed.

Definition post {A} (P : res ClientError A -> FakeHypervisor -> Prop) (x : res ClientError A * FakeHypervisor) : Prop :=
  P x.1 x.2.
Definition plan_of (h : FakeHypervisor) : FaultPlan := fi_plan (fh_fault_injector h).

(** A call asks the fault injector first, which touches its own state only. *)
Lemma post_fault {A} P op id n (k : FaultDecision -> st FakeHypervisor ClientError A) h : room 0 h ->
  (forall e h', core_eq h h' -> plan_of h' = plan_of h -> injected (plan_of h) e -> P (Err e) h') ->
  (forall d h', core_eq h h' -> plan_of h' = plan_of h -> post P (k d h')) -> post P ((decide_fault op id n ≫= k) h).
Proof.
  intros [Hroom _] H1 H2. rewrite st_bind_run. unfold decide_fault.
  set (q := mkFaultRequest TargetHypervisor op id).
  assert (stream_attempt q (fh_fault_injector h) < u64_max)%N as Hq.
  { unfold stream_attempt. destruct (_ !! _) eqn:E; [|done]. by apply Hroom in E. }
  destruct (fault_decide_run q n _ Hq) as (d & Hd & ->). apply decide_with_attempt_terminal in Hd as [Ht _].
  destruct (client_error _) as [e|] eqn:He; [|by apply H2].
  rewrite Ht in He. apply H1; [done|done|]. by eapply fault_terminal_injected.
Qed.

Lemma post_lift {A B} P (r : res ClientError A) (k : A -> st FakeHypervisor ClientError B) h : r <> Panic ->
  (forall e, r = Err e -> P (Err e) h) -> (forall a, r = Ok a -> post P (k a h)) -> post P ((lift_res r ≫= k) h).
Proof. intros H0 H1 H2. rewrite st_bind_run. unfold lift_res. destruct r; [by apply H2|by apply H1|done]. Qed.

Lemma post_slot {B} P lease (k : Slot -> st FakeHypervisor ClientError B) h :
  (forall e, get_slot lease h = Err e -> P (Err e) h) ->
  (forall s, fh_slots h !! le_slot_id lease = Some s -> le_token (sl_lease s) = le_token lease -> post P (k s h)) ->
  post P ((slot lease ≫= k) h).
Proof.
  intros H1 H2. rewrite st_bind_run. unfold slot. unfold get_slot in *.
  destruct (fh_slots h !! le_slot_id lease) as [s|]; [|by apply H1].
  case_decide; [by apply H2|by apply H1].
Qed.

Lemma get_bind {A} (k : FakeHypervisor -> st FakeHypervisor ClientError A) h : (get_st ≫= k) h = k h h.
Proof. done. Qed.

Lemma ensure_paused_Ok s op a : ensure_paused s op = Ok a -> sl_state_kind s = Paused.
Proof. unfold ensure_paused. by case_decide. Qed.

Lemma ensure_paused_no_panic s op : ensure_paused s op <> Panic.
Proof. unfold ensure_paused. by case_decide. Qed.

Lemma ensure_capacity_no_panic k h : ensure_capacity k h <> Panic.
Proof. unfold ensure_capacity. by repeat case_match. Qed.

(** ** Leases *)

(** The leases alive on the worker. *)
Definition leases (h : FakeHypervisor) : gset Lease := list_to_set ((fun p => sl_lease p.2) <$> map_to_list (fh_slots h)).

Lemma elem_of_leases h l : hv_ok h -> l ∈ leases h <-> exists s, fh_slots h !! le_slot_id l = Some s /\ sl_lease s = l.
Proof.
  intros Hh. unfold leases. rewrite elem_of_list_to_set, list_elem_of_fmap. split.
  - intros ([id s] & -> & Hin%elem_of_map_to_list). exists s. split; [|done].
    cbn [snd]. by rewrite (ok_lease _ _ _ _ _ (hv_pool _ Hh _ _ Hin)).
  - intros (s & Hl & E). exists (le_slot_id l, s). split; [done|]. by apply elem_of_map_to_list.
Qed.

(** A call that leaves the leases alone, and one that adds some. *)
Definition keeps_leases {A} (h : FakeHypervisor) (r : res ClientError A) (h' : FakeHypervisor) : Prop :=
  r <> Panic /\ hv_ok h' /\ leases h' = leases h /\ plan_of h' = plan_of h.
Definition adds_leases {A} (new : A -> list Lease) (h : FakeHypervisor) (r : res ClientError A) (h' : FakeHypervisor) : Prop :=
  hv_ok h' /\ plan_of h' = plan_of h /\
  match r with
  | Ok a => leases h' = list_to_set (new a) ∪ leases h /\ NoDup (new a) /\ forall l, l ∈ new a -> l ∉ leases h
  | Err _ => leases h' = leases h
  | Panic => False
  end.

Lemma leases_core h h' : core_eq h h' -> leases h' = leases h.
Proof. intros []. unfold leases. by rewrite ce_slots0. Qed.

Lemma leases_fmap h h' : (forall id, sl_lease <$> fh_slots h' !! id = sl_lease <$> fh_slots h !! id) -> leases h' = leases h.
Proof.
  intros Hm. apply set_eq. intros l. unfold leases. rewrite !elem_of_list_to_set, !list_elem_of_fmap.
  split; intros ([id s] & -> & Hin%elem_of_map_to_list); specialize (Hm id); rewrite Hin in Hm.
  - destruct (fh_slots h !! id) as [s'|] eqn:E; [|done]. injection Hm as Hm. exists (id, s').
    split; [done|by apply elem_of_map_to_list].
  - destruct (fh_slots h' !! id) as [s'|] eqn:E; [|done]. injection Hm as Hm. exists (id, s').
    split; [done|by apply elem_of_map_to_list].
Qed.

Lemma leases_replace h h' id s s' : fh_slots h !! id = Some s -> fh_slots h' = <[id := s']> (fh_slots h) ->
  sl_lease s' = sl_lease s -> leases h' = leases h.
Proof.
  intros Hl E1 E2. apply leases_fmap. intros j. rewrite E1.
  destruct (decide (j = id)) as [->|]; [by rewrite lookup_insert_eq, Hl; cbn; rewrite E2|by rewrite lookup_insert_ne].
Qed.

Lemma leases_add h h' id s : fh_slots h !! id = None -> fh_slots h' = <[id := s]> (fh_slots h) ->
  leases h' = {[sl_lease s]} ∪ leases h.
Proof.
  intros Hn E. unfold leases. rewrite E, map_to_list_insert by done. done.
Qed.

Lemma next_is_free h : hv_ok h -> fh_slots h !! fh_next_slot_id h = None.
Proof.
  intros Hh. destruct (fh_slots h !! fh_next_slot_id h) eqn:E; [|done]. apply (hv_pool _ Hh) in E as []. lia.
Qed.

Lemma fresh_not_leased h l : hv_ok h -> (fh_next_slot_id h <= le_slot_id l)%N -> l ∉ leases h.
Proof.
  intros Hh Hle (s & Hs & _)%elem_of_leases; [|done]. apply (hv_pool _ Hh) in Hs as []. lia.
Qed.

(** ** Calls that allocate *)

Lemma room_0 k h : room k h -> room 0 h.
Proof. intros [? ?]. split; [done|lia]. Qed.

Lemma adds_core {A} (new : A -> list Lease) h h1 r h' : core_eq h h1 -> plan_of h1 = plan_of h ->
  adds_leases new h1 r h' -> adds_leases new h r h'.
Proof. intros Hc Hp (H1 & H2 & H3). unfold adds_leases. rewrite (leases_core _ _ Hc) in H3. by rewrite H2. Qed.

Lemma adds_Err {A} (new : A -> list Lease) h h1 e : core_eq h h1 -> plan_of h1 = plan_of h -> hv_ok h ->
  adds_leases new h (Err e) h1.
Proof. intros Hc Hp Hh. split_and!; [by eapply hv_ok_core|done|by apply leases_core]. Qed.

(** Filing a fresh slot and announcing it. *)
Lemma file_new {A} (new : A -> list Lease) (a : A) h lease s : hv_ok h -> (fh_next_slot_id h < u64_max)%N ->
  le_slot_id lease = fh_next_slot_id h -> sl_lease s = lease -> sl_state_kind s = Paused -> sl_parent s = None ->
  slot_guest_ok (fh_world h) s -> new a = [lease] ->
  adds_leases new h (Ok a) (push_slot_event (le_slot_id lease)
    (set_slots (<[le_slot_id lease := s]> (fh_slots h)) (set_next_slot_id (saturating_add u64_max (fh_next_slot_id h) 1) h))).
Proof.
  intros Hh Hn El Es Hk Hp Hg Hnew. split_and!.
  - apply hv_ok_push. rewrite El. apply hv_ok_add; [done|done|congruence|done..].
  - unfold push_slot_event. by case_match.
  - rewrite Hnew, (leases_core _ _ (core_eq_push _ _)).
    erewrite leases_add; [|by apply next_is_free|cbn; by rewrite El]. rewrite Es. set_solver.
  - rewrite Hnew. apply NoDup_singleton.
  - rewrite Hnew. intros l ->%list_elem_of_singleton. apply fresh_not_leased; [done|lia].
Qed.

Lemma create_vm_spec request h : hv_ok h -> room 1 h -> post (adds_leases (fun x => [cvr_lease x]) h) (fake_create_vm request h).
Proof.
  intros Hh Hroom. unfold fake_create_vm. apply post_fault; [by eapply room_0|by intros; apply adds_Err|].
  intros d h1 Hc Hpl. rewrite get_bind. apply post_lift; [apply ensure_capacity_no_panic|by intros; apply adds_Err|].
  intros _ _. unfold allocate_lease, insert_slot, notify. apply (adds_core _ _ _ _ _ Hc Hpl).
  apply (hv_ok_core _ _ Hc) in Hh. destruct Hc.
  eapply (file_new _ _ h1); [done| |done..| |done]; [destruct Hroom; lia|].
  split; [apply initial_ok, Hh|]. by split; [apply NoDup_nil|].
Qed.

Lemma restore_snapshot_spec request h : hv_ok h -> room 1 h ->
  post (adds_leases (fun x => [rsr_lease x]) h) (fake_restore_snapshot request h).
Proof.
  intros Hh Hroom. unfold fake_restore_snapshot. apply post_fault; [by eapply room_0|by intros; apply adds_Err|].
  intros d h1 Hc Hpl. rewrite get_bind. apply post_lift; [apply ensure_capacity_no_panic|by intros; apply adds_Err|].
  intros _ _. apply post_lift; [by destruct (_ !! _)|by intros; apply adds_Err|]. intros r Hr%ok_or_Ok.
  apply (adds_core _ _ _ _ _ Hc Hpl). apply (hv_ok_core _ _ Hc) in Hh. destruct Hc.
  eapply (file_new _ _ h1); [done| |done..| |done]; [destruct Hroom; lia|]. apply (hv_records _ Hh _ _ Hr).
Qed.

(** ** Forking *)

(** What forking and announcing do not touch. *)
Definition rest_eq (h h' : FakeHypervisor) : Prop :=
  fh_fault_injector h' = fh_fault_injector h /\ fh_class h' = fh_class h /\ fh_world h' = fh_world h.
Global Instance rest_eq_preorder : PreOrder rest_eq.
Proof. split; [done|]. intros h1 h2 h3 (?&?&?) (?&?&?). split_and!; congruence. Qed.

Lemma rest_eq_push id h : rest_eq h (push_slot_event id h).
Proof. unfold push_slot_event. by case_match. Qed.

(** While its children are added, the parent is still paused. *)
Record forking (pid : SlotId) (parent : Slot) (h : FakeHypervisor) : Prop := {
  fk_world : world_ok (fh_world h);
  fk_pool : pool_ok (Some (pid, Paused)) (fh_slots h) (fh_next_slot_id h);
  fk_parent : fh_slots h !! pid = Some parent;
  fk_guests : map_Forall (fun _ s => slot_guest_ok (fh_world h) s) (fh_slots h);
  fk_records : map_Forall (fun _ r => record_guest_ok (fh_world h) r) (fh_snapshots h)
}.

Lemma forking_start h pid parent : hv_ok h -> fh_slots h !! pid = Some parent -> sl_state_kind parent = Paused ->
  forking pid parent h.
Proof.
  intros [Hw Hp Hg Hr] Hl Hk. split; [done| |done|done|done].
  intros j s Hj. destruct (Hp _ _ Hj) as [H1 H2 H3 H4]. split; [done|done| |done].
  unfold expected_kind. case_decide as Hd; [|done]. subst j. congruence.
Qed.

Lemma fork_one_run pid parent seed h : forking pid parent h -> (fh_next_slot_id h < u64_max)%N ->
  exists h' lease, fork_one parent pid seed h = (Ok lease, h') /\ forking pid parent h' /\
    le_slot_id lease = fh_next_slot_id h /\ fh_next_slot_id h' = (fh_next_slot_id h + 1)%N /\
    fh_slots h' = <[fh_next_slot_id h := clone_as_child lease pid parent]> (fh_slots h) /\ rest_eq h h'.
Proof.
  intros [Hw Hp Hl Hg Hr] Hn. eexists _, _. split; [reflexivity|]. cbn.
  split; [|unfold saturating_add; rewrite N.min_l by lia; done].
  unfold saturating_add. rewrite N.min_l by lia. split; cbn; [done| | | |done].
  - apply pool_ok_add; [done|done|done|naive_solver|]. intros i k [= <- <-]. by eexists.
  - rewrite lookup_insert_ne; [done|]. apply (Hp _ _) in Hl as []. lia.
  - apply map_Forall_insert_2; [|done]. apply (Hg _ _ Hl).
Qed.

Lemma forking_free pid parent h : forking pid parent h -> fh_slots h !! fh_next_slot_id h = None.
Proof.
  intros Hf. destruct (fh_slots h !! fh_next_slot_id h) eqn:E; [|done]. apply (fk_pool _ _ _ Hf) in E as []. lia.
Qed.

Lemma fork_all_run pid parent seeds : forall h, forking pid parent h ->
  (fh_next_slot_id h + N.of_nat (length seeds) <= u64_max)%N ->
  exists h' ls, mapM_st (fork_one parent pid) seeds h = (Ok ls, h') /\ forking pid parent h' /\
    le_slot_id <$> ls = (fun k => fh_next_slot_id h + N.of_nat k)%N <$> seq 0 (length seeds) /\
    (forall lease, lease ∈ ls -> fh_slots h' !! le_slot_id lease = Some (clone_as_child lease pid parent)) /\
    (forall j s, fh_slots h !! j = Some s -> fh_slots h' !! j = Some s) /\
    leases h' = list_to_set ls ∪ leases h /\ rest_eq h h'.
Proof.
  induction seeds as [|seed seeds IH]; intros h Hf Hn; cbn [mapM_st].
  - exists h, []. split_and!; [done..| |done|set_solver|done]. by intros l ?%not_elem_of_nil.
  - cbn in Hn. destruct (fork_one_run pid parent seed h Hf) as (h1 & lease & E & Hf1 & El & En & Es & Epl); [lia|].
    rewrite st_bind_run, E. destruct (IH h1 Hf1) as (h2 & ls & E2 & Hf2 & El2 & Hch & Hold & Els & Epl2); [lia|].
    rewrite st_bind_run, E2. exists h2, (lease :: ls). split; [done|]. split; [done|]. split_and!.
    + cbn. rewrite El, El2, En. f_equal; [lia|]. rewrite <- (fmap_S_seq 0), <- list_fmap_compose. apply list_fmap_ext. cbn. lia.
    + intros l [->|Hl]%elem_of_cons; [|by apply Hch]. apply Hold. by rewrite Es, El, lookup_insert_eq.
    + intros j s Hj. apply Hold. rewrite Es, lookup_insert_ne; [done|]. apply (fk_pool _ _ _ Hf) in Hj as []. lia.
    + rewrite Els. erewrite (leases_add h h1); [|by eapply forking_free|exact Es]. cbn. set_solver.
    + by etrans.
Qed.

Lemma notify_all_run ids : forall h, exists h', mapM_st notify ids h = (Ok (replicate (length ids) tt), h') /\
  core_eq h h' /\ rest_eq h h'.
Proof.
  induction ids as [|id ids IH]; intros h; cbn [mapM_st]; [by exists h|].
  destruct (IH (push_slot_event id h)) as (h' & E & Hc & Hp).
  change ((notify id ≫= _) h) with ((bs ← mapM_st notify ids; mret (tt :: bs)) (push_slot_event id h)).
  rewrite st_bind_run, E. exists h'. split; [done|]. split; [by eapply core_eq_trans, Hc; apply core_eq_push|].
  etrans; [apply rest_eq_push|done].
Qed.

(** Freezing the parent closes the fork, once it has a child. *)
Lemma freeze_run pid parent h : forking pid parent h -> has_live_children pid (fh_slots h) = true ->
  freeze pid h = (Ok tt, set_slots (<[pid := with_state_kind Frozen parent]> (fh_slots h)) h) /\
  hv_ok (set_slots (<[pid := with_state_kind Frozen parent]> (fh_slots h)) h).
Proof.
  intros [Hw Hp Hl Hg Hr] Hc. unfold freeze. rewrite Hl. split; [done|].
  pose proof (pool_ok_settle _ _ _ _ _ Hp Hl) as Hs. unfold expected_kind in Hs. rewrite Hc in Hs.
  split; cbn; [done..| |done]. apply map_Forall_insert_2; [|done]. apply (Hg _ _ Hl).
Qed.

Lemma ForkRequest_validate_Ok r a : ForkRequest_validate r = Ok a ->
  fq_entropy_seeds r <> [] /\ fq_count r = N.of_nat (length (fq_entropy_seeds r)).
Proof.
  unfold ForkRequest_validate. destruct (N.eqb_spec (fq_count r) 0); [done|].
  destruct (N.eqb_spec (N.of_nat (length (fq_entropy_seeds r))) (fq_count r)) as [E|]; [|done]. intros _. split; [|done].
  intros Hnil. rewrite Hnil in E. cbn in E. lia.
Qed.


Lemma fork_spec request h : hv_ok h -> room (N.of_nat (length (fq_entropy_seeds request))) h ->
  post (adds_leases (fun x => x) h) (fake_fork request h).
Proof.
  intros Hh Hroom. unfold fake_fork. apply post_lift; [unfold ForkRequest_validate; by repeat case_match|by intros; apply adds_Err|].
  intros _ [Hne Hc]%ForkRequest_validate_Ok. apply post_fault; [by eapply room_0|by intros; apply adds_Err|].
  intros d h1 Hce Hpl. rewrite get_bind. apply post_lift; [apply ensure_capacity_no_panic|by intros; apply adds_Err|].
  intros _ _. apply post_slot; [by intros; apply adds_Err|]. intros parent Hl _.
  apply post_lift; [apply ensure_paused_no_panic|by intros; apply adds_Err|]. intros _ Hk%ensure_paused_Ok.
  set (pid := le_slot_id (fq_parent request)) in *. apply (adds_core _ _ _ _ _ Hce Hpl).
  apply (hv_ok_core _ _ Hce) in Hh. destruct Hroom as [_ Hn]. destruct Hce as [_ _ En _].
  destruct (fork_all_run pid parent (fq_entropy_seeds request) h1) as (h2 & ls & E & Hf & El & Hch & _ & Els & Epl);
    [by apply forking_start|by rewrite En|].
  rewrite st_bind_run, E.
  assert (has_live_children pid (fh_slots h2) = true) as Hlive.
  { destruct ls as [|lease ls]; [by destruct (fq_entropy_seeds request)|].
    apply has_live_children_true. eexists _, _. split; [apply Hch; left|]. done. }
  destruct (freeze_run pid parent h2 Hf Hlive) as [E3 H3]. rewrite st_bind_run, E3.
  set (h3 := set_slots _ h2) in *. rewrite st_bind_run.
  change (notify pid h3) with (Ok (E := ClientError) tt, push_slot_event pid h3). cbv iota beta.
  destruct (notify_all_run (le_slot_id <$> ls) (push_slot_event pid h3)) as (h4 & E4 & Hc4 & Hp4).
  rewrite st_bind_run, E4.
  pose proof (core_eq_trans _ _ _ (core_eq_push pid h3) Hc4) as Hc34.
  change (adds_leases (fun x => x) h1 (Ok ls) h4). split_and!.
  - by eapply hv_ok_core.
  - destruct Epl as [Ep _], Hp4 as [Ep4 _]. unfold plan_of. rewrite Ep4, (proj1 (rest_eq_push pid h3)).
    unfold h3. cbn. by rewrite Ep.
  - rewrite (leases_core _ _ Hc34), <- Els. eapply leases_replace; [apply Hf|done|done].
  - apply (NoDup_fmap_1 le_slot_id). rewrite El. apply NoDup_fmap_2; [intros ? ? ?; lia|apply NoDup_seq].
  - intros l Hin. apply fresh_not_leased; [done|]. apply (list_elem_of_fmap_2 le_slot_id) in Hin. rewrite El in Hin.
    apply list_elem_of_fmap in Hin as (k & -> & _). lia.
Qed.

(** ** Calls on a slot *)

Lemma keeps_core {A} (r : res ClientError A) h h' : core_eq h h' -> plan_of h' = plan_of h -> hv_ok h -> r <> Panic ->
  keeps_leases h r h'.
Proof. intros Hc Hp Hh Hr. split_and!; [done|by eapply hv_ok_core|by apply leases_core|done]. Qed.

(** A slot replaced by one in the same place, whatever is announced. *)
Lemma keeps_replace {A} (r : res ClientError A) h h' id s s' : hv_ok h -> fh_slots h !! id = Some s -> same_place s s' ->
  (slot_guest_ok (fh_world h) s -> slot_guest_ok (fh_world h) s') ->
  core_eq (set_slots (<[id := s']> (fh_slots h)) h) h' -> plan_of h' = plan_of h -> r <> Panic -> keeps_leases h r h'.
Proof.
  intros Hh Hl Hs Hg Hc Hp Hr. split_and!; [done| | |done].
  - eapply hv_ok_core; [exact Hc|]. by eapply hv_ok_replace.
  - eapply leases_replace; [exact Hl|apply Hc|apply Hs].
Qed.

Lemma keeps_from {A} (r : res ClientError A) h h1 h' : core_eq h h1 -> plan_of h1 = plan_of h ->
  keeps_leases h1 r h' -> keeps_leases h r h'.
Proof. intros Hc Hp (H1 & H2 & H3 & H4). split_and!; [done|done|by rewrite H3; apply leases_core|congruence]. Qed.

Lemma plan_push id h : plan_of (push_slot_event id h) = plan_of h.
Proof. unfold push_slot_event. by case_match. Qed.

Lemma validate_events_no_panic s es : mapM_res (validate_scheduled_event s) es <> Panic.
Proof. apply mapM_res_no_panic. intros e _. unfold validate_scheduled_event. by repeat case_match. Qed.

Lemma validate_range_no_panic r : validate_range r <> Panic.
Proof. unfold validate_range. repeat (case_match; [done|]); by repeat case_match. Qed.

Lemma validate_capture_no_panic c : validate_capture_spec c <> Panic.
Proof.
  destruct c as [c|]; [|done]. apply bind_no_panic; [|done]. apply mapM_res_no_panic. intros; apply validate_range_no_panic.
Qed.

Lemma capture_no_panic s f c : capture_response s f c <> Panic.
Proof.
  destruct c as [c|]; [|done]. apply bind_no_panic; [|done].
  apply bind_no_panic; [exact (validate_capture_no_panic (Some c))|]. intros _ _. apply bind_no_panic; [|done].
  apply mapM_res_no_panic. intros r _. unfold pack_range. by repeat case_match.
Qed.

Lemma inject_inputs_spec request h : hv_ok h -> room 0 h -> post (keeps_leases h) (fake_inject_inputs request h).
Proof.
  intros Hh Hroom. unfold fake_inject_inputs. apply post_fault; [done|by intros; apply keeps_core|].
  intros d h1 Hc Hpl. apply post_lift; [by case_match|by intros; apply keeps_core|]. intros _ _.
  apply post_slot; [by intros; apply keeps_core|]. intros s Hl _.
  apply post_lift; [apply ensure_paused_no_panic|by intros; apply keeps_core|]. intros _ _.
  apply post_lift; [apply validate_events_no_panic|by intros; apply keeps_core|]. intros _ _.
  apply (hv_ok_core _ _ Hc) in Hh. apply (keeps_from _ _ _ _ Hc Hpl).
  destruct (schedule (ii_events request) s) as [r s'] eqn:E.
  destruct (schedule_ok (fh_world h1) _ _ _ _ E) as (Hp & Hsame & Hg).
  destruct r; [|by eapply keeps_replace|done].
  eapply (keeps_replace _ h1 _ _ s (sort_pending s')); [done..| |done|done|done].
  intros Hs. apply sort_pending_ok. auto.
Qed.

Lemma same_place_paused s s' k : same_place (with_state_kind k s) s' -> sl_state_kind s = Paused ->
  same_place s (with_state_kind Paused s').
Proof. intros (E1 & E2 & E3 & E4 & E5) Hk. by split_and!. Qed.

(** Marking a slot as running and then replacing it, with the events. *)
Lemma run_core h id s s' :
  let h1 := push_slot_event id (set_slots (<[id := with_state_kind Running s]> (fh_slots h)) h) in
  core_eq (set_slots (<[id := s']> (fh_slots h)) h) (push_slot_event id (set_slots (<[id := s']> (fh_slots h1)) h1)) /\
  plan_of (push_slot_event id (set_slots (<[id := s']> (fh_slots h1)) h1)) = plan_of h.
Proof.
  intros h1. destruct (core_eq_push id (set_slots (<[id := with_state_kind Running s]> (fh_slots h)) h)) as [E1 E2 E3 E4].
  cbn [fh_world fh_slots fh_next_slot_id fh_snapshots set_slots] in *. split.
  - eapply core_eq_trans, core_eq_push.
    split; cbn [fh_world fh_slots fh_next_slot_id fh_snapshots set_slots]; unfold h1; try done.
    by rewrite E2, insert_insert_eq.
  - rewrite plan_push. unfold h1. change (plan_of (set_slots ?m ?x)) with (plan_of x). by rewrite plan_push.
Qed.

Lemma run_spec request h : hv_ok h -> room 0 h -> post (keeps_leases h) (fake_run request h).
Proof.
  intros Hh Hroom. unfold fake_run. apply post_fault; [done|by intros; apply keeps_core|]. intros d h1 Hc Hpl.
  apply post_lift; [apply validate_capture_no_panic|by intros; apply keeps_core|]. intros _ _.
  apply post_slot; [by intros; apply keeps_core|]. intros s Hl _.
  apply post_lift; [apply ensure_paused_no_panic|by intros; apply keeps_core|]. intros _ Hk%ensure_paused_Ok.
  apply (hv_ok_core _ _ Hc) in Hh. apply (keeps_from _ _ _ _ Hc Hpl).
  set (id := le_slot_id (rq_lease request)) in *. unfold insert_slot, notify. run_st.
  rewrite (ce_world _ _ (core_eq_push _ _)). cbn [fh_world set_slots].
  destruct (run_slot _ _ _ _) as [r s'] eqn:E.
  destruct (run_slot_ok _ _ _ _ _ _ E) as (Hp & Hsame & Hg). specialize (Hg (hv_world _ Hh)).
  destruct (run_core h1 id s (with_state_kind Paused s')) as [Hrc Hrp].
  assert (forall A (x : res ClientError A), x <> Panic -> keeps_leases h1 x _) as Hkeep
    by (intros A x; exact (keeps_replace x h1 _ id s (with_state_kind Paused s') Hh Hl (same_place_paused _ _ _ Hsame Hk) Hg Hrc Hrp)).
  destruct r as [[[reason n] ev]|e|]; [|by apply Hkeep|done]. run_st.
  apply post_lift; [apply capture_no_panic|by intros; apply Hkeep|]. intros c _. by apply Hkeep.
Qed.

Lemma take_snapshot_spec request h : hv_ok h -> room 0 h -> post (keeps_leases h) (fake_take_snapshot request h).
Proof.
  intros Hh Hroom. unfold fake_take_snapshot. apply post_fault; [done|by intros; apply keeps_core|]. intros d h1 Hc Hpl.
  apply post_slot; [by intros; apply keeps_core|]. intros s Hl _.
  apply post_lift; [apply ensure_paused_no_panic|by intros; apply keeps_core|]. intros _ _.
  apply post_lift; [apply capture_no_panic|by intros; apply keeps_core|]. intros c _. run_st.
  apply (hv_ok_core _ _ Hc) in Hh. apply (keeps_from _ _ _ _ Hc Hpl). split_and!; [done| |done|done].
  destruct Hh as [Hw Hp Hg Hr]. split; [done..|]. apply map_Forall_insert_2; [|done]. apply (Hg _ _ Hl).
Qed.

Lemma settle_parent h p : world_ok (fh_world h) -> pool_ok (Some (p, Frozen)) (fh_slots h) (fh_next_slot_id h) ->
  map_Forall (fun _ s => slot_guest_ok (fh_world h) s) (fh_slots h) ->
  map_Forall (fun _ r => record_guest_ok (fh_world h) r) (fh_snapshots h) ->
  is_Some (fh_slots h !! p) -> hv_ok (maybe_unfreeze_parent p h).
Proof.
  intros Hw Hp Hg Hr [s Hl]. pose proof (pool_ok_settle _ _ _ _ _ Hp Hl) as Hs. unfold expected_kind in Hs.
  assert (sl_state_kind s = Frozen) as Hk.
  { rewrite (ok_kind _ _ _ _ _ (Hp _ _ Hl)). unfold expected_kind. by rewrite decide_True. }
  unfold maybe_unfreeze_parent. destruct (has_live_children p (fh_slots h)).
  - split; [done| |done|done]. rewrite insert_id in Hs; [done|]. rewrite Hl. destruct s; cbn in *; by subst.
  - rewrite Hl, decide_True by done. apply hv_ok_push. split; cbn; [done..| |done].
    apply map_Forall_insert_2; [|done]. apply (Hg _ _ Hl).
Qed.

Definition destroy_post (lease : Lease) (h : FakeHypervisor) (r : res ClientError unit) (h' : FakeHypervisor) : Prop :=
  hv_ok h' /\ plan_of h' = plan_of h /\
  match r with
  | Ok _ => lease ∈ leases h /\ leases h' = leases h ∖ {[lease]}
  | Err e => leases h' = leases h /\ (ce_kind e = NotFound -> injected (plan_of h) e \/ lease ∉ leases h)
  | Panic => False
  end.

Lemma destroy_Err lease h h' e : core_eq h h' -> plan_of h' = plan_of h -> hv_ok h ->
  (ce_kind e = NotFound -> injected (plan_of h) e \/ lease ∉ leases h) -> destroy_post lease h (Err e) h'.
Proof. intros Hc Hp Hh He. split_and!; [by eapply hv_ok_core|done|by apply leases_core|done]. Qed.

Lemma get_slot_Err lease h e : hv_ok h -> get_slot lease h = Err e -> ce_kind e = NotFound -> lease ∉ leases h.
Proof.
  intros Hh He Hk (s & Hs & _)%elem_of_leases; [|done]. unfold get_slot in He. rewrite Hs in He.
  case_decide; [done|]. injection He as <-. done.
Qed.

Lemma leases_delete h h' lease s : hv_ok h -> fh_slots h !! le_slot_id lease = Some s -> sl_lease s = lease ->
  fh_slots h' = delete (le_slot_id lease) (fh_slots h) -> leases h' = leases h ∖ {[lease]}.
Proof.
  intros Hh Hl E1 E2.
  set (h0 := set_slots (delete (le_slot_id lease) (fh_slots h)) h).
  assert (leases h' = leases h0) as -> by (unfold leases; by rewrite E2).
  assert (leases h = {[lease]} ∪ leases h0) as ->.
  { rewrite <- E1. eapply leases_add; [apply lookup_delete_eq|]. cbn. by rewrite insert_delete_id. }
  assert (lease ∉ leases h0); [|set_solver].
  unfold leases. rewrite elem_of_list_to_set. intros ([id s'] & Hs' & Hin%elem_of_map_to_list)%list_elem_of_fmap.
  cbn in Hin, Hs'. apply lookup_delete_Some in Hin as [Hne Hin]. apply (hv_pool _ Hh) in Hin as [Hin _ _ _].
  rewrite Hs' in Hne. done.
Qed.

Lemma unfreeze_slots p h : leases (maybe_unfreeze_parent p h) = leases h /\ plan_of (maybe_unfreeze_parent p h) = plan_of h.
Proof.
  unfold maybe_unfreeze_parent. destruct (has_live_children p (fh_slots h)); [done|].
  rewrite plan_push, (leases_core _ _ (core_eq_push _ _)).
  destruct (fh_slots h !! p) as [s|] eqn:E; [|done]. case_decide; [|done]. split; [|done].
  by eapply leases_replace.
Qed.

Lemma destroy_vm_spec lease h : hv_ok h -> room 0 h -> post (destroy_post lease h) (fake_destroy_vm lease h).
Proof.
  intros Hh Hroom. unfold fake_destroy_vm.
  apply post_fault; [done|intros; apply destroy_Err; [done..|by left]|]. intros d h1 Hc Hpl.
  pose proof (hv_ok_core _ _ Hc Hh) as Hh1. pose proof (leases_core _ _ Hc) as Els.
  apply post_slot; [intros e He; apply destroy_Err; [done..|]; right; rewrite <- Els; by eapply get_slot_Err|].
  intros s Hl Ht. rewrite get_bind.
  assert (sl_lease s = lease) as Elease.
  { apply (hv_pool _ Hh1) in Hl as [E _ _ _]. destruct (sl_lease s), lease. cbn in *. by subst. }
  apply post_lift; [by case_decide|intros e He; apply destroy_Err; [done..|]; by case_decide; simplify_eq|]. intros _ _.
  apply post_lift; [by case_match|intros e He; apply destroy_Err; [done..|]; by case_match; simplify_eq|].
  intros u. destruct (has_live_children (le_slot_id lease) (fh_slots h1)) eqn:Hch; [done|]. intros _. run_st.
  set (h2 := push_event _ _).
  assert (lease ∈ leases h /\ leases h2 = leases h ∖ {[lease]} /\ plan_of h2 = plan_of h) as (G1 & G2 & G3).
  { rewrite <- Els, <- Hpl. split; [|by split; [eapply leases_delete|]]. apply elem_of_leases; [done|]. eauto. }
  destruct Hh1 as [Hw Hp Hg Hr]. pose proof (pool_ok_delete _ _ _ _ Hp Hl Hch) as Hd.
  assert (map_Forall (fun _ s => slot_guest_ok (fh_world h1) s) (delete (le_slot_id lease) (fh_slots h1))) as Hg'
    by (by apply map_Forall_delete).
  destruct (sl_parent s) as [p|] eqn:Hpar.
  - change (destroy_post lease h (Ok tt) (maybe_unfreeze_parent p h2)).
    destruct (unfreeze_slots p h2) as [G4 G5]. split_and!; [|by rewrite G5|done|by rewrite G4].
    apply settle_parent; [done..|]. cbn. destruct (ok_parent _ _ _ _ _ (Hp _ _ Hl) _ Hpar) as [Hlt Hsome].
    rewrite lookup_delete_ne by lia. done.
  - by split_and!.
Qed.

Lemma looks_spec h : hv_ok h -> room 0 h -> post (keeps_leases h) (fake_list_slots h) /\
  post (keeps_leases h) (fake_watch_slots h) /\ post (keeps_leases h) (fake_worker_info h).
Proof.
  intros Hh Hroom. unfold fake_list_slots, fake_watch_slots, fake_worker_info. rewrite !get_bind.
  split_and!; (apply post_fault; [done|by intros; apply keeps_core|]); intros d h1 Hc Hpl; apply keeps_core; try done.
  destruct Hc. by split.
Qed.

(** ** Any sequence of calls *)

Inductive hv_call :=
| CallCreate (q : CreateVmRequest) | CallRestore (q : RestoreSnapshotRequest) | CallFork (q : ForkRequest)
| CallInject (q : InjectInputsRequest) | CallRun (q : RunRequest) | CallSnapshot (q : TakeSnapshotRequest)
| CallDestroy (l : Lease) | CallList | CallWatch | CallInfo
| RetainSnapshots (keep : gset SnapshotRef) | CompactWatch | SetSlotsTotal (n : N).

(** The state after a call; [None] for a panic. *)
Definition left_by {A} (x : res ClientError A * FakeHypervisor) : option FakeHypervisor :=
  match x.1 with Panic => None | _ => Some x.2 end.
Definition hv_step (c : hv_call) (h : FakeHypervisor) : option FakeHypervisor :=
  match c with
  | CallCreate q => left_by (create_vm q h)
  | CallRestore q => left_by (restore_snapshot q h)
  | CallFork q => left_by (fork q h)
  | CallInject q => left_by (inject_inputs q h)
  | CallRun q => left_by (run q h)
  | CallSnapshot q => left_by (take_snapshot q h)
  | CallDestroy l => left_by (destroy_vm l h)
  | CallList => left_by (list_slots h)
  | CallWatch => left_by (watch_slots h)
  | CallInfo => left_by (worker_info h)
  | RetainSnapshots keep => Some (retain_live_snapshots keep h).2
  | CompactWatch => Some (compact_consumed_watch_events h).2
  | SetSlotsTotal n => Some (set_slots_total n h)
  end.
Definition slots_asked (c : hv_call) : N :=
  match c with
  | CallCreate _ | CallRestore _ => 1
  | CallFork q => N.of_nat (length (fq_entropy_seeds q))
  | _ => 0
  end.

(** The states a double reaches while its 64-bit counters have room. *)
Inductive hv_reach : FakeHypervisor -> Prop :=
| reach_new world slots_total plan : world_ok world -> hv_reach (with_world_slots_and_fault_plan world slots_total plan)
| reach_call h c h' : hv_reach h -> room (slots_asked c) h -> hv_step c h = Some h' -> hv_reach h'.

Lemma post_left_by {A} P (x : res ClientError A * FakeHypervisor) : post P x -> (forall r h', P r h' -> r <> Panic /\ hv_ok h') ->
  exists h', left_by x = Some h' /\ hv_ok h'.
Proof. destruct x as [r h']. unfold post, left_by. cbn. intros HP Hf. destruct (Hf _ _ HP) as [H1 H2]. exists h'. by destruct r. Qed.

Lemma hv_step_ok c h : hv_ok h -> room (slots_asked c) h -> exists h', hv_step c h = Some h' /\ hv_ok h'.
Proof.
  intros Hh Hr. destruct c; cbn [hv_step slots_asked] in *.
  - eapply post_left_by; [by apply create_vm_spec|]. intros [] h'; by intros (? & ? & ?).
  - eapply post_left_by; [by apply restore_snapshot_spec|]. intros [] h'; by intros (? & ? & ?).
  - eapply post_left_by; [by apply fork_spec|]. intros [] h'; by intros (? & ? & ?).
  - eapply post_left_by; [by apply inject_inputs_spec|]. by intros r h' (? & ? & ? & ?).
  - eapply post_left_by; [by apply run_spec|]. by intros r h' (? & ? & ? & ?).
  - eapply post_left_by; [by apply take_snapshot_spec|]. by intros r h' (? & ? & ? & ?).
  - eapply post_left_by; [by apply destroy_vm_spec|]. intros [] h'; by intros (? & ? & ?).
  - eapply post_left_by; [by apply looks_spec|]. by intros r h' (? & ? & ? & ?).
  - eapply post_left_by; [by apply looks_spec|]. by intros r h' (? & ? & ? & ?).
  - eapply post_left_by; [by apply looks_spec|]. by intros r h' (? & ? & ? & ?).
  - eexists. split; [done|]. destruct Hh. split; [done..|].
    intros k r [Hl _]%map_lookup_filter_Some. eauto.
  - eexists. split; [done|]. unfold compact_consumed_watch_events. cbn. case_match; [|done].
    by apply (hv_ok_core h).
  - eexists. split; [done|]. by apply (hv_ok_core h).
Qed.

Lemma hv_new_ok world n plan : world_ok world -> hv_ok (with_world_slots_and_fault_plan world n plan).
Proof. intros Hw. split; [done|apply map_Forall_empty..]. Qed.

Lemma hv_reach_ok h : hv_reach h -> hv_ok h.
Proof.
  induction 1 as [|h c h' _ IH Hr Hs]; [by apply hv_new_ok|].
  destruct (hv_step_ok c h IH Hr) as (h1 & E & Hh1). by simplify_eq.
Qed.

(** C24. The worker's slots stay consistent: after any sequence of calls,
    faults included, every slot is filed under its lease, a slot is frozen
    exactly while a live slot names it as parent and paused otherwise (so
    between calls none is running), a parent is an older live slot, every
    guest is in a valid state of the world, and no call panics. *)
Theorem worker_slots_consistent (h : FakeHypervisor) : hv_reach h ->
  (forall id s, fh_slots h !! id = Some s ->
     le_slot_id (sl_lease s) = id /\ state_ok (fh_world h) (sl_state s) /\
     sl_state_kind s = (if has_live_children id (fh_slots h) then Frozen else Paused) /\
     forall p, sl_parent s = Some p -> (p < id)%N /\ exists parent, fh_slots h !! p = Some parent /\ sl_state_kind parent = Frozen) /\
  (forall c, room (slots_asked c) h -> hv_step c h <> None).
Proof.
  intros Hh%hv_reach_ok. split.
  - intros id s Hl. destruct (hv_pool _ Hh _ _ Hl) as [H1 H2 H3 H4]. split_and!; [done|apply (hv_guests _ Hh _ _ Hl)|done|].
    intros p Hp. destruct (H4 p Hp) as [H5 [parent H6]]. split; [done|]. exists parent. split; [done|].
    rewrite (ok_kind _ _ _ _ _ (hv_pool _ Hh _ _ H6)). unfold expected_kind.
    assert (has_live_children p (fh_slots h) = true) as -> by (apply has_live_children_true; eauto). done.
  - intros c Hr Hn. destruct (hv_step_ok c h Hh Hr) as (h1 & E & _). congruence.
Qed.
End Invariant.

(** ** Reclaiming a session *)

(** Slots under their own identifier, with older live parents. *)
Definition tree_ok (m : gmap SlotId Slot) : Prop :=
  map_Forall (fun id s => le_slot_id (sl_lease s) = id /\ forall p, sl_parent s = Some p -> (p < id)%N /\ is_Some (m !! p)) m.

Lemma hv_ok_tree h : hv_ok h -> tree_ok (fh_slots h).
Proof. intros Hh id s Hl. by destruct (hv_pool _ Hh _ _ Hl). Qed.

Lemma slots_in_order_perm m : slots_in_order m ≡ₚ (map_to_list m).*2.
Proof. unfold slots_in_order. by rewrite merge_sort_Permutation. Qed.

Lemma elem_of_leaves m id : tree_ok m -> id ∈ leaves m <-> is_Some (m !! id) /\ has_live_children id m = false.
Proof.
  intros Ht. unfold leaves. rewrite list_elem_of_fmap. setoid_rewrite list_elem_of_filter.
  setoid_rewrite slots_in_order_perm. setoid_rewrite list_elem_of_fmap. split.
  - intros (s & -> & Hc & [id' s'] & -> & Hin%elem_of_map_to_list). cbn in *.
    destruct (Ht _ _ Hin) as [E _]. rewrite E in *. split; [by eexists|done].
  - intros [[s Hs] Hc]. destruct (Ht _ _ Hs) as [E _]. exists s. cbn. rewrite E. split_and!; [done|done|].
    exists (id, s). split; [done|]. by apply elem_of_map_to_list.
Qed.

Lemma leaves_NoDup m : tree_ok m -> NoDup (leaves m).
Proof.
  intros Ht. unfold leaves.
  assert (NoDup (le_slot_id ∘ sl_lease <$> slots_in_order m)) as Hnd.
  { rewrite slots_in_order_perm, <- list_fmap_compose.
    rewrite (list_fmap_ext (compose (le_slot_id ∘ sl_lease) snd) fst); [apply NoDup_fst_map_to_list|].
    intros i [id s] Hin. apply list_elem_of_lookup_2, elem_of_map_to_list in Hin. apply (Ht _ _ Hin). }
  eapply sublist_NoDup; [exact Hnd|]. apply fmap_sublist, sublist_filter.
Qed.

Lemma max_key (m : gmap SlotId Slot) : exists top, forall j, is_Some (m !! j) -> (j <= top)%N.
Proof.
  exists (foldr N.max 0%N (map_to_list m).*1). intros j [s Hj%elem_of_map_to_list].
  apply (list_elem_of_fmap_2 fst) in Hj. cbn in Hj. clear s. revert Hj.
  induction (map_to_list m).*1 as [|x l IH]; [by intros ?%not_elem_of_nil|].
  cbn. intros [->|Hj]%elem_of_cons; [lia|]. specialize (IH Hj). lia.
Qed.

(** Children are younger, so some slot has none. *)
Lemma leaves_nonempty m : tree_ok m -> m <> ∅ -> leaves m <> [].
Proof.
  intros Ht Hne Hnil. destruct (max_key m) as [top Htop].
  assert (forall n : nat, exists id, is_Some (m !! id) /\ (N.of_nat n <= id)%N) as Hall.
  { induction n as [|n (id & Hid & Hn)].
    - apply map_choose in Hne as (id & s & Hid). exists id. split; [by eexists|lia].
    - assert (has_live_children id m = true) as (c & s & Hc & Hp)%has_live_children_true.
      { apply not_false_iff_true. intros Hf. assert (id ∈ leaves m) as Hin by (by apply elem_of_leaves).
        rewrite Hnil in Hin. by apply not_elem_of_nil in Hin. }
      exists c. split; [by eexists|]. destruct (Ht _ _ Hc) as [_ Hlt]. destruct (Hlt _ Hp). lia. }
  destruct (Hall (S (N.to_nat top))) as (id & Hid & Hn). apply Htop in Hid. lia.
Qed.

Definition removed (m : gmap SlotId Slot) (ids : list SlotId) : list SlotEvent :=
  omap (fun id => (empty_event id) <$> m !! id) ids.

Lemma removed_cons m id ids s : m !! id = Some s -> removed m (id :: ids) = empty_event id s :: removed m ids.
Proof. intros E. unfold removed. cbn. by rewrite E. Qed.

Lemma removed_ext m m' ids : (forall id, id ∈ ids -> m !! id = m' !! id) -> removed m ids = removed m' ids.
Proof.
  induction ids as [|id ids IH]; intros Hm; [done|]. unfold removed in *. cbn. rewrite Hm by left.
  rewrite IH; [done|]. intros j Hj. apply Hm. by right.
Qed.

Lemma remove_all_run ids : forall h, NoDup ids -> (forall id, id ∈ ids -> is_Some (fh_slots h !! id)) ->
  let h' := foldl (flip remove_slot) h ids in
  fh_slots h' = filter (fun kv => kv.1 ∉ ids) (fh_slots h) /\
  fh_watch_events h' = fh_watch_events h ++ removed (fh_slots h) ids.
Proof.
  induction ids as [|id ids IH]; intros h Hnd Hin; cbn [foldl].
  - split; [|by rewrite app_nil_r]. symmetry. apply map_filter_id. intros ? ? _. apply not_elem_of_nil.
  - apply NoDup_cons in Hnd as [Hni Hnd]. destruct (Hin id (list_elem_of_here _ _)) as [s Hs].
    assert (remove_slot id h = push_event (empty_event id s) (set_slots (delete id (fh_slots h)) h)) as E
      by (unfold remove_slot; by rewrite Hs).
    cbn [flip]. rewrite E. destruct (IH (push_event (empty_event id s) (set_slots (delete id (fh_slots h)) h)) Hnd) as [E1 E2].
    { intros j Hj. cbn. rewrite lookup_delete_ne by (intros ->; done). apply Hin. by right. }
    cbv zeta. rewrite E1, E2. cbn [fh_slots fh_watch_events push_event set_watch set_slots]. split.
    + apply map_eq. intros j. apply option_eq. intros x. rewrite !map_lookup_filter_Some, lookup_delete_Some, not_elem_of_cons. cbn.
      naive_solver.
    + rewrite (removed_cons _ _ _ s Hs), <- app_assoc. cbn. do 2 f_equal. apply removed_ext.
      intros j Hj. by rewrite lookup_delete_ne by (intros ->; done).
Qed.

(** Every child is reclaimed before its parent. *)
Definition children_first (m : gmap SlotId Slot) (order : list SlotId) : Prop :=
  forall i p, order !! i = Some p -> forall id s, m !! id = Some s -> sl_parent s = Some p -> id ∈ take i order.

Lemma tree_ok_pass m : tree_ok m -> tree_ok (filter (fun kv => kv.1 ∉ leaves m) m).
Proof.
  intros Ht id s [Hl Hn]%map_lookup_filter_Some. destruct (Ht _ _ Hl) as [H1 H2]. split; [done|].
  intros p Hp. destruct (H2 p Hp) as [H3 [s' H4]]. split; [done|]. exists s'. apply map_lookup_filter_Some.
  split; [done|]. cbn. rewrite elem_of_leaves by done. intros [_ Hf]. rewrite has_live_children_false in Hf. by apply (Hf _ _ Hl).
Qed.

Lemma removed_app m a b : removed m (a ++ b) = removed m a ++ removed m b.
Proof. unfold removed. by rewrite omap_app. Qed.

Lemma reclaim_pass_run h : tree_ok (fh_slots h) ->
  fh_slots (reclaim_pass h) = filter (fun kv => kv.1 ∉ leaves (fh_slots h)) (fh_slots h) /\
  fh_watch_events (reclaim_pass h) = fh_watch_events h ++ removed (fh_slots h) (leaves (fh_slots h)).
Proof.
  intros Ht. apply remove_all_run; [by apply leaves_NoDup|]. intros id Hin.
  by apply (elem_of_leaves _ _ Ht) in Hin as [? _].
Qed.

(** The keys of a map: the leaves and the rest. *)
Lemma pass_keys m : tree_ok m -> leaves m ++ (map_to_list (filter (fun kv => kv.1 ∉ leaves m) m)).*1 ≡ₚ (map_to_list m).*1.
Proof.
  intros Ht. apply NoDup_Permutation.
  - apply NoDup_app. split_and!; [by apply leaves_NoDup| |apply NoDup_fst_map_to_list].
    intros id Hin ([id' s] & -> & [_ Hn]%elem_of_map_to_list%map_lookup_filter_Some)%list_elem_of_fmap. done.
  - apply NoDup_fst_map_to_list.
  - intros id. rewrite elem_of_app, !list_elem_of_fmap. split.
    + intros [[[s Hs] _]%(elem_of_leaves _ _ Ht)|([id' s] & -> & [Hs _]%elem_of_map_to_list%map_lookup_filter_Some)].
      * exists (id, s). split; [done|by apply elem_of_map_to_list].
      * exists (id', s). split; [done|by apply elem_of_map_to_list].
    + intros ([id' s] & -> & Hs%elem_of_map_to_list). cbn. destruct (decide (id' ∈ leaves m)) as [|Hn]; [by left|right].
      exists (id', s). split; [done|]. apply elem_of_map_to_list, map_lookup_filter_Some. done.
Qed.

Lemma reclaim_run fuel : forall h, tree_ok (fh_slots h) -> (size (fh_slots h) <= fuel)%nat ->
  exists h' order, reclaim_session fuel h = Some h' /\ fh_slots h' = ∅ /\ order ≡ₚ (map_to_list (fh_slots h)).*1 /\
    fh_watch_events h' = fh_watch_events h ++ removed (fh_slots h) order /\ children_first (fh_slots h) order.
Proof.
  induction fuel as [|fuel IH]; intros h Ht Hsz; cbn [reclaim_session].
  - assert (fh_slots h = ∅) as E by (apply map_size_empty_inv; lia). rewrite decide_True by done.
    exists h, []. rewrite E, map_to_list_empty, app_nil_r. done.
  - case_decide as Hd.
    { exists h, []. rewrite Hd, map_to_list_empty, app_nil_r. done. }
    destruct (reclaim_pass_run h Ht) as [E1 E2]. set (m := fh_slots h) in *.
    pose proof (pass_keys m Ht) as Hkeys. destruct (IH (reclaim_pass h)) as (h' & order & H1 & H2 & H3 & H4 & H5).
    + rewrite E1. by apply tree_ok_pass.
    + rewrite E1. pose proof (leaves_nonempty m Ht Hd) as Hl. apply Permutation_length in Hkeys.
      rewrite length_app, !length_fmap, !length_map_to_list in Hkeys. destruct (leaves m); [done|]. cbn in Hkeys. lia.
    + exists h', (leaves m ++ order). rewrite E1 in *. split_and!; [done|done|by rewrite H3| |].
      * rewrite H4, E2, removed_app, <- app_assoc. do 2 f_equal. apply removed_ext. intros id Hin.
        rewrite H3 in Hin. apply list_elem_of_fmap in Hin as ([id' s] & -> & Hs%elem_of_map_to_list). cbn.
        rewrite Hs. by apply map_lookup_filter_Some in Hs as [-> _].
      * intros i p Hi id s Hs Hp. apply lookup_app_Some in Hi as [Hi|[Hlen Hi]].
        -- apply list_elem_of_lookup_2, elem_of_leaves in Hi as [_ Hf]; [|done].
           rewrite has_live_children_false in Hf. by apply Hf in Hs.
        -- rewrite take_app, take_ge by done. apply elem_of_app.
           destruct (decide (id ∈ leaves m)) as [|Hn]; [by left|right].
           eapply H5; [exact Hi| |exact Hp]. by apply map_lookup_filter_Some.
Qed.

(** Reclaiming a session ends with an empty pool: the loop needs no more
    passes than there are slots, removes every slot exactly once, each child
    before its parent, and announces each with one [Empty] event in that
    order. *)
Theorem reclaim_empties_pool `{B3 : Blake3, ENC : HvEncoding} (h : FakeHypervisor) : hv_reach h ->
  exists h' order, reclaim_session (size (fh_slots h)) h = Some h' /\ fh_slots h' = ∅ /\
    order ≡ₚ (map_to_list (fh_slots h)).*1 /\
    fh_watch_events h' = fh_watch_events h ++ removed (fh_slots h) order /\ children_first (fh_slots h) order.
Proof. intros Hh%hv_reach_ok%hv_ok_tree. by apply reclaim_run. Qed.

(** ** Witnesses *)

Lemma left_by_Ok {A} (x : res ClientError A * FakeHypervisor) : is_Ok x.1 = true -> left_by x = Some x.2.
Proof. destruct x as [[] ?]; done. Qed.

Definition toy_encoding : HvEncoding := {|
  enc_config := fun _ => [1%N]; enc_input_log := fun l => [N.of_nat (length l)]; enc_create_vm := fun q => cv_entropy_seed q;
  enc_restore_snapshot := fun q => rs_snapshot q; enc_fork := fun q => [fq_count q];
  enc_inject_inputs := fun q => le_token (ii_lease q); enc_run := fun q => le_token (rq_lease q);
  enc_take_snapshot := fun q => le_token (ts_lease q); enc_destroy_vm := fun l => le_token l;
  enc_list_slots := []; enc_watch_slots := []; enc_worker_info := [] |}.
Definition toy_hypervisor : Hypervisor FakeHypervisor := @fake_hypervisor toy_blake3 toy_encoding.

Definition sample_machine : MachineConfig := mkMachineConfig 1 4096 1 1 1 [] (Elf (mkElfBoot [] [])) 1000 FinalOnly 0.
Definition sample_worker : FakeHypervisor := with_world_slots_and_fault_plan three_room 4 (plan_disabled 0).
Definition sample_create : CreateVmRequest := mkCreateVmRequest sample_machine [7%N].
Definition sample_worker1 : FakeHypervisor := (@create_vm _ toy_hypervisor sample_create sample_worker).2.
Definition sample_lease : Lease :=
  match (@create_vm _ toy_hypervisor sample_create sample_worker).1 with Ok x => cvr_lease x | _ => mkLease 0 [] end.
Definition sample_fork : ForkRequest := mkForkRequest sample_lease 2 [[1%N]; [2%N]].
Definition sample_worker2 : FakeHypervisor := (@fork _ toy_hypervisor sample_fork sample_worker1).2.

Lemma sample_worker1_reach : @hv_reach toy_blake3 toy_encoding sample_worker1.
Proof.
  apply (reach_call sample_worker (CallCreate sample_create)); [constructor; apply three_room_ok| |].
  - by apply (bool_decide_unpack _); vm_compute.
  - apply (left_by_Ok (@create_vm _ toy_hypervisor sample_create sample_worker)). by vm_compute.
Qed.

Lemma sample_worker2_reach : @hv_reach toy_blake3 toy_encoding sample_worker2.
Proof.
  apply (reach_call sample_worker1 (CallFork sample_fork)); [apply sample_worker1_reach| |].
  - by apply (bool_decide_unpack _); vm_compute.
  - apply (left_by_Ok (@fork _ toy_hypervisor sample_fork sample_worker1)). by vm_compute.
Qed.

Lemma worker_slots_consistent_witness : exists parent, fh_slots sample_worker2 !! 1%N = Some parent /\
  sl_state_kind parent = Frozen /\ size (fh_slots sample_worker2) = 3%nat.
Proof.
  destruct (@worker_slots_consistent toy_blake3 toy_encoding sample_worker2 sample_worker2_reach) as [H _].
  destruct (fh_slots sample_worker2 !! 2%N) as [s|] eqn:E; [|by vm_compute in E].
  destruct (H 2%N s E) as (_ & _ & _ & Hp). destruct (Hp 1%N) as (_ & parent & H1 & H2).
  - apply (f_equal (fmap sl_parent)) in E. change (fmap sl_parent (Some s)) with (Some (sl_parent s)) in E.
    assert (sl_parent <$> fh_slots sample_worker2 !! 2%N = Some (Some 1%N)) as E' by (by vm_compute). congruence.
  - exists parent. split; [exact H1|]. split; [exact H2|by vm_compute].
Defined.

Lemma reclaim_empties_pool_witness : exists h' order,
  reclaim_session 3 sample_worker2 = Some h' /\ fh_slots h' = ∅ /\ order ≡ₚ (map_to_list (fh_slots sample_worker2)).*1.
Proof.
  destruct (@reclaim_empties_pool toy_blake3 toy_encoding sample_worker2 sample_worker2_reach) as (h' & order & H1 & H2 & H3 & _).
  exists h', order. split; [|split; [exact H2|exact H3]].
  assert (size (fh_slots sample_worker2) = 3%nat) as E by (by vm_compute). rewrite <- E. exact H1.
Defined.
