(* ===== verification/FakeHvGuest.v ===== *)
(** Guests of the hypervisor double: a job has the same outcome on a forked
    child and on a slot restored from the parent's snapshot. *)
From stdpp Require Import pretty.
From S2P Require Import Prelude Types Rng Client HvTypes Fault Grid FakeHv FakeHvPool.
Local Open Scope string_scope.
Local Open Scope list_scope.

(** ** Forked and restored guests *)

Section Guests.
Context `{B3 : Blake3, ENC : HvEncoding}.

(** No failures are planned, and the counters allow [k] more calls. *)
Definition quiet (k : N) (h : FakeHypervisor) : Prop :=
  (forall q n, fault_terminal (plan_of h) q n = FaultNone) /\
  (forall q, stream_attempt q (fh_fault_injector h) + k < u64_max)%N.

Lemma disabled_terminal seed q n : fault_terminal (plan_disabled seed) q n = FaultNone.
Proof.
  unfold fault_terminal. destruct (n =? 1)%N; [done|]. unfold decide_terminal. cbn.
  by destruct (draw_u64 _ _ _ _ mod DENOMINATOR)%N.
Qed.

(** A call of a quiet worker goes through. *)
Lemma quiet_call {A} k op id n (f : FaultDecision -> st FakeHypervisor ClientError A) h : quiet (k + 1) h ->
  exists d h', (decide_fault op id n ≫= f) h = f d h' /\ core_eq h h' /\ quiet k h' /\ fh_class h' = fh_class h /\
    fh_slots_total h' = fh_slots_total h.
Proof.
  intros [Ht Hq]. rewrite st_bind_run. unfold decide_fault. set (q := mkFaultRequest TargetHypervisor op id).
  assert (stream_attempt q (fh_fault_injector h) < u64_max)%N as Hlt by (specialize (Hq q); lia).
  pose proof (fun r => stream_attempt_after r q n _ Hlt) as Haft.
  destruct (fault_decide_run q n _ Hlt) as (d & Hd & E). rewrite E in *.
  apply decide_with_attempt_terminal in Hd as [Hd _]. rewrite Hd. unfold plan_of in Ht. rewrite Ht. cbn [client_error].
  eexists d, _. split; [reflexivity|]. split; [done|]. split; [|done]. split; [done|].
  intros r. cbn in Haft |- *. rewrite Haft. specialize (Hq r). case_decide; lia.
Qed.

(** The part of a slot that its guest sees. *)
Record same_guest (s s' : Slot) : Prop := {
  sg_config : sl_config s = sl_config s';
  sg_state : sl_state s = sl_state s';
  sg_icount : sl_icount s = sl_icount s';
  sg_frame : sl_frame_counter s = sl_frame_counter s';
  sg_vns : sl_vns s = sl_vns s';
  sg_pending : sl_pending_actions s = sl_pending_actions s';
  sg_log : sl_input_log s = sl_input_log s';
  sg_order : sl_next_input_order s = sl_next_input_order s'
}.

(** Same result, and slots that look the same to the guest. *)
Definition same_run {A} (x y : res ClientError A * Slot) : Prop := x.1 = y.1 /\ same_guest x.2 y.2.

Lemma same_guest_kind k s : same_guest (with_state_kind k s) s.
Proof. done. Qed.

Global Instance same_guest_equiv : Equivalence same_guest.
Proof.
  split; [done| |].
  - intros s s' []. split; congruence.
  - intros s1 s2 s3 [] []. split; congruence.
Qed.

Lemma same_schedule events : forall s s', same_guest s s' -> same_run (schedule events s) (schedule events s').
Proof.
  induction events as [|e events IH]; intros s s' Hs; cbn [schedule]; [done|].
  rewrite (sg_order _ _ Hs). destruct (checked_add _ _ _); [|done]. apply IH. destruct Hs. split; cbn; congruence.
Qed.

Lemma same_advance_frames w n cap s s' : same_guest s s' -> same_run (advance_frames w n cap s) (advance_frames w n cap s').
Proof.
  intros []. unfold advance_frames. rewrite sg_icount0, sg_frame0, sg_pending0, sg_state0, sg_vns0.
  destruct (capped_frames _ _ _). repeat (case_match; try done).
Qed.

Lemma same_advance_icount n cap s s' : same_guest s s' -> same_run (advance_icount_budget n cap s) (advance_icount_budget n cap s').
Proof.
  intros []. unfold advance_icount_budget. rewrite sg_icount0, sg_vns0.
  destruct (match cap with Some _ => _ | None => _ end) as [amount reason].
  destruct (checked_add u64_max (sl_icount s') amount); [|done]. by destruct (checked_add u64_max (sl_vns s') amount).
Qed.

Lemma same_advance_vns n s s' : same_guest s s' -> same_run (advance_vns_budget n s) (advance_vns_budget n s').
Proof. intros []. unfold advance_vns_budget. rewrite sg_icount0, sg_vns0. by destruct (checked_add u64_max (sl_vns s') n). Qed.

Lemma same_bind {A B} (m : st Slot ClientError A) (k : A -> st Slot ClientError B) s s' : same_run (m s) (m s') ->
  (forall a t t', same_guest t t' -> same_run (k a t) (k a t')) -> same_run ((m ≫= k) s) ((m ≫= k) s').
Proof.
  intros [E1 E2] Hk. rewrite !st_bind_run. destruct (m s) as [r t], (m s') as [r' t']. cbn in E1, E2. subst r'.
  destruct r; [by apply Hk|done..].
Qed.

Lemma same_run_slot w until cap s s' : same_guest s s' -> same_run (run_slot w until cap s) (run_slot w until cap s').
Proof.
  intros Hs. destruct until; unfold run_slot.
  - apply same_bind; [by apply same_advance_icount|done].
  - apply same_bind; [by apply same_advance_vns|done].
  - apply same_bind; [by apply same_advance_frames|by intros []].
  - by rewrite (sg_icount _ _ Hs), (sg_vns _ _ Hs).
  - rewrite (sg_state _ _ Hs). destruct (goal_reached _ _); [done|].
    apply same_bind; [by apply same_advance_frames|]. intros [] t t' Ht.
    unfold same_run, mbind, st_bind, gets, mret, st_ret. cbn. by rewrite (sg_state _ _ Ht).
Qed.

(** ** What a job does to its guest *)

(** The job of a worker driver once it has a lease: inject, run, snapshot. *)
Definition guest_job (lease : Lease) (events : list ScheduledEvent) (until : RunUntil) (cap : option GuestInstructions)
    (capture : option CaptureSpec) : st FakeHypervisor ClientError (N * RunResponse * TakeSnapshotResponse) :=
  n ← inject_inputs (mkInjectInputsRequest lease events);
  r ← run (mkRunRequest lease until cap capture);
  t ← take_snapshot (mkTakeSnapshotRequest lease true capture);
  mret (n, r, t).

(** A paused slot at its lease. *)
Definition at_slot (l : Lease) (s : Slot) (h : FakeHypervisor) : Prop :=
  fh_slots h !! le_slot_id l = Some s /\ le_token (sl_lease s) = le_token l /\ sl_state_kind s = Paused.

(** Two workers over the same world, each with a slot in which the same guest
    is paused. *)
Record twins (k : N) (l l' : Lease) (h h' : FakeHypervisor) : Prop := {
  tw_quiet : quiet k h;
  tw_quiet' : quiet k h';
  tw_world : fh_world h = fh_world h';
  tw_class : fh_class h = fh_class h';
  tw_slots : exists s s', at_slot l s h /\ at_slot l' s' h' /\ same_guest s s'
}.

Lemma slot_bind {A} l s h (f : Slot -> st FakeHypervisor ClientError A) : at_slot l s h -> (slot l ≫= f) h = f s h.
Proof. intros (E1 & E2 & _). rewrite st_bind_run. unfold slot, get_slot. by rewrite E1, decide_True. Qed.

Lemma paused_bind {A} l s h op (f : unit -> st FakeHypervisor ClientError A) : at_slot l s h ->
  (lift_res (ensure_paused s op) ≫= f) h = f tt h.
Proof. intros (_ & _ & E). unfold ensure_paused. by rewrite decide_True. Qed.

Lemma at_slot_core l s h h' : core_eq h h' -> at_slot l s h -> at_slot l s h'.
Proof. intros [_ E _ _] (E1 & E2 & E3). unfold at_slot. by rewrite E. Qed.

(** A result that stops both sides, or lets both go on. *)
Definition agree {A} (k : N) (l l' : Lease) (x y : res ClientError A * FakeHypervisor) : Prop :=
  x.1 = y.1 /\ twins k l l' x.2 y.2.

Lemma agree_bind {A B} k l l' (m m' : st FakeHypervisor ClientError A) (f f' : A -> st FakeHypervisor ClientError B) h h' :
  agree k l l' (m h) (m' h') -> (forall a t t', twins k l l' t t' -> (f a t).1 = (f' a t').1) ->
  ((m ≫= f) h).1 = ((m' ≫= f') h').1.
Proof.
  intros [E1 E2] Hf. rewrite !st_bind_run. destruct (m h) as [r t], (m' h') as [r' t']. cbn in E1, E2. subst r'.
  destruct r; [by apply Hf|done..].
Qed.

Lemma agree_call {A} k l l' op id id' n n' (f f' : FaultDecision -> st FakeHypervisor ClientError A) h h' :
  twins (k + 1) l l' h h' ->
  (forall d d' t t' s s', twins k l l' t t' -> at_slot l s t -> at_slot l' s' t' -> same_guest s s' ->
     agree k l l' (f d t) (f' d' t')) ->
  agree k l l' ((decide_fault op id n ≫= f) h) ((decide_fault op id' n' ≫= f') h').
Proof.
  intros [Hq Hq' Hw Hcl (s & s' & Hs & Hs' & Hg)] Hf.
  destruct (quiet_call k op id n f h Hq) as (d & h1 & -> & Hc1 & Hq1 & Hcl1 & _).
  destruct (quiet_call k op id' n' f' h' Hq') as (d' & h1' & -> & Hc1' & Hq1' & Hcl1' & _).
  apply (at_slot_core _ _ _ _ Hc1) in Hs. apply (at_slot_core _ _ _ _ Hc1') in Hs'.
  apply (Hf _ _ _ _ s s'); [|done..].
  split; [done|done|by rewrite (ce_world _ _ Hc1), (ce_world _ _ Hc1')|congruence|]. by exists s, s'.
Qed.

Lemma agree_lift {A B} k l l' (r : res ClientError A) (f f' : A -> st FakeHypervisor ClientError B) h h' :
  twins k l l' h h' -> (forall a, agree k l l' (f a h) (f' a h')) ->
  agree k l l' ((lift_res r ≫= f) h) ((lift_res r ≫= f') h').
Proof. intros Htw Hf. destruct r; [apply Hf|done..]. Qed.

Lemma same_validate events s s' : same_guest s s' ->
  mapM_res (validate_scheduled_event s) events = mapM_res (validate_scheduled_event s') events.
Proof.
  intros []. induction events as [|e es IH]; [done|]. cbn. rewrite IH. unfold validate_scheduled_event.
  by rewrite sg_frame0, sg_icount0, sg_vns0.
Qed.

(** What the twins need besides their slots. *)
Definition alike (k : N) (h h' : FakeHypervisor) : Prop :=
  quiet k h /\ quiet k h' /\ fh_world h = fh_world h' /\ fh_class h = fh_class h'.

Lemma twins_alike k l l' h h' : twins k l l' h h' -> alike k h h'.
Proof. by intros []. Qed.

Lemma alike_set k h h' m m' : alike k h h' -> alike k (set_slots m h) (set_slots m' h').
Proof. done. Qed.

Lemma alike_push k h h' id id' : alike k h h' -> alike k (push_slot_event id h) (push_slot_event id' h').
Proof. unfold push_slot_event. by repeat case_match. Qed.

(** Replacing both slots by ones that look the same again. *)
Lemma twins_replace k l l' h h' s s' t t' : alike k h h' -> at_slot l s h -> at_slot l' s' h' -> same_guest t t' ->
  same_place s t -> same_place s' t' ->
  twins k l l' (set_slots (<[le_slot_id l := t]> (fh_slots h)) h) (set_slots (<[le_slot_id l' := t']> (fh_slots h')) h').
Proof.
  intros (Hq & Hq' & Hw & Hc) (E1 & E2 & E3) (E1' & E2' & E3') Hg (P1 & _ & P3 & _) (P1' & _ & P3' & _).
  split; [done..|]. exists t, t'. unfold at_slot. cbn. rewrite !lookup_insert_eq, P1, P1', P3, P3'. done.
Qed.

Lemma same_place_trans s1 s2 s3 : same_place s1 s2 -> same_place s2 s3 -> same_place s1 s3.
Proof. unfold same_place. intros (?&?&?&?&?) (?&?&?&?&?). split_and!; congruence. Qed.

Lemma inject_agree k l l' events h h' : twins (k + 1) l l' h h' ->
  agree k l l' (fake_inject_inputs (mkInjectInputsRequest l events) h) (fake_inject_inputs (mkInjectInputsRequest l' events) h').
Proof.
  intros Htw0. unfold fake_inject_inputs. cbn [ii_lease ii_events].
  apply agree_call; [done|]. clear h h' Htw0. intros d d' h h' s s' Htw Hs Hs' Hg.
  apply agree_lift; [done|]. intros _.
  rewrite (slot_bind _ _ _ _ Hs), (slot_bind _ _ _ _ Hs'), (paused_bind _ _ _ _ _ Hs), (paused_bind _ _ _ _ _ Hs').
  rewrite <- (same_validate _ _ _ Hg). apply agree_lift; [done|]. intros _.
  destruct (same_schedule events s s' Hg) as [E1 E2].
  destruct (schedule events s) as [r t] eqn:Et, (schedule events s') as [r' t'] eqn:Et'. cbn in E1, E2. subst r'.
  destruct (schedule_ok (fh_world h) _ _ _ _ Et) as (_ & P & _), (schedule_ok (fh_world h) _ _ _ _ Et') as (Hn & P' & _).
  apply twins_alike in Htw. destruct r; [|split; [done|by eapply twins_replace]|done]. split; [done|].
  eapply twins_replace; [done..| | |].
  - destruct E2. split; cbn; congruence.
  - eapply same_place_trans; [exact P|done].
  - eapply same_place_trans; [exact P'|done].
Qed.

(** Marking both slots as running, and then pausing them in the next state. *)
Lemma twins_run k l l' h h' s s' t t' : alike k h h' -> at_slot l s h -> at_slot l' s' h' -> same_guest t t' ->
  same_place (with_state_kind Running s) t -> same_place (with_state_kind Running s') t' ->
  let h1 := push_slot_event (le_slot_id l) (set_slots (<[le_slot_id l := with_state_kind Running s]> (fh_slots h)) h) in
  let h1' := push_slot_event (le_slot_id l') (set_slots (<[le_slot_id l' := with_state_kind Running s']> (fh_slots h')) h') in
  twins k l l' (push_slot_event (le_slot_id l) (set_slots (<[le_slot_id l := with_state_kind Paused t]> (fh_slots h1)) h1))
    (push_slot_event (le_slot_id l') (set_slots (<[le_slot_id l' := with_state_kind Paused t']> (fh_slots h1')) h1')).
Proof.
  intros Ha (E1 & E2 & E3) (E1' & E2' & E3') Hg (P1 & _) (P1' & _) h1 h1'.
  assert (alike k (push_slot_event (le_slot_id l) (set_slots (<[le_slot_id l := with_state_kind Paused t]> (fh_slots h1)) h1))
    (push_slot_event (le_slot_id l') (set_slots (<[le_slot_id l' := with_state_kind Paused t']> (fh_slots h1')) h1')))
    as (Hq & Hq' & Hw & Hc) by (by apply alike_push, alike_set, alike_push, alike_set).
  split; [done..|]. exists (with_state_kind Paused t), (with_state_kind Paused t').
  split; [|split]; [eapply at_slot_core; [apply core_eq_push|]; split; [apply lookup_insert_eq|by cbn; rewrite ?P1, ?P1']..|].
  by rewrite !same_guest_kind.
Qed.

Lemma run_agree k l l' until cap capture h h' : twins (k + 1) l l' h h' ->
  agree k l l' (fake_run (mkRunRequest l until cap capture) h) (fake_run (mkRunRequest l' until cap capture) h').
Proof.
  intros Htw0. unfold fake_run. cbn [rq_lease rq_until rq_hard_icount_cap rq_capture].
  apply agree_call; [done|]. clear h h' Htw0. intros d d' h h' s s' Htw Hs Hs' Hg.
  apply agree_lift; [done|]. intros _.
  rewrite (slot_bind _ _ _ _ Hs), (slot_bind _ _ _ _ Hs'), (paused_bind _ _ _ _ _ Hs), (paused_bind _ _ _ _ _ Hs').
  unfold insert_slot, notify. run_st. rewrite !(ce_world _ _ (core_eq_push _ _)). cbn [fh_world set_slots].
  rewrite <- (tw_world _ _ _ _ _ Htw). apply twins_alike in Htw.
  destruct (same_run_slot (fh_world h) until cap (with_state_kind Running s) (with_state_kind Running s')) as [E1 E2];
    [by rewrite !same_guest_kind|].
  destruct (run_slot _ _ _ (with_state_kind Running s)) as [r t] eqn:Et, (run_slot _ _ _ (with_state_kind Running s')) as [r' t'] eqn:Et'.
  cbn in E1, E2. subst r'. apply run_slot_ok in Et as (Hn & P & _), Et' as (_ & P' & _).
  pose proof (twins_run k l l' h h' s s' t t' Htw Hs Hs' E2 P P') as Ht.
  destruct r as [[[reason n] ev]|e|]; [|done|done]. run_st.
  rewrite (sg_state _ _ E2), (sg_frame _ _ E2), (sg_icount _ _ E2), (sg_vns _ _ E2).
  apply agree_lift; [exact Ht|]. intros c. done.
Qed.

Lemma snapshot_agree k l l' seal capture h h' : twins (k + 1) l l' h h' ->
  agree k l l' (fake_take_snapshot (mkTakeSnapshotRequest l seal capture) h) (fake_take_snapshot (mkTakeSnapshotRequest l' seal capture) h').
Proof.
  intros Htw0. unfold fake_take_snapshot. cbn [ts_lease ts_seal_input_log ts_capture].
  apply agree_call; [done|]. clear h h' Htw0. intros d d' h h' s s' Htw Hs Hs' Hg.
  rewrite (slot_bind _ _ _ _ Hs), (slot_bind _ _ _ _ Hs'), (paused_bind _ _ _ _ _ Hs), (paused_bind _ _ _ _ _ Hs').
  pose proof Htw as [_ _ _ Hcl _].
  unfold slot_ref, snapshot_record. destruct Hg as [-> -> -> -> -> -> -> ->].
  apply agree_lift; [done|]. intros c. run_st. cbn [fh_class set_snapshots]. rewrite Hcl. split; [done|].
  destruct Htw as [Hq Hq' Hw _ Ht]. by split.
Qed.

Lemma job_agree l l' events until cap capture h h' : twins 3 l l' h h' ->
  (guest_job l events until cap capture h).1 = (guest_job l' events until cap capture h').1.
Proof.
  intros Ht. unfold guest_job. eapply agree_bind; [exact (inject_agree 2 l l' events h h' Ht)|]. intros n h1 h1' Ht1.
  eapply agree_bind; [exact (run_agree 1 l l' until cap capture h1 h1' Ht1)|]. intros r h2 h2' Ht2.
  eapply agree_bind; [exact (snapshot_agree 0 l l' true capture h2 h2' Ht2)|]. done.
Qed.

Lemma quiet_rest k h h' : rest_eq h h' -> quiet k h -> quiet k h'.
Proof. intros [E _] [H1 H2]. unfold quiet, plan_of. by rewrite E. Qed.

(** A quiet worker snapshots, restores and forks a paused slot. *)
Lemma snapshot_run k l seal s h : quiet (k + 1) h -> at_slot l s h -> exists t h',
  fake_take_snapshot (mkTakeSnapshotRequest l seal None) h = (Ok t, h') /\ tr_snapshot t = slot_ref s /\
  fh_snapshots h' !! slot_ref s = Some (snapshot_record s) /\ at_slot l s h' /\ quiet k h' /\ fh_class h' = fh_class h /\
  fh_world h' = fh_world h /\ fh_slots_total h' = fh_slots_total h /\ fh_slots h' = fh_slots h /\
  fh_next_slot_id h' = fh_next_slot_id h.
Proof.
  intros Hq Hs. unfold fake_take_snapshot. cbn [ts_lease ts_seal_input_log ts_capture].
  match goal with |- context [(decide_fault ?op ?id ?n ≫= ?f) h] => destruct (quiet_call k op id n f h Hq) as (d & h1 & -> & Hc & Hq1 & Hcl & Htot) end.
  apply (at_slot_core _ _ _ _ Hc) in Hs. rewrite (slot_bind _ _ _ _ Hs), (paused_bind _ _ _ _ _ Hs).
  cbn [capture_response]. run_st. destruct Hc as [Ew Esl Enx Ern]. eexists _, _. split; [reflexivity|]. cbn.
  split; [done|]. split; [apply lookup_insert_eq|]. done.
Qed.

Lemma restore_run k ref seed rec h : quiet (k + 1) h -> fh_snapshots h !! ref = Some rec -> ensure_capacity 1 h = Ok tt ->
  exists r h', fake_restore_snapshot (mkRestoreSnapshotRequest ref seed) h = (Ok r, h') /\
    at_slot (rsr_lease r) (from_snapshot (rsr_lease r) ref rec) h' /\ quiet k h' /\ fh_class h' = fh_class h /\
    fh_world h' = fh_world h.
Proof.
  intros Hq Hs Hcap. unfold fake_restore_snapshot. cbn [rs_snapshot rs_entropy_seed].
  match goal with |- context [(decide_fault ?op ?id ?n ≫= ?f) h] => destruct (quiet_call k op id n f h Hq) as (d & h1 & -> & Hc & Hq1 & Hcl & Htot) end.
  rewrite get_bind. destruct Hc as [Ew Esl Enx Ern]. unfold ensure_capacity. rewrite Esl, Htot. fold (ensure_capacity 1 h). rewrite Hcap.
  run_st. rewrite Ern, Hs. cbn [ok_or]. run_st.
  eexists _, _. split; [reflexivity|]. cbn [rsr_lease]. set (h2 := set_slots _ _).
  pose proof (rest_eq_push (fh_next_slot_id h1) h2) as Hr. split_and!.
  - eapply at_slot_core; [apply core_eq_push|]. split; [apply lookup_insert_eq|done].
  - eapply quiet_rest; [exact Hr|]. done.
  - exact (eq_trans (proj1 (proj2 Hr)) Hcl).
  - exact (eq_trans (proj2 (proj2 Hr)) Ew).
Qed.

Lemma fork_run k l s seeds h : hv_ok h -> quiet (k + 1) h -> at_slot l s h -> seeds <> [] ->
  ensure_capacity (N.of_nat (length seeds)) h = Ok tt -> (fh_next_slot_id h + N.of_nat (length seeds) <= u64_max)%N ->
  exists cs h', fake_fork (mkForkRequest l (N.of_nat (length seeds)) seeds) h = (Ok cs, h') /\ length cs = length seeds /\
    (forall c, c ∈ cs -> at_slot c (clone_as_child c (le_slot_id l) s) h') /\ quiet k h' /\ fh_class h' = fh_class h /\
    fh_world h' = fh_world h.
Proof.
  intros Hh Hq Hs Hne Hcap Hn. unfold fake_fork. cbn [fq_parent fq_count fq_entropy_seeds].
  assert (ForkRequest_validate (mkForkRequest l (N.of_nat (length seeds)) seeds) = Ok tt) as ->.
  { unfold ForkRequest_validate. cbn. rewrite N.eqb_refl. by destruct seeds. }
  run_st.
  match goal with |- context [(decide_fault ?op ?id ?n ≫= ?f) h] => destruct (quiet_call k op id n f h Hq) as (d & h1 & -> & Hc & Hq1 & Hcl & Htot) end.
  rewrite get_bind. pose proof (hv_ok_core _ _ Hc Hh) as Hh1. pose proof Hs as (_ & _ & Hk).
  apply (at_slot_core _ _ _ _ Hc) in Hs. pose proof Hs as (Hl & _). destruct Hc as [Ew Esl Enx Ern].
  assert (ensure_capacity (N.of_nat (length seeds)) h1 = Ok tt) as -> by (unfold ensure_capacity in *; by rewrite Esl, Htot).
  run_st. rewrite (slot_bind _ _ _ _ Hs), (paused_bind _ _ _ _ _ Hs).
  destruct (fork_all_run (le_slot_id l) s seeds h1) as (h2 & ls & E & Hf & El & Hch & _ & _ & Hr);
    [by apply forking_start|by rewrite Enx|]. rewrite st_bind_run, E.
  assert (length ls = length seeds) as Hlen by (apply (f_equal length) in El; by rewrite !length_fmap, length_seq in El).
  assert (has_live_children (le_slot_id l) (fh_slots h2) = true) as Hlive.
  { destruct ls as [|lease ls]; [by destruct seeds|]. apply has_live_children_true. eexists _, _. split; [apply Hch; left|]. done. }
  destruct (freeze_run _ _ h2 Hf Hlive) as [E3 H3]. rewrite st_bind_run, E3.
  set (h3 := set_slots _ h2) in *. rewrite st_bind_run.
  change (notify (le_slot_id l) h3) with (Ok (E := ClientError) tt, push_slot_event (le_slot_id l) h3). cbv iota beta.
  destruct (notify_all_run (le_slot_id <$> ls) (push_slot_event (le_slot_id l) h3)) as (h4 & E4 & Hc4 & Hr4).
  rewrite st_bind_run, E4. exists ls, h4. split; [done|]. split; [done|].
  assert (rest_eq h1 h4) as Hr14 by (etrans; [exact Hr|]; etrans; [|exact Hr4]; etrans; [|apply rest_eq_push]; done).
  split_and!; [|by eapply quiet_rest|by rewrite (proj1 (proj2 Hr14))|by rewrite (proj2 (proj2 Hr14))].
  intros c Hin. eapply at_slot_core; [exact Hc4|]. eapply at_slot_core; [apply core_eq_push|].
  split; [|done]. cbn. rewrite lookup_insert_ne; [by apply Hch|].
  apply (list_elem_of_fmap_2 le_slot_id) in Hin. rewrite El in Hin. apply list_elem_of_fmap in Hin as (i & -> & _).
  apply (hv_pool _ Hh1) in Hl as []. lia.
Qed.

(** C25. A forked child and a restored copy are the same guest: on a worker
    without planned faults, after a snapshot of a paused slot, restoring it
    and forking the slot both succeed when slots are free, and any job (inject
    inputs, run, snapshot) then gives the same result on the restored slot
    and on every child, the snapshot reference and state hash included, and
    the same error when it fails. *)
Theorem fork_equals_restore (h : FakeHypervisor) (l : Lease) (s : Slot) (seal : bool) (seed : option EntropySeed)
    (seeds : list EntropySeed) :
  hv_reach h -> quiet 5 h -> at_slot l s h -> seeds <> [] -> ensure_capacity (N.of_nat (length seeds)) h = Ok tt ->
  (fh_next_slot_id h + N.of_nat (length seeds) <= u64_max)%N ->
  exists t h1 r h2 cs h3,
    take_snapshot (mkTakeSnapshotRequest l seal None) h = (Ok t, h1) /\
    restore_snapshot (mkRestoreSnapshotRequest (tr_snapshot t) seed) h1 = (Ok r, h2) /\
    fork (mkForkRequest l (N.of_nat (length seeds)) seeds) h1 = (Ok cs, h3) /\ length cs = length seeds /\
    forall c events until cap capture, c ∈ cs ->
      (guest_job (rsr_lease r) events until cap capture h2).1 = (guest_job c events until cap capture h3).1.
Proof.
  intros Hh%hv_reach_ok Hq Hs Hne Hcap Hn.
  destruct (snapshot_run 4 l seal s h Hq Hs) as (t & h1 & E1 & Et & Hrec & Hs1 & Hq1 & Hcl1 & Hw1 & Htot & Esl & Enx).
  assert (hv_ok h1) as Hh1.
  { destruct (take_snapshot_spec (mkTakeSnapshotRequest l seal None) h Hh) as (_ & H1 & _); [|by rewrite E1 in H1].
    split; [|lia]. intros [tg op] n Hl. destruct Hq as [_ Hq]. specialize (Hq (mkFaultRequest tg op [])).
    unfold stream_attempt in Hq. cbn in Hq. rewrite Hl in Hq. cbn in Hq. lia. }
  assert (forall n, ensure_capacity n h1 = ensure_capacity n h) as Hcapeq by (intros n; unfold ensure_capacity; by rewrite Esl, Htot).
  destruct (restore_run 3 (slot_ref s) seed (snapshot_record s) h1) as (r & h2 & E2 & Hs2 & Hq2 & Hcl2 & Hw2); [done|done| |].
  { rewrite Hcapeq. unfold ensure_capacity in *. destruct (u32_max <? _)%N; [done|].
    destruct (N.ltb_spec (fh_slots_total h - N.of_nat (size (fh_slots h))) (N.of_nat (length seeds))); [done|].
    rewrite (proj2 (N.ltb_ge _ _)); [done|]. destruct seeds; [done|]. cbn [length] in *. lia. }
  destruct (fork_run 3 l s seeds h1 Hh1) as (cs & h3 & E3 & Hlen & Hch & Hq3 & Hcl3 & Hw3);
    [done|done|done|by rewrite Hcapeq|by rewrite Enx|].
  exists t, h1, r, h2, cs, h3. rewrite Et. split_and!; [done..|]. intros c events until cap capture Hin.
  apply job_agree. split; [done|done|congruence|congruence|]. eexists _, _. split; [exact Hs2|]. split; [by apply Hch|]. done.
Qed.
End Guests.

(** ** Witness *)

Lemma fork_equals_restore_witness : exists t h1 r h2 cs h3,
  @take_snapshot _ toy_hypervisor (mkTakeSnapshotRequest sample_lease true None) sample_worker1 = (Ok t, h1) /\
  @restore_snapshot _ toy_hypervisor (mkRestoreSnapshotRequest (tr_snapshot t) None) h1 = (Ok r, h2) /\
  @fork _ toy_hypervisor sample_fork h1 = (Ok cs, h3) /\ length cs = 2%nat.
Proof.
  destruct (fh_slots sample_worker1 !! 1%N) as [s|] eqn:E; [|by vm_compute in E].
  destruct (@fork_equals_restore toy_blake3 toy_encoding sample_worker1 sample_lease s true None [[1%N]; [2%N]])
    as (t & h1 & r & h2 & cs & h3 & H1 & H2 & H3 & H4 & _).
  - apply sample_worker1_reach.
  - split; [intros q n; apply disabled_terminal|]. intros q. unfold stream_attempt.
    assert (map_Forall (fun _ n => (n < 10)%N) (fi_attempts (fh_fault_injector sample_worker1))) as Hall
      by (by apply (bool_decide_unpack _); vm_compute).
    destruct (fi_attempts _ !! _) as [n|] eqn:En; [|done]. apply Hall in En. cbn. unfold u64_max. lia.
  - assert (le_slot_id sample_lease = 1%N) as El by (by vm_compute).
    assert ((fun s => (le_token (sl_lease s), sl_state_kind s)) <$> fh_slots sample_worker1 !! 1%N =
      Some (le_token sample_lease, Paused)) as Es by (by vm_compute).
    rewrite E in Es. injection Es as Es1 Es2. split; [by rewrite El|]. by split.
  - done.
  - by vm_compute.
  - by vm_compute.
  - exists t, h1, r, h2, cs, h3. by split_and!.
Defined.
