(* ===== verification/WorkerWorld.v ===== *)
(** The worker driver against the doubles: nothing a batch or a job allocates
    is left behind, for every worker that keeps the laws of [WorkerLaws]; and
    the hypervisor double with the scheduler's slot view keeps them. *)
From S2P Require Import Prelude Types Rng Client Retry HvTypes SynthTypes Fault Grid Slots Tasks WorkerDriver FakeHv FakeHvPool.
Local Open Scope string_scope.
Local Open Scope list_scope.

(** ** Nothing is left behind *)

Section Conservation.
Context {W : Type} `{B3 : Blake3, WL : WorkerLaws W}.

(** What a finished computation leaves: the permits as before, and of the
    leases only such that nine calls to destroy them have failed. *)
Definition left_behind (w w' : W) : Prop :=
  permits_out w' = permits_out w /\ live w ⊆ live w' /\
  forall l, l ∈ live w' -> l ∉ live w -> (GIVE_UP <= fails w' l)%nat.

Lemma start_account w : w_ok w -> account (live w) (permits_out w) rnone w.
Proof.
  intros Hw. constructor; [done|constructor|constructor|cbn; lia|]. exists ∅.
  unfold owned. cbn. split_and!; [set_solver..|]. set_solver.
Qed.

Lemma account_left_behind w w' R : spent R -> account (live w) (permits_out w) R w' -> left_behind w w'.
Proof.
  intros Hs Ha. apply (account_same _ _ _ (join_rsrc R rnone)) in Ha; [|split; cbn; [by rewrite app_nil_r|lia]].
  apply (account_spent _ _ _ _ _ Hs) in Ha as [_ _ _ Hp (G & Hl & _ & _ & HG)]. cbn in Hp.
  unfold owned in Hl. cbn in Hl. split_and!; [lia|set_solver|]. intros l Hin Hout. apply HG. set_solver.
Qed.

(** A batch leaves nothing behind.  Whatever path it takes, whichever of its
    jobs and calls fail and however its jobs interleave, a batch that has
    finished reports exactly one outcome per burst, in order and about that
    burst (with a capture unless the guest crashed), holds no slot permit and
    has destroyed every lease it allocated, except where nine calls to
    destroy one have failed. *)
Theorem run_batch_no_leak (config : DriverConfig) (join_error_text : string) (fuel : nat) (batch_seq : N)
    (snap : SnapshotRef) (required : option DeterminismClass) (bursts : list ProvenancedBurst) (w w' : W)
    (r : res ClientError (list (N * res ClientError JobResult))) :
  (N.of_nat (length bursts) <= u32_max)%N -> w_ok w ->
  rtc tstep (run_batch join_error_text config fuel batch_seq snap required bursts, w) (TProc (Done r), w') ->
  (exists outcome, r = Ok outcome /\ batch_ok bursts outcome) /\ left_behind w w'.
Proof.
  intros Hb Hw Hr. destruct (task_runs_safe _ _ _ _ _ _ _ _
    (run_batch_safe join_error_text config fuel batch_seq snap required bursts Hb) (start_account w Hw) Hr)
    as (R' & [Hs Ho] & Ha). split; [done|]. by eapply account_left_behind.
Qed.

(** A job that is cut off leaves nothing behind: with any deadline, passing
    at any await or not at all, a job that has ended has released its slot
    permit and destroyed its lease, except where nine calls to destroy it
    have failed; and its result is about its own burst. *)
Theorem run_job_no_leak (config : DriverConfig) (fuel : nat) (spec : JobSpec) (deadline : option (N * nat)) (w w' : W)
    (r : res ClientError JobResult) : w_ok w ->
  rtc tstep (TProc (C:=unit) (run_job_deadline config fuel spec deadline), w) (TProc (Done r), w') ->
  job_ok spec r /\ left_behind w w'.
Proof.
  intros Hw Hr. destruct (task_runs_safe _ _ _ (TProc _) _ _ _ _ (run_job_deadline_safe config fuel spec deadline)
    (start_account w Hw) Hr) as (R' & [Hs Ho] & Ha). split; [done|]. by eapply account_left_behind.
Qed.

(** The bootstrap of the root likewise. *)
Lemma bootstrap_no_leak (config : DriverConfig) (fuel : nat) (spec : BootstrapSpec) (w w' : W)
    (r : res ClientError RootCapture) : w_ok w ->
  rtc tstep (TProc (C:=unit) (bootstrap config fuel spec), w) (TProc (Done r), w') ->
  r <> Panic /\ left_behind w w'.
Proof.
  intros Hw Hr. destruct (task_runs_safe _ _ _ (TProc _) _ _ _ _ (bootstrap_safe config fuel spec)
    (start_account w Hw) Hr) as (R' & [Hs Ho] & Ha). split; [done|]. by eapply account_left_behind.
Qed.
End Conservation.

(** ** The doubles as a worker *)

(** The hypervisor double, the slot view, a clock, the number of failed calls
    to destroy each lease, and the counter of abandoned jobs. *)
Record World := mkWorld {
  w_hv : FakeHypervisor;
  w_view : ViewState;
  w_clock : N;
  w_failed : gmap Lease nat;
  w_jobs_failed : N
}.
Definition set_hv (h : FakeHypervisor) (w : World) : World := mkWorld h (w_view w) (w_clock w) (w_failed w) (w_jobs_failed w).
Definition set_pool (v : ViewState) (w : World) : World := mkWorld (w_hv w) v (w_clock w) (w_failed w) (w_jobs_failed w).
Definition failed (w : World) (l : Lease) : nat := default 0%nat (w_failed w !! l).
Definition count_failure (l : Lease) (w : World) : World :=
  mkWorld (w_hv w) (w_view w) (w_clock w) (<[l := S (failed w l)]> (w_failed w)) (w_jobs_failed w).

Section World.
Context `{B3 : Blake3, ENC : HvEncoding}.

(** A call of the double, refused when a 64-bit counter of it would run out. *)
Definition guarded {A} (k : N) (m : st FakeHypervisor ClientError A) : st World ClientError A := fun w =>
  if decide (room k (w_hv w)) then let '(r, h) := m (w_hv w) in (r, set_hv h w)
  else (Err (mkClientError Unavailable "counter exhausted"), w).

Definition counted_destroy (l : Lease) : st World ClientError unit := fun w =>
  match guarded 0 (destroy_vm l) w with
  | (Err e, w') => (Err e, count_failure l w')
  | x => x
  end.

Global Instance world_hypervisor : Hypervisor World := {|
  create_vm := fun q => guarded 1 (create_vm q);
  restore_snapshot := fun q => guarded 1 (restore_snapshot q);
  fork := fun q => guarded (N.of_nat (length (fq_entropy_seeds q))) (fork q);
  inject_inputs := fun q => guarded 0 (inject_inputs q);
  run := fun q => guarded 0 (run q);
  take_snapshot := fun q => guarded 0 (take_snapshot q);
  destroy_vm := counted_destroy;
  list_slots := guarded 0 list_slots;
  watch_slots := guarded 0 watch_slots;
  worker_info := guarded 0 worker_info |}.

Global Instance world_runtime : Runtime World := {|
  now := w_clock;
  sleep := fun d w => mkWorld (w_hv w) (w_view w) (w_clock w + d) (w_failed w) (w_jobs_failed w) |}.

(** Waiting for a slot: pending while none is free. *)
Definition world_try (w : World) : bool * World :=
  let '(b, v) := Slots.try_acquire (w_clock w) (w_view w) in (b, set_pool v w).
Global Instance world_pool : SlotPool World := {|
  slots_acquire := fun required w =>
    match (match required with Some c => acquire_class_check false c (w_view w) | None => Ok tt end) with
    | Ok _ => match world_try w with (true, w') => Some (Ok tt, w') | (false, _) => None end
    | Err e => Some (Err e, w)
    | Panic => Some (Panic, w)
    end;
  slots_try_acquire := world_try;
  slots_class_check := fun c w => acquire_class_check false c (w_view w);
  permit_drop := fun w => set_pool (drop_locked (w_clock w) (w_view w)) w |}.

(** The plan never reports "not found" for a lease that exists. *)
Definition honest (p : FaultPlan) : Prop :=
  fp_error_kind p <> NotFound /\ map_Forall (fun _ k => k <> NotFound) (fp_one_shot_errors p).
Global Instance world_ledger : Ledger World := {|
  live := fun w => leases (w_hv w);
  permits_out := fun w => N.to_nat (vs_reserved (w_view w));
  fails := failed;
  w_ok := fun w => hv_ok (w_hv w) /\ honest (plan_of (w_hv w)) |}.

Lemma guarded_keeps {A} k (m : st FakeHypervisor ClientError A) w r w' : w_ok w ->
  (room k (w_hv w) -> post (keeps_leases (w_hv w)) (m (w_hv w))) -> guarded k m w = (r, w') -> r <> Panic /\ unchanged w w'.
Proof.
  intros [Hh Hp] Hm. unfold guarded. case_decide as Hr; [|intros [= <- <-]; by split].
  specialize (Hm Hr). destruct (m (w_hv w)) as [x h]. intros [= <- <-]. destruct Hm as (H1 & H2 & H3 & H4). cbn [fst snd] in *.
  assert (honest (plan_of h)) as Hp' by (by rewrite H4). split; [done|]. by split.
Qed.

Lemma guarded_adds {A} (new : A -> list Lease) k (m : st FakeHypervisor ClientError A) w r w' : w_ok w ->
  (room k (w_hv w) -> post (adds_leases new (w_hv w)) (m (w_hv w))) -> guarded k m w = (r, w') ->
  match r with Ok x => allocated (new x) w w' | Err _ => unchanged w w' | Panic => False end.
Proof.
  intros [Hh Hp] Hm. unfold guarded. case_decide as Hr; [|intros [= <- <-]; by split].
  specialize (Hm Hr). destruct (m (w_hv w)) as [x h]. intros [= <- <-]. destruct Hm as (H1 & H2 & H3). cbn [fst snd] in *.
  assert (honest (plan_of h)) as Hp' by (by rewrite H2).
  destruct x as [a|e|]; [|by split|done]. destruct H3 as (E & Hnd & Hf).
  split; [done|done|done| |done|done]. cbn. rewrite E. set_solver.
Qed.

Lemma honest_injected p e : honest p -> injected p e -> ce_kind e <> NotFound.
Proof. intros [H1 H2] [->|(k & -> & [->|(op & Hop)])]; [done|done|]. by apply H2 in Hop. Qed.

Lemma failed_count l l' w : failed (count_failure l w) l' = if decide (l' = l) then S (failed w l) else failed w l'.
Proof. unfold failed at 1, count_failure. cbn. case_decide as E; [subst; by rewrite lookup_insert_eq|by rewrite lookup_insert_ne]. Qed.

Lemma destroy_world l w w' r : w_ok w -> counted_destroy l w = (r, w') ->
  w_ok w' /\ permits_out w' = permits_out w /\
  match r with
  | Ok _ => live w' = live w ∖ {[l]} /\ forall l', fails w' l' = fails w l'
  | Err e => live w' = live w /\ fails w' l = S (fails w l) /\
      (forall l', l' <> l -> fails w' l' = fails w l') /\ (ce_kind e = NotFound -> l ∉ live w)
  | Panic => False
  end.
Proof.
  intros [Hh Hp]. unfold counted_destroy, guarded. case_decide as Hr.
  - pose proof (destroy_vm_spec l (w_hv w) Hh Hr) as (H1 & H2 & H3).
    change (destroy_vm l (w_hv w)) with (fake_destroy_vm l (w_hv w)).
    destruct (fake_destroy_vm l (w_hv w)) as [x h]. cbn [fst snd] in H1, H2, H3.
    assert (honest (plan_of h)) as Hp' by (by rewrite H2).
    destruct x as [a|e|]; [| |done]; intros [= <- <-]; (split; [done|]; split; [done|]); cbn.
    + by destruct H3 as [_ ->].
    + destruct H3 as [E1 E2]. split; [done|]. rewrite failed_count, decide_True by done. split; [done|]. split.
      * intros l' Hl. by rewrite failed_count, decide_False.
      * intros Hk. destruct (E2 Hk) as [Hi|Hi]; [by apply honest_injected in Hi|done].
  - intros [= <- <-]. split; [done|]. split; [done|]. cbn. split; [done|].
    rewrite failed_count, decide_True by done. split; [done|]. split; [|done].
    intros l' Hl. by rewrite failed_count, decide_False.
Qed.

Lemma reserve_reserved n v : vs_reserved (reserve n v) = (vs_reserved v + 1)%N.
Proof. unfold reserve. cbn. by rewrite advance_reserved. Qed.

Lemma world_try_law w w' b : w_ok w -> world_try w = (b, w') ->
  if b : bool then permitted (S (permits_out w)) w w' else unchanged w w'.
Proof.
  intros Hw. unfold world_try, Slots.try_acquire. destruct (0 <? vs_free (w_view w))%N; intros [= <- <-]; [|by split].
  split; try done. change (N.to_nat (vs_reserved (reserve (w_clock w) (w_view w))) = S (N.to_nat (vs_reserved (w_view w)))).
  rewrite reserve_reserved. lia.
Qed.

(** The doubles keep the laws the driver relies on. *)
Global Instance world_laws : WorkerLaws World.
Proof.
  split.
  - intros q w w' r Hw. apply (guarded_adds (fun x => [rsr_lease x])); [done|]. intros Hr. apply restore_snapshot_spec; [apply Hw|done].
  - intros q w w' r Hw. apply (guarded_adds (fun x => [cvr_lease x])); [done|]. intros Hr. apply create_vm_spec; [apply Hw|done].
  - intros q w w' r Hw. apply (guarded_adds (fun x => x)); [done|]. intros Hr. apply fork_spec; [apply Hw|done].
  - intros q w w' r Hw. apply guarded_keeps; [done|]. intros Hr. apply inject_inputs_spec; [apply Hw|done].
  - intros q w w' r Hw. apply guarded_keeps; [done|]. intros Hr. apply run_spec; [apply Hw|done].
  - intros q w w' r Hw. apply guarded_keeps; [done|]. intros Hr. apply take_snapshot_spec; [apply Hw|done].
  - intros l w w' r Hw. by apply destroy_world.
  - intros d w Hw. by split.
  - intros c w w' r Hw. cbn [slots_acquire world_pool].
    destruct (match c with Some _ => _ | None => _ end) as [u|e|] eqn:E.
    + destruct (world_try w) as [[] w1] eqn:Et; [|done]. intros [= <- <-]. by apply (world_try_law w w1 true).
    + intros [= <- <-]. by split.
    + destruct c; [|done]. exfalso. revert E. unfold acquire_class_check. by case_match.
  - intros c w. cbn. unfold acquire_class_check. by case_match.
  - intros w w' b. apply world_try_law.
  - intros w Hw Hpos. split; [done..|]. cbn in *. rewrite advance_reserved. lia.
Qed.
End World.

(** ** Witnesses *)

Definition sample_capture : CaptureSpec := mkCaptureSpec [mkExtractRange GRID_REGION GRID_LAYOUT_VERSION 0 5] true.
Definition sample_driver : DriverConfig := mkDriverConfig 42 sample_capture None.
(** The sample worker after a snapshot of its root, which is destroyed. *)
Definition sample_snapshot : SnapshotRef :=
  match (@take_snapshot _ toy_hypervisor (mkTakeSnapshotRequest sample_lease true None) sample_worker1).1 with
  | Ok t => tr_snapshot t
  | _ => []
  end.
Definition sample_root : FakeHypervisor :=
  (@destroy_vm _ toy_hypervisor sample_lease
     (@take_snapshot _ toy_hypervisor (mkTakeSnapshotRequest sample_lease true None) sample_worker1).2).2.
Definition sample_world : World :=
  mkWorld sample_root (view_seed (mkGetWorkerInfoResponse "w" 4 4 fake_determinism_class "v") [] 0) 0 ∅ 0.
Definition sample_burst (buttons frames : N) : ProvenancedBurst :=
  mkProvenancedBurst (mkBurst 1 [] (Pad (mkPadBurst [mkPadSegment buttons frames] "grid")))
    (mkProvenance GenMacro 0 "s" [] None None None None).
Definition sample_batch : task World (N * res ClientError JobResult) (list (N * res ClientError JobResult)) :=
  @run_batch World toy_blake3 (@world_hypervisor toy_blake3 toy_encoding) world_runtime world_pool "cancelled" sample_driver 5 0 sample_snapshot None
    [sample_burst BUTTON_RIGHT 2; sample_burst BUTTON_DOWN 3].
Definition sample_job : JobSpec := mkJobSpec 0 0 sample_snapshot None (sample_burst BUTTON_RIGHT 2).

Lemma sample_root_reach : @hv_reach toy_blake3 toy_encoding sample_root.
Proof.
  set (q := mkTakeSnapshotRequest sample_lease true None).
  apply (reach_call (@take_snapshot _ toy_hypervisor q sample_worker1).2 (CallDestroy sample_lease)).
  - apply (reach_call sample_worker1 (CallSnapshot q)); [apply sample_worker1_reach| |].
    + by apply (bool_decide_unpack _); vm_compute.
    + apply (left_by_Ok (@take_snapshot _ toy_hypervisor q sample_worker1)). by vm_compute.
  - by apply (bool_decide_unpack _); vm_compute.
  - apply (left_by_Ok (@destroy_vm _ toy_hypervisor sample_lease (@take_snapshot _ toy_hypervisor q sample_worker1).2)).
    by vm_compute.
Qed.

Lemma sample_world_ok : w_ok sample_world.
Proof. split; [exact (hv_reach_ok _ sample_root_reach)|]. by apply (bool_decide_unpack _); vm_compute. Qed.

Lemma sample_batch_runs : exists outcome w', exec sample_batch sample_world = Some (Ok outcome, w').
Proof.
  destruct (exec sample_batch sample_world) as [[[outcome|e|] w']|] eqn:E; [by eexists _, _|exfalso..];
    apply (f_equal (fun o => match o with Some (Ok _, _) => true | _ => false end)) in E; by vm_compute in E.
Qed.

Lemma run_batch_no_leak_witness : exists outcome w',
  rtc tstep (sample_batch, sample_world) (TProc (Done (Ok outcome)), w') /\ left_behind sample_world w'.
Proof.
  destruct sample_batch_runs as (outcome & w' & E). exists outcome, w'. apply exec_rtc in E. split; [exact E|].
  refine (proj2 (run_batch_no_leak sample_driver "cancelled" 5 0 sample_snapshot None _ sample_world w' _ _ sample_world_ok E)).
  done.
Defined.

(** The deadline passes after the job has injected its inputs. *)
Definition sample_cut : proc World JobResult :=
  @run_job_deadline World toy_blake3 (@world_hypervisor toy_blake3 toy_encoding) world_runtime world_pool sample_driver 5
    sample_job (Some (from_millis 5, 3%nat)).

Lemma sample_cut_runs : exists e w', drain sample_cut sample_world = Some (Err e, w').
Proof.
  destruct (drain sample_cut sample_world) as [[[r|e|] w']|] eqn:E; [exfalso|by eexists _, _|exfalso..];
    apply (f_equal (fun o => match o with Some (Err _, _) => true | _ => false end)) in E; by vm_compute in E.
Qed.

Lemma run_job_no_leak_witness : exists e w',
  rtc tstep (TProc (C:=unit) sample_cut, sample_world) (TProc (Done (Err e)), w') /\ left_behind sample_world w'.
Proof.
  destruct sample_cut_runs as (e & w' & E). exists e, w'.
  pose proof (exec_rtc (TProc (C:=unit) sample_cut) sample_world _ _ E) as Hr. split; [exact Hr|].
  exact (proj2 (run_job_no_leak (B3:=toy_blake3) (WL:=@world_laws toy_blake3 toy_encoding) sample_driver 5 sample_job
    (Some (from_millis 5, 3%nat)) sample_world w' _ sample_world_ok Hr)).
Defined.
