(* ===== verification/Pipeline.v ===== *)
(** The execute pipeline (crates/orch-sched/src/pipeline.rs, gauges in
    crates/orch-sched/src/metrics.rs): bounded queues between the selecting,
    the executing and the committing stage, the limit on batches in flight
    and the reorder buffer of the deterministic mode.

    Producers, the executor, the batch tasks and the consumer run
    concurrently.  A step of the model is one use of a channel, of the
    semaphore or of a gauge together with the await that follows it;
    [papply] says what each step does and when it can happen.  What the
    execution of a batch returns is an argument of the step that ends it. *)
From stdpp Require Import gmultiset.
From S2P Require Import Prelude Types Client HvTypes SynthTypes WorkerDriver.
Local Open Scope string_scope.
Local Open Scope list_scope.

Record Batch := mkBatch {
  ba_seq : N;
  ba_parent : NodeId;
  ba_parent_snapshot : SnapshotRef;
  ba_required_class : option DeterminismClass;
  ba_bursts : list ProvenancedBurst
}.

Inductive JobOutcome :=
| Completed (result : JobResult)
| Abandoned (job_idx : N) (reason : string).

Record BatchResult := mkBatchResult { br_seq : N; br_parent : NodeId; br_jobs : list JobOutcome }.

Record Gauges := mkGauges {
  queue_depth_submit : N;
  queue_depth_submit_peak : N;
  queue_depth_complete : N;
  queue_depth_complete_peak : N
}.
Definition Gauges_default : Gauges := mkGauges 0 0 0 0.

(** [enqueue] and [dequeue] on the two queues. *)
Definition enqueue_submit (g : Gauges) : Gauges :=
  let now := (queue_depth_submit g + 1)%N in
  mkGauges now (N.max (queue_depth_submit_peak g) now) (queue_depth_complete g) (queue_depth_complete_peak g).
Definition dequeue_submit (g : Gauges) : Gauges :=
  mkGauges (queue_depth_submit g - 1) (queue_depth_submit_peak g) (queue_depth_complete g) (queue_depth_complete_peak g).
Definition enqueue_complete (g : Gauges) : Gauges :=
  let now := (queue_depth_complete g + 1)%N in
  mkGauges (queue_depth_submit g) (queue_depth_submit_peak g) now (N.max (queue_depth_complete_peak g) now).
Definition dequeue_complete (g : Gauges) : Gauges :=
  mkGauges (queue_depth_submit g) (queue_depth_submit_peak g) (queue_depth_complete g - 1) (queue_depth_complete_peak g).

(** The mode and the two capacities derived from [max_inflight_batches]. *)
Record PipelineConfig := mkPipelineConfig { pc_mode : SchedMode; pc_max_inflight_batches : N }.
Definition max_inflight (c : PipelineConfig) : nat := N.to_nat (N.max (pc_max_inflight_batches c) 1).
Definition submit_cap (c : PipelineConfig) : nat := Nat.max (max_inflight c - 1) 1.
Definition complete_cap : nat := 1.

Abbreviation Outcome := (res ClientError BatchResult) (only parsing).

(** Producers waiting to send, the submit queue, whether every submit handle
    is gone, the batch the executor has received, the batches executing, the
    results waiting to be sent, the completed queue, the reorder buffer with
    its cursor, and the gauges. *)
Record Pipe := mkPipe {
  p_sending : list Batch;
  p_submit : list Batch;
  p_closed : bool;
  p_received : option Batch;
  p_running : list Batch;
  p_done : list Outcome;
  p_complete : list Outcome;
  p_reorder : gmap N Outcome;
  p_next_seq : N;
  p_gauges : Gauges
}.

Definition pipe_spawn (first_seq : N) : Pipe := mkPipe [] [] false None [] [] [] ∅ first_seq Gauges_default.

(** The executor has ended: the submit side is closed and drained. *)
Definition executor_ended (p : Pipe) : bool :=
  p_closed p && bool_decide (p_submit p = []) && bool_decide (p_received p = None).
(** No task that could still send a result is left. *)
Definition senders_gone (p : Pipe) : bool :=
  executor_ended p && bool_decide (p_running p = []) && bool_decide (p_done p = []).

(** A result belongs to its batch. *)
Definition result_of (b : Batch) (r : Outcome) : bool :=
  match r with
  | Ok br => (br_seq br =? ba_seq b)%N && (br_parent br =? ba_parent b)%N
  | Err _ => true
  | Panic => false
  end.

(** ** The consumer *)

(** One turn of the loop of [next_completed]: a value for the caller, another
    turn, or [None] while the receiver waits. *)
Definition next_turn (mode : SchedMode) (p : Pipe) : option (option (res ClientError (option BatchResult)) * Pipe) :=
  let recv :=
    match p_complete p with
    | [] => if senders_gone p then Some (Some (Ok None), p) else None
    | r :: rest =>
      let p1 := mkPipe (p_sending p) (p_submit p) (p_closed p) (p_received p) (p_running p) (p_done p) rest
                  (p_reorder p) (p_next_seq p) (dequeue_complete (p_gauges p)) in
      match mode with
      | Fast => Some (Some (Some <$> r), p1)
      | Deterministic =>
        match r with
        | Ok br =>
          Some (None, mkPipe (p_sending p) (p_submit p) (p_closed p) (p_received p) (p_running p) (p_done p) rest
                        (<[br_seq br := r]> (p_reorder p)) (p_next_seq p) (dequeue_complete (p_gauges p)))
        | Err e => Some (Some (Err e), p1)
        | Panic => Some (Some Panic, p1)
        end
      end
    end in
  match mode, p_reorder p !! p_next_seq p with
  | Deterministic, Some r =>
    match checked_add u64_max (p_next_seq p) 1 with
    | Some next =>
      Some (Some (Some <$> r), mkPipe (p_sending p) (p_submit p) (p_closed p) (p_received p) (p_running p) (p_done p)
        (p_complete p) (delete (p_next_seq p) (p_reorder p)) next (p_gauges p))
    | None => Some (Some Panic, p)
    end
  | _, _ => recv
  end.

(** ** Steps *)

Inductive pevent :=
| PSubmit (b : Batch)
| PSend (i : nat)
| PClose
| PReceive
| PStart
| PFinish (i : nat) (r : Outcome)
| PDeliver (i : nat)
| PNext.

Definition papply (c : PipelineConfig) (e : pevent) (p : Pipe) : option (option (res ClientError (option BatchResult)) * Pipe) :=
  let silent (p' : Pipe) := Some (None, p') in
  match e with
  | PSubmit b =>
    if p_closed p then None
    else silent (mkPipe (p_sending p ++ [b]) (p_submit p) (p_closed p) (p_received p) (p_running p) (p_done p)
                   (p_complete p) (p_reorder p) (p_next_seq p) (enqueue_submit (p_gauges p)))
  | PSend i =>
    match p_sending p !! i with
    | Some b =>
      if (length (p_submit p) <? submit_cap c)%nat then
        silent (mkPipe (delete i (p_sending p)) (p_submit p ++ [b]) (p_closed p) (p_received p) (p_running p) (p_done p)
                  (p_complete p) (p_reorder p) (p_next_seq p) (p_gauges p))
      else None
    | None => None
    end
  | PClose =>
    if bool_decide (p_sending p = []) && negb (p_closed p) then
      silent (mkPipe [] (p_submit p) true (p_received p) (p_running p) (p_done p)
                (p_complete p) (p_reorder p) (p_next_seq p) (p_gauges p))
    else None
  | PReceive =>
    match p_received p, p_submit p with
    | None, b :: rest =>
      silent (mkPipe (p_sending p) rest (p_closed p) (Some b) (p_running p) (p_done p)
                (p_complete p) (p_reorder p) (p_next_seq p) (dequeue_submit (p_gauges p)))
    | _, _ => None
    end
  | PStart =>
    match p_received p with
    | Some b =>
      if (length (p_running p) + length (p_done p) <? max_inflight c)%nat then
        silent (mkPipe (p_sending p) (p_submit p) (p_closed p) None (p_running p ++ [b]) (p_done p)
                  (p_complete p) (p_reorder p) (p_next_seq p) (p_gauges p))
      else None
    | None => None
    end
  | PFinish i r =>
    match p_running p !! i with
    | Some b =>
      if result_of b r then
        silent (mkPipe (p_sending p) (p_submit p) (p_closed p) (p_received p) (delete i (p_running p)) (p_done p ++ [r])
                  (p_complete p) (p_reorder p) (p_next_seq p) (enqueue_complete (p_gauges p)))
      else None
    | None => None
    end
  | PDeliver i =>
    match p_done p !! i with
    | Some r =>
      if (length (p_complete p) <? complete_cap)%nat then
        silent (mkPipe (p_sending p) (p_submit p) (p_closed p) (p_received p) (p_running p) (delete i (p_done p))
                  (p_complete p ++ [r]) (p_reorder p) (p_next_seq p) (p_gauges p))
      else None
    | None => None
    end
  | PNext => next_turn (pc_mode c) p
  end.

(** ** Runs *)

Definition submitted (e : pevent) : list Batch := match e with PSubmit b => [b] | _ => [] end.

(** A run of the pipeline: the batches submitted so far, what [next_completed]
    has returned, and the state. *)
Inductive pruns (c : PipelineConfig) (first : N) :
    list Batch -> list (res ClientError (option BatchResult)) -> Pipe -> Prop :=
| pr_spawn : pruns c first [] [] (pipe_spawn first)
| pr_step bs os p e o p' : pruns c first bs os p -> papply c e p = Some (o, p') ->
    pruns c first (bs ++ submitted e) (os ++ option_list o) p'.

(** Sequence numbers of results in a queue and of results handed back. *)
Definition ok_seq (r : Outcome) : option N := match r with Ok br => Some (br_seq br) | _ => None end.
Definition out_seq (o : res ClientError (option BatchResult)) : option N :=
  match o with Ok (Some br) => Some (br_seq br) | _ => None end.
Definition handed_back (os : list (res ClientError (option BatchResult))) : list N := omap out_seq os.

Definition is_err {A} (r : res ClientError A) : bool := match r with Err _ => true | _ => false end.
Definition errors {A} (l : list (res ClientError A)) : nat := length (List.filter is_err l).

(** ** Inversion of steps *)

(** What a turn of the consumer does. *)
Inductive turn (mode : SchedMode) (p : Pipe) : option (res ClientError (option BatchResult)) -> Pipe -> Prop :=
| turn_ready r next : mode = Deterministic -> p_reorder p !! p_next_seq p = Some r ->
    checked_add u64_max (p_next_seq p) 1 = Some next ->
    turn mode p (Some (Some <$> r)) (mkPipe (p_sending p) (p_submit p) (p_closed p) (p_received p) (p_running p)
      (p_done p) (p_complete p) (delete (p_next_seq p) (p_reorder p)) next (p_gauges p))
| turn_panic r : mode = Deterministic -> p_reorder p !! p_next_seq p = Some r ->
    checked_add u64_max (p_next_seq p) 1 = None -> turn mode p (Some Panic) p
| turn_drained : p_complete p = [] -> senders_gone p = true ->
    (mode = Deterministic -> p_reorder p !! p_next_seq p = None) -> turn mode p (Some (Ok None)) p
| turn_park br rest : mode = Deterministic -> p_reorder p !! p_next_seq p = None -> p_complete p = Ok br :: rest ->
    turn mode p None (mkPipe (p_sending p) (p_submit p) (p_closed p) (p_received p) (p_running p)
      (p_done p) rest (<[br_seq br := Ok br]> (p_reorder p)) (p_next_seq p) (dequeue_complete (p_gauges p)))
| turn_out r rest : (mode = Fast \/ is_Ok r = false) -> (mode = Deterministic -> p_reorder p !! p_next_seq p = None) ->
    p_complete p = r :: rest ->
    turn mode p (Some (Some <$> r)) (mkPipe (p_sending p) (p_submit p) (p_closed p) (p_received p) (p_running p)
      (p_done p) rest (p_reorder p) (p_next_seq p) (dequeue_complete (p_gauges p))).

Lemma next_turn_turn mode p o p' : next_turn mode p = Some (o, p') -> turn mode p o p'.
Proof.
  unfold next_turn. destruct mode.
  - destruct (p_complete p) as [|r rest] eqn:E.
    + destruct (senders_gone p) eqn:G; [|done]. intros [= <- <-]. by constructor.
    + intros [= <- <-]. apply (turn_out Fast p r rest); [by left|done|done].
  - destruct (p_reorder p !! p_next_seq p) as [r|] eqn:Er.
    + destruct (checked_add u64_max (p_next_seq p) 1) as [next|] eqn:Ea; intros [= <- <-].
      * by apply (turn_ready Deterministic p r next).
      * by apply (turn_panic Deterministic p r).
    + destruct (p_complete p) as [|r rest] eqn:E.
      * destruct (senders_gone p) eqn:G; [|done]. intros [= <- <-]. by constructor.
      * destruct r as [br|e|]; intros [= <- <-]; [by apply turn_park|..].
        -- apply (turn_out Deterministic p (Err e) rest); [by right|done|done].
        -- apply (turn_out Deterministic p Panic rest); [by right|done|done].
Qed.

(** ** Bounds and gauges *)

Record pipe_inv (c : PipelineConfig) (p : Pipe) : Prop := {
  pi_submit : (length (p_submit p) <= submit_cap c)%nat;
  pi_inflight : (length (p_running p) + length (p_done p) <= max_inflight c)%nat;
  pi_complete : (length (p_complete p) <= complete_cap)%nat;
  pi_closed : p_closed p = true -> p_sending p = [];
  pi_depth_submit : queue_depth_submit (p_gauges p) = N.of_nat (length (p_sending p) + length (p_submit p));
  pi_depth_complete : queue_depth_complete (p_gauges p) = N.of_nat (length (p_done p) + length (p_complete p));
  pi_peak_submit : (queue_depth_submit (p_gauges p) <= queue_depth_submit_peak (p_gauges p))%N;
  pi_peak_complete : (queue_depth_complete (p_gauges p) <= queue_depth_complete_peak (p_gauges p) <=
    N.of_nat (max_inflight c + complete_cap))%N;
  (** queued and parked results are results *)
  pi_results : Forall (fun r => r <> Panic) (p_done p ++ p_complete p);
  pi_parked : map_Forall (fun k r => exists br, r = Ok br /\ br_seq br = k) (p_reorder p);
  pi_fast : pc_mode c = Fast -> p_reorder p = ∅
}.

Lemma length_delete_lookup {A} (l : list A) i x : l !! i = Some x -> length l = S (length (delete i l)).
Proof. intros H. rewrite length_delete by (by eexists). apply lookup_lt_Some in H. lia. Qed.

Lemma Forall_app_tail {A} (P : A -> Prop) x (l k : list A) : Forall P (l ++ x :: k) -> Forall P (l ++ k).
Proof. rewrite !Forall_app. intros [H1 [_ H2]%Forall_cons]. done. Qed.

Lemma result_of_not_panic b r : result_of b r = true -> r <> Panic.
Proof. by intros H ->. Qed.

Lemma turn_inv c p o p' : pipe_inv c p -> turn (pc_mode c) p o p' -> pipe_inv c p'.
Proof.
  intros Hi Ht. destruct Hi. inversion Ht as [r next Hm Hl Ha|r Hm Hl Ha|Hc Hs Hr|br rest Hm Hl Hc|r rest Hm Hl Hc]; subst; [| by split| by split|..].
  - split; cbn; try done; [by apply map_Forall_delete|]. intros Hf. congruence.
  - rewrite Hc in *. split; cbn in *; try done; try lia.
    + by eapply Forall_app_tail.
    + apply map_Forall_insert_2; [by exists br|done].
    + intros Hf. congruence.
  - rewrite Hc in *. split; cbn in *; try done; try lia.
    by eapply Forall_app_tail.
Qed.

Lemma papply_inv c e p o p' : pipe_inv c p -> papply c e p = Some (o, p') -> pipe_inv c p'.
Proof.
  intros Hi. pose proof Hi as Hi0. destruct Hi. unfold papply. destruct e as [b|i| | | |i r|i|].
  - destruct (p_closed p) eqn:Ecl; [done|]. intros [= <- <-]. split; cbn; try done; rewrite ?length_app; cbn; lia.
  - destruct (p_sending p !! i) as [b|] eqn:E; [|done]. destruct (Nat.ltb_spec (length (p_submit p)) (submit_cap c)); [|done].
    intros [= <- <-]. apply length_delete_lookup in E as El. split; cbn; try done; rewrite ?length_app; cbn; try lia.
    intros Hcl. by rewrite pi_closed0 in E.
  - case_bool_decide as Hs; [|done]. destruct (p_closed p); [done|]. intros [= <- <-]. rewrite Hs in *. by split.
  - destruct (p_received p) as [x|], (p_submit p) as [|b rest] eqn:E; try done. intros [= <- <-]. split; cbn in *; try done; lia.
  - destruct (p_received p) as [b|]; [|done]. destruct (Nat.ltb_spec (length (p_running p) + length (p_done p)) (max_inflight c)); [|done].
    intros [= <- <-]. split; cbn; try done; rewrite ?length_app; cbn; lia.
  - destruct (p_running p !! i) as [b|] eqn:E; [|done]. destruct (result_of b r) eqn:Er; [|done].
    intros [= <- <-]. apply length_delete_lookup in E. split; cbn; try done; rewrite ?length_app; cbn; try lia.
    apply result_of_not_panic in Er. apply Forall_app in pi_results0 as [? ?]. rewrite !Forall_app. by repeat constructor.
  - destruct (p_done p !! i) as [r|] eqn:E; [|done]. destruct (Nat.ltb_spec (length (p_complete p)) complete_cap); [|done].
    intros [= <- <-]. apply length_delete_lookup in E as El. split; cbn; try done; rewrite ?length_app; cbn; try lia.
    apply Forall_app in pi_results0 as [H1 H2]. rewrite !Forall_app. split_and!; [by apply Forall_delete|done|].
    apply Forall_singleton. rewrite Forall_forall in H1. apply list_elem_of_lookup_2 in E. by apply H1.
  - intros Ht%next_turn_turn. by eapply turn_inv.
Qed.

Lemma pruns_inv c first bs os p : pruns c first bs os p -> pipe_inv c p.
Proof.
  induction 1 as [|bs os p e o p' _ IH Hs]; [|by eapply papply_inv].
  split; cbn; try done; try lia.
Qed.

(** ** Order *)

Definition seqs_from (first : N) (n : nat) : list N := (fun k => first + N.of_nat k)%N <$> seq 0 n.

Lemma seqs_from_S first n : seqs_from first (S n) = seqs_from first n ++ [(first + N.of_nat n)%N].
Proof. unfold seqs_from. by rewrite seq_S, fmap_app. Qed.

(** In deterministic mode the cursor counts what was handed back. *)
Lemma handed_back_app os o : handed_back (os ++ o) = handed_back os ++ handed_back o.
Proof. unfold handed_back. by rewrite omap_app. Qed.

Lemma papply_seq c first e p o p' n : pc_mode c = Deterministic -> pipe_inv c p -> papply c e p = Some (o, p') ->
  p_next_seq p = (first + N.of_nat n)%N ->
  exists m, p_next_seq p' = (first + N.of_nat m)%N /\
    seqs_from first m = seqs_from first n ++ handed_back (option_list o).
Proof.
  intros Hd Hi Hs Hn.
  assert (p_next_seq p' = p_next_seq p /\ o = None \/ e = PNext) as [[E ->]| ->].
  { unfold papply in Hs. destruct e; repeat case_match; simplify_eq; cbn; eauto. }
  { exists n. rewrite E. split; [done|]. by rewrite app_nil_r. }
  apply next_turn_turn in Hs. rewrite Hd in Hs.
  inversion Hs as [r next Hm Hl Ha|r Hm Hl Ha|Hc Hsg Hr|br rest Hm Hl Hc|r rest Hm Hl Hc]; subst.
  - destruct (pi_parked _ _ Hi _ _ Hl) as (br & -> & Eb). exists (S n). cbn [p_next_seq]. apply checked_add_Some in Ha as [_ ->].
    split; [lia|]. rewrite seqs_from_S. f_equal. cbn. by rewrite Eb, Hn.
  - exists n. split; [done|]. by rewrite app_nil_r.
  - exists n. split; [done|]. by rewrite app_nil_r.
  - exists n. split; [done|]. by rewrite app_nil_r.
  - exists n. split; [done|]. destruct Hm as [|Hm]; [done|]. destruct r; [done|by rewrite app_nil_r..].
Qed.

Lemma pipeline_cursor c first bs os p : pc_mode c = Deterministic -> pruns c first bs os p ->
  handed_back os = seqs_from first (length (handed_back os)) /\ p_next_seq p = (first + N.of_nat (length (handed_back os)))%N.
Proof.
  intros Hd Hr. assert (exists n, handed_back os = seqs_from first n /\ p_next_seq p = (first + N.of_nat n)%N) as (n & E & En).
  { induction Hr as [|bs os p e o p' Hr IH Hs]; [exists 0%nat; split; [done|]; cbn; lia|].
    destruct IH as (n & E & En). destruct (papply_seq c first e p o p' n) as (m & Em & Es); [done|by eapply pruns_inv|done..|].
    exists m. by rewrite handed_back_app, E, Es. }
  assert (length (handed_back os) = n) as -> by (rewrite E; unfold seqs_from; by rewrite length_fmap, length_seq). done.
Qed.

(** C19. Deterministic mode hands batches back strictly in sequence: whatever
    is submitted, in whatever order executions finish and whichever of them
    fail, the results returned so far are those of the first sequence
    number, the next one, and so on without a gap or a repetition. *)
Theorem pipeline_order (c : PipelineConfig) (first : N) (bs : list Batch) (os : list (res ClientError (option BatchResult)))
    (p : Pipe) : pc_mode c = Deterministic -> pruns c first bs os p ->
  handed_back os = seqs_from first (length (handed_back os)).
Proof. intros Hd Hr. by apply (pipeline_cursor c first bs os p). Qed.

(** ** Nothing is lost *)

Definition M (l : list N) : gmultiset N := list_to_set_disj l.
Arguments M : simpl never.

Lemma M_app a b : M (a ++ b) = M a ⊎ M b.
Proof. apply list_to_set_disj_app. Qed.
Lemma M_cons x l : M (x :: l) = {[+ x +]} ⊎ M l.
Proof. done. Qed.
Lemma M_perm a b : a ≡ₚ b -> M a = M b.
Proof. intros H. unfold M. by rewrite H. Qed.
Lemma errors_app {A} (a b : list (res ClientError A)) : errors (a ++ b) = (errors a + errors b)%nat.
Proof. unfold errors. by rewrite List.filter_app, length_app. Qed.
Lemma errors_one {A} (r : res ClientError A) : errors [r] = if is_err r then 1%nat else 0%nat.
Proof. unfold errors. cbn. by destruct (is_err r). Qed.
Arguments errors : simpl never.
Lemma M_delete {A} (f : A -> option N) (l : list A) i x : l !! i = Some x ->
  M (omap f l) = M (option_list (f x)) ⊎ M (omap f (delete i l)).
Proof.
  intros H. rewrite delete_take_drop, <- (take_drop_middle l i x H) at 1. rewrite !omap_app, !M_app. cbn.
  destruct (f x); cbn; rewrite ?M_cons; change (M []) with (∅ : gmultiset N); multiset_solver.
Qed.
Lemma errors_delete {A} (l : list (res ClientError A)) i x : l !! i = Some x ->
  errors l = (errors [x] + errors (delete i l))%nat.
Proof.
  intros H. rewrite delete_take_drop, <- (take_drop_middle l i x H) at 1.
  change (x :: drop (S i) l) with ([x] ++ drop (S i) l). rewrite !errors_app. lia.
Qed.

(** Where the submitted sequence numbers are. *)
Definition tracked (p : Pipe) (os : list (res ClientError (option BatchResult))) : gmultiset N :=
  M (omap (fun b => Some (ba_seq b)) (p_sending p)) ⊎ M (omap (fun b => Some (ba_seq b)) (p_submit p)) ⊎
  M (ba_seq <$> option_list (p_received p)) ⊎ M (omap (fun b => Some (ba_seq b)) (p_running p)) ⊎
  M (omap ok_seq (p_done p)) ⊎ M (omap ok_seq (p_complete p)) ⊎ M (map_to_list (p_reorder p)).*1 ⊎ M (handed_back os).

Lemma omap_seq (l : list Batch) : omap (fun b => Some (ba_seq b)) l = ba_seq <$> l.
Proof. induction l as [|b l IH]; [done|]. cbn. by rewrite <- IH. Qed.

(** Failed batches leave an error instead of a sequence number. *)
Definition accounted (bs : list Batch) (os : list (res ClientError (option BatchResult))) (p : Pipe) (failed : gmultiset N) : Prop :=
  M (ba_seq <$> bs) = tracked p os ⊎ failed /\
  size failed = (errors (p_done p) + errors (p_complete p) + errors os)%nat.

Lemma tracked_reorder_key p os k r rest : M (omap ok_seq (p_complete p)) = {[+ k +]} ⊎ rest -> p_reorder p !! k = Some r ->
  (2 <= multiplicity k (tracked p os))%nat.
Proof.
  intros Hc Hk. apply elem_of_map_to_list in Hk. apply (list_elem_of_fmap_2 fst) in Hk. cbn in Hk.
  assert (1 <= multiplicity k (M (map_to_list (p_reorder p)).*1))%nat.
  { assert (k ∈ M (map_to_list (p_reorder p)).*1) as Hin by (by apply elem_of_list_to_set_disj).
    rewrite elem_of_multiplicity in Hin. exact Hin. }
  unfold tracked. rewrite Hc, !multiplicity_disj_union, multiplicity_singleton, decide_True by done. lia.
Qed.

Lemma NoDup_multiplicity (l : list N) k : NoDup l -> (multiplicity k (M l) <= 1)%nat.
Proof.
  induction 1 as [|x l Hx _ IH]; [unfold M; cbn; rewrite multiplicity_empty; lia|].
  rewrite M_cons, multiplicity_disj_union, multiplicity_singleton. destruct (decide (k = x)) as [->|Hne].
  - assert (multiplicity x (M l) = 0)%nat; [|lia].
    destruct (multiplicity x (M l)) eqn:E; [done|]. exfalso. apply Hx. apply elem_of_list_to_set_disj, elem_of_multiplicity.
    change (0 < multiplicity x (M l))%nat. lia.
  - lia.
Qed.

(** What a result that leaves a queue counts for. *)
Lemma out_of_ok (r : Outcome) : handed_back [Some <$> r] = option_list (ok_seq r) /\ errors [Some <$> r] = errors [r].
Proof. by destruct r. Qed.

Lemma turn_accounted c bs os p o p' failed : pipe_inv c p -> NoDup (ba_seq <$> bs) -> accounted bs os p failed ->
  turn (pc_mode c) p o p' -> accounted bs (os ++ option_list o) p' failed.
Proof.
  intros Hi Hnd [Hm Hf] Ht. unfold accounted. rewrite Hm.
  inversion Ht as [r next Hd Hl Ha|r Hd Hl Ha|Hc Hs Hr|br rest Hd Hl Hc|r rest Hd Hl Hc]; subst; cbn [option_list].
  - destruct (pi_parked _ _ Hi _ _ Hl) as (br & -> & Eb). unfold tracked. cbn [p_sending p_submit p_received p_running p_done p_complete p_reorder].
    rewrite handed_back_app, errors_app, !M_app. split; [|change (option_list (Some (Some <$> Ok br))) with [Ok (E := ClientError) (Some br)]; rewrite errors_one; cbn; lia].
    rewrite <- (map_to_list_delete (p_reorder p) _ _ Hl) at 1. cbn. rewrite !M_cons, Eb. change (M []) with (∅ : gmultiset N). multiset_solver.
  - unfold tracked. rewrite handed_back_app, errors_app, M_app.
    change (M (handed_back (option_list (Some Panic)))) with (∅ : gmultiset N).
    change (errors (option_list (Some Panic))) with 0%nat. split; [multiset_solver|lia].
  - unfold tracked. rewrite handed_back_app, errors_app, M_app.
    change (M (handed_back (option_list (Some (Ok None))))) with (∅ : gmultiset N).
    change (errors (option_list (Some (Ok None)))) with 0%nat. split; [multiset_solver|lia].
  - assert (p_reorder p !! br_seq br = None) as Hnone.
    { destruct (p_reorder p !! br_seq br) as [r|] eqn:E; [|done]. exfalso.
      pose proof (tracked_reorder_key p os _ _ (M (omap ok_seq rest)) ltac:(rewrite Hc; cbn; by rewrite M_cons) E) as H2.
      pose proof (NoDup_multiplicity _ (br_seq br) Hnd) as H1. rewrite Hm, multiplicity_disj_union in H1. lia. }
    unfold tracked. cbn [p_sending p_submit p_received p_running p_done p_complete p_reorder]. rewrite app_nil_r, Hc in *.
    split; [|done]. rewrite (M_perm _ _ (fmap_Permutation fst _ _ (map_to_list_insert (p_reorder p) _ (Ok br) Hnone))).
    cbn. rewrite !M_cons. multiset_solver.
  - unfold tracked. cbn [p_sending p_submit p_received p_running p_done p_complete p_reorder].
    rewrite Hc in *. change (r :: rest) with ([r] ++ rest) in *. rewrite errors_app in Hf.
    rewrite handed_back_app, errors_app, omap_app, !M_app. change (option_list (Some (Some <$> r))) with [Some <$> r].
    destruct (out_of_ok r) as [-> ->].
    replace (omap ok_seq [r]) with (option_list (ok_seq r)) by (cbn; by destruct (ok_seq r)). split; [multiset_solver|lia].
Qed.

Lemma papply_accounted c bs os e p o p' failed : pipe_inv c p -> NoDup (ba_seq <$> (bs ++ submitted e)) ->
  accounted bs os p failed -> papply c e p = Some (o, p') ->
  exists failed', accounted (bs ++ submitted e) (os ++ option_list o) p' failed'.
Proof.
  intros Hi Hnd Ha. unfold papply. destruct e as [b|i| | | |i r|i|]; cbn [submitted] in *; rewrite ?app_nil_r in *.
  - destruct (p_closed p); [done|]. intros [= <- <-]. exists failed. destruct Ha as [Hm Hf]. split; [|by rewrite app_nil_r].
    unfold tracked. cbn. rewrite fmap_app, omap_app, !M_app, Hm, app_nil_r. unfold tracked. cbn. rewrite M_cons.
    change (M []) with (∅ : gmultiset N). multiset_solver.
  - destruct (p_sending p !! i) as [b|] eqn:E; [|done]. destruct (_ <? _)%nat; [|done]. intros [= <- <-]. exists failed.
    destruct Ha as [Hm Hf]. split; [|by rewrite app_nil_r]. rewrite Hm. unfold tracked. cbn.
    rewrite (M_delete _ _ _ _ E), omap_app, !M_app, app_nil_r. cbn. multiset_solver.
  - case_bool_decide as Hs; [|done]. destruct (p_closed p); [done|]. intros [= <- <-]. exists failed.
    destruct Ha as [Hm Hf]. rewrite app_nil_r. split; [|done]. rewrite Hm. unfold tracked. cbn. by rewrite Hs.
  - destruct (p_received p) as [x|] eqn:Ex, (p_submit p) as [|b rest] eqn:E; try done. intros [= <- <-]. exists failed.
    destruct Ha as [Hm Hf]. rewrite app_nil_r. split; [|done]. rewrite Hm. unfold tracked. rewrite Ex, E. cbn. rewrite !M_cons.
    change (M []) with (∅ : gmultiset N). multiset_solver.
  - destruct (p_received p) as [b|] eqn:Ex; [|done]. destruct (_ <? _)%nat; [|done]. intros [= <- <-]. exists failed.
    destruct Ha as [Hm Hf]. rewrite app_nil_r. split; [|done]. rewrite Hm. unfold tracked. rewrite Ex. cbn.
    rewrite omap_app, M_app. cbn. rewrite !M_cons. change (M []) with (∅ : gmultiset N). multiset_solver.
  - destruct (p_running p !! i) as [b|] eqn:E; [|done]. destruct (result_of b r) eqn:Er; [|done]. intros [= <- <-].
    destruct Ha as [Hm Hf]. rewrite app_nil_r. destruct r as [br|e|]; [|..|done].
    + exists failed. cbn in Er. apply andb_true_iff in Er as [Eq%N.eqb_eq _]. split; [|cbn; rewrite errors_app, errors_one; cbn; lia].
      rewrite Hm. unfold tracked. cbn. rewrite (M_delete _ _ _ _ E), omap_app, !M_app. cbn. rewrite Eq. multiset_solver.
    + exists (failed ⊎ {[+ ba_seq b +]}). split; [|cbn; rewrite errors_app, errors_one, gmultiset_size_disj_union, gmultiset_size_singleton; cbn; lia].
      rewrite Hm. unfold tracked. cbn. rewrite (M_delete _ _ _ _ E), omap_app, !M_app. cbn. rewrite !M_cons.
      change (M []) with (∅ : gmultiset N). multiset_solver.
  - destruct (p_done p !! i) as [r|] eqn:E; [|done]. destruct (_ <? _)%nat; [|done]. intros [= <- <-]. exists failed.
    destruct Ha as [Hm Hf]. rewrite app_nil_r. split.
    + rewrite Hm. unfold tracked. cbn. rewrite (M_delete _ _ _ _ E), omap_app, !M_app. cbn. destruct (ok_seq r); multiset_solver.
    + cbn. rewrite errors_app, Hf, (errors_delete _ _ _ E). lia.
  - intros Ht%next_turn_turn. exists failed. by eapply turn_accounted.
Qed.

Lemma pruns_accounted c first bs os p : pruns c first bs os p -> NoDup (ba_seq <$> bs) -> exists failed, accounted bs os p failed.
Proof.
  induction 1 as [|bs os p e o p' Hr IH Hs]; intros Hnd.
  - exists ∅. split; [|done]. unfold tracked. cbn. rewrite map_to_list_empty. by multiset_solver.
  - destruct IH as [failed Ha]; [rewrite fmap_app in Hnd; by apply NoDup_app in Hnd as [? _]|].
    eapply papply_accounted; [by eapply pruns_inv|done..].
Qed.

(** ** Draining *)

Lemma seqs_from_elem first n x : x ∈ seqs_from first n <-> exists k, (k < n)%nat /\ x = (first + N.of_nat k)%N.
Proof.
  unfold seqs_from. rewrite list_elem_of_fmap. setoid_rewrite elem_of_seq. naive_solver lia.
Qed.

Lemma elem_of_M x l : x ∈ M l <-> x ∈ l.
Proof. apply elem_of_list_to_set_disj. Qed.

Lemma M_inj a : forall b, M a = M b -> a ≡ₚ b.
Proof.
  induction a as [|x a IH]; intros b H.
  - destruct b as [|y b]; [done|]. exfalso. assert (y ∈ M []) as Hy by (rewrite H; apply elem_of_M; left). by apply elem_of_M in Hy; apply not_elem_of_nil in Hy.
  - assert (x ∈ M b) as Hx by (rewrite <- H; apply elem_of_M; left). apply elem_of_M, list_elem_of_split in Hx as (b1 & b2 & ->).
    rewrite (IH (b1 ++ b2)); [by rewrite Permutation_middle|]. rewrite M_app, M_cons in H. rewrite M_cons in H.
    apply (inj (disj_union {[+ x +]})). rewrite H, M_app. multiset_solver.
Qed.

Lemma size_M l : size (M l) = length l.
Proof.
  induction l as [|x l IH]; [done|]. rewrite M_cons, gmultiset_size_disj_union, gmultiset_size_singleton, IH. done.
Qed.

(** The consumer is told that the pipeline has drained. *)
Lemma drained_inv mode p p' : next_turn mode p = Some (Some (Ok None), p') ->
  p_complete p = [] /\ senders_gone p = true /\ (mode = Deterministic -> p_reorder p !! p_next_seq p = None).
Proof.
  unfold next_turn.
  assert (forall r : Outcome, Some <$> r <> Ok None) as Hne by (by intros []).
  destruct mode.
  - destruct (p_complete p); [|intros [= E _]; by apply Hne in E]. by destruct (senders_gone p).
  - destruct (p_reorder p !! p_next_seq p) as [r|].
    { destruct (checked_add _ _ _); intros [= E _]; by apply Hne in E. }
    destruct (p_complete p) as [|[br|e|] rest]; [by destruct (senders_gone p)|done..].
Qed.

(** What is still inside when the senders are gone. *)
Lemma drained_tracked c p os : pipe_inv c p -> p_complete p = [] -> senders_gone p = true ->
  tracked p os = M (map_to_list (p_reorder p)).*1 ⊎ M (handed_back os) /\ p_done p = [].
Proof.
  intros Hi Hc Hg. unfold senders_gone, executor_ended in Hg.
  apply andb_true_iff in Hg as [Hg E4%bool_decide_eq_true]. apply andb_true_iff in Hg as [Hg E3%bool_decide_eq_true].
  apply andb_true_iff in Hg as [Hg E2%bool_decide_eq_true]. apply andb_true_iff in Hg as [E0 E1%bool_decide_eq_true].
  unfold tracked. rewrite E1, E2, E3, E4, Hc, (pi_closed _ _ Hi E0). split; [|done]. cbn.
  change (M []) with (∅ : gmultiset N). multiset_solver.
Qed.

(** A drained pipeline has handed everything back.  When batches with
    distinct sequence numbers were submitted and [next_completed] reports
    that the pipeline has drained, then in fast mode every batch was handed
    back exactly once, as its result or as an error; and in deterministic
    mode, if the numbers run from the first one without a gap and no batch
    failed, all of them were handed back, in order. *)
Theorem pipeline_drained_complete (c : PipelineConfig) (first : N) (bs : list Batch)
    (os : list (res ClientError (option BatchResult))) (p p' : Pipe) :
  pruns c first bs os p -> NoDup (ba_seq <$> bs) -> next_turn (pc_mode c) p = Some (Some (Ok None), p') ->
  (pc_mode c = Fast ->
     length bs = (length (handed_back os) + errors os)%nat /\
     (errors os = 0%nat -> handed_back os ≡ₚ ba_seq <$> bs)) /\
  (pc_mode c = Deterministic -> ba_seq <$> bs ≡ₚ seqs_from first (length bs) -> errors os = 0%nat ->
     handed_back os = seqs_from first (length bs)).
Proof.
  intros Hr Hnd (Hc & Hg & Hnext)%drained_inv. pose proof (pruns_inv _ _ _ _ _ Hr) as Hi.
  destruct (pruns_accounted _ _ _ _ _ Hr Hnd) as (failed & Hm & Hf).
  destruct (drained_tracked c p os Hi Hc Hg) as [Ht Hd]. rewrite Ht in Hm. rewrite Hc, Hd in Hf. cbn in Hf.
  assert (length bs = (size (p_reorder p) + length (handed_back os) + errors os)%nat) as Hlen.
  { apply (f_equal size) in Hm. rewrite !gmultiset_size_disj_union, !size_M, !length_fmap, length_map_to_list, Hf in Hm. done. }
  split.
  - intros Hfast. rewrite (pi_fast _ _ Hi Hfast) in *. rewrite map_size_empty in Hlen. split; [done|]. intros He.
    apply M_inj. rewrite Hm, map_to_list_empty. assert (failed = ∅) as -> by (apply gmultiset_size_empty_inv; unfold errors in *; cbn in *; lia).
    cbn. change (M []) with (∅ : gmultiset N). multiset_solver.
  - intros Hdet Hseq He. destruct (pipeline_cursor c first bs os p Hdet Hr) as [Eh En].
    set (m := length (handed_back os)) in *. destruct (decide (m = length bs)) as [<-|Hne]; [done|]. exfalso.
    assert ((first + N.of_nat m)%N ∈ M (ba_seq <$> bs)) as Hin.
    { apply elem_of_M. rewrite Hseq. apply seqs_from_elem. exists m. split; [lia|done]. }
    assert (failed = ∅) as Hfe by (apply gmultiset_size_empty_inv; unfold errors in *; cbn in *; lia).
    rewrite Hm, Hfe, gmultiset_disj_union_right_id in Hin. apply gmultiset_elem_of_disj_union in Hin as [Hin|Hin].
    + apply elem_of_M, list_elem_of_fmap in Hin as ([k r] & E & Hin%elem_of_map_to_list). cbn in E.
      rewrite <- E, <- En in Hin. by rewrite (Hnext Hdet) in Hin.
    + apply elem_of_M in Hin. rewrite Eh in Hin. apply seqs_from_elem in Hin as (k & Hk & E). lia.
Qed.

(** ** Liveness *)

(** A batch moves through at most seven places. *)
Definition pipe_measure (p : Pipe) : nat :=
  (7 * length (p_sending p) + 6 * length (p_submit p) + 5 * length (option_list (p_received p)) +
   4 * length (p_running p) + 3 * length (p_done p) + 2 * length (p_complete p) + size (p_reorder p))%nat.

(** A step of the executor, of a batch or of the consumer that does not
    report the end: nobody submits or closes. *)
Definition internal (c : PipelineConfig) (p p' : Pipe) : Prop :=
  exists e o, papply c e p = Some (o, p') /\ o <> Some (Ok None) /\ o <> Some Panic /\
    match e with PSubmit _ | PClose => False | _ => True end.

Lemma internal_decreases c p p' : pipe_inv c p -> internal c p p' -> (pipe_measure p' < pipe_measure p)%nat.
Proof.
  intros Hi (e & o & Hs & Hn1 & Hn2 & He). unfold papply in Hs. unfold pipe_measure. destruct e as [b|i| | | |i r|i|]; [done|..].
  - destruct (p_sending p !! i) as [b|] eqn:E; [|done]. destruct (_ <? _)%nat; [|done]. injection Hs as <- <-.
    apply length_delete_lookup in E. cbn. rewrite length_app. cbn. lia.
  - done.
  - destruct (p_received p) as [x|] eqn:Ex, (p_submit p) as [|b rest] eqn:E; try done. injection Hs as <- <-. cbn. lia.
  - destruct (p_received p) as [b|] eqn:Ex; [|done]. destruct (_ <? _)%nat; [|done]. injection Hs as <- <-. cbn.
    rewrite length_app. cbn. lia.
  - destruct (p_running p !! i) as [b|] eqn:E; [|done]. destruct (result_of b r); [|done]. injection Hs as <- <-.
    apply length_delete_lookup in E. cbn. rewrite length_app. cbn. lia.
  - destruct (p_done p !! i) as [r|] eqn:E; [|done]. destruct (_ <? _)%nat; [|done]. injection Hs as <- <-.
    apply length_delete_lookup in E. cbn. rewrite length_app. cbn. lia.
  - apply next_turn_turn in Hs. inversion Hs as [r next Hd Hl Ha| | |br rest Hd Hl Hc|r rest Hd Hl Hc]; subst; [|done|done|..]; cbn.
    + rewrite map_size_delete, Hl. assert (size (p_reorder p) <> 0)%nat; [|cbn; lia].
      intros Hz. apply map_size_empty_inv in Hz. by rewrite Hz, lookup_empty in Hl.
    + rewrite Hc. cbn. rewrite map_size_insert. destruct (p_reorder p !! br_seq br); cbn; lia.
    + rewrite Hc. cbn. lia.
Qed.

(** A consumer that cannot continue has nothing to receive and nothing parked
    at the cursor. *)
Lemma consumer_stuck c p : pipe_inv c p -> (pc_mode c = Deterministic -> (p_next_seq p < u64_max)%N) -> (forall p', ~ internal c p p') ->
  p_complete p = [] /\ (pc_mode c = Deterministic -> p_reorder p !! p_next_seq p = None).
Proof.
  intros Hi Hmax Hno.
  assert (forall o q, next_turn (pc_mode c) p = Some (o, q) -> o <> Some (Ok None) -> o <> Some Panic -> False) as Hoff.
  { intros o q Hs H1 H2. apply (Hno q). by exists PNext, o. }
  assert (pc_mode c = Deterministic -> p_reorder p !! p_next_seq p = None) as Hr.
  { intros Hd. destruct (p_reorder p !! p_next_seq p) as [r|] eqn:E; [|done]. exfalso.
    destruct (pi_parked _ _ Hi _ _ E) as (br & -> & _). specialize (Hmax Hd). unfold next_turn in Hoff. rewrite Hd, E in Hoff.
    unfold checked_add in Hoff. rewrite decide_True in Hoff by lia. by eapply Hoff. }
  split; [|done]. destruct (p_complete p) as [|r rest] eqn:E; [done|]. exfalso.
  pose proof (pi_results _ _ Hi) as Hres. rewrite E in Hres. apply Forall_app in Hres as [_ [Hp _]%Forall_cons].
  unfold next_turn in Hoff. rewrite E in Hoff. destruct (pc_mode c); [by eapply Hoff; [done|destruct r..]|].
  rewrite Hr in Hoff by done. destruct r; [by eapply Hoff|by eapply Hoff|done].
Qed.

(** While something is left to do, some step of this kind can happen. *)
Lemma internal_progress c p : pipe_inv c p -> p_closed p = true ->
  (pc_mode c = Deterministic -> (p_next_seq p < u64_max)%N) ->
  (forall p', ~ internal c p p') -> next_turn (pc_mode c) p = Some (Some (Ok None), p).
Proof.
  intros Hi Hcl Hmax Hno. destruct (consumer_stuck c p Hi Hmax Hno) as [Hc Hr].
  assert (forall e p', match e with PSubmit _ | PClose => False | _ => True end -> papply c e p <> Some (None, p')) as Hoff.
  { intros e p' He Hs. apply (Hno p'). by exists e, None. }
  assert (p_running p = []) as Hrun.
  { destruct (p_running p) as [|b l] eqn:E; [done|]. exfalso. refine (Hoff (PFinish 0 (Err (mkClientError Internal ""))) _ I _).
    cbn. by rewrite E. }
  assert (p_done p = []) as Hdone.
  { destruct (p_done p) as [|r l] eqn:E; [done|]. exfalso. refine (Hoff (PDeliver 0) _ I _). cbn. by rewrite E, Hc. }
  assert (p_received p = None) as Hrec.
  { destruct (p_received p) as [b|] eqn:E; [|done]. exfalso. refine (Hoff PStart _ I _). unfold papply. rewrite E, Hrun, Hdone.
    assert (0 < max_inflight c)%nat as Hpos by (unfold max_inflight; lia). apply Nat.ltb_lt in Hpos.
    change (length [] + length [])%nat with 0%nat. by rewrite Hpos. }
  assert (p_submit p = []) as Hsub.
  { destruct (p_submit p) as [|b l] eqn:E; [done|]. exfalso. refine (Hoff PReceive _ I _). cbn. by rewrite Hrec, E. }
  assert (senders_gone p = true) as Hg.
  { unfold senders_gone, executor_ended. by rewrite Hcl, Hsub, Hrec, Hrun, Hdone. }
  unfold next_turn. rewrite Hc, Hg. destruct (pc_mode c); [done|]. by rewrite Hr.
Qed.

(** Every submitted batch is handed back at most once. *)
Definition pipe_load (p : Pipe) : nat :=
  (length (p_sending p) + length (p_submit p) + length (option_list (p_received p)) + length (p_running p) +
   length (p_done p) + length (p_complete p) + size (p_reorder p))%nat.

Lemma papply_load c e p o p' : papply c e p = Some (o, p') ->
  (pipe_load p' + length (handed_back (option_list o)) <= pipe_load p + length (submitted e))%nat.
Proof.
  intros Hs. unfold papply in Hs. unfold pipe_load. destruct e as [b|i| | | |i r|i|]; cbn [submitted].
  - destruct (p_closed p); [done|]. injection Hs as <- <-. cbn. rewrite length_app. cbn. lia.
  - destruct (p_sending p !! i) as [b|] eqn:E; [|done]. destruct (_ <? _)%nat; [|done]. injection Hs as <- <-.
    apply length_delete_lookup in E. cbn. rewrite length_app. cbn. lia.
  - case_bool_decide as Hsend; [|done]. destruct (p_closed p); [done|]. injection Hs as <- <-. cbn. lia.
  - destruct (p_received p) as [x|] eqn:Ex, (p_submit p) as [|b rest] eqn:E; try done. injection Hs as <- <-. cbn. lia.
  - destruct (p_received p) as [b|] eqn:Ex; [|done]. destruct (_ <? _)%nat; [|done]. injection Hs as <- <-. cbn.
    rewrite length_app. cbn. lia.
  - destruct (p_running p !! i) as [b|] eqn:E; [|done]. destruct (result_of b r); [|done]. injection Hs as <- <-.
    apply length_delete_lookup in E. cbn. rewrite length_app. cbn. lia.
  - destruct (p_done p !! i) as [r|] eqn:E; [|done]. destruct (_ <? _)%nat; [|done]. injection Hs as <- <-.
    apply length_delete_lookup in E. cbn. rewrite length_app. cbn. lia.
  - apply next_turn_turn in Hs. inversion Hs as [r next Hd Hl Ha| | |br rest Hd Hl Hc|r rest Hd Hl Hc]; subst.
    + cbn [p_sending p_submit p_received p_running p_done p_complete p_reorder]. rewrite map_size_delete, Hl.
      assert (size (p_reorder p) <> 0)%nat; [|destruct r; cbn; lia].
      intros Hz. apply map_size_empty_inv in Hz. by rewrite Hz, lookup_empty in Hl.
    + cbn. lia.
    + cbn. lia.
    + rewrite Hc. cbn. rewrite map_size_insert. destruct (p_reorder p !! br_seq br); cbn; lia.
    + rewrite Hc. destruct r; cbn; lia.
Qed.

Lemma pruns_load c first bs os p : pruns c first bs os p -> (pipe_load p + length (handed_back os) <= length bs)%nat.
Proof.
  induction 1 as [|bs os p e o p' _ IH Hs]; [done|]. apply papply_load in Hs. rewrite handed_back_app, !length_app. lia.
Qed.

Lemma internal_pruns c first bs os p p' : pruns c first bs os p -> rtc (internal c) p p' ->
  exists os', pruns c first bs os' p' /\ p_closed p' = p_closed p.
Proof.
  intros Hr Hs. revert os Hr. induction Hs as [p|p q p' (e & o & Hs & _ & _ & He) _ IH]; intros os Hr; [by exists os|].
  assert (submitted e = []) as E by (by destruct e). pose proof (pr_step _ _ _ _ _ _ _ _ Hr Hs) as Hr'.
  rewrite E, app_nil_r in Hr'. destruct (IH _ Hr') as (os' & H1 & H2). exists os'. split; [done|]. rewrite H2.
  clear -Hs He. unfold papply, next_turn in Hs. destruct e; try done; repeat case_match; by simplify_eq.
Qed.

(** C20. A closed pipeline drains: once every submit handle is gone, the
    executor, the batches and the consumer can take only as many steps as
    the batches inside have places left, whatever the interleaving; and when
    none of them can take another one, [next_completed] reports the end.  No
    deadlock between the bounded queues, the in-flight limit and the reorder
    buffer is possible. *)
Theorem pipeline_drains (c : PipelineConfig) (first : N) (bs : list Batch) (os : list (res ClientError (option BatchResult)))
    (p : Pipe) : pruns c first bs os p -> p_closed p = true -> (first + N.of_nat (length bs) < u64_max)%N ->
  (forall n p', nsteps (internal c) n p p' -> (n + pipe_measure p' <= pipe_measure p)%nat) /\
  (forall p', rtc (internal c) p p' -> (forall q, ~ internal c p' q) -> next_turn (pc_mode c) p' = Some (Some (Ok None), p')).
Proof.
  intros Hr Hcl Hmax. split.
  - intros n p' Hn. revert os Hr. clear Hcl. induction Hn as [p|n p q p' Hs _ IH]; intros os Hr; [done|].
    pose proof (internal_decreases c p q (pruns_inv _ _ _ _ _ Hr) Hs).
    destruct (internal_pruns c first bs os p q Hr (rtc_once _ _ Hs)) as (os' & Hr' & _). specialize (IH _ Hr'). lia.
  - intros p' Hs Hno. destruct (internal_pruns _ _ _ _ _ _ Hr Hs) as (os' & Hr' & Hcl').
    apply internal_progress; [by eapply pruns_inv|congruence| |done].
    intros Hm. destruct (pipeline_cursor _ _ _ _ _ Hm Hr') as [_ ->]. pose proof (pruns_load _ _ _ _ _ Hr'). lia.
Qed.

(** The queues are bounded and the gauges are exact: at any moment at most
    [max_inflight_batches] batches (at least one) execute or wait to send
    their result, the submit queue holds at most one batch less than that
    (at least one) and the completed queue one; the submit gauge counts the
    queued batches and the blocked producers, the completed gauge the queued
    and the blocked results, and its peak never exceeds the in-flight limit
    plus one. *)
Theorem pipeline_bounded (c : PipelineConfig) (first : N) (bs : list Batch) (os : list (res ClientError (option BatchResult)))
    (p : Pipe) : pruns c first bs os p ->
  (N.of_nat (length (p_running p) + length (p_done p)) <= N.max (pc_max_inflight_batches c) 1)%N /\
  (N.of_nat (length (p_submit p)) <= N.max (pc_max_inflight_batches c - 1) 1)%N /\ (length (p_complete p) <= 1)%nat /\
  queue_depth_submit (p_gauges p) = N.of_nat (length (p_sending p) + length (p_submit p)) /\
  queue_depth_complete (p_gauges p) = N.of_nat (length (p_done p) + length (p_complete p)) /\
  (queue_depth_complete_peak (p_gauges p) <= N.max (pc_max_inflight_batches c) 1 + 1)%N.
Proof.
  intros Hr. destruct (pruns_inv _ _ _ _ _ Hr) as [H1 H2 H3 _ H5 H6 _ [_ H8] _ _ _].
  unfold submit_cap, max_inflight, complete_cap in *. split_and!; [lia|lia|done|done|done|lia].
Qed.

(** ** Witness *)

Fixpoint prun_events (c : PipelineConfig) (es : list pevent) (os : list (res ClientError (option BatchResult))) (p : Pipe)
    : option (list (res ClientError (option BatchResult)) * Pipe) :=
  match es with
  | [] => Some (os, p)
  | e :: rest => '(o, p') ← papply c e p; prun_events c rest (os ++ option_list o) p'
  end.

Lemma prun_events_runs c first es : forall bs os p os' p', pruns c first bs os p -> prun_events c es os p = Some (os', p') ->
  pruns c first (bs ++ concat (submitted <$> es)) os' p'.
Proof.
  induction es as [|e es IH]; intros bs os p os' p' Hr; cbn.
  - intros [= <- <-]. by rewrite app_nil_r.
  - intros ([o q] & Hs & Hrest)%bind_Some. eapply pr_step in Hr; [|exact Hs]. eapply IH in Hr; [|exact Hrest].
    by rewrite app_assoc.
Qed.

Definition sample_pipeline : PipelineConfig := mkPipelineConfig Deterministic 2.
Definition sample_pbatch (s : N) : Batch := mkBatch s 0 [] None [].
Definition sample_result (s : N) : res ClientError BatchResult := Ok (mkBatchResult s 0 []).
(** Batches 5 and 6, of which 6 finishes first. *)
Definition sample_pevents : list pevent :=
  [PSubmit (sample_pbatch 5); PSend 0; PReceive; PStart; PSubmit (sample_pbatch 6); PSend 0; PReceive; PStart; PClose;
   PFinish 1 (sample_result 6); PDeliver 0; PNext; PFinish 0 (sample_result 5); PDeliver 0; PNext; PNext; PNext].
Definition sample_end : list (res ClientError (option BatchResult)) * Pipe :=
  default ([], pipe_spawn 5) (prun_events sample_pipeline sample_pevents [] (pipe_spawn 5)).

Lemma sample_pruns : pruns sample_pipeline 5 [sample_pbatch 5; sample_pbatch 6] sample_end.1 sample_end.2.
Proof. apply (prun_events_runs _ _ sample_pevents [] [] (pipe_spawn 5)); [constructor|by vm_compute]. Qed.

Lemma pipeline_order_witness : handed_back sample_end.1 = [5%N; 6%N].
Proof. rewrite (pipeline_order sample_pipeline 5 _ _ _ eq_refl sample_pruns). by vm_compute. Defined.

Lemma pipeline_drained_complete_witness : handed_back sample_end.1 = seqs_from 5 2.
Proof.
  destruct (pipeline_drained_complete sample_pipeline 5 _ _ _ sample_end.2 sample_pruns) as [_ H].
  - by apply (bool_decide_unpack _); vm_compute.
  - by vm_compute.
  - apply H; by vm_compute.
Defined.

Lemma pipeline_bounded_witness : (N.of_nat (length (p_running sample_end.2) + length (p_done sample_end.2)) <= 2)%N.
Proof. exact (proj1 (pipeline_bounded sample_pipeline 5 _ _ _ sample_pruns)). Defined.

Lemma pipeline_drains_witness :
  next_turn Deterministic sample_end.2 = Some (Some (Ok None), sample_end.2) /\
  forall n p', nsteps (internal sample_pipeline) n sample_end.2 p' -> (n <= 0)%nat.
Proof.
  destruct (pipeline_drains sample_pipeline 5 _ _ _ sample_pruns) as [H1 _]; [by vm_compute|by vm_compute|].
  split; [by vm_compute|]. intros n p' Hn. specialize (H1 n p' Hn).
  assert (pipe_measure sample_end.2 = 0%nat) as E by (by vm_compute). lia.
Defined.
