(* ===== verification/ExecBatch.v ===== *)
(** Execution of one batch (crates/orch-sched/src/pipeline.rs, [execute_batch])
    with the retry ladder of its jobs (crates/orch-sched/src/retry.rs,
    [run_job_with_retry]): the first pass forks or restores, every job that
    failed is run again on the restore path, and a job whose attempts are
    used up is abandoned in fast mode and fails the batch in deterministic
    mode. *)
From stdpp Require Import pretty.
From S2P Require Import Prelude Types Rng Client Retry HvTypes SynthTypes Fault Grid Slots Tasks WorkerDriver FakeHv FakeHvPool WorkerWorld Pipeline.
Local Open Scope string_scope.
Local Open Scope list_scope.

(** The counter of abandoned jobs. *)
Class JobGauge (W : Type) := { jobs_failed_inc : W -> W }.

Section Execute.
Context {W : Type} `{B3 : Blake3, HV : Hypervisor W, RT : Runtime W, SP : SlotPool W, JG : JobGauge W}.
Context (join_error_text : string) (config : DriverConfig) (fuel : nat) (policy : RetryPolicy).
(** After how many awaits the deadline of a job's attempt passes. *)
Context (cutoff : N -> N -> nat).

Fixpoint job_attempts (spec : JobSpec) (remaining : nat) (attempt : N) : proc W JobResult :=
  pthen (run_job_deadline config fuel spec (Some (rp_job_timeout policy, cutoff (js_job_idx spec) attempt))) (fun outcome =>
    match outcome with
    | Err error =>
      if negb (is_retryable error) then Done (Err error)
      else match remaining with
           | O => Done (Err error)
           | S n => _ ← pause (backoff policy attempt); job_attempts spec n (attempt + 1)
           end
    | _ => Done outcome
    end).
Definition job_with_retry (spec : JobSpec) : proc W JobResult :=
  job_attempts spec (N.to_nat (rp_retry_max policy)) 0.

Definition exhausted_message (batch job_idx : N) (error : ClientError) : string :=
  DETERMINISTIC_RETRIES_EXHAUSTED_REASON +:+ ": batch " +:+ pretty batch +:+ " job " +:+ pretty job_idx +:+ " — " +:+
  ClientError_fmt error.

(** The loop over the first pass. *)
Fixpoint collect_jobs (mode : SchedMode) (batch : Batch) (first_pass : list (N * res ClientError JobResult))
    : proc W (list JobOutcome) :=
  match first_pass with
  | [] => mret []
  | (job_idx, outcome) :: rest =>
    match outcome with
    | Ok result => jobs ← collect_jobs mode batch rest; mret (Completed result :: jobs)
    | Panic => Done Panic
    | Err first_error =>
      burst ← Done (expect (vec_get (ba_bursts batch) job_idx));
      let spec := mkJobSpec (ba_seq batch) job_idx (ba_parent_snapshot batch) (ba_required_class batch) burst in
      pthen (job_with_retry spec) (fun again =>
      match again with
      | Ok result => jobs ← collect_jobs mode batch rest; mret (Completed result :: jobs)
      | Err error =>
        match mode with
        | Fast =>
          _ ← call (modify jobs_failed_inc);
          jobs ← collect_jobs mode batch rest;
          mret (Abandoned job_idx (ClientError_fmt first_error +:+ "; final: " +:+ ClientError_fmt error) :: jobs)
        | Deterministic => Done (Err (mkClientError Internal (exhausted_message (ba_seq batch) job_idx error)))
        end
      | Panic => Done Panic
      end)
    end
  end.

(** [sort_by_key], a stable sort. *)
Definition outcome_idx (o : JobOutcome) : N :=
  match o with Completed result => jr_job_idx result | Abandoned job_idx _ => job_idx end.
Fixpoint insert_job (o : JobOutcome) (l : list JobOutcome) : list JobOutcome :=
  match l with
  | [] => [o]
  | x :: rest => if (outcome_idx o <=? outcome_idx x)%N then o :: l else x :: insert_job o rest
  end.
Definition sort_jobs (l : list JobOutcome) : list JobOutcome := foldr insert_job [] l.

Definition execute_batch (mode : SchedMode) (batch : Batch) : task W (N * res ClientError JobResult) BatchResult :=
  task_then (run_batch join_error_text config fuel (ba_seq batch) (ba_parent_snapshot batch) (ba_required_class batch) (ba_bursts batch))
    (fun r => TProc (
       first_pass ← Done r;
       jobs ← collect_jobs mode batch first_pass;
       mret (mkBatchResult (ba_seq batch) (ba_parent batch) (sort_jobs jobs)))).
End Execute.

(** ** What a batch reports *)

(** One outcome per burst, in order and about that burst. *)
Definition outcome_of (bursts : list ProvenancedBurst) (i : nat) (o : JobOutcome) : Prop :=
  outcome_idx o = N.of_nat i /\
  match o with
  | Completed j => bursts !! i = Some (jr_burst j) /\ (jr_capture j = None <-> jr_verdict j = GuestCrash)
  | Abandoned _ _ => True
  end.
Definition jobs_ok (bursts : list ProvenancedBurst) (from : nat) (jobs : list JobOutcome) : Prop :=
  (from + length jobs = length bursts)%nat /\ forall i o, jobs !! i = Some o -> outcome_of bursts (from + i) o.

Definition all_completed (jobs : list JobOutcome) : Prop := Forall (fun o => match o with Completed _ => True | _ => False end) jobs.

Lemma sort_jobs_id bursts jobs : forall from, jobs_ok bursts from jobs -> sort_jobs jobs = jobs.
Proof.
  induction jobs as [|o jobs IH]; intros from [Hl Ho]; [done|].
  change (sort_jobs (o :: jobs)) with (insert_job o (sort_jobs jobs)).
  assert (jobs_ok bursts (S from) jobs) as Hrest.
  { split; [cbn in Hl; lia|]. intros i x Hx. specialize (Ho (S i) x Hx). by rewrite Nat.add_succ_r in Ho. }
  rewrite (IH _ Hrest). destruct jobs as [|x jobs]; [done|]. cbn.
  destruct (Ho 0%nat o eq_refl) as [E1 _], (Ho 1%nat x eq_refl) as [E2 _]. rewrite (proj2 (N.leb_le _ _)); [done|lia].
Qed.

Section Safety.
Context {W : Type} `{B3 : Blake3, WL : WorkerLaws W, JG : JobGauge W}.
Context (jobs_failed_law : forall w : W, w_ok w -> unchanged w (jobs_failed_inc w)).
Context (join_error_text : string) (config : DriverConfig) (fuel : nat) (policy : RetryPolicy) (cutoff : N -> N -> nat).

(** A proc that starts with nothing also runs when leases were given up. *)
Lemma psafe_spent {A} (p : proc W A) R (Q : res ClientError A -> Prop) : spent R ->
  psafe p rnone anything (fun r R' => spent R' /\ Q r) -> psafe p R anything (fun r R' => spent R' /\ Q r).
Proof.
  intros [HR1 HR2] Hp. apply (psafe_frame _ R) in Hp.
  apply (psafe_same _ (join_rsrc R rnone)); [split; cbn; [by rewrite app_nil_r|lia]|done| |].
  - intros r _ [[H1 H2] HQ]. cbn in *. rewrite app_nil_r in H2. split; [split; [done|done]|done].
  - eapply psafe_mono; [done| |exact Hp]. intros r R' (R1 & [[H1 H2] HQ] & ->). split; [|done].
    split; cbn; [lia|]. by apply Forall_app.
Qed.

Lemma job_attempts_safe spec remaining : forall attempt R, spent R ->
  psafe (job_attempts config fuel policy cutoff spec remaining attempt) R anything (fun r R' => spent R' /\ job_ok spec r).
Proof.
  induction remaining as [|n IH]; intros attempt R HR; cbn [job_attempts];
    (eapply psafe_then; [apply psafe_spent, run_job_deadline_safe; done|]);
    intros [j|e|] R' [HR' Hj]; try done; destruct (negb (is_retryable e)); try done.
  eapply psafe_bind; [by apply pause_safe| |by intros e' R1 [_ ?]|by intros R1 [_ ?]]. intros [] R1 [-> _]. by apply IH.
Qed.

Lemma count_failed_safe R : psafe (call (modify jobs_failed_inc)) R anything (fun r R' => R' = R /\ r = Ok tt).
Proof.
  split; [done|]. intros w Hw. exists R. split; [|done]. apply effect_unchanged; [done|]. apply jobs_failed_law, Hw.
Qed.

(** What the loop over the first pass yields from job [from] on. *)
Definition collect_post (mode : SchedMode) (bursts : list ProvenancedBurst) (seq : N) (from : nat)
    (r : res ClientError (list JobOutcome)) : Prop :=
  match r with
  | Ok jobs => jobs_ok bursts from jobs /\ (mode = Deterministic -> all_completed jobs)
  | Err e => mode = Deterministic /\ exists job_idx error, e = mkClientError Internal (exhausted_message seq job_idx error)
  | Panic => False
  end.

Lemma collect_cons mode bursts seq from o jobs : outcome_of bursts from o -> (mode = Deterministic -> match o with Completed _ => True | _ => False end) ->
  collect_post mode bursts seq (S from) (Ok jobs) -> collect_post mode bursts seq from (Ok (o :: jobs)).
Proof.
  intros Ho Hc [[Hl Hj] Ha]. split; [|intros Hm; constructor; [by apply Hc|by apply Ha]]. split; [cbn; lia|].
  intros [|i] x Hx; [injection Hx as <-; by rewrite Nat.add_0_r|]. rewrite Nat.add_succ_r. by apply (Hj i).
Qed.

Lemma job_ok_outcome spec j bursts i : job_ok spec (Ok j) -> js_job_idx spec = N.of_nat i -> bursts !! i = Some (js_burst spec) ->
  outcome_of bursts i (Completed j).
Proof.
  intros [_ Hj] Hi Hb. destruct (Hj j eq_refl) as (H1 & H2 & H3). split; [cbn; congruence|]. split; [by rewrite H2|done].
Qed.

(** The first pass from job [from] on. *)
Definition pass_ok (bursts : list ProvenancedBurst) (from : nat) (pass : list (N * res ClientError JobResult)) : Prop :=
  (from + length pass = length bursts)%nat /\ forall i o, pass !! i = Some o -> exists burst, bursts !! (from + i)%nat = Some burst /\
    o.1 = N.of_nat (from + i) /\ o.2 <> Panic /\
    forall j, o.2 = Ok j -> jr_job_idx j = N.of_nat (from + i) /\ jr_burst j = burst /\ (jr_capture j = None <-> jr_verdict j = GuestCrash).

Lemma pass_ok_tail bursts from o pass : pass_ok bursts from (o :: pass) -> pass_ok bursts (S from) pass.
Proof.
  intros [Hl Ho]. split; [cbn in Hl; lia|]. intros i x Hx. specialize (Ho (S i) x Hx). by rewrite Nat.add_succ_r in Ho.
Qed.

Lemma collect_jobs_safe mode batch pass : forall from R, spent R -> pass_ok (ba_bursts batch) from pass ->
  psafe (collect_jobs config fuel policy cutoff mode batch pass) R anything
    (fun r R' => spent R' /\ collect_post mode (ba_bursts batch) (ba_seq batch) from r).
Proof.
  induction pass as [|[job_idx outcome] pass IH]; intros from R HR Hp; cbn [collect_jobs].
  - destruct Hp as [Hl _]. cbn in Hl. split; [done|]. split; [split; [done|by intros ? ? ?]|by constructor].
  - pose proof (pass_ok_tail _ _ _ _ Hp) as Htail. destruct Hp as [Hl Ho].
    destruct (Ho 0%nat _ eq_refl) as (burst & Hb & Ei & Hn & Hj). rewrite Nat.add_0_r in *. cbn in Ei, Hn, Hj. subst job_idx.
    assert (forall o R1, spent R1 -> outcome_of (ba_bursts batch) from o -> (mode = Deterministic -> match o with Completed _ => True | _ => False end) ->
      psafe (jobs ← collect_jobs config fuel policy cutoff mode batch pass; mret (o :: jobs)) R1 anything
        (fun r R' => spent R' /\ collect_post mode (ba_bursts batch) (ba_seq batch) from r)) as Hrest.
    { intros o R1 HR1 Hout Hcomp. eapply psafe_bind; [by apply IH| |done|done]. intros jobs R2 [HR2 Hpost].
      split; [done|]. by apply collect_cons. }
    destruct outcome as [result|first_error|]; [| |done].
    { apply Hrest; [done| |done]. destruct (Hj result eq_refl) as (H1 & H2 & H3). split; [done|]. split; [by rewrite H2|done]. }
    assert (vec_get (ba_bursts batch) (N.of_nat from) = Some burst) as -> by (apply vec_get_Some; by rewrite Nat2N.id).
    set (spec := mkJobSpec (ba_seq batch) (N.of_nat from) (ba_parent_snapshot batch) (ba_required_class batch) burst).
    apply (psafe_bind _ _ _ _ (fun r R' => r = Ok burst /\ R' = R)); [done| |by intros e R' [? _]|by intros R' [? _]].
    intros b R' [[= ->] ->]. fold spec.
    eapply psafe_then; [by apply job_attempts_safe|]. intros [result|error|] R1 [HR1 Hok].
    + apply Hrest; [done| |done]. by apply (job_ok_outcome spec).
    + destruct mode; [|by split; [|split; [|exists (N.of_nat from), error]]].
      eapply psafe_bind; [apply count_failed_safe| |by intros e R2 [_ ?]|by intros R2 [_ ?]]. intros [] R2 [-> _].
      by apply Hrest.
    + by destruct Hok.
Qed.

Lemma pass_of_batch bursts outcome : batch_ok bursts outcome -> pass_ok bursts 0 outcome.
Proof.
  intros [Hl Ho]. split; [done|]. intros i o Hi. destruct (lookup_lt_is_Some_2 bursts i) as [burst Hb];
    [rewrite <- Hl; by eapply lookup_lt_Some|].
  exists burst. split; [done|]. by apply (Ho i burst o).
Qed.

(** What the execution of a batch returns. *)
Definition execute_ok (mode : SchedMode) (batch : Batch) (r : res ClientError BatchResult) : Prop :=
  match r with
  | Ok br => br_seq br = ba_seq batch /\ br_parent br = ba_parent batch /\ jobs_ok (ba_bursts batch) 0 (br_jobs br) /\
      (mode = Deterministic -> all_completed (br_jobs br))
  | Err e => mode = Deterministic /\ exists job_idx error, e = mkClientError Internal (exhausted_message (ba_seq batch) job_idx error)
  | Panic => False
  end.

Lemma execute_batch_safe mode batch : (N.of_nat (length (ba_bursts batch)) <= u32_max)%N ->
  tsafe (execute_batch join_error_text config fuel policy cutoff mode batch) rnone (fun r R' => spent R' /\ execute_ok mode batch r).
Proof.
  intros Hb. eapply tsafe_then; [by apply run_batch_safe|]. intros r R' (HR & outcome & -> & Hok%pass_of_batch).
  cbn [tsafe]. apply (psafe_bind _ _ _ _ (fun r R1 => r = Ok outcome /\ R1 = R')); [done| |by intros e R1 [? _]|by intros R1 [? _]].
  intros pass R1 [[= ->] ->]. eapply psafe_bind; [by apply collect_jobs_safe| |done|done].
  intros jobs R1 [HR1 [Hj Hc]]. split; [done|]. cbn. by rewrite (sort_jobs_id _ _ _ Hj).
Qed.

(** C18. Executing a batch: whatever the worker answers, however the jobs
    interleave, at whichever awaits deadlines pass and however often jobs are
    retried, an execution that ends reports in fast mode exactly one outcome
    per burst, in order (completed about that burst, or abandoned), and never
    fails; in deterministic mode it reports all jobs completed or fails with
    the retries-exhausted reason; it never panics, and it leaves no permit
    and no lease behind except leases nine calls failed to destroy. *)
Theorem execute_batch_outcomes (mode : SchedMode) (batch : Batch) (w w' : W) (r : res ClientError BatchResult) :
  (N.of_nat (length (ba_bursts batch)) <= u32_max)%N -> w_ok w ->
  rtc tstep (execute_batch join_error_text config fuel policy cutoff mode batch, w) (TProc (Done r), w') ->
  execute_ok mode batch r /\ left_behind w w'.
Proof.
  intros Hb Hw Hr. destruct (task_runs_safe _ _ _ _ _ _ _ _ (execute_batch_safe mode batch Hb) (start_account w Hw) Hr)
    as (R' & [Hs Ho] & Ha). split; [done|]. by eapply account_left_behind.
Qed.
End Safety.

(** Such a result is one the pipeline accepts from the batch. *)
Lemma execute_ok_result mode batch r : execute_ok mode batch r -> result_of batch r = true.
Proof. destruct r as [br|e|]; cbn; [|done|done]. intros (-> & -> & _). by rewrite !N.eqb_refl. Qed.

(** ** Witness *)

Global Instance world_gauge : JobGauge World := {|
  jobs_failed_inc := fun w => mkWorld (w_hv w) (w_view w) (w_clock w) (w_failed w) (w_jobs_failed w + 1) |}.

Lemma world_gauge_law (w : World) : w_ok w -> unchanged w (jobs_failed_inc w).
Proof. intros Hw. by split. Qed.

Definition sample_policy : RetryPolicy := mkRetryPolicy (from_millis 50) 2 (from_millis 1).
(** The second burst holds no frame, so its job is refused. *)
Definition sample_exec_batch : Batch :=
  mkBatch 7 3 sample_snapshot None [sample_burst 512 2; sample_burst 128 0; sample_burst 128 1].
Definition sample_execution : task World (N * res ClientError JobResult) BatchResult :=
  @execute_batch World toy_blake3 (@world_hypervisor toy_blake3 toy_encoding) world_runtime world_pool world_gauge "cancelled"
    sample_driver 5 sample_policy (fun _ _ => 100%nat) Fast sample_exec_batch.

Lemma sample_execution_runs : exists br w', exec sample_execution sample_world = Some (Ok br, w').
Proof.
  destruct (exec sample_execution sample_world) as [[[br|e|] w']|] eqn:E; [by eexists _, _|exfalso..];
    apply (f_equal (fun o => match o with Some (Ok _, _) => true | _ => false end)) in E; by vm_compute in E.
Qed.

Lemma execute_batch_outcomes_witness : exists br w',
  rtc tstep (sample_execution, sample_world) (TProc (Done (Ok br)), w') /\
  jobs_ok (ba_bursts sample_exec_batch) 0 (br_jobs br) /\ left_behind sample_world w'.
Proof.
  destruct sample_execution_runs as (br & w' & E). exists br, w'. apply exec_rtc in E. split; [exact E|].
  destruct (execute_batch_outcomes (B3:=toy_blake3) (WL:=@world_laws toy_blake3 toy_encoding) (JG:=world_gauge)
    world_gauge_law
    "cancelled" sample_driver 5 sample_policy (fun _ _ => 100%nat) Fast sample_exec_batch sample_world w' (Ok br))
    as [(_ & _ & H & _) H2]; [done|apply sample_world_ok|exact E|]. split; [exact H|exact H2].
Defined.
