(* ===== verification/StoreTypes.v ===== *)
(** The node part of the snapshot-store boundary
    (crates/orch-clients/src/snapshot_store.rs): node rows, requests and their
    validation, and the interface [NodeStore] the orchestrator calls. *)
From S2P Require Import Prelude Float64 Types Client.
Local Open Scope string_scope.
Local Open Scope list_scope.

Abbreviation InputLogId := (list N) (only parsing).
(** The opaque attribute bytes of a node. *)
Abbreviation NodeAttrs := (list N) (only parsing).

Definition INPUT_LOG_ID_LEN : nat := 32.
Definition ATTRS_MAX_BYTES : N := 16 * 1024 * 1024.

Definition NodeAttrs_validate (attrs : NodeAttrs) : res ClientError unit :=
  if (ATTRS_MAX_BYTES <? N.of_nat (length attrs))%N
  then Err (mkClientError InvalidRequest "node attrs exceed 16 MiB") else Ok tt.
Definition NodeAttrs_new (bytes : list N) : res ClientError NodeAttrs :=
  if (ATTRS_MAX_BYTES <? N.of_nat (length bytes))%N
  then Err (mkClientError InvalidRequest "node attrs exceed 16 MiB") else Ok bytes.

(** ** Rows *)

Record NodeMeta := mkNodeMeta {
  nm_experiment_id : string;
  nm_node_id : NodeId;
  nm_parent_node_id : option NodeId;
  nm_depth : N;
  nm_snapshot_ref : SnapshotRef;
  nm_input_log_id : option InputLogId;
  nm_status : NodeStatus;
  nm_progress_score : Score;
  nm_novelty_score : Novelty;
  nm_visit_count : N;
  nm_expand_count : N;
  nm_last_visited_at : N;
  nm_created_at : N;
  nm_updated_at : N;
  nm_attrs : NodeAttrs
}.
Global Instance NodeMeta_eq_dec : EqDecision NodeMeta.
Proof. solve_decision. Defined.

(** ** Requests *)

Record CreateNodeRequest := mkCreateNodeRequest {
  cn_experiment_id : string;
  cn_node_id : NodeId;
  cn_parent_node_id : option NodeId;
  cn_snapshot_ref : SnapshotRef;
  cn_input_log_id : option InputLogId;
  cn_status : NodeStatus;
  cn_progress_score : Score;
  cn_novelty_score : Novelty;
  cn_attrs : NodeAttrs;
  cn_input_log_container : option (list N)
}.

Definition is_some {A} (o : option A) : bool := match o with Some _ => true | None => false end.

Definition CreateNodeRequest_validate (r : CreateNodeRequest) : res ClientError unit :=
  _ ← (if NodeId_is_root (cn_node_id r) then
         if is_some (cn_parent_node_id r) then Err (mkClientError InvalidRequest "root node must not have a parent")
         else if is_some (cn_input_log_id r) || is_some (cn_input_log_container r)
         then Err (mkClientError InvalidRequest "root node must not have an input log")
         else Ok tt
       else if is_some (cn_parent_node_id r) then Ok tt
       else Err (mkClientError InvalidRequest "non-root node must have a parent"));
  if is_some (cn_input_log_id r) && is_some (cn_input_log_container r)
  then Err (mkClientError InvalidRequest "input_log_id and input_log_container are mutually exclusive")
  else if negb (NodeId_is_root (cn_node_id r)) && negb (is_some (cn_input_log_id r))
          && negb (is_some (cn_input_log_container r))
  then Err (mkClientError InvalidRequest "non-root node must provide an input log id or inline log container")
  else NodeAttrs_validate (cn_attrs r).

Record NodeUpdate := mkNodeUpdate {
  nu_node_id : NodeId;
  nu_status : option NodeStatus;
  nu_progress_score : option Score;
  nu_novelty_score : option Novelty;
  nu_visit_count_delta : N;
  nu_expand_count_delta : N;
  nu_touch_visited : bool;
  nu_attrs : option NodeAttrs
}.

Record UpdateNodesRequest := mkUpdateNodesRequest {
  un_experiment_id : string;
  un_updates : list NodeUpdate
}.
Record UpdateNodesResponse := mkUpdateNodesResponse { unr_updated_at : N; unr_applied : N }.

Record NodeRequest := mkNodeRequest { nq_experiment_id : string; nq_node_id : NodeId }.
Record GetPathRequest := mkGetPathRequest {
  gp_experiment_id : string;
  gp_node_id : NodeId;
  gp_include_input_logs : bool
}.
Record GetPathResponse := mkGetPathResponse {
  gpr_nodes : list NodeMeta;
  gpr_input_log_containers : list (list N)
}.

Inductive OrderBy := CreatedAt | ProgressDesc | NoveltyDesc.

Record QueryNodesRequest := mkQueryNodesRequest {
  qn_experiment_id : string;
  qn_statuses : list NodeStatus;
  qn_min_progress : option Score;
  qn_max_progress : option Score;
  qn_min_novelty : option Novelty;
  qn_min_depth : option N;
  qn_max_depth : option N;
  qn_created_after : option N;
  qn_updated_after : option N;
  qn_order_by : OrderBy;
  qn_limit : option N
}.

Definition resume_created_after (created_at : N) (r : QueryNodesRequest) : QueryNodesRequest :=
  mkQueryNodesRequest (qn_experiment_id r) (qn_statuses r) (qn_min_progress r) (qn_max_progress r) (qn_min_novelty r)
    (qn_min_depth r) (qn_max_depth r) (Some created_at) (qn_updated_after r) (qn_order_by r) (qn_limit r).
Definition resume_updated_after (updated_at : N) (r : QueryNodesRequest) : QueryNodesRequest :=
  mkQueryNodesRequest (qn_experiment_id r) (qn_statuses r) (qn_min_progress r) (qn_max_progress r) (qn_min_novelty r)
    (qn_min_depth r) (qn_max_depth r) (qn_created_after r) (Some updated_at) (qn_order_by r) (qn_limit r).

Record PruneSubtreeRequest := mkPruneSubtreeRequest {
  ps_experiment_id : string;
  ps_node_id : NodeId;
  ps_allow_root : bool
}.

(** ** The interface

    [get_node] and [get_children] take the node, [create_node] and the
    listings return rows. *)
Class NodeStore (W : Type) := {
  create_node : CreateNodeRequest -> st W ClientError NodeMeta;
  update_nodes : UpdateNodesRequest -> st W ClientError UpdateNodesResponse;
  get_node : NodeRequest -> st W ClientError NodeMeta;
  get_children : NodeRequest -> st W ClientError (list NodeMeta);
  get_path : GetPathRequest -> st W ClientError GetPathResponse;
  query_nodes : QueryNodesRequest -> st W ClientError (list NodeMeta);
  prune_subtree : PruneSubtreeRequest -> st W ClientError N
}.
