(* ===== verification/NodeTable.v ===== *)
(** The node part of the in-memory snapshot store
    (crates/orch-fakes/src/snapshot_store.rs): the rows of each experiment
    with their child index, the logical clock, and the seven node calls with
    their injected faults.  The metadata part is in [MetaStore]. *)
From S2P Require Import Prelude Float64 Types Client Fault Mirror Frontier Rng StoreTypes.
From stdpp Require Import pretty.
Local Open Scope string_scope.
Local Open Scope list_scope.

(** ** State *)

Record StoredNode := mkStoredNode {
  sn_meta : NodeMeta;
  sn_input_log_container : option (list N)
}.

Record ExperimentStore := mkExperimentStore {
  es_nodes : gmap NodeId StoredNode;
  es_children : gmap NodeId (list NodeId)
}.
Definition ExperimentStore_default : ExperimentStore := mkExperimentStore ∅ ∅.

Record SnapshotStore := mkSnapshotStore {
  ss_experiments : gmap string ExperimentStore;
  ss_fault_injector : FaultInjector;
  ss_last_fault : option FaultDecision;
  ss_logical_clock : N
}.
Definition with_fault_plan (plan : FaultPlan) : SnapshotStore := mkSnapshotStore ∅ (injector_new plan) None 0.

Definition set_experiment (experiment_id : string) (e : ExperimentStore) (s : SnapshotStore) : SnapshotStore :=
  mkSnapshotStore (<[experiment_id := e]> (ss_experiments s)) (ss_fault_injector s) (ss_last_fault s) (ss_logical_clock s).
Definition set_clock (t : N) (s : SnapshotStore) : SnapshotStore :=
  mkSnapshotStore (ss_experiments s) (ss_fault_injector s) (ss_last_fault s) t.
Definition set_injector (i : FaultInjector) (d : option FaultDecision) (s : SnapshotStore) : SnapshotStore :=
  mkSnapshotStore (ss_experiments s) i d (ss_logical_clock s).

(** [postcard::to_allocvec] of each request, the identity of a fault draw. *)
Class StoreEncoding := {
  enc_create_node : CreateNodeRequest -> list N;
  enc_update_nodes : UpdateNodesRequest -> list N;
  enc_get_node : NodeRequest -> list N;
  enc_get_children : NodeRequest -> list N;
  enc_get_path : GetPathRequest -> list N;
  enc_query_nodes : QueryNodesRequest -> list N;
  enc_prune_subtree : PruneSubtreeRequest -> list N
}.

(** ** Rows *)

Definition same_immutable_create_identity (n : StoredNode) (r : CreateNodeRequest) (log : option InputLogId) : bool :=
  bool_decide (nm_parent_node_id (sn_meta n) = cn_parent_node_id r)
  && bool_decide (nm_snapshot_ref (sn_meta n) = cn_snapshot_ref r)
  && bool_decide (nm_input_log_id (sn_meta n) = log).

Definition insert_node (n : StoredNode) (e : ExperimentStore) : ExperimentStore :=
  let id := nm_node_id (sn_meta n) in
  let children := <[id := default [] (es_children e !! id)]> (es_children e) in
  let children := match nm_parent_node_id (sn_meta n) with
                  | Some parent => <[parent := sort_ids (default [] (children !! parent) ++ [id])]> children
                  | None => children
                  end in
  mkExperimentStore (<[id := n]> (es_nodes e)) children.

(** The stack loop of [subtree_ids]: [None] when the fuel runs out first. *)
Fixpoint subtree_loop (fuel : nat) (children : gmap NodeId (list NodeId)) (stack : list NodeId) (out : list NodeId)
    : option (list NodeId) :=
  match stack with
  | [] => Some out
  | id :: stack =>
    match fuel with
    | O => None
    | S fuel => subtree_loop fuel children (default [] (children !! id) ++ stack) (out ++ [id])
    end
  end.
Definition subtree_ids (root : NodeId) (e : ExperimentStore) : option (list NodeId) :=
  subtree_loop (size (es_nodes e)) (es_children e) [root] [].

Definition nonzero_add (a delta : N) (error : ClientError) : res ClientError N :=
  if (delta =? 0)%N then Ok a else ok_or (checked_add u64_max a delta) error.

Definition apply_update (u : NodeUpdate) (updated_at : N) (n : StoredNode) : res ClientError StoredNode :=
  let m := sn_meta n in
  visits ← nonzero_add (nm_visit_count m) (nu_visit_count_delta u) (mkClientError Internal "visit count overflow");
  expands ← nonzero_add (nm_expand_count m) (nu_expand_count_delta u) (mkClientError Internal "expand count overflow");
  Ok (mkStoredNode
        (mkNodeMeta (nm_experiment_id m) (nm_node_id m) (nm_parent_node_id m) (nm_depth m) (nm_snapshot_ref m)
           (nm_input_log_id m) (default (nm_status m) (nu_status u)) (default (nm_progress_score m) (nu_progress_score u))
           (default (nm_novelty_score m) (nu_novelty_score u)) visits expands
           (if nu_touch_visited u then updated_at else nm_last_visited_at m) (nm_created_at m) updated_at
           (default (nm_attrs m) (nu_attrs u)))
        (sn_input_log_container n)).

(** The status change of [prune_subtree]. *)
Definition prune_node (updated_at : N) (n : StoredNode) : StoredNode :=
  let m := sn_meta n in
  mkStoredNode
    (mkNodeMeta (nm_experiment_id m) (nm_node_id m) (nm_parent_node_id m) (nm_depth m) (nm_snapshot_ref m)
       (nm_input_log_id m) StPruned (nm_progress_score m) (nm_novelty_score m) (nm_visit_count m) (nm_expand_count m)
       (nm_last_visited_at m) (nm_created_at m) updated_at (nm_attrs m))
    (sn_input_log_container n).

(** ** Queries *)

Definition is_none_or {A} (o : option A) (f : A -> bool) : bool := match o with Some a => f a | None => true end.
Definition finite_leb (a b : FiniteF64) : bool := match FiniteF64_cmp a b with Gt => false | _ => true end.

Definition query_matches (n : NodeMeta) (r : QueryNodesRequest) : bool :=
  (bool_decide (qn_statuses r = []) || bool_decide (nm_status n ∈ qn_statuses r))
  && is_none_or (qn_min_progress r) (fun m => finite_leb m (nm_progress_score n))
  && is_none_or (qn_max_progress r) (fun m => finite_leb (nm_progress_score n) m)
  && is_none_or (qn_min_novelty r) (fun m => finite_leb m (nm_novelty_score n))
  && is_none_or (qn_min_depth r) (fun d => d <=? nm_depth n)%N
  && is_none_or (qn_max_depth r) (fun d => nm_depth n <=? d)%N
  && is_none_or (qn_created_after r) (fun t => t <? nm_created_at n)%N
  && is_none_or (qn_updated_after r) (fun t => t <? nm_updated_at n)%N.

(** [Ordering::then_with]. *)
Definition then_with (a b : comparison) : comparison := match a with Eq => b | c => c end.

Definition query_compare (order : OrderBy) (a b : NodeMeta) : comparison :=
  let by_creation := then_with (nm_created_at a ?= nm_created_at b)%N (nm_node_id a ?= nm_node_id b)%N in
  match order with
  | CreatedAt => by_creation
  | ProgressDesc => then_with (FiniteF64_cmp (nm_progress_score b) (nm_progress_score a)) by_creation
  | NoveltyDesc => then_with (FiniteF64_cmp (nm_novelty_score b) (nm_novelty_score a)) by_creation
  end.
Definition query_le (order : OrderBy) (a b : NodeMeta) : Prop := query_compare order a b <> Gt.
Global Instance query_le_dec order a b : Decision (query_le order a b).
Proof. unfold query_le. apply _. Defined.

(** [nodes.values()] of an ordered map. *)
Definition nodes_in_order (m : gmap NodeId StoredNode) : list StoredNode :=
  snd <$> sorted_listing N.le m.

(** ** The calls *)

Section Calls.
Context `{B3 : Blake3, ENC : StoreEncoding}.

Definition draw_fault (operation : string) (identity : list N) (response_items : N)
    : st SnapshotStore ClientError FaultDecision := fun s =>
  match fault_decide (mkFaultRequest TargetSnapshotStore operation identity) response_items (ss_fault_injector s) with
  | (Ok d, i) =>
    (match client_error (fd_terminal d) with Some e => Err e | None => Ok d end, set_injector i (Some d) s)
  | (_, i) => (Panic, set_injector i (ss_last_fault s) s)
  end.

(** A fallible read of the state. *)
Definition look_res {A} (f : SnapshotStore -> res ClientError A) : st SnapshotStore ClientError A := fun s => (f s, s).

Definition tick : st SnapshotStore ClientError N := fun s =>
  match checked_add u64_max (ss_logical_clock s) 1 with
  | Some t => (Ok t, set_clock t s)
  | None => (Err (mkClientError Internal "snapshot-store clock overflow"), s)
  end.

Definition experiment (experiment_id : string) (s : SnapshotStore) : res ClientError ExperimentStore :=
  ok_or (ss_experiments s !! experiment_id) (mkClientError NotFound "experiment not found").

Definition node (experiment_id : string) (node_id : NodeId) (s : SnapshotStore) : res ClientError StoredNode :=
  e ← experiment experiment_id s;
  ok_or (es_nodes e !! node_id) (mkClientError NotFound "node not found").

(** An inline container ends with the digest of what comes before it. *)
Definition resolved_input_log_id (r : CreateNodeRequest) : res ClientError (option InputLogId) :=
  match cn_input_log_id r, cn_input_log_container r with
  | Some id, _ => Ok (Some id)
  | None, None => Ok None
  | None, Some container =>
    if (length container <? 32)%nat then Err (mkClientError InvalidRequest "input log container is missing footer")
    else
      let canonical_len := (length container - 32)%nat in
      let expected := blake3 (take canonical_len container) in
      if decide (drop canonical_len container = expected) then Ok (Some expected)
      else Err (mkClientError InvalidRequest "input log container footer mismatch")
  end.

(** The parent of a node to create: there and not pruned. *)
Definition check_parent (r : CreateNodeRequest) (s : SnapshotStore) : res ClientError unit :=
  if NodeId_is_root (cn_node_id r) then Ok tt
  else
    parent ← expect (cn_parent_node_id r);
    e ← ok_or (ss_experiments s !! cn_experiment_id r) (mkClientError NotFound "parent experiment not found");
    match es_nodes e !! parent with
    | None => Err (mkClientError NotFound "parent node not found")
    | Some p => if decide (nm_status (sn_meta p) = StPruned)
                then Err (mkClientError FailedPrecondition "parent node is pruned") else Ok tt
    end.

Definition existing_node (r : CreateNodeRequest) (s : SnapshotStore) : option StoredNode :=
  e ← ss_experiments s !! cn_experiment_id r; es_nodes e !! cn_node_id r.

Definition node_depth (r : CreateNodeRequest) (s : SnapshotStore) : res ClientError N :=
  let parent_depth := default 0%N
    (parent ← cn_parent_node_id r; e ← ss_experiments s !! cn_experiment_id r;
     nm_depth ∘ sn_meta <$> es_nodes e !! parent) in
  if NodeId_is_root (cn_node_id r) then Ok 0%N
  else ok_or (checked_add u64_max parent_depth 1) (mkClientError Internal "node depth overflow").

Definition new_node (r : CreateNodeRequest) (log : option InputLogId) (depth created_at : N) : NodeMeta :=
  mkNodeMeta (cn_experiment_id r) (cn_node_id r) (cn_parent_node_id r) depth (cn_snapshot_ref r) log (cn_status r)
    (cn_progress_score r) (cn_novelty_score r) 0 0 0 created_at created_at (cn_attrs r).

Definition fake_create_node (r : CreateNodeRequest) : st SnapshotStore ClientError NodeMeta :=
  _ ← draw_fault "create_node" (enc_create_node r) 0;
  _ ← lift_res (CreateNodeRequest_validate r);
  log ← lift_res (resolved_input_log_id r);
  existing ← gets (existing_node r);
  match existing with
  | Some n =>
    if same_immutable_create_identity n r log then mret (sn_meta n)
    else lift_res (Err (mkClientError AlreadyExists "node id already exists with different immutable create data"))
  | None =>
    s ← get_st;
    _ ← lift_res (check_parent r s);
    created_at ← tick;
    depth ← lift_res (node_depth r s);
    let meta := new_node r log depth created_at in
    _ ← modify (fun s => set_experiment (cn_experiment_id r)
          (insert_node (mkStoredNode meta (cn_input_log_container r))
             (default ExperimentStore_default (ss_experiments s !! cn_experiment_id r))) s);
    mret meta
  end.

(** Known nodes and small attributes, in the order of the updates. *)
Definition check_update (e : ExperimentStore) (u : NodeUpdate) : res ClientError unit :=
  match es_nodes e !! nu_node_id u with
  | None => Err (mkClientError NotFound "node not found")
  | Some _ => match nu_attrs u with Some attrs => NodeAttrs_validate attrs | None => Ok tt end
  end.

(** Later updates of a node see the earlier ones. *)
Fixpoint stage_updates (updates : list NodeUpdate) (updated_at : N) (nodes staged : gmap NodeId StoredNode)
    : res ClientError (gmap NodeId StoredNode) :=
  match updates with
  | [] => Ok staged
  | u :: rest =>
    current ← match staged !! nu_node_id u with
              | Some n => Ok n
              | None => expect (nodes !! nu_node_id u)
              end;
    n ← apply_update u updated_at current;
    stage_updates rest updated_at nodes (<[nm_node_id (sn_meta n) := n]> staged)
  end.

Definition fake_update_nodes (r : UpdateNodesRequest) : st SnapshotStore ClientError UpdateNodesResponse :=
  _ ← draw_fault "update_nodes" (enc_update_nodes r) 0;
  s ← get_st;
  if decide (un_updates r = []) then mret (mkUpdateNodesResponse (ss_logical_clock s) 0)
  else
    e ← lift_res (experiment (un_experiment_id r) s);
    _ ← lift_res (mapM_res (check_update e) (un_updates r));
    let applied := N.of_nat (length (un_updates r)) in
    _ ← lift_res (if (u32_max <? applied)%N then Err (mkClientError InvalidRequest "too many node updates") else Ok tt);
    updated_at ← lift_res (ok_or (checked_add u64_max (ss_logical_clock s) 1)
                             (mkClientError Internal "snapshot-store clock overflow"));
    staged ← lift_res (stage_updates (un_updates r) updated_at (es_nodes e) ∅);
    _ ← modify (set_clock updated_at);
    _ ← modify (set_experiment (un_experiment_id r) (mkExperimentStore (staged ∪ es_nodes e) (es_children e)));
    mret (mkUpdateNodesResponse updated_at applied).

Definition fake_get_node (r : NodeRequest) : st SnapshotStore ClientError NodeMeta :=
  _ ← draw_fault "get_node" (enc_get_node r) 0;
  n ← look_res (node (nq_experiment_id r) (nq_node_id r));
  mret (sn_meta n).

Definition fake_get_children (r : NodeRequest) : st SnapshotStore ClientError (list NodeMeta) :=
  e ← look_res (experiment (nq_experiment_id r));
  ids ← lift_res (ok_or (es_children e !! nq_node_id r) (mkClientError NotFound "node not found"));
  decision ← draw_fault "get_children" (enc_get_children r) (N.of_nat (length ids) mod 2 ^ 32);
  let children := sn_meta <$> omap (fun id => es_nodes e !! id) ids in
  mret (take (truncate_len decision (length children)) children).

(** The walk from a node to the root; [Panic] when the fuel runs out. *)
Fixpoint path_loop (fuel : nat) (nodes : gmap NodeId StoredNode) (current : NodeId) (path : list NodeId)
    : res ClientError (list NodeId) :=
  match fuel with
  | O => Panic
  | S fuel =>
    n ← ok_or (nodes !! current) (mkClientError NotFound "node not found");
    match nm_parent_node_id (sn_meta n) with
    | Some parent => path_loop fuel nodes parent (path ++ [current])
    | None => Ok (path ++ [current])
    end
  end.

Definition fake_get_path (r : GetPathRequest) : st SnapshotStore ClientError GetPathResponse :=
  e ← look_res (experiment (gp_experiment_id r));
  ids ← lift_res (path_loop (S (size (es_nodes e))) (es_nodes e) (gp_node_id r) []);
  let path_ids := reverse ids in
  decision ← draw_fault "get_path" (enc_get_path r) (N.of_nat (length path_ids) mod 2 ^ 32);
  let path_ids := take (truncate_len decision (length path_ids)) path_ids in
  nodes ← lift_res (mapM_res (fun id => expect (es_nodes e !! id)) path_ids);
  mret (mkGetPathResponse (sn_meta <$> nodes)
          (if gp_include_input_logs r then omap sn_input_log_container nodes else [])).

Definition fake_query_nodes (r : QueryNodesRequest) : st SnapshotStore ClientError (list NodeMeta) :=
  e ← look_res (experiment (qn_experiment_id r));
  let nodes := filter (fun n => query_matches n r = true) (sn_meta <$> nodes_in_order (es_nodes e)) in
  let nodes := merge_sort (query_le (qn_order_by r)) nodes in
  let nodes := match qn_limit r with Some limit => take (N.to_nat limit) nodes | None => nodes end in
  decision ← draw_fault "query_nodes" (enc_query_nodes r) (N.of_nat (length nodes) mod 2 ^ 32);
  mret (take (truncate_len decision (length nodes)) nodes).

Definition fake_prune_subtree (r : PruneSubtreeRequest) : st SnapshotStore ClientError N :=
  _ ← draw_fault "prune_subtree" (enc_prune_subtree r) 0;
  _ ← lift_res (if NodeId_is_root (ps_node_id r) && negb (ps_allow_root r)
                then Err (mkClientError FailedPrecondition "root prune requires allow_root") else Ok tt);
  e ← look_res (experiment (ps_experiment_id r));
  _ ← lift_res (ok_or (es_nodes e !! ps_node_id r) (mkClientError NotFound "node not found"));
  subtree ← lift_res (expect (subtree_ids (ps_node_id r) e));
  updated_at ← tick;
  _ ← lift_res (mapM_res (fun id => expect (es_nodes e !! id)) subtree);
  _ ← modify (set_experiment (ps_experiment_id r)
        (mkExperimentStore (foldl (fun m id => alter (prune_node updated_at) id m) (es_nodes e) subtree) (es_children e)));
  mret (N.of_nat (length subtree)).

Global Instance fake_node_store : NodeStore SnapshotStore := {|
  create_node := fake_create_node;
  update_nodes := fake_update_nodes;
  get_node := fake_get_node;
  get_children := fake_get_children;
  get_path := fake_get_path;
  query_nodes := fake_query_nodes;
  prune_subtree := fake_prune_subtree
|}.
End Calls.
