(* ===== verification/NodeTableWf.v ===== *)
(** The invariant of the node table of the in-memory snapshot store, for any
    sequence of calls and any injected faults: rows sit under their own id,
    every parent exists and is older, depths grow by one, and the child index
    is exactly the inverse of the parent links.  From it: paths to the root,
    exact subtree pruning, atomic updates and idempotent creation. *)
From S2P Require Import Prelude Float64 Types Client Fault Mirror Frontier Rng StoreTypes NodeTable.
Local Open Scope list_scope.

Lemma filter_everything {A} (P : A -> Prop) `{!forall x, Decision (P x)} (l : list A) : (forall x, P x) -> filter P l = l.
Proof. intros HP. induction l as [|x l IH]; [done|]. rewrite filter_cons, decide_True by done. by rewrite IH. Qed.

Definition parent_of (n : StoredNode) : option NodeId := nm_parent_node_id (sn_meta n).
Definition created (n : StoredNode) : N := nm_created_at (sn_meta n).

(** [c] is a child of [p]. *)
Definition child_of (e : ExperimentStore) (p c : NodeId) : Prop :=
  exists n, es_nodes e !! c = Some n /\ parent_of n = Some p.

Record exp_wf (name : string) (clock : N) (e : ExperimentStore) : Prop := {
  ew_id id n : es_nodes e !! id = Some n -> nm_node_id (sn_meta n) = id /\ nm_experiment_id (sn_meta n) = name;
  ew_root id n : es_nodes e !! id = Some n -> parent_of n = None <-> id = ROOT;
  ew_parent id n p : es_nodes e !! id = Some n -> parent_of n = Some p ->
    exists q, es_nodes e !! p = Some q /\ nm_depth (sn_meta n) = (nm_depth (sn_meta q) + 1)%N /\ (created q < created n)%N;
  ew_times id n : es_nodes e !! id = Some n -> (0 < created n <= nm_updated_at (sn_meta n) /\ nm_updated_at (sn_meta n) <= clock)%N;
  ew_created a b n m : es_nodes e !! a = Some n -> es_nodes e !! b = Some m -> created n = created m -> a = b;
  ew_children id : match es_children e !! id with
                   | Some cs => is_Some (es_nodes e !! id) /\ StronglySorted N.lt cs /\ forall c, c ∈ cs <-> child_of e id c
                   | None => es_nodes e !! id = None
                   end
}.

Definition store_wf (s : SnapshotStore) : Prop := map_Forall (fun name e => exp_wf name (ss_logical_clock s) e) (ss_experiments s).

(** ** Faults do not touch the rows *)

Definition same_rows (s s' : SnapshotStore) : Prop :=
  ss_experiments s' = ss_experiments s /\ ss_logical_clock s' = ss_logical_clock s.

Section Frame.
Context `{B3 : Blake3, ENC : StoreEncoding}.

Lemma draw_fault_rows op identity n s : same_rows s (draw_fault op identity n s).2.
Proof. unfold draw_fault. by destruct (fault_decide _ _ _) as [[d|e|] i]. Qed.

Lemma draw_fault_bind {A} op identity n (k : FaultDecision -> st SnapshotStore ClientError A) s r s' :
  (draw_fault op identity n ≫= k) s = (r, s') ->
  (exists d s1, same_rows s s1 /\ draw_fault op identity n s = (Ok d, s1) /\ k d s1 = (r, s')) \/
  (same_rows s s' /\ (r = Panic \/ exists d e, r = Err e /\ client_error (fd_terminal d) = Some e)).
Proof.
  pose proof (draw_fault_rows op identity n s) as Hs. unfold draw_fault in *. rewrite st_bind_run.
  destruct (fault_decide _ _ _) as [[d|e|] i]; cbn in *; [destruct (client_error _) as [e|] eqn:E|..]; cbn; intros H; simplify_eq; eauto 10.
Qed.
End Frame.

(** ** Creation *)

Lemma exp_wf_later name t t' e : exp_wf name t e -> (t <= t')%N -> exp_wf name t' e.
Proof. intros [H1 H2 H3 H4 H5 H6] Ht. split; [done..| |done|done]. intros id n Hn. specialize (H4 id n Hn). lia. Qed.

Lemma exp_wf_default name t : exp_wf name t ExperimentStore_default.
Proof. split; cbn; intros *; rewrite ?lookup_empty; try done. Qed.

Lemma StronglySorted_sort_fresh (l : list N) x : StronglySorted N.lt l -> x ∉ l -> StronglySorted N.lt (sort_ids (l ++ [x])).
Proof.
  intros Hl Hx. apply StronglySorted_lt_of_le; [apply sort_ids_sorted|]. rewrite sort_ids_perm.
  apply NoDup_app. split; [|split; [set_solver|apply NoDup_singleton]].
  clear Hx. induction Hl as [|y l Hl IH Hy]; constructor; [|done]. intros Hin. rewrite Forall_forall in Hy. specialize (Hy y Hin). lia.
Qed.

(** What the index of the store with a fresh row looks like. *)
Lemma insert_node_lookup e n i : let id := nm_node_id (sn_meta n) in
  es_children e !! id = None -> parent_of n <> Some id -> (forall p, parent_of n = Some p -> is_Some (es_children e !! p)) ->
  es_children (insert_node n e) !! i =
    if decide (i = id) then Some []
    else if decide (parent_of n = Some i) then (fun cs => sort_ids (cs ++ [id])) <$> es_children e !! i
    else es_children e !! i.
Proof.
  intros id Hid Hp Hs. unfold insert_node. fold id. cbn [es_children]. rewrite Hid. cbn [default].
  change (nm_parent_node_id (sn_meta n)) with (parent_of n). destruct (parent_of n) as [p|] eqn:Ep.
  - assert (id <> p) as Hne by congruence. destruct (Hs p eq_refl) as [cs Hcs].
    rewrite (lookup_insert_ne _ id p) by done. rewrite Hcs. cbn [default]. rewrite lookup_insert. destruct (decide (p = i)) as [->|Hpi].
    + rewrite decide_False by done. rewrite decide_True by done. by rewrite Hcs.
    + rewrite lookup_insert. destruct (decide (id = i)) as [->|]; [by rewrite decide_True|].
      rewrite decide_False by done. by rewrite decide_False by congruence.
  - rewrite lookup_insert. destruct (decide (id = i)) as [->|]; [by rewrite decide_True|]. by rewrite decide_False by done.
Qed.

Lemma insert_node_child_of e n p c : es_nodes e !! nm_node_id (sn_meta n) = None ->
  child_of (insert_node n e) p c <-> child_of e p c \/ c = nm_node_id (sn_meta n) /\ parent_of n = Some p.
Proof.
  intros Hnew. unfold child_of. cbn. rewrite lookup_insert. case_decide; subst; naive_solver.
Qed.

Lemma insert_node_index name t e n : exp_wf name t e -> let id := nm_node_id (sn_meta n) in
  es_nodes e !! id = None -> (forall p, parent_of n = Some p -> is_Some (es_nodes e !! p)) -> forall i,
  match es_children (insert_node n e) !! i with
  | Some cs => is_Some (es_nodes (insert_node n e) !! i) /\ StronglySorted N.lt cs /\ forall c, c ∈ cs <-> child_of (insert_node n e) i c
  | None => es_nodes (insert_node n e) !! i = None
  end.
Proof.
  intros Hwf id Hnew Hp i.
  assert (forall j, is_Some (es_nodes e !! j) -> is_Some (es_children e !! j)) as Hsome.
  { intros j Hj. pose proof (ew_children _ _ _ Hwf j) as Hc. destruct (es_children e !! j); [by eexists|]. by destruct Hj; congruence. }
  assert (es_children e !! id = None) as Hidx.
  { pose proof (ew_children _ _ _ Hwf id) as Hc. destruct (es_children e !! id); [|done]. destruct Hc as [[? ?] _]; congruence. }
  rewrite insert_node_lookup; [|done|intros [q Hq]%Hp; unfold id in Hnew; congruence|intros q Hq; by apply Hsome, Hp].
  fold id. cbn [es_nodes insert_node]. fold id. rewrite lookup_insert. destruct (decide (i = id)) as [->|Hi].
  - rewrite decide_True by done. split; [by eexists|]. split; [constructor|]. intros c. rewrite insert_node_child_of by done.
    split; [by intros ?%elem_of_nil|]. intros [(x & Hx & E)|[_ E]].
    + destruct (ew_parent _ _ _ Hwf _ _ _ Hx E) as (q & ? & _). congruence.
    + destruct (Hp _ E) as [q Hq]. fold id in Hnew. congruence.
  - rewrite (decide_False (P := id = i)) by congruence. pose proof (ew_children _ _ _ Hwf i) as Hc. destruct (decide (parent_of n = Some i)) as [E|E].
    + destruct (Hsome _ (Hp _ E)) as [cs Hcs]. rewrite Hcs in *. cbn. destruct Hc as (Hi' & Hs & Hel). split; [done|]. split.
      * apply StronglySorted_sort_fresh; [done|]. rewrite Hel. intros (x & Hx & _). fold id in Hx. congruence.
      * intros c. rewrite sort_ids_perm, elem_of_app, Hel, list_elem_of_singleton, insert_node_child_of by done. fold id. naive_solver.
    + destruct (es_children e !! i); [|done]. destruct Hc as (Hi' & Hs & Hel). split; [done|]. split; [done|].
      intros c. rewrite Hel, insert_node_child_of by done. naive_solver.
Qed.

(** A fresh row under an existing parent, or the first root. *)
Lemma insert_node_wf name t e n : exp_wf name t e -> let m := sn_meta n in let id := nm_node_id m in
  es_nodes e !! id = None -> nm_experiment_id m = name -> (parent_of n = None <-> id = ROOT) ->
  (forall p, parent_of n = Some p -> exists q, es_nodes e !! p = Some q /\ nm_depth m = (nm_depth (sn_meta q) + 1)%N) ->
  created n = (t + 1)%N -> nm_updated_at m = (t + 1)%N ->
  exp_wf name (t + 1)%N (insert_node n e).
Proof.
  intros Hwf m id Hnew Hname Hroot Hp Hc Hu. pose proof Hwf as [H1 H2 H3 H4 H5 _].
  assert (forall p, parent_of n = Some p -> p <> id) as Hpid by (intros p E ->; destruct (Hp _ E) as (? & ? & _); congruence).
  split; [..|apply (insert_node_index _ _ _ _ Hwf Hnew); naive_solver]; cbn [es_nodes insert_node]; fold m id.
  - intros i x [[<- <-]|[_ Hx]]%lookup_insert_Some; [done|by apply H1].
  - intros i x [[<- <-]|[_ Hx]]%lookup_insert_Some; [done|by apply H2].
  - intros i x p [[<- <-]|[Hi Hx]]%lookup_insert_Some E.
    + destruct (Hp p E) as (q & Hq & Hd). exists q. rewrite lookup_insert_ne by (symmetry; by apply Hpid).
      specialize (H4 p q Hq). split_and!; [done|done|lia].
    + destruct (H3 _ _ _ Hx E) as (q & Hq & Hd). exists q. rewrite lookup_insert_ne by congruence. done.
  - intros i x [[<- <-]|[_ Hx]]%lookup_insert_Some; [fold m; lia|]. specialize (H4 _ _ Hx). lia.
  - intros a b x y [[<- <-]|[_ Hx]]%lookup_insert_Some [[<- <-]|[_ Hy]]%lookup_insert_Some E; [done|..].
    + specialize (H4 _ _ Hy). lia.
    + specialize (H4 _ _ Hx). lia.
    + by eapply H5.
Qed.

(** ** Updates *)

(** What no update of a row changes. *)
Definition row_frame (n : StoredNode) : string * NodeId * option NodeId * N * N :=
  (nm_experiment_id (sn_meta n), nm_node_id (sn_meta n), parent_of n, nm_depth (sn_meta n), created n).

Definition updated_to (clock : N) (n n' : StoredNode) : Prop :=
  row_frame n' = row_frame n /\ (nm_updated_at (sn_meta n) <= nm_updated_at (sn_meta n') <= clock)%N.

(** Replacing rows by updated ones keeps the invariant. *)
Lemma exp_wf_updated name t t' e nodes' : exp_wf name t e -> (t <= t')%N ->
  (forall id, option_Forall2 (updated_to t') (es_nodes e !! id) (nodes' !! id)) ->
  exp_wf name t' (mkExperimentStore nodes' (es_children e)).
Proof.
  intros Hwf Ht Hup. pose proof Hwf as [H1 H2 H3 H4 H5 H6].
  assert (forall id n', nodes' !! id = Some n' -> exists n, es_nodes e !! id = Some n /\ updated_to t' n n') as Hback.
  { intros id n' E. specialize (Hup id). rewrite E in Hup. inversion Hup as [x y Hxy Ex Ey|]; subst. by exists x. }
  assert (forall id n, es_nodes e !! id = Some n -> exists n', nodes' !! id = Some n' /\ updated_to t' n n') as Hforth.
  { intros id n E. specialize (Hup id). rewrite E in Hup. inversion Hup as [x y Hxy Ex Ey|]; subst. by exists y. }
  assert (forall p c, child_of (mkExperimentStore nodes' (es_children e)) p c <-> child_of e p c) as Hco.
  { intros p c. unfold child_of. cbn. split.
    - intros (n' & (n & Hn & [[=] _])%Hback & E). exists n. split; congruence.
    - intros (n & (n' & Hn & [[=] _])%Hforth & E). exists n'. split; congruence. }
  split; cbn [es_nodes es_children].
  - intros id n' (n & Hn & [[=] _])%Hback. destruct (H1 _ _ Hn). split; congruence.
  - intros id n' (n & Hn & [[= E1 E2 E3 E4 E5] _])%Hback. rewrite E3. by apply H2.
  - intros id n' p (n & Hn & [[= E1 E2 E3 E4 E5] _])%Hback E. rewrite E3 in E. destruct (H3 _ _ _ Hn E) as (q & Hq & Hd & Hlt).
    destruct (Hforth _ _ Hq) as (q' & Hq' & [[= F1 F2 F3 F4 F5] _]). exists q'. split_and!; [done|congruence|congruence].
  - intros id n' (n & Hn & [[= E1 E2 E3 E4 E5] Hu])%Hback. specialize (H4 _ _ Hn). rewrite E5. lia.
  - intros a b n' m' (n & Hn & [[= E1 E2 E3 E4 E5] _])%Hback (m & Hm & [[= F1 F2 F3 F4 F5] _])%Hback. rewrite E5, F5. by apply (H5 _ _ _ _ Hn).
  - intros id. specialize (H6 id). destruct (es_children e !! id) as [cs|].
    + destruct H6 as ([n Hn] & Hs & Hel). destruct (Hforth _ _ Hn) as (n' & Hn' & _). split; [by eexists|]. split; [done|].
      intros c. by rewrite Hco.
    + destruct (nodes' !! id) as [n'|] eqn:E; [|done]. destruct (Hback _ _ E) as (n & ? & _). congruence.
Qed.

Lemma apply_update_row u t n n' : apply_update u t n = Ok n' -> row_frame n' = row_frame n /\ nm_updated_at (sn_meta n') = t.
Proof. unfold apply_update. intros (v & _ & (x & _ & [= <-])%bind_Ok)%bind_Ok. done. Qed.

Lemma stage_updates_rows updates t (nodes staged staged' : gmap NodeId StoredNode) :
  map_Forall (fun id n => nm_node_id (sn_meta n) = id) nodes ->
  map_Forall (fun id n' => exists n, nodes !! id = Some n /\ row_frame n' = row_frame n /\ nm_updated_at (sn_meta n') = t) staged ->
  stage_updates updates t nodes staged = Ok staged' ->
  map_Forall (fun id n' => exists n, nodes !! id = Some n /\ row_frame n' = row_frame n /\ nm_updated_at (sn_meta n') = t) staged'.
Proof.
  intros Hid. revert staged. induction updates as [|u rest IH]; intros staged Hst; [by intros [= <-]|].
  cbn [stage_updates]. intros (cur & Hcur & (n & [Hf Hu]%apply_update_row & Hrest)%bind_Ok)%bind_Ok.
  eapply (IH _ _ Hrest). Unshelve. apply map_Forall_insert_2; [|done].
  assert (exists n0, nodes !! nu_node_id u = Some n0 /\ row_frame cur = row_frame n0) as (n0 & Hn0 & Hr).
  { destruct (staged !! nu_node_id u) as [x|] eqn:Ex.
    - injection Hcur as <-. destruct (Hst _ _ Ex) as (n0 & ? & ? & _). by exists n0.
    - destruct (nodes !! nu_node_id u) as [x|] eqn:E; [|done]. injection Hcur as <-. by exists x. }
  exists n0. rewrite Hf, Hr. split; [|done]. pose proof (Hid _ _ Hn0) as Hk. cbn in Hk.
  unfold row_frame in Hf, Hr. injection Hf as _ -> _ _ _. injection Hr as _ -> _ _ _. by rewrite Hk.
Qed.

(** ** The calls keep the invariant *)

Lemma same_rows_wf s s' : same_rows s s' -> store_wf s -> store_wf s'.
Proof. intros [He Hc] Hwf. unfold store_wf. by rewrite He, Hc. Qed.

Lemma store_wf_exp s name : store_wf s ->
  exp_wf name (ss_logical_clock s) (default ExperimentStore_default (ss_experiments s !! name)).
Proof.
  intros Hwf. destruct (ss_experiments s !! name) as [e|] eqn:E; [by apply Hwf|apply exp_wf_default].
Qed.

(** A new clock and one experiment changed. *)
Lemma store_wf_set s name e t : store_wf s -> (ss_logical_clock s <= t)%N -> exp_wf name t e ->
  store_wf (set_experiment name e (set_clock t s)).
Proof.
  intros Hwf Ht He. unfold store_wf. cbn. apply map_Forall_insert_2; [done|].
  intros n x Hx. eapply exp_wf_later; [by apply Hwf|done].
Qed.

Lemma store_wf_clock s t : store_wf s -> (ss_logical_clock s <= t)%N -> store_wf (set_clock t s).
Proof. intros Hwf Ht n x Hx. eapply exp_wf_later; [by apply Hwf|done]. Qed.

Lemma look_res_bind {A B} (f : SnapshotStore -> res ClientError A) (k : A -> st SnapshotStore ClientError B) s r s' :
  (look_res f ≫= k) s = (r, s') -> (exists a, f s = Ok a /\ k a s = (r, s')) \/ (s' = s /\ forall a, r <> Ok a).
Proof. rewrite st_bind_run. unfold look_res. destruct (f s); intros H; simplify_eq; naive_solver. Qed.

Lemma lift_res_bind {A B} (m : res ClientError A) (k : A -> st SnapshotStore ClientError B) s r s' :
  (lift_res m ≫= k) s = (r, s') -> (exists a, m = Ok a /\ k a s = (r, s')) \/ (s' = s /\ (forall a, r <> Ok a) /\ (m = Panic -> r = Panic)).
Proof. rewrite st_bind_run. unfold lift_res. destruct m; intros H; simplify_eq; naive_solver. Qed.

Lemma tick_bind {B} (k : N -> st SnapshotStore ClientError B) s r s' : (tick ≫= k) s = (r, s') ->
  (k (ss_logical_clock s + 1)%N (set_clock (ss_logical_clock s + 1)%N s) = (r, s')) \/ (s' = s /\ forall a, r <> Ok a).
Proof.
  rewrite st_bind_run. unfold tick, checked_add. case_decide; intros E; simplify_eq; naive_solver.
Qed.

Section Calls.
Context `{B3 : Blake3, ENC : StoreEncoding}.

Lemma validate_parent r : CreateNodeRequest_validate r = Ok tt -> cn_parent_node_id r = None <-> cn_node_id r = ROOT.
Proof.
  unfold CreateNodeRequest_validate. intros (? & H & _)%bind_Ok. unfold NodeId_is_root in H.
  destruct (N.eqb_spec (cn_node_id r) ROOT), (cn_parent_node_id r); cbn in H; naive_solver.
Qed.

Lemma check_parent_Ok r s p : check_parent r s = Ok tt -> cn_node_id r <> ROOT -> cn_parent_node_id r = Some p ->
  exists e q, ss_experiments s !! cn_experiment_id r = Some e /\ es_nodes e !! p = Some q /\ nm_status (sn_meta q) <> StPruned.
Proof.
  unfold check_parent, NodeId_is_root. intros H Hid Hp. rewrite (proj2 (N.eqb_neq _ _) Hid), Hp in H. cbn in H.
  destruct (ss_experiments s !! cn_experiment_id r) as [e|]; [|done]. cbn in H.
  destruct (es_nodes e !! p) as [q|] eqn:E; [|done]. case_decide; [done|]. by exists e, q.
Qed.

Lemma node_depth_Ok r s e p q d : node_depth r s = Ok d -> cn_node_id r <> ROOT -> cn_parent_node_id r = Some p ->
  ss_experiments s !! cn_experiment_id r = Some e -> es_nodes e !! p = Some q -> d = (nm_depth (sn_meta q) + 1)%N.
Proof.
  unfold node_depth, NodeId_is_root. intros H Hid Hp He Hq. rewrite (proj2 (N.eqb_neq _ _) Hid), Hp in H. cbn in H.
  rewrite He in H. cbn in H. rewrite Hq in H. cbn in H.
  destruct (checked_add _ _ _) as [x|] eqn:E; [|done]. apply checked_add_Some in E as [_ ->]. by injection H as <-.
Qed.

(** What a creation does: nothing on an error but a tick, nothing when the
    node is there, one fresh row otherwise. *)
Definition with_row (name : string) (n : StoredNode) (s : SnapshotStore) : SnapshotStore :=
  set_experiment name (insert_node n (default ExperimentStore_default (ss_experiments s !! name)))
    (set_clock (ss_logical_clock s + 1)%N s).

Definition rows (s : SnapshotStore) (name : string) : gmap NodeId StoredNode :=
  es_nodes (default ExperimentStore_default (ss_experiments s !! name)).

(** Only faults were drawn and the clock was advanced. *)
Definition quiet (s s' : SnapshotStore) : Prop :=
  ss_experiments s' = ss_experiments s /\ (ss_logical_clock s <= ss_logical_clock s')%N.
Lemma same_rows_quiet s s' : same_rows s s' -> quiet s s'.
Proof. intros [? E]. split; [done|lia]. Qed.
Lemma quiet_trans s1 s2 s3 : quiet s1 s2 -> quiet s2 s3 -> quiet s1 s3.
Proof. intros [? ?] [? ?]. split; [congruence|lia]. Qed.
Lemma quiet_wf s s' : quiet s s' -> store_wf s -> store_wf s'.
Proof. intros [He Hc] Hwf. unfold store_wf. rewrite He. intros n x Hx. eapply exp_wf_later; [by apply Hwf|done]. Qed.

Inductive created_row (r : CreateNodeRequest) (s : SnapshotStore) : res ClientError NodeMeta -> SnapshotStore -> Prop :=
| create_failed out s' : quiet s s' -> (forall m, out <> Ok m) -> created_row r s out s'
| create_again n log s' : quiet s s' -> resolved_input_log_id r = Ok log -> rows s (cn_experiment_id r) !! cn_node_id r = Some n ->
    same_immutable_create_identity n r log = true -> created_row r s (Ok (sn_meta n)) s'
| create_new log depth s1 : same_rows s s1 -> CreateNodeRequest_validate r = Ok tt -> resolved_input_log_id r = Ok log ->
    rows s (cn_experiment_id r) !! cn_node_id r = None ->
    check_parent r s1 = Ok tt -> node_depth r s1 = Ok depth ->
    let n := mkStoredNode (new_node r log depth (ss_logical_clock s + 1)) (cn_input_log_container r) in
    created_row r s (Ok (sn_meta n)) (with_row (cn_experiment_id r) n s1).

Lemma fake_create_node_cases r s : created_row r s (fake_create_node r s).1 (fake_create_node r s).2.
Proof.
  destruct (fake_create_node r s) as [out s'] eqn:E. cbn. unfold fake_create_node in E.
  apply draw_fault_bind in E as [(d & s1 & Hs & _ & E)|(Hs%same_rows_quiet & Ho)];
    [|by apply create_failed; [|destruct Ho as [->|(? & ? & -> & _)]]].
  pose proof (same_rows_quiet _ _ Hs) as Hq.
  apply lift_res_bind in E as [([] & Hv & E)|(-> & Ho & _)]; [|by apply create_failed].
  apply lift_res_bind in E as [(log & Hl & E)|(-> & Ho & _)]; [|by apply create_failed].
  rewrite gets_bind in E.
  assert (existing_node r s1 = rows s (cn_experiment_id r) !! cn_node_id r) as Hex.
  { unfold existing_node, rows. rewrite (proj1 Hs). by destruct (ss_experiments s !! cn_experiment_id r). }
  rewrite Hex in E. destruct (rows s (cn_experiment_id r) !! cn_node_id r) as [n|] eqn:En.
  - destruct (same_immutable_create_identity n r log) eqn:Ei; injection E as <- <-; [by eapply create_again|by apply create_failed].
  - rewrite st_bind_run in E. cbn in E.
    apply lift_res_bind in E as [([] & Hp & E)|(-> & Ho & _)]; [|by apply create_failed].
    apply tick_bind in E as [E|(-> & Ho)]; [|by apply create_failed].
    apply lift_res_bind in E as [(depth & Hd & E)|(-> & Ho & _)].
    + injection E as <- <-. pose proof (create_new r s log depth s1 Hs Hv Hl En Hp Hd) as H. by rewrite <- (proj2 Hs) in H.
    + apply create_failed; [|done]. destruct Hs as [He Hc]. split; [done|]. cbn. lia.
Qed.

Lemma created_row_wf r s out s' : store_wf s -> created_row r s out s' -> store_wf s'.
Proof.
  intros Hwf [out' s2 Hq Ho|n log s2 Hq _ _ _|log depth s1 Hs Hv Hl Hn Hp Hd n]; [by eapply quiet_wf..|].
  pose proof (same_rows_wf _ _ Hs Hwf) as Hwf1. pose proof (validate_parent _ Hv) as Hr.
  unfold with_row. apply store_wf_set; [done|lia|]. apply insert_node_wf; cbn.
  - by apply store_wf_exp.
  - unfold rows in Hn. by rewrite (proj1 Hs).
  - done.
  - by unfold parent_of.
  - intros p E. unfold parent_of in E. cbn in E. assert (cn_node_id r <> ROOT) as Hid by (rewrite <- Hr; congruence).
    destruct (check_parent_Ok _ _ _ Hp Hid E) as (e & q & He & Hq & _). rewrite He. cbn. exists q. split; [done|].
    by eapply node_depth_Ok.
  - destruct Hs as [_ ->]. done.
  - destruct Hs as [_ ->]. done.
Qed.

(** *** Updates *)

(** The updates of one row, in order. *)
Fixpoint apply_all (updates : list NodeUpdate) (updated_at : N) (n : StoredNode) : res ClientError StoredNode :=
  match updates with
  | [] => Ok n
  | u :: rest => n' ← apply_update u updated_at n; apply_all rest updated_at n'
  end.

Lemma stage_updates_apply updates t (nodes staged staged' : gmap NodeId StoredNode) :
  map_Forall (fun id n => nm_node_id (sn_meta n) = id) nodes -> map_Forall (fun id n => nm_node_id (sn_meta n) = id) staged ->
  stage_updates updates t nodes staged = Ok staged' -> forall id n, nodes !! id = Some n ->
  apply_all (filter (fun u => nu_node_id u = id) updates) t (default n (staged !! id)) = Ok (default n (staged' !! id)).
Proof.
  intros Hn. revert staged. induction updates as [|u rest IH]; intros staged Hs; [by intros [= ->]|].
  cbn [stage_updates]. intros (cur & Hcur & (m & Hm & Hrest)%bind_Ok)%bind_Ok id n Hid.
  assert (nm_node_id (sn_meta m) = nu_node_id u) as Hk.
  { apply apply_update_row in Hm as [Hf _]. unfold row_frame in Hf. injection Hf as _ -> _ _ _.
    destruct (staged !! nu_node_id u) as [x|] eqn:E; [injection Hcur as <-; by apply Hs|].
    destruct (nodes !! nu_node_id u) as [x|] eqn:E2; [|done]. injection Hcur as <-. by apply Hn. }
  rewrite Hk in Hrest. specialize (IH (<[nu_node_id u := m]> staged)). specialize (fun H => IH H Hrest id n Hid).
  rewrite filter_cons. case_decide as Hu.
  - rewrite <- Hu. cbn [apply_all]. rewrite <- Hu, lookup_insert_eq in IH. rewrite Hu in Hcur, IH |- *.
    replace (default n (staged !! id)) with cur.
    + rewrite Hm. cbn. rewrite <- Hu. rewrite <- Hu in IH. cbn in IH. rewrite IH; [done|]. apply map_Forall_insert_2; [congruence|done].
    + destruct (staged !! id); cbn; [congruence|]. rewrite Hid in Hcur. cbn in Hcur. congruence.
  - rewrite lookup_insert_ne in IH by done. apply IH. by apply map_Forall_insert_2.
Qed.

(** An update fails without an effect on any row, or applies to every row its
    updates in order. *)
Inductive updated_rows (r : UpdateNodesRequest) (s : SnapshotStore) : res ClientError UpdateNodesResponse -> SnapshotStore -> Prop :=
| update_failed out s' : same_rows s s' -> (forall x, out <> Ok x) -> updated_rows r s out s'
| update_nothing x s' : same_rows s s' -> un_updates r = [] -> updated_rows r s (Ok x) s'
| update_done e staged s1 : same_rows s s1 -> un_updates r <> [] -> ss_experiments s !! un_experiment_id r = Some e ->
    let t := (ss_logical_clock s + 1)%N in
    mapM_res (check_update e) (un_updates r) <> Panic ->
    stage_updates (un_updates r) t (es_nodes e) ∅ = Ok staged ->
    updated_rows r s (Ok (mkUpdateNodesResponse t (N.of_nat (length (un_updates r)))))
      (set_experiment (un_experiment_id r) (mkExperimentStore (staged ∪ es_nodes e) (es_children e)) (set_clock t s1)).

Lemma fake_update_nodes_cases r s : updated_rows r s (fake_update_nodes r s).1 (fake_update_nodes r s).2.
Proof.
  destruct (fake_update_nodes r s) as [out s'] eqn:E. cbn. unfold fake_update_nodes in E.
  apply draw_fault_bind in E as [(d & s1 & Hs & _ & E)|(Hs & Ho)]; [|by apply update_failed; [|destruct Ho as [->|(? & ? & -> & _)]]].
  rewrite st_bind_run in E. cbn in E. case_decide as Hu; [injection E as <- <-; by apply update_nothing|].
  apply lift_res_bind in E as [(e & He & E)|(-> & Ho & _)]; [|by apply update_failed].
  apply lift_res_bind in E as [(us & Hus & E)|(-> & Ho & _)]; [|by apply update_failed].
  apply lift_res_bind in E as [(? & _ & E)|(-> & Ho & _)]; [|by apply update_failed].
  apply lift_res_bind in E as [(t & Ht & E)|(-> & Ho & _)]; [|by apply update_failed].
  apply lift_res_bind in E as [(staged & Hst & E)|(-> & Ho & _)]; [|by apply update_failed].
  injection E as <- <-. destruct (checked_add _ _ _) as [t'|] eqn:Hx; [|done]. apply checked_add_Some in Hx as [_ ->].
  injection Ht as <-. unfold experiment in He. rewrite (proj1 Hs) in He. destruct (ss_experiments s !! un_experiment_id r) as [e'|] eqn:He'; [|done].
  injection He as ->. rewrite (proj2 Hs) in *. apply (update_done r s e staged s1); [done|done|done|by rewrite Hus|done].
Qed.

Lemma updated_rows_wf r s out s' : store_wf s -> updated_rows r s out s' -> store_wf s'.
Proof.
  intros Hwf [o s2 Hs Ho|x s2 Hs _|e staged s1 Hs _ He t _ Hst]; [by eapply same_rows_wf..|].
  pose proof (Hwf _ _ He) as Hexp. cbn in Hexp. apply store_wf_set; [by eapply same_rows_wf|destruct Hs as [_ ->]; lia|].
  eapply exp_wf_updated; [exact Hexp|lia|]. intros id.
  assert (map_Forall (fun i n => nm_node_id (sn_meta n) = i) (es_nodes e)) as Hids by (intros i n Hn; by apply (ew_id _ _ _ Hexp)).
  pose proof (stage_updates_rows _ _ _ _ _ Hids (map_Forall_empty _) Hst) as Hrows.
  rewrite lookup_union. destruct (staged !! id) as [n'|] eqn:En.
  - destruct (Hrows _ _ En) as (n & Hn & Hf & Hu). rewrite Hn, union_Some_l. constructor. split; [done|].
    pose proof (ew_times _ _ _ Hexp _ _ Hn). lia.
  - destruct (es_nodes e !! id) as [n|] eqn:Hn; constructor. split; [done|].
    pose proof (ew_times _ _ _ Hexp _ _ Hn). lia.
Qed.

(** *** Subtrees *)

Definition descendant (e : ExperimentStore) : NodeId -> NodeId -> Prop := rtc (child_of e).

Section Subtree.
Context (name : string) (t : N) (e : ExperimentStore) (Hwf : exp_wf name t e).

Lemma child_index p c : c ∈ default [] (es_children e !! p) <-> child_of e p c.
Proof.
  pose proof (ew_children _ _ _ Hwf p) as Hc. destruct (es_children e !! p) as [cs|]; cbn; [by apply Hc|].
  split; [by intros ?%elem_of_nil|]. intros (n & Hn & E). destruct (ew_parent _ _ _ Hwf _ _ _ Hn E) as (q & ? & _). congruence.
Qed.

Lemma child_index_NoDup p : NoDup (default [] (es_children e !! p)).
Proof.
  pose proof (ew_children _ _ _ Hwf p) as Hc. destruct (es_children e !! p) as [cs|]; cbn; [|constructor].
  destruct Hc as (_ & Hs & _). clear -Hs. induction Hs as [|y l Hl IH Hy]; constructor; [|done].
  intros Hin. rewrite Forall_forall in Hy. specialize (Hy y Hin). lia.
Qed.

(** Children are younger. *)
Lemma child_younger p c n m : child_of e p c -> es_nodes e !! p = Some n -> es_nodes e !! c = Some m -> (created n < created m)%N.
Proof.
  intros (x & Hx & E) Hn Hm. destruct (ew_parent _ _ _ Hwf _ _ _ Hx E) as (q & Hq & _ & Hlt). simplify_eq. lia.
Qed.

Lemma child_unique_parent p q c : child_of e p c -> child_of e q c -> p = q.
Proof. intros (n & Hn & E) (m & Hm & F). congruence. Qed.

(** The state of the stack loop. *)
Record subtree_inv (root : NodeId) (rn : StoredNode) (stack out : list NodeId) : Prop := {
  si_NoDup : NoDup (out ++ stack);
  si_root : root ∈ out ++ stack;
  si_from x : x ∈ out ++ stack -> x = root \/ exists p, p ∈ out /\ child_of e p x;
  si_closed p c : p ∈ out -> child_of e p c -> c ∈ out ++ stack;
  si_rows x : x ∈ out ++ stack -> descendant e root x /\ exists n, es_nodes e !! x = Some n /\ (created rn <= created n)%N
}.

Lemma subtree_inv_step root rn id stack out : es_nodes e !! root = Some rn ->
  subtree_inv root rn (id :: stack) out -> subtree_inv root rn (default [] (es_children e !! id) ++ stack) (out ++ [id]).
Proof.
  intros Hrn [H1 H2 H3 H4 H5].
  destruct (H5 id) as (Hdid & nid & Hnid & Hcid); [set_solver|].
  assert (forall c, child_of e id c -> c ∉ out ++ id :: stack) as Hfresh.
  { intros c Hc Hin. destruct (H3 c Hin) as [->|(p & Hp & Hpc)].
    - pose proof (child_younger _ _ _ _ Hc Hnid Hrn). lia.
    - rewrite (child_unique_parent _ _ _ Hpc Hc) in Hp. apply NoDup_app in H1 as (_ & H1 & _). apply (H1 id Hp). set_solver. }
  assert (forall x, x ∈ (out ++ [id]) ++ default [] (es_children e !! id) ++ stack <-> x ∈ out ++ id :: stack \/ child_of e id x) as Hel.
  { intros x. rewrite <- child_index. set_solver. }
  split.
  - assert ((out ++ [id]) ++ default [] (es_children e !! id) ++ stack ≡ₚ (out ++ id :: stack) ++ default [] (es_children e !! id)) as ->
      by (rewrite <- !app_assoc; cbn; by rewrite (Permutation_app_comm (default _ _) stack)).
    apply NoDup_app. split; [done|]. split; [|apply child_index_NoDup]. intros c Hc Hin%child_index. by apply (Hfresh c).
  - apply Hel. by left.
  - intros x [Hx|Hx]%Hel.
    + destruct (H3 x Hx) as [?|(p & Hp & Hpx)]; [by left|]. right. exists p. set_solver.
    + right. exists id. set_solver.
  - intros p c [Hp| ->%list_elem_of_singleton]%elem_of_app Hc; apply Hel; [left; by eapply H4|by right].
  - intros x [Hx|Hx]%Hel; [by apply H5|]. pose proof Hx as (m & Hm & E). split; [by eapply rtc_r|].
    exists m. split; [done|]. pose proof (child_younger _ _ _ _ Hx Hnid Hm). lia.
Qed.

Lemma subtree_loop_spec root rn : es_nodes e !! root = Some rn -> forall fuel stack out,
  subtree_inv root rn stack out -> (size (es_nodes e) <= fuel + length out)%nat ->
  exists l, subtree_loop fuel (es_children e) stack out = Some l /\ subtree_inv root rn [] l.
Proof.
  intros Hrn fuel. induction fuel as [|fuel IH]; intros stack out Hinv Hf; destruct stack as [|id stack]; cbn [subtree_loop]; [by eexists| |by eexists|].
  - exfalso. pose proof (si_NoDup _ _ _ _ Hinv) as Hn.
    assert (length (out ++ id :: stack) <= size (dom (es_nodes e)))%nat as Hl.
    { rewrite <- (size_list_to_set (C := gset N)) by done. apply subseteq_size. intros x Hx%elem_of_list_to_set.
      destruct (si_rows _ _ _ _ Hinv x Hx) as (_ & n & Hn' & _). by apply elem_of_dom_2 in Hn'. }
    rewrite size_dom, length_app in Hl. cbn in Hl. lia.
  - apply IH; [by apply subtree_inv_step|]. rewrite length_app. cbn. lia.
Qed.

Lemma subtree_ids_spec root rn : es_nodes e !! root = Some rn ->
  exists l, subtree_ids root e = Some l /\ NoDup l /\ forall x, x ∈ l <-> descendant e root x.
Proof.
  intros Hrn. destruct (subtree_loop_spec root rn Hrn (size (es_nodes e)) [root] []) as (l & Hl & Hinv); [|cbn; lia|].
  - split; cbn; [apply NoDup_singleton|set_solver|set_solver|by intros p c ?%elem_of_nil|].
    intros x ->%list_elem_of_singleton. split; [by apply rtc_refl|]. by exists rn.
  - exists l. split; [done|]. destruct Hinv as [H1 H2 H3 H4 H5]. rewrite app_nil_r in *. split; [done|]. intros x. split.
    + intros Hx. by apply H5.
    + intros Hd. revert x Hd. apply rtc_ind_r; [done|]. intros x y _ Hc IH. by apply (H4 _ _ IH Hc).
Qed.

(** The path from the root to a node, by parent links. *)
Inductive path_to : NodeId -> list NodeId -> Prop :=
| path_root : is_Some (es_nodes e !! ROOT) -> path_to ROOT [ROOT]
| path_child p c l : path_to p l -> child_of e p c -> path_to c (l ++ [c]).

Lemma path_to_created id l : path_to id l -> exists n, es_nodes e !! id = Some n /\ NoDup l /\ id ∈ l /\
  forall x, x ∈ l -> exists m, es_nodes e !! x = Some m /\ (created m <= created n)%N.
Proof.
  induction 1 as [[n Hn]|p c l Hp (n & Hn & Hd & Hin & Hel) Hc].
  - exists n. split_and!; [done|apply NoDup_singleton|set_solver|]. intros x ->%list_elem_of_singleton. by exists n.
  - pose proof Hc as (m & Hm & E). pose proof (child_younger _ _ _ _ Hc Hn Hm) as Hlt. exists m. split_and!; [done| |set_solver|].
    + apply NoDup_app. split; [done|]. split; [|apply NoDup_singleton]. intros x Hx ->%list_elem_of_singleton.
      destruct (Hel _ Hx) as (y & Hy & Hle). simplify_eq. lia.
    + intros x [Hx|Hx]%elem_of_app; [|apply list_elem_of_singleton in Hx as ->; by exists m].
      destruct (Hel _ Hx) as (y & Hy & Hle). exists y. split; [done|lia].
Qed.

Lemma path_exists id n : es_nodes e !! id = Some n -> exists l, path_to id l.
Proof.
  remember (N.to_nat (created n)) as k eqn:Hk. revert id n Hk. induction k as [k IH] using lt_wf_ind. intros id n Hk Hn.
  destruct (parent_of n) as [p|] eqn:E.
  - destruct (ew_parent _ _ _ Hwf _ _ _ Hn E) as (q & Hq & Hd & Hlt).
    destruct (IH (N.to_nat (created q))) with (id := p) (n := q) as [l Hl]; [lia|done|done|].
    exists (l ++ [id]). apply path_child with p; [done|]. by exists n.
  - exists [ROOT]. apply (ew_root _ _ _ Hwf _ _ Hn) in E. subst. constructor. by eexists.
Qed.

(** The walk upwards, with one unit of fuel per row of the path. *)
Lemma path_loop_run id l : path_to id l -> forall fuel acc, (length l <= fuel)%nat ->
  path_loop fuel (es_nodes e) id acc = Ok (acc ++ reverse l).
Proof.
  induction 1 as [[n Hn]|p c l Hp IH (m & Hm & E)]; intros [|fuel] acc Hf; cbn in Hf; try lia.
  - cbn. rewrite Hn. cbn. pose proof (ew_root _ _ _ Hwf _ _ Hn) as [_ Hr]. unfold parent_of in Hr. by rewrite Hr.
  - rewrite length_app in Hf. cbn in Hf. lia.
  - cbn [path_loop]. rewrite Hm. cbn. unfold parent_of in E. rewrite E, IH by (rewrite length_app in Hf; cbn in Hf; lia).
    by rewrite reverse_snoc, <- app_assoc.
Qed.

Lemma path_length id l : path_to id l -> (length l <= size (es_nodes e))%nat.
Proof.
  intros Hp. destruct (path_to_created _ _ Hp) as (n & _ & Hd & _ & Hel).
  rewrite <- size_dom, <- (size_list_to_set (C := gset N)) by done. apply subseteq_size. intros x Hx%elem_of_list_to_set.
  destruct (Hel x Hx) as (m & Hm & _). by apply elem_of_dom_2 in Hm.
Qed.
End Subtree.

(** *** Pruning *)

Lemma prune_rows t (l : list NodeId) (m : gmap NodeId StoredNode) id : NoDup l ->
  foldl (fun m id => alter (prune_node t) id m) m l !! id = if decide (id ∈ l) then prune_node t <$> m !! id else m !! id.
Proof.
  revert m. induction l as [|x l IH]; intros m Hd; cbn [foldl]; [by rewrite decide_False by set_solver|].
  apply NoDup_cons in Hd as [Hx Hd]. rewrite IH by done. destruct (decide (x = id)) as [->|Hne].
  - rewrite decide_False by done. by rewrite decide_True, lookup_alter_eq by set_solver.
  - rewrite lookup_alter_ne by done. destruct (decide (id ∈ l)); [by rewrite decide_True by set_solver|].
    by rewrite decide_False by set_solver.
Qed.

Inductive pruned_rows (r : PruneSubtreeRequest) (s : SnapshotStore) : res ClientError N -> SnapshotStore -> Prop :=
| prune_failed out s' : quiet s s' -> (forall x, out <> Ok x) -> pruned_rows r s out s'
| prune_done e l s1 : same_rows s s1 -> ss_experiments s !! ps_experiment_id r = Some e ->
    is_Some (es_nodes e !! ps_node_id r) -> NoDup l -> (forall x, x ∈ l <-> descendant e (ps_node_id r) x) ->
    let t := (ss_logical_clock s + 1)%N in
    pruned_rows r s (Ok (N.of_nat (length l))) (set_experiment (ps_experiment_id r)
      (mkExperimentStore (foldl (fun m id => alter (prune_node t) id m) (es_nodes e) l) (es_children e)) (set_clock t s1)).

Lemma fake_prune_subtree_cases r s : store_wf s -> pruned_rows r s (fake_prune_subtree r s).1 (fake_prune_subtree r s).2.
Proof.
  intros Hwf. destruct (fake_prune_subtree r s) as [out s'] eqn:E. cbn. unfold fake_prune_subtree in E.
  apply draw_fault_bind in E as [(d & s1 & Hs & _ & E)|(Hs%same_rows_quiet & Ho)];
    [|by apply prune_failed; [|destruct Ho as [->|(? & ? & -> & _)]]].
  pose proof (same_rows_quiet _ _ Hs) as Hq.
  apply lift_res_bind in E as [(? & _ & E)|(-> & Ho & _)]; [|by apply prune_failed].
  apply look_res_bind in E as [(e & He & E)|(-> & Ho)]; [|by apply prune_failed].
  apply lift_res_bind in E as [(n & Hn & E)|(-> & Ho & _)]; [|by apply prune_failed].
  unfold experiment in He. rewrite (proj1 Hs) in He. destruct (ss_experiments s !! ps_experiment_id r) as [e'|] eqn:He'; [|done].
  injection He as ->. destruct (es_nodes e !! ps_node_id r) as [n'|] eqn:Hn'; [|done].
  destruct (subtree_ids_spec _ _ _ (Hwf _ _ He') _ _ Hn') as (l & Hl & Hd & Hel). rewrite Hl in E.
  apply lift_res_bind in E as [(l' & [= <-] & E)|(-> & Ho & _)]; [|by apply prune_failed].
  apply tick_bind in E as [E|(-> & Ho)]; [|by apply prune_failed].
  apply lift_res_bind in E as [(? & _ & E)|(-> & Ho & _)]; [|apply prune_failed; [|done]; destruct Hs as [? Hc]; split; [done|cbn; lia]].
  injection E as <- <-. rewrite (proj2 Hs). by apply (prune_done r s e l s1).
Qed.

Lemma pruned_rows_wf r s out s' : store_wf s -> pruned_rows r s out s' -> store_wf s'.
Proof.
  intros Hwf [o s2 Hs Ho|e l s1 Hs He _ Hd Hel t]; [by eapply quiet_wf|].
  pose proof (Hwf _ _ He) as Hexp. cbn in Hexp. apply store_wf_set; [by eapply same_rows_wf|destruct Hs as [_ ->]; lia|].
  eapply exp_wf_updated; [exact Hexp|lia|]. intros id. rewrite prune_rows by done.
  destruct (es_nodes e !! id) as [n|] eqn:Hn; [|case_decide; constructor].
  pose proof (ew_times _ _ _ Hexp _ _ Hn). case_decide; constructor; split; try done; cbn; lia.
Qed.

(** *** Reads *)

Lemma fake_get_node_rows r s : same_rows s (fake_get_node r s).2.
Proof.
  destruct (fake_get_node r s) as [out s'] eqn:E. unfold fake_get_node in E.
  apply draw_fault_bind in E as [(d & s1 & Hs & _ & E)|(Hs & _)]; [|done].
  apply look_res_bind in E as [(n & _ & E)|(-> & _)]; [|done]. by injection E as <- <-.
Qed.

Lemma fake_get_children_rows r s : same_rows s (fake_get_children r s).2.
Proof.
  destruct (fake_get_children r s) as [out s'] eqn:E. unfold fake_get_children in E.
  apply look_res_bind in E as [(e & _ & E)|(-> & _)]; [|done].
  apply lift_res_bind in E as [(n & _ & E)|(-> & _)]; [|done].
  apply draw_fault_bind in E as [(d & s1 & Hs & _ & E)|(Hs & _)]; [|done]. by injection E as <- <-.
Qed.

Lemma fake_get_path_rows r s : same_rows s (fake_get_path r s).2.
Proof.
  destruct (fake_get_path r s) as [out s'] eqn:E. unfold fake_get_path in E.
  apply look_res_bind in E as [(e & _ & E)|(-> & _)]; [|done].
  apply lift_res_bind in E as [(n & _ & E)|(-> & _)]; [|done].
  apply draw_fault_bind in E as [(d & s1 & Hs & _ & E)|(Hs & _)]; [|done].
  apply lift_res_bind in E as [(? & _ & E)|(-> & _)]; [|done]. by injection E as <- <-.
Qed.

Lemma fake_query_nodes_rows r s : same_rows s (fake_query_nodes r s).2.
Proof.
  destruct (fake_query_nodes r s) as [out s'] eqn:E. unfold fake_query_nodes in E.
  apply look_res_bind in E as [(e & _ & E)|(-> & _)]; [|done].
  apply draw_fault_bind in E as [(d & s1 & Hs & _ & E)|(Hs & _)]; [|done]. by injection E as <- <-.
Qed.

(** ** Any sequence of calls *)

Inductive store_call :=
| CallCreate (r : CreateNodeRequest)
| CallUpdate (r : UpdateNodesRequest)
| CallNode (r : NodeRequest)
| CallChildren (r : NodeRequest)
| CallPath (r : GetPathRequest)
| CallQuery (r : QueryNodesRequest)
| CallPrune (r : PruneSubtreeRequest).

Definition run_store_call (c : store_call) (s : SnapshotStore) : SnapshotStore :=
  match c with
  | CallCreate r => (fake_create_node r s).2
  | CallUpdate r => (fake_update_nodes r s).2
  | CallNode r => (fake_get_node r s).2
  | CallChildren r => (fake_get_children r s).2
  | CallPath r => (fake_get_path r s).2
  | CallQuery r => (fake_query_nodes r s).2
  | CallPrune r => (fake_prune_subtree r s).2
  end.

Lemma run_store_call_wf c s : store_wf s -> store_wf (run_store_call c s).
Proof.
  intros Hwf. destruct c as [r|r|r|r|r|r|r]; cbn.
  - eapply created_row_wf; [done|apply fake_create_node_cases].
  - eapply updated_rows_wf; [done|apply fake_update_nodes_cases].
  - eapply same_rows_wf; [apply fake_get_node_rows|done].
  - eapply same_rows_wf; [apply fake_get_children_rows|done].
  - eapply same_rows_wf; [apply fake_get_path_rows|done].
  - eapply same_rows_wf; [apply fake_query_nodes_rows|done].
  - eapply pruned_rows_wf; [done|by apply fake_prune_subtree_cases].
Qed.

Definition run_store_calls (cs : list store_call) (s : SnapshotStore) : SnapshotStore := foldl (flip run_store_call) s cs.

Lemma run_store_calls_wf cs s : store_wf s -> store_wf (run_store_calls cs s).
Proof. revert s. induction cs as [|c cs IH]; intros s Hwf; [done|]. by apply IH, run_store_call_wf. Qed.

Lemma with_fault_plan_wf plan : store_wf (with_fault_plan plan).
Proof. apply map_Forall_empty. Qed.

(** C23. The node table under any sequence of calls and any injected faults:
    in every experiment a row sits under its own id, exactly the root has no
    parent, every parent is an older row one level up, no two rows were
    created at the same time, and the child index lists exactly the rows with
    that parent, in increasing order. *)
Theorem node_table_consistent (plan : FaultPlan) (calls : list store_call) (name : string) (e : ExperimentStore) :
  let s := run_store_calls calls (with_fault_plan plan) in
  ss_experiments s !! name = Some e ->
  exp_wf name (ss_logical_clock s) e.
Proof. intros s He. by apply (run_store_calls_wf calls _ (with_fault_plan_wf plan)). Qed.

(** Pruning a subtree in a consistent store: an answer [n] means that
    exactly the node and its descendants, [n] rows in all, are now marked
    pruned and no other row changed; an error changes no row. *)
Theorem prune_subtree_exact (s s' : SnapshotStore) (r : PruneSubtreeRequest) (out : res ClientError N) :
  store_wf s -> fake_prune_subtree r s = (out, s') ->
  match out with
  | Ok n => exists e e' l, ss_experiments s !! ps_experiment_id r = Some e /\ ss_experiments s' !! ps_experiment_id r = Some e' /\
      n = N.of_nat (length l) /\ NoDup l /\ (forall id, id ∈ l <-> descendant e (ps_node_id r) id) /\
      forall id, es_nodes e' !! id =
        if decide (id ∈ l) then prune_node (ss_logical_clock s + 1) <$> es_nodes e !! id else es_nodes e !! id
  | _ => ss_experiments s' = ss_experiments s
  end.
Proof.
  intros Hwf E. pose proof (fake_prune_subtree_cases r s Hwf) as Hc. rewrite E in Hc. cbn in Hc.
  destruct Hc as [out' s2 [He _] Ho|e l s1 Hs He _ Hd Hel t]; [by destruct out'; [by edestruct Ho|..]|].
  exists e, (mkExperimentStore (foldl (fun m id => alter (prune_node t) id m) (es_nodes e) l) (es_children e)), l.
  split_and!; [done|by apply lookup_insert_eq|done|done|done|]. intros id. by apply prune_rows.
Qed.

(** Blind retry of a creation: once a node was created, any later
    request for the same id with the same parent, snapshot and input log
    changes no row, whatever else it says; it returns the row as it is or
    fails by an injected fault. *)
Theorem create_node_retry_safe (s s1 s2 : SnapshotStore) (r r' : CreateNodeRequest) (m : NodeMeta) (out : res ClientError NodeMeta) :
  fake_create_node r s = (Ok m, s1) -> CreateNodeRequest_validate r' = Ok tt ->
  cn_experiment_id r' = cn_experiment_id r -> cn_node_id r' = cn_node_id r -> cn_parent_node_id r' = cn_parent_node_id r ->
  cn_snapshot_ref r' = cn_snapshot_ref r -> resolved_input_log_id r' = resolved_input_log_id r ->
  fake_create_node r' s1 = (out, s2) ->
  ss_experiments s2 = ss_experiments s1 /\ (out = Ok m \/ out = Panic \/ exists d e, out = Err e /\ client_error (fd_terminal d) = Some e).
Proof.
  intros E Hv He Hi Hp Hsn Hl E'.
  assert (exists n log, rows s1 (cn_experiment_id r) !! cn_node_id r = Some n /\ sn_meta n = m /\ resolved_input_log_id r = Ok log /\
    same_immutable_create_identity n r log = true) as (n & log & Hn & Hm & Hlog & Hid).
  { pose proof (fake_create_node_cases r s) as Hc. rewrite E in Hc. cbn in Hc.
    inversion Hc as [? ? _ Ho|n log ? [Hq _] Hlog Hn Hid|log depth sx Hs Hv' Hlog Hn Hpar Hd]; simplify_eq; [by edestruct Ho| |].
    - exists n, log. unfold rows in *. by rewrite Hq.
    - eexists _, log. split; [unfold rows, with_row; cbn; by rewrite lookup_insert_eq; cbn; rewrite lookup_insert_eq|].
      split; [done|]. split; [done|]. unfold same_immutable_create_identity. cbn. by rewrite !bool_decide_true. }
  unfold fake_create_node in E'.
  apply draw_fault_bind in E' as [(d & sx & Hs & _ & E')|(Hs & Ho)]; [|destruct Hs; naive_solver].
  rewrite Hv, Hl, Hlog in E'. rewrite !lift_Ok_bind, gets_bind in E'.
  replace (existing_node r' sx) with (Some n) in E'.
  - replace (same_immutable_create_identity n r' log) with true in E'.
    + injection E' as <- <-. split; [by destruct Hs|]. left. congruence.
    + rewrite <- Hid. unfold same_immutable_create_identity. by rewrite Hp, Hsn.
  - rewrite <- Hn. unfold existing_node, rows. rewrite (proj1 Hs), He, Hi. by destruct (ss_experiments s1 !! cn_experiment_id r).
Qed.

(** Updates are atomic: an error changes no row; success applies to every
    row the updates that name it, in order and at one time, and leaves every
    other row as it was. *)
Theorem update_nodes_atomic (s s' : SnapshotStore) (r : UpdateNodesRequest) (out : res ClientError UpdateNodesResponse) :
  store_wf s -> fake_update_nodes r s = (out, s') ->
  match out with
  | Ok _ => un_updates r <> [] -> forall id n, rows s (un_experiment_id r) !! id = Some n -> exists n',
      rows s' (un_experiment_id r) !! id = Some n' /\
      apply_all (filter (fun u => nu_node_id u = id) (un_updates r)) (ss_logical_clock s + 1) n = Ok n'
  | _ => ss_experiments s' = ss_experiments s
  end.
Proof.
  intros Hwf E. pose proof (fake_update_nodes_cases r s) as Hc. rewrite E in Hc. cbn in Hc.
  destruct Hc as [out' s2 [He _] Ho|x s2 Hs Hu|e staged s1 Hs Hu He t _ Hst]; [by destruct out'; [by edestruct Ho|..]|done|].
  intros _ id n. unfold rows. cbn. rewrite He, lookup_insert_eq. cbn. intros Hn.
  pose proof (Hwf _ _ He) as Hexp. cbn in Hexp.
  assert (map_Forall (fun i n => nm_node_id (sn_meta n) = i) (es_nodes e)) as Hids by (intros i x Hx; by apply (ew_id _ _ _ Hexp)).
  pose proof (stage_updates_apply _ _ _ _ _ Hids (map_Forall_empty _) Hst id n Hn) as Ha. rewrite lookup_empty in Ha. cbn in Ha.
  exists (default n (staged !! id)). split; [|done]. rewrite lookup_union, Hn. by destruct (staged !! id).
Qed.

Lemma mapM_expect_lookup (m : gmap NodeId StoredNode) ids : (forall id, id ∈ ids -> is_Some (m !! id)) ->
  exists ns, mapM_res (E := ClientError) (fun id => expect (m !! id)) ids = Ok ns /\ Forall2 (fun id n => m !! id = Some n) ids ns.
Proof.
  induction ids as [|id ids IH]; intros Hin; [by exists []|]. destruct (Hin id) as [n Hn]; [set_solver|].
  destruct IH as (ns & E & HF); [set_solver|]. exists (n :: ns). cbn. rewrite Hn. cbn. rewrite E. split; [done|by constructor].
Qed.

(** Paths in a consistent store: a node has a path of parent links from
    the root, the walk finds it however deep it is, and the answer lists the
    rows of that path from the root on, all of them unless the fault that was
    drawn truncates the listing; the call fails only by that fault. *)
Theorem get_path_correct (s : SnapshotStore) (r : GetPathRequest) (e : ExperimentStore) :
  store_wf s -> ss_experiments s !! gp_experiment_id r = Some e -> is_Some (es_nodes e !! gp_node_id r) ->
  exists l, path_to e (gp_node_id r) l /\
  match (draw_fault "get_path" (enc_get_path r) (N.of_nat (length l) mod 2 ^ 32) s).1 with
  | Ok d => exists resp, (fake_get_path r s).1 = Ok resp /\
      Forall2 (fun id m => sn_meta <$> es_nodes e !! id = Some m) (take (truncate_len d (length l)) l) (gpr_nodes resp)
  | Err error => (fake_get_path r s).1 = Err error
  | Panic => (fake_get_path r s).1 = Panic
  end.
Proof.
  intros Hwf He [n Hn]. destruct (path_exists _ _ _ (Hwf _ _ He) _ _ Hn) as [l Hl]. exists l. split; [done|].
  unfold fake_get_path, look_res, experiment. rewrite !st_bind_run, He. cbn [ok_or].
  rewrite (path_loop_run _ _ _ (Hwf _ _ He) _ _ Hl) by (pose proof (path_length _ _ _ (Hwf _ _ He) _ _ Hl); lia).
  rewrite lift_Ok_bind. cbn [app]. rewrite reverse_involutive, st_bind_run.
  destruct (draw_fault _ _ _ s) as [[d|x|] s1]; cbn [fst]; [|done..].
  destruct (mapM_expect_lookup (es_nodes e) (take (truncate_len d (length l)) l)) as (ns & Hns & HF).
  { intros id Hid. destruct (path_to_created _ _ _ (Hwf _ _ He) _ _ Hl) as (x & _ & _ & _ & Hel).
    destruct (Hel id) as (y & Hy & _); [|by eexists]. rewrite <- (take_drop (truncate_len d (length l)) l). set_solver. }
  rewrite Hns. eexists. split; [done|]. cbn. apply Forall2_fmap_r. eapply Forall2_impl; [exact HF|].
  intros id y Hy. cbn in Hy. cbn. by rewrite Hy.
Qed.

(** The listing of everything. *)
Definition all_nodes_query (name : string) : QueryNodesRequest :=
  mkQueryNodesRequest name [] None None None None None None None CreatedAt None.

Lemma query_all_rows name s l s' : fake_query_nodes (all_nodes_query name) s = (Ok l, s') ->
  exists d, l ≡ₚ sn_meta <$> (map_to_list (rows s name)).*2 \/ fd_partial d <> None.
Proof.
  unfold fake_query_nodes. intros E.
  apply look_res_bind in E as [(e & He & E)|(_ & Ho)]; [|by edestruct Ho].
  apply draw_fault_bind in E as [(d & s1 & Hs & _ & E)|(_ & [?|(? & ? & ? & _)])]; [|done..].
  injection E as <- _. exists d. destruct (fd_partial d) as [k|] eqn:Ed; [by right|]. left.
  unfold truncate_len. rewrite Ed, take_ge by lia. cbn. rewrite merge_sort_Permutation.
  unfold experiment in He. unfold rows. cbn in He. destruct (ss_experiments s !! name) as [e'|]; [|done]. injection He as ->. cbn.
  rewrite filter_everything by done. unfold nodes_in_order. by rewrite sorted_listing_perm.
Qed.
End Calls.

(** ** Witnesses *)

Definition toy_store_encoding : StoreEncoding :=
  {| enc_create_node := fun r => [cn_node_id r]; enc_update_nodes := fun _ => []; enc_get_node := fun r => [nq_node_id r];
     enc_get_children := fun r => [nq_node_id r]; enc_get_path := fun r => [gp_node_id r]; enc_query_nodes := fun _ => [];
     enc_prune_subtree := fun r => [ps_node_id r] |}.

Definition zero_score : Score := mkFinite f64_zero eq_refl.
Definition sample_create (id : NodeId) (parent : option NodeId) : CreateNodeRequest :=
  mkCreateNodeRequest "exp" id parent [id] (match parent with Some _ => Some [id] | None => None end) StFrontier zero_score zero_score [] None.
Definition sample_update (id : NodeId) : NodeUpdate := mkNodeUpdate id (Some StExpanded) None None 1 1 true None.

(** The root, a child with a child of its own, and a second child. *)
Definition sample_calls : list store_call :=
  [CallCreate (sample_create 0 None); CallCreate (sample_create 1 (Some 0%N)); CallCreate (sample_create 2 (Some 1%N));
   CallCreate (sample_create 3 (Some 0%N)); CallUpdate (mkUpdateNodesRequest "exp" [sample_update 0; sample_update 1])].
Definition sample_rows : SnapshotStore :=
  @run_store_calls toy_blake3 toy_store_encoding sample_calls (with_fault_plan (plan_disabled 1)).

Lemma sample_rows_wf : store_wf sample_rows.
Proof. apply run_store_calls_wf, with_fault_plan_wf. Qed.

Lemma node_table_consistent_witness : exists e,
  ss_experiments sample_rows !! "exp"%string = Some e /\ exp_wf "exp" (ss_logical_clock sample_rows) e.
Proof.
  unfold sample_rows. destruct (ss_experiments _ !! _) as [e|] eqn:E.
  - exists e. split; [done|]. by apply node_table_consistent.
  - exfalso. apply (f_equal (fun o => match o with Some _ => true | None => false end)) in E. by vm_compute in E.
Defined.

Definition sample_prune : PruneSubtreeRequest := mkPruneSubtreeRequest "exp" 1 false.

Lemma prune_subtree_exact_witness : exists n s' e e', fake_prune_subtree (B3 := toy_blake3) (ENC := toy_store_encoding) sample_prune sample_rows = (Ok n, s') /\
  ss_experiments sample_rows !! "exp"%string = Some e /\ ss_experiments s' !! "exp"%string = Some e' /\
  forall id, ~ descendant e 1 id -> es_nodes e' !! id = es_nodes e !! id.
Proof.
  destruct (fake_prune_subtree (B3 := toy_blake3) (ENC := toy_store_encoding) sample_prune sample_rows) as [[n|x|] s'] eqn:E;
    [|exfalso; apply (f_equal (fun o => match o.1 with Ok _ => true | _ => false end)) in E; by vm_compute in E..].
  destruct (prune_subtree_exact (B3 := toy_blake3) (ENC := toy_store_encoding) sample_rows s' sample_prune (Ok n) sample_rows_wf E)
    as (e & e' & l & He & He' & _ & _ & Hl & Hrows).
  exists n, s', e, e'. split_and!; [done|done|done|]. intros id Hid. by rewrite Hrows, decide_False by by rewrite Hl.
Defined.

Lemma create_node_retry_safe_witness : exists m s1 out s2,
  fake_create_node (B3 := toy_blake3) (ENC := toy_store_encoding) (sample_create 4 (Some 2%N)) sample_rows = (Ok m, s1) /\
  fake_create_node (B3 := toy_blake3) (ENC := toy_store_encoding) (sample_create 4 (Some 2%N)) s1 = (out, s2) /\
  ss_experiments s2 = ss_experiments s1.
Proof.
  destruct (fake_create_node (B3 := toy_blake3) (ENC := toy_store_encoding) (sample_create 4 (Some 2%N)) sample_rows) as [[m|x|] s1] eqn:E;
    [|exfalso; apply (f_equal (fun o => match o.1 with Ok _ => true | _ => false end)) in E; by vm_compute in E..].
  destruct (fake_create_node (B3 := toy_blake3) (ENC := toy_store_encoding) (sample_create 4 (Some 2%N)) s1) as [out s2] eqn:E2.
  exists m, s1, out, s2. split; [done|]. split; [done|].
  apply (create_node_retry_safe (B3 := toy_blake3) (ENC := toy_store_encoding) sample_rows s1 s2 (sample_create 4 (Some 2%N))
    (sample_create 4 (Some 2%N)) m out E); by try reflexivity.
Defined.

Definition sample_updates : UpdateNodesRequest := mkUpdateNodesRequest "exp" [sample_update 1; sample_update 3; sample_update 1].

Lemma update_nodes_atomic_witness : exists resp s', fake_update_nodes (B3 := toy_blake3) (ENC := toy_store_encoding) sample_updates sample_rows = (Ok resp, s') /\
  forall n, rows sample_rows "exp" !! 1%N = Some n -> exists n', rows s' "exp" !! 1%N = Some n' /\
    apply_all [sample_update 1; sample_update 1] (ss_logical_clock sample_rows + 1) n = Ok n'.
Proof.
  destruct (fake_update_nodes (B3 := toy_blake3) (ENC := toy_store_encoding) sample_updates sample_rows) as [[resp|x|] s'] eqn:E;
    [|exfalso; apply (f_equal (fun o => match o.1 with Ok _ => true | _ => false end)) in E; by vm_compute in E..].
  exists resp, s'. split; [done|]. intros n Hn.
  exact (update_nodes_atomic (B3 := toy_blake3) (ENC := toy_store_encoding) sample_rows s' sample_updates (Ok resp) sample_rows_wf E ltac:(done) 1%N n Hn).
Defined.

Lemma get_path_correct_witness : exists e l, ss_experiments sample_rows !! "exp"%string = Some e /\ path_to e 2 l.
Proof.
  destruct (ss_experiments sample_rows !! "exp"%string) as [e|] eqn:E;
    [|exfalso; apply (f_equal (fun o => match o with Some _ => true | None => false end)) in E; by vm_compute in E].
  destruct (get_path_correct (B3 := toy_blake3) (ENC := toy_store_encoding) sample_rows (mkGetPathRequest "exp" 2 false) e sample_rows_wf E) as (l & Hl & _).
  - apply (f_equal (fun o => match o with Some e => is_some (es_nodes e !! 2%N) | None => false end)) in E.
    cbn [gp_node_id]. destruct (es_nodes e !! 2%N); [by eexists|]. by vm_compute in E.
  - exists e, l. split; [reflexivity|exact Hl].
Defined.
