(* ===== verification/NodeAttrs.v ===== *)
(** Node attributes and the context of a proposal
    (crates/orch-driver/src/node_attrs.rs): what the orchestrator writes into
    the opaque attribute bytes of a row, and the context it rebuilds from the
    rows of a node, its parent and its siblings. *)
From S2P Require Import Prelude Float64 Types Client Frontier Checkpoint Runner HvTypes SynthTypes StoreTypes.
From stdpp Require Import pretty.
Local Open Scope string_scope.
Local Open Scope list_scope.

(** [b"ORCHNA1\0"] *)
Definition ORCH_NODE_ATTRS_MAGIC : list N := [79; 82; 67; 72; 78; 65; 49; 0]%N.
Definition ORCH_NODE_ATTRS_VERSION : N := 1.
Definition DEFAULT_MAX_SIBLING_BURSTS : nat := 64.

Record NodeContextLimits := mkNodeContextLimits { max_sibling_bursts : nat }.
Definition NodeContextLimits_default : NodeContextLimits := mkNodeContextLimits DEFAULT_MAX_SIBLING_BURSTS.

Record FpsRational := mkFpsRational { fps_numerator : N; fps_denominator : N }.
Record PadLayoutAttrs := mkPadLayoutAttrs { pl_alphabet : string; pl_button_bits : list (string * N) }.
Record RootNodeAttrs := mkRootNodeAttrs {
  ra_framebuffer : option FbInfo;
  ra_fps : option FpsRational;
  ra_pad_layout : option PadLayoutAttrs
}.

(** [decoded_features] is an ordered map: an association list sorted by name. *)
Record SynthContextAttrs := mkSynthContextAttrs {
  sa_created_by_burst : option ProvenancedBurst;
  sa_config_fingerprint : option ConfigFingerprint;
  sa_decoded_features : list (string * FiniteF64);
  sa_frame_counter : FrameCount;
  sa_state_hash : StateHash;
  sa_cell_key : CellKey;
  sa_stage : Stage;
  sa_score : Score;
  sa_novelty : Novelty;
  sa_recent_inputs : option Burst
}.

Record OrchNodeAttrsV1 := mkOrchNodeAttrsV1 {
  oa_magic : list N;
  oa_version : N;
  oa_machine_config_hash : Digest32;
  oa_determinism_class : DeterminismClass;
  oa_goal : bool;
  oa_prune_reason : option string;
  oa_root : option RootNodeAttrs;
  oa_synth : SynthContextAttrs
}.

Definition OrchNodeAttrsV1_new (machine_config_hash : Digest32) (determinism_class : DeterminismClass)
    (synth : SynthContextAttrs) : OrchNodeAttrsV1 :=
  mkOrchNodeAttrsV1 ORCH_NODE_ATTRS_MAGIC ORCH_NODE_ATTRS_VERSION machine_config_hash determinism_class false None None synth.
Definition with_root_attrs (root : RootNodeAttrs) (a : OrchNodeAttrsV1) : OrchNodeAttrsV1 :=
  mkOrchNodeAttrsV1 (oa_magic a) (oa_version a) (oa_machine_config_hash a) (oa_determinism_class a) (oa_goal a)
    (oa_prune_reason a) (Some root) (oa_synth a).
Definition with_goal (goal : bool) (a : OrchNodeAttrsV1) : OrchNodeAttrsV1 :=
  mkOrchNodeAttrsV1 (oa_magic a) (oa_version a) (oa_machine_config_hash a) (oa_determinism_class a) goal
    (oa_prune_reason a) (oa_root a) (oa_synth a).
Definition with_prune_reason (reason : string) (a : OrchNodeAttrsV1) : OrchNodeAttrsV1 :=
  mkOrchNodeAttrsV1 (oa_magic a) (oa_version a) (oa_machine_config_hash a) (oa_determinism_class a) (oa_goal a)
    (Some reason) (oa_root a) (oa_synth a).

Definition validate_envelope (a : OrchNodeAttrsV1) (kind : ClientErrorKind) : res ClientError unit :=
  if negb (bool_decide (oa_magic a = ORCH_NODE_ATTRS_MAGIC))
  then Err (mkClientError kind "unknown orchestrator node attrs magic")
  else if negb (oa_version a =? ORCH_NODE_ATTRS_VERSION)%N
  then Err (mkClientError kind ("unknown orchestrator node attrs version " +:+ pretty (oa_version a)))
  else Ok tt.

Definition is_context_sibling_status (status : NodeStatus) : bool :=
  match status with StFrontier | StExpanded | StGoal => true | StPruned => false end.

Section Attrs.
Context `{PA : Postcard OrchNodeAttrsV1, HD : F64Display}.

Definition NonFiniteFloatError_fmt (e : NonFiniteFloatError) : string := "non-finite float value " +:+ f64_display (nonfinite_value e).

Definition encode_node_attrs (a : OrchNodeAttrsV1) : res ClientError NodeAttrs :=
  _ ← validate_envelope a InvalidRequest;
  bytes ← map_err (fun error => mkClientError Internal ("failed to encode orchestrator node attrs: " +:+ error)) (to_allocvec a);
  NodeAttrs_new bytes.

Definition decode_node_attrs (attrs : NodeAttrs) : res ClientError OrchNodeAttrsV1 :=
  decoded ← map_err (fun error => mkClientError DataLoss ("failed to decode orchestrator node attrs: " +:+ error)) (from_bytes attrs);
  _ ← validate_envelope decoded DataLoss;
  Ok decoded.

(** ** The context of a node *)

Context {W : Type} `{NS : NodeStore W}.

Definition node_order (a b : NodeMeta) : Prop := (nm_node_id a <= nm_node_id b)%N.
Global Instance node_order_dec a b : Decision (node_order a b).
Proof. unfold node_order. apply _. Defined.

(** The loop over the siblings; [room] more bursts fit. *)
Fixpoint sibling_loop (selected parent : NodeMeta) (room : nat) (children : list NodeMeta)
    : res ClientError (list ScoredBurst) :=
  match children with
  | [] => Ok []
  | child :: rest =>
    if bool_decide (nm_node_id child = nm_node_id selected) || negb (is_context_sibling_status (nm_status child))
    then sibling_loop selected parent room rest
    else
      attrs ← decode_node_attrs (nm_attrs child);
      match sa_created_by_burst (oa_synth attrs) with
      | None => sibling_loop selected parent room rest
      | Some burst =>
        score_delta ← map_err
          (fun error => mkClientError DataLoss ("non-finite sibling score delta: " +:+ NonFiniteFloatError_fmt error))
          (FiniteF64_new (f64_sub (finite_get (nm_progress_score child)) (finite_get (nm_progress_score parent))));
        match room with
        | 0%nat | 1%nat => Ok [mkScoredBurst burst score_delta]
        | S room => out ← sibling_loop selected parent room rest; Ok (mkScoredBurst burst score_delta :: out)
        end
      end
  end.

Definition build_sibling_bursts (experiment_id : string) (selected parent : NodeMeta) (limits : NodeContextLimits)
    : st W ClientError (list ScoredBurst) :=
  children ← get_children (mkNodeRequest experiment_id (nm_node_id parent));
  lift_res (sibling_loop selected parent (max_sibling_bursts limits) (merge_sort node_order children)).

Definition build_input_synth_node_context (experiment_id : string) (node_id : NodeId) (limits : NodeContextLimits)
    : st W ClientError SynthTypes.NodeContext :=
  selected ← get_node (mkNodeRequest experiment_id node_id);
  attrs ← lift_res (decode_node_attrs (nm_attrs selected));
  _ ← lift_res (if (u32_max <? nm_depth selected)%N
                then Err (mkClientError DataLoss
                       ("node " +:+ pretty node_id +:+ " depth " +:+ pretty (nm_depth selected) +:+ " exceeds u32"))
                else Ok tt);
  siblings ← match nm_parent_node_id selected with
             | None => mret []
             | Some parent_id =>
               parent ← get_node (mkNodeRequest experiment_id parent_id);
               if negb (bool_decide (nm_node_id parent = parent_id))
                  || negb (bool_decide (nm_experiment_id parent = nm_experiment_id selected))
               then lift_res (Err (mkClientError DataLoss "loaded parent metadata does not match selected node parent"))
               else build_sibling_bursts experiment_id selected parent limits
             end;
  let synth := oa_synth attrs in
  mret (SynthTypes.mkNodeContext (nm_node_id selected) (nm_parent_node_id selected) (nm_snapshot_ref selected)
    (sa_state_hash synth) (sa_cell_key synth) (sa_stage synth) (nm_depth selected) (sa_frame_counter synth)
    (nm_progress_score selected) (nm_novelty_score selected) (sa_decoded_features synth) []
    (sa_recent_inputs synth) (sa_created_by_burst synth) siblings).

(** ** Round trip *)

Lemma encode_node_attrs_Ok a bytes : encode_node_attrs a = Ok bytes ->
  validate_envelope a InvalidRequest = Ok tt /\ to_allocvec a = Ok bytes /\ NodeAttrs_validate bytes = Ok tt.
Proof.
  unfold encode_node_attrs, NodeAttrs_new, NodeAttrs_validate. intros ([] & Hv & (b & Hb & Hn)%bind_Ok)%bind_Ok.
  destruct (to_allocvec a) as [b'|e|]; [|done..]. injection Hb as ->. destruct (_ <? _)%N eqn:E in Hn; [done|]. injection Hn as <-. by rewrite E.
Qed.

Lemma validate_envelope_kind a k k' : validate_envelope a k = Ok tt -> validate_envelope a k' = Ok tt.
Proof. unfold validate_envelope. repeat case_match; done. Qed.

Lemma decode_encode_attrs a bytes : encode_node_attrs a = Ok bytes -> decode_node_attrs bytes = Ok a.
Proof.
  intros (Hv & Hb & _)%encode_node_attrs_Ok. unfold decode_node_attrs. rewrite (postcard_roundtrip _ _ Hb). cbn.
  by rewrite (validate_envelope_kind _ _ _ Hv).
Qed.

Lemma decode_node_attrs_Ok bytes a : decode_node_attrs bytes = Ok a ->
  oa_magic a = ORCH_NODE_ATTRS_MAGIC /\ oa_version a = ORCH_NODE_ATTRS_VERSION.
Proof.
  unfold decode_node_attrs. intros (d & _ & ([] & Hv & [= <-])%bind_Ok)%bind_Ok. unfold validate_envelope in Hv.
  case_bool_decide; cbn in Hv; [|done]. destruct (N.eqb_spec (oa_version d) ORCH_NODE_ATTRS_VERSION); [done|done].
Qed.

(** Node attributes round trip through a row: what is encoded fits the
    row and decodes to itself; nothing with another magic or another version
    is ever accepted, by the writer or by the reader. *)
Theorem node_attrs_roundtrip (a : OrchNodeAttrsV1) (bytes : NodeAttrs) :
  (encode_node_attrs a = Ok bytes -> decode_node_attrs bytes = Ok a /\ NodeAttrs_validate bytes = Ok tt) /\
  (oa_magic a <> ORCH_NODE_ATTRS_MAGIC \/ oa_version a <> ORCH_NODE_ATTRS_VERSION ->
   encode_node_attrs a <> Ok bytes /\ decode_node_attrs bytes <> Ok a).
Proof.
  split.
  - intros H. split; [by apply decode_encode_attrs|]. by apply encode_node_attrs_Ok in H as (_ & _ & ?).
  - intros Hbad. split; [intros H%decode_encode_attrs%decode_node_attrs_Ok|intros H%decode_node_attrs_Ok]; naive_solver.
Qed.

(** ** Siblings *)

(** A burst of the context comes from a sibling that is not pruned. *)
Definition sibling_of (selected parent : NodeMeta) (children : list NodeMeta) (b : ScoredBurst) : Prop :=
  exists child attrs, child ∈ children /\ nm_node_id child <> nm_node_id selected /\ nm_status child <> StPruned /\
    decode_node_attrs (nm_attrs child) = Ok attrs /\ sa_created_by_burst (oa_synth attrs) = Some (sb_burst b) /\
    FiniteF64_new (f64_sub (finite_get (nm_progress_score child)) (finite_get (nm_progress_score parent))) = Ok (sb_score_delta b).

Lemma sibling_loop_spec selected parent room children out : sibling_loop selected parent room children = Ok out ->
  (length out <= Nat.max room 1)%nat /\ Forall (sibling_of selected parent children) out.
Proof.
  revert room out. induction children as [|c rest IH]; intros room out; cbn [sibling_loop]; [intros [= <-]; split; [cbn; lia|constructor]|].
  assert (forall b, sibling_of selected parent rest b -> sibling_of selected parent (c :: rest) b) as Hmono.
  { intros b (x & a & Hx & H). exists x, a. split; [set_solver|done]. }
  assert (forall l, Forall (sibling_of selected parent rest) l -> Forall (sibling_of selected parent (c :: rest)) l) as Hall
    by (intros l Hl; by eapply Forall_impl).
  case_bool_decide as Hid; cbn [orb]; [intros [? ?]%IH; auto|].
  destruct (is_context_sibling_status (nm_status c)) eqn:Hst; cbn [negb]; [|intros [? ?]%IH; auto].
  intros (attrs & Ha & H)%bind_Ok. destruct (sa_created_by_burst (oa_synth attrs)) as [burst|] eqn:Eb; [|apply IH in H as [? ?]; auto].
  apply bind_Ok in H as (delta & Hd & H).
  assert (sibling_of selected parent (c :: rest) (mkScoredBurst burst delta)) as Hc.
  { exists c, attrs. split_and!; [set_solver|done|by intros E; rewrite E in Hst|done|done|]. cbn. destruct (FiniteF64_new _) in Hd |- *; cbn in Hd; congruence. }
  destruct room as [|[|room]].
  - injection H as <-. split; [cbn; lia|]. by repeat constructor.
  - injection H as <-. split; [cbn; lia|]. by repeat constructor.
  - apply bind_Ok in H as (l & [Hl Hf]%IH & [= <-]). split; [cbn; lia|]. constructor; auto.
Qed.
End Attrs.

(** ** Witness *)

Definition sample_class : DeterminismClass := mkDeterminismClass "cpu" "0x1" "6.8" "vmm".
Definition sample_attrs : OrchNodeAttrsV1 :=
  OrchNodeAttrsV1_new [1%N] sample_class
    (mkSynthContextAttrs None None [] 3 [9%N] 4 0 (mkFinite f64_zero eq_refl) (mkFinite f64_zero eq_refl) None).
