(* ===== verification/SynthDriver.v ===== *)
(** The driver's side of the input synthesizer
    (crates/orch-driver/src/input_synth.rs): bring-up, the proposal request
    built from the rows of a node, the checks of a response, and the registry
    that pins a configuration fingerprint per request profile. *)
From S2P Require Import Prelude Float64 Types Client Rng Checkpoint Runner HvTypes SynthTypes StoreTypes NodeAttrs.
From stdpp Require Import pretty.
Local Open Scope string_scope.
Local Open Scope list_scope.

(** ** [str::trim] on UTF-8 bytes *)

(** One leading character with the property White_Space. *)
Definition strip_whitespace (bytes : list N) : option (list N) :=
  match bytes with
  | b :: rest =>
    if (9 <=? b)%N && (b <=? 13)%N || (b =? 32)%N then Some rest
    else match b, rest with
         | 194%N, c :: rest => if (c =? 133)%N || (c =? 160)%N then Some rest else None
         | 225%N, c :: d :: rest => if (c =? 154)%N && (d =? 128)%N then Some rest else None
         | 226%N, c :: d :: rest =>
           if (c =? 128)%N && ((128 <=? d)%N && (d <=? 138)%N || (d =? 168)%N || (d =? 169)%N || (d =? 175)%N)
              || (c =? 129)%N && (d =? 159)%N
           then Some rest else None
         | 227%N, c :: d :: rest => if (c =? 128)%N && (d =? 128)%N then Some rest else None
         | _, _ => None
         end
  | [] => None
  end.

(** [trim().is_empty()]: every character is white space. *)
Fixpoint blank_from (fuel : nat) (bytes : list N) : bool :=
  match bytes, fuel with
  | [], _ => true
  | _, O => false
  | _, S fuel => match strip_whitespace bytes with Some rest => blank_from fuel rest | None => false end
  end.
Definition is_blank (s : string) : bool := let bytes := bytes_of_string s in blank_from (length bytes) bytes.

(** ** Profiles and fingerprints *)

Record SynthProfile := mkSynthProfile {
  sp_experiment_id : string;
  sp_model : ModelKind;
  sp_config_overrides_yaml : list N
}.
Global Instance HealthStatus_eq_dec : EqDecision HealthStatus.
Proof. solve_decision. Defined.
Global Instance ModelKind_eq_dec : EqDecision ModelKind.
Proof. solve_decision. Defined.
Global Instance ModelKind_countable : Countable ModelKind.
Proof.
  apply (inj_countable' (fun m => match m with ModelPad => true | ModelEventGrammar => false end)
    (fun b : bool => if b then ModelPad else ModelEventGrammar)). by intros [].
Defined.
Global Instance SynthProfile_eq_dec : EqDecision SynthProfile.
Proof. solve_decision. Defined.
Global Instance SynthProfile_countable : Countable SynthProfile.
Proof.
  apply (inj_countable' (fun p => (sp_experiment_id p, sp_model p, sp_config_overrides_yaml p))
    (fun '(e, m, y) => mkSynthProfile e m y)). by intros [].
Defined.

Definition SynthProfile_from_request (r : ProposeBurstsRequest) : SynthProfile :=
  mkSynthProfile (pq_experiment_id r) (pq_model r) (pq_config_overrides_yaml r).

Record FingerprintRegistry := mkFingerprintRegistry { expected_fingerprints : gmap SynthProfile ConfigFingerprint }.
Definition FingerprintRegistry_new : FingerprintRegistry := mkFingerprintRegistry ∅.
Inductive FingerprintCheck := Inserted | Matched.
Record FingerprintMismatch := mkFingerprintMismatch {
  fm_profile : SynthProfile;
  fm_expected : ConfigFingerprint;
  fm_actual : ConfigFingerprint
}.

Definition check_or_insert (profile : SynthProfile) (actual : ConfigFingerprint)
    : st FingerprintRegistry FingerprintMismatch FingerprintCheck := fun g =>
  match expected_fingerprints g !! profile with
  | None => (Ok Inserted, mkFingerprintRegistry (<[profile := actual]> (expected_fingerprints g)))
  | Some expected =>
    if decide (expected = actual) then (Ok Matched, g) else (Err (mkFingerprintMismatch profile expected actual), g)
  end.
Definition expected_fingerprint (profile : SynthProfile) (g : FingerprintRegistry) : option ConfigFingerprint :=
  expected_fingerprints g !! profile.

Definition hex_digit (n : N) : string :=
  String (Ascii.ascii_of_N (if (n <? 10)%N then 48 + n else 87 + n)%N) "".
Definition fingerprint_hex (f : ConfigFingerprint) : string :=
  foldr (fun byte out => hex_digit (byte / 16) +:+ hex_digit (byte mod 16) +:+ out) "" f.
Definition ModelKind_debug (m : ModelKind) : string :=
  match m with ModelPad => "Pad" | ModelEventGrammar => "EventGrammar" end.

Definition mismatch_error (m : FingerprintMismatch) : ClientError :=
  mkClientError FailedPrecondition
    ("input synthesizer config fingerprint mismatch for experiment '" +:+ sp_experiment_id (fm_profile m) +:+ "' model "
     +:+ ModelKind_debug (sp_model (fm_profile m)) +:+ ": expected " +:+ fingerprint_hex (fm_expected m)
     +:+ ", got " +:+ fingerprint_hex (fm_actual m)).

(** ** Requests and responses *)

Record ProposeBurstsBuildSpec := mkProposeBurstsBuildSpec {
  bs_experiment_id : string;
  bs_node_id : NodeId;
  bs_k : N;
  bs_length_hint : FrameCount;
  bs_experiment_seed : N;
  bs_batch_seq : N;
  bs_model : ModelKind;
  bs_config_overrides_yaml : list N;
  bs_context_limits : NodeContextLimits
}.

Definition validate_propose_bursts_request (r : ProposeBurstsRequest) : res ClientError unit :=
  if is_blank (pq_experiment_id r) then Err (mkClientError InvalidRequest "experiment_id must not be empty")
  else if (pq_k r =? 0)%N then Err (mkClientError InvalidRequest "k must be nonzero")
  else if negb (bool_decide (SynthTypes.nc_frame_embedding (pq_node_context r) = []))
  then Err (mkClientError InvalidRequest
         "node_context.frame_embedding must stay empty until Phase 8 defines f64-to-f32 policy")
  else Ok tt.

(** The loop over the bursts, from response index [index] on. *)
Fixpoint validate_bursts (fingerprint : ConfigFingerprint) (index : nat) (bursts : list ProvenancedBurst) : res ClientError unit :=
  match bursts with
  | [] => Ok tt
  | burst :: rest =>
    let p := pv_provenance burst in
    if negb (bool_decide (pr_config_fingerprint p = fingerprint)) then
      Err (mkClientError DataLoss
        ("burst slot " +:+ pretty (N.of_nat index) +:+ " provenance fingerprint " +:+ fingerprint_hex (pr_config_fingerprint p)
         +:+ " did not match response fingerprint " +:+ fingerprint_hex fingerprint))
    else if negb (pr_slot p =? N.of_nat index mod (u32_max + 1))%N then
      Err (mkClientError DataLoss
        ("burst at response index " +:+ pretty (N.of_nat index) +:+ " reported provenance slot " +:+ pretty (pr_slot p)))
    else validate_bursts fingerprint (S index) rest
  end.

Definition validate_propose_bursts_response (request : ProposeBurstsRequest) (response : ProposeBurstsResponse)
    : res ClientError unit :=
  if negb (SynthTypes.ps_seed response =? pq_seed request)%N then
    Err (mkClientError DataLoss
      ("input synthesizer response seed " +:+ pretty (SynthTypes.ps_seed response) +:+ " did not echo request seed "
       +:+ pretty (pq_seed request)))
  else if negb (N.of_nat (length (ps_bursts response)) =? pq_k request)%N then
    Err (mkClientError DataLoss
      ("input synthesizer returned " +:+ pretty (N.of_nat (length (ps_bursts response))) +:+ " bursts for k="
       +:+ pretty (pq_k request)))
  else validate_bursts (ps_config_fingerprint response) 0 (ps_bursts response).

(** ** Bring-up *)

Record SynthBringup := mkSynthBringup {
  sb_experiment_id : string;
  sb_experiment_config_source : LoadMacroPackSource;
  sb_macro_pack_sources : list LoadMacroPackSource;
  sb_required_pack_ids : gset string
}.
Record SynthBringupReport := mkSynthBringupReport {
  br_experiment_config : LoadMacroPackResponse;
  br_macro_pack_documents : list LoadMacroPackResponse;
  br_required_pack_ids : gset string;
  br_health : HealthResponse
}.

(** [join(", ")] of an ordered set of names. *)
Definition string_le (a b : string) : Prop := String.leb a b = true.
Global Instance string_le_dec a b : Decision (string_le a b).
Proof. unfold string_le. apply _. Defined.
Fixpoint join_names (names : list string) : string :=
  match names with
  | [] => ""
  | [name] => name
  | name :: rest => name +:+ ", " +:+ join_names rest
  end.

Section Driver.
Context `{PA : Postcard OrchNodeAttrsV1, HD : F64Display, HB : Blake3, HC : ChaCha12}.
Context {W : Type} `{NS : NodeStore W, SY : InputSynth W}.

Definition SynthBringup_run (b : SynthBringup) : st W ClientError SynthBringupReport :=
  if is_blank (sb_experiment_id b) then lift_res (Err (mkClientError InvalidRequest "experiment_id must not be empty"))
  else
    experiment_config ← load_macro_pack (mkLoadMacroPackRequest (sb_experiment_config_source b) DocExperimentConfig);
    documents ← mapM_st (fun source => load_macro_pack (mkLoadMacroPackRequest source DocMacroPack)) (sb_macro_pack_sources b);
    health ← SynthTypes.health;
    let expected := sb_required_pack_ids b ∪ list_to_set (lmr_document_id <$> documents) in
    let missing := expected ∖ list_to_set (he_loaded_packs health) in
    if decide (he_status health = NotServing)
    then lift_res (Err (mkClientError FailedPrecondition "input synthesizer is not serving after bring-up"))
    else if negb (bool_decide (missing = (∅ : gset string))) then
      lift_res (Err (mkClientError FailedPrecondition
        ("input synthesizer health is missing loaded macro packs: " +:+ join_names (merge_sort string_le (elements missing)))))
    else if negb (bool_decide (sb_experiment_id b ∈ he_loaded_experiments health)) then
      lift_res (Err (mkClientError FailedPrecondition
        ("input synthesizer health is missing loaded experiment '" +:+ sb_experiment_id b +:+ "'")))
    else mret (mkSynthBringupReport experiment_config documents (sb_required_pack_ids b) health).

Definition build_propose_bursts_request (spec : ProposeBurstsBuildSpec) : st W ClientError ProposeBurstsRequest :=
  node_context ← build_input_synth_node_context (bs_experiment_id spec) (bs_node_id spec) (bs_context_limits spec);
  seed ← lift_res (derive_synth_request_seed (bs_experiment_seed spec) (bs_batch_seq spec));
  let request := mkProposeBurstsRequest (bs_experiment_id spec) node_context (bs_k spec) (bs_length_hint spec) seed
                   (bs_model spec) (bs_config_overrides_yaml spec) in
  _ ← lift_res (validate_propose_bursts_request request);
  mret request.

(** The guard with its registry; [budget] mismatches are answered with
    another bring-up. *)
Fixpoint fingerprint_guard (b : SynthBringup) (request : ProposeBurstsRequest) (budget : nat)
    : st (W * FingerprintRegistry) ClientError ProposeBurstsResponse := fun '(w, g) =>
  match propose_bursts request w with
  | (Ok response, w1) =>
    match validate_propose_bursts_response request response with
    | Ok _ =>
      match check_or_insert (SynthProfile_from_request request) (ps_config_fingerprint response) g with
      | (Ok _, g1) => (Ok response, (w1, g1))
      | (Err mismatch, g1) =>
        match budget with
        | O => (Err (mismatch_error mismatch), (w1, g1))
        | S budget =>
          match SynthBringup_run b w1 with
          | (Ok _, w2) => fingerprint_guard b request budget (w2, g1)
          | (Err e, w2) => (Err e, (w2, g1))
          | (Panic, w2) => (Panic, (w2, g1))
          end
        end
      | (Panic, g1) => (Panic, (w1, g1))
      end
    | Err e => (Err e, (w1, g))
    | Panic => (Panic, (w1, g))
    end
  | (Err e, w1) => (Err e, (w1, g))
  | (Panic, w1) => (Panic, (w1, g))
  end.

Definition propose_bursts_with_fingerprint_guard (b : SynthBringup) (request : ProposeBurstsRequest) (budget : nat)
    : st (W * FingerprintRegistry) ClientError ProposeBurstsResponse :=
  _ ← lift_res (validate_propose_bursts_request request);
  fingerprint_guard b request budget.
End Driver.

(** ** What an accepted response is *)

Lemma validate_bursts_Ok fingerprint index bursts : validate_bursts fingerprint index bursts = Ok tt ->
  forall i b, bursts !! i = Some b -> pr_config_fingerprint (pv_provenance b) = fingerprint /\
    pr_slot (pv_provenance b) = (N.of_nat (index + i) mod (u32_max + 1))%N.
Proof.
  revert index. induction bursts as [|x bursts IH]; intros index H [|i] b Hb; [done|done|..]; cbn [validate_bursts] in H.
  - injection Hb as <-. case_bool_decide as Hf; [|done]. cbn [negb] in H. destruct (N.eqb_spec (pr_slot (pv_provenance x)) (N.of_nat index mod (u32_max + 1))) as [Hs|]; [|done].
    rewrite Nat.add_0_r. done.
  - case_bool_decide; [|done]. cbn [negb] in H. destruct (_ =? _)%N; [|done]. cbn [negb] in H.
    destruct (IH _ H i b Hb) as [? Hs]. split; [done|]. by rewrite Hs, Nat.add_succ_comm.
Qed.

Definition response_ok (request : ProposeBurstsRequest) (response : ProposeBurstsResponse) : Prop :=
  SynthTypes.ps_seed response = pq_seed request /\ N.of_nat (length (ps_bursts response)) = pq_k request /\
  forall i b, ps_bursts response !! i = Some b ->
    pr_config_fingerprint (pv_provenance b) = ps_config_fingerprint response /\
    pr_slot (pv_provenance b) = (N.of_nat i mod (u32_max + 1))%N.

Lemma validate_response_Ok request response : validate_propose_bursts_response request response = Ok tt -> response_ok request response.
Proof.
  unfold validate_propose_bursts_response, response_ok. intros H.
  destruct (N.eqb_spec (SynthTypes.ps_seed response) (pq_seed request)); [|done]. cbn [negb] in H.
  destruct (N.eqb_spec (N.of_nat (length (ps_bursts response))) (pq_k request)); [|done]. cbn [negb] in H.
  split; [done|]. split; [done|]. intros i b Hb. apply (validate_bursts_Ok _ _ _ H i b Hb).
Qed.

Lemma check_or_insert_pins profile actual g r g' : check_or_insert profile actual g = (r, g') ->
  (forall q f, expected_fingerprint q g = Some f -> expected_fingerprint q g' = Some f) /\
  (forall c, r = Ok c -> expected_fingerprint profile g' = Some actual) /\ (r <> Panic).
Proof.
  unfold check_or_insert, expected_fingerprint. destruct (expected_fingerprints g !! profile) as [f|] eqn:E.
  - case_decide; intros [= <- <-]; naive_solver.
  - intros [= <- <-]. cbn. split; [|split; [intros ? _; by rewrite lookup_insert_eq|done]].
    intros q f Hq. rewrite lookup_insert_ne by congruence. done.
Qed.

Section Guard.
Context {W : Type} `{SY : InputSynth W}.

Lemma fingerprint_guard_spec b request budget w g r w' g' : fingerprint_guard b request budget (w, g) = (r, (w', g')) ->
  (forall q f, expected_fingerprint q g = Some f -> expected_fingerprint q g' = Some f) /\
  forall response, r = Ok response -> response_ok request response /\
    expected_fingerprint (SynthProfile_from_request request) g' = Some (ps_config_fingerprint response).
Proof.
  revert w g. induction budget as [|budget IH]; intros w g; cbn [fingerprint_guard];
    (destruct (propose_bursts request w) as [[response|e|] w1]; [|intros [= <- <- <-]; naive_solver..]);
    (destruct (validate_propose_bursts_response request response) as [[]|e|] eqn:Hv; [|intros [= <- <- <-]; naive_solver..]);
    destruct (check_or_insert _ _ g) as [[c|m|] g1] eqn:Hc;
    apply check_or_insert_pins in Hc as (Hkeep & Hset & Hnp).
  - intros [= <- <- <-]. split; [done|]. intros ? [= <-]. split; [by apply validate_response_Ok|by eapply Hset].
  - intros [= <- <- <-]. naive_solver.
  - done.
  - intros [= <- <- <-]. split; [done|]. intros ? [= <-]. split; [by apply validate_response_Ok|by eapply Hset].
  - destruct (SynthBringup_run b w1) as [[x|x|] w2]; [|intros [= <- <- <-]; naive_solver..].
    intros [H1 H2]%IH. split; [naive_solver|done].
  - done.
Qed.

(** C33. Guarded proposals: an accepted response echoes the seed, holds
    exactly [k] bursts in slot order, all with its fingerprint, and that
    fingerprint is the one pinned for the profile of the request; no call,
    accepted or not, ever changes a pinned fingerprint, however often the
    synthesizer is brought up again in between. *)
Theorem guarded_proposals_pinned (b : SynthBringup) (request : ProposeBurstsRequest) (budget : nat)
    (w w' : W) (g g' : FingerprintRegistry) (r : res ClientError ProposeBurstsResponse) :
  propose_bursts_with_fingerprint_guard b request budget (w, g) = (r, (w', g')) ->
  (forall profile f, expected_fingerprint profile g = Some f -> expected_fingerprint profile g' = Some f) /\
  forall response, r = Ok response -> response_ok request response /\
    expected_fingerprint (SynthProfile_from_request request) g' = Some (ps_config_fingerprint response).
Proof.
  unfold propose_bursts_with_fingerprint_guard. rewrite st_bind_run. unfold lift_res.
  destruct (validate_propose_bursts_request request) as [[]|e|]; [apply fingerprint_guard_spec|intros [= <- <- <-]; naive_solver..].
Qed.
End Guard.

(** ** Witness *)

(** A synthesizer whose first answer carries a stale fingerprint; it has a
    counter of its calls for state. *)
Definition toy_burst (fingerprint : ConfigFingerprint) : ProvenancedBurst :=
  mkProvenancedBurst (mkBurst 1 [1%N] (Pad (mkPadBurst [] "pad"))) (mkProvenance GenWeightedRandom 0 "s" fingerprint None None None None).
Definition toy_synth : InputSynth nat := {|
  load_macro_pack := fun _ n => (Ok (mkLoadMacroPackResponse "pack" 1 []), n);
  SynthTypes.health := fun n => (Ok (mkHealthResponse Serving "v" ["pack"] ["exp"] false false false), n);
  propose_bursts := fun r n =>
    let f := if decide (n = 0%nat) then [7%N] else [9%N] in
    (Ok (mkProposeBurstsResponse [toy_burst f] f "v" (pq_seed r) []), S n) |}.
Definition sample_request : ProposeBurstsRequest :=
  mkProposeBurstsRequest "exp" (SynthTypes.mkNodeContext 0 None [] [] 0 0 0 0 (mkFinite f64_zero eq_refl) (mkFinite f64_zero eq_refl)
    [] [] None None []) 1 10 42 ModelPad [].
Definition sample_bringup : SynthBringup := mkSynthBringup "exp" (DocumentYaml []) [DocumentYaml []] ∅.
Definition sample_registry : FingerprintRegistry := mkFingerprintRegistry {[SynthProfile_from_request sample_request := [9%N]]}.

Lemma guarded_proposals_pinned_witness : exists response w' g',
  propose_bursts_with_fingerprint_guard (SY := toy_synth) sample_bringup sample_request 1 (0%nat, sample_registry) = (Ok response, (w', g')) /\
  ps_config_fingerprint response = [9%N] /\ response_ok sample_request response.
Proof.
  eexists _, _, _. split; [vm_compute; reflexivity|]. split; [reflexivity|].
  refine (proj1 (proj2 (guarded_proposals_pinned (SY := toy_synth) sample_bringup sample_request 1 0%nat _ sample_registry _ _ _) _ eq_refl)).
  vm_compute. reflexivity.
Defined.
