(* ===== verification/ScorerTypes.v ===== *)
(** State scorer boundary (crates/orch-clients/src/scorer.rs): artifacts and
    layouts, states to score, results, the archive, and the interface
    [Scorer] the orchestrator calls. *)
From S2P Require Import Prelude Float64 Types Client.

Abbreviation ScorerDigest := (list N) (only parsing).

(** ** Loading *)

Inductive ArtifactSource := InlineYaml (bytes : list N) | FromArtifact (ref : string).
Record ScorerRange := mkScorerRange {
  sg_region : string;
  sg_layout_version : N;
  sg_offset : N;
  sg_len : N
}.
Record ScorerLayout := mkScorerLayout { sg_ranges : list ScorerRange }.
Inductive ScorerPixelFormat := Rgb888 | Rgb555Le | Gray8 | ScXrgb8888.
Record FrameSpec := mkFrameSpec {
  fs_width : N;
  fs_height : N;
  fs_stride : N;
  fs_format : ScorerPixelFormat
}.
Record LoadFeatureMapRequest := mkLoadFeatureMapRequest {
  lf_experiment_id : string;
  lf_source : ArtifactSource;
  lf_layout : ScorerLayout;
  lf_frame : option FrameSpec;
  lf_rebin : bool
}.
Record LoadFeatureMapResponse := mkLoadFeatureMapResponse {
  lfr_feature_map_hash : ScorerDigest;
  lfr_field_count : N;
  lfr_feature_bytes_len : N;
  lfr_warnings : list string
}.
Record LoadScoringProgramRequest := mkLoadScoringProgramRequest {
  lp_experiment_id : string;
  lp_source : ArtifactSource
}.
Record LoadScoringProgramResponse := mkLoadScoringProgramResponse {
  lpr_program_hash : ScorerDigest;
  lpr_component_names : list string;
  lpr_goal_expr : string;
  lpr_warnings : list string;
  lpr_stage_names : list string
}.

(** ** Scoring *)

Inductive Framebuffer := FbLz4 (bytes : list N) | FbRaw (bytes : list N) | BlobRef (ref : string).
Record FramebufferMeta := mkFramebufferMeta {
  fbm_width : N;
  fbm_height : N;
  fbm_format : ScorerPixelFormat;
  fbm_uncompressed_len : N
}.
Record StateInput := mkStateInput {
  si_node_ref : string;
  si_feature_bytes : list N;
  si_framebuffer : option Framebuffer;
  si_fb_meta : option FramebufferMeta
}.
Inductive ArchiveUpdateMode := ScoreAndInsert | ScoreOnly.
Record ScoreBatchRequest := mkScoreBatchRequest {
  sq_experiment_id : string;
  sq_states : list StateInput;
  sq_archive_update : ArchiveUpdateMode;
  sq_client_batch_id : string;
  sq_return_decoded : bool
}.

Inductive ItemErrorKind := FeatureLenMismatch | DecodeFailed | FbMetaMismatch | FbDecompressFailed | FbRefUnsupported.
Record ItemError := mkItemError { ie_kind : ItemErrorKind; ie_detail : string }.
Inductive DecodedValue := DecodedNumber (value : FiniteF64) | DecodedInvalid.
Record ComponentScore := mkComponentScore {
  cp_name : string;
  cp_value : FiniteF64;
  cp_unlocked : bool
}.
Record NoveltyDetail := mkNoveltyDetail {
  nd_count_novelty : Novelty;
  nd_cell_key : CellKey;
  nd_cell_count : N;
  nd_visual_novelty : Novelty;
  nd_phash : N;
  nd_phash_min_hamming : N;
  nd_rnd_error : FiniteF64;
  nd_knn_distance : FiniteF64
}.
Record ScoreResult := mkScoreResult {
  sr_node_ref : string;
  sr_error : option ItemError;
  sr_progress_score : Score;
  sr_novelty_score : Novelty;
  sr_state_hash : StateHash;
  sr_goal_hit : bool;
  sr_duplicate : bool;
  sr_stage : Stage;
  sr_prune : bool;
  sr_decoded : list DecodedValue;
  sr_component_breakdown : list ComponentScore;
  sr_novelty_detail : NoveltyDetail
}.
Record ScoreBatchResponse := mkScoreBatchResponse {
  sbr_client_batch_id : string;
  sbr_archive_seq : N;
  sbr_results : list ScoreResult
}.

(** ** Archive *)

Record ArchiveRequest := mkArchiveRequest { aq_experiment_id : string; aq_checkpoint_id : string }.
Record CheckpointArchiveResponse := mkCheckpointArchiveResponse {
  ca_archive_ref : string;
  ca_archive_hash : ScorerDigest;
  ca_archive_seq : N;
  ca_cell_count : N;
  ca_phash_count : N;
  ca_embedding_count : N;
  ca_blob_bytes : N
}.
Record RestoreArchiveRequest := mkRestoreArchiveRequest {
  rq_experiment_id : string;
  rq_checkpoint_id : string;
  rq_archive_ref : string
}.
Record RestoreArchiveResponse := mkRestoreArchiveResponse {
  rar_archive_seq : N;
  rar_cell_count : N;
  rar_phash_count : N;
  rar_embedding_count : N;
  rar_bound_feature_map_hash : ScorerDigest;
  rar_bound_scoring_program_hash : ScorerDigest
}.
Record CommittedState := mkCommittedState { cm_state_hash : StateHash; cm_cell_key : CellKey }.
Global Instance CommittedState_eq_dec : EqDecision CommittedState.
Proof. solve_decision. Defined.
Record ReplayCommitsRequest := mkReplayCommitsRequest { rc_experiment_id : string; rc_states : list CommittedState }.
Record ReplayCommitsResponse := mkReplayCommitsResponse { rcr_applied : N; rcr_skipped : N }.

(** The calls of the scorer, on its state [W]; [checkpoint_archive] is the
    interface [ScorerArchive] of the durability part. *)
Class Scorer (W : Type) := {
  load_feature_map : LoadFeatureMapRequest -> st W ClientError LoadFeatureMapResponse;
  load_scoring_program : LoadScoringProgramRequest -> st W ClientError LoadScoringProgramResponse;
  score_batch : ScoreBatchRequest -> st W ClientError ScoreBatchResponse;
  restore_archive : RestoreArchiveRequest -> st W ClientError RestoreArchiveResponse;
  replay_commits : ReplayCommitsRequest -> st W ClientError ReplayCommitsResponse
}.
