(* ===== verification/Events.v ===== *)
(** Observatory events (crates/orch-server/src/events.rs,
    orch-clients/src/observatory.rs, orch-fakes/src/observatory.rs): payloads,
    the bounded drop-oldest ring in front of the sink, and the recording sink.
    What reaches the sink is in order and nothing is lost without being
    counted, whatever the sink refuses. *)
From S2P Require Import Prelude Float64 Types Client Fault Rng.
From stdpp Require Import pretty.
Local Open Scope string_scope.
Local Open Scope list_scope.

(** ** Payloads *)

(** A map is its association list in the order of the keys. *)
Inductive PayloadValue :=
| PvNull
| PvBool (b : bool)
| PvU64 (n : N)
| PvI64 (z : Z)
| PvF64 (x : FiniteF64)
| PvText (s : string)
| PvBytes (bytes : list N)
| PvList (l : list PayloadValue)
| PvMap (m : list (string * PayloadValue)).
Abbreviation Payload := (list (string * PayloadValue)) (only parsing).

(** [BTreeMap::insert]. *)
Fixpoint payload_insert (k : string) (v : PayloadValue) (m : Payload) : Payload :=
  match m with
  | [] => [(k, v)]
  | (k', v') :: rest =>
    match String.compare k k' with
    | Eq => (k, v) :: rest
    | Lt => (k, v) :: m
    | Gt => (k', v') :: payload_insert k v rest
    end
  end.

Record EventEnvelope := mkEventEnvelope {
  ee_run_id : string;
  ee_source_service : string;
  ee_producer_id : string;
  ee_seq : N;
  ee_ts_logical : N;
  ee_event_type : string;
  ee_payload : Payload
}.

Inductive PruneReason := PrDuplicate | PrRegression | PrExhausted | PrFrontierEvict | PrStageGate.
Definition PruneReason_as_str (r : PruneReason) : string :=
  match r with
  | PrDuplicate => "duplicate" | PrRegression => "regression" | PrExhausted => "exhausted"
  | PrFrontierEvict => "frontier-evict" | PrStageGate => "stage-gate"
  end.

Definition SOURCE_SERVICE : string := "EXPLORATION_ORCHESTRATOR".
Definition DEFAULT_RING_CAPACITY : nat := 1024.

Definition node_id_value (node : NodeId) : PayloadValue := PvText (pretty node).
Definition finite (value : f64) : PayloadValue :=
  match FiniteF64_new value with Ok x => PvF64 x | _ => PvNull end.

Definition node_added_payload (node parent : NodeId) (score novelty : f64) (cell_key stage : N)
    (features : list (string * f64)) : Payload :=
  let map := foldl (fun m '(name, value) =>
    match FiniteF64_new value with Ok x => payload_insert name (PvF64 x) m | _ => m end) [] features in
  foldl (fun m '(k, v) => payload_insert k v m) []
    [("node_id", node_id_value node); ("parent_node_id", node_id_value parent); ("score", finite score);
     ("novelty", finite novelty); ("cell_key", PvU64 cell_key); ("stage", PvU64 stage); ("features", PvMap map)].
Definition node_pruned_payload (parent : NodeId) (reason : PruneReason) (node : option NodeId) : Payload :=
  let payload := payload_insert "reason" (PvText (PruneReason_as_str reason))
                   (payload_insert "parent_node_id" (node_id_value parent) []) in
  match node with Some node => payload_insert "node_id" (node_id_value node) payload | None => payload end.
Definition best_score_improved_payload (node : NodeId) (best_score previous : f64) : Payload :=
  payload_insert "previous_best_score" (finite previous)
    (payload_insert "best_score" (finite best_score) (payload_insert "node_id" (node_id_value node) [])).
Definition stall_detected_payload (expansions_since_improvement window : N) : Payload :=
  payload_insert "window" (PvU64 window) (payload_insert "expansions_since_improvement" (PvU64 expansions_since_improvement) []).
Definition escalation_changed_payload (level previous_level : N) : Payload :=
  payload_insert "previous_level" (PvU64 previous_level) (payload_insert "level" (PvU64 level) []).
Definition goal_reached_payload (node : NodeId) (score : f64) : Payload :=
  payload_insert "score" (finite score) (payload_insert "node_id" (node_id_value node) []).
Definition batch_completed_payload (seq : N) (parent : NodeId) (committed discarded : N) : Payload :=
  foldl (fun m '(k, v) => payload_insert k v m) []
    [("batch_seq", PvU64 seq); ("parent_node_id", node_id_value parent); ("committed", PvU64 committed); ("discarded", PvU64 discarded)].
Definition checkpoint_payload (batch_seq expansions archive_seq : N) : Payload :=
  foldl (fun m '(k, v) => payload_insert k v m) []
    [("batch_seq", PvU64 batch_seq); ("expansions", PvU64 expansions); ("archive_seq", PvU64 archive_seq)].
Definition sdk_event_payload (node : NodeId) (stream : N) (payload_bytes : list N) : Payload :=
  foldl (fun m '(k, v) => payload_insert k v m) []
    [("node_id", node_id_value node); ("stream", PvU64 stream); ("payload", PvBytes payload_bytes)].

(** ** The emitter *)

Class EventSink (W : Type) := {
  sink_emit : EventEnvelope -> st W ClientError unit;
  sink_acked_seq : st W ClientError N
}.

(** A sink keeps what it accepts, in order, and nothing else. *)
Class EventSinkLaws (W : Type) {ES : EventSink W} := {
  accepted : W -> list EventEnvelope;
  sink_emit_law e w r w' : sink_emit e w = (r, w') ->
    accepted w' = match r with Ok _ => accepted w ++ [e] | _ => accepted w end
}.

Record EventEmitter (W : Type) := mkEventEmitter {
  em_sink : W;
  em_run_id : string;
  em_producer_id : string;
  em_next_seq : N;
  em_ring : list EventEnvelope;
  em_capacity : nat;
  em_dropped_total : N
}.
Arguments mkEventEmitter {W}.
Arguments em_sink {W}.
Arguments em_run_id {W}.
Arguments em_producer_id {W}.
Arguments em_next_seq {W}.
Arguments em_ring {W}.
Arguments em_capacity {W}.
Arguments em_dropped_total {W}.

Section Emitter.
Context {W : Type} `{ES : EventSink W}.
Implicit Types m : EventEmitter W.

Definition EventEmitter_new (sink : W) (run_id producer_id : string) : EventEmitter W :=
  mkEventEmitter sink run_id producer_id 1 [] DEFAULT_RING_CAPACITY 0.
Definition with_capacity (capacity : nat) m : EventEmitter W :=
  mkEventEmitter (em_sink m) (em_run_id m) (em_producer_id m) (em_next_seq m) (em_ring m) (Nat.max capacity 1) (em_dropped_total m).
Definition set_ring (sink : W) (ring : list EventEnvelope) (dropped : N) m : EventEmitter W :=
  mkEventEmitter sink (em_run_id m) (em_producer_id m) (em_next_seq m) ring (em_capacity m) dropped.
Definition set_next_seq (n : N) m : EventEmitter W :=
  mkEventEmitter (em_sink m) (em_run_id m) (em_producer_id m) n (em_ring m) (em_capacity m) (em_dropped_total m).

(** The loop of [flush]: what the sink refused stays. *)
Fixpoint flush_ring (ring : list EventEnvelope) (sink : W) : res ClientError (list EventEnvelope) * W :=
  match ring with
  | [] => (Ok [], sink)
  | envelope :: rest =>
    match sink_emit envelope sink with
    | (Ok _, sink') => flush_ring rest sink'
    | (Err _, sink') => (Ok ring, sink')
    | (Panic, sink') => (Panic, sink')
    end
  end.
Definition flush : st (EventEmitter W) ClientError unit := fun m =>
  match flush_ring (em_ring m) (em_sink m) with
  | (Ok ring, sink) => (Ok tt, set_ring sink ring (em_dropped_total m) m)
  | (_, sink) => (Panic, set_ring sink (em_ring m) (em_dropped_total m) m)
  end.

(** A full ring loses its oldest event. *)
Definition make_room m : EventEmitter W :=
  if decide (length (em_ring m) = em_capacity m)
  then set_ring (em_sink m) (tail (em_ring m)) (em_dropped_total m + 1) m else m.

Definition envelope_of m (ts_logical : N) (event_type : string) (payload : Payload) : EventEnvelope :=
  mkEventEnvelope (em_run_id m) SOURCE_SERVICE (em_producer_id m) (em_next_seq m) ts_logical event_type payload.

Definition emit (ts_logical : N) (event_type : string) (payload : Payload) : st (EventEmitter W) ClientError unit :=
  envelope ← gets (fun m => envelope_of m ts_logical event_type payload);
  next ← (fun m => (expect (checked_add u64_max (em_next_seq m) 1), m));
  _ ← modify (set_next_seq next);
  _ ← flush;
  _ ← modify make_room;
  _ ← modify (fun m => set_ring (em_sink m) (em_ring m ++ [envelope]) (em_dropped_total m) m);
  flush.

Fixpoint emit_all (events : list (N * string * Payload)) : st (EventEmitter W) ClientError unit :=
  match events with
  | [] => mret tt
  | (ts, event_type, payload) :: rest => _ ← emit ts event_type payload; emit_all rest
  end.

(** ** Accounting *)

Context `{EL : !EventSinkLaws W}.

Lemma flush_ring_spec ring sink r sink' : flush_ring ring sink = (r, sink') ->
  exists sent rest, ring = sent ++ rest /\ accepted sink' = accepted sink ++ sent /\ (r = Ok rest \/ r = Panic).
Proof.
  revert sink. induction ring as [|e ring IH]; intros sink; cbn [flush_ring].
  - intros [= <- <-]. exists [], []. rewrite (app_nil_r (accepted sink)). auto.
  - destruct (sink_emit e sink) as [[[]|x|] s1] eqn:E; apply sink_emit_law in E.
    + intros (sent & rest & -> & Ha & Hr)%IH. exists (e :: sent), rest. split; [done|]. split; [|done]. by rewrite Ha, E, <- app_assoc.
    + intros [= <- <-]. exists [], (e :: ring). rewrite app_nil_r. auto.
    + intros [= <- <-]. exists [], (e :: ring). rewrite app_nil_r. auto.
Qed.

(** What was emitted so far, as [past] followed by the ring; the sink holds a
    part of [past], in order, and the rest of it was counted as dropped. *)
Record emitter_inv (base emitted : list EventEnvelope) m : Prop := {
  ei_split past : emitted = past ++ em_ring m -> exists sent, accepted (em_sink m) = base ++ sent /\ sent `sublist_of` past /\
    N.of_nat (length past) = (N.of_nat (length sent) + em_dropped_total m)%N;
  ei_suffix : exists past, emitted = past ++ em_ring m;
  ei_ring : (length (em_ring m) <= em_capacity m)%nat
}.

Lemma flush_inv base emitted m r m' : emitter_inv base emitted m -> flush m = (r, m') -> r <> Panic ->
  emitter_inv base emitted m' /\ em_capacity m' = em_capacity m.
Proof.
  intros [H1 [past Hp] H3] E Hr. unfold flush in E. destruct (flush_ring _ _) as [o sink] eqn:Ef.
  apply flush_ring_spec in Ef as (sent & rest & Hring & Ha & [->| ->]); [|by injection E as <- <-].
  injection E as <- <-. destruct (H1 past Hp) as (sent0 & Hs & Hsub & Hc). rewrite Hring in Hp, H3. split; [|done]. split; cbn.
  - intros past' Hp'. assert (past' = past ++ sent) as ->.
    { rewrite Hp, app_assoc in Hp'. by apply app_inv_tail in Hp'. }
    exists (sent0 ++ sent). rewrite Ha, Hs, <- app_assoc. split; [done|]. split; [by apply sublist_app|]. rewrite !length_app. lia.
  - exists (past ++ sent). by rewrite <- app_assoc.
  - rewrite length_app in H3. lia.
Qed.

Lemma make_room_inv base emitted m : emitter_inv base emitted m -> (1 <= em_capacity m)%nat ->
  emitter_inv base emitted (make_room m) /\ em_capacity (make_room m) = em_capacity m /\
  (length (em_ring (make_room m)) < em_capacity m)%nat.
Proof.
  intros Hinv Hcap. pose proof Hinv as [H1 [past Hp] H3]. unfold make_room. case_decide as Hl; [|split; [done|]; split; [done|lia]].
  destruct (em_ring m) as [|e ring] eqn:Er; [cbn in Hl; lia|]. destruct (H1 past Hp) as (sent & Hs & Hsub & Hc).
  split; [|split; [done|cbn in *; lia]]. split; cbn.
  - intros past' Hp'. assert (past' = past ++ [e]) as ->.
    { rewrite Hp, cons_middle, app_assoc in Hp'. by apply app_inv_tail in Hp'. }
    exists sent. split; [done|]. split; [by apply sublist_inserts_r|]. rewrite length_app. cbn. lia.
  - exists (past ++ [e]). by rewrite <- app_assoc.
  - cbn in *. lia.
Qed.

Lemma push_inv base emitted m e : emitter_inv base emitted m -> (length (em_ring m) < em_capacity m)%nat ->
  emitter_inv base (emitted ++ [e]) (set_ring (em_sink m) (em_ring m ++ [e]) (em_dropped_total m) m).
Proof.
  intros [H1 [past Hp] H3] Hl. split; cbn.
  - intros past' Hp'. rewrite app_assoc in Hp'. apply app_inv_tail in Hp'. by apply H1.
  - exists past. by rewrite Hp, <- app_assoc.
  - rewrite length_app. cbn. lia.
Qed.

Lemma flush_ids m : let m' := (flush m).2 in
  em_next_seq m' = em_next_seq m /\ em_run_id m' = em_run_id m /\ em_producer_id m' = em_producer_id m.
Proof. unfold flush. by destruct (flush_ring _ _) as [[?|?|] ?]. Qed.

Lemma flush_no_error m e : (flush m).1 <> Err e.
Proof. unfold flush. by destruct (flush_ring _ _) as [[?|?|] ?]. Qed.

Lemma make_room_ids m : em_next_seq (make_room m) = em_next_seq m /\ em_run_id (make_room m) = em_run_id m /\
  em_producer_id (make_room m) = em_producer_id m.
Proof. unfold make_room. by case_decide. Qed.

Lemma emit_spec base emitted ts ty payload m r m' : emitter_inv base emitted m -> (1 <= em_capacity m)%nat ->
  emit ts ty payload m = (r, m') -> (forall e, r <> Err e) /\
  (r = Ok tt -> emitter_inv base (emitted ++ [envelope_of m ts ty payload]) m' /\ em_capacity m' = em_capacity m /\
     em_next_seq m' = (em_next_seq m + 1)%N /\ em_run_id m' = em_run_id m /\ em_producer_id m' = em_producer_id m).
Proof.
  intros Hinv Hcap E. unfold emit in E. rewrite gets_bind in E. rewrite st_bind_run in E.
  destruct (checked_add u64_max (em_next_seq m) 1) as [next|] eqn:En; cbn [expect] in E; [|by injection E as <- <-].
  apply checked_add_Some in En as [_ ->]. rewrite modify_bind in E. rewrite st_bind_run in E.
  assert (emitter_inv base emitted (set_next_seq (em_next_seq m + 1) m)) as Hinv1 by (by destruct Hinv).
  destruct (flush (set_next_seq _ m)) as [r1 m1] eqn:E1. pose proof (flush_no_error (set_next_seq (em_next_seq m + 1) m)) as Hne.
  pose proof (flush_ids (set_next_seq (em_next_seq m + 1) m)) as Hids1. rewrite E1 in Hne, Hids1. cbn in Hne, Hids1.
  destruct r1 as [[]|x|]; [|by destruct (Hne x)|by injection E as <- <-].
  destruct (flush_inv _ _ _ _ _ Hinv1 E1) as [Hinv2 Hc2]; [done|]. cbn in Hc2. rewrite !modify_bind in E.
  destruct (make_room_inv _ _ _ Hinv2) as (Hinv3 & Hc3 & Hl3); [lia|]. rewrite <- Hc3 in Hl3.
  pose proof (push_inv _ _ _ (envelope_of m ts ty payload) Hinv3 Hl3) as Hinv4.
  pose proof (flush_no_error (set_ring (em_sink (make_room m1)) (em_ring (make_room m1) ++ [envelope_of m ts ty payload])
    (em_dropped_total (make_room m1)) (make_room m1))) as Hne2.
  pose proof (flush_ids (set_ring (em_sink (make_room m1)) (em_ring (make_room m1) ++ [envelope_of m ts ty payload])
    (em_dropped_total (make_room m1)) (make_room m1))) as Hids2. rewrite E in Hne2, Hids2. cbn in Hne2, Hids2.
  split; [done|]. intros ->. destruct (flush_inv _ _ _ _ _ Hinv4 E) as [Hinv5 Hc5]; [done|]. cbn in Hc5.
  destruct (make_room_ids m1) as (F1 & F2 & F3). split; [done|]. split; [lia|]. naive_solver congruence.
Qed.

(** The envelopes of a sequence of events, numbered from [seq]. *)
Fixpoint envelopes (run_id producer_id : string) (seq : N) (events : list (N * string * Payload)) : list EventEnvelope :=
  match events with
  | [] => []
  | (ts, ty, payload) :: rest =>
    mkEventEnvelope run_id SOURCE_SERVICE producer_id seq ts ty payload :: envelopes run_id producer_id (seq + 1) rest
  end.

Lemma emit_all_spec base emitted events m r m' : emitter_inv base emitted m -> (1 <= em_capacity m)%nat ->
  emit_all events m = (r, m') -> (forall e, r <> Err e) /\
  (r = Ok tt -> emitter_inv base (emitted ++ envelopes (em_run_id m) (em_producer_id m) (em_next_seq m) events) m').
Proof.
  revert emitted m. induction events as [|[[ts ty] payload] events IH]; intros emitted m Hinv Hcap; cbn [emit_all envelopes].
  - intros [= <- <-]. rewrite app_nil_r. done.
  - rewrite st_bind_run. destruct (emit ts ty payload m) as [r1 m1] eqn:E.
    destruct (emit_spec _ _ _ _ _ _ _ _ Hinv Hcap E) as [Hne Hok]. destruct r1 as [[]|x|]; [|by destruct (Hne x)|by intros [= <- <-]].
    destruct (Hok eq_refl) as (Hinv1 & Hc & Hs & Hr & Hp). intros [H1 H2]%(IH _ _ Hinv1); [|lia]. split; [done|].
    intros ->. specialize (H2 eq_refl). rewrite Hs, Hr, Hp, <- app_assoc in H2. exact H2.
Qed.

(** The event ring: emitting never fails; after any sequence of events,
    whatever the sink refused, the sink has received a subsequence of the
    events in the order of their numbers, the ring holds exactly the events
    after some point and never more than its capacity, and every event before
    that point was received or counted as dropped. *)
Theorem events_accounted (m m' : EventEmitter W) (events : list (N * string * Payload)) (r : res ClientError unit) :
  em_ring m = [] -> em_dropped_total m = 0%N -> (1 <= em_capacity m)%nat -> emit_all events m = (r, m') ->
  (forall e, r <> Err e) /\
  (r = Ok tt -> exists past sent,
     envelopes (em_run_id m) (em_producer_id m) (em_next_seq m) events = past ++ em_ring m' /\
     accepted (em_sink m') = accepted (em_sink m) ++ sent /\ sent `sublist_of` past /\
     N.of_nat (length past) = (N.of_nat (length sent) + em_dropped_total m')%N /\
     (length (em_ring m') <= em_capacity m')%nat).
Proof.
  intros Hr Hd Hcap E. assert (emitter_inv (accepted (em_sink m)) [] m) as Hinv.
  { split; rewrite Hr; cbn; [|by exists []|lia]. intros past Hp. symmetry in Hp. apply app_nil in Hp as [-> _].
    exists []. rewrite app_nil_r, Hd. done. }
  destruct (emit_all_spec _ _ _ _ _ _ Hinv Hcap E) as [Hne Hok]. split; [done|]. intros Ho. destruct (Hok Ho) as [H1 [past Hp] H3].
  cbn in Hp. destruct (H1 past Hp) as (sent & ? & ? & ?). exists past, sent. done.
Qed.
End Emitter.

(** ** The recording sink *)

Record FakeObservatory := mkFakeObservatory {
  fo_events : list EventEnvelope;
  fo_acked_seq : N;
  fo_fault_injector : FaultInjector;
  fo_last_fault : option FaultDecision
}.
Definition observatory_with_fault_plan (plan : FaultPlan) : FakeObservatory := mkFakeObservatory [] 0 (injector_new plan) None.
Definition events_of_type (event_type : string) (o : FakeObservatory) : list EventEnvelope :=
  filter (fun e => ee_event_type e = event_type) (fo_events o).
Definition clear_events (o : FakeObservatory) : nat * FakeObservatory :=
  (length (fo_events o), mkFakeObservatory [] (fo_acked_seq o) (fo_fault_injector o) (fo_last_fault o)).

Section Observatory.
Context `{B3 : Blake3}.

Definition observe_fault (operation : string) (identity : list N) : st FakeObservatory ClientError unit := fun o =>
  match fault_decide (mkFaultRequest TargetObservatory operation identity) 0 (fo_fault_injector o) with
  | (Ok d, i) =>
    (match client_error (fd_terminal d) with Some e => Err e | None => Ok tt end,
     mkFakeObservatory (fo_events o) (fo_acked_seq o) i (Some d))
  | (_, i) => (Panic, mkFakeObservatory (fo_events o) (fo_acked_seq o) i (fo_last_fault o))
  end.

Definition fake_emit (e : EventEnvelope) : st FakeObservatory ClientError unit :=
  _ ← observe_fault "emit" (bytes_of_string (ee_event_type e));
  modify (fun o => mkFakeObservatory (fo_events o ++ [e]) (N.max (fo_acked_seq o) (ee_seq e)) (fo_fault_injector o) (fo_last_fault o)).
Definition fake_acked_seq : st FakeObservatory ClientError N :=
  _ ← observe_fault "acked_seq" [];
  gets fo_acked_seq.

Global Instance fake_sink : EventSink FakeObservatory := {| sink_emit := fake_emit; sink_acked_seq := fake_acked_seq |}.

Global Instance fake_sink_laws : EventSinkLaws FakeObservatory.
Proof.
  refine {| accepted := fo_events |}. intros e w r w'. cbn. unfold fake_emit. rewrite st_bind_run. unfold observe_fault.
  destruct (fault_decide _ _ _) as [[d|x|] i]; [destruct (client_error _)|..]; by intros [= <- <-].
Defined.
End Observatory.

(** ** Witness *)

(** The first two calls fail; the ring holds one event. *)
Definition outage_sink : EventSink (nat * list EventEnvelope) := {|
  sink_emit := fun e '(n, l) =>
    match n with
    | S n => (Err (mkClientError Unavailable "down"), (n, l))
    | O => (Ok tt, (0%nat, l ++ [e]))
    end;
  sink_acked_seq := fun w => (Ok 0%N, w) |}.
Definition outage_laws : @EventSinkLaws _ outage_sink.
Proof. refine {| accepted := snd : nat * list EventEnvelope -> _ |}. intros e [[|n] l] r w'; cbn; by intros [= <- <-]. Defined.

Definition sample_emitter : EventEmitter (nat * list EventEnvelope) :=
  with_capacity 1 (EventEmitter_new (2%nat, []) "run" "producer").
Definition sample_stream : list (N * string * Payload) := [(0%N, "node-added", []); (1%N, "node-added", []); (2%N, "checkpoint", [])].

Lemma events_accounted_witness : exists m' sent, emit_all (ES := outage_sink) sample_stream sample_emitter = (Ok tt, m') /\
  (em_sink m').2 = sent /\ N.of_nat 3 = (N.of_nat (length sent) + em_dropped_total m' + N.of_nat (length (em_ring m')))%N.
Proof.
  destruct (emit_all (ES := outage_sink) sample_stream sample_emitter) as [[[]|e|] m'] eqn:E;
    [|exfalso; apply (f_equal (fun p => is_Ok p.1)) in E; by vm_compute in E..].
  destruct (proj2 (events_accounted (EL := outage_laws) sample_emitter m' sample_stream (Ok tt) eq_refl eq_refl (le_n 1) E) eq_refl)
    as (past & sent & Hall & Hs & _ & Hc & _).
  exists m', sent. split; [reflexivity|]. split; [exact Hs|]. apply (f_equal length) in Hall. rewrite length_app in Hall. cbn in Hall.
  rewrite <- Hc, <- Nat2N.inj_add, <- Hall. reflexivity.
Defined.
