(* ===== verification/SynthConfig.v ===== *)
(** Macro packs named by a synthesizer configuration
    (crates/orch-driver/src/input_synth.rs, [parse_required_macro_pack_ids]):
    a line scanner over UTF-8 text.  Texts are byte strings; every pattern the
    scanner looks for is ASCII, so byte and character positions agree. *)
From S2P Require Import Prelude Types Client Rng SynthTypes StoreTypes SynthDriver.
Local Open Scope string_scope.
Local Open Scope list_scope.

(** ** [std::str] *)

Abbreviation text := (list N) (only parsing).

(** A continuation byte. *)
Definition is_cont (b : N) : bool := (128 <=? b)%N && (b <=? 191)%N.
Definition between (lo hi b : N) : bool := (lo <=? b)%N && (b <=? hi)%N.

(** [str::from_utf8]: the well-formed sequences of the Unicode standard. *)
Fixpoint utf8_valid (bytes : list N) : bool :=
  match bytes with
  | [] => true
  | b :: rest =>
    if (b <? 128)%N then utf8_valid rest
    else match rest with
         | c :: rest =>
           if between 194 223 b then is_cont c && utf8_valid rest
           else match rest with
                | d :: rest =>
                  if between 224 239 b then
                    (if (b =? 224)%N then between 160 191 c else if (b =? 237)%N then between 128 159 c else is_cont c)
                    && is_cont d && utf8_valid rest
                  else match rest with
                       | e :: rest =>
                         between 240 244 b
                         && (if (b =? 240)%N then between 144 191 c else if (b =? 244)%N then between 128 143 c else is_cont c)
                         && is_cont d && is_cont e && utf8_valid rest
                       | [] => false
                       end
                | [] => false
                end
         | [] => false
         end
  end.

(** White space at the end, on the reversed text. *)
Definition strip_whitespace_end (reversed : text) : option text :=
  match reversed with
  | b :: rest =>
    if between 9 13 b || (b =? 32)%N then Some rest
    else match reversed with
         | b :: 194%N :: rest => if (b =? 133)%N || (b =? 160)%N then Some rest else None
         | b :: c :: 225%N :: rest => if (c =? 154)%N && (b =? 128)%N then Some rest else None
         | b :: c :: 226%N :: rest =>
           if (c =? 128)%N && (between 128 138 b || (b =? 168)%N || (b =? 169)%N || (b =? 175)%N)
              || (c =? 129)%N && (b =? 159)%N
           then Some rest else None
         | b :: c :: 227%N :: rest => if (c =? 128)%N && (b =? 128)%N then Some rest else None
         | _ => None
         end
  | [] => None
  end.
Fixpoint strip_while (strip : text -> option text) (fuel : nat) (t : text) : text :=
  match fuel with
  | O => t
  | S fuel => match strip t with Some rest => strip_while strip fuel rest | None => t end
  end.
Definition trim_start (t : text) : text := strip_while strip_whitespace (length t) t.
Definition trim_end (t : text) : text := reverse (strip_while strip_whitespace_end (length t) (reverse t)).
Definition trim (t : text) : text := trim_end (trim_start t).
Definition trim_end_matches (c : N) (t : text) : text :=
  reverse (strip_while (fun r => match r with b :: rest => if (b =? c)%N then Some rest else None | [] => None end) (length t) (reverse t)).

Fixpoint strip_prefix (prefix t : text) : option text :=
  match prefix, t with
  | [], _ => Some t
  | p :: prefix, b :: t => if (p =? b)%N then strip_prefix prefix t else None
  | _, [] => None
  end.
Definition strip_suffix (suffix t : text) : option text := reverse <$> strip_prefix (reverse suffix) (reverse t).
Definition starts_with (prefix t : text) : bool := is_some (strip_prefix prefix t).
(** [str::find]: the byte position of the first occurrence. *)
Fixpoint find (pattern t : text) : option nat :=
  if starts_with pattern t then Some 0%nat
  else match t with [] => None | _ :: t => S <$> find pattern t end.
Definition contains_text (pattern t : text) : bool := is_some (find pattern t).

(** [str::split] on one byte. *)
Fixpoint split_on (c : N) (t : text) : list text :=
  match t with
  | [] => [[]]
  | b :: t =>
    if (b =? c)%N then [] :: split_on c t
    else match split_on c t with piece :: rest => (b :: piece) :: rest | [] => [[b]] end
  end.
(** [str::lines]: a final newline ends a line, and a carriage return before a
    newline belongs to it. *)
Definition strip_cr (t : text) : text := default t (strip_suffix [13%N] t).
Fixpoint lines_of (pieces : list text) : list text :=
  match pieces with
  | [] => []
  | [last] => if decide (last = []) then [] else [last]
  | piece :: rest => strip_cr piece :: lines_of rest
  end.
Definition lines (t : text) : list text := lines_of (split_on 10 t).

Definition chars (s : string) : text := bytes_of_string s.
Definition string_of_bytes (t : text) : string := String.string_of_list_ascii (Ascii.ascii_of_N <$> t).

(** ** The scanner *)

Definition strip_comment (line : text) : text := trim_end (default line (head (split_on 35 line))).

Definition unquote (quote : N) (t : text) : option text := rest ← strip_prefix [quote] t; strip_suffix [quote] rest.

Definition parse_pack_item (value : text) : res ClientError text :=
  let trimmed := trim_end_matches 44 (trim value) in
  if decide (trimmed = []) then Ok []
  else
    let unquoted := match unquote 34 trimmed with
                    | Some t => t
                    | None => default trimmed (unquote 39 trimmed)
                    end in
    if decide (trim unquoted = []) then Err (mkClientError InvalidRequest "macro.packs contains an empty pack id")
    else Ok (trim unquoted).

Definition add_item (item : text) (ids : gset string) : gset string :=
  if decide (item = []) then ids else {[string_of_bytes item]} ∪ ids.

Fixpoint parse_items (items : list text) (ids : gset string) : res ClientError (gset string) :=
  match items with
  | [] => Ok ids
  | value :: rest => item ← parse_pack_item (trim value); parse_items rest (add_item item ids)
  end.

Definition parse_pack_value (rest : text) (ids : gset string) : res ClientError (gset string) :=
  let value := trim rest in
  if decide (value = []) then Ok ids
  else if starts_with [91%N] value then
    match rest ← strip_prefix [91%N] value; strip_suffix [93%N] rest with
    | None => Err (mkClientError InvalidRequest "macro.packs inline list must close with ']'")
    | Some inner => parse_items (split_on 44 inner) ids
    end
  else item ← parse_pack_item value; Ok (add_item item ids).

Definition parse_inline_object_packs (rest : text) (ids : gset string) : res ClientError (gset string) :=
  match find (chars "packs") rest with
  | None => Ok ids
  | Some packs_index =>
    match find [58%N] (drop packs_index rest) with
    | None => Ok ids
    | Some colon_index =>
      let value := drop (packs_index + colon_index + 1) rest in
      match find [91%N] value with
      | None => Ok ids
      | Some list_start =>
        match find [93%N] (drop list_start value) with
        | None => Err (mkClientError InvalidRequest "macro.packs inline object list must close with ']'")
        | Some list_end => parse_pack_value (take (list_end + 1) (drop list_start value)) ids
        end
      end
    end
  end.

Record ScanState := mkScanState {
  sc_ids : gset string;
  sc_in_macro : bool;
  sc_macro_indent : nat;
  sc_in_packs : bool;
  sc_packs_indent : nat
}.

Definition scan_line (raw_line : text) (s : ScanState) : res ClientError ScanState :=
  let line := strip_comment raw_line in
  let trimmed := trim line in
  if decide (trimmed = []) then Ok s
  else
    let indent := (length line - length (trim_start line))%nat in
    let in_packs := sc_in_packs s && negb ((indent <=? sc_packs_indent s)%nat && negb (starts_with [45%N] trimmed)) in
    let in_macro := sc_in_macro s && negb ((indent <=? sc_macro_indent s)%nat && negb (starts_with (chars "packs:") trimmed)) in
    match strip_prefix (chars "macro.packs:") trimmed with
    | Some rest =>
      ids ← parse_pack_value rest (sc_ids s);
      Ok (mkScanState ids in_macro (sc_macro_indent s) (bool_decide (trim rest = [])) indent)
    | None =>
      match strip_prefix (chars "macro:") trimmed with
      | Some rest =>
        ids ← (if starts_with [123%N] (trim rest) && contains_text (chars "packs") rest
               then parse_inline_object_packs rest (sc_ids s) else Ok (sc_ids s));
        Ok (mkScanState ids true indent in_packs (sc_packs_indent s))
      | None =>
        match (if in_macro then strip_prefix (chars "packs:") trimmed else None) with
        | Some rest =>
          ids ← parse_pack_value rest (sc_ids s);
          Ok (mkScanState ids in_macro (sc_macro_indent s) (bool_decide (trim rest = [])) indent)
        | None =>
          match (if in_packs then strip_prefix [45%N] trimmed else None) with
          | Some rest =>
            item ← parse_pack_item (trim rest);
            Ok (mkScanState (add_item item (sc_ids s)) in_macro (sc_macro_indent s) in_packs (sc_packs_indent s))
          | None => Ok (mkScanState (sc_ids s) in_macro (sc_macro_indent s) in_packs (sc_packs_indent s))
          end
        end
      end
    end.

Fixpoint scan_lines (ls : list text) (s : ScanState) : res ClientError ScanState :=
  match ls with
  | [] => Ok s
  | line :: rest => s' ← scan_line line s; scan_lines rest s'
  end.

Definition parse_required_macro_pack_ids (config_yaml : list N) : res ClientError (gset string) :=
  if utf8_valid config_yaml then sc_ids <$> scan_lines (lines config_yaml) (mkScanState ∅ false 0 false 0)
  else Err (mkClientError InvalidRequest "experiment synth config is not valid UTF-8").

Definition SynthBringup_new (experiment_id : string) (config_source : LoadMacroPackSource)
    (macro_pack_sources : list LoadMacroPackSource) (required_pack_ids : gset string) : SynthBringup :=
  mkSynthBringup experiment_id config_source macro_pack_sources required_pack_ids.

Definition SynthBringup_from_sources (experiment_id : string) (config_source : LoadMacroPackSource)
    (macro_pack_sources : list LoadMacroPackSource) : res ClientError SynthBringup :=
  required ← match config_source with
             | DocumentYaml bytes => parse_required_macro_pack_ids bytes
             | ArtifactRef _ => Ok ∅
             end;
  Ok (SynthBringup_new experiment_id config_source macro_pack_sources required).

(** ** The forms the scanner accepts *)

Definition newline : string := String (Ascii.ascii_of_N 10) "".
Definition quoted (s : string) : string := String (Ascii.ascii_of_N 34) (s +:+ String (Ascii.ascii_of_N 34) "").
Definition join_lines (ls : list string) : list N := chars (foldr (fun l t => l +:+ newline +:+ t) "" ls).

Example scans_inline_and_block_forms :
  parse_required_macro_pack_ids
    (join_lines ["macro:"; "  packs: [ console16-movement-core, " +:+ quoted "boss-pack" +:+ " ]"; "other: ignored";
                 "macro.packs:"; "  - extra-pack # not this"; "macro: { packs: [ 'inline' ] }"])
  = Ok {["console16-movement-core"; "boss-pack"; "extra-pack"; "inline"]}.
Proof. apply (bool_decide_unpack _). vm_compute. exact I. Qed.
