(* ===== verification/Bringup.v ===== *)
(** Bring-up of an experiment (crates/orch-server/src/bringup.rs and the
    coarsening helper of experiment.rs): the feature map is compiled once and
    handed to the scorer and to the hypervisor, the scoring program is loaded,
    and the synthesizer is brought up. *)
From S2P Require Import Prelude Float64 Types Client Compile Runner HvTypes SynthTypes StoreTypes NodeAttrs SynthDriver ScorerTypes SynthConfig.
From stdpp Require Import pretty.
Local Open Scope string_scope.
Local Open Scope list_scope.

Definition CompileError_fmt (e : CompileError) : string :=
  match e with
  | WrongSchemaVersion version => "unsupported feature-map schema version " +:+ pretty version
  | InvalidName field name => "invalid " +:+ field +:+ " name " +:+ name
  | DuplicateRegion name => "duplicate region " +:+ name
  | DuplicateFeature name => "duplicate feature " +:+ name
  | UnknownRegion feature region => "feature " +:+ feature +:+ " references unknown region " +:+ region
  | UnknownRegionLayout region => "missing layout metadata for region " +:+ region
  | RegionSizeMismatch region => "feature-map region " +:+ region +:+ " exceeds manifest region size"
  | MissingBytesWidth feature => "bytes feature " +:+ feature +:+ " must declare width"
  | EmptyBytesFeature feature => "bytes feature " +:+ feature +:+ " must have nonzero width"
  | WidthMismatch feature => "feature " +:+ feature +:+ " declares a mismatched width"
  | FeatureOutOfBounds feature region => "feature " +:+ feature +:+ " is out of bounds for region " +:+ region
  | TotalLengthOverflow => "compiled layout length overflows u32"
  | FeatureNotCovered feature => "feature " +:+ feature +:+ " is not covered by compiled layout"
  | InvalidGridReference feature target => "grid feature " +:+ feature +:+ " has invalid reference " +:+ target
  | InvalidGridDoubleCount feature target => "grid feature " +:+ feature +:+ " would double-count target " +:+ target
  | InvalidGridCellSize feature => "grid feature " +:+ feature +:+ " must have nonzero cell size"
  | InvalidBucketSize feature => "bucket feature " +:+ feature +:+ " must have nonzero size"
  | InvalidBitflagsDiscretize feature => "bitflags feature " +:+ feature +:+ " must use bits or none discretization"
  | InvalidRadiusFactor => "radius factor must be at least 1/1"
  | RadiusOverflow => "radius factor scaling overflows u64"
  | VersionOverflow => "feature-map version overflow"
  | LayoutChangedByCoarsening => "L4 coarsening changed the compiled layout"
  end.

(** ** Sources and outcome *)

Record WorkloadSpec := mkWorkloadSpec {
  wl_machine_config : MachineConfig;
  wl_bootstrap_icount_cap : option GuestInstructions;
  wl_fps : option FpsRational;
  wl_pad_layout : option PadLayoutAttrs
}.
Record ExperimentSources := mkExperimentSources {
  so_feature_map : FeatureMap;
  so_region_layouts : RegionLayouts;
  so_synth_config_yaml : list N;
  so_macro_pack_yamls : list (list N);
  so_workload : WorkloadSpec
}.
Record BringupOutcome := mkBringupOutcome {
  bo_compiled : CompiledFeatureMap;
  bo_capture : CaptureSpec;
  bo_feature_map_hash : list N;
  bo_scoring_program_hash : list N;
  bo_stage_names : list string;
  bo_synth : SynthBringup;
  bo_synth_report : SynthBringupReport
}.

(** ** Decoded features *)

(** Fields selected by their meaning, or named by a grid. *)
Definition selected_fields (fields : list CompiledField) : list string :=
  fields ≫= fun f =>
    (if decide (cf_semantics f ∈ ["position_x"; "position_y"; "room_id"]) then [cf_name f] else []) ++
    match cf_discretize f with DGrid x y room _ _ => [x; y; room] | _ => [] end.

(** The first configured name that is no field. *)
Fixpoint first_unknown (known names : list string) : option string :=
  match names with
  | [] => None
  | name :: rest => if decide (name ∈ known) then first_unknown known rest else Some name
  end.

Definition materialize_decoded_features (c : ExperimentConfig) (compiled : CompiledFeatureMap) : res ConfigError (list string) :=
  let known := cf_name <$> cm_fields compiled in
  if decide (decoded_features c = []) then
    Ok (filter (fun name => name ∈ selected_fields (cm_fields compiled)) known)
  else match first_unknown known (decoded_features c) with
       | Some name => Err (DecodedFeatureNotInFeatureMap name)
       | None => Ok (decoded_features c)
       end.

(** ** Layouts for the two consumers *)

Definition scorer_layout (compiled : CompiledFeatureMap) : ScorerLayout :=
  mkScorerLayout ((fun r => mkScorerRange (Compile.er_region r) (Compile.er_layout_version r) (Compile.er_offset r) (Compile.er_len r))
                    <$> cm_layout compiled).
Definition hypervisor_capture (compiled : CompiledFeatureMap) : CaptureSpec :=
  mkCaptureSpec ((fun r => HvTypes.mkExtractRange (Compile.er_region r) (Compile.er_layout_version r) (Compile.er_offset r) (Compile.er_len r))
                   <$> cm_layout compiled) false.

Section Bringup.
Context `{SB : SortByStart}.
Context {W : Type} `{SC : Scorer W, SY : InputSynth W}.

Definition bring_up (c : ExperimentConfig) (experiment_id : string) (sources : ExperimentSources) (feature_map : FeatureMap)
    (rebin : bool) : st W ClientError BringupOutcome :=
  compiled ← lift_res (map_err (fun e => mkClientError InvalidRequest ("feature map compilation failed: " +:+ CompileError_fmt e))
                         (compile_feature_map feature_map (so_region_layouts sources)));
  map_response ← load_feature_map (mkLoadFeatureMapRequest experiment_id (FromArtifact (feature_map_ref c)) (scorer_layout compiled) None rebin);
  _ ← lift_res (if (lfr_feature_bytes_len map_response =? cm_total_len compiled)%N then Ok tt
                else Err (mkClientError FailedPrecondition
                       ("scorer feature_bytes_len " +:+ pretty (lfr_feature_bytes_len map_response) +:+ " != compiled total "
                        +:+ pretty (cm_total_len compiled) +:+ " (one compilation, two consumers)")));
  program_response ← load_scoring_program (mkLoadScoringProgramRequest experiment_id (FromArtifact (scoring_program_ref c)));
  bringup ← lift_res (SynthBringup_from_sources experiment_id (DocumentYaml (so_synth_config_yaml sources))
                        (DocumentYaml <$> so_macro_pack_yamls sources));
  report ← SynthBringup_run bringup;
  mret (mkBringupOutcome compiled (hypervisor_capture compiled) (lfr_feature_map_hash map_response)
          (lpr_program_hash program_response) (lpr_stage_names program_response) bringup report).

(** [(radius_factor.max(0.0) * 1000.0) as u64] over 1000. *)
Definition radius_of (c : ExperimentConfig) : RadiusFactor :=
  mkRadiusFactor (f64_as_unsigned u64_max (f64_mul (f64_max (radius_factor (ladder (plateau c))) f64_zero) (f64_of_N 1000))) 1000 eq_refl.

Fixpoint coarsen_times (n : nat) (layouts : RegionLayouts) (r : RadiusFactor) (map : FeatureMap) : res ClientError FeatureMap :=
  match n with
  | O => Ok map
  | S n =>
    map' ← map_err (fun e => mkClientError Internal ("L4 coarsening failed: " +:+ CompileError_fmt e))
             (coarsen_l4_preserving_layout map layouts r);
    coarsen_times n layouts r map'
  end.
Definition coarsened_map (sources : ExperimentSources) (c : ExperimentConfig) (version : N) : res ClientError FeatureMap :=
  coarsen_times (N.to_nat version) (so_region_layouts sources) (radius_of c) (so_feature_map sources).
End Bringup.
