(* ===== verification/WireConfig.v ===== *)
(** The served configuration (crates/orch-server/src/config.rs): the wire
    message of an experiment's configuration, the effective configuration its
    zero and absent fields are filled in to, validation, the way back to the
    wire and the hash of the canonical encoding.

    The wire messages and their enumerations are generated elsewhere: their
    records list the fields the code reads and writes, an enumeration is an
    [i32], and [WireEnums] names the numbers of its values. *)
From S2P Require Import Prelude Float64 Types Rng.
Local Open Scope string_scope.
Local Open Scope list_scope.

(** ** The wire messages *)

Record WireBudgets := mkWireBudgets {
  wb_max_nodes : N;
  wb_max_wall_clock_s : N;
  wb_max_guest_instructions : N;
  wb_max_expansions : N
}.
Record WireStaged := mkWireStaged { ws_inner : Z; ws_epsilon_regress : f64 }.
Record WireSelection := mkWireSelection {
  wsel_policy : Z;
  wsel_alpha : f64;
  wsel_beta : f64;
  wsel_gamma : f64;
  wsel_delta : f64;
  wsel_temperature : f64;
  wsel_ucb_c : f64;
  wsel_staged : option WireStaged;
  wsel_max_visits_per_node : N;
  wsel_exhaust_after_dup_expansions : N
}.
Record WireBurst := mkWireBurst {
  wbu_k_per_expansion : N;
  wbu_base_burst_len_frames : N;
  wbu_max_burst_len_frames : N;
  wbu_max_guest_instructions_per_job : N
}.
Record WireLadder := mkWireLadder {
  wl_burst_len_factor : f64;
  wl_temp_factor : f64;
  wl_macro_weight_hot : f64;
  wl_backtrack_kappa : f64;
  wl_backtrack_depth_quantile : f64;
  wl_radius_factor : f64;
  wl_max_level : N
}.
Record WirePlateau := mkWirePlateau { wp_window_n : N; wp_epsilon_s : f64; wp_ladder : option WireLadder }.
Record WireScheduling := mkWireScheduling {
  wsc_mode : Z;
  wsc_max_inflight_batches : N;
  wsc_job_timeout_s : N;
  wsc_retry_max : N;
  wsc_retry_backoff_ms : N;
  wsc_hypervisor_endpoints : list string;
  wsc_allow_class_mismatch : bool
}.
Record WireCheckpoint := mkWireCheckpoint { wc_every_commits : N; wc_every_seconds : N }.
Record WireConfig := mkWireConfig {
  w_version : N;
  w_seed : N;
  w_workload_image_ref : string;
  w_feature_map_ref : string;
  w_scoring_program_ref : string;
  w_synth_config_ref : string;
  w_macro_pack_refs : list string;
  w_budgets : option WireBudgets;
  w_selection : option WireSelection;
  w_burst : option WireBurst;
  w_plateau : option WirePlateau;
  w_scheduling : option WireScheduling;
  w_checkpoint : option WireCheckpoint;
  w_prune_action : Z;
  w_on_goal : Z;
  w_decoded_features : list string
}.

(** [Default] of the messages: every field zero, empty or absent. *)
Definition WireBudgets_default : WireBudgets := mkWireBudgets 0 0 0 0.
Definition WireStaged_default : WireStaged := mkWireStaged 0 f64_zero.
Definition WireSelection_default : WireSelection :=
  mkWireSelection 0 f64_zero f64_zero f64_zero f64_zero f64_zero f64_zero None 0 0.
Definition WireBurst_default : WireBurst := mkWireBurst 0 0 0 0.
Definition WireLadder_default : WireLadder := mkWireLadder f64_zero f64_zero f64_zero f64_zero f64_zero f64_zero 0.
Definition WirePlateau_default : WirePlateau := mkWirePlateau 0 f64_zero None.
Definition WireScheduling_default : WireScheduling := mkWireScheduling 0 0 0 0 0 [] false.
Definition WireCheckpoint_default : WireCheckpoint := mkWireCheckpoint 0 0.

(** The numbers of the generated enumerations, [as i32] and [try_from]. *)
Class WireEnums := {
  policy_number : PolicyKind -> Z;
  policy_of : Z -> option PolicyKind;
  mode_number : SchedMode -> Z;
  mode_of : Z -> option SchedMode;
  prune_number : PruneAction -> Z;
  prune_of : Z -> option PruneAction;
  goal_number : OnGoal -> Z;
  goal_of : Z -> option OnGoal
}.
(** [try_from] of a value's number is the value. *)
Class WireEnumsLaws {WE : WireEnums} := {
  policy_number_of : forall k, policy_of (policy_number k) = Some k;
  mode_number_of : forall m, mode_of (mode_number m) = Some m;
  prune_number_of : forall a, prune_of (prune_number a) = Some a;
  goal_number_of : forall g, goal_of (goal_number g) = Some g
}.
Arguments WireEnumsLaws : clear implicits.

(** ** Defaults *)

Definition or_default_u32 (value default : N) : N := if (value =? 0)%N then default else value.
Definition or_default_f64 (value default : f64) : f64 := if f64_eqb value f64_zero then default else value.

(** [join("; ")] *)
Fixpoint join_details (details : list string) : string :=
  match details with
  | [] => ""
  | [detail] => detail
  | detail :: rest => detail +:+ "; " +:+ join_details rest
  end.
Definition config_validation_failed_detail (violations : list ConfigError) : string :=
  "config validation failed: " +:+ join_details (ConfigError_fmt <$> violations).

Section Wire.
Context `{WE : WireEnums}.

Definition policy_kind (value : Z) : PolicyKind :=
  match policy_of value with Some Ucb => Ucb | Some Staged => Staged | _ => Softmax end.

Definition enum_is_unknown {T} (of_number : Z -> option T) (value : Z) : bool :=
  match of_number value with Some _ => false | None => true end.

Definition validate_sparse_wire_config (w : WireConfig) : list ConfigError :=
  match w_selection w with
  | Some selection =>
    push_if (enum_is_unknown policy_of (wsel_policy selection)) (UnknownEnumValue "selection.policy") ++
    match wsel_staged selection with
    | Some staged => push_if (enum_is_unknown policy_of (ws_inner staged)) (UnknownEnumValue "selection.staged.inner")
    | None => []
    end
  | None => []
  end ++
  match w_scheduling w with
  | Some scheduling => push_if (enum_is_unknown mode_of (wsc_mode scheduling)) (UnknownEnumValue "scheduling.mode")
  | None => []
  end ++
  push_if (enum_is_unknown prune_of (w_prune_action w)) (UnknownEnumValue "prune_action") ++
  push_if (enum_is_unknown goal_of (w_on_goal w)) (UnknownEnumValue "on_goal").

Definition wire_mode (scheduling : WireScheduling) : SchedMode :=
  match mode_of (wsc_mode scheduling) with Some Deterministic => Deterministic | _ => Fast end.

Definition effective_config (w : WireConfig) : ExperimentConfig :=
  let defaults := ExperimentConfig_new 0 "" "" "" "" in
  let budgets := default WireBudgets_default (w_budgets w) in
  let selection := default WireSelection_default (w_selection w) in
  let staged := default WireStaged_default (wsel_staged selection) in
  let burst := default WireBurst_default (w_burst w) in
  let plateau := default WirePlateau_default (w_plateau w) in
  let ladder := default WireLadder_default (wp_ladder plateau) in
  let scheduling := default WireScheduling_default (w_scheduling w) in
  let checkpoint := default WireCheckpoint_default (w_checkpoint w) in
  let mode := wire_mode scheduling in
  let max_inflight :=
    if decide (mode = Deterministic) then 1%N
    else or_default_u32 (wsc_max_inflight_batches scheduling) (max_inflight_batches (Types.scheduling defaults)) in
  let d_sel := Types.selection defaults in
  let d_ladder := Types.ladder (Types.plateau defaults) in
  let d_sched := Types.scheduling defaults in
  mkExperimentConfig (w_version w) (w_seed w) (w_workload_image_ref w) (w_feature_map_ref w) (w_scoring_program_ref w)
    (w_synth_config_ref w) (w_macro_pack_refs w)
    (mkBudgets
       (match w_budgets w with None => max_nodes (Types.budgets defaults) | Some _ => wb_max_nodes budgets end)
       (match w_budgets w with None => max_wall_clock_s (Types.budgets defaults) | Some _ => wb_max_wall_clock_s budgets end)
       (wb_max_guest_instructions budgets) (wb_max_expansions budgets))
    (mkSelectionConfig (policy_kind (wsel_policy selection))
       (or_default_f64 (wsel_alpha selection) (alpha d_sel)) (or_default_f64 (wsel_beta selection) (beta d_sel))
       (or_default_f64 (wsel_gamma selection) (gamma d_sel)) (or_default_f64 (wsel_delta selection) (delta d_sel))
       (or_default_f64 (wsel_temperature selection) (temperature d_sel)) (or_default_f64 (wsel_ucb_c selection) (ucb_c d_sel))
       (mkStagedConfig (policy_kind (ws_inner staged))
          (or_default_f64 (ws_epsilon_regress staged) (epsilon_regress (Types.staged d_sel))))
       (or_default_u32 (wsel_max_visits_per_node selection) (max_visits_per_node d_sel))
       (or_default_u32 (wsel_exhaust_after_dup_expansions selection) (exhaust_after_dup_expansions d_sel)))
    (mkBurstConfig (or_default_u32 (wbu_k_per_expansion burst) (k_per_expansion (Types.burst defaults)))
       (or_default_u32 (wbu_base_burst_len_frames burst) (base_burst_len_frames (Types.burst defaults)))
       (or_default_u32 (wbu_max_burst_len_frames burst) (max_burst_len_frames (Types.burst defaults)))
       (wbu_max_guest_instructions_per_job burst))
    (mkPlateauConfig (or_default_u32 (wp_window_n plateau) (window_n (Types.plateau defaults)))
       (or_default_f64 (wp_epsilon_s plateau) (epsilon_s (Types.plateau defaults)))
       (mkLadderConfig (or_default_f64 (wl_burst_len_factor ladder) (burst_len_factor d_ladder))
          (or_default_f64 (wl_temp_factor ladder) (temp_factor d_ladder))
          (or_default_f64 (wl_macro_weight_hot ladder) (macro_weight_hot d_ladder))
          (or_default_f64 (wl_backtrack_kappa ladder) (backtrack_kappa d_ladder))
          (or_default_f64 (wl_backtrack_depth_quantile ladder) (backtrack_depth_quantile d_ladder))
          (or_default_f64 (wl_radius_factor ladder) (radius_factor d_ladder))
          (match wp_ladder plateau with None => max_level d_ladder | Some _ => wl_max_level ladder end)))
    (mkSchedulingConfig mode max_inflight (or_default_u32 (wsc_job_timeout_s scheduling) (job_timeout_s d_sched))
       (or_default_u32 (wsc_retry_max scheduling) (retry_max d_sched))
       (or_default_u32 (wsc_retry_backoff_ms scheduling) (retry_backoff_ms d_sched))
       (wsc_hypervisor_endpoints scheduling) (wsc_allow_class_mismatch scheduling))
    (mkCheckpointConfig (or_default_u32 (wc_every_commits checkpoint) (every_commits (Types.checkpoint defaults)))
       (or_default_u32 (wc_every_seconds checkpoint) (every_seconds (Types.checkpoint defaults))))
    (match prune_of (w_prune_action w) with Some Drop => Drop | _ => Exhausted end)
    (match goal_of (w_on_goal w) with Some ContinueOnGoal => ContinueOnGoal | _ => StopOnGoal end)
    (w_decoded_features w).

Definition validate_wire_config (w : WireConfig) : list ConfigError :=
  validate_sparse_wire_config w ++ validate_all (effective_config w).
Definition validated_effective_config (w : WireConfig) : res (list ConfigError) ExperimentConfig :=
  let effective := effective_config w in
  let errors := validate_sparse_wire_config w ++ validate_all effective in
  if decide (errors = []) then Ok effective else Err errors.

(** ** The way back *)

Definition to_wire (c : ExperimentConfig) : WireConfig :=
  let s := selection c in
  let l := ladder (plateau c) in
  let d := scheduling c in
  mkWireConfig (cfg_version c) (cfg_seed c) (workload_image_ref c) (feature_map_ref c) (scoring_program_ref c) (synth_config_ref c)
    (macro_pack_refs c)
    (Some (mkWireBudgets (max_nodes (budgets c)) (max_wall_clock_s (budgets c)) (max_guest_instructions (budgets c))
             (max_expansions (budgets c))))
    (Some (mkWireSelection (policy_number (sel_policy s)) (alpha s) (beta s) (gamma s) (delta s) (temperature s) (ucb_c s)
             (Some (mkWireStaged (policy_number (staged_inner (staged s))) (epsilon_regress (staged s))))
             (max_visits_per_node s) (exhaust_after_dup_expansions s)))
    (Some (mkWireBurst (k_per_expansion (burst c)) (base_burst_len_frames (burst c)) (max_burst_len_frames (burst c))
             (max_guest_instructions_per_job (burst c))))
    (Some (mkWirePlateau (window_n (plateau c)) (epsilon_s (plateau c))
             (Some (mkWireLadder (burst_len_factor l) (temp_factor l) (macro_weight_hot l) (backtrack_kappa l)
                      (backtrack_depth_quantile l) (radius_factor l) (max_level l)))))
    (Some (mkWireScheduling (mode_number (sched_mode d)) (max_inflight_batches d) (job_timeout_s d) (retry_max d) (retry_backoff_ms d)
             (hypervisor_endpoints d) (allow_class_mismatch d)))
    (Some (mkWireCheckpoint (every_commits (Types.checkpoint c)) (every_seconds (Types.checkpoint c))))
    (prune_number (cfg_prune_action c)) (goal_number (on_goal c)) (decoded_features c).

(** [prost]'s encoding of a message. *)
Context (encode_to_vec : WireConfig -> list N) `{HB : Blake3}.
Definition config_hash (c : ExperimentConfig) : list N := blake3 (encode_to_vec (to_wire c)).

(** ** The round trip *)

Context (HWL : WireEnumsLaws WE).

Lemma or_default_u32_idem value default : or_default_u32 (or_default_u32 value default) default = or_default_u32 value default.
Proof. unfold or_default_u32. destruct (value =? 0)%N eqn:E; [by destruct (default =? 0)%N|by rewrite E]. Qed.
Lemma or_default_f64_idem value default : or_default_f64 (or_default_f64 value default) default = or_default_f64 value default.
Proof. unfold or_default_f64. destruct (f64_eqb value f64_zero) eqn:E; [by destruct (f64_eqb default f64_zero)|by rewrite E]. Qed.
Lemma policy_kind_number k : policy_kind (policy_number k) = k.
Proof. unfold policy_kind. rewrite policy_number_of. by destruct k. Qed.

(** What a wire message of an effective configuration reads back as. *)
Lemma to_wire_scheduling c : wire_mode (default WireScheduling_default (w_scheduling (to_wire c))) = sched_mode (scheduling c).
Proof. unfold wire_mode. cbn. rewrite mode_number_of. by destruct (sched_mode _). Qed.

(** The effective configuration of a wire message is a fixed point:
    written back to the wire it gives the same effective configuration, so
    the hash over its canonical encoding is the same whichever side filled
    in the defaults; and the message written back has no unknown
    enumeration value, so it validates as its effective configuration does;
    a deterministic experiment has one batch in flight. *)
Theorem effective_config_fixpoint (w : WireConfig) :
  effective_config (to_wire (effective_config w)) = effective_config w /\
  validate_wire_config (to_wire (effective_config w)) = validate_all (effective_config w) /\
  (sched_mode (scheduling (effective_config w)) = Deterministic -> max_inflight_batches (scheduling (effective_config w)) = 1%N).
Proof.
  assert (effective_config (to_wire (effective_config w)) = effective_config w) as Heq.
  { unfold effective_config at 1. rewrite to_wire_scheduling. cbn -[or_default_u32 or_default_f64 policy_kind wire_mode effective_config].
    rewrite !policy_kind_number, prune_number_of, goal_number_of.
    unfold effective_config. cbn -[or_default_u32 or_default_f64 policy_kind wire_mode].
    rewrite !or_default_f64_idem, !or_default_u32_idem. f_equal.
    - case_decide; [done|by rewrite or_default_u32_idem].
    - by destruct (prune_of _) as [[]|].
    - by destruct (goal_of _) as [[]|]. }
  split; [done|]. split; [|intros Hm; cbn [effective_config scheduling max_inflight_batches sched_mode] in Hm |- *; by rewrite decide_True].
  unfold validate_wire_config. rewrite Heq. unfold validate_sparse_wire_config, enum_is_unknown. cbn -[validate_all effective_config].
  by rewrite !policy_number_of, mode_number_of, prune_number_of, goal_number_of.
Qed.
End Wire.

(** ** Witness *)

Definition sample_enums : WireEnums := {|
  policy_number k := match k with Softmax => 0 | Ucb => 1 | Staged => 2 end;
  policy_of z := match z with 0 => Some Softmax | 1 => Some Ucb | 2 => Some Staged | _ => None end;
  mode_number m := match m with Fast => 0 | Deterministic => 1 end;
  mode_of z := match z with 0 => Some Fast | 1 => Some Deterministic | _ => None end;
  prune_number a := match a with Exhausted => 0 | Drop => 1 end;
  prune_of z := match z with 0 => Some Exhausted | 1 => Some Drop | _ => None end;
  goal_number g := match g with StopOnGoal => 0 | ContinueOnGoal => 1 end;
  goal_of z := match z with 0 => Some StopOnGoal | 1 => Some ContinueOnGoal | _ => None end
|}%Z.
Lemma sample_enums_laws : WireEnumsLaws sample_enums.
Proof. split; by intros []. Qed.
(** A sparse message: required references, a deterministic schedule. *)
Definition sample_wire : WireConfig :=
  mkWireConfig 1 42 "w" "f" "s" "y" [] None None None None (Some (mkWireScheduling 1 4 0 0 0 [] false)) None 0 1 [].

Lemma effective_config_fixpoint_witness :
  let effective := @effective_config sample_enums in
  @validated_effective_config sample_enums sample_wire = Ok (effective sample_wire) /\
  max_inflight_batches (scheduling (effective sample_wire)) = 1%N /\
  effective (@to_wire sample_enums (effective sample_wire)) = effective sample_wire.
Proof.
  destruct (@effective_config_fixpoint sample_enums sample_enums_laws sample_wire) as (Heq & _ & Hm).
  split; [vm_compute; reflexivity|]. split; [apply Hm; reflexivity|exact Heq].
Defined.
