(* ===== verification/CommitStage.v ===== *)
(** The runner's commit stage (crates/orch-server/src/experiment.rs):
    scoring a completed batch, committing its children by the commit rules,
    writing rows and events, and observing the score; and the replay of a
    logged batch after a restart.  [Stage] adds to the durable runner state
    what this stage keeps: runtimes, burst index, counters, fingerprints, the
    bring-up and the events handed to the emitter, in order. *)
From S2P Require Import Prelude Float64 Types Tree Frontier Mirror Commit Plateau Client Retry Rng Policy Checkpoint Runner Durable.
From S2P Require Import HvTypes SynthTypes WorkerDriver Pipeline StoreTypes NodeAttrs SynthDriver ScorerTypes Compile Events Bringup.
From stdpp Require Import pretty.
Local Open Scope string_scope.
Local Open Scope list_scope.

(** ** [Debug] texts of the core's errors *)

Definition id_debug (id : NodeId) : string := "NodeId(" +:+ pretty id +:+ ")".
Definition status_debug (s : NodeStatus) : string :=
  match s with StFrontier => "Frontier" | StExpanded => "Expanded" | StPruned => "Pruned" | StGoal => "Goal" end.
Definition field_debug (variant field value : string) : string := variant +:+ " { " +:+ field +:+ ": " +:+ value +:+ " }".
Definition TreeError_debug (e : TreeError) : string :=
  match e with
  | InvalidRootId actual => field_debug "InvalidRootId" "actual" (id_debug actual)
  | RootHasParent parent => field_debug "RootHasParent" "parent" (id_debug parent)
  | RootDepthNotZero depth => field_debug "RootDepthNotZero" "depth" (pretty depth)
  | MissingParent parent => field_debug "MissingParent" "parent" (id_debug parent)
  | NodeNotFound id => field_debug "NodeNotFound" "id" (id_debug id)
  | RootHasChildren children => field_debug "RootHasChildren" "children" (pretty children)
  | RootHasVisits visits => field_debug "RootHasVisits" "visits" (pretty visits)
  | RootIsExhausted => "RootIsExhausted"
  | RootIsGoal => "RootIsGoal"
  | RootStatusNotFrontier status => field_debug "RootStatusNotFrontier" "status" (status_debug status)
  | DepthOverflow parent => field_debug "DepthOverflow" "parent" (id_debug parent)
  | ChildCountOverflow parent => field_debug "ChildCountOverflow" "parent" (id_debug parent)
  | VisitOverflow id => field_debug "VisitOverflow" "id" (id_debug id)
  | TerminalGoalNode id => field_debug "TerminalGoalNode" "id" (id_debug id)
  | TerminalPrunedNode id => field_debug "TerminalPrunedNode" "id" (id_debug id)
  end.
Definition FrontierError_debug (e : FrontierError) : string :=
  match e with
  | DuplicateEntry id => "Duplicate(" +:+ id_debug id +:+ ")"
  | Missing id => "Missing(" +:+ id_debug id +:+ ")"
  | UnknownNode id => "UnknownNode(" +:+ id_debug id +:+ ")"
  end.
(** A string in quotes; the rule names need no escape. *)
Definition str_debug (s : string) : string := String (Ascii.ascii_of_N 34) (s +:+ String (Ascii.ascii_of_N 34) "").
Definition CommitError_debug (e : CommitError) : string :=
  match e with
  | ParentNotFound id => "ParentNotFound(" +:+ id_debug id +:+ ")"
  | InvalidRule field => "InvalidRule(" +:+ str_debug field +:+ ")"
  | CommitTree error => "Tree(" +:+ TreeError_debug error +:+ ")"
  | CommitFrontier error => "Frontier(" +:+ FrontierError_debug error +:+ ")"
  end.

(** ** State *)

Record NodeRuntime := mkNodeRuntime { nt_snapshot : SnapshotRef; nt_class : DeterminismClass }.

Record Stage (W CP : Type) := mkStage {
  xs_run : Run W CP;
  xs_runtimes : gmap NodeId NodeRuntime;
  xs_node_bursts : gmap (NodeId * BurstId) NodeId;
  xs_best_node : option NodeId;
  xs_discarded_dup : N;
  xs_discarded_regression : N;
  xs_fingerprints : FingerprintRegistry;
  xs_sources : ExperimentSources;
  xs_bringup : BringupOutcome;
  xs_emitted : list (N * string * Payload)
}.
Arguments mkStage {W CP}.
Arguments xs_run {W CP}.
Arguments xs_runtimes {W CP}.
Arguments xs_node_bursts {W CP}.
Arguments xs_best_node {W CP}.
Arguments xs_discarded_dup {W CP}.
Arguments xs_discarded_regression {W CP}.
Arguments xs_fingerprints {W CP}.
Arguments xs_sources {W CP}.
Arguments xs_bringup {W CP}.
Arguments xs_emitted {W CP}.

(** Updates of the parts of the runner's state. *)
Definition ss_set_commit_state (cs : CommitState) (s : SearchState) : SearchState :=
  mkSearchState (ss_config s) cs (ss_policy s) (ss_ladder s) (ss_batch_seq s) (ss_expansions s) (ss_guest_instructions_used s).
Definition ss_set_ladder (l : EscalationLadder) (s : SearchState) : SearchState :=
  mkSearchState (ss_config s) (ss_commit_state s) (ss_policy s) l (ss_batch_seq s) (ss_expansions s) (ss_guest_instructions_used s).
Definition ss_set_batch_seq (n : N) (s : SearchState) : SearchState :=
  mkSearchState (ss_config s) (ss_commit_state s) (ss_policy s) (ss_ladder s) n (ss_expansions s) (ss_guest_instructions_used s).
Definition ss_set_counters (expansions instructions : N) (s : SearchState) : SearchState :=
  mkSearchState (ss_config s) (ss_commit_state s) (ss_policy s) (ss_ladder s) (ss_batch_seq s) expansions instructions.
Definition pg_set_observed (stall : StallDetector) (best : option f64) (p : Progress) : Progress :=
  mkProgress stall (pg_feature_map_hash p) (pg_scoring_program_hash p) (pg_fingerprint p) best (pg_goal_nodes p)
    (pg_scorer_archive_seq p) (pg_started_at p) (pg_status p).
Definition pg_set_goal_nodes (l : list NodeId) (p : Progress) : Progress :=
  mkProgress (pg_stall p) (pg_feature_map_hash p) (pg_scoring_program_hash p) (pg_fingerprint p) (pg_best_score p) l
    (pg_scorer_archive_seq p) (pg_started_at p) (pg_status p).
Definition pg_set_archive_seq (n : N) (p : Progress) : Progress :=
  mkProgress (pg_stall p) (pg_feature_map_hash p) (pg_scoring_program_hash p) (pg_fingerprint p) (pg_best_score p) (pg_goal_nodes p)
    n (pg_started_at p) (pg_status p).
Definition pg_set_fingerprint (f : option (list N)) (p : Progress) : Progress :=
  mkProgress (pg_stall p) (pg_feature_map_hash p) (pg_scoring_program_hash p) f (pg_best_score p) (pg_goal_nodes p)
    (pg_scorer_archive_seq p) (pg_started_at p) (pg_status p).
Definition pg_set_hashes (map program : list N) (p : Progress) : Progress :=
  mkProgress (pg_stall p) map program (pg_fingerprint p) (pg_best_score p) (pg_goal_nodes p)
    (pg_scorer_archive_seq p) (pg_started_at p) (pg_status p).
Definition pg_set_status (status : ExperimentState) (p : Progress) : Progress :=
  mkProgress (pg_stall p) (pg_feature_map_hash p) (pg_scoring_program_hash p) (pg_fingerprint p) (pg_best_score p) (pg_goal_nodes p)
    (pg_scorer_archive_seq p) (pg_started_at p) status.
Definition du_set_commits (n : N) (d : DurableState) : DurableState :=
  mkDurableState (du_ckpt_generation d) (du_checkpointed_batch_seq d) (du_wal_floor d) n (du_last_checkpoint_at d) (du_replay_queue d).

(** ** Helpers of the runner *)

Definition parent_score (cs : CommitState) (parent : NodeId) : f64 :=
  match get (cs_tree cs) parent with Some record => finite_get (nr_score record) | None => f64_zero end.

(** Configured fields with a decoded number, in the order of the fields. *)
Definition decoded_pairs (c : ExperimentConfig) (b : BringupOutcome) (result : ScoreResult) : list (string * f64) :=
  omap (fun '(field, decoded) =>
    if decide (cf_name field ∈ decoded_features c) then
      match decoded with DecodedNumber value => Some (cf_name field, finite_get value) | DecodedInvalid => None end
    else None) (zip (cm_fields (bo_compiled b)) (sr_decoded result)).

(** [BTreeMap::insert] on the association list of an ordered map. *)
Fixpoint map_insert {V} (k : string) (v : V) (m : list (string * V)) : list (string * V) :=
  match m with
  | [] => [(k, v)]
  | (k', v') :: rest =>
    match String.compare k k' with
    | Eq => (k, v) :: rest
    | Lt => (k, v) :: m
    | Gt => (k', v') :: map_insert k v rest
    end
  end.
Definition decoded_map (c : ExperimentConfig) (b : BringupOutcome) (result : ScoreResult) : list (string * FiniteF64) :=
  foldl (fun m '(name, value) => match FiniteF64_new value with Ok x => map_insert name x m | _ => m end) []
    (decoded_pairs c b result).

(** [next_u64 = n + 1], which panics on overflow. *)
Definition succ_u64 (n : N) : res ClientError N := expect (checked_add u64_max n 1).

(** What the loop over a batch's children counts. *)
Record Tally := mkTally {
  ta_states : list CommittedState;
  ta_committed : N;
  ta_discarded : N;
  ta_best : option (NodeId * f64)
}.
Definition Tally_new : Tally := mkTally [] 0 0 None.
Definition tally_commit (state : CommittedState) (t : Tally) : Tally :=
  mkTally (ta_states t ++ [state]) (ta_committed t + 1) (ta_discarded t) (ta_best t).
Definition tally_discard (t : Tally) : Tally := mkTally (ta_states t) (ta_committed t) (ta_discarded t + 1) (ta_best t).
Definition tally_best (node : NodeId) (score : f64) (t : Tally) : Tally :=
  let better := match ta_best t with None => true | Some (_, best) => f64_gtb score best end in
  if better then mkTally (ta_states t) (ta_committed t) (ta_discarded t) (Some (node, score)) else t.

(** A completed job with its capture. *)
Definition scorable_job : Type := JobResult * ChildCapture.
Definition completed_jobs (done : BatchResult) : list JobResult :=
  omap (fun job => match job with Completed result => Some result | Abandoned _ _ => None end) (br_jobs done).
Definition scorable_jobs (jobs : list JobResult) : list scorable_job :=
  omap (fun job => (fun capture => (job, capture)) <$> jr_capture job) jobs.
Definition instructions_after (jobs : list JobResult) (used : N) : N :=
  foldl (fun n (job : scorable_job) => saturating_add u64_max n (cc_icount job.2)) used (scorable_jobs jobs).

Definition state_input (client_batch_id : string) (job : scorable_job) : StateInput :=
  mkStateInput (client_batch_id +:+ "-j" +:+ pretty (jr_job_idx job.1)) (default [] (cc_feature_bytes job.2)) None None.

Definition payload_of (capture : ChildCapture) (result : ScoreResult) (novelty_at_commit : Novelty) : NodePayload :=
  mkNodePayload (cc_snapshot capture) (sr_progress_score result) novelty_at_commit (nd_cell_key (sr_novelty_detail result))
    (sr_state_hash result) (sr_stage result) (cc_frame_counter capture).

Definition visit_update (node_id : NodeId) : NodeUpdate := mkNodeUpdate node_id None None None 1 0 true None.
Definition expand_update (node_id : NodeId) (status : NodeStatus) : NodeUpdate :=
  mkNodeUpdate node_id (Some status) None None 1 1 true None.

(** [payload.starts_with(prefix)] on bytes. *)
Definition payload_starts_with (prefix : string) (payload : list N) : bool :=
  bool_decide (take (String.length prefix) payload = bytes_of_string prefix).
Definition sdk_event_type (event : GuestEvent) : option string :=
  if payload_starts_with "assertion" (gev_payload event) then Some "assertion-violated"
  else if payload_starts_with "reachability" (gev_payload event) then Some "reachability-hit"
  else None.

Section Stage.
Context {W CP : Type} `{MS : MetadataStore W, RT : Runtime W, SA : ScorerArchive W, CR : CrashPolicy CP}.
Context `{PC : Postcard CheckpointV1, PI : Postcard ExpansionIntent, PA : Postcard OrchNodeAttrsV1}.
Context `{NS : NodeStore W, SC : Scorer W, SY : InputSynth W, SB : SortByStart, HD : F64Display}.
Implicit Types x : Stage W CP.

Definition set_run (r : Run W CP) x : Stage W CP :=
  mkStage r (xs_runtimes x) (xs_node_bursts x) (xs_best_node x) (xs_discarded_dup x) (xs_discarded_regression x)
    (xs_fingerprints x) (xs_sources x) (xs_bringup x) (xs_emitted x).
Definition set_child (node_id parent : NodeId) (burst_id : BurstId) (runtime : NodeRuntime) x : Stage W CP :=
  mkStage (xs_run x) (<[node_id := runtime]> (xs_runtimes x)) (<[(parent, burst_id) := node_id]> (xs_node_bursts x)) (xs_best_node x)
    (xs_discarded_dup x) (xs_discarded_regression x) (xs_fingerprints x) (xs_sources x) (xs_bringup x) (xs_emitted x).
Definition set_runtimes (m : gmap NodeId NodeRuntime) x : Stage W CP :=
  mkStage (xs_run x) m (xs_node_bursts x) (xs_best_node x) (xs_discarded_dup x) (xs_discarded_regression x)
    (xs_fingerprints x) (xs_sources x) (xs_bringup x) (xs_emitted x).
Definition set_best_node (n : option NodeId) x : Stage W CP :=
  mkStage (xs_run x) (xs_runtimes x) (xs_node_bursts x) n (xs_discarded_dup x) (xs_discarded_regression x)
    (xs_fingerprints x) (xs_sources x) (xs_bringup x) (xs_emitted x).
Definition set_discarded (dup regression : N) x : Stage W CP :=
  mkStage (xs_run x) (xs_runtimes x) (xs_node_bursts x) (xs_best_node x) dup regression
    (xs_fingerprints x) (xs_sources x) (xs_bringup x) (xs_emitted x).
Definition set_fingerprints (g : FingerprintRegistry) x : Stage W CP :=
  mkStage (xs_run x) (xs_runtimes x) (xs_node_bursts x) (xs_best_node x) (xs_discarded_dup x) (xs_discarded_regression x)
    g (xs_sources x) (xs_bringup x) (xs_emitted x).
Definition set_bringup (b : BringupOutcome) x : Stage W CP :=
  mkStage (xs_run x) (xs_runtimes x) (xs_node_bursts x) (xs_best_node x) (xs_discarded_dup x) (xs_discarded_regression x)
    (xs_fingerprints x) (xs_sources x) b (xs_emitted x).
(** [self.emitter.emit(ts, event_type, payload)]. *)
Definition emit_node_event (ts : N) (event_type : string) (payload : Payload) x : Stage W CP :=
  mkStage (xs_run x) (xs_runtimes x) (xs_node_bursts x) (xs_best_node x) (xs_discarded_dup x) (xs_discarded_regression x)
    (xs_fingerprints x) (xs_sources x) (xs_bringup x) (xs_emitted x ++ [(ts, event_type, payload)]).

Definition set_search (s : SearchState) (r : Run W CP) : Run W CP :=
  mkRun (rn_experiment_id r) (rn_config_hash r) (rn_retry r) s (rn_progress r) (rn_durable r) (rn_events r) (rn_crash r) (rn_world r).
Definition set_progress (p : Progress) (r : Run W CP) : Run W CP :=
  mkRun (rn_experiment_id r) (rn_config_hash r) (rn_retry r) (rn_search r) p (rn_durable r) (rn_events r) (rn_crash r) (rn_world r).

Definition on_run {A} (m : st (Run W CP) ClientError A) : st (Stage W CP) ClientError A := zoom xs_run set_run (fun e => e) m.
Definition commit_of x : CommitState := ss_commit_state (rn_search (xs_run x)).
Definition set_commit (cs : CommitState) x : Stage W CP :=
  set_run (set_search (ss_set_commit_state cs (rn_search (xs_run x))) (xs_run x)) x.
Definition config_of x : ExperimentConfig := ss_config (rn_search (xs_run x)).
Definition expansions_of x : N := ss_expansions (rn_search (xs_run x)).
(** An operation of the commit state, with the text of its error. *)
Definition on_commit {A} (what : string) (m : st CommitState CommitError A) : st (Stage W CP) ClientError A :=
  zoom commit_of set_commit (fun e => mkClientError Internal (what +:+ ": " +:+ CommitError_debug e)) m.
Definition mod_search (f : SearchState -> SearchState) : st (Stage W CP) ClientError unit :=
  modify (fun x => set_run (set_search (f (rn_search (xs_run x))) (xs_run x)) x).
Definition mod_progress (f : Progress -> Progress) : st (Stage W CP) ClientError unit :=
  modify (fun x => set_run (set_progress (f (rn_progress (xs_run x))) (xs_run x)) x).

(** ** Calls *)

Definition stage_score_batch (client_batch_id : string) (states : list StateInput) : st (Stage W CP) ClientError (list ScoreResult) :=
  x ← get_st;
  response ← on_run (rpc (score_batch (mkScoreBatchRequest (rn_experiment_id (xs_run x)) states ScoreOnly client_batch_id
                            (negb (bool_decide (decoded_features (config_of x) = []))))));
  _ ← mod_progress (pg_set_archive_seq (sbr_archive_seq response));
  mret (sbr_results response).

Definition stage_replay_commits (states : list CommittedState) : st (Stage W CP) ClientError unit :=
  if decide (states = []) then mret tt
  else
    x ← get_st;
    _ ← on_run (rpc (replay_commits (mkReplayCommitsRequest (rn_experiment_id (xs_run x)) states)));
    mret tt.

Definition update_node (update : NodeUpdate) : st (Stage W CP) ClientError unit :=
  x ← get_st;
  _ ← on_run (rpc (update_nodes (mkUpdateNodesRequest (rn_experiment_id (xs_run x)) [update])));
  mret tt.

Definition child_attrs x (job : scorable_job) (result : ScoreResult) (status : NodeStatus) : OrchNodeAttrsV1 :=
  let capture := job.2 in
  let attrs := OrchNodeAttrsV1_new (cc_machine_config_hash capture) (cc_determinism_class capture)
    (mkSynthContextAttrs (Some (jr_burst job.1)) (pg_fingerprint (rn_progress (xs_run x)))
       (decoded_map (config_of x) (xs_bringup x) result) (cc_frame_counter capture) (sr_state_hash result)
       (nd_cell_key (sr_novelty_detail result)) (sr_stage result) (sr_progress_score result) (sr_novelty_score result) None) in
  let attrs := if sr_goal_hit result then with_goal true attrs else attrs in
  if decide (status = StPruned) then with_prune_reason "exhausted" attrs else attrs.

Definition create_row (request : CreateNodeRequest) : st (Stage W CP) ClientError unit := fun x =>
  match on_run (rpc (create_node request)) x with
  | (Ok _, x') => (Ok tt, x')
  | (Err error, x') => if decide (ce_kind error = AlreadyExists) then (Ok tt, x') else (Err error, x')
  | (Panic, x') => (Panic, x')
  end.
Definition create_child_node (node_id parent : NodeId) (job : scorable_job) (result : ScoreResult) (status : NodeStatus)
    : st (Stage W CP) ClientError unit :=
  x ← get_st;
  attrs ← lift_res (encode_node_attrs (child_attrs x job result status));
  create_row (mkCreateNodeRequest (rn_experiment_id (xs_run x)) node_id (Some parent) (cc_snapshot job.2) (cc_input_log_id job.2)
    status (sr_progress_score result) (sr_novelty_score result) attrs None).

(** ** Scores *)

Definition observe_score (node : NodeId) (score_value : f64) : st (Stage W CP) ClientError unit := fun x =>
  let ts := expansions_of x in
  let p := rn_progress (xs_run x) in
  let previous_best := pg_best_score p in
  let previous_level := el_level (ss_ladder (rn_search (xs_run x))) in
  match FiniteF64_new score_value with
  | Ok score =>
    match observe score (pg_stall p) with
    | (Ok o, stall) =>
      let best := finite_get (so_best_score o) in
      let improves := so_improved o && match previous_best with None => true | Some b => f64_gtb best b end in
      let x := if improves then
                 emit_node_event ts "best-score-improved"
                   (best_score_improved_payload node best (default f64_zero previous_best)) (set_best_node (Some node) x)
               else x in
      let x := set_run (set_progress (pg_set_observed stall (Some best) p) (xs_run x)) x in
      let x := if so_completed_new_window o then
                 emit_node_event ts "stall-detected"
                   (stall_detected_payload (so_observations_since_improvement o) (window_n (plateau (config_of x)))) x
               else x in
      let '(snap, ladder) := apply_stall_observation o (ss_ladder (rn_search (xs_run x))) in
      let x := set_run (set_search (ss_set_ladder ladder (rn_search (xs_run x))) (xs_run x)) x in
      (Ok tt, if decide (es_level snap = previous_level) then x
              else emit_node_event ts "escalation-changed"
                     (escalation_changed_payload (level_get (es_level snap)) (level_get previous_level)) x)
    | (_, stall) => (Panic, set_run (set_progress (pg_set_observed stall (pg_best_score p) p) (xs_run x)) x)
    end
  | _ => (Ok tt, x)
  end.

Definition bringup_feature_map_version x : N :=
  meta_version (cm_meta (bo_compiled (xs_bringup x))) - meta_version (fm_meta (so_feature_map (xs_sources x))).

Definition maybe_rebin : st (Stage W CP) ClientError unit :=
  x ← get_st;
  let target_version := el_feature_map_version (ss_ladder (rn_search (xs_run x))) in
  if (target_version =? bringup_feature_map_version x)%N then mret tt
  else
    map ← lift_res (coarsened_map (xs_sources x) (config_of x) target_version);
    bringup ← on_run (on_world (bring_up (config_of x) (rn_experiment_id (xs_run x)) (xs_sources x) map true));
    _ ← modify (set_bringup bringup);
    _ ← mod_progress (pg_set_hashes (bo_feature_map_hash bringup) (bo_scoring_program_hash bringup));
    modify (fun x => set_commit (set_cell_mirror (reset_for_rebin (cs_cell_mirror (commit_of x))) (commit_of x)) x).

(** ** Children *)

Definition novelty_of (m : CellMirror) (cell : CellKey) : res ClientError Novelty :=
  map_err (fun e => mkClientError Internal ("novelty: non-finite float value " +:+ f64_display (nonfinite_value e)))
    (FiniteF64_new (novelty m cell)).

Definition prunes (job : scorable_job) (result : ScoreResult) : bool :=
  sr_prune result || bool_decide (jr_verdict job.1 = GuestHang).

(** The scored children; [hashes] are those of the siblings before. *)
Fixpoint build_children (m : CellMirror) (hashes : gset StateHash) (scored : list (scorable_job * ScoreResult))
    : res ClientError (list ScoredChild) :=
  match scored with
  | [] => Ok []
  | (job, result) :: scored' =>
    novelty ← novelty_of m (nd_cell_key (sr_novelty_detail result));
    let sibling_duplicate := bool_decide (sr_state_hash result ∈ hashes) in
    let child := mkScoredChild (payload_of job.2 result novelty) (sr_duplicate result || sibling_duplicate)
                   (prunes job result) (sr_goal_hit result) in
    children ← build_children m ({[sr_state_hash result]} ∪ hashes) scored';
    Ok (child :: children)
  end.

(** [if index > 0 && index == len / 2 { crash_check(MidBatchCommit)? }]. *)
Definition mid_batch_check (index len : nat) : st (Stage W CP) ClientError unit :=
  if (0 <? index)%nat && (index =? len / 2)%nat then on_run (crash_check MidBatchCommit) else mret tt.

Definition emit_event_st (ts : N) (event_type : string) (payload : Payload) : st (Stage W CP) ClientError unit :=
  modify (emit_node_event ts event_type payload).

Definition relay_sdk_events (ts : N) (node_id : NodeId) (events : list GuestEvent) x : Stage W CP :=
  foldl (fun x event =>
    match sdk_event_type event with
    | Some event_type => emit_node_event ts event_type (sdk_event_payload node_id (gev_stream event) (gev_payload event)) x
    | None => x
    end) x events.

Definition emit_added (ts : N) (node_id parent : NodeId) (payload : NodePayload) (result : ScoreResult) x : Stage W CP :=
  emit_node_event ts "node-added"
    (node_added_payload node_id parent (finite_get (np_score payload)) (finite_get (np_novelty_at_commit payload))
       (np_cell payload) (np_stage payload) (decoded_pairs (config_of x) (xs_bringup x) result)) x.

(** A committed child: its row, then its runtime, burst and events. *)
Definition commit_row (ts : N) (parent : NodeId) (job : scorable_job) (result : ScoreResult) (node_id : NodeId) (t : Tally)
    : st (Stage W CP) ClientError Tally :=
  x ← get_st;
  record ← lift_res (expect (get (cs_tree (commit_of x)) node_id));
  let payload := NodeRecord_payload record in
  let status := nr_status record in
  _ ← create_child_node node_id parent job result status;
  _ ← on_run (crash_check AfterCreateNode);
  let t := tally_commit (mkCommittedState (np_state_hash payload) (np_cell payload)) t in
  _ ← modify (set_child node_id parent (bu_burst_id (pv_burst (jr_burst job.1)))
                (mkNodeRuntime (cc_snapshot job.2) (cc_determinism_class job.2)));
  _ ← (if decide (status = StPruned)
       then emit_event_st ts "node-pruned" (node_pruned_payload parent PrExhausted (Some node_id))
       else modify (emit_added ts node_id parent payload result));
  _ ← modify (relay_sdk_events ts node_id (jr_sdk_events job.1));
  mret (tally_best node_id (finite_get (np_score payload)) t).

Definition count_discard (reason : PruneReason) : st (Stage W CP) ClientError unit :=
  x ← get_st;
  match reason with
  | PrRegression => n ← lift_res (succ_u64 (xs_discarded_regression x)); modify (set_discarded (xs_discarded_dup x) n)
  | _ => n ← lift_res (succ_u64 (xs_discarded_dup x)); modify (set_discarded n (xs_discarded_regression x))
  end.

Definition discard_row (ts : N) (parent : NodeId) (reason : PruneReason) (route : option NodeId) (t : Tally)
    : st (Stage W CP) ClientError Tally :=
  _ ← count_discard reason;
  _ ← match route with Some existing => update_node (visit_update existing) | None => mret tt end;
  _ ← emit_event_st ts "node-pruned" (node_pruned_payload parent reason None);
  mret (tally_discard t).

(** The loop that writes the outcome of a batch. *)
Fixpoint write_rows (ts : N) (parent : NodeId) (len index : nat) (rows : list (scorable_job * ScoreResult * ChildCommit)) (t : Tally)
    : st (Stage W CP) ClientError Tally :=
  match rows with
  | [] => mret t
  | (job, result, commit) :: rows' =>
    _ ← mid_batch_check index len;
    t' ← match cc_node_id commit with
         | Some node_id => commit_row ts parent job result node_id t
         | None =>
           let reason := if decide (disposition commit = Discard Regression) then PrRegression else PrDuplicate in
           discard_row ts parent reason (duplicate_route commit) t
         end;
    write_rows ts parent len (S index) rows' t'
  end.

(** ** The end of a batch *)

Definition parent_row (ts : N) (parent : NodeId) (evicted : option FrontierEvictReason) : st (Stage W CP) ClientError unit :=
  x ← get_st;
  record ← lift_res (expect (get (cs_tree (commit_of x)) parent));
  _ ← update_node (expand_update parent (nr_status record));
  if decide (is_Some evicted)
  then emit_event_st ts "node-pruned" (node_pruned_payload parent PrFrontierEvict None)
  else mret tt.

Definition count_expansion : st (Stage W CP) ClientError unit :=
  x ← get_st;
  expansions ← lift_res (succ_u64 (expansions_of x));
  commits ← lift_res (expect (checked_add u32_max (du_commits_since_checkpoint (rn_durable (xs_run x))) 1));
  _ ← mod_search (fun s => ss_set_counters expansions (ss_guest_instructions_used s) s);
  modify (fun x => set_run (set_durable (du_set_commits commits (rn_durable (xs_run x))) (xs_run x)) x).

Definition reach_goal (ts : N) (goal : NodeId) x : Stage W CP :=
  let p := rn_progress (xs_run x) in
  let goals := if decide (goal ∈ pg_goal_nodes p) then pg_goal_nodes p else pg_goal_nodes p ++ [goal] in
  let x := set_run (set_progress (pg_set_goal_nodes goals p) (xs_run x)) x in
  emit_node_event ts "goal-reached" (goal_reached_payload goal (parent_score (commit_of x) goal)) x.

(** Everything after the loop over the children. *)
Definition finish_batch (ts : N) (seq : N) (parent : NodeId) (evicted : option FrontierEvictReason) (goal : option NodeId) (t : Tally)
    : st (Stage W CP) ClientError (option NodeId) :=
  _ ← parent_row ts parent evicted;
  _ ← stage_replay_commits (ta_states t);
  _ ← count_expansion;
  _ ← emit_event_st ts "batch-completed" (batch_completed_payload seq parent (ta_committed t) (ta_discarded t));
  x ← get_st;
  _ ← observe_score (from_option fst parent (ta_best t)) (from_option snd (parent_score (commit_of x) parent) (ta_best t));
  _ ← maybe_rebin;
  match goal with
  | Some node => _ ← modify (reach_goal ts node); mret (Some node)
  | None => mret None
  end.

(** Counts the guest's instructions and scores the captures. *)
Definition score_stage (done : BatchResult) (intent : ExpansionIntent) : st (Stage W CP) ClientError (list (scorable_job * ScoreResult)) :=
  let jobs := completed_jobs done in
  let scorable := scorable_jobs jobs in
  _ ← mod_search (fun s => ss_set_counters (ss_expansions s) (instructions_after jobs (ss_guest_instructions_used s)) s);
  results ← (if decide (scorable = []) then mret []
             else stage_score_batch (ei_client_batch_id intent) (state_input (ei_client_batch_id intent) <$> scorable));
  mret (zip scorable results).

Definition own_commit : st (Stage W CP) ClientError unit :=
  _ ← on_run (crash_check BeforeCommitOwnerCheck);
  on_run (ensure_checkpoint_owner "node-commit").

Definition commit_completed (done : BatchResult) (intent : ExpansionIntent) : st (Stage W CP) ClientError (option NodeId) :=
  scored ← score_stage done intent;
  x ← get_st;
  children ← lift_res (build_children (cs_cell_mirror (commit_of x)) ∅ scored);
  _ ← own_commit;
  outcome ← on_commit "commit failed" (commit_batch (br_parent done) children (from_config (config_of x)));
  let ts := expansions_of x in
  t ← write_rows ts (br_parent done) (length (scorable_jobs (completed_jobs done))) 0 (zip scored (child_commits outcome)) Tally_new;
  finish_batch ts (br_seq done) (br_parent done) (parent_evicted outcome) (goal_node outcome) t.
End Stage.
