(* ===== verification/ReplayStage.v ===== *)
(** Dispatch of an expansion and the replay of a logged one
    (crates/orch-server/src/experiment.rs, dispatch_intent, guarded_propose,
    dispatch_replay, commit_replayed): the log entry is written before the
    batch is submitted, and after a restart a logged batch runs again and its
    children are adopted or committed anew. *)
From S2P Require Import Prelude Float64 Types Reasons Tree Frontier Mirror Commit Plateau Client Retry Rng Policy Checkpoint Runner Durable.
From S2P Require Import HvTypes SynthTypes WorkerDriver Pipeline StoreTypes NodeAttrs SynthDriver ScorerTypes Compile Events Bringup CommitStage.
From stdpp Require Import pretty.
Local Open Scope string_scope.
Local Open Scope list_scope.

(** The runner's end of the execute pipeline. *)
Class BatchPipeline (W : Type) := {
  submit : Batch -> st W ClientError unit;
  next_completed : st W ClientError (option BatchResult)
}.

(** ** The commit state of a replayed child *)

(** [.ok()]: the outcome is ignored, an abort is not. *)
Definition ignore_err {S E F A} (m : st S E A) : st S F unit := fun s =>
  match m s with (Panic, s') => (Panic, s') | (_, s') => (Ok tt, s') end.
Definition replay_tree {A} (m : st Tree TreeError A) : st CommitState TreeError A := zoom cs_tree set_tree (fun e => e) m.
Definition replay_seen (hash : StateHash) (id : NodeId) (s : CommitState) : CommitState :=
  set_seen (SeenMap_insert hash id (cs_seen s)).2 s.
Definition replay_bump (cell : CellKey) : st CommitState TreeError unit :=
  _ ← zoom cs_cell_mirror set_cell_mirror (fun e => e) (bump cell); mret tt.

Inductive ReplayVerdict :=
| ReplayDropped
| ReplayPruned (node_id : NodeId)
| ReplayDuplicate (route : option NodeId)
| ReplayRegression
| ReplayKept (node_id : NodeId) (status : NodeStatus).

(** The branches of the loop that are not an adoption, up to the store calls. *)
Definition replay_child (parent : NodeId) (parent_score : f64) (rules : CommitRules) (payload : NodePayload) (prune goal_hit : bool)
    : st CommitState TreeError ReplayVerdict :=
  let hash := np_state_hash payload in
  let cell := np_cell payload in
  duplicate ← gets (fun s => bool_decide (is_Some (SeenMap_get (cs_seen s) hash)));
  if prune then
    match prune_action rules with
    | Drop => mret ReplayDropped
    | Exhausted =>
      node_id ← replay_tree (insert_child parent payload);
      _ ← modify (ensure_tracking node_id);
      _ ← ignore_err (replay_tree (mark_pruned node_id));
      _ ← modify (replay_seen hash node_id);
      _ ← replay_bump cell;
      mret (ReplayPruned node_id)
    end
  else if (duplicate : bool) then
    _ ← replay_bump cell;
    route ← gets (fun s => SeenMap_get (cs_seen s) hash);
    _ ← match route with
        | Some existing => if decide (existing = parent) then mret tt else ignore_err (replay_tree (increment_visits existing))
        | None => mret tt
        end;
    mret (ReplayDuplicate route)
  else
    let worse := f64_ltb (f64_add (finite_get (np_score payload)) (epsilon_keep rules)) parent_score in
    known_cell ← gets (fun s => (0 <? count (cs_cell_mirror s) cell)%N);
    if worse && (known_cell : bool) then mret ReplayRegression
    else
      node_id ← replay_tree (insert_child parent payload);
      _ ← modify (ensure_tracking node_id);
      _ ← modify (replay_seen hash node_id);
      _ ← replay_bump cell;
      if goal_hit then
        _ ← ignore_err (replay_tree (mark_goal node_id));
        mret (ReplayKept node_id StGoal)
      else
        _ ← ignore_err (zoom cs_frontier set_frontier (fun e => e) (Frontier_insert node_id));
        mret (ReplayKept node_id StFrontier).

(** Whether the row the burst produced is this child's. *)
Definition adopted_node (bursts : gmap (NodeId * BurstId) NodeId) (t : Tree) (parent : NodeId) (burst_id : BurstId) (hash : StateHash)
    : option (NodeId * NodeRecord) :=
  existing ← bursts !! (parent, burst_id);
  record ← get t existing;
  if bool_decide (nr_parent record = Some parent) && bool_decide (nr_state_hash record = hash) then Some (existing, record) else None.

(** What the loop counts, with the first goal and whether every child was a
    duplicate. *)
Record ReplayTally := mkReplayTally { rt_tally : Tally; rt_goal : option NodeId; rt_all_duplicate : bool }.
Definition replay_tally (f : Tally -> Tally) (all_duplicate : bool) (t : ReplayTally) : ReplayTally :=
  mkReplayTally (f (rt_tally t)) (rt_goal t) all_duplicate.
Definition replay_goal (node_id : NodeId) (t : ReplayTally) : ReplayTally :=
  mkReplayTally (rt_tally t) (match rt_goal t with None => Some node_id | g => g end) (rt_all_duplicate t).

Section Replay.
Context {W CP : Type} `{MS : MetadataStore W, RT : Runtime W, SA : ScorerArchive W, CR : CrashPolicy CP}.
Context `{PC : Postcard CheckpointV1, PI : Postcard ExpansionIntent, PA : Postcard OrchNodeAttrsV1}.
Context `{NS : NodeStore W, SC : Scorer W, SY : InputSynth W, BP : BatchPipeline W, SB : SortByStart, HD : F64Display, HB : Blake3, HC : ChaCha12}.
Implicit Types x : Stage W CP.

(** ** Dispatch *)

Definition build_spec x (intent : ExpansionIntent) : ProposeBurstsBuildSpec :=
  let knobs := ei_knobs intent in
  mkProposeBurstsBuildSpec (rn_experiment_id (xs_run x)) (ei_node intent) (ik_k knobs) (ik_length_hint_frames knobs)
    (cfg_seed (config_of x)) (ei_seq intent) ModelPad (ik_config_overrides_yaml knobs) NodeContextLimits_default.

(** A response is checked against the base fingerprint, then the registry. *)
Definition guard_response (request : ProposeBurstsRequest) (response : ProposeBurstsResponse)
    : st (Stage W CP) ClientError ProposeBurstsResponse := fun x =>
  let actual := ps_config_fingerprint response in
  let base_profile := bool_decide (pq_config_overrides_yaml request = []) in
  let diverged := base_profile && match pg_fingerprint (rn_progress (xs_run x)) with
                                  | Some expected => negb (bool_decide (actual = expected))
                                  | None => false
                                  end in
  if diverged then
    (Err (mkClientError FailedPrecondition
       (REASON_FINGERPRINT_MISMATCH +:+ ": base-profile fingerprint diverged from the checkpointed bring-up fingerprint")), x)
  else
    match check_or_insert (SynthProfile_from_request request) actual (xs_fingerprints x) with
    | (Ok _, g) =>
      let x := set_fingerprints g x in
      (Ok response, if base_profile
                    then set_run (set_progress (pg_set_fingerprint (Some actual) (rn_progress (xs_run x))) (xs_run x)) x
                    else x)
    | (Err mismatch, g) => (Err (mismatch_error mismatch), set_fingerprints g x)
    | (Panic, g) => (Panic, set_fingerprints g x)
    end.

Definition guarded_propose (request : ProposeBurstsRequest) : st (Stage W CP) ClientError ProposeBurstsResponse :=
  response ← on_run (rpc (propose_bursts request));
  _ ← lift_res (validate_propose_bursts_response request response);
  guard_response request response.

Definition synthesize (intent : ExpansionIntent) : st (Stage W CP) ClientError ProposeBurstsResponse :=
  x ← get_st;
  request ← on_run (on_world (build_propose_bursts_request (build_spec x intent)));
  guarded_propose request.

Definition submit_batch (what : string) (intent : ExpansionIntent) (bursts : list ProvenancedBurst) : st (Stage W CP) ClientError unit :=
  x ← get_st;
  runtime ← lift_res (ok_or (xs_runtimes x !! ei_node intent)
              (mkClientError Internal ("no runtime for " +:+ what +:+ pretty (ei_node intent))));
  _ ← on_run (on_world (submit (mkBatch (ei_seq intent) (ei_node intent) (nt_snapshot runtime) (Some (nt_class runtime)) bursts)));
  on_run (crash_check AfterDispatch).

(** The log entry of an intent. *)
Definition log_intent (intent : ExpansionIntent) : st (Stage W CP) ClientError unit :=
  x ← get_st;
  wal_bytes ← lift_res (as_client_error Internal (encode_intent intent));
  _ ← on_run (rpc (put_metadata (wal_key (rn_experiment_id (xs_run x)) (ei_seq intent)) wal_bytes Unconditional));
  mret tt.

(** The intents in flight, by seq. *)
Abbreviation Inflight := (gmap N ExpansionIntent) (only parsing).

Definition dispatch_intent (inflight : Inflight) (intent : ExpansionIntent) : st (Stage W CP) ClientError Inflight :=
  response ← synthesize intent;
  _ ← log_intent intent;
  _ ← on_run (crash_check AfterWalWrite);
  _ ← submit_batch "node " intent (ps_bursts response);
  next ← lift_res (succ_u64 (ei_seq intent));
  _ ← mod_search (fun s => ss_set_batch_seq (N.max (ss_batch_seq s) next) s);
  mret (<[ei_seq intent := intent]> inflight).

Definition dispatch_replay (intent : ExpansionIntent) : st (Stage W CP) ClientError unit :=
  response ← synthesize intent;
  _ ← on_run (crash_check AfterWalWrite);
  submit_batch "replayed node " intent (ps_bursts response).

(** ** Replay *)

Definition register_committed_child (node_id : NodeId) (job : scorable_job) x : Stage W CP :=
  let runtime := mkNodeRuntime (cc_snapshot job.2) (cc_determinism_class job.2) in
  match get (cs_tree (commit_of x)) node_id ≫= nr_parent with
  | Some parent => set_child node_id parent (bu_burst_id (pv_burst (jr_burst job.1))) runtime x
  | None => set_runtimes (<[node_id := runtime]> (xs_runtimes x)) x
  end.

Definition on_tree_op {A} (what : string) (m : st CommitState TreeError A) : st (Stage W CP) ClientError A :=
  zoom commit_of set_commit (fun e => mkClientError Internal (what +:+ ": " +:+ TreeError_debug e)) m.

(** A child the replay commits anew: its row, then runtime, burst and count. *)
Definition replay_row (parent node_id : NodeId) (job : scorable_job) (result : ScoreResult) (status : NodeStatus) (t : ReplayTally)
    : st (Stage W CP) ClientError ReplayTally :=
  _ ← create_child_node node_id parent job result status;
  _ ← on_run (crash_check AfterCreateNode);
  _ ← modify (register_committed_child node_id job);
  mret (replay_tally (tally_commit (mkCommittedState (sr_state_hash result) (nd_cell_key (sr_novelty_detail result)))) false t).

(** The store calls and events of a branch. *)
Definition replay_effects (ts : N) (parent : NodeId) (job : scorable_job) (result : ScoreResult) (payload : NodePayload)
    (verdict : ReplayVerdict) (t : ReplayTally) : st (Stage W CP) ClientError ReplayTally :=
  match verdict with
  | ReplayDropped => mret (replay_tally tally_discard false t)
  | ReplayPruned node_id =>
    t' ← replay_row parent node_id job result StPruned t;
    _ ← emit_event_st ts "node-pruned" (node_pruned_payload parent PrExhausted (Some node_id));
    mret t'
  | ReplayDuplicate route =>
    t' ← discard_row ts parent PrDuplicate route (rt_tally t);
    mret (mkReplayTally t' (rt_goal t) (rt_all_duplicate t))
  | ReplayRegression =>
    t' ← discard_row ts parent PrRegression None (rt_tally t);
    mret (mkReplayTally t' (rt_goal t) false)
  | ReplayKept node_id status =>
    let t := if decide (status = StGoal) then replay_goal node_id t else t in
    t' ← replay_row parent node_id job result status t;
    _ ← modify (emit_added ts node_id parent payload result);
    mret (replay_tally (tally_best node_id (finite_get (np_score payload))) false t')
  end.

(** An adopted child only counts. *)
Definition adopt_child (result : ScoreResult) (existing : NodeId) (record : NodeRecord) (t : ReplayTally) : ReplayTally :=
  let state := mkCommittedState (sr_state_hash result) (nd_cell_key (sr_novelty_detail result)) in
  let t := replay_tally (fun t => tally_best existing (finite_get (nr_score record)) (tally_commit state t)) false t in
  if nr_goal record then replay_goal existing t else t.

Definition replay_one (ts : N) (parent : NodeId) (parent_score : f64) (rules : CommitRules) (job : scorable_job) (result : ScoreResult)
    (t : ReplayTally) : st (Stage W CP) ClientError ReplayTally :=
  x ← get_st;
  let burst_id := bu_burst_id (pv_burst (jr_burst job.1)) in
  match adopted_node (xs_node_bursts x) (cs_tree (commit_of x)) parent burst_id (sr_state_hash result) with
  | Some (existing, record) => mret (adopt_child result existing record t)
  | None =>
    novelty ← lift_res (novelty_of (cs_cell_mirror (commit_of x)) (nd_cell_key (sr_novelty_detail result)));
    let payload := payload_of job.2 result novelty in
    verdict ← on_tree_op "replay insert failed"
                (replay_child parent parent_score rules payload (prunes job result) (sr_goal_hit result));
    replay_effects ts parent job result payload verdict t
  end.

Fixpoint replay_rows (ts : N) (parent : NodeId) (parent_score : f64) (rules : CommitRules) (len index : nat)
    (scored : list (scorable_job * ScoreResult)) (t : ReplayTally) : st (Stage W CP) ClientError ReplayTally :=
  match scored with
  | [] => mret t
  | (job, result) :: scored' =>
    _ ← mid_batch_check index len;
    t' ← replay_one ts parent parent_score rules job result t;
    replay_rows ts parent parent_score rules len (S index) scored' t'
  end.

Definition commit_replayed (done : BatchResult) (intent : ExpansionIntent) : st (Stage W CP) ClientError (option NodeId) :=
  scored ← score_stage done intent;
  _ ← own_commit;
  x ← get_st;
  let parent := br_parent done in
  let rules := from_config (config_of x) in
  let ts := expansions_of x in
  let scorable := scorable_jobs (completed_jobs done) in
  t ← replay_rows ts parent (parent_score (commit_of x) parent) rules (length scorable) 0 scored
        (mkReplayTally Tally_new None (negb (bool_decide (scorable = []))));
  visits ← on_tree_op "replay visit failed" (replay_tree (increment_visits parent));
  evicted ← on_commit "replay exhaustion failed" (update_parent_exhaustion parent visits (rt_all_duplicate t) rules);
  finish_batch ts (br_seq done) parent evicted (rt_goal t) (rt_tally t).
End Replay.
