(* ===== verification/RunLoop.v ===== *)
(** The experiment's run (crates/orch-server/src/experiment.rs, run,
    run_phases, run_loop, handle_control, drain_inflight, publish_status):
    replay of the log, then selecting and committing until a budget, a goal,
    a stop or a failure ends it, and the final checkpoint.

    [ru_control] is the tape of control messages: one entry per look at the
    channel, [None] when it was empty then; past the end every sender is
    gone.  [ru_status] is the last snapshot published. *)
From S2P Require Import Prelude Float64 Types Reasons Tree Frontier Mirror Commit Plateau Client Retry Rng Policy Softmax Ucb Staged Checkpoint Runner Durable.
From S2P Require Import HvTypes SynthTypes WorkerDriver Pipeline StoreTypes NodeAttrs SynthDriver ScorerTypes Compile Events Bringup CommitStage ReplayStage.
From stdpp Require Import pretty.
Local Open Scope string_scope.
Local Open Scope list_scope.

Inductive Control := CtlPause | CtlResume | CtlStop.

Record StatusSnapshot := mkStatusSnapshot {
  st_state : ExperimentState;
  st_expansions : N;
  st_nodes : N;
  st_best_score : option f64;
  st_best_node : option NodeId;
  st_batch_seq : N;
  st_checkpointed_batch_seq : N;
  st_escalation_level : N;
  st_expansions_since_improvement : N;
  st_frontier_size : N;
  st_children_discarded_dup : N;
  st_children_discarded_regression : N;
  st_guest_instructions_used : N;
  st_goal_nodes : list NodeId;
  st_failure_reason : option string
}.
Definition StatusSnapshot_initial : StatusSnapshot := mkStatusSnapshot Checkpoint.Pending 0 0 None None 0 0 0 0 0 0 0 0 [] None.

Record RunOutcome := mkRunOutcome {
  ro_state : ExperimentState;
  ro_expansions : N;
  ro_nodes : N;
  ro_best_score : option f64;
  ro_goal_nodes : list NodeId;
  ro_failure_reason : option string
}.

Record Runner (W CP : Type) := mkRunner {
  ru_stage : Stage W CP;
  ru_inflight : gmap N ExpansionIntent;
  ru_failure_reason : option string;
  ru_control : list (option Control);
  ru_status : StatusSnapshot
}.
Arguments mkRunner {W CP}.
Arguments ru_stage {W CP}.
Arguments ru_inflight {W CP}.
Arguments ru_failure_reason {W CP}.
Arguments ru_control {W CP}.
Arguments ru_status {W CP}.

Definition FrontierError_fmt (e : FrontierError) : string :=
  match e with
  | DuplicateEntry id => "node " +:+ id_debug id +:+ " already in frontier"
  | Missing id => "node " +:+ id_debug id +:+ " not in frontier"
  | UnknownNode id => "node " +:+ id_debug id +:+ " not in tree"
  end.

Global Instance OnGoal_eq_dec : EqDecision OnGoal.
Proof. solve_decision. Defined.

(** ** Loops that may not end

    A loop with fuel returns [None] when it runs out. *)
Definition fbind {S E A B} (m : st S E (option A)) (k : A -> st S E (option B)) : st S E (option B) :=
  r ← m; match r with Some a => k a | None => mret None end.

Section RunLoop.
Context {W CP : Type} `{MS : MetadataStore W, RT : Runtime W, SA : ScorerArchive W, CR : CrashPolicy CP}.
Context `{PC : Postcard CheckpointV1, PI : Postcard ExpansionIntent, PA : Postcard OrchNodeAttrsV1}.
Context `{NS : NodeStore W, SC : Scorer W, SY : InputSynth W, BP : BatchPipeline W}.
Context `{SB : SortByStart, HD : F64Display, HB : Blake3, HC : ChaCha12, HL : Libm}.
Implicit Types u : Runner W CP.

Definition PolicyError_fmt (e : PolicyError) : string :=
  match e with
  | PolicyFrontier error => FrontierError_fmt error
  | EmptyCandidateSet => "policy candidate set is empty"
  | InvalidConfig field => "invalid policy config " +:+ field
  | InvalidWeight field value => "invalid policy weight " +:+ field +:+ "=" +:+ f64_display value
  | NonFiniteValue field value => "non-finite policy value " +:+ field +:+ "=" +:+ f64_display value
  end.

Definition set_stage (x : Stage W CP) u : Runner W CP :=
  mkRunner x (ru_inflight u) (ru_failure_reason u) (ru_control u) (ru_status u).
Definition set_inflight (m : gmap N ExpansionIntent) u : Runner W CP :=
  mkRunner (ru_stage u) m (ru_failure_reason u) (ru_control u) (ru_status u).
Definition set_failure_reason (reason : string) u : Runner W CP :=
  mkRunner (ru_stage u) (ru_inflight u) (Some reason) (ru_control u) (ru_status u).
Definition set_control (tape : list (option Control)) u : Runner W CP :=
  mkRunner (ru_stage u) (ru_inflight u) (ru_failure_reason u) tape (ru_status u).

Definition on_stage {A} (m : st (Stage W CP) ClientError A) : st (Runner W CP) ClientError A :=
  zoom ru_stage set_stage (fun e => e) m.
Definition on_runner {A} (m : st (Run W CP) ClientError A) : st (Runner W CP) ClientError A := on_stage (on_run m).
Definition run_of u : Run W CP := xs_run (ru_stage u).
Definition status_of u : ExperimentState := pg_status (rn_progress (run_of u)).
Definition set_status (status : ExperimentState) : st (Runner W CP) ClientError unit :=
  on_stage (mod_progress (pg_set_status status)).
Definition end_with (status : ExperimentState) (reason : string) : st (Runner W CP) ClientError unit :=
  _ ← set_status status; modify (set_failure_reason reason).

Definition snapshot_of u : StatusSnapshot :=
  let x := ru_stage u in
  let p := rn_progress (run_of u) in
  let s := rn_search (run_of u) in
  mkStatusSnapshot (pg_status p) (ss_expansions s) (N.of_nat (len (cs_tree (ss_commit_state s)))) (pg_best_score p) (xs_best_node x)
    (ss_batch_seq s) (du_checkpointed_batch_seq (rn_durable (run_of u))) (level_get (el_level (ss_ladder s)))
    (d_observations_since_improvement (pg_stall p)) (N.of_nat (Frontier_len (cs_frontier (ss_commit_state s))))
    (xs_discarded_dup x) (xs_discarded_regression x) (ss_guest_instructions_used s) (pg_goal_nodes p) (ru_failure_reason u).
Definition publish_status : st (Runner W CP) ClientError unit :=
  modify (fun u => mkRunner (ru_stage u) (ru_inflight u) (ru_failure_reason u) (ru_control u) (snapshot_of u)).

(** ** Committing what is in flight *)

Definition commit_next (done : BatchResult) : st (Runner W CP) ClientError (option NodeId) :=
  u ← get_st;
  intent ← lift_res (ok_or (ru_inflight u !! br_seq done) (mkClientError Internal "completed unknown batch"));
  _ ← modify (set_inflight (delete (br_seq done) (ru_inflight u)));
  on_stage (commit_completed done intent).

(** [while !inflight.is_empty()]: [n] is the number of batches in flight. *)
Fixpoint drain_loop (n : nat) : st (Runner W CP) ClientError unit :=
  match n with
  | O => mret tt
  | S n =>
    done ← on_runner (on_world next_completed);
    match done with
    | None => mret tt
    | Some done => _ ← commit_next done; drain_loop n
    end
  end.
Definition drain_inflight : st (Runner W CP) ClientError unit :=
  u ← get_st; drain_loop (size (ru_inflight u)).

(** ** Control messages *)

(** [handle_control] reads what has arrived; [parked] waits for a message.
    They return [false] when the run must end. *)
Fixpoint handle_messages (tape : list (option Control)) : st (Runner W CP) ClientError bool :=
  match tape with
  | [] => _ ← modify (set_control []); mret true
  | None :: tape => _ ← modify (set_control tape); mret true
  | Some CtlResume :: tape => handle_messages tape
  | Some CtlStop :: tape =>
    _ ← modify (set_control tape);
    _ ← drain_inflight;
    _ ← set_status Checkpoint.Stopped;
    mret false
  | Some CtlPause :: tape =>
    _ ← modify (set_control tape);
    _ ← drain_inflight;
    _ ← set_status Checkpoint.Paused;
    _ ← on_runner checkpoint;
    _ ← publish_status;
    parked tape
  end
with parked (tape : list (option Control)) : st (Runner W CP) ClientError bool :=
  match tape with
  | [] => _ ← modify (set_control []); _ ← set_status Checkpoint.Stopped; mret false
  | None :: tape | Some CtlPause :: tape => parked tape
  | Some CtlResume :: tape => _ ← set_status Checkpoint.Running; _ ← publish_status; handle_messages tape
  | Some CtlStop :: tape => _ ← modify (set_control tape); _ ← set_status Checkpoint.Stopped; mret false
  end.
Definition handle_control : st (Runner W CP) ClientError bool := u ← get_st; handle_messages (ru_control u).

(** The wait of a run that was resumed paused. *)
Fixpoint park_resumed (tape : list (option Control)) : st (Runner W CP) ClientError bool :=
  match tape with
  | [] => _ ← modify (set_control []); _ ← set_status Checkpoint.Stopped; mret false
  | None :: tape | Some CtlPause :: tape => park_resumed tape
  | Some CtlResume :: tape =>
    _ ← modify (set_control tape); _ ← set_status Checkpoint.Running; _ ← publish_status; mret true
  | Some CtlStop :: tape => _ ← modify (set_control tape); _ ← set_status Checkpoint.Stopped; mret false
  end.

(** ** Selecting *)

Definition select_intent : st (Runner W CP) ClientError (option ExpansionIntent) :=
  on_stage (zoom (fun x => rn_search (xs_run x)) (fun s x => set_run (set_search s (xs_run x)) x)
    (fun '(SelectionFailed e) => mkClientError Internal ("selection failed: " +:+ PolicyError_fmt e)) build_intent).

Definition max_inflight_of u : nat := N.to_nat (N.max (max_inflight_batches (scheduling (config_of (ru_stage u)))) 1).

Definition dispatch_next (intent : ExpansionIntent) : st (Runner W CP) ClientError unit :=
  u ← get_st;
  inflight ← on_stage (dispatch_intent (ru_inflight u) intent);
  modify (set_inflight inflight).

(** [while inflight.len() < max_inflight]. *)
Fixpoint fill (fuel : nat) : st (Runner W CP) ClientError (option unit) :=
  u ← get_st;
  if (size (ru_inflight u) <? max_inflight_of u)%nat then
    if bool_decide (Frontier_len (cs_frontier (commit_of (ru_stage u))) = 0) then mret (Some tt)
    else
      intent ← select_intent;
      match intent with
      | None => mret (Some tt)
      | Some intent =>
        match fuel with
        | O => mret None
        | S fuel => _ ← dispatch_next intent; fill fuel
        end
      end
  else mret (Some tt).

(** ** The loop *)

(** After a commit; [true] when the run ends. *)
Definition after_commit (goal : option NodeId) (drain : bool) : st (Runner W CP) ClientError bool :=
  _ ← publish_status;
  _ ← on_runner (crash_check AfterCommitBeforeCheckpoint);
  match goal with
  | Some _ =>
    _ ← on_runner checkpoint;
    u ← get_st;
    if decide (on_goal (config_of (ru_stage u)) = StopOnGoal) then
      _ ← (if drain then drain_inflight else mret tt);
      _ ← set_status GoalReached;
      mret true
    else mret false
  | None => _ ← on_runner maybe_checkpoint; mret false
  end.

(** One turn of the loop; [Some true] when the run ends. *)
Definition run_turn : st (Runner W CP) ClientError (option bool) :=
  go ← handle_control;
  if negb go then mret (Some true)
  else
    u ← get_st;
    match budget_exhausted (rn_search (run_of u)) (now (rn_world (run_of u)) - pg_started_at (rn_progress (run_of u))) with
    | Some reason => _ ← drain_inflight; _ ← end_with BudgetExhausted reason; mret (Some true)
    | None =>
      fbind (fill (max_inflight_of u)) (fun _ =>
      u ← get_st;
      if bool_decide (ru_inflight u = ∅) then _ ← end_with BudgetExhausted REASON_FRONTIER_EXHAUSTED; mret (Some true)
      else
        done ← on_runner (on_world next_completed);
        match done with
        | None => mret (Some true)
        | Some done => goal ← commit_next done; ended ← after_commit goal true; mret (Some ended)
        end)
    end.

Fixpoint run_loop (fuel : nat) : st (Runner W CP) ClientError (option unit) :=
  match fuel with
  | O => mret None
  | S fuel => fbind run_turn (fun ended => if ended : bool then mret (Some tt) else run_loop fuel)
  end.

(** ** Replay of the log *)

Definition pop_replay (d : DurableState) : DurableState :=
  mkDurableState (du_ckpt_generation d) (du_checkpointed_batch_seq d) (du_wal_floor d) (du_commits_since_checkpoint d)
    (du_last_checkpoint_at d) (tail (du_replay_queue d)).

(** One logged intent; [true] when the run ends. *)
Definition replay_turn (intent : ExpansionIntent) : st (Runner W CP) ClientError bool :=
  go ← handle_control;
  if negb go then mret true
  else
    _ ← on_stage (dispatch_replay intent);
    done ← on_runner (on_world next_completed);
    done ← lift_res (ok_or done (mkClientError Internal "pipeline ended during replay"));
    goal ← on_stage (commit_replayed done intent);
    after_commit goal false.

(** [while let Some(intent) = self.replay_queue.pop_front()]. *)
Fixpoint replay_phase (queue : list ExpansionIntent) : st (Runner W CP) ClientError bool :=
  match queue with
  | [] => mret false
  | intent :: queue =>
    _ ← on_runner (modify (fun r => set_durable (pop_replay (rn_durable r)) r));
    ended ← replay_turn intent;
    if ended : bool then mret true else replay_phase queue
  end.

Definition run_phases (fuel : nat) : st (Runner W CP) ClientError (option unit) :=
  u ← get_st;
  go ← (if decide (status_of u = Checkpoint.Paused) then _ ← publish_status; park_resumed (ru_control u) else mret true);
  if negb go then mret (Some tt)
  else
    u ← get_st;
    ended ← replay_phase (du_replay_queue (rn_durable (run_of u)));
    if ended : bool then mret (Some tt) else run_loop fuel.

Definition fail_run (error : ClientError) : st (Runner W CP) ClientError unit :=
  end_with FailedState (cataloged_failed_reason (ce_message error)).

(** The checkpoint a run ends with, unless it has lost the experiment. *)
Definition final_checkpoint : st (Runner W CP) ClientError unit := fun u =>
  let ownership_lost := match ru_failure_reason u with Some reason => starts_with REASON_CAS_OWNERSHIP_LOST reason | None => false end in
  if ownership_lost then (Ok tt, u)
  else
    match on_runner checkpoint u with
    | (Err error, u') => match ru_failure_reason u' with None => fail_run error u' | Some _ => (Ok tt, u') end
    | (r, u') => (r, u')
    end.

Definition outcome_of u : RunOutcome :=
  let p := rn_progress (run_of u) in
  mkRunOutcome (pg_status p) (ss_expansions (rn_search (run_of u))) (N.of_nat (len (cs_tree (commit_of (ru_stage u)))))
    (pg_best_score p) (pg_goal_nodes p) (ru_failure_reason u).

Definition conclude : st (Runner W CP) ClientError (option RunOutcome) :=
  _ ← final_checkpoint;
  _ ← publish_status;
  u ← get_st;
  mret (Some (outcome_of u)).

Definition run (fuel : nat) : st (Runner W CP) ClientError (option RunOutcome) := fun u =>
  match run_phases fuel u with
  | (Ok None, u') => (Ok None, u')
  | (Ok (Some _), u') => conclude u'
  | (Err error, u') =>
    if starts_with CRASHED_MARKER (ce_message error) then (Err error, u')
    else (_ ← fail_run error; conclude) u'
  | (Panic, u') => (Panic, u')
  end.
End RunLoop.
