(* ===== verification/Resume.v ===== *)
(** Starting the runner (crates/orch-server/src/experiment.rs, start,
    bootstrap_fresh, resume): a fresh experiment captures and scores its
    root; one with a checkpoint rebuilds the search state from the rows of
    the store, the checkpoint and the log.  [adopt_row] is the body of the
    loop over the rows. *)
From S2P Require Import Prelude Float64 Types Reasons Tree Frontier Mirror Commit Plateau Client Retry Rng Policy Softmax Ucb Staged Checkpoint Runner Durable.
From S2P Require Import HvTypes SynthTypes WorkerDriver Pipeline StoreTypes NodeAttrs SynthDriver ScorerTypes Compile Events Bringup WireConfig CommitStage ReplayStage RunLoop.
From stdpp Require Import pretty.
Local Open Scope string_scope.
Local Open Scope list_scope.

(** The slot view's start, given whether determinism classes may differ, and
    the worker driver's bootstrap of a root. *)
Class WorkerPort (W : Type) := {
  start_slots : bool -> st W ClientError unit;
  bootstrap_root : BootstrapSpec -> st W ClientError RootCapture
}.

Record RunnerConfig := mkRunnerConfig {
  rcf_experiment_id : string;
  rcf_run_id : string;
  rcf_producer_id : string;
  rcf_config : ExperimentConfig;
  rcf_config_hash : list N
}.
Inductive StartMode := StartFresh | StartResumed (checkpoint_batch_seq : N).

(** ** Rebuilding the search state *)

Abbreviation Row := (NodeMeta * OrchNodeAttrsV1)%type (only parsing).

Definition payload_from_store (meta : NodeMeta) (attrs : OrchNodeAttrsV1) : NodePayload :=
  let synth := oa_synth attrs in
  mkNodePayload (nm_snapshot_ref meta) (nm_progress_score meta) (nm_novelty_score meta) (sa_cell_key synth) (sa_state_hash synth)
    (sa_stage synth) (sa_frame_counter synth).

(** The rows after the root, each at the id the store gave it. *)
Fixpoint rebuild_children (rows : list Row) : st Tree ClientError unit :=
  match rows with
  | [] => mret tt
  | (meta, attrs) :: rows =>
    parent ← lift_res (ok_or (nm_parent_node_id meta) (mkClientError DataLoss "non-root node without parent"));
    assigned ← zoom (fun t => t) (fun t _ => t) (fun e => mkClientError DataLoss ("tree rebuild failed: " +:+ TreeError_debug e))
                 (insert_child parent (payload_from_store meta attrs));
    if decide (assigned = nm_node_id meta) then rebuild_children rows
    else lift_res (Err (mkClientError DataLoss
           ("store node ids are not dense: expected " +:+ pretty (nm_node_id meta) +:+ " got " +:+ pretty assigned)))
  end.
Definition rebuild_tree (rows : list Row) : res ClientError Tree :=
  match rows with
  | [] => Panic
  | (meta, attrs) :: rows =>
    t ← (match from_root (payload_from_store meta attrs) with Ok t => Ok t | _ => Panic end);
    match rebuild_children rows t with
    | (Ok _, t') => Ok t'
    | (Err e, _) => Err e
    | (Panic, _) => Panic
    end
  end.

Record Rebuild := mkRebuild {
  rb_tree : Tree;
  rb_frontier : Frontier;
  rb_mirror : CellMirror;
  rb_seen : SeenMap;
  rb_post_checkpoint : list CommittedState;
  rb_streaks : list (NodeId * N);
  rb_goal_nodes : list NodeId;
  rb_runtimes : gmap NodeId NodeRuntime;
  rb_node_bursts : gmap (NodeId * BurstId) NodeId
}.
Definition rb_set_tree (t : Tree) (b : Rebuild) : Rebuild :=
  mkRebuild t (rb_frontier b) (rb_mirror b) (rb_seen b) (rb_post_checkpoint b) (rb_streaks b) (rb_goal_nodes b) (rb_runtimes b) (rb_node_bursts b).
Definition rb_set_frontier (f : Frontier) (b : Rebuild) : Rebuild :=
  mkRebuild (rb_tree b) f (rb_mirror b) (rb_seen b) (rb_post_checkpoint b) (rb_streaks b) (rb_goal_nodes b) (rb_runtimes b) (rb_node_bursts b).
Definition rb_set_mirrors (m : CellMirror) (s : SeenMap) (post : list CommittedState) (b : Rebuild) : Rebuild :=
  mkRebuild (rb_tree b) (rb_frontier b) m s post (rb_streaks b) (rb_goal_nodes b) (rb_runtimes b) (rb_node_bursts b).
Definition rb_set_streaks (l : list (NodeId * N)) (b : Rebuild) : Rebuild :=
  mkRebuild (rb_tree b) (rb_frontier b) (rb_mirror b) (rb_seen b) (rb_post_checkpoint b) l (rb_goal_nodes b) (rb_runtimes b) (rb_node_bursts b).
Definition rb_set_goal_nodes (l : list NodeId) (b : Rebuild) : Rebuild :=
  mkRebuild (rb_tree b) (rb_frontier b) (rb_mirror b) (rb_seen b) (rb_post_checkpoint b) (rb_streaks b) l (rb_runtimes b) (rb_node_bursts b).
Definition rb_set_maps (r : gmap NodeId NodeRuntime) (m : gmap (NodeId * BurstId) NodeId) (b : Rebuild) : Rebuild :=
  mkRebuild (rb_tree b) (rb_frontier b) (rb_mirror b) (rb_seen b) (rb_post_checkpoint b) (rb_streaks b) (rb_goal_nodes b) r m.

Definition push_new (id : NodeId) (l : list NodeId) : list NodeId := if decide (id ∈ l) then l else l ++ [id].

(** A row the checkpoint does not cover catches the mirrors up. *)
Definition catch_up (covered : gset StateHash) (id : NodeId) (attrs : OrchNodeAttrsV1) : st Rebuild ClientError unit := fun b =>
  let hash := sa_state_hash (oa_synth attrs) in
  let cell := sa_cell_key (oa_synth attrs) in
  if bool_decide (hash ∈ covered) || bool_decide (is_Some (SeenMap_get (rb_seen b) hash)) then (Ok tt, b)
  else
    let seen := (SeenMap_insert hash id (rb_seen b)).2 in
    let post := if decide (id = ROOT) then rb_post_checkpoint b else rb_post_checkpoint b ++ [mkCommittedState hash cell] in
    match bump (E := ClientError) cell (rb_mirror b) with
    | (Ok _, m) => (Ok tt, rb_set_mirrors m seen post b)
    | (Err e, m) => (Err e, rb_set_mirrors m seen (rb_post_checkpoint b) b)
    | (Panic, m) => (Panic, rb_set_mirrors m seen (rb_post_checkpoint b) b)
    end.

(** [for _ in 0..n { tree.increment_visits(id).ok(); }] *)
Definition visit_times (n : N) (id : NodeId) (t : Tree) : Tree :=
  N.iter n (fun t => (increment_visits id t).2) t.

Definition restore_status (weights : gmap NodeId FrontierEntry) (id : NodeId) (status : NodeStatus) (b : Rebuild) : Rebuild :=
  match status with
  | StFrontier =>
    let b := rb_set_frontier (Frontier_insert id (rb_frontier b)).2 b in
    match weights !! id with
    | Some entry =>
      rb_set_streaks (rb_streaks b ++ [(id, fe_consecutive_all_dup entry)])
        (rb_set_tree (visit_times (fe_visits entry) id (rb_tree b)) b)
    | None => b
    end
  | StGoal => rb_set_goal_nodes (push_new id (rb_goal_nodes b)) (rb_set_tree (mark_goal id (rb_tree b)).2 b)
  | StExpanded => rb_set_tree (mark_expanded id (rb_tree b)).2 b
  | StPruned => rb_set_tree (mark_pruned id (rb_tree b)).2 b
  end.

Definition adopt_row (covered : gset StateHash) (weights : gmap NodeId FrontierEntry) (row : Row) : st Rebuild ClientError unit :=
  let '(meta, attrs) := row in
  let id := nm_node_id meta in
  _ ← catch_up covered id attrs;
  _ ← modify (restore_status weights id (nm_status meta));
  modify (fun b =>
    let runtimes := <[id := mkNodeRuntime (nm_snapshot_ref meta) (oa_determinism_class attrs)]> (rb_runtimes b) in
    let bursts := match nm_parent_node_id meta, sa_created_by_burst (oa_synth attrs) with
                  | Some parent, Some burst => <[(parent, bu_burst_id (pv_burst burst)) := id]> (rb_node_bursts b)
                  | _, _ => rb_node_bursts b
                  end in
    rb_set_maps runtimes bursts b).

Definition row_id_le (a b : NodeMeta) : Prop := (nm_node_id a <= nm_node_id b)%N.
Global Instance row_id_le_dec a b : Decision (row_id_le a b).
Proof. unfold row_id_le. apply _. Defined.

Definition weights_of (c : CheckpointV1) : gmap NodeId FrontierEntry :=
  foldl (fun m entry => <[fe_node entry := entry]> m) ∅ (ck_frontier c).

(** The search state of a checkpoint and the rows. *)
Definition rebuild (c : CheckpointV1) (rows : list Row) (goals : list NodeId) (runtimes : gmap NodeId NodeRuntime)
    (bursts : gmap (NodeId * BurstId) NodeId) : res ClientError Rebuild :=
  t ← rebuild_tree rows;
  let seen := foldl (fun s '(hash, node) => (SeenMap_insert hash node s).2) SeenMap_new (ck_seen c) in
  let b := mkRebuild t Frontier_new (from_sorted_counts (ck_cell_mirror c)) seen [] [] goals runtimes bursts in
  match mapM_st (adopt_row (list_to_set (ck_seen c).*1) (weights_of c)) rows b with
  | (Ok _, b') => Ok b'
  | (Err e, _) => Err e
  | (Panic, _) => Panic
  end.

Definition resumed_goals (c : CheckpointV1) (goals : list NodeId) : list NodeId :=
  sort_ids (foldl (fun l goal => push_new goal l) (sort_ids goals) (ck_goal_nodes c)).

Section Resume.
Context {W CP : Type} `{MS : MetadataStore W, RT : Runtime W, SA : ScorerArchive W, CR : CrashPolicy CP}.
Context `{PC : Postcard CheckpointV1, PI : Postcard ExpansionIntent, PA : Postcard OrchNodeAttrsV1}.
Context `{NS : NodeStore W, SC : Scorer W, SY : InputSynth W, BR : WorkerPort W}.
Context `{SB : SortByStart, HD : F64Display, HB : Blake3, HC : ChaCha12}.
Implicit Types x : Stage W CP.

(** ** Resume *)

Definition du_resumed (generation : MetadataGeneration) (seq : N) (d : DurableState) : DurableState :=
  mkDurableState (Some generation) seq (du_wal_floor d) (du_commits_since_checkpoint d) (du_last_checkpoint_at d) (du_replay_queue d).
Definition du_queued (floor : N) (queue : list ExpansionIntent) (d : DurableState) : DurableState :=
  mkDurableState (du_ckpt_generation d) (du_checkpointed_batch_seq d) floor (du_commits_since_checkpoint d) (du_last_checkpoint_at d) queue.
Definition mod_durable (f : DurableState -> DurableState) : st (Stage W CP) ClientError unit :=
  modify (fun x => set_run (set_durable (f (rn_durable (xs_run x))) (xs_run x)) x).

(** The rows of the experiment, in order of id, with their attributes. *)
Definition load_rows : st (Stage W CP) ClientError (list Row) :=
  x ← get_st;
  nodes ← on_run (rpc (query_nodes (mkQueryNodesRequest (rn_experiment_id (xs_run x)) [] None None None None None None None CreatedAt None)));
  let nodes := merge_sort row_id_le nodes in
  _ ← lift_res (match nodes with
                | node :: _ => if decide (nm_node_id node = ROOT) then Ok tt
                               else Err (mkClientError DataLoss "checkpoint exists but the store has no root node")
                | [] => Err (mkClientError DataLoss "checkpoint exists but the store has no root node")
                end);
  lift_res (mapM_res (fun node => attrs ← decode_node_attrs (nm_attrs node); Ok (node, attrs)) nodes).

Definition set_rebuilt (c : CheckpointV1) (b : Rebuild) x : Stage W CP :=
  let x := set_commit (CommitState_from_parts (rb_tree b) (rb_frontier b) (rb_mirror b) (rb_seen b) (rb_streaks b)) x in
  let r := set_progress (pg_set_goal_nodes (resumed_goals c (rb_goal_nodes b)) (rn_progress (xs_run x))) (xs_run x) in
  mkStage r (rb_runtimes b) (rb_node_bursts b) (xs_best_node x) (xs_discarded_dup x) (xs_discarded_regression x)
    (xs_fingerprints x) (xs_sources x) (xs_bringup x) (xs_emitted x).

Definition rebuild_stage (c : CheckpointV1) (rows : list Row) : st (Stage W CP) ClientError (list CommittedState) :=
  x ← get_st;
  b ← lift_res (rebuild c rows (pg_goal_nodes (rn_progress (xs_run x))) (xs_runtimes x) (xs_node_bursts x));
  _ ← modify (set_rebuilt c b);
  mret (rb_post_checkpoint b).

Definition restore_scorer (c : CheckpointV1) (post_checkpoint : list CommittedState) : st (Stage W CP) ClientError unit :=
  x ← get_st;
  restored ← on_run (rpc (restore_archive (mkRestoreArchiveRequest (rn_experiment_id (xs_run x)) (ck_scorer_checkpoint_id c) (ck_scorer_archive_ref c))));
  _ ← lift_res (if (rar_archive_seq restored =? ck_scorer_archive_seq c)%N then Ok tt
                else Err (mkClientError FailedPrecondition
                       (REASON_ARCHIVE_SEQ_MISMATCH +:+ ": restore returned " +:+ pretty (rar_archive_seq restored)
                        +:+ " expected " +:+ pretty (ck_scorer_archive_seq c))));
  _ ← mod_progress (pg_set_archive_seq (rar_archive_seq restored));
  stage_replay_commits post_checkpoint.

(** Counters, stall detector and ladder of the checkpoint. *)
Definition restore_search (c : CheckpointV1) (seq : N) (s : SearchState) : SearchState :=
  let knobs := from_plateau_config (plateau (ss_config s)) in
  mkSearchState (ss_config s) (ss_commit_state s) (ss_policy s)
    (EscalationLadder_restore (k_ladder knobs) (from_capped_u32 (pc_level (ck_plateau c))) (ck_feature_map_version c))
    seq (ck_expansions c) (used_guest_instructions (ck_budgets_used c)).
Definition restore_progress (c : CheckpointV1) (config : ExperimentConfig) (p : Progress) : Progress :=
  let k := ck_plateau c in
  let best := match pc_best_score k with
              | Some value => match FiniteF64_new value with Ok score => Some score | _ => None end
              | None => None
              end in
  mkProgress (StallDetector_restore (from_plateau_config (plateau config)) (pc_observations k) best
                (pc_observations_since_improvement k) (pc_completed_stall_windows k))
    (pg_feature_map_hash p) (pg_scoring_program_hash p)
    (if bool_decide (ck_synth_config_fingerprint c = replicate 32 0%N) then pg_fingerprint p else Some (ck_synth_config_fingerprint c))
    (pc_best_score k) (pg_goal_nodes p) (pg_scorer_archive_seq p) (pg_started_at p)
    (if decide (ck_status c = Checkpoint.Paused) then Checkpoint.Paused else Checkpoint.Running).

Definition resume (fuel : nat) (c : CheckpointV1) (generation : MetadataGeneration) : st (Stage W CP) ClientError unit :=
  _ ← mod_durable (du_resumed generation (ck_batch_seq c));
  intents ← on_run (load_wal_entries fuel c);
  rows ← load_rows;
  post_checkpoint ← rebuild_stage c rows;
  _ ← restore_scorer c post_checkpoint;
  let '(next, floor, queue) := queue_replays c intents in
  _ ← mod_durable (du_queued floor queue);
  x ← get_st;
  _ ← mod_progress (restore_progress c (config_of x));
  mod_search (restore_search c next).

(** ** A fresh experiment *)

Definition root_attrs x (capture : RootCapture) (result : ScoreResult) : OrchNodeAttrsV1 :=
  with_root_attrs (mkRootNodeAttrs (rc_fb_info capture) (wl_fps (so_workload (xs_sources x))) (wl_pad_layout (so_workload (xs_sources x))))
    (OrchNodeAttrsV1_new (rc_machine_config_hash capture) (rc_determinism_class capture)
       (mkSynthContextAttrs None None (decoded_map (config_of x) (xs_bringup x) result) (rc_frame_counter capture) (sr_state_hash result)
          (nd_cell_key (sr_novelty_detail result)) (sr_stage result) (sr_progress_score result) (sr_novelty_score result) None)).

Definition root_payload (capture : RootCapture) (result : ScoreResult) : NodePayload :=
  mkNodePayload (rc_snapshot capture) (sr_progress_score result) (sr_novelty_score result) (nd_cell_key (sr_novelty_detail result))
    (sr_state_hash result) (sr_stage result) (rc_frame_counter capture).

Definition bootstrap_fresh : st (Stage W CP) ClientError unit :=
  x ← get_st;
  let workload := so_workload (xs_sources x) in
  capture ← on_run (rpc (bootstrap_root (WorkerDriver.mkBootstrapSpec (wl_machine_config workload) (wl_bootstrap_icount_cap workload))));
  feature_bytes ← lift_res (ok_or (rc_feature_bytes capture) (mkClientError DataLoss "bootstrap capture had no feature bytes"));
  results ← stage_score_batch "root" [mkStateInput "0" feature_bytes None None];
  result ← lift_res (ok_or (head results) (mkClientError DataLoss "scorer returned no root result"));
  root ← lift_res (match CommitState_from_root (root_payload capture result) with Ok cs => Ok cs | _ => Panic end);
  _ ← modify (set_commit root);
  _ ← modify (fun x => set_runtimes (<[ROOT := mkNodeRuntime (rc_snapshot capture) (rc_determinism_class capture)]> (xs_runtimes x)) x);
  x ← get_st;
  attrs ← lift_res (encode_node_attrs (root_attrs x capture result));
  _ ← on_run (rpc (create_node (mkCreateNodeRequest (rn_experiment_id (xs_run x)) ROOT None (rc_snapshot capture) None StFrontier
         (sr_progress_score result) (sr_novelty_score result) attrs None)));
  _ ← stage_replay_commits [mkCommittedState (sr_state_hash result) (nd_cell_key (sr_novelty_detail result))];
  _ ← observe_score ROOT (finite_get (sr_progress_score result));
  on_run checkpoint.

(** ** Start *)

Definition set_decoded_features (names : list string) (c : ExperimentConfig) : ExperimentConfig :=
  mkExperimentConfig (cfg_version c) (cfg_seed c) (workload_image_ref c) (feature_map_ref c) (scoring_program_ref c) (synth_config_ref c)
    (macro_pack_refs c) (budgets c) (selection c) (burst c) (plateau c) (scheduling c) (Types.checkpoint c) (cfg_prune_action c)
    (on_goal c) names.

(** The checkpoint the store holds, with its generation. *)
Definition load_checkpoint (cfg : RunnerConfig) : st W ClientError (option (CheckpointV1 * MetadataGeneration)) := fun w =>
  match get_metadata (checkpoint_key (rcf_experiment_id cfg)) w with
  | (Ok (bytes, generation), w') =>
    (c ← as_client_error FailedPrecondition (decode_checkpoint bytes (rcf_experiment_id cfg) (rcf_config_hash cfg));
     Ok (Some (c, generation)), w')
  | (Err error, w') => if decide (ce_kind error = NotFound) then (Ok None, w') else (Err error, w')
  | (Panic, w') => (Panic, w')
  end.

Definition starting_map (cfg : RunnerConfig) (sources : ExperimentSources) (version : N) : res ClientError (FeatureMap * bool) :=
  if (version =? 0)%N then Ok (so_feature_map sources, false)
  else map ← coarsened_map sources (rcf_config cfg) version; Ok (map, true).

Definition check_hashes (c : CheckpointV1) (b : BringupOutcome) : res ClientError unit :=
  if negb (bool_decide (ck_feature_map_hash c = bo_feature_map_hash b))
  then Err (mkClientError FailedPrecondition "feature map hash does not match the checkpoint")
  else if negb (bool_decide (ck_scoring_program_hash c = bo_scoring_program_hash b))
  then Err (mkClientError FailedPrecondition "scoring program hash does not match the checkpoint")
  else Ok tt.

(** Everything before the runner exists. *)
Definition prepare_start (cfg : RunnerConfig) (sources : ExperimentSources)
    : st W ClientError (option (CheckpointV1 * MetadataGeneration) * BringupOutcome * ExperimentConfig) :=
  existing ← load_checkpoint cfg;
  '(feature_map, rebin) ← lift_res (starting_map cfg sources (from_option (fun c => ck_feature_map_version c.1) 0%N existing));
  bringup ← bring_up (rcf_config cfg) (rcf_experiment_id cfg) sources feature_map rebin;
  names ← lift_res (map_err (fun e => mkClientError InvalidRequest (config_validation_failed_detail [e]))
                      (materialize_decoded_features (rcf_config cfg) (bo_compiled bringup)));
  _ ← lift_res (match existing with Some (c, _) => check_hashes c bringup | None => Ok tt end);
  _ ← start_slots (allow_class_mismatch (scheduling (rcf_config cfg)));
  mret (existing, bringup, set_decoded_features names (rcf_config cfg)).

Definition zero_float : FiniteF64 := mkFinite f64_zero eq_refl.
Definition placeholder_payload : NodePayload :=
  mkNodePayload (replicate 32 0%N) zero_float zero_float 0%N (replicate 32 0%N) 0%N 0%N.

(** The runner before its state is bootstrapped or restored. *)
Definition new_stage (cfg : RunnerConfig) (sources : ExperimentSources) (b : BringupOutcome) (config : ExperimentConfig)
    (crash : option CP) (root : CommitState) (w : W) : Stage W CP :=
  let knobs := from_plateau_config (plateau config) in
  mkStage
    (mkRun (rcf_experiment_id cfg) (rcf_config_hash cfg) (from_scheduling (scheduling config))
       (mkSearchState config root (PolicyBox_from_config config) (EscalationLadder_from_knobs knobs) 0 0 0)
       (mkProgress (StallDetector_from_knobs knobs) (bo_feature_map_hash b) (bo_scoring_program_hash b) None None [] 0 (now w)
          Checkpoint.Running)
       (mkDurableState None 0 0 0 (now w) []) [] crash w)
    ∅ ∅ None 0 0 FingerprintRegistry_new sources b [].

Definition start_stage (fuel : nat) (existing : option (CheckpointV1 * MetadataGeneration)) : st (Stage W CP) ClientError StartMode :=
  match existing with
  | None => _ ← bootstrap_fresh; mret StartFresh
  | Some (c, generation) => _ ← resume fuel c generation; mret (StartResumed (ck_batch_seq c))
  end.

Definition start (fuel : nat) (cfg : RunnerConfig) (sources : ExperimentSources) (crash : option CP) (tape : list (option Control))
    (w : W) : res ClientError (Runner W CP * StartMode) * W :=
  match prepare_start cfg sources w with
  | (Ok (existing, b, config), w) =>
    match CommitState_from_root placeholder_payload with
    | Ok root =>
      match start_stage fuel existing (new_stage cfg sources b config crash root w) with
      | (Ok mode, x) =>
        let u := mkRunner x ∅ None tape StatusSnapshot_initial in
        (Ok (mkRunner x ∅ None tape (snapshot_of u), mode), rn_world (xs_run x))
      | (Err e, x) => (Err e, rn_world (xs_run x))
      | (Panic, x) => (Panic, rn_world (xs_run x))
      end
    | _ => (Panic, w)
    end
  | (Err e, w) => (Err e, w)
  | (Panic, w) => (Panic, w)
  end.
End Resume.
