(* ===== verification/StageSample.v ===== *)
(** A small world for the runner's examples: the in-memory metadata store, a
    list of created rows, constant services and a pipeline that completes a
    batch as soon as it is asked, one captured child per burst.  It shows
    that the interfaces the runner is proved against have an instance. *)
From S2P Require Import Prelude Float64 Types Reasons Tree Frontier Mirror Commit Plateau Client Retry Fault MetaStore Rng Policy Softmax Ucb Staged Checkpoint Runner Durable.
From S2P Require Import HvTypes SynthTypes WorkerDriver Pipeline StoreTypes NodeAttrs SynthDriver ScorerTypes Compile Events Bringup CommitStage ReplayStage RunLoop.
Local Open Scope string_scope.
Local Open Scope list_scope.

Record Lab := mkLab { lab_store : FakeStore; lab_rows : list CreateNodeRequest; lab_queue : list Batch }.
Definition set_lab_store (s : FakeStore) (w : Lab) : Lab := mkLab s (lab_rows w) (lab_queue w).
Definition on_lab {A} (m : st FakeStore ClientError A) : st Lab ClientError A := zoom lab_store set_lab_store (fun e => e) m.

Definition lab_metadata : MetadataStore Lab := {|
  get_metadata k := on_lab (get_metadata k);
  put_metadata k v x := on_lab (put_metadata k v x);
  delete_metadata k x := on_lab (delete_metadata k x)
|}.
Definition lab_runtime : Runtime Lab := {|
  now w := now (lab_store w);
  sleep d w := set_lab_store (sleep d (lab_store w)) w
|}.
Definition lab_archive : ScorerArchive Lab := {| checkpoint_archive := fun _ _ w => (Ok ("archive", 0%N), w) |}.

(** An operation of the store seen from the world. *)
Lemma on_lab_inv {A} (m : st FakeStore ClientError A) w r w' : on_lab m w = (r, w') ->
  exists s', m (lab_store w) = (r, s') /\ w' = set_lab_store s' w.
Proof. unfold on_lab, zoom. destruct (m (lab_store w)) as [[]s'] eqn:E; intros [= <- <-]; cbn in *; eauto. Qed.

Definition lab_store_ok (w : Lab) : Prop := fake_ok (lab_store w).
Definition lab_entries (w : Lab) : gmap string (list N * MetadataGeneration) := fake_entries (lab_store w).
Lemma lab_get_laws k w r w' : lab_store_ok w -> @get_metadata _ lab_metadata k w = (r, w') ->
  lab_store_ok w' /\ lab_entries w' = lab_entries w /\ r <> Panic /\
  (forall v, r = Ok v -> lab_entries w !! k = Some v) /\ (forall e, r = Err e -> ce_kind e = NotFound -> lab_entries w !! k = None).
Proof. intros Hok (s' & Hs & ->)%on_lab_inv. exact (get_laws k _ _ _ Hok Hs). Qed.
Lemma lab_put_laws k v x w r w' : lab_store_ok w -> @put_metadata _ lab_metadata k v x w = (r, w') ->
  lab_store_ok w' /\ r <> Panic /\
  (forall g, r = Ok g -> expectation_met x (lab_entries w !! k) /\ lab_entries w' = <[k := (v, g)]> (lab_entries w) /\
     snd <$> lab_entries w !! k <> Some g) /\
  (forall e, r = Err e -> lab_entries w' = lab_entries w).
Proof. intros Hok (s' & Hs & ->)%on_lab_inv. exact (put_laws k v x _ _ _ Hok Hs). Qed.
Lemma lab_delete_laws k x w r w' : lab_store_ok w -> @delete_metadata _ lab_metadata k x w = (r, w') ->
  lab_store_ok w' /\ r <> Panic /\ (r = Ok tt -> lab_entries w' = delete k (lab_entries w)) /\
  (forall e, r = Err e -> lab_entries w' = lab_entries w /\ (ce_kind e = NotFound -> lab_entries w !! k = None)).
Proof. intros Hok (s' & Hs & ->)%on_lab_inv. exact (delete_laws k x _ _ _ Hok Hs). Qed.
Definition lab_laws : @MetadataStoreLaws Lab lab_metadata :=
  @Build_MetadataStoreLaws Lab lab_metadata lab_store_ok lab_entries lab_get_laws lab_put_laws lab_delete_laws.

(** ** Services *)

Definition unsupported {S A} : st S ClientError A := lift_res (Err (mkClientError Internal "unsupported")).
Definition zero : FiniteF64 := mkFinite f64_zero eq_refl.
Definition one : FiniteF64 := mkFinite f64_one eq_refl.

(** The row of a node, as the context of a proposal needs it. *)
Definition lab_meta (experiment_id : string) (id : NodeId) : NodeMeta :=
  mkNodeMeta experiment_id id None 0 [7%N] None StFrontier zero zero 0 0 0 0 0 [0%N].
Definition lab_nodes : NodeStore Lab := {|
  create_node request w :=
    (Ok (lab_meta (cn_experiment_id request) (cn_node_id request)), mkLab (lab_store w) (lab_rows w ++ [request]) (lab_queue w));
  update_nodes _ := mret (mkUpdateNodesResponse 1 0);
  get_node request := mret (lab_meta (nq_experiment_id request) (nq_node_id request));
  get_children _ := mret [];
  get_path _ := unsupported;
  query_nodes _ := mret [];
  prune_subtree _ := unsupported
|}.

(** The first byte of a state is its hash, its high half the cell; a second
    byte makes the state worthless. *)
Definition lab_result (state : StateInput) : ScoreResult :=
  let byte := default 0%N (head (si_feature_bytes state)) in
  let score := match si_feature_bytes state with [_] => one | _ => zero end in
  mkScoreResult (si_node_ref state) None score one [byte] false false 0 false [] [] (mkNoveltyDetail one (byte / 16) 0 zero 0 0 zero zero).
Definition lab_scorer : Scorer Lab := {|
  load_feature_map _ := unsupported;
  load_scoring_program _ := unsupported;
  score_batch request := mret (mkScoreBatchResponse (sq_client_batch_id request) 0 (lab_result <$> sq_states request));
  restore_archive _ := mret (mkRestoreArchiveResponse 0 0 0 0 [] []);
  replay_commits request := mret (mkReplayCommitsResponse (N.of_nat (length (rc_states request))) 0)
|}.

Definition lab_burst (slot : N) : ProvenancedBurst :=
  mkProvenancedBurst (mkBurst 1 [slot] (Pad (mkPadBurst [] "pad"))) (mkProvenance GenWeightedRandom slot "s" [9%N] None None None None).
Definition lab_synth : InputSynth Lab := {|
  load_macro_pack _ := unsupported;
  SynthTypes.health := unsupported;
  propose_bursts request := mret (mkProposeBurstsResponse (lab_burst <$> (N.of_nat <$> seq 0 (N.to_nat (pq_k request)))) [9%N] "v" (pq_seed request) [])
|}.

(** Child [i] of a batch has the state byte [seq * 16 + i + 10]. *)
Definition lab_capture (index : N) (burst : ProvenancedBurst) (bytes : list N) : JobOutcome :=
  Completed (mkJobResult index VerdictOk burst
    (Some (mkChildCapture bytes None bytes [1%N] sample_class 100 0 1 (Some bytes) None None)) []).
Definition lab_job (seq : N) (i : nat) (burst : ProvenancedBurst) : JobOutcome :=
  lab_capture (N.of_nat i) burst [(seq * 16 + N.of_nat i + 10)%N].
Definition lab_pipeline : BatchPipeline Lab := {|
  submit batch w := (Ok tt, mkLab (lab_store w) (lab_rows w) (lab_queue w ++ [batch]));
  next_completed w :=
    match lab_queue w with
    | [] => (Err (mkClientError Internal "no batch in flight"), w)
    | batch :: rest =>
      (Ok (Some (mkBatchResult (ba_seq batch) (ba_parent batch) (imap (lab_job (ba_seq batch)) (ba_bursts batch)))),
       mkLab (lab_store w) (lab_rows w) rest)
    end
|}.

(** ** A runner in the middle of its search *)

Global Instance PixelFormat_eq_dec : EqDecision PixelFormat.
Proof. solve_decision. Defined.
Global Instance FbInfo_eq_dec : EqDecision FbInfo.
Proof. solve_decision. Defined.
Global Instance MacroProvenance_eq_dec : EqDecision MacroProvenance.
Proof. solve_decision. Defined.
Global Instance MutationOp_eq_dec : EqDecision MutationOp.
Proof. solve_decision. Defined.
Global Instance MutationProvenance_eq_dec : EqDecision MutationProvenance.
Proof. solve_decision. Defined.
Global Instance PolicyProvenance_eq_dec : EqDecision PolicyProvenance.
Proof. solve_decision. Defined.
Global Instance Provenance_eq_dec : EqDecision Provenance.
Proof. solve_decision. Defined.
Global Instance ProvenancedBurst_eq_dec : EqDecision ProvenancedBurst.
Proof. solve_decision. Defined.
Global Instance FpsRational_eq_dec : EqDecision FpsRational.
Proof. solve_decision. Defined.
Global Instance PadLayoutAttrs_eq_dec : EqDecision PadLayoutAttrs.
Proof. solve_decision. Defined.
Global Instance RootNodeAttrs_eq_dec : EqDecision RootNodeAttrs.
Proof. solve_decision. Defined.
Global Instance SynthContextAttrs_eq_dec : EqDecision SynthContextAttrs.
Proof. solve_decision. Defined.
Global Instance OrchNodeAttrsV1_eq_dec : EqDecision OrchNodeAttrsV1.
Proof. solve_decision. Defined.

(** One burst per expansion, at most two expansions, two batches in flight. *)
Definition lab_config : ExperimentConfig :=
  mkExperimentConfig 1 7 "workload" "map" "program" "synth" [] (mkBudgets 0 0 0 2) SelectionConfig_default
    (mkBurstConfig 1 120 600 0) PlateauConfig_default SchedulingConfig_default CheckpointConfig_default Exhausted StopOnGoal [].
Definition lab_search (seq : N) : SearchState :=
  mkSearchState lab_config (after_batch sample_state) (PolicyBox_from_config lab_config)
    (EscalationLadder_from_knobs (from_plateau_config (plateau lab_config))) seq 1 0.

Definition lab_attrs (byte slot : N) : OrchNodeAttrsV1 :=
  OrchNodeAttrsV1_new [1%N] sample_class
    (mkSynthContextAttrs (Some (lab_burst slot)) (Some [9%N]) [] 1 [byte] (byte / 16) 0 one one None).
Definition lab_attrs_codec : Postcard OrchNodeAttrsV1 := table_codec [sample_attrs; lab_attrs 26 0; lab_attrs 42 0; lab_attrs 27 1].

Definition lab_intent (seq : N) : ExpansionIntent :=
  match (@build_intent toy_libm toy_blake3 toy_chacha toy_display (lab_search seq)).1 with
  | Ok (Some intent) => intent
  | _ => sample_intent
  end.
Definition lab_intent_codec : Postcard ExpansionIntent := table_codec [lab_intent 1; lab_intent 2].

Definition lab_sources : ExperimentSources :=
  mkExperimentSources sample_map sample_layouts [] [] (mkWorkloadSpec (mkMachineConfig 1 4096 1 1 1 [] (Elf (mkElfBoot [] [])) 1000 FinalOnly 0) None None None).
Definition lab_bringup : BringupOutcome := mkBringupOutcome sample_compiled (mkCaptureSpec [] false) [] [] [] sample_bringup
    (mkSynthBringupReport (mkLoadMacroPackResponse "pack" 1 []) [] ∅ (mkHealthResponse Serving "v" [] ["exp"] false false false)).

(** [owned]: the checkpoint generation the runner owns; the store holds
    generation 1. *)
Definition lab_stage (owned : MetadataGeneration) : Stage Lab CrashPoint :=
  mkStage
    (mkRun "exp" [1; 2]%N (from_scheduling SchedulingConfig_default) (lab_search 1)
       (mkProgress (StallDetector_from_knobs (from_plateau_config (plateau lab_config))) [] [] (Some [9%N]) None [] 0 0 Checkpoint.Running)
       (mkDurableState (Some owned) 0 0 1 0 []) [] None
       (mkLab (mkFakeStore {[checkpoint_key "exp" := mkMetadataEntry [0%N] 1]} [] 0) [] []))
    (list_to_map ((fun id => (N.of_nat id, mkNodeRuntime [7%N] sample_class)) <$> seq 0 10)) ∅ None 0 0 FingerprintRegistry_new
    lab_sources lab_bringup [].
Definition lab_runner : Runner Lab CrashPoint := mkRunner (lab_stage 1) ∅ None [None; None; Some CtlResume] StatusSnapshot_initial.

(** What a finished run shows of its runner. *)
Definition lab_checkpoint_codec : Postcard CheckpointV1 := table_codec [].
