(* ===== verification/Frames.v ===== *)
(** What the runner's operations leave alone.  [keeps f m]: the operation [m]
    does not change the observation [f] of its state, whatever its outcome.
    The lemmas of the hint database [keeps] follow the structure of an
    operation; [solve_keeps] applies them. *)
From S2P Require Import Prelude Float64 Types Reasons Tree Frontier Mirror Commit Plateau Client Retry Rng Policy Softmax Ucb Staged Checkpoint Runner Durable.
From S2P Require Import HvTypes SynthTypes WorkerDriver Pipeline StoreTypes NodeAttrs SynthDriver ScorerTypes Compile Events Bringup CommitStage ReplayStage RunLoop.
Local Open Scope string_scope.
Local Open Scope list_scope.

Definition keeps {S T E A} (f : S -> T) (m : st S E A) : Prop := forall s, f (m s).2 = f s.

Create HintDb keeps discriminated.

Section Keeps.
Context {S T E : Type} (f : S -> T).
Lemma keeps_ret {A} (a : A) : keeps (E := E) f (mret a).
Proof. done. Qed.
Lemma keeps_bind {A B} (m : st S E A) (k : A -> st S E B) : keeps f m -> (forall a, keeps f (k a)) -> keeps f (m ≫= k).
Proof.
  intros Hm Hk s. rewrite st_bind_run. specialize (Hm s). destruct (m s) as [[a| |] s']; cbn in *; [by rewrite (Hk a s')|done..].
Qed.
Lemma keeps_lift {A} (r : res E A) : keeps f (lift_res r).
Proof. done. Qed.
Lemma keeps_get : keeps (E := E) f get_st.
Proof. done. Qed.
Lemma keeps_gets {A} (g : S -> A) : keeps (E := E) f (gets g).
Proof. done. Qed.
Lemma keeps_modify (g : S -> S) : (forall s, f (g s) = f s) -> keeps (E := E) f (modify g).
Proof. done. Qed.
Lemma keeps_zoom {V F A} (get : S -> V) (set : V -> S -> S) (conv : F -> E) (m : st V F A) :
  (forall s v, f (set v s) = f s) -> keeps f (zoom get set conv m).
Proof. intros Hs s. unfold zoom. destruct (m (get s)). apply Hs. Qed.
End Keeps.

(** A sequence starts with an operation that keeps [f]: it runs the rest in
    a state with the same [f], or fails with it. *)
Lemma keeps_step {S T E A B} (f : S -> T) (m : st S E A) (k : A -> st S E B) s r s' : keeps f m -> (m ≫= k) s = (r, s') ->
  (exists a s1, m s = (Ok a, s1) /\ f s1 = f s /\ k a s1 = (r, s')) \/ (is_Ok r = false /\ f s' = f s).
Proof.
  intros Hm. rewrite st_bind_run. specialize (Hm s). destruct (m s) as [[a|e|] s1]; cbn in Hm.
  - intros Hr. left. by exists a, s1.
  - intros [= <- <-]. by right.
  - intros [= <- <-]. by right.
Qed.

(** An observation that factors through another is kept with it. *)
Lemma keeps_factor {S T U E A} (f : S -> T) (g : T -> U) (m : st S E A) : keeps f m -> keeps (fun s => g (f s)) m.
Proof. intros H s. by rewrite H. Qed.

#[export] Hint Resolve keeps_ret keeps_bind keeps_lift keeps_get keeps_gets keeps_modify : keeps.
#[export] Hint Extern 2 (keeps _ (match ?x with _ => _ end)) => destruct x : keeps.
#[export] Hint Extern 2 (keeps _ (if ?x then _ else _)) => destruct x : keeps.
#[export] Hint Extern 3 (_ = _) => reflexivity : keeps.
Ltac solve_keeps := cbv zeta; eauto 30 with keeps.

(** ** The runner's calls *)

Section Run.
Context {W CP : Type} `{MS : MetadataStore W, RT : Runtime W, SA : ScorerArchive W, CR : CrashPolicy CP}.
Context `{PC : Postcard CheckpointV1, PI : Postcard ExpansionIntent}.
Implicit Types s : Run W CP.

(** Search state and progress. *)
Definition core_of s : SearchState * Progress := (rn_search s, rn_progress s).

Lemma core_on_world {A} (m : st W ClientError A) : keeps core_of (on_world (CP := CP) m).
Proof. intros s. unfold on_world. by destruct (m _). Qed.
Lemma core_rpc {A} (m : st W ClientError A) : keeps core_of (rpc (CP := CP) m).
Proof. intros s. apply core_on_world. Qed.
Lemma core_crash_check point : keeps core_of (crash_check (W := W) point).
Proof. intros s. unfold crash_check. destruct (rn_crash s); [|done]. destruct (should_crash _ _) as [[] ?]; done. Qed.
Lemma core_owner window : keeps core_of (ensure_checkpoint_owner (CP := CP) window).
Proof.
  intros s. unfold ensure_checkpoint_owner. destruct (du_ckpt_generation _); [|done].
  pose proof (core_rpc (get_metadata (checkpoint_key (rn_experiment_id s))) s) as H.
  destruct (rpc _ s) as [[[? g]|e|] s']; cbn in *; [by case_decide|by destruct (ce_kind e)|done].
Qed.
Hint Resolve core_on_world core_rpc core_crash_check : keeps.

Lemma core_truncate seqs : keeps core_of (truncate_wal (CP := CP) seqs).
Proof.
  induction seqs as [|seq seqs IH]; cbn; [by apply keeps_ret|]. apply keeps_bind; [|done].
  intros s. unfold delete_wal_entry. pose proof (core_rpc (delete_metadata (wal_key (rn_experiment_id s) seq) Unconditional) s) as H.
  destruct (rpc _ s) as [[|e|] s']; cbn in *; [done|by case_decide|done].
Qed.
Lemma core_cas_put bytes : keeps core_of (cas_put (CP := CP) bytes).
Proof.
  intros s. unfold cas_put. match goal with |- context [rpc ?m s] => pose proof (core_rpc m s) as H; destruct (rpc m s) as [[|e|] s'] end;
    cbn in *; [done|by destruct (ce_kind e)|done].
Qed.
Lemma core_archive id : keeps core_of (archive_in_lockstep (CP := CP) id).
Proof. intros s. unfold archive_in_lockstep. cbv zeta. match goal with |- core_of (?m s).2 = _ => cut (keeps core_of m); [auto|] end. solve_keeps. Qed.
Hint Resolve core_truncate core_cas_put core_archive : keeps.
Lemma core_prepare : keeps core_of (prepare_checkpoint (W := W) (CP := CP)).
Proof. unfold prepare_checkpoint. repeat (apply keeps_bind; [solve_keeps|intros ?]); solve_keeps. by intros s. Qed.
Lemma core_publish bytes n : keeps core_of (publish_checkpoint (W := W) (CP := CP) bytes n).
Proof. unfold publish_checkpoint. solve_keeps. Qed.
Lemma core_checkpoint : keeps core_of (checkpoint (W := W) (CP := CP)).
Proof. unfold checkpoint. apply keeps_bind; [apply core_prepare|]. intros []. apply core_publish. Qed.
Lemma core_maybe_checkpoint : keeps core_of (maybe_checkpoint (W := W) (CP := CP)).
Proof. intros s. unfold maybe_checkpoint. destruct (_ || _); [apply core_checkpoint|done]. Qed.
End Run.
#[export] Hint Resolve core_on_world core_rpc core_crash_check core_owner core_checkpoint core_maybe_checkpoint : keeps.

(** ** The commit stage *)

Section Stage.
Context {W CP : Type} `{MS : MetadataStore W, RT : Runtime W, SA : ScorerArchive W, CR : CrashPolicy CP}.
Context `{PC : Postcard CheckpointV1, PI : Postcard ExpansionIntent, PA : Postcard OrchNodeAttrsV1}.
Context `{NS : NodeStore W, SC : Scorer W, SY : InputSynth W, BP : BatchPipeline W}.
Context `{SB : SortByStart, HD : F64Display, HB : Blake3, HC : ChaCha12, HL : Libm}.
Implicit Types x : Stage W CP.

Definition search_of x : SearchState := rn_search (xs_run x).
(** What the budgets and the numbering of batches depend on. *)
Definition budget_view x : N * ExperimentConfig * N := (expansions_of x, config_of x, ss_batch_seq (search_of x)).

Lemma search_on_run {A} (m : st (Run W CP) ClientError A) : keeps core_of m -> keeps search_of (on_run m).
Proof. intros H x. unfold on_run, zoom, search_of. specialize (H (xs_run x)). destruct (m (xs_run x)) as [r s]. cbn in *. by injection H. Qed.
Lemma search_mod_progress f : keeps search_of (mod_progress (W := W) (CP := CP) f).
Proof. done. Qed.
Lemma search_emit ts ty p : keeps search_of (emit_event_st (W := W) (CP := CP) ts ty p).
Proof. done. Qed.
Hint Resolve search_on_run search_mod_progress search_emit : keeps.

Lemma search_score_batch id states : keeps search_of (stage_score_batch (CP := CP) id states).
Proof. unfold stage_score_batch. solve_keeps. Qed.
Lemma search_replay_commits states : keeps search_of (stage_replay_commits (CP := CP) states).
Proof. unfold stage_replay_commits. case_decide; solve_keeps. Qed.
Lemma search_update_node u : keeps search_of (update_node (CP := CP) u).
Proof. unfold update_node. solve_keeps. Qed.
Lemma search_create_row request : keeps search_of (create_row (CP := CP) request).
Proof.
  intros x. unfold create_row. pose proof (search_on_run (rpc (create_node request)) (core_rpc _) x) as H.
  destruct (on_run _ x) as [[|e|] x']; cbn in *; [done|by case_decide|done].
Qed.
Hint Resolve search_score_batch search_replay_commits search_update_node search_create_row : keeps.
Lemma search_create_child node parent job result status : keeps search_of (create_child_node (CP := CP) node parent job result status).
Proof. unfold create_child_node. solve_keeps. Qed.
Lemma search_count_discard reason : keeps search_of (count_discard (W := W) (CP := CP) reason).
Proof. unfold count_discard. destruct reason; solve_keeps. Qed.
Lemma search_mid_batch i n : keeps search_of (mid_batch_check (W := W) (CP := CP) i n).
Proof. unfold mid_batch_check. solve_keeps. Qed.
Lemma search_relay ts node events x : search_of (relay_sdk_events ts node events x) = search_of x.
Proof. unfold relay_sdk_events. revert x. induction events as [|e events IH]; intros x; cbn; [done|]. rewrite IH. by destruct (sdk_event_type e). Qed.
Hint Resolve search_create_child search_count_discard search_mid_batch search_relay : keeps.
Lemma search_commit_row ts parent job result node t : keeps search_of (commit_row (CP := CP) ts parent job result node t).
Proof. unfold commit_row. solve_keeps. Qed.
Lemma search_discard_row ts parent reason route t : keeps search_of (discard_row (CP := CP) ts parent reason route t).
Proof. unfold discard_row. solve_keeps. Qed.
Hint Resolve search_commit_row search_discard_row : keeps.
Lemma search_write_rows ts parent len index rows t : keeps search_of (write_rows (CP := CP) ts parent len index rows t).
Proof.
  revert index t. induction rows as [|[[job result] commit] rows IH]; intros index t; cbn [write_rows]; [apply keeps_ret|].
  apply keeps_bind; [apply search_mid_batch|intros _]. apply keeps_bind; [|intros ?; apply IH]. destruct (cc_node_id commit); solve_keeps.
Qed.
Lemma search_parent_row ts parent evicted : keeps search_of (parent_row (CP := CP) ts parent evicted).
Proof. unfold parent_row. solve_keeps. Qed.
Lemma search_own_commit : keeps search_of (own_commit (W := W) (CP := CP)).
Proof. unfold own_commit. apply keeps_bind; [solve_keeps|]. intros _. apply search_on_run, core_owner. Qed.
Lemma search_guard request response : keeps search_of (guard_response (W := W) (CP := CP) request response).
Proof. intros x. unfold guard_response. destruct (_ && _); [done|]. destruct (check_or_insert _ _ _) as [[|?|] ?]; cbn; [by destruct (bool_decide _)|done..]. Qed.
Hint Resolve search_write_rows search_parent_row search_own_commit search_guard : keeps.
Lemma search_synthesize intent : keeps search_of (synthesize (W := W) (CP := CP) intent).
Proof. unfold synthesize, guarded_propose. solve_keeps. Qed.
Lemma search_submit what intent bursts : keeps search_of (submit_batch (W := W) (CP := CP) what intent bursts).
Proof. unfold submit_batch. solve_keeps. Qed.
Lemma search_log intent : keeps search_of (log_intent (W := W) (CP := CP) intent).
Proof. unfold log_intent. solve_keeps. Qed.
Hint Resolve search_synthesize search_submit search_log : keeps.
Lemma search_dispatch_replay intent : keeps search_of (dispatch_replay (W := W) (CP := CP) intent).
Proof. unfold dispatch_replay. solve_keeps. Qed.

(** ** Expansions *)

Lemma budget_search {A} (m : st (Stage W CP) ClientError A) : keeps search_of m -> keeps budget_view m.
Proof. intros H x. unfold budget_view, expansions_of, config_of. specialize (H x). unfold search_of in *. by rewrite H. Qed.
Lemma budget_on_commit {A} what (m : st CommitState CommitError A) : keeps budget_view (on_commit (W := W) (CP := CP) what m).
Proof. by apply keeps_zoom. Qed.
Lemma budget_on_tree_op {A} what (m : st CommitState TreeError A) : keeps budget_view (on_tree_op (W := W) (CP := CP) what m).
Proof. by apply keeps_zoom. Qed.
Lemma budget_observe node score : keeps budget_view (observe_score (W := W) (CP := CP) node score).
Proof.
  intros x. unfold observe_score. destruct (FiniteF64_new score); [|done..]. cbv zeta.
  destruct (observe _ _) as [[o| |] stall]; [|done..]. destruct (apply_stall_observation o _) as [snap l].
  destruct (so_improved o && _), (so_completed_new_window o); case_decide; reflexivity.
Qed.
Lemma budget_rebin : keeps budget_view (maybe_rebin (W := W) (CP := CP)).
Proof.
  unfold maybe_rebin. apply keeps_bind; [apply keeps_get|intros x]. destruct (_ =? _)%N; [apply keeps_ret|].
  apply keeps_bind; [apply keeps_lift|intros m]. apply keeps_bind; [apply budget_search; solve_keeps|intros b]. solve_keeps.
Qed.
Lemma budget_score_stage done intent : keeps budget_view (score_stage (W := W) (CP := CP) done intent).
Proof.
  unfold score_stage. apply keeps_bind; [by intros x|intros _]. apply keeps_bind; [|intros; apply keeps_ret].
  case_decide; [apply keeps_ret|]. apply budget_search. solve_keeps.
Qed.

(** [m] counts one expansion when it succeeds, and at most one otherwise. *)
Definition counts_one {A} (m : st (Stage W CP) ClientError A) : Prop := forall x r x', m x = (r, x') ->
  config_of x' = config_of x /\ ss_batch_seq (search_of x') = ss_batch_seq (search_of x) /\
  (expansions_of x' = expansions_of x \/ expansions_of x' = (expansions_of x + 1)%N) /\
  (is_Ok r = true -> expansions_of x' = (expansions_of x + 1)%N).

Lemma counts_before {A B} (m : st (Stage W CP) ClientError A) (k : A -> st (Stage W CP) ClientError B) :
  keeps budget_view m -> (forall a, counts_one (k a)) -> counts_one (m ≫= k).
Proof.
  intros Hm Hk x r x'. rewrite st_bind_run. specialize (Hm x). unfold budget_view in Hm.
  destruct (m x) as [[a|e|] x1]; cbn in Hm; injection Hm as He Hc Hb; unfold counts_one.
  - intros Hr. destruct (Hk a x1 r x' Hr) as (? & ? & ? & ?). rewrite <- He, <- Hc, <- Hb. by split_and!.
  - intros [= <- <-]. split_and!; auto. done.
  - intros [= <- <-]. split_and!; auto. done.
Qed.
Lemma counts_after {A B} (m : st (Stage W CP) ClientError A) (k : A -> st (Stage W CP) ClientError B) :
  counts_one m -> (forall a, keeps budget_view (k a)) -> counts_one (m ≫= k).
Proof.
  intros Hm Hk x r x'. rewrite st_bind_run. destruct (m x) as [r1 x1] eqn:E. specialize (Hm x r1 x1 E) as (Hc & Hb & He & Ho).
  destruct r1 as [a|e|].
  - intros Hr. specialize (Hk a x1). rewrite Hr in Hk. unfold budget_view in Hk. cbn in Hk. injection Hk as -> -> ->. split_and!; auto.
  - intros [= <- <-]. by split_and!.
  - intros [= <- <-]. by split_and!.
Qed.
Lemma counts_count : counts_one (count_expansion (W := W) (CP := CP)).
Proof.
  intros x r x'. unfold count_expansion. rewrite st_bind_run. cbn [get_st]. rewrite st_bind_run. unfold lift_res at 1.
  unfold succ_u64. destruct (checked_add u64_max (expansions_of x) 1) as [n|] eqn:E; cbn [expect].
  2:{ intros [= <- <-]. split_and!; auto. done. }
  rewrite st_bind_run. unfold lift_res. destruct (checked_add u32_max _ 1) as [n'|] eqn:E'; cbn [expect].
  2:{ intros [= <- <-]. split_and!; auto. done. }
  intros [= <- <-]. apply checked_add_Some in E as [_ ->]. by split_and!; [..|right|].
Qed.
Lemma counts_finish ts seq parent evicted goal t : counts_one (finish_batch (W := W) (CP := CP) ts seq parent evicted goal t).
Proof.
  unfold finish_batch. apply counts_before; [apply budget_search; solve_keeps|intros _].
  apply counts_before; [apply budget_search; solve_keeps|intros _]. apply counts_after; [apply counts_count|intros _].
  apply keeps_bind; [by intros x|intros _]. apply keeps_bind; [apply keeps_get|intros x].
  apply keeps_bind; [apply budget_observe|intros _]. apply keeps_bind; [apply budget_rebin|intros _].
  destruct goal; [|apply keeps_ret]. apply keeps_bind; [by intros y|intros; apply keeps_ret].
Qed.
Lemma counts_commit_completed done intent : counts_one (commit_completed (W := W) (CP := CP) done intent).
Proof.
  unfold commit_completed. apply counts_before; [apply budget_score_stage|intros scored]. apply counts_before; [apply keeps_get|intros x].
  apply counts_before; [apply keeps_lift|intros children]. apply counts_before; [apply budget_search; solve_keeps|intros _].
  apply counts_before; [apply budget_on_commit|intros outcome]. apply counts_before; [apply budget_search; solve_keeps|intros t].
  apply counts_finish.
Qed.
End Stage.
