(* ===== verification/RunBounds.v ===== *)
(** Bounds and outcome of a run (RunLoop.v): how far the expansions may pass
    their budget, that the loop ends, and what the outcome of a run says.

    [total] counts the expansions committed and those in flight: only a
    dispatch raises it. *)
From S2P Require Import Prelude Float64 Types Reasons Tree Frontier Mirror Commit Plateau Client Retry MetaStore Rng Policy Softmax Ucb Staged Checkpoint Runner Durable.
From S2P Require Import HvTypes SynthTypes WorkerDriver Pipeline StoreTypes NodeAttrs SynthDriver ScorerTypes Compile Events Bringup CommitStage ReplayStage RunLoop StageSample Frames.
Local Open Scope string_scope.
Local Open Scope list_scope.

Section Bounds.
Context {W CP : Type} `{MS : MetadataStore W, RT : Runtime W, SA : ScorerArchive W, CR : CrashPolicy CP}.
Context `{PC : Postcard CheckpointV1, PI : Postcard ExpansionIntent, PA : Postcard OrchNodeAttrsV1}.
Context `{NS : NodeStore W, SC : Scorer W, SY : InputSynth W, BP : BatchPipeline W}.
Context `{SB : SortByStart, HD : F64Display, HB : Blake3, HC : ChaCha12, HL : Libm}.
Implicit Types u : Runner W CP.

Definition run_config u : ExperimentConfig := config_of (ru_stage u).
Definition run_expansions u : N := expansions_of (ru_stage u).
Definition run_batch_seq u : N := ss_batch_seq (search_of (ru_stage u)).
Definition total u : N := run_expansions u + N.of_nat (size (ru_inflight u)).
Definition expansion_budget u : N := max_expansions (budgets (run_config u)).

(** Batches in flight are numbered below the next number, and fit. *)
Record inflight_ok u : Prop := {
  io_below : forall seq, is_Some (ru_inflight u !! seq) -> (seq < run_batch_seq u)%N;
  io_fits : (size (ru_inflight u) <= max_inflight_of u)%nat
}.

(** What every operation but a dispatch guarantees. *)
Record winds_down u u' : Prop := {
  wd_config : run_config u' = run_config u;
  wd_seq : run_batch_seq u' = run_batch_seq u;
  wd_sub : ru_inflight u' ⊆ ru_inflight u;
  wd_exp : (run_expansions u <= run_expansions u')%N;
  wd_total : (total u' <= total u)%N
}.
Lemma winds_down_refl u : winds_down u u.
Proof. split; try done; lia. Qed.
Lemma winds_down_trans u v w : winds_down u v -> winds_down v w -> winds_down u w.
Proof. intros [] []. split; [congruence..| |lia|lia]. by etrans. Qed.
Lemma winds_down_same u u' : budget_view (ru_stage u') = budget_view (ru_stage u) -> ru_inflight u' = ru_inflight u -> winds_down u u'.
Proof.
  unfold budget_view. intros [= He Hc Hb] Hi. split; unfold run_config, run_batch_seq, run_expansions, total in *; rewrite ?Hi; try done; [lia|].
  unfold run_expansions. lia.
Qed.
Lemma winds_down_ok u u' : winds_down u u' -> inflight_ok u -> inflight_ok u'.
Proof.
  intros [Hc Hs Hi _ _] [Hb Hf]. split.
  - intros seq [i Hl]. rewrite Hs. apply Hb. exists i. by eapply lookup_weaken.
  - unfold max_inflight_of. unfold run_config in Hc. rewrite Hc. etrans; [|exact Hf].
    apply map_subseteq_size, Hi.
Qed.

Definition winding {A} (m : st (Runner W CP) ClientError A) : Prop := forall u r u', m u = (r, u') -> winds_down u u'.
Lemma winding_ret {A} (a : A) : winding (mret a).
Proof. intros u r u' [= <- <-]. apply winds_down_refl. Qed.
Lemma winding_get : winding get_st.
Proof. intros u r u' [= <- <-]. apply winds_down_refl. Qed.
Lemma winding_lift {A} (x : res ClientError A) : winding (lift_res x).
Proof. intros u r u' [= <- <-]. apply winds_down_refl. Qed.
Lemma winding_bind {A B} (m : st (Runner W CP) ClientError A) (k : A -> st (Runner W CP) ClientError B) :
  winding m -> (forall a, winding (k a)) -> winding (m ≫= k).
Proof.
  intros Hm Hk u r u'. rewrite st_bind_run. destruct (m u) as [x u1] eqn:E. specialize (Hm _ _ _ E).
  destruct x as [a|e|]; [|by intros [= <- <-]..]. intros Hr. eapply winds_down_trans; [done|by eapply Hk].
Qed.
Lemma winding_stage {A} (m : st (Stage W CP) ClientError A) : keeps budget_view m -> winding (on_stage m).
Proof.
  intros Hm u r u'. unfold on_stage, zoom. specialize (Hm (ru_stage u)). destruct (m (ru_stage u)) as [x s]. intros [= <- <-].
  by apply winds_down_same.
Qed.
Lemma winding_modify f : (forall u, budget_view (ru_stage (f u)) = budget_view (ru_stage u)) -> (forall u, ru_inflight (f u) = ru_inflight u) ->
  winding (modify f).
Proof. intros Hs Hi u r u' [= <- <-]. by apply winds_down_same. Qed.
Lemma winding_runner {A} (m : st (Run W CP) ClientError A) : keeps core_of m -> winding (on_runner m).
Proof. intros H. apply winding_stage, budget_search, search_on_run, H. Qed.
Lemma winding_status s : winding (set_status s).
Proof. by apply winding_stage. Qed.
Lemma winding_publish : winding publish_status.
Proof. by apply winding_modify. Qed.
Lemma winding_control tape : winding (modify (set_control tape)).
Proof. by apply winding_modify. Qed.
Lemma winding_end status reason : winding (end_with status reason).
Proof. apply winding_bind; [apply winding_status|]. intros _. by apply winding_modify. Qed.

(** A commit takes one batch out of flight and counts one expansion. *)
Lemma commit_next_winds done : winding (commit_next done).
Proof.
  intros u r u'. unfold commit_next. rewrite st_bind_run. cbn [get_st]. rewrite st_bind_run. unfold lift_res.
  destruct (ru_inflight u !! br_seq done) as [intent|] eqn:El; cbn [ok_or]; [|intros [= <- <-]; apply winds_down_refl].
  rewrite modify_bind. unfold on_stage, zoom. cbn [set_inflight ru_stage]. destruct (commit_completed done intent (ru_stage u)) as [x s] eqn:E.
  intros [= <- <-]. apply counts_commit_completed in E as (Hc & Hb & He & _).
  assert (size (ru_inflight u) = S (size (delete (br_seq done) (ru_inflight u)))) as Hsz
    by (by rewrite <- (insert_delete_id _ _ _ El) at 1; rewrite map_size_insert_None by apply lookup_delete_eq).
  split; unfold run_config, run_batch_seq, total, run_expansions; cbn [set_stage set_inflight ru_stage ru_inflight].
  - done.
  - done.
  - apply delete_subseteq.
  - destruct He; lia.
  - destruct He; lia.
Qed.
Lemma drain_winds : winding drain_inflight.
Proof.
  unfold drain_inflight. apply winding_bind; [apply winding_get|]. intros u0. generalize (size (ru_inflight u0)).
  intros n. induction n as [|n IH]; cbn [drain_loop]; [apply winding_ret|].
  apply winding_bind; [apply winding_runner; solve_keeps|]. intros [done|]; [|apply winding_ret].
  apply winding_bind; [apply commit_next_winds|done].
Qed.
Lemma messages_wind tape : winding (handle_messages tape) /\ winding (parked tape).
Proof.
  induction tape as [|[[]|] tape [IH1 IH2]]; cbn [handle_messages parked]; split;
    repeat first [apply winding_ret|apply winding_control|apply winding_status|apply winding_publish|apply drain_winds|assumption
      |apply winding_runner, core_checkpoint|apply winding_bind; [|intros ?]].
Qed.
Lemma control_winds : winding handle_control.
Proof. unfold handle_control. apply winding_bind; [apply winding_get|]. intros u. apply messages_wind. Qed.
Lemma after_commit_winds goal drain : winding (after_commit goal drain).
Proof.
  unfold after_commit. apply winding_bind; [apply winding_publish|intros _].
  apply winding_bind; [apply winding_runner; solve_keeps|intros _]. destruct goal.
  - apply winding_bind; [apply winding_runner, core_checkpoint|intros _]. apply winding_bind; [apply winding_get|intros u].
    case_decide; [|apply winding_ret]. apply winding_bind; [destruct drain; [apply drain_winds|apply winding_ret]|intros _].
    apply winding_bind; [apply winding_status|intros _; apply winding_ret].
  - apply winding_bind; [apply winding_runner, core_maybe_checkpoint|intros _; apply winding_ret].
Qed.

(** ** Dispatch *)

Lemma select_spec u r u' : select_intent u = (r, u') ->
  budget_view (ru_stage u') = budget_view (ru_stage u) /\ ru_inflight u' = ru_inflight u /\
  (forall intent, r = Ok (Some intent) -> ei_seq intent = run_batch_seq u).
Proof.
  unfold select_intent, on_stage, zoom, build_intent, run_batch_seq, search_of. cbv zeta. set (s := rn_search (xs_run (ru_stage u))).
  destruct (PolicyBox_select _ _ _).1 as [choice|e|].
  - destruct (derive_synth_request_seed _ _) as [n|[]|]; intros [= <- <-]; split_and!; try done. by intros intent [= <-].
  - destruct e; intros [= <- <-]; split_and!; done.
  - intros [= <- <-]. split_and!; done.
Qed.

Lemma dispatch_spec inflight intent x r x' : dispatch_intent inflight intent x = (r, x') ->
  config_of x' = config_of x /\ expansions_of x' = expansions_of x /\
  (ss_batch_seq (search_of x) <= ss_batch_seq (search_of x'))%N /\
  (forall m, r = Ok m -> m = <[ei_seq intent := intent]> inflight /\ (ei_seq intent < ss_batch_seq (search_of x'))%N).
Proof.
  assert (forall x1 : Stage W CP, search_of x1 = search_of x -> is_Ok r = false -> search_of x' = search_of x1 ->
    config_of x' = config_of x /\ expansions_of x' = expansions_of x /\ (ss_batch_seq (search_of x) <= ss_batch_seq (search_of x'))%N /\
    (forall m, r = Ok m -> m = <[ei_seq intent := intent]> inflight /\ (ei_seq intent < ss_batch_seq (search_of x'))%N)) as Hfail.
  { intros x1 H1 Hr H2. unfold config_of, expansions_of. unfold search_of in *. rewrite H2, H1. split_and!; [done..|]. by intros m ->. }
  unfold dispatch_intent. intros H.
  destruct (keeps_step search_of _ _ _ _ _ (search_synthesize intent) H) as [(response & x1 & _ & H1 & H2)|[Hr Hx]]; [|by eapply (Hfail x)].
  destruct (keeps_step search_of _ _ _ _ _ (search_log intent) H2) as [([] & x2 & _ & H3 & H4)|[Hr Hx]]; [|by eapply (Hfail x1)].
  destruct (keeps_step search_of _ _ _ _ _ (search_on_run _ (core_crash_check _)) H4) as [([] & x3 & _ & H5 & H6)|[Hr Hx]];
    [|eapply (Hfail x2); [congruence|done..]].
  destruct (keeps_step search_of _ _ _ _ _ (search_submit _ _ _) H6) as [([] & x4 & _ & H7 & H8)|[Hr Hx]];
    [|eapply (Hfail x3); [congruence|done..]].
  rewrite st_bind_run in H8. unfold lift_res, succ_u64 in H8.
  assert (search_of x4 = search_of x) as H9 by congruence.
  destruct (checked_add u64_max (ei_seq intent) 1) as [n|] eqn:En; cbn [expect] in H8; [|injection H8 as <- <-; by apply (Hfail x4)].
  apply checked_add_Some in En as [_ ->]. unfold mod_search in H8. rewrite modify_bind in H8. injection H8 as <- <-.
  unfold search_of, config_of, expansions_of in *. cbn. rewrite H9. split_and!; [done|done|lia|].
  intros m [= <-]. split; [done|]. lia.
Qed.

(** The loop that fills the pipeline. *)
Lemma fill_spec fuel u r u' : inflight_ok u -> fill fuel u = (r, u') ->
  inflight_ok u' /\ run_config u' = run_config u /\ run_expansions u' = run_expansions u /\
  ((max_inflight_of u - size (ru_inflight u) <= fuel)%nat -> r <> Ok None).
Proof.
  revert u. induction fuel as [|fuel IH]; intros u Hu; cbn [fill]; rewrite st_bind_run; cbn [get_st].
  all: destruct (Nat.ltb_spec (size (ru_inflight u)) (max_inflight_of u)) as [Hlt|Hge]; [|intros [= <- <-]; split_and!; done].
  all: case_bool_decide; [intros [= <- <-]; split_and!; done|].
  all: rewrite st_bind_run; destruct (select_intent u) as [ri u1] eqn:Hsel; apply select_spec in Hsel as (Hv & Hi & Hseq).
  all: pose proof (winds_down_ok _ _ (winds_down_same _ _ Hv Hi) Hu) as Hu1; unfold budget_view in Hv; injection Hv as He Hc Hb.
  all: destruct ri as [[intent|]|e|]; [|intros [= <- <-]; split_and!; done..].
  - intros [= <- <-]. split_and!; [done..|]. lia.
  - rewrite st_bind_run. unfold dispatch_next. rewrite st_bind_run. cbn [get_st]. rewrite st_bind_run. unfold on_stage, zoom.
    destruct (dispatch_intent (ru_inflight u1) intent (ru_stage u1)) as [rd x] eqn:Hd. apply dispatch_spec in Hd as (Hc' & He' & Hb' & Hok).
    destruct rd as [m|e|]; cbn [map_err].
    2,3: intros [= <- <-]; split_and!; [|by unfold run_config; cbn; congruence|by unfold run_expansions; cbn; congruence|done];
      split; [intros seq Hs; unfold run_batch_seq; cbn; eapply N.lt_le_trans; [by apply (io_below _ Hu1)|exact Hb']
             |unfold max_inflight_of; cbn; rewrite Hc'; apply (io_fits _ Hu1)].
    destruct (Hok m eq_refl) as [-> Hnew]. cbn [modify]. intros Hf.
    assert (ru_inflight u !! ei_seq intent = None) as Hfresh.
    { apply eq_None_not_Some. intros Hs. specialize (io_below _ Hu _ Hs). rewrite (Hseq intent eq_refl). lia. }
    rewrite Hi in Hf. apply IH in Hf as (H1 & H2 & H3 & H4).
    + unfold run_config, run_expansions, max_inflight_of in *. cbn [set_inflight set_stage ru_stage ru_inflight] in *.
      split_and!; [done|congruence|congruence|]. intros Hle. apply H4. rewrite Hc', Hc. rewrite map_size_insert_None by done. lia.
    + unfold run_batch_seq in *. split; cbn [set_inflight set_stage ru_stage ru_inflight].
      * intros seq. unfold run_batch_seq. cbn [set_inflight set_stage ru_stage ru_inflight]. rewrite lookup_insert_is_Some.
        intros [<-|[_ Hs]]; [done|]. rewrite <- Hi in Hs. eapply N.lt_le_trans; [by apply (io_below _ Hu1)|exact Hb'].
      * unfold max_inflight_of in *. cbn [set_inflight set_stage ru_stage ru_inflight]. rewrite Hc', Hc, map_size_insert_None by done. lia.
Qed.

(** ** One turn of the loop *)

Definition run_limit u : N := (expansion_budget u + N.of_nat (max_inflight_of u) - 1)%N.

(** The bounds a run keeps. *)
Record run_ok u : Prop := {
  rk_budget : (0 < expansion_budget u)%N;
  rk_inflight : inflight_ok u;
  rk_total : (total u <= run_limit u)%N
}.
Lemma winds_down_run_ok u u' : winds_down u u' -> run_ok u -> run_ok u'.
Proof.
  intros Hw [Hb Hi Ht]. split; [|by eapply winds_down_ok|].
  - unfold expansion_budget in *. by rewrite (wd_config _ _ Hw).
  - unfold run_limit, expansion_budget, max_inflight_of in *. fold (run_config u') (run_config u) in *. rewrite (wd_config _ _ Hw).
    etrans; [apply Hw|done].
Qed.

Lemma commit_next_counts batch u a u' : commit_next batch u = (Ok a, u') -> run_expansions u' = (run_expansions u + 1)%N.
Proof.
  unfold commit_next. rewrite st_bind_run. cbn [get_st]. rewrite st_bind_run. unfold lift_res.
  destruct (ru_inflight u !! br_seq batch) as [intent|]; cbn [ok_or]; [|done].
  rewrite modify_bind. unfold on_stage, zoom. cbn [set_inflight ru_stage]. destruct (commit_completed batch intent (ru_stage u)) as [x s] eqn:E.
  intros [= Hx <-]. apply counts_commit_completed in E as (_ & _ & _ & He). unfold run_expansions. cbn. apply He. by destruct x.
Qed.

Lemma within_budget u elapsed : (0 < expansion_budget u)%N -> budget_exhausted (rn_search (run_of u)) elapsed = None ->
  (run_expansions u < expansion_budget u)%N.
Proof.
  unfold budget_exhausted, run_expansions, expansion_budget, run_config, config_of, expansions_of, run_of. intros Hb.
  destruct (_ && _); [done|]. destruct (N.ltb_spec 0 (max_expansions (budgets (ss_config (rn_search (xs_run (ru_stage u))))))); [|lia].
  destruct (N.leb_spec (max_expansions (budgets (ss_config (rn_search (xs_run (ru_stage u)))))) (ss_expansions (rn_search (xs_run (ru_stage u))))); [done|]. done.
Qed.

(** The part of a turn after the pipeline is filled. *)
Definition turn_commit : st (Runner W CP) ClientError (option bool) :=
  u ← get_st;
  if bool_decide (ru_inflight u = ∅) then _ ← end_with BudgetExhausted REASON_FRONTIER_EXHAUSTED; mret (Some true)
  else
    done ← on_runner (on_world next_completed);
    match done with
    | None => mret (Some true)
    | Some done => goal ← commit_next done; ended ← after_commit goal true; mret (Some ended)
    end.
Lemma turn_commit_spec u r u' : turn_commit u = (r, u') ->
  winds_down u u' /\ r <> Ok None /\ (r = Ok (Some false) -> (run_expansions u + 1 <= run_expansions u')%N).
Proof.
  unfold turn_commit. rewrite st_bind_run. cbn [get_st]. case_bool_decide.
  { rewrite st_bind_run. destruct (end_with _ _ u) as [x u1] eqn:E. pose proof (winding_end _ _ _ _ _ E).
    destruct x; intros [= <- <-]; split_and!; done. }
  rewrite st_bind_run. destruct (on_runner (on_world next_completed) u) as [rn u1] eqn:E.
  pose proof (winding_runner _ (core_on_world _) _ _ _ E) as Hw1. destruct rn as [[batch|]|e|]; [|intros [= <- <-]; split_and!; done..].
  rewrite st_bind_run. destruct (commit_next batch u1) as [rc u2] eqn:Ec. pose proof (commit_next_winds _ _ _ _ Ec) as Hw2.
  pose proof (winds_down_trans _ _ _ Hw1 Hw2) as Hw12. destruct rc as [goal|e|]; [|intros [= <- <-]; split_and!; done..].
  apply commit_next_counts in Ec. rewrite st_bind_run. destruct (after_commit goal true u2) as [ra u3] eqn:Ea.
  pose proof (after_commit_winds _ _ _ _ _ Ea) as Hw3. pose proof (winds_down_trans _ _ _ Hw12 Hw3) as Hw.
  pose proof (wd_exp _ _ Hw1). pose proof (wd_exp _ _ Hw3).
  destruct ra as [ended|e|]; intros [= <- <-]; split_and!; try done. intros _. lia.
Qed.

Lemma run_turn_spec u r u' : run_ok u -> run_turn u = (r, u') ->
  run_ok u' /\ run_config u' = run_config u /\ (run_expansions u <= run_expansions u')%N /\ r <> Ok None /\
  (r = Ok (Some false) -> (run_expansions u < expansion_budget u)%N /\ (run_expansions u + 1 <= run_expansions u')%N).
Proof.
  intros Hu. unfold run_turn. rewrite st_bind_run. destruct (handle_control u) as [rc u1] eqn:Ec.
  pose proof (control_winds _ _ _ Ec) as Hw1. pose proof (winds_down_run_ok _ _ Hw1 Hu) as Hu1.
  destruct rc as [[]|e|]; cbn [negb].
  3,4: intros [= <- <-]; split_and!; [done|apply Hw1|apply Hw1|done|done].
  2:{ intros [= <- <-]. split_and!; [done|apply Hw1|apply Hw1|done|done]. }
  rewrite st_bind_run. cbn [get_st]. destruct (budget_exhausted _ _) as [reason|] eqn:Eb.
  { assert (winding (_ ← drain_inflight; _ ← end_with BudgetExhausted reason; mret (Some true))) as Hwind.
    { apply winding_bind; [apply drain_winds|intros _]. apply winding_bind; [apply winding_end|intros _; apply winding_ret]. }
    intros Hr. pose proof (winds_down_trans _ _ _ Hw1 (Hwind _ _ _ Hr)) as Hw. split_and!; [by eapply winds_down_run_ok|apply Hw|apply Hw|..].
    all: revert Hr; rewrite st_bind_run; destruct (drain_inflight u1) as [[]?]; rewrite ?st_bind_run; try destruct (end_with _ _ _) as [[]?];
      intros [= <- <-]; done. }
  apply within_budget in Eb; [|apply Hu1]. change (fun _ : unit => _) with (fun _ : unit => turn_commit). unfold fbind. rewrite st_bind_run.
  destruct (fill (max_inflight_of u1) u1) as [rf u2] eqn:Ef. pose proof (fill_spec _ _ _ _ (rk_inflight _ Hu1) Ef) as (Hi2 & Hc2 & He2 & Hn2).
  assert (run_ok u2) as Hu2.
  { assert (expansion_budget u2 = expansion_budget u1) as Hb2 by (unfold expansion_budget; by rewrite Hc2).
    split; [rewrite Hb2; apply Hu1|done|]. unfold total, run_limit. rewrite Hb2, He2. pose proof (io_fits _ Hi2). lia. }
  assert (run_expansions u <= run_expansions u2)%N as Hle by (rewrite He2; apply Hw1).
  assert (run_config u2 = run_config u) as Hcu by (rewrite Hc2; apply Hw1).
  assert (expansion_budget u1 = expansion_budget u) as Hbu by (unfold expansion_budget; f_equal; f_equal; apply Hw1).
  pose proof (wd_exp _ _ Hw1).
  destruct rf as [[[]|]|e|]; [| |intros [= <- <-]; split_and!; done..]; [|exfalso; apply Hn2; [lia|done]].
  intros Ht. apply turn_commit_spec in Ht as (Hw & Hn & Hs). split_and!; [by eapply winds_down_run_ok| |etrans; [exact Hle|apply Hw]|done|].
  - etrans; [apply Hw|done].
  - intros Hr. specialize (Hs Hr). lia.
Qed.

(** ** The loop *)

Lemma run_loop_spec fuel u r u' : run_ok u -> run_loop fuel u = (r, u') ->
  run_ok u' /\ run_config u' = run_config u /\
  ((0 < fuel)%nat -> (expansion_budget u < run_expansions u + N.of_nat fuel)%N -> r <> Ok None).
Proof.
  revert u. induction fuel as [|fuel IH]; intros u Hu; cbn [run_loop].
  { intros [= <- <-]. split_and!; [done..|lia]. }
  unfold fbind. rewrite st_bind_run. destruct (run_turn u) as [rt u1] eqn:Et.
  pose proof (run_turn_spec _ _ _ Hu Et) as (Hu1 & Hc1 & He1 & Hn1 & Hs1).
  destruct rt as [[[]|]|e|]; [intros [= <- <-]; split_and!; done| | |intros [= <- <-]; split_and!; done..]; [|done].
  intros Hr. apply IH in Hr as (H1 & H2 & H3); [|done]. destruct (Hs1 eq_refl) as [Hlt Hinc].
  split_and!; [done|congruence|]. intros _ Hb. apply H3; [lia|]. unfold expansion_budget in *. rewrite Hc1. lia.
Qed.

(** C10. Expansions pass their budget only by what was in flight: a run loop
    that starts with expansions and batches in flight within the budget plus
    the pipeline's depth less one ends, however it ends, with no more
    expansions than that, and never has more batches in flight than the
    configuration allows. *)
Theorem expansions_within_budget (fuel : nat) (u u' : Runner W CP) (r : res ClientError (option unit)) :
  (0 < max_expansions (budgets (run_config u)))%N -> inflight_ok u ->
  (run_expansions u + N.of_nat (size (ru_inflight u)) <=
     max_expansions (budgets (run_config u)) + N.of_nat (max_inflight_of u) - 1)%N ->
  run_loop fuel u = (r, u') ->
  (run_expansions u' + N.of_nat (size (ru_inflight u')) <=
     max_expansions (budgets (run_config u)) + N.of_nat (max_inflight_of u) - 1)%N /\
  (size (ru_inflight u') <= max_inflight_of u)%nat.
Proof.
  intros Hb Hi Ht Hr. destruct (run_loop_spec fuel u r u') as ([_ Hi' Ht'] & Hc & _); [by split|done|].
  unfold total, run_limit, expansion_budget, max_inflight_of in *. fold (run_config u') (run_config u) in *. rewrite Hc in Ht'.
  split; [done|]. pose proof (io_fits _ Hi') as Hf. unfold max_inflight_of in Hf. fold (run_config u') in Hf. by rewrite Hc in Hf.
Qed.

(** C11. A run with an expansion budget ends: every turn of the loop that
    does not end the run commits an expansion, so one turn more than the
    budget leaves is enough fuel. *)
Theorem run_loop_ends (fuel : nat) (u u' : Runner W CP) (r : res ClientError (option unit)) :
  (0 < max_expansions (budgets (run_config u)))%N -> inflight_ok u ->
  (run_expansions u + N.of_nat (size (ru_inflight u)) <=
     max_expansions (budgets (run_config u)) + N.of_nat (max_inflight_of u) - 1)%N ->
  (0 < fuel)%nat -> (max_expansions (budgets (run_config u)) < run_expansions u + N.of_nat fuel)%N ->
  run_loop fuel u = (r, u') -> r <> Ok None.
Proof. intros Hb Hi Ht Hf Hn Hr. eapply run_loop_spec; [by split|done..]. Qed.
End Bounds.

(** ** Witnesses *)

#[local] Existing Instance lab_metadata.
#[local] Existing Instance lab_runtime.
#[local] Existing Instance lab_archive.
#[local] Existing Instance crash_at.
#[local] Existing Instance lab_checkpoint_codec.
#[local] Existing Instance lab_intent_codec.
#[local] Existing Instance lab_attrs_codec.
#[local] Existing Instance lab_nodes.
#[local] Existing Instance lab_scorer.
#[local] Existing Instance lab_synth.
#[local] Existing Instance lab_pipeline.
#[local] Existing Instance sample_sort.
#[local] Existing Instance toy_display.
#[local] Existing Instance toy_blake3.
#[local] Existing Instance toy_chacha.
#[local] Existing Instance toy_libm.

Lemma lab_runner_ok : inflight_ok lab_runner.
Proof. split; [|apply (bool_decide_unpack _); by vm_compute]. intros seq [i Hl]. done. Qed.

(** Two expansions are allowed, one was made, two batches fit: the run ends
    with three. *)
Lemma expansions_within_budget_witness : exists u',
  run_loop 3 lab_runner = (Ok (Some tt), u') /\ run_expansions u' = 3%N /\ (size (ru_inflight u') <= 2)%nat.
Proof.
  destruct (run_loop 3 lab_runner) as [r u'] eqn:E.
  assert (r = Ok (Some tt)) as -> by (transitivity (run_loop 3 lab_runner).1; [by rewrite E|vm_compute; reflexivity]).
  destruct (expansions_within_budget 3 lab_runner u' (Ok (Some tt)) eq_refl lab_runner_ok) as [_ Hs].
  - apply (bool_decide_unpack _). by vm_compute.
  - exact E.
  - exists u'. split; [reflexivity|]. split; [|exact Hs].
    transitivity (run_expansions (run_loop 3 lab_runner).2); [by rewrite E|vm_compute; reflexivity].
Defined.

Lemma run_loop_ends_witness : (run_loop 2 lab_runner).1 <> Ok None.
Proof.
  destruct (run_loop 2 lab_runner) as [r u'] eqn:E.
  apply (run_loop_ends 2 lab_runner u' r eq_refl lab_runner_ok); [apply (bool_decide_unpack _); by vm_compute|lia| |exact E].
  reflexivity.
Defined.
