(* ===== verification/RunOutcome.v ===== *)
(** How a run ends (RunLoop.v): its outcome has a final state with its
    reason, what was published last agrees with it, and only a simulated
    crash leaves a run without an outcome. *)
From S2P Require Import Prelude Float64 Types Reasons Tree Frontier Mirror Commit Plateau Client Retry MetaStore Rng Policy Softmax Ucb Staged Checkpoint Runner Durable.
From S2P Require Import HvTypes SynthTypes WorkerDriver Pipeline StoreTypes NodeAttrs SynthDriver ScorerTypes Compile Events Bringup CommitStage ReplayStage RunLoop StageSample Frames.
Local Open Scope string_scope.
Local Open Scope list_scope.

Section Outcome.
Context {W CP : Type} `{MS : MetadataStore W, RT : Runtime W, SA : ScorerArchive W, CR : CrashPolicy CP}.
Context `{PC : Postcard CheckpointV1, PI : Postcard ExpansionIntent, PA : Postcard OrchNodeAttrsV1}.
Context `{NS : NodeStore W, SC : Scorer W, SY : InputSynth W, BP : BatchPipeline W}.
Context `{SB : SortByStart, HD : F64Display, HB : Blake3, HC : ChaCha12, HL : Libm}.
Implicit Types u : Runner W CP.

(** A final state, with a reason where the budget ended the run. *)
Definition ended_well u : Prop :=
  status_of u = Checkpoint.Stopped \/ status_of u = GoalReached \/
  status_of u = BudgetExhausted /\ is_Some (ru_failure_reason u).

(** [m] only returns [a] in a state of [P]. *)
Definition returns {A} (m : st (Runner W CP) ClientError A) (a : A) (P : Runner W CP -> Prop) : Prop :=
  forall u u', m u = (Ok a, u') -> P u'.
Lemma returns_bind {A B} (m : st (Runner W CP) ClientError A) (k : A -> st (Runner W CP) ClientError B) b P :
  (forall a, returns (k a) b P) -> returns (m ≫= k) b P.
Proof. intros Hk u u'. rewrite st_bind_run. destruct (m u) as [[a|e|] u1]; [|done..]. apply Hk. Qed.
Lemma returns_other {A} (a b : A) P : a <> b -> returns (mret a) b P.
Proof. intros Hn u u' [= -> _]. done. Qed.
(** The last step sets the status. *)
Lemma returns_status {A} status (a b : A) P : (forall u, status_of u = status -> P u) -> returns (_ ← set_status status; mret a) b P.
Proof. intros HP u u'. rewrite st_bind_run. intros [= _ <-]. by apply HP. Qed.
Lemma returns_end {A} reason (a b : A) : returns (_ ← end_with BudgetExhausted reason; mret a) b ended_well.
Proof. intros u u'. rewrite st_bind_run. intros [= _ <-]. right. right. split; [done|]. by exists reason. Qed.
Lemma stopped_ends u : status_of u = Checkpoint.Stopped -> ended_well u.
Proof. by left. Qed.
Lemma goal_ends u : status_of u = GoalReached -> ended_well u.
Proof. by right; left. Qed.

Lemma messages_end tape : returns (handle_messages tape) false ended_well /\ returns (parked tape) false ended_well.
Proof.
  induction tape as [|[[]|] tape [IH1 IH2]]; cbn [handle_messages parked]; split;
    repeat first [assumption|by apply returns_other|apply returns_status, stopped_ends|apply returns_bind; intros ?].
Qed.
Lemma control_ends : returns handle_control false ended_well.
Proof. unfold handle_control. apply returns_bind. intros u. apply messages_end. Qed.
Lemma park_ends tape : returns (park_resumed tape) false ended_well.
Proof.
  induction tape as [|[[]|] tape IH]; cbn [park_resumed];
    repeat first [assumption|by apply returns_other|apply returns_status, stopped_ends|apply returns_bind; intros ?].
Qed.
Lemma after_commit_ends goal drain : returns (after_commit goal drain) true ended_well.
Proof.
  unfold after_commit. apply returns_bind; intros _. apply returns_bind; intros _. destruct goal.
  - apply returns_bind; intros _. apply returns_bind; intros u. case_decide; [|by apply returns_other].
    apply returns_bind; intros _. apply returns_status, goal_ends.
  - apply returns_bind; intros _. by apply returns_other.
Qed.

(** The pipeline does not end while the runner holds it. *)
Context (Hopen : forall w w' : W, next_completed w <> (Ok None, w')).
Lemma next_open {A} (k : option BatchResult -> st (Runner W CP) ClientError A) a P :
  (forall batch, returns (k (Some batch)) a P) -> returns (on_runner (on_world next_completed) ≫= k) a P.
Proof.
  intros Hk u u'. rewrite st_bind_run. unfold on_runner, on_stage, on_run, zoom, on_world.
  pose proof (Hopen (rn_world (xs_run (ru_stage u)))) as Hn. destruct (next_completed _) as [[[batch|]|e|] w]; cbn; [apply Hk| |done..].
  by destruct (Hn w).
Qed.
Lemma after_commit_some goal : returns (ended ← after_commit goal true; mret (Some ended)) (Some true) ended_well.
Proof.
  intros u u'. rewrite st_bind_run. destruct (after_commit goal true u) as [[[]|e|] u1] eqn:E; [|done..].
  intros [= <-]. by eapply after_commit_ends.
Qed.

Lemma run_turn_ends : returns run_turn (Some true) ended_well.
Proof.
  intros u u'. unfold run_turn. rewrite st_bind_run. destruct (handle_control u) as [[[]|e|] u1] eqn:E; [| |done..]; cbn [negb].
  2:{ intros [= <-]. by eapply control_ends. }
  clear E. revert u1 u'.
  apply returns_bind. intros u2. destruct (budget_exhausted _ _) as [reason|].
  - apply returns_bind; intros _. apply returns_end.
  - unfold fbind. apply returns_bind. intros [[]|]; [|by apply returns_other]. apply returns_bind. intros u3.
    case_bool_decide; [apply returns_end|]. apply next_open. intros batch. apply returns_bind. intros goal. apply after_commit_some.
Qed.
Lemma run_loop_ended fuel : returns (run_loop fuel) (Some tt) ended_well.
Proof.
  induction fuel as [|fuel IH]; intros u u'; cbn [run_loop]; [done|]. unfold fbind. rewrite st_bind_run.
  destruct (run_turn u) as [[[[]|]|e|] u1] eqn:E; [|apply IH|done..]. intros [= <-]. by eapply run_turn_ends.
Qed.
Lemma replay_turn_ends intent : returns (replay_turn intent) true ended_well.
Proof.
  intros u u'. unfold replay_turn. rewrite st_bind_run. destruct (handle_control u) as [[[]|e|] u1] eqn:E; [| |done..]; cbn [negb].
  2:{ intros [= <-]. by eapply control_ends. }
  intros Hr. revert Hr. apply returns_bind; intros _. apply next_open. intros batch. apply returns_bind; intros b. apply returns_bind; intros goal.
  apply after_commit_ends.
Qed.
Lemma replay_phase_ends queue : returns (replay_phase queue) true ended_well.
Proof.
  induction queue as [|intent queue IH]; cbn [replay_phase]; [by apply returns_other|]. apply returns_bind; intros _.
  intros u u'. rewrite st_bind_run. destruct (replay_turn intent u) as [[[]|e|] u1] eqn:E; [|apply IH|done..]. intros [= <-]. by eapply replay_turn_ends.
Qed.
Lemma run_phases_ends fuel : returns (run_phases fuel) (Some tt) ended_well.
Proof.
  unfold run_phases. apply returns_bind. intros u u1 u'. rewrite st_bind_run.
  destruct ((if decide (status_of u = Checkpoint.Paused) then _ ← publish_status; park_resumed (ru_control u) else mret true) u1) as [[[]|e|] u2] eqn:E;
    [| |done..]; cbn [negb].
  2:{ intros [= <-]. case_decide; [|done]. revert E. apply returns_bind. intros _. apply park_ends. }
  apply returns_bind. intros u3 u4 u5. rewrite st_bind_run.
  destruct (replay_phase _ u4) as [[[]|e|] u6] eqn:E'; [|apply run_loop_ended|done..]. intros [= <-]. by eapply replay_phase_ends.
Qed.

(** ** The conclusion of a run *)

Definition failed_cataloged u : Prop :=
  status_of u = FailedState /\ exists message, ru_failure_reason u = Some (cataloged_failed_reason message).

Lemma runner_core {A} (m : st (Run W CP) ClientError A) u : keeps core_of m ->
  status_of (on_runner m u).2 = status_of u /\ ru_failure_reason (on_runner m u).2 = ru_failure_reason u.
Proof.
  intros H. unfold on_runner, on_stage, on_run, zoom, status_of, run_of. specialize (H (xs_run (ru_stage u))).
  destruct (m (xs_run (ru_stage u))) as [r s]. cbn in *. injection H as _ H. by rewrite H.
Qed.
Lemma final_checkpoint_ends u r u' : ended_well u \/ failed_cataloged u -> final_checkpoint u = (r, u') ->
  (r = Ok tt \/ r = Panic) /\ (ended_well u' \/ failed_cataloged u').
Proof.
  intros Hu. unfold final_checkpoint. destruct (match ru_failure_reason u with Some reason => _ | None => _ end); [intros [= <- <-]; auto|].
  destruct (runner_core checkpoint u core_checkpoint) as [Hs Hf]. destruct (on_runner checkpoint u) as [rc u1]. cbn in Hs, Hf.
  assert (ended_well u1 \/ failed_cataloged u1) as Hu1 by (unfold ended_well, failed_cataloged in *; by rewrite Hs, Hf).
  destruct rc as [[]|e|]; [intros [= <- <-]; auto| |intros [= <- <-]; auto].
  destruct (ru_failure_reason u1) as [reason|] eqn:Er; [intros [= <- <-]; auto|].
  unfold fail_run, end_with. rewrite st_bind_run. intros [= <- <-]. split; [by left|]. right. split; [done|]. by exists (ce_message e).
Qed.
Lemma conclude_ends u r u' : ended_well u \/ failed_cataloged u -> conclude u = (r, u') ->
  match r with
  | Ok (Some o) => o = outcome_of u' /\ (ended_well u' \/ failed_cataloged u') /\ ru_status u' = snapshot_of u'
  | Ok None | Err _ => False
  | Panic => True
  end.
Proof.
  intros Hu. unfold conclude. rewrite st_bind_run. destruct (final_checkpoint u) as [rf u1] eqn:E.
  destruct (final_checkpoint_ends u rf u1 Hu E) as [[->| ->] Hu1]; [|by intros [= <- <-]]. rewrite st_bind_run. intros [= <- <-]. done.
Qed.

(** C12. A run that is not killed ends with an outcome that accounts for it:
    its state is final (stopped, goal reached, budget exhausted or failed), a
    failure carries a cataloged reason and an exhausted budget some reason;
    the outcome is read off the runner's last state, which is also the last
    status published.  The only error a run returns is a simulated crash. *)
Theorem run_outcome_accounted (fuel : nat) (u u' : Runner W CP) (r : res ClientError (option RunOutcome)) :
  run fuel u = (r, u') ->
  (forall o, r = Ok (Some o) ->
     o = outcome_of u' /\ ru_status u' = snapshot_of u' /\
     (ro_state o = Checkpoint.Stopped \/ ro_state o = GoalReached \/
      ro_state o = BudgetExhausted /\ is_Some (ro_failure_reason o) \/
      ro_state o = FailedState /\ exists message, ro_failure_reason o = Some (cataloged_failed_reason message))) /\
  (forall e, r = Err e -> starts_with CRASHED_MARKER (ce_message e) = true).
Proof.
  unfold run. destruct (run_phases fuel u) as [[[[]|]|e|] u1] eqn:E.
  - intros Hc. apply conclude_ends in Hc; [|left; by eapply run_phases_ends]. destruct r as [[o|]|e|]; [|done..].
    destruct Hc as (-> & Hw & Hp). split; [|done]. intros o [= <-]. split_and!; [done|done|]. destruct Hw as [[?|[?|?]]|?]; auto.
  - intros [= <- <-]. done.
  - destruct (starts_with CRASHED_MARKER (ce_message e)) eqn:Ee; [intros [= <- <-]; split; [done|by intros ? [= <-]]|].
    rewrite st_bind_run. destruct (fail_run e u1) as [rf u2] eqn:Ef.
    assert (rf = Ok tt /\ failed_cataloged u2) as [-> Hf].
    { unfold fail_run, end_with in Ef. rewrite st_bind_run in Ef. injection Ef as <- <-. split; [done|]. split; [done|]. by exists (ce_message e). }
    intros Hc. apply conclude_ends in Hc; [|by right]. destruct r as [[o|]|e'|]; [|done..].
    destruct Hc as (-> & Hw & Hp). split; [|done]. intros o [= <-]. split_and!; [done|done|]. destruct Hw as [[?|[?|?]]|?]; auto.
  - intros [= <- <-]. done.
Qed.

(** C38. A stop that arrives while the log is replayed forgets a batch: the
    intent was taken off the queue before the message was read, so it is
    neither run nor committed, and the checkpoint the run then ends with
    claims its sequence number. *)
Theorem stop_during_replay_forgets (fuel : nat) (u : Runner W CP) (intent : ExpansionIntent) (rest : list ExpansionIntent)
    (tape : list (option Control)) :
  du_replay_queue (rn_durable (run_of u)) = intent :: rest -> Forall (fun later => ei_seq intent < ei_seq later)%N rest ->
  (ei_seq intent < ss_batch_seq (rn_search (run_of u)))%N ->
  status_of u = Checkpoint.Running -> ru_inflight u = ∅ -> ru_control u = Some CtlStop :: tape ->
  exists u', run fuel u = conclude u' /\ status_of u' = Checkpoint.Stopped /\
    commit_of (ru_stage u') = commit_of (ru_stage u) /\ rn_world (run_of u') = rn_world (run_of u) /\
    (ei_seq intent < effective_checkpoint_seq (run_of u'))%N.
Proof.
  intros Hq Hlater Hseq Hrun Hfly Htape. destruct u as [x fly reason control status]. cbn [ru_control ru_inflight] in *. subst.
  set (popped := set_run (set_durable (pop_replay (rn_durable (xs_run x))) (xs_run x)) x).
  set (u' := (set_status Checkpoint.Stopped (mkRunner popped ∅ reason tape status) : _ * _).2).
  assert (forall u, ru_inflight u = ∅ -> drain_inflight u = (Ok tt, u)) as Hdrain.
  { intros u Hu. unfold drain_inflight. rewrite st_bind_run. cbn [get_st]. by rewrite Hu, map_size_empty. }
  assert (replay_turn intent (mkRunner popped ∅ reason (Some CtlStop :: tape) status) = (Ok true, u')) as Hturn.
  { unfold replay_turn, handle_control. rewrite st_bind_run, st_bind_run. cbn [get_st ru_control handle_messages].
    rewrite modify_bind, st_bind_run, Hdrain by done. reflexivity. }
  exists u'. unfold run, run_phases. rewrite st_bind_run. cbn [get_st].
  rewrite decide_False by (by rewrite Hrun). rewrite st_bind_run. cbn [mret st_ret negb]. rewrite st_bind_run. cbn [get_st].
  rewrite st_bind_run, Hq. cbn [replay_phase]. rewrite st_bind_run.
  change (on_runner _ _) with (Ok (E := ClientError) tt, mkRunner (CP := CP) popped ∅ reason (Some CtlStop :: tape) status).
  cbv beta iota. rewrite st_bind_run, Hturn. split; [done|]. split; [done|]. split; [done|]. split; [done|].
  unfold effective_checkpoint_seq. change (du_replay_queue (rn_durable (run_of u'))) with (tail (du_replay_queue (rn_durable (xs_run x)))).
  unfold run_of in Hq. cbn [ru_stage] in Hq. rewrite Hq. cbn [tail]. destruct rest as [|later rest]; [exact Hseq|by inversion Hlater].
Qed.
End Outcome.

(** ** Witness *)

#[local] Existing Instance lab_metadata.
#[local] Existing Instance lab_runtime.
#[local] Existing Instance lab_archive.
#[local] Existing Instance crash_at.
#[local] Existing Instance lab_checkpoint_codec.
#[local] Existing Instance lab_intent_codec.
#[local] Existing Instance lab_attrs_codec.
#[local] Existing Instance lab_nodes.
#[local] Existing Instance lab_scorer.
#[local] Existing Instance lab_synth.
#[local] Existing Instance lab_pipeline.
#[local] Existing Instance sample_sort.
#[local] Existing Instance toy_display.
#[local] Existing Instance toy_blake3.
#[local] Existing Instance toy_chacha.
#[local] Existing Instance toy_libm.

Lemma lab_pipeline_open (w w' : Lab) : next_completed w <> (Ok None, w').
Proof. cbn. by destruct (lab_queue w). Qed.

(** The sample run exhausts its budget; its final checkpoint cannot be
    encoded by the sample codec, which does not change the reason. *)
Lemma run_outcome_accounted_witness : exists o u',
  run 3 lab_runner = (Ok (Some o), u') /\ ro_state o = BudgetExhausted /\ o = outcome_of u' /\ ru_status u' = snapshot_of u'.
Proof.
  destruct (run 3 lab_runner) as [r u'] eqn:E.
  assert (from_option ro_state Checkpoint.Pending (match r with Ok o => o | _ => None end) = BudgetExhausted) as Hs.
  { transitivity (from_option ro_state Checkpoint.Pending (match (run 3 lab_runner).1 with Ok o => o | _ => None end));
      [by rewrite E|vm_compute; reflexivity]. }
  destruct (run_outcome_accounted lab_pipeline_open 3 lab_runner u' r E) as [Ho _].
  destruct r as [[o|]|e|]; [|discriminate Hs..]. destruct (Ho o eq_refl) as (H1 & H2 & _).
  exists o, u'. split; [reflexivity|]. split; [exact Hs|]. split; [exact H1|exact H2].
Defined.

(** The sample runner with its first intent still to replay, and a stop. *)
Definition lab_replaying : Runner Lab CrashPoint :=
  let x := lab_stage 1 in
  let r := xs_run x in
  let d := rn_durable r in
  mkRunner (set_run (set_search (ss_set_batch_seq 2 (rn_search r)) (set_durable (mkDurableState (du_ckpt_generation d) 0 0 1 0 [lab_intent 1]) r)) x)
    ∅ None [Some CtlStop] StatusSnapshot_initial.

Lemma stop_during_replay_forgets_witness : ei_seq (lab_intent 1) = 1%N /\ exists u',
  run 1 lab_replaying = conclude u' /\ status_of u' = Checkpoint.Stopped /\ (1 < effective_checkpoint_seq (run_of u'))%N.
Proof.
  split; [vm_compute; reflexivity|].
  destruct (stop_during_replay_forgets 1 lab_replaying (lab_intent 1) [] []) as (u' & H1 & H2 & _ & _ & H3).
  - reflexivity.
  - exact (Forall_nil_2 _).
  - vm_compute. reflexivity.
  - reflexivity.
  - reflexivity.
  - reflexivity.
  - exists u'. split; [exact H1|]. split; [exact H2|exact H3].
Defined.
