(* ===== verification/Fence.v ===== *)
(** Fencing (CommitStage.v, ReplayStage.v): a runner whose checkpoint was
    taken over by another owner commits nothing.  [ServiceFrame] says what
    the calls before the ownership check leave alone; [rows] is what a client
    can see of the node rows. *)
From S2P Require Import Prelude Float64 Types Reasons Tree Frontier Mirror Commit Plateau Client Retry MetaStore Rng Policy Softmax Ucb Staged Checkpoint Runner Durable.
From S2P Require Import HvTypes SynthTypes WorkerDriver Pipeline StoreTypes NodeAttrs SynthDriver ScorerTypes Compile Events Bringup CommitStage ReplayStage RunLoop StageSample Frames.
Local Open Scope string_scope.
Local Open Scope list_scope.

(** Scoring, reading metadata and time passing change neither the metadata
    nor the rows. *)
Class ServiceFrame {W R : Type} `{ML : MetadataStoreLaws W, RT : Runtime W, SC : Scorer W} (rows : W -> R) := {
  score_frame : forall request w r w', store_ok w -> score_batch request w = (r, w') ->
    store_ok w' /\ entries_of w' = entries_of w /\ rows w' = rows w;
  get_frame : forall k w r w', store_ok w -> get_metadata k w = (r, w') -> rows w' = rows w;
  sleep_frame : forall d w, store_ok w -> store_ok (sleep d w) /\ entries_of (sleep d w) = entries_of w /\ rows (sleep d w) = rows w
}.

Section Fence.
Context {W CP R : Type} `{MS : MetadataStore W, RT : Runtime W, SA : ScorerArchive W, CR : CrashPolicy CP}.
Context `{PC : Postcard CheckpointV1, PI : Postcard ExpansionIntent, PA : Postcard OrchNodeAttrsV1}.
Context `{NS : NodeStore W, SC : Scorer W, SY : InputSynth W, BP : BatchPipeline W}.
Context `{SB : SortByStart, HD : F64Display, HB : Blake3, HC : ChaCha12}.
Context {ML : MetadataStoreLaws W} (rows : W -> R) {SF : ServiceFrame rows}.
Implicit Types x : Stage W CP.

Definition stage_world x : W := rn_world (xs_run x).

(** The same runner as [x0] up to a score, with the same durable world. *)
Record untouched x0 x : Prop := {
  ut_world : store_ok (stage_world x);
  ut_entries : entries_of (stage_world x) = entries_of (stage_world x0);
  ut_rows : rows (stage_world x) = rows (stage_world x0);
  ut_id : rn_experiment_id (xs_run x) = rn_experiment_id (xs_run x0);
  ut_durable : rn_durable (xs_run x) = rn_durable (xs_run x0);
  ut_commit : commit_of x = commit_of x0;
  ut_expansions : expansions_of x = expansions_of x0;
  ut_bursts : xs_node_bursts x = xs_node_bursts x0;
  ut_emitted : xs_emitted x = xs_emitted x0
}.

Lemma untouched_refl x : store_ok (stage_world x) -> untouched x x.
Proof. by split. Qed.
(** A change of the world, of the crash policy and of the progress. *)
Lemma untouched_world x0 x w c p : untouched x0 x -> store_ok w -> entries_of w = entries_of (stage_world x) ->
  rows w = rows (stage_world x) -> untouched x0 (set_run (set_progress p (set_crash c (set_world w (xs_run x)))) x).
Proof. intros [] Hok He Hr. split; cbn; try done; by etrans. Qed.

(** A call behind the retry policy. *)
Lemma rpc_untouched {A} (m : st W ClientError A) x0 x r x' :
  (forall w v w', store_ok w -> m w = (v, w') -> store_ok w' /\ entries_of w' = entries_of w /\ rows w' = rows w) ->
  untouched x0 x -> on_run (rpc m) x = (r, x') -> untouched x0 x' /\
  exists w w', store_ok w /\ entries_of w = entries_of (stage_world x0) /\ m w = (r, w').
Proof.
  intros Hm Hx. unfold on_run, zoom, rpc, on_world. destruct (retry_rpc _ _ _) as [v w'] eqn:Hr. intros Heq.
  assert (v = r /\ x' = set_run (set_world w' (xs_run x)) x) as [-> ->] by (by destruct v; injection Heq as <- <-). clear Heq.
  destruct (retry_rpc_last (fun w => store_ok w /\ entries_of w = entries_of (stage_world x) /\ rows w = rows (stage_world x)) _ _ _ _ _
    (fun d w => ltac:(intros (Hw & He & Hro); destruct (sleep_frame d w Hw) as (? & -> & ->); done))
    (fun w e u' => ltac:(intros (Hw & He & Hro) Hc; destruct (Hm _ _ _ Hw Hc) as (? & -> & ->); done))
    (conj (ut_world _ _ Hx) (conj eq_refl eq_refl)) Hr) as (w & (Hw & He & Hro) & Hc).
  destruct (Hm _ _ _ Hw Hc) as (Hw' & He' & Hro'). split.
  - pose proof (untouched_world x0 x w' (rn_crash (xs_run x)) (rn_progress (xs_run x)) Hx Hw' ltac:(congruence) ltac:(congruence)) as Hu.
    destruct x as [[] ? ? ? ? ? ? ? ? ?]. exact Hu.
  - exists w, w'. split_and!; [done| |done]. rewrite He. apply Hx.
Qed.

Lemma score_stage_untouched batch intent x r x' : store_ok (stage_world x) -> score_stage batch intent x = (r, x') -> untouched x x'.
Proof.
  intros Hok. unfold score_stage, mod_search. rewrite modify_bind. set (x1 := set_run _ x).
  assert (untouched x x1) as Hx1 by by split.
  rewrite st_bind_run. case_decide.
  { intros [= <- <-]. done. }
  unfold stage_score_batch. rewrite st_bind_run. cbn [get_st]. rewrite st_bind_run.
  destruct (on_run (rpc (score_batch _)) x1) as [v x2] eqn:E. apply (rpc_untouched _ x) in E as [Hx2 _]; [| |done].
  2:{ intros w v' w' Hw Hs. by eapply score_frame. }
  destruct v as [response|e|]; [|by intros [= <- <-]..]. unfold mod_progress. rewrite modify_bind. intros [= <- <-].
  destruct Hx2. split; done.
Qed.

Lemma crash_untouched point x0 x r x' : untouched x0 x -> on_run (crash_check point) x = (r, x') -> untouched x0 x'.
Proof.
  intros Hx. unfold on_run, zoom, crash_check. destruct (rn_crash (xs_run x)) as [policy|] eqn:Hc.
  - destruct (should_crash point policy) as [[] policy']; intros [= <- <-]; destruct Hx; by split.
  - intros [= <- <-]. by destruct Hx.
Qed.

(** The ownership check fails when another generation is stored. *)
Lemma own_commit_fenced x0 x r x' g : untouched x0 x -> du_ckpt_generation (rn_durable (xs_run x0)) = Some g ->
  snd <$> entries_of (stage_world x0) !! checkpoint_key (rn_experiment_id (xs_run x0)) <> Some g ->
  own_commit x = (r, x') -> untouched x0 x' /\ is_Ok r = false.
Proof.
  intros Hx Hg Hstale. unfold own_commit. rewrite st_bind_run. destruct (on_run (crash_check _) x) as [v x1] eqn:E.
  apply (crash_untouched _ x0) in E as Hx1; [|done]. destruct v as [[]|e|]; [|by intros [= <- <-]..].
  unfold on_run, zoom, ensure_checkpoint_owner. rewrite (ut_durable _ _ Hx1), Hg, (ut_id _ _ Hx1).
  set (key := checkpoint_key _) in *. destruct (rpc (get_metadata key) (xs_run x1)) as [v s] eqn:Er.
  destruct (rpc_untouched (get_metadata key) x0 x1 v (set_run s x1)) as (Hx2 & w & w' & Hw & He & Hm).
  - intros u v' u' Hu Hm. destruct (get_laws _ _ _ _ Hu Hm) as (? & ? & _). split_and!; [done..|]. by eapply get_frame.
  - done.
  - unfold on_run, zoom. rewrite Er. by destruct v.
  - destruct v as [[bytes generation]|e|].
    + destruct (get_laws _ _ _ _ Hw Hm) as (_ & _ & _ & Hv & _). specialize (Hv _ eq_refl). rewrite He in Hv.
      case_decide as Hd; intros [= <- <-]; [|done]. subst. rewrite Hv in Hstale. done.
    + destruct (ce_kind e); intros [= <- <-]; done.
    + by intros [= <- <-].
Qed.

(** C7. A runner whose checkpoint another owner has replaced commits
    nothing: committing a completed batch and replaying a logged one both
    fail, and leave the rows, the metadata, the search state, the burst
    index, the expansions and the events as they were. *)
Theorem stale_owner_commits_nothing (batch : BatchResult) (intent : ExpansionIntent) (x x' : Stage W CP)
    (r : res ClientError (option NodeId)) (g : MetadataGeneration) :
  store_ok (stage_world x) -> du_ckpt_generation (rn_durable (xs_run x)) = Some g ->
  snd <$> entries_of (stage_world x) !! checkpoint_key (rn_experiment_id (xs_run x)) <> Some g ->
  commit_completed batch intent x = (r, x') \/ commit_replayed batch intent x = (r, x') ->
  is_Ok r = false /\ rows (stage_world x') = rows (stage_world x) /\ entries_of (stage_world x') = entries_of (stage_world x) /\
  commit_of x' = commit_of x /\ xs_node_bursts x' = xs_node_bursts x /\ expansions_of x' = expansions_of x /\ xs_emitted x' = xs_emitted x.
Proof.
  intros Hok Hg Hstale Hrun. cut (untouched x x' /\ is_Ok r = false); [intros [[] ?]; by split_and!|].
  destruct Hrun as [Hrun|Hrun].
  - unfold commit_completed in Hrun. rewrite st_bind_run in Hrun. destruct (score_stage batch intent x) as [v x1] eqn:Es.
    apply score_stage_untouched in Es as Hx1; [|done]. destruct v as [scored|e|]; [|by injection Hrun as <- <-..].
    rewrite st_bind_run in Hrun. cbn [get_st] in Hrun. rewrite st_bind_run in Hrun. unfold lift_res in Hrun.
    destruct (build_children _ _ _) as [children|e|]; [|by injection Hrun as <- <-..].
    rewrite st_bind_run in Hrun. destruct (own_commit x1) as [v x2] eqn:Eo. eapply own_commit_fenced in Eo as [Hx2 Hv]; [|done..].
    destruct v; [done|by injection Hrun as <- <-..].
  - unfold commit_replayed in Hrun. rewrite st_bind_run in Hrun. destruct (score_stage batch intent x) as [v x1] eqn:Es.
    apply score_stage_untouched in Es as Hx1; [|done]. destruct v as [scored|e|]; [|by injection Hrun as <- <-..].
    rewrite st_bind_run in Hrun. destruct (own_commit x1) as [v x2] eqn:Eo. eapply own_commit_fenced in Eo as [Hx2 Hv]; [|done..].
    destruct v; [done|by injection Hrun as <- <-..].
Qed.
End Fence.

(** ** Witness *)

#[local] Existing Instance lab_metadata.
#[local] Existing Instance lab_runtime.
#[local] Existing Instance lab_archive.
#[local] Existing Instance crash_at.
#[local] Existing Instance lab_checkpoint_codec.
#[local] Existing Instance lab_intent_codec.
#[local] Existing Instance lab_attrs_codec.
#[local] Existing Instance lab_nodes.
#[local] Existing Instance lab_scorer.
#[local] Existing Instance lab_synth.
#[local] Existing Instance lab_pipeline.
#[local] Existing Instance sample_sort.
#[local] Existing Instance toy_display.
#[local] Existing Instance toy_blake3.
#[local] Existing Instance toy_chacha.
#[local] Existing Instance toy_libm.
#[local] Existing Instance lab_laws.

Lemma lab_frame : ServiceFrame lab_rows.
Proof.
  split.
  - by intros request w r w' Hw [= <- <-].
  - by intros k w r w' Hw (s & _ & ->)%on_lab_inv.
  - done.
Qed.
(** A completed batch with one captured child of the root. *)
Definition lab_batch : BatchResult := mkBatchResult 1 0 [lab_job 1 0 (lab_burst 0)].

(** The store holds generation 1; the runner owns generation 2. *)
Lemma stale_owner_commits_nothing_witness :
  is_Ok (commit_completed lab_batch (lab_intent 1) (lab_stage 2)).1 = false /\
  lab_rows (stage_world (commit_completed lab_batch (lab_intent 1) (lab_stage 2)).2) = [] /\
  is_Ok (commit_completed lab_batch (lab_intent 1) (lab_stage 1)).1 = true /\
  length (lab_rows (stage_world (commit_completed lab_batch (lab_intent 1) (lab_stage 1)).2)) = 1%nat.
Proof.
  destruct (commit_completed lab_batch (lab_intent 1) (lab_stage 2)) as [r x'] eqn:E.
  destruct (stale_owner_commits_nothing (SF := lab_frame) lab_rows lab_batch (lab_intent 1) (lab_stage 2) x' r 2) as (H1 & H2 & _).
  - exact (Forall_nil_2 _).
  - reflexivity.
  - apply (bool_decide_unpack _). vm_compute. reflexivity.
  - left. exact E.
  - split; [exact H1|]. split; [exact H2|]. split; vm_compute; reflexivity.
Defined.
