(* ===== verification/WalFirst.v ===== *)
(** Write-ahead (ReplayStage.v): a batch reaches the pipeline only after its
    intent is in the log.  [DispatchFrame] says what the calls of a dispatch
    do to the metadata and to [submitted], the batches handed over so far. *)
From S2P Require Import Prelude Float64 Types Reasons Tree Frontier Mirror Commit Plateau Client Retry MetaStore Rng Policy Softmax Ucb Staged Checkpoint Runner Durable.
From S2P Require Import HvTypes SynthTypes WorkerDriver Pipeline StoreTypes NodeAttrs SynthDriver ScorerTypes Compile Events Bringup CommitStage ReplayStage RunLoop StageSample Frames.
Local Open Scope string_scope.
Local Open Scope list_scope.

Class DispatchFrame {W : Type} `{ML : MetadataStoreLaws W, RT : Runtime W, NS : NodeStore W, SY : InputSynth W, BP : BatchPipeline W}
    (submitted : W -> list Batch) := {
  df_node : forall request w r w', store_ok w -> get_node request w = (r, w') ->
    store_ok w' /\ entries_of w' = entries_of w /\ submitted w' = submitted w;
  df_children : forall request w r w', store_ok w -> get_children request w = (r, w') ->
    store_ok w' /\ entries_of w' = entries_of w /\ submitted w' = submitted w;
  df_propose : forall request w r w', store_ok w -> propose_bursts request w = (r, w') ->
    store_ok w' /\ entries_of w' = entries_of w /\ submitted w' = submitted w;
  df_sleep : forall d w, store_ok w -> store_ok (sleep d w) /\ entries_of (sleep d w) = entries_of w /\ submitted (sleep d w) = submitted w;
  df_put : forall k v x w r w', store_ok w -> put_metadata k v x w = (r, w') -> submitted w' = submitted w;
  df_submit : forall batch w r w', store_ok w -> submit batch w = (r, w') ->
    store_ok w' /\ entries_of w' = entries_of w /\
    (submitted w' = submitted w \/ r = Ok tt /\ submitted w' = submitted w ++ [batch])
}.

Section WalFirst.
Context {W CP : Type} `{MS : MetadataStore W, RT : Runtime W, SA : ScorerArchive W, CR : CrashPolicy CP}.
Context `{PC : Postcard CheckpointV1, PI : Postcard ExpansionIntent, PA : Postcard OrchNodeAttrsV1}.
Context `{NS : NodeStore W, SC : Scorer W, SY : InputSynth W, BP : BatchPipeline W}.
Context `{SB : SortByStart, HD : F64Display, HB : Blake3, HC : ChaCha12}.
Context {ML : MetadataStoreLaws W} (submitted : W -> list Batch) {DF : DispatchFrame submitted}.
Implicit Types x : Stage W CP.
Implicit Types w : W.

(** The metadata and the batches handed over. *)
Definition ledger w : gmap string (list N * MetadataGeneration) * list Batch := (entries_of w, submitted w).
Definition stage_ledger x : gmap string (list N * MetadataGeneration) * list Batch := ledger (rn_world (xs_run x)).
Definition stage_ok x : Prop := store_ok (rn_world (xs_run x)).

(** A call that leaves the ledger alone. *)
Definition quiet_call {A} (m : st W ClientError A) : Prop := forall w r w', store_ok w -> m w = (r, w') -> store_ok w' /\ ledger w' = ledger w.
Lemma quiet_ret {A} (a : A) : quiet_call (mret a).
Proof. by intros w r w' Hw [= <- <-]. Qed.
Lemma quiet_lift {A} (v : res ClientError A) : quiet_call (lift_res v).
Proof. by intros w r w' Hw [= <- <-]. Qed.
Lemma quiet_bind {A B} (m : st W ClientError A) (k : A -> st W ClientError B) : quiet_call m -> (forall a, quiet_call (k a)) -> quiet_call (m ≫= k).
Proof.
  intros Hm Hk w r w' Hw. rewrite st_bind_run. destruct (m w) as [v w1] eqn:E. destruct (Hm _ _ _ Hw E) as [Hw1 Hl].
  destruct v as [a|e|]; [|by intros [= <- <-]..]. intros Hr. destruct (Hk a _ _ _ Hw1 Hr) as [? ->]. done.
Qed.
Lemma quiet_retry {A} p (m : st W ClientError A) : quiet_call m -> quiet_call (retry_rpc p m).
Proof.
  intros Hm w r w' Hw Hr. destruct (retry_rpc_last (fun u => store_ok u /\ ledger u = ledger w) _ _ _ _ _
    (fun d u => ltac:(intros [Hu Hl]; destruct (df_sleep d u Hu) as (? & He & Hs); split; [done|]; rewrite <- Hl; unfold ledger; by rewrite He, Hs))
    (fun u e u' => ltac:(intros [Hu Hl] Hc; destruct (Hm _ _ _ Hu Hc) as (? & ->); done)) (conj Hw eq_refl) Hr) as (u & [Hu Hl] & Hc).
  destruct (Hm _ _ _ Hu Hc) as [? ->]. done.
Qed.
Lemma quiet_node request : quiet_call (get_node request).
Proof. intros w r w' Hw Hr. destruct (df_node _ _ _ _ Hw Hr) as (? & He & Hs). unfold ledger. by rewrite He, Hs. Qed.
Lemma quiet_children request : quiet_call (get_children request).
Proof. intros w r w' Hw Hr. destruct (df_children _ _ _ _ Hw Hr) as (? & He & Hs). unfold ledger. by rewrite He, Hs. Qed.
Lemma quiet_propose request : quiet_call (propose_bursts request).
Proof. intros w r w' Hw Hr. destruct (df_propose _ _ _ _ Hw Hr) as (? & He & Hs). unfold ledger. by rewrite He, Hs. Qed.
Lemma quiet_build spec : quiet_call (build_propose_bursts_request spec).
Proof.
  unfold build_propose_bursts_request, build_input_synth_node_context, build_sibling_bursts.
  repeat first [apply quiet_ret|apply quiet_lift|apply quiet_node|apply quiet_children|apply quiet_bind; [|intros ?]|case_match].
Qed.

(** An operation of the runner that leaves the ledger alone. *)
Definition quiet_stage {A} (m : st (Stage W CP) ClientError A) : Prop := forall x r x', stage_ok x -> m x = (r, x') ->
  stage_ok x' /\ stage_ledger x' = stage_ledger x /\ rn_experiment_id (xs_run x') = rn_experiment_id (xs_run x).
Lemma quiet_stage_bind {A B} (m : st (Stage W CP) ClientError A) (k : A -> st (Stage W CP) ClientError B) :
  quiet_stage m -> (forall a, quiet_stage (k a)) -> quiet_stage (m ≫= k).
Proof.
  intros Hm Hk x r x' Hx. rewrite st_bind_run. destruct (m x) as [v x1] eqn:E. destruct (Hm _ _ _ Hx E) as (Hx1 & Hl & Hi).
  destruct v as [a|e|]; [|by intros [= <- <-]..]. intros Hr. destruct (Hk a _ _ _ Hx1 Hr) as (? & -> & ->). done.
Qed.
Lemma quiet_stage_world {A} (m : st W ClientError A) : quiet_call m -> quiet_stage (on_run (on_world m)).
Proof.
  intros Hm x r x' Hx. unfold on_run, zoom, on_world. destruct (m (rn_world (xs_run x))) as [v w] eqn:E.
  intros [= <- <-]. destruct (Hm _ _ _ Hx E). by split_and!.
Qed.
Lemma quiet_stage_rpc {A} (m : st W ClientError A) : quiet_call m -> quiet_stage (on_run (rpc m)).
Proof. intros Hm x. apply (quiet_stage_world (retry_rpc (rn_retry (xs_run x)) m)). by apply quiet_retry. Qed.
Lemma quiet_stage_crash point : quiet_stage (on_run (crash_check point)).
Proof.
  intros x r x' Hx. unfold on_run, zoom, crash_check. destruct (rn_crash (xs_run x)) as [policy|].
  - destruct (should_crash point policy) as [[] policy']; intros [= <- <-]; by split_and!.
  - intros [= <- <-]. destruct x as [[] ? ? ? ? ? ? ? ? ?]. by split_and!.
Qed.
Lemma quiet_synthesize intent : quiet_stage (synthesize intent).
Proof.
  unfold synthesize, guarded_propose. apply quiet_stage_bind; [by intros x r x' Hx [= <- <-]|intros x0].
  apply quiet_stage_bind; [apply quiet_stage_world, quiet_build|intros request].
  apply quiet_stage_bind; [apply quiet_stage_rpc, quiet_propose|intros response].
  apply quiet_stage_bind; [by intros x r x' Hx [= <- <-]|intros _]. intros x r x' Hx. unfold guard_response.
  destruct (_ && _); [by intros [= <- <-]|]. destruct (check_or_insert _ _ _) as [[|?|] ?]; [|by intros [= <- <-]..].
  destruct (bool_decide _); by intros [= <- <-].
Qed.

(** The entry of an intent, as a restart reads it. *)
Definition logged x (intent : ExpansionIntent) : Prop := exists bytes generation,
  entries_of (rn_world (xs_run x)) !! wal_key (rn_experiment_id (xs_run x)) (ei_seq intent) = Some (bytes, generation) /\
  decode_intent bytes = Ok intent.

Lemma log_intent_spec intent x r x' : stage_ok x -> log_intent intent x = (r, x') ->
  stage_ok x' /\ submitted (rn_world (xs_run x')) = submitted (rn_world (xs_run x)) /\ (is_Ok r = true -> logged x' intent).
Proof.
  intros Hx. unfold log_intent. rewrite st_bind_run. cbn [get_st]. rewrite st_bind_run. unfold lift_res, as_client_error.
  destruct (encode_intent intent) as [bytes|e|] eqn:Ee; cbn [map_err]; [|by intros [= <- <-]..].
  rewrite st_bind_run. unfold on_run, zoom, rpc, on_world. set (key := wal_key _ _).
  destruct (retry_rpc _ (put_metadata key bytes Unconditional) _) as [v w] eqn:Er.
  destruct (retry_rpc_last (fun u => store_ok u /\ submitted u = submitted (rn_world (xs_run x))) _
    (put_metadata key bytes Unconditional) _ _ _
    (fun d u => ltac:(intros [Hu Hl]; destruct (df_sleep d u Hu) as (? & _ & ->); done))
    (fun u e u' => ltac:(intros [Hu Hl] Hc; destruct (put_laws _ _ _ _ _ _ Hu Hc) as (? & _); rewrite (df_put _ _ _ _ _ _ Hu Hc); done))
    (conj Hx eq_refl) Er) as (u & [Hu Hl] & Hc).
  destruct (put_laws _ _ _ _ _ _ Hu Hc) as (Hw & _ & Hput & _). pose proof (df_put _ _ _ _ _ _ Hu Hc) as Hs.
  destruct v as [generation|e|]; intros [= <- <-]; (split_and!; [done|cbn; by rewrite Hs, Hl|]); [|done..].
  intros _. exists bytes, generation. cbn. split.
  - destruct (Hput generation eq_refl) as (_ & -> & _). apply lookup_insert_eq.
  - unfold encode_intent in Ee. apply map_err_Ok in Ee. unfold decode_intent. apply map_err_Ok. by apply postcard_roundtrip.
Qed.

Lemma submit_spec what intent bursts x r x' : stage_ok x -> submit_batch what intent bursts x = (r, x') ->
  rn_experiment_id (xs_run x') = rn_experiment_id (xs_run x) /\
  entries_of (rn_world (xs_run x')) = entries_of (rn_world (xs_run x)) /\
  (submitted (rn_world (xs_run x')) = submitted (rn_world (xs_run x)) \/
   exists batch, submitted (rn_world (xs_run x')) = submitted (rn_world (xs_run x)) ++ [batch] /\
     ba_seq batch = ei_seq intent /\ ba_parent batch = ei_node intent /\ ba_bursts batch = bursts).
Proof.
  intros Hx. unfold submit_batch. rewrite st_bind_run. cbn [get_st]. rewrite st_bind_run. unfold lift_res.
  destruct (xs_runtimes x !! ei_node intent) as [runtime|]; cbn [ok_or]; [|intros [= <- <-]; auto].
  rewrite st_bind_run. set (batch := mkBatch _ _ _ _ _). unfold on_run at 1, zoom at 1, on_world at 1.
  destruct (submit batch (rn_world (xs_run x))) as [v w] eqn:Es. destruct (df_submit _ _ _ _ Hx Es) as (Hw & He & Hsub).
  set (x1 := set_run (set_world w (xs_run x)) x).
  assert (submitted w = submitted (rn_world (xs_run x)) \/ exists b, submitted w = submitted (rn_world (xs_run x)) ++ [b] /\
     ba_seq b = ei_seq intent /\ ba_parent b = ei_node intent /\ ba_bursts b = bursts) as Hcase
    by (destruct Hsub as [?|[_ ?]]; [by left|right; by exists batch]).
  destruct v as [[]|e|]; cbn [map_err]; [|by intros [= <- <-]..]. intros Hc.
  destruct (quiet_stage_crash AfterDispatch x1 r x') as (_ & Hl & Hi); [done|done|]. unfold stage_ledger, ledger in Hl. injection Hl as He' Hs'.
  rewrite Hi, He', Hs'. done.
Qed.

(** C6. Write-ahead: whatever happens while an intent is dispatched, if a
    batch was handed to the pipeline then it is the intent's batch and the
    intent is already in the log, under its number and such that a restart
    decodes it; otherwise nothing was handed over. *)
Theorem wal_before_dispatch (inflight : gmap N ExpansionIntent) (intent : ExpansionIntent) (x x' : Stage W CP)
    (r : res ClientError (gmap N ExpansionIntent)) :
  store_ok (rn_world (xs_run x)) -> dispatch_intent inflight intent x = (r, x') ->
  submitted (rn_world (xs_run x')) = submitted (rn_world (xs_run x)) \/
  (exists batch, submitted (rn_world (xs_run x')) = submitted (rn_world (xs_run x)) ++ [batch] /\
     ba_seq batch = ei_seq intent /\ ba_parent batch = ei_node intent) /\
  exists bytes generation,
    entries_of (rn_world (xs_run x')) !! wal_key (rn_experiment_id (xs_run x')) (ei_seq intent) = Some (bytes, generation) /\
    decode_intent bytes = Ok intent.
Proof.
  intros Hx Hd. unfold dispatch_intent in Hd. rewrite st_bind_run in Hd. destruct (synthesize intent x) as [v x1] eqn:E1.
  destruct (quiet_synthesize intent _ _ _ Hx E1) as (Hx1 & Hl1 & _). unfold stage_ledger, ledger in Hl1. injection Hl1 as _ Hs1.
  destruct v as [response|e|]; [|injection Hd as <- <-; by left..].
  rewrite st_bind_run in Hd. destruct (log_intent intent x1) as [v x2] eqn:E2. destruct (log_intent_spec _ _ _ _ Hx1 E2) as (Hx2 & Hs2 & Hlog).
  destruct v as [[]|e|]; [|injection Hd as <- <-; left; by rewrite Hs2..]. specialize (Hlog eq_refl).
  rewrite st_bind_run in Hd. destruct (on_run (crash_check AfterWalWrite) x2) as [v x3] eqn:E3.
  destruct (quiet_stage_crash _ _ _ _ Hx2 E3) as (Hx3 & Hl3 & Hi3). unfold stage_ledger, ledger in Hl3. injection Hl3 as He3 Hs3.
  destruct v as [[]|e|]; [|injection Hd as <- <-; left; by rewrite Hs3, Hs2..].
  rewrite st_bind_run in Hd. destruct (submit_batch _ _ _ x3) as [v x4] eqn:E4. destruct (submit_spec _ _ _ _ _ _ Hx3 E4) as (Hi4 & He4 & Hs4).
  rewrite Hs3, Hs2, Hs1 in Hs4. destruct Hlog as (bytes & generation & Hb & Hdec). rewrite <- He3, <- He4, <- Hi3, <- Hi4 in Hb.
  assert (submitted (rn_world (xs_run x4)) = submitted (rn_world (xs_run x)) \/
    (exists batch, submitted (rn_world (xs_run x4)) = submitted (rn_world (xs_run x)) ++ [batch] /\
      ba_seq batch = ei_seq intent /\ ba_parent batch = ei_node intent) /\
    exists bytes generation, entries_of (rn_world (xs_run x4)) !! wal_key (rn_experiment_id (xs_run x4)) (ei_seq intent) = Some (bytes, generation) /\
      decode_intent bytes = Ok intent) as Hgoal by (destruct Hs4 as [?|(b & ? & ? & ? & _)]; [by left|right; split; eauto]).
  destruct v as [[]|e|]; [|by injection Hd as <- <-..].
  rewrite st_bind_run in Hd. unfold lift_res in Hd. destruct (succ_u64 (ei_seq intent)) as [n|e|]; [|by injection Hd as <- <-..].
  unfold mod_search in Hd. rewrite modify_bind in Hd. by injection Hd as <- <-.
Qed.
End WalFirst.

(** ** Witness *)

#[local] Existing Instance lab_metadata.
#[local] Existing Instance lab_runtime.
#[local] Existing Instance lab_archive.
#[local] Existing Instance crash_at.
#[local] Existing Instance lab_checkpoint_codec.
#[local] Existing Instance lab_intent_codec.
#[local] Existing Instance lab_attrs_codec.
#[local] Existing Instance lab_nodes.
#[local] Existing Instance lab_scorer.
#[local] Existing Instance lab_synth.
#[local] Existing Instance lab_pipeline.
#[local] Existing Instance sample_sort.
#[local] Existing Instance toy_display.
#[local] Existing Instance toy_blake3.
#[local] Existing Instance toy_chacha.
#[local] Existing Instance toy_libm.
#[local] Existing Instance lab_laws.

Lemma lab_dispatch_frame : DispatchFrame lab_queue.
Proof.
  split.
  - by intros request w r w' Hw [= <- <-].
  - by intros request w r w' Hw [= <- <-].
  - by intros request w r w' Hw [= <- <-].
  - done.
  - by intros k v x w r w' Hw (s & _ & ->)%on_lab_inv.
  - intros batch w r w' Hw [= <- <-]. split_and!; [done|done|by right].
Qed.

Lemma wal_before_dispatch_witness : exists inflight x',
  dispatch_intent ∅ (lab_intent 1) (lab_stage 1) = (Ok inflight, x') /\ length (lab_queue (rn_world (xs_run x'))) = 1%nat /\
  exists bytes generation,
    lab_entries (rn_world (xs_run x')) !! wal_key (rn_experiment_id (xs_run x')) (ei_seq (lab_intent 1)) = Some (bytes, generation) /\
    decode_intent bytes = Ok (lab_intent 1).
Proof.
  destruct (dispatch_intent ∅ (lab_intent 1) (lab_stage 1)) as [r x'] eqn:E.
  assert (is_Ok r = true) as Hr by (transitivity (is_Ok (dispatch_intent ∅ (lab_intent 1) (lab_stage 1)).1); [by rewrite E|vm_compute; reflexivity]).
  assert (length (lab_queue (rn_world (xs_run x'))) = 1%nat) as Hl
    by (transitivity (length (lab_queue (rn_world (xs_run (dispatch_intent ∅ (lab_intent 1) (lab_stage 1)).2)))); [by rewrite E|vm_compute; reflexivity]).
  destruct (wal_before_dispatch (DF := lab_dispatch_frame) lab_queue ∅ (lab_intent 1) (lab_stage 1) x' r (Forall_nil_2 _) E) as [H|[_ H]].
  - rewrite H in Hl. discriminate Hl.
  - destruct r as [inflight|e|]; [|discriminate Hr..]. exists inflight, x'. split; [reflexivity|]. split; [exact Hl|exact H].
Defined.
