(* ===== verification/Replay.v ===== *)
(** Replay against commit (ReplayStage.v, Commit.v): a logged batch that runs
    again commits what the commit rules commit.  [same_search] relates the
    two states: equal trees, mirrors, seen maps and streaks, and frontiers
    that differ at most in goal nodes, which are never selected. *)
From S2P Require Import Prelude Float64 Types Reasons Tree Frontier Mirror Commit Plateau Client Retry MetaStore Rng Policy Softmax Ucb Staged Checkpoint Runner Durable.
From S2P Require Import HvTypes SynthTypes WorkerDriver Pipeline StoreTypes NodeAttrs SynthDriver ScorerTypes Compile Events Bringup CommitStage ReplayStage RunLoop StageSample Frames.
Local Open Scope string_scope.
Local Open Scope list_scope.

(** ** Frontiers up to goals *)

Definition goal_in (t : Tree) (id : NodeId) : Prop := exists r, get t id = Some r /\ nr_goal r = true.

(** [s] is the state of the replay, [cs] that of the commit rules. *)
Record same_search (s cs : CommitState) : Prop := {
  ss_tree : cs_tree s = cs_tree cs;
  ss_mirror : cs_cell_mirror s = cs_cell_mirror cs;
  ss_seen : cs_seen s = cs_seen cs;
  ss_streaks : all_duplicate_streaks s = all_duplicate_streaks cs;
  ss_frontier : frontier_wf (cs_frontier s);
  ss_within : forall id, id ∈ members (cs_frontier s) -> id ∈ members (cs_frontier cs);
  ss_goals : forall id, id ∈ members (cs_frontier cs) -> id ∈ members (cs_frontier s) \/ goal_in (cs_tree cs) id
}.
Lemma same_search_refl cs : commit_wf cs -> same_search cs cs.
Proof. intros Hwf. split; auto. apply Hwf. Qed.

(** Calls of the tree keep goals. *)
Lemma goal_kept t id c : tree_wf t -> goal_in t id -> goal_in (run_call c t).2 id.
Proof.
  intros Hwf (r & Hr%get_Some & Hg). destruct (run_call_evolves c t _ r Hwf Hr) as (r' & Hr' & He).
  exists r'. rewrite get_Some. split; [done|]. destruct (run_call_wf c t Hwf) as [Hwf' _].
  apply (rwf_goal _ (twf_records _ Hwf' _ _ Hr')), (ev_goal _ _ He), (rwf_goal _ (twf_records _ Hwf _ _ Hr)). done.
Qed.
Lemma goal_insert t t' id parent payload (r : res TreeError NodeId) : tree_wf t -> insert_child parent payload t = (r, t') ->
  goal_in t id -> goal_in t' id.
Proof. intros Hwf Hr Hg. pose proof (goal_kept t id (CallInsert parent payload) Hwf Hg) as H. cbn [run_call] in H. by rewrite discard_snd, Hr in H. Qed.
Lemma goal_visit t t' id n (r : res TreeError N) : tree_wf t -> increment_visits n t = (r, t') -> goal_in t id -> goal_in t' id.
Proof. intros Hwf Hr Hg. pose proof (goal_kept t id (CallVisit n) Hwf Hg) as H. cbn [run_call] in H. by rewrite discard_snd, Hr in H. Qed.
Lemma goal_call t t' id c r : tree_wf t -> run_call c t = (r, t') -> goal_in t id -> goal_in t' id.
Proof. intros Hwf Hr Hg. pose proof (goal_kept t id c Hwf Hg) as H. by rewrite Hr in H. Qed.

Lemma marked_goal t id t' : mark_goal id t = (Ok tt, t') -> goal_in t' id.
Proof.
  unfold mark_goal. rewrite with_record_run. destruct (get t id) as [r|] eqn:Hg; [|done]. case_decide; [done|]. intros [= <-].
  exists (set_flags false true StGoal r). split; [by eapply get_replace|done].
Qed.
Lemma tracked_streaks id s cs : all_duplicate_streaks s = all_duplicate_streaks cs ->
  all_duplicate_streaks (ensure_tracking id s) = all_duplicate_streaks (ensure_tracking id cs).
Proof. intros H. unfold ensure_tracking. rewrite H. by case_decide. Qed.

(** ** One child *)

Lemma replay_tree_bind {A B} (m : st Tree TreeError A) (k : A -> st CommitState TreeError B) s :
  (replay_tree m ≫= k) s =
  match m (cs_tree s) with
  | (Ok a, t') => k a (set_tree t' s)
  | (Err e, t') => (Err e, set_tree t' s)
  | (Panic, t') => (Panic, set_tree t' s)
  end.
Proof. rewrite st_bind_run. unfold replay_tree, zoom. by destruct (m (cs_tree s)) as [[] ?]. Qed.
Lemma ignore_tree_bind {A B} (m : st Tree TreeError A) (k : unit -> st CommitState TreeError B) s :
  (ignore_err (replay_tree m) ≫= k) s =
  match m (cs_tree s) with (Panic, t') => (Panic, set_tree t' s) | (_, t') => k tt (set_tree t' s) end.
Proof. rewrite st_bind_run. unfold ignore_err, replay_tree, zoom. by destruct (m (cs_tree s)) as [[] ?]. Qed.
Lemma bump_bind {B} cell (n : N) m' (k : unit -> st CommitState TreeError B) s :
  bump (E := CommitError) cell (cs_cell_mirror s) = (Ok n, m') -> (replay_bump cell ≫= k) s = k tt (set_cell_mirror m' s).
Proof.
  unfold replay_bump. rewrite !st_bind_run. unfold zoom, bump, bump_by. intros H.
  cbn [N.eqb] in *. destruct (checked_add u32_max _ 1); [|done]. by injection H as <- <-.
Qed.

(** What the replay says of a child, against what the commit rules say. *)
Definition verdict_matches (goal : bool) (v : ReplayVerdict) (c : ChildCommit) : Prop :=
  c = match v with
      | ReplayDropped => mkChildCommit (Discard PruneDrop) None None
      | ReplayPruned id => mkChildCommit PrunedExhausted (Some id) None
      | ReplayDuplicate route => mkChildCommit (Discard Duplicate) None route
      | ReplayRegression => mkChildCommit (Discard Regression) None None
      | ReplayKept id _ => mkChildCommit Keep (Some id) None
      end /\
  (forall id status, v = ReplayKept id status -> status = if goal then StGoal else StFrontier).

Section Child.
Context (parent : NodeId) (score : f64) (child : ScoredChild) (rules : CommitRules) (s cs : CommitState).
Context (Hsim : same_search s cs) (Hwf : commit_wf cs).
Context (Hdup : sc_duplicate child = bool_decide (is_Some (SeenMap_get (cs_seen cs) (np_state_hash (sc_payload child))))).

Lemma replay_insert_error e : (insert_child parent (sc_payload child) (cs_tree cs)).1 = Err e ->
  rule_disposition score child rules cs = PrunedExhausted \/ rule_disposition score child rules cs = Keep ->
  is_Ok (replay_child parent score rules (sc_payload child) (sc_prune child) (sc_goal child) s).1 = false.
Proof.
  intros He Hd. unfold replay_child. rewrite gets_bind, (ss_seen _ _ Hsim), <- Hdup. unfold rule_disposition in Hd.
  destruct (sc_prune child); [destruct (prune_action rules); [|by destruct Hd]|].
  - rewrite replay_tree_bind, (ss_tree _ _ Hsim). by destruct (insert_child _ _ _) as [[] ?].
  - destruct (sc_duplicate child); [by destruct Hd|]. rewrite gets_bind, (ss_mirror _ _ Hsim).
    fold (worse_than_parent score child rules) (known_cell child cs). destruct (_ && _); [by destruct Hd|].
    rewrite replay_tree_bind, (ss_tree _ _ Hsim). by destruct (insert_child _ _ _) as [[] ?].
Qed.

Lemma replay_pruned id t' t'' cells n : rule_disposition score child rules cs = PrunedExhausted ->
  insert_child parent (sc_payload child) (cs_tree cs) = (Ok id, t') -> mark_pruned id t' = (Ok tt, t'') ->
  bump (E := CommitError) (np_cell (sc_payload child)) (cs_cell_mirror cs) = (Ok n, cells) ->
  replay_child parent score rules (sc_payload child) (sc_prune child) (sc_goal child) s =
    (Ok (ReplayPruned id), mkCommitState t'' (cs_frontier s) cells (SeenMap_insert (np_state_hash (sc_payload child)) id (cs_seen s)).2
       (all_duplicate_streaks (ensure_tracking id s))).
Proof.
  intros Hd Hi Hm Hb. unfold replay_child. rewrite gets_bind, (ss_seen _ _ Hsim), <- Hdup. unfold rule_disposition in Hd.
  destruct (sc_prune child); [destruct (prune_action rules); [|done]|].
  2:{ destruct (sc_duplicate child); [done|]. by destruct (_ && _). }
  rewrite replay_tree_bind, (ss_tree _ _ Hsim), Hi, modify_bind, ensure_tracking_tree, ignore_tree_bind. cbn [cs_tree set_tree]. rewrite Hm.
  rewrite modify_bind. erewrite bump_bind; [|cbn; destruct (ensure_tracking_parts id s) as (_ & _ & -> & _); by rewrite (ss_mirror _ _ Hsim)].
  unfold replay_seen, set_seen, set_cell_mirror, set_tree. cbn. destruct (ensure_tracking_parts id s) as (_ & -> & _ & ->).
  by rewrite (ss_seen _ _ Hsim).
Qed.

Lemma replay_kept id t' cells n : rule_disposition score child rules cs = Keep ->
  insert_child parent (sc_payload child) (cs_tree cs) = (Ok id, t') ->
  bump (E := CommitError) (np_cell (sc_payload child)) (cs_cell_mirror cs) = (Ok n, cells) ->
  let status := if sc_goal child then StGoal else StFrontier in
  let tree := if sc_goal child then (mark_goal id t').2 else t' in
  let frontier := if sc_goal child then cs_frontier s else (Frontier_insert id (cs_frontier s)).2 in
  (if sc_goal child then (mark_goal id t').1 <> Panic else (Frontier_insert id (cs_frontier s)).1 <> Panic) ->
  replay_child parent score rules (sc_payload child) (sc_prune child) (sc_goal child) s =
    (Ok (ReplayKept id status), mkCommitState tree frontier cells (SeenMap_insert (np_state_hash (sc_payload child)) id (cs_seen s)).2
       (all_duplicate_streaks (ensure_tracking id s))).
Proof.
  intros Hd Hi Hb status tree frontier Hnp. unfold replay_child. rewrite gets_bind, (ss_seen _ _ Hsim), <- Hdup. unfold rule_disposition in Hd.
  destruct (sc_prune child); [by destruct (prune_action rules)|]. destruct (sc_duplicate child); [done|].
  rewrite gets_bind, (ss_mirror _ _ Hsim). fold (worse_than_parent score child rules) (known_cell child cs). destruct (_ && _); [done|].
  rewrite replay_tree_bind, (ss_tree _ _ Hsim), Hi, modify_bind, ensure_tracking_tree, modify_bind.
  erewrite bump_bind; [|cbn; destruct (ensure_tracking_parts id s) as (_ & _ & -> & _); by rewrite (ss_mirror _ _ Hsim)].
  subst status tree frontier. destruct (ensure_tracking_parts id s) as (_ & Hf & _ & Hs). destruct (sc_goal child).
  - rewrite ignore_tree_bind. cbn [cs_tree set_tree set_cell_mirror replay_seen set_seen]. destruct (mark_goal id t') as [[[]|e|] t''] eqn:Em; [|..|done].
    all: unfold replay_seen, set_seen, set_cell_mirror, set_tree; cbn; by rewrite Hf, Hs, (ss_seen _ _ Hsim).
  - rewrite st_bind_run. unfold ignore_err, zoom. unfold replay_seen, set_seen, set_cell_mirror, set_tree. cbn. rewrite Hf, Hs, (ss_seen _ _ Hsim).
    destruct (Frontier_insert id (cs_frontier s)) as [[[]|e|] f'] eqn:Em; [|..|done]; done.
Qed.

Lemma replay_duplicate cells n t' : rule_disposition score child rules cs = Discard Duplicate ->
  bump (E := CommitError) (np_cell (sc_payload child)) (cs_cell_mirror cs) = (Ok n, cells) ->
  match SeenMap_get (cs_seen cs) (np_state_hash (sc_payload child)) with
  | Some existing =>
    if decide (existing = parent) then t' = cs_tree cs else exists v, increment_visits existing (cs_tree cs) = (Ok v, t')
  | None => t' = cs_tree cs
  end ->
  replay_child parent score rules (sc_payload child) (sc_prune child) (sc_goal child) s =
    (Ok (ReplayDuplicate (SeenMap_get (cs_seen cs) (np_state_hash (sc_payload child)))), set_tree t' (set_cell_mirror cells s)).
Proof.
  intros Hd Hb Hr. unfold replay_child. rewrite gets_bind, (ss_seen _ _ Hsim), <- Hdup. unfold rule_disposition in Hd.
  destruct (sc_prune child); [by destruct (prune_action rules)|]. destruct (sc_duplicate child); [|by destruct (_ && _)].
  erewrite bump_bind; [|by rewrite (ss_mirror _ _ Hsim)]. rewrite gets_bind. cbn [cs_seen set_cell_mirror]. rewrite (ss_seen _ _ Hsim).
  destruct (SeenMap_get _ _) as [existing|].
  - case_decide.
    + rewrite mret_bind. by rewrite Hr, <- (ss_tree _ _ Hsim).
    + destruct Hr as [v Hv]. rewrite ignore_tree_bind. cbn [cs_tree set_cell_mirror]. by rewrite (ss_tree _ _ Hsim), Hv.
  - rewrite mret_bind. by rewrite Hr, <- (ss_tree _ _ Hsim).
Qed.

(** A child the rules commit, the replay commits alike. *)
Lemma replay_step c cs' : child_step parent score child rules cs (Ok c) cs' -> exists v s',
  replay_child parent score rules (sc_payload child) (sc_prune child) (sc_goal child) s = (Ok v, s') /\
  same_search s' cs' /\ verdict_matches (sc_goal child) v c.
Proof.
  pose proof (cwf_tree _ Hwf) as Htw.
  intros Hstep. inversion Hstep as [Hd| Hd| |id t' t'' cells n Hd Hi Hm Hb|id t' t'' f' cells n Hd Hi Hm Hf Hb|t' cells n Hd Hb Hr| |]; subst.
  - exists ReplayDropped, s. split_and!; [|done|done]. unfold replay_child. rewrite gets_bind. unfold rule_disposition in Hd.
    destruct (sc_prune child); [by destruct (prune_action rules)|]. destruct (sc_duplicate child); [done|]. by destruct (_ && _).
  - exists ReplayRegression, s. split_and!; [|done|done]. unfold replay_child. rewrite gets_bind, (ss_seen _ _ Hsim), <- Hdup. unfold rule_disposition in Hd.
    destruct (sc_prune child); [by destruct (prune_action rules)|]. destruct (sc_duplicate child); [done|].
    rewrite gets_bind, (ss_mirror _ _ Hsim). fold (worse_than_parent score child rules) (known_cell child cs'). by destruct (_ && _).
  - eexists _, _. split; [by eapply replay_pruned|]. split; [|done].
    destruct (insert_child_Ok _ _ _ _ _ Htw Hi) as (_ & Htw' & _).
    destruct Hsim as [Ht Hmi Hs Hst Hfr Hin Hgo]. split; cbn [cs_tree cs_cell_mirror cs_seen cs_frontier all_duplicate_streaks]; [done|done|by rewrite Hs|exact (tracked_streaks id s cs Hst)|done|done|].
    intros x [?|Hx]%Hgo; [by left|right]. eapply (goal_call t' t'' _ (CallPruned id)); [done|done|]. exact (goal_insert _ _ _ _ _ _ Htw Hi Hx).
  - assert (id ∉ members (cs_frontier cs)) as Hfresh by (destruct (insert_child_Ok _ _ _ _ _ Htw Hi) as (-> & _); by apply next_id_fresh).
    assert (id ∉ members (cs_frontier s)) as Hfresh' by (intros ?%(ss_within _ _ Hsim); done).
    destruct (insert_child_Ok _ _ _ _ _ Htw Hi) as (_ & Htw' & _).
    pose proof (Frontier_insert_spec _ id (cwf_frontier _ Hwf)) as H1. rewrite decide_False in H1 by done. destruct H1 as (f1 & H1 & _ & Hm1 & _).
    rewrite Hf in H1. injection H1 as <-.
    pose proof (Frontier_insert_spec _ id (ss_frontier _ _ Hsim)) as H2. rewrite decide_False in H2 by done. destruct H2 as (f2 & H2 & Hw2 & Hm2 & _).
    eexists _, _. split; [eapply replay_kept; [done|done|done|]|].
    { destruct (sc_goal child); [by rewrite Hm|by rewrite H2]. }
    split; [|split; [done|by intros ? ? [= _ <-]]].
    destruct Hsim as [Ht Hmi Hs Hst Hfr Hin Hgo]. destruct (sc_goal child).
    + rewrite Hm. cbn [snd]. split; cbn [cs_tree cs_cell_mirror cs_seen cs_frontier all_duplicate_streaks]; [done|done|by rewrite Hs|exact (tracked_streaks id s cs Hst)|done| |].
      * intros x Hx. rewrite Hm1. apply elem_of_union_r, Hin, Hx.
      * intros x. rewrite Hm1. intros [->%elem_of_singleton|Hx]%elem_of_union; [right; by eapply marked_goal|].
        apply Hgo in Hx as [?|Hx]; [by left|right]. eapply (goal_call t' t'' _ (CallGoal id)); [done|done|]. exact (goal_insert _ _ _ _ _ _ Htw Hi Hx).
    + subst t''. rewrite H2. cbn [snd]. split; cbn [cs_tree cs_cell_mirror cs_seen cs_frontier all_duplicate_streaks]; [done|done|by rewrite Hs|exact (tracked_streaks id s cs Hst)|done| |].
      * intros x. rewrite Hm1, Hm2. set_solver.
      * intros x. rewrite Hm1, Hm2. intros [Hx|Hx]%elem_of_union; [left; by apply elem_of_union_l|].
        apply Hgo in Hx as [?|Hx]; [left; by apply elem_of_union_r|right]. exact (goal_insert _ _ _ _ _ _ Htw Hi Hx).
  - eexists _, _. split; [by eapply replay_duplicate|]. split; [|done].
    destruct Hsim as [Ht Hmi Hs Hst Hfr Hin Hgo]. split; cbn; [done|done|done|done|done|done|].
    intros x [?|Hx]%Hgo; [by left|right]. destruct (SeenMap_get _ _) as [existing|]; [case_decide|]; [by subst| |by subst].
    destruct Hr as [v Hv]. by eapply goal_visit.
Qed.
End Child.

(** ** Visits *)

(** [n] more visits fit every node. *)
Definition visits_fit (t : Tree) (n : N) : Prop := forall i r, records t !! i = Some r -> (nr_visits r + n <= u32_max)%N.

Lemma visits_fit_root t n : tree_wf t -> visits_fit t n -> (n <= u32_max)%N.
Proof. intros Hwf Hv. destruct (twf_root _ Hwf) as (r & Hr & _). specialize (Hv _ _ Hr). lia. Qed.
Lemma visits_insert t parent payload id t' n : tree_wf t -> insert_child parent payload t = (Ok id, t') -> visits_fit t n -> visits_fit t' n.
Proof.
  intros Hwf Hi Hv. pose proof (visits_fit_root _ _ Hwf Hv) as Hn. rewrite insert_child_run in Hi by done.
  destruct (get t parent) as [pr|] eqn:Hg; [|done]. destruct (_ <? _)%N; [done|]. destruct (_ <? _)%N; [done|]. injection Hi as <- <-.
  intros i r Hr. apply tree_insert_lookup in Hr as [[_ Hr]|[_ ->]]; [|cbn; lia|done].
  case_decide; [subst; cbn; apply (Hv (N.to_nat parent)), get_Some, Hg|by eapply Hv].
Qed.
Lemma visits_with_record {A} id (f : NodeRecord -> res TreeError (A * NodeRecord)) t a t' n k :
  (forall r a r', f r = Ok (a, r') -> (nr_visits r' <= nr_visits r + k)%N) -> with_record id f t = (Ok a, t') ->
  visits_fit t (n + k) -> visits_fit t' n.
Proof.
  intros Hf Hr Hv. rewrite with_record_run in Hr. destruct (get t id) as [r|] eqn:Hg; [|done].
  destruct (f r) as [[a' r']| |] eqn:E; [|done..]. injection Hr as <- <-. apply get_Some in Hg. intros i q Hq. cbn in Hq.
  apply list_lookup_insert_Some in Hq as [(<- & <- & _)|[_ Hq]].
  - specialize (Hv _ _ Hg). specialize (Hf _ _ _ E). lia.
  - specialize (Hv _ _ Hq). lia.
Qed.
Lemma visits_goal id t t' n : mark_goal id t = (Ok tt, t') -> visits_fit t n -> visits_fit t' n.
Proof.
  intros Hm Hv. unfold mark_goal in Hm. eapply (visits_with_record _ _ _ _ _ _ 0); [|exact Hm|by rewrite N.add_0_r].
  intros r a r'. cbn beta. case_decide; [done|]. intros [= <- <-]. cbn. lia.
Qed.
Lemma visits_pruned id t t' n : mark_pruned id t = (Ok tt, t') -> visits_fit t n -> visits_fit t' n.
Proof.
  intros Hm Hv. unfold mark_pruned in Hm. eapply (visits_with_record _ _ _ _ _ _ 0); [|exact Hm|by rewrite N.add_0_r].
  intros r a r'. cbn beta. destruct (is_goal_record r); [done|]. intros [= <- <-]. cbn. lia.
Qed.
Lemma visits_visit id t v t' n : increment_visits id t = (Ok v, t') -> visits_fit t (n + 1) -> visits_fit t' n.
Proof.
  intros Hm Hv. unfold increment_visits in Hm. eapply visits_with_record; [|exact Hm|exact Hv].
  intros r a r'. cbn beta. intros (w & [_ ->]%ok_or_Ok%checked_add_Some & [= <- <-])%bind_Ok. cbn. lia.
Qed.
Lemma visits_step parent score child rules cs c cs' n : tree_wf (cs_tree cs) -> child_step parent score child rules cs (Ok c) cs' ->
  visits_fit (cs_tree cs) (n + 1) -> visits_fit (cs_tree cs') n.
Proof.
  intros Hwf Hstep Hv. assert (visits_fit (cs_tree cs) n) as Hv0 by (intros i r Hr; specialize (Hv i r Hr); lia).
  inversion Hstep as [| | |id t' t'' cells m Hd Hi Hm Hb|id t' t'' f' cells m Hd Hi Hm Hf Hb|t' cells m Hd Hb Hr| |]; subst; cbn; [done|done|..].
  - by eapply visits_pruned, visits_insert.
  - destruct (sc_goal child); [by eapply visits_goal, visits_insert|]. subst. by eapply visits_insert.
  - destruct (SeenMap_get _ _) as [existing|]; [|by subst]. case_decide; [by subst|]. destruct Hr as [v Hr]. by eapply visits_visit.
Qed.

(** ** A child the replay commits *)

Lemma replay_child_commits parent score child rules s cs v s' : same_search s cs -> commit_wf cs ->
  sc_duplicate child = bool_decide (is_Some (SeenMap_get (cs_seen cs) (np_state_hash (sc_payload child)))) ->
  visits_fit (cs_tree cs) 1 -> (count (cs_cell_mirror cs) (np_cell (sc_payload child)) + 1 <= u32_max)%N ->
  replay_child parent score rules (sc_payload child) (sc_prune child) (sc_goal child) s = (Ok v, s') ->
  exists c cs', commit_child parent score child rules cs = (Ok c, cs') /\ child_step parent score child rules cs (Ok c) cs' /\
    same_search s' cs' /\ verdict_matches (sc_goal child) v c.
Proof.
  intros Hsim Hwf Hdup Hv Hroom Hrun. destruct (commit_child parent score child rules cs) as [r cs'] eqn:Hc.
  pose proof (commit_child_step _ _ _ _ _ _ _ Hwf Hc) as Hstep. destruct r as [c|e|].
  - destruct (replay_step parent score child rules s cs Hsim Hwf Hdup c cs' Hstep) as (v' & s1 & Hrun' & Hs & Hm).
    rewrite Hrun in Hrun'. injection Hrun' as <- <-. eauto 10.
  - exfalso. inversion Hstep as [| |e' Hd He| | | |existing cells n Hd Hb Hs Hne He|]; subst.
    + pose proof (replay_insert_error parent score child rules s cs' Hsim Hdup _ He Hd) as Hn. by rewrite Hrun in Hn.
    + destruct (route_in_tree _ _ _ Hwf Hs) as (r & Hg & _).
      destruct (increment_visits_cases _ _ _ (cwf_tree _ Hwf) Hg) as [[_ (t' & Ht & _)]|[Hgt _]]; [by rewrite Ht in He|].
      apply get_Some, Hv in Hg. lia.
  - exfalso. inversion Hstep. lia.
Qed.

(** ** The parent *)

Lemma same_search_streaks s cs l : same_search s cs -> same_search (set_streaks l s) (set_streaks l cs).
Proof. intros []. by split. Qed.
Lemma same_search_tracked s cs id : same_search s cs -> same_search (ensure_tracking id s) (ensure_tracking id cs).
Proof.
  intros H. unfold ensure_tracking. rewrite (ss_streaks _ _ H). case_decide; [by apply same_search_streaks|done].
Qed.
Lemma exhausted_not_goal t parent t' : tree_wf t -> mark_exhausted parent t = (Ok tt, t') -> ~ goal_in t parent.
Proof. intros Hwf Hm (r & Hg & Hgo). by rewrite (mark_exhausted_goal _ _ _ Hwf Hg Hgo) in Hm. Qed.

(** Taking the parent out of both frontiers. *)
Definition evict_parent (parent : NodeId) : st CommitState CommitError unit :=
  _ ← on_tree (mark_exhausted parent);
  present ← gets (fun s => Frontier_contains (cs_frontier s) parent);
  (if (present : bool) then on_frontier (Frontier_remove parent) else mret tt).
Lemma evict_same s cs parent s' : same_search s cs -> frontier_wf (cs_frontier cs) -> tree_wf (cs_tree cs) ->
  evict_parent parent s = (Ok tt, s') -> exists cs',
  evict_parent parent cs = (Ok tt, cs') /\ same_search s' cs'.
Proof.
  intros Hsim Hfw Htw Hrun. unfold evict_parent in *. rewrite on_tree_bind in Hrun |- *. rewrite (ss_tree _ _ Hsim) in Hrun.
  destruct (mark_exhausted parent (cs_tree cs)) as [[[]|e|] t'] eqn:Em; [|done..].
  pose proof (exhausted_not_goal _ _ _ Htw Em) as Hng. rewrite gets_bind in Hrun |- *. cbn [cs_frontier set_tree] in *.
  rewrite contains_members in Hrun by apply Hsim. rewrite contains_members by done.
  assert (parent ∈ members (cs_frontier s) <-> parent ∈ members (cs_frontier cs)) as Hiff.
  { split; [apply (ss_within _ _ Hsim)|]. intros [?|?]%(ss_goals _ _ Hsim); done. }
  assert (forall x, goal_in (cs_tree cs) x -> goal_in t' x) as Hgk by (intros x; by apply (goal_call _ _ _ (CallExhausted parent) (Ok tt))).
  destruct Hsim as [Ht Hmi Hs Hst Hfr Hin Hgo].
  pose proof (Frontier_remove_spec _ parent Hfr) as Hr1. pose proof (Frontier_remove_spec _ parent Hfw) as Hr2.
  case_bool_decide as Hp.
  - rewrite decide_True in Hr1 by done. rewrite bool_decide_eq_true_2 by by apply Hiff. rewrite decide_True in Hr2 by by apply Hiff.
    destruct Hr1 as (f1 & Hr1 & Hw1 & Hm1), Hr2 as (f2 & Hr2 & Hw2 & Hm2). unfold on_frontier, zoom in *. cbn [cs_frontier set_tree] in *.
    rewrite Hr1 in Hrun. rewrite Hr2. injection Hrun as <-. eexists. split; [done|].
    split; cbn; [done|done|done|done|done|rewrite Hm1, Hm2; set_solver|].
    intros x. rewrite Hm1, Hm2. intros [Hx Hne]%elem_of_difference. apply Hgo in Hx as [?|?]; [left; set_solver|right; auto].
  - rewrite bool_decide_eq_false_2 by by rewrite <- Hiff. injection Hrun as <-. eexists. split; [done|].
    split; cbn; [done|done|done|done|done|done|]. intros x [?|?]%Hgo; auto.
Qed.

Lemma exhaustion_same s cs parent visits all rules ev s' : same_search s cs -> commit_wf cs -> is_Some (get (cs_tree cs) parent) ->
  update_parent_exhaustion parent visits all rules s = (Ok ev, s') -> exists cs',
  update_parent_exhaustion parent visits all rules cs = (Ok ev, cs') /\ same_search s' cs'.
Proof.
  intros Hsim Hwf Hp. unfold update_parent_exhaustion. rewrite !modify_bind, !gets_bind.
  pose proof (same_search_tracked _ _ parent Hsim) as Hs1. rewrite (ss_streaks _ _ Hs1).
  rewrite (ensure_tracking_known cs parent Hwf Hp) in Hs1 |- *. set (s1 := ensure_tracking parent s) in *. clearbody s1. clear Hsim.
  intros Hrun. rewrite st_bind_run in Hrun |- *. unfold lift_res at 1 in Hrun. unfold lift_res at 1.
  destruct (all_duplicate_streaks cs !! N.to_nat parent) as [cur|]; cbn [expect] in *; [|done].
  rewrite st_bind_run in Hrun |- *. set (streak := if all then lift_res (expect (checked_add u32_max cur 1)) else mret 0%N) in *.
  assert (exists n, streak s1 = (Ok n, s1) /\ streak cs = (Ok n, cs)) as (n & Hn1 & Hn2).
  { subst streak. destruct all; [|eauto]. unfold lift_res in *. destruct (checked_add _ _ _); cbn in *; [eauto|done]. }
  rewrite Hn1 in Hrun. rewrite Hn2. clear streak Hn1 Hn2. rewrite modify_bind in Hrun |- *.
  pose proof (same_search_streaks _ _ (<[N.to_nat parent := n]> (all_duplicate_streaks cs)) Hs1) as Hs2.
  rewrite st_bind_run in Hrun |- *.
  destruct (if (_ <=? visits)%N then Some MaxVisits else _) as [why|].
  - change (on_tree (mark_exhausted parent) ≫= _) with (evict_parent parent) in Hrun |- *.
    destruct (evict_parent parent (set_streaks _ s1)) as [[[]|e|] s2] eqn:E in Hrun; [|done..].
    eapply evict_same in E as (cs2 & E2 & Hs3); [|exact Hs2|apply Hwf|apply Hwf].
    rewrite E2. injection Hrun as <- <-. eexists. done.
  - injection Hrun as <- <-. eexists. done.
Qed.

(** ** The loop *)

Definition burst_of (job : scorable_job) : BurstId := bu_burst_id (pv_burst (jr_burst job.1)).
Definition set_novelty (n : Novelty) (p : NodePayload) : NodePayload :=
  mkNodePayload (np_snapshot p) (np_score p) n (np_cell p) (np_state_hash p) (np_stage p) (np_frame_counter p).

(** The same child, up to the novelty read when it was built. *)
Definition same_but_novelty (c c' : ScoredChild) : Prop :=
  exists n, c' = mkScoredChild (set_novelty n (sc_payload c)) (sc_duplicate c) (sc_prune c) (sc_goal c).

Section Loop.
Context {W CP : Type} `{MS : MetadataStore W, RT : Runtime W, SA : ScorerArchive W, CR : CrashPolicy CP}.
Context `{PC : Postcard CheckpointV1, PI : Postcard ExpansionIntent, PA : Postcard OrchNodeAttrsV1}.
Context `{NS : NodeStore W, SC : Scorer W, SY : InputSynth W, BP : BatchPipeline W}.
Context `{SB : SortByStart, HD : F64Display, HB : Blake3, HC : ChaCha12}.
Implicit Types x : Stage W CP.

Definition produced parent b x : option NodeId := xs_node_bursts x !! (parent, b).

Lemma produced_create node parent job result status p b : keeps (produced p b) (create_child_node (CP := CP) node parent job result status).
Proof.
  unfold create_child_node. apply keeps_bind; [apply keeps_get|intros x0]. apply keeps_bind; [apply keeps_lift|intros attrs].
  intros x. unfold create_row, on_run, zoom, produced. destruct (rpc _ _) as [[|e|] s]; cbn; [done|by case_decide|done].
Qed.
Lemma produced_on_run {A} (m : st (Run W CP) ClientError A) p b : keeps (produced p b) (on_run m).
Proof. by apply keeps_zoom. Qed.
Lemma produced_discard ts parent reason route t p b : keeps (produced p b) (discard_row (W := W) (CP := CP) ts parent reason route t).
Proof.
  unfold discard_row. apply keeps_bind; [|intros _; apply keeps_bind; [|intros _; apply keeps_bind; [done|intros _; apply keeps_ret]]].
  - unfold count_discard. destruct reason; solve_keeps.
  - destruct route; [|apply keeps_ret]. unfold update_node. apply keeps_bind; [apply keeps_get|intros x].
    apply keeps_bind; [apply produced_on_run|intros ?; apply keeps_ret].
Qed.
Lemma produced_row parent node job result status t p b : b <> burst_of job ->
  keeps (produced p b) (replay_row (W := W) (CP := CP) parent node job result status t).
Proof.
  intros Hb. unfold replay_row. apply keeps_bind; [apply produced_create|intros _]. apply keeps_bind; [apply produced_on_run|intros _].
  apply keeps_bind; [|intros _; apply keeps_ret]. apply keeps_modify. intros x. unfold register_committed_child, produced.
  destruct (_ ≫= _) as [q|]; cbn; [|done]. rewrite lookup_insert_ne; [done|]. intros [= _ Hj]. by rewrite <- Hj in Hb.
Qed.
Lemma produced_effects ts parent job result payload v t p b : b <> burst_of job ->
  keeps (produced p b) (replay_effects (W := W) (CP := CP) ts parent job result payload v t).
Proof.
  intros Hb. destruct v; cbn [replay_effects].
  - apply keeps_ret.
  - apply keeps_bind; [by apply produced_row|intros t']. apply keeps_bind; [done|intros _; apply keeps_ret].
  - apply keeps_bind; [apply produced_discard|intros t'; apply keeps_ret].
  - apply keeps_bind; [apply produced_discard|intros t'; apply keeps_ret].
  - apply keeps_bind; [by apply produced_row|intros t']. apply keeps_bind; [done|intros _; apply keeps_ret].
Qed.

Lemma search_row parent node job result status t : keeps search_of (replay_row (W := W) (CP := CP) parent node job result status t).
Proof.
  unfold replay_row. apply keeps_bind; [apply search_create_child|intros _]. apply keeps_bind; [apply search_on_run, core_crash_check|intros _].
  apply keeps_bind; [|intros _; apply keeps_ret]. apply keeps_modify. intros x. unfold register_committed_child. by destruct (_ ≫= _).
Qed.
Lemma search_effects ts parent job result payload v t : keeps search_of (replay_effects (W := W) (CP := CP) ts parent job result payload v t).
Proof.
  destruct v; cbn [replay_effects].
  - apply keeps_ret.
  - apply keeps_bind; [apply search_row|intros t']. apply keeps_bind; [done|intros _; apply keeps_ret].
  - apply keeps_bind; [apply search_discard_row|intros t'; apply keeps_ret].
  - apply keeps_bind; [apply search_discard_row|intros t'; apply keeps_ret].
  - apply keeps_bind; [apply search_row|intros t']. apply keeps_bind; [done|intros _; apply keeps_ret].
Qed.

(** The first goal and the all-duplicate flag after a child. *)
Definition next_goal (v : ReplayVerdict) (g : option NodeId) : option NodeId :=
  match v with ReplayKept id StGoal => match g with None => Some id | Some _ => g end | _ => g end.
Definition next_all_duplicate (v : ReplayVerdict) (all : bool) : bool := match v with ReplayDuplicate _ => all | _ => false end.

Lemma row_tally parent node job result status t x t' x' : replay_row parent node job result status t x = (Ok t', x') ->
  rt_goal t' = rt_goal t /\ rt_all_duplicate t' = false.
Proof.
  unfold replay_row. rewrite st_bind_run. destruct (create_child_node _ _ _ _ _ _) as [[[]|e|] x1]; [|done..].
  rewrite st_bind_run. destruct (on_run _ x1) as [[[]|e|] x2]; [|done..]. rewrite modify_bind. by intros [= <- _].
Qed.
Lemma effects_tally ts parent job result payload v t x t' x' : replay_effects ts parent job result payload v t x = (Ok t', x') ->
  rt_goal t' = next_goal v (rt_goal t) /\ rt_all_duplicate t' = next_all_duplicate v (rt_all_duplicate t).
Proof.
  destruct v as [|node|route| |node status]; cbn [replay_effects].
  - by intros [= <- _].
  - rewrite st_bind_run. destruct (replay_row _ _ _ _ _ _ x) as [[t1|e|] x1] eqn:E; [|done..]. apply row_tally in E.
    rewrite st_bind_run. intros [= <- _]. done.
  - rewrite st_bind_run. destruct (discard_row _ _ _ _ _ x) as [[t1|e|] x1]; [|done..]. by intros [= <- _].
  - rewrite st_bind_run. destruct (discard_row _ _ _ _ _ x) as [[t1|e|] x1]; [|done..]. by intros [= <- _].
  - rewrite st_bind_run. destruct (replay_row _ _ _ _ _ _ x) as [[t1|e|] x1] eqn:E; [|done..]. apply row_tally in E as [Hg Ha].
    rewrite st_bind_run. intros [= <- _]. cbn. rewrite Hg. split; [|done].
    destruct status; [done|done|done|]. rewrite decide_True by done. cbn. by destruct (rt_goal t) eqn:?.
Qed.

Lemma replay_one_inv ts parent score rules job result t x t' x' : produced parent (burst_of job) x = None ->
  replay_one ts parent score rules job result t x = (Ok t', x') ->
  exists nov v s', replay_child parent score rules (payload_of job.2 result nov) (prunes job result) (sr_goal_hit result) (commit_of x) = (Ok v, s') /\
    commit_of x' = s' /\ rt_goal t' = next_goal v (rt_goal t) /\ rt_all_duplicate t' = next_all_duplicate v (rt_all_duplicate t) /\
    (forall b, b <> burst_of job -> produced parent b x' = produced parent b x).
Proof.
  intros Hp. unfold replay_one. rewrite st_bind_run. cbn [get_st]. unfold produced, burst_of in Hp. unfold adopted_node. rewrite Hp. cbn [mbind option_bind].
  rewrite st_bind_run. unfold lift_res. destruct (novelty_of _ _) as [nov|e|]; [|done..].
  rewrite st_bind_run. unfold on_tree_op, zoom. destruct (replay_child _ _ _ _ _ _ _) as [[v|e|] s'] eqn:E; cbn [map_err]; [|done..].
  intros He. exists nov, v, s'. split; [done|]. pose proof (search_effects ts parent job result (payload_of job.2 result nov) v t (set_commit s' x)) as Hs.
  pose proof (effects_tally _ _ _ _ _ _ _ _ _ _ He) as [Hg Ha]. rewrite He in Hs. split_and!; [|done|done|].
  - cbn in Hs. unfold commit_of. unfold search_of in Hs. by rewrite Hs.
  - intros b Hb. pose proof (produced_effects ts parent job result (payload_of job.2 result nov) v t parent b Hb (set_commit s' x)) as Hq. by rewrite He in Hq.
Qed.

(** [scored] can run again: the scorer's verdicts are those of the seen map,
    a hash that repeats was seen before, and no row exists yet. *)
Record fresh_batch (seen : SeenMap) (parent : NodeId) (before : gset StateHash) (scored : list (scorable_job * ScoreResult)) x : Prop := {
  fb_verdicts : forall jr, jr ∈ scored -> sr_duplicate jr.2 = bool_decide (is_Some (SeenMap_get seen (sr_state_hash jr.2)));
  fb_before : forall jr, jr ∈ scored -> sr_state_hash jr.2 ∈ before -> is_Some (SeenMap_get seen (sr_state_hash jr.2));
  fb_repeats : forall i j jr jr', (i < j)%nat -> scored !! i = Some jr -> scored !! j = Some jr' ->
    sr_state_hash jr.2 = sr_state_hash jr'.2 -> is_Some (SeenMap_get seen (sr_state_hash jr.2));
  fb_bursts : NoDup ((fun jr => burst_of jr.1) <$> scored);
  fb_rows : forall jr, jr ∈ scored -> produced parent (burst_of jr.1) x = None
}.
Lemma fresh_batch_tail seen parent before job result scored x x' : fresh_batch seen parent before ((job, result) :: scored) x ->
  (forall b, b <> burst_of job -> produced parent b x' = produced parent b x) ->
  fresh_batch seen parent ({[sr_state_hash result]} ∪ before) scored x'.
Proof.
  intros [Hv Hb Hr Hd Hp] Hx. apply NoDup_cons in Hd as [Hnot Hd]. split.
  - intros jr Hjr. apply Hv. by right.
  - intros jr Hjr [Hh%elem_of_singleton|Hh]%elem_of_union; [|apply Hb; [by right|done]].
    apply list_elem_of_lookup in Hjr as [j Hj]. rewrite Hh. apply (Hr 0%nat (S j) (job, result) jr); [lia|done|done|done].
  - intros i j jr jr' Hij Hi Hj. apply (Hr (S i) (S j)); [lia|done|done].
  - done.
  - intros jr Hjr. rewrite Hx; [apply Hp; by right|]. intros Heq. apply Hnot. cbn. rewrite <- Heq. apply list_elem_of_fmap. eauto.
Qed.

(** Hashes seen since the batch began belong to siblings before. *)
Definition seen_since (seen : SeenMap) (before : gset StateHash) (cs : CommitState) : Prop := forall h,
  (is_Some (SeenMap_get seen h) -> is_Some (SeenMap_get (cs_seen cs) h)) /\
  (is_Some (SeenMap_get (cs_seen cs) h) -> is_Some (SeenMap_get seen h) \/ h ∈ before).
Lemma seen_since_step seen before parent score child rules cs c cs' : seen_since seen before cs ->
  child_step parent score child rules cs (Ok c) cs' -> seen_since seen ({[np_state_hash (sc_payload child)]} ∪ before) cs'.
Proof.
  intros Hs Hstep h. destruct (Hs h) as [H1 H2].
  assert ((is_Some (SeenMap_get (cs_seen cs) h) -> is_Some (SeenMap_get (cs_seen cs') h)) /\
    (is_Some (SeenMap_get (cs_seen cs') h) -> is_Some (SeenMap_get (cs_seen cs) h) \/ h = np_state_hash (sc_payload child))) as [H3 H4].
  { inversion Hstep; subst; cbn [cs_seen set_tree set_cell_mirror]; try (split; by auto);
      rewrite SeenMap_insert_get; destruct (SeenMap_get (cs_seen cs) h); split; try (by auto); case_decide; auto; by intros []. }
  split; [auto|]. intros H. apply H4 in H as [H| ->]; [|right; by apply elem_of_union_l, elem_of_singleton].
  apply H2 in H as [?|?]; [by left|right; by apply elem_of_union_r].
Qed.

Lemma next_goal_matches (child : ScoredChild) v c g : verdict_matches (sc_goal child) v c ->
  (if sc_goal child && bool_decide (disposition c = Keep) && bool_decide (is_Some (cc_node_id c)) && bool_decide (g = None)
   then cc_node_id c else g) = next_goal v g.
Proof.
  intros [-> Hst]. destruct v as [|id|route| |id status]; cbn; rewrite ?andb_false_r; try done; try by destruct (sc_goal child).
  rewrite (Hst id status eq_refl). destruct (sc_goal child); cbn; [|done]. by destruct g.
Qed.
Lemma next_all_matches goal v c all : verdict_matches goal v c -> next_all_duplicate v all = all && is_duplicate_commit c.
Proof. intros [-> _]. destruct v; cbn; by destruct all. Qed.

Lemma replay_rows_commit ts parent score rules len seen m0 scored : forall children before index t x cs t' x',
  build_children m0 before scored = Ok children ->
  same_search (commit_of x) cs -> commit_wf cs -> seen_since seen before cs -> fresh_batch seen parent before scored x ->
  visits_fit (cs_tree cs) (N.of_nat (length scored)) ->
  (forall cell, count (cs_cell_mirror cs) cell + N.of_nat (length scored) <= u32_max)%N ->
  replay_rows ts parent score rules len index scored t x = (Ok t', x') ->
  exists children' commits cs', Forall2 same_but_novelty children children' /\
    commit_children parent score rules children' (rt_goal t) cs = (Ok (commits, rt_goal t'), cs') /\
    same_search (commit_of x') cs' /\ commit_wf cs' /\
    rt_all_duplicate t' = rt_all_duplicate t && forallb is_duplicate_commit commits /\ length commits = length scored.
Proof.
  induction scored as [|[job result] scored IH]; intros children before index t x cs t' x' Hbuild Hsim Hwf Hsince Hfresh Hvis Hroom Hrun.
  { injection Hbuild as <-. injection Hrun as <- <-. exists [], [], cs. split_and!; try done. by rewrite andb_true_r. }
  cbn [build_children] in Hbuild. apply bind_Ok in Hbuild as (nov0 & _ & (rest & Hrest & [= <-])%bind_Ok).
  cbn [replay_rows] in Hrun. rewrite st_bind_run in Hrun. destruct (mid_batch_check index len x) as [rm x0] eqn:Em.
  assert (search_of x0 = search_of x) as Hs0 by (pose proof (search_mid_batch index len x) as H; by rewrite Em in H).
  assert (forall b, produced parent b x0 = produced parent b x) as Hp0.
  { intros b. assert (keeps (produced parent b) (mid_batch_check (W := W) (CP := CP) index len)) as Hk.
    { unfold mid_batch_check. destruct (_ && _); [apply produced_on_run|apply keeps_ret]. }
    specialize (Hk x). by rewrite Em in Hk. }
  destruct rm as [[]|e|]; [|done..]. rewrite st_bind_run in Hrun.
  destruct (replay_one ts parent score rules job result t x0) as [[t1|e|] x1] eqn:Eo; [|done..].
  apply replay_one_inv in Eo as (nov & v & s' & Hc & Hx1 & Hg & Ha & Hp1);
    [|rewrite Hp0; apply (fb_rows _ _ _ _ _ Hfresh (job, result)), list_elem_of_here].
  assert (commit_of x0 = commit_of x) as Hcx by (unfold commit_of; unfold search_of in Hs0; by rewrite Hs0). rewrite Hcx in Hc.
  set (child := mkScoredChild (payload_of job.2 result nov) (sr_duplicate result || bool_decide (sr_state_hash result ∈ before))
                  (prunes job result) (sr_goal_hit result)).
  assert (sc_duplicate child = bool_decide (is_Some (SeenMap_get (cs_seen cs) (np_state_hash (sc_payload child))))) as Hdup.
  { pose proof (fb_verdicts _ _ _ _ _ Hfresh (job, result) (list_elem_of_here _ _)) as Hv0. cbn [snd] in Hv0.
    subst child. cbn [sc_duplicate sc_payload payload_of np_state_hash]. rewrite Hv0.
    destruct (Hsince (sr_state_hash result)) as [H1 H2]. pose proof (fb_before _ _ _ _ _ Hfresh (job, result) (list_elem_of_here _ _)) as H3. cbn in H3.
    apply eq_iff_eq_true. rewrite orb_true_iff, !bool_decide_eq_true. naive_solver. }
  cbn [length] in Hvis, Hroom.
  destruct (replay_child_commits parent score child rules _ cs v s' Hsim Hwf Hdup) as (c & cs1 & Hcc & Hstep & Hs1 & Hm); [|..|exact Hc|].
  { intros i r Hr. specialize (Hvis i r Hr). lia. }
  { specialize (Hroom (np_cell (sc_payload child))). lia. }
  assert (commit_wf cs1) as Hwf1 by by eapply child_step_wf.
  destruct (IH rest ({[sr_state_hash result]} ∪ before) (S index) t1 x1 cs1 t' x' Hrest) as (children' & commits & cs' & HF & Hcm & Hs' & Hwf' & Ha' & Hl).
  - by rewrite Hx1.
  - done.
  - exact (seen_since_step _ _ _ _ child _ _ _ _ Hsince Hstep).
  - eapply fresh_batch_tail; [exact Hfresh|]. intros b Hb. rewrite (Hp1 b Hb). apply Hp0.
  - eapply visits_step; [apply Hwf|exact Hstep|]. intros i r Hr. specialize (Hvis i r Hr). lia.
  - intros cell. destruct (child_step_resources _ _ _ _ _ _ _ Hwf Hstep) as [Hcnt _]. specialize (Hcnt cell). specialize (Hroom cell). lia.
  - exact Hrun.
  - exists (child :: children'), (c :: commits), cs'. split_and!; [|..|done|done| |cbn; by rewrite Hl].
    + constructor; [|done]. by exists nov.
    + cbn [commit_children]. rewrite st_bind_run, Hcc, st_bind_run. rewrite (next_goal_matches child v c (rt_goal t)) by done. by rewrite <- Hg, Hcm.
    + rewrite Ha', Ha, (next_all_matches _ _ _ _ Hm). cbn. by rewrite andb_assoc.
Qed.

(** ** The whole batch *)

Lemma commit_of_search {A} (m : st (Stage W CP) ClientError A) : keeps search_of m -> keeps commit_of m.
Proof. intros H x. unfold commit_of. specialize (H x). unfold search_of in H. by rewrite H. Qed.
Lemma commit_of_score batch intent : keeps commit_of (score_stage (W := W) (CP := CP) batch intent).
Proof.
  unfold score_stage. apply keeps_bind; [by intros x|intros _]. apply keeps_bind; [|intros ?; apply keeps_ret].
  case_decide; [apply keeps_ret|]. apply commit_of_search, search_score_batch.
Qed.
Lemma produced_score batch intent p b : keeps (produced p b) (score_stage (W := W) (CP := CP) batch intent).
Proof.
  unfold score_stage, stage_score_batch. apply keeps_bind; [by intros x|intros _]. apply keeps_bind; [|intros ?; apply keeps_ret].
  case_decide; [apply keeps_ret|]. apply keeps_bind; [apply keeps_get|intros x]. apply keeps_bind; [apply produced_on_run|intros ?]. solve_keeps.
Qed.
Lemma produced_own p b : keeps (produced p b) (own_commit (W := W) (CP := CP)).
Proof. unfold own_commit. apply keeps_bind; [apply produced_on_run|intros _; apply produced_on_run]. Qed.
Lemma commit_of_observe node score : keeps commit_of (observe_score (W := W) (CP := CP) node score).
Proof.
  intros x. unfold observe_score. destruct (FiniteF64_new score); [|done..]. cbv zeta.
  destruct (observe _ _) as [[o| |] stall]; [|done..]. destruct (apply_stall_observation o _) as [snap l].
  destruct (so_improved o && _), (so_completed_new_window o); case_decide; reflexivity.
Qed.
Lemma commit_of_count : keeps commit_of (count_expansion (W := W) (CP := CP)).
Proof. unfold count_expansion. solve_keeps. Qed.

Definition rebinned x x' : Prop :=
  commit_of x' = commit_of x \/ commit_of x' = set_cell_mirror (mkCellMirror ∅) (commit_of x).
Lemma rebin_spec x x' r : maybe_rebin x = (Ok r, x') -> rebinned x x'.
Proof.
  unfold maybe_rebin. rewrite st_bind_run. cbn [get_st]. destruct (_ =? _)%N; [intros [= _ <-]; by left|].
  rewrite st_bind_run. unfold lift_res. destruct (coarsened_map _ _ _) as [map|e|]; [|done..].
  rewrite st_bind_run. destruct (on_run _ x) as [[b|e|] x1] eqn:E; [|done..].
  assert (commit_of x1 = commit_of x) as H1.
  { pose proof (commit_of_search _ (search_on_run _ (core_on_world (bring_up (config_of x) (rn_experiment_id (xs_run x)) (xs_sources x) map true))) x) as H.
    by rewrite E in H. }
  rewrite modify_bind. unfold mod_progress. rewrite modify_bind. intros [= _ <-]. right. unfold commit_of in *. cbn. by rewrite H1.
Qed.

Lemma finish_spec ts seq parent ev goal t x g x' : finish_batch ts seq parent ev goal t x = (Ok g, x') -> g = goal /\ rebinned x x'.
Proof.
  unfold finish_batch. intros H.
  destruct (keeps_step commit_of _ _ _ _ _ (commit_of_search _ (search_parent_row ts parent ev)) H) as [([] & x1 & _ & H1 & Hr1)|[? _]]; [|done].
  destruct (keeps_step commit_of _ _ _ _ _ (commit_of_search _ (search_replay_commits (ta_states t))) Hr1) as [([] & x2 & _ & H2 & Hr2)|[? _]]; [|done].
  destruct (keeps_step commit_of _ _ _ _ _ commit_of_count Hr2) as [([] & x3 & _ & H3 & Hr3)|[? _]]; [|done].
  unfold emit_event_st in Hr3. rewrite modify_bind, st_bind_run in Hr3. cbn [get_st] in Hr3. set (x4 := emit_node_event _ _ _ x3) in *.
  assert (commit_of x4 = commit_of x) as H4 by (change (commit_of x4) with (commit_of x3); congruence).
  destruct (keeps_step commit_of _ _ _ _ _ (commit_of_observe _ _) Hr3) as [([] & x5 & _ & H5 & Hr5)|[? _]]; [|done].
  rewrite st_bind_run in Hr5. destruct (maybe_rebin x5) as [[[]|e|] x6] eqn:E; [|done..]. apply rebin_spec in E.
  assert (rebinned x x6) as Hx6 by (unfold rebinned in *; by rewrite H5, H4 in E).
  destruct goal as [node|]; [rewrite modify_bind in Hr5|]; injection Hr5 as <- <-; (split; [done|]); [|done].
  unfold rebinned in *. by change (commit_of (reach_goal ts node x6)) with (commit_of x6).
Qed.

(** Scoring and the look at the checkpoint leave the search state, the
    configuration and the stored rows as they are. *)
Lemma scored_and_owned batch intent (x x1 x2 : Stage W CP) scored r : score_stage batch intent x = (scored, x1) -> own_commit x1 = (r, x2) ->
  commit_of x2 = commit_of x /\ config_of x2 = config_of x /\ forall parent b, produced parent b x2 = produced parent b x.
Proof.
  intros Hscore Eo.
  pose proof (search_own_commit x1) as Hs2. rewrite Eo in Hs2. cbn [snd] in Hs2.
  pose proof (commit_of_score batch intent x) as Hc1. pose proof (budget_score_stage batch intent x) as Hb. rewrite Hscore in Hc1, Hb.
  assert (config_of x1 = config_of x) as Hf1 by (unfold budget_view in Hb; cbn [snd] in Hb; by injection Hb). clear Hb. split_and!.
  - unfold commit_of in *; unfold search_of in Hs2; by rewrite Hs2.
  - unfold config_of in *; unfold search_of in Hs2; by rewrite Hs2.
  - intros parent b. pose proof (produced_own parent b x1) as H. rewrite Eo in H. pose proof (produced_score batch intent parent b x) as H'. rewrite Hscore in H'.
    by etransitivity.
Qed.

(** C8. Replay repeats the commit: a logged batch that runs again, with no
    row of it in the store, leaves the search as the commit rules leave it
    for the same children - the same tree, seen map, streaks and goal, the
    same cell counts unless the map was re-binned since, and frontiers that
    agree on every node that is not a goal.  The children are the ones the
    commit stage builds up to the novelty of their cells, which the replay
    reads anew for each child.  It is so for a batch that is fresh
    ([fresh_batch]): the scorer calls a state a duplicate exactly when its hash
    is in the seen map, and a hash that occurs twice among the siblings was
    seen before (without that the replay differs, see [replay_not_exact]); and
    when the visit and cell counters have room for the batch. *)
Theorem replay_repeats_commit (batch : BatchResult) (intent : ExpansionIntent) (x x1 x' : Stage W CP)
    (scored : list (scorable_job * ScoreResult)) (children : list ScoredChild) (goal : option NodeId) :
  score_stage batch intent x = (Ok scored, x1) -> length scored = length (scorable_jobs (completed_jobs batch)) ->
  build_children (cs_cell_mirror (commit_of x)) ∅ scored = Ok children ->
  commit_wf (commit_of x) -> is_Some (get (cs_tree (commit_of x)) (br_parent batch)) ->
  validate_rules (from_config (config_of x)) = Ok tt ->
  fresh_batch (cs_seen (commit_of x)) (br_parent batch) ∅ scored x ->
  visits_fit (cs_tree (commit_of x)) (N.of_nat (length scored)) ->
  (forall cell, count (cs_cell_mirror (commit_of x)) cell + N.of_nat (length scored) <= u32_max)%N ->
  commit_replayed batch intent x = (Ok goal, x') ->
  exists children' outcome cs', Forall2 same_but_novelty children children' /\
    commit_batch (br_parent batch) children' (from_config (config_of x)) (commit_of x) = (Ok outcome, cs') /\
    goal = goal_node outcome /\
    exists mirror, (mirror = cs_cell_mirror (commit_of x') \/ cs_cell_mirror (commit_of x') = mkCellMirror ∅) /\
      same_search (set_cell_mirror mirror (commit_of x')) cs'.
Proof.
  intros Hscore Hlen Hbuild Hwf [pr Hpr] Hrules Hfresh Hvis Hroom Hrun. unfold commit_replayed in Hrun.
  rewrite st_bind_run, Hscore in Hrun.
  rewrite st_bind_run in Hrun. destruct (own_commit x1) as [[[]|e|] x2] eqn:Eo; [|done..].
  destruct (scored_and_owned _ _ _ _ _ _ _ Hscore Eo) as (Hc2 & Hf2 & Hp2).
  rewrite st_bind_run in Hrun. cbn [get_st] in Hrun. rewrite Hf2, Hc2 in Hrun. set (rules := from_config (config_of x)) in *.
  assert (parent_score (commit_of x) (br_parent batch) = finite_get (nr_score pr)) as Hps by (unfold parent_score; by rewrite Hpr).
  rewrite Hps in Hrun. rewrite st_bind_run in Hrun.
  set (t0 := mkReplayTally _ _ _) in Hrun. destruct (replay_rows _ _ _ _ _ _ _ _ x2) as [[t|e|] x3] eqn:Er; [|done..].
  eapply (replay_rows_commit _ _ _ _ _ (cs_seen (commit_of x)) (cs_cell_mirror (commit_of x)) scored children ∅ _ t0 x2 (commit_of x))
    in Er as (children' & commits & cs1 & HF & Hcm & Hs1 & Hwf1 & Hall & Hlc);
    [|exact Hbuild|rewrite Hc2; by apply same_search_refl|done|by split; [|left]| |exact Hvis|exact Hroom].
  2:{ destruct Hfresh as [H1 H2 H3 H4 H5]. split; [done..|]. intros jr Hjr. rewrite Hp2. by apply H5. }
  rewrite st_bind_run in Hrun. unfold on_tree_op, zoom, replay_tree in Hrun. cbn [cs_tree] in Hrun. unfold zoom in Hrun.
  rewrite (ss_tree _ _ Hs1) in Hrun.
  destruct (increment_visits (br_parent batch) (cs_tree cs1)) as [[visits|e|] t1] eqn:Ev; cbn [map_err] in Hrun; [|done..].
  set (x4 := set_commit _ x3) in Hrun. rewrite st_bind_run in Hrun. unfold on_commit, zoom in Hrun.
  destruct (update_parent_exhaustion _ _ _ _ (commit_of x4)) as [[ev|e|] s5] eqn:Ee; cbn [map_err] in Hrun; [|done..].
  assert (is_Some (get (cs_tree cs1) (br_parent batch))) as [pr1 Hpr1].
  { unfold increment_visits in Ev. rewrite with_record_run in Ev. destruct (get (cs_tree cs1) (br_parent batch)); [eauto|done]. }
  assert (same_search (commit_of x4) (set_tree t1 cs1)) as Hs4.
  { subst x4. destruct Hs1 as [H1 H2 H3 H4 H5 H6 H7]. split; cbn; [done|done|done|done|done|done|].
    intros id [?|?]%H7; [by left|right]. eapply goal_visit; [apply Hwf1|exact Ev|done]. }
  destruct (batch_visit (br_parent batch) cs1 pr1 Hwf1 Hpr1) as [(_ & s2 & Hv & Hwf2 & _ & _ & _ & Hg2)|[_ Hv]];
    unfold on_tree, zoom in Hv; rewrite Ev in Hv; [|done]. injection Hv as -> <-.
  destruct (exhaustion_same _ _ _ _ _ _ _ _ Hs4 Hwf2 ltac:(eauto) Ee) as (cs2 & He2 & Hs5).
  apply finish_spec in Hrun as [-> Hreb].
  exists children', (mkBatchCommitOutcome (br_parent batch) (nr_visits pr1 + 1)%N commits ev (rt_goal t)), cs2. split; [done|].
  split; [|split; [done|]].
  - rewrite (commit_batch_run _ _ _ _ pr Hrules Hpr), st_bind_run. change (rt_goal t0) with (@None NodeId) in Hcm. rewrite Hcm.
    rewrite st_bind_run. unfold on_tree, zoom. rewrite Ev. cbn [map_err]. rewrite st_bind_run.
    assert (negb (bool_decide (commits = [])) && forallb is_duplicate_commit commits = rt_all_duplicate t) as ->.
    { rewrite Hall. cbn [t0 rt_all_duplicate]. f_equal. f_equal. apply bool_decide_ext.
      rewrite <- !length_zero_iff_nil. lia. }
    by rewrite He2.
  - change (commit_of (set_commit s5 x4)) with s5 in Hreb. unfold rebinned in Hreb.
    change (commit_of (set_commit s5 x4)) with s5 in Hreb. destruct Hreb as [-> | ->].
    + exists (cs_cell_mirror s5). split; [by left|]. by destruct s5.
    + exists (cs_cell_mirror s5). split; [by right|]. by destruct s5.
Qed.
End Loop.

(** ** The sample experiment *)

#[local] Existing Instance lab_metadata.
#[local] Existing Instance lab_runtime.
#[local] Existing Instance lab_archive.
#[local] Existing Instance crash_at.
#[local] Existing Instance lab_checkpoint_codec.
#[local] Existing Instance lab_intent_codec.
#[local] Existing Instance lab_attrs_codec.
#[local] Existing Instance lab_nodes.
#[local] Existing Instance lab_scorer.
#[local] Existing Instance lab_synth.
#[local] Existing Instance lab_pipeline.
#[local] Existing Instance sample_sort.
#[local] Existing Instance toy_display.
#[local] Existing Instance toy_blake3.
#[local] Existing Instance toy_chacha.
#[local] Existing Instance toy_libm.

(** Two siblings in one cell. *)
Definition siblings : BatchResult := mkBatchResult 1 1 [lab_job 1 0 (lab_burst 0); lab_job 1 1 (lab_burst 1)].

(** Two children with one state, which regresses into a known cell. *)
Definition twins : BatchResult := mkBatchResult 1 1 [lab_capture 0 (lab_burst 0) [5; 1]%N; lab_capture 1 (lab_burst 1) [5; 1]%N].

Definition committed_novelty (x : Stage Lab CrashPoint) : list f64 :=
  (fun r => finite_get (nr_novelty_at_commit r)) <$> records (cs_tree (commit_of x)).
Definition cell_count (x : Stage Lab CrashPoint) (cell : CellKey) : N := count (cs_cell_mirror (commit_of x)) cell.

(** Replay is exact only up to novelty and to twins: two siblings of one
    cell keep the novelty their cell had before the batch when they are
    committed, and the second keeps a lower one when the batch is replayed;
    and of two equal states that regress, the commit counts the second as a
    duplicate and bumps its cell, the replay discards both and does not. *)
Theorem replay_not_exact :
  (let committed := commit_completed siblings (lab_intent 1) (lab_stage 1) in
   let replayed := commit_replayed siblings (lab_intent 1) (lab_stage 1) in
   is_Ok committed.1 = true /\ is_Ok replayed.1 = true /\
   exists before same lower, committed_novelty committed.2 = before ++ [same; same] /\
     committed_novelty replayed.2 = before ++ [same; lower] /\ f64_ltb lower same = true) /\
  (let committed := commit_completed twins (lab_intent 1) (lab_stage 1) in
   let replayed := commit_replayed twins (lab_intent 1) (lab_stage 1) in
   is_Ok committed.1 = true /\ is_Ok replayed.1 = true /\
   cell_count committed.2 0 = 2%N /\ cell_count replayed.2 0 = 1%N).
Proof.
  split; cbv zeta; (split; [vm_compute; reflexivity|split; [vm_compute; reflexivity|]]).
  - set (l := committed_novelty (commit_completed siblings (lab_intent 1) (lab_stage 1)).2).
    exists (take 4 l), (default f64_zero (l !! 4%nat)),
      (default f64_zero (committed_novelty (commit_replayed siblings (lab_intent 1) (lab_stage 1)).2 !! 5%nat)).
    split; [|split]; vm_compute; reflexivity.
  - split; vm_compute; reflexivity.
Qed.

Definition scored_siblings : list (scorable_job * ScoreResult) :=
  match (score_stage siblings (lab_intent 1) (lab_stage 1)).1 with Ok scored => scored | _ => [] end.
Definition sibling_children : list ScoredChild :=
  match build_children (cs_cell_mirror (commit_of (lab_stage 1))) ∅ scored_siblings with Ok children => children | _ => [] end.

Lemma siblings_fresh : fresh_batch (cs_seen (commit_of (lab_stage 1))) 1 ∅ scored_siblings (lab_stage 1).
Proof.
  split.
  - apply Forall_forall. apply (bool_decide_unpack _). vm_compute. reflexivity.
  - intros jr _ H. by apply not_elem_of_empty in H.
  - intros i j jr jr' Hij Hi Hj Hh. exfalso. assert (NoDup ((fun jr => sr_state_hash jr.2) <$> scored_siblings)) as Hd
      by (apply (bool_decide_unpack _); vm_compute; reflexivity).
    assert (i = j) as ->; [|lia]. eapply NoDup_lookup; [exact Hd|rewrite list_lookup_fmap, Hi; reflexivity|rewrite list_lookup_fmap, Hj; cbn; by rewrite Hh].
  - apply (bool_decide_unpack _); vm_compute; reflexivity.
  - apply Forall_forall. apply (bool_decide_unpack _). vm_compute. reflexivity.
Qed.

Lemma replay_repeats_commit_witness : exists goal x' children' outcome cs',
  commit_replayed siblings (lab_intent 1) (lab_stage 1) = (Ok goal, x') /\
  length sibling_children = 2%nat /\ Forall2 same_but_novelty sibling_children children' /\
  commit_batch 1 children' (from_config lab_config) (commit_of (lab_stage 1)) = (Ok outcome, cs') /\ goal = goal_node outcome.
Proof.
  destruct (score_stage siblings (lab_intent 1) (lab_stage 1)) as [r x1] eqn:Es.
  assert (r = Ok scored_siblings) as -> by (transitivity (score_stage siblings (lab_intent 1) (lab_stage 1)).1; [by rewrite Es|vm_compute; reflexivity]).
  destruct (commit_replayed siblings (lab_intent 1) (lab_stage 1)) as [g x'] eqn:Er.
  assert (g = Ok None) as -> by (transitivity (commit_replayed siblings (lab_intent 1) (lab_stage 1)).1; [by rewrite Er|vm_compute; reflexivity]).
  destruct (replay_repeats_commit siblings (lab_intent 1) (lab_stage 1) x1 x' scored_siblings sibling_children None)
    as (children' & outcome & cs' & HF & Hc & Hg & _).
  - exact Es.
  - vm_compute; reflexivity.
  - vm_compute; reflexivity.
  - exact (commit_reachable_inv _ after_batch_reachable).
  - eexists. vm_compute. reflexivity.
  - vm_compute. reflexivity.
  - exact siblings_fresh.
  - intros i rec Hr. apply (Forall_lookup_1 (fun rec => nr_visits rec + N.of_nat (length scored_siblings) <= u32_max)%N _ i rec) in Hr; [exact Hr|].
    apply (bool_decide_unpack _). vm_compute. reflexivity.
  - intros cell. unfold count. destruct (_ !! cell) as [n|] eqn:E.
    + apply (map_Forall_lookup_1 (fun _ n => n + N.of_nat (length scored_siblings) <= u32_max)%N _ cell n) in E; [exact E|].
      apply (bool_decide_unpack _). vm_compute. reflexivity.
    + vm_compute. discriminate.
  - exact Er.
  - exists None, x', children', outcome, cs'. split; [reflexivity|]. split; [vm_compute; reflexivity|]. split; [exact HF|]. split; [exact Hc|exact Hg].
Defined.
