(* ===== verification/Rebuilt.v ===== *)
(** What a resumed runner rebuilds (Resume.v): the tree holds the stored rows
    at their ids with their parents, payloads and status, the frontier is the
    rows that are still open, and every stored state is known again. *)
From S2P Require Import Prelude Float64 Types Reasons Tree Frontier Mirror Commit Plateau Client Retry Rng Policy Softmax Ucb Staged Checkpoint Runner Durable.
From S2P Require Import HvTypes SynthTypes WorkerDriver Pipeline StoreTypes NodeAttrs SynthDriver ScorerTypes Compile Events Bringup CommitStage ReplayStage RunLoop Resume StageSample.
Local Open Scope list_scope.

Abbreviation Row := (NodeMeta * OrchNodeAttrsV1)%type (only parsing).

(** The visits a row comes back with: those of its frontier entry. *)
Definition restored_visits (weights : gmap NodeId FrontierEntry) (row : Row) : N :=
  match nm_status row.1, weights !! nm_node_id row.1 with
  | StFrontier, Some entry => N.min u32_max (fe_visits entry)
  | _, _ => 0%N
  end.

(** Record [r] is row [i], with its status once it is [restored]. *)
Record row_at (weights : gmap NodeId FrontierEntry) (restored : bool) (i : nat) (row : Row) (r : NodeRecord) : Prop := {
  ra_id : nm_node_id row.1 = N.of_nat i;
  ra_parent : nr_parent r = match i with O => None | S _ => nm_parent_node_id row.1 end;
  ra_payload : NodeRecord_payload r = payload_from_store row.1 row.2;
  ra_status : nr_status r = if restored then nm_status row.1 else StFrontier;
  ra_exhausted : nr_exhausted r = restored && bool_decide (nm_status row.1 = StPruned);
  ra_visits : nr_visits r = if restored then restored_visits weights row else 0%N
}.

(** The first [k] rows are restored. *)
Definition rows_at (weights : gmap NodeId FrontierEntry) (k : nat) (rows : list Row) (t : Tree) : Prop :=
  len t = length rows /\
  forall i row, rows !! i = Some row -> exists r, records t !! i = Some r /\ row_at weights (bool_decide (i < k)%nat) i row r.

Lemma row_at_children w restored i row r n : row_at w restored i row r -> row_at w restored i row (set_counters (nr_visits r) n r).
Proof. by intros []. Qed.

Lemma rebuild_insert w t parent payload rows meta attrs pr : tree_wf t -> get t parent = Some pr -> rows_at w 0 rows t ->
  nm_node_id meta = next_id t -> nm_parent_node_id meta = Some parent -> payload = payload_from_store meta attrs -> rows <> [] ->
  rows_at w 0 (rows ++ [(meta, attrs)]) (tree_insert t parent pr payload).
Proof.
  intros Hwf Hg [Hlen Hrows] Hid Hparent Hpay Hne. split.
  { unfold len, tree_insert in *. cbn. rewrite !length_app, length_insert. cbn. lia. }
  intros i row Hi. apply lookup_snoc_Some in Hi as [[Hlt Hi]|[-> <-]].
  - destruct (Hrows i row Hi) as (r & Hr & Hrow).
    destruct (Nat.eq_dec i (N.to_nat parent)) as [->|Hn].
    + apply get_Some in Hg as Hp. rewrite Hp in Hr. injection Hr as <-.
      exists (set_counters (nr_visits pr) (nr_children pr + 1) pr). split; [|by apply row_at_children].
      apply tree_insert_lookup; [done|]. left. split; [lia|]. by rewrite decide_True.
    + exists r. split; [|done]. apply tree_insert_lookup; [done|]. left. split; [lia|]. by rewrite decide_False.
  - eexists. rewrite tree_insert_lookup by done. split; [right; split; [done|reflexivity]|].
    assert (length rows <> 0%nat) by (destruct rows; [done|cbn; lia]). split; cbn [fst snd].
    + rewrite Hid. unfold next_id, len in *. by rewrite Hlen.
    + destruct (length rows); [lia|]. by rewrite Hparent.
    + subst payload. by destruct (payload_from_store meta attrs).
    + by rewrite bool_decide_false by lia.
    + by rewrite bool_decide_false by lia.
    + by rewrite bool_decide_false by lia.
Qed.

Lemma rebuild_children_rows w rows : forall before t u t', tree_wf t -> rows_at w 0 before t -> before <> [] ->
  rebuild_children rows t = (Ok u, t') -> tree_wf t' /\ rows_at w 0 (before ++ rows) t'.
Proof.
  induction rows as [|[meta attrs] rows IH]; intros before t u t' Hwf Hb Hne.
  { intros [= _ <-]. by rewrite app_nil_r. }
  cbn [rebuild_children]. rewrite st_bind_run. destruct (nm_parent_node_id meta) as [parent|] eqn:Hp; [|done].
  cbn [ok_or lift_res]. rewrite st_bind_run. unfold zoom. rewrite insert_child_run by done.
  destruct (get t parent) as [pr|] eqn:Hg; [|done]. destruct (N.ltb_spec u32_max (nr_depth pr + 1)); [done|].
  destruct (N.ltb_spec u32_max (nr_children pr + 1)); [done|]. cbn [map_err].
  case_decide as Hid; [|done]. intros Hrun.
  rewrite (app_assoc before [(meta, attrs)] rows : before ++ (meta, attrs) :: rows = _).
  eapply IH; [by apply tree_insert_wf| |by destruct before|exact Hrun].
  by apply rebuild_insert.
Qed.

Lemma rebuild_tree_rows w rows t : rebuild_tree rows = Ok t -> (forall row, rows !! 0%nat = Some row -> nm_node_id row.1 = ROOT) ->
  tree_wf t /\ rows_at w 0 rows t.
Proof.
  destruct rows as [|[meta attrs] rows]; [done|]. intros H Hroot. cbn [rebuild_tree] in H.
  pose proof (from_root_Ok (payload_from_store meta attrs)) as Ht. pose proof (from_root_wf _ _ Ht) as Hwf. rewrite Ht in H. cbn [mbind res_bind] in H.
  destruct (rebuild_children rows _) as [[[]|e|] t'] eqn:E; [|done..]. injection H as <-.
  eapply (rebuild_children_rows w rows [(meta, attrs)]) in E; [exact E|exact Hwf| |done].
  split; [done|]. intros [|i] row; [|done]. intros [= <-]. eexists. split; [reflexivity|]. split; [by apply Hroot|done| |done..].
  reflexivity.
Qed.

(** ** Restoring a row *)

Lemma update_at {A} id (f : NodeRecord -> res TreeError (A * NodeRecord)) t i r a r' : id = N.of_nat i -> records t !! i = Some r ->
  f r = Ok (a, r') -> records (with_record id f t).2 = <[i := r']> (records t).
Proof.
  intros -> Hr Hf. rewrite with_record_run. rewrite (proj2 (get_Some t (N.of_nat i) r)) by by rewrite Nat2N.id.
  rewrite Hf. cbn. by rewrite Nat2N.id.
Qed.

Lemma visit_times_at n id t i r : tree_wf t -> id = N.of_nat i -> records t !! i = Some r ->
  tree_wf (visit_times n id t) /\
  records (visit_times n id t) = <[i := set_counters (N.min u32_max (nr_visits r + n)) (nr_children r) r]> (records t).
Proof.
  intros Hwf Hid Hr. assert (nr_visits r <= u32_max)%N as Hv by apply (twf_records _ Hwf _ _ Hr). unfold visit_times.
  induction n as [|n [IHw IH]] using N.peano_ind.
  { split; [done|]. cbn. rewrite N.add_0_r, N.min_r by done. symmetry. apply list_insert_id. by destruct r. }
  rewrite N.iter_succ. set (t1 := N.iter n _ t) in *. split; [by apply increment_visits_wf|].
  set (r1 := set_counters (N.min u32_max (nr_visits r + n)) (nr_children r) r) in IH.
  assert (records t1 !! i = Some r1) as Hr1 by (rewrite IH; by eapply list_lookup_insert_eq, lookup_lt_Some).
  unfold increment_visits. destruct (N.leb_spec (nr_visits r1 + 1) u32_max) as [Hle|Hgt].
  - erewrite update_at; [|exact Hid|exact Hr1|unfold checked_add; rewrite decide_True by done; reflexivity].
    rewrite IH, list_insert_insert_eq. unfold r1 in *. cbn in *.
    by replace (N.min u32_max (nr_visits r + N.succ n)) with (N.min u32_max (nr_visits r + n) + 1)%N by lia.
  - rewrite with_record_run, (proj2 (get_Some t1 id r1)) by (by rewrite Hid, Nat2N.id).
    unfold checked_add. rewrite decide_False by lia. cbn. rewrite IH. unfold r1 in *. cbn in *.
    by replace (N.min u32_max (nr_visits r + N.succ n)) with (N.min u32_max (nr_visits r + n)) by lia.
Qed.

Lemma restore_row w i row r b : tree_wf (rb_tree b) -> records (rb_tree b) !! i = Some r -> row_at w false i row r ->
  let b' := restore_status w (nm_node_id row.1) (nm_status row.1) b in
  tree_wf (rb_tree b') /\ exists r', records (rb_tree b') = <[i := r']> (records (rb_tree b)) /\ row_at w true i row r'.
Proof.
  intros Hwf Hr Hrow. pose proof (twf_records _ Hwf _ _ Hr) as Hrw. destruct Hrow as [Hid Hp Hpay Hs He Hv]. cbn in Hs, He, Hv.
  assert (nr_goal r = false) as Hg by (apply not_true_iff_false; intros Hg%(rwf_goal _ Hrw); congruence).
  assert (may_expand r = true) as Hm by (unfold may_expand; by rewrite Hg, Hs).
  assert (is_goal_record r = false) as Hgr by (unfold is_goal_record; by rewrite Hg, Hs).
  assert (forall r', link r' = link r -> NodeRecord_payload r' = NodeRecord_payload r -> nr_status r' = nm_status row.1 ->
    nr_exhausted r' = bool_decide (nm_status row.1 = StPruned) -> nr_visits r' = restored_visits w row -> row_at w true i row r') as Hat.
  { intros r' Hl Hpl Hst Hex Hvi. injection Hl as _ Hl. split; [done|by rewrite Hl|by rewrite Hpl|done..]. }
  cbv zeta. unfold restore_status. destruct (nm_status row.1) eqn:Est.
  - destruct (w !! nm_node_id row.1) as [entry|] eqn:Ew; cbn [rb_tree rb_set_streaks rb_set_tree rb_set_frontier].
    + destruct (visit_times_at (fe_visits entry) _ _ _ _ Hwf Hid Hr) as [Hw' ->]. split; [done|]. eexists. split; [reflexivity|].
      apply Hat; [done..|by cbn|by cbn|]. unfold restored_visits. rewrite Est, Ew. cbn. by rewrite Hv, N.add_0_l.
    + split; [done|]. exists r. rewrite list_insert_id by done. split; [done|].
      apply Hat; [done..|]. unfold restored_visits. by rewrite Est, Ew.
  - cbn [rb_tree rb_set_tree]. split; [by apply mark_expanded_wf|]. unfold mark_expanded.
    erewrite update_at; [|exact Hid|exact Hr|rewrite Hm; reflexivity]. eexists. split; [reflexivity|].
    apply Hat; [done..|]. unfold restored_visits. by rewrite Est.
  - cbn [rb_tree rb_set_tree]. split; [by apply mark_pruned_wf|]. unfold mark_pruned.
    erewrite update_at; [|exact Hid|exact Hr|rewrite Hgr; reflexivity]. eexists. split; [reflexivity|].
    apply Hat; [done..|]. unfold restored_visits. by rewrite Est.
  - cbn [rb_tree rb_set_tree rb_set_goal_nodes]. split; [by apply mark_goal_wf|]. unfold mark_goal.
    erewrite update_at; [|exact Hid|exact Hr|rewrite decide_False by (by rewrite Hs); reflexivity]. eexists. split; [reflexivity|].
    apply Hat; [done..|]. unfold restored_visits. by rewrite Est.
Qed.

(** ** The loop over the rows *)

Record adopting (covered : gset StateHash) (weights : gmap NodeId FrontierEntry) (rows : list Row) (k : nat) (b : Rebuild) : Prop := {
  ad_tree : tree_wf (rb_tree b);
  ad_rows : rows_at weights k rows (rb_tree b);
  ad_frontier : frontier_wf (rb_frontier b);
  ad_members : forall id, id ∈ members (rb_frontier b) <->
    (N.to_nat id < k)%nat /\ exists row, rows !! N.to_nat id = Some row /\ nm_status row.1 = StFrontier;
  ad_covered : forall h, h ∈ covered -> is_Some (SeenMap_get (rb_seen b) h);
  ad_seen : forall i row, (i < k)%nat -> rows !! i = Some row -> is_Some (SeenMap_get (rb_seen b) (sa_state_hash (oa_synth row.2)));
  ad_goals : forall i row, (i < k)%nat -> rows !! i = Some row -> nm_status row.1 = StGoal -> N.of_nat i ∈ rb_goal_nodes b
}.

(** [restore_status] leaves the mirrors alone, and touches the frontier and
    the goals only for an open row and for a goal. *)
Lemma restore_frame w id status b : let b' := restore_status w id status b in
  rb_seen b' = rb_seen b /\
  rb_frontier b' = (if decide (status = StFrontier) then (Frontier_insert id (rb_frontier b)).2 else rb_frontier b) /\
  rb_goal_nodes b' = (if decide (status = StGoal) then push_new id (rb_goal_nodes b) else rb_goal_nodes b).
Proof. cbv zeta. unfold restore_status. destruct status; cbn; [by destruct (w !! id)|done..]. Qed.

Lemma push_new_spec id x l : x ∈ push_new id l <-> x = id \/ x ∈ l.
Proof. unfold push_new. case_decide; set_solver. Qed.

(** A caught-up hash is known, and no known hash is forgotten. *)
Lemma catch_up_seen covered id attrs b b' : catch_up covered id attrs b = (Ok tt, b') ->
  rb_tree b' = rb_tree b /\ rb_frontier b' = rb_frontier b /\ rb_goal_nodes b' = rb_goal_nodes b /\
  (forall h, is_Some (SeenMap_get (rb_seen b) h) -> is_Some (SeenMap_get (rb_seen b') h)) /\
  (is_Some (SeenMap_get (rb_seen b') (sa_state_hash (oa_synth attrs))) \/ sa_state_hash (oa_synth attrs) ∈ covered).
Proof.
  unfold catch_up. case_bool_decide; cbn [orb]; [intros [= <-]; split_and!; auto|].
  case_bool_decide; [intros [= <-]; split_and!; auto|]. destruct (bump _ _) as [[n|e|] m]; [|done..]. intros [= <-]. cbn.
  split_and!; [done..| |left].
  - intros h [n' Hn]. rewrite SeenMap_insert_get, Hn. eauto.
  - rewrite SeenMap_insert_get. destruct (SeenMap_get _ _); [eauto|]. rewrite decide_True by done. eauto.
Qed.

Lemma adopt_step covered w rows k row b b' : adopting covered w rows k b -> rows !! k = Some row ->
  adopt_row covered w row b = (Ok tt, b') -> adopting covered w rows (S k) b'.
Proof.
  intros [Hwf [Hlen Hrows] Hfwf Hmem Hcov Hseen Hgoals] Hk Hrun. destruct row as [meta attrs]. unfold adopt_row in Hrun.
  rewrite st_bind_run in Hrun. destruct (catch_up _ _ _ b) as [[[]|e|] b1] eqn:Ec; [|done..].
  apply catch_up_seen in Ec as (Ht1 & Hf1 & Hg1 & Hs1 & Hh1). rewrite modify_bind in Hrun.
  set (b2 := restore_status w _ _ b1) in Hrun. injection Hrun as <-.
  destruct (Hrows k _ Hk) as (r & Hr & Hrow). rewrite bool_decide_false in Hrow by lia. rewrite <- Ht1 in Hwf, Hr.
  destruct (restore_row w k (meta, attrs) r b1 Hwf Hr Hrow) as [Hwf2 (r' & Hr2 & Hrow2)].
  destruct (restore_frame w (nm_node_id meta) (nm_status meta) b1) as (Hs2 & Hf2 & Hg2). cbn [fst] in Hwf2, Hr2. fold b2 in Hwf2, Hr2, Hs2, Hf2, Hg2.
  assert (nm_node_id meta = N.of_nat k) as Hid by apply Hrow. rewrite Hid in Hf2, Hg2.
  split; cbn [rb_tree rb_frontier rb_seen rb_goal_nodes rb_set_maps].
  - done.
  - split; [unfold len in *; rewrite Hr2, length_insert; by rewrite <- Ht1 in Hlen|]. intros i row Hi.
    destruct (Nat.eq_dec i k) as [->|Hn].
    + rewrite Hk in Hi. injection Hi as <-. exists r'. rewrite bool_decide_true by lia. split; [|done].
      rewrite Hr2. by eapply list_lookup_insert_eq, lookup_lt_Some.
    + destruct (Hrows i row Hi) as (ri & Hri & Hrowi). exists ri. rewrite Hr2, list_lookup_insert_ne by done. rewrite Ht1. split; [done|].
      by rewrite (bool_decide_ext (i < S k)%nat (i < k)%nat) by lia.
  - rewrite Hf2, Hf1. destruct (decide (nm_status meta = StFrontier)); [|done]. pose proof (Frontier_insert_spec (rb_frontier b) (N.of_nat k) Hfwf) as Hi.
    destruct (decide (N.of_nat k ∈ _)); [by rewrite Hi|]. by destruct Hi as (f' & -> & ? & _).
  - intros id. rewrite Hf2, Hf1. pose proof (Frontier_insert_spec (rb_frontier b) (N.of_nat k) Hfwf) as Hi.
    assert (N.of_nat k ∉ members (rb_frontier b)) as Hnot by (rewrite Hmem; lia). rewrite decide_False in Hi by done.
    destruct Hi as (f' & -> & _ & Hm & _).
    destruct (decide (nm_status meta = StFrontier)) as [Hst|Hst]; cbn [snd]; [rewrite Hm, elem_of_union, elem_of_singleton|]; rewrite Hmem.
    + split; [intros [->|[? ?]]|intros (Hlt & row & Hrow' & Hst')].
      * rewrite Nat2N.id. split; [lia|]. eauto.
      * split; [lia|done].
      * destruct (Nat.eq_dec (N.to_nat id) k) as [|]; [left; lia|right]. split; [lia|eauto].
    + split; [intros [? ?]; split; [lia|done]|intros (Hlt & row & Hrow' & Hst')].
      destruct (Nat.eq_dec (N.to_nat id) k) as [He|]; [|split; [lia|eauto]]. rewrite He, Hk in Hrow'. by injection Hrow' as <-.
  - intros h Hh. rewrite Hs2. auto.
  - intros i row Hlt Hi. rewrite Hs2. destruct (Nat.eq_dec i k) as [->|]; [|apply Hs1, (Hseen i); [lia|done]].
    rewrite Hk in Hi. injection Hi as <-. destruct Hh1 as [?|?]; auto.
  - intros i row Hlt Hi Hst. rewrite Hg2, Hg1. destruct (Nat.eq_dec i k) as [->|].
    + rewrite Hk in Hi. injection Hi as <-. rewrite decide_True by done. apply push_new_spec. by left.
    + assert (N.of_nat i ∈ rb_goal_nodes b) by (apply (Hgoals i row); [lia|done..]). destruct (decide (nm_status meta = StGoal)); [apply push_new_spec; by right|done].
Qed.

Lemma adopt_rows covered w rows suffix : forall k b l b', adopting covered w rows k b -> drop k rows = suffix ->
  mapM_st (adopt_row covered w) suffix b = (Ok l, b') -> adopting covered w rows (length rows) b'.
Proof.
  induction suffix as [|row suffix IH]; intros k b l b' Hinv Hdrop Hrun.
  - injection Hrun as _ <-. destruct Hinv as [H1 [H2 H3] H4 H5 H6 H7 H8].
    assert (length rows <= k)%nat as Hk by (apply (f_equal length) in Hdrop; rewrite length_drop in Hdrop; cbn in Hdrop; lia).
    split; [done| |done| |done| |].
    + split; [done|]. intros i row Hi. destruct (H3 i row Hi) as (r & Hr & Hrow). exists r. split; [done|]. apply lookup_lt_Some in Hi.
      by rewrite (bool_decide_ext (i < length rows)%nat (i < k)%nat) by lia.
    + intros id. rewrite H5. split; intros (? & row & Hrow & ?); apply lookup_lt_Some in Hrow as ?; (split; [lia|eauto]).
    + intros i row Hi. apply H7. lia.
    + intros i row Hi. apply H8. lia.
  - cbn [mapM_st] in Hrun. rewrite st_bind_run in Hrun. destruct (adopt_row _ _ row b) as [[[]|e|] b1] eqn:E; [|done..].
    rewrite st_bind_run in Hrun. destruct (mapM_st _ suffix b1) as [[l'|e|] b2] eqn:E2; [|done..]. injection Hrun as _ <-.
    assert (rows !! k = Some row) as Hk by (rewrite <- (Nat.add_0_r k), <- lookup_drop, Hdrop; done).
    eapply (IH (S k)); [eapply adopt_step; [exact Hinv|exact Hk|exact E]| |exact E2].
    apply drop_S in Hk. rewrite Hdrop in Hk. by injection Hk.
Qed.

Lemma covered_seen (entries : list (StateHash * NodeId)) : forall s h, (h ∈ entries.*1 \/ is_Some (SeenMap_get s h)) ->
  is_Some (SeenMap_get (foldl (fun s '(hash, node) => (SeenMap_insert hash node s).2) s entries) h).
Proof.
  induction entries as [|[hash node] entries IH]; intros s h H; cbn [foldl]; [destruct H as [H|H]; [set_solver|done]|].
  apply IH. rewrite SeenMap_insert_get. destruct H as [[->|H]%elem_of_cons|[n ->]]; [right|by left|by right; eauto].
  destruct (SeenMap_get s _); [eauto|]. rewrite decide_True by done. eauto.
Qed.

(** C9. Resume adopts the store: the rebuilt tree is well formed and holds
    every stored row at its id, with the parent, payload and status of the
    row and the visits of its frontier entry; the candidates of the rebuilt
    search are exactly the rows stored as open; every stored state is known,
    so it is committed no second time; and every stored goal is recorded. *)
Theorem resume_adopts_store (c : CheckpointV1) (rows : list Row) (goals : list NodeId) (runtimes : gmap NodeId NodeRuntime)
    (bursts : gmap (NodeId * BurstId) NodeId) (b : Rebuild) :
  (forall row, rows !! 0%nat = Some row -> nm_node_id row.1 = ROOT) -> rebuild c rows goals runtimes bursts = Ok b ->
  tree_wf (rb_tree b) /\ rows_at (weights_of c) (length rows) rows (rb_tree b) /\
  (exists l, deterministic_candidates (rb_frontier b) (rb_tree b) = Ok l /\
     forall id, id ∈ l <-> exists row, rows !! N.to_nat id = Some row /\ nm_status row.1 = StFrontier) /\
  (forall row, row ∈ rows -> is_Some (SeenMap_get (rb_seen b) (sa_state_hash (oa_synth row.2))) /\
     (nm_status row.1 = StGoal -> nm_node_id row.1 ∈ rb_goal_nodes b)).
Proof.
  intros Hroot Hrun. unfold rebuild in Hrun. destruct (rebuild_tree rows) as [t|e|] eqn:Et; [|done..]. cbn [mbind res_bind] in Hrun.
  destruct (rebuild_tree_rows (weights_of c) rows t Et Hroot) as [Hwf Hrows].
  destruct (mapM_st _ rows _) as [[l|e|] b'] eqn:Em in Hrun; [|done..]. injection Hrun as ->.
  eapply (adopt_rows _ _ rows rows 0) in Em as [Hwf' [Hlen Hat] Hfwf Hmem _ Hseen Hgoals]; [| |done].
  2:{ split; cbn [rb_tree rb_frontier rb_seen rb_goal_nodes]; [done|done|apply new_wf| | |intros; lia..].
      - intros id. split; [|lia]. intros Hid. by apply elem_of_members, elem_of_nil in Hid.
      - intros h Hh%elem_of_list_to_set. apply covered_seen. by left. }
  split; [done|]. split; [by split|]. split.
  - assert (forall id, id ∈ members (rb_frontier b) -> exists r, get (rb_tree b) id = Some r /\ is_frontier_candidate r = true) as Hopen.
    { intros id (Hlt & row & Hrow & Hst)%Hmem. destruct (Hat _ _ Hrow) as (r & Hr & [_ _ _ Hs He _]).
      rewrite bool_decide_true in Hs, He by done. exists r. split; [by apply get_Some|].
      unfold is_frontier_candidate. by rewrite Hs, He, Hst. }
    eexists. split.
    { unfold deterministic_candidates. rewrite collect_candidates_spec; [done|]. intros id Hid%elem_of_members%Hopen.
      destruct Hid as (r & Hg & _). unfold contains. destruct (index_of _ id) eqn:E; [done|]. apply index_of_None, get_None in E. congruence. }
    intros id. rewrite sort_ids_perm, list_elem_of_filter, <- elem_of_members. split.
    + intros [_ (_ & ?)%Hmem]. done.
    + intros (row & Hrow & Hst). assert (id ∈ members (rb_frontier b)) as Hid by (apply Hmem; split; [by eapply lookup_lt_Some|eauto]).
      split; [|done]. apply Hopen in Hid as (r & ? & ?). exists r. by split.
  - intros row [i Hi]%list_elem_of_lookup. apply lookup_lt_Some in Hi as Hlt. split; [by eapply Hseen|].
    intros Hst. destruct (Hat i row Hi) as (r & _ & [-> _ _ _ _ _]). by eapply Hgoals.
Qed.

Definition sample_row (id : NodeId) (parent : option NodeId) (status : NodeStatus) (byte : N) : Row :=
  (mkNodeMeta "exp" id parent (if decide (id = 0%N) then 0 else 1) [byte] None status zero zero 0 0 0 id id [0%N], lab_attrs byte 0).
Definition stored_rows : list Row :=
  [sample_row 0 None StExpanded 26; sample_row 1 (Some 0%N) StFrontier 42; sample_row 2 (Some 0%N) StGoal 27; sample_row 3 (Some 1%N) StPruned 99].

Lemma resume_adopts_store_witness : exists b, rebuild sample_checkpoint stored_rows [] ∅ ∅ = Ok b /\
  nr_visits <$> records (rb_tree b) = [0; 2; 0; 0]%N /\
  exists l, deterministic_candidates (rb_frontier b) (rb_tree b) = Ok l /\ 1%N ∈ l /\ 2%N ∉ l.
Proof.
  destruct (rebuild sample_checkpoint stored_rows [] ∅ ∅) as [b|e|] eqn:E.
  2,3: exfalso; assert (is_Ok (rebuild sample_checkpoint stored_rows [] ∅ ∅) = true) as H by (vm_compute; reflexivity);
    rewrite E in H; discriminate H.
  destruct (resume_adopts_store sample_checkpoint stored_rows [] ∅ ∅ b) as (_ & _ & (l & Hl & Hc) & _).
  - intros row H. injection H as <-. reflexivity.
  - exact E.
  - exists b. split; [reflexivity|]. split.
    + transitivity (nr_visits <$> records (match rebuild sample_checkpoint stored_rows [] ∅ ∅ with Ok b => rb_tree b | _ => sample_root end));
        [by rewrite E|vm_compute; reflexivity].
    + exists l. split; [exact Hl|]. split.
      * apply Hc. eexists. split; [reflexivity|reflexivity].
      * rewrite Hc. intros (row & H & Hs). injection H as <-. discriminate Hs.
Defined.
