(* ===== verification/FakeScorer.v ===== *)
(** The scorer double (crates/orch-fakes/src/scorer.rs): it scores the feature
    bytes of a grid state, keeps per experiment the hashes it has seen and the
    counts of their cells, and checkpoints and restores that archive. *)
From S2P Require Import Prelude Float64 Types Client Fault Mirror Rng Grid ScorerTypes SynthDriver.
From stdpp Require Import pretty.
Local Open Scope string_scope.
Local Open Scope list_scope.

Definition MAX_SCORE_BATCH_ITEMS : nat := 256.
Definition GRID_FEATURE_BYTES_LEN : N := 5.
Definition COMPONENT_NAMES : list string := ["stage/start"; "stage/key"; "stage/boss"; "shape/x-progress"; "penalty/prune"].
Definition STAGE_NAMES : list string := ["start"; "key"; "boss"; "credits"].

(** ** State *)

Record ExperimentArchive := mkExperimentArchive {
  xa_feature_map_hash : option ScorerDigest;
  xa_program_hash : option ScorerDigest;
  xa_feature_bytes_len : N;
  xa_layout_signature : option ScorerDigest;
  xa_frame : option FrameSpec;
  xa_archive_seq : N;
  xa_seen_hashes : gset StateHash;
  xa_cell_counts : gmap CellKey N;
  xa_batch_cache : gmap string ScoreBatchResponse
}.
Definition ExperimentArchive_default : ExperimentArchive := mkExperimentArchive None None 0 None None 0 ∅ ∅ ∅.

Record ArchiveSnapshot := mkArchiveSnapshot {
  as_feature_map_hash : ScorerDigest;
  as_program_hash : ScorerDigest;
  as_feature_bytes_len : N;
  as_layout_signature : ScorerDigest;
  as_frame : option FrameSpec;
  as_archive_seq : N;
  as_seen_hashes : gset StateHash;
  as_cell_counts : gmap CellKey N;
  as_batch_cache : gmap string ScoreBatchResponse
}.

(** Experiment, checkpoint id and reference. *)
Abbreviation CheckpointKey := (string * string * string)%type (only parsing).

Record FakeScorer := mkFakeScorer {
  sc_world : GridWorld;
  sc_experiments : gmap string ExperimentArchive;
  sc_checkpoints : gmap CheckpointKey ArchiveSnapshot;
  sc_fault_injector : FaultInjector;
  sc_last_fault : option FaultDecision
}.
Definition scorer_with_world_and_fault_plan (world : GridWorld) (plan : FaultPlan) : FakeScorer :=
  mkFakeScorer world ∅ ∅ (injector_new plan) None.

Definition set_archive (experiment_id : string) (a : ExperimentArchive) (s : FakeScorer) : FakeScorer :=
  mkFakeScorer (sc_world s) (<[experiment_id := a]> (sc_experiments s)) (sc_checkpoints s) (sc_fault_injector s) (sc_last_fault s).
Definition set_checkpoint (key : CheckpointKey) (snapshot : ArchiveSnapshot) (s : FakeScorer) : FakeScorer :=
  mkFakeScorer (sc_world s) (sc_experiments s) (<[key := snapshot]> (sc_checkpoints s)) (sc_fault_injector s) (sc_last_fault s).
Definition set_scorer_injector (i : FaultInjector) (d : option FaultDecision) (s : FakeScorer) : FakeScorer :=
  mkFakeScorer (sc_world s) (sc_experiments s) (sc_checkpoints s) i d.

Definition set_committed (seen : gset StateHash) (counts : gmap CellKey N) (a : ExperimentArchive) : ExperimentArchive :=
  mkExperimentArchive (xa_feature_map_hash a) (xa_program_hash a) (xa_feature_bytes_len a) (xa_layout_signature a) (xa_frame a)
    (xa_archive_seq a) seen counts (xa_batch_cache a).
Definition set_scored (seq : N) (cache : gmap string ScoreBatchResponse) (a : ExperimentArchive) : ExperimentArchive :=
  mkExperimentArchive (xa_feature_map_hash a) (xa_program_hash a) (xa_feature_bytes_len a) (xa_layout_signature a) (xa_frame a)
    seq (xa_seen_hashes a) (xa_cell_counts a) cache.

(** [postcard::to_allocvec] of requests, layouts and snapshots. *)
Class ScorerEncoding := {
  enc_load_feature_map : LoadFeatureMapRequest -> list N;
  enc_load_scoring_program : LoadScoringProgramRequest -> list N;
  enc_score_batch : ScoreBatchRequest -> list N;
  enc_checkpoint_archive : ArchiveRequest -> list N;
  enc_restore_archive : RestoreArchiveRequest -> list N;
  enc_replay_commits : ReplayCommitsRequest -> list N;
  enc_layout : ScorerLayout -> list N;
  enc_snapshot : ArchiveSnapshot -> list N
}.

(** ** Archives *)

Definition ensure_loaded (a : ExperimentArchive) : res ClientError unit :=
  match xa_feature_map_hash a, xa_program_hash a with
  | Some _, Some _ => Ok tt
  | _, _ => Err (mkClientError FailedPrecondition "feature map and scoring program must be loaded")
  end.

Definition archive_is_empty (a : ExperimentArchive) : bool :=
  (xa_archive_seq a =? 0)%N && bool_decide (xa_seen_hashes a = ∅) && bool_decide (xa_cell_counts a = ∅).

Definition snapshot_of_archive (a : ExperimentArchive) : res ClientError ArchiveSnapshot :=
  feature_map_hash ← ok_or (xa_feature_map_hash a) (mkClientError FailedPrecondition "feature map not loaded");
  program_hash ← ok_or (xa_program_hash a) (mkClientError FailedPrecondition "scoring program not loaded");
  layout_signature ← ok_or (xa_layout_signature a) (mkClientError FailedPrecondition "layout not loaded");
  Ok (mkArchiveSnapshot feature_map_hash program_hash (xa_feature_bytes_len a) layout_signature (xa_frame a) (xa_archive_seq a)
        (xa_seen_hashes a) (xa_cell_counts a) (xa_batch_cache a)).

Definition restore_snapshot (snapshot : ArchiveSnapshot) : ExperimentArchive :=
  mkExperimentArchive (Some (as_feature_map_hash snapshot)) (Some (as_program_hash snapshot)) (as_feature_bytes_len snapshot)
    (Some (as_layout_signature snapshot)) (as_frame snapshot) (as_archive_seq snapshot) (as_seen_hashes snapshot)
    (as_cell_counts snapshot) (as_batch_cache snapshot).

(** A committed state: its hash, once, counts for its cell. *)
Definition insert_committed (state : CommittedState) : st ExperimentArchive ClientError bool := fun a =>
  if decide (cm_state_hash state ∈ xa_seen_hashes a) then (Ok false, a)
  else
    let seen := {[cm_state_hash state]} ∪ xa_seen_hashes a in
    match checked_add u32_max (default 0%N (xa_cell_counts a !! cm_cell_key state)) 1 with
    | Some n => (Ok true, set_committed seen (<[cm_cell_key state := n]> (xa_cell_counts a)) a)
    | None => (Panic, set_committed seen (xa_cell_counts a) a)
    end.

(** ** Scores of a state *)

Global Instance ScorerPixelFormat_eq_dec : EqDecision ScorerPixelFormat.
Proof. solve_decision. Defined.

Definition finite_or_panic {E : Type} (value : f64) : res E FiniteF64 :=
  match FiniteF64_new value with Ok v => Ok v | _ => Panic end.
Definition zero_value : FiniteF64 := mkFinite f64_zero eq_refl.

Definition decode_grid_features (bytes : list N) : res ItemError GridState :=
  match bytes with
  | [room; x; y; keys; boss_hp] =>
    room ← (match room with
            | 0%N => Ok RoomStart
            | 1%N => Ok RoomKeyVault
            | 2%N => Ok RoomBoss
            | value => Err (mkItemError DecodeFailed ("invalid room id " +:+ pretty value))
            end);
    if (GRID_WIDTH <=? x)%N || (GRID_HEIGHT <=? y)%N || (BOSS_MAX_HP <? boss_hp)%N
    then Err (mkItemError DecodeFailed "grid state fields out of range")
    else Ok (mkGridState x y room keys boss_hp)
  | _ => Err (mkItemError FeatureLenMismatch
           ("expected " +:+ pretty GRID_FEATURE_BYTES_LEN +:+ " grid feature bytes, got " +:+ pretty (length bytes)))
  end.

Definition validate_framebuffer (framebuffer : option Framebuffer) (fb_meta : option FramebufferMeta) (frame : option FrameSpec)
    : option ItemError :=
  match framebuffer with
  | Some (BlobRef _) => Some (mkItemError FbRefUnsupported "fake scorer does not resolve framebuffer blobs")
  | Some _ =>
    match frame, fb_meta with
    | None, _ => Some (mkItemError FbMetaMismatch "framebuffer supplied without loaded frame spec")
    | Some _, None => Some (mkItemError FbMetaMismatch "framebuffer metadata missing")
    | Some expected, Some meta =>
      if negb (fbm_width meta =? fs_width expected)%N || negb (fbm_height meta =? fs_height expected)%N
         || negb (bool_decide (fbm_format meta = fs_format expected))
      then Some (mkItemError FbMetaMismatch "framebuffer metadata does not match loaded frame spec") else None
    end
  | None => None
  end.

Definition error_result (node_ref : string) (error : ItemError) : ScoreResult :=
  mkScoreResult node_ref (Some error) zero_value zero_value (replicate 32 0%N) false false 0 false [] []
    (mkNoveltyDetail zero_value 0 0 zero_value 0 64 zero_value zero_value).

Definition component {E : Type} (name : string) (unlocked : bool) (value : f64) : res E ComponentScore :=
  value ← finite_or_panic (if unlocked then value else f64_zero);
  Ok (mkComponentScore name value unlocked).
Definition component_breakdown {E : Type} (world : GridWorld) (state : GridState) : res E (list ComponentScore) :=
  start ← component "stage/start" (bool_decide (gs_room state = RoomStart)) (f64_of_N 10);
  key ← component "stage/key" (has_key state) (f64_of_N 25);
  boss ← component "stage/boss" (bool_decide (gs_room state = RoomBoss)) (f64_of_N 50);
  shape ← component "shape/x-progress" true (f64_of_N (gs_x state));
  penalty ← component "penalty/prune" (grid_prune world state) f64_zero;
  Ok [start; key; boss; shape; penalty].

Definition decoded_number {E : Type} (n : N) : res E DecodedValue := v ← finite_or_panic (f64_of_N n); Ok (DecodedNumber v).
Definition decoded_values {E : Type} (state : GridState) : res E (list DecodedValue) :=
  numbers ← mapM_res decoded_number [Room_id (gs_room state); gs_x state; gs_y state; gs_keys state];
  boss ← (if (gs_boss_hp state =? 0)%N then Ok DecodedInvalid else decoded_number (gs_boss_hp state));
  Ok (numbers ++ [boss]).

Definition progress_score {E : Type} (world : GridWorld) (state : GridState) : res E Score :=
  finite_or_panic (progress_score_value world state).
Definition stage_of (world : GridWorld) (state : GridState) : Stage := N.min (stage_value world state) u16_max.

Section Scorer.
Context `{B3 : Blake3, ENC : ScorerEncoding}.

Definition visual_novelty_hash (state : GridState) (framebuffer : option Framebuffer) : N :=
  match framebuffer with
  | None => 0%N
  | Some _ => of_le_bytes (take 8 (blake3 (grid_state_hash state)))
  end.

(** The result of a state that decodes, against the archive before the batch. *)
Definition score_state {E : Type} (world : GridWorld) (node_ref : string) (state : GridState) (framebuffer : option Framebuffer)
    (seen_before : gset StateHash) (cell_counts_before : gmap CellKey N) (return_decoded : bool) : res E ScoreResult :=
  let state_hash := grid_state_hash state in
  let cell_key := grid_cell_key state in
  let cell_count := default 0%N (cell_counts_before !! cell_key) in
  next ← expect (checked_add u32_max cell_count 1);
  count_novelty ← finite_or_panic (f64_div f64_one (f64_sqrt (f64_of_N next)));
  visual_novelty ← finite_or_panic (match framebuffer with None => f64_zero | Some _ => f64_one end);
  score ← progress_score world state;
  decoded ← (if return_decoded then decoded_values state else Ok []);
  breakdown ← component_breakdown world state;
  Ok (mkScoreResult node_ref None score count_novelty state_hash (goal_reached world state)
        (bool_decide (state_hash ∈ seen_before)) (stage_of world state) (grid_prune world state) decoded breakdown
        (mkNoveltyDetail count_novelty cell_key cell_count visual_novelty (visual_novelty_hash state framebuffer)
           (match framebuffer with None => 64 | Some _ => 0 end)%N zero_value zero_value)).

Definition score_state_input {E : Type} (world : GridWorld) (input : StateInput) (frame : option FrameSpec) (seen_before : gset StateHash)
    (cell_counts_before : gmap CellKey N) (return_decoded : bool) : res E (ScoreResult * option CommittedState) :=
  match validate_framebuffer (si_framebuffer input) (si_fb_meta input) frame with
  | Some error => Ok (error_result (si_node_ref input) error, None)
  | None =>
    match decode_grid_features (si_feature_bytes input) with
    | Ok state =>
      result ← score_state world (si_node_ref input) state (si_framebuffer input) seen_before cell_counts_before return_decoded;
      Ok (result, Some (mkCommittedState (grid_state_hash state) (grid_cell_key state)))
    | Err error => Ok (error_result (si_node_ref input) error, None)
    | Panic => Panic
    end
  end.

(** ** Artifacts *)

Definition layout_len (layout : ScorerLayout) : res ClientError N :=
  foldl (fun sum range => sum ← sum; ok_or (checked_add u32_max sum (sg_len range)) (mkClientError InvalidRequest "feature layout length overflow"))
    (Ok 0%N) (sg_ranges layout).
Definition layout_signature (layout : ScorerLayout) : ScorerDigest := blake3 (enc_layout layout).
Definition hash_artifact_source (domain : string) (source : ArtifactSource) : ScorerDigest :=
  blake3 (len_prefixed (bytes_of_string domain) ++
    match source with
    | InlineYaml bytes => len_prefixed (bytes_of_string "inline") ++ len_prefixed bytes
    | FromArtifact reference => len_prefixed (bytes_of_string "artifact_ref") ++ len_prefixed (bytes_of_string reference)
    end).
Definition snapshot_hash (snapshot : ArchiveSnapshot) : ScorerDigest := blake3 (enc_snapshot snapshot).
Definition archive_ref (hash : ScorerDigest) : string := "scar:blake3:" +:+ fingerprint_hex hash.

(** ** Calls *)

Definition scorer_fault (operation : string) (identity : list N) (response_items : N) : st FakeScorer ClientError FaultDecision := fun s =>
  match fault_decide (mkFaultRequest TargetScorer operation identity) response_items (sc_fault_injector s) with
  | (Ok d, i) =>
    (match client_error (fd_terminal d) with Some e => Err e | None => Ok d end, set_scorer_injector i (Some d) s)
  | (_, i) => (Panic, set_scorer_injector i (sc_last_fault s) s)
  end.

Definition loaded_archive (experiment_id : string) (s : FakeScorer) : res ClientError ExperimentArchive :=
  a ← ok_or (sc_experiments s !! experiment_id)
        (mkClientError NotFound ("unknown experiment_id '" +:+ experiment_id +:+ "'"));
  _ ← ensure_loaded a;
  Ok a.

(** [m] on the archive of an experiment, as [archive_mut] and
    [loaded_archive_mut] hand it out. *)
Definition on_archive {A} (experiment_id : string) (m : st ExperimentArchive ClientError A) : st FakeScorer ClientError A := fun s =>
  let '(r, a) := m (default ExperimentArchive_default (sc_experiments s !! experiment_id)) in (r, set_archive experiment_id a s).
Definition on_loaded_archive {A} (experiment_id : string) (m : st ExperimentArchive ClientError A) : st FakeScorer ClientError A := fun s =>
  match loaded_archive experiment_id s with
  | Ok a => let '(r, a) := m a in (r, set_archive experiment_id a s)
  | Err e => (Err e, s)
  | Panic => (Panic, s)
  end.

(** Whether a feature map may replace the loaded one; [true] when the cell
    counts are reset. *)
Definition check_rebin (a : ExperimentArchive) (hash signature : ScorerDigest) (rebin : bool) : res ClientError bool :=
  match xa_feature_map_hash a with
  | Some loaded =>
    if decide (loaded = hash) then Ok false
    else if negb rebin && negb (archive_is_empty a)
    then Err (mkClientError FailedPrecondition "feature map differs from non-empty archive; use rebin")
    else if rebin && negb (bool_decide (xa_layout_signature a = Some signature))
    then Err (mkClientError FailedPrecondition "rebin requires identical compiled layout")
    else Ok rebin
  | None => Ok false
  end.

Definition fake_load_feature_map (r : LoadFeatureMapRequest) : st FakeScorer ClientError LoadFeatureMapResponse :=
  _ ← scorer_fault "load_feature_map" (enc_load_feature_map r) 0;
  let hash := hash_artifact_source "feature-map" (lf_source r) in
  len ← lift_res (layout_len (lf_layout r));
  let signature := layout_signature (lf_layout r) in
  on_archive (lf_experiment_id r) (
    a ← get_st;
    reset ← lift_res (check_rebin a hash signature (lf_rebin r));
    _ ← modify (fun a => mkExperimentArchive (Some hash) (xa_program_hash a) len (Some signature) (lf_frame r) (xa_archive_seq a)
                           (xa_seen_hashes a) (if reset : bool then ∅ else xa_cell_counts a) (xa_batch_cache a));
    mret (mkLoadFeatureMapResponse hash GRID_FEATURE_BYTES_LEN len
            (if lf_rebin r then ["rebin reset fake scorer cell counts"] else []))).

Definition fake_load_scoring_program (r : LoadScoringProgramRequest) : st FakeScorer ClientError LoadScoringProgramResponse :=
  _ ← scorer_fault "load_scoring_program" (enc_load_scoring_program r) 0;
  on_archive (lp_experiment_id r) (
    a ← get_st;
    _ ← lift_res (match xa_feature_map_hash a with
                  | Some _ => Ok tt
                  | None => Err (mkClientError FailedPrecondition "feature map must be loaded before scoring program")
                  end);
    let hash := hash_artifact_source "scoring-program" (lp_source r) in
    _ ← lift_res (match xa_program_hash a with
                  | Some loaded => if negb (bool_decide (loaded = hash)) && negb (archive_is_empty a)
                                   then Err (mkClientError FailedPrecondition "scoring program differs from non-empty archive") else Ok tt
                  | None => Ok tt
                  end);
    _ ← modify (fun a => mkExperimentArchive (xa_feature_map_hash a) (Some hash) (xa_feature_bytes_len a) (xa_layout_signature a) (xa_frame a)
                           (xa_archive_seq a) (xa_seen_hashes a) (xa_cell_counts a) (xa_batch_cache a));
    mret (mkLoadScoringProgramResponse hash COMPONENT_NAMES "room == boss && boss_hp == 0 && x == 4 && y == 0" [] STAGE_NAMES)).

(** The loop over the states of a batch; every verdict is against the archive
    before it. *)
Definition score_items (world : GridWorld) (inputs : list StateInput) (return_decoded : bool) (a : ExperimentArchive)
    : res ClientError (list (ScoreResult * option CommittedState)) :=
  mapM_res (fun input => score_state_input world input (xa_frame a) (xa_seen_hashes a) (xa_cell_counts a) return_decoded) inputs.

Definition score_on_archive (world : GridWorld) (r : ScoreBatchRequest) (d : FaultDecision) : st ExperimentArchive ClientError ScoreBatchResponse :=
  a ← get_st;
  match xa_batch_cache a !! sq_client_batch_id r with
  | Some cached =>
    mret (mkScoreBatchResponse (sbr_client_batch_id cached) (sbr_archive_seq cached)
            (take (truncate_len d (length (sbr_results cached))) (sbr_results cached)))
  | None =>
    items ← lift_res (score_items world (take (truncate_len d (length (sq_states r))) (sq_states r)) (sq_return_decoded r) a);
    let results := items.*1 in
    match sq_archive_update r with
    | ScoreOnly => mret (mkScoreBatchResponse (sq_client_batch_id r) (xa_archive_seq a) results)
    | ScoreAndInsert =>
      _ ← mapM_st insert_committed (omap snd items);
      let seq := N.min u64_max (xa_archive_seq a + 1) in
      let response := mkScoreBatchResponse (sq_client_batch_id r) seq results in
      _ ← modify (fun a => set_scored seq (<[sq_client_batch_id r := response]> (xa_batch_cache a)) a);
      mret response
    end
  end.

Definition fake_score_batch (r : ScoreBatchRequest) : st FakeScorer ClientError ScoreBatchResponse :=
  let len := length (sq_states r) in
  if (len =? 0)%nat || (MAX_SCORE_BATCH_ITEMS <? len)%nat
  then lift_res (Err (mkClientError InvalidRequest
         ("states length must be in 1..=" +:+ pretty MAX_SCORE_BATCH_ITEMS +:+ ", got " +:+ pretty len)))
  else
    d ← scorer_fault "score_batch" (enc_score_batch r) (N.of_nat len);
    s ← get_st;
    on_loaded_archive (sq_experiment_id r) (score_on_archive (sc_world s) r d).

Definition fake_checkpoint_archive (r : ArchiveRequest) : st FakeScorer ClientError CheckpointArchiveResponse :=
  _ ← scorer_fault "checkpoint_archive" (enc_checkpoint_archive r) 0;
  s ← get_st;
  a ← lift_res (loaded_archive (aq_experiment_id r) s);
  snapshot ← lift_res (snapshot_of_archive a);
  let hash := snapshot_hash snapshot in
  _ ← modify (set_checkpoint (aq_experiment_id r, aq_checkpoint_id r, archive_ref hash) snapshot);
  mret (mkCheckpointArchiveResponse (archive_ref hash) hash (as_archive_seq snapshot) (N.of_nat (size (as_cell_counts snapshot))) 0 0
          (N.of_nat (length (enc_snapshot snapshot)))).

Definition fake_restore_archive (r : RestoreArchiveRequest) : st FakeScorer ClientError RestoreArchiveResponse :=
  _ ← scorer_fault "restore_archive" (enc_restore_archive r) 0;
  s ← get_st;
  snapshot ← lift_res (ok_or (sc_checkpoints s !! (rq_experiment_id r, rq_checkpoint_id r, rq_archive_ref r))
                         (mkClientError NotFound "archive checkpoint not found"));
  on_archive (rq_experiment_id r) (
    a ← get_st;
    _ ← lift_res (if bool_decide (xa_feature_map_hash a = Some (as_feature_map_hash snapshot))
                     && bool_decide (xa_program_hash a = Some (as_program_hash snapshot)) then Ok tt
                  else Err (mkClientError FailedPrecondition "loaded scorer artifacts do not match archive checkpoint bindings"));
    _ ← modify (fun _ => restore_snapshot snapshot);
    mret (mkRestoreArchiveResponse (as_archive_seq snapshot) (N.of_nat (size (as_cell_counts snapshot))) 0 0
            (as_feature_map_hash snapshot) (as_program_hash snapshot))).

Definition count_applied (applied : list bool) : ReplayCommitsResponse :=
  mkReplayCommitsResponse (N.of_nat (length (filter (fun b => b = true) applied))) (N.of_nat (length (filter (fun b => b = false) applied))).

Definition fake_replay_commits (r : ReplayCommitsRequest) : st FakeScorer ClientError ReplayCommitsResponse :=
  d ← scorer_fault "replay_commits" (enc_replay_commits r) (N.of_nat (length (rc_states r)) mod 2 ^ 32);
  applied ← on_loaded_archive (rc_experiment_id r) (mapM_st insert_committed (take (truncate_len d (length (rc_states r))) (rc_states r)));
  mret (count_applied applied).
End Scorer.
