(* ===== verification/FakeScorerWf.v ===== *)
(** The scorer double (FakeScorer.v): replayed commits are idempotent, an
    archive reference names its content, and scoring alone changes nothing. *)
From S2P Require Import Prelude Float64 Types Client Fault Mirror Rng Grid ScorerTypes SynthDriver FakeScorer.
Local Open Scope string_scope.
Local Open Scope list_scope.

(** ** Committed states *)

Definition state_hashes (states : list CommittedState) : gset StateHash := list_to_set (cm_state_hash <$> states).

Lemma insert_committed_known state a : cm_state_hash state ∈ xa_seen_hashes a -> insert_committed state a = (Ok false, a).
Proof. intros H. unfold insert_committed. by rewrite decide_True. Qed.

Lemma insert_committed_seen state a b a' : insert_committed state a = (Ok b, a') ->
  xa_seen_hashes a' = {[cm_state_hash state]} ∪ xa_seen_hashes a.
Proof.
  unfold insert_committed. case_decide; [intros [= _ <-]; set_solver|]. destruct (checked_add _ _ _); [|done]. by intros [= _ <-].
Qed.

Lemma insert_all_known states : forall a, state_hashes states ⊆ xa_seen_hashes a ->
  mapM_st insert_committed states a = (Ok (replicate (length states) false), a).
Proof.
  induction states as [|state states IH]; intros a Hin; [done|]. cbn [mapM_st]. rewrite st_bind_run.
  rewrite insert_committed_known by (unfold state_hashes in Hin; set_solver). rewrite st_bind_run, IH; [done|].
  unfold state_hashes in *. set_solver.
Qed.

Lemma insert_all_seen states : forall a l a', mapM_st insert_committed states a = (Ok l, a') ->
  xa_seen_hashes a' = state_hashes states ∪ xa_seen_hashes a /\ length l = length states.
Proof.
  induction states as [|state states IH]; intros a l a'; cbn [mapM_st].
  { intros [= <- <-]. unfold state_hashes. split; [set_solver|done]. }
  rewrite st_bind_run. destruct (insert_committed state a) as [[b|e|] a1] eqn:E; [|done..]. apply insert_committed_seen in E.
  rewrite st_bind_run. destruct (mapM_st _ states a1) as [[l1|e|] a2] eqn:E2; [|done..]. intros [= <- <-].
  destruct (IH _ _ _ E2) as [-> Hl]. unfold state_hashes in *. cbn. rewrite E. split; [set_solver|lia].
Qed.

(** The artifacts an archive is bound to. *)
Definition bindings (a : ExperimentArchive) : option ScorerDigest * option ScorerDigest := (xa_feature_map_hash a, xa_program_hash a).
Lemma insert_committed_bindings state a r a' : insert_committed state a = (r, a') -> bindings a' = bindings a.
Proof. unfold insert_committed. case_decide; [by intros [= _ <-]|]. destruct (checked_add _ _ _); by intros [= _ <-]. Qed.
Lemma insert_all_bindings states : forall a r a', mapM_st insert_committed states a = (r, a') -> bindings a' = bindings a.
Proof.
  induction states as [|state states IH]; intros a r a'; cbn [mapM_st]; [by intros [= _ <-]|].
  rewrite st_bind_run. destruct (insert_committed state a) as [[b|e|] a1] eqn:E; apply insert_committed_bindings in E; [|by intros [= _ <-]..].
  rewrite st_bind_run. destruct (mapM_st _ states a1) as [[l1|e|] a2] eqn:E2; apply IH in E2; intros [= _ <-]; by rewrite E2.
Qed.

Section Scorer.
Context `{B3 : Blake3, ENC : ScorerEncoding}.

Lemma scorer_fault_frame operation identity items s r s' : scorer_fault operation identity items s = (r, s') ->
  sc_experiments s' = sc_experiments s /\ sc_checkpoints s' = sc_checkpoints s /\ sc_world s' = sc_world s.
Proof. unfold scorer_fault. destruct (fault_decide _ _ _) as [[d|e|] i]; by intros [= _ <-]. Qed.

Lemma loaded_archive_Ok experiment_id s a : loaded_archive experiment_id s = Ok a ->
  sc_experiments s !! experiment_id = Some a /\ ensure_loaded a = Ok tt.
Proof.
  unfold loaded_archive. destruct (sc_experiments s !! experiment_id) as [a0|]; [|done]. cbn.
  destruct (ensure_loaded a0) as [[]| |] eqn:E; [|done..]. by intros [= <-].
Qed.

Lemma replay_commits_run r s out s' : fake_replay_commits r s = (out, s') ->
  sc_experiments s' = sc_experiments s /\ is_Ok out = false \/
  exists a a' k l, sc_experiments s !! rc_experiment_id r = Some a /\ ensure_loaded a = Ok tt /\
    mapM_st insert_committed (take k (rc_states r)) a = (l, a') /\
    sc_experiments s' = <[rc_experiment_id r := a']> (sc_experiments s) /\ out = (applied ← l; Ok (count_applied applied)).
Proof.
  unfold fake_replay_commits. rewrite st_bind_run. destruct (scorer_fault _ _ _ s) as [[d|e|] s1] eqn:Ef;
    apply scorer_fault_frame in Ef as (He & _); [|intros [= <- <-]; by left..].
  rewrite st_bind_run. unfold on_loaded_archive. destruct (loaded_archive _ s1) as [a|e|] eqn:El; [|intros [= <- <-]; by left..].
  apply loaded_archive_Ok in El as [Ha Hl]. rewrite He in Ha. set (k := truncate_len _ _).
  destruct (mapM_st insert_committed (take k (rc_states r)) a) as [l a'] eqn:Em. intros H. right. exists a, a', k, l.
  split; [done|]. split; [done|]. split; [done|]. destruct l as [l|e|]; cbn in H |- *; injection H as <- <-; cbn; rewrite He; done.
Qed.

Lemma count_applied_length l : (rcr_applied (count_applied l) + rcr_skipped (count_applied l) = N.of_nat (length l))%N.
Proof. unfold count_applied. cbn. induction l as [|[] l IH]; [done|..]; rewrite !filter_cons; repeat case_decide; try done; cbn in *; lia. Qed.
Lemma count_applied_none n : rcr_applied (count_applied (replicate n false)) = 0%N.
Proof. unfold count_applied. cbn. induction n as [|n IH]; [done|]. cbn [replicate]. rewrite filter_cons. by case_decide. Qed.

(** Replayed commits are idempotent: once a replay was applied in full,
    replaying any of its states again, alone or with others of them, changes
    no archive and reports nothing applied. *)
Theorem replay_commits_idempotent (r r' : ReplayCommitsRequest) (s s1 s2 : FakeScorer) (resp : ReplayCommitsResponse)
    (out : res ClientError ReplayCommitsResponse) :
  fake_replay_commits r s = (Ok resp, s1) -> (rcr_applied resp + rcr_skipped resp = N.of_nat (length (rc_states r)))%N ->
  rc_experiment_id r' = rc_experiment_id r -> state_hashes (rc_states r') ⊆ state_hashes (rc_states r) ->
  fake_replay_commits r' s1 = (out, s2) ->
  sc_experiments s2 = sc_experiments s1 /\ forall resp', out = Ok resp' -> rcr_applied resp' = 0%N.
Proof.
  intros H1 Hall Hexp Hsub H2. apply replay_commits_run in H1 as [[_ H1]|(a & a1 & k & l & Ha & _ & Hm & Hs1 & Hout)]; [done|].
  destruct l as [l|e|]; [|done..]. injection Hout as ->. apply insert_all_seen in Hm as [Hseen Hlen].
  rewrite count_applied_length, Hlen, length_take in Hall. rewrite firstn_all2 in Hseen by lia.
  apply replay_commits_run in H2 as [[H2 Hno]|(b & b1 & k' & l' & Hb & _ & Hm' & Hs2 & Hout')].
  { split; [done|]. intros resp' ->. done. }
  rewrite Hexp, Hs1, lookup_insert_eq in Hb. injection Hb as <-.
  rewrite insert_all_known in Hm'.
  - injection Hm' as <- <-. rewrite Hs2, Hs1, Hexp, insert_insert_eq. split; [done|]. intros resp' ->. injection Hout' as ->. apply count_applied_none.
  - rewrite Hseen. unfold state_hashes in *. intros h [state [-> [i [Hi _]%lookup_take_Some]%list_elem_of_lookup]]%elem_of_list_to_set%list_elem_of_fmap.
    apply elem_of_union_l, Hsub, elem_of_list_to_set, list_elem_of_fmap. exists state. split; [done|]. by eapply list_elem_of_lookup_2.
Qed.

(** ** Checkpoints of the archive *)

Inductive scorer_call :=
| CallFeatureMap (r : LoadFeatureMapRequest)
| CallProgram (r : LoadScoringProgramRequest)
| CallScore (r : ScoreBatchRequest)
| CallCheckpoint (r : ArchiveRequest)
| CallRestore (r : RestoreArchiveRequest)
| CallReplay (r : ReplayCommitsRequest).
Definition run_scorer_call (c : scorer_call) (s : FakeScorer) : FakeScorer :=
  match c with
  | CallFeatureMap r => (fake_load_feature_map r s).2
  | CallProgram r => (fake_load_scoring_program r s).2
  | CallScore r => (fake_score_batch r s).2
  | CallCheckpoint r => (fake_checkpoint_archive r s).2
  | CallRestore r => (fake_restore_archive r s).2
  | CallReplay r => (fake_replay_commits r s).2
  end.
Definition run_scorer_calls (calls : list scorer_call) (s : FakeScorer) : FakeScorer := foldl (flip run_scorer_call) s calls.

(** Every stored checkpoint is filed under the reference of its content. *)
Definition filed_by_content (s : FakeScorer) : Prop :=
  map_Forall (fun key snapshot => key.2 = archive_ref (snapshot_hash snapshot)) (sc_checkpoints s).

(** The checkpoints after a call: the same, or one more filed. *)
Definition files (s s' : FakeScorer) : Prop :=
  sc_checkpoints s' = sc_checkpoints s \/
  exists key snapshot, key.2 = archive_ref (snapshot_hash snapshot) /\ sc_checkpoints s' = <[key := snapshot]> (sc_checkpoints s).

Lemma checkpoints_fault {A} operation identity items (k : FaultDecision -> st FakeScorer ClientError A) s :
  (forall d s1, files s1 (k d s1).2) -> files s ((scorer_fault operation identity items ≫= k) s).2.
Proof.
  intros Hk. rewrite st_bind_run. destruct (scorer_fault _ _ _ s) as [[d|e|] s1] eqn:E; apply scorer_fault_frame in E as (_ & E & _);
    [|by left..]. unfold files in *. rewrite <- E. apply Hk.
Qed.
Lemma checkpoints_archive {A} experiment_id (m : st ExperimentArchive ClientError A) s : files s (on_archive experiment_id m s).2.
Proof. unfold on_archive. destruct (m _) as [r a]. by left. Qed.
Lemma checkpoints_loaded {A} experiment_id (m : st ExperimentArchive ClientError A) s : files s (on_loaded_archive experiment_id m s).2.
Proof. unfold on_loaded_archive. destruct (loaded_archive _ _); [|by left..]. destruct (m _) as [r a']. by left. Qed.

Lemma checkpoint_archive_run q s out s' : fake_checkpoint_archive q s = (out, s') ->
  match out with
  | Ok c => exists snapshot, ca_archive_ref c = archive_ref (snapshot_hash snapshot) /\
      sc_checkpoints s' = <[(aq_experiment_id q, aq_checkpoint_id q, ca_archive_ref c) := snapshot]> (sc_checkpoints s)
  | _ => sc_checkpoints s' = sc_checkpoints s
  end.
Proof.
  unfold fake_checkpoint_archive. rewrite st_bind_run. destruct (scorer_fault _ _ _ s) as [[d|e|] s1] eqn:Ef;
    apply scorer_fault_frame in Ef as (_ & Hc & _); [|by intros [= <- <-]..].
  rewrite st_bind_run. cbn [get_st]. rewrite st_bind_run. destruct (loaded_archive _ s1) as [a|e|]; cbn [lift_res]; [|by intros [= <- <-]..].
  rewrite st_bind_run. destruct (snapshot_of_archive a) as [snapshot|e|]; cbn [lift_res]; [|by intros [= <- <-]..].
  rewrite modify_bind. intros [= <- <-]. exists snapshot. split; [done|]. cbn. by rewrite Hc.
Qed.

Lemma run_call_files c s : files s (run_scorer_call c s).
Proof.
  destruct c as [r|r|r|r|r|r]; cbn [run_scorer_call].
  - apply checkpoints_fault. intros d s1. rewrite st_bind_run. destruct (layout_len _); cbn [lift_res]; [|by left..]. apply checkpoints_archive.
  - apply checkpoints_fault. intros d s1. apply checkpoints_archive.
  - unfold fake_score_batch. destruct (_ || _); [by left|]. apply checkpoints_fault. intros d s1. rewrite st_bind_run. cbn [get_st].
    apply checkpoints_loaded.
  - destruct (fake_checkpoint_archive r s) as [out s'] eqn:E. apply checkpoint_archive_run in E. destruct out as [c|e|]; [|by left..].
    destruct E as (snapshot & Hr & Hc). right. eexists _, snapshot. split; [|exact Hc]. exact Hr.
  - apply checkpoints_fault. intros d s1. rewrite st_bind_run. cbn [get_st]. rewrite st_bind_run. destruct (ok_or _ _); cbn [lift_res]; [|by left..].
    apply checkpoints_archive.
  - apply checkpoints_fault. intros d s1. rewrite st_bind_run.
    pose proof (checkpoints_loaded (rc_experiment_id r) (mapM_st insert_committed (take (truncate_len d (length (rc_states r))) (rc_states r))) s1) as H.
    destruct (on_loaded_archive _ _ s1) as [[l|e|] s2]; exact H.
Qed.

Lemma files_content s s' : files s s' -> filed_by_content s -> filed_by_content s'.
Proof.
  unfold filed_by_content. intros [->|(key & snapshot & Hk & ->)] Hs; [done|]. by apply map_Forall_insert_2.
Qed.
Lemma files_keeps s s' key : files s s' -> is_Some (sc_checkpoints s !! key) -> is_Some (sc_checkpoints s' !! key).
Proof. intros [->|(k & snapshot & _ & ->)] H; [done|]. apply lookup_insert_is_Some'. by right. Qed.

Lemma run_calls_files calls : forall s, (filed_by_content s -> filed_by_content (run_scorer_calls calls s)) /\
  (forall key, is_Some (sc_checkpoints s !! key) -> is_Some (sc_checkpoints (run_scorer_calls calls s) !! key)).
Proof.
  induction calls as [|c calls IH]; intros s; [done|]. cbn [run_scorer_calls foldl flip]. destruct (IH (run_scorer_call c s)) as [H1 H2].
  pose proof (run_call_files c s) as Hf. split; [intros Hs; by eapply H1, files_content|intros key Hk; by eapply H2, files_keeps].
Qed.

(** A restore writes back what is filed under the reference. *)
Lemma restore_archive_run r s out s' : fake_restore_archive r s = (out, s') ->
  let filed := sc_checkpoints s !! (rq_experiment_id r, rq_checkpoint_id r, rq_archive_ref r) in
  match out with
  | Ok resp => exists snapshot, filed = Some snapshot /\ sc_experiments s' !! rq_experiment_id r = Some (restore_snapshot snapshot) /\
      rar_archive_seq resp = as_archive_seq snapshot
  | Err e => filed = None \/ (exists d, client_error (fd_terminal d) = Some e) \/
      exists snapshot, filed = Some snapshot /\
        bindings (default ExperimentArchive_default (sc_experiments s !! rq_experiment_id r)) <>
        (Some (as_feature_map_hash snapshot), Some (as_program_hash snapshot))
  | Panic => True
  end.
Proof.
  unfold fake_restore_archive. rewrite st_bind_run. destruct (scorer_fault _ _ _ s) as [rf s1] eqn:Ef.
  apply scorer_fault_frame in Ef as Hframe. destruct Hframe as (He & Hc & _). destruct rf as [d|e|]; [|intros [= <- <-]|by intros [= <- <-]].
  2:{ right. left. unfold scorer_fault in Ef. destruct (fault_decide _ _ _) as [[d|e0|] i]; [|done..]. exists d.
      destruct (client_error (fd_terminal d)); [|done]. by injection Ef as -> _. }
  rewrite st_bind_run. cbn [get_st]. rewrite st_bind_run, Hc. cbv zeta.
  destruct (sc_checkpoints s !! _) as [snapshot|]; cbn [ok_or lift_res]; [|intros [= <- <-]; by left].
  unfold on_archive. rewrite He, st_bind_run. cbn [get_st]. rewrite st_bind_run.
  set (a := default _ (sc_experiments s !! _)). destruct (_ && _) eqn:Eb; cbn [lift_res].
  - rewrite modify_bind. intros [= <- <-]. exists snapshot. split; [done|]. split; [|done]. cbn. by rewrite lookup_insert_eq.
  - intros [= <- <-]. right. right. exists snapshot. split; [done|]. intros [= H1 H2]. rewrite H1, H2 in Eb.
    by rewrite !bool_decide_true in Eb.
Qed.

(** An archive reference names its content and stays good: whatever was
    called before an archive was checkpointed and whatever was called since,
    restoring the reference that was returned gives an archive with exactly
    that reference, or fails by an injected fault or because other artifacts
    are loaded; it is never unknown. *)
Theorem archive_restore_by_content (world : GridWorld) (plan : FaultPlan) (before after : list scorer_call) (q : ArchiveRequest)
    (c : CheckpointArchiveResponse) (s1 s3 : FakeScorer) (out : res ClientError RestoreArchiveResponse) :
  fake_checkpoint_archive q (run_scorer_calls before (scorer_with_world_and_fault_plan world plan)) = (Ok c, s1) ->
  let s2 := run_scorer_calls after s1 in
  fake_restore_archive (mkRestoreArchiveRequest (aq_experiment_id q) (aq_checkpoint_id q) (ca_archive_ref c)) s2 = (out, s3) ->
  match out with
  | Ok resp => exists snapshot, sc_experiments s3 !! aq_experiment_id q = Some (restore_snapshot snapshot) /\
      snapshot_of_archive (restore_snapshot snapshot) = Ok snapshot /\
      archive_ref (snapshot_hash snapshot) = ca_archive_ref c /\ rar_archive_seq resp = as_archive_seq snapshot
  | Err e => (exists d, client_error (fd_terminal d) = Some e) \/
      exists snapshot, archive_ref (snapshot_hash snapshot) = ca_archive_ref c /\
        bindings (default ExperimentArchive_default (sc_experiments s2 !! aq_experiment_id q)) <>
        (Some (as_feature_map_hash snapshot), Some (as_program_hash snapshot))
  | Panic => True
  end.
Proof.
  intros Hck s2 Hre. set (s0 := scorer_with_world_and_fault_plan world plan) in *.
  assert (filed_by_content s1) as Hf1.
  { eapply files_content; [|apply (run_calls_files before s0); apply map_Forall_empty].
    pose proof (run_call_files (CallCheckpoint q) (run_scorer_calls before s0)) as H. cbn in H. by rewrite Hck in H. }
  apply checkpoint_archive_run in Hck as (snapshot0 & _ & Hck).
  assert (is_Some (sc_checkpoints s2 !! (aq_experiment_id q, aq_checkpoint_id q, ca_archive_ref c))) as [snapshot Hs].
  { apply (run_calls_files after s1). rewrite Hck, lookup_insert_eq. eauto. }
  assert (ca_archive_ref c = archive_ref (snapshot_hash snapshot)) as Href by apply (proj1 (run_calls_files after s1) Hf1 _ _ Hs).
  apply restore_archive_run in Hre. cbn in Hre. rewrite Hs in Hre. destruct out as [resp|e|]; [| |done].
  - destruct Hre as (? & [= <-] & Ha & Hseq). exists snapshot. split_and!; [done|by destruct snapshot|done|done].
  - destruct Hre as [?|[?|(? & [= <-] & Hb)]]; [done|by left|right]. exists snapshot. by split; [symmetry|].
Qed.

(** ** Scores *)

(** What a result says of its input, against the archive [a]. *)
Definition scored_as (world : GridWorld) (a : ExperimentArchive) (input : StateInput) (result : ScoreResult) : Prop :=
  sr_node_ref result = si_node_ref input /\
  (is_Some (sr_error result) \/
   sr_error result = None /\ exists state, decode_grid_features (si_feature_bytes input) = Ok state /\
     sr_state_hash result = grid_state_hash state /\
     sr_duplicate result = bool_decide (grid_state_hash state ∈ xa_seen_hashes a) /\
     sr_goal_hit result = goal_reached world state /\ sr_prune result = grid_prune world state /\
     nd_cell_key (sr_novelty_detail result) = grid_cell_key state /\
     nd_cell_count (sr_novelty_detail result) = default 0%N (xa_cell_counts a !! grid_cell_key state)).

Lemma score_state_fields {E : Type} world node_ref state framebuffer seen counts decoded (result : ScoreResult) :
  score_state world node_ref state framebuffer seen counts decoded = Ok (E := E) result ->
  sr_node_ref result = node_ref /\ sr_error result = None /\ sr_state_hash result = grid_state_hash state /\
  sr_duplicate result = bool_decide (grid_state_hash state ∈ seen) /\
  sr_goal_hit result = goal_reached world state /\ sr_prune result = grid_prune world state /\
  nd_cell_key (sr_novelty_detail result) = grid_cell_key state /\
  nd_cell_count (sr_novelty_detail result) = default 0%N (counts !! grid_cell_key state).
Proof. unfold score_state. intros (? & _ & (? & _ & (? & _ & (? & _ & (? & _ & (? & _ & [= <-])%bind_Ok)%bind_Ok)%bind_Ok)%bind_Ok)%bind_Ok)%bind_Ok. done. Qed.

Lemma score_item_as world a input decoded item : score_state_input (E := ClientError) world input (xa_frame a) (xa_seen_hashes a) (xa_cell_counts a) decoded = Ok item ->
  scored_as world a input item.1.
Proof.
  unfold score_state_input. destruct (validate_framebuffer _ _ _) as [error|]; [intros [= <-]; split; [done|left; by exists error]|].
  destruct (decode_grid_features _) as [state|error|] eqn:Ed; [|intros [= <-]; split; [done|left; by exists error]|done].
  intros (result & Hr & [= <-])%bind_Ok. apply score_state_fields in Hr as (H1 & H2 & H3). split; [done|]. right. split; [done|]. exists state.
  by split.
Qed.

(** Scoring alone only reads: whatever it answers, the archives stay as
    they were, and an answer that is not served from the batch cache gives
    for each state, in order, an item error or the verdict of the archive:
    a duplicate exactly when the state's hash was committed, the count of its
    cell, and goal and prune as the world defines them. *)
Theorem score_only_reads (r : ScoreBatchRequest) (s s' : FakeScorer) (out : res ClientError ScoreBatchResponse) :
  sq_archive_update r = ScoreOnly -> fake_score_batch r s = (out, s') ->
  sc_experiments s' = sc_experiments s /\
  forall resp a, out = Ok resp -> sc_experiments s !! sq_experiment_id r = Some a -> xa_batch_cache a !! sq_client_batch_id r = None ->
    sbr_archive_seq resp = xa_archive_seq a /\
    exists k, Forall2 (scored_as (sc_world s) a) (take k (sq_states r)) (sbr_results resp).
Proof.
  intros Hmode. unfold fake_score_batch. destruct (_ || _); [intros [= <- <-]; done|]. rewrite st_bind_run.
  destruct (scorer_fault _ _ _ s) as [[d|e|] s1] eqn:Ef; apply scorer_fault_frame in Ef as (He & _ & Hw); [|by intros [= <- <-]..].
  rewrite st_bind_run. cbn [get_st]. unfold on_loaded_archive. destruct (loaded_archive _ s1) as [a|e|] eqn:El; [|by intros [= <- <-]..].
  apply loaded_archive_Ok in El as [Ha _]. rewrite He in Ha. rewrite Hw. unfold score_on_archive. rewrite st_bind_run. cbn [get_st].
  destruct (xa_batch_cache a !! _) as [cached|] eqn:Ec; [|rewrite st_bind_run; destruct (score_items _ _ _ a) as [items|e|] eqn:Ei; cbn [lift_res]; [rewrite Hmode|..]];
    intros [= <- <-]; cbn; rewrite He; (split; [by apply insert_id|]); intros resp a0 [= <-]; rewrite Ha; intros [= <-] Hno; [congruence|].
  split; [done|]. eexists. unfold score_items in Ei. apply mapM_res_Ok in Ei. cbn. rewrite Forall2_fmap_r.
  eapply Forall2_impl; [exact Ei|]. intros input item Hi. exact (score_item_as _ _ _ _ _ Hi).
Qed.
End Scorer.

(** Feature bytes decode to the state they encode, for every state of
    the grid; and bytes that decode are the bytes of a state in range. *)
Theorem grid_features_roundtrip (s : GridState) (bytes : list N) :
  ((gs_x s < GRID_WIDTH)%N -> (gs_y s < GRID_HEIGHT)%N -> (gs_boss_hp s <= BOSS_MAX_HP)%N -> decode_grid_features (encode_grid_features s) = Ok s) /\
  (decode_grid_features bytes = Ok s -> encode_grid_features s = bytes /\
     (gs_x s < GRID_WIDTH)%N /\ (gs_y s < GRID_HEIGHT)%N /\ (gs_boss_hp s <= BOSS_MAX_HP)%N).
Proof.
  split.
  - intros Hx Hy Hb. destruct s as [x y room keys boss]. cbn in *. unfold encode_grid_features, state_bytes, decode_grid_features. cbn.
    rewrite (proj2 (N.leb_gt _ _) Hx), (proj2 (N.leb_gt _ _) Hy), (proj2 (N.ltb_ge _ _) Hb). by destruct room.
  - destruct bytes as [|room [|x [|y [|keys [|boss [|]]]]]]; try done. cbn [decode_grid_features].
    destruct (N.leb_spec GRID_WIDTH x) as [|Hx], (N.leb_spec GRID_HEIGHT y) as [|Hy], (N.ltb_spec BOSS_MAX_HP boss) as [|Hb];
      cbn [orb]; try (by destruct room as [|[|[]|]]).
    destruct room as [|[[]|[]|]]; try done; intros [= <-]; by split_and!.
Qed.

(** ** Witnesses *)

Definition toy_scorer_encoding : ScorerEncoding := {|
  enc_load_feature_map _ := []; enc_load_scoring_program _ := []; enc_score_batch _ := []; enc_checkpoint_archive _ := [];
  enc_restore_archive _ := []; enc_replay_commits _ := []; enc_layout l := [N.of_nat (length (sg_ranges l))];
  enc_snapshot a := [as_archive_seq a; N.of_nat (size (as_seen_hashes a)); N.of_nat (size (as_cell_counts a))]
|}.
#[local] Existing Instance toy_scorer_encoding.
#[local] Existing Instance toy_blake3.

Definition sample_committed : list CommittedState := [mkCommittedState [1%N] 5; mkCommittedState [2%N] 5].
Definition sample_loading : list scorer_call :=
  [CallFeatureMap (mkLoadFeatureMapRequest "exp" (InlineYaml [1%N]) (mkScorerLayout []) None false);
   CallProgram (mkLoadScoringProgramRequest "exp" (InlineYaml [2%N]))].
Definition sample_scorer : FakeScorer := run_scorer_calls sample_loading (scorer_with_world_and_fault_plan three_room (plan_disabled 0)).
Definition sample_replay (states : list CommittedState) : ReplayCommitsRequest := mkReplayCommitsRequest "exp" states.
Definition replayed : res ClientError ReplayCommitsResponse * FakeScorer := fake_replay_commits (sample_replay sample_committed) sample_scorer.

Lemma replay_commits_idempotent_witness : exists resp s1 out s2,
  replayed = (Ok resp, s1) /\ rcr_applied resp = 2%N /\
  fake_replay_commits (sample_replay [mkCommittedState [2%N] 5]) s1 = (out, s2) /\ sc_experiments s2 = sc_experiments s1.
Proof.
  destruct replayed as [r s1] eqn:E.
  assert (r = Ok (mkReplayCommitsResponse 2 0)) as -> by (transitivity replayed.1; [by rewrite E|vm_compute; reflexivity]).
  destruct (fake_replay_commits (sample_replay [mkCommittedState [2%N] 5]) s1) as [out s2] eqn:E2.
  exists (mkReplayCommitsResponse 2 0), s1, out, s2. split; [reflexivity|]. split; [reflexivity|]. split; [exact E2|].
  apply (replay_commits_idempotent (sample_replay sample_committed) (sample_replay [mkCommittedState [2%N] 5]) sample_scorer s1 s2
           (mkReplayCommitsResponse 2 0) out E); [reflexivity|reflexivity| |exact E2].
  apply (bool_decide_unpack _). vm_compute. reflexivity.
Defined.

Definition sample_input (bytes : list N) : StateInput := mkStateInput "n" bytes None None.
Definition sample_score : ScoreBatchRequest := mkScoreBatchRequest "exp" [sample_input [0; 0; 2; 0; 3]%N; sample_input [9]%N] ScoreOnly "b" false.

Lemma score_only_reads_witness : exists resp s',
  fake_score_batch sample_score sample_scorer = (Ok resp, s') /\ sc_experiments s' = sc_experiments sample_scorer /\
  (fun r => bool_decide (sr_error r = None)) <$> sbr_results resp = [true; false].
Proof.
  destruct (fake_score_batch sample_score sample_scorer) as [r s'] eqn:E.
  destruct (score_only_reads sample_score sample_scorer s' r) as [H _]; [reflexivity|exact E|].
  destruct r as [resp|e|].
  - exists resp, s'. split; [reflexivity|]. split; [exact H|].
    transitivity (match (fake_score_batch sample_score sample_scorer).1 with Ok resp => (fun r => bool_decide (sr_error r = None)) <$> sbr_results resp | _ => [] end);
      [by rewrite E|vm_compute; reflexivity].
  - exfalso. apply (f_equal (fun o => is_Ok o.1)) in E. vm_compute in E. discriminate E.
  - exfalso. apply (f_equal (fun o => is_Ok o.1)) in E. vm_compute in E. discriminate E.
Defined.

Definition sample_checkpoint_request : ArchiveRequest := mkArchiveRequest "exp" "c1".
Definition sample_since : list scorer_call := [CallReplay (sample_replay sample_committed)].

Lemma archive_restore_by_content_witness : exists c s1 out s3,
  fake_checkpoint_archive sample_checkpoint_request sample_scorer = (Ok c, s1) /\
  fake_restore_archive (mkRestoreArchiveRequest "exp" "c1" (ca_archive_ref c)) (run_scorer_calls sample_since s1) = (Ok out, s3) /\
  exists snapshot, sc_experiments s3 !! "exp"%string = Some (restore_snapshot snapshot) /\ archive_ref (snapshot_hash snapshot) = ca_archive_ref c.
Proof.
  destruct (fake_checkpoint_archive sample_checkpoint_request sample_scorer) as [[c|e|] s1] eqn:E;
    [|exfalso; apply (f_equal (fun o => is_Ok o.1)) in E; by vm_compute in E..].
  destruct (fake_restore_archive (mkRestoreArchiveRequest "exp" "c1" (ca_archive_ref c)) (run_scorer_calls sample_since s1)) as [out s3] eqn:E2.
  pose proof (archive_restore_by_content three_room (plan_disabled 0) sample_loading sample_since sample_checkpoint_request c s1 s3 out E E2) as H.
  assert (is_Ok out = true) as Hok.
  { transitivity (match fake_checkpoint_archive sample_checkpoint_request sample_scorer with
                  | (Ok c, s1) => is_Ok (fake_restore_archive (mkRestoreArchiveRequest "exp" "c1" (ca_archive_ref c)) (run_scorer_calls sample_since s1)).1
                  | _ => false end); [by rewrite E, E2|vm_compute; reflexivity]. }
  destruct out as [resp|e|]; [|discriminate Hok..]. destruct H as (snapshot & H1 & _ & H3 & _).
  exists c, s1, resp, s3. split; [reflexivity|]. split; [exact E2|]. exists snapshot. split; [exact H1|exact H3].
Defined.
