(* ===== verification/ItemErrors.v ===== *)
(** States the scorer could not score (FakeScorer.v, CommitStage.v, Commit.v):
    the runner never looks at the error of an item, and its commit makes an
    open node of the state. *)
From S2P Require Import Prelude Float64 Types Reasons Tree Frontier Mirror Commit Plateau Client Retry Fault MetaStore Rng Policy Softmax Ucb Staged Checkpoint Runner Durable.
From S2P Require Import HvTypes SynthTypes WorkerDriver Pipeline StoreTypes NodeAttrs SynthDriver ScorerTypes Compile Events Bringup Grid FakeScorer FakeScorerWf CommitStage ReplayStage RunLoop StageSample Frames Replay.
Local Open Scope string_scope.
Local Open Scope list_scope.

(** ** Kept children *)

(** Once in the tree, a record changes only its counters while the rest of
    its batch is committed. *)
Definition same_but_counters (r r' : NodeRecord) : Prop := exists visits children, r' = set_counters visits children r.

Lemma same_counters_trans r1 r2 r3 : same_but_counters r1 r2 -> same_but_counters r2 r3 -> same_but_counters r1 r3.
Proof. intros (v & c & ->) (v' & c' & ->). by exists v', c'. Qed.

Lemma get_replaced t i r r' cs id rid : get t i = Some r -> same_but_counters r r' -> get t id = Some rid ->
  exists r2, get (mkTree (<[N.to_nat i := r']> (records t)) cs) id = Some r2 /\ same_but_counters rid r2.
Proof.
  intros Hi Hr Hid. destruct (decide (i = id)) as [->|Hne].
  - exists r'. split; [by eapply get_replace|]. by replace rid with r by congruence.
  - exists rid. split; [|by exists (nr_visits rid), (nr_children rid); destruct rid]. apply get_Some. cbn. rewrite list_lookup_insert_ne by lia. by apply get_Some.
Qed.

Lemma same_counters_refl r : same_but_counters r r.
Proof. exists (nr_visits r), (nr_children r). by destruct r. Qed.

Lemma insert_child_keeps t parent payload new t' id r : tree_wf t -> insert_child parent payload t = (Ok new, t') -> get t id = Some r ->
  id <> new /\ exists r', get t' id = Some r' /\ same_but_counters r r'.
Proof.
  intros Hwf Hi Hr. destruct (insert_child_Ok _ _ _ _ _ Hwf Hi) as (-> & _ & _ & pr & Hpr & _). pose proof (proj1 (get_Some _ _ _) Hr) as Hlt%lookup_lt_Some.
  split; [unfold next_id; lia|]. rewrite insert_child_run, Hpr in Hi by done. destruct (_ <? _)%N; [done|]. destruct (_ <? _)%N; [done|]. injection Hi as <-.
  destruct (get_replaced _ _ _ (set_counters (nr_visits pr) (nr_children pr + 1)%N pr) (children_by_node t) id r Hpr) as (r' & Hr' & Hs); [by eexists _, _|done|].
  exists r'. split; [|done]. apply get_Some. unfold tree_insert. cbn [records]. apply lookup_app_l_Some. by apply get_Some in Hr'.
Qed.

Lemma increment_visits_keeps t n v t' id r : tree_wf t -> increment_visits n t = (Ok v, t') -> get t id = Some r ->
  exists r', get t' id = Some r' /\ same_but_counters r r'.
Proof.
  intros Hwf Hv Hr. assert (is_Some (get t n)) as [rn Hn].
  { unfold increment_visits in Hv. rewrite with_record_run in Hv. destruct (get t n); [eauto|done]. }
  destruct (increment_visits_cases _ _ _ Hwf Hn) as [[_ (t2 & Hv2 & _ & _ & Heq)]|[_ Hv2]]; rewrite Hv2 in Hv; [|done]. injection Hv as _ <-.
  rewrite Heq. eapply get_replaced; [done| |done]. by eexists _, _.
Qed.

Lemma child_step_keeps parent score child rules s c s' id r : commit_wf s -> child_step parent score child rules s (Ok c) s' ->
  get (cs_tree s) id = Some r -> exists r', get (cs_tree s') id = Some r' /\ same_but_counters r r'.
Proof.
  intros Hwf Hstep Hr. pose proof (cwf_tree _ Hwf) as Htw. pose proof (same_counters_refl r) as Hrefl.
  inversion Hstep as [Hd|Hd|e Hd He|new t' t'' cells n Hd Hi Hm Hb|new t' t'' f' cells n Hd Hi Hm Hf Hb
    |t' cells n Hd Hb Ht|ex cells n Hd Hb Hs Hne Hv|]; subst; cbn [cs_tree set_tree]; eauto.
  - destruct (insert_child_keeps _ _ _ _ _ _ _ Htw Hi Hr) as (Hne & r' & Hr' & Hs). exists r'. split; [|done].
    change t'' with (Ok (E:=TreeError) tt, t'').2. rewrite <- Hm. unfold mark_pruned. by rewrite get_with_record_ne.
  - destruct (insert_child_keeps _ _ _ _ _ _ _ Htw Hi Hr) as (Hne & r' & Hr' & Hs). exists r'. split; [|done].
    destruct (sc_goal child); [|by subst]. change t'' with (Ok (E:=TreeError) tt, t'').2. rewrite <- Hm. unfold mark_goal. by rewrite get_with_record_ne.
  - destruct (SeenMap_get _ _) as [ex|]; [|subst; eauto]. case_decide; [subst; eauto|]. destruct Ht as [v Hv]. by eapply increment_visits_keeps.
Qed.

Lemma commit_children_keeps parent score rules children goal s res s' id r : commit_wf s ->
  commit_children parent score rules children goal s = (Ok res, s') -> get (cs_tree s) id = Some r ->
  exists r', get (cs_tree s') id = Some r' /\ same_but_counters r r'.
Proof.
  revert goal s res r. induction children as [|child children IH]; intros goal s res r Hwf; cbn [commit_children].
  - intros [= _ <-] Hr. exists r. split; [done|]. apply same_counters_refl.
  - intros (c & s1 & Hc & ([rest g] & s2 & Hrest & [= _ <-])%st_bind_Ok)%st_bind_Ok Hr.
    pose proof (commit_child_step _ _ _ _ _ _ _ Hwf Hc) as Hstep. destruct (child_step_keeps _ _ _ _ _ _ _ _ _ Hwf Hstep Hr) as (r1 & Hr1 & H1).
    destruct (IH _ _ _ r1 ltac:(by eapply child_step_wf) Hrest Hr1) as (r2 & Hr2 & H2). exists r2. split; [done|]. by eapply same_counters_trans.
Qed.

(** A child's cell is the only one it counts. *)
Lemma child_step_other_cells parent score child rules s c s' k : commit_wf s -> child_step parent score child rules s (Ok c) s' ->
  k <> np_cell (sc_payload child) -> count (cs_cell_mirror s') k = count (cs_cell_mirror s) k.
Proof.
  intros Hwf Hstep Hk. inversion Hstep; subst; cbn [cs_cell_mirror set_tree set_cell_mirror]; try done;
    match goal with Hb : bump _ _ = _ |- _ => rewrite (bump_count _ _ _ _ k (cwf_mirror _ Hwf) Hb), decide_False by done; lia end.
Qed.

(** The child is an ordinary one that the rules do not take for a regression:
    its score is near the parent's, or its cell is new. *)
Record plain_child (score : f64) (rules : CommitRules) (m : CellMirror) (before : list ScoredChild) (child : ScoredChild) : Prop := {
  pn_prune : sc_prune child = false;
  pn_duplicate : sc_duplicate child = false;
  pn_goal : sc_goal child = false;
  pn_kept : worse_than_parent score child rules = false \/
    count m (np_cell (sc_payload child)) = 0%N /\ forall c, c ∈ before -> np_cell (sc_payload c) <> np_cell (sc_payload child)
}.

Lemma plain_child_kept parent score child rules s c s' : commit_wf s -> plain_child score rules (cs_cell_mirror s) [] child ->
  child_step parent score child rules s (Ok c) s' ->
  exists depth, get (cs_tree s') (next_id (cs_tree s)) = Some (NodeRecord_child (next_id (cs_tree s)) parent depth (sc_payload child)).
Proof.
  intros Hwf [Hp Hd Hg Hk] Hstep. assert (rule_disposition score child rules s = Keep) as Hr.
  { unfold rule_disposition. rewrite Hp, Hd. destruct Hk as [-> |[Hk _]]; [done|]. unfold known_cell. rewrite Hk. by rewrite andb_false_r. }
  inversion Hstep as [H|H|e H He|new t' t'' cells n H Hi Hm Hb|new t' t'' f' cells n H Hi Hm Hf Hb
    |t' cells n H Hb Ht|ex cells n H Hb Hs Hne Hv|]; subst; try (exfalso; congruence).
  destruct (insert_child_Ok _ _ _ _ _ (cwf_tree _ Hwf) Hi) as (-> & _ & _ & pr & _ & Hget). rewrite Hg in Hm. subst t''. by eexists.
Qed.

Lemma commit_children_kept parent score rules children goal s res s' i child : commit_wf s -> children !! i = Some child ->
  plain_child score rules (cs_cell_mirror s) (take i children) child -> commit_children parent score rules children goal s = (Ok res, s') ->
  exists id depth r, (len (cs_tree s) <= N.to_nat id)%nat /\ get (cs_tree s') id = Some r /\ same_but_counters (NodeRecord_child id parent depth (sc_payload child)) r.
Proof.
  revert goal s res i. induction children as [|c0 children IH]; intros goal s res i Hwf Hi Hp; [done|]. cbn [commit_children].
  intros (c & s1 & Hc & ([rest g] & s2 & Hrest & [= _ <-])%st_bind_Ok)%st_bind_Ok.
  pose proof (commit_child_step _ _ _ _ _ _ _ Hwf Hc) as Hstep. assert (commit_wf s1) as Hwf1 by (by eapply child_step_wf). destruct i as [|i].
  - injection Hi as ->. destruct (plain_child_kept _ _ _ _ _ _ _ Hwf Hp Hstep) as [depth Hget].
    destruct (commit_children_keeps _ _ _ _ _ _ _ _ _ _ Hwf1 Hrest Hget) as (r & Hr & Hs). exists (next_id (cs_tree s)), depth, r.
    split; [unfold next_id, len; lia|done].
  - assert (plain_child score rules (cs_cell_mirror s1) (take i children) child) as Hp1.
    { destruct Hp as [H1 H2 H3 H4]. split; [done..|]. destruct H4 as [?|[Hk Hb]]; [by left|right]. split.
      - rewrite <- Hk. eapply child_step_other_cells; [done|done|]. apply not_eq_sym, Hb. by left.
      - intros c' Hc'. apply Hb. by right. }
    destruct (IH _ s1 _ i Hwf1 Hi Hp1 Hrest) as (id & depth & r & Hlen & Hr & Hs).
    exists id, depth, r. split; [|done]. destruct (child_step_account _ _ _ _ _ _ _ Hwf Hstep) as (_ & _ & Hl). lia.
Qed.

(** The end of a batch touches the parent only. *)
Lemma evict_others parent (reason : option FrontierEvictReason) s (r : res CommitError (option FrontierEvictReason)) s' id : id <> parent ->
  (_ ← match reason with
       | Some _ =>
         _ ← on_tree (mark_exhausted parent);
         present ← gets (fun s => Frontier_contains (cs_frontier s) parent);
         (if (present : bool) then on_frontier (Frontier_remove parent) else mret tt)
       | None => mret tt
       end; mret reason) s = (r, s') -> get (cs_tree s') id = get (cs_tree s) id.
Proof.
  intros Hne. rewrite st_bind_run. destruct reason as [why|]; [|by intros [= _ <-]]. rewrite on_tree_bind.
  assert (get (mark_exhausted parent (cs_tree s)).2 id = get (cs_tree s) id) as Hm by (unfold mark_exhausted; by apply get_with_record_ne, not_eq_sym).
  destruct (mark_exhausted parent (cs_tree s)) as [[[]|e|] t']; cbn [snd] in Hm; [|by intros [= _ <-]..].
  rewrite gets_bind. destruct (Frontier_contains _ _); [|by intros [= _ <-]].
  unfold on_frontier, zoom. destruct (Frontier_remove _ _) as [[[]|e|] f']; by intros [= _ <-].
Qed.

Lemma parent_exhaustion_others parent visits dup rules s r s' id : id <> parent ->
  update_parent_exhaustion parent visits dup rules s = (r, s') -> get (cs_tree s') id = get (cs_tree s) id.
Proof.
  intros Hne. unfold update_parent_exhaustion. rewrite modify_bind, gets_bind. destruct (ensure_tracking_parts parent s) as (<- & _).
  set (s0 := ensure_tracking parent s). clearbody s0. rewrite st_bind_run. unfold lift_res.
  destruct (expect (_ !! _)) as [current| |]; [|by intros [= _ <-]..]. rewrite st_bind_run.
  destruct dup; [destruct (expect _) as [streak| |]; [|by intros [= _ <-]..]|cbn [mret st_ret]]; rewrite modify_bind; by intros H%(fun H => evict_others _ _ _ _ _ id Hne H).
Qed.

(** What the commit of a batch makes of a plain child: a node that nobody has
    visited beyond its counters, open in the frontier. *)
Lemma commit_batch_kept parent children rules s outcome s' pr i child : commit_wf s -> get (cs_tree s) parent = Some pr -> children !! i = Some child ->
  plain_child (finite_get (nr_score pr)) rules (cs_cell_mirror s) (take i children) child -> commit_batch parent children rules s = (Ok outcome, s') ->
  exists id r, (len (cs_tree s) <= N.to_nat id)%nat /\ get (cs_tree s') id = Some r /\ nr_parent r = Some parent /\ NodeRecord_payload r = sc_payload child /\
    id ∈ members (cs_frontier s') /\ is_candidate (cs_tree s') id.
Proof.
  intros Hwf Hpr Hi Hp Hrun. assert (commit_wf s') as Hwf'.
  { pose proof (commit_batch_result _ _ _ _ _ _ Hwf Hrun) as Hres. by inversion Hres. }
  assert (validate_rules rules = Ok tt) as Hv.
  { unfold commit_batch in Hrun. rewrite st_bind_run in Hrun. unfold lift_res in Hrun at 1. by destruct (validate_rules rules) as [[]| |]. }
  rewrite (commit_batch_run _ _ _ _ pr Hv Hpr) in Hrun. apply st_bind_Ok in Hrun as ([commits g] & s1 & Hc & Hrun).
  assert (commit_wf s1) as Hwf1 by (eapply commit_children_wf; [exact Hwf|exact Hc|done]).
  destruct (commit_children_kept _ _ _ _ _ _ _ _ _ _ Hwf Hi Hp Hc) as (id & depth & r & Hlen & Hr & Hs).
  assert (id <> parent) as Hne by (apply get_Some, lookup_lt_Some in Hpr; unfold len in Hlen; intros ->; lia).
  apply st_bind_Ok in Hrun as (visits & s2 & Hv2 & (evicted & s3 & He & [= _ ->])%st_bind_Ok).
  unfold on_tree, zoom in Hv2. destruct (increment_visits parent (cs_tree s1)) as [[v|e|] t2] eqn:Ev; [|done..]. injection Hv2 as _ <-.
  destruct (increment_visits_keeps _ _ _ _ _ _ (cwf_tree _ Hwf1) Ev Hr) as (r2 & Hr2 & Hs2).
  assert (get (cs_tree s') id = Some r2) as Hr3 by (by rewrite (parent_exhaustion_others _ _ _ _ _ _ _ _ Hne He)).
  destruct (same_counters_trans _ _ _ Hs Hs2) as (vis & kids & ->). exists id. eexists. split; [done|]. split; [exact Hr3|].
  split; [done|]. split; [by destruct (sc_payload child)|]. split.
  - apply (cwf_members _ Hwf'). exists (np_state_hash (sc_payload child)). apply views_lookup. eexists. split; [by apply get_Some|done].
  - eexists. split; [exact Hr3|done].
Qed.

(** ** Children of scored states *)

Section Stage.
Context {W CP : Type} `{MS : MetadataStore W, RT : Runtime W, SA : ScorerArchive W, CR : CrashPolicy CP}.
Context `{PC : Postcard CheckpointV1, PI : Postcard ExpansionIntent, PA : Postcard OrchNodeAttrsV1}.
Context `{NS : NodeStore W, SC : Scorer W, SY : InputSynth W, BP : BatchPipeline W}.
Context `{SB : SortByStart, HD : F64Display, HB : Blake3, HC : ChaCha12, ENC : ScorerEncoding}.

Lemma build_children_lookup m scored : forall hashes children i job result, build_children m hashes scored = Ok children -> scored !! i = Some (job, result) ->
  exists novelty, children !! i = Some (mkScoredChild (payload_of job.2 result novelty)
    (sr_duplicate result || bool_decide (sr_state_hash result ∈ hashes ∪ list_to_set ((fun jr => sr_state_hash jr.2) <$> take i scored))) (prunes job result) (sr_goal_hit result)).
Proof.
  induction scored as [|[job0 result0] scored IH]; intros hashes children i job result; [done|]. cbn [build_children].
  intros (novelty & _ & (rest & Hrest & [= <-])%bind_Ok)%bind_Ok. destruct i as [|i]; cbn.
  - intros [= -> ->]. exists novelty. by rewrite union_empty_r_L.
  - intros Hi. destruct (IH _ _ _ _ _ Hrest Hi) as (nov & Hn). exists nov. etransitivity; [exact Hn|]. do 3 f_equal. apply bool_decide_ext. set_solver.
Qed.

Lemma build_children_cells m scored : forall hashes children i, build_children m hashes scored = Ok children ->
  (fun c => np_cell (sc_payload c)) <$> take i children = (fun jr => nd_cell_key (sr_novelty_detail jr.2)) <$> take i scored.
Proof.
  induction scored as [|[job result] scored IH]; intros hashes children i; cbn [build_children]; [intros [= <-]; by rewrite !take_nil|].
  intros (novelty & _ & (rest & Hrest & [= <-])%bind_Ok)%bind_Ok. destruct i as [|i]; [done|]. cbn. f_equal. by eapply IH.
Qed.

(** The double answers with no state to commit exactly when it has an error. *)
Lemma unscored_result {E : Type} world input frame seen counts decoded result :
  score_state_input (E := E) world input frame seen counts decoded = Ok (result, None) -> exists error, result = error_result (si_node_ref input) error.
Proof.
  unfold score_state_input. destruct (validate_framebuffer _ _ _) as [e|]; [intros [= <-]; by exists e|].
  destruct (decode_grid_features _) as [state|e|]; [|intros [= <-]; by exists e|done]. by intros (? & _ & [=])%bind_Ok.
Qed.

(** The commit stage as the commit of a batch: what it leaves is the commit
    rules' state, with the cells forgotten when the map was re-binned. *)
Lemma commit_completed_batch batch intent (x x1 x' : Stage W CP) scored goal : score_stage batch intent x = (Ok scored, x1) ->
  commit_completed batch intent x = (Ok goal, x') ->
  exists children outcome cs', build_children (cs_cell_mirror (commit_of x)) ∅ scored = Ok children /\
    commit_batch (br_parent batch) children (from_config (config_of x)) (commit_of x) = (Ok outcome, cs') /\
    cs_tree (commit_of x') = cs_tree cs' /\ cs_frontier (commit_of x') = cs_frontier cs'.
Proof.
  intros Hscore. unfold commit_completed. rewrite st_bind_run, Hscore, st_bind_run. cbn [get_st]. rewrite st_bind_run. unfold lift_res.
  assert (commit_of x1 = commit_of x) as Hc1 by (pose proof (commit_of_score batch intent x) as H; by rewrite Hscore in H).
  assert (config_of x1 = config_of x) as Hf1.
  { pose proof (budget_score_stage batch intent x) as H. rewrite Hscore in H. unfold budget_view in H. cbn [snd] in H. by injection H. }
  rewrite Hc1, Hf1. destruct (build_children _ _ _) as [children|e|]; [|done..]. rewrite st_bind_run.
  destruct (own_commit x1) as [[[]|e|] x2] eqn:Eo; [|done..]. destruct (scored_and_owned _ _ _ _ _ _ _ Hscore Eo) as (Hc2 & _).
  rewrite st_bind_run. unfold on_commit, zoom. rewrite Hc2. destruct (commit_batch _ _ _ (commit_of x)) as [[outcome|e|] cs'] eqn:Eb; cbn [map_err]; [|done..].
  rewrite st_bind_run. match goal with |- context [write_rows ?ts ?p ?len ?i ?rows ?t ?y] =>
    pose proof (commit_of_search _ (search_write_rows ts p len i rows t) y) as Hw; destruct (write_rows ts p len i rows t y) as [[t'|e|] x3] end; [|done..].
  intros [_ Hreb]%finish_spec. exists children, outcome, cs'. split; [done|]. split; [done|]. cbn [snd] in Hw.
  change (commit_of (set_commit cs' x2)) with cs' in Hw. by destruct Hreb as [-> | ->]; rewrite Hw.
Qed.

(** C28. A state that could not be scored is committed as an open node: when the
    scorer double answers an item of a batch with an error and the guest did
    not hang, and no sibling before it has the zero hash, a successful commit
    leaves a new node of its snapshot in the tree, a child of the expanded node
    with zero hash, zero score and cell 0, that is in the frontier and may be
    selected - unless the commit rules take the zero score for a regression
    (more than epsilon below the parent's, in a cell that is known). *)
Theorem item_errors_committed (batch : BatchResult) (intent : ExpansionIntent) (x x1 x' : Stage W CP) (scored : list (scorable_job * ScoreResult))
    (goal : option NodeId) (i : nat) (job : scorable_job) (result : ScoreResult) (pr : NodeRecord) (world : GridWorld) (input : StateInput)
    (frame : option FrameSpec) (seen : gset StateHash) (counts : gmap CellKey N) (return_decoded : bool) :
  score_state_input world input frame seen counts return_decoded = Ok (E := ClientError) (result, None) ->
  score_stage batch intent x = (Ok scored, x1) -> scored !! i = Some (job, result) -> jr_verdict job.1 <> GuestHang ->
  (forall jr, jr ∈ take i scored -> sr_state_hash jr.2 <> replicate 32 0%N) ->
  commit_wf (commit_of x) -> get (cs_tree (commit_of x)) (br_parent batch) = Some pr ->
  f64_ltb (f64_add f64_zero (epsilon_keep (from_config (config_of x)))) (finite_get (nr_score pr)) = false \/
    (count (cs_cell_mirror (commit_of x)) 0 = 0%N /\ forall jr, jr ∈ take i scored -> nd_cell_key (sr_novelty_detail jr.2) <> 0%N) ->
  commit_completed batch intent x = (Ok goal, x') ->
  is_Some (sr_error result) /\ exists id r, (len (cs_tree (commit_of x)) <= N.to_nat id)%nat /\ get (cs_tree (commit_of x')) id = Some r /\
    nr_parent r = Some (br_parent batch) /\ nr_snapshot r = cc_snapshot job.2 /\
    nr_state_hash r = replicate 32 0%N /\ finite_get (nr_score r) = f64_zero /\ nr_cell r = 0%N /\
    id ∈ members (cs_frontier (commit_of x')) /\ is_candidate (cs_tree (commit_of x')) id.
Proof.
  intros [error ->]%unscored_result Hscore Hi Hv Hfirst Hwf Hpr Hk Hrun. split; [by eexists|].
  destruct (commit_completed_batch _ _ _ _ _ _ _ Hscore Hrun) as (children & outcome & cs' & Hb & Hc & -> & ->).
  destruct (build_children_lookup _ _ _ _ _ _ _ Hb Hi) as (novelty & Hch).
  match type of Hch with _ = Some ?c =>
    assert (plain_child (finite_get (nr_score pr)) (from_config (config_of x)) (cs_cell_mirror (commit_of x)) (take i children) c) as Hp end.
  { split; [unfold prunes; cbn; by rewrite bool_decide_false| |done|].
    + cbn. apply bool_decide_false. rewrite elem_of_union, elem_of_list_to_set. intros [?%elem_of_empty|(jr & E & Hjr)%list_elem_of_fmap]; [done|]. by eapply Hfirst.
    + destruct Hk as [Hk|[Hk Hcells]]; [by left|right]. split; [done|]. intros c Hin Hcell.
      assert (0%N ∈ (fun c => np_cell (sc_payload c)) <$> take i children) as Hz by (apply list_elem_of_fmap; by exists c).
      rewrite (build_children_cells _ _ _ _ i Hb) in Hz. apply list_elem_of_fmap in Hz as (jr & E & Hjr). by eapply Hcells. }
  destruct (commit_batch_kept _ _ _ _ _ _ _ _ _ Hwf Hpr Hch Hp Hc) as (id & r & Hlen & Hr & Hparent & Hpay & Hmem & Hcand).
  exists id, r. apply (f_equal (fun p => (np_snapshot p, np_score p, np_cell p, np_state_hash p))) in Hpay. cbn in Hpay.
  injection Hpay as H1 H2 H3 H4. by rewrite H1, H2, H3, H4.
Qed.
End Stage.

(** ** The sample experiment *)

#[local] Existing Instance lab_metadata.
#[local] Existing Instance lab_runtime.
#[local] Existing Instance lab_archive.
#[local] Existing Instance crash_at.
#[local] Existing Instance lab_checkpoint_codec.
#[local] Existing Instance lab_intent_codec.
#[local] Existing Instance lab_nodes.
#[local] Existing Instance lab_synth.
#[local] Existing Instance lab_pipeline.
#[local] Existing Instance sample_sort.
#[local] Existing Instance toy_display.
#[local] Existing Instance toy_blake3.
#[local] Existing Instance toy_chacha.
#[local] Existing Instance toy_scorer_encoding.

#[local] Instance blind_attrs_codec : Postcard OrchNodeAttrsV1 := table_codec [OrchNodeAttrsV1_new [1%N] sample_class
  (mkSynthContextAttrs (Some (lab_burst 0)) (Some [9%N]) [] 1 (replicate 32 0%N) 0 0 zero zero None)].

(** The sample world with the scoring of the double. *)
Definition grid_result (state : StateInput) : res ClientError ScoreResult :=
  '(result, _) ← score_state_input three_room state None ∅ ∅ false; Ok result.
#[local] Instance grid_scorer : Scorer Lab := {|
  load_feature_map _ := unsupported;
  load_scoring_program _ := unsupported;
  score_batch request := results ← lift_res (mapM_res grid_result (sq_states request)); mret (mkScoreBatchResponse (sq_client_batch_id request) 0 results);
  restore_archive _ := mret (mkRestoreArchiveResponse 0 0 0 0 [] []);
  replay_commits request := mret (mkReplayCommitsResponse (N.of_nat (length (rc_states request))) 0)
|}.

(** A state of one byte, which is no state of the grid, committed after a
    re-bin, when no cell is known. *)
Definition blind_batch : BatchResult := mkBatchResult 1 1 [lab_capture 0 (lab_burst 0) [9%N]].
Definition blind_stage : Stage Lab CrashPoint :=
  set_commit (set_cell_mirror (reset_for_rebin (cs_cell_mirror (commit_of (lab_stage 1)))) (commit_of (lab_stage 1))) (lab_stage 1).
Definition blind_job : scorable_job :=
  let capture := mkChildCapture [9%N] None [9%N] [1%N] sample_class 100 0 1 (Some [9%N]) None None in
  (mkJobResult 0 VerdictOk (lab_burst 0) (Some capture) [], capture).
Definition blind_input : StateInput := state_input (ei_client_batch_id (lab_intent 1)) blind_job.

Lemma forgotten_cells_wf s : commit_wf s -> commit_wf (set_cell_mirror (mkCellMirror ∅) s).
Proof. intros [H1 H2 H3 H4 H5 H6 H7 H8]. split; try done. Qed.
Lemma blind_stage_wf : commit_wf (commit_of blind_stage).
Proof. exact (forgotten_cells_wf _ (commit_reachable_inv _ after_batch_reachable)). Qed.

Lemma item_errors_committed_witness :
  is_Ok (commit_completed blind_batch (lab_intent 1) blind_stage).1 = true /\
  exists id r, get (cs_tree (commit_of (commit_completed blind_batch (lab_intent 1) blind_stage).2)) id = Some r /\
    nr_state_hash r = replicate 32 0%N /\ is_candidate (cs_tree (commit_of (commit_completed blind_batch (lab_intent 1) blind_stage).2)) id.
Proof.
  destruct (grid_result blind_input) as [result|e|] eqn:Er; [|apply (f_equal is_Ok) in Er; by vm_compute in Er..].
  destruct (commit_completed blind_batch (lab_intent 1) blind_stage) as [[goal|e|] x'] eqn:Ec;
    [|apply (f_equal (fun p => is_Ok p.1)) in Ec; by vm_compute in Ec..].
  destruct (score_stage blind_batch (lab_intent 1) blind_stage) as [scored x1] eqn:Es.
  assert (scored = Ok [(blind_job, result)]) as -> by (transitivity (score_stage blind_batch (lab_intent 1) blind_stage).1; [by rewrite Es|];
    assert (Ok (E := ClientError) result = grid_result blind_input) as Hr by done; vm_compute in Hr; injection Hr as ->; vm_compute; reflexivity).
  destruct (get (cs_tree (commit_of blind_stage)) (br_parent blind_batch)) as [pr|] eqn:Ep; [|by vm_compute in Ep].
  destruct (item_errors_committed blind_batch (lab_intent 1) blind_stage x1 x' [(blind_job, result)] goal 0 blind_job result pr three_room blind_input None ∅ ∅ false)
    as (_ & id & r & _ & Hr & _ & _ & Hh & _ & _ & _ & Hc); [| |reflexivity|discriminate| |exact blind_stage_wf|exact Ep| |exact Ec|].
  - unfold grid_result in Er. apply bind_Ok in Er as ([result' inserted] & E & [= <-]). rewrite E. do 2 f_equal.
    apply (f_equal (fun r => match r with Ok (_, inserted) => inserted | _ => None end)) in E. rewrite <- E. vm_compute. reflexivity.
  - exact Es.
  - intros jr []%elem_of_nil.
  - right. split; [vm_compute; reflexivity|]. intros jr []%elem_of_nil.
  - split; [reflexivity|]. exists id, r. split; [exact Hr|]. split; [exact Hh|exact Hc].
Defined.
