(* ===== verification/FakeSynth.v ===== *)
(** The synthesizer double (crates/orch-fakes/src/synth.rs): it keeps macro
    packs and experiment configurations, read from YAML-like text by a line
    scanner, and proposes bursts from the random stream of the request. *)
From stdpp Require Import pretty.
From S2P Require Import Prelude Float64 Types Client Rng Fault SynthTypes StoreTypes SynthDriver SynthConfig.
Local Open Scope string_scope.
Local Open Scope list_scope.

Definition FAKE_SYNTH_VERSION : string := "fake-synth/0.1".
Definition MAX_PROPOSE_BURSTS : N := 256.
Definition BUTTON_ALPHABET : string := "console16-12btn-v1".
Definition BUTTON_MASKS : list N := [0; 1; 2; 8; 3; 64; 256; 512]%N.

(** ** State *)

Record FakeMacro := mkFakeMacro { fm_name : string; fm_weight : f64 }.
Record FakeMacroPack := mkFakeMacroPack { fk_pack_id : string; fk_macros : list FakeMacro }.
Record GeneratorMix := mkGeneratorMix {
  gm_weighted_random : f64;
  gm_macro_weight : f64;
  gm_mutation : f64;
  gm_policy : f64
}.
Definition GeneratorMix_default : GeneratorMix := mkGeneratorMix f64_one f64_zero f64_zero f64_zero.
Record FakeExperimentConfig := mkFakeExperimentConfig {
  fx_experiment_id : string;
  fx_model : ModelKind;
  fx_button_alphabet : string;
  fx_mix : GeneratorMix
}.
Record FakeSynth := mkFakeSynth {
  fy_synth_version : string;
  fy_loaded_packs : gmap string FakeMacroPack;
  fy_loaded_experiments : gmap string FakeExperimentConfig;
  fy_fault_injector : FaultInjector;
  fy_last_fault : option FaultDecision
}.
Definition synth_with_fault_plan (plan : FaultPlan) : FakeSynth := mkFakeSynth FAKE_SYNTH_VERSION ∅ ∅ (injector_new plan) None.

Definition insert_pack (pack : FakeMacroPack) (s : FakeSynth) : FakeSynth :=
  mkFakeSynth (fy_synth_version s) (<[fk_pack_id pack := pack]> (fy_loaded_packs s)) (fy_loaded_experiments s) (fy_fault_injector s) (fy_last_fault s).
Definition insert_experiment (config : FakeExperimentConfig) (s : FakeSynth) : FakeSynth :=
  mkFakeSynth (fy_synth_version s) (fy_loaded_packs s) (<[fx_experiment_id config := config]> (fy_loaded_experiments s)) (fy_fault_injector s) (fy_last_fault s).
Definition set_synth_injector (i : FaultInjector) (d : option FaultDecision) (s : FakeSynth) : FakeSynth :=
  mkFakeSynth (fy_synth_version s) (fy_loaded_packs s) (fy_loaded_experiments s) i d.

(** The entries of a [BTreeMap] in the order of their keys. *)
Definition key_le {A : Type} (a b : string * A) : Prop := string_le a.1 b.1.
Global Instance key_le_dec {A : Type} (a b : string * A) : Decision (key_le a b).
Proof. unfold key_le. apply _. Defined.
Definition in_order {A : Type} (m : gmap string A) : list (string * A) := merge_sort key_le (map_to_list m).
Definition loaded_pack_ids (s : FakeSynth) : list string := (in_order (fy_loaded_packs s)).*1.
Definition loaded_experiment_ids (s : FakeSynth) : list string := (in_order (fy_loaded_experiments s)).*1.

(** [postcard::to_allocvec] of a burst body. *)
Class SynthEncoding := { enc_body : BurstBody -> list N }.

(** ** [str::parse::<f64>] *)

Definition is_digit (b : N) : bool := between 48 57 b.
Fixpoint take_digits (t : text) : text * text :=
  match t with
  | b :: rest => if is_digit b then let '(ds, rest) := take_digits rest in (b :: ds, rest) else ([], t)
  | [] => ([], [])
  end.
Definition digits_value (ds : text) : N := foldl (fun v d => 10 * v + (d - 48))%N 0%N ds.

Definition split_sign (t : text) : bool * text :=
  match t with
  | b :: rest => if (b =? 45)%N then (true, rest) else if (b =? 43)%N then (false, rest) else (false, t)
  | [] => (false, [])
  end.
Definition parse_exponent (t : text) : option Z :=
  match t with
  | [] => Some 0%Z
  | b :: rest =>
    if (b =? 101)%N || (b =? 69)%N then
      let '(negative, rest) := split_sign rest in
      match take_digits rest with
      | (d :: ds, []) => Some ((if negative then Z.opp else id) (Z.of_N (digits_value (d :: ds))))
      | _ => None
      end
    else None
  end.
(** Mantissa and decimal exponent. *)
Definition parse_number (t : text) : option (N * Z) :=
  let '(integer, rest) := take_digits t in
  let '(fraction, rest) := match rest with
                           | b :: after => if (b =? 46)%N then take_digits after else ([], rest)
                           | [] => ([], rest)
                           end in
  if decide (integer ++ fraction = []) then None
  else exponent ← parse_exponent rest; Some (digits_value (integer ++ fraction), exponent - Z.of_nat (length fraction))%Z.

(** The float nearest to [m * 10 ^ e], ties to even. *)
Definition f64_of_decimal (negative : bool) (m : N) (e : Z) : f64 :=
  match m with
  | N0 => S754_zero negative
  | Npos p =>
    if (0 <=? e)%Z then binary_normalize 53 1024 (cond_Zopp negative (Zpos p * 10 ^ e)) 0 negative
    else let '(mz, ez, lz) := SFdiv_core_binary 53 1024 (Zpos p) 0 (10 ^ (- e)) 0 in binary_round_aux 53 1024 negative mz ez lz
  end.

Definition ascii_lower (b : N) : N := if between 65 90 b then (b + 32)%N else b.
Definition parse_f64 (t : text) : option f64 :=
  let '(negative, rest) := split_sign t in
  match parse_number rest with
  | Some (m, e) => Some (f64_of_decimal negative m e)
  | None =>
    let name := ascii_lower <$> rest in
    if decide (name = chars "inf") then Some (S754_infinity negative)
    else if decide (name = chars "infinity") then Some (S754_infinity negative)
    else if decide (name = chars "nan") then Some S754_nan
    else None
  end.

Example parses_decimals :
  (parse_f64 <$> [chars "0.1"; chars "-2.5e1"; chars "1."; chars ".5"; chars "+Inf"; chars "."; chars "1e"; chars ""; chars "1e400"])
  = [Some (f64_div f64_one (f64_of_N 10)); Some (SFopp (f64_of_N 25)); Some f64_one; Some (f64_div f64_one (f64_of_N 2));
     Some f64_infinity; None; None; None; Some f64_infinity].
Proof. vm_compute. reflexivity. Qed.

(** ** The line scanner *)

Definition trim_start_matches (c : N) (t : text) : text :=
  strip_while (fun r => match r with b :: rest => if (b =? c)%N then Some rest else None | [] => None end) (length t) t.
Definition trim_matches (c : N) (t : text) : text := trim_end_matches c (trim_start_matches c t).
Definition clean_scalar (value : text) : text := trim_matches 39 (trim_matches 34 (trim_matches 44 (trim value))).

Definition parse_scalar (t : text) (key : string) : option text :=
  head (omap (fun line => clean_scalar <$> strip_prefix (chars (key +:+ ":")) (trim line)) (lines t)).
Definition parse_model (t : text) : option ModelKind :=
  (fun value => if decide (value = chars "event_grammar") then ModelEventGrammar else ModelPad) <$> parse_scalar t "model".
Definition parse_macro_names (t : text) : list text :=
  filter (fun name => name ∉ [chars "macro_pack"; chars "pad"; chars "event_grammar"])
    (omap (fun line => clean_scalar <$> strip_prefix (chars "- name:") (trim line)) (lines t)).
Definition has_generator_mix_key (t : text) : bool := existsb (fun line => starts_with (chars "generator_mix:") (trim line)) (lines t).

Definition invalid (message : string) : ClientError := mkClientError InvalidRequest message.
Definition parse_key_value_number (t : text) : res ClientError (text * f64) :=
  match find [58%N] t with
  | None => Err (invalid ("malformed generator_mix entry '" +:+ string_of_bytes t +:+ "'"))
  | Some i =>
    let key := clean_scalar (take i t) in
    let value := clean_scalar (drop (S i) t) in
    if decide (key = []) then Err (invalid "empty generator_mix key")
    else
      value ← ok_or (parse_f64 value) (invalid ("invalid generator_mix value for '" +:+ string_of_bytes key +:+ "'"));
      if is_finite value then Ok (key, value)
      else Err (invalid ("non-finite generator_mix value for '" +:+ string_of_bytes key +:+ "'"))
  end.

Fixpoint mix_block_lines (in_mix : bool) (ls : list text) : res ClientError (list (text * f64)) :=
  match ls with
  | [] => Ok []
  | line :: rest =>
    let trimmed := trim line in
    if decide (trimmed = []) then mix_block_lines in_mix rest
    else if starts_with (chars "#") trimmed then mix_block_lines in_mix rest
    else match strip_prefix (chars "generator_mix:") trimmed with
         | Some value =>
           let value := trim value in
           if negb (bool_decide (value = [])) && negb (starts_with (chars "{") value) then Err (invalid "malformed generator_mix override")
           else mix_block_lines (bool_decide (value = [])) rest
         | None =>
           if negb in_mix then mix_block_lines in_mix rest
           else if negb (starts_with [32%N] line) && negb (starts_with [9%N] line) then Ok []
           else entry ← parse_key_value_number trimmed; entries ← mix_block_lines in_mix rest; Ok (entry :: entries)
         end
  end.
Definition parse_generator_mix_block (t : text) : res ClientError (list (text * f64)) := mix_block_lines false (lines t).

Fixpoint mix_inline_lines (ls : list text) : res ClientError (list (text * f64)) :=
  match ls with
  | [] => Ok []
  | line :: rest =>
    match strip_prefix (chars "generator_mix:") (trim line) with
    | None => mix_inline_lines rest
    | Some value =>
      match strip_prefix (chars "{") (trim value) with
      | None => Ok []
      | Some inner =>
        match find (chars "}") inner with
        | None => Err (invalid "malformed inline generator_mix override")
        | Some close =>
          mapM_res parse_key_value_number (filter (fun entry => entry <> []) (trim <$> split_on 44 (take close inner)))
        end
      end
    end
  end.
Definition parse_generator_mix_inline (t : text) : res ClientError (list (text * f64)) := mix_inline_lines (lines t).
Definition parse_generator_mix_entries (t : text) : res ClientError (list (text * f64)) :=
  entries ← parse_generator_mix_block t;
  inline ← parse_generator_mix_inline t;
  Ok (entries ++ inline).

(** ** The generator mix *)

Definition clamp_nonnegative (m : GeneratorMix) : GeneratorMix :=
  mkGeneratorMix (f64_max (gm_weighted_random m) f64_zero) (f64_max (gm_macro_weight m) f64_zero) (f64_max (gm_mutation m) f64_zero)
    (f64_max (gm_policy m) f64_zero).

Fixpoint apply_overrides (entries : list (text * f64)) (m : GeneratorMix) : res ClientError GeneratorMix :=
  match entries with
  | [] => Ok m
  | (key, value) :: rest =>
    if decide (key = chars "weighted_random") then apply_overrides rest (mkGeneratorMix value (gm_macro_weight m) (gm_mutation m) (gm_policy m))
    else if decide (key = chars "macro") then apply_overrides rest (mkGeneratorMix (gm_weighted_random m) value (gm_mutation m) (gm_policy m))
    else if decide (key = chars "mutation") then apply_overrides rest (mkGeneratorMix (gm_weighted_random m) (gm_macro_weight m) value (gm_policy m))
    else if decide (key = chars "policy") then apply_overrides rest (mkGeneratorMix (gm_weighted_random m) (gm_macro_weight m) (gm_mutation m) value)
    else Err (invalid ("unknown generator_mix key '" +:+ string_of_bytes key +:+ "'"))
  end.
Definition with_overrides (bytes : list N) (m : GeneratorMix) : res ClientError GeneratorMix :=
  if negb (utf8_valid bytes) then Err (invalid "config_overrides_yaml is not valid UTF-8")
  else
    let trimmed := trim bytes in
    if bool_decide (trimmed = []) || bool_decide (trimmed = chars "{}") then Ok (clamp_nonnegative m)
    else if negb (has_generator_mix_key bytes) then Err (invalid "config_overrides_yaml must contain a generator_mix override")
    else
      entries ← parse_generator_mix_entries bytes;
      clamp_nonnegative <$> apply_overrides entries m.
Definition with_config_document (bytes : list N) (m : GeneratorMix) : res ClientError GeneratorMix :=
  if negb (utf8_valid bytes) then Err (invalid "experiment config document is not valid UTF-8")
  else if negb (has_generator_mix_key bytes) then Ok (clamp_nonnegative m)
  else with_overrides bytes m.

Definition mix_total (m : GeneratorMix) : f64 :=
  f64_add (f64_add (f64_add (gm_weighted_random m) (gm_macro_weight m)) (gm_mutation m)) (gm_policy m).
Definition mix_entries (m : GeneratorMix) : list (GeneratorKind * f64) :=
  [(GenWeightedRandom, gm_weighted_random m); (GenMacro, gm_macro_weight m); (GenMutation, gm_mutation m); (GenPolicy, gm_policy m)].
Fixpoint pick_generator (entries : list (GeneratorKind * f64)) (cursor : f64) : GeneratorKind :=
  match entries with
  | [] => GenWeightedRandom
  | (generator, weight) :: rest =>
    if f64_leb weight f64_zero then pick_generator rest cursor
    else if f64_ltb cursor weight then generator
    else pick_generator rest (f64_sub cursor weight)
  end.
Definition bits_bytes (x : f64) : list N := le_bytes 8 (Z.to_N (to_bits x)).
Definition mix_bytes (m : GeneratorMix) : list N :=
  bits_bytes (gm_weighted_random m) ++ bits_bytes (gm_macro_weight m) ++ bits_bytes (gm_mutation m) ++ bits_bytes (gm_policy m).

(** Weight of generators that are not available goes to the weighted-random
    one; what was moved is reported. *)
Definition effective_mix (s : FakeSynth) (requested : GeneratorMix) (request : ProposeBurstsRequest)
    : GeneratorMix * list DegradedGenerator * option GeneratorKind :=
  let only_fallback := f64_eqb (gm_weighted_random requested) f64_zero in
  let '(mix, degraded, from) :=
    if f64_gtb (gm_macro_weight requested) f64_zero && bool_decide (fy_loaded_packs s = ∅)
    then (mkGeneratorMix (f64_add (gm_weighted_random requested) (gm_macro_weight requested)) f64_zero (gm_mutation requested) (gm_policy requested),
          [mkDegradedGenerator GenMacro "no_macros_loaded"], if only_fallback then Some GenMacro else None)
    else (requested, [], None) in
  let '(mix, degraded, from) :=
    if f64_gtb (gm_mutation mix) f64_zero && negb (is_some (nc_parent_burst (pq_node_context request)))
       && (match nc_sibling_bursts (pq_node_context request) with [] => true | _ => false end)
    then (mkGeneratorMix (f64_add (gm_weighted_random mix) (gm_mutation mix)) (gm_macro_weight mix) f64_zero (gm_policy mix),
          degraded ++ [mkDegradedGenerator GenMutation "no_parent_burst"],
          if only_fallback && negb (is_some from) then Some GenMutation else from)
    else (mix, degraded, from) in
  let '(mix, degraded, from) :=
    if f64_gtb (gm_policy mix) f64_zero
    then (mkGeneratorMix (f64_add (gm_weighted_random mix) (gm_policy mix)) (gm_macro_weight mix) (gm_mutation mix) f64_zero,
          degraded ++ [mkDegradedGenerator GenPolicy "policy_endpoint_down"],
          if only_fallback && negb (is_some from) then Some GenPolicy else from)
    else (mix, degraded, from) in
  let mix := if f64_leb (mix_total mix) f64_zero
             then mkGeneratorMix f64_one (gm_macro_weight mix) (gm_mutation mix) (gm_policy mix) else mix in
  (mix, degraded, from).

(** ** Documents *)

Section Synth.
Context `{B3 : Blake3, CH : ChaCha12, ENC : SynthEncoding}.

Definition stable_hex_id (bytes : list N) : string := fingerprint_hex (take 8 (blake3 bytes)).
Definition stable_u64 (bytes domain : list N) : N := of_le_bytes (take 8 (blake3 (len_prefixed domain ++ len_prefixed bytes))).
Definition model_tag (m : ModelKind) : string := match m with ModelPad => "pad" | ModelEventGrammar => "event_grammar" end.
Definition generator_tag (g : GeneratorKind) : string :=
  match g with GenWeightedRandom => "weighted_random" | GenMacro => "macro" | GenMutation => "mutation" | GenPolicy => "policy" end.

Record LoadedDocument := mkLoadedDocument {
  ld_document_id : string;
  ld_bytes : list N;
  ld_warnings : list string
}.
(** [rsplit('/').next()] *)
Definition last_piece (c : N) (t : text) : text := default [] (last (split_on c t)).
Definition from_source (source : LoadMacroPackSource) (fallback_prefix : string) : LoadedDocument :=
  match source with
  | DocumentYaml bytes => mkLoadedDocument (fallback_prefix +:+ "-" +:+ stable_hex_id bytes) bytes []
  | ArtifactRef reference =>
    let piece := last_piece 47 (chars reference) in
    mkLoadedDocument (if decide (piece = []) then reference else string_of_bytes piece)
      (chars ("version: 1" +:+ newline +:+ "kind: " +:+ fallback_prefix +:+ newline +:+ "experiment_id: " +:+ reference +:+ newline
              +:+ "name: " +:+ reference +:+ newline))
      ["artifact_ref_loaded_as_synthetic_document"]
  end.
Definition document_text (d : LoadedDocument) : res ClientError text :=
  if utf8_valid (ld_bytes d) then Ok (ld_bytes d) else Err (invalid "macro/config document is not valid UTF-8").

Definition u32_cast (n : nat) : N := (N.of_nat n mod (u32_max + 1))%N.

Definition load_experiment_config (source : LoadMacroPackSource) : st FakeSynth ClientError LoadMacroPackResponse :=
  let document := from_source source "experiment-config" in
  t ← lift_res (document_text document);
  let experiment_id := from_option string_of_bytes (ld_document_id document) (parse_scalar t "experiment_id") in
  let model := default ModelPad (parse_model t) in
  mix ← lift_res (with_config_document t GeneratorMix_default);
  let alphabet := from_option string_of_bytes BUTTON_ALPHABET (parse_scalar t "button_alphabet") in
  _ ← modify (insert_experiment (mkFakeExperimentConfig experiment_id model alphabet mix));
  mret (mkLoadMacroPackResponse experiment_id 1 (ld_warnings document)).

Definition macros_of (t : text) : list FakeMacro :=
  match imap (fun index name => mkFakeMacro (string_of_bytes name) (f64_add f64_one (f64_of_N (N.of_nat index)))) (parse_macro_names t) with
  | [] => [mkFakeMacro "default-dash" f64_one]
  | macros => macros
  end.
Definition load_macro_pack_document (source : LoadMacroPackSource) : st FakeSynth ClientError LoadMacroPackResponse :=
  let document := from_source source "macro-pack" in
  t ← lift_res (document_text document);
  let pack_id := from_option string_of_bytes (ld_document_id document) (parse_scalar t "name") in
  let macros := macros_of t in
  _ ← modify (insert_pack (mkFakeMacroPack pack_id macros));
  mret (mkLoadMacroPackResponse pack_id (u32_cast (length macros)) (ld_warnings document)).

Definition fake_load_macro_pack (r : LoadMacroPackRequest) : st FakeSynth ClientError LoadMacroPackResponse :=
  match lmp_kind r with
  | DocExperimentConfig => load_experiment_config (lmp_source r)
  | DocMacroPack => load_macro_pack_document (lmp_source r)
  | DocEventGrammar => mret (mkLoadMacroPackResponse (ld_document_id (from_source (lmp_source r) "event-grammar")) 1 [])
  end.

Definition fake_health : st FakeSynth ClientError HealthResponse := fun s =>
  let status := if decide (fy_loaded_experiments s = ∅) then NotServing
                else if decide (fy_loaded_packs s = ∅) then Degraded else Serving in
  (Ok (mkHealthResponse status (fy_synth_version s) (loaded_pack_ids s) (loaded_experiment_ids s) false true false), s).

Definition pack_bytes (entry : string * FakeMacroPack) : list N :=
  len_prefixed (bytes_of_string entry.1) ++
  mjoin ((fun item => len_prefixed (bytes_of_string (fm_name item)) ++ bits_bytes (fm_weight item)) <$> fk_macros entry.2).
Definition fake_config_fingerprint (s : FakeSynth) (experiment : FakeExperimentConfig) (mix : GeneratorMix) : ConfigFingerprint :=
  blake3 (bytes_of_string "orch-fakes/synth-config/v1" ++ len_prefixed (bytes_of_string (fy_synth_version s)) ++
    len_prefixed (bytes_of_string (fx_experiment_id experiment)) ++ len_prefixed (bytes_of_string (model_tag (fx_model experiment))) ++
    len_prefixed (bytes_of_string (fx_button_alphabet experiment)) ++ mix_bytes mix ++ mjoin (pack_bytes <$> in_order (fy_loaded_packs s))).
Definition preview_config_fingerprint (s : FakeSynth) (experiment_id : string) (overrides_yaml : list N) : option ConfigFingerprint :=
  experiment ← fy_loaded_experiments s !! experiment_id;
  match with_overrides overrides_yaml (fx_mix experiment) with
  | Ok mix => Some (fake_config_fingerprint s experiment mix)
  | _ => None
  end.

(** ** Bursts *)

Definition target_frames (length_hint : FrameCount) : N :=
  if (length_hint =? 0)%N then 16%N else N.min (N.max length_hint 1) 1800.

Definition draw_index {E : Type} (upper : N) : st DeterministicRng E N :=
  u ← next_unit_f64;
  mret (N.min (f64_as_unsigned u32_max (f64_floor (f64_mul u (f64_of_N upper)))) (upper - 1)).

(** One turn of the loop for each of the [count] segments that are left. *)
Fixpoint random_segments_from {E : Type} (count : nat) (remaining : N) : st DeterministicRng E (list PadSegment) :=
  match count with
  | O => mret []
  | S count =>
    hold_frames ← (match count with
                   | O => mret remaining
                   | _ => taken ← draw_index (N.max (remaining - N.of_nat count) 1); mret (1 + taken)%N
                   end);
    mask ← draw_index (N.of_nat (length BUTTON_MASKS));
    buttons ← lift_res (expect (vec_get BUTTON_MASKS mask));
    rest ← random_segments_from count (remaining - hold_frames);
    mret (mkPadSegment buttons hold_frames :: rest)
  end.
Definition weighted_random_segments {E : Type} (target : N) : st DeterministicRng E (list PadSegment) :=
  extra ← draw_index 3;
  random_segments_from (N.to_nat (1 + extra)) (N.max target 1).

Definition macro_segments (selected : FakeMacro) (direction : string) (target : N) : list PadSegment :=
  let direction_mask := (if decide (direction = "left") then 256 else if decide (direction = "right") then 512 else 0)%N in
  let action_mask := (if stable_u64 (bytes_of_string (fm_name selected)) (bytes_of_string "macro-action") mod 2 =? 0 then 1 else 2)%N in
  let first := N.min (N.max target 1) 24 in
  let second := (target - first)%N in
  mkPadSegment (N.lor direction_mask action_mask) first :: (if (0 <? second)%N then [mkPadSegment direction_mask second] else []).

(** Every macro with its pack, in order. *)
Definition all_macros (s : FakeSynth) : list (FakeMacroPack * FakeMacro) :=
  '(_, pack) ← in_order (fy_loaded_packs s); (fun item => (pack, item)) <$> fk_macros pack.
Fixpoint pick_macro (macros : list (FakeMacroPack * FakeMacro)) (cursor : f64) : option (FakeMacroPack * FakeMacro) :=
  match macros with
  | [] => None
  | (pack, item) :: rest =>
    if f64_ltb cursor (fm_weight item) then Some (pack, item) else pick_macro rest (f64_sub cursor (fm_weight item))
  end.
Definition first_macro (s : FakeSynth) : option (FakeMacroPack * FakeMacro) :=
  '(_, pack) ← head (in_order (fy_loaded_packs s)); item ← head (fk_macros pack); Some (pack, item).
Definition select_macro {E : Type} (s : FakeSynth) : st DeterministicRng E (FakeMacroPack * FakeMacro) :=
  let total_weight := foldl f64_add (S754_zero true) ((fun m => fm_weight m.2) <$> all_macros s) in
  u ← next_unit_f64;
  match pick_macro (all_macros s) (f64_mul u total_weight) with
  | Some found => mret found
  | None => lift_res (expect (first_macro s))
  end.

Definition mutation_base (request : ProposeBurstsRequest) : option ProvenancedBurst :=
  match nc_parent_burst (pq_node_context request) with
  | Some burst => Some burst
  | None => sb_burst <$> head (nc_sibling_bursts (pq_node_context request))
  end.
Definition pad_body (segments : list PadSegment) : BurstBody := Pad (mkPadBurst segments BUTTON_ALPHABET).
Definition mutate_parent_burst {E : Type} (request : ProposeBurstsRequest) (target : N) : st DeterministicRng E (BurstBody * MutationProvenance) :=
  match mutation_base request with
  | None =>
    segments ← weighted_random_segments target;
    mret (pad_body segments, mkMutationProvenance [] [] false [mkMutationOp "fallback_weighted_random" []] true)
  | Some base =>
    body ← (match bu_body (pv_burst base) with
            | Pad (mkPadBurst (first :: rest) alphabet) =>
              bit ← draw_index 10;
              mret (Pad (mkPadBurst (mkPadSegment (N.lxor (seg_buttons first) (N.shiftl 1 bit)) (seg_hold_frames first) :: rest) alphabet))
            | body => mret body
            end);
    mret (body, mkMutationProvenance (bu_burst_id (pv_burst base)) [] (negb (is_some (nc_parent_burst (pq_node_context request))))
                  [mkMutationOp "flip_button" [("bit", "deterministic")]] true)
  end.

Definition fake_burst_id (seed slot : N) (fingerprint : ConfigFingerprint) (body : BurstBody) : BurstId :=
  blake3 (bytes_of_string "orch-fakes/synth-burst-id/v1" ++ le_bytes 8 seed ++ le_bytes 4 slot ++ fingerprint ++ enc_body body).
Definition provenanced_burst (seed slot : N) (generator : GeneratorKind) (fallback_from : option GeneratorKind) (fingerprint : ConfigFingerprint)
    (body : BurstBody) (m : option MacroProvenance) (mu : option MutationProvenance) (p : option PolicyProvenance) : ProvenancedBurst :=
  mkProvenancedBurst (mkBurst 1 (fake_burst_id seed slot fingerprint body) body)
    (mkProvenance generator slot ("synth/" +:+ pretty seed +:+ "/slot/" +:+ pretty slot +:+ "/" +:+ generator_tag generator) fingerprint
       fallback_from m mu p).

Definition f64_half : f64 := f64_div f64_one (f64_of_N 2).
Definition one_value : FiniteF64 := mkFinite f64_one eq_refl.

Definition pad_generator {E : Type} (s : FakeSynth) (request : ProposeBurstsRequest) (generator : GeneratorKind) (target : N)
    : st DeterministicRng E (BurstBody * option MacroProvenance * option MutationProvenance * option PolicyProvenance) :=
  match generator with
  | GenMacro =>
    '(pack, selected) ← select_macro s;
    u ← next_unit_f64;
    let direction := if f64_ltb u f64_half then "left" else "right" in
    mret (pad_body (macro_segments selected direction target),
          Some (mkMacroProvenance (fk_pack_id pack) (fm_name selected) [("direction", direction)] (N.min target 24) (target - 24) 0), None, None)
  | GenMutation =>
    '(body, mutation) ← mutate_parent_burst request target;
    mret (body, None, Some mutation, None)
  | GenPolicy =>
    segments ← weighted_random_segments target;
    mret (pad_body segments, None, None, Some (mkPolicyProvenance "fake-policy" (fy_synth_version s) one_value true))
  | GenWeightedRandom =>
    segments ← weighted_random_segments target;
    mret (pad_body segments, None, None, None)
  end.
Definition propose_pad_burst {E : Type} (s : FakeSynth) (request : ProposeBurstsRequest) (slot : N) (generator : GeneratorKind)
    (fallback_from : option GeneratorKind) (fingerprint : ConfigFingerprint) : res E ProvenancedBurst :=
  '(body, m, mu, p) ← (pad_generator s request generator (target_frames (pq_length_hint request)) (rng_synth (pq_seed request) slot)).1;
  Ok (provenanced_burst (pq_seed request) slot generator fallback_from fingerprint body m mu p).

(** [as i64] of a value that is not negative. *)
Definition draw_event {E : Type} (seed index : N) : st DeterministicRng E GrammarEvent :=
  u ← next_unit_f64;
  let value := Z.of_N (f64_as_unsigned 9223372036854775807 (f64_floor (f64_mul u (f64_of_N 1000)))) in
  mret (mkGrammarEvent "fake_event" (index * 1000000) [mkGrammarField "value" (FieldInt value)] (le_bytes 8 seed)).
Definition propose_event_burst {E : Type} (request : ProposeBurstsRequest) (slot : N) (generator : GeneratorKind)
    (fallback_from : option GeneratorKind) (fingerprint : ConfigFingerprint) : res E ProvenancedBurst :=
  let event_count := N.min (N.max (pq_length_hint request) 1) 8 in
  events ← (mapM_st (draw_event (pq_seed request)) (N.of_nat <$> seq 0 (N.to_nat event_count)) (rng_synth (pq_seed request) slot)).1;
  Ok (provenanced_burst (pq_seed request) slot generator fallback_from fingerprint (Event (mkEventBurst events "fake-grammar")) None None None).

Definition select_generator {E : Type} (m : GeneratorMix) (seed slot : N) : res E GeneratorKind :=
  let total := mix_total m in
  if f64_leb total f64_zero then Ok GenWeightedRandom
  else
    u ← (next_unit_f64 (rng_synth seed slot)).1;
    Ok (pick_generator (mix_entries m) (f64_mul u total)).

Definition propose_slot {E : Type} (s : FakeSynth) (request : ProposeBurstsRequest) (mix : GeneratorMix) (from : option GeneratorKind)
    (fingerprint : ConfigFingerprint) (slot : N) : res E ProvenancedBurst :=
  generator ← select_generator mix (pq_seed request) slot;
  let fallback_from := if decide (generator = GenWeightedRandom) then from else None in
  match pq_model request with
  | ModelPad => propose_pad_burst s request slot generator fallback_from fingerprint
  | ModelEventGrammar => propose_event_burst request slot generator fallback_from fingerprint
  end.

Definition propose_request_identity (r : ProposeBurstsRequest) (fingerprint : ConfigFingerprint) : list N :=
  blake3 (bytes_of_string "orch-fakes/synth-request/v1" ++ len_prefixed (bytes_of_string (pq_experiment_id r)) ++ le_bytes 4 (pq_k r) ++
    le_bytes 4 (pq_length_hint r) ++ le_bytes 8 (pq_seed r) ++ len_prefixed (bytes_of_string (model_tag (pq_model r))) ++
    len_prefixed (pq_config_overrides_yaml r) ++ fingerprint ++ le_bytes 8 (nc_node_id (pq_node_context r)) ++
    nc_state_hash (pq_node_context r) ++ le_bytes 8 (nc_cell_key (pq_node_context r))).

Definition synth_fault (operation : string) (identity : list N) (response_items : N) : st FakeSynth ClientError FaultDecision := fun s =>
  match fault_decide (mkFaultRequest TargetSynth operation identity) response_items (fy_fault_injector s) with
  | (Ok d, i) =>
    (match client_error (fd_terminal d) with Some e => Err e | None => Ok d end, set_synth_injector i (Some d) s)
  | (_, i) => (Panic, set_synth_injector i (fy_last_fault s) s)
  end.

Definition fake_propose_bursts (r : ProposeBurstsRequest) : st FakeSynth ClientError ProposeBurstsResponse :=
  if (pq_k r =? 0)%N || (MAX_PROPOSE_BURSTS <? pq_k r)%N
  then lift_res (Err (invalid ("k must be in 1..=" +:+ pretty MAX_PROPOSE_BURSTS +:+ ", got " +:+ pretty (pq_k r))))
  else
    s ← get_st;
    match fy_loaded_experiments s !! pq_experiment_id r with
    | None => lift_res (Err (invalid ("unknown experiment_id '" +:+ pq_experiment_id r +:+ "'")))
    | Some experiment =>
      if negb (bool_decide (fx_model experiment = pq_model r))
      then lift_res (Err (invalid "request model does not match loaded experiment config"))
      else
        requested_mix ← lift_res (with_overrides (pq_config_overrides_yaml r) (fx_mix experiment));
        let base_fingerprint := fake_config_fingerprint s experiment requested_mix in
        decision ← synth_fault "propose_bursts" (propose_request_identity r base_fingerprint) (pq_k r);
        let final_fingerprint := apply_synth_fingerprint decision base_fingerprint in
        let '(mix, degraded, from) := effective_mix s requested_mix r in
        bursts ← lift_res (mapM_res (propose_slot s r mix from final_fingerprint) (N.of_nat <$> seq 0 (N.to_nat (pq_k r))));
        mret (mkProposeBurstsResponse bursts final_fingerprint (fy_synth_version s) (pq_seed r) degraded)
    end.

(** ** Mining *)

Definition burst_token_count (b : Burst) : N :=
  match bu_body b with
  | Pad pad => N.of_nat (length (pb_segments pad))
  | Event event => N.of_nat (length (eb_events event))
  end.
Definition fake_mine_macros (r : MineMacrosRequest) : st FakeSynth ClientError MineMacrosResponse :=
  let pack_id := "mined-" +:+ stable_hex_id (bytes_of_string (mq_experiment_id r)) in
  let paths_used := u32_cast (length (mq_paths r)) in
  let counts := (fun scored => burst_token_count (pv_burst (sb_burst scored))) <$> mjoin (ph_expansions <$> mq_paths r) in
  tokens_scanned ← lift_res (expect (foldl (fun sum n => sum ← sum; checked_add u64_max sum n) (Some 0%N) counts));
  let score_value := foldl f64_max f64_zero ((fun path => finite_get (ph_terminal_score path)) <$> mq_paths r) in
  score ← lift_res (match FiniteF64_new score_value with Ok v => Ok v | _ => Panic end);
  let name := "mined-" +:+ pretty paths_used in
  mret (mkMineMacrosResponse
    (chars ("version: 1" +:+ newline +:+ "kind: macro_pack" +:+ newline +:+ "name: " +:+ pack_id +:+ newline +:+ "model: pad" +:+ newline
            +:+ "macros:" +:+ newline +:+ "  - name: " +:+ name +:+ newline))
    pack_id [mkMinedMacroStats name paths_used paths_used one_value score (N.min tokens_scanned u32_max)] paths_used tokens_scanned).
End Synth.
