(* ===== verification/FakeSynthWf.v ===== *)
(** Theorems on the synthesizer double (FakeSynth.v): what a proposal is, that
    it is always given, and how many frames it holds. *)
From stdpp Require Import pretty.
From S2P Require Import Prelude Float64 Types Client Rng Fault SynthTypes StoreTypes SynthDriver SynthConfig FakeSynth.
Local Open Scope string_scope.
Local Open Scope list_scope.

(** ** Drawing code that returns *)

Section Draws.
Context `{B3 : Blake3, CH : ChaCha12} {E : Type}.

(** Within [n] draws [m] returns a value that satisfies [P]. *)
Definition draws_to {A : Type} (n : N) (m : st DeterministicRng E A) (P : A -> Prop) : Prop :=
  forall r, (rng_draws r + n <= u64_max)%N -> exists a r', m r = (Ok a, r') /\ (rng_draws r' <= rng_draws r + n)%N /\ P a.

Lemma draws_ret {A : Type} (n : N) (a : A) (P : A -> Prop) : P a -> draws_to n (mret a) P.
Proof. intros H r _. exists a, r. split; [done|]. split; [lia|done]. Qed.

Lemma draws_bind {A B : Type} (n k : N) (m : st DeterministicRng E A) (f : A -> st DeterministicRng E B) (P : A -> Prop) (Q : B -> Prop) :
  draws_to n m P -> (forall a, P a -> draws_to k (f a) Q) -> draws_to (n + k) (m ≫= f) Q.
Proof.
  intros Hm Hf r Hr. destruct (Hm r) as (a & r1 & H1 & H2 & H3); [lia|]. rewrite st_bind_run, H1.
  destruct (Hf a H3 r1) as (b & r2 & H4 & H5 & H6); [lia|]. exists b, r2. split; [done|]. split; [lia|done].
Qed.

Lemma draws_weaken {A : Type} (n k : N) (m : st DeterministicRng E A) (P Q : A -> Prop) :
  draws_to n m P -> (n <= k)%N -> (forall a, P a -> Q a) -> draws_to k m Q.
Proof. intros Hm Hn HPQ r Hr. destruct (Hm r) as (a & r' & H1 & H2 & H3); [lia|]. exists a, r'. split; [done|]. split; [lia|auto]. Qed.

Lemma draws_expect {A : Type} (o : option A) (a : A) (P : A -> Prop) : o = Some a -> P a -> draws_to 0 (lift_res (expect o)) P.
Proof. intros -> H. by apply draws_ret. Qed.

Lemma draws_unit : draws_to 1 next_unit_f64 (fun _ => True).
Proof. intros r Hr. rewrite next_unit_f64_run by done. eexists _, _. split; [done|]. cbn. by split. Qed.

Lemma draws_index upper : (0 < upper)%N -> draws_to 1 (draw_index upper) (fun i => i < upper)%N.
Proof.
  intros Hu. replace 1%N with (1 + 0)%N by done. apply (draws_bind _ _ _ _ (fun _ => True)); [apply draws_unit|].
  intros u _. apply draws_ret. lia.
Qed.

Lemma draws_mapM {A B : Type} (n : N) (f : A -> st DeterministicRng E B) (P : B -> Prop) xs : (forall x, draws_to n (f x) P) ->
  draws_to (N.of_nat (length xs) * n) (mapM_st f xs) (fun ys => length ys = length xs /\ Forall P ys).
Proof.
  intros Hf. induction xs as [|x xs IH]; [by apply draws_ret|]. cbn [mapM_st length].
  apply (draws_weaken (n + (N.of_nat (length xs) * n + 0)) _ _ (fun ys => length ys = S (length xs) /\ Forall P ys)); [|lia|done].
  eapply draws_bind; [apply Hf|]. intros y Hy. eapply draws_bind; [apply IH|]. intros ys [Hl Hys]. apply draws_ret. cbn. auto.
Qed.
End Draws.

(** ** Segments *)

Definition total_frames (segments : list PadSegment) : N := foldr (fun s n => seg_hold_frames s + n)%N 0%N segments.
Definition segment_ok (s : PadSegment) : Prop := (1 <= seg_hold_frames s)%N /\ seg_buttons s ∈ BUTTON_MASKS.

Section Synth.
Context `{B3 : Blake3, CH : ChaCha12, ENC : SynthEncoding}.

Lemma button_mask mask : (mask < N.of_nat (length BUTTON_MASKS))%N -> exists buttons, vec_get BUTTON_MASKS mask = Some buttons /\ buttons ∈ BUTTON_MASKS.
Proof.
  intros H. destruct (lookup_lt_is_Some_2 BUTTON_MASKS (N.to_nat mask)) as [b Hb]; [cbn in *; lia|].
  exists b. split; [by apply vec_get_Some|by eapply list_elem_of_lookup_2].
Qed.

Lemma random_segments_draws {E : Type} count remaining :
  draws_to (E := E) (2 * N.of_nat count) (random_segments_from count remaining) (fun segments =>
    length segments = count /\ Forall (fun s => seg_buttons s ∈ BUTTON_MASKS) segments /\
    ((0 < count)%nat -> (N.of_nat count <= remaining)%N -> Forall segment_ok segments /\ total_frames segments = remaining)).
Proof.
  revert remaining. induction count as [|count IH]; intros remaining; [apply draws_ret; split_and!; [done|done|lia]|].
  cbn [random_segments_from].
  apply (draws_weaken (1 + (1 + (0 + (2 * N.of_nat count + 0)))) _ _ (fun segments =>
    length segments = S count /\ Forall (fun s => seg_buttons s ∈ BUTTON_MASKS) segments /\
    ((N.of_nat (S count) <= remaining)%N -> Forall segment_ok segments /\ total_frames segments = remaining))); [|lia|by intros segments (H1 & H2 & H3)].
  apply (draws_bind _ _ _ _ (fun hold => (count = 0%nat /\ hold = remaining) \/ (0 < count)%nat /\ (1 <= hold <= N.max (remaining - N.of_nat count) 1)%N)).
  { destruct count as [|count].
    - apply draws_ret. by left.
    - apply (draws_bind 1 0 _ _ (fun i => i < N.max (remaining - N.of_nat (S count)) 1)%N); [apply draws_index; lia|].
      intros taken Ht. apply draws_ret. right. lia. }
  intros hold Hhold. eapply draws_bind; [by apply draws_index|]. intros mask (buttons & Hb & Hin)%button_mask.
  eapply draws_bind; [by apply (draws_expect _ buttons (eq buttons))|]. intros ? <-.
  eapply draws_bind; [apply IH|]. intros rest (Hlen & Hmasks & Hrest). apply draws_ret. cbn [length]. split; [by rewrite Hlen|]. split; [by constructor|].
  intros Hle. destruct Hhold as [[-> ->]|[Hpos Hhold]].
  - destruct rest; [|done]. cbn. split; [constructor; [split; cbn; [lia|done]|done]|lia].
  - destruct Hrest as [Hok Hsum]; [done|lia|]. change (total_frames (_ :: rest)) with (hold + total_frames rest)%N. rewrite Hsum. split; [constructor; [split; cbn; [lia|done]|done]|lia].
Qed.

Lemma weighted_random_draws {E : Type} target : draws_to (E := E) 7 (weighted_random_segments target)
  (fun segments => (3 <= target)%N -> (1 <= length segments <= 3)%nat /\ Forall segment_ok segments /\ total_frames segments = target).
Proof.
  apply (draws_bind 1 6 _ _ (fun i => i < 3)%N); [by apply draws_index|]. intros extra Hextra.
  eapply draws_weaken; [apply random_segments_draws|lia|]. intros segments (Hlen & _ & H) Ht.
  rewrite N.max_l in H by lia. destruct H as [Hok Hsum]; [lia..|]. split; [lia|done].
Qed.

(** Random segments: for at least three frames there are one to three
    segments, each held for at least one frame and with a mask of the
    alphabet, and together they hold exactly the frames asked for. *)
Theorem random_segments_exact (target : N) (r : DeterministicRng) :
  (3 <= target)%N -> (rng_draws r + 7 <= u64_max)%N ->
  exists segments r', weighted_random_segments (E := ClientError) target r = (Ok segments, r') /\
    (1 <= length segments <= 3)%nat /\ Forall segment_ok segments /\ total_frames segments = target.
Proof.
  intros Ht Hr. destruct (weighted_random_draws (E := ClientError) target r Hr) as (segments & r' & H1 & _ & H2). eauto.
Qed.

(** ** Generators that are available *)

Definition generator_available (s : FakeSynth) (r : ProposeBurstsRequest) (g : GeneratorKind) : Prop :=
  match g with
  | GenWeightedRandom => True
  | GenMacro => fy_loaded_packs s <> ∅
  | GenMutation => mutation_base r <> None
  | GenPolicy => False
  end.

Definition weights_are_numbers (m : GeneratorMix) : Prop :=
  is_nan (gm_weighted_random m) = false /\ is_nan (gm_macro_weight m) = false /\ is_nan (gm_mutation m) = false /\ is_nan (gm_policy m) = false.

Lemma f64_max_zero_number x : is_nan (f64_max x f64_zero) = false.
Proof. unfold f64_max. destruct (is_nan x) eqn:E; [done|]. cbn [is_nan f64_zero]. by destruct (f64_ltb _ _). Qed.

Lemma clamp_numbers m : weights_are_numbers (clamp_nonnegative m).
Proof. unfold weights_are_numbers, clamp_nonnegative. cbn. by rewrite !f64_max_zero_number. Qed.

Lemma with_overrides_numbers bytes m m' : with_overrides bytes m = Ok m' -> weights_are_numbers m'.
Proof.
  unfold with_overrides. destruct (negb _); [done|]. destruct (_ || _); [intros [= <-]; apply clamp_numbers|].
  destruct (negb _); [done|]. intros (entries & _ & H)%bind_Ok. destruct (apply_overrides entries m) as [m0|e|]; [|done..].
  injection H as <-. apply clamp_numbers.
Qed.

Lemma not_positive x : is_nan x = false -> f64_gtb x f64_zero = false -> f64_leb x f64_zero = true.
Proof. intros Hx H. rewrite f64_leb_negb_ltb by done. unfold f64_gtb, f64_ltb in *. by rewrite H. Qed.

Lemma mutation_base_None r : mutation_base r = None <-> nc_parent_burst (pq_node_context r) = None /\ nc_sibling_bursts (pq_node_context r) = [].
Proof. unfold mutation_base. destruct (nc_parent_burst _), (nc_sibling_bursts _); naive_solver. Qed.

(** No weight is left on a generator that is not available. *)
Definition mix_available (s : FakeSynth) (r : ProposeBurstsRequest) (m : GeneratorMix) : Prop :=
  (fy_loaded_packs s = ∅ -> f64_leb (gm_macro_weight m) f64_zero = true) /\
  (mutation_base r = None -> f64_leb (gm_mutation m) f64_zero = true) /\ f64_leb (gm_policy m) f64_zero = true.

Lemma effective_mix_available s requested r : weights_are_numbers requested -> mix_available s r (effective_mix s requested r).1.1.
Proof.
  intros (_ & Hma & Hmu & Hpo).
  unfold effective_mix, mix_available. rewrite mutation_base_None.
  destruct (f64_gtb (gm_macro_weight requested) f64_zero) eqn:Ema; destruct (bool_decide (fy_loaded_packs s = ∅)) eqn:Ep; cbn [andb];
    [apply bool_decide_eq_true in Ep|apply bool_decide_eq_false in Ep..| |]; cbn [gm_mutation gm_policy gm_macro_weight];
    destruct (f64_gtb (gm_mutation requested) f64_zero) eqn:Emu; cbn [andb];
    destruct (nc_parent_burst (pq_node_context r)); cbn [andb negb is_some]; destruct (nc_sibling_bursts (pq_node_context r));
    cbn [gm_mutation gm_policy gm_macro_weight]; destruct (f64_gtb (gm_policy requested) f64_zero) eqn:Epo;
    match goal with |- context [if f64_leb (mix_total ?m) f64_zero then _ else _] => destruct (f64_leb (mix_total m) f64_zero) end;
    cbn; (split; [|split; [intros [? ?]|]]); try done; try (by intros); by auto using not_positive.
Qed.

Lemma pick_generator_cases entries cursor : pick_generator entries cursor = GenWeightedRandom \/
  exists w, (pick_generator entries cursor, w) ∈ entries /\ f64_leb w f64_zero = false.
Proof.
  revert cursor. induction entries as [|[g w] entries IH]; intros cursor; [by left|]. cbn [pick_generator].
  destruct (f64_leb w f64_zero) eqn:Ew; [|destruct (f64_ltb cursor w)]; [destruct (IH cursor) as [?|(w' & ? & ?)]| |destruct (IH (f64_sub cursor w)) as [?|(w' & ? & ?)]];
    [by left|right; exists w'; split; [by right|done]|right; exists w; split; [by left|done]|by left|right; exists w'; split; [by right|done]].
Qed.

Lemma select_generator_available {E : Type} s r mix slot : mix_available s r mix ->
  exists g, select_generator (E := E) mix (pq_seed r) slot = Ok g /\ generator_available s r g.
Proof.
  intros (Hma & Hmu & Hpo). unfold select_generator. cbv zeta. destruct (f64_leb (mix_total mix) _); [by exists GenWeightedRandom|].
  destruct (draws_unit (E := E) (rng_synth (pq_seed r) slot)) as (u & r' & -> & _); [done|]. eexists. split; [done|].
  pose proof (pick_generator_cases (mix_entries mix) (f64_mul u (mix_total mix))) as Hc. revert Hc.
  generalize (pick_generator (mix_entries mix) (f64_mul u (mix_total mix))). intros g [->|(w & Hin & Hw)]; [done|].
  unfold mix_entries in Hin. rewrite !elem_of_cons, elem_of_nil in Hin.
  destruct Hin as [[= -> ->]|[[= -> ->]|[[= -> ->]|[[= -> ->]|[]]]]]; cbn; [done|intros H%Hma; congruence|intros H%Hmu; congruence|congruence].
Qed.

(** ** Proposals are given *)

Definition packs_loaded (s : FakeSynth) : Prop := map_Forall (fun id pack => fk_pack_id pack = id /\ fk_macros pack <> []) (fy_loaded_packs s).

Lemma in_order_elem {A : Type} (m : gmap string A) id x : (id, x) ∈ in_order m <-> m !! id = Some x.
Proof. unfold in_order. by rewrite merge_sort_Permutation, elem_of_map_to_list. Qed.

Lemma first_macro_loaded s : packs_loaded s -> fy_loaded_packs s <> ∅ -> is_Some (first_macro s).
Proof.
  intros Hs Hne. unfold first_macro. destruct (in_order (fy_loaded_packs s)) as [|[id pack] rest] eqn:E.
  - exfalso. apply Hne, map_empty. intros id. destruct (fy_loaded_packs s !! id) as [x|] eqn:Ex; [|done].
    apply in_order_elem in Ex. rewrite E in Ex. by apply elem_of_nil in Ex.
  - assert (fy_loaded_packs s !! id = Some pack) as [_ Hm]%Hs by (apply in_order_elem; rewrite E; by left).
    cbn. destruct (fk_macros pack) as [|item rest']; [done|]. by eexists.
Qed.

Lemma select_macro_draws {E : Type} s : packs_loaded s -> fy_loaded_packs s <> ∅ -> draws_to (E := E) 1 (select_macro s) (fun _ => True).
Proof.
  intros Hs Hne. destruct (first_macro_loaded s Hs Hne) as [first Hf]. apply (draws_bind 1 0 _ _ (fun _ => True)); [apply draws_unit|].
  intros u _. destruct (pick_macro _ _) as [found|]; [by apply draws_ret|]. by apply (draws_expect _ first).
Qed.

(** ** Frames of a burst *)

Definition burst_frames (b : BurstBody) : N := match b with Pad p => total_frames (pb_segments p) | Event _ => 0%N end.
(** A burst holds the frames asked for; a mutated one those of its base. *)
Definition frames_asked (r : ProposeBurstsRequest) (g : GeneratorKind) : N :=
  match g, mutation_base r with
  | GenMutation, Some base => burst_frames (bu_body (pv_burst base))
  | _, _ => target_frames (pq_length_hint r)
  end.
Definition long_enough (hint : FrameCount) : Prop := hint = 0%N \/ (3 <= hint)%N.

Lemma target_frames_long hint : long_enough hint -> (3 <= target_frames hint <= 1800)%N.
Proof. unfold long_enough, target_frames. destruct (N.eqb_spec hint 0); lia. Qed.

Lemma macro_segments_frames selected direction target : (1 <= target)%N -> total_frames (macro_segments selected direction target) = target.
Proof. intros Ht. unfold macro_segments, total_frames. cbv zeta. destruct (N.ltb_spec 0 (target - N.min (N.max target 1) 24)); cbn [foldr seg_hold_frames]; lia. Qed.

Lemma mutate_draws {E : Type} r : draws_to (E := E) 7 (mutate_parent_burst r (target_frames (pq_length_hint r)))
  (fun x => long_enough (pq_length_hint r) -> burst_frames x.1 = frames_asked r GenMutation).
Proof.
  unfold mutate_parent_burst, frames_asked. destruct (mutation_base r) as [base|].
  - apply (draws_bind 7 0 _ _ (fun body => burst_frames body = burst_frames (bu_body (pv_burst base)))); [|intros body Hb; by apply draws_ret].
    destruct (bu_body (pv_burst base)) as [[[|first rest] alphabet]|event];
      [by apply draws_ret| |by apply draws_ret].
    apply (draws_bind 1 6 _ _ (fun i => i < 10)%N); [by apply draws_index|]. intros bit _.
    by apply draws_ret.
  - apply (draws_bind 7 0 _ _ _ _ (weighted_random_draws _)). intros segments Hsum. apply draws_ret. cbn. intros Hl%target_frames_long. apply Hsum. lia.
Qed.

Lemma pad_generator_draws {E : Type} s r g : packs_loaded s -> generator_available s r g ->
  draws_to (E := E) 9 (pad_generator s r g (target_frames (pq_length_hint r)))
    (fun x => long_enough (pq_length_hint r) -> burst_frames x.1.1.1 = frames_asked r g).
Proof.
  intros Hs Hg. destruct g; cbn [pad_generator].
  - apply (draws_bind 7 2 _ _ _ _ (weighted_random_draws _)). intros segments Hsum.
    apply draws_ret. intros Hl%target_frames_long. apply Hsum. lia.
  - apply (draws_bind 1 8 _ _ _ _ (select_macro_draws _ Hs Hg)). intros [pack selected] _.
    apply (draws_bind 1 7 _ _ _ _ draws_unit). intros u _. apply draws_ret. intros Hl%target_frames_long. apply macro_segments_frames. change (frames_asked r GenMacro) with (target_frames (pq_length_hint r)). lia.
  - apply (draws_bind 7 2 _ _ _ _ (mutate_draws r)). intros [body mutation] Hb. by apply draws_ret.
  - done.
Qed.

(** What the burst of a slot carries. *)
Definition slot_burst (s : FakeSynth) (r : ProposeBurstsRequest) (fingerprint : ConfigFingerprint) (slot : N) (b : ProvenancedBurst) : Prop :=
  let p := pv_provenance b in
  pr_slot p = slot /\ pr_config_fingerprint p = fingerprint /\ generator_available s r (pr_generator p) /\
  (is_Some (pr_fallback_from p) -> pr_generator p = GenWeightedRandom) /\
  bu_burst_id (pv_burst b) = fake_burst_id (pq_seed r) slot fingerprint (bu_body (pv_burst b)) /\
  (pq_model r = ModelPad -> long_enough (pq_length_hint r) -> burst_frames (bu_body (pv_burst b)) = frames_asked r (pr_generator p)).

Lemma propose_slot_given {E : Type} s r mix from fingerprint slot : packs_loaded s -> mix_available s r mix ->
  exists b, propose_slot (E := E) s r mix from fingerprint slot = Ok b /\ slot_burst s r fingerprint slot b.
Proof.
  intros Hs Hmix. destruct (select_generator_available (E := E) s r mix slot Hmix) as (g & Hsel & Hg). unfold propose_slot. rewrite Hsel. cbn.
  assert (is_Some (if decide (g = GenWeightedRandom) then from else None) -> g = GenWeightedRandom) as Hfrom
    by (destruct (decide (g = GenWeightedRandom)); [done|by intros [? ?]]).
  unfold slot_burst. destruct (pq_model r).
  - unfold propose_pad_burst. destruct (pad_generator_draws (E := E) s r g Hs Hg (rng_synth (pq_seed r) slot))
      as ([[[body m] mu] p] & r' & -> & _ & Hframes); [done|]. eexists. split; [done|]. by split_and!.
  - unfold propose_event_burst. set (xs := N.of_nat <$> _).
    destruct (draws_mapM (E := E) 1 (draw_event (pq_seed r)) (fun _ => True) xs) with (r := rng_synth (pq_seed r) slot) as (events & r' & -> & _).
    + intros x. apply (draws_bind 1 0 _ _ (fun _ => True)); [apply draws_unit|]. intros u _. by apply draws_ret.
    + unfold xs. rewrite length_fmap, length_seq. cbn. unfold u64_max. lia.
    + eexists. split; [done|]. by split_and!.
Qed.

Lemma propose_slots_given {E : Type} s r mix from fingerprint slots : packs_loaded s -> mix_available s r mix ->
  exists bs, mapM_res (propose_slot (E := E) s r mix from fingerprint) slots = Ok bs /\ Forall2 (slot_burst s r fingerprint) slots bs.
Proof.
  intros Hs Hmix. induction slots as [|slot slots (bs & IH1 & IH2)]; [by exists []|].
  destruct (propose_slot_given (E := E) s r mix from fingerprint slot Hs Hmix) as (b & Hb & Hok).
  exists (b :: bs). cbn [mapM_res]. rewrite Hb. cbn. rewrite IH1. cbn. split; [done|by constructor].
Qed.

Lemma slot_bursts_valid s r fingerprint n : forall index bursts, (N.of_nat (index + n) <= u32_max)%N ->
  Forall2 (slot_burst s r fingerprint) (N.of_nat <$> seq index n) bursts -> validate_bursts fingerprint index bursts = Ok tt.
Proof.
  induction n as [|n IH]; intros index bursts Hn H; [by apply Forall2_nil_inv_l in H as ->|].
  apply Forall2_cons_inv_l in H as (b & rest & (Hslot & Hf & _) & Hrest & ->). cbn [validate_bursts].
  rewrite bool_decide_true, Hslot, N.mod_small, N.eqb_refl by (done || lia). cbn [negb]. apply IH; [lia|done].
Qed.

(** ** The calls of the service *)

Inductive synth_call :=
| CallLoad (r : LoadMacroPackRequest)
| CallHealth
| CallPropose (r : ProposeBurstsRequest)
| CallMine (r : MineMacrosRequest).
Definition synth_step (s : FakeSynth) (c : synth_call) : FakeSynth :=
  match c with
  | CallLoad r => (fake_load_macro_pack r s).2
  | CallHealth => (fake_health s).2
  | CallPropose r => (fake_propose_bursts r s).2
  | CallMine r => (fake_mine_macros r s).2
  end.
Definition run_synth_calls (calls : list synth_call) (s : FakeSynth) : FakeSynth := foldl synth_step s calls.

(** Requests the service does not reject. *)
Definition request_accepted (s : FakeSynth) (r : ProposeBurstsRequest) : bool :=
  (0 <? pq_k r)%N && (pq_k r <=? MAX_PROPOSE_BURSTS)%N &&
  match fy_loaded_experiments s !! pq_experiment_id r with
  | Some experiment => bool_decide (fx_model experiment = pq_model r) && is_Ok (with_overrides (pq_config_overrides_yaml r) (fx_mix experiment))
  | None => false
  end.

Definition same_documents (s s' : FakeSynth) : Prop :=
  fy_loaded_packs s' = fy_loaded_packs s /\ fy_loaded_experiments s' = fy_loaded_experiments s /\ fy_synth_version s' = fy_synth_version s.
Definition proposals_of (s : FakeSynth) (r : ProposeBurstsRequest) (resp : ProposeBurstsResponse) : Prop :=
  validate_propose_bursts_response r resp = Ok tt /\
  Forall2 (slot_burst s r (ps_config_fingerprint resp)) (N.of_nat <$> seq 0 (N.to_nat (pq_k r))) (ps_bursts resp).

Lemma synth_fault_run op identity items s out s' : (stream_attempt (mkFaultRequest TargetSynth op identity) (fy_fault_injector s) < u64_max)%N ->
  synth_fault op identity items s = (out, s') -> same_documents s s' /\ exists d, fy_last_fault s' = Some d /\
    out = match client_error (fd_terminal d) with Some e => Err e | None => Ok d end /\
    fy_fault_injector s' = (fault_decide (mkFaultRequest TargetSynth op identity) items (fy_fault_injector s)).2.
Proof.
  intros Hlt. unfold synth_fault. destruct (fault_decide_run _ items _ Hlt) as (d & _ & ->). intros [= <- <-]. split; [done|]. by exists d.
Qed.

(** ** Rejections of a document or an override *)

Definition rejects {A : Type} (r : res ClientError A) : Prop :=
  match r with Ok _ => True | Err e => ce_kind e = InvalidRequest | Panic => False end.

Lemma rejects_bind {A B : Type} (r : res ClientError A) (f : A -> res ClientError B) : rejects r -> (forall a, rejects (f a)) -> rejects (r ≫= f).
Proof. destruct r; cbn; auto. Qed.

Lemma parse_key_value_rejects t : rejects (parse_key_value_number t).
Proof.
  unfold parse_key_value_number. destruct (find _ t) as [i|]; [|done]. cbv zeta. destruct (decide _); [done|].
  destruct (parse_f64 _) as [v|]; [|done]. cbn. by destruct (is_finite v).
Qed.

Lemma mix_block_rejects ls : forall in_mix, rejects (mix_block_lines in_mix ls).
Proof.
  induction ls as [|line ls IH]; intros in_mix; [done|]. cbn [mix_block_lines]. destruct (decide _); [apply IH|]. destruct (starts_with _ _); [apply IH|].
  destruct (strip_prefix _ _) as [value|]; [destruct (_ && _); [done|apply IH]|]. destruct (negb in_mix); [apply IH|]. destruct (_ && _); [done|].
  apply rejects_bind; [apply parse_key_value_rejects|]. intros entry. by apply rejects_bind.
Qed.

Lemma mapM_rejects {A B : Type} (f : A -> res ClientError B) xs : (forall x, rejects (f x)) -> rejects (mapM_res f xs).
Proof. intros Hf. induction xs as [|x xs IH]; [done|]. cbn. apply rejects_bind; [apply Hf|]. intros y. by apply rejects_bind. Qed.

Lemma mix_inline_rejects ls : rejects (mix_inline_lines ls).
Proof.
  induction ls as [|line ls IH]; [done|]. cbn [mix_inline_lines]. destruct (strip_prefix _ _) as [value|]; [|done].
  destruct (strip_prefix _ _) as [inner|]; [|done]. destruct (find _ _); [|done]. apply mapM_rejects, parse_key_value_rejects.
Qed.

Lemma apply_overrides_rejects entries : forall m, rejects (apply_overrides entries m).
Proof. induction entries as [|[key value] entries IH]; intros m; [done|]. cbn [apply_overrides]. repeat (destruct (decide _); [apply IH|]). done. Qed.

Lemma with_overrides_rejects bytes m : rejects (with_overrides bytes m).
Proof.
  unfold with_overrides. destruct (negb _); [done|]. cbv zeta. destruct (_ || _); [done|]. destruct (negb _); [done|]. apply rejects_bind.
  - apply rejects_bind; [apply mix_block_rejects|]. intros entries. apply rejects_bind; [apply mix_inline_rejects|]. done.
  - intros entries. pose proof (apply_overrides_rejects entries m) as H. by destruct (apply_overrides entries m).
Qed.

Lemma fake_propose_outcome r s out s' : packs_loaded s -> (forall q, stream_attempt q (fy_fault_injector s) < u64_max)%N ->
  fake_propose_bursts r s = (out, s') -> same_documents s s' /\
  match out with
  | Ok resp => request_accepted s r = true /\ proposals_of s r resp
  | Err e => request_accepted s r = false /\ ce_kind e = InvalidRequest /\ s' = s \/
             request_accepted s r = true /\ exists d, fy_last_fault s' = Some d /\ client_error (fd_terminal d) = Some e
  | Panic => False
  end.
Proof.
  intros Hs Hlt. unfold fake_propose_bursts, request_accepted.
  destruct (N.eqb_spec (pq_k r) 0) as [->|Hk0]; [intros [= <- <-]; split; [done|by left]|].
  destruct (N.ltb_spec MAX_PROPOSE_BURSTS (pq_k r)) as [Hk|Hk]; cbn [orb].
  { rewrite (proj2 (N.leb_gt _ _) Hk), andb_false_r. intros [= <- <-]. split; [done|by left]. }
  rewrite (proj2 (N.ltb_lt 0 (pq_k r))), (proj2 (N.leb_le _ _) Hk) by lia. cbn [andb]. rewrite st_bind_run. cbn [get_st].
  destruct (fy_loaded_experiments s !! pq_experiment_id r) as [experiment|]; [|intros [= <- <-]; split; [done|by left]].
  destruct (bool_decide (fx_model experiment = pq_model r)); cbn [negb andb]; [|intros [= <- <-]; split; [done|by left]].
  rewrite st_bind_run. unfold lift_res at 1. pose proof (with_overrides_rejects (pq_config_overrides_yaml r) (fx_mix experiment)) as Hrej.
  destruct (with_overrides _ _) as [mix|e|] eqn:Ew; cbn [is_Ok]; [|intros [= <- <-]; split; [done|by left]|done].
  rewrite st_bind_run. destruct (synth_fault _ _ _ s) as [decision s1] eqn:Ef.
  apply synth_fault_run in Ef as (Hdoc & d & Hd & -> & _); [|done]. destruct (client_error (fd_terminal d)) as [e|] eqn:Ee.
  { intros [= <- <-]. split; [done|right]. eauto. }
  pose proof (effective_mix_available s mix r (with_overrides_numbers _ _ _ Ew)) as Hav.
  destruct (effective_mix s mix r) as [[eff degraded] from]. rewrite st_bind_run. cbn [fst] in Hav.
  destruct (propose_slots_given (E := ClientError) s r eff from (apply_synth_fingerprint d (fake_config_fingerprint s experiment mix))
    (N.of_nat <$> seq 0 (N.to_nat (pq_k r))) Hs Hav) as (bs & Hbs & Hall). rewrite Hbs. cbn [lift_res]. intros [= <- <-].
  split; [done|]. split; [done|]. split; [|done]. unfold validate_propose_bursts_response. cbn.
  apply Forall2_length in Hall as Hlen. rewrite length_fmap, length_seq in Hlen. rewrite N.eqb_refl, <- Hlen, N2Nat.id, N.eqb_refl. cbn [negb].
  eapply slot_bursts_valid; [|exact Hall]. unfold MAX_PROPOSE_BURSTS in Hk. rewrite Nat.add_0_l, N2Nat.id. unfold u32_max. lia.
Qed.

(** Documents are loaded, and no counter is near its end. *)
Definition synth_inv (calls : nat) (s : FakeSynth) : Prop :=
  packs_loaded s /\ forall q, (stream_attempt q (fy_fault_injector s) <= N.of_nat calls)%N.

Lemma load_packs_loaded r s : packs_loaded s -> packs_loaded (fake_load_macro_pack r s).2 /\ fy_fault_injector (fake_load_macro_pack r s).2 = fy_fault_injector s.
Proof.
  intros Hs. unfold fake_load_macro_pack. destruct (lmp_kind r); [| |done].
  - unfold load_macro_pack_document. rewrite st_bind_run. unfold lift_res. destruct (document_text _) as [t|e|]; [|done..]. cbn. split; [|done].
    apply map_Forall_insert_2; [|done]. cbn. split; [done|]. unfold macros_of. by destruct (imap _ _).
  - unfold load_experiment_config. rewrite st_bind_run. unfold lift_res at 1. destruct (document_text _) as [t|e|]; [|done..].
    rewrite st_bind_run. unfold lift_res. by destruct (with_config_document _ _).
Qed.

Lemma mine_keeps r s : (fake_mine_macros r s).2 = s.
Proof.
  unfold fake_mine_macros. rewrite st_bind_run. unfold lift_res at 1. destruct (expect _) as [n|e|]; [|done..].
  rewrite st_bind_run. unfold lift_res. by destruct (FiniteF64_new _).
Qed.

Lemma stream_attempt_decide r q n i : (stream_attempt q i < u64_max)%N -> (stream_attempt r (fault_decide q n i).2 <= stream_attempt r i + 1)%N.
Proof. intros H. rewrite stream_attempt_after by done. destruct (decide _); lia. Qed.

Lemma propose_injector r s : (forall q, stream_attempt q (fy_fault_injector s) < u64_max)%N ->
  forall q, (stream_attempt q (fy_fault_injector (fake_propose_bursts r s).2) <= stream_attempt q (fy_fault_injector s) + 1)%N.
Proof.
  intros Hlt q. unfold fake_propose_bursts. destruct (_ || _); [cbn; lia|]. rewrite st_bind_run. cbn [get_st].
  destruct (_ !! _) as [experiment|]; [|cbn; lia]. destruct (negb _); [cbn; lia|]. rewrite st_bind_run. unfold lift_res at 1.
  destruct (with_overrides _ _) as [mix|e|]; [|cbn; lia..]. rewrite st_bind_run. destruct (synth_fault _ _ _ s) as [decision s1] eqn:Ef.
  apply synth_fault_run in Ef as (_ & d & _ & -> & Hi); [|done].
  assert (stream_attempt q (fy_fault_injector s1) <= stream_attempt q (fy_fault_injector s) + 1)%N as H1
    by (rewrite Hi; by apply stream_attempt_decide).
  destruct (client_error _); [done|]. destruct (effective_mix s mix r) as [[eff degraded] from]. rewrite st_bind_run. unfold lift_res.
  by destruct (mapM_res _ _).
Qed.

Lemma synth_inv_step n s c : synth_inv n s -> (N.of_nat n < u64_max)%N -> synth_inv (S n) (synth_step s c).
Proof.
  intros [Hs Hi] Hn. assert (forall q, stream_attempt q (fy_fault_injector s) < u64_max)%N as Hlt by (intros q; specialize (Hi q); lia).
  destruct c as [r| |r|r]; cbn [synth_step].
  - destruct (load_packs_loaded r s Hs) as [H1 H2]. split; [done|]. intros q. rewrite H2. specialize (Hi q). lia.
  - split; [done|]. intros q. specialize (Hi q). cbn. lia.
  - split.
    + destruct (fake_propose_bursts r s) as [out s'] eqn:E. apply fake_propose_outcome in E as [(Hp & _) _]; [|done..]. unfold packs_loaded. cbn. by rewrite Hp.
    + intros q. pose proof (propose_injector r s Hlt q). specialize (Hi q). lia.
  - rewrite mine_keeps. split; [done|]. intros q. specialize (Hi q). lia.
Qed.

Lemma synth_inv_reachable plan calls : (N.of_nat (length calls) <= u64_max)%N -> synth_inv (length calls) (run_synth_calls calls (synth_with_fault_plan plan)).
Proof.
  induction calls as [|c calls IH] using rev_ind; intros Hn; [split; [apply map_Forall_empty|intros q; apply N.le_refl]|].
  rewrite length_app in *. cbn in *. unfold run_synth_calls. rewrite foldl_app, Nat.add_1_r. apply synth_inv_step; [apply IH; lia|lia].
Qed.

(** Proposals are given: in every state the synthesizer double reaches, a
    request it accepts is answered with a response the driver accepts, one
    burst per slot from a generator that is available (macros only when a pack
    is loaded, mutations only when there is a burst to mutate, never the
    policy) and of the length asked for (at least three frames; a mutation
    keeps the length of its base), or with an injected fault; other requests are rejected as invalid
    without an effect.  No call panics, and none changes the loaded documents. *)
Theorem proposals_given (plan : FaultPlan) (calls : list synth_call) (r : ProposeBurstsRequest) (s s' : FakeSynth)
    (out : res ClientError ProposeBurstsResponse) :
  (N.of_nat (length calls) < u64_max)%N -> s = run_synth_calls calls (synth_with_fault_plan plan) -> fake_propose_bursts r s = (out, s') ->
  same_documents s s' /\
  match out with
  | Ok resp => request_accepted s r = true /\ proposals_of s r resp
  | Err e => request_accepted s r = false /\ ce_kind e = InvalidRequest /\ s' = s \/
             request_accepted s r = true /\ exists d, fy_last_fault s' = Some d /\ client_error (fd_terminal d) = Some e
  | Panic => False
  end.
Proof.
  intros Hn -> H. destruct (synth_inv_reachable plan calls) as [Hs Hi]; [lia|]. apply fake_propose_outcome; [done| |done].
  intros q. specialize (Hi q). lia.
Qed.
End Synth.

(** ** Witnesses *)

Definition toy_synth_encoding : SynthEncoding := {| enc_body b := match b with Pad p => [N.of_nat (length (pb_segments p))] | Event _ => [] end |}.
#[local] Existing Instance toy_synth_encoding.
#[local] Existing Instance toy_blake3.
#[local] Existing Instance toy_chacha.

Definition sample_pack_document : list N := join_lines ["version: 1"; "name: moves"; "macros:"; "  - name: dash"; "  - name: jump"].
Definition sample_config_document : list N :=
  join_lines ["experiment_id: exp"; "model: pad"; "generator_mix: { weighted_random: 1.5, macro: 2, mutation: 1e0 }"].
Definition sample_synth_calls : list synth_call :=
  [CallLoad (mkLoadMacroPackRequest (DocumentYaml sample_pack_document) DocMacroPack);
   CallLoad (mkLoadMacroPackRequest (DocumentYaml sample_config_document) DocExperimentConfig)].
Definition sample_proposal : ProposeBurstsRequest :=
  mkProposeBurstsRequest "exp" (pq_node_context sample_request) 4 30 7 ModelPad [].
Definition loaded_synth : FakeSynth := run_synth_calls sample_synth_calls (synth_with_fault_plan (plan_disabled 0)).

Lemma random_segments_exact_witness : exists segments r',
  weighted_random_segments (E := ClientError) 30 (rng_synth 7 0) = (Ok segments, r') /\ total_frames segments = 30%N.
Proof.
  destruct (random_segments_exact 30 (rng_synth 7 0)) as (segments & r' & H1 & _ & _ & H2); [lia|vm_compute; discriminate|].
  exists segments, r'. split; [exact H1|exact H2].
Defined.

Lemma proposals_given_witness : exists resp s',
  fake_propose_bursts sample_proposal loaded_synth = (Ok resp, s') /\ proposals_of loaded_synth sample_proposal resp /\
  (fun b => pr_generator (pv_provenance b)) <$> ps_bursts resp = [GenWeightedRandom; GenMacro; GenWeightedRandom; GenMacro].
Proof.
  destruct (fake_propose_bursts sample_proposal loaded_synth) as [out s'] eqn:E.
  pose proof (proposals_given (plan_disabled 0) sample_synth_calls sample_proposal loaded_synth s' out) as H.
  destruct H as [_ H]; [vm_compute; reflexivity|reflexivity|exact E|].
  destruct out as [resp|e|].
  - exists resp, s'. split; [reflexivity|]. split; [exact (proj2 H)|].
    transitivity (match (fake_propose_bursts sample_proposal loaded_synth).1 with
                  | Ok resp => (fun b => pr_generator (pv_provenance b)) <$> ps_bursts resp | _ => [] end);
      [by rewrite E|vm_compute; reflexivity].
  - exfalso. apply (f_equal (fun o => is_Ok o.1)) in E. vm_compute in E. discriminate E.
  - destruct H.
Defined.
