(* ===== verification/SimJournal.v ===== *)
(** The operation journal of the persistent test world
    (crates/orch-simstate/src/journal.rs and records.rs): length- and
    checksum-framed records, appended write-ahead, and the scan that reads
    them back and cuts a torn tail off. *)
From S2P Require Import Prelude Float64 Types Client Rng Fault Checkpoint HvTypes SynthTypes ScorerTypes StoreTypes.
Local Open Scope string_scope.
Local Open Scope list_scope.

Definition JOURNAL_VERSION : N := 1.
Definition FRAME_HEADER_LEN : nat := 12.
Definition MAX_FRAME_LEN : N := 67108864.

(** ** Records *)

Record PutMetadataRequest := mkPutMetadataRequest {
  pm_key : MetadataKey;
  pm_value : list N;
  pm_expected_generation : MetadataExpectation
}.
Record DeleteMetadataRequest := mkDeleteMetadataRequest {
  dm_key : MetadataKey;
  dm_expected_generation : MetadataExpectation
}.

(** One variant per mutating call of the four services. *)
Inductive JournalRecord :=
| Header (version : N)
| Applied (op_id digest : N)
| ReclaimSession (op_id : N)
| HvCreateVm (op_id : N) (request : CreateVmRequest)
| HvRestoreSnapshot (op_id : N) (request : RestoreSnapshotRequest)
| HvFork (op_id : N) (request : ForkRequest)
| HvInjectInputs (op_id : N) (request : InjectInputsRequest)
| HvRun (op_id : N) (request : RunRequest)
| HvTakeSnapshot (op_id : N) (request : TakeSnapshotRequest)
| HvDestroyVm (op_id : N) (lease : Lease)
| StCreateNode (op_id : N) (request : CreateNodeRequest)
| StUpdateNodes (op_id : N) (request : UpdateNodesRequest)
| StPutMetadata (op_id : N) (request : PutMetadataRequest)
| StDeleteMetadata (op_id : N) (request : DeleteMetadataRequest)
| StPruneSubtree (op_id : N) (request : PruneSubtreeRequest)
| ScLoadFeatureMap (op_id : N) (request : LoadFeatureMapRequest)
| ScLoadScoringProgram (op_id : N) (request : LoadScoringProgramRequest)
| ScScoreBatch (op_id : N) (request : ScoreBatchRequest)
| ScCheckpointArchive (op_id : N) (request : ArchiveRequest)
| ScRestoreArchive (op_id : N) (request : RestoreArchiveRequest)
| ScReplayCommits (op_id : N) (request : ReplayCommitsRequest)
| SyLoadMacroPack (op_id : N) (request : LoadMacroPackRequest)
| SyProposeBursts (op_id : N) (request : ProposeBurstsRequest)
| SyMineMacros (op_id : N) (request : MineMacrosRequest).

(** The op id of every record except the header. *)
Definition record_op_id (r : JournalRecord) : option N :=
  match r with
  | Header _ => None
  | Applied id _ | ReclaimSession id | HvCreateVm id _ | HvRestoreSnapshot id _ | HvFork id _ | HvInjectInputs id _ | HvRun id _
  | HvTakeSnapshot id _ | HvDestroyVm id _ | StCreateNode id _ | StUpdateNodes id _ | StPutMetadata id _ | StDeleteMetadata id _
  | StPruneSubtree id _ | ScLoadFeatureMap id _ | ScLoadScoringProgram id _ | ScScoreBatch id _ | ScCheckpointArchive id _
  | ScRestoreArchive id _ | ScReplayCommits id _ | SyLoadMacroPack id _ | SyProposeBursts id _ | SyMineMacros id _ => Some id
  end.

Inductive RecordKind := WalAppend | CkptPut | OtherRecord.
Global Instance RecordKind_eq_dec : EqDecision RecordKind.
Proof. solve_decision. Defined.

(** ** The file *)

(** Its bytes, and how many of them are known to be on disk. *)
Record JournalFile := mkJournalFile { jf_bytes : list N; jf_synced : nat }.
Definition write_all (bytes : list N) (f : JournalFile) : JournalFile := mkJournalFile (jf_bytes f ++ bytes) (jf_synced f).
Definition sync_data (f : JournalFile) : JournalFile := mkJournalFile (jf_bytes f) (length (jf_bytes f)).

(** [nth] matching appends from the start, the process parks in the middle of
    a write. *)
Record TornHook := mkTornHook { th_kind : RecordKind; th_nth : N; th_seen : N }.
Record Journal := mkJournal {
  jn_file : JournalFile;
  jn_next_op_id : N;
  jn_torn : option TornHook
}.
Definition set_file (f : JournalFile) (j : Journal) : Journal := mkJournal f (jn_next_op_id j) (jn_torn j).
Definition set_torn (t : TornHook) (j : Journal) : Journal := mkJournal (jn_file j) (jn_next_op_id j) (Some t).

(** A process that stops for ever inside a call. *)
Inductive Stopped := Parked.

Record LoadStats := mkLoadStats { ls_frames : N; ls_truncated_bytes : N }.

Inductive FrameParse :=
| FrameOk (record : JournalRecord) (next : nat)
| FrameTorn
| FrameCorruptLen (len : N)
| FrameCorrupt (next : nat).

Section Journal.
Context `{B3 : Blake3, PJ : Postcard JournalRecord}.

Definition truncated_blake3 (payload : list N) : N := of_le_bytes (take 8 (blake3 payload)).

(** ** Writing *)

Definition frame_header (payload : list N) : list N := le_bytes 4 (N.of_nat (length payload)) ++ le_bytes 8 (truncated_blake3 payload).
(** [expect] of the encoding and of the length. *)
Definition payload_of {E : Type} (record : JournalRecord) : res E (list N) :=
  match to_allocvec record with
  | Ok payload => if (N.of_nat (length payload) <=? u32_max)%N then Ok payload else Panic
  | _ => Panic
  end.

Definition write_frame (record : JournalRecord) (sync : bool) : st Journal Stopped unit :=
  payload ← lift_res (payload_of record);
  modify (fun j => let f := write_all (frame_header payload ++ payload) (jn_file j) in set_file (if sync then sync_data f else f) j).

Definition maybe_tear (record : JournalRecord) (kind : RecordKind) : st Journal Stopped unit :=
  j ← get_st;
  match jn_torn j with
  | None => mret tt
  | Some torn =>
    if decide (kind = th_kind torn) then
      seen ← lift_res (expect (checked_add u32_max (th_seen torn) 1));
      _ ← modify (set_torn (mkTornHook (th_kind torn) (th_nth torn) seen));
      if (seen =? th_nth torn)%N then
        payload ← lift_res (payload_of record);
        _ ← modify (fun j => set_file (sync_data (write_all (frame_header payload ++ take (length payload / 2) payload) (jn_file j))) j);
        lift_res (Err Parked)
      else mret tt
    else mret tt
  end.

Definition append_op (build : N -> JournalRecord) (kind : RecordKind) : st Journal Stopped N :=
  j ← get_st;
  let op_id := jn_next_op_id j in
  next ← lift_res (expect (checked_add u64_max op_id 1));
  _ ← modify (fun j => mkJournal (jn_file j) next (jn_torn j));
  let record := build op_id in
  _ ← maybe_tear record kind;
  _ ← write_frame record true;
  mret op_id.

Definition append_advisory (record : JournalRecord) : st Journal Stopped unit := write_frame record false.

Definition Journal_create (torn : option TornHook) : res Stopped unit * Journal :=
  write_frame (Header JOURNAL_VERSION) true (mkJournal (mkJournalFile [] 0) 1 torn).
Definition Journal_open_existing (bytes : list N) (next_op_id : N) (torn : option TornHook) : Journal :=
  mkJournal (mkJournalFile bytes (length bytes)) next_op_id torn.

(** ** Reading *)

Definition parse_frame (bytes : list N) (offset : nat) : FrameParse :=
  let remaining := drop offset bytes in
  if (length remaining <? FRAME_HEADER_LEN)%nat then FrameTorn
  else
    let len := of_le_bytes (take 4 remaining) in
    let checksum := of_le_bytes (take 8 (drop 4 remaining)) in
    if (MAX_FRAME_LEN <? len)%N then FrameCorruptLen len
    else if (length remaining <? FRAME_HEADER_LEN + N.to_nat len)%nat then FrameTorn
    else
      let payload := take (N.to_nat len) (drop FRAME_HEADER_LEN remaining) in
      let next := (offset + FRAME_HEADER_LEN + N.to_nat len)%nat in
      if negb (truncated_blake3 payload =? checksum)%N then FrameCorrupt next
      else match from_bytes payload with
           | Ok record => FrameOk record next
           | _ => FrameCorrupt next
           end.

(** Whether a frame after a corrupt one is damage and not a torn tail. *)
Fixpoint damaged_after (fuel : nat) (bytes : list N) (probe : nat) : bool :=
  match fuel with
  | O => false
  | S fuel =>
    if (probe <? length bytes)%nat then
      match parse_frame bytes probe with
      | FrameOk _ _ | FrameCorruptLen _ => true
      | FrameCorrupt next => damaged_after fuel bytes next
      | FrameTorn => false
      end
    else false
  end.

(** The records from [offset] on and where the tail is torn; a frame is at
    least as long as its header, so the length of the file is fuel enough. *)
Fixpoint scan_frames (fuel : nat) (bytes : list N) (offset : nat) : res Stopped (list JournalRecord * option nat) :=
  match fuel with
  | O => Panic
  | S fuel =>
    if (offset <? length bytes)%nat then
      match parse_frame bytes offset with
      | FrameOk record next => '(records, torn) ← scan_frames fuel bytes next; Ok (record :: records, torn)
      | FrameTorn => Ok ([], Some offset)
      | FrameCorruptLen _ => Panic
      | FrameCorrupt next => if damaged_after (length bytes) bytes next then Panic else Ok ([], Some offset)
      end
    else Ok ([], None)
  end.

(** The records and statistics, and the file as the scan leaves it. *)
Definition load (bytes : list N) : res Stopped (list JournalRecord * LoadStats * list N) :=
  '(records, torn_at) ← scan_frames (S (length bytes)) bytes 0;
  let kept := match torn_at with Some at_byte => take at_byte bytes | None => bytes end in
  let stats := mkLoadStats (N.of_nat (length records)) (N.of_nat (length bytes - length kept)) in
  match records with
  | [] => Ok (records, stats, kept)
  | first :: _ =>
    match first with
    | Header version => if (version =? JOURNAL_VERSION)%N then Ok (records, stats, kept) else Panic
    | _ => Panic
    end
  end.
End Journal.
