(* ===== verification/SimJournalWf.v ===== *)
(** Theorems on the journal (SimJournal.v): what is read back after a cut at
    any byte, and that damage in the middle is not taken for a torn tail. *)
From S2P Require Import Prelude Float64 Types Client Rng Fault Checkpoint HvTypes SynthTypes ScorerTypes StoreTypes SimJournal.
Local Open Scope string_scope.
Local Open Scope list_scope.

(** ** Little-endian integers *)

Lemma of_le_bytes_le_bytes n v : (v < 256 ^ N.of_nat n)%N -> of_le_bytes (le_bytes n v) = v.
Proof.
  revert v. induction n as [|n IH]; intros v Hv; [cbn in *; lia|]. rewrite Nat2N.inj_succ, N.pow_succ_r' in Hv. cbn [le_bytes of_le_bytes].
  rewrite IH by (apply N.Div0.div_lt_upper_bound; lia). pose proof (N.div_mod' v 256). lia.
Qed.

Lemma of_le_bytes_bound bytes : Forall (fun b => b < 256)%N bytes -> (of_le_bytes bytes < 256 ^ N.of_nat (length bytes))%N.
Proof.
  induction 1 as [|b bytes Hb _ IH]; [cbn; lia|]. cbn [of_le_bytes length]. rewrite Nat2N.inj_succ, N.pow_succ_r'. lia.
Qed.

Section Journal.
Context `{B3 : Blake3, PJ : Postcard JournalRecord}.

Lemma truncated_bound payload : (truncated_blake3 payload < 256 ^ N.of_nat 8)%N.
Proof.
  unfold truncated_blake3. pose proof (of_le_bytes_bound (take 8 (blake3 payload)) (Forall_take _ _ _ (blake3_bytes payload))) as H.
  rewrite length_take, blake3_length in H. exact H.
Qed.

(** ** Frames *)

(** A frame whose header announces [checksum]. *)
Definition raw_frame (checksum : N) (payload : list N) : list N := le_bytes 4 (N.of_nat (length payload)) ++ le_bytes 8 checksum ++ payload.
Definition frame_bytes (r : JournalRecord) : list N :=
  match to_allocvec r with Ok payload => frame_header payload ++ payload | _ => [] end.
Definition all_frames (rs : list JournalRecord) : list N := rs ≫= frame_bytes.
(** A record with an encoding that the scan accepts. *)
Definition writable (r : JournalRecord) : Prop := exists payload, to_allocvec r = Ok payload /\ (N.of_nat (length payload) <= MAX_FRAME_LEN)%N.

Lemma frame_bytes_raw r payload : to_allocvec r = Ok payload -> frame_bytes r = raw_frame (truncated_blake3 payload) payload.
Proof. intros H. unfold frame_bytes, raw_frame, frame_header. by rewrite H, app_assoc. Qed.

Lemma raw_frame_length checksum payload : length (raw_frame checksum payload) = (FRAME_HEADER_LEN + length payload)%nat.
Proof. unfold raw_frame. by rewrite !length_app, !le_bytes_length. Qed.

Lemma frame_length r : writable r -> (FRAME_HEADER_LEN <= length (frame_bytes r))%nat.
Proof. intros (payload & H & _). rewrite (frame_bytes_raw _ _ H), raw_frame_length. lia. Qed.

(** What the scan makes of a frame that is there in full. *)
Lemma parse_raw_frame pre checksum payload rest : (checksum < 256 ^ N.of_nat 8)%N -> (N.of_nat (length payload) <= MAX_FRAME_LEN)%N ->
  parse_frame (pre ++ raw_frame checksum payload ++ rest) (length pre) =
  let next := (length pre + length (raw_frame checksum payload))%nat in
  if negb (truncated_blake3 payload =? checksum)%N then FrameCorrupt next
  else match from_bytes payload with Ok record => FrameOk record next | _ => FrameCorrupt next end.
Proof.
  intros Hc Hl. assert (N.of_nat (length payload) < 256 ^ N.of_nat 4)%N as Hl4 by (unfold MAX_FRAME_LEN in Hl; cbn; lia).
  unfold parse_frame. cbv zeta. rewrite drop_app_length, raw_frame_length.
  assert (length (raw_frame checksum payload ++ rest) = FRAME_HEADER_LEN + length payload + length rest)%nat as Hlen
    by (rewrite length_app, raw_frame_length; done).
  assert (take 4 (raw_frame checksum payload ++ rest) = le_bytes 4 (N.of_nat (length payload))) as ->
    by (unfold raw_frame; rewrite <- app_assoc; apply take_app_length'; by rewrite le_bytes_length).
  assert (drop 4 (raw_frame checksum payload ++ rest) = le_bytes 8 checksum ++ payload ++ rest) as Hd4
    by (unfold raw_frame; rewrite <- !app_assoc; apply drop_app_length'; by rewrite le_bytes_length).
  assert (drop FRAME_HEADER_LEN (raw_frame checksum payload ++ rest) = payload ++ rest) as ->
    by (change FRAME_HEADER_LEN with (4 + 8)%nat; rewrite <- drop_drop, Hd4; apply drop_app_length'; by rewrite le_bytes_length).
  rewrite Hd4. replace (take 8 (le_bytes 8 checksum ++ payload ++ rest)) with (le_bytes 8 checksum) by (symmetry; apply take_app_length'; by rewrite le_bytes_length).
  rewrite !of_le_bytes_le_bytes by done. rewrite Nat2N.id, take_app_length, Nat.add_assoc.
  rewrite (proj2 (Nat.ltb_ge _ _)), (proj2 (N.ltb_ge _ _) Hl), (proj2 (Nat.ltb_ge _ _)); [done|rewrite Hlen; lia|rewrite Hlen; lia].
Qed.

Lemma parse_frame_full pre r rest : writable r ->
  parse_frame (pre ++ frame_bytes r ++ rest) (length pre) = FrameOk r (length pre + length (frame_bytes r)).
Proof.
  intros (payload & H & Hl). rewrite (frame_bytes_raw _ _ H), parse_raw_frame by (done || apply truncated_bound).
  cbv zeta. rewrite N.eqb_refl, (postcard_roundtrip _ _ H). done.
Qed.

Lemma take_prefix_le {A : Type} n m (l : list A) : (n <= m)%nat -> take n (take m l) = take n l.
Proof. intros H. by rewrite take_take, Nat.min_l. Qed.

Lemma parse_frame_torn pre r k : writable r -> (k < length (frame_bytes r))%nat -> parse_frame (pre ++ take k (frame_bytes r)) (length pre) = FrameTorn.
Proof.
  intros (payload & H & Hl) Hk. assert (N.of_nat (length payload) < 256 ^ N.of_nat 4)%N as Hl4 by (unfold MAX_FRAME_LEN in Hl; cbn; lia).
  rewrite (frame_bytes_raw _ _ H) in *. unfold parse_frame. cbv zeta. rewrite drop_app_length, length_take, Nat.min_l by lia.
  destruct (Nat.ltb_spec k FRAME_HEADER_LEN) as [|Hh]; [done|].
  rewrite take_prefix_le by (unfold FRAME_HEADER_LEN in Hh; lia). unfold raw_frame at 1 2 3.
  rewrite (take_app_length' (le_bytes 4 _)) by (by rewrite le_bytes_length). rewrite of_le_bytes_le_bytes by done.
  rewrite (proj2 (N.ltb_ge _ _) Hl), Nat2N.id. rewrite raw_frame_length in Hk. by rewrite (proj2 (Nat.ltb_lt _ _) Hk).
Qed.

(** ** Whole files *)

(** The records whose frames end within the first [k] bytes. *)
Fixpoint complete (k : nat) (rs : list JournalRecord) : list JournalRecord :=
  match rs with
  | [] => []
  | r :: rs => if (length (frame_bytes r) <=? k)%nat then r :: complete (k - length (frame_bytes r)) rs else []
  end.

Lemma complete_prefix k rs : complete k rs `prefix_of` rs.
Proof.
  revert k. induction rs as [|r rs IH]; intros k; [done|]. cbn [complete].
  destruct (_ <=? k)%nat; [by apply prefix_cons|apply prefix_nil].
Qed.

Lemma complete_app k rs1 rs2 : (length (all_frames rs1) <= k)%nat -> complete k (rs1 ++ rs2) = rs1 ++ complete (k - length (all_frames rs1)) rs2.
Proof.
  revert k. induction rs1 as [|r rs1 IH]; intros k; [by rewrite Nat.sub_0_r|]. cbn [all_frames mbind list_bind app complete]. rewrite length_app.
  intros Hk. rewrite (proj2 (Nat.leb_le _ _)) by lia. rewrite IH by (unfold all_frames; lia). do 3 f_equal. unfold all_frames. lia.
Qed.

(** A file cut at any byte is whole frames and a strict part of the next. *)
Lemma take_frames k rs : exists tail, take k (all_frames rs) = all_frames (complete k rs) ++ tail /\
  (tail = [] \/ exists r j, r ∈ rs /\ (j < length (frame_bytes r))%nat /\ tail = take j (frame_bytes r)).
Proof.
  revert k. induction rs as [|r rs IH]; intros k; [exists []; split; [by destruct k|by left]|].
  cbn [all_frames mbind list_bind complete]. destruct (Nat.leb_spec (length (frame_bytes r)) k) as [Hk|Hk].
  - destruct (IH (k - length (frame_bytes r))%nat) as (tail & Htake & Htail). exists tail. rewrite take_app_ge by done. unfold all_frames in Htake.
    rewrite Htake. cbn [mbind list_bind]. rewrite <- app_assoc. split; [done|]. destruct Htail as [->|(r' & j & Hin & Hj & ->)]; [by left|].
    right. exists r', j. split; [by right|done].
  - exists (take k (frame_bytes r)). rewrite take_app_le by lia. split; [done|]. right. exists r, k. split; [by left|done].
Qed.

Lemma scan_whole_frames rs tail n : forall pre, Forall writable rs ->
  (tail = [] \/ exists r j, writable r /\ (j < length (frame_bytes r))%nat /\ tail = take j (frame_bytes r)) -> (length rs < n)%nat ->
  scan_frames n (pre ++ all_frames rs ++ tail) (length pre) =
  Ok (rs, if decide (tail = []) then None else Some (length (pre ++ all_frames rs))).
Proof.
  revert n. induction rs as [|r rs IH]; intros [|n] pre Hrs Htail Hn; [lia| |lia|].
  - cbn [scan_frames all_frames mbind list_bind app]. rewrite length_app, app_nil_r. destruct (decide (tail = [])) as [->|Hne].
    + by rewrite Nat.add_0_r, Nat.ltb_irrefl.
    + assert (0 < length tail)%nat as Hpos by (destruct tail; [done|cbn; lia]).
      rewrite (proj2 (Nat.ltb_lt _ _)) by (rewrite ?length_app; lia). destruct Htail as [?|(r & j & Hw & Hj & ->)]; [done|].
      by rewrite parse_frame_torn.
  - apply Forall_cons in Hrs as [Hr Hrs]. cbn [scan_frames all_frames mbind list_bind]. fold (all_frames rs). rewrite <- app_assoc, parse_frame_full by done.
    pose proof (frame_length r Hr) as Hl. unfold FRAME_HEADER_LEN in Hl. rewrite (proj2 (Nat.ltb_lt _ _)) by (rewrite !length_app; lia).
    cbn in Hn. rewrite app_assoc, <- length_app, (IH n (pre ++ frame_bytes r)) by (done || lia). cbn. by rewrite <- app_assoc.
Qed.

(** Scanning a file of whole frames with a torn tail. *)
Lemma load_torn rs tail : Forall writable rs -> head rs = None \/ head rs = Some (Header JOURNAL_VERSION) ->
  (tail = [] \/ exists r j, writable r /\ (j < length (frame_bytes r))%nat /\ tail = take j (frame_bytes r)) ->
  load (all_frames rs ++ tail) = Ok (rs, mkLoadStats (N.of_nat (length rs)) (N.of_nat (length tail)), all_frames rs).
Proof.
  intros Hrs Hhead Htail. unfold load.
  assert (length rs <= length (all_frames rs))%nat as Hlen.
  { clear Hhead. induction Hrs as [|r rs Hr _ IH]; [done|]. cbn [all_frames mbind list_bind length]. rewrite length_app.
    pose proof (frame_length r Hr). unfold all_frames, FRAME_HEADER_LEN in *. lia. }
  pose proof (scan_whole_frames rs tail (S (length (all_frames rs ++ tail))) [] Hrs Htail) as Hscan. cbn [app length] in Hscan.
  rewrite Hscan by (rewrite length_app; lia). cbn [mbind res_bind]. destruct (decide (tail = [])) as [->|Hne].
  - rewrite app_nil_r, Nat.sub_diag. destruct rs as [|r rs]; [done|]. destruct Hhead as [?|[= ->]]; done.
  - rewrite take_app_length, length_app, Nat.add_comm, Nat.add_sub. destruct rs as [|r rs]; [done|]. destruct Hhead as [?|[= ->]]; done.
Qed.

(** A file cut at any byte reads back as its whole frames. *)
Lemma load_cut rs k : Forall writable rs -> head rs = Some (Header JOURNAL_VERSION) ->
  exists truncated, load (take k (all_frames rs)) = Ok (complete k rs, mkLoadStats (N.of_nat (length (complete k rs))) truncated, all_frames (complete k rs)) /\
    (k <= length (all_frames rs) -> truncated = N.of_nat (k - length (all_frames (complete k rs))))%nat.
Proof.
  intros Hrs Hhead. pose proof (complete_prefix k rs) as Hp. destruct (take_frames k rs) as (tail & Htake & Htail).
  exists (N.of_nat (length tail)). rewrite Htake, load_torn.
  - split; [done|]. intros Hk. apply (f_equal length) in Htake. rewrite length_take, Nat.min_l, length_app in Htake by done. lia.
  - destruct Hp as [rest Hp]. rewrite Hp in Hrs. by apply Forall_app in Hrs as [? _].
  - destruct (complete k rs) as [|r rest]; [by left|]. right. destruct Hp as [rest' Hp]. rewrite Hp in Hhead. done.
  - destruct Htail as [->|(r & j & Hin & Hj & ->)]; [by left|]. right. exists r, j. rewrite Forall_forall in Hrs. auto.
Qed.

(** C26. A journal cut at any byte reads back as the records whose frames
    survived whole, the rest of the bytes is counted and cut off, and reading
    the file again gives the same records with nothing more to cut. *)
Theorem journal_torn_tail (rs : list JournalRecord) (k : nat) : Forall writable rs -> head rs = Some (Header JOURNAL_VERSION) ->
  (k <= length (all_frames rs))%nat ->
  let kept := complete k rs in
  kept `prefix_of` rs /\
  load (take k (all_frames rs)) =
    Ok (kept, mkLoadStats (N.of_nat (length kept)) (N.of_nat (k - length (all_frames kept))), all_frames kept) /\
  load (all_frames kept) = Ok (kept, mkLoadStats (N.of_nat (length kept)) 0, all_frames kept).
Proof.
  intros Hrs Hhead Hk. cbv zeta. pose proof (complete_prefix k rs) as Hp. split; [done|].
  destruct (load_cut rs k Hrs Hhead) as (truncated & Hload & Ht). rewrite (Ht Hk) in Hload. split; [done|].
  pose proof (load_torn (complete k rs) [] ) as Hwhole. rewrite app_nil_r in Hwhole. apply Hwhole.
  - destruct Hp as [rest Hp]. rewrite Hp in Hrs. by apply Forall_app in Hrs as [? _].
  - destruct (complete k rs) as [|r rest]; [by left|]. right. destruct Hp as [rest' Hp]. rewrite Hp in Hhead. done.
  - by left.
Qed.

(** Damage is not a torn tail: a frame whose payload does not match its
    checksum, with a whole frame after it, stops the scan. *)
Theorem journal_damage_detected (rs later : list JournalRecord) (r : JournalRecord) (checksum : N) (payload : list N) :
  Forall writable rs -> writable r -> (checksum < 256 ^ N.of_nat 8)%N -> (N.of_nat (length payload) <= MAX_FRAME_LEN)%N ->
  truncated_blake3 payload <> checksum -> load (all_frames rs ++ raw_frame checksum payload ++ all_frames (r :: later)) = Panic.
Proof.
  intros Hrs Hr Hc Hl Hne. unfold load. set (bytes := all_frames rs ++ _).
  enough (forall n pre, bytes = pre ++ all_frames rs ++ raw_frame checksum payload ++ all_frames (r :: later) ->
    scan_frames n bytes (length pre) = Panic) as H by (by rewrite (H _ []) by done).
  clearbody bytes. induction Hrs as [|r0 rs Hr0 _ IH]; intros [|n] pre Hb; [done| |done|]; cbn [scan_frames].
  - change (all_frames [] ++ raw_frame checksum payload ++ all_frames (r :: later)) with (raw_frame checksum payload ++ all_frames (r :: later)) in Hb.
    assert (length pre + 12 <= length bytes)%nat as Hlen by (rewrite Hb, !length_app, raw_frame_length; unfold FRAME_HEADER_LEN; lia).
    rewrite (proj2 (Nat.ltb_lt _ _)) by lia. rewrite Hb at 1. rewrite parse_raw_frame by done. cbv zeta.
    rewrite (proj2 (N.eqb_neq _ _) Hne). cbn [negb]. destruct (length bytes) as [|m] eqn:El; [lia|].
    assert (bytes = (pre ++ raw_frame checksum payload) ++ frame_bytes r ++ all_frames later) as Hb' by (rewrite Hb, <- app_assoc; done).
    cbn [damaged_after]. rewrite <- length_app. pose proof (frame_length r Hr) as Hfr. unfold FRAME_HEADER_LEN in Hfr.
    rewrite (proj2 (Nat.ltb_lt _ _)) by (rewrite Hb', !length_app; lia). rewrite Hb', parse_frame_full by done. done.
  - cbn [all_frames mbind list_bind] in Hb. rewrite <- !app_assoc in Hb. pose proof (frame_length r0 Hr0) as Hfr. unfold FRAME_HEADER_LEN in Hfr.
    rewrite (proj2 (Nat.ltb_lt _ _)) by (rewrite Hb, !length_app; lia). rewrite Hb at 1. rewrite parse_frame_full by done.
    rewrite <- length_app, (IH n (pre ++ frame_bytes r0)); [done|]. rewrite Hb, <- app_assoc. done.
Qed.
End Journal.

(** ** Witnesses *)

(** A small codec for the records of one metadata key. *)
Definition toy_key : MetadataKey := "orch/wal/exp/1".
Definition toy_put (id : N) (value : list N) : JournalRecord := StPutMetadata id (mkPutMetadataRequest toy_key value Unconditional).
Definition toy_encode (r : JournalRecord) : res string (list N) :=
  match r with
  | Header v => Ok [0; v]%N
  | Applied id d => Ok [1; id; d]%N
  | ReclaimSession id => Ok [2; id]%N
  | StPutMetadata id q =>
    match pm_expected_generation q with
    | Unconditional => if decide (pm_key q = toy_key) then Ok (3%N :: id :: pm_value q) else Err "unsupported"
    | _ => Err "unsupported"
    end
  | _ => Err "unsupported"
  end.
Definition toy_decode (bytes : list N) : res string JournalRecord :=
  match bytes with
  | [0; v]%N => Ok (Header v)
  | [1; id; d]%N => Ok (Applied id d)
  | [2; id]%N => Ok (ReclaimSession id)
  | 3%N :: id :: value => Ok (toy_put id value)
  | _ => Err "malformed"
  end.

Lemma toy_roundtrip r bytes : toy_encode r = Ok bytes -> toy_decode bytes = Ok r.
Proof.
  destruct r; cbn; try (intros [= <-]; done); try done. destruct request as [k v x]; cbn. destruct x; [|done..].
  destruct (decide (k = toy_key)) as [->|]; [|done]. by intros [= <-].
Qed.

Lemma toy_decode_total bytes : toy_decode bytes <> Panic.
Proof. unfold toy_decode. repeat case_match; done. Qed.

Lemma toy_encode_total r : toy_encode r <> Panic.
Proof. unfold toy_encode. repeat case_match; done. Qed.

Definition toy_journal_codec : Postcard JournalRecord := {|
  to_allocvec := toy_encode; from_bytes := toy_decode;
  postcard_roundtrip := toy_roundtrip; to_allocvec_no_panic := toy_encode_total; from_bytes_no_panic := toy_decode_total
|}.
#[local] Existing Instance toy_journal_codec.
#[local] Existing Instance toy_blake3.

Definition sample_records : list JournalRecord := [Header JOURNAL_VERSION; toy_put 1 [5; 6]%N; Applied 1 9; toy_put 2 [7]%N].

Lemma sample_writable : Forall writable sample_records.
Proof. repeat (constructor; [eexists; split; [reflexivity|vm_compute; discriminate]|]). constructor. Qed.

(** The last frame lost its last byte. *)
Lemma journal_torn_tail_witness : let bytes := all_frames sample_records in
  (fst <$> load (take (length bytes - 1) bytes)) = Ok (take 3 sample_records, mkLoadStats 3 14).
Proof.
  cbv zeta. destruct (journal_torn_tail sample_records (length (all_frames sample_records) - 1) sample_writable eq_refl ltac:(lia)) as (_ & H & _).
  cbv zeta in H. rewrite H. vm_compute. reflexivity.
Defined.

(** A flipped byte in the payload of the first call. *)
Lemma journal_damage_detected_witness :
  load (all_frames [Header JOURNAL_VERSION] ++ raw_frame (truncated_blake3 [3; 1; 5; 6]%N) [3; 1; 5; 7]%N ++ all_frames [Applied 1 9; toy_put 2 [7]%N]) = Panic.
Proof.
  pose proof sample_writable as H. unfold sample_records in H. apply Forall_cons in H as [H1 H]. apply Forall_cons in H as [_ H]. apply Forall_cons in H as [H3 _].
  apply (journal_damage_detected [Header JOURNAL_VERSION] [toy_put 2 [7]%N] (Applied 1 9)); [by constructor|exact H3|apply truncated_bound|vm_compute; discriminate|vm_compute; discriminate].
Defined.
