(* ===== verification/Quiet.v ===== *)
(** Code that does not look at a hidden part of its state.  The doubles of the
    four services keep a fault injector (and the hypervisor a watch cursor)
    that read-only calls change; with a disabled fault plan the answers do not
    depend on it. *)
From S2P Require Import Prelude Client Rng Fault.

(** [hide x s] is [s] with its hidden part replaced by [x]. *)
Class Concealed (S H : Type) := {
  hidden : S -> H;
  hide : H -> S -> S;
  hide_hidden : forall s, hide (hidden s) s = s;
  hidden_hide : forall x s, hidden (hide x s) = x;
  hide_hide : forall x y s, hide x (hide y s) = hide x s
}.

Create HintDb quiet.

Section Quiet.
Context {S H E : Type} `{CC : Concealed S H}.

Definition quiet {A : Type} (m : st S E A) : Prop := forall x s, m (hide x s) = ((m s).1, hide x (m s).2).

Lemma quiet_code_ret {A : Type} (a : A) : quiet (mret a).
Proof. done. Qed.

Lemma quiet_code_lift {A : Type} (r : res E A) : quiet (lift_res r).
Proof. done. Qed.

Lemma quiet_code_bind {A B : Type} (m : st S E A) (k : A -> st S E B) : quiet m -> (forall a, quiet (k a)) -> quiet (m ≫= k).
Proof. intros Hm Hk x s. rewrite !st_bind_run, Hm. destruct (m s) as [[a|e|] s1]; [|done..]. cbn. apply Hk. Qed.

Lemma quiet_gets {A B : Type} (f : S -> A) (k : A -> st S E B) : (forall x s, f (hide x s) = f s) -> (forall a, quiet (k a)) -> quiet (gets f ≫= k).
Proof. intros Hf Hk x s. rewrite !gets_bind, Hf. apply Hk. Qed.

Lemma quiet_state {A : Type} (f : S -> res E A) : (forall x s, f (hide x s) = f s) -> quiet (fun s => (f s, s)).
Proof. intros Hf x s. cbn. by rewrite Hf. Qed.

Lemma quiet_modify (f : S -> S) : (forall x s, f (hide x s) = hide x (f s)) -> quiet (modify f).
Proof. intros Hf x s. unfold modify. cbn. by rewrite Hf. Qed.

Lemma quiet_get {A : Type} (k : S -> st S E A) : (forall x s, k (hide x s) = k s) -> (forall s, quiet (k s)) -> quiet (get_st ≫= k).
Proof. intros Hf Hk x s. rewrite !st_bind_run. cbn. rewrite Hf. apply Hk. Qed.

Lemma quiet_mapM {A B : Type} (f : A -> st S E B) xs : (forall a, quiet (f a)) -> quiet (mapM_st f xs).
Proof. intros Hf. induction xs as [|a xs IH]; [done|]. cbn [mapM_st]. apply quiet_code_bind; [done|]. intros b. apply quiet_code_bind; [done|]. done. Qed.

(** A quiet step keeps what is hidden. *)
Lemma quiet_keeps {A : Type} (m : st S E A) s : quiet m -> hidden (m s).2 = hidden s.
Proof. intros Hm. pose proof (Hm (hidden s) s) as Hs. rewrite hide_hidden in Hs. rewrite Hs. cbn. apply hidden_hide. Qed.

(** ** Equal up to the hidden part *)

Definition alike (s1 s2 : S) : Prop := forall x, hide x s1 = hide x s2.

Global Instance alike_equivalence : Equivalence alike.
Proof. split; [done|by intros s1 s2 H12 x|]. intros s1 s2 s3 H12 H23 x. by rewrite H12. Qed.

Lemma alike_hide x s : alike (hide x s) s.
Proof. intros y. apply hide_hide. Qed.

Lemma alike_split s1 s2 : alike s1 s2 -> s2 = hide (hidden s2) s1.
Proof. intros H12. by rewrite H12, hide_hidden. Qed.

Lemma quiet_alike {A : Type} (m : st S E A) s1 s2 : quiet m -> alike s1 s2 -> (m s1).1 = (m s2).1 /\ alike (m s1).2 (m s2).2.
Proof. intros Hm ->%alike_split. rewrite Hm. cbn. split; [done|]. symmetry. apply alike_hide. Qed.
End Quiet.

#[export] Hint Resolve quiet_code_ret quiet_code_lift quiet_code_bind quiet_gets quiet_state quiet_modify quiet_get quiet_mapM : quiet.

(** ** Services with a disabled fault plan *)

(** The hidden part holds the injector. *)
Class FaultyService (S H : Type) {CC : Concealed S H} := {
  injector_of : H -> FaultInjector;
  service_target : FaultTarget
}.

Section Calm.
Context `{B3 : Blake3} {S H : Type} `{FS : FaultyService S H}.

(** No faults are planned and no stream has made more than [n] decisions. *)
Definition calm (n : nat) (s : S) : Prop :=
  (exists seed, fi_plan (injector_of (hidden s)) = plan_disabled seed) /\
  forall q, (stream_attempt q (injector_of (hidden s)) <= N.of_nat n)%N.

Lemma calm_mono n k s : calm n s -> (n <= k)%nat -> calm k s.
Proof. intros [Hp Hq] Hk. split; [done|]. intros q. specialize (Hq q). lia. Qed.

Lemma no_planned_fault seed request attempt : fault_terminal (plan_disabled seed) request attempt = FaultNone.
Proof.
  unfold fault_terminal. destruct (attempt =? 1)%N; [done|]. unfold decide_terminal. cbn [plan_disabled fp_timeout_rate fp_error_rate per_million never].
  change (N.min (saturating_add u64_max 0 0) DENOMINATOR) with 0%N. cbv zeta.
  by rewrite (proj2 (N.ltb_ge _ 0) (N.le_0_l _)).
Qed.

Lemma disabled_decision seed request items attempt : decide_with_attempt (plan_disabled seed) request items attempt = Ok FaultDecision_default.
Proof.
  unfold decide_with_attempt. rewrite no_planned_fault. rewrite bool_decide_true by done. unfold partial_decide. cbn [plan_disabled fp_partial_response partial_disabled pf_rate].
  change (fires never _) with false. change (fires (fp_synth_fingerprint_flip_rate _) _) with false. by rewrite andb_false_r, orb_true_r.
Qed.

(** A decision for a call: no fault, and only the hidden part changes. *)
Definition draws_calmly (m : st S ClientError FaultDecision) : Prop := forall n s, calm n s -> (N.of_nat n < u64_max)%N ->
  exists s', m s = (Ok FaultDecision_default, s') /\ alike s s' /\ calm (Datatypes.S n) s'.

Lemma calm_decide n s request items : calm n s -> (N.of_nat n < u64_max)%N ->
  exists i, fault_decide request items (injector_of (hidden s)) = (Ok FaultDecision_default, i) /\
    (exists seed, fi_plan i = plan_disabled seed) /\ forall q, (stream_attempt q i <= N.of_nat (Datatypes.S n))%N.
Proof.
  intros [[seed Hp] Hq] Hn. assert (stream_attempt request (injector_of (hidden s)) < u64_max)%N as Hlt by (specialize (Hq request); lia).
  destruct (fault_decide_run request items _ Hlt) as (d & Hd & Hrun). rewrite Hp, disabled_decision in Hd. injection Hd as <-.
  eexists. split; [exact Hrun|]. split; [by exists seed|]. intros q. pose proof (stream_attempt_after q request items _ Hlt) as Ha. rewrite Hrun in Ha. cbn [snd] in Ha.
  rewrite Ha. specialize (Hq q). destruct (decide _); lia.
Qed.

(** Calls whose answer does not depend on the hidden part. *)
Definition determinate {A : Type} (m : st S ClientError A) : Prop := forall n s1 s2, (N.of_nat n < u64_max)%N -> calm n s1 -> calm n s2 -> alike s1 s2 ->
  (m s1).1 = (m s2).1 /\ alike (m s1).2 (m s2).2 /\ calm (Datatypes.S n) (m s1).2 /\ calm (Datatypes.S n) (m s2).2.

Lemma quiet_calm {A : Type} n (m : st S ClientError A) s : quiet m -> calm n s -> calm n (m s).2.
Proof. intros Hm [Hp Hq]. unfold calm. by rewrite quiet_keeps. Qed.

Lemma determinate_quiet {A : Type} (m : st S ClientError A) : quiet m -> determinate m.
Proof.
  intros Hm n s1 s2 Hn H1 H2 H12. destruct (quiet_alike m s1 s2 Hm H12) as [Hr Hs]. split; [done|]. split; [done|].
  split; (eapply calm_mono; [by apply quiet_calm|lia]).
Qed.

Lemma determinate_fault {A : Type} (m : st S ClientError FaultDecision) (k : FaultDecision -> st S ClientError A) :
  draws_calmly m -> (forall d, quiet (k d)) -> determinate (m ≫= k).
Proof.
  intros Hm Hk n s1 s2 Hn H1 H2 H12. destruct (Hm n s1 H1 Hn) as (t1 & E1 & A1 & C1). destruct (Hm n s2 H2 Hn) as (t2 & E2 & A2 & C2).
  rewrite !st_bind_run, E1, E2. assert (alike t1 t2) as Ht by (by rewrite <- A1, <- A2).
  destruct (quiet_alike (k FaultDecision_default) t1 t2 (Hk _) Ht) as [Hr Hs]. split; [done|]. split; [done|]. split; by apply quiet_calm.
Qed.

Lemma determinate_get {A : Type} (k : S -> st S ClientError A) : (forall x s, k (hide x s) = k s) -> (forall s, determinate (k s)) -> determinate (get_st ≫= k).
Proof.
  intros Hx Hk n s1 s2 Hn H1 H2 H12. rewrite !st_bind_run. cbn [get_st].
  assert (k s2 = k s1) as -> by (rewrite (alike_split s1 s2 H12); apply Hx). by apply Hk.
Qed.

Lemma determinate_lift {A B : Type} (r : res ClientError A) (k : A -> st S ClientError B) : (forall a, determinate (k a)) -> determinate (lift_res r ≫= k).
Proof.
  intros Hk. destruct r as [a|e|]; [apply Hk|..]; apply determinate_quiet; by intros x s.
Qed.

(** Calls that change only the hidden part. *)
Definition reads {A : Type} (m : st S ClientError A) : Prop := forall n s, calm n s -> (N.of_nat n < u64_max)%N ->
  alike s (m s).2 /\ calm (Datatypes.S n) (m s).2.

Lemma reads_const {A : Type} (m : st S ClientError A) : (forall s, (m s).2 = s) -> reads m.
Proof. intros Hm n s Hc Hn. rewrite Hm. split; [done|]. eapply calm_mono; [done|lia]. Qed.

Lemma reads_fault {A : Type} (m : st S ClientError FaultDecision) (k : FaultDecision -> st S ClientError A) :
  draws_calmly m -> (forall d s, (k d s).2 = s) -> reads (m ≫= k).
Proof. intros Hm Hk n s Hc Hn. rewrite st_bind_run. destruct (Hm n s Hc Hn) as (s' & -> & Ha & Hc'). by rewrite Hk. Qed.

(** After a look at the state. *)
Lemma reads_look {A B : Type} (f : S -> res ClientError A) (k : A -> st S ClientError B) : (forall a, reads (k a)) -> reads ((fun s => (f s, s)) ≫= k).
Proof.
  intros Hk n s Hc Hn. rewrite st_bind_run. destruct (f s) as [a|e|]; [by apply Hk|..]; (split; [done|]); (eapply calm_mono; [done|lia]).
Qed.
End Calm.

#[export] Hint Resolve determinate_quiet determinate_fault : quiet.
