(* ===== verification/SimWorld.v ===== *)
(** The persistent test world (crates/orch-simstate/src/world.rs and
    compare.rs, and the choice of the world in
    bins/orchestratord/src/simulate.rs): the four doubles behind one journal,
    the replay of the journal after a crash, and the fingerprints by which
    worlds are compared. *)
From S2P Require Import Prelude Float64 Types Client Rng Fault Mirror Frontier Checkpoint MetaStore HvTypes SynthTypes ScorerTypes StoreTypes Grid FakeHv NodeTable NodeAttrs FakeScorer FakeSynth SimJournal.
Local Open Scope string_scope.
Local Open Scope list_scope.

(** ** The services *)

(** The store is one service: its rows and its metadata. *)
Record Services := mkServices {
  sv_hypervisor : FakeHypervisor;
  sv_scorer : FakeScorer;
  sv_nodes : SnapshotStore;
  sv_metadata : FakeStore;
  sv_synth : FakeSynth
}.
Definition set_hypervisor (h : FakeHypervisor) (s : Services) : Services := mkServices h (sv_scorer s) (sv_nodes s) (sv_metadata s) (sv_synth s).
Definition set_scorer (c : FakeScorer) (s : Services) : Services := mkServices (sv_hypervisor s) c (sv_nodes s) (sv_metadata s) (sv_synth s).
Definition set_nodes (n : SnapshotStore) (s : Services) : Services := mkServices (sv_hypervisor s) (sv_scorer s) n (sv_metadata s) (sv_synth s).
Definition set_store_metadata (m : FakeStore) (s : Services) : Services := mkServices (sv_hypervisor s) (sv_scorer s) (sv_nodes s) m (sv_synth s).
Definition set_synth (y : FakeSynth) (s : Services) : Services := mkServices (sv_hypervisor s) (sv_scorer s) (sv_nodes s) (sv_metadata s) y.

Definition fresh_fakes : Services :=
  mkServices (with_world_slots_and_fault_plan three_room DEFAULT_SLOTS_TOTAL (plan_disabled 0))
    (scorer_with_world_and_fault_plan three_room (plan_disabled 0)) (with_fault_plan (plan_disabled 0)) (mkFakeStore ∅ [] 0)
    (synth_with_fault_plan (plan_disabled 0)).

(** What the calls answer. *)
Inductive Response :=
| RCreateVm (r : CreateVmResponse)
| RRestoreSnapshot (r : RestoreSnapshotResponse)
| RFork (leases : list Lease)
| RInjectInputs (accepted : N)
| RRun (r : RunResponse)
| RTakeSnapshot (r : TakeSnapshotResponse)
| RDestroyVm
| RCreateNode (node : NodeMeta)
| RUpdateNodes (r : UpdateNodesResponse)
| RPutMetadata (generation : MetadataGeneration)
| RDeleteMetadata
| RPruneSubtree (pruned : N)
| RLoadFeatureMap (r : LoadFeatureMapResponse)
| RLoadScoringProgram (r : LoadScoringProgramResponse)
| RScoreBatch (r : ScoreBatchResponse)
| RCheckpointArchive (r : CheckpointArchiveResponse)
| RRestoreArchive (r : RestoreArchiveResponse)
| RReplayCommits (r : ReplayCommitsResponse)
| RLoadMacroPack (r : LoadMacroPackResponse)
| RProposeBursts (r : ProposeBurstsResponse)
| RMineMacros (r : MineMacrosResponse).

(** The postcard encoding of a response, and of the mirror of an error. *)
Class ResponseEncoding := {
  enc_response : Response -> list N;
  enc_error : string -> string -> list N
}.

Inductive BreakMode := PerturbNode | DropScorerReplay.
Global Instance BreakMode_eq_dec : EqDecision BreakMode.
Proof. solve_decision. Defined.

(** The kind of record a call appends. *)
Definition record_kind (r : JournalRecord) : RecordKind :=
  match r with
  | StPutMetadata _ request =>
    if String.prefix "orch/wal/" (pm_key request) then WalAppend
    else if String.prefix "orch/ckpt/" (pm_key request) then CkptPut
    else OtherRecord
  | _ => OtherRecord
  end.

(** The record of the same call under another id. *)
Definition with_op_id (id : N) (r : JournalRecord) : JournalRecord :=
  match r with
  | Header v => Header v
  | Applied _ d => Applied id d
  | ReclaimSession _ => ReclaimSession id
  | HvCreateVm _ q => HvCreateVm id q
  | HvRestoreSnapshot _ q => HvRestoreSnapshot id q
  | HvFork _ q => HvFork id q
  | HvInjectInputs _ q => HvInjectInputs id q
  | HvRun _ q => HvRun id q
  | HvTakeSnapshot _ q => HvTakeSnapshot id q
  | HvDestroyVm _ q => HvDestroyVm id q
  | StCreateNode _ q => StCreateNode id q
  | StUpdateNodes _ q => StUpdateNodes id q
  | StPutMetadata _ q => StPutMetadata id q
  | StDeleteMetadata _ q => StDeleteMetadata id q
  | StPruneSubtree _ q => StPruneSubtree id q
  | ScLoadFeatureMap _ q => ScLoadFeatureMap id q
  | ScLoadScoringProgram _ q => ScLoadScoringProgram id q
  | ScScoreBatch _ q => ScScoreBatch id q
  | ScCheckpointArchive _ q => ScCheckpointArchive id q
  | ScRestoreArchive _ q => ScRestoreArchive id q
  | ScReplayCommits _ q => ScReplayCommits id q
  | SyLoadMacroPack _ q => SyLoadMacroPack id q
  | SyProposeBursts _ q => SyProposeBursts id q
  | SyMineMacros _ q => SyMineMacros id q
  end.

Section World.
Context `{B3 : Blake3, CH : ChaCha12, HE : HvEncoding, SE : ScorerEncoding, TE : StoreEncoding, YE : SynthEncoding, RE : ResponseEncoding}.
Context `{PJ : Postcard JournalRecord, PA : Postcard OrchNodeAttrsV1}.

(** ** Calls *)

(** A call of one service, on all of them. *)
Definition call {T A : Type} (get : Services -> T) (put : T -> Services -> Services) (wrap : A -> Response) (m : st T ClientError A)
    : st Services ClientError Response := fun s =>
  let '(r, t) := m (get s) in (wrap <$> r, put t s).

(** The inner call of a journaled record; [None] for the other records. *)
Definition invoke (r : JournalRecord) : option (st Services ClientError Response) :=
  match r with
  | Header _ | Applied _ _ | ReclaimSession _ => None
  | HvCreateVm _ q => Some (call sv_hypervisor set_hypervisor RCreateVm (fake_create_vm q))
  | HvRestoreSnapshot _ q => Some (call sv_hypervisor set_hypervisor RRestoreSnapshot (fake_restore_snapshot q))
  | HvFork _ q => Some (call sv_hypervisor set_hypervisor RFork (fake_fork q))
  | HvInjectInputs _ q => Some (call sv_hypervisor set_hypervisor RInjectInputs (fake_inject_inputs q))
  | HvRun _ q => Some (call sv_hypervisor set_hypervisor RRun (fake_run q))
  | HvTakeSnapshot _ q => Some (call sv_hypervisor set_hypervisor RTakeSnapshot (fake_take_snapshot q))
  | HvDestroyVm _ lease => Some (call sv_hypervisor set_hypervisor (fun _ => RDestroyVm) (fake_destroy_vm lease))
  | StCreateNode _ q => Some (call sv_nodes set_nodes RCreateNode (fake_create_node q))
  | StUpdateNodes _ q => Some (call sv_nodes set_nodes RUpdateNodes (fake_update_nodes q))
  | StPutMetadata _ q =>
    Some (call sv_metadata set_store_metadata RPutMetadata (fake_put_metadata (pm_key q) (pm_value q) (pm_expected_generation q)))
  | StDeleteMetadata _ q =>
    Some (call sv_metadata set_store_metadata (fun _ => RDeleteMetadata) (fake_delete_metadata (dm_key q) (dm_expected_generation q)))
  | StPruneSubtree _ q => Some (call sv_nodes set_nodes RPruneSubtree (fake_prune_subtree q))
  | ScLoadFeatureMap _ q => Some (call sv_scorer set_scorer RLoadFeatureMap (fake_load_feature_map q))
  | ScLoadScoringProgram _ q => Some (call sv_scorer set_scorer RLoadScoringProgram (fake_load_scoring_program q))
  | ScScoreBatch _ q => Some (call sv_scorer set_scorer RScoreBatch (fake_score_batch q))
  | ScCheckpointArchive _ q => Some (call sv_scorer set_scorer RCheckpointArchive (fake_checkpoint_archive q))
  | ScRestoreArchive _ q => Some (call sv_scorer set_scorer RRestoreArchive (fake_restore_archive q))
  | ScReplayCommits _ q => Some (call sv_scorer set_scorer RReplayCommits (fake_replay_commits q))
  | SyLoadMacroPack _ q => Some (call sv_synth set_synth RLoadMacroPack (fake_load_macro_pack q))
  | SyProposeBursts _ q => Some (call sv_synth set_synth RProposeBursts (fake_propose_bursts q))
  | SyMineMacros _ q => Some (call sv_synth set_synth RMineMacros (fake_mine_macros q))
  end.

(** A panic of the service is one of the caller. *)
Definition digest_response {E : Type} (r : res ClientError Response) : res E N :=
  match r with
  | Ok response => Ok (truncated_blake3 (enc_response response))
  | Err e => Ok (truncated_blake3 (enc_error (kind_as_str (ce_kind e)) (ce_message e)))
  | Panic => Panic
  end.

(** ** The journaled world *)

Record SimWorld := mkSimWorld { sw_services : Services; sw_journal : option Journal }.

Definition on_journal {A : Type} (m : st Journal Stopped A) (j : Journal) : st SimWorld Stopped A := fun w =>
  let '(r, j') := m j in (r, mkSimWorld (sw_services w) (Some j')).
Definition on_services (m : st Services ClientError Response) : st SimWorld Stopped (res ClientError Response) := fun w =>
  let '(r, s) := m (sw_services w) in
  (match r with Panic => Panic | _ => Ok r end, mkSimWorld s (sw_journal w)).
Definition current_journal : st SimWorld Stopped Journal := fun w => (expect (sw_journal w), w).

(** Logged before it is applied, and its digest noted after. *)
Definition journaled (r : JournalRecord) (m : st Services ClientError Response) : st SimWorld Stopped (res ClientError Response) :=
  w ← get_st;
  match sw_journal w with
  | None => on_services m
  | Some j =>
    op_id ← on_journal (append_op (fun op_id => with_op_id op_id r) (record_kind r)) j;
    response ← on_services m;
    digest ← lift_res (digest_response response);
    j ← current_journal;
    _ ← on_journal (append_advisory (Applied op_id digest)) j;
    mret response
  end.
Definition persistent_call (r : JournalRecord) : st SimWorld Stopped (res ClientError Response) :=
  m ← lift_res (expect (invoke r)); journaled r m.

Definition world_ephemeral : SimWorld := mkSimWorld fresh_fakes None.
Definition world_create (torn : option TornHook) : res Stopped SimWorld :=
  match Journal_create torn with
  | (Ok _, j) => Ok (mkSimWorld fresh_fakes (Some j))
  | (Err e, _) => Err e
  | (Panic, _) => Panic
  end.

(** ** Replay *)

Record Replay := mkReplay { rp_services : Services; rp_max_op_id : N; rp_perturbed : bool }.
Definition replay_start : Replay := mkReplay fresh_fakes 0 false.

Definition applied_digests (records : list JournalRecord) : gmap N N :=
  foldl (fun m r => match r with Applied op_id digest => <[op_id := digest]> m | _ => m end) ∅ records.
(** The digest of a replayed call against the one noted when it was made. *)
Definition check_digest (break_mode : option BreakMode) (applied : gmap N N) (op_id digest : N) : res Stopped unit :=
  match break_mode with
  | Some _ => Ok tt
  | None => match applied !! op_id with
            | Some expected => if (digest =? expected)%N then Ok tt else Panic
            | None => Ok tt
            end
  end.

Definition perturb (q : CreateNodeRequest) : res Stopped CreateNodeRequest :=
  match FiniteF64_new (f64_add (finite_get (cn_progress_score q)) (f64_div f64_one (f64_of_N 8))) with
  | Ok score => Ok (mkCreateNodeRequest (cn_experiment_id q) (cn_node_id q) (cn_parent_node_id q) (cn_snapshot_ref q) (cn_input_log_id q)
                      (cn_status q) score (cn_novelty_score q) (cn_attrs q) (cn_input_log_container q))
  | _ => Panic
  end.
(** The record to replay, and whether a node has been perturbed. *)
Definition broken_record (break_mode : option BreakMode) (perturbed : bool) (r : JournalRecord) : res Stopped (JournalRecord * bool) :=
  match r with
  | StCreateNode op_id q =>
    if bool_decide (break_mode = Some PerturbNode) && negb perturbed
    then q ← perturb q; Ok (StCreateNode op_id q, true) else Ok (r, perturbed)
  | _ => Ok (r, perturbed)
  end.
Definition dropped (break_mode : option BreakMode) (r : JournalRecord) : bool :=
  match r with
  | ScScoreBatch _ _ | ScReplayCommits _ _ => bool_decide (break_mode = Some DropScorerReplay)
  | _ => false
  end.

(** The loop over the slots ends when there are none left. *)
Definition reclaim (s : Services) : res Stopped Services :=
  h ← expect (reclaim_session (size (fh_slots (sv_hypervisor s))) (sv_hypervisor s)); Ok (set_hypervisor h s).

Definition replay_record (break_mode : option BreakMode) (applied : gmap N N) (p : Replay) (r : JournalRecord) : res Stopped Replay :=
  let max_op_id := N.max (rp_max_op_id p) (default 0%N (record_op_id r)) in
  match r with
  | Header _ | Applied _ _ => Ok (mkReplay (rp_services p) max_op_id (rp_perturbed p))
  | ReclaimSession _ => s ← reclaim (rp_services p); Ok (mkReplay s max_op_id (rp_perturbed p))
  | _ =>
    if dropped break_mode r then Ok (mkReplay (rp_services p) max_op_id (rp_perturbed p))
    else
      '(r, perturbed) ← broken_record break_mode (rp_perturbed p) r;
      m ← expect (invoke r);
      let '(response, s) := m (rp_services p) in
      digest ← digest_response response;
      _ ← check_digest break_mode applied (default 0%N (record_op_id r)) digest;
      Ok (mkReplay s max_op_id perturbed)
  end.
Fixpoint replay_records (break_mode : option BreakMode) (applied : gmap N N) (records : list JournalRecord) (p : Replay) : res Stopped Replay :=
  match records with
  | [] => Ok p
  | r :: rest => p ← replay_record break_mode applied p r; replay_records break_mode applied rest p
  end.

(** The world read back from the bytes of a journal, the statistics, and the
    journal file as it is left. *)
Definition reload_inner (bytes : list N) (torn : option TornHook) (break_mode : option BreakMode) (readonly : bool)
    : res Stopped (SimWorld * LoadStats * list N) :=
  '(records, stats, kept) ← load bytes;
  p ← replay_records break_mode (applied_digests records) records replay_start;
  if readonly then Ok (mkSimWorld (rp_services p) None, stats, kept)
  else
    next_op_id ← expect (checked_add u64_max (rp_max_op_id p) 1);
    s ← reclaim (rp_services p);
    match append_op ReclaimSession OtherRecord (Journal_open_existing kept next_op_id torn) with
    | (Ok _, j) => Ok (mkSimWorld s (Some j), stats, jf_bytes (jn_file j))
    | (Err e, _) => Err e
    | (Panic, _) => Panic
    end.
Definition reload (bytes : list N) (torn : option TornHook) := reload_inner bytes torn None false.
Definition reload_broken (bytes : list N) (torn : option TornHook) (mode : BreakMode) := reload_inner bytes torn (Some mode) false.
Definition reload_readonly (bytes : list N) (torn : option TornHook) := reload_inner bytes torn None true.
Definition reload_broken_readonly (bytes : list N) (torn : option TornHook) (mode : BreakMode) := reload_inner bytes torn (Some mode) true.

(** The world a daemon starts with: [state_dir] is the journal file found in
    the state directory, if one is given. *)
Definition open_world (state_dir : option (option (list N))) (torn : option TornHook) (break_mode : option BreakMode)
    : res Stopped (res string SimWorld) :=
  match state_dir, break_mode with
  | None, Some _ => Ok (Err "ORCH_SIM_BREAK requires --state-dir")
  | None, None => Ok (Ok world_ephemeral)
  | Some (Some bytes), Some mode => '(w, _, _) ← reload_broken bytes torn mode; Ok (Ok w)
  | Some (Some bytes), None => '(w, _, _) ← reload bytes torn; Ok (Ok w)
  | Some None, Some _ => Ok (Err "ORCH_SIM_BREAK requires an existing journal to corrupt")
  | Some None, None => w ← world_create torn; Ok (Ok w)
  end.

(** ** Comparison *)

Definition all_query (experiment_id : string) : QueryNodesRequest :=
  mkQueryNodesRequest experiment_id [] None None None None None None None CreatedAt None.
Definition all_nodes (experiment_id : string) (store : SnapshotStore) : res Stopped (list NodeMeta) :=
  match (fake_query_nodes (all_query experiment_id) store).1 with Ok nodes => Ok nodes | _ => Panic end.

Definition node_id_le (a b : NodeMeta) : Prop := (nm_node_id a <= nm_node_id b)%N.
Global Instance node_id_le_dec a b : Decision (node_id_le a b).
Proof. unfold node_id_le. apply _. Defined.
Definition node_bytes (n : NodeMeta) : res Stopped (list N) :=
  match decode_node_attrs (nm_attrs n) with
  | Ok attrs => Ok (le_bytes 8 (nm_node_id n) ++ le_bytes 8 (default u64_max (nm_parent_node_id n)) ++ sa_state_hash (oa_synth attrs)
                    ++ le_bytes 8 (Z.to_N (to_bits (finite_get (nm_progress_score n)))) ++ le_bytes 8 (sa_cell_key (oa_synth attrs)))
  | _ => Panic
  end.
(** Ids without a gap, and what is hashed of each row. *)
Fixpoint tree_bytes (previous : option N) (nodes : list NodeMeta) : res Stopped (list N) :=
  match nodes with
  | [] => Ok []
  | n :: rest =>
    _ ← (match previous with
         | Some p => next ← expect (checked_add u64_max p 1); if (nm_node_id n =? next)%N then Ok tt else Panic
         | None => Ok tt
         end);
    bytes ← node_bytes n;
    more ← tree_bytes (Some (nm_node_id n)) rest;
    Ok (bytes ++ more)
  end.
Definition store_tree_hash (store : SnapshotStore) (experiment_id : string) : res Stopped (list N) :=
  nodes ← all_nodes experiment_id store;
  bytes ← tree_bytes None (merge_sort node_id_le nodes);
  Ok (blake3 bytes).

Definition assert_no_stranded_frontier (store : SnapshotStore) (experiment_id : string) : res Stopped unit :=
  nodes ← all_nodes experiment_id store;
  let ids : gset NodeId := list_to_set (nm_node_id <$> nodes) in
  _ ← mapM_res (fun n =>
        _ ← (match nm_parent_node_id n with
             | Some parent => if decide (parent ∈ ids) then Ok tt else Panic
             | None => Ok tt
             end);
        match decode_node_attrs (nm_attrs n) with Ok _ => Ok tt | _ => Panic end) nodes;
  Ok tt.

Definition archive_parts (scorer : FakeScorer) (experiment_id : string)
    : option (N * gmap CellKey N * gset StateHash * option ScorerDigest * option ScorerDigest) :=
  (fun a => (xa_archive_seq a, xa_cell_counts a, xa_seen_hashes a, xa_feature_map_hash a, xa_program_hash a)) <$> sc_experiments scorer !! experiment_id.

(** The byte order of hashes. *)
Fixpoint bytes_leb (a b : list N) : bool :=
  match a, b with
  | [], _ => true
  | _, [] => false
  | x :: a, y :: b => (x <? y)%N || (x =? y)%N && bytes_leb a b
  end.
Definition bytes_le (a b : list N) : Prop := bytes_leb a b = true.
Global Instance bytes_le_dec a b : Decision (bytes_le a b).
Proof. unfold bytes_le. apply _. Defined.

Definition scorer_archive_fingerprint (scorer : FakeScorer) (experiment_id : string) : list N :=
  blake3 (bytes_of_string "orch-simstate/scorer-archive-fingerprint/v2" ++
    match archive_parts scorer experiment_id with
    | None => bytes_of_string "absent"
    | Some (archive_seq, cell_counts, seen_hashes, feature_map_hash, program_hash) =>
      le_bytes 8 archive_seq ++ default (bytes_of_string "no-feature-map") feature_map_hash
      ++ default (bytes_of_string "no-program") program_hash
      ++ le_bytes 8 (N.of_nat (size cell_counts))
      ++ mjoin ((fun kv => le_bytes 8 kv.1 ++ le_bytes 4 kv.2) <$> sorted_listing N.le cell_counts)
      ++ le_bytes 8 (N.of_nat (size seen_hashes)) ++ mjoin (merge_sort bytes_le (elements seen_hashes))
    end).
End World.
