(* ===== verification/QuietServices.v ===== *)
(** The calls of the four doubles do not look at their fault bookkeeping
    (FakeHv.v, FakeScorer.v, NodeTable.v, FakeSynth.v): without planned
    faults, every mutating call answers alike on states that differ only
    there, and read-only calls change nothing else. *)
From S2P Require Import Prelude Float64 Types Client Rng Fault Checkpoint HvTypes SynthTypes ScorerTypes StoreTypes Grid FakeHv NodeTable FakeScorer FakeSynth Quiet.
Local Open Scope list_scope.

Ltac quiet_step :=
  match goal with
  | |- quiet (mret _) => apply quiet_code_ret
  | |- quiet (lift_res _) => apply quiet_code_lift
  | |- quiet (get_st ≫= _) => apply quiet_get; [reflexivity|intros ?]
  | |- quiet (gets _ ≫= _) => apply quiet_gets; [reflexivity|intros ?]
  | |- quiet (modify _) => apply quiet_modify; intros ? ?; reflexivity
  | |- quiet (mapM_st _ _) => apply quiet_mapM; intros ?
  | |- quiet (_ ≫= _) => apply quiet_code_bind; [|intros ?]
  | |- quiet (if ?b then _ else _) => destruct b
  | |- quiet (match ?x with _ => _ end) => destruct x
  end.
Ltac quiet_tac := repeat (quiet_step || (progress cbv zeta) || (progress auto with quiet)).

(** ** Hypervisor *)

Abbreviation HvHidden := (FaultInjector * option FaultDecision * nat)%type (only parsing).
Definition hv_hide (x : HvHidden) (h : FakeHypervisor) : FakeHypervisor := set_fault x.1.1 x.1.2 (set_watch (fh_watch_events h) x.2 h).

Global Program Instance hv_concealed : Concealed FakeHypervisor HvHidden := {|
  hidden h := (fh_fault_injector h, fh_last_fault h, fh_watch_cursor h);
  hide := hv_hide
|}.
Next Obligation. by intros []. Qed.
Next Obligation. by intros [[i d] c] h. Qed.
Next Obligation. done. Qed.
Global Instance hv_faulty : FaultyService FakeHypervisor HvHidden := {| injector_of x := x.1.1; service_target := TargetHypervisor |}.

Section Hv.
Context `{B3 : Blake3, HE : HvEncoding}.

Lemma hv_draws operation identity items : draws_calmly (FakeHv.decide_fault operation identity items).
Proof.
  intros n h Hc Hn. destruct (calm_decide n h (mkFaultRequest TargetHypervisor operation identity) items Hc Hn) as (i & Hd & Hp & Hq).
  unfold FakeHv.decide_fault. cbn in Hd. rewrite Hd. eexists. split; [done|]. split; [by intros [[? ?] ?]|]. by split.
Qed.

Lemma quiet_slot lease : quiet (slot lease).
Proof. by apply quiet_state. Qed.

Lemma quiet_insert_slot id s : quiet (insert_slot id s).
Proof. by apply quiet_modify. Qed.

Lemma push_slot_event_hide x id h : push_slot_event id (hide x h) = hide x (push_slot_event id h).
Proof. unfold push_slot_event. cbn. by destruct (fh_slots h !! id). Qed.

Lemma quiet_notify id : quiet (notify id).
Proof. apply quiet_modify. intros x h. apply push_slot_event_hide. Qed.

Lemma quiet_allocate_lease config seed : quiet (allocate_lease config seed).
Proof. by intros x h. Qed.

Lemma maybe_unfreeze_hide x id h : maybe_unfreeze_parent id (hide x h) = hide x (maybe_unfreeze_parent id h).
Proof.
  unfold maybe_unfreeze_parent. cbn. destruct (has_live_children id (fh_slots h)); [done|]. rewrite <- push_slot_event_hide. f_equal.
  destruct (fh_slots h !! id) as [parent|]; [|done]. by destruct (decide (sl_state_kind parent = Frozen)).
Qed.

Lemma quiet_unfreeze id : quiet (modify (E := ClientError) (maybe_unfreeze_parent id)).
Proof. apply quiet_modify. intros x h. apply maybe_unfreeze_hide. Qed.
#[local] Hint Resolve quiet_slot quiet_insert_slot quiet_notify quiet_allocate_lease quiet_unfreeze : quiet.

Ltac hv_call := apply determinate_fault; [apply hv_draws|intros _].

Lemma create_vm_determinate q : determinate (fake_create_vm q).
Proof. hv_call. quiet_tac. Qed.

Lemma restore_snapshot_determinate q : determinate (fake_restore_snapshot q).
Proof. hv_call. quiet_tac. Qed.

Lemma quiet_freeze id : quiet (freeze id).
Proof. intros x h. unfold freeze. cbn. by destruct (fh_slots h !! id). Qed.
#[local] Hint Resolve quiet_freeze : quiet.

Lemma fork_determinate q : determinate (fake_fork q).
Proof. unfold fake_fork. apply determinate_lift. intros _. hv_call. unfold fork_one. quiet_tac. Qed.

Lemma inject_inputs_determinate q : determinate (fake_inject_inputs q).
Proof. hv_call. quiet_tac. Qed.

Lemma run_determinate q : determinate (fake_run q).
Proof. hv_call. quiet_tac. Qed.

Lemma take_snapshot_determinate q : determinate (fake_take_snapshot q).
Proof. hv_call. quiet_tac. Qed.

Lemma destroy_vm_determinate lease : determinate (fake_destroy_vm lease).
Proof. hv_call. quiet_tac. Qed.

(** ** Reclaiming *)

Lemma remove_slot_hide x id h : remove_slot id (hide x h) = hide x (remove_slot id h).
Proof. unfold remove_slot. cbn. by destruct (fh_slots h !! id). Qed.

Lemma reclaim_pass_hide x h : reclaim_pass (hide x h) = hide x (reclaim_pass h).
Proof.
  unfold reclaim_pass. change (fh_slots (hide x h)) with (fh_slots h). generalize (leaves (fh_slots h)) as ids. intros ids.
  revert h. induction ids as [|id ids IH]; intros h; [done|]. cbn [foldl].
  change (flip remove_slot (hide x h) id) with (remove_slot id (hide x h)). by rewrite remove_slot_hide, IH.
Qed.

Lemma reclaim_session_hide x fuel h : reclaim_session fuel (hide x h) = hide x <$> reclaim_session fuel h.
Proof.
  revert h. induction fuel as [|fuel IH]; intros h; cbn [reclaim_session]; change (fh_slots (hide x h)) with (fh_slots h);
    (destruct (decide (fh_slots h = ∅)); [done|]); [done|]. by rewrite reclaim_pass_hide, IH.
Qed.

(** ** Reading *)

Lemma list_slots_reads : reads fake_list_slots.
Proof. apply (reads_look (fun h => Ok h)). intros h. apply reads_fault; [apply hv_draws|done]. Qed.

Lemma worker_info_reads : reads fake_worker_info.
Proof. apply reads_fault; [apply hv_draws|done]. Qed.

(** The watch moves its cursor. *)
Lemma watch_slots_reads : reads fake_watch_slots.
Proof.
  intros n h Hc Hn. unfold fake_watch_slots. rewrite st_bind_run. cbn [get_st]. rewrite st_bind_run.
  set (start := Nat.min _ _). set (available := (length _ - start)%nat).
  destruct (hv_draws "watch_slots" enc_watch_slots (N.of_nat available mod 2 ^ 32) n h Hc Hn) as (h' & -> & Ha & Hc').
  rewrite modify_bind. cbn [mret st_ret snd]. split; [|exact Hc'].
  intros x. rewrite (alike_split _ _ Ha). done.
Qed.
End Hv.

(** ** Scorer *)

Abbreviation Hidden := (FaultInjector * option FaultDecision)%type (only parsing).

Global Program Instance scorer_concealed : Concealed FakeScorer Hidden := {|
  hidden s := (sc_fault_injector s, sc_last_fault s);
  hide x s := set_scorer_injector x.1 x.2 s
|}.
Next Obligation. by intros []. Qed.
Next Obligation. by intros [i d] s. Qed.
Next Obligation. done. Qed.
Global Instance scorer_faulty : FaultyService FakeScorer Hidden := {| injector_of := fst; service_target := TargetScorer |}.

Section Scorer.
Context `{B3 : Blake3, SE : ScorerEncoding}.

Lemma scorer_draws operation identity items : draws_calmly (scorer_fault operation identity items).
Proof.
  intros n s Hc Hn. destruct (calm_decide n s (mkFaultRequest TargetScorer operation identity) items Hc Hn) as (i & Hd & Hp & Hq).
  unfold scorer_fault. cbn in Hd. rewrite Hd. eexists. split; [done|]. split; [by intros [? ?]|]. by split.
Qed.

Lemma quiet_on_archive {A} id (m : st ExperimentArchive ClientError A) : quiet (on_archive id m).
Proof. intros x s. unfold on_archive. cbn. by destruct (m _). Qed.

Lemma quiet_on_loaded_archive {A} id (m : st ExperimentArchive ClientError A) : quiet (on_loaded_archive id m).
Proof.
  intros x s. unfold on_loaded_archive. change (loaded_archive id (hide x s)) with (loaded_archive id s).
  destruct (loaded_archive id s) as [a|e|]; [|done..]. by destruct (m a).
Qed.
#[local] Hint Resolve quiet_on_archive quiet_on_loaded_archive : quiet.

Ltac scorer_call := apply determinate_fault; [apply scorer_draws|intros ?].

Lemma load_feature_map_determinate q : determinate (fake_load_feature_map q).
Proof. scorer_call. quiet_tac. Qed.

Lemma load_scoring_program_determinate q : determinate (fake_load_scoring_program q).
Proof. scorer_call. quiet_tac. Qed.

Lemma score_batch_determinate q : determinate (fake_score_batch q).
Proof. unfold fake_score_batch. cbv zeta. destruct (_ || _); [apply determinate_quiet, quiet_code_lift|]. scorer_call. quiet_tac. Qed.

Lemma checkpoint_archive_determinate q : determinate (fake_checkpoint_archive q).
Proof. scorer_call. quiet_tac. Qed.

Lemma restore_archive_determinate q : determinate (fake_restore_archive q).
Proof. scorer_call. quiet_tac. Qed.

Lemma replay_commits_determinate q : determinate (fake_replay_commits q).
Proof. scorer_call. quiet_tac. Qed.
End Scorer.

(** ** Node rows *)

Global Program Instance nodes_concealed : Concealed SnapshotStore Hidden := {|
  hidden s := (ss_fault_injector s, ss_last_fault s);
  hide x s := set_injector x.1 x.2 s
|}.
Next Obligation. by intros []. Qed.
Next Obligation. by intros [i d] s. Qed.
Next Obligation. done. Qed.
Global Instance nodes_faulty : FaultyService SnapshotStore Hidden := {| injector_of := fst; service_target := TargetSnapshotStore |}.

Section Nodes.
Context `{B3 : Blake3, TE : StoreEncoding}.

Lemma nodes_draws operation identity items : draws_calmly (draw_fault operation identity items).
Proof.
  intros n s Hc Hn. destruct (calm_decide n s (mkFaultRequest TargetSnapshotStore operation identity) items Hc Hn) as (i & Hd & Hp & Hq).
  unfold draw_fault. cbn in Hd. rewrite Hd. eexists. split; [done|]. split; [by intros [? ?]|]. by split.
Qed.

Lemma quiet_tick : quiet tick.
Proof. intros x s. unfold tick. cbn. by destruct (checked_add _ _ _). Qed.

Lemma quiet_look {A} (f : SnapshotStore -> res ClientError A) : (forall x s, f (hide x s) = f s) -> quiet (look_res f).
Proof. apply quiet_state. Qed.
#[local] Hint Resolve quiet_tick : quiet.
#[local] Hint Extern 1 (quiet (look_res _)) => apply quiet_look; reflexivity : quiet.

Ltac nodes_call := apply determinate_fault; [apply nodes_draws|intros ?].

Lemma create_node_determinate q : determinate (fake_create_node q).
Proof. nodes_call. quiet_tac. Qed.

Lemma update_nodes_determinate q : determinate (fake_update_nodes q).
Proof. nodes_call. quiet_tac. Qed.

Lemma prune_subtree_determinate q : determinate (fake_prune_subtree q).
Proof. nodes_call. quiet_tac. Qed.

(** ** Reading rows *)

Lemma get_node_reads q : reads (fake_get_node q).
Proof. apply reads_fault; [apply nodes_draws|]. intros d s. rewrite st_bind_run. unfold look_res. by destruct (node _ _ s). Qed.

Lemma get_children_reads q : reads (fake_get_children q).
Proof.
  apply reads_look. intros e. apply (reads_look (fun _ => ok_or _ _)). intros ids. apply reads_fault; [apply nodes_draws|done].
Qed.

Lemma get_path_reads q : reads (fake_get_path q).
Proof.
  apply reads_look. intros e. apply (reads_look (fun _ => path_loop _ _ _ _)). intros ids. apply reads_fault; [apply nodes_draws|].
  intros d s. rewrite st_bind_run. unfold lift_res. by destruct (mapM_res _ _).
Qed.

Lemma query_nodes_reads q : reads (fake_query_nodes q).
Proof. apply reads_look. intros e. apply reads_fault; [apply nodes_draws|done]. Qed.

(** What a query answers does not depend on the hidden part. *)
Lemma query_nodes_determinate q : determinate (fake_query_nodes q).
Proof.
  intros n s1 s2 Hn H1 H2 H12. unfold fake_query_nodes. rewrite !st_bind_run. unfold look_res.
  assert (experiment (qn_experiment_id q) s1 = experiment (qn_experiment_id q) s2) as -> by (by rewrite (alike_split _ _ H12)).
  destruct (experiment _ s2) as [e|e|]; [|by split_and!; [| |eapply calm_mono; [done|lia]..]..].
  apply determinate_fault; [apply nodes_draws| |done..]. intros d. quiet_tac.
Qed.
End Nodes.

(** ** Synthesizer *)

Global Program Instance synth_concealed : Concealed FakeSynth Hidden := {|
  hidden s := (fy_fault_injector s, fy_last_fault s);
  hide x s := set_synth_injector x.1 x.2 s
|}.
Next Obligation. by intros []. Qed.
Next Obligation. by intros [i d] s. Qed.
Next Obligation. done. Qed.
Global Instance synth_faulty : FaultyService FakeSynth Hidden := {| injector_of := fst; service_target := TargetSynth |}.

Section Synth.
Context `{B3 : Blake3, CH : ChaCha12, YE : SynthEncoding}.

Lemma synth_draws operation identity items : draws_calmly (synth_fault operation identity items).
Proof.
  intros n s Hc Hn. destruct (calm_decide n s (mkFaultRequest TargetSynth operation identity) items Hc Hn) as (i & Hd & Hp & Hq).
  unfold synth_fault. cbn in Hd. rewrite Hd. eexists. split; [done|]. split; [by intros [? ?]|]. by split.
Qed.

Lemma load_macro_pack_determinate q : determinate (fake_load_macro_pack q).
Proof. apply determinate_quiet. unfold fake_load_macro_pack, load_experiment_config, load_macro_pack_document. quiet_tac. Qed.

Lemma mine_macros_determinate q : determinate (fake_mine_macros q).
Proof. apply determinate_quiet. unfold fake_mine_macros. quiet_tac. Qed.

Lemma propose_bursts_determinate q : determinate (fake_propose_bursts q).
Proof.
  unfold fake_propose_bursts. destruct (_ || _); [apply determinate_quiet, quiet_code_lift|]. apply determinate_get; [reflexivity|]. intros s.
  destruct (_ !! _) as [experiment|]; [|apply determinate_quiet, quiet_code_lift]. destruct (negb _); [apply determinate_quiet, quiet_code_lift|].
  apply determinate_lift. intros mix. cbv zeta. apply determinate_fault; [apply synth_draws|]. intros d. quiet_tac.
Qed.
Lemma health_reads : reads fake_health.
Proof. by apply reads_const. Qed.
End Synth.
