(* ===== verification/SimWorldWf.v ===== *)
(** Recovery of the persistent test world (SimWorld.v): however the calls of
    the four services interleave and wherever the process is killed, the
    world read back from the journal is the one the logged calls made. *)
From S2P Require Import Prelude Float64 Types Client Rng Fault Checkpoint MetaStore HvTypes SynthTypes ScorerTypes StoreTypes Grid FakeHv FakeHvPool NodeTable NodeAttrs FakeScorer FakeSynth Quiet QuietServices SimJournal SimJournalWf SimWorld.
Local Open Scope string_scope.
Local Open Scope list_scope.

(** ** Services of a record *)

Inductive Service := SvHypervisor | SvScorer | SvStore | SvSynth.
Global Instance Service_eq_dec : EqDecision Service.
Proof. solve_decision. Defined.

Definition service_of (r : JournalRecord) : option Service :=
  match r with
  | Header _ | Applied _ _ => None
  | ReclaimSession _ | HvCreateVm _ _ | HvRestoreSnapshot _ _ | HvFork _ _ | HvInjectInputs _ _ | HvRun _ _ | HvTakeSnapshot _ _ | HvDestroyVm _ _ =>
    Some SvHypervisor
  | StCreateNode _ _ | StUpdateNodes _ _ | StPutMetadata _ _ | StDeleteMetadata _ _ | StPruneSubtree _ _ => Some SvStore
  | ScLoadFeatureMap _ _ | ScLoadScoringProgram _ _ | ScScoreBatch _ _ | ScCheckpointArchive _ _ | ScRestoreArchive _ _ | ScReplayCommits _ _ => Some SvScorer
  | SyLoadMacroPack _ _ | SyProposeBursts _ _ | SyMineMacros _ _ => Some SvSynth
  end.
(** Records of calls, not of their answers. *)
Definition is_op (r : JournalRecord) : Prop := service_of r <> None.
Global Instance is_op_dec r : Decision (is_op r).
Proof. unfold is_op. apply _. Defined.

Section Recovery.
Context `{B3 : Blake3, CH : ChaCha12, HE : HvEncoding, SE : ScorerEncoding, TE : StoreEncoding, YE : SynthEncoding, RE : ResponseEncoding}.
Context `{PJ : Postcard JournalRecord, PA : Postcard OrchNodeAttrsV1}.

(** ** Agreement of one service *)

(** Equal up to the fault bookkeeping, with none of it near its bounds. *)
Definition agree (c : Service) (n : nat) (s1 s2 : Services) : Prop :=
  match c with
  | SvHypervisor => calm n (sv_hypervisor s1) /\ calm n (sv_hypervisor s2) /\ alike (sv_hypervisor s1) (sv_hypervisor s2)
  | SvScorer => calm n (sv_scorer s1) /\ calm n (sv_scorer s2) /\ alike (sv_scorer s1) (sv_scorer s2)
  | SvStore => (calm n (sv_nodes s1) /\ calm n (sv_nodes s2) /\ alike (sv_nodes s1) (sv_nodes s2)) /\
               sv_metadata s1 = sv_metadata s2 /\ faults (sv_metadata s1) = []
  | SvSynth => calm n (sv_synth s1) /\ calm n (sv_synth s2) /\ alike (sv_synth s1) (sv_synth s2)
  end.
Definition same_service (c : Service) (s1 s2 : Services) : Prop :=
  match c with
  | SvHypervisor => sv_hypervisor s1 = sv_hypervisor s2
  | SvScorer => sv_scorer s1 = sv_scorer s2
  | SvStore => sv_nodes s1 = sv_nodes s2 /\ sv_metadata s1 = sv_metadata s2
  | SvSynth => sv_synth s1 = sv_synth s2
  end.

Lemma agree_sym c n s1 s2 : agree c n s1 s2 -> agree c n s2 s1.
Proof. destruct c; cbn; [| |intros [(? & ? & ?) [E ?]]; rewrite E in *|]; naive_solver. Qed.

Lemma agree_trans c n s1 s2 s3 : agree c n s1 s2 -> agree c n s2 s3 -> agree c n s1 s3.
Proof.
  destruct c; cbn; [intros (Ha & _ & Hb) (_ & Hc & Hd)|intros (Ha & _ & Hb) (_ & Hc & Hd)|intros [(Ha & _ & Hb) [Ee Ef]] [(_ & Hc & Hd) [Eg Eh]]|
    intros (Ha & _ & Hb) (_ & Hc & Hd)]; split_and!; try done; (by rewrite Hb) || congruence.
Qed.

Lemma agree_mono c n k s1 s2 : agree c n s1 s2 -> (n <= k)%nat -> agree c k s1 s2.
Proof. destruct c; cbn; naive_solver eauto using calm_mono. Qed.

Lemma agree_same c n s1 s2 t : same_service c s1 s2 -> agree c n s1 t -> agree c n s2 t.
Proof. destruct c; cbn; [by intros ->|by intros ->|by intros [-> ->]|by intros ->]. Qed.

Lemma same_service_trans c s1 s2 s3 : same_service c s1 s2 -> same_service c s2 s3 -> same_service c s1 s3.
Proof. destruct c; cbn; naive_solver congruence. Qed.

Lemma fresh_agree c : agree c 0 fresh_fakes fresh_fakes.
Proof. destruct c; cbn; split_and!; try done; (split; [by exists 0%N|intros q; apply N.le_refl]). Qed.

(** ** Calls *)

Lemma invoke_local r m s c : invoke r = Some m -> service_of r <> Some c -> same_service c s (m s).2.
Proof.
  destruct r; intros [= <-]; destruct c; try done; intros _; unfold call; cbn;
    match goal with |- context [let '(_, _) := ?x in _] => destruct x end; done.
Qed.

Lemma no_metadata_fault s : faults s = [] -> MetaStore.decide_fault s = (Ok tt, s).
Proof. intros Hf. destruct s as [m f t]. cbn in Hf. by subst f. Qed.

Lemma metadata_faults s : faults s = [] ->
  (forall k v x, faults (fake_put_metadata k v x s).2 = []) /\ (forall k x, faults (fake_delete_metadata k x s).2 = []) /\
  (forall k, (fake_get_metadata k s).2 = s).
Proof.
  intros Hf. split_and!.
  - intros k v x. unfold fake_put_metadata. rewrite st_bind_run, (no_metadata_fault s Hf), gets_bind, st_bind_run. unfold lift_res at 1.
    destruct (check_metadata_expectation _ _ _) as [u|e|]; [|done..]. rewrite st_bind_run. unfold lift_res. by destruct (ok_or _ _).
  - intros k x. unfold fake_delete_metadata. rewrite st_bind_run, (no_metadata_fault s Hf), gets_bind, st_bind_run. unfold lift_res at 1.
    destruct (check_metadata_expectation _ _ _) as [u|e|]; [|done..]. rewrite st_bind_run. unfold lift_res. by destruct (ok_or _ _).
  - intros k. unfold fake_get_metadata. rewrite st_bind_run, (no_metadata_fault s Hf), gets_bind, st_bind_run. unfold lift_res. by destruct (ok_or _ _).
Qed.

(** A call of a determinate service. *)
Lemma call_agree {T H A : Type} {CC : Concealed T H} {FS : FaultyService T H} (get : Services -> T) put (wrap : A -> Response) (m : st T ClientError A) n s1 s2 :
  (forall t s, get (put t s) = t) -> determinate m -> (N.of_nat n < u64_max)%N -> calm n (get s1) -> calm n (get s2) -> alike (get s1) (get s2) ->
  (call get put wrap m s1).1 = (call get put wrap m s2).1 /\
  calm (S n) (get (call get put wrap m s1).2) /\ calm (S n) (get (call get put wrap m s2).2) /\
  alike (get (call get put wrap m s1).2) (get (call get put wrap m s2).2).
Proof.
  intros Hget Hm Hn H1 H2 H12. destruct (Hm n (get s1) (get s2) Hn H1 H2 H12) as (Hr & Ha & Hc1 & Hc2). unfold call.
  destruct (m (get s1)) as [r1 t1], (m (get s2)) as [r2 t2]. cbn in *. rewrite !Hget, Hr. done.
Qed.

Lemma nodes_call_agree {A : Type} (wrap : A -> Response) (m : st SnapshotStore ClientError A) n s1 s2 : determinate m -> (N.of_nat n < u64_max)%N ->
  agree SvStore n s1 s2 -> (call sv_nodes set_nodes wrap m s1).1 = (call sv_nodes set_nodes wrap m s2).1 /\
  agree SvStore (S n) (call sv_nodes set_nodes wrap m s1).2 (call sv_nodes set_nodes wrap m s2).2.
Proof.
  intros Hm Hn [(H1 & H2 & H12) Hmeta]. destruct (call_agree sv_nodes set_nodes wrap m n s1 s2) as [Hr Ha]; [done..|].
  split; [done|]. cbn [agree]. split; [done|]. unfold call. by destruct (m (sv_nodes s1)), (m (sv_nodes s2)).
Qed.

Lemma metadata_call_agree {A : Type} (wrap : A -> Response) (m : st FakeStore ClientError A) n s1 s2 :
  (forall s, faults s = [] -> faults (m s).2 = []) -> agree SvStore n s1 s2 ->
  (call sv_metadata set_store_metadata wrap m s1).1 = (call sv_metadata set_store_metadata wrap m s2).1 /\
  agree SvStore (S n) (call sv_metadata set_store_metadata wrap m s1).2 (call sv_metadata set_store_metadata wrap m s2).2.
Proof.
  intros Hm [(H1 & H2 & H12) [Heq Hf]]. cbn [agree]. unfold call. rewrite <- Heq. specialize (Hm _ Hf).
  destruct (m (sv_metadata s1)) as [r t]. cbn in *. split_and!; try done; (eapply calm_mono; [done|lia]).
Qed.

(** A call answers alike on services that agree, and they agree after it. *)
Lemma invoke_agree r m c n s1 s2 : invoke r = Some m -> service_of r = Some c -> (N.of_nat n < u64_max)%N -> agree c n s1 s2 ->
  (m s1).1 = (m s2).1 /\ agree c (S n) (m s1).2 (m s2).2.
Proof.
  destruct r; intros [= <-] [= <-] Hn.
  1-7: intros (H1 & H2 & H12); eapply call_agree; [done| |done..];
    auto using create_vm_determinate, restore_snapshot_determinate, fork_determinate, inject_inputs_determinate, run_determinate,
      take_snapshot_determinate, destroy_vm_determinate.
  1, 2, 5: apply nodes_call_agree; auto using create_node_determinate, update_nodes_determinate, prune_subtree_determinate.
  1, 2: apply metadata_call_agree; intros s Hs; by apply metadata_faults.
  all: intros (H1 & H2 & H12); eapply call_agree; [done| |done..];
    auto using load_feature_map_determinate, load_scoring_program_determinate, score_batch_determinate, checkpoint_archive_determinate,
      restore_archive_determinate, replay_commits_determinate, load_macro_pack_determinate, propose_bursts_determinate, mine_macros_determinate.
Qed.

(** ** Replaying the calls of a log *)

Definition replay_op (r : JournalRecord) (s : Services) : res Stopped Services :=
  match r with
  | ReclaimSession _ => reclaim s
  | _ => match invoke r with
         | Some m => match m s with (Panic, _) => Panic | (_, s') => Ok s' end
         | None => Ok s
         end
  end.
Fixpoint replay_ops (ops : list JournalRecord) (s : Services) : res Stopped Services :=
  match ops with
  | [] => Ok s
  | r :: ops => s ← replay_op r s; replay_ops ops s
  end.

Lemma replay_ops_app ops1 ops2 s : replay_ops (ops1 ++ ops2) s = replay_ops ops1 s ≫= replay_ops ops2.
Proof. revert s. induction ops1 as [|r ops1 IH]; intros s; [done|]. cbn. destruct (replay_op r s); [|done..]. cbn. apply IH. Qed.

Lemma replay_op_local r s s' c : replay_op r s = Ok s' -> service_of r <> Some c -> same_service c s s'.
Proof.
  unfold replay_op. intros Hr Hc. destruct (invoke r) as [m|] eqn:Hm.
  - pose proof (invoke_local r m s c Hm Hc) as Hl. destruct r; try discriminate Hm;
      (destruct (m s) as [[?|?|] s1]; [injection Hr as <-; exact Hl|injection Hr as <-; exact Hl|discriminate Hr]).
  - destruct r; try discriminate Hm; [injection Hr as <-; by destruct c|injection Hr as <-; by destruct c|].
    unfold reclaim in Hr. apply bind_Ok in Hr as (h & _ & [= <-]). by destruct c.
Qed.

Lemma replay_ops_local ops c : forall s s', replay_ops ops s = Ok s' -> Forall (fun r => service_of r <> Some c) ops -> same_service c s s'.
Proof.
  induction ops as [|r ops IH]; intros s s' Hr Hall; [injection Hr as <-; by destruct c|]. apply Forall_cons in Hall as [Hc Hall].
  cbn in Hr. apply bind_Ok in Hr as (s1 & H1 & H2). eapply same_service_trans; [by eapply replay_op_local|by eapply IH].
Qed.

(** Without a panic, a replayed call does what the call does. *)
Lemma replay_op_invoke r m s : invoke r = Some m -> (m s).1 <> Panic -> replay_op r s = Ok (m s).2.
Proof. intros Hm Hp. unfold replay_op. destruct r; try discriminate Hm; rewrite Hm; by destruct (m s) as [[?|?|] ?]. Qed.

(** ** The hypervisor of a replayed world *)

(** Slot identifiers a call may use up. *)
Definition slots_needed (r : JournalRecord) : N :=
  match r with
  | HvCreateVm _ _ | HvRestoreSnapshot _ _ => 1
  | HvFork _ q => N.of_nat (length (fq_entropy_seeds q))
  | _ => 0
  end.

Lemma calm_room n k h : calm n h -> (N.of_nat n < u64_max)%N -> (fh_next_slot_id h + k <= u64_max)%N -> room k h.
Proof.
  intros [_ Hq] Hn Hk. split; [|done]. intros [t op] a Ha. specialize (Hq (mkFaultRequest t op [])). unfold stream_attempt in Hq. cbn in Hq.
  rewrite Ha in Hq. cbn in Hq. lia.
Qed.

Lemma remove_slot_rest id h : fh_world (remove_slot id h) = fh_world h /\ fh_snapshots (remove_slot id h) = fh_snapshots h /\ hidden (remove_slot id h) = hidden h.
Proof. unfold remove_slot. by destruct (fh_slots h !! id). Qed.

Lemma reclaim_rest fuel : forall h h', reclaim_session fuel h = Some h' -> fh_world h' = fh_world h /\ fh_snapshots h' = fh_snapshots h /\ hidden h' = hidden h /\ fh_slots h' = ∅.
Proof.
  assert (forall ids h, fh_world (foldl (flip remove_slot) h ids) = fh_world h /\ fh_snapshots (foldl (flip remove_slot) h ids) = fh_snapshots h /\
    hidden (foldl (flip remove_slot) h ids) = hidden h) as Hall.
  { induction ids as [|id ids IH]; intros h; [done|]. cbn [foldl]. destruct (IH (remove_slot id h)) as (H1 & H2 & H3).
    destruct (remove_slot_rest id h) as (E1 & E2 & E3). unfold flip at 2 4 6. rewrite H1, H2, H3. done. }
  induction fuel as [|fuel IH]; intros h h'; cbn [reclaim_session]; (destruct (decide (fh_slots h = ∅)) as [He|]; [by intros [= <-]|]); [done|].
  intros H%IH. destruct H as (H1 & H2 & H3 & H4). destruct (Hall (leaves (fh_slots h)) h) as (E1 & E2 & E3). unfold reclaim_pass in *.
  rewrite H1, H2, H3, E1, E2, E3. done.
Qed.

Lemma reclaim_ok s : hv_ok (sv_hypervisor s) -> exists s', reclaim s = Ok s' /\ hv_ok (sv_hypervisor s') /\ fh_slots (sv_hypervisor s') = ∅ /\
  fh_snapshots (sv_hypervisor s') = fh_snapshots (sv_hypervisor s) /\ hidden (sv_hypervisor s') = hidden (sv_hypervisor s) /\
  forall c, c <> SvHypervisor -> same_service c s s'.
Proof.
  intros Hok. destruct (reclaim_run _ (sv_hypervisor s) (hv_ok_tree _ Hok) (le_n _)) as (h & order & Hr & He & _).
  unfold reclaim. rewrite Hr. eexists. split; [done|]. destruct (reclaim_rest _ _ _ Hr) as (E1 & E2 & E3 & _). cbn. split.
  - destruct Hok as [Hw _ _ Hs]. split; rewrite ?E1, ?E2, ?He; [done|apply map_Forall_empty..|done].
  - split_and!; [done|done|done|]. by intros [].
Qed.

Lemma left_by_state {A : Type} (wrap : A -> Response) (m : st FakeHypervisor ClientError A) s h' s' :
  left_by (m (sv_hypervisor s)) = Some h' -> (match call sv_hypervisor set_hypervisor wrap m s with (Panic, _) => Panic | (_, s1) => Ok s1 end) = Ok (E := Stopped) s' ->
  sv_hypervisor s' = h'.
Proof. unfold left_by, call. destruct (m (sv_hypervisor s)) as [[a|e|] h]; cbn; [by intros [= ->] [= <-]..|done]. Qed.

Lemma replay_op_hv_ok r n s s' : replay_op r s = Ok s' -> hv_ok (sv_hypervisor s) -> calm n (sv_hypervisor s) -> (N.of_nat n < u64_max)%N ->
  (invoke r <> None -> service_of r = Some SvHypervisor -> fh_next_slot_id (sv_hypervisor s) + slots_needed r <= u64_max)%N -> hv_ok (sv_hypervisor s').
Proof.
  intros Hr Hok Hc Hn Hslots.
  destruct (decide (service_of r = Some SvHypervisor)) as [Hs|Hs]; [|apply replay_op_local with (c := SvHypervisor) in Hr; [|done]; cbn in Hr; by rewrite <- Hr].
  assert (invoke r <> None -> room (slots_needed r) (sv_hypervisor s)) as Hroom by (intros Hi; by eapply calm_room; [..|apply Hslots]).
  destruct r; try discriminate Hs; cbn [replay_op invoke slots_needed] in *; try specialize (Hroom ltac:(done)).
  - destruct (reclaim_ok s Hok) as (s1 & Hr1 & Hok1 & _). rewrite Hr in Hr1. by injection Hr1 as <-.
  - destruct (hv_step_ok (CallCreate request) _ Hok Hroom) as (h' & Hh & Hok'). by rewrite (left_by_state _ _ _ _ _ Hh Hr).
  - destruct (hv_step_ok (CallRestore request) _ Hok Hroom) as (h' & Hh & Hok'). by rewrite (left_by_state _ _ _ _ _ Hh Hr).
  - destruct (hv_step_ok (CallFork request) _ Hok Hroom) as (h' & Hh & Hok'). by rewrite (left_by_state _ _ _ _ _ Hh Hr).
  - destruct (hv_step_ok (CallInject request) _ Hok Hroom) as (h' & Hh & Hok'). by rewrite (left_by_state _ _ _ _ _ Hh Hr).
  - destruct (hv_step_ok (CallRun request) _ Hok Hroom) as (h' & Hh & Hok'). by rewrite (left_by_state _ _ _ _ _ Hh Hr).
  - destruct (hv_step_ok (CallSnapshot request) _ Hok Hroom) as (h' & Hh & Hok'). by rewrite (left_by_state _ _ _ _ _ Hh Hr).
  - destruct (hv_step_ok (CallDestroy lease) _ Hok Hroom) as (h' & Hh & Hok'). by rewrite (left_by_state _ _ _ _ _ Hh Hr).
Qed.
End Recovery.
