(* ===== verification/SimRecovery.v ===== *)
(** The life of the persistent test world (SimWorld.v): calls of four services
    that interleave around one journal, kills at any byte, and reloads; and
    the theorem that nothing logged is lost. *)
From S2P Require Import Prelude Float64 Types Client Rng Fault Checkpoint MetaStore HvTypes SynthTypes ScorerTypes StoreTypes Grid FakeHv FakeHvPool NodeTable NodeAttrs FakeScorer FakeSynth Quiet QuietServices SimJournal SimJournalWf SimWorld SimWorldWf StageSample NodeTableWf FakeScorerWf FakeSynthWf.
Local Open Scope string_scope.
Local Open Scope list_scope.

Definition is_applied (r : JournalRecord) : Prop := match r with Applied _ _ => True | _ => False end.
(** The hook tears only metadata writes. *)
Definition hook_ok (torn : option TornHook) : Prop := match torn with Some t => th_kind t <> OtherRecord | None => True end.

(** Between its log entry and the note of its answer, a call of a service is
    logged and then answered. *)
Inductive phase := Idle | Logged (r : JournalRecord) | Answered (op_id digest : N).
Definition set_phase (c : Service) (p : phase) (f : Service -> phase) : Service -> phase := fun c' => if decide (c' = c) then p else f c'.

Record Live := mkLive {
  lv_services : Services;
  lv_journal : Journal;
  lv_phase : Service -> phase
}.

(** Calls that are not journaled. *)
Inductive read_call :=
| ReadListSlots | ReadWatchSlots | ReadWorkerInfo
| ReadNode (q : NodeRequest) | ReadChildren (q : NodeRequest) | ReadPath (q : GetPathRequest) | ReadQuery (q : QueryNodesRequest)
| ReadMetadata (k : MetadataKey)
| ReadHealth.

Section Recovery.
Context `{B3 : Blake3, CH : ChaCha12, HE : HvEncoding, SE : ScorerEncoding, TE : StoreEncoding, YE : SynthEncoding, RE : ResponseEncoding}.
Context `{PJ : Postcard JournalRecord, PA : Postcard OrchNodeAttrsV1}.

Definition do_read (c : read_call) (s : Services) : Services :=
  match c with
  | ReadListSlots => set_hypervisor (fake_list_slots (sv_hypervisor s)).2 s
  | ReadWatchSlots => set_hypervisor (fake_watch_slots (sv_hypervisor s)).2 s
  | ReadWorkerInfo => set_hypervisor (fake_worker_info (sv_hypervisor s)).2 s
  | ReadNode q => set_nodes (fake_get_node q (sv_nodes s)).2 s
  | ReadChildren q => set_nodes (fake_get_children q (sv_nodes s)).2 s
  | ReadPath q => set_nodes (fake_get_path q (sv_nodes s)).2 s
  | ReadQuery q => set_nodes (fake_query_nodes q (sv_nodes s)).2 s
  | ReadMetadata k => set_store_metadata (fake_get_metadata k (sv_metadata s)).2 s
  | ReadHealth => set_synth (fake_health (sv_synth s)).2 s
  end.

(** A call on which the double does not panic, with slot identifiers left. *)
Definition admissible (r : JournalRecord) (m : st Services ClientError Response) (s : Services) : Prop :=
  (m s).1 <> Panic /\ (service_of r = Some SvHypervisor -> fh_next_slot_id (sv_hypervisor s) + slots_needed r <= u64_max)%N.

(** A step of one service.  Each service serves one call at a time; the
    journal is locked for each append. *)
Inductive live_step : Live -> Live -> Prop :=
| step_log s j p c r m id j' : invoke r = Some m -> service_of r = Some c -> p c = Idle -> admissible r m s ->
    writable (with_op_id (jn_next_op_id j) r) -> append_op (fun id => with_op_id id r) (record_kind r) j = (Ok id, j') ->
    live_step (mkLive s j p) (mkLive s j' (set_phase c (Logged (with_op_id id r)) p))
| step_apply s j p c r m id response s' d : p c = Logged r -> invoke r = Some m -> record_op_id r = Some id -> m s = (response, s') ->
    digest_response (E := Stopped) response = Ok d -> live_step (mkLive s j p) (mkLive s' j (set_phase c (Answered id d) p))
| step_note s j p c id d j' : p c = Answered id d -> append_advisory (Applied id d) j = (Ok tt, j') ->
    live_step (mkLive s j p) (mkLive s j' (set_phase c Idle p))
| step_read s j p c : live_step (mkLive s j p) (mkLive (do_read c s) j p).

(** A record that may be half written when the process is killed: the next
    call of an idle service, or the note of an answer. *)
Definition in_progress (l : Live) (r : JournalRecord) : Prop :=
  writable r /\
  ((exists r0 m c, r = with_op_id (jn_next_op_id (lv_journal l)) r0 /\ invoke r0 = Some m /\ service_of r0 = Some c /\ lv_phase l c = Idle /\
      admissible r0 m (lv_services l)) \/
   exists c id d, r = Applied id d /\ lv_phase l c = Answered id d).
(** What a kill leaves of the journal: all that was synced, and any number of
    the bytes after it. *)
Definition crash_image (l : Live) (writing : option JournalRecord) (image : list N) : Prop :=
  (forall r, writing = Some r -> in_progress l r) /\
  exists k, (jf_synced (jn_file (lv_journal l)) <= k)%nat /\
    image = take k (jf_bytes (jn_file (lv_journal l)) ++ match writing with Some r => frame_bytes r | None => [] end).

(** The worlds reached in [n] steps, from a new journal or through reloads (a
    reload counts twice). *)
Inductive live_reach : nat -> Live -> Prop :=
| reach_create torn s j : hook_ok torn -> world_create torn = Ok (mkSimWorld s (Some j)) -> live_reach 0 (mkLive s j (fun _ => Idle))
| reach_step n l l' : live_reach n l -> live_step l l' -> live_reach (S n) l'
| reach_reload n l writing image torn s j stats bytes : live_reach n l -> crash_image l writing image -> hook_ok torn ->
    reload image torn = Ok (mkSimWorld s (Some j), stats, bytes) -> live_reach (S (S n)) (mkLive s j (fun _ => Idle)).

(** ** Appending *)

Lemma with_op_id_facts id r : service_of (with_op_id id r) = service_of r /\ invoke (with_op_id id r) = invoke r /\
  slots_needed (with_op_id id r) = slots_needed r /\ (is_op r -> record_op_id (with_op_id id r) = Some id).
Proof. destruct r; by split_and!. Qed.

Lemma frame_bytes_payload r payload : payload_of (E := Stopped) r = Ok payload -> frame_bytes r = frame_header payload ++ payload.
Proof. unfold payload_of, frame_bytes. destruct (to_allocvec r) as [p|e|]; [|done..]. destruct (_ <=? _)%N; [by intros [= ->]|done]. Qed.

Lemma write_frame_Ok r sync j u j' : write_frame r sync j = (Ok u, j') ->
  jf_bytes (jn_file j') = jf_bytes (jn_file j) ++ frame_bytes r /\
  jf_synced (jn_file j') = (if sync then length (jf_bytes (jn_file j')) else jf_synced (jn_file j)) /\ jn_next_op_id j' = jn_next_op_id j.
Proof.
  unfold write_frame. rewrite st_bind_run. unfold lift_res. destruct (payload_of r) as [payload|e|] eqn:Ep; [|done..].
  intros [= _ <-]. rewrite (frame_bytes_payload _ _ Ep). by destruct sync.
Qed.

Lemma maybe_tear_Ok r kind j u j' : maybe_tear r kind j = (Ok u, j') -> jn_file j' = jn_file j /\ jn_next_op_id j' = jn_next_op_id j.
Proof.
  unfold maybe_tear. rewrite st_bind_run. cbn [get_st]. destruct (jn_torn j) as [torn|]; [|by intros [= _ <-]].
  destruct (decide _) as [Hk|Hk]; [|by intros [= _ <-]]. rewrite st_bind_run. unfold lift_res at 1. destruct (expect _) as [seen|e|]; [|done..].
  rewrite modify_bind. destruct (_ =? _)%N; [|by intros [= _ <-]]. rewrite st_bind_run. unfold lift_res at 1.
  by destruct (payload_of r).
Qed.

Lemma append_op_Ok build kind j id j' : append_op build kind j = (Ok id, j') ->
  id = jn_next_op_id j /\ jf_bytes (jn_file j') = jf_bytes (jn_file j) ++ frame_bytes (build id) /\
  jf_synced (jn_file j') = length (jf_bytes (jn_file j')) /\ jn_next_op_id j' = (jn_next_op_id j + 1)%N.
Proof.
  unfold append_op. rewrite st_bind_run. cbn [get_st]. rewrite st_bind_run. unfold lift_res at 1.
  destruct (expect _) as [next|e|] eqn:En; [|done..]. apply expect_Ok, checked_add_Some in En as [_ ->]. rewrite modify_bind, st_bind_run.
  destruct (maybe_tear _ _ _) as [[u|e|] j1] eqn:Et; [|done..]. apply maybe_tear_Ok in Et as [Hf Hn]. rewrite st_bind_run.
  destruct (write_frame _ _ j1) as [[u'|e|] j2] eqn:Ew; [|done..]. apply write_frame_Ok in Ew as (H1 & H2 & H3). intros [= <- <-].
  cbn in Hf, Hn. rewrite Hf in H1. rewrite H3, Hn. done.
Qed.

Lemma write_frame_total r sync j : writable r -> exists j', write_frame r sync j = (Ok tt, j').
Proof.
  intros (payload & Hp & Hl). unfold write_frame. rewrite st_bind_run. unfold lift_res, payload_of. rewrite Hp.
  rewrite (proj2 (N.leb_le _ _)) by (unfold MAX_FRAME_LEN in Hl; unfold u32_max; lia). by eexists.
Qed.

Lemma append_other_total build j : hook_ok (jn_torn j) -> writable (build (jn_next_op_id j)) -> (jn_next_op_id j + 1 <= u64_max)%N ->
  exists j', append_op build OtherRecord j = (Ok (jn_next_op_id j), j').
Proof.
  intros Hh Hw Hn. unfold append_op. rewrite st_bind_run. cbn [get_st]. rewrite st_bind_run. unfold lift_res at 1, checked_add.
  rewrite decide_True by done. cbn [expect]. rewrite modify_bind, st_bind_run.
  assert (forall j0, jn_torn j0 = jn_torn j -> maybe_tear (build (jn_next_op_id j)) OtherRecord j0 = (Ok tt, j0)) as Ht.
  { intros j0 E. unfold maybe_tear. rewrite st_bind_run. cbn [get_st]. rewrite E. destruct (jn_torn j) as [t|]; [|done]. by rewrite decide_False by (intros ?; by apply Hh). }
  rewrite Ht by done. rewrite st_bind_run. destruct (write_frame_total (build (jn_next_op_id j)) true (mkJournal (jn_file j) (jn_next_op_id j + 1) (jn_torn j)) Hw) as [j' ->].
  by eexists.
Qed.

(** ** What a journal holds *)

Abbreviation ops := (filter is_op).

(** The noted digest of a call is the one of its answer when it is replayed. *)
Definition op_digest (all : list JournalRecord) (id d : N) : Prop := exists i r m s, id = N.of_nat (S i) /\ all !! i = Some r /\ invoke r = Some m /\
  replay_ops (take i all) fresh_fakes = Ok s /\ digest_response (E := Stopped) (m s).1 = Ok d.

Record journal_ok (n : nat) (records : list JournalRecord) (sr : Services) : Prop := {
  jo_writable : Forall writable records;
  jo_len : (length (ops records) <= n)%nat;
  jo_ids : forall i r, ops records !! i = Some r -> record_op_id r = Some (N.of_nat (S i));
  jo_replay : replay_ops (ops records) fresh_fakes = Ok sr;
  jo_agree : forall c, agree c n sr sr;
  jo_hv : hv_ok (sv_hypervisor sr);
  jo_digests : forall id d, Applied id d ∈ records -> op_digest (ops records) id d
}.

Lemma op_digest_app all more id d : op_digest all id d -> op_digest (all ++ more) id d.
Proof.
  intros (i & r & m & s & Hid & Hi & Hm & Hs & Hd). exists i, r, m, s. split_and!; [done|by apply lookup_app_l_Some|done| |done].
  rewrite take_app_le; [done|]. apply lookup_lt_Some in Hi. lia.
Qed.

Lemma journal_ok_mono n k records sr : journal_ok n records sr -> (n <= k)%nat -> journal_ok k records sr.
Proof. intros [] Hk. split; try done; [lia|]. intros c. by eapply agree_mono. Qed.

Lemma journal_ok_start : journal_ok 0 [] fresh_fakes.
Proof. split; try done; [apply fresh_agree|apply hv_new_ok, three_room_ok|]. by intros id d H%elem_of_nil. Qed.

Lemma ops_snoc_op records r : is_op r -> ops (records ++ [r]) = ops records ++ [r].
Proof. intros H. by rewrite filter_app, filter_cons_True. Qed.

(** Another call is logged. *)
Lemma journal_ok_op n records sr r m c : journal_ok n records sr -> (N.of_nat n < u64_max)%N -> writable r -> invoke r = Some m -> service_of r = Some c ->
  record_op_id r = Some (N.of_nat (S (length (ops records)))) -> admissible r m sr -> journal_ok (S n) (records ++ [r]) (m sr).2.
Proof.
  intros [Hw Hl Hids Hrep Hag Hhv Hdig] Hn Hwr Hm Hc Hid [Hp Hslots]. assert (is_op r) as Hop by (unfold is_op; by rewrite Hc).
  pose proof (replay_op_invoke r m sr Hm Hp) as Hr. split; rewrite ?(ops_snoc_op _ _ Hop).
  - apply Forall_app. by split; [|constructor].
  - rewrite length_app. cbn. lia.
  - intros i r' [Hi|[Hi Hr']]%lookup_app_Some; [by apply Hids|]. apply list_lookup_singleton_Some in Hr' as [Hz <-].
    rewrite Hid. do 2 f_equal. lia.
  - rewrite replay_ops_app, Hrep. cbn. by rewrite Hr.
  - intros c'. destruct (decide (service_of r = Some c')) as [Hc'|Hc'].
    + eapply invoke_agree; [done..|]. apply Hag.
    + pose proof (invoke_local r m sr c' Hm Hc') as Hsame. apply agree_mono with n; [|lia]. apply (agree_same c' n sr); [done|].
      apply agree_sym, (agree_same c' n sr); [done|]. apply Hag.
  - eapply replay_op_hv_ok; [done|done| |done|by intros _]. apply (Hag SvHypervisor).
  - intros id d [Hin|Hin%list_elem_of_singleton]%elem_of_app; [by apply op_digest_app, Hdig|]. subst r. by destruct Hop.
Qed.

Lemma ops_note records id d : ops (records ++ [Applied id d]) = ops records.
Proof. by rewrite filter_app, app_nil_r. Qed.

(** An answer is noted. *)
Lemma journal_ok_note n records sr id d : journal_ok n records sr -> writable (Applied id d) -> op_digest (ops records) id d -> journal_ok n (records ++ [Applied id d]) sr.
Proof.
  intros [Hw Hl Hids Hrep Hag Hhv Hdig] Hwr Hd. pose proof (ops_note records id d) as E.
  split; rewrite ?E; try done; [apply Forall_app; by split; [|constructor]|].
  intros id' d' [Hin|[= -> ->]%list_elem_of_singleton]%elem_of_app; [by apply Hdig|done].
Qed.

Lemma ops_applied rs : Forall is_applied rs -> ops rs = [].
Proof. induction 1 as [|r rs Hr _ IH]; [done|]. destruct r; try done. Qed.

(** Notes at the end may be lost. *)
Lemma journal_ok_cut n rs1 rs2 rs2' sr : journal_ok n (rs1 ++ rs2) sr -> Forall is_applied rs2 -> rs2' `prefix_of` rs2 -> journal_ok n (rs1 ++ rs2') sr.
Proof.
  intros [Hw Hl Hids Hrep Hag Hhv Hdig] Ha [rest ->]. apply Forall_app in Ha as [Ha Hb].
  assert (ops (rs1 ++ rs2' ++ rest) = ops (rs1 ++ rs2')) as E by (by rewrite !filter_app, (ops_applied rest Hb), app_nil_r).
  rewrite E in *. split; try done; [rewrite app_assoc in Hw; by apply Forall_app in Hw as [? _]|].
  intros id d Hin. apply Hdig. rewrite app_assoc. apply elem_of_app. by left.
Qed.

(** ** Reading a journal back *)

Lemma replay_record_call D p r m : invoke r = Some m ->
  replay_record None D p r =
    (digest ← digest_response (m (rp_services p)).1;
     _ ← check_digest None D (default 0%N (record_op_id r)) digest;
     Ok (mkReplay (m (rp_services p)).2 (N.max (rp_max_op_id p) (default 0%N (record_op_id r))) (rp_perturbed p))).
Proof. destruct r; intros [= <-]; cbn; rewrite ?bool_decide_false by done; cbn; by destruct (call _ _ _ _ (rp_services p)). Qed.

Lemma replay_op_Ok r s s' : replay_op r s = Ok s' -> (exists id, r = ReclaimSession id /\ reclaim s = Ok s') \/ (exists m, invoke r = Some m /\ s' = (m s).2 /\ (m s).1 <> Panic) \/
  ~ is_op r /\ s' = s.
Proof.
  unfold replay_op. intros H. destruct (invoke r) as [m|] eqn:Hm.
  - right; left. exists m. split; [done|]. destruct r; try discriminate Hm; destruct (m s) as [[?|?|] s1]; simplify_eq; by split.
  - destruct r; try discriminate Hm; [right; right..|left; by eexists]; injection H as <-; (split; [by intros Hop; apply Hop|done]).
Qed.

Lemma digest_total {E : Type} r : r <> Panic -> exists d, digest_response (E := E) r = Ok d.
Proof. destruct r; [by eexists..|done]. Qed.

(** Every digest check passes, and the highest id is found. *)
Lemma replay_records_ok total D final : (forall i r, total !! i = Some r -> record_op_id r = Some (N.of_nat (S i))) ->
  (forall id d, D !! id = Some d -> op_digest total id d) -> replay_ops total fresh_fakes = Ok final ->
  forall rest before p, total = before ++ ops rest -> replay_ops before fresh_fakes = Ok (rp_services p) ->
  (N.of_nat (length before) <= rp_max_op_id p <= N.of_nat (length total))%N -> (forall id d, Applied id d ∈ rest -> id <= N.of_nat (length total))%N ->
  exists p', replay_records None D rest p = Ok p' /\ rp_services p' = final /\ rp_max_op_id p' = N.of_nat (length total).
Proof.
  intros Hids HD Hfinal. induction rest as [|r rest IH]; intros before p Htot Hbefore Hmax Happ.
  { exists p. rewrite app_nil_r in Htot. subst before. split; [done|]. rewrite Hfinal in Hbefore. injection Hbefore as <-. split; [done|]. lia. }
  assert (forall id d, Applied id d ∈ rest -> id <= N.of_nat (length total))%N as Happ' by (intros id d Hin; apply (Happ id d); by right).
  cbn [replay_records]. destruct (decide (is_op r)) as [Hop|Hop].
  - rewrite filter_cons_True in Htot by done. assert (total !! length before = Some r) as Hat by (rewrite Htot; by apply list_lookup_middle).
    pose proof (Hids _ _ Hat) as Hid. pose proof (lookup_lt_Some _ _ _ Hat) as Hlt.
    assert (exists s1, replay_op r (rp_services p) = Ok s1 /\ replay_ops (before ++ [r]) fresh_fakes = Ok s1) as (s1 & Hr & Hr1).
    { rewrite Htot, replay_ops_app, Hbefore in Hfinal. cbn in Hfinal. apply bind_Ok in Hfinal as (s1 & Hr & _). exists s1.
      split; [done|]. rewrite replay_ops_app, Hbefore. cbn. by rewrite Hr. }
    assert (replay_record None D p r = Ok (mkReplay s1 (N.max (rp_max_op_id p) (N.of_nat (S (length before)))) (rp_perturbed p))) as ->.
    { destruct (replay_op_Ok _ _ _ Hr) as [(id & -> & Hrec)|[(m & Hm & -> & Hp)|[Hn _]]]; [|rewrite (replay_record_call D p r m Hm), Hid|done].
      - cbn [replay_record]. injection Hid as ->. by rewrite Hrec.
      - destruct (digest_total (E := Stopped) _ Hp) as [d Hd]. rewrite Hd. cbn [mbind res_bind]. unfold check_digest.
        change (default 0%N (Some (N.of_nat (S (length before))))) with (N.of_nat (S (length before))).
        destruct (D !! N.of_nat (S (length before))) as [d'|] eqn:ED; [|done]. apply HD in ED as (i & r' & m' & s' & Hi & Hr' & Hm' & Hs' & Hd').
        assert (i = length before) as -> by lia. rewrite Hat in Hr'. injection Hr' as <-. rewrite Hm in Hm'. injection Hm' as <-.
        rewrite Htot, take_app_length in Hs'. rewrite Hbefore in Hs'. injection Hs' as <-. rewrite Hd in Hd'. injection Hd' as <-. by rewrite N.eqb_refl. }
    cbn [mbind res_bind]. apply (IH (before ++ [r])); [by rewrite <- app_assoc|done| |done]. cbn [rp_max_op_id]. rewrite length_app. cbn. lia.
  - rewrite filter_cons_False in Htot by done.
    destruct r; try (exfalso; by apply Hop); cbn [replay_record mbind res_bind record_op_id];
      (apply (IH before); [done|done| |done]); cbn; unfold id; [lia|]. assert (op_id <= N.of_nat (length total))%N by (apply (Happ op_id digest); by left). lia.
Qed.

Lemma applied_digests_elem records id d : applied_digests records !! id = Some d -> Applied id d ∈ records.
Proof.
  unfold applied_digests. enough (forall rs (m : gmap N N), foldl (fun m r => match r with Applied op_id digest => <[op_id := digest]> m | _ => m end) m rs !! id = Some d ->
    m !! id = Some d \/ Applied id d ∈ rs) as H by (intros [?|?]%H; [by rewrite lookup_empty in *|done]).
  induction rs as [|r rs IH]; intros m; [by left|]. cbn [foldl]. intros [Hm|Hin]%IH; [|right; by right].
  destruct r; try (by left). destruct (decide (op_id = id)) as [->|Hne]; [rewrite lookup_insert_eq in Hm; injection Hm as ->; right; by left|].
  rewrite lookup_insert_ne in Hm by done. by left.
Qed.

Lemma journal_replays n records sr : journal_ok n records sr -> exists p,
  replay_records None (applied_digests (Header JOURNAL_VERSION :: records)) (Header JOURNAL_VERSION :: records) replay_start = Ok p /\
  rp_services p = sr /\ rp_max_op_id p = N.of_nat (length (ops records)).
Proof.
  intros [Hw Hl Hids Hrep Hag Hhv Hdig]. apply replay_records_ok with (before := []); try done.
  - intros id d [?|Hin]%applied_digests_elem%elem_of_cons; [done|by apply Hdig].
  - cbn. lia.
  - intros id d [?|Hin]%elem_of_cons; [done|]. destruct (Hdig id d Hin) as (i & r & m & s & -> & Hi & _). apply lookup_lt_Some in Hi. lia.
Qed.

(** Fixed-size records have short encodings. *)
Class ShortRecords : Prop := {
  short_header : writable (Header JOURNAL_VERSION);
  short_applied : forall id d, (id <= u64_max)%N -> (d <= u64_max)%N -> writable (Applied id d);
  short_reclaim : forall id, (id <= u64_max)%N -> writable (ReclaimSession id)
}.
Context {SR : ShortRecords}.

Lemma digest_bound {E : Type} r d : digest_response (E := E) r = Ok d -> (d <= u64_max)%N.
Proof.
  assert (forall payload, truncated_blake3 payload <= u64_max)%N as H
    by (intros payload; pose proof (truncated_bound payload) as H; change (256 ^ N.of_nat 8)%N with (u64_max + 1)%N in H; lia).
  destruct r; intros [= <-]; apply H.
Qed.

Lemma op_digest_writable n records sr id d : journal_ok n records sr -> (N.of_nat n < u64_max)%N -> op_digest (ops records) id d -> writable (Applied id d).
Proof.
  intros Hj Hn (i & r & m & s & -> & Hi & _ & _ & Hd). apply short_applied; [|by eapply digest_bound].
  apply lookup_lt_Some in Hi. pose proof (jo_len _ _ _ Hj). lia.
Qed.

(** ** The invariant of a living world *)

Definition phase_ok (n : nat) (s : Services) (records : list JournalRecord) (sr : Services) (c : Service) (p : phase) : Prop :=
  match p with
  | Idle => agree c n s sr
  | Logged r => exists i m s0, ops records !! i = Some r /\ service_of r = Some c /\ invoke r = Some m /\
      replay_ops (take i (ops records)) fresh_fakes = Ok s0 /\ agree c n s s0 /\ Forall (fun r' => service_of r' <> Some c) (drop (S i) (ops records))
  | Answered id d => agree c n s sr /\ op_digest (ops records) id d
  end.

Definition live_ok (n : nat) (l : Live) : Prop := exists rs1 rs2 sr,
  journal_ok n (rs1 ++ rs2) sr /\ Forall is_applied rs2 /\
  jf_bytes (jn_file (lv_journal l)) = all_frames (Header JOURNAL_VERSION :: rs1 ++ rs2) /\
  jf_synced (jn_file (lv_journal l)) = length (all_frames (Header JOURNAL_VERSION :: rs1)) /\
  jn_next_op_id (lv_journal l) = N.of_nat (S (length (ops (rs1 ++ rs2)))) /\
  forall c, phase_ok n (lv_services l) (rs1 ++ rs2) sr c (lv_phase l c).

(** A service with its logged call made. *)
Definition settled (l : Live) (c : Service) : Services :=
  match lv_phase l c with
  | Logged r => match invoke r with Some m => (m (lv_services l)).2 | None => lv_services l end
  | _ => lv_services l
  end.

Lemma replay_split all i r m s sr : replay_ops all fresh_fakes = Ok sr -> all !! i = Some r -> replay_ops (take i all) fresh_fakes = Ok s -> invoke r = Some m ->
  (m s).1 <> Panic /\ replay_ops (drop (S i) all) (m s).2 = Ok sr.
Proof.
  intros Hall Hi Hs Hm. rewrite <- (take_drop_middle all i r Hi), replay_ops_app, Hs in Hall. cbn in Hall. apply bind_Ok in Hall as (s1 & H1 & H2).
  destruct (replay_op_Ok _ _ _ H1) as [(id & -> & _)|[(m' & Hm' & -> & Hp)|[Hn _]]]; [done| |].
  - rewrite Hm in Hm'. injection Hm' as <-. done.
  - exfalso. apply Hn. by destruct r.
Qed.

Lemma phase_settled n l rs sr c : journal_ok n rs sr -> (N.of_nat n < u64_max)%N -> phase_ok n (lv_services l) rs sr c (lv_phase l c) ->
  agree c (S n) (settled l c) sr.
Proof.
  intros Hj Hn. unfold settled. destruct (lv_phase l c) as [|r|id d]; cbn [phase_ok].
  - intros H. by apply agree_mono with n; [|lia].
  - intros (i & m & s0 & Hi & Hc & Hm & Hs0 & Hag & Hlater). rewrite Hm. destruct (replay_split _ _ _ _ _ _ (jo_replay _ _ _ Hj) Hi Hs0 Hm) as [_ Hd].
    pose proof (replay_ops_local _ _ _ _ Hd Hlater) as Hsame. destruct (invoke_agree r m c n _ _ Hm Hc Hn Hag) as [_ Hag'].
    apply agree_sym, (agree_same c _ (m s0).2); [done|]. by apply agree_sym.
  - intros [H _]. by apply agree_mono with n; [|lia].
Qed.

Lemma set_phase_same c p f : set_phase c p f c = p.
Proof. unfold set_phase. by rewrite decide_True. Qed.
Lemma set_phase_other c c' p f : c' <> c -> set_phase c p f c' = f c'.
Proof. intros H. unfold set_phase. by rewrite decide_False. Qed.

Lemma all_frames_snoc rs r : all_frames (rs ++ [r]) = all_frames rs ++ frame_bytes r.
Proof. unfold all_frames. rewrite bind_app. cbn. by rewrite app_nil_r. Qed.

(** Another record in the log, of another service: the phase of [c] stays. *)
Lemma phase_ok_more n s rs sr sr' c p r : phase_ok n s rs sr c p -> is_op r -> service_of r <> Some c -> same_service c sr sr' ->
  phase_ok (S n) s (rs ++ [r]) sr' c p.
Proof.
  intros Hp Hop Hc Hsame. assert (agree c n s sr -> agree c (S n) s sr') as Hag.
  { intros H. apply agree_mono with n; [|lia]. by apply agree_sym, (agree_same c n sr), agree_sym. }
  destruct p as [|r0|id d]; cbn [phase_ok] in *; [by apply Hag| |].
  - destruct Hp as (i & m & s0 & Hi & Hc0 & Hm & Hs0 & Ha & Hl). exists i, m, s0. pose proof (lookup_lt_Some _ _ _ Hi).
    rewrite (ops_snoc_op _ _ Hop), take_app_le, drop_app_le by lia. split_and!; try done; [by apply lookup_app_l_Some|by apply agree_mono with n; [|lia]|].
    apply Forall_app. by split; [|constructor].
  - destruct Hp as [H Hd]. split; [by apply Hag|]. rewrite (ops_snoc_op _ _ Hop). by apply op_digest_app.
Qed.

Lemma phase_ok_mono n k s rs sr c p : phase_ok n s rs sr c p -> (n <= k)%nat -> phase_ok k s rs sr c p.
Proof.
  intros Hp Hk. destruct p as [|r|id d]; cbn [phase_ok] in *; [by eapply agree_mono| |].
  - destruct Hp as (i & m & s0 & Hi & Hc0 & Hm & Hs0 & Ha & Hl). exists i, m, s0. split_and!; try done. by eapply agree_mono.
  - destruct Hp. split; [by eapply agree_mono|done].
Qed.

Lemma admissible_agree r m c n s sr : invoke r = Some m -> service_of r = Some c -> (N.of_nat n < u64_max)%N -> agree c n s sr -> admissible r m s -> admissible r m sr.
Proof.
  intros Hm Hc Hn Hag [Hp Hs]. destruct (invoke_agree r m c n s sr Hm Hc Hn Hag) as [Hr _]. split; [by rewrite <- Hr|].
  intros Hhv. rewrite Hc in Hhv. injection Hhv as ->. destruct Hag as (_ & _ & Ha). specialize (Hs Hc).
  assert (fh_next_slot_id (sv_hypervisor s) = fh_next_slot_id (sv_hypervisor sr)) as <- by exact (f_equal fh_next_slot_id (Ha (hidden (sv_hypervisor s)))). done.
Qed.

Lemma is_op_invoke r m : invoke r = Some m -> is_op r.
Proof. by destruct r. Qed.

(** ** Steps keep the invariant *)

(** A call is logged. *)
Lemma log_ok n l r0 m c rs sr : journal_ok n rs sr -> (N.of_nat n < u64_max)%N -> (forall c', phase_ok n (lv_services l) rs sr c' (lv_phase l c')) ->
  invoke r0 = Some m -> service_of r0 = Some c -> lv_phase l c = Idle -> admissible r0 m (lv_services l) ->
  let r := with_op_id (N.of_nat (S (length (ops rs)))) r0 in writable r ->
  journal_ok (S n) (rs ++ [r]) (m sr).2 /\
  forall c', phase_ok (S n) (lv_services l) (rs ++ [r]) (m sr).2 c' (set_phase c (Logged r) (lv_phase l) c').
Proof.
  intros Hj Hn Hph Hm Hc Hidle Hadm r Hw. destruct (with_op_id_facts (N.of_nat (S (length (ops rs)))) r0) as (Fs & Fi & Fn & Fid). fold r in Fs, Fi, Fn, Fid.
  pose proof (Hph c) as Hag. rewrite Hidle in Hag. cbn [phase_ok] in Hag. pose proof (admissible_agree _ _ _ _ _ _ Hm Hc Hn Hag Hadm) as Hadm'.
  assert (is_op r) as Hop by (apply (is_op_invoke r m); by rewrite Fi). specialize (Fid (is_op_invoke _ _ Hm)).
  assert (admissible r m sr) as Hadm2 by (unfold admissible in *; by rewrite Fs, Fn). split.
  - eapply journal_ok_op with (c := c); [done|done|done|by rewrite Fi|by rewrite Fs|done|done].
  - intros c'. destruct (decide (c' = c)) as [->|Hne].
    + rewrite set_phase_same. cbn [phase_ok]. exists (length (ops rs)), m, sr. rewrite (ops_snoc_op _ _ Hop). split_and!.
      * by apply list_lookup_middle.
      * by rewrite Fs.
      * by rewrite Fi.
      * rewrite take_app_length. apply Hj.
      * apply agree_mono with n; [done|lia].
      * rewrite drop_ge; [constructor|]. rewrite length_app. cbn. lia.
    + rewrite set_phase_other by done. assert (service_of r <> Some c') as Hc' by (rewrite Fs, Hc; by intros [= ->]).
      apply (phase_ok_more n _ rs sr); [apply Hph|done|done|]. apply (invoke_local r m sr c'); [by rewrite Fi|done].
Qed.

(** A logged call is made. *)
Lemma apply_ok n l r m c rs sr id d : journal_ok n rs sr -> (N.of_nat n < u64_max)%N -> (forall c', phase_ok n (lv_services l) rs sr c' (lv_phase l c')) ->
  lv_phase l c = Logged r -> invoke r = Some m -> record_op_id r = Some id -> digest_response (E := Stopped) (m (lv_services l)).1 = Ok d ->
  forall c', phase_ok (S n) (m (lv_services l)).2 rs sr c' (set_phase c (Answered id d) (lv_phase l) c').
Proof.
  intros Hj Hn Hph Hlog Hm Hid Hd c'. pose proof (Hph c) as Hc. rewrite Hlog in Hc. pose proof Hc as (i & m' & s0 & Hi & Hsv & Hm' & Hs0 & Hag & Hlater).
  rewrite Hm in Hm'. injection Hm' as <-. destruct (decide (c' = c)) as [->|Hne].
  - rewrite set_phase_same. cbn [phase_ok]. split.
    + pose proof (phase_settled n l rs sr c Hj Hn (Hph c)) as Hset. unfold settled in Hset. by rewrite Hlog, Hm in Hset.
    + destruct (invoke_agree r m c n _ _ Hm Hsv Hn Hag) as [Hr _]. rewrite Hr in Hd. exists i, r, m, s0. split_and!; try done.
      rewrite (jo_ids _ _ _ Hj _ _ Hi) in Hid. by injection Hid as <-.
  - rewrite set_phase_other by done. pose proof (invoke_local r m (lv_services l) c' Hm) as Hsame.
    assert (service_of r <> Some c') as Hc' by (rewrite Hsv; by intros [= ->]). specialize (Hsame Hc'). pose proof (Hph c') as Hp.
    apply (phase_ok_mono n (S n)) in Hp; [|lia]. destruct (lv_phase l c') as [|r1|id1 d1]; cbn [phase_ok] in *.
    + by apply (agree_same c' _ (lv_services l)).
    + destruct Hp as (i1 & m1 & s1 & ? & ? & ? & ? & ? & ?). exists i1, m1, s1. split_and!; try done. by apply (agree_same c' _ (lv_services l)).
    + destruct Hp. split; [by apply (agree_same c' _ (lv_services l))|done].
Qed.

(** A call that is not logged changes what is hidden only. *)
Lemma read_calm {T H A : Type} {CC : Concealed T H} {FS : FaultyService T H} (m : st T ClientError A) n t u : reads m -> (N.of_nat n < u64_max)%N ->
  calm n t -> calm n u -> alike t u -> calm (S n) (m t).2 /\ calm (S n) u /\ alike (m t).2 u.
Proof.
  intros Hm Hn Ht Hu Htu. destruct (Hm n t Ht Hn) as [Ha Hc]. split; [done|]. split; [by apply calm_mono with n; [|lia]|]. by transitivity t.
Qed.

Lemma read_agree rc c n s sr : (N.of_nat n < u64_max)%N -> agree c n s sr -> agree c (S n) (do_read rc s) sr.
Proof.
  intros Hn Hag. destruct rc; destruct c; try (apply agree_mono with n; [exact Hag|lia]); cbn [agree do_read] in *.
  1-3: destruct Hag as (H1 & H2 & H3); apply read_calm; auto using list_slots_reads, watch_slots_reads, worker_info_reads.
  1-4: destruct Hag as [(H1 & H2 & H3) H4]; split; [|done]; apply read_calm; auto using get_node_reads, get_children_reads, get_path_reads, query_nodes_reads.
  - destruct Hag as [(H1 & H2 & H3) [H4 H5]]. cbn. rewrite (proj2 (proj2 (metadata_faults _ H5))).
    split_and!; [by apply calm_mono with n; [|lia]..|done|done|done].
Qed.

Lemma read_ok rc n s rs sr c p : (N.of_nat n < u64_max)%N -> phase_ok n s rs sr c p -> phase_ok (S n) (do_read rc s) rs sr c p.
Proof.
  intros Hn. destruct p as [|r|id d]; cbn [phase_ok]; [by apply read_agree| |].
  - intros (i & m & s0 & ? & ? & ? & ? & ? & ?). exists i, m, s0. split_and!; try done. by apply read_agree.
  - intros [H Hd]. split; [by apply read_agree|done].
Qed.

(** A noted answer leaves the phases of the others. *)
Lemma note_ok n s rs sr c f id d c' : (forall c', phase_ok n s rs sr c' (f c')) -> f c = Answered id d ->
  phase_ok n s (rs ++ [Applied id d]) sr c' (set_phase c Idle f c').
Proof.
  intros Hph Hc. pose proof (ops_note rs id d) as E. pose proof (Hph c') as Hp.
  destruct (decide (c' = c)) as [->|Hne]; [rewrite set_phase_same; rewrite Hc in Hp; by destruct Hp|]. rewrite set_phase_other by done.
  destruct (f c'); cbn [phase_ok] in *; by rewrite ?E.
Qed.

Lemma live_ok_step n l l' : live_ok n l -> (N.of_nat n < u64_max)%N -> live_step l l' -> live_ok (S n) l'.
Proof.
  intros (rs1 & rs2 & sr & Hj & Ha & Hb & Hs & Hnext & Hph) Hn Hstep.
  destruct Hstep as [s j p c r m id j' Hm Hc Hidle Hadm Hw Happ|s j p c r m id response s' d Hlog Hm Hid Hrun Hd|s j p c id d j' Hans Happ|s j p rc]; cbn [lv_services lv_journal lv_phase] in *.
  - apply append_op_Ok in Happ as (-> & Hb' & Hs' & Hn'). rewrite Hnext in Hb', Hw |- *.
    destruct (log_ok n (mkLive s j p) r m c _ _ Hj Hn Hph Hm Hc Hidle Hadm Hw) as [Hj' Hph'].
    set (r' := with_op_id _ r) in *. assert (is_op r') as Hop by (apply (is_op_invoke r' m); unfold r'; by rewrite (proj1 (proj2 (with_op_id_facts _ r)))).
    exists ((rs1 ++ rs2) ++ [r']), [], (m sr).2. rewrite app_nil_r. cbn [lv_journal].
    assert (jf_bytes (jn_file j') = all_frames (Header JOURNAL_VERSION :: (rs1 ++ rs2) ++ [r'])) as Hb2
      by (rewrite app_comm_cons, all_frames_snoc, Hb'; by rewrite Hb).
    split_and!; [done|done|done|by rewrite Hs', Hb2| |done]. rewrite Hn', Hnext, (ops_snoc_op _ _ Hop), length_app. cbn. lia.
  - exists rs1, rs2, sr. split_and!; try done; [by apply journal_ok_mono with n; [|lia]|]. rewrite <- (f_equal fst Hrun : (m s).1 = response) in Hd.
    rewrite <- (f_equal snd Hrun : (m s).2 = s'). by apply (apply_ok n (mkLive s j p) r m c).
  - apply write_frame_Ok in Happ as (Hb' & Hs' & Hn'). exists rs1, (rs2 ++ [Applied id d]), sr. cbn [lv_journal]. rewrite app_assoc.
    pose proof (Hph c) as Hc. rewrite Hans in Hc. destruct Hc as [_ Hd]. split_and!.
    + apply journal_ok_mono with n; [|lia]. apply journal_ok_note; [done|by eapply op_digest_writable|done].
    + apply Forall_app. by split; [|constructor].
    + rewrite app_comm_cons, all_frames_snoc, Hb'. by rewrite Hb.
    + by rewrite Hs'.
    + by rewrite Hn', Hnext, ops_note.
    + intros c'. apply (phase_ok_mono n); [|lia]. by apply note_ok.
  - exists rs1, rs2, sr. split_and!; try done; [by apply journal_ok_mono with n; [|lia]|]. intros c. by apply read_ok.
Qed.

(** ** Kills and reloads *)

Lemma journal_ok_reclaim n records sr s : journal_ok n records sr -> (N.of_nat n < u64_max)%N -> reclaim sr = Ok s ->
  journal_ok (S n) (records ++ [ReclaimSession (N.of_nat (S (length (ops records))))]) s /\ fh_slots (sv_hypervisor s) = ∅.
Proof.
  intros [Hw Hl Hids Hrep Hag Hhv Hdig] Hn Hr. destruct (reclaim_ok sr Hhv) as (s' & Hr' & Hhv' & Hempty & _ & Hhid & Hsame).
  rewrite Hr in Hr'. injection Hr' as <-. split; [|done]. set (r := ReclaimSession _). assert (is_op r) as Hop by done.
  split; rewrite ?(ops_snoc_op _ _ Hop).
  - apply Forall_app. split; [done|]. constructor; [apply short_reclaim; lia|done].
  - rewrite length_app. cbn. lia.
  - intros i r' [Hi|[Hi Hr']]%lookup_app_Some; [by apply Hids|]. apply list_lookup_singleton_Some in Hr' as [Hz <-]. cbn. do 2 f_equal. lia.
  - rewrite replay_ops_app, Hrep. cbn. by rewrite Hr.
  - intros c. apply agree_mono with n; [|lia]. destruct (decide (c = SvHypervisor)) as [->|Hne].
    + destruct (Hag SvHypervisor) as (Hc & _ & _). cbn [agree]. unfold calm in *. rewrite Hhid. split; [exact Hc|]. by split; [exact Hc|].
    + apply (agree_same c n sr); [by apply Hsame|]. apply agree_sym, (agree_same c n sr); [by apply Hsame|apply Hag].
  - done.
  - intros id d [Hin|Hin%list_elem_of_singleton]%elem_of_app; [by apply op_digest_app, Hdig|done].
Qed.

Lemma prefix_snoc_inv {A : Type} (l1 l2 : list A) x : l1 `prefix_of` l2 ++ [x] -> l1 `prefix_of` l2 \/ l1 = l2 ++ [x].
Proof.
  intros [rest H]. destruct rest as [|y rest _] using rev_ind; [right; by rewrite app_nil_r in H|]. left. rewrite app_assoc in H.
  apply app_inj_tail in H as [-> _]. by exists rest.
Qed.

(** What the record being written may add. *)
Definition recovered (n : nat) (l : Live) (writing : option JournalRecord) (sr : Services) : Prop := forall c,
  agree c n (settled l c) sr \/
  exists r m, writing = Some r /\ service_of r = Some c /\ invoke r = Some m /\ agree c n (m (lv_services l)).2 sr.

Lemma crash_records n l writing image : live_ok n l -> (N.of_nat n < u64_max)%N -> crash_image l writing image ->
  exists kept sr stats, load image = Ok (Header JOURNAL_VERSION :: kept, stats, all_frames (Header JOURNAL_VERSION :: kept)) /\
    journal_ok (S n) kept sr /\ recovered (S n) l writing sr.
Proof.
  intros (rs1 & rs2 & sr & Hj & Ha & Hb & Hs & Hnext & Hph) Hn (Hwriting & k & Hk & ->). rewrite Hb. rewrite Hs in Hk.
  assert (forall c, agree c (S n) (settled l c) sr) as Hset by (intros c; by eapply phase_settled).
  assert (forall extra, Forall writable extra -> exists stats, load (take k (all_frames ((Header JOURNAL_VERSION :: rs1 ++ rs2) ++ extra))) =
    Ok (Header JOURNAL_VERSION :: rs1 ++ complete (k - length (all_frames (Header JOURNAL_VERSION :: rs1))) (rs2 ++ extra), stats,
        all_frames (Header JOURNAL_VERSION :: rs1 ++ complete (k - length (all_frames (Header JOURNAL_VERSION :: rs1))) (rs2 ++ extra)))) as Hload.
  { intros extra Hex. destruct (load_cut ((Header JOURNAL_VERSION :: rs1 ++ rs2) ++ extra) k) as (t & Hl & _); [|done|].
    - apply Forall_app. split; [|done]. constructor; [apply short_header|apply Hj].
    - change ((Header JOURNAL_VERSION :: rs1 ++ rs2) ++ extra) with (Header JOURNAL_VERSION :: (rs1 ++ rs2) ++ extra) in Hl |- *.
      rewrite <- app_assoc, app_comm_cons in Hl |- *. rewrite complete_app in Hl by done. eexists. exact Hl. }
  assert (forall rs2', rs2' `prefix_of` rs2 -> journal_ok (S n) (rs1 ++ rs2') sr) as Hcut
    by (intros rs2' Hp; apply journal_ok_mono with n; [|lia]; by eapply journal_ok_cut).
  destruct writing as [r|].
  2:{ destruct (Hload [] (Forall_nil_2 _)) as [stats Hl]. rewrite !app_nil_r in Hl. rewrite app_nil_r. do 3 eexists. split; [exact Hl|].
      split; [apply Hcut, complete_prefix|]. intros c. by left. }
  destruct (Hwriting r eq_refl) as [Hw Hr]. destruct (Hload [r] ltac:(by constructor)) as [stats Hl]. rewrite all_frames_snoc in Hl.
  set (cut := complete _ _) in Hl. assert (cut `prefix_of` rs2 ++ [r]) as Hp by apply complete_prefix. clearbody cut.
  apply prefix_snoc_inv in Hp as [Hp| ->]; [exists (rs1 ++ cut), sr, stats; split_and!; [exact Hl|by apply Hcut|intros c; by left]|].
  exists (rs1 ++ rs2 ++ [r]), (match invoke r with Some m => (m sr).2 | None => sr end), stats. split; [exact Hl|]. rewrite app_assoc. destruct Hr as [(r0 & m & c & -> & Hm & Hc & Hidle & Hadm)|(c & id & d & -> & Hans)].
  - rewrite Hnext in *. destruct (log_ok n l r0 m c _ _ Hj Hn Hph Hm Hc Hidle Hadm Hw) as [Hj' _].
    set (r := with_op_id _ r0) in *. destruct (with_op_id_facts (N.of_nat (S (length (ops (rs1 ++ rs2))))) r0) as (Fs & Fi & _). fold r in Fs, Fi.
    rewrite Fi, Hm. split; [done|]. intros c'. destruct (decide (c' = c)) as [->|Hne].
    + right. exists r, m. rewrite Fs, Fi. split_and!; try done. pose proof (Hph c) as Hag. rewrite Hidle in Hag.
      by destruct (invoke_agree r0 m c n _ _ Hm Hc Hn Hag).
    + left. apply agree_sym, (agree_same c' _ sr); [|by apply agree_sym, Hset]. apply (invoke_local r0 m sr c' Hm). rewrite Hc. by intros [= ->].
  - cbn [invoke]. pose proof (Hph c) as Hd. rewrite Hans in Hd. destruct Hd as [_ Hd]. split; [|intros c'; by left].
    apply journal_ok_mono with n; [|lia]. by apply journal_ok_note.
Qed.

Lemma reload_ok n l writing image torn : live_ok n l -> (N.of_nat n + 4 < u64_max)%N -> crash_image l writing image -> hook_ok torn ->
  exists s j stats bytes sr, reload image torn = Ok (mkSimWorld s (Some j), stats, bytes) /\ reclaim sr = Ok s /\ fh_slots (sv_hypervisor s) = ∅ /\
    recovered (S n) l writing sr /\ live_ok (S (S n)) (mkLive s j (fun _ => Idle)).
Proof.
  intros Hlive Hn Hcrash Hhook. destruct (crash_records n l writing image Hlive ltac:(lia) Hcrash) as (kept & sr & stats & Hload & Hj & Hrec).
  destruct (journal_replays _ _ _ Hj) as (p & Hp & Hsv & Hmax). destruct (reclaim_ok sr (jo_hv _ _ _ Hj)) as (s & Hs & _ & _).
  destruct (journal_ok_reclaim _ _ _ _ Hj ltac:(lia) Hs) as [Hj' Hempty]. pose proof (jo_len _ _ _ Hj) as Hlen.
  set (j0 := Journal_open_existing (all_frames (Header JOURNAL_VERSION :: kept)) (N.of_nat (S (length (ops kept)))) torn).
  destruct (append_other_total ReclaimSession j0 Hhook) as [j Happ]; [apply short_reclaim; cbn; lia|cbn; lia|].
  exists s, j, stats, (jf_bytes (jn_file j)), sr. split_and!; try done.
  - unfold reload, reload_inner. rewrite Hload. cbn [mbind res_bind]. rewrite Hp. cbn [mbind res_bind]. rewrite Hmax, Hsv. unfold checked_add.
    rewrite decide_True by lia. cbn [expect mbind res_bind]. rewrite Hs. cbn [mbind res_bind].
    replace (N.of_nat (length (ops kept)) + 1)%N with (N.of_nat (S (length (ops kept)))) by lia. fold j0. by rewrite Happ.
  - apply append_op_Ok in Happ as (_ & Hb & Hsync & Hnext). cbn [jn_file jn_next_op_id j0 Journal_open_existing jf_bytes] in *.
    exists (kept ++ [ReclaimSession (N.of_nat (S (length (ops kept))))]), [], s. rewrite app_nil_r. cbn [lv_journal lv_services lv_phase phase_ok].
    assert (jf_bytes (jn_file j) = all_frames (Header JOURNAL_VERSION :: kept ++ [ReclaimSession (N.of_nat (S (length (ops kept))))])) as Hb'
      by (by rewrite app_comm_cons, all_frames_snoc).
    split_and!; try done; [by rewrite Hsync, Hb'| |apply Hj'].
    rewrite Hnext, ops_snoc_op, length_app by done. cbn. lia.
Qed.

Lemma create_ok torn s j : world_create torn = Ok (mkSimWorld s (Some j)) -> live_ok 0 (mkLive s j (fun _ => Idle)).
Proof.
  unfold world_create, Journal_create. destruct (write_frame _ _ _) as [[u|e|] j'] eqn:Ew; [|done..]. intros [= <- <-].
  apply write_frame_Ok in Ew as (Hb & Hs & Hn). exists [], [], fresh_fakes. cbn [lv_journal lv_services lv_phase phase_ok app] in *.
  split_and!; try done; [apply journal_ok_start|by rewrite Hb; cbn; rewrite app_nil_r|by rewrite Hs, Hb; cbn; rewrite app_nil_r|apply fresh_agree].
Qed.

Lemma live_reach_ok n l : live_reach n l -> (N.of_nat n + 4 < u64_max)%N -> live_ok n l.
Proof.
  induction 1 as [torn s j Hh Hc|n l l' _ IH Hstep|n l writing image torn s j stats bytes _ IH Hcrash Hh Hr]; intros Hn.
  - by eapply create_ok.
  - eapply live_ok_step; [apply IH; lia|lia|done].
  - destruct (reload_ok n l writing image torn) as (s' & j' & stats' & bytes' & sr & Hr' & _ & _ & _ & Hok); [apply IH; lia|lia|done|done|].
    rewrite Hr in Hr'. by injection Hr' as <- <- _ _.
Qed.

(** C5. Nothing that was logged is lost, wherever the process is killed and
    however the calls of the four services interleave around the journal: the
    reload succeeds (no digest mismatch, no refused replay), every service is
    then the one it was with its logged call made (up to the bookkeeping of
    the fault injectors, which a replay does not share), except that the one
    call whose record was being written may have happened; the slots of the
    dead process are free. *)
Theorem reload_recovers n l writing image torn : live_reach n l -> (N.of_nat n + 4 < u64_max)%N -> crash_image l writing image -> hook_ok torn ->
  exists s j stats bytes sr, reload image torn = Ok (mkSimWorld s (Some j), stats, bytes) /\ reclaim sr = Ok s /\ fh_slots (sv_hypervisor s) = ∅ /\
    forall c, agree c (S n) (settled l c) sr \/
      exists r m, writing = Some r /\ service_of r = Some c /\ invoke r = Some m /\ agree c (S n) (m (lv_services l)).2 sr.
Proof.
  intros Hreach Hn Hcrash Hh. destruct (reload_ok n l writing image torn (live_reach_ok _ _ Hreach Hn) Hn Hcrash Hh) as (s & j & stats & bytes & sr & H1 & H2 & H3 & H4 & _).
  by exists s, j, stats, bytes, sr.
Qed.

(** ** Calls as steps *)

(** A journaled call of an idle service is its log entry, the call itself and
    the note of its answer. *)
Lemma persistent_call_steps r m c s j p response s' j' : invoke r = Some m -> service_of r = Some c -> p c = Idle -> admissible r m s ->
  writable (with_op_id (jn_next_op_id j) r) -> persistent_call r (mkSimWorld s (Some j)) = (Ok response, mkSimWorld s' (Some j')) ->
  exists l1 l2 p', live_step (mkLive s j p) l1 /\ live_step l1 l2 /\ live_step l2 (mkLive s' j' p') /\ (forall c', p' c' = p c') /\ response = (m s).1.
Proof.
  intros Hm Hc Hp Hadm Hw. unfold persistent_call. rewrite st_bind_run, Hm. cbn [expect lift_res]. unfold journaled. rewrite st_bind_run. cbn [get_st sw_journal].
  rewrite st_bind_run. unfold on_journal at 1. destruct (append_op _ _ j) as [[id|e|] j1] eqn:Elog; [|done..]. rewrite st_bind_run. unfold on_services. cbn [sw_services sw_journal].
  destruct (m s) as [out s1] eqn:Em. destruct (with_op_id_facts id r) as (_ & Fi & _ & Fid). specialize (Fid (is_op_invoke _ _ Hm)).
  assert (out <> Panic) as Hout by (destruct Hadm as [H _]; by rewrite Em in H).
  assert ((match out with Panic => Panic | _ => Ok out end) = Ok (E := Stopped) out) as -> by (by destruct out). rewrite st_bind_run. unfold lift_res at 1.
  destruct (digest_response out) as [d|e|] eqn:Ed; [|done..]. rewrite st_bind_run. cbn [current_journal sw_journal expect]. rewrite st_bind_run. unfold on_journal. cbn [sw_services].
  destruct (append_advisory (Applied id d) j1) as [[[]|e|] j2] eqn:Enote; [|done..]. intros [= <- <- <-].
  exists (mkLive s j1 (set_phase c (Logged (with_op_id id r)) p)), (mkLive s1 j1 (set_phase c (Answered id d) (set_phase c (Logged (with_op_id id r)) p))),
    (set_phase c Idle (set_phase c (Answered id d) (set_phase c (Logged (with_op_id id r)) p))). split_and!; [by eapply step_log| | | |done].
  - eapply step_apply with (r := with_op_id id r); [apply set_phase_same|by rewrite Fi|done|done|done].
  - eapply step_note; [apply set_phase_same|done].
  - intros c'. unfold set_phase. destruct (decide (c' = c)) as [->|]; done.
Qed.

(** ** Looking without driving *)

Lemma load_file bytes records stats kept : load bytes = Ok (records, stats, kept) -> kept `prefix_of` bytes /\ ls_truncated_bytes stats = N.of_nat (length bytes - length kept) /\
  ls_frames stats = N.of_nat (length records).
Proof.
  unfold load. intros H. apply bind_Ok in H as ([rs torn] & _ & H). cbv zeta in H.
  assert (records = rs /\ stats = mkLoadStats (N.of_nat (length rs)) (N.of_nat (length bytes - length (match torn with Some at_byte => take at_byte bytes | None => bytes end))) /\
    kept = match torn with Some at_byte => take at_byte bytes | None => bytes end) as (-> & -> & ->).
  { destruct rs as [|[] rs]; try discriminate H; [by injection H|]. destruct (_ =? _)%N; [by injection H|done]. }
  split; [|done]. destruct torn; [apply prefix_take|done].
Qed.

(** Reading a killed world back for inspection reclaims nothing and
    appends nothing, and gives the same world each time; but it cuts the torn
    tail off the file. *)
Theorem readonly_reload n l writing image torn : live_reach n l -> (N.of_nat n + 4 < u64_max)%N -> crash_image l writing image ->
  exists s stats kept, reload_readonly image torn = Ok (mkSimWorld s None, stats, kept) /\ kept `prefix_of` image /\
    ls_truncated_bytes stats = N.of_nat (length image - length kept) /\
    reload_readonly kept torn = Ok (mkSimWorld s None, mkLoadStats (ls_frames stats) 0, kept) /\
    forall c, agree c (S n) (settled l c) s \/
      exists r m, writing = Some r /\ service_of r = Some c /\ invoke r = Some m /\ agree c (S n) (m (lv_services l)).2 s.
Proof.
  intros Hreach Hn Hcrash. destruct (crash_records n l writing image (live_reach_ok _ _ Hreach Hn) ltac:(lia) Hcrash) as (kept & sr & stats & Hload & Hj & Hrec).
  destruct (journal_replays _ _ _ Hj) as (p & Hp & Hsv & _). destruct (load_file _ _ _ _ Hload) as (Hpre & Htr & Hfr).
  pose proof (load_torn (Header JOURNAL_VERSION :: kept) []) as Hagain. rewrite app_nil_r in Hagain. specialize (Hagain (Forall_cons_2 _ _ _ short_header (jo_writable _ _ _ Hj)) ltac:(by right) ltac:(by left)).
  exists sr, stats, (all_frames (Header JOURNAL_VERSION :: kept)). unfold reload_readonly, reload_inner. rewrite Hload, Hagain. cbn [mbind res_bind]. rewrite Hp. cbn [mbind res_bind].
  rewrite Hsv, Hfr. by split_and!.
Qed.

Lemma scan_total fuel bytes : forall offset, (exists x, scan_frames fuel bytes offset = Ok x) \/ scan_frames fuel bytes offset = Panic.
Proof.
  induction fuel as [|fuel IH]; intros offset; [by right|]. cbn [scan_frames]. destruct (_ <? _)%nat; [|left; by eexists].
  destruct (parse_frame bytes offset) as [record next| |len|next]; [|left; by eexists|by right|].
  - destruct (IH next) as [[[rs torn] ->]| ->]; [left; by eexists|by right].
  - destruct (damaged_after _ _ _); [by right|left; by eexists].
Qed.

(** C27. A kill inside the very first write leaves a journal that loads empty;
    the reload succeeds on it and appends its record with no version header
    before it, so that no later reload can read the journal, whatever is
    appended. *)
Theorem headerless_journal (k : nat) (torn : option TornHook) : (k < length (frame_bytes (Header JOURNAL_VERSION)))%nat -> hook_ok torn ->
  exists s j stats bytes, reload (take k (frame_bytes (Header JOURNAL_VERSION))) torn = Ok (mkSimWorld s (Some j), stats, bytes) /\
    bytes = frame_bytes (ReclaimSession 1) /\ forall later, load (bytes ++ later) = Panic.
Proof.
  intros Hk Hh. destruct (load_cut [Header JOURNAL_VERSION] k) as (t & Hload & _); [constructor; [apply short_header|done]|done|].
  pose proof (all_frames_snoc [] (Header JOURNAL_VERSION)) as Hone. cbn [app] in Hone. rewrite Hone in Hload. cbn [complete] in Hload.
  rewrite (proj2 (Nat.leb_gt _ _) Hk) in Hload. change (all_frames [] ++ ?x) with x in Hload. change (all_frames []) with (@nil N) in Hload.
  pose proof (jo_hv _ _ _ journal_ok_start) as Hhv. destruct (reclaim_ok fresh_fakes Hhv) as (s & Hs & _).
  destruct (append_other_total ReclaimSession (Journal_open_existing [] 1 torn) Hh) as [j Happ]; [by apply short_reclaim|done|].
  pose proof (append_op_Ok _ _ _ _ _ Happ) as (_ & Hb & _). cbn [jn_next_op_id Journal_open_existing jn_file jf_bytes app] in Hb.
  exists s, j, (mkLoadStats 0 t), (jf_bytes (jn_file j)). split_and!; [|done|].
  - unfold reload, reload_inner. rewrite Hload. cbn [mbind res_bind applied_digests foldl replay_records replay_start rp_max_op_id rp_services]. change (expect (checked_add u64_max 0 1)) with (Ok (E := Stopped) 1%N).
    cbn [mbind res_bind]. rewrite Hs. cbn [mbind res_bind]. cbn in Happ. by rewrite Happ.
  - intros later. rewrite Hb. unfold load. cbn [scan_frames]. pose proof (parse_frame_full [] (ReclaimSession 1) later (short_reclaim 1 ltac:(done))) as Hparse.
    cbn [app length] in Hparse. rewrite Hparse. pose proof (frame_length (ReclaimSession 1) (short_reclaim 1 ltac:(done))) as Hl. unfold FRAME_HEADER_LEN in Hl.
    rewrite (proj2 (Nat.ltb_lt _ _)) by (rewrite length_app; lia). match goal with |- context [scan_frames ?f ?b ?o] => by destruct (scan_total f b o) as [[[rs t'] ->]| ->] end.
Qed.
End Recovery.

(** ** Witnesses *)

Definition toy_response_encoding : ResponseEncoding := {|
  enc_response r := match r with RPutMetadata g => [g] | _ => [] end;
  enc_error kind message := [N.of_nat (String.length kind); N.of_nat (String.length message)]
|}.
#[local] Existing Instance toy_blake3.
#[local] Existing Instance toy_chacha.
#[local] Existing Instance toy_encoding.
#[local] Existing Instance toy_scorer_encoding.
#[local] Existing Instance toy_store_encoding.
#[local] Existing Instance toy_synth_encoding.
#[local] Existing Instance toy_response_encoding.
#[local] Existing Instance toy_journal_codec.
#[local] Existing Instance lab_attrs_codec.

Lemma toy_short : ShortRecords.
Proof. split; intros; (eexists; split; [reflexivity|vm_compute; discriminate]). Qed.
#[local] Existing Instance toy_short.

Definition sample_journal : Journal := (Journal_create None).2.
Definition sample_call : JournalRecord := toy_put 0 [5; 6]%N.
Definition sample_logged : res Stopped N * Journal := append_op (fun id => with_op_id id sample_call) (record_kind sample_call) sample_journal.
(** Killed after the call was logged and before it was made. *)
Definition sample_live : Live := mkLive fresh_fakes sample_logged.2 (set_phase SvStore (Logged (toy_put 1 [5; 6]%N)) (fun _ => Idle)).
Definition sample_image : list N := jf_bytes (jn_file sample_logged.2).

Lemma sample_created : world_create None = Ok (mkSimWorld fresh_fakes (Some sample_journal)).
Proof.
  unfold world_create, sample_journal. assert ((Journal_create None).1 = Ok tt) as H by (vm_compute; reflexivity).
  destruct (Journal_create None) as [r j]. cbn in H. by rewrite H.
Qed.

Lemma sample_reach : live_reach 1 sample_live.
Proof.
  eapply reach_step; [exact (reach_create None fresh_fakes sample_journal I sample_created)|].
  eapply (step_log fresh_fakes sample_journal (fun _ => Idle) SvStore sample_call) with (id := 1%N); [reflexivity|reflexivity|reflexivity| | |].
  - split; [vm_compute; discriminate|done].
  - eexists. split; [reflexivity|vm_compute; discriminate].
  - change (append_op _ _ _) with sample_logged. assert (sample_logged.1 = Ok 1%N) as H by (vm_compute; reflexivity).
    rewrite <- H. apply surjective_pairing.
Qed.

Lemma sample_crash : crash_image sample_live None sample_image.
Proof.
  split; [done|]. exists (length sample_image). cbn [lv_journal sample_live]. rewrite app_nil_r. split; [vm_compute; lia|]. by rewrite firstn_all.
Qed.

(** The call that was logged and never made is in the store read back. *)
Lemma reload_recovers_witness : exists s j stats bytes sr, reload sample_image None = Ok (mkSimWorld s (Some j), stats, bytes) /\ reclaim sr = Ok s /\
  metadata (sv_metadata sr) !! toy_key = Some (mkMetadataEntry [5; 6]%N 1).
Proof.
  destruct (reload_recovers 1 sample_live None sample_image None sample_reach ltac:(vm_compute; reflexivity) sample_crash I)
    as (s & j & stats & bytes & sr & H1 & H2 & _ & H). exists s, j, stats, bytes, sr. split; [exact H1|]. split; [exact H2|].
  destruct (H SvStore) as [[_ [E _]]|(r & m & Hr & _)]; [|discriminate Hr]. rewrite <- E. vm_compute. reflexivity.
Defined.

(** The record of the first call is half written; the look cuts it off. *)
Definition sample_new : Live := mkLive fresh_fakes sample_journal (fun _ => Idle).
Definition sample_torn : list N := take 20 (jf_bytes (jn_file sample_journal) ++ frame_bytes (toy_put 1 [5; 6]%N)).

Lemma sample_torn_crash : crash_image sample_new (Some (toy_put 1 [5; 6]%N)) sample_torn.
Proof.
  split; [|exists 20%nat; split; [apply Nat.leb_le; vm_compute; reflexivity|reflexivity]].
  intros r [= <-]. split; [eexists; split; [reflexivity|vm_compute; discriminate]|]. left.
  eexists sample_call, _, SvStore. split; [reflexivity|]. split; [reflexivity|]. split; [reflexivity|]. split; [reflexivity|]. split; [vm_compute; discriminate|done].
Qed.

Lemma readonly_reload_witness : exists s stats kept, reload_readonly sample_torn None = Ok (mkSimWorld s None, stats, kept) /\
  ls_truncated_bytes stats = 6%N /\ reload_readonly kept None = Ok (mkSimWorld s None, mkLoadStats 1 0, kept).
Proof.
  destruct (readonly_reload 0 sample_new (Some (toy_put 1 [5; 6]%N)) sample_torn None (reach_create None _ _ I sample_created)
    ltac:(vm_compute; reflexivity) sample_torn_crash) as (s & stats & kept & H1 & _ & _ & H2 & _).
  assert (stats = mkLoadStats 1 6) as E.
  { assert (('(_, t, _) ← reload_readonly sample_torn None; Ok t) = Ok (E := Stopped) (mkLoadStats 1 6)) as H by (vm_compute; reflexivity).
    rewrite H1 in H. cbn in H. injection H as H. exact H. }
  subst stats. exists s, (mkLoadStats 1 6), kept. split; [exact H1|]. split; [reflexivity|exact H2].
Defined.

Lemma headerless_journal_witness : exists s j stats bytes, reload (take 5 (frame_bytes (Header JOURNAL_VERSION))) None = Ok (mkSimWorld s (Some j), stats, bytes) /\
  load (bytes ++ frame_bytes (toy_put 2 [])) = Panic.
Proof.
  destruct (headerless_journal 5 None ltac:(apply Nat.ltb_lt; vm_compute; reflexivity) I) as (s & j & stats & bytes & H1 & _ & H2). exists s, j, stats, bytes. split; [exact H1|apply H2].
Defined.
