(* ===== verification/Service.v ===== *)
(** The served surface (crates/orch-server/src/service.rs): the registry of
    experiments, the ids in bring-up, and the handlers of the calls.

    A handler runs from one await to the next in one step: the registry is
    behind one lock, and the second lock ([starting]) is taken only for a
    moment or inside the first.  A runner is its channel ends: the snapshots it
    has published (the version of a watch channel is their number), the control
    messages it has not read, and whether it is gone. *)
From S2P Require Import Prelude Float64 Types Client Checkpoint StoreTypes WireConfig Resume RunLoop.
Local Open Scope string_scope.
Local Open Scope list_scope.

(** ** Messages *)

Inductive Code := CodeInvalidArgument | CodeAlreadyExists | CodeNotFound | CodeFailedPrecondition | CodeInternal.
Record RpcStatus := mkRpcStatus { rs_code : Code; rs_message : string }.

Record StartExperimentRequest := mkStartExperimentRequest {
  sq_experiment_id : string;
  sq_run_id : string;
  sq_config : option WireConfig;
  sq_resume_if_exists : bool
}.
(** The states of the generated enumeration. *)
Inductive WireState := WirePending | WireRunning | WirePaused | WireStopped | WireGoalReached | WireBudgetExhausted | WireFailed.
Record StartExperimentResponse := mkStartExperimentResponse {
  sp_experiment_id : string;
  sp_state : WireState;
  sp_resumed_at_batch_seq : N
}.
Record ExperimentStats := mkExperimentStats {
  xt_expansions : N;
  xt_nodes_committed : N;
  xt_children_discarded_dup : N;
  xt_children_discarded_regression : N;
  xt_frontier_size : N;
  xt_archive_cells : N;
  xt_best_score : f64;
  xt_best_node_id : N;
  xt_best_stage : N;
  xt_guest_instructions_used : N;
  xt_wall_clock_seconds : N;
  xt_batch_seq : N;
  xt_slots_utilization : f64
}.
Record ExperimentStatus := mkExperimentStatus {
  xu_experiment_id : string;
  xu_state : WireState;
  xu_stats : ExperimentStats;
  xu_level : N;
  xu_expansions_since_improvement : N;
  xu_goal_node_ids : list N;
  xu_failure_reason : string
}.
Inductive Reply :=
| StartReply (r : StartExperimentResponse)
| PauseReply (state : WireState) (checkpointed_batch_seq : N)
| ResumeReply (state : WireState)
| StopReply (state : WireState) (final_stats : ExperimentStats)
| StatusReply (status : ExperimentStatus)
| ShutdownReply.

Definition state_to_wire (s : ExperimentState) : WireState :=
  match s with
  | Checkpoint.Pending => WirePending
  | Checkpoint.Running => WireRunning
  | Checkpoint.Paused => WirePaused
  | Checkpoint.Stopped => WireStopped
  | Checkpoint.GoalReached => WireGoalReached
  | Checkpoint.BudgetExhausted => WireBudgetExhausted
  | Checkpoint.FailedState => WireFailed
  end.
Definition stats_to_wire (s : StatusSnapshot) : ExperimentStats :=
  mkExperimentStats (st_expansions s) (st_nodes s) (st_children_discarded_dup s) (st_children_discarded_regression s) (st_frontier_size s) 0
    (default f64_zero (st_best_score s)) (default 0%N (st_best_node s)) 0 (st_guest_instructions_used s) 0 (st_batch_seq s) f64_zero.
Definition status_to_wire (experiment_id : string) (s : StatusSnapshot) : ExperimentStatus :=
  mkExperimentStatus experiment_id (state_to_wire (st_state s)) (stats_to_wire s) (st_escalation_level s) (st_expansions_since_improvement s)
    (st_goal_nodes s) (default "" (st_failure_reason s)).

(** ** Runners and their handles *)

Record ServedRun := mkServedRun {
  sr_experiment_id : string;
  sr_published : list StatusSnapshot;
  sr_mailbox : list Control;
  sr_dropped : bool;
  sr_finished : bool
}.
Definition run_version (r : ServedRun) : nat := length (sr_published r).
(** [watch::Receiver::borrow] *)
Definition run_status (r : ServedRun) : StatusSnapshot := default StatusSnapshot_initial (last (sr_published r)).
Definition run_send (c : Control) (r : ServedRun) : res ClientError unit * ServedRun :=
  if sr_dropped r then (Err (mkClientError Unavailable "experiment runner stopped"), r)
  else (Ok tt, mkServedRun (sr_experiment_id r) (sr_published r) (sr_mailbox r ++ [c]) (sr_dropped r) (sr_finished r)).
(** [changed] of a receiver that has seen [seen] snapshots; [None] while it
    waits. *)
Definition run_changed (seen : nat) (r : ServedRun) : option bool :=
  if decide (run_version r <> seen) then Some true
  else if sr_dropped r then Some false else None.

(** What a runner does by itself. *)
Definition run_publish (s : StatusSnapshot) (r : ServedRun) : ServedRun :=
  mkServedRun (sr_experiment_id r) (sr_published r ++ [s]) (sr_mailbox r) (sr_dropped r) (sr_finished r).
Definition run_read (r : ServedRun) : ServedRun :=
  mkServedRun (sr_experiment_id r) (sr_published r) (tail (sr_mailbox r)) (sr_dropped r) (sr_finished r).
Definition run_drop (r : ServedRun) : ServedRun := mkServedRun (sr_experiment_id r) (sr_published r) (sr_mailbox r) true (sr_finished r).
Definition run_finish (r : ServedRun) : ServedRun := mkServedRun (sr_experiment_id r) (sr_published r) (sr_mailbox r) (sr_dropped r) true.

(** ** The service *)

Record ExperimentEntry := mkExperimentEntry { en_run : nat; en_window_n : N }.

(** A handler at an await. *)
Inductive Handler :=
| InBringUp (experiment_id : string) (window_n : N)
| Registering (experiment_id : string) (run : nat) (window_n resumed_at : N)
| Pausing (run seen : nat)
| Stopping (run seen : nat)
| Draining (run seen : nat) (rest : list nat).

Record Service := mkService {
  sv_experiments : gmap string ExperimentEntry;
  sv_starting : gset string;
  sv_runs : list ServedRun;
  sv_calls : gmap nat Handler;
  sv_next_call : nat;
  sv_answers : list (nat * res RpcStatus Reply)
}.
Definition service_new : Service := mkService ∅ ∅ [] ∅ 0 [].

Definition set_registry (e : gmap string ExperimentEntry) (starting : gset string) (s : Service) : Service :=
  mkService e starting (sv_runs s) (sv_calls s) (sv_next_call s) (sv_answers s).
Definition set_runs (rs : list ServedRun) (s : Service) : Service := mkService (sv_experiments s) (sv_starting s) rs (sv_calls s) (sv_next_call s) (sv_answers s).
Definition set_calls (c : gmap nat Handler) (s : Service) : Service := mkService (sv_experiments s) (sv_starting s) (sv_runs s) c (sv_next_call s) (sv_answers s).
Definition count_call (s : Service) : Service := mkService (sv_experiments s) (sv_starting s) (sv_runs s) (sv_calls s) (S (sv_next_call s)) (sv_answers s).

(** Where a handler is after a step. *)
Inductive Next := Awaits (h : Handler) | Answers (r : res RpcStatus Reply).

Definition unknown_experiment (id : string) : RpcStatus := mkRpcStatus CodeNotFound ("unknown experiment " +:+ id).
Definition is_terminal (s : ExperimentState) : bool :=
  match s with Checkpoint.Running | Checkpoint.Pending | Checkpoint.Paused => false | _ => true end.
Definition is_finished (s : Service) (e : ExperimentEntry) : bool :=
  match sv_runs s !! en_run e with Some r => sr_finished r | None => true end.
Definition entry_status (s : Service) (id : string) : res RpcStatus StatusSnapshot :=
  match sv_experiments s !! id with
  | Some e => match sv_runs s !! en_run e with Some r => Ok (run_status r) | None => Panic end
  | None => Err (unknown_experiment id)
  end.

Section Handlers.
Context `{WE : WireEnums}.

(** *** Starting *)

Definition start_reply (id : string) (snapshot : StatusSnapshot) : Reply :=
  StartReply (mkStartExperimentResponse id (state_to_wire (st_state snapshot)) (st_checkpointed_batch_seq snapshot)).
Definition already (what id : string) : RpcStatus := mkRpcStatus CodeAlreadyExists ("experiment " +:+ id +:+ " is already " +:+ what).

(** The look at the registry: an answer, or nothing to keep the start back. *)
Definition existing_answer (q : StartExperimentRequest) (s : Service) : option (res RpcStatus Reply) :=
  e ← sv_experiments s !! sq_experiment_id q;
  match sv_runs s !! en_run e with
  | None => Some Panic
  | Some r =>
    if negb (sr_finished r) then
      Some (if sq_resume_if_exists q then Ok (start_reply (sq_experiment_id q) (run_status r)) else Err (already "running" (sq_experiment_id q)))
    else if sq_resume_if_exists q then None
    else Some (Ok (start_reply (sq_experiment_id q) (run_status r)))
  end.

Definition start_experiment (q : StartExperimentRequest) (s : Service) : Service * Next :=
  if decide (sq_experiment_id q = "") then (s, Answers (Err (mkRpcStatus CodeInvalidArgument "experiment_id is required")))
  else match sq_config q with
  | None => (s, Answers (Err (mkRpcStatus CodeInvalidArgument "config is required")))
  | Some config =>
    match validated_effective_config config with
    | Err violations => (s, Answers (Err (mkRpcStatus CodeInvalidArgument (config_validation_failed_detail violations))))
    | Panic => (s, Answers Panic)
    | Ok effective =>
      match existing_answer q s with
      | Some answer => (s, Answers answer)
      | None =>
        if decide (sq_experiment_id q ∈ sv_starting s) then (s, Answers (Err (already "starting" (sq_experiment_id q))))
        else (set_registry (sv_experiments s) ({[sq_experiment_id q]} ∪ sv_starting s) s,
              Awaits (InBringUp (sq_experiment_id q) (window_n (plateau effective))))
      end
    end
  end.

(** The configuration a runner is started with. *)
Definition runner_config (config_hash : ExperimentConfig -> list N) (producer_id : string) (q : StartExperimentRequest) (effective : ExperimentConfig) : RunnerConfig :=
  mkRunnerConfig (sq_experiment_id q) (if decide (sq_run_id q = "") then sq_experiment_id q else sq_run_id q) producer_id effective
    (config_hash effective).

Definition start_error_to_status (e : ClientError) : RpcStatus :=
  match ce_kind e with
  | FailedPrecondition => mkRpcStatus CodeFailedPrecondition (ce_message e)
  | InvalidRequest => mkRpcStatus CodeInvalidArgument (ce_message e)
  | _ => mkRpcStatus CodeInternal (ce_message e)
  end.
Definition resumed_at (mode : StartMode) : N := match mode with StartFresh => 0%N | StartResumed seq => seq end.

(** [ExperimentRunner::start_with_metrics] has come back with [started]: the
    mode and the first snapshot, or an error.  A new runner is spawned before
    the registry is locked again. *)
Definition brought_up (id : string) (window_n : N) (started : res ClientError (StartMode * StatusSnapshot)) (s : Service) : Service * Next :=
  match started with
  | Err e => (set_registry (sv_experiments s) (sv_starting s ∖ {[id]}) s, Answers (Err (start_error_to_status e)))
  | Panic => (s, Answers Panic)
  | Ok (mode, snapshot) =>
    (set_runs (sv_runs s ++ [mkServedRun id [snapshot] [] false false]) s, Awaits (Registering id (length (sv_runs s)) window_n (resumed_at mode)))
  end.
Definition register (id : string) (run : nat) (window_n resumed : N) (s : Service) : Service * Next :=
  (set_registry (<[id := mkExperimentEntry run window_n]> (sv_experiments s)) (sv_starting s ∖ {[id]}) s,
   Answers (Ok (StartReply (mkStartExperimentResponse id WireRunning resumed)))).

(** *** Calls on a runner *)

Definition update_run (i : nat) (r : ServedRun) (s : Service) : Service := set_runs (<[i := r]> (sv_runs s)) s.
Definition on_entry {A : Type} (id : string) (s : Service) (k : nat -> ServedRun -> Service * A) (answer : res RpcStatus Reply -> A) : Service * A :=
  match sv_experiments s !! id with
  | None => (s, answer (Err (unknown_experiment id)))
  | Some e => match sv_runs s !! en_run e with Some r => k (en_run e) r | None => (s, answer Panic) end
  end.

Definition pause_look (run : nat) (r : ServedRun) : Next :=
  let snapshot := run_status r in
  match st_state snapshot with
  | Checkpoint.Paused => Answers (Ok (PauseReply WirePaused (st_checkpointed_batch_seq snapshot)))
  | Checkpoint.Running | Checkpoint.Pending => Awaits (Pausing run (run_version r))
  | terminal => Answers (Ok (PauseReply (state_to_wire terminal) (st_checkpointed_batch_seq snapshot)))
  end.
Definition pause_experiment (id : string) (s : Service) : Service * Next :=
  on_entry id s (fun run r =>
    match run_send CtlPause r with
    | (Ok _, r) => (update_run run r s, pause_look run r)
    | (Err e, _) => (s, Answers (Err (mkRpcStatus CodeFailedPrecondition (ce_message e))))
    | (Panic, _) => (s, Answers Panic)
    end) Answers.

Definition resume_experiment (id : string) (s : Service) : Service * Next :=
  on_entry id s (fun run r =>
    match run_send CtlResume r with
    | (Ok _, r) => (update_run run r s, Answers (Ok (ResumeReply WireRunning)))
    | (Err e, _) => (s, Answers (Err (mkRpcStatus CodeFailedPrecondition (ce_message e))))
    | (Panic, _) => (s, Answers Panic)
    end) Answers.

Definition stop_reply (r : ServedRun) : res RpcStatus Reply :=
  Ok (StopReply (state_to_wire (st_state (run_status r))) (stats_to_wire (run_status r))).
Definition stop_look (run : nat) (r : ServedRun) : Next :=
  if is_terminal (st_state (run_status r)) then Answers (stop_reply r) else Awaits (Stopping run (run_version r)).
Definition stop_experiment (id : string) (s : Service) : Service * Next :=
  on_entry id s (fun run r => let r := (run_send CtlStop r).2 in (update_run run r s, stop_look run r)) Answers.

Definition get_experiment_status (id : string) (s : Service) : Service * Next :=
  (s, Answers (match entry_status s id with
               | Ok snapshot => Ok (StatusReply (status_to_wire id snapshot))
               | Err e => Err e
               | Panic => Panic
               end)).

(** *** Shutdown *)

Definition running_entries (s : Service) : list nat :=
  en_run <$> filter (fun e => is_finished s e = false) ((map_to_list (sv_experiments s)).*2).
Definition send_stops (runs : list nat) (s : Service) : Service :=
  foldl (fun s i => match sv_runs s !! i with Some r => update_run i (run_send CtlStop r).2 s | None => s end) s runs.
Fixpoint drain_look (runs : list nat) (s : Service) : Next :=
  match runs with
  | [] => Answers (Ok ShutdownReply)
  | i :: rest =>
    match sv_runs s !! i with
    | None => Answers Panic
    | Some r => if is_terminal (st_state (run_status r)) then drain_look rest s else Awaits (Draining i (run_version r) rest)
    end
  end.
Definition shutdown (s : Service) : Service * Next :=
  let runs := running_entries s in
  let s := send_stops runs s in
  (s, drain_look runs s).

(** ** Steps *)

Inductive Call :=
| CallStart (q : StartExperimentRequest)
| CallPause (id : string)
| CallResume (id : string)
| CallStop (id : string)
| CallStatus (id : string)
| CallShutdown.
Definition serve (c : Call) (s : Service) : Service * Next :=
  match c with
  | CallStart q => start_experiment q s
  | CallPause id => pause_experiment id s
  | CallResume id => resume_experiment id s
  | CallStop id => stop_experiment id s
  | CallStatus id => get_experiment_status id s
  | CallShutdown => shutdown s
  end.

(** A waiting handler goes on when it can; [started] is what a bring-up comes
    back with. *)
Definition poll (started : res ClientError (StartMode * StatusSnapshot)) (h : Handler) (s : Service) : option (Service * Next) :=
  match h with
  | InBringUp id window => Some (brought_up id window started s)
  | Registering id run window resumed => Some (register id run window resumed s)
  | Pausing run seen =>
    r ← sv_runs s !! run;
    changed ← run_changed seen r;
    Some (s, if (changed : bool) then pause_look run r else Answers (Err (mkRpcStatus CodeInternal "runner stopped while pausing")))
  | Stopping run seen =>
    r ← sv_runs s !! run;
    changed ← run_changed seen r;
    Some (s, if (changed : bool) then stop_look run r else Answers (stop_reply r))
  | Draining run seen rest =>
    r ← sv_runs s !! run;
    changed ← run_changed seen r;
    Some (s, if (changed : bool) then drain_look (run :: rest) s else drain_look rest s)
  end.

(** Calls are numbered; the handler of a call is filed under its number, or
    its answer is sent. *)
Definition file (id : nat) (next : Service * Next) : Service :=
  match next with
  | (s, Awaits h) => set_calls (<[id := h]> (sv_calls s)) s
  | (s, Answers r) => mkService (sv_experiments s) (sv_starting s) (sv_runs s) (delete id (sv_calls s)) (sv_next_call s) (sv_answers s ++ [(id, r)])
  end.

Inductive event :=
| EvCall (c : Call)
| EvPoll (id : nat) (started : res ClientError (StartMode * StatusSnapshot))
| EvCancel (id : nat)
| EvPublish (run : nat) (snapshot : StatusSnapshot)
| EvRead (run : nat)
| EvDrop (run : nat)
| EvFinish (run : nat).

Definition on_run (i : nat) (live : ServedRun -> bool) (f : ServedRun -> ServedRun) (s : Service) : option Service :=
  r ← sv_runs s !! i;
  if live r then Some (update_run i (f r) s) else None.

(** [None] when the event cannot happen.  A handler whose caller goes away is
    dropped at its await. *)
Definition service_step (e : event) (s : Service) : option Service :=
  match e with
  | EvCall c => Some (file (sv_next_call s) (serve c (count_call s)))
  | EvPoll id started => h ← sv_calls s !! id; next ← poll started h s; Some (file id next)
  | EvCancel id => h ← sv_calls s !! id; Some (set_calls (delete id (sv_calls s)) s)
  | EvPublish i snapshot => on_run i (fun r => negb (sr_dropped r)) (run_publish snapshot) s
  | EvRead i => on_run i (fun r => negb (sr_dropped r)) run_read s
  | EvDrop i => on_run i (fun r => negb (sr_dropped r)) run_drop s
  | EvFinish i => on_run i sr_dropped run_finish s
  end.

Inductive service_steps : Service -> Service -> Prop :=
| steps_refl s : service_steps s s
| steps_next s s1 s2 e : service_steps s s1 -> service_step e s1 = Some s2 -> service_steps s s2.
Definition service_reachable (s : Service) : Prop := service_steps service_new s.
End Handlers.
