(* ===== verification/ServiceWf.v ===== *)
(** Theorems on the served surface (Service.v). *)
From S2P Require Import Prelude Float64 Types Client Checkpoint StoreTypes WireConfig Resume RunLoop Service.
Local Open Scope string_scope.
Local Open Scope list_scope.

(** The id a handler keeps reserved. *)
Definition start_id (h : Handler) : option string :=
  match h with InBringUp id _ | Registering id _ _ _ => Some id | _ => None end.
(** The runs a handler waits on. *)
Definition waits_on (h : Handler) : list nat :=
  match h with Pausing i _ | Stopping i _ => [i] | Draining i _ rest => i :: rest | _ => [] end.

(** A runner only moves forward. *)
Record run_grows (r r' : ServedRun) : Prop := {
  rg_id : sr_experiment_id r' = sr_experiment_id r;
  rg_finished : sr_finished r = true -> sr_finished r' = true;
  rg_dropped : sr_dropped r = true -> sr_dropped r' = true /\ sr_published r' = sr_published r;
  rg_published : sr_published r `prefix_of` sr_published r'
}.

Lemma run_grows_refl r : run_grows r r.
Proof. by split. Qed.

Lemma run_grows_trans r1 r2 r3 : run_grows r1 r2 -> run_grows r2 r3 -> run_grows r1 r3.
Proof.
  intros [H1 H2 H3 H4] [K1 K2 K3 K4]. split; [congruence|auto| |by transitivity (sr_published r2)].
  intros Hd. destruct (H3 Hd) as [Hd2 E2]. destruct (K3 Hd2) as [Hd3 E3]. split; congruence.
Qed.

Definition runs_grow (rs rs' : list ServedRun) : Prop := Forall2 run_grows rs (take (length rs) rs') /\ (length rs <= length rs')%nat.

Lemma runs_grow_lookup rs rs' i r : runs_grow rs rs' -> rs !! i = Some r -> exists r', rs' !! i = Some r' /\ run_grows r r'.
Proof.
  intros [H Hl] Hi. destruct (Forall2_lookup_l _ _ _ _ _ H Hi) as (r' & Hr' & Hg). exists r'. split; [|done].
  apply lookup_take_Some in Hr' as [? _]. done.
Qed.

Lemma runs_grow_intro rs rs' : (length rs <= length rs')%nat ->
  (forall i r, rs !! i = Some r -> exists r', rs' !! i = Some r' /\ run_grows r r') -> runs_grow rs rs'.
Proof.
  intros Hl H. split; [|done]. apply Forall2_same_length_lookup_2; [rewrite length_take; lia|]. intros i r r' Hi [Hr' Hlt]%lookup_take_Some.
  destruct (H i r Hi) as (r'' & E & Hg). rewrite Hr' in E. by injection E as <-.
Qed.

Lemma runs_grow_refl rs : runs_grow rs rs.
Proof. apply runs_grow_intro; [done|]. intros i r Hi. exists r. split; [done|apply run_grows_refl]. Qed.

Lemma runs_grow_trans rs1 rs2 rs3 : runs_grow rs1 rs2 -> runs_grow rs2 rs3 -> runs_grow rs1 rs3.
Proof.
  intros H12 H23. apply runs_grow_intro; [destruct H12, H23; lia|]. intros i r Hi.
  destruct (runs_grow_lookup _ _ _ _ H12 Hi) as (r2 & H2 & G2). destruct (runs_grow_lookup _ _ _ _ H23 H2) as (r3 & H3 & G3).
  exists r3. split; [done|]. by eapply run_grows_trans.
Qed.

Lemma runs_grow_insert rs i r r' : rs !! i = Some r -> run_grows r r' -> runs_grow rs (<[i := r']> rs).
Proof.
  intros Hi Hg. apply runs_grow_intro; [by rewrite length_insert|]. intros j rj Hj. destruct (decide (i = j)) as [<-|Hne].
  - exists r'. rewrite Hi in Hj. injection Hj as <-. split; [|done]. apply list_lookup_insert_eq. by eapply lookup_lt_Some.
  - exists rj. rewrite list_lookup_insert_ne by done. split; [done|apply run_grows_refl].
Qed.

Lemma runs_grow_snoc rs r : runs_grow rs (rs ++ [r]).
Proof. apply runs_grow_intro; [rewrite length_app; lia|]. intros i ri Hi. exists ri. split; [by apply lookup_app_l_Some|apply run_grows_refl]. Qed.

Lemma send_grows c r : run_grows r (run_send c r).2.
Proof. unfold run_send. destruct (sr_dropped r) eqn:E; [apply run_grows_refl|]. split; try done. cbn. by rewrite E. Qed.

(** ** The registry *)

Record service_ok (s : Service) : Prop := {
  so_entries : forall x e, sv_experiments s !! x = Some e -> exists r, sv_runs s !! en_run e = Some r /\ sr_experiment_id r = x;
  so_reserved : forall c h x, sv_calls s !! c = Some h -> start_id h = Some x -> x ∈ sv_starting s;
  so_unique : forall c1 c2 h1 h2 x, sv_calls s !! c1 = Some h1 -> sv_calls s !! c2 = Some h2 -> start_id h1 = Some x -> start_id h2 = Some x -> c1 = c2;
  so_bringup : forall c x w i r, sv_calls s !! c = Some (InBringUp x w) -> sv_runs s !! i = Some r -> sr_experiment_id r = x -> sr_finished r = true;
  so_registering : forall c x i w n, sv_calls s !! c = Some (Registering x i w n) ->
    (exists r, sv_runs s !! i = Some r /\ sr_experiment_id r = x) /\
    forall j r, sv_runs s !! j = Some r -> sr_experiment_id r = x -> sr_finished r = false -> j = i;
  so_free : forall i r, sv_runs s !! i = Some r -> sr_finished r = false -> sr_experiment_id r ∉ sv_starting s ->
    exists e, sv_experiments s !! sr_experiment_id r = Some e /\ en_run e = i;
  so_single : forall i j ri rj, sv_runs s !! i = Some ri -> sv_runs s !! j = Some rj -> sr_experiment_id ri = sr_experiment_id rj ->
    sr_finished ri = false -> sr_finished rj = false -> i = j;
  so_waits : forall c h i, sv_calls s !! c = Some h -> i ∈ waits_on h -> (i < length (sv_runs s))%nat;
  so_fresh : forall c h, sv_calls s !! c = Some h -> (c < sv_next_call s)%nat
}.

Lemma service_new_ok : service_ok service_new.
Proof. split; try (intros *; cbn; by rewrite ?lookup_empty, ?lookup_nil). Qed.

Lemma runs_grow_back rs rs' i r' : runs_grow rs rs' -> length rs' = length rs -> rs' !! i = Some r' -> exists r, rs !! i = Some r /\ run_grows r r'.
Proof.
  intros H Hl Hi. destruct (lookup_lt_is_Some_2 rs i) as [r Hr]; [apply lookup_lt_Some in Hi; lia|].
  destruct (runs_grow_lookup _ _ _ _ H Hr) as (r'' & E & Hg). rewrite Hi in E. injection E as <-. by exists r.
Qed.

Lemma unfinished_before r r' : run_grows r r' -> sr_finished r' = false -> sr_finished r = false.
Proof. intros [_ H _ _] Hf. destruct (sr_finished r); [|done]. by rewrite H in Hf. Qed.

(** A step that leaves the registry alone. *)
Record mild (s s' : Service) : Prop := {
  md_experiments : sv_experiments s' = sv_experiments s;
  md_starting : sv_starting s' = sv_starting s;
  md_runs : runs_grow (sv_runs s) (sv_runs s');
  md_length : length (sv_runs s') = length (sv_runs s);
  md_calls : forall c h, sv_calls s' !! c = Some h -> sv_calls s !! c = Some h \/
    start_id h = None /\ (forall i, i ∈ waits_on h -> (i < length (sv_runs s))%nat) /\ (c < sv_next_call s')%nat;
  md_next : (sv_next_call s <= sv_next_call s')%nat
}.

Lemma mild_ok s s' : service_ok s -> mild s s' -> service_ok s'.
Proof.
  intros Hok [Hex Hst Hruns Hlen Hcalls Hnext].
  assert (forall c h x, sv_calls s' !! c = Some h -> start_id h = Some x -> sv_calls s !! c = Some h) as Hold.
  { intros c h x Hc Hx. destruct (Hcalls c h Hc) as [?|(Hn & _)]; [done|]. by rewrite Hn in Hx. }
  split.
  - intros x e. rewrite Hex. intros He. destruct (so_entries _ Hok x e He) as (r & Hr & Hid).
    destruct (runs_grow_lookup _ _ _ _ Hruns Hr) as (r' & Hr' & Hg). exists r'. split; [done|]. by rewrite (rg_id _ _ Hg).
  - intros c h x Hc Hx. rewrite Hst. eapply so_reserved; [done|by eapply Hold|done].
  - intros c1 c2 h1 h2 x H1 H2 X1 X2. eapply so_unique; [done|by eapply Hold|by eapply Hold|done|done].
  - intros c x w i r' Hc Hi Hid. destruct (runs_grow_back _ _ _ _ Hruns Hlen Hi) as (r & Hr & Hg). rewrite (rg_id _ _ Hg) in Hid.
    apply (rg_finished _ _ Hg). eapply so_bringup; [done|by eapply Hold|done|done].
  - intros c x i w n Hc. destruct (so_registering _ Hok c x i w n) as [(r & Hr & Hid) Hj]; [by eapply Hold|]. split.
    + destruct (runs_grow_lookup _ _ _ _ Hruns Hr) as (r' & Hr' & Hg). exists r'. split; [done|]. by rewrite (rg_id _ _ Hg).
    + intros j r' Hr' Hid' Hf. destruct (runs_grow_back _ _ _ _ Hruns Hlen Hr') as (r0 & Hr0 & Hg). rewrite (rg_id _ _ Hg) in Hid'.
      apply (Hj j r0); [done|done|by eapply unfinished_before].
  - intros i r' Hr' Hf. destruct (runs_grow_back _ _ _ _ Hruns Hlen Hr') as (r & Hr & Hg). rewrite (rg_id _ _ Hg), Hst, Hex.
    apply (so_free _ Hok i r Hr). by eapply unfinished_before.
  - intros i j ri rj Hi Hj Hid Hfi Hfj. destruct (runs_grow_back _ _ _ _ Hruns Hlen Hi) as (ri0 & Hi0 & Gi), (runs_grow_back _ _ _ _ Hruns Hlen Hj) as (rj0 & Hj0 & Gj).
    rewrite (rg_id _ _ Gi), (rg_id _ _ Gj) in Hid. eapply (so_single _ Hok); [exact Hi0|exact Hj0|done|by eapply unfinished_before..].
  - intros c h i Hc Hi. rewrite Hlen. destruct (Hcalls c h Hc) as [H|(_ & H & _)]; [by eapply so_waits|by apply H].
  - intros c h Hc. destruct (Hcalls c h Hc) as [H|(_ & _ & H)]; [|done]. pose proof (so_fresh _ Hok c h H). lia.
Qed.

(** What a handler that does not start anything leaves. *)
Record plain (s : Service) (next : Service * Next) : Prop := {
  pl_mild : mild s next.1;
  pl_calls : sv_calls next.1 = sv_calls s;
  pl_next : match next.2 with Awaits h => start_id h = None /\ (forall i, i ∈ waits_on h -> (i < length (sv_runs s))%nat) | Answers _ => True end
}.

Lemma mild_refl s : mild s s.
Proof. split; try done; [apply runs_grow_refl|]. by left. Qed.

Lemma mild_update s i r r' : sv_runs s !! i = Some r -> run_grows r r' -> mild s (update_run i r' s).
Proof. intros Hi Hg. split; cbn; try done; [by eapply runs_grow_insert|by rewrite length_insert|by left]. Qed.

Lemma mild_trans s1 s2 s3 : mild s1 s2 -> mild s2 s3 -> mild s1 s3.
Proof.
  intros [A1 A2 A3 A4 A5 A6] [B1 B2 B3 B4 B5 B6]. split; try congruence; [by eapply runs_grow_trans| |lia].
  intros c h Hc. destruct (B5 c h Hc) as [H|(H1 & H2 & H3)]; [|right; rewrite <- A4; by split_and!].
  destruct (A5 c h H) as [?|(H1 & H2 & H3)]; [by left|]. right. split_and!; [done|done|lia].
Qed.

(** Its handler filed under its own number. *)
Lemma plain_file s id next : plain s next -> (id < sv_next_call s)%nat -> mild s (file id next).
Proof.
  destruct next as [s' n]. intros [[H1 H2 H3 H4 _ H6] Hcalls Hn] Hid. cbn in *. destruct n as [h|r]; cbn [file]; split; cbn; try done.
  - intros c h' Hc. destruct (decide (c = id)) as [->|Hne].
    + rewrite lookup_insert_eq in Hc. injection Hc as <-. right. destruct Hn. split_and!; [done|done|lia].
    + rewrite lookup_insert_ne, Hcalls in Hc by done. by left.
  - intros c h' [_ Hc]%lookup_delete_Some. rewrite Hcalls in Hc. by left.
Qed.

Lemma plain_answer s r : plain s (s, Answers r).
Proof. split; [apply mild_refl|done|done]. Qed.

Lemma pause_look_plain i r : match pause_look i r with Awaits h => start_id h = None /\ waits_on h = [i] | Answers _ => True end.
Proof. unfold pause_look. by destruct (st_state (run_status r)). Qed.

Lemma stop_look_plain i r : match stop_look i r with Awaits h => start_id h = None /\ waits_on h = [i] | Answers _ => True end.
Proof. unfold stop_look. by destruct (is_terminal _). Qed.

Lemma plain_look s s' i look : mild s s' -> sv_calls s' = sv_calls s -> (i < length (sv_runs s))%nat ->
  (match look with Awaits h => start_id h = None /\ waits_on h = [i] | Answers _ => True end) -> plain s (s', look).
Proof.
  intros Hm Hc Hi Hl. split; [done|done|]. cbn. destruct look as [h|r]; [|done]. destruct Hl as [? ->]. split; [done|]. intros j ->%list_elem_of_singleton. done.
Qed.

Lemma on_entry_plain id s k : (forall i r, sv_runs s !! i = Some r -> plain s (k i r)) -> plain s (on_entry id s k Answers).
Proof. intros Hk. unfold on_entry. destruct (_ !! id) as [e|]; [|apply plain_answer]. destruct (sv_runs s !! en_run e) eqn:E; [by apply Hk|apply plain_answer]. Qed.

Lemma drain_look_plain runs s : (forall i, i ∈ runs -> (i < length (sv_runs s))%nat) ->
  match drain_look runs s with Awaits h => start_id h = None /\ (forall i, i ∈ waits_on h -> i ∈ runs) | Answers _ => True end.
Proof.
  induction runs as [|i runs IH]; [done|]. intros Hin. cbn [drain_look]. destruct (sv_runs s !! i) as [r|]; [|done].
  destruct (is_terminal _); [|done]. specialize (IH ltac:(intros j Hj; apply Hin; by right)). destruct (drain_look runs s) as [h|]; [|done].
  destruct IH as [? H]. split; [done|]. intros j Hj. right. by apply H.
Qed.

Lemma send_stops_mild runs : forall s, mild s (send_stops runs s) /\ sv_calls (send_stops runs s) = sv_calls s.
Proof.
  induction runs as [|i runs IH]; intros s; [split; [apply mild_refl|done]|]. cbn [send_stops foldl]. fold (send_stops runs).
  destruct (sv_runs s !! i) as [r|] eqn:E; [|apply IH]. destruct (IH (update_run i (run_send CtlStop r).2 s)) as [H1 H2].
  split; [|done]. eapply mild_trans; [|done]. eapply mild_update; [done|apply send_grows].
Qed.

Lemma running_entries_range s i : service_ok s -> i ∈ running_entries s -> (i < length (sv_runs s))%nat.
Proof.
  intros Hok. unfold running_entries. intros (e & -> & [_ ([x e'] & -> & He%elem_of_map_to_list)%list_elem_of_fmap]%list_elem_of_filter)%list_elem_of_fmap.
  destruct (so_entries _ Hok x _ He) as (r & Hr & _). by eapply lookup_lt_Some.
Qed.

Section Service.
Context `{WE : WireEnums}.

Lemma send_plain {A : Type} c s i r (a : A) : sv_runs s !! i = Some r -> mild s (update_run i (run_send c r).2 s).
Proof. intros Hi. eapply mild_update; [done|apply send_grows]. Qed.

Lemma serve_plain c s : service_ok s -> (match c with CallStart _ => False | _ => True end) -> plain s (serve c s).
Proof.
  intros Hok Hc. destruct c as [q|id|id|id|id|]; [done|..]; cbn [serve].
  - apply on_entry_plain. intros i r Hr. pose proof (send_grows CtlPause r) as Hg. destruct (run_send CtlPause r) as [[[]|e|] r'] eqn:E; [|apply plain_answer..].
    apply (plain_look _ _ i); [by eapply mild_update|done|by eapply lookup_lt_Some|apply pause_look_plain].
  - apply on_entry_plain. intros i r Hr. pose proof (send_grows CtlResume r) as Hg. destruct (run_send CtlResume r) as [[[]|e|] r'] eqn:E; [|apply plain_answer..].
    split; [by eapply mild_update|done|done].
  - apply on_entry_plain. intros i r Hr. cbv zeta.
    apply (plain_look _ _ i); [eapply mild_update; [done|apply send_grows]|done|by eapply lookup_lt_Some|apply stop_look_plain].
  - apply plain_answer.
  - unfold shutdown. cbv zeta. destruct (send_stops_mild (running_entries s) s) as [Hm Hcalls]. split; cbn; [done|done|].
    pose proof (drain_look_plain (running_entries s) (send_stops (running_entries s) s)) as Hd.
    rewrite (md_length _ _ Hm) in Hd. specialize (Hd (fun i => running_entries_range s i Hok)). destruct (drain_look _ _) as [h|]; [|done].
    destruct Hd as [? H]. split; [done|]. intros i Hi. by apply running_entries_range, H.
Qed.

Lemma poll_plain started h s next : service_ok s -> start_id h = None -> (forall i, i ∈ waits_on h -> (i < length (sv_runs s))%nat) ->
  poll started h s = Some next -> plain s next.
Proof.
  intros Hok Hh Hw. destruct h as [| |i seen|i seen|i seen rest]; try discriminate Hh; cbn [poll]; destruct (sv_runs s !! i) as [r|] eqn:E; [|done| |done| |done];
    cbn; destruct (run_changed seen r) as [[]|]; [|..|done| | |done| | |done]; cbn; intros [= <-].
  - apply (plain_look _ _ i); [apply mild_refl|done|by eapply lookup_lt_Some|apply pause_look_plain].
  - apply plain_answer.
  - apply (plain_look _ _ i); [apply mild_refl|done|by eapply lookup_lt_Some|apply stop_look_plain].
  - apply plain_answer.
  - split; [apply mild_refl|done|]. cbn [fst snd]. pose proof (drain_look_plain (i :: rest) s Hw) as Hd. cbn [drain_look] in Hd |- *. rewrite E in Hd |- *. destruct (is_terminal _).
    + destruct (drain_look rest s); [|done]. destruct Hd as [? H]. split; [done|]. intros j Hj. by apply Hw, H.
    + destruct Hd as [? H]. split; [done|]. intros j Hj. by apply Hw, H.
  - split; [apply mild_refl|done|]. cbn [fst snd]. pose proof (drain_look_plain rest s ltac:(intros j Hj; apply Hw; by right)) as Hd.
    destruct (drain_look rest s); [|done]. destruct Hd as [? H]. split; [done|]. intros j Hj. apply Hw. right. by apply H.
Qed.

(** ** Starting *)

(** No live runner of the id: none is registered that is not finished, and no
    start is under way. *)
Lemma existing_none q s : existing_answer q s = None -> forall e r, sv_experiments s !! sq_experiment_id q = Some e -> sv_runs s !! en_run e = Some r -> sr_finished r = true.
Proof.
  unfold existing_answer. intros H e r He Hr. rewrite He in H. cbn in H. rewrite Hr in H. by destruct (sr_finished r).
Qed.

Lemma reserve_ok s c x w : service_ok s -> x ∉ sv_starting s -> (c < sv_next_call s)%nat -> sv_calls s !! c = None ->
  (forall e r, sv_experiments s !! x = Some e -> sv_runs s !! en_run e = Some r -> sr_finished r = true) ->
  service_ok (set_calls (<[c := InBringUp x w]> (sv_calls s)) (set_registry (sv_experiments s) ({[x]} ∪ sv_starting s) s)).
Proof.
  intros Hok Hx Hc Hnone Hfin. assert (forall i r, sv_runs s !! i = Some r -> sr_experiment_id r = x -> sr_finished r = true) as Hall.
  { intros i r Hr <-. destruct (sr_finished r) eqn:Ef; [done|]. destruct (so_free _ Hok i r Hr Ef Hx) as (e & He & <-). rewrite <- Ef. by eapply Hfin. }
  assert (forall c' h, sv_calls s !! c' = Some h -> start_id h <> Some x) as Hno by (intros c' h Hh Hs; apply Hx; by eapply so_reserved).
  split; cbn.
  - apply Hok.
  - intros c' h x'. rewrite lookup_insert_Some. intros [[<- <-]|[_ Hh]] Hs; [injection Hs as <-; set_solver|].
    apply elem_of_union_r. by eapply so_reserved.
  - intros c1 c2 h1 h2 x'. rewrite !lookup_insert_Some. intros [[<- <-]|[N1 H1]] [[<- <-]|[N2 H2]] X1 X2; [done| | |].
    + injection X1 as <-. by destruct (Hno _ _ H2).
    + injection X2 as <-. by destruct (Hno _ _ H1).
    + by eapply (so_unique _ Hok).
  - intros c' x' w' i r. rewrite lookup_insert_Some. intros [[<- [= <- <-]]|[_ Hh]] Hr Hid; [by eapply Hall|by eapply so_bringup].
  - intros c' x' i w' n. rewrite lookup_insert_Some. intros [[_ ?]|[_ Hh]]; [done|by eapply so_registering].
  - intros i r Hr Hf Hs. apply (so_free _ Hok i r Hr Hf). set_solver.
  - apply Hok.
  - intros c' h i. rewrite lookup_insert_Some. intros [[_ <-]|[_ Hh]] Hi; [set_solver|by eapply so_waits].
  - intros c' h. rewrite lookup_insert_Some. intros [[<- _]|[_ Hh]]; [done|by eapply so_fresh].
Qed.

(** A failed start frees the id again. *)
Lemma release_ok s c x w r : service_ok s -> sv_calls s !! c = Some (InBringUp x w) ->
  service_ok (file c (set_registry (sv_experiments s) (sv_starting s ∖ {[x]}) s, Answers r)).
Proof.
  intros Hok Hc. assert (forall c' h x', delete c (sv_calls s) !! c' = Some h -> start_id h = Some x' -> x' <> x) as Hne.
  { intros c' h x' [Hn Hh]%lookup_delete_Some Hs ->. apply Hn. by eapply (so_unique _ Hok). }
  split; cbn; try apply Hok.
  - intros c' h x' Hd Hs. pose proof (Hne _ _ _ Hd Hs). apply lookup_delete_Some in Hd as [_ Hh]. pose proof (so_reserved _ Hok _ _ _ Hh Hs). set_solver.
  - intros c1 c2 h1 h2 x' [_ H1]%lookup_delete_Some [_ H2]%lookup_delete_Some. by eapply (so_unique _ Hok).
  - intros c' x' w' i r' [_ Hh]%lookup_delete_Some. by eapply so_bringup.
  - intros c' x' i w' n [_ Hh]%lookup_delete_Some. by eapply so_registering.
  - intros i r' Hr' Hf Hs. destruct (decide (sr_experiment_id r' = x)) as [E|Hn]; [|apply (so_free _ Hok i r' Hr' Hf); set_solver].
    by rewrite (so_bringup _ Hok c x w i r' Hc Hr' E) in Hf.
  - intros c' h i [_ Hh]%lookup_delete_Some. by eapply so_waits.
  - intros c' h [_ Hh]%lookup_delete_Some. by eapply so_fresh.
Qed.

(** A new runner is spawned. *)
Lemma spawn_ok s c x w snapshot n : service_ok s -> sv_calls s !! c = Some (InBringUp x w) ->
  service_ok (file c (set_runs (sv_runs s ++ [mkServedRun x [snapshot] [] false false]) s, Awaits (Registering x (length (sv_runs s)) w n))).
Proof.
  intros Hok Hc. set (new := mkServedRun x [snapshot] [] false false).
  assert (forall i r, (sv_runs s ++ [new]) !! i = Some r -> sv_runs s !! i = Some r \/ i = length (sv_runs s) /\ r = new) as Hcases.
  { intros i r [?|[Hi Hr]]%lookup_app_Some; [by left|]. apply list_lookup_singleton_Some in Hr as [Hz <-]. right. split; [lia|done]. }
  assert (forall c' h, sv_calls s !! c' = Some h -> start_id h = Some x -> c' = c) as Honly by (intros c' h Hh Hs; by eapply (so_unique _ Hok)).
  assert (forall c' h x', <[c := Registering x (length (sv_runs s)) w n]> (sv_calls s) !! c' = Some h -> start_id h = Some x' ->
    exists h', sv_calls s !! c' = Some h' /\ start_id h' = Some x') as Hback.
  { intros c' h x'. rewrite lookup_insert_Some. intros [[<- <-]|[_ Hh]] Hs; [injection Hs as <-|]; by eexists. }
  split; cbn.
  - intros x' e He. destruct (so_entries _ Hok x' e He) as (r & Hr & Hid). exists r. split; [by apply lookup_app_l_Some|done].
  - intros c' h x' Hh Hs. destruct (Hback _ _ _ Hh Hs) as (h' & Hh' & Hs'). by eapply so_reserved.
  - intros c1 c2 h1 h2 x' H1 H2 X1 X2. destruct (Hback _ _ _ H1 X1) as (h1' & K1 & Y1), (Hback _ _ _ H2 X2) as (h2' & K2 & Y2). by eapply (so_unique _ Hok).
  - intros c' x' w' i r. rewrite lookup_insert_Some. intros [[_ ?]|[Hn Hh]]; [done|]. intros [Hr|[-> ->]]%Hcases Hid; [by eapply so_bringup|].
    cbn in Hid. subst x'. by destruct Hn; symmetry; eapply Honly.
  - intros c' x' i w' n'. rewrite lookup_insert_Some. intros [[<- [= <- <- <- <-]]|[Hn Hh]].
    + split; [exists new; split; [by apply list_lookup_middle|done]|]. intros j r [Hr|[-> ->]]%Hcases Hid Hf; [|done].
      by rewrite (so_bringup _ Hok c x w j r Hc Hr Hid) in Hf.
    + destruct (so_registering _ Hok c' x' i w' n' Hh) as [(r & Hr & Hid) Hj]. split; [exists r; split; [by apply lookup_app_l_Some|done]|].
      intros j r' [Hr'|[-> ->]]%Hcases Hid' Hf; [by eapply Hj|]. cbn in Hid'. exfalso. apply Hn. symmetry. apply (Honly _ _ Hh). cbn. congruence.
  - intros i r [Hr|[-> ->]]%Hcases Hf Hs; [by apply (so_free _ Hok)|]. cbn in Hs. destruct Hs. by eapply so_reserved.
  - intros i j ri rj [Hi|[-> ->]]%Hcases [Hj|[-> ->]]%Hcases Hid Hfi Hfj; [by eapply (so_single _ Hok)| | |done]; cbn in Hid.
    + by rewrite (so_bringup _ Hok c x w i ri Hc Hi Hid) in Hfi.
    + by rewrite (so_bringup _ Hok c x w j rj Hc Hj (eq_sym Hid)) in Hfj.
  - intros c' h i. rewrite length_app, lookup_insert_Some. intros [[_ <-]|[_ Hh]] Hi; [by apply elem_of_nil in Hi|]. pose proof (so_waits _ Hok c' h i Hh Hi). lia.
  - intros c' h. rewrite lookup_insert_Some. intros [[<- _]|[_ Hh]]; by eapply so_fresh.
Qed.

(** It is registered and its id no longer reserved. *)
Lemma register_ok s c x i w n : service_ok s -> sv_calls s !! c = Some (Registering x i w n) -> service_ok (file c (register x i w n s)).
Proof.
  intros Hok Hc. destruct (so_registering _ Hok c x i w n Hc) as [(r & Hr & Hid) Hj].
  assert (forall c' h x', delete c (sv_calls s) !! c' = Some h -> start_id h = Some x' -> x' <> x) as Hne.
  { intros c' h x' [Hn Hh]%lookup_delete_Some Hs ->. apply Hn. by eapply (so_unique _ Hok). }
  split; cbn; try apply Hok.
  - intros x' e. rewrite lookup_insert_Some. intros [[<- <-]|[_ He]]; [by exists r|by apply Hok].
  - intros c' h x' Hd Hs. pose proof (Hne _ _ _ Hd Hs). apply lookup_delete_Some in Hd as [_ Hh]. pose proof (so_reserved _ Hok _ _ _ Hh Hs). set_solver.
  - intros c1 c2 h1 h2 x' [_ H1]%lookup_delete_Some [_ H2]%lookup_delete_Some. by eapply (so_unique _ Hok).
  - intros c' x' w' j r' [_ Hh]%lookup_delete_Some. by eapply so_bringup.
  - intros c' x' j w' n' [_ Hh]%lookup_delete_Some. by eapply so_registering.
  - intros j r' Hr' Hf Hs. destruct (decide (sr_experiment_id r' = x)) as [E|Hn].
    + rewrite E, lookup_insert_eq. eexists. split; [done|]. cbn. symmetry. by eapply Hj.
    + rewrite lookup_insert_ne by done. apply (so_free _ Hok j r' Hr' Hf). set_solver.
  - intros c' h j [_ Hh]%lookup_delete_Some. by eapply so_waits.
  - intros c' h [_ Hh]%lookup_delete_Some. by eapply so_fresh.
Qed.

(** ** Every step *)

Lemma count_call_mild s : mild s (count_call s).
Proof. split; cbn; try done; [apply runs_grow_refl|by left|lia]. Qed.

Lemma on_run_mild i live f s s' : (forall r, live r = true -> run_grows r (f r)) -> on_run i live f s = Some s' -> mild s s'.
Proof.
  intros Hf. unfold on_run. destruct (sv_runs s !! i) as [r|] eqn:E; [|done]. cbn. destruct (live r) eqn:El; [|done].
  intros [= <-]. eapply mild_update; [done|by apply Hf].
Qed.

Lemma publish_grows snapshot r : negb (sr_dropped r) = true -> run_grows r (run_publish snapshot r).
Proof. intros Hd%negb_true_iff. split; cbn; try done; [by rewrite Hd|]. by exists [snapshot]. Qed.
Lemma read_grows r : run_grows r (run_read r).
Proof. by split. Qed.
Lemma drop_grows r : run_grows r (run_drop r).
Proof. by split. Qed.
Lemma finish_grows r : run_grows r (run_finish r).
Proof. by split. Qed.

Lemma start_ok q s c : service_ok s -> (c < sv_next_call s)%nat -> sv_calls s !! c = None -> service_ok (file c (start_experiment q s)).
Proof.
  intros Hok Hc Hnone. assert (forall r, service_ok (file c (s, Answers r))) as Hans by (intros r; eapply mild_ok; [done|by apply plain_file; [apply plain_answer|]]).
  unfold start_experiment. case_decide; [apply Hans|]. destruct (sq_config q) as [config|]; [|apply Hans].
  destruct (validated_effective_config config) as [effective|v|]; [|apply Hans..]. destruct (existing_answer q s) as [answer|] eqn:Eq; [apply Hans|].
  case_decide as Hin; [apply Hans|]. exact (reserve_ok s c _ _ Hok Hin Hc Hnone (existing_none q s Eq)).
Qed.

Lemma service_step_ok e s s' : service_ok s -> service_step e s = Some s' -> service_ok s'.
Proof.
  intros Hok. destruct e as [c|id started|id|i snapshot|i|i|i]; cbn [service_step].
  - intros [= <-]. pose proof (mild_ok _ _ Hok (count_call_mild s)) as Hok1.
    destruct (match c with CallStart _ => true | _ => false end) eqn:Hs.
    + destruct c as [q|?|?|?|?|]; try done. apply start_ok; [done|cbn; lia|]. cbn. destruct (sv_calls s !! sv_next_call s) as [h|] eqn:E; [|done].
      pose proof (so_fresh _ Hok _ _ E). lia.
    + eapply mild_ok; [exact Hok1|]. apply plain_file; [|cbn; lia]. apply serve_plain; [done|]. by destruct c.
  - destruct (sv_calls s !! id) as [h|] eqn:E; [|done]. cbn. destruct (poll started h s) as [next|] eqn:Ep; [|done]. cbn. intros [= <-].
    pose proof (so_fresh _ Hok _ _ E) as Hlt. destruct (start_id h) as [x|] eqn:Ex.
    + destruct h as [x' w|x' i w n|?|?|?]; try done; cbn in Ep; injection Ep as <-; [|by apply register_ok].
      destruct started as [[mode snapshot]|e|]; cbn [brought_up]; [by apply spawn_ok|by eapply release_ok|].
      eapply mild_ok; [done|]. by apply plain_file; [apply plain_answer|].
    + eapply mild_ok; [done|]. apply plain_file; [|done]. eapply poll_plain; [done|done| |done]. intros i Hi. by eapply so_waits.
  - destruct (sv_calls s !! id) as [h|]; [|done]. cbn. intros [= <-]. eapply mild_ok; [done|]. split; cbn; try done; [apply runs_grow_refl|].
    intros c h' [_ Hc]%lookup_delete_Some. by left.
  - intros H. eapply mild_ok; [done|]. eapply on_run_mild; [|done]. apply publish_grows.
  - intros H. eapply mild_ok; [done|]. eapply on_run_mild; [|done]. intros r _. apply read_grows.
  - intros H. eapply mild_ok; [done|]. eapply on_run_mild; [|done]. intros r _. apply drop_grows.
  - intros H. eapply mild_ok; [done|]. eapply on_run_mild; [|done]. intros r _. apply finish_grows.
Qed.

Lemma service_steps_ok s s' : service_ok s -> service_steps s s' -> service_ok s'.
Proof. intros Hok. induction 1 as [|s s1 s2 e _ IH Hstep]; [done|]. eapply service_step_ok; [by apply IH|done]. Qed.

Lemma service_reachable_ok s : service_reachable s -> service_ok s.
Proof. apply service_steps_ok, service_new_ok. Qed.

(** C13. However calls interleave, fail and are abandoned, an experiment has at
    most one runner that has not finished, and that runner is the registered
    one or its id is still reserved, so that no second one is started beside
    it. *)
Theorem service_single_runner s i r : service_reachable s -> sv_runs s !! i = Some r -> sr_finished r = false ->
  (forall j r', sv_runs s !! j = Some r' -> sr_experiment_id r' = sr_experiment_id r -> sr_finished r' = false -> j = i) /\
  ((exists e, sv_experiments s !! sr_experiment_id r = Some e /\ en_run e = i) \/ sr_experiment_id r ∈ sv_starting s).
Proof.
  intros Hok%service_reachable_ok Hr Hf. split.
  - intros j r' Hr' Hid Hf'. by eapply (so_single _ Hok).
  - destruct (decide (sr_experiment_id r ∈ sv_starting s)) as [Hs|Hs]; [by right|]. left. by apply (so_free _ Hok).
Qed.

(** ** Abandoned starts *)

(** The id is reserved and nobody will free it. *)
Definition stuck (x : string) (s : Service) : Prop := x ∈ sv_starting s /\ forall c h, sv_calls s !! c = Some h -> start_id h <> Some x.
Definition runs_of (x : string) (s : Service) : list nat := filter (fun i => sr_experiment_id <$> sv_runs s !! i = Some x) (seq 0 (length (sv_runs s))).

Lemma mild_stuck x s s' : mild s s' -> stuck x s -> stuck x s' /\ runs_of x s' = runs_of x s.
Proof.
  intros [Hex Hst Hruns Hlen Hcalls Hnext] [Hx Hno]. split; [split; [by rewrite Hst|]|].
  - intros c h Hc Hs. destruct (Hcalls c h Hc) as [H|(H & _)]; [by eapply Hno|]. by rewrite H in Hs.
  - unfold runs_of. rewrite Hlen. apply list_filter_iff. intros i. destruct (sv_runs s !! i) as [r|] eqn:E.
    + destruct (runs_grow_lookup _ _ _ _ Hruns E) as (r' & -> & Hg). cbn. by rewrite (rg_id _ _ Hg).
    + destruct (sv_runs s' !! i) as [r'|] eqn:E'; [|done]. apply lookup_lt_Some in E'. apply lookup_ge_None in E. lia.
Qed.

Lemma filter_ext_in {A : Type} (P Q : A -> Prop) `{forall a, Decision (P a), forall a, Decision (Q a)} (l : list A) : (forall a, a ∈ l -> P a <-> Q a) -> filter P l = filter Q l.
Proof.
  induction l as [|a l IH]; intros Heq; [done|]. rewrite !filter_cons, IH by (intros b Hb; apply Heq; by right).
  specialize (Heq a ltac:(by left)). destruct (decide (P a)), (decide (Q a)); tauto || done.
Qed.

Lemma runs_of_snoc x s r : sr_experiment_id r <> x -> runs_of x (set_runs (sv_runs s ++ [r]) s) = runs_of x s.
Proof.
  intros Hne. unfold runs_of. cbn. rewrite length_app, Nat.add_1_r, seq_S, filter_app. cbn [Nat.add].
  rewrite (filter_cons_False _ (length (sv_runs s))), filter_nil, app_nil_r
    by (rewrite list_lookup_middle by done; cbn; congruence).
  apply filter_ext_in. intros i [_ Hi]%elem_of_seq. by rewrite lookup_app_l by lia.
Qed.

(** A start answers at once or reserves an id that was free. *)
Lemma start_cases q s : (exists answer, start_experiment q s = (s, Answers answer)) \/
  (sq_experiment_id q ∉ sv_starting s) /\ exists w, start_experiment q s =
    (set_registry (sv_experiments s) ({[sq_experiment_id q]} ∪ sv_starting s) s, Awaits (InBringUp (sq_experiment_id q) w)).
Proof.
  unfold start_experiment. case_decide; [left; by eexists|]. destruct (sq_config q) as [config|]; [|left; by eexists].
  destruct (validated_effective_config config) as [effective|v|]; [|left; by eexists..]. destruct (existing_answer q s) as [answer|]; [left; by eexists|].
  case_decide as Hin; [left; by eexists|]. right. split; [done|by eexists].
Qed.

Lemma stuck_step x e s s' : service_ok s -> stuck x s -> service_step e s = Some s' -> stuck x s' /\ runs_of x s' = runs_of x s.
Proof.
  intros Hok Hx. destruct e as [c|id started|id|i snapshot|i|i|i]; cbn [service_step].
  - intros [= <-]. pose proof (count_call_mild s) as Hm. destruct (mild_stuck x _ _ Hm Hx) as [Hx1 Hr1].
    pose proof (mild_ok _ _ Hok Hm) as Hok1. destruct (match c with CallStart _ => true | _ => false end) eqn:Hs.
    + destruct c as [q|?|?|?|?|]; try done. cbn [serve]. destruct (start_cases q (count_call s)) as [(answer & ->)|(Hnew & w & ->)].
      * rewrite <- Hr1. apply mild_stuck; [|done]. split; cbn; try done; [apply runs_grow_refl|]. intros c' h [_ H]%lookup_delete_Some. by left.
      * destruct Hx1 as [Hin Hno]. split; [|done]. split; [cbn; set_solver|]. intros c' h. cbn. rewrite lookup_insert_Some.
        intros [[_ <-]|[_ Hh]]; [|by eapply Hno]. cbn. intros [= E]. apply Hnew. cbn. by rewrite E.
    + rewrite <- Hr1. apply mild_stuck; [|done]. apply plain_file; [|cbn; lia]. apply serve_plain; [done|]. by destruct c.
  - destruct (sv_calls s !! id) as [h|] eqn:E; [|done]. cbn. destruct (poll started h s) as [next|] eqn:Ep; [|done]. cbn. intros [= <-].
    pose proof (so_fresh _ Hok _ _ E) as Hlt. destruct (start_id h) as [y|] eqn:Ey.
    + destruct Hx as [Hin Hno]. assert (y <> x) as Hne by (intros ->; by eapply Hno).
      assert (forall c' h', delete id (sv_calls s) !! c' = Some h' -> start_id h' <> Some x) as Hdel by (intros c' h' [_ Hh]%lookup_delete_Some; by eapply Hno).
      destruct h as [y' w|y' i w n|?|?|?]; try done; injection Ey as ->; cbn in Ep; injection Ep as <-.
      * destruct started as [[mode snapshot]|e|]; cbn [brought_up file].
        -- split; [split; [done|]|exact (runs_of_snoc x s (mkServedRun y [snapshot] [] false false) Hne)]. intros c' h'. cbn. rewrite lookup_insert_Some.
           intros [[_ <-]|[_ Hh]]; [cbn; congruence|by eapply Hno].
        -- split; [split; [cbn; set_solver|done]|done].
        -- split; [by split|done].
      * split; [split; [cbn; set_solver|done]|done].
    + apply mild_stuck; [|done]. apply plain_file; [|done]. eapply poll_plain; [done|done| |done]. intros i Hi. by eapply so_waits.
  - destruct (sv_calls s !! id) as [h|]; [|done]. cbn. intros [= <-]. apply mild_stuck; [|done]. split; cbn; try done; [apply runs_grow_refl|].
    intros c h' [_ Hc]%lookup_delete_Some. by left.
  - intros H. apply mild_stuck; [|done]. eapply on_run_mild; [|done]. apply publish_grows.
  - intros H. apply mild_stuck; [|done]. eapply on_run_mild; [|done]. intros r _. apply read_grows.
  - intros H. apply mild_stuck; [|done]. eapply on_run_mild; [|done]. intros r _. apply drop_grows.
  - intros H. apply mild_stuck; [|done]. eapply on_run_mild; [|done]. intros r _. apply finish_grows.
Qed.

Lemma stuck_steps x s s' : service_ok s -> stuck x s -> service_steps s s' -> stuck x s' /\ runs_of x s' = runs_of x s.
Proof.
  intros Hok Hx. induction 1 as [|s s1 s2 e Hsteps IH Hstep]; [done|]. specialize (IH Hok Hx) as [Hx1 Hr1].
  destruct (stuck_step x e s1 s2 (service_steps_ok _ _ Hok Hsteps) Hx1 Hstep) as [Hx2 Hr2]. split; [done|congruence].
Qed.

(** C16. A start whose caller goes away during bring-up, or between the spawn of
    the runner and its registration, leaves its id reserved for the life of
    the process: no later start of the experiment gets past the registry, no
    further runner of it is ever made, and one that was already spawned stays
    as it is. *)
Theorem abandoned_start_blocks s c h x s1 s2 : service_reachable s -> sv_calls s !! c = Some h -> start_id h = Some x ->
  service_step (EvCancel c) s = Some s1 -> service_steps s1 s2 ->
  x ∈ sv_starting s2 /\ runs_of x s2 = runs_of x s /\
  forall q, sq_experiment_id q = x -> exists answer, start_experiment q s2 = (s2, Answers answer).
Proof.
  intros Hok%service_reachable_ok Hc Hh Hcancel Hsteps. pose proof (service_step_ok _ _ _ Hok Hcancel) as Hok1.
  cbn in Hcancel. rewrite Hc in Hcancel. injection Hcancel as <-. assert (stuck x (set_calls (delete c (sv_calls s)) s)) as Hx.
  { split; [exact (so_reserved _ Hok c h x Hc Hh)|]. cbn. intros c' h' [Hne Hc']%lookup_delete_Some Hs. apply Hne. by eapply (so_unique _ Hok). }
  destruct (stuck_steps x _ _ Hok1 Hx Hsteps) as [[Hin Hno] Hr]. split; [done|]. split; [done|].
  intros q <-. destruct (start_cases q s2) as [?|[Hnew _]]; [done|]. by destruct Hnew.
Qed.

(** ** Answers *)

Lemma step_grows e s s' : service_ok s -> service_step e s = Some s' -> runs_grow (sv_runs s) (sv_runs s').
Proof.
  intros Hok. assert (forall c next, plain s next -> runs_grow (sv_runs s) (sv_runs (file c next))) as Hplain.
  { intros c [s1 n] Hp. pose proof (md_runs _ _ (pl_mild _ _ Hp)). by destruct n. }
  destruct e as [c|id started|id|i snapshot|i|i|i]; cbn [service_step].
  - intros [= <-]. destruct (match c with CallStart _ => true | _ => false end) eqn:Hs.
    + destruct c as [q|?|?|?|?|]; try done. cbn [serve]. destruct (start_cases q (count_call s)) as [(answer & ->)|(_ & w & ->)]; apply runs_grow_refl.
    + pose proof (serve_plain c (count_call s) (mild_ok _ _ Hok (count_call_mild s))) as Hp. specialize (Hp ltac:(by destruct c)).
      destruct (serve c (count_call s)) as [s1 n]. pose proof (md_runs _ _ (pl_mild _ _ Hp)). by destruct n.
  - destruct (sv_calls s !! id) as [h|] eqn:E; [|done]. cbn. destruct (poll started h s) as [next|] eqn:Ep; [|done]. cbn. intros [= <-].
    destruct (start_id h) as [y|] eqn:Ey; [|apply Hplain; eapply poll_plain; [done|done| |done]; intros i Hi; by eapply so_waits].
    destruct h as [y' w|y' i w n|?|?|?]; try done; cbn in Ep; injection Ep as <-; [|apply runs_grow_refl].
    destruct started as [[mode snapshot]|e|]; cbn; [apply runs_grow_snoc|apply runs_grow_refl..].
  - destruct (sv_calls s !! id) as [h|]; [|done]. cbn. intros [= <-]. apply runs_grow_refl.
  - intros H. eapply md_runs, on_run_mild; [|done]. apply publish_grows.
  - intros H. eapply md_runs, on_run_mild; [|done]. intros r _. apply read_grows.
  - intros H. eapply md_runs, on_run_mild; [|done]. intros r _. apply drop_grows.
  - intros H. eapply md_runs, on_run_mild; [|done]. intros r _. apply finish_grows.
Qed.

(** Handlers touch neither the other handlers nor the answers. *)
Definition same_desk (s s' : Service) : Prop := sv_calls s' = sv_calls s /\ sv_answers s' = sv_answers s /\ sv_next_call s' = sv_next_call s.

Lemma on_entry_desk id s k : (forall i r, same_desk s (k i r).1) -> same_desk s (on_entry id s k Answers).1.
Proof. intros Hk. unfold on_entry. destruct (_ !! id) as [e|]; [|done]. by destruct (sv_runs s !! en_run e). Qed.

Lemma send_stops_desk runs : forall s, same_desk s (send_stops runs s).
Proof.
  induction runs as [|i runs IH]; intros s; [done|]. cbn [send_stops foldl]. fold (send_stops runs). destruct (sv_runs s !! i) as [r|]; [|apply IH].
  apply (IH (update_run i (run_send CtlStop r).2 s)).
Qed.

Lemma serve_desk c s : same_desk s (serve c s).1.
Proof.
  destruct c as [q|id|id|id|id|]; cbn [serve].
  - by destruct (start_cases q s) as [(answer & ->)|(_ & w & ->)].
  - apply on_entry_desk. intros i r. by destruct (run_send CtlPause r) as [[]].
  - apply on_entry_desk. intros i r. by destruct (run_send CtlResume r) as [[]].
  - by apply on_entry_desk.
  - done.
  - apply send_stops_desk.
Qed.

Lemma poll_desk started h s next : poll started h s = Some next -> same_desk s next.1.
Proof.
  destruct h as [x w|x i w n|i seen|i seen|i seen rest]; cbn [poll].
  - intros [= <-]. by destruct started as [[]| |].
  - by intros [= <-].
  - destruct (sv_runs s !! i) as [r|]; [|done]. cbn. destruct (run_changed seen r); [|done]. cbn. by intros [= <-].
  - destruct (sv_runs s !! i) as [r|]; [|done]. cbn. destruct (run_changed seen r); [|done]. cbn. by intros [= <-].
  - destruct (sv_runs s !! i) as [r|]; [|done]. cbn. destruct (run_changed seen r); [|done]. cbn. by intros [= <-].
Qed.

Lemma file_other c c' next s : same_desk s next.1 -> c' <> c ->
  sv_calls (file c' next) !! c = sv_calls s !! c /\ (forall r, (c, r) ∈ sv_answers (file c' next) <-> (c, r) ∈ sv_answers s) /\
  sv_next_call (file c' next) = sv_next_call s.
Proof.
  destruct next as [s1 n]. intros (E1 & E2 & E3) Hne. cbn in *. destruct n as [h|a]; cbn; rewrite ?lookup_insert_ne, ?lookup_delete_ne, E1, E2 by done;
    (split; [done|]); (split; [|done]); intros r; [done|]. rewrite elem_of_app, list_elem_of_singleton. split; [|by left]. intros [?|[= -> _]]; done.
Qed.

Lemma on_run_desk i live f s s' : on_run i live f s = Some s' -> same_desk s s'.
Proof. unfold on_run. destruct (sv_runs s !! i) as [r|]; [|done]. cbn. destruct (live r); [|done]. by intros [= <-]. Qed.

(** A call's handler moves only when it is polled or dropped. *)
Lemma step_other e s s' c : service_step e s = Some s' -> (c < sv_next_call s)%nat -> (forall started, e <> EvPoll c started) -> e <> EvCancel c ->
  sv_calls s' !! c = sv_calls s !! c /\ (forall r, (c, r) ∈ sv_answers s' <-> (c, r) ∈ sv_answers s) /\ (c < sv_next_call s')%nat.
Proof.
  intros Hstep Hc Hpoll Hcancel. assert (same_desk s s' -> sv_calls s' !! c = sv_calls s !! c /\ (forall r, (c, r) ∈ sv_answers s' <-> (c, r) ∈ sv_answers s) /\
    (c < sv_next_call s')%nat) as Hsame by (intros (-> & -> & ->); done).
  destruct e as [call|id started|id|i snapshot|i|i|i]; cbn [service_step] in Hstep; try (by eapply Hsame, on_run_desk).
  - injection Hstep as <-. destruct (file_other c (sv_next_call s) (serve call (count_call s)) (count_call s) (serve_desk _ _) ltac:(lia)) as (-> & H & ->).
    split; [done|]. split; [done|cbn; lia].
  - destruct (sv_calls s !! id) as [h|]; [|done]. cbn in Hstep. destruct (poll started h s) as [next|] eqn:Ep; [|done]. injection Hstep as <-.
    destruct (file_other c id next s (poll_desk _ _ _ _ Ep) ltac:(intros ->; by eapply Hpoll)) as (-> & H & ->). done.
  - destruct (sv_calls s !! id) as [h|]; [|done]. injection Hstep as <-. cbn. rewrite lookup_delete_ne by (intros ->; by apply Hcancel). done.
Qed.

Lemma file_next id next s : same_desk s next.1 -> sv_next_call (file id next) = sv_next_call s.
Proof. destruct next as [s1 n]. intros (_ & _ & E). by destruct n. Qed.

(** Calls are numbered before they are answered. *)
Lemma file_answers id next s c r : same_desk s next.1 -> (c, r) ∈ sv_answers (file id next) -> (c, r) ∈ sv_answers s \/ c = id.
Proof.
  destruct next as [s1 n]. intros (_ & E & _). cbn in E. destruct n as [h|a]; cbn; rewrite E; [by left|].
  intros [?|[= -> _]%list_elem_of_singleton]%elem_of_app; [by left|by right].
Qed.

Lemma step_numbered e s s' : service_ok s -> service_step e s = Some s' -> (forall c r, (c, r) ∈ sv_answers s -> (c < sv_next_call s)%nat) ->
  forall c r, (c, r) ∈ sv_answers s' -> (c < sv_next_call s')%nat.
Proof.
  intros Hok Hstep H c r. assert (forall s1, same_desk s s1 -> (c, r) ∈ sv_answers s1 -> (c < sv_next_call s1)%nat) as Hsame by (intros s1 (_ & -> & ->); apply H).
  destruct e as [call|id started|id|i snapshot|i|i|i]; cbn [service_step] in Hstep; try (by eapply Hsame, on_run_desk).
  - injection Hstep as <-. pose proof (serve_desk call (count_call s)) as Hd. rewrite (file_next _ _ _ Hd). intros [Hin| ->]%(file_answers _ _ _ _ _ Hd); cbn; [specialize (H _ _ Hin)|]; lia.
  - destruct (sv_calls s !! id) as [h|] eqn:E; [|done]. cbn in Hstep. destruct (poll started h s) as [next|] eqn:Ep; [|done]. injection Hstep as <-.
    pose proof (poll_desk _ _ _ _ Ep) as Hd. rewrite (file_next _ _ _ Hd). intros [Hin| ->]%(file_answers _ _ _ _ _ Hd); [by eapply H|]. by eapply so_fresh.
  - destruct (sv_calls s !! id) as [h|]; [|done]. injection Hstep as <-. apply H.
Qed.

Lemma reachable_numbered s c r : service_reachable s -> (c, r) ∈ sv_answers s -> (c < sv_next_call s)%nat.
Proof.
  unfold service_reachable. remember service_new as s0 eqn:E. intros Hs. revert c r. induction Hs as [|s s1 s2 e Hs IH Hstep]; [subst; by intros c r ?%elem_of_nil|].
  eapply step_numbered; [|done|by apply IH]. apply service_reachable_ok. subst. done.
Qed.

(** *** Shutdown *)

(** The runner has published a terminal state, or it is gone. *)
Definition ended (s : Service) (i : nat) : Prop := exists r, sv_runs s !! i = Some r /\
  ((exists snapshot, snapshot ∈ sr_published r /\ is_terminal (st_state snapshot) = true) \/ sr_dropped r = true).

Lemma ended_grows s s' i : runs_grow (sv_runs s) (sv_runs s') -> ended s i -> ended s' i.
Proof.
  intros Hg (r & Hr & He). destruct (runs_grow_lookup _ _ _ _ Hg Hr) as (r' & Hr' & G). exists r'. split; [done|].
  destruct He as [(snapshot & Hin & Ht)|Hd]; [left; exists snapshot; split; [|done]|right; by apply (rg_dropped _ _ G)].
  destruct (rg_published _ _ G) as [more ->]. apply elem_of_app. by left.
Qed.

Lemma status_published r : is_terminal (st_state (run_status r)) = true -> run_status r ∈ sr_published r.
Proof. unfold run_status. destruct (last (sr_published r)) as [x|] eqn:E; [|done]. intros _. cbn. by apply last_Some_elem_of. Qed.

Lemma drain_look_ended runs s : match drain_look runs s with
  | Awaits h => exists over i seen rest, h = Draining i seen rest /\ runs = over ++ i :: rest /\ forall j, j ∈ over -> ended s j
  | Answers (Ok _) => forall j, j ∈ runs -> ended s j
  | Answers _ => True
  end.
Proof.
  induction runs as [|i runs IH]; cbn [drain_look]; [by intros j Hj%elem_of_nil|]. destruct (sv_runs s !! i) as [r|] eqn:E; [|done].
  destruct (is_terminal _) eqn:Et; [|exists [], i, (run_version r), runs; split_and!; [done|done|by intros j Hj%elem_of_nil]].
  assert (ended s i) as Hi by (exists r; split; [done|]; left; exists (run_status r); split; [by apply status_published|done]).
  destruct (drain_look runs s) as [h|[reply|e|]]; [|intros j [->|Hj]%elem_of_cons; [done|by apply IH]|done|done].
  destruct IH as (over & i' & seen & rest & -> & -> & Hover). exists (i :: over), i', seen, rest. split_and!; [done|done|].
  intros j [->|Hj]%elem_of_cons; [done|by apply Hover].
Qed.

(** Where the shutdown numbered [c] is with the runners [runs]. *)
Definition draining (c : nat) (runs : list nat) (s : Service) : Prop :=
  (c < sv_next_call s)%nat /\
  match sv_calls s !! c with
  | Some h => (exists over i seen rest, h = Draining i seen rest /\ runs = over ++ i :: rest /\ forall j, j ∈ over -> ended s j) /\ forall r, (c, r) ∉ sv_answers s
  | None => forall reply, (c, Ok reply) ∈ sv_answers s -> forall j, j ∈ runs -> ended s j
  end.

(** What filing the next state of the drain does. *)
Lemma drain_filed c runs s next : (c < sv_next_call s)%nat -> (forall r, (c, r) ∉ sv_answers s) ->
  match next with
  | Awaits h => exists over i seen rest, h = Draining i seen rest /\ runs = over ++ i :: rest /\ forall j, j ∈ over -> ended s j
  | Answers (Ok _) => forall j, j ∈ runs -> ended s j
  | Answers _ => True
  end -> draining c runs (file c (s, next)).
Proof.
  intros Hc Hno Hn. destruct next as [h|a]; (split; [done|]); cbn.
  - rewrite lookup_insert_eq. done.
  - rewrite lookup_delete_eq. intros reply [?|[= <-]%list_elem_of_singleton]%elem_of_app; [by destruct (Hno (Ok reply))|done].
Qed.

Lemma draining_step e s s' c runs : service_ok s -> draining c runs s -> service_step e s = Some s' -> draining c runs s'.
Proof.
  intros Hok [Hc Hd] Hstep. pose proof (step_grows _ _ _ Hok Hstep) as Hg.
  assert ((forall started, e <> EvPoll c started) -> e <> EvCancel c -> draining c runs s') as Hother.
  { intros H1 H2. destruct (step_other e s s' c Hstep Hc H1 H2) as (Ec & Ea & Hc'). split; [done|]. rewrite Ec. destruct (sv_calls s !! c) as [h|].
    - destruct Hd as [(over & i & seen & rest & -> & -> & Hover) Hno]. split; [exists over, i, seen, rest; split_and!; [done|done|]|].
      + intros j Hj. by eapply ended_grows, Hover.
      + intros r Hr%Ea. by eapply Hno.
    - intros reply Hr%Ea j Hj. by eapply ended_grows, Hd. }
  destruct e as [call|id started|id|i snapshot|i|i|i]; try (by apply Hother).
  - destruct (decide (id = c)) as [->|Hne]; [|apply Hother; [intros st E; by injection E|discriminate]]. cbn in Hstep. destruct (sv_calls s !! c) as [h|] eqn:E; [|done]. cbn in Hstep.
    destruct Hd as [(over & i & seen & rest & -> & -> & Hover) Hno]. cbn in Hstep. destruct (sv_runs s !! i) as [r|] eqn:Er; [|done]. cbn in Hstep.
    destruct (run_changed seen r) as [changed|] eqn:Ech; [|done]. cbn in Hstep. injection Hstep as <-. apply drain_filed; [done|done|].
    assert (changed = false -> ended s i) as Hend.
    { intros ->. exists r. split; [done|]. right. unfold run_changed in Ech. case_decide; [done|]. by destruct (sr_dropped r). }
    pose proof (drain_look_ended (i :: rest) s) as H1. pose proof (drain_look_ended rest s) as H2. destruct changed.
    + cbn [drain_look] in H1. rewrite Er in H1. destruct (if is_terminal _ then _ else _) as [h|[reply|e|]]; [|intros j [Hj|Hj]%elem_of_app; auto|done|done].
      destruct H1 as (over' & i' & seen' & rest' & -> & E' & Hov). exists (over ++ over'), i', seen', rest'. rewrite E'. split_and!; [done|by rewrite <- app_assoc|].
      intros j [Hj|Hj]%elem_of_app; auto.
    + specialize (Hend eq_refl). destruct (drain_look rest s) as [h|[reply|e|]]; [|intros j [Hj|[->|Hj]%elem_of_cons]%elem_of_app; auto|done|done].
      destruct H2 as (over' & i' & seen' & rest' & -> & -> & Hov). exists (over ++ i :: over'), i', seen', rest'. split_and!; [done|by rewrite <- app_assoc|].
      intros j [Hj|[->|Hj]%elem_of_cons]%elem_of_app; auto.
  - destruct (decide (id = c)) as [->|Hne]; [|apply Hother; [discriminate|intros E; by injection E]]. cbn in Hstep. destruct (sv_calls s !! c) as [h|] eqn:E; [|done].
    injection Hstep as <-. split; [done|]. cbn. rewrite lookup_delete_eq. destruct Hd as [_ Hno]. intros reply Hr. by destruct (Hno (Ok reply)).
Qed.

Lemma running_entries_elem s x e : sv_experiments s !! x = Some e -> is_finished s e = false -> en_run e ∈ running_entries s.
Proof.
  intros He Hf. unfold running_entries. apply list_elem_of_fmap. exists e. split; [done|]. apply list_elem_of_filter. split; [done|].
  apply list_elem_of_fmap. exists (x, e). split; [done|]. by apply elem_of_map_to_list.
Qed.

(** C14. When a shutdown answers, every experiment that was registered and
    running when it began has published a terminal state or its runner is
    gone. *)
Theorem shutdown_drains s s1 s2 reply x e : service_reachable s ->
  service_step (EvCall CallShutdown) s = Some s1 -> service_steps s1 s2 -> (sv_next_call s, Ok reply) ∈ sv_answers s2 ->
  sv_experiments s !! x = Some e -> is_finished s e = false -> ended s2 (en_run e).
Proof.
  intros Hreach Hstep Hsteps Hans He Hf. pose proof (service_reachable_ok _ Hreach) as Hok. pose proof (service_step_ok _ _ _ Hok Hstep) as Hok1.
  set (c := sv_next_call s) in *. set (runs := running_entries (count_call s)).
  assert (draining c runs s1) as Hd.
  { injection Hstep as <-. change (draining c runs (file c (send_stops runs (count_call s), drain_look runs (send_stops runs (count_call s))))).
    destruct (send_stops_desk runs (count_call s)) as (_ & Ea & En). apply drain_filed; [rewrite En; cbn; lia| |].
    - intros r. rewrite Ea. intros Hr. pose proof (reachable_numbered s _ r Hreach Hr). subst c. lia.
    - apply drain_look_ended. }
  assert (draining c runs s2) as Hd2.
  { clear Hans. induction Hsteps as [|s1 s2 s3 ev Hsteps IH Hstep']; [done|]. eapply draining_step; [|by apply IH|done]. by eapply service_steps_ok. }
  assert (sv_calls s2 !! c = None) as Hnone.
  { destruct Hd2 as [_ Hd2]. destruct (sv_calls s2 !! c) as [h|]; [|done]. destruct Hd2 as [_ Hno]. by destruct (Hno (Ok reply)). }
  destruct Hd2 as [_ Hd2]. rewrite Hnone in Hd2. eapply Hd2; [done|]. by eapply running_entries_elem.
Qed.

(** ** Waiting calls *)

Fixpoint polls (n c : nat) (s : Service) : option Service :=
  match n with
  | O => Some s
  | S n => s ← service_step (EvPoll c Panic) s; polls n c s
  end.

(** Polls a handler still needs at most when its runners are gone. *)
Definition polls_left (s : Service) (h : Handler) : nat :=
  match h with
  | Pausing i seen | Stopping i seen | Draining i seen _ =>
    2 * length (tail (waits_on h)) + match sv_runs s !! i with Some r => if decide (run_version r = seen) then 1 else 2 | None => 1 end
  | _ => 0
  end.

Lemma waiting_poll s h : start_id h = None -> (forall i, i ∈ waits_on h -> exists r, sv_runs s !! i = Some r /\ sr_dropped r = true) ->
  exists next, poll Panic h s = Some (s, next) /\
    match next with Answers _ => True | Awaits h' => start_id h' = None /\ (forall i, i ∈ waits_on h' -> i ∈ waits_on h) /\ (polls_left s h' < polls_left s h)%nat end.
Proof.
  intros Hh Hd. destruct h as [| |i seen|i seen|i seen rest]; try discriminate Hh; destruct (Hd i ltac:(by left)) as (r & Hr & Hdrop);
    cbn [poll polls_left waits_on tail]; rewrite Hr; cbn [mbind option_bind]; unfold run_changed; rewrite Hdrop.
  - destruct (decide (run_version r <> seen)) as [Hne|Heq]; (eexists; split; [done|]); [|done]. pose proof (pause_look_plain i r) as Hp.
    destruct (pause_look i r) as [h|] eqn:E; [|done]. destruct Hp as [Hs Hw]. rewrite Hw. split_and!; [done|done|].
    unfold pause_look in E. destruct (st_state (run_status r)); try done; injection E as <-; cbn; rewrite Hr, decide_True, decide_False by auto; lia.
  - destruct (decide (run_version r <> seen)) as [Hne|Heq]; (eexists; split; [done|]); [|done]. pose proof (stop_look_plain i r) as Hp.
    destruct (stop_look i r) as [h|] eqn:E; [|done]. destruct Hp as [Hs Hw]. rewrite Hw. split_and!; [done|done|].
    unfold stop_look in E. destruct (is_terminal _); [done|]. injection E as <-. cbn. rewrite Hr, decide_True, decide_False by auto. lia.
  - assert (forall runs, (forall j, j ∈ runs -> j ∈ i :: rest) -> match drain_look runs s with Answers _ => True
      | Awaits h' => start_id h' = None /\ (forall j, j ∈ waits_on h' -> j ∈ i :: rest) /\ (polls_left s h' + 1 <= 2 * length runs)%nat end) as Hdrain.
    { induction runs as [|j runs IH]; intros Hin; [done|]. cbn [drain_look]. destruct (sv_runs s !! j) as [rj|] eqn:Ej; [|done].
      destruct (is_terminal _).
      - specialize (IH ltac:(intros k Hk; apply Hin; by right)). destruct (drain_look runs s); [|done]. destruct IH as (? & ? & ?). split_and!; [done|done|cbn [length]; lia].
      - cbn. rewrite Ej, decide_True by done. split_and!; [done|done|lia]. }
    destruct (decide (run_version r <> seen)) as [Hne|Heq]; (eexists; split; [done|]).
    + pose proof (Hdrain (i :: rest) ltac:(done)) as H. cbn [drain_look] in H |- *. rewrite Hr in H |- *. destruct (is_terminal _).
      * pose proof (Hdrain rest ltac:(by right)) as H'. destruct (drain_look rest s); [|done]. destruct H' as (? & ? & ?). split_and!; [done|done|]. rewrite decide_False by done. lia.
      * split_and!; [done|done|]. cbn. rewrite Hr, decide_True, decide_False by auto. lia.
    + pose proof (Hdrain rest ltac:(by right)) as H. destruct (drain_look rest s); [|done]. destruct H as (? & ? & ?). split_and!; [done|done|lia].
Qed.

(** C15. Nobody waits for a runner that is gone: a pause, a stop or a shutdown
    whose runners have all been dropped is answered after two more polls for
    each of them. *)
Theorem waiters_released s c h : service_reachable s -> sv_calls s !! c = Some h -> start_id h = None ->
  (forall i, i ∈ waits_on h -> exists r, sv_runs s !! i = Some r /\ sr_dropped r = true) ->
  exists n s' answer, (n <= 2 * length (waits_on h))%nat /\ polls n c s = Some s' /\ (c, answer) ∈ sv_answers s'.
Proof.
  intros _ Hc Hh Hd. enough (exists n s' answer, (n <= polls_left s h)%nat /\ polls n c s = Some s' /\ (c, answer) ∈ sv_answers s') as (n & s' & answer & Hn & Hrest).
  { exists n, s', answer. split; [|done]. destruct h as [| |i seen|i seen|i seen rest]; try discriminate Hh; cbn [polls_left waits_on tail length] in *;
      destruct (Hd i ltac:(by left)) as (r & Hr & _); rewrite Hr in Hn; case_decide; lia. }
  remember (polls_left s h) as m eqn:Em. revert s h Hc Hh Hd Em. induction (Nat.lt_wf_0 m) as [m _ IH]. intros s h Hc Hh Hd ->.
  destruct (waiting_poll s h Hh Hd) as ([h'|answer] & Hp & Hn).
  - destruct Hn as (Hh' & Hw & Hlt). set (s1 := file c (s, Awaits h')).
    destruct (IH (polls_left s1 h') Hlt s1 h') as (n & s' & answer & Hn & Hrest); [by apply lookup_insert_eq|done| |done|].
    + intros i Hi. apply Hd. by apply Hw.
    + exists (S n), s', answer. split; [change (polls_left s1 h') with (polls_left s h') in Hn; lia|]. cbn [polls service_step]. rewrite Hc. cbn [mbind option_bind]. rewrite Hp. done.
  - exists 1%nat, (file c (s, Answers answer)), answer. split; [destruct h; try discriminate Hh; cbn; repeat case_match; lia|].
    cbn [polls service_step]. rewrite Hc. cbn [mbind option_bind]. rewrite Hp. cbn. split; [done|]. apply elem_of_app. right. by left.
Qed.
(** ** Traces *)

Fixpoint run_events (es : list event) (s : Service) : option Service :=
  match es with
  | [] => Some s
  | e :: es => s ← service_step e s; run_events es s
  end.

Lemma served_events_steps es : forall s0 s s', service_steps s0 s -> run_events es s = Some s' -> service_steps s0 s'.
Proof.
  induction es as [|e es IH]; intros s0 s s' Hs; cbn [run_events]; [by intros [= <-]|]. destruct (service_step e s) as [s1|] eqn:E; [|done]. cbn.
  apply IH. by eapply steps_next.
Qed.
End Service.

Section Samples.
#[local] Existing Instance sample_enums.

Definition sample_request : StartExperimentRequest := mkStartExperimentRequest "a" "" (Some sample_wire) false.
Definition in_state (x : ExperimentState) : StatusSnapshot := mkStatusSnapshot x 0 0 None None 0 0 0 0 0 0 0 0 [] None.
Definition sample_started : res ClientError (StartMode * StatusSnapshot) := Ok (StartFresh, in_state Checkpoint.Running).
(** An experiment brought up and registered. *)
Definition sample_bringup : list event := [EvCall (CallStart sample_request); EvPoll 0 sample_started; EvPoll 0 Panic].
Definition after (es : list event) (s : Service) : Service := default service_new (run_events es s).

Lemma after_steps es s : is_Some (run_events es s) -> service_steps s (after es s).
Proof. intros [s' E]. unfold after. rewrite E. eapply served_events_steps; [apply steps_refl|done]. Qed.

Lemma service_single_runner_witness : let s := after (sample_bringup ++ [EvCall (CallStart sample_request)]) service_new in
  last (sv_answers s) = Some (1%nat, Err (already "running" "a")) /\
  exists r, sv_runs s !! 0%nat = Some r /\ ((exists e, sv_experiments s !! "a" = Some e /\ en_run e = 0%nat) \/ "a" ∈ sv_starting s).
Proof.
  cbv zeta. split; [vm_compute; reflexivity|].
  exists (mkServedRun "a" [in_state Checkpoint.Running] [] false false). split; [vm_compute; reflexivity|].
  refine (proj2 (service_single_runner (after (sample_bringup ++ [EvCall (CallStart sample_request)]) service_new) 0%nat
    (mkServedRun "a" [in_state Checkpoint.Running] [] false false) _ _ _)); [|vm_compute; reflexivity|vm_compute; reflexivity].
  apply after_steps. vm_compute. by eexists.
Defined.

Lemma abandoned_start_blocks_witness :
  let s := after [EvCall (CallStart sample_request); EvPoll 0 sample_started] service_new in
  let s1 := after [EvCancel 0] s in
  runs_of "a" s = [0%nat] /\ sv_experiments s1 !! "a" = None /\
  "a" ∈ sv_starting s1 /\ runs_of "a" s1 = runs_of "a" s /\ forall q, sq_experiment_id q = "a" -> exists answer, start_experiment q s1 = (s1, Answers answer).
Proof.
  cbv zeta. split; [vm_compute; reflexivity|]. split; [vm_compute; reflexivity|].
  eapply (abandoned_start_blocks _ 0%nat); [apply after_steps; vm_compute; by eexists|vm_compute; reflexivity|vm_compute; reflexivity| |apply steps_refl].
  vm_compute. reflexivity.
Defined.

Lemma shutdown_drains_witness :
  let s := after sample_bringup service_new in
  let s1 := after [EvCall CallShutdown] s in
  let s2 := after [EvRead 0; EvPublish 0 (in_state Checkpoint.Stopped); EvPoll 1 Panic] s1 in
  sr_mailbox <$> sv_runs s1 !! 0%nat = Some [CtlStop] /\ last (sv_answers s1) <> Some (1%nat, Ok ShutdownReply) /\
  last (sv_answers s2) = Some (1%nat, Ok ShutdownReply) /\ ended s2 0.
Proof.
  cbv zeta. split; [vm_compute; reflexivity|]. split; [vm_compute; congruence|]. split; [vm_compute; reflexivity|].
  eapply (shutdown_drains (after sample_bringup service_new) _ _ ShutdownReply "a" (mkExperimentEntry 0 _));
    [apply after_steps; vm_compute; by eexists| |apply after_steps; vm_compute; by eexists| |vm_compute; reflexivity|vm_compute; reflexivity].
  - vm_compute. reflexivity.
  - apply last_Some_elem_of. vm_compute. reflexivity.
Defined.

Lemma waiters_released_witness :
  let s := after (sample_bringup ++ [EvCall (CallPause "a"); EvPublish 0 (in_state Checkpoint.Running); EvDrop 0]) service_new in
  exists n s' answer, (n <= 2)%nat /\ polls n 1 s = Some s' /\ (1%nat, answer) ∈ sv_answers s'.
Proof.
  cbv zeta. refine (waiters_released _ 1%nat (Pausing 0 1) _ _ _ _).
  - apply after_steps. vm_compute. by eexists.
  - vm_compute. reflexivity.
  - reflexivity.
  - intros i ->%list_elem_of_singleton. eexists. split; vm_compute; reflexivity.
Defined.
End Samples.
