(* ===== verification/ProgressStream.v ===== *)
(** The progress stream of the served surface
    (crates/orch-server/src/service.rs, [stream_progress]): one task per
    client, from one look at the runner's status to the next.

    A turn is given what the task observes: how the wait ended, the status it
    finds, the time since the last event, the clock, the store, and whether the
    client still listens. *)
From S2P Require Import Prelude Float64 Types Rng Client Checkpoint StoreTypes NodeTable NodeTableWf RunLoop Service.
Local Open Scope string_scope.
Local Open Scope list_scope.

(** ** Messages *)

Record Timestamp := mkTimestamp { ts_seconds : N; ts_nanos : N }.
Inductive Edge :=
| EdgeGoal (node_id : N) (snapshot_ref : list N) (score : f64) (depth : N)
| EdgeBudget (budget : string)
| EdgeEscalation (from_level to_level : N)
| EdgeStall (level : N) (best_score : f64) (window_n : N).
Record ProgressEvent := mkProgressEvent { pe_at : Timestamp; pe_status : ExperimentStatus; pe_edge : option Edge }.

(** The system time since the epoch. *)
Definition now_timestamp (secs subsec_nanos : N) : Timestamp :=
  mkTimestamp (if (secs <? 2 ^ 63)%N then secs else 2 ^ 63 - 1)%N (if (subsec_nanos <? 2 ^ 31)%N then subsec_nanos else 0%N).

(** [str::replace] with a pattern that is not empty: [skip] characters of an
    occurrence are still to be passed over. *)
Fixpoint replace_from (skip : nat) (pattern with_ s : string) : string :=
  match s with
  | EmptyString => ""
  | String c rest =>
    match skip with
    | S skip => replace_from skip pattern with_ rest
    | O => if String.prefix pattern s then with_ +:+ replace_from (pred (String.length pattern)) pattern with_ rest
           else String c (replace_from 0 pattern with_ rest)
    end
  end.
Definition str_replace (pattern with_ s : string) : string := replace_from 0 pattern with_ s.

(** ** The task *)

Inductive Wait := Woken | TimedOut | RunnerGone.
Record Observation (W : Type) := mkObservation {
  ob_wait : Wait;
  ob_snapshot : StatusSnapshot;
  ob_elapsed : N;
  ob_now : N * N;
  ob_store : W;
  ob_listening : bool
}.
Arguments mkObservation {W}.
Arguments ob_wait {W}.
Arguments ob_snapshot {W}.
Arguments ob_elapsed {W}.
Arguments ob_now {W}.
Arguments ob_store {W}.
Arguments ob_listening {W}.

Record Progress := mkProgress { pg_previous : StatusSnapshot; pg_goals_emitted : nat; pg_sent : list ProgressEvent }.
Inductive Task := Going (p : Progress) | Ended (p : Progress) | Crashed.

Definition min_interval (min_interval_ms : N) : N := if decide (min_interval_ms = 0%N) then 1000%N else min_interval_ms.

Section Stream.
Context {W : Type} `{NS : NodeStore W}.

Definition goal_edge (experiment_id : string) (goal : NodeId) (w : W) : res ClientError (option Edge) :=
  match (get_node (mkNodeRequest experiment_id goal) w).1 with
  | Ok meta =>
    Ok (Some (EdgeGoal goal (nm_snapshot_ref meta) (finite_get (nm_progress_score meta)) (if (nm_depth meta <? 2 ^ 32)%N then nm_depth meta else 2 ^ 32 - 1)%N))
  | Err _ => Ok None
  | Panic => Panic
  end.

(** The first event. *)
Definition stream_open (experiment_id : string) (o : Observation W) : Task :=
  let previous := ob_snapshot o in
  let edge := match last (st_goal_nodes previous) with Some goal => goal_edge experiment_id goal (ob_store o) | None => Ok None end in
  match edge with
  | Ok edge =>
    let p := mkProgress previous (length (st_goal_nodes previous)) in
    if ob_listening o then Going (p [mkProgressEvent (now_timestamp (ob_now o).1 (ob_now o).2) (status_to_wire experiment_id previous) edge])
    else Ended (p [])
  | _ => Crashed
  end.

Definition is_transition (previous snapshot : StatusSnapshot) : bool :=
  negb (bool_decide (st_state snapshot = st_state previous)) || negb (st_escalation_level snapshot =? st_escalation_level previous)%N
  || negb (length (st_goal_nodes snapshot) =? length (st_goal_nodes previous))%nat.

(** The edge of an event, and the count of goals after it. *)
Definition event_edge (experiment_id : string) (window_n : N) (snapshot : StatusSnapshot) (w : W) (p : Progress) : res ClientError (option Edge * nat) :=
  let previous := pg_previous p in
  match st_goal_nodes snapshot !! pg_goals_emitted p with
  | Some goal => match goal_edge experiment_id goal w with Ok edge => Ok (edge, S (pg_goals_emitted p)) | Err e => Err e | Panic => Panic end
  | None =>
    Ok (if bool_decide (st_state snapshot = Checkpoint.BudgetExhausted) && negb (bool_decide (st_state previous = Checkpoint.BudgetExhausted)) then
          Some (EdgeBudget (str_replace "budget-exhausted: " "" (default "" (st_failure_reason snapshot))))
        else if (st_escalation_level previous <? st_escalation_level snapshot)%N then
          Some (EdgeEscalation (st_escalation_level previous) (st_escalation_level snapshot))
        else if (0 <? window_n)%N && (st_expansions_since_improvement previous / window_n <? st_expansions_since_improvement snapshot / window_n)%N then
          Some (EdgeStall (st_escalation_level snapshot) (default f64_zero (st_best_score snapshot)) window_n)
        else None, pg_goals_emitted p)
  end.

Definition due (interval : N) (o : Observation W) (p : Progress) : bool :=
  is_transition (pg_previous p) (ob_snapshot o) || (interval <=? ob_elapsed o)%N.
Definition after_wait (o : Observation W) (p : Progress) : Task := match ob_wait o with RunnerGone => Ended p | _ => Going p end.

Definition stream_turn (experiment_id : string) (window_n interval : N) (o : Observation W) (p : Progress) : Task :=
  if due interval o p then
    match event_edge experiment_id window_n (ob_snapshot o) (ob_store o) p with
    | Ok (edge, emitted) =>
      if ob_listening o then
        let event := mkProgressEvent (now_timestamp (ob_now o).1 (ob_now o).2) (status_to_wire experiment_id (ob_snapshot o)) edge in
        after_wait o (mkProgress (ob_snapshot o) emitted (pg_sent p ++ [event]))
      else Ended p
    | _ => Crashed
    end
  else after_wait o p.

Fixpoint stream_run (experiment_id : string) (window_n interval : N) (os : list (Observation W)) (t : Task) : Task :=
  match os, t with
  | o :: os, Going p => stream_run experiment_id window_n interval os (stream_turn experiment_id window_n interval o p)
  | _, _ => t
  end.
End Stream.

(** ** Goals *)

Definition goal_of_edge (e : option Edge) : option Edge := match e with Some (EdgeGoal _ _ _ _) => e | _ => None end.
Definition task_progress (t : Task) : option Progress := match t with Going p | Ended p => Some p | Crashed => None end.


Section Goals.
Context {W : Type} `{NS : NodeStore W}.
Context (experiment_id : string) (window_n interval : N).



Lemma edge_without_goal snapshot w p edge n : st_goal_nodes snapshot !! pg_goals_emitted p = None ->
  event_edge experiment_id window_n snapshot w p = Ok (edge, n) -> goal_of_edge edge = None /\ n = pg_goals_emitted p.
Proof. intros Hn. unfold event_edge. rewrite Hn. intros [= <- <-]. split; [|done]. by repeat case_match. Qed.










(** *** Catching up *)

(** The store knows the goals of the status. *)
Definition store_answers (o : Observation W) : Prop :=
  forall goal, goal ∈ st_goal_nodes (ob_snapshot o) -> exists m, (get_node (mkNodeRequest experiment_id goal) (ob_store o)).1 = Ok m.

(** A turn of a live stream at which an event is due, the goals being [goals]. *)
Definition live_turn (goals : list NodeId) (o : Observation W) : Prop :=
  ob_wait o = TimedOut /\ (interval <= ob_elapsed o)%N /\ ob_listening o = true /\ st_goal_nodes (ob_snapshot o) = goals /\ store_answers o.

Lemma live_turn_emits goals o p : live_turn goals o -> exists p', stream_turn experiment_id window_n interval o p = Going p' /\
  pg_goals_emitted p' = (if decide (pg_goals_emitted p < length goals)%nat then S (pg_goals_emitted p) else pg_goals_emitted p) /\
  length (pg_sent p') = S (length (pg_sent p)).
Proof.
  intros (Hw & He & Hl & Hg & Hs). unfold stream_turn, due, after_wait. rewrite (proj2 (N.leb_le _ _) He), orb_true_r, Hl, Hw.
  destruct (st_goal_nodes (ob_snapshot o) !! pg_goals_emitted p) as [goal|] eqn:Eg.
  - destruct (Hs goal) as [m Hm]; [by eapply list_elem_of_lookup_2|]. unfold event_edge, goal_edge. rewrite Eg, Hm.
    eexists. split; [done|]. cbn. rewrite decide_True by (rewrite <- Hg; by eapply lookup_lt_Some). split; [done|]. rewrite length_app. cbn. lia.
  - destruct (event_edge _ _ _ _ _) as [[edge n]|e|] eqn:E; [|unfold event_edge in E; by rewrite Eg in E..].
    destruct (edge_without_goal _ _ _ _ _ Eg E) as [_ ->]. eexists. split; [done|]. cbn.
    rewrite decide_False by (apply lookup_ge_None in Eg; rewrite Hg in Eg; lia). split; [done|]. rewrite length_app. cbn. lia.
Qed.

(** A stream that has fallen behind catches up: while the runner lives and
    the client listens, every heartbeat announces one pending goal, so that as
    many heartbeats as there are pending goals announce them all. *)
Theorem stream_catches_up goals os p : Forall (live_turn goals) os -> (pg_goals_emitted p <= length goals)%nat ->
  exists p', stream_run experiment_id window_n interval os (Going p) = Going p' /\
    pg_goals_emitted p' = Nat.min (length goals) (pg_goals_emitted p + length os) /\ length (pg_sent p') = (length (pg_sent p) + length os)%nat.
Proof.
  intros Hos. revert p. induction Hos as [|o os Ho _ IH]; intros p Hle; [exists p; cbn; split_and!; [done|lia|lia]|].
  destruct (live_turn_emits goals o p Ho) as (p1 & Ht & He & Hs). destruct (IH p1) as (p' & Hr & He' & Hs'); [rewrite He; case_decide; lia|].
  exists p'. cbn [stream_run length]. rewrite Ht. split_and!; [done| |lia]. rewrite He', He. case_decide; lia.
Qed.

(** *** The end of a run *)

(** With the same status and no heartbeat due, a turn sends nothing. *)
Lemma quiet_turn o p : ob_snapshot o = pg_previous p -> (ob_elapsed o < interval)%N -> stream_turn experiment_id window_n interval o p = after_wait o p.
Proof.
  intros Es He. unfold stream_turn, due. rewrite Es. replace (is_transition (pg_previous p) (pg_previous p)) with false
    by (unfold is_transition; by rewrite bool_decide_true, N.eqb_refl, Nat.eqb_refl by done).
  by rewrite (proj2 (N.leb_gt _ _) He).
Qed.

(** The runner's last status is the end of the stream: when it brings two
    or more goals and the runner goes before the next heartbeat, one of them is
    announced, the task ends, and the others never get an edge. *)
Theorem last_goals_unannounced o1 o2 p p' : (S (pg_goals_emitted p) < length (st_goal_nodes (ob_snapshot o1)))%nat ->
  ob_wait o1 = Woken -> ob_listening o1 = true -> is_transition (pg_previous p) (ob_snapshot o1) = true ->
  ob_wait o2 = RunnerGone -> ob_snapshot o2 = ob_snapshot o1 -> (ob_elapsed o2 < interval)%N ->
  forall os, task_progress (stream_run experiment_id window_n interval (o1 :: o2 :: os) (Going p)) = Some p' ->
  stream_run experiment_id window_n interval (o1 :: o2 :: os) (Going p) = Ended p' /\
  pg_goals_emitted p' = S (pg_goals_emitted p) /\ (pg_goals_emitted p' < length (st_goal_nodes (pg_previous p')))%nat.
Proof.
  intros Hlen Hw1 Hl1 Ht1 Hw2 Es2 He2 os. cbn [stream_run].
  destruct (lookup_lt_is_Some_2 (st_goal_nodes (ob_snapshot o1)) (pg_goals_emitted p)) as [goal Hgoal]; [lia|].
  destruct (stream_turn experiment_id window_n interval o1 p) as [p1|p1|] eqn:E1; [|exfalso|by destruct os]; unfold stream_turn, due, event_edge in E1; rewrite Ht1, Hgoal in E1;
    cbn [orb] in E1; (destruct (goal_edge _ _ _) as [edge|e|]; [|done..]); rewrite Hl1 in E1; unfold after_wait in E1; rewrite Hw1 in E1; [|done].
  injection E1 as <-. rewrite quiet_turn by done. unfold after_wait. rewrite Hw2. destruct os; intros [= <-]; done.
Qed.
End Goals.


Section Samples.
#[local] Existing Instance toy_blake3.
#[local] Existing Instance toy_store_encoding.

Definition sample_status (x : ExperimentState) (goals : list NodeId) : StatusSnapshot := mkStatusSnapshot x 0 0 None None 0 0 0 0 0 0 0 0 goals None.
Definition sample_seen (wait : Wait) (x : ExperimentState) (goals : list NodeId) (elapsed : N) : Observation SnapshotStore :=
  mkObservation wait (sample_status x goals) elapsed (0, 0)%N sample_rows true.
Definition sample_open : Progress :=
  default (mkProgress StatusSnapshot_initial 0 []) (task_progress (stream_open "exp" (sample_seen Woken Checkpoint.Running [1%N] 0))).

Lemma sample_answers wait x elapsed : store_answers "exp" (sample_seen wait x [1; 2; 3]%N elapsed).
Proof. intros goal. cbn. rewrite !elem_of_cons, elem_of_nil. intros [->|[->|[->|[]]]]; eexists; vm_compute; reflexivity. Qed.



Lemma stream_catches_up_witness : exists p, stream_run "exp" 0 1000 (replicate 2 (sample_seen TimedOut Checkpoint.Running [1; 2; 3]%N 1000)) (Going sample_open) = Going p /\
  pg_goals_emitted p = 3%nat.
Proof.
  destruct (stream_catches_up "exp" 0 1000 [1; 2; 3]%N (replicate 2 (sample_seen TimedOut Checkpoint.Running [1; 2; 3]%N 1000)) sample_open) as (p & Hr & He & _).
  - repeat (constructor; [split_and!; [done|cbn; lia|done|done|apply sample_answers]|]). constructor.
  - vm_compute. lia.
  - exists p. split; [exact Hr|]. rewrite He. vm_compute. reflexivity.
Defined.

Lemma last_goals_unannounced_witness : exists p,
  stream_run "exp" 0 1000 [sample_seen Woken Checkpoint.GoalReached [1; 2; 3]%N 10; sample_seen RunnerGone Checkpoint.GoalReached [1; 2; 3]%N 0] (Going sample_open) = Ended p /\
  pg_goals_emitted p = 2%nat.
Proof.
  destruct (stream_run "exp" 0 1000 [sample_seen Woken Checkpoint.GoalReached [1; 2; 3]%N 10; sample_seen RunnerGone Checkpoint.GoalReached [1; 2; 3]%N 0] (Going sample_open))
    as [p|p|] eqn:E; [exfalso; apply (f_equal (fun t => match t with Ended _ => true | _ => false end)) in E; by vm_compute in E|
      |exfalso; apply (f_equal (fun t => match t with Ended _ => true | _ => false end)) in E; by vm_compute in E].
  destruct (last_goals_unannounced "exp" 0 1000 (sample_seen Woken Checkpoint.GoalReached [1; 2; 3]%N 10) (sample_seen RunnerGone Checkpoint.GoalReached [1; 2; 3]%N 0)
    sample_open p) with (os := @nil (Observation SnapshotStore)) as (_ & He & _).
  - vm_compute. lia.
  - reflexivity.
  - reflexivity.
  - vm_compute. reflexivity.
  - reflexivity.
  - reflexivity.
  - cbn. lia.
  - by rewrite E.
  - exists p. split; [done|]. rewrite He. vm_compute. reflexivity.
Defined.
End Samples.
