(* ===== verification/Decimal.v ===== *)
(** Numbers as text: the decimal digits [to_string] writes read back as the
    number. *)
From stdpp Require Import pretty.
From S2P Require Import Prelude Types Rng Client SynthTypes StoreTypes SynthDriver SynthConfig Fault FakeSynth.
Local Open Scope string_scope.
Local Open Scope list_scope.

(** A decidable property of the numbers below a bound is checked on each. *)
Lemma below_forall (bound : N) (P : N -> Prop) `{!forall n, Decision (P n)} n : (n < bound)%N ->
  forallb (fun k => bool_decide (P (N.of_nat k))) (seq 0 (N.to_nat bound)) = true -> P n.
Proof.
  intros Hn Hall. rewrite forallb_forall in Hall. specialize (Hall (N.to_nat n)). rewrite N2Nat.id in Hall. apply (bool_decide_unpack _), Is_true_true, Hall.
  apply in_seq. lia.
Qed.

Lemma pretty_digit d : (d < 10)%N -> Ascii.N_of_ascii (pretty_N_char d) = (48 + d)%N.
Proof. intros Hd. by apply (below_forall 10 (fun d => Ascii.N_of_ascii (pretty_N_char d) = (48 + d)%N)). Qed.

Lemma pretty_go_digits x : forall s, forallb is_digit (bytes_of_string s) = true -> forallb is_digit (bytes_of_string (pretty_N_go x s)) = true /\
  digits_value (bytes_of_string (pretty_N_go x s)) = foldl (fun v d => 10 * v + (d - 48))%N x (bytes_of_string s).
Proof.
  induction (N.lt_wf_0 x) as [x _ IH]. intros s Hs. destruct (decide (0 < x)%N) as [Hx|Hx]; [|replace x with 0%N by lia; by rewrite pretty_N_go_0].
  rewrite pretty_N_go_step by done. assert (x mod 10 < 10)%N as Hm by (apply N.mod_lt; lia).
  assert (bytes_of_string (String (pretty_N_char (x mod 10)) s) = (48 + x mod 10)%N :: bytes_of_string s) as Eb by (by rewrite <- pretty_digit).
  destruct (IH (x / 10)%N ltac:(by apply N.div_lt) (String (pretty_N_char (x mod 10)) s)) as [H1 H2].
  - rewrite Eb. cbn [forallb]. rewrite Hs, andb_true_r. unfold is_digit, between. clear -Hm. generalize dependent (x mod 10)%N. intros d Hd. apply andb_true_intro. split; apply N.leb_le; lia.
  - split; [done|]. rewrite H2, Eb. cbn [foldl]. f_equal. pose proof (N.div_mod x 10 ltac:(done)) as E. clear -E.
    generalize dependent (x / 10)%N. generalize dependent (x mod 10)%N. intros d q E. lia.
Qed.

Lemma pretty_digits x : forallb is_digit (bytes_of_string (pretty x)) = true /\ digits_value (bytes_of_string (pretty x)) = x.
Proof.
  unfold pretty, pretty_N. case_decide; [by subst|]. destruct (pretty_go_digits x "" eq_refl) as [H1 H2]. by rewrite H2.
Qed.

Lemma bytes_of_string_app a b : bytes_of_string (a +:+ b) = bytes_of_string a ++ bytes_of_string b.
Proof. induction a as [|c a IH]; [done|]. exact (f_equal (cons (Ascii.N_of_ascii c)) IH). Qed.
