(* ===== verification/SynthGrpc.v ===== *)
(** The gRPC adapter of the input synthesizer
    (crates/orch-driver/src/input_synth/grpc.rs): the wire messages, the
    conversions in both directions, the retries of a call and the client built
    on them.

    The messages and the transport are generated elsewhere: a message lists the
    fields the code reads and writes, an enumeration is an [i32] whose numbers
    are those of [SynthWire], and [SynthTransport] is one exchange with the
    service. *)
From stdpp Require Import pretty.
From S2P Require Import Prelude Float64 Types Client Rng Checkpoint Runner SynthTypes StoreTypes NodeAttrs SynthDriver SynthConfig Fault FakeSynth.
Local Open Scope string_scope.
Local Open Scope list_scope.

(** ** Wire messages *)

Inductive WireDocumentKind := WDocMacroPack | WDocExperimentConfig | WDocEventGrammar.
Inductive WireModelKind := WModelPad | WModelEventGrammar.
Inductive WireGeneratorKind := WGenUnspecified | WGenWeightedRandom | WGenMacro | WGenMutation | WGenPolicy.
Inductive WireHealthStatus := WHealthUnspecified | WHealthServing | WHealthDegraded | WHealthNotServing.

Inductive WireSource := WSourceYaml (bytes : list N) | WSourceRef (reference : string).
Record WireLoadMacroPackRequest := mkWireLoadMacroPackRequest { wlq_source : option WireSource; wlq_kind : Z }.
Record WireLoadMacroPackResponse := mkWireLoadMacroPackResponse { wlr_document_id : string; wlr_items_loaded : N; wlr_warnings : list string }.

Record WireHealthResponse := mkWireHealthResponse {
  whr_status : Z;
  whr_synth_version : string;
  whr_loaded_packs : list string;
  whr_loaded_experiments : list string;
  whr_policy_endpoint_up : bool;
  whr_policy_deterministic : bool;
  whr_mining_in_progress : bool
}.

Record WirePadSegment := mkWirePadSegment { wps_buttons : N; wps_hold_frames : N }.
Record WirePadBurst := mkWirePadBurst { wpb_segments : list WirePadSegment; wpb_button_alphabet : string }.
Inductive WireValue := WIntVal (v : Z) | WEnumVal (v : string) | WDurNs (v : N) | WBytesVal (v : list N).
Record WireFieldValue := mkWireFieldValue { wfv_value : option WireValue }.
Record WireGrammarField := mkWireGrammarField { wgf_name : string; wgf_value : option WireFieldValue }.
Record WireGrammarEvent := mkWireGrammarEvent {
  wge_event_type : string;
  wge_at_offset_ns : N;
  wge_fields : list WireGrammarField;
  wge_payload : list N
}.
Record WireEventBurst := mkWireEventBurst { web_events : list WireGrammarEvent; web_grammar_id : string }.
Inductive WireBody := WBodyPad (b : WirePadBurst) | WBodyEvent (b : WireEventBurst).
Record WireSynthBurst := mkWireSynthBurst { wsb_format_version : N; wsb_body : option WireBody; wsb_burst_id : list N }.

Record WireMacroProvenance := mkWireMacroProvenance {
  wmp_pack_id : string;
  wmp_macro_name : string;
  wmp_param_bindings : gmap string string;
  wmp_macro_frames : N;
  wmp_tail_frames : N;
  wmp_chain_index : N
}.
Record WireMutationOp := mkWireMutationOp { wmo_op : string; wmo_args : gmap string string }.
Record WireMutationProvenance := mkWireMutationProvenance {
  wmu_base_burst_id : list N;
  wmu_donor_burst_id : list N;
  wmu_base_was_sibling : bool;
  wmu_ops : list WireMutationOp;
  wmu_post_clamp : bool
}.
Record WirePolicyProvenance := mkWirePolicyProvenance {
  wpp_model_id : string;
  wpp_model_version : string;
  wpp_temperature : f64;
  wpp_server_attested_deterministic : bool
}.
Record WireProvenance := mkWireProvenance {
  wpr_generator : Z;
  wpr_slot : N;
  wpr_rng_stream : string;
  wpr_config_fingerprint : list N;
  wpr_fallback_from : Z;
  wpr_macro : option WireMacroProvenance;
  wpr_mutation : option WireMutationProvenance;
  wpr_policy : option WirePolicyProvenance
}.
Record WireProvenancedBurst := mkWireProvenancedBurst { wpv_burst : option WireSynthBurst; wpv_provenance : option WireProvenance }.
Record WireScoredBurst := mkWireScoredBurst { wsc_burst : option WireProvenancedBurst; wsc_score_delta : f64 }.

Record WireNodeContext := mkWireNodeContext {
  wnc_node_id : string;
  wnc_snapshot_ref : string;
  wnc_depth : N;
  wnc_node_score : f64;
  wnc_novelty : f64;
  wnc_ram_features : gmap string f64;
  wnc_frame_embedding : list f64;
  wnc_recent_inputs : option WireSynthBurst;
  wnc_parent_burst : option WireProvenancedBurst;
  wnc_sibling_bursts : list WireScoredBurst
}.
Record WireProposeBurstsRequest := mkWireProposeBurstsRequest {
  wpq_experiment_id : string;
  wpq_node_context : option WireNodeContext;
  wpq_k : N;
  wpq_length_hint : N;
  wpq_seed : N;
  wpq_model : Z;
  wpq_config_overrides_yaml : list N
}.
Record WireDegradedGenerator := mkWireDegradedGenerator { wdg_generator : Z; wdg_reason : string }.
Record WireProposeBurstsResponse := mkWireProposeBurstsResponse {
  wpx_bursts : list WireProvenancedBurst;
  wpx_config_fingerprint : list N;
  wpx_synth_version : string;
  wpx_seed : N;
  wpx_degraded : list WireDegradedGenerator
}.

Record WirePathSample := mkWirePathSample { wph_expansions : list WireScoredBurst; wph_terminal_score : f64 }.
Record WireMiningParams := mkWireMiningParams {
  wmi_min_support : N;
  wmi_min_paths : N;
  wmi_max_len_tokens : N;
  wmi_max_macros : N;
  wmi_containment_alpha : f64;
  wmi_dedup_edit_dist : f64
}.
Record WireMineMacrosRequest := mkWireMineMacrosRequest { wmq_experiment_id : string; wmq_paths : list WirePathSample; wmq_params : option WireMiningParams }.
Record WireMinedMacroStats := mkWireMinedMacroStats {
  wms_name : string;
  wms_support : N;
  wms_paths : N;
  wms_lift : f64;
  wms_score : f64;
  wms_len_tokens : N
}.
Record WireMineMacrosResponse := mkWireMineMacrosResponse {
  wmr_macro_pack_yaml : list N;
  wmr_pack_id : string;
  wmr_stats : list WireMinedMacroStats;
  wmr_paths_used : N;
  wmr_tokens_scanned : N
}.

(** The numbers of the generated enumerations. *)
Class SynthWire := {
  BURST_FORMAT_VERSION : N;
  document_kind_number : WireDocumentKind -> Z;
  model_kind_number : WireModelKind -> Z;
  generator_number : WireGeneratorKind -> Z;
  generator_of : Z -> option WireGeneratorKind;
  health_of : Z -> option WireHealthStatus
}.
(** [try_from] undoes [as i32]. *)
Class SynthWireLaws (SW : SynthWire) := { generator_of_number : forall g, generator_of (generator_number g) = Some g }.

(** ** Bytes and identifiers *)

Definition BURST_ID_LEN : nat := 32.

Definition fixed_bytes (n : nat) (bytes : list N) (kind : ClientErrorKind) (field : string) : res ClientError (list N) :=
  if decide (length bytes = n) then Ok bytes
  else Err (mkClientError kind (field +:+ " must be exactly " +:+ pretty (N.of_nat n) +:+ " bytes, got " +:+ pretty (N.of_nat (length bytes)))).

Definition hex_lower (bytes : list N) : string := foldr (fun byte out => hex_digit (byte / 16) +:+ hex_digit (byte mod 16) +:+ out) "" bytes.
Definition hex_nibble (byte : N) : option N :=
  if (48 <=? byte)%N && (byte <=? 57)%N then Some (byte - 48)%N
  else if (97 <=? byte)%N && (byte <=? 102)%N then Some (byte - 97 + 10)%N
  else if (65 <=? byte)%N && (byte <=? 70)%N then Some (byte - 65 + 10)%N
  else None.
(** The loop over [chunks_exact(2)]. *)
Fixpoint decode_chunks (bytes : list N) (kind : ClientErrorKind) (field : string) : res ClientError (list N) :=
  match bytes with
  | a :: b :: rest =>
    high ← ok_or (hex_nibble a) (mkClientError kind (field +:+ " contains invalid hex character"));
    low ← ok_or (hex_nibble b) (mkClientError kind (field +:+ " contains invalid hex character"));
    more ← decode_chunks rest kind field;
    Ok (N.lor (N.shiftl high 4) low :: more)
  | _ => Ok []
  end.
Definition decode_fixed_hex (n : nat) (value : string) (kind : ClientErrorKind) (field : string) : res ClientError (list N) :=
  let bytes := bytes_of_string value in
  if decide (length bytes = n * 2)%nat then decode_chunks bytes kind field
  else Err (mkClientError kind (field +:+ " hex must be " +:+ pretty (N.of_nat (n * 2)) +:+ " characters, got " +:+ pretty (N.of_nat (length bytes)))).

Definition node_id_to_wire (node_id : NodeId) : string := pretty node_id.
Definition node_id_from_wire (value : string) (kind : ClientErrorKind) : res ClientError NodeId :=
  let bytes := bytes_of_string value in
  if decide (bytes = []) then Err (mkClientError kind "node_id must not be empty")
  else if negb (forallb is_digit bytes) then
    Err (mkClientError kind ("node_id '" +:+ value +:+ "' is not an unsigned decimal integer"))
  else if (u64_max <? digits_value bytes)%N then Err (mkClientError kind ("node_id '" +:+ value +:+ "' is outside u64 range"))
  else Ok (digits_value bytes).

Definition snapshot_ref_to_wire (snapshot_ref : SnapshotRef) : string := hex_lower snapshot_ref.
Definition snapshot_ref_from_wire (value : string) (kind : ClientErrorKind) : res ClientError SnapshotRef :=
  decode_fixed_hex DIGEST_LEN value kind "snapshot_ref".
Definition config_fingerprint_from_wire (bytes : list N) : res ClientError ConfigFingerprint :=
  fixed_bytes (N.to_nat CONFIG_FINGERPRINT_LEN) bytes DataLoss "ConfigFingerprint".
Definition validate_mutation_ids (base donor : list N) (kind : ClientErrorKind) : res ClientError unit :=
  _ ← fixed_bytes BURST_ID_LEN base kind "MutationProvenance.base_burst_id";
  if decide (donor = []) then Ok tt
  else _ ← fixed_bytes BURST_ID_LEN donor kind "MutationProvenance.donor_burst_id"; Ok tt.

(** ** Status codes *)

Inductive TonicCode := TcOk | TcCancelled | TcUnknown | TcInvalidArgument | TcDeadlineExceeded | TcNotFound | TcAlreadyExists | TcPermissionDenied
| TcResourceExhausted | TcFailedPrecondition | TcAborted | TcOutOfRange | TcUnimplemented | TcInternal | TcUnavailable | TcDataLoss | TcUnauthenticated.
Record TonicStatus := mkTonicStatus { ts_code : TonicCode; ts_message : string }.

Definition tonic_code_to_client_error_kind (code : TonicCode) : ClientErrorKind :=
  match code with
  | TcInvalidArgument => InvalidRequest
  | TcFailedPrecondition => FailedPrecondition
  | TcNotFound => NotFound
  | TcAlreadyExists => AlreadyExists
  | TcResourceExhausted => ResourceExhausted
  | TcUnavailable | TcDeadlineExceeded => Unavailable
  | TcDataLoss => DataLoss
  | TcInternal | TcUnknown => Internal
  | _ => Internal
  end.
Definition status_to_client_error (status : TonicStatus) : ClientError := mkClientError (tonic_code_to_client_error_kind (ts_code status)) (ts_message status).
Definition is_transport_retryable (status : TonicStatus) : bool := match ts_code status with TcUnavailable | TcDeadlineExceeded => true | _ => false end.

(** ** Conversions *)

Definition dto_document_kind_to_wire (kind : DocumentKind) : WireDocumentKind :=
  match kind with DocMacroPack => WDocMacroPack | DocExperimentConfig => WDocExperimentConfig | DocEventGrammar => WDocEventGrammar end.
Definition dto_model_kind_to_wire (kind : ModelKind) : WireModelKind := match kind with ModelPad => WModelPad | ModelEventGrammar => WModelEventGrammar end.
Definition dto_generator_kind_to_wire (kind : GeneratorKind) : WireGeneratorKind :=
  match kind with GenWeightedRandom => WGenWeightedRandom | GenMacro => WGenMacro | GenMutation => WGenMutation | GenPolicy => WGenPolicy end.
Definition GeneratorKind_debug (kind : GeneratorKind) : string :=
  match kind with GenWeightedRandom => "WeightedRandom" | GenMacro => "Macro" | GenMutation => "Mutation" | GenPolicy => "Policy" end.
Definition data_loss (message : string) : ClientError := mkClientError DataLoss message.

(** [transpose] of an optional conversion. *)
Definition opt_res {E A B : Type} (f : A -> res E B) (o : option A) : res E (option B) :=
  match o with Some a => b ← f a; Ok (Some b) | None => Ok None end.

(** *** Pad bursts and events *)

Definition dto_to_wire_pad_burst (pad : PadBurst) : WirePadBurst :=
  mkWirePadBurst ((fun s => mkWirePadSegment (seg_buttons s) (seg_hold_frames s)) <$> pb_segments pad) (pb_button_alphabet pad).
Definition wire_to_dto_pad_burst (pad : WirePadBurst) : PadBurst :=
  mkPadBurst ((fun s => mkPadSegment (wps_buttons s) (wps_hold_frames s)) <$> wpb_segments pad) (wpb_button_alphabet pad).

Definition dto_to_wire_field_value (value : FieldValue) : WireFieldValue :=
  mkWireFieldValue (Some (match value with FieldInt v => WIntVal v | FieldEnum v => WEnumVal v | FieldDurationNs v => WDurNs v | FieldBytes v => WBytesVal v end)).
Definition wire_to_dto_field_value (value : WireFieldValue) : res ClientError FieldValue :=
  v ← ok_or (wfv_value value) (data_loss "FieldValue.value oneof is unset");
  Ok (match v with WIntVal v => FieldInt v | WEnumVal v => FieldEnum v | WDurNs v => FieldDurationNs v | WBytesVal v => FieldBytes v end).

Definition dto_to_wire_grammar_field (field : GrammarField) : res ClientError WireGrammarField :=
  Ok (mkWireGrammarField (gf_name field) (Some (dto_to_wire_field_value (gf_value field)))).
Definition wire_to_dto_grammar_field (field : WireGrammarField) : res ClientError GrammarField :=
  value ← ok_or (wgf_value field) (data_loss "GrammarField.value is missing");
  value ← wire_to_dto_field_value value;
  Ok (mkGrammarField (wgf_name field) value).

Definition dto_to_wire_grammar_event (event : GrammarEvent) : res ClientError WireGrammarEvent :=
  fields ← mapM_res dto_to_wire_grammar_field (ge_fields event);
  Ok (mkWireGrammarEvent (ge_event_type event) (ge_at_offset_ns event) fields (ge_payload event)).
Definition wire_to_dto_grammar_event (event : WireGrammarEvent) : res ClientError GrammarEvent :=
  fields ← mapM_res wire_to_dto_grammar_field (wge_fields event);
  Ok (mkGrammarEvent (wge_event_type event) (wge_at_offset_ns event) fields (wge_payload event)).

Definition dto_to_wire_event_burst (event : EventBurst) : res ClientError WireEventBurst :=
  events ← mapM_res dto_to_wire_grammar_event (eb_events event);
  Ok (mkWireEventBurst events (eb_grammar_id event)).
Definition wire_to_dto_event_burst (event : WireEventBurst) : res ClientError EventBurst :=
  events ← mapM_res wire_to_dto_grammar_event (web_events event);
  Ok (mkEventBurst events (web_grammar_id event)).

(** *** Provenance payloads *)

Definition dto_to_wire_macro_provenance (p : MacroProvenance) : WireMacroProvenance :=
  mkWireMacroProvenance (mp_pack_id p) (mp_macro_name p) (list_to_map (mp_param_bindings p)) (mp_macro_frames p) (mp_tail_frames p) (mp_chain_index p).
Definition wire_to_dto_macro_provenance (p : WireMacroProvenance) : MacroProvenance :=
  mkMacroProvenance (wmp_pack_id p) (wmp_macro_name p) (in_order (wmp_param_bindings p)) (wmp_macro_frames p) (wmp_tail_frames p) (wmp_chain_index p).

Definition dto_to_wire_mutation_op (op : MutationOp) : WireMutationOp := mkWireMutationOp (mo_op op) (list_to_map (mo_args op)).
Definition wire_to_dto_mutation_op (op : WireMutationOp) : MutationOp := mkMutationOp (wmo_op op) (in_order (wmo_args op)).
Definition dto_to_wire_mutation_provenance (p : MutationProvenance) : res ClientError WireMutationProvenance :=
  _ ← validate_mutation_ids (mu_base_burst_id p) (mu_donor_burst_id p) InvalidRequest;
  Ok (mkWireMutationProvenance (mu_base_burst_id p) (mu_donor_burst_id p) (mu_base_was_sibling p) (dto_to_wire_mutation_op <$> mu_ops p) (mu_post_clamp p)).
Definition wire_to_dto_mutation_provenance (p : WireMutationProvenance) : res ClientError MutationProvenance :=
  _ ← validate_mutation_ids (wmu_base_burst_id p) (wmu_donor_burst_id p) DataLoss;
  Ok (mkMutationProvenance (wmu_base_burst_id p) (wmu_donor_burst_id p) (wmu_base_was_sibling p) (wire_to_dto_mutation_op <$> wmu_ops p) (wmu_post_clamp p)).

(** The payload of a provenance is that of its generator. *)
Definition validate_provenance_payloads (p : Provenance) (kind : ClientErrorKind) : res ClientError unit :=
  let macro_set := is_some (pr_macro_provenance p) in
  let mutation_set := is_some (pr_mutation_provenance p) in
  let policy_set := is_some (pr_policy_provenance p) in
  let expected_payload := match pr_generator p with GenWeightedRandom => None | GenMacro => Some "macro" | GenMutation => Some "mutation" | GenPolicy => Some "policy" end in
  let actual_count := (Nat.b2n macro_set + Nat.b2n mutation_set + Nat.b2n policy_set)%nat in
  match expected_payload with
  | None =>
    if (actual_count =? 0)%nat then Ok tt
    else Err (mkClientError kind "weighted-random provenance must not include generator-specific payloads")
  | Some payload =>
    if negb (actual_count =? 1)%nat then
      Err (mkClientError kind (GeneratorKind_debug (pr_generator p) +:+ " provenance must include exactly one matching generator payload"))
    else
      let payload_matches := match pr_generator p with GenWeightedRandom => true | GenMacro => macro_set | GenMutation => mutation_set | GenPolicy => policy_set end in
      if payload_matches then Ok tt
      else Err (mkClientError kind (GeneratorKind_debug (pr_generator p) +:+ " provenance must include " +:+ payload +:+ " payload only"))
  end.

Definition dto_to_wire_mining_params (p : MiningParams) : res ClientError WireMiningParams :=
  Ok (mkWireMiningParams (default 0%N (mi_min_support p)) (default 0%N (mi_min_paths p)) (default 0%N (mi_max_len_tokens p)) (default 0%N (mi_max_macros p))
    (match mi_containment_alpha p with Some x => finite_get x | None => f64_zero end) (match mi_dedup_edit_dist p with Some x => finite_get x | None => f64_zero end)).

Definition wire_to_dto_load_macro_pack_response (r : WireLoadMacroPackResponse) : res ClientError LoadMacroPackResponse :=
  Ok (mkLoadMacroPackResponse (wlr_document_id r) (wlr_items_loaded r) (wlr_warnings r)).

Section Conversions.
Context `{SW : SynthWire} `{FD : F64Display}.

Definition dto_to_wire_load_macro_pack_request (r : LoadMacroPackRequest) : res ClientError WireLoadMacroPackRequest :=
  source ← match lmp_source r with
           | DocumentYaml bytes => Ok (WSourceYaml bytes)
           | ArtifactRef reference =>
             if is_blank reference then Err (mkClientError InvalidRequest "artifact_ref must not be empty") else Ok (WSourceRef reference)
           end;
  Ok (mkWireLoadMacroPackRequest (Some source) (document_kind_number (dto_document_kind_to_wire (lmp_kind r)))).

Definition wire_health_status_to_dto (status : Z) : res ClientError HealthStatus :=
  match health_of status with
  | Some WHealthServing => Ok Serving
  | Some WHealthDegraded => Ok Degraded
  | Some WHealthNotServing => Ok NotServing
  | Some WHealthUnspecified => Err (data_loss "HealthResponse.status is unspecified")
  | None => Err (data_loss ("unknown HealthResponse.status enum value " +:+ pretty status))
  end.
Definition wire_to_dto_health_response (r : WireHealthResponse) : res ClientError HealthResponse :=
  status ← wire_health_status_to_dto (whr_status r);
  Ok (mkHealthResponse status (whr_synth_version r) (whr_loaded_packs r) (whr_loaded_experiments r) (whr_policy_endpoint_up r) (whr_policy_deterministic r)
    (whr_mining_in_progress r)).

Definition wire_generator_kind_to_dto_required (value : Z) : res ClientError GeneratorKind :=
  match generator_of value with
  | Some WGenWeightedRandom => Ok GenWeightedRandom
  | Some WGenMacro => Ok GenMacro
  | Some WGenMutation => Ok GenMutation
  | Some WGenPolicy => Ok GenPolicy
  | Some WGenUnspecified => Err (data_loss "GeneratorKind is unspecified")
  | None => Err (data_loss ("unknown GeneratorKind enum value " +:+ pretty value))
  end.
Definition wire_generator_kind_to_dto_optional (value : Z) : res ClientError (option GeneratorKind) :=
  match generator_of value with
  | Some WGenUnspecified => Ok None
  | Some WGenWeightedRandom => Ok (Some GenWeightedRandom)
  | Some WGenMacro => Ok (Some GenMacro)
  | Some WGenMutation => Ok (Some GenMutation)
  | Some WGenPolicy => Ok (Some GenPolicy)
  | None => Err (data_loss ("unknown fallback GeneratorKind enum value " +:+ pretty value))
  end.

Definition finite_f64_response (value : f64) (field : string) : res ClientError FiniteF64 :=
  map_err (fun error => data_loss (field +:+ " must be finite: " +:+ NonFiniteFloatError_fmt error)) (FiniteF64_new value).
Definition score_response (value : f64) (field : string) : res ClientError Score :=
  map_err (fun error => data_loss (field +:+ " must be finite: " +:+ NonFiniteFloatError_fmt error)) (FiniteF64_new value).

Definition dto_to_wire_policy_provenance (p : PolicyProvenance) : WirePolicyProvenance :=
  mkWirePolicyProvenance (pp_model_id p) (pp_model_version p) (finite_get (pp_temperature p)) (pp_server_attested_deterministic p).
Definition wire_to_dto_policy_provenance (p : WirePolicyProvenance) : res ClientError PolicyProvenance :=
  temperature ← finite_f64_response (wpp_temperature p) "PolicyProvenance.temperature";
  Ok (mkPolicyProvenance (wpp_model_id p) (wpp_model_version p) temperature (wpp_server_attested_deterministic p)).

Definition dto_to_wire_provenance (p : Provenance) : res ClientError WireProvenance :=
  _ ← validate_provenance_payloads p InvalidRequest;
  mutation ← opt_res dto_to_wire_mutation_provenance (pr_mutation_provenance p);
  Ok (mkWireProvenance (generator_number (dto_generator_kind_to_wire (pr_generator p))) (pr_slot p) (pr_rng_stream p) (pr_config_fingerprint p)
    (generator_number (default WGenUnspecified (dto_generator_kind_to_wire <$> pr_fallback_from p)))
    (dto_to_wire_macro_provenance <$> pr_macro_provenance p) mutation (dto_to_wire_policy_provenance <$> pr_policy_provenance p)).
Definition wire_to_dto_provenance (p : WireProvenance) : res ClientError Provenance :=
  generator ← wire_generator_kind_to_dto_required (wpr_generator p);
  config_fingerprint ← config_fingerprint_from_wire (wpr_config_fingerprint p);
  fallback_from ← wire_generator_kind_to_dto_optional (wpr_fallback_from p);
  mutation ← opt_res wire_to_dto_mutation_provenance (wpr_mutation p);
  policy ← opt_res wire_to_dto_policy_provenance (wpr_policy p);
  let dto := mkProvenance generator (wpr_slot p) (wpr_rng_stream p) config_fingerprint fallback_from (wire_to_dto_macro_provenance <$> wpr_macro p) mutation policy in
  _ ← validate_provenance_payloads dto DataLoss;
  Ok dto.

(** *** Bursts *)

Definition dto_to_wire_burst (burst : Burst) : res ClientError WireSynthBurst :=
  body ← match bu_body burst with
         | Pad pad => Ok (WBodyPad (dto_to_wire_pad_burst pad))
         | Event event => event ← dto_to_wire_event_burst event; Ok (WBodyEvent event)
         end;
  Ok (mkWireSynthBurst (bu_format_version burst) (Some body) (bu_burst_id burst)).
Definition wire_to_dto_burst (burst : WireSynthBurst) : res ClientError Burst :=
  if negb (wsb_format_version burst =? BURST_FORMAT_VERSION)%N then
    Err (data_loss ("burst format_version " +:+ pretty (wsb_format_version burst) +:+ " did not match expected " +:+ pretty BURST_FORMAT_VERSION))
  else
    burst_id ← fixed_bytes BURST_ID_LEN (wsb_burst_id burst) DataLoss "Burst.burst_id";
    body ← ok_or (wsb_body burst) (data_loss "Burst.body oneof is unset");
    body ← match body with
           | WBodyPad pad => Ok (Pad (wire_to_dto_pad_burst pad))
           | WBodyEvent event => event ← wire_to_dto_event_burst event; Ok (Event event)
           end;
    Ok (mkBurst (wsb_format_version burst) burst_id body).

Definition dto_to_wire_provenanced_burst (burst : ProvenancedBurst) : res ClientError WireProvenancedBurst :=
  b ← dto_to_wire_burst (pv_burst burst);
  p ← dto_to_wire_provenance (pv_provenance burst);
  Ok (mkWireProvenancedBurst (Some b) (Some p)).
Definition wire_to_dto_provenanced_burst (burst : WireProvenancedBurst) : res ClientError ProvenancedBurst :=
  b ← ok_or (wpv_burst burst) (data_loss "ProvenancedBurst.burst is missing");
  b ← wire_to_dto_burst b;
  p ← ok_or (wpv_provenance burst) (data_loss "ProvenancedBurst.provenance is missing");
  p ← wire_to_dto_provenance p;
  Ok (mkProvenancedBurst b p).

Definition dto_to_wire_scored_burst (scored : ScoredBurst) : res ClientError WireScoredBurst :=
  b ← dto_to_wire_provenanced_burst (sb_burst scored);
  Ok (mkWireScoredBurst (Some b) (finite_get (sb_score_delta scored))).
Definition wire_to_dto_scored_burst (scored : WireScoredBurst) : res ClientError ScoredBurst :=
  b ← ok_or (wsc_burst scored) (data_loss "ScoredBurst.burst is missing");
  b ← wire_to_dto_provenanced_burst b;
  score_delta ← finite_f64_response (wsc_score_delta scored) "ScoredBurst.score_delta";
  Ok (mkScoredBurst b score_delta).

(** *** Requests and responses *)

Definition dto_to_wire_node_context (c : NodeContext) : res ClientError WireNodeContext :=
  if negb (bool_decide (SynthTypes.nc_frame_embedding c = [])) then
    Err (mkClientError InvalidRequest "node_context.frame_embedding must stay empty until Phase 8 defines f64-to-f32 policy")
  else
    recent_inputs ← opt_res dto_to_wire_burst (SynthTypes.nc_recent_inputs c);
    parent_burst ← opt_res dto_to_wire_provenanced_burst (SynthTypes.nc_parent_burst c);
    sibling_bursts ← mapM_res dto_to_wire_scored_burst (SynthTypes.nc_sibling_bursts c);
    Ok (mkWireNodeContext (node_id_to_wire (SynthTypes.nc_node_id c)) (snapshot_ref_to_wire (SynthTypes.nc_snapshot_ref c)) (SynthTypes.nc_depth c)
      (finite_get (SynthTypes.nc_node_score c)) (finite_get (SynthTypes.nc_novelty c)) (list_to_map (prod_map id finite_get <$> SynthTypes.nc_ram_features c)) []
      recent_inputs parent_burst sibling_bursts).
Definition dto_to_wire_propose_bursts_request (r : ProposeBurstsRequest) : res ClientError WireProposeBurstsRequest :=
  _ ← validate_propose_bursts_request r;
  node_context ← dto_to_wire_node_context (pq_node_context r);
  Ok (mkWireProposeBurstsRequest (pq_experiment_id r) (Some node_context) (pq_k r) (pq_length_hint r) (pq_seed r)
    (model_kind_number (dto_model_kind_to_wire (pq_model r))) (pq_config_overrides_yaml r)).

Definition wire_to_dto_degraded_generator (d : WireDegradedGenerator) : res ClientError DegradedGenerator :=
  generator ← wire_generator_kind_to_dto_required (wdg_generator d);
  Ok (mkDegradedGenerator generator (wdg_reason d)).
Definition wire_to_dto_propose_bursts_response (request : ProposeBurstsRequest) (r : WireProposeBurstsResponse) : res ClientError ProposeBurstsResponse :=
  config_fingerprint ← config_fingerprint_from_wire (wpx_config_fingerprint r);
  bursts ← mapM_res wire_to_dto_provenanced_burst (wpx_bursts r);
  degraded ← mapM_res wire_to_dto_degraded_generator (wpx_degraded r);
  let dto := mkProposeBurstsResponse bursts config_fingerprint (wpx_synth_version r) (wpx_seed r) degraded in
  _ ← validate_propose_bursts_response request dto;
  Ok dto.

Definition dto_to_wire_path_sample (sample : PathSample) : res ClientError WirePathSample :=
  expansions ← mapM_res dto_to_wire_scored_burst (ph_expansions sample);
  Ok (mkWirePathSample expansions (finite_get (ph_terminal_score sample))).
Definition dto_to_wire_mine_macros_request (r : MineMacrosRequest) : res ClientError WireMineMacrosRequest :=
  if is_blank (mq_experiment_id r) then Err (mkClientError InvalidRequest "experiment_id must not be empty")
  else
    paths ← mapM_res dto_to_wire_path_sample (mq_paths r);
    params ← dto_to_wire_mining_params (mq_params r);
    Ok (mkWireMineMacrosRequest (mq_experiment_id r) paths (Some params)).
Definition wire_to_dto_mined_macro_stats (s : WireMinedMacroStats) : res ClientError MinedMacroStats :=
  lift ← finite_f64_response (wms_lift s) "MinedMacroStats.lift";
  score ← score_response (wms_score s) "MinedMacroStats.score";
  Ok (mkMinedMacroStats (wms_name s) (wms_support s) (wms_paths s) lift score (wms_len_tokens s)).
Definition wire_to_dto_mine_macros_response (r : WireMineMacrosResponse) : res ClientError MineMacrosResponse :=
  stats ← mapM_res wire_to_dto_mined_macro_stats (wmr_stats r);
  Ok (mkMineMacrosResponse (wmr_macro_pack_yaml r) (wmr_pack_id r) stats (wmr_paths_used r) (wmr_tokens_scanned r)).
End Conversions.

(** ** Calls *)

Record GeneratedInputSynthConfig := mkGeneratedInputSynthConfig { gi_endpoint : string; gi_deadline : N; gi_retry_budget : N }.
(** The deadline in milliseconds. *)
Definition GeneratedInputSynthConfig_new (endpoint : string) : GeneratedInputSynthConfig := mkGeneratedInputSynthConfig endpoint 10000 0.
Definition with_deadline (deadline : N) (c : GeneratedInputSynthConfig) : GeneratedInputSynthConfig :=
  mkGeneratedInputSynthConfig (gi_endpoint c) deadline (gi_retry_budget c).
Definition with_retry_budget (retry_budget : N) (c : GeneratedInputSynthConfig) : GeneratedInputSynthConfig :=
  mkGeneratedInputSynthConfig (gi_endpoint c) (gi_deadline c) retry_budget.

(** One exchange of each method: a message and its deadline, the network and
    the service being [W]. *)
Class SynthTransport (W : Type) := {
  send_load_macro_pack : WireLoadMacroPackRequest -> N -> st W TonicStatus WireLoadMacroPackResponse;
  send_health : N -> st W TonicStatus WireHealthResponse;
  send_propose_bursts : WireProposeBurstsRequest -> N -> st W TonicStatus WireProposeBurstsResponse;
  send_mine_macros : WireMineMacrosRequest -> N -> st W TonicStatus WireMineMacrosResponse
}.

(** The client: the channel behind its lock, and whether a thread has panicked
    while holding that lock. *)
Record GeneratedInputSynthClient (W : Type) := mkGeneratedInputSynthClient { gc_inner : W; gc_poisoned : bool; gc_config : GeneratedInputSynthConfig }.
Arguments mkGeneratedInputSynthClient {W}.
Arguments gc_inner {W}.
Arguments gc_poisoned {W}.
Arguments gc_config {W}.

(** A call with [retries] retries left.  A panic of the exchange poisons the lock. *)
Fixpoint call_loop {W R : Type} (retries : nat) (send : N -> st W TonicStatus R) (c : GeneratedInputSynthClient W) : res ClientError R * GeneratedInputSynthClient W :=
  if gc_poisoned c then (Err (mkClientError Internal "input-synth client mutex poisoned"), c)
  else match send (gi_deadline (gc_config c)) (gc_inner c) with
  | (Ok response, w) => (Ok response, mkGeneratedInputSynthClient w false (gc_config c))
  | (Err status, w) =>
    let c := mkGeneratedInputSynthClient w false (gc_config c) in
    match is_transport_retryable status, retries with
    | true, S retries => call_loop retries send c
    | _, _ => (Err (status_to_client_error status), c)
    end
  | (Panic, w) => (Panic, mkGeneratedInputSynthClient w true (gc_config c))
  end.
Definition call_with_retries {W R : Type} (send : N -> st W TonicStatus R) : st (GeneratedInputSynthClient W) ClientError R :=
  fun c => call_loop (N.to_nat (gi_retry_budget (gc_config c))) send c.

Section Client.
Context `{SW : SynthWire} `{FD : F64Display} {W : Type} `{ST : SynthTransport W}.

Definition grpc_load_macro_pack (request : LoadMacroPackRequest) : st (GeneratedInputSynthClient W) ClientError LoadMacroPackResponse :=
  wire_request ← lift_res (dto_to_wire_load_macro_pack_request request);
  response ← call_with_retries (send_load_macro_pack wire_request);
  lift_res (wire_to_dto_load_macro_pack_response response).
Definition grpc_health : st (GeneratedInputSynthClient W) ClientError HealthResponse :=
  response ← call_with_retries send_health;
  lift_res (wire_to_dto_health_response response).
Definition grpc_propose_bursts (request : ProposeBurstsRequest) : st (GeneratedInputSynthClient W) ClientError ProposeBurstsResponse :=
  wire_request ← lift_res (dto_to_wire_propose_bursts_request request);
  response ← call_with_retries (send_propose_bursts wire_request);
  lift_res (wire_to_dto_propose_bursts_response request response).
Definition grpc_mine_macros (request : MineMacrosRequest) : st (GeneratedInputSynthClient W) ClientError MineMacrosResponse :=
  wire_request ← lift_res (dto_to_wire_mine_macros_request request);
  response ← call_with_retries (send_mine_macros wire_request);
  lift_res (wire_to_dto_mine_macros_response response).

Global Instance grpc_input_synth : InputSynth (GeneratedInputSynthClient W) := {|
  load_macro_pack := grpc_load_macro_pack;
  health := grpc_health;
  propose_bursts := grpc_propose_bursts
|}.
End Client.
