(* ===== verification/SynthGrpcWf.v ===== *)
(** Theorems on the gRPC adapter of the input synthesizer (SynthGrpc.v): round
    trips of identifiers, bursts and provenance, what an accepted response
    satisfies, and the retries of a call. *)
From stdpp Require Import pretty.
From S2P Require Import Prelude Float64 Types Client Rng Checkpoint Mirror Runner SynthTypes StoreTypes NodeAttrs SynthDriver SynthConfig Fault FakeSynth Decimal SynthGrpc.
Local Open Scope string_scope.
Local Open Scope list_scope.

(** ** Identifiers *)

Lemma node_id_roundtrip id kind : (id <= u64_max)%N -> node_id_from_wire (node_id_to_wire id) kind = Ok id.
Proof.
  intros Hid. unfold node_id_from_wire, node_id_to_wire. destruct (pretty_digits id) as [-> ->]. cbv zeta. rewrite decide_False.
  - cbn [negb]. by rewrite (proj2 (N.ltb_ge _ _)).
  - intros E. destruct (pretty_digits id) as [_ H]. rewrite E in H. cbn in H. subst id. by vm_compute in E.
Qed.

Lemma hex_digit_nibble n : (n < 16)%N -> bytes_of_string (hex_digit n) = [if (n <? 10)%N then 48 + n else 87 + n]%N /\
  hex_nibble (if (n <? 10)%N then 48 + n else 87 + n)%N = Some n.
Proof. intros Hn. by apply (below_forall 16 (fun n => bytes_of_string (hex_digit n) = [if (n <? 10)%N then 48 + n else 87 + n]%N /\ hex_nibble (if (n <? 10)%N then 48 + n else 87 + n)%N = Some n)). Qed.

Lemma nibbles_join b : (b < 256)%N -> N.lor (N.shiftl (b / 16) 4) (b mod 16) = b.
Proof. intros Hb. by apply (below_forall 256 (fun b => N.lor (N.shiftl (b / 16) 4) (b mod 16) = b)). Qed.

Lemma hex_lower_decodes bytes kind field : Forall (fun b => (b < 256)%N) bytes ->
  length (bytes_of_string (hex_lower bytes)) = (length bytes * 2)%nat /\ decode_chunks (bytes_of_string (hex_lower bytes)) kind field = Ok bytes.
Proof.
  induction 1 as [|b bytes Hb _ [IH1 IH2]]; [done|]. cbn [hex_lower foldr]. rewrite !bytes_of_string_app.
  destruct (hex_digit_nibble (b / 16)) as [-> Hh]; [apply N.Div0.div_lt_upper_bound; lia|].
  destruct (hex_digit_nibble (b mod 16)) as [-> Hl]; [by apply N.mod_lt|]. cbn [app length decode_chunks]. rewrite Hh, Hl. cbn [ok_or mbind res_bind].
  fold (hex_lower bytes). rewrite IH2. split; [cbn; lia|]. cbn. do 2 f_equal.
  by apply nibbles_join.
Qed.

(** ** Maps *)

Lemma ascii_compare_N a b : Ascii.compare a b = N.compare (Ascii.N_of_ascii a) (Ascii.N_of_ascii b).
Proof. done. Qed.

Lemma string_compare_bytes a : forall b, String.compare a b = bytes_compare (bytes_of_string a) (bytes_of_string b).
Proof.
  induction a as [|x a IH]; intros [|y b]; try done. cbn [String.compare]. rewrite ascii_compare_N, IH.
  change (bytes_of_string (String x a)) with (Ascii.N_of_ascii x :: bytes_of_string a).
  change (bytes_of_string (String y b)) with (Ascii.N_of_ascii y :: bytes_of_string b). cbn [bytes_compare]. by destruct (N.compare _ _).
Qed.

Definition key_lt {A : Type} (a b : string * A) : Prop := String.compare a.1 b.1 = Lt.
(** The entries of a [BTreeMap]. *)
Definition btree_ok {A : Type} (l : list (string * A)) : Prop := StronglySorted key_lt l.

Lemma key_lt_trans {A : Type} (a b c : string * A) : key_lt a b -> key_lt b c -> key_lt a c.
Proof. unfold key_lt. rewrite !string_compare_bytes. apply bytes_lt_trans. Qed.

Lemma key_lt_le {A : Type} (a b : string * A) : key_lt a b -> key_le a b.
Proof. unfold key_lt, key_le, string_le, String.leb. by intros ->. Qed.

Lemma key_le_cases {A : Type} (a b : string * A) : key_le a b -> key_lt a b \/ a.1 = b.1.
Proof.
  unfold key_lt, key_le, string_le, String.leb. destruct (String.compare a.1 b.1) eqn:E; [|by left|done]. right. by apply String.compare_eq_iff.
Qed.

#[local] Instance key_le_trans {A : Type} : Transitive (key_le (A := A)).
Proof.
  intros a b c H1 H2. destruct (key_le_cases _ _ H1) as [L1|E1]; [|unfold key_le in *; by rewrite E1].
  destruct (key_le_cases _ _ H2) as [L2|E2]; [by eapply key_lt_le, key_lt_trans|]. unfold key_le in *. by rewrite <- E2.
Qed.
#[local] Instance key_le_total {A : Type} : Total (key_le (A := A)).
Proof. intros a b. apply String.leb_total. Qed.

Lemma key_lt_neq {A : Type} (a b : string * A) : key_lt a b -> a.1 <> b.1.
Proof. unfold key_lt. intros H E. rewrite E, string_compare_bytes, (proj2 (bytes_compare_eq _ _) eq_refl) in H. done. Qed.

Lemma btree_ok_keys {A : Type} (l : list (string * A)) : btree_ok l -> NoDup l.*1.
Proof.
  induction 1 as [|a l Hs IH Hall]; [constructor|]. cbn. constructor; [|done]. intros (b & E & Hb)%list_elem_of_fmap.
  rewrite Forall_forall in Hall. specialize (Hall b Hb). by apply key_lt_neq in Hall.
Qed.

Lemma btree_ok_values {A B : Type} (f : A -> B) (l : list (string * A)) : btree_ok l -> btree_ok (prod_map id f <$> l).
Proof.
  induction 1 as [|a l _ IH Hall]; [constructor|]. cbn. constructor; [done|]. apply Forall_fmap. eapply Forall_impl; [exact Hall|]. by intros b.
Qed.

Lemma StronglySorted_weaken {A : Type} (R S : A -> A -> Prop) (l : list A) : (forall a b, R a b -> S a b) -> StronglySorted R l -> StronglySorted S l.
Proof. intros HRS. induction 1 as [|a l Hs IH Hall]; constructor; [done|]. by eapply Forall_impl; [done|]; auto. Qed.

(** A map keeps the entries of a [BTreeMap], and iterates in its order. *)
Lemma in_order_list_to_map {A : Type} (l : list (string * A)) : btree_ok l -> in_order (list_to_map l : gmap string A) = l.
Proof.
  intros Hl. pose proof (btree_ok_keys l Hl) as Hnd. unfold in_order. apply (StronglySorted_unique_strong key_le).
  - intros a b Ha Hb H1 H2. assert (a.1 = b.1) as E by (by apply String.leb_antisym).
    rewrite merge_sort_Permutation in Ha. destruct a as [k x], b as [k' y]. cbn in E. subst k'. apply elem_of_map_to_list in Ha.
    apply (elem_of_list_to_map (M := gmap string)) in Hb; [|done]. congruence.
  - apply StronglySorted_merge_sort; apply _.
  - eapply StronglySorted_weaken; [|done]. apply key_lt_le.
  - rewrite merge_sort_Permutation. by apply map_to_list_to_map.
Qed.

Lemma in_order_ok {A : Type} (m : gmap string A) : btree_ok (in_order m).
Proof.
  assert (StronglySorted key_le (in_order m)) as Hs by (apply StronglySorted_merge_sort; apply _).
  assert (NoDup (in_order m).*1) as Hnd by (unfold in_order; rewrite merge_sort_Permutation; apply NoDup_fst_map_to_list).
  induction Hs as [|a l Hs IH Hall]; [constructor|]. cbn in Hnd. apply NoDup_cons in Hnd as [Hnot Hnd]. constructor; [by apply IH|].
  apply Forall_forall. intros b Hb. rewrite Forall_forall in Hall. destruct (key_le_cases _ _ (Hall b Hb)) as [?|E]; [done|].
  exfalso. apply Hnot. rewrite E. by apply list_elem_of_fmap_2.
Qed.

(** ** Conversions *)

Lemma finite_new_get x : FiniteF64_new (finite_get x) = Ok x.
Proof.
  destruct x as [v Hv]. cbn. unfold FiniteF64_new. assert (is_finite v = true) as -> by (unfold f64_normalized in Hv; destruct v as [[]| | |]; by rewrite ?andb_false_r in Hv).
  cbn [negb]. replace (if f64_eqb v f64_zero then f64_zero else v) with v.
  - destruct (decide _) as [H|H]; [|done]. f_equal. by apply FiniteF64_ext.
  - unfold f64_normalized in Hv. destruct v as [[]| | |[] m e]; rewrite ?andb_false_r in Hv; done.
Qed.

Lemma mapM_res_back {E F A B : Type} (f : A -> res E B) (g : B -> res F A) (xs : list A) : forall ys,
  (forall x y, x ∈ xs -> f x = Ok y -> g y = Ok x) -> mapM_res f xs = Ok ys -> mapM_res g ys = Ok xs.
Proof.
  intros ys H Hxs%mapM_res_Ok. apply mapM_res_Ok. apply Forall2_flip. revert H. induction Hxs as [|x y xs ys Hx _ IH]; intros H; constructor.
  - apply H; [by left|done].
  - apply IH. intros x' y' Hin. apply H. by right.
Qed.

Definition macro_ok (m : MacroProvenance) : Prop := btree_ok (mp_param_bindings m).
Definition mutation_ok (m : MutationProvenance) : Prop := Forall (fun op => btree_ok (mo_args op)) (mu_ops m).
(** What the types of a burst and its provenance say in the source: arrays have
    their length and maps are ordered by key. *)
Record provenance_ok (p : Provenance) : Prop := {
  po_fingerprint : length (pr_config_fingerprint p) = 32%nat;
  po_macro : forall m, pr_macro_provenance p = Some m -> macro_ok m;
  po_mutation : forall m, pr_mutation_provenance p = Some m -> mutation_ok m
}.

Section Conversions.
Context `{SW : SynthWire} `{SL : !SynthWireLaws SW} `{FD : F64Display}.

(** And its version is the one of the wire. *)
Record burst_ok (b : ProvenancedBurst) : Prop := {
  bo_version : bu_format_version (pv_burst b) = BURST_FORMAT_VERSION;
  bo_id : length (bu_burst_id (pv_burst b)) = BURST_ID_LEN;
  bo_provenance : provenance_ok (pv_provenance b)
}.

Lemma finite_response_get x field : finite_f64_response (finite_get x) field = Ok x.
Proof. unfold finite_f64_response. by rewrite finite_new_get. Qed.

Lemma fixed_bytes_Ok n bytes kind field : length bytes = n -> fixed_bytes n bytes kind field = Ok bytes.
Proof. intros H. unfold fixed_bytes. by rewrite decide_True. Qed.

Lemma fixed_bytes_inv n bytes kind field out : fixed_bytes n bytes kind field = Ok out -> out = bytes /\ length bytes = n.
Proof. unfold fixed_bytes. case_decide; [|done]. by intros [= <-]. Qed.

Lemma mutation_ids_kind base donor k1 k2 : validate_mutation_ids base donor k1 = Ok tt -> validate_mutation_ids base donor k2 = Ok tt.
Proof.
  unfold validate_mutation_ids. intros (b & [_ Hb]%fixed_bytes_inv & H)%bind_Ok. rewrite (fixed_bytes_Ok _ _ _ _ Hb). cbn.
  case_decide; [done|]. apply bind_Ok in H as (d & [_ Hd]%fixed_bytes_inv & _). by rewrite (fixed_bytes_Ok _ _ _ _ Hd).
Qed.

Lemma payloads_kind p k1 k2 : validate_provenance_payloads p k1 = Ok tt -> validate_provenance_payloads p k2 = Ok tt.
Proof. unfold validate_provenance_payloads. cbv zeta. by repeat case_match. Qed.

Lemma event_burst_back e w : dto_to_wire_event_burst e = Ok w -> wire_to_dto_event_burst w = Ok e.
Proof.
  unfold dto_to_wire_event_burst, wire_to_dto_event_burst. intros (events & He & [= <-])%bind_Ok. cbn.
  rewrite (mapM_res_back _ _ (eb_events e) events) with (2 := He); [by destruct e|]. clear. intros ev wev _.
  unfold dto_to_wire_grammar_event, wire_to_dto_grammar_event. intros (fields & Hf & [= <-])%bind_Ok. cbn.
  rewrite (mapM_res_back _ _ (ge_fields ev) fields) with (2 := Hf); [by destruct ev|]. clear. intros f wf _ [= <-]. by destruct f as [name []].
Qed.

Lemma burst_back b w : bu_format_version b = BURST_FORMAT_VERSION -> length (bu_burst_id b) = BURST_ID_LEN -> dto_to_wire_burst b = Ok w -> wire_to_dto_burst w = Ok b.
Proof.
  intros Hv Hid. unfold dto_to_wire_burst, wire_to_dto_burst. intros (body & Hb & [= <-])%bind_Ok. cbn [wsb_format_version wsb_burst_id wsb_body].
  rewrite Hv, N.eqb_refl, fixed_bytes_Ok by done. cbn [negb mbind res_bind ok_or]. destruct b as [v id [pad|event]]; cbn in *; subst v.
  - injection Hb as <-. cbn. destruct pad as [segments alphabet]. unfold wire_to_dto_pad_burst, dto_to_wire_pad_burst. cbn. rewrite <- list_fmap_compose.
    do 4 f_equal. rewrite <- (list_fmap_id segments) at 2. apply list_fmap_ext. by intros ? [] ?.
  - apply bind_Ok in Hb as (we & He & [= <-]). by rewrite (event_burst_back _ _ He).
Qed.
Lemma generator_required g : wire_generator_kind_to_dto_required (generator_number (dto_generator_kind_to_wire g)) = Ok g.
Proof. unfold wire_generator_kind_to_dto_required. rewrite generator_of_number. by destruct g. Qed.

Lemma generator_optional o : wire_generator_kind_to_dto_optional (generator_number (default WGenUnspecified (dto_generator_kind_to_wire <$> o))) = Ok o.
Proof. unfold wire_generator_kind_to_dto_optional. rewrite generator_of_number. by destruct o as [[]|]. Qed.

Lemma macro_back m : macro_ok m -> wire_to_dto_macro_provenance (dto_to_wire_macro_provenance m) = m.
Proof. intros Hm. unfold wire_to_dto_macro_provenance. cbn. rewrite in_order_list_to_map by done. by destruct m. Qed.

Lemma mutation_back m w : mutation_ok m -> dto_to_wire_mutation_provenance m = Ok w -> wire_to_dto_mutation_provenance w = Ok m.
Proof.
  intros Hm. unfold dto_to_wire_mutation_provenance, wire_to_dto_mutation_provenance. intros ([] & Hids & [= <-])%bind_Ok. cbn.
  rewrite (mutation_ids_kind _ _ _ _ Hids). cbn. do 2 f_equal. destruct m as [base donor sibling ops clamp]. cbn in *. f_equal. rewrite <- list_fmap_compose.
  rewrite <- (list_fmap_id ops) at 2. apply list_fmap_ext. intros i op Hop. unfold mutation_ok in Hm. cbn in Hm. rewrite Forall_lookup in Hm. specialize (Hm i op Hop).
  unfold wire_to_dto_mutation_op, dto_to_wire_mutation_op. cbn. rewrite in_order_list_to_map by done. by destruct op.
Qed.

Lemma provenance_back p w : provenance_ok p -> dto_to_wire_provenance p = Ok w -> wire_to_dto_provenance w = Ok p.
Proof.
  intros [Hf Hma Hmu]. unfold dto_to_wire_provenance. intros ([] & Hv & (mutation & Hm & [= <-])%bind_Ok)%bind_Ok. unfold wire_to_dto_provenance. cbn.
  rewrite generator_required. cbn. unfold config_fingerprint_from_wire. rewrite fixed_bytes_Ok by done. cbn. rewrite generator_optional. cbn.
  assert (opt_res wire_to_dto_mutation_provenance mutation = Ok (pr_mutation_provenance p)) as ->.
  { destruct (pr_mutation_provenance p) as [m|]; cbn in Hm; [|by injection Hm as <-]. apply bind_Ok in Hm as (wm & Hm & [= <-]). cbn.
    by rewrite (mutation_back m wm (Hmu m eq_refl) Hm). }
  cbn. assert (opt_res wire_to_dto_policy_provenance (dto_to_wire_policy_provenance <$> pr_policy_provenance p) = Ok (pr_policy_provenance p)) as ->.
  { destruct (pr_policy_provenance p) as [[]|]; [|done]. cbn. unfold wire_to_dto_policy_provenance. cbn. by rewrite finite_response_get. }
  cbn. assert (wire_to_dto_macro_provenance <$> (dto_to_wire_macro_provenance <$> pr_macro_provenance p) = pr_macro_provenance p) as ->.
  { destruct (pr_macro_provenance p) as [m|]; [|done]. cbn. by rewrite (macro_back m (Hma m eq_refl)). }
  destruct p. cbn in *. by rewrite (payloads_kind _ _ _ Hv).
Qed.

Lemma provenanced_back b w : burst_ok b -> dto_to_wire_provenanced_burst b = Ok w -> wire_to_dto_provenanced_burst w = Ok b.
Proof.
  intros [Hv Hid Hp]. unfold dto_to_wire_provenanced_burst, wire_to_dto_provenanced_burst. intros (wb & Hb & (wp & Hwp & [= <-])%bind_Ok)%bind_Ok. cbn.
  rewrite (burst_back _ _ Hv Hid Hb). cbn. rewrite (provenance_back _ _ Hp Hwp). by destruct b.
Qed.

(** *** What the wire lets in *)

Lemma burst_received w b : wire_to_dto_burst w = Ok b -> bu_format_version b = BURST_FORMAT_VERSION /\ length (bu_burst_id b) = BURST_ID_LEN.
Proof.
  unfold wire_to_dto_burst. destruct (N.eqb_spec (wsb_format_version w) BURST_FORMAT_VERSION) as [E|]; [|done]. cbn [negb].
  intros (id & [-> Hid]%fixed_bytes_inv & (body & _ & (body' & _ & [= <-])%bind_Ok)%bind_Ok)%bind_Ok. done.
Qed.

Lemma dto_to_wire_burst_total b : exists w, dto_to_wire_burst b = Ok w.
Proof.
  unfold dto_to_wire_burst. destruct (bu_body b) as [pad|event]; [by eexists|]. unfold dto_to_wire_event_burst.
  destruct (mapM_res_total dto_to_wire_grammar_event (eb_events event)) as [events ->]; [|by eexists]. intros ev _. unfold dto_to_wire_grammar_event.
  destruct (mapM_res_total dto_to_wire_grammar_field (ge_fields ev)) as [fields ->]; [|by eexists]. intros f _. by eexists.
Qed.

Lemma mutation_received w m : wire_to_dto_mutation_provenance w = Ok m -> mutation_ok m /\ exists w', dto_to_wire_mutation_provenance m = Ok w'.
Proof.
  unfold wire_to_dto_mutation_provenance. intros ([] & Hids & [= <-])%bind_Ok. split.
  - unfold mutation_ok. cbn. apply Forall_fmap, Forall_true. intros op. apply in_order_ok.
  - unfold dto_to_wire_mutation_provenance. cbn. rewrite (mutation_ids_kind _ _ _ _ Hids). by eexists.
Qed.

Lemma provenance_received w p : wire_to_dto_provenance w = Ok p -> provenance_ok p /\ (exists w', dto_to_wire_provenance p = Ok w') /\ validate_provenance_payloads p DataLoss = Ok tt.
Proof.
  unfold wire_to_dto_provenance.
  intros (g & _ & (f & [-> Hf]%fixed_bytes_inv & (fb & _ & (mu & Hmu & (po & _ & ([] & Hv & [= <-])%bind_Ok)%bind_Ok)%bind_Ok)%bind_Ok)%bind_Ok)%bind_Ok.
  assert (forall m, mu = Some m -> mutation_ok m /\ exists w', dto_to_wire_mutation_provenance m = Ok w') as Hm.
  { intros m ->. destruct (wpr_mutation w) as [wm|]; [|done]. cbn in Hmu. apply bind_Ok in Hmu as (m' & Hm & [= <-]). by eapply mutation_received. }
  split_and!; [split; cbn; [done| |intros m Hin; by apply Hm]| |done].
  - intros m. destruct (wpr_macro w); [|done]. cbn. intros [= <-]. apply in_order_ok.
  - unfold dto_to_wire_provenance. rewrite (payloads_kind _ _ _ Hv). cbn. destruct mu as [m|]; [|by eexists]. destruct (Hm m eq_refl) as (_ & wm & Hwm). cbn. rewrite Hwm. by eexists.
Qed.

(** The adapter takes a burst from the wire only when it can put it there again. *)
Lemma provenanced_received w b : wire_to_dto_provenanced_burst w = Ok b -> burst_ok b /\ exists w', dto_to_wire_provenanced_burst b = Ok w'.
Proof.
  unfold wire_to_dto_provenanced_burst. intros (wb & _ & (bu & [Hv Hid]%burst_received & (wp & _ & (p & (Hp & [wp' Hwp] & _)%provenance_received & [= <-])%bind_Ok)%bind_Ok)%bind_Ok)%bind_Ok.
  split; [by split|]. unfold dto_to_wire_provenanced_burst. cbn. destruct (dto_to_wire_burst_total bu) as [wb' ->]. cbn. rewrite Hwp. by eexists.
Qed.

(** C35. A proposal accepted from the wire echoes the request, its bursts are of
    the wire's version with identifiers of 32 bytes and exactly the payload of
    their generator, and every one of them can be sent back later as the
    context of another proposal, where it reads as the same burst. *)
Theorem accepted_proposal_sound request w response : wire_to_dto_propose_bursts_response request w = Ok response ->
  response_ok request response /\
  Forall (fun b => burst_ok b /\ validate_provenance_payloads (pv_provenance b) DataLoss = Ok tt /\
    exists wb, dto_to_wire_provenanced_burst b = Ok wb /\ wire_to_dto_provenanced_burst wb = Ok b) (ps_bursts response).
Proof.
  unfold wire_to_dto_propose_bursts_response. intros (f & _ & (bursts & Hb & (degraded & _ & ([] & Hv & [= <-])%bind_Ok)%bind_Ok)%bind_Ok)%bind_Ok.
  split; [by apply validate_response_Ok|]. cbn. apply mapM_res_Ok in Hb. apply Forall_forall. intros b Hin.
  apply list_elem_of_lookup in Hin as [i Hi]. destruct (Forall2_lookup_r _ _ _ _ _ Hb Hi) as (wb & _ & Hwb).
  destruct (provenanced_received _ _ Hwb) as (Hok & wb' & Hsend). split_and!; [done| |by exists wb'; split; [|apply provenanced_back]].
  unfold wire_to_dto_provenanced_burst in Hwb. apply bind_Ok in Hwb as (? & _ & (? & _ & (? & _ & (p & (_ & _ & Hp)%provenance_received & [= <-])%bind_Ok)%bind_Ok)%bind_Ok). done.
Qed.

(** A context as the types of the source make it (numbers within their width,
    digests of their length, the features a [BTreeMap]), with bursts of the
    wire's version. *)
Record context_ok (c : NodeContext) : Prop := {
  co_node_id : (SynthTypes.nc_node_id c <= u64_max)%N;
  co_snapshot_len : length (SynthTypes.nc_snapshot_ref c) = DIGEST_LEN;
  co_snapshot : Forall (fun b => (b < 256)%N) (SynthTypes.nc_snapshot_ref c);
  co_recent : forall b, SynthTypes.nc_recent_inputs c = Some b -> bu_format_version b = BURST_FORMAT_VERSION /\ length (bu_burst_id b) = BURST_ID_LEN;
  co_parent : forall b, SynthTypes.nc_parent_burst c = Some b -> burst_ok b;
  co_siblings : forall b, b ∈ SynthTypes.nc_sibling_bursts c -> burst_ok (sb_burst b);
  co_features : btree_ok (SynthTypes.nc_ram_features c)
}.

Lemma opt_res_back {E F A B : Type} (f : A -> res E B) (g : B -> res F A) o w : (forall a b, o = Some a -> f a = Ok b -> g b = Ok a) -> opt_res f o = Ok w -> opt_res g w = Ok o.
Proof.
  intros H. destruct o as [a|]; cbn; [|by intros [= <-]]. intros (b & Hb & [= <-])%bind_Ok. cbn. by rewrite (H a b eq_refl Hb).
Qed.

Lemma snapshot_ref_roundtrip r kind : length r = DIGEST_LEN -> Forall (fun b => (b < 256)%N) r -> snapshot_ref_from_wire (snapshot_ref_to_wire r) kind = Ok r.
Proof.
  intros Hl Hb. unfold snapshot_ref_from_wire, decode_fixed_hex, snapshot_ref_to_wire. cbv zeta.
  destruct (hex_lower_decodes r kind "snapshot_ref" Hb) as [E ->]. by rewrite E, Hl, decide_True.
Qed.

(** A scored burst survives the wire: pads and events, provenance payloads,
    maps and floats. *)
Lemma scored_back s w : burst_ok (sb_burst s) -> dto_to_wire_scored_burst s = Ok w -> wire_to_dto_scored_burst w = Ok s.
Proof.
  intros Hs. unfold dto_to_wire_scored_burst, wire_to_dto_scored_burst. intros (wb & Hb & [= <-])%bind_Ok. cbn.
  rewrite (provenanced_back _ _ Hs Hb). cbn. rewrite finite_response_get. by destruct s.
Qed.

(** C34. A context whose bursts are of the wire's version is sent without loss
    (the message has no place for parent id, state hash, cell, stage and frame
    counter): from it the node's id and snapshot, its recent inputs, its parent's
    and its siblings' bursts with their provenance and score deltas read back
    as they were; depth, score, novelty and the features by name, in order, are
    the context's own, and the frame embedding is empty on both sides. *)
Theorem node_context_roundtrip c w kind : context_ok c -> dto_to_wire_node_context c = Ok w ->
  node_id_from_wire (wnc_node_id w) kind = Ok (SynthTypes.nc_node_id c) /\
  snapshot_ref_from_wire (wnc_snapshot_ref w) kind = Ok (SynthTypes.nc_snapshot_ref c) /\
  opt_res wire_to_dto_burst (wnc_recent_inputs w) = Ok (SynthTypes.nc_recent_inputs c) /\
  opt_res wire_to_dto_provenanced_burst (wnc_parent_burst w) = Ok (SynthTypes.nc_parent_burst c) /\
  mapM_res wire_to_dto_scored_burst (wnc_sibling_bursts w) = Ok (SynthTypes.nc_sibling_bursts c) /\
  wnc_depth w = SynthTypes.nc_depth c /\ wnc_node_score w = finite_get (SynthTypes.nc_node_score c) /\ wnc_novelty w = finite_get (SynthTypes.nc_novelty c) /\
  in_order (wnc_ram_features w) = prod_map id finite_get <$> SynthTypes.nc_ram_features c /\
  wnc_frame_embedding w = [] /\ SynthTypes.nc_frame_embedding c = [].
Proof.
  intros [H1 H2 H3 H4 H5 H6 H7]. unfold dto_to_wire_node_context. case_bool_decide as Hemb; [|done]. cbn [negb].
  intros (recent & Hr & (parent & Hp & (siblings & Hs & [= <-])%bind_Ok)%bind_Ok)%bind_Ok.
  split_and!; try done; cbn [wnc_node_id wnc_snapshot_ref wnc_recent_inputs wnc_parent_burst wnc_sibling_bursts wnc_ram_features].
  - by apply node_id_roundtrip.
  - by apply snapshot_ref_roundtrip.
  - eapply opt_res_back; [|done]. intros b wb E. destruct (H4 b E). by apply burst_back.
  - eapply opt_res_back; [|done]. intros b wb E. by apply provenanced_back, H5.
  - eapply mapM_res_back; [|done]. intros b wb Hin. by apply scored_back, H6.
  - by apply in_order_list_to_map, btree_ok_values.
Qed.
End Conversions.

(** ** Retries *)

(** The state after [n] exchanges that failed and may be retried. *)
Fixpoint retried {W R : Type} (n : nat) (send : N -> st W TonicStatus R) (deadline : N) (w : W) : option W :=
  match n with
  | O => Some w
  | S n => match send deadline w with (Err status, w) => if is_transport_retryable status then retried n send deadline w else None | _ => None end
  end.

Lemma call_loop_outcome {W R : Type} (send : N -> st W TonicStatus R) budget : forall c, gc_poisoned c = false ->
  exists n w, (n <= budget)%nat /\ retried n send (gi_deadline (gc_config c)) (gc_inner c) = Some w /\
    match send (gi_deadline (gc_config c)) w with
    | (Ok r, w) => call_loop budget send c = (Ok r, mkGeneratedInputSynthClient w false (gc_config c))
    | (Err status, w) => (is_transport_retryable status = false \/ n = budget) /\
        call_loop budget send c = (Err (status_to_client_error status), mkGeneratedInputSynthClient w false (gc_config c))
    | (Panic, w) => call_loop budget send c = (Panic, mkGeneratedInputSynthClient w true (gc_config c))
    end.
Proof.
  induction budget as [|budget IH]; intros c Hc; cbn [call_loop]; rewrite Hc; destruct (send (gi_deadline (gc_config c)) (gc_inner c)) as [[r|status|] w] eqn:E.
  - exists 0%nat, (gc_inner c). rewrite E. done.
  - exists 0%nat, (gc_inner c). rewrite E. split_and!; [done|done|by right|]. by destruct (is_transport_retryable status).
  - exists 0%nat, (gc_inner c). rewrite E. done.
  - exists 0%nat, (gc_inner c). rewrite E. split_and!; [lia|done|done].
  - destruct (is_transport_retryable status) eqn:Er.
    + destruct (IH (mkGeneratedInputSynthClient w false (gc_config c)) eq_refl) as (n & w' & Hn & Hr & Ho). cbn in Hr, Ho. exists (S n), w'. cbn [retried]. rewrite E, Er.
      split_and!; [lia|done|]. destruct (send _ w') as [[r|status'|] w'']; [done| |done]. destruct Ho as [[?|?] ?]; (split; [|done]); [by left|right; lia].
    + exists 0%nat, (gc_inner c). rewrite E. split_and!; [lia|done|by left|done].
  - exists 0%nat, (gc_inner c). rewrite E. split_and!; [lia|done|done].
Qed.

(** C36. A call makes at most one exchange more than its retry budget: it is
    repeated only after an unavailable service or a missed deadline, and
    answers what the last exchange answered, an exhausted budget being
    reported as an unavailable service.  Once an exchange has panicked the
    client refuses every call. *)
Theorem call_retries {W R : Type} (send : N -> st W TonicStatus R) (c : GeneratedInputSynthClient W) :
  if gc_poisoned c then call_with_retries send c = (Err (mkClientError Internal "input-synth client mutex poisoned"), c)
  else exists n w, (n <= N.to_nat (gi_retry_budget (gc_config c)))%nat /\ retried n send (gi_deadline (gc_config c)) (gc_inner c) = Some w /\
    match send (gi_deadline (gc_config c)) w with
    | (Ok r, w) => call_with_retries send c = (Ok r, mkGeneratedInputSynthClient w false (gc_config c))
    | (Err status, w) =>
        (is_transport_retryable status = false \/
         n = N.to_nat (gi_retry_budget (gc_config c)) /\ ce_kind (status_to_client_error status) = Unavailable) /\
        call_with_retries send c = (Err (status_to_client_error status), mkGeneratedInputSynthClient w false (gc_config c))
    | (Panic, w) => call_with_retries send c = (Panic, mkGeneratedInputSynthClient w true (gc_config c))
    end.
Proof.
  unfold call_with_retries. destruct (gc_poisoned c) eqn:Hc; [by destruct (N.to_nat _); cbn; rewrite Hc|].
  destruct (call_loop_outcome send (N.to_nat (gi_retry_budget (gc_config c))) c Hc) as (n & w & Hn & Hr & Ho). exists n, w. split_and!; [done|done|].
  destruct (send _ w) as [[r|status|] w']; [done| |done]. destruct Ho as [Hcase ?]. split; [|done].
  destruct (is_transport_retryable status) eqn:Er; [|by left]. destruct Hcase as [?| ->]; [done|]. right. split; [done|].
  unfold is_transport_retryable in Er. unfold status_to_client_error. cbn. by destruct (ts_code status).
Qed.

(** ** Witnesses *)

Section Samples.
#[local] Existing Instance toy_display.

Definition sample_synth_wire : SynthWire := {|
  BURST_FORMAT_VERSION := 1%N;
  document_kind_number k := match k with WDocMacroPack => 1 | WDocExperimentConfig => 2 | WDocEventGrammar => 3 end;
  model_kind_number k := match k with WModelPad => 1 | WModelEventGrammar => 2 end;
  generator_number g := match g with WGenUnspecified => 0 | WGenWeightedRandom => 1 | WGenMacro => 2 | WGenMutation => 3 | WGenPolicy => 4 end;
  generator_of z := match z with 0 => Some WGenUnspecified | 1 => Some WGenWeightedRandom | 2 => Some WGenMacro | 3 => Some WGenMutation | 4 => Some WGenPolicy | _ => None end;
  health_of z := match z with 0 => Some WHealthUnspecified | 1 => Some WHealthServing | 2 => Some WHealthDegraded | 3 => Some WHealthNotServing | _ => None end
|}%Z.
#[local] Existing Instance sample_synth_wire.
#[local] Instance sample_synth_wire_laws : SynthWireLaws sample_synth_wire.
Proof. split. by intros []. Qed.

Definition one_half : FiniteF64 := mkFinite (f64_div f64_one (f64_of_N 2)) eq_refl.
Definition sample_burst (slot : N) : ProvenancedBurst :=
  mkProvenancedBurst (mkBurst 1 (replicate 32 slot) (Event (mkEventBurst [mkGrammarEvent "event" 10 [mkGrammarField "value" (FieldInt 7)] [1; 2; 3]%N] "grammar-a")))
    (mkProvenance GenMacro slot "slot/macro" (replicate 32 7%N) None (Some (mkMacroProvenance "pack-a" "dash" [("button", "a"); ("direction", "right")] 4 0 0)) None None).
Definition sample_context : NodeContext :=
  mkNodeContext 18446744073709551615 None (replicate 32 171%N) (replicate 32 0%N) 0 0 3 0 one_half one_half [("boss_hp", one_half)] [] None
    (Some (sample_burst 0)) [mkScoredBurst (sample_burst 1) one_half].
Definition sample_proposal : ProposeBurstsRequest := mkProposeBurstsRequest "exp" sample_context 1 10 42 ModelEventGrammar [].

Lemma sample_burst_ok slot : burst_ok (sample_burst slot).
Proof. split; [done|by apply length_replicate|]. split; [done| |done]. intros m [= <-]. unfold macro_ok, btree_ok. cbn. repeat constructor. Qed.

Lemma node_context_roundtrip_witness : exists w, dto_to_wire_node_context sample_context = Ok w /\
  wnc_node_id w = "18446744073709551615" /\ wnc_depth w = 3%N /\ in_order (wnc_ram_features w) = [("boss_hp", finite_get one_half)] /\ node_id_from_wire (wnc_node_id w) DataLoss = Ok 18446744073709551615%N /\
  mapM_res wire_to_dto_scored_burst (wnc_sibling_bursts w) = Ok [mkScoredBurst (sample_burst 1) one_half].
Proof.
  destruct (dto_to_wire_node_context sample_context) as [w|e|] eqn:E; [|by vm_compute in E..]. exists w. split; [done|].
  destruct (node_context_roundtrip sample_context w DataLoss) as (H1 & _ & _ & _ & H2 & H3 & _ & _ & H4 & _); [|done|].
  - split; [done|done| |done| | |unfold btree_ok; cbn; repeat constructor].
    + cbn. repeat (constructor; [lia|]). constructor.
    + intros b [= <-]. apply sample_burst_ok.
    + intros b ->%list_elem_of_singleton. apply sample_burst_ok.
  - split; [|by split_and!]. apply (f_equal (fun r => match r with Ok w => wnc_node_id w | _ => "" end)) in E. rewrite <- E. vm_compute. reflexivity.
Defined.

Definition sample_response : WireProposeBurstsResponse :=
  match dto_to_wire_provenanced_burst (sample_burst 0) with
  | Ok w => mkWireProposeBurstsResponse [w] (replicate 32 7%N) "v1" 42 [mkWireDegradedGenerator 4 "endpoint down"]
  | _ => mkWireProposeBurstsResponse [] [] "" 0 []
  end.

Lemma accepted_proposal_sound_witness : exists response, wire_to_dto_propose_bursts_response sample_proposal sample_response = Ok response /\
  response_ok sample_proposal response /\ length (ps_bursts response) = 1%nat.
Proof.
  destruct (wire_to_dto_propose_bursts_response sample_proposal sample_response) as [response|e|] eqn:E; [|by vm_compute in E..]. exists response. split; [done|].
  destruct (accepted_proposal_sound sample_proposal sample_response response E) as [H _]. split; [exact H|].
  apply (f_equal (fun r => match r with Ok r => length (ps_bursts r) | _ => 0%nat end)) in E. rewrite <- E. vm_compute. reflexivity.
Defined.
End Samples.
