(* ===== verification/Metrics.v ===== *)
(** The Prometheus surface (crates/orch-server/src/metrics.rs): the registry,
    the text it renders and the reader of such texts.  The number format
    [{:.9}] is a parameter. *)
From stdpp Require Import pretty.
From S2P Require Import Prelude Float64 Types Rng Client Runner SynthTypes StoreTypes SynthDriver SynthConfig Fault FakeSynth Decimal Pipeline.
Local Open Scope string_scope.
Local Open Scope list_scope.

(** ** The catalogue *)

Definition ORCH_EXPANSIONS_TOTAL : string := "orch_expansions_total".
Definition ORCH_NODES_TOTAL : string := "orch_nodes_total".
Definition ORCH_BEST_SCORE : string := "orch_best_score".
Definition ORCH_FRONTIER_SIZE : string := "orch_frontier_size".
Definition ORCH_ARCHIVE_CELLS : string := "orch_archive_cells".
Definition ORCH_ESCALATION_LEVEL : string := "orch_escalation_level".
Definition ORCH_SLOT_UTILIZATION : string := "orch_slot_utilization".
Definition ORCH_PIPELINE_QUEUE_DEPTH : string := "orch_pipeline_queue_depth".
Definition ORCH_JOBS_FAILED_TOTAL : string := "orch_jobs_failed_total".
Definition ORCH_BATCH_LATENCY_SECONDS : string := "orch_batch_latency_seconds".
Definition ORCH_OBSERVATORY_DROPPED_TOTAL : string := "orch_observatory_dropped_total".
Definition REQUIRED_METRIC_FAMILIES : list string :=
  [ORCH_EXPANSIONS_TOTAL; ORCH_NODES_TOTAL; ORCH_BEST_SCORE; ORCH_FRONTIER_SIZE; ORCH_ARCHIVE_CELLS; ORCH_ESCALATION_LEVEL; ORCH_SLOT_UTILIZATION;
   ORCH_PIPELINE_QUEUE_DEPTH; ORCH_JOBS_FAILED_TOTAL; ORCH_BATCH_LATENCY_SECONDS; ORCH_OBSERVATORY_DROPPED_TOTAL].
Definition NODE_VERDICTS : list string := ["kept"; "dup"; "regression"].
Definition QUEUE_STAGES : list string := ["submit"; "complete"].

Inductive BatchLatencyStage := StageSelect | StageExecute | StageCommit.
Global Instance BatchLatencyStage_eq_dec : EqDecision BatchLatencyStage.
Proof. solve_decision. Defined.
Global Instance BatchLatencyStage_countable : Countable BatchLatencyStage.
Proof.
  apply (inj_countable' (fun s => match s with StageSelect => 0%N | StageExecute => 1%N | StageCommit => 2%N end)
    (fun n => match n with 0%N => StageSelect | 1%N => StageExecute | _ => StageCommit end)). by intros [].
Defined.
Definition stage_as_str (s : BatchLatencyStage) : string := match s with StageSelect => "select" | StageExecute => "execute" | StageCommit => "commit" end.
Definition BATCH_LATENCY_STAGES : list BatchLatencyStage := [StageSelect; StageExecute; StageCommit].
Definition HISTOGRAM_BUCKETS : list f64 :=
  [f64_of_decimal false 1 (-3); f64_of_decimal false 1 (-2); f64_of_decimal false 1 (-1); f64_one; f64_of_N 10].

(** ** The registry *)

Record HistogramSnapshot := mkHistogramSnapshot { hs_sum_seconds : f64; hs_count : N }.
Definition HistogramSnapshot_default : HistogramSnapshot := mkHistogramSnapshot f64_zero 0.
Record MetricsSnapshot := mkMetricsSnapshot {
  mx_expansions_total : N;
  mx_nodes_kept : N;
  mx_nodes_dup : N;
  mx_nodes_regression : N;
  mx_best_score : f64;
  mx_frontier_size : N;
  mx_archive_cells : N;
  mx_escalation_level : N;
  mx_slot_utilization : f64;
  mx_pipeline_queue_depth_submit : N;
  mx_pipeline_queue_depth_complete : N;
  mx_jobs_failed_total : N;
  mx_batch_latency : gmap BatchLatencyStage HistogramSnapshot;
  mx_observatory_dropped_total : N
}.
Definition MetricsSnapshot_default : MetricsSnapshot := mkMetricsSnapshot 0 0 0 0 f64_zero 0 0 0 f64_zero 0 0 0 ∅ 0.
Record MetricsStatus := mkMetricsStatus {
  my_expansions_total : N;
  my_nodes_kept : N;
  my_nodes_dup : N;
  my_nodes_regression : N;
  my_best_score : f64;
  my_frontier_size : N;
  my_archive_cells : N;
  my_escalation_level : N;
  my_slot_utilization : f64
}.

Definition update_status (status : MetricsStatus) (s : MetricsSnapshot) : MetricsSnapshot :=
  mkMetricsSnapshot (my_expansions_total status) (my_nodes_kept status) (my_nodes_dup status) (my_nodes_regression status) (my_best_score status)
    (my_frontier_size status) (my_archive_cells status) (my_escalation_level status) (my_slot_utilization status)
    (mx_pipeline_queue_depth_submit s) (mx_pipeline_queue_depth_complete s) (mx_jobs_failed_total s) (mx_batch_latency s) (mx_observatory_dropped_total s).
(** The gauges of the pipeline: the queue depths of [g], and the totals. *)
Definition update_pipeline_gauges (g : Gauges) (jobs_failed_total batch_latency_count batch_latency_ms_sum : N) (s : MetricsSnapshot) : MetricsSnapshot :=
  mkMetricsSnapshot (mx_expansions_total s) (mx_nodes_kept s) (mx_nodes_dup s) (mx_nodes_regression s) (mx_best_score s)
    (mx_frontier_size s) (mx_archive_cells s) (mx_escalation_level s) (mx_slot_utilization s)
    (queue_depth_submit g) (queue_depth_complete g) jobs_failed_total
    (<[StageExecute := mkHistogramSnapshot (f64_div (f64_of_N batch_latency_ms_sum) (f64_of_N 1000)) batch_latency_count]> (mx_batch_latency s))
    (mx_observatory_dropped_total s).
Definition as_secs_f64 (secs nanos : N) : f64 := f64_add (f64_of_N secs) (f64_div (f64_of_N nanos) (f64_of_N 1000000000)).
Definition observe_batch_latency (stage : BatchLatencyStage) (secs nanos : N) (s : MetricsSnapshot) : MetricsSnapshot :=
  let histogram := default HistogramSnapshot_default (mx_batch_latency s !! stage) in
  mkMetricsSnapshot (mx_expansions_total s) (mx_nodes_kept s) (mx_nodes_dup s) (mx_nodes_regression s) (mx_best_score s)
    (mx_frontier_size s) (mx_archive_cells s) (mx_escalation_level s) (mx_slot_utilization s)
    (mx_pipeline_queue_depth_submit s) (mx_pipeline_queue_depth_complete s) (mx_jobs_failed_total s)
    (<[stage := mkHistogramSnapshot (f64_add (hs_sum_seconds histogram) (as_secs_f64 secs nanos)) (N.min (hs_count histogram + 1) u64_max)]> (mx_batch_latency s))
    (mx_observatory_dropped_total s).
Definition set_observatory_dropped_total (dropped_total : N) (s : MetricsSnapshot) : MetricsSnapshot :=
  mkMetricsSnapshot (mx_expansions_total s) (mx_nodes_kept s) (mx_nodes_dup s) (mx_nodes_regression s) (mx_best_score s)
    (mx_frontier_size s) (mx_archive_cells s) (mx_escalation_level s) (mx_slot_utilization s)
    (mx_pipeline_queue_depth_submit s) (mx_pipeline_queue_depth_complete s) (mx_jobs_failed_total s) (mx_batch_latency s) dropped_total.

(** ** The text *)

(** [{:.9}] of a finite [f64], and the labels [to_string] gives the buckets. *)
Class MetricFormat := { fixed9 : f64 -> string; bucket_label : f64 -> string }.
(** Digits, a point and a sign; and the shortest decimal of each bucket. *)
Class MetricFormatLaws (MF : MetricFormat) := {
  fixed9_chars : forall x, is_finite x = true -> Forall (fun b => is_digit b = true \/ b = 46%N \/ b = 45%N) (chars (fixed9 x));
  bucket_labels : bucket_label <$> HISTOGRAM_BUCKETS = ["0.001"; "0.01"; "0.1"; "1"; "10"]
}.

Definition family_header (output : text) (name help kind : string) : text :=
  output ++ chars "# HELP " ++ chars name ++ [32%N] ++ chars help ++ [10%N] ++ chars "# TYPE " ++ chars name ++ [32%N] ++ chars kind ++ [10%N].

Fixpoint render_labels (first : bool) (labels : list (string * string)) : text :=
  match labels with
  | [] => []
  | (key, value) :: rest => (if first then [] else [44%N]) ++ chars key ++ [61; 34]%N ++ chars value ++ [34%N] ++ render_labels false rest
  end.
Definition sample_name (output : text) (name : string) (labels : list (string * string)) (value : string) : text :=
  output ++ chars name ++ (match labels with [] => [] | _ => [123%N] ++ render_labels true labels ++ [125%N] end) ++ [32%N] ++ chars value ++ [10%N].
Definition sample := sample_name.

Definition u64_value (n : N) : string := pretty n.

Section Render.
Context `{MF : MetricFormat}.

Definition f64_value (x : f64) : string := if is_finite x then fixed9 x else "0".

Definition gauge (output : text) (name help value kind : string) : text := sample (family_header output name help kind) name [] value.

Definition render_stage (snapshot : MetricsSnapshot) (output : text) (stage : BatchLatencyStage) : text :=
  let histogram := default HistogramSnapshot_default (mx_batch_latency snapshot !! stage) in
  let output := foldl (fun output bucket =>
    sample_name output (ORCH_BATCH_LATENCY_SECONDS +:+ "_bucket") [("stage", stage_as_str stage); ("le", bucket_label bucket)] (u64_value 0)) output HISTOGRAM_BUCKETS in
  let output := sample_name output (ORCH_BATCH_LATENCY_SECONDS +:+ "_bucket") [("stage", stage_as_str stage); ("le", "+Inf")] (u64_value (hs_count histogram)) in
  let output := sample_name output (ORCH_BATCH_LATENCY_SECONDS +:+ "_sum") [("stage", stage_as_str stage)] (f64_value (hs_sum_seconds histogram)) in
  sample_name output (ORCH_BATCH_LATENCY_SECONDS +:+ "_count") [("stage", stage_as_str stage)] (u64_value (hs_count histogram)).
Definition render_histograms (output : text) (snapshot : MetricsSnapshot) : text :=
  foldl (render_stage snapshot) (family_header output ORCH_BATCH_LATENCY_SECONDS "Batch latency by pipeline stage." "histogram") BATCH_LATENCY_STAGES.

Definition render_prometheus (s : MetricsSnapshot) : text :=
  let output := [] in
  let output := gauge output ORCH_EXPANSIONS_TOTAL "Total completed expansions." (u64_value (mx_expansions_total s)) "counter" in
  let output := family_header output ORCH_NODES_TOTAL "Committed or discarded nodes by verdict." "counter" in
  let output := sample output ORCH_NODES_TOTAL [("verdict", "kept")] (u64_value (mx_nodes_kept s)) in
  let output := sample output ORCH_NODES_TOTAL [("verdict", "dup")] (u64_value (mx_nodes_dup s)) in
  let output := sample output ORCH_NODES_TOTAL [("verdict", "regression")] (u64_value (mx_nodes_regression s)) in
  let output := gauge output ORCH_BEST_SCORE "Best progress score observed." (f64_value (mx_best_score s)) "gauge" in
  let output := gauge output ORCH_FRONTIER_SIZE "Current frontier size." (u64_value (mx_frontier_size s)) "gauge" in
  let output := gauge output ORCH_ARCHIVE_CELLS "Current scorer archive cell count." (u64_value (mx_archive_cells s)) "gauge" in
  let output := gauge output ORCH_ESCALATION_LEVEL "Current plateau escalation level." (u64_value (mx_escalation_level s)) "gauge" in
  let output := gauge output ORCH_SLOT_UTILIZATION "Busy-slot utilization fraction." (f64_value (mx_slot_utilization s)) "gauge" in
  let output := family_header output ORCH_PIPELINE_QUEUE_DEPTH "Current pipeline queue depth by stage." "gauge" in
  let output := sample output ORCH_PIPELINE_QUEUE_DEPTH [("stage", "submit")] (u64_value (mx_pipeline_queue_depth_submit s)) in
  let output := sample output ORCH_PIPELINE_QUEUE_DEPTH [("stage", "complete")] (u64_value (mx_pipeline_queue_depth_complete s)) in
  let output := gauge output ORCH_JOBS_FAILED_TOTAL "Jobs abandoned after retry exhaustion." (u64_value (mx_jobs_failed_total s)) "counter" in
  let output := render_histograms output s in
  gauge output ORCH_OBSERVATORY_DROPPED_TOTAL "Observatory events dropped by the local emitter ring." (u64_value (mx_observatory_dropped_total s)) "counter".
End Render.

(** ** Reading it *)

Fixpoint split_once (c : N) (t : text) : option (text * text) :=
  match t with
  | [] => None
  | b :: rest => if (b =? c)%N then Some ([], rest) else (fun '(x, y) => (b :: x, y)) <$> split_once c rest
  end.
Definition normalize_family (name : text) : text :=
  match strip_suffix (chars "_bucket") name with
  | Some n => n
  | None => match strip_suffix (chars "_sum") name with Some n => n | None => default name (strip_suffix (chars "_count") name) end
  end.
Definition parse_label (pair : text) : option (text * text) := (fun '(key, value) => (key, trim_matches 34 value)) <$> split_once 61 pair.
Definition parse_series (series : text) : text * gmap text text :=
  match split_once 123 series with
  | Some (name, rest) => (name, list_to_map (reverse (omap parse_label (split_on 44 (default rest (strip_suffix [125%N] rest))))))
  | None => (series, ∅)
  end.
Definition parse_line (parsed : gmap text (gset (gmap text text))) (line : text) : gmap text (gset (gmap text text)) :=
  if bool_decide (line = []) || starts_with [35%N] line then parsed
  else match split_once 32 line with
  | None => parsed
  | Some (series, _) =>
    let '(raw_name, labels) := parse_series series in
    let family := normalize_family raw_name in
    <[family := {[labels]} ∪ default ∅ (parsed !! family)]> parsed
  end.
Definition parse_samples (t : text) : gmap text (gset (gmap text text)) := foldl parse_line ∅ (lines t).
Definition rendered_families (t : text) : gset text := dom (parse_samples t).
Definition rendered_label_values (t family label : text) : gset text :=
  list_to_set (omap (fun labels : gmap text text => labels !! label) (elements (default ∅ (parse_samples t !! family)))).

(** ** Lines *)

Definition flat (ls : list text) : text := concat ((fun l => l ++ [10%N]) <$> ls).

Lemma flat_app a b : flat (a ++ b) = flat a ++ flat b.
Proof. unfold flat. by rewrite fmap_app, concat_app. Qed.

(** A line as the renderer writes them. *)
Definition clean (l : text) : Prop := (10%N ∉ l) /\ strip_suffix [13%N] l = None.

Lemma split_on_line c l rest : c ∉ l -> split_on c (l ++ c :: rest) = l :: split_on c rest.
Proof.
  induction l as [|b l IH]; cbn; [by rewrite N.eqb_refl|]. intros [Hb Hl]%not_elem_of_cons. rewrite IH by done.
  destruct (N.eqb_spec b c); [by subst|done].
Qed.

Lemma split_on_nonempty c t : split_on c t <> [].
Proof. destruct t as [|b t]; [done|]. cbn. destruct (b =? c)%N; [done|]. by destruct (split_on c t). Qed.

Lemma lines_flat ls : Forall clean ls -> lines (flat ls) = ls.
Proof.
  unfold lines. induction 1 as [|l ls [Hl Hcr] _ IH]; [done|]. change (flat (l :: ls)) with ((l ++ [10%N]) ++ flat ls).
  rewrite <- app_assoc. change ([10%N] ++ flat ls) with (10%N :: flat ls). rewrite split_on_line by done.
  destruct (split_on 10 (flat ls)) as [|p ps] eqn:E; [by apply split_on_nonempty in E|]. change (lines_of (l :: p :: ps)) with (strip_cr l :: lines_of (p :: ps)).
  rewrite IH. unfold strip_cr. by rewrite Hcr.
Qed.

(** A line ends in a carriage return only if its last byte is one. *)
Lemma no_cr l b : b <> 13%N -> strip_suffix [13%N] (l ++ [b]) = None.
Proof.
  intros Hb. unfold strip_suffix. rewrite reverse_snoc.
  change (strip_prefix (reverse [13%N]) (b :: reverse l)) with (if (13 =? b)%N then Some (reverse l) else None). destruct (N.eqb_spec 13 b); [by subst|done].
Qed.

Definition value_chars (t : text) : Prop := Forall (fun b => is_digit b = true \/ b = 46%N \/ b = 45%N) t.

Lemma value_byte b : is_digit b = true \/ b = 46%N \/ b = 45%N -> b <> 10%N /\ b <> 13%N.
Proof. intros [H|[->| ->]]; [|done|done]. unfold is_digit, between in H. apply andb_true_iff in H as [H1%N.leb_le H2%N.leb_le]. lia. Qed.

Lemma clean_sample series v : 10%N ∉ series -> value_chars v -> clean (series ++ 32%N :: v).
Proof.
  intros Hs Hv. split.
  - intros [?|[?|Hin]%elem_of_cons]%elem_of_app; [done|done|]. unfold value_chars in Hv. rewrite Forall_forall in Hv. destruct (value_byte 10%N (Hv _ Hin)). done.
  - destruct v as [|b v _] using rev_ind; [by apply no_cr|]. apply Forall_app in Hv as [_ [Hb _]%Forall_cons].
    replace (series ++ 32%N :: v ++ [b]) with ((series ++ 32%N :: v) ++ [b]) by (by rewrite <- app_assoc). apply no_cr. by destruct (value_byte b Hb).
Qed.

Lemma split_once_first c x y : c ∉ x -> split_once c (x ++ c :: y) = Some (x, y).
Proof.
  induction x as [|b x IH]; cbn; [by rewrite N.eqb_refl|]. intros [Hb Hx]%not_elem_of_cons. rewrite IH by done. destruct (N.eqb_spec b c); [by subst|done].
Qed.

(** ** The rendered lines *)

Definition series (name : string) (labels : list (string * string)) : text :=
  chars name ++ match labels with [] => [] | _ => [123%N] ++ render_labels true labels ++ [125%N] end.
Definition help_line (name help : string) : text := chars "# HELP " ++ chars name ++ [32%N] ++ chars help.
Definition type_line (name kind : string) : text := chars "# TYPE " ++ chars name ++ [32%N] ++ chars kind.

(** A line of the text: a comment, or a series with its value. *)
Inductive Line := Comment (t : text) | Series (series : text) (value : string).
Definition line_text (l : Line) : text := match l with Comment t => t | Series s v => s ++ 32%N :: chars v end.
Definition line_series (l : Line) : option text := match l with Comment _ => None | Series s _ => Some s end.

Lemma header_lines output name help kind :
  family_header output name help kind = output ++ flat (line_text <$> [Comment (help_line name help); Comment (type_line name kind)]).
Proof. unfold family_header, flat, help_line, type_line. cbn. by rewrite ?app_nil_r, <- ?app_assoc. Qed.

Lemma sample_lines output name labels value :
  sample_name output name labels value = output ++ flat (line_text <$> [Series (series name labels) value]).
Proof. unfold sample_name, flat, series. cbn. rewrite ?app_nil_r, <- ?app_assoc. by destruct labels. Qed.

Section Catalogue.
Context `{MF : MetricFormat} `{ML : !MetricFormatLaws MF}.

Definition gauge_lines (name help value kind : string) : list Line := [Comment (help_line name help); Comment (type_line name kind); Series (series name []) value].

Lemma gauge_as_lines output name help value kind : gauge output name help value kind = output ++ flat (line_text <$> gauge_lines name help value kind).
Proof. unfold gauge, sample. rewrite sample_lines, header_lines, <- app_assoc, <- flat_app. done. Qed.

Definition stage_lines (s : MetricsSnapshot) (stage : BatchLatencyStage) : list Line :=
  let histogram := default HistogramSnapshot_default (mx_batch_latency s !! stage) in
  ((fun bucket => Series (series (ORCH_BATCH_LATENCY_SECONDS +:+ "_bucket") [("stage", stage_as_str stage); ("le", bucket)]) (u64_value 0)) <$> ["0.001"; "0.01"; "0.1"; "1"; "10"]) ++
  [Series (series (ORCH_BATCH_LATENCY_SECONDS +:+ "_bucket") [("stage", stage_as_str stage); ("le", "+Inf")]) (u64_value (hs_count histogram));
   Series (series (ORCH_BATCH_LATENCY_SECONDS +:+ "_sum") [("stage", stage_as_str stage)]) (f64_value (hs_sum_seconds histogram));
   Series (series (ORCH_BATCH_LATENCY_SECONDS +:+ "_count") [("stage", stage_as_str stage)]) (u64_value (hs_count histogram))].

Lemma stage_as_lines s output stage : render_stage s output stage = output ++ flat (line_text <$> stage_lines s stage).
Proof.
  unfold render_stage. cbv zeta. rewrite !sample_lines, <- !app_assoc, <- !flat_app.
  assert (forall bs output, foldl (fun output bucket => sample_name output (ORCH_BATCH_LATENCY_SECONDS +:+ "_bucket") [("stage", stage_as_str stage); ("le", bucket_label bucket)] (u64_value 0))
    output bs = output ++ flat (line_text <$> ((fun bucket => Series (series (ORCH_BATCH_LATENCY_SECONDS +:+ "_bucket") [("stage", stage_as_str stage); ("le", bucket)]) (u64_value 0)) <$> (bucket_label <$> bs)))) as Hbs.
  { induction bs as [|b bs IH]; intros out; [by rewrite app_nil_r|]. cbn [foldl]. rewrite IH, sample_lines, <- app_assoc, <- flat_app. done. }
  rewrite Hbs, bucket_labels, <- app_assoc, <- flat_app. done.
Qed.

Definition all_lines (s : MetricsSnapshot) : list Line :=
  gauge_lines ORCH_EXPANSIONS_TOTAL "Total completed expansions." (u64_value (mx_expansions_total s)) "counter" ++
  [Comment (help_line ORCH_NODES_TOTAL "Committed or discarded nodes by verdict."); Comment (type_line ORCH_NODES_TOTAL "counter");
   Series (series ORCH_NODES_TOTAL [("verdict", "kept")]) (u64_value (mx_nodes_kept s));
   Series (series ORCH_NODES_TOTAL [("verdict", "dup")]) (u64_value (mx_nodes_dup s));
   Series (series ORCH_NODES_TOTAL [("verdict", "regression")]) (u64_value (mx_nodes_regression s))] ++
  gauge_lines ORCH_BEST_SCORE "Best progress score observed." (f64_value (mx_best_score s)) "gauge" ++
  gauge_lines ORCH_FRONTIER_SIZE "Current frontier size." (u64_value (mx_frontier_size s)) "gauge" ++
  gauge_lines ORCH_ARCHIVE_CELLS "Current scorer archive cell count." (u64_value (mx_archive_cells s)) "gauge" ++
  gauge_lines ORCH_ESCALATION_LEVEL "Current plateau escalation level." (u64_value (mx_escalation_level s)) "gauge" ++
  gauge_lines ORCH_SLOT_UTILIZATION "Busy-slot utilization fraction." (f64_value (mx_slot_utilization s)) "gauge" ++
  [Comment (help_line ORCH_PIPELINE_QUEUE_DEPTH "Current pipeline queue depth by stage."); Comment (type_line ORCH_PIPELINE_QUEUE_DEPTH "gauge");
   Series (series ORCH_PIPELINE_QUEUE_DEPTH [("stage", "submit")]) (u64_value (mx_pipeline_queue_depth_submit s));
   Series (series ORCH_PIPELINE_QUEUE_DEPTH [("stage", "complete")]) (u64_value (mx_pipeline_queue_depth_complete s))] ++
  gauge_lines ORCH_JOBS_FAILED_TOTAL "Jobs abandoned after retry exhaustion." (u64_value (mx_jobs_failed_total s)) "counter" ++
  [Comment (help_line ORCH_BATCH_LATENCY_SECONDS "Batch latency by pipeline stage."); Comment (type_line ORCH_BATCH_LATENCY_SECONDS "histogram")] ++
  stage_lines s StageSelect ++ stage_lines s StageExecute ++ stage_lines s StageCommit ++
  gauge_lines ORCH_OBSERVATORY_DROPPED_TOTAL "Observatory events dropped by the local emitter ring." (u64_value (mx_observatory_dropped_total s)) "counter".

Lemma render_as_lines s : render_prometheus s = flat (line_text <$> all_lines s).
Proof.
  unfold render_prometheus, render_histograms, sample. cbv zeta. cbn [foldl BATCH_LATENCY_STAGES].
  rewrite !stage_as_lines, !gauge_as_lines, !sample_lines, !header_lines, app_nil_l, <- !app_assoc, <- !flat_app, <- !fmap_app. done.
Qed.
(** A line without its value. *)
Definition line_kind (l : Line) : bool * text := match l with Comment t => (true, t) | Series x _ => (false, x) end.
Definition kind_ok (k : bool * text) : Prop :=
  (10%N ∉ k.2) /\ strip_suffix [13%N] k.2 = None /\ starts_with [35%N] k.2 = k.1 /\ k.2 <> [] /\ (k.1 = true \/ 32%N ∉ k.2).
Definition line_value_ok (l : Line) : Prop := match l with Comment _ => True | Series _ v => value_chars (chars v) end.

Lemma all_kinds s : line_kind <$> all_lines s = line_kind <$> all_lines MetricsSnapshot_default.
Proof. reflexivity. Qed.

Lemma all_series s : omap line_series (all_lines s) = omap (fun k : bool * text => if k.1 then None else Some k.2) (line_kind <$> all_lines s).
Proof. generalize (all_lines s). intros ls. induction ls as [|[t|x v] ls IH]; [done|done|]. cbn in *. by rewrite IH. Qed.

Lemma kinds_ok : Forall kind_ok (line_kind <$> all_lines MetricsSnapshot_default).
Proof. apply (bool_decide_unpack _). vm_compute. exact I. Qed.

Lemma u64_value_ok n : value_chars (chars (u64_value n)).
Proof.
  unfold value_chars. apply Forall_forall. intros b Hb. left. unfold u64_value, chars in Hb. destruct (pretty_digits n) as [H _]. rewrite forallb_forall in H.
  apply H. by apply list_elem_of_In.
Qed.

Lemma f64_value_ok x : value_chars (chars (f64_value x)).
Proof. unfold f64_value. destruct (is_finite x) eqn:E; [by apply fixed9_chars|]. unfold value_chars. cbn. repeat constructor. Qed.

Lemma all_values s : Forall line_value_ok (all_lines s).
Proof. unfold all_lines, stage_lines, gauge_lines. cbn [fmap list_fmap]. repeat first [apply Forall_app_2|constructor]; cbn; auto using u64_value_ok, f64_value_ok. Qed.

Definition add_series (parsed : gmap text (gset (gmap text text))) (x : text) : gmap text (gset (gmap text text)) :=
  let '(raw_name, labels) := parse_series x in
  let family := normalize_family raw_name in
  <[family := {[labels]} ∪ default ∅ (parsed !! family)]> parsed.

Lemma starts_with_prefix c x y : x <> [] -> starts_with [c] (x ++ y) = starts_with [c] x.
Proof. destruct x as [|b x]; [done|]. intros _. unfold starts_with. cbn. by destruct (c =? b)%N. Qed.

Lemma parse_kind l parsed : kind_ok (line_kind l) -> parse_line parsed (line_text l) = match line_series l with Some x => add_series parsed x | None => parsed end.
Proof.
  destruct l as [t|x v]; cbn [line_kind line_text line_series]; intros (_ & _ & Hc & Hne & Hsp); cbn in *; unfold parse_line.
  - rewrite Hc, orb_true_r. done.
  - rewrite starts_with_prefix, Hc, orb_false_r by done. rewrite bool_decide_false by (by destruct x). destruct Hsp as [?|Hsp]; [done|].
    by rewrite split_once_first.
Qed.

Lemma lines_clean s : Forall clean (line_text <$> all_lines s).
Proof.
  apply Forall_fmap. apply Forall_forall. intros l Hl. pose proof (all_values s) as Hv. rewrite Forall_forall in Hv. specialize (Hv l Hl).
  pose proof kinds_ok as Hk. rewrite <- (all_kinds s), Forall_fmap, Forall_forall in Hk. destruct (Hk l Hl) as (H1 & H2 & _).
  destruct l as [t|x v]; [by split|]. by apply clean_sample.
Qed.

(** Reading the text back gives the series, whatever the values. *)
Lemma parse_render s : parse_samples (render_prometheus s) = foldl add_series ∅ (omap line_series (all_lines MetricsSnapshot_default)).
Proof.
  unfold parse_samples. rewrite render_as_lines, lines_flat by apply lines_clean.
  rewrite (all_series MetricsSnapshot_default), <- (all_kinds s), <- all_series.
  pose proof kinds_ok as Hk. rewrite <- (all_kinds s), Forall_fmap in Hk. generalize (∅ : gmap text (gset (gmap text text))) as parsed.
  induction Hk as [|l ls Hl _ IH]; intros parsed; [done|]. cbn [fmap list_fmap foldl omap list_omap]. rewrite (parse_kind _ _ Hl), IH.
  by destruct (line_series l).
Qed.

(** C39. Whatever has been measured, the text served at [/metrics] reads back
    as the frozen catalogue: exactly the required families, the three verdicts
    of a node, the two queues and the three latency stages. *)
Theorem metrics_catalogue_complete s :
  rendered_families (render_prometheus s) = list_to_set (chars <$> REQUIRED_METRIC_FAMILIES) /\
  rendered_label_values (render_prometheus s) (chars ORCH_NODES_TOTAL) (chars "verdict") = list_to_set (chars <$> NODE_VERDICTS) /\
  rendered_label_values (render_prometheus s) (chars ORCH_PIPELINE_QUEUE_DEPTH) (chars "stage") = list_to_set (chars <$> QUEUE_STAGES) /\
  rendered_label_values (render_prometheus s) (chars ORCH_BATCH_LATENCY_SECONDS) (chars "stage") =
    list_to_set ((fun stage => chars (stage_as_str stage)) <$> BATCH_LATENCY_STAGES).
Proof.
  unfold rendered_families, rendered_label_values. rewrite parse_render.
  split_and!; apply (bool_decide_unpack _); vm_compute; exact I.
Qed.
End Catalogue.


(** ** Witness *)

(** The integral part with nine zeros, and the labels of the buckets. *)
Definition toy_metric_format : MetricFormat := {|
  fixed9 x := match x with S754_finite _ _ _ => "1.000000000" | _ => "0.000000000" end;
  bucket_label x :=
    if f64_eqb x f64_one then "1" else if f64_eqb x (f64_of_N 10) then "10" else if f64_eqb x (f64_of_decimal false 1 (-1)) then "0.1"
    else if f64_eqb x (f64_of_decimal false 1 (-2)) then "0.01" else "0.001"
|}.
Lemma toy_metric_format_laws : MetricFormatLaws toy_metric_format.
Proof.
  split; [|vm_compute; reflexivity]. intros x _. apply (bool_decide_unpack _). by destruct x; vm_compute.
Qed.

Lemma metrics_catalogue_complete_witness :
  let s := observe_batch_latency StageCommit 2 500000000 (update_pipeline_gauges (mkGauges 3 4 1 2) 5 7 1500 MetricsSnapshot_default) in
  @rendered_families (@render_prometheus toy_metric_format s) = list_to_set (chars <$> REQUIRED_METRIC_FAMILIES).
Proof.
  cbv zeta. exact (proj1 (@metrics_catalogue_complete toy_metric_format toy_metric_format_laws
    (observe_batch_latency StageCommit 2 500000000 (update_pipeline_gauges (mkGauges 3 4 1 2) 5 7 1500 MetricsSnapshot_default)))).
Defined.
