(* ===== verification/Transcript.v ===== *)
(** Transcripts of fake-world runs (crates/orch-fakes/src/transcript.rs): the
    bytes of actions, states and steps, and the hash over them. *)
From S2P Require Import Prelude Types Rng Grid.
Local Open Scope list_scope.

Definition action_tag (a : GridAction) : N := match a with Wait => 0 | Up => 1 | Down => 2 | Left => 3 | Right => 4 | Attack => 5 end.
Definition outcome_tag (o : StepOutcome) : N :=
  match o with Moved => 0 | BlockedByWall => 1 | BlockedByDoor => 2 | PickedKey => 3 | HitBoss => 4 | BossDefeated => 5 | GoalReached => 6 | Noop => 7 end.

Record TranscriptBuilder := mkTranscriptBuilder { tb_seed : N; tb_bytes : list N }.
Definition TranscriptBuilder_new (seed : N) : TranscriptBuilder := mkTranscriptBuilder seed [].
Definition push_bytes (bytes : list N) (b : TranscriptBuilder) : TranscriptBuilder := mkTranscriptBuilder (tb_seed b) (tb_bytes b ++ bytes).

Section Transcript.
Context `{B3 : Blake3}.

Definition transcript_preimage (seed : N) (bytes : list N) : list N :=
  bytes_of_string "orch-fakes/transcript/v1" ++ le_bytes 8 seed ++ le_bytes 8 (N.of_nat (length bytes)) ++ bytes.
Definition hash_transcript (seed : N) (bytes : list N) : list N := blake3 (transcript_preimage seed bytes).

Definition append_action (action : GridAction) (b : TranscriptBuilder) : TranscriptBuilder := push_bytes [action_tag action] (push_bytes [160%N] b).
Definition append_state (s : GridState) (b : TranscriptBuilder) : TranscriptBuilder :=
  push_bytes (grid_state_hash s) (push_bytes [Room_id (gs_room s); gs_x s; gs_y s; gs_keys s; gs_boss_hp s] (push_bytes [176%N] b)).
Definition append_step (before : GridState) (action : GridAction) (after : GridState) (outcome : StepOutcome) (b : TranscriptBuilder) : TranscriptBuilder :=
  push_bytes [outcome_tag outcome] (append_state after (append_action action (append_state before (push_bytes [192%N] b)))).
Definition transcript_finish (b : TranscriptBuilder) : list N := hash_transcript (tb_seed b) (tb_bytes b).

(** ** What a transcript says *)

(** The calls a builder has had. *)
Inductive Entry := TookAction (a : GridAction) | SawState (s : GridState) | TookStep (before : GridState) (a : GridAction) (after : GridState) (o : StepOutcome).
Definition append_entry (b : TranscriptBuilder) (e : Entry) : TranscriptBuilder :=
  match e with TookAction a => append_action a b | SawState s => append_state s b | TookStep s a s' o => append_step s a s' o b end.
Definition transcript (seed : N) (es : list Entry) : TranscriptBuilder := foldl append_entry (TranscriptBuilder_new seed) es.

Definition action_bytes (a : GridAction) : list N := [160%N; action_tag a].
Definition seen_bytes (s : GridState) : list N := [176%N; Room_id (gs_room s); gs_x s; gs_y s; gs_keys s; gs_boss_hp s] ++ grid_state_hash s.
Definition entry_bytes (e : Entry) : list N :=
  match e with
  | TookAction a => action_bytes a
  | SawState s => seen_bytes s
  | TookStep s a s' o => [192%N] ++ seen_bytes s ++ action_bytes a ++ seen_bytes s' ++ [outcome_tag o]
  end.

Lemma append_entry_bytes b e : append_entry b e = push_bytes (entry_bytes e) b.
Proof. destruct b, e; unfold append_entry, append_step, append_state, append_action, push_bytes; cbn; f_equal; by rewrite <- ?app_assoc. Qed.

Lemma transcript_bytes es : forall b, foldl append_entry b es = push_bytes (concat (entry_bytes <$> es)) b.
Proof.
  induction es as [|e es IH]; intros b; cbn; [destruct b; unfold push_bytes; cbn; by rewrite app_nil_r|].
  rewrite IH, append_entry_bytes. unfold push_bytes. cbn. by rewrite app_assoc.
Qed.

Lemma action_tag_inj a a' : action_tag a = action_tag a' -> a = a'.
Proof. by destruct a, a'. Qed.
Lemma outcome_tag_inj o o' : outcome_tag o = outcome_tag o' -> o = o'.
Proof. by destruct o, o'. Qed.

Lemma seen_bytes_inj s s' r r' : seen_bytes s ++ r = seen_bytes s' ++ r' -> s = s' /\ r = r'.
Proof.
  unfold seen_bytes. cbn. intros [= Hroom Hx Hy Hk Hb Hr]. assert (s = s') as ->.
  { destruct s as [? ? room ? ?], s' as [? ? room' ? ?]. cbn in *. subst. by destruct room, room'. }
  split; [done|]. by apply app_inv_head in Hr.
Qed.

(** Entries are a prefix code: none is the start of another. *)
Lemma entry_bytes_inj e e' r r' : entry_bytes e ++ r = entry_bytes e' ++ r' -> e = e' /\ r = r'.
Proof.
  destruct e as [a|s|s a t o], e' as [a'|s'|s' a' t' o']; try (by intros [=]).
  - cbn. intros [= Ha ->]. by rewrite (action_tag_inj _ _ Ha).
  - intros H. destruct (seen_bytes_inj s s' r r' H) as [-> ->]. done.
  - cbn [entry_bytes]. intros H. rewrite <- !app_assoc in H. apply (f_equal tail) in H. cbn [tail app] in H.
    destruct (seen_bytes_inj _ _ _ _ H) as [-> H1]. apply app_inj_1 in H1 as [[= Ha] H2]; [|done].
    destruct (seen_bytes_inj _ _ _ _ H2) as [-> H3]. injection H3 as Ho ->. by rewrite (action_tag_inj _ _ Ha), (outcome_tag_inj _ _ Ho).
Qed.

Lemma entries_inj es : forall es', concat (entry_bytes <$> es) = concat (entry_bytes <$> es') -> es = es'.
Proof.
  induction es as [|e es IH]; intros [|e' es']; cbn; [done|by destruct e'|by destruct e|]. intros [-> H]%entry_bytes_inj. by rewrite (IH _ H).
Qed.

(** A transcript hash stands for one run: two transcripts whose hashed
    bytes agree have the same seed and the same sequence of actions, states,
    steps and outcomes. *)
Theorem transcript_injective seed seed' es es' : (seed <= u64_max)%N -> (seed' <= u64_max)%N ->
  transcript_preimage seed (tb_bytes (transcript seed es)) = transcript_preimage seed' (tb_bytes (transcript seed' es')) -> seed = seed' /\ es = es'.
Proof.
  intros Hs Hs'. unfold transcript, transcript_preimage. rewrite !transcript_bytes. cbn [push_bytes TranscriptBuilder_new tb_bytes app]. intros H%app_inv_head.
  apply app_inj_1 in H as [H1 H]; [|by rewrite !le_bytes_length]. apply app_inj_1 in H as [_ H]; [|by rewrite !le_bytes_length].
  split; [by apply le_bytes_u64_inj|]. by apply entries_inj.
Qed.
End Transcript.

Lemma transcript_injective_witness :
  let s := mkGridState 1 2 RoomStart 0 3 in
  transcript_preimage 7 (tb_bytes (transcript (B3 := toy_blake3) 7 [TookStep s Up s BlockedByWall; TookAction Wait])) <>
  transcript_preimage 7 (tb_bytes (transcript (B3 := toy_blake3) 7 [TookStep s Up s Noop; TookAction Wait])).
Proof.
  cbv zeta. intros H. apply (transcript_injective (B3 := toy_blake3) 7 7) in H; [|done|done]. destruct H as [_ H]. discriminate H.
Defined.
