(* ===== verification/Daemon.v ===== *)
(** The daemon's own code (bins/orchestratord/src/main.rs and simulate.rs, and
    the names of the crash points, crates/orch-server/src/experiment.rs):
    arguments, the environment hooks, the parking crash policy, the sources of
    the simulated world and the HTTP responder.

    Socket addresses are parsed by the standard library: their type and parser
    are parameters. *)
From stdpp Require Import pretty.
From S2P Require Import Prelude Float64 Types Client Retry Rng Policy Checkpoint Runner Durable Compile HvTypes SynthTypes WorkerDriver ScorerTypes StoreTypes NodeAttrs SynthDriver.
From S2P Require Import SynthConfig Fault FakeSynth Bringup WireConfig Pipeline CommitStage ReplayStage RunLoop Resume SimJournal SimWorld Decimal Metrics.
Local Open Scope string_scope.
Local Open Scope list_scope.

(** ** Arguments *)

Class SocketAddrs := { SocketAddr : Type; parse_addr : string -> res string SocketAddr }.

Record Args `{SA : SocketAddrs} := mkArgs {
  ag_simulate : bool;
  ag_experiment : option string;
  ag_experiment_id : option string;
  ag_listen : option SocketAddr;
  ag_http : option SocketAddr;
  ag_state_dir : option string
}.

Section Args.
Context `{SA : SocketAddrs}.

Definition Args_default : Args := mkArgs _ false None None None None None.

Fixpoint scan_args (argv : list string) (a : Args) : res string Args :=
  match argv with
  | [] => Ok a
  | arg :: argv =>
    if decide (arg = "--simulate") then
      scan_args argv (mkArgs _ true (ag_experiment a) (ag_experiment_id a) (ag_listen a) (ag_http a) (ag_state_dir a))
    else if decide (arg = "--experiment") then
      match argv with
      | [] => Err "--experiment needs a file path"
      | v :: argv => scan_args argv (mkArgs _ (ag_simulate a) (Some v) (ag_experiment_id a) (ag_listen a) (ag_http a) (ag_state_dir a))
      end
    else if decide (arg = "--experiment-id") then
      match argv with
      | [] => Err "--experiment-id needs a value"
      | v :: argv => scan_args argv (mkArgs _ (ag_simulate a) (ag_experiment a) (Some v) (ag_listen a) (ag_http a) (ag_state_dir a))
      end
    else if decide (arg = "--listen") then
      match argv with
      | [] => Err "--listen needs an address"
      | v :: argv =>
        addr ← map_err (fun error => "--listen: " +:+ error) (parse_addr v);
        scan_args argv (mkArgs _ (ag_simulate a) (ag_experiment a) (ag_experiment_id a) (Some addr) (ag_http a) (ag_state_dir a))
      end
    else if decide (arg = "--http") then
      match argv with
      | [] => Err "--http needs an address"
      | v :: argv =>
        addr ← map_err (fun error => "--http: " +:+ error) (parse_addr v);
        scan_args argv (mkArgs _ (ag_simulate a) (ag_experiment a) (ag_experiment_id a) (ag_listen a) (Some addr) (ag_state_dir a))
      end
    else if decide (arg = "--state-dir") then
      match argv with
      | [] => Err "--state-dir needs a directory"
      | v :: argv => scan_args argv (mkArgs _ (ag_simulate a) (ag_experiment a) (ag_experiment_id a) (ag_listen a) (ag_http a) (Some v))
      end
    else Err ("unknown argument " +:+ arg)
  end.
Definition parse_args (argv : list string) : res string Args :=
  a ← scan_args argv Args_default;
  if negb (ag_simulate a) && negb (is_some (ag_experiment a)) then Err "one of --simulate or --experiment <file.yaml> is required" else Ok a.

(** What [main] does with the arguments: the experiment wins over the server. *)
Inductive Mode := Standalone (path : string) | Serve.
Definition mode_of (a : Args) : Mode := match ag_experiment a with Some path => Standalone path | None => Serve end.
Definition exit_code (parsed : res string Args) (run : Mode -> res string unit) : N :=
  match parsed with
  | Ok a => match run (mode_of a) with Ok _ => 0%N | _ => 1%N end
  | _ => 2%N
  end.
End Args.

(** ** Environment *)

(** [None]: the variable is not set. *)
Definition break_mode_from_env (value : option string) : res string (option BreakMode) :=
  match value with
  | None => Ok None
  | Some value =>
    if decide (value = "perturb-node") then Ok (Some PerturbNode)
    else if decide (value = "drop-scorer-replay") then Ok (Some DropScorerReplay)
    else Err ("ORCH_SIM_BREAK: unknown mode '" +:+ value +:+ "'")
  end.

Definition CRASH_POINTS : list CrashPoint :=
  [AfterWalWrite; AfterDispatch; BeforeCommitOwnerCheck; MidBatchCommit; AfterCreateNode; BeforeWalDelete; AfterWalDelete; AfterCommitBeforeCheckpoint;
   BeforeCheckpointArchive; AfterCheckpointArchive; BeforeCasPut; AfterCasPut].
Definition crash_point_from_str (value : string) : res string CrashPoint :=
  ok_or (list_find (fun point => crash_point_as_str point = value) CRASH_POINTS ≫= fun '(_, point) => Some point) ("unknown crash point '" +:+ value +:+ "'").

(** [str::parse::<u32>]. *)
Fixpoint parse_digits (max acc : N) (t : text) : res string N :=
  match t with
  | [] => Ok acc
  | b :: rest =>
    if is_digit b then
      if (max <? 10 * acc + (b - 48))%N then Err "number too large to fit in target type" else parse_digits max (10 * acc + (b - 48)) rest
    else Err "invalid digit found in string"
  end.
Definition parse_u32 (t : text) : res string N :=
  match t with
  | [] => Err "cannot parse integer from empty string"
  | [b] => if is_digit b then Ok (b - 48)%N else Err "invalid digit found in string"
  | b :: rest => if (b =? 43)%N then parse_digits u32_max 0 rest else parse_digits u32_max 0 t
  end.

Record HangAt := mkHangAt { ha_point : CrashPoint; ha_nth : N; ha_seen : N }.
Definition hang_policy_from_env (value : option string) : res string (option HangAt) :=
  match value with
  | None => Ok None
  | Some value =>
    '(point, nth) ← ok_or (split_once 58 (chars value)) ("ORCH_CHAOS_HANG_AT: expected <point>:<nth>, got '" +:+ value +:+ "'");
    point ← crash_point_from_str (string_of_bytes point);
    nth ← map_err (fun error => "ORCH_CHAOS_HANG_AT: bad nth: " +:+ error) (parse_u32 nth);
    if (nth =? 0)%N then Err "ORCH_CHAOS_HANG_AT: nth must be >= 1" else Ok (Some (mkHangAt point nth 0))
  end.

(** The torn-write hook of the journal (crates/orch-simstate/src/journal.rs). *)
Definition torn_hook_from_env (value : option string) : res string (option TornHook) :=
  match value with
  | None => Ok None
  | Some value =>
    match split_once 58 (chars value) with
    | None => Ok None
    | Some (kind, nth) =>
      kind ← (if decide (kind = chars "wal-append") then Ok WalAppend else if decide (kind = chars "ckpt-put") then Ok CkptPut else Panic);
      nth ← match parse_u32 nth with Ok n => Ok n | _ => Panic end;
      if (nth =? 0)%N then Panic else Ok (Some (mkTornHook kind nth 0))
    end
  end.

(** [None]: the marker is printed and the call never returns. *)
Definition hang_should_crash (point : CrashPoint) (h : HangAt) : option (bool * HangAt) :=
  if decide (point = ha_point h) then
    let h := mkHangAt (ha_point h) (ha_nth h) (ha_seen h + 1) in
    if (ha_seen h <? ha_nth h)%N then Some (false, h) else None
  else Some (false, h).

(** ** The simulated world *)

Definition machine_config : MachineConfig :=
  mkMachineConfig 1 (128 * 1024 * 1024) 1 1 1 (replicate 32 170%N) (Elf (mkElfBoot (replicate 32 187%N) (bytes_of_string "console=ttyS0"))) 50000000 EpochsOn 8192.
Definition grid_feature (name : string) (offset : N) : Feature := mkFeature name "grid" offset U8 None "counter" Stable DIdentity None [].
Definition synth_config_yaml (experiment_id : string) : text :=
  chars "version: 1" ++ [10%N] ++ chars "kind: experiment_config" ++ [10%N] ++ chars "experiment_id: " ++ chars experiment_id ++ [10%N] ++
  chars "model: pad" ++ [10%N] ++ chars "button_alphabet: console16-12btn-v1" ++ [10%N] ++ chars "generator_mix:" ++ [10%N] ++
  chars "  weighted_random: 1" ++ [10%N] ++ chars "  macro: 0" ++ [10%N] ++ chars "  mutation: 0" ++ [10%N] ++ chars "  policy: 0" ++ [10%N].
Definition sources (experiment_id : string) : ExperimentSources :=
  mkExperimentSources
    (mkFeatureMap 1 KindFeatureMap (mkFeatureMapMeta "grid" "grid-world" "r1" 1 []) [mkFeatureRegion "grid" 5 []]
      [grid_feature "room" 0; grid_feature "x" 1; grid_feature "y" 2; grid_feature "keys" 3; grid_feature "boss_hp" 4] [])
    {["grid" := mkRegionLayout 5 1]}
    (synth_config_yaml experiment_id) [] (mkWorkloadSpec machine_config (Some 10000000%N) None None).

(** ** Standalone mode *)

(** [Path::file_stem] of a Unix path: the last component that is a name, up to
    its last point. *)
Definition path_file_name (path : text) : option text :=
  name ← last (filter (fun c => c <> [] /\ c <> [46%N]) (split_on 47 path));
  if decide (name = [46; 46]%N) then None else Some name.
Definition before_last_point (name : text) : text :=
  match split_once 46 (reverse name) with
  | Some (_, rest) => if decide (rest = []) then name else reverse rest
  | None => name
  end.
Definition path_file_stem (path : text) : option text := before_last_point <$> path_file_name path.

Definition producer_id (startup_unix : N) : string := "orchestratord-" +:+ pretty startup_unix.

Section Standalone.
Context `{SAd : SocketAddrs} `{WE : WireEnums} (encode_to_vec : WireConfig -> list N).
Context {W CP : Type} `{MS : MetadataStore W, RT : Runtime W, SA : ScorerArchive W, CR : CrashPolicy CP}.
Context `{PC : Postcard CheckpointV1, PI : Postcard ExpansionIntent, PA : Postcard OrchNodeAttrsV1}.
Context `{NS : NodeStore W, SC : Scorer W, SY : InputSynth W, BP : BatchPipeline W, BR : WorkerPort W}.
Context `{SB : SortByStart, HD : F64Display, HB : Blake3, HC : ChaCha12, HL : Libm}.
(** The file system, the YAML of a configuration, the world of the state
    directory and the parking policy as a crash policy. *)
Context (read_file : string -> res string (list N)) (wire_config_from_yaml : list N -> res string WireConfig)
  (open_services : option string -> option BreakMode -> res string W) (park_at : HangAt -> CP).

Definition standalone_id (a : Args) (path : string) : option string :=
  match ag_experiment_id a with Some id => Some id | None => string_of_bytes <$> path_file_stem (chars path) end.

(** [None]: the run has not ended after [fuel] turns.  The handle is held and
    never used: each of its [looks] at the control channel finds it empty. *)
Definition run_standalone (fuel looks : nat) (a : Args) (path : string) (startup_unix : N) (sim_break chaos_hang_at : option string) : res string (option unit) :=
  bytes ← map_err (fun error => "read " +:+ path +:+ ": " +:+ error) (read_file path);
  sparse ← wire_config_from_yaml bytes;
  effective ← map_err config_validation_failed_detail (validated_effective_config sparse);
  experiment_id ← ok_or (standalone_id a path) "could not derive an experiment id; pass --experiment-id";
  break_mode ← break_mode_from_env sim_break;
  world ← open_services (ag_state_dir a) break_mode;
  let cfg := mkRunnerConfig experiment_id experiment_id (producer_id startup_unix) effective (config_hash encode_to_vec effective) in
  hang ← hang_policy_from_env chaos_hang_at;
  '(runner, _) ← map_err ce_message (start fuel cfg (sources experiment_id) (park_at <$> hang) (replicate looks None) world).1;
  outcome ← map_err ClientError_fmt (run fuel runner).1;
  match outcome with
  | None => Ok None
  | Some outcome =>
    if decide (ro_state outcome = Checkpoint.FailedState) then Err (default "experiment failed" (ro_failure_reason outcome)) else Ok (Some tt)
  end.

(** Standalone mode succeeds only when an experiment of a valid configuration ran
    to an end that is not a failure; its run id is its experiment id. *)
Lemma standalone_success fuel looks a path startup sim_break chaos : run_standalone fuel looks a path startup sim_break chaos = Ok (Some tt) ->
  exists bytes sparse effective id world hang runner mode outcome,
    read_file path = Ok bytes /\ wire_config_from_yaml bytes = Ok sparse /\ validated_effective_config sparse = Ok effective /\ standalone_id a path = Some id /\
    (start fuel (mkRunnerConfig id id (producer_id startup) effective (config_hash encode_to_vec effective)) (sources id) hang (replicate looks None) world).1 = Ok (runner, mode) /\
    (run fuel runner).1 = Ok (Some outcome) /\ ro_state outcome <> Checkpoint.FailedState.
Proof.
  unfold run_standalone. cbv zeta.
  intros (bytes & Hb%map_err_Ok & (sparse & Hs & (effective & He%map_err_Ok & (id & Hid%ok_or_Ok & (mode & _ & (world & _ & (hang & _ & H)%bind_Ok)%bind_Ok)%bind_Ok)%bind_Ok)%bind_Ok)%bind_Ok)%bind_Ok.
  apply bind_Ok in H as ([runner m] & Hstart%map_err_Ok & (outcome & Hrun%map_err_Ok & H)%bind_Ok). destruct outcome as [outcome|]; [|done]. case_decide; [done|].
  by exists bytes, sparse, effective, id, world, (park_at <$> hang), runner, m, outcome.
Qed.
End Standalone.

(** ** The HTTP responder *)

(** What the socket gives: a chunk of at most 1024 bytes, empty at the end of
    the stream, or an error. *)
Inductive Chunk := Received (bytes : list N) | ReadFailed.
Definition request_complete (buffer : list N) : bool := contains_text [13; 10; 13; 10]%N buffer || (8 * 1024 <=? N.of_nat (length buffer))%N.
(** [None]: the task ends, or waits for more. *)
Fixpoint read_request (chunks : list Chunk) (buffer : list N) : option (list N) :=
  match chunks with
  | [] | ReadFailed :: _ => None
  | Received [] :: _ => Some buffer
  | Received bytes :: chunks => let buffer := buffer ++ bytes in if request_complete buffer then Some buffer else read_request chunks buffer
  end.
(** The requests it knows are ASCII: the lossy decoding starts with them when
    the bytes do. *)
Definition http_respond `{MF : MetricFormat} (metrics : MetricsSnapshot) (request : list N) : string * text :=
  if starts_with (chars "GET /healthz") request then ("200 OK", chars "ok" ++ [10%N])
  else if starts_with (chars "GET /metrics") request then ("200 OK", render_prometheus metrics)
  else ("404 Not Found", chars "not found" ++ [10%N]).
Definition http_response (status : string) (body : text) : text :=
  chars "HTTP/1.1 " ++ chars status ++ [13; 10]%N ++ chars "content-length: " ++ chars (pretty (N.of_nat (length body))) ++ [13; 10]%N ++
  chars "content-type: text/plain" ++ [13; 10; 13; 10]%N ++ body.
Definition serve_http_request `{MF : MetricFormat} (metrics : MetricsSnapshot) (chunks : list Chunk) : option text :=
  request ← read_request chunks [];
  let '(status, body) := http_respond metrics request in
  Some (http_response status body).

(** ** The parking policy *)

(** Arrivals at crash points until the policy parks. *)
Fixpoint arrivals (points : list CrashPoint) (h : HangAt) : option HangAt :=
  match points with
  | [] => Some h
  | point :: points => match hang_should_crash point h with Some (_, h) => arrivals points h | None => None end
  end.
Definition times_at (point : CrashPoint) (points : list CrashPoint) : N := N.of_nat (length (filter (fun p => p = point) points)).

Lemma crash_point_roundtrip point : crash_point_from_str (crash_point_as_str point) = Ok point.
Proof. by destruct point. Qed.

Lemma chars_string t : string_of_bytes (chars t) = t.
Proof.
  unfold string_of_bytes, chars, bytes_of_string. rewrite <- list_fmap_compose.
  replace ((Ascii.ascii_of_N ∘ Ascii.N_of_ascii) <$> String.list_ascii_of_string t) with (String.list_ascii_of_string t).
  - apply String.string_of_list_ascii_of_string.
  - rewrite <- (list_fmap_id (String.list_ascii_of_string t)) at 1. apply list_fmap_ext. intros i c _. cbn. by rewrite Ascii.ascii_N_embedding.
Qed.

Lemma parse_digits_value max t : forall acc, forallb is_digit t = true -> (foldl (fun v d => 10 * v + (d - 48)) acc t <= max)%N ->
  parse_digits max acc t = Ok (foldl (fun v d => 10 * v + (d - 48))%N acc t).
Proof.
  induction t as [|b t IH]; intros acc; [done|]. cbn. intros [Hb Ht]%andb_true_iff Hmax. rewrite Hb.
  assert (forall u v, (v <= foldl (fun v d => 10 * v + (d - 48)) v u)%N) as Hmono.
  { intros u. clear. induction u as [|c u IHu]; intros v; [done|]. cbn. etransitivity; [|apply IHu]. lia. }
  rewrite (proj2 (N.ltb_ge _ _)) by (etransitivity; [apply Hmono|exact Hmax]). by apply IH.
Qed.

Lemma parse_u32_pretty n : (n <= u32_max)%N -> parse_u32 (chars (pretty n)) = Ok n.
Proof.
  intros Hn. destruct (pretty_digits n) as [Hd Hv]. unfold chars. destruct (bytes_of_string (pretty n)) as [|b t] eqn:E.
  - cbn in Hv. subst n. by vm_compute in E.
  - assert (is_digit b = true) as Hb by (by apply andb_true_iff in Hd as [? _]).
    assert (parse_digits u32_max 0 (b :: t) = Ok n) as Hp.
    { rewrite <- Hv. apply parse_digits_value; [done|]. change (foldl _ _ _) with (digits_value (b :: t)). by rewrite Hv. }
    unfold parse_u32. destruct t as [|c t]; [rewrite Hb; cbn in Hv; f_equal; lia|].
    destruct (N.eqb_spec b 43) as [->|]; [done|exact Hp].
Qed.

Lemma arrivals_count points : forall h, (ha_seen h < ha_nth h)%N ->
  arrivals points h = if (ha_seen h + times_at (ha_point h) points <? ha_nth h)%N then Some (mkHangAt (ha_point h) (ha_nth h) (ha_seen h + times_at (ha_point h) points)) else None.
Proof.
  induction points as [|p points IH]; intros h Hlt; cbn [arrivals].
  - unfold times_at. cbn. rewrite N.add_0_r, (proj2 (N.ltb_lt _ _)) by done. by destruct h.
  - unfold hang_should_crash, times_at. rewrite filter_cons. case_decide as Hp; cbn [length ha_seen ha_nth ha_point].
    + destruct (N.ltb_spec (ha_seen h + 1) (ha_nth h)) as [Hs|Hs].
      * rewrite IH by done. cbn. unfold times_at. rewrite Nat2N.inj_succ.
        by replace (ha_seen h + N.succ (N.of_nat (length (filter (fun p => p = ha_point h) points))))%N
          with (ha_seen h + 1 + N.of_nat (length (filter (fun p => p = ha_point h) points)))%N by lia.
      * rewrite (proj2 (N.ltb_ge _ _)); [done|]. lia.
    + by apply IH.
Qed.

(** The chaos hook lands where it is told: for every crash point and every
    count, the text naming them is accepted, and the run is parked at that
    arrival at that point, neither before nor at another point. *)
Theorem chaos_hook_exact point nth points : (1 <= nth <= u32_max)%N ->
  exists h, hang_policy_from_env (Some (crash_point_as_str point +:+ ":" +:+ pretty nth)) = Ok (Some h) /\
    (arrivals points h = None <-> (nth <= times_at point points)%N).
Proof.
  intros Hn. exists (mkHangAt point nth 0). split.
  - unfold hang_policy_from_env, chars. rewrite !bytes_of_string_app. change (bytes_of_string ":") with [58%N]. cbn [app].
    rewrite split_once_first by (by destruct point; apply (bool_decide_unpack _); vm_compute). cbn [ok_or mbind res_bind].
    change (bytes_of_string (crash_point_as_str point)) with (chars (crash_point_as_str point)). rewrite chars_string, crash_point_roundtrip. cbn [mbind res_bind].
    change (bytes_of_string (pretty nth)) with (chars (pretty nth)). rewrite parse_u32_pretty by lia. cbn.
    destruct (N.eqb_spec nth 0); [lia|done].
  - rewrite arrivals_count by (cbn; lia). cbn. rewrite N.add_0_l. destruct (N.ltb_spec (times_at point points) nth) as [Hlt|Hge]; split; intros H'; try done. exfalso. by apply N.lt_nge in Hlt.
Qed.

Lemma chaos_hook_exact_witness : exists h,
  hang_policy_from_env (Some "MidBatchCommit:2") = Ok (Some h) /\
  (arrivals [MidBatchCommit; AfterCasPut; MidBatchCommit] h = None <-> (2 <= times_at MidBatchCommit [MidBatchCommit; AfterCasPut; MidBatchCommit])%N).
Proof. exact (chaos_hook_exact MidBatchCommit 2 [MidBatchCommit; AfterCasPut; MidBatchCommit] ltac:(split; [lia|by apply N.leb_le; vm_compute])). Defined.

(** ** The responder *)

Lemma read_request_bound chunks : forall buffer request, Forall (fun c => match c with Received bytes => (length bytes <= 1024)%nat | ReadFailed => True end) chunks ->
  request_complete buffer = false -> read_request chunks buffer = Some request -> (N.of_nat (length request) < 9 * 1024)%N.
Proof.
  assert (forall buffer, request_complete buffer = false -> (N.of_nat (length buffer) < 8 * 1024)%N) as Hlen.
  { intros buffer [_ H]%orb_false_iff. by apply N.leb_gt. }
  induction chunks as [|c chunks IH]; intros buffer request; [done|]. intros [Hc Hcs]%Forall_cons Hb. destruct c as [bytes|]; [|done]. cbn [read_request].
  pose proof (Hlen buffer Hb) as Hl. destruct bytes as [|b bytes]; [intros [= <-]; lia|]. destruct (request_complete (buffer ++ b :: bytes)) eqn:E.
  - intros [= <-]. rewrite length_app. lia.
  - by apply IH.
Qed.

Lemma find_crlf l rest : 13%N ∉ l -> find [13; 10; 13; 10]%N (l ++ [13; 10; 13; 10]%N ++ rest) = Some (length l).
Proof.
  induction l as [|b l IH]; [done|]. intros [Hb Hl]%not_elem_of_cons. cbn [find app length]. unfold starts_with at 1. cbn [strip_prefix].
  destruct (N.eqb_spec 13 b); [by subst|]. cbn [is_some]. cbn [app] in IH. by rewrite IH.
Qed.

Lemma find_cons pattern b t : find pattern (b :: t) = if starts_with pattern (b :: t) then Some 0%nat else S <$> find pattern t.
Proof. done. Qed.

Lemma find_past_line l b rest : 13%N ∉ l -> b <> 13%N ->
  find [13; 10; 13; 10]%N (l ++ [13; 10]%N ++ b :: rest) = (fun k => (length l + 2 + k)%nat) <$> find [13; 10; 13; 10]%N (b :: rest).
Proof.
  intros Hl Hb. assert (forall t, starts_with [13; 10; 13; 10]%N (b :: t) = false) as Hnb
    by (intros t; unfold starts_with; cbn [strip_prefix]; destruct (N.eqb_spec 13 b); [by subst|done]).
  induction l as [|c l IH].
  - cbn [app]. rewrite find_cons. replace (starts_with [13; 10; 13; 10]%N (13%N :: 10%N :: b :: rest)) with false
      by (change (false = is_some (if (13 =? b)%N then strip_prefix [10%N] rest else None)); destruct (N.eqb_spec 13 b); [by subst|done]).
    rewrite find_cons. change (starts_with [13; 10; 13; 10]%N (10%N :: b :: rest)) with false. by destruct (find _ (b :: rest)).
  - apply not_elem_of_cons in Hl as [Hc Hl]. specialize (IH Hl). cbn [app] in *. rewrite find_cons.
    replace (starts_with [13; 10; 13; 10]%N (c :: l ++ 13%N :: 10%N :: b :: rest)) with false
      by (unfold starts_with; cbn [strip_prefix]; destruct (N.eqb_spec 13 c); [by subst|done]).
    rewrite IH. by destruct (find _ (b :: rest)).
Qed.

Lemma digits_no_cr (n : N) : (13%N ∉ chars (pretty n)) /\ (10%N ∉ chars (pretty n)).
Proof.
  pose proof (u64_value_ok n) as H. unfold u64_value, value_chars in H. rewrite Forall_forall in H.
  split; intros Hin; destruct (value_byte _ (H _ Hin)); done.
Qed.

(** The head of a response and where its body begins. *)
Definition response_head (status : string) (body : text) : text :=
  chars "HTTP/1.1 " ++ chars status ++ [13; 10]%N ++ chars "content-length: " ++ chars (pretty (N.of_nat (length body))) ++ [13; 10]%N ++ chars "content-type: text/plain".

Lemma response_split status body : 13%N ∉ chars status ->
  http_response status body = response_head status body ++ [13; 10; 13; 10]%N ++ body /\
  find [13; 10; 13; 10]%N (http_response status body) = Some (length (response_head status body)).
Proof.
  intros Hs. unfold http_response, response_head. rewrite <- !app_assoc. split; [done|].
  assert (13%N ∉ chars "HTTP/1.1 " ++ chars status) as H1 by (rewrite not_elem_of_app; split; [by apply (bool_decide_unpack _); vm_compute|done]).
  pose proof (find_past_line (chars "HTTP/1.1 " ++ chars status) 99 (tail (chars "content-length: ") ++ chars (pretty (N.of_nat (length body))) ++ [13; 10]%N ++
    chars "content-type: text/plain" ++ [13; 10; 13; 10]%N ++ body) H1 ltac:(done)) as E1. rewrite <- app_assoc in E1.
  assert (13%N ∉ chars "content-length: " ++ chars (pretty (N.of_nat (length body)))) as H2
    by (rewrite not_elem_of_app; split; [by apply (bool_decide_unpack _); vm_compute|by destruct (digits_no_cr (N.of_nat (length body)))]).
  pose proof (find_past_line _ 99 (tail (chars "content-type: text/plain") ++ [13; 10; 13; 10]%N ++ body) H2 ltac:(done)) as E2. rewrite <- app_assoc in E2.
  pose proof (find_crlf (chars "content-type: text/plain") body ltac:(by apply (bool_decide_unpack _); vm_compute)) as E3.
  refine (eq_trans E1 _). refine (eq_trans (f_equal _ (eq_trans E2 (f_equal _ E3))) _). cbn [fmap option_fmap option_map]. f_equal. rewrite !length_app. cbn. lia.
Qed.

Lemma strip_prefix_app prefix : forall t rest, strip_prefix prefix t = Some rest -> t = prefix ++ rest.
Proof.
  induction prefix as [|p prefix IH]; intros [|b t] rest; cbn; try (by intros [= <-]). destruct (N.eqb_spec p b) as [->|]; [|done].
  intros H. by rewrite (IH _ _ H).
Qed.

Section Responder.
Context `{MF : MetricFormat} `{ML : !MetricFormatLaws MF}.

(** A scrape gets the catalogue: a request for [/metrics], however it is
    split over reads, is answered with one response whose head announces the
    length of exactly what follows it, and whose body reads back as the
    required families. *)
Theorem http_metrics_served s chunks request : read_request chunks [] = Some request -> starts_with (chars "GET /metrics") request = true ->
  exists response k, serve_http_request s chunks = Some response /\ find [13; 10; 13; 10]%N response = Some k /\
    take k response = response_head "200 OK" (drop (k + 4) response) /\
    rendered_families (drop (k + 4) response) = list_to_set (chars <$> REQUIRED_METRIC_FAMILIES).
Proof.
  intros Hread Hget. exists (http_response "200 OK" (render_prometheus s)), (length (response_head "200 OK" (render_prometheus s))).
  destruct (response_split "200 OK" (render_prometheus s)) as [Hr Hf]; [by apply (bool_decide_unpack _); vm_compute|].
  split_and!; [|done| |].
  - unfold serve_http_request. rewrite Hread. cbn [mbind option_bind]. unfold http_respond. rewrite Hget.
    unfold starts_with in Hget. destruct (strip_prefix _ request) as [rest|] eqn:E; [|done]. apply strip_prefix_app in E as ->. done.
  - rewrite Hr, take_app_length, drop_app_ge by lia. replace (_ + 4 - _)%nat with 4%nat by lia. done.
  - rewrite Hr, drop_app_ge by lia. replace (_ + 4 - _)%nat with 4%nat by lia. cbn [drop app]. rewrite drop_0. unfold rendered_families. rewrite parse_render.
    apply (bool_decide_unpack _). vm_compute. exact I.
Qed.
End Responder.

Lemma http_metrics_served_witness : exists response k,
  @serve_http_request toy_metric_format MetricsSnapshot_default [Received (chars "GET /met"); Received (chars "rics HTTP/1.1" ++ [13; 10; 13; 10]%N)] = Some response /\
  find [13; 10; 13; 10]%N response = Some k /\ rendered_families (drop (k + 4) response) = list_to_set (chars <$> REQUIRED_METRIC_FAMILIES).
Proof.
  destruct (@http_metrics_served toy_metric_format toy_metric_format_laws MetricsSnapshot_default
    [Received (chars "GET /met"); Received (chars "rics HTTP/1.1" ++ [13; 10; 13; 10]%N)] (chars "GET /metrics HTTP/1.1" ++ [13; 10; 13; 10]%N)) as (response & k & H1 & H2 & _ & H3).
  - vm_compute. reflexivity.
  - vm_compute. reflexivity.
  - by exists response, k.
Defined.
