(* ===== verification/Ports.v ===== *)
(** The async ports over a synchronous service (crates/orch-sched/src/ports.rs,
    [SyncAdapter]): calls in flight on one shared service, each charged a
    latency in virtual time before it takes the lock.

    The tasks of the callers run on several threads, so a step is what one of
    them does between two accesses of what they share: the probe behind its
    mutex, the clock, the service's mutex and the service itself.  The service
    is read when a critical section begins and written back when it ends; what
    keeps two sections apart is the mutex alone.  What the callers see is a
    history of invocations and responses with their times, kept apart from the
    state of the adapter.

    The service is a type [T] with one operation for its requests [Q]; the
    identity of a request is its encoding, and the latency probe has a state of
    its own. *)
From S2P Require Import Prelude Types Client.
Local Open Scope string_scope.
Local Open Scope list_scope.

(** Milliseconds of virtual time. *)
Definition ticks_to_virtual (ticks : N) : N := ticks.

Record PendingCall := mkPendingCall { pc_latency_ticks : N; pc_timeout : bool }.
Definition PendingCall_default : PendingCall := mkPendingCall 0 false.
Class LatencyProbe (P : Type) := { pending_call : string -> list N -> P -> PendingCall * P }.
Global Instance NoLatency : LatencyProbe unit := {| pending_call _ _ p := (PendingCall_default, p) |}.

Definition DEFAULT_CALL_TIMEOUT : N := 10000.
Definition SERVICE_BUSY : ClientError := mkClientError Unavailable "service is busy; sync access is startup-only".

(** What a caller asks for: a call of a port, or a closure that is run on the
    service at once ([with_service_sync]). *)
Inductive Request (T Q R : Type) :=
| PortCall (operation : string) (request : Q)
| SyncAccess (f : T -> R * T).
Arguments PortCall {T Q R}.
Arguments SyncAccess {T Q R}.

(** A call in flight: before the probe, asleep until its charge is up, with the
    lock, with the service read and the closure run, or done and about to
    return its answer. *)
Inductive Flight (T Q R : Type) :=
| Asked (operation : string) (request : Q)
| Sleeping (operation : string) (request : Q) (until : N)
| Holding (request : Request T Q R)
| Running (answer : res ClientError R) (left : T)
| Returning (answer : res ClientError R).
Arguments Asked {T Q R}.
Arguments Sleeping {T Q R}.
Arguments Holding {T Q R}.
Arguments Running {T Q R}.
Arguments Returning {T Q R}.

Record SyncAdapter (T P Q R : Type) := mkSyncAdapter {
  ad_inner : T;
  ad_locked : option nat;
  ad_probe : P;
  ad_call_timeout : N;
  ad_calls : gmap nat (Flight T Q R);
  ad_next : nat;
  ad_now : N
}.
Arguments mkSyncAdapter {T P Q R}.
Arguments ad_inner {T P Q R}.
Arguments ad_locked {T P Q R}.
Arguments ad_probe {T P Q R}.
Arguments ad_call_timeout {T P Q R}.
Arguments ad_calls {T P Q R}.
Arguments ad_next {T P Q R}.
Arguments ad_now {T P Q R}.

(** What the callers see. *)
Inductive Seen (T Q R : Type) :=
| Invoked (call : nat) (request : Request T Q R) (at_ : N)
| Responded (call : nat) (answer : res ClientError R) (at_ : N).
Arguments Invoked {T Q R}.
Arguments Responded {T Q R}.

Section Adapter.
Context {T P Q R : Type} `{LP : LatencyProbe P} (serve : string -> Q -> st T ClientError R) (identity_bytes : Q -> list N).

Definition adapter_new (inner : T) (probe : P) (call_timeout : N) : SyncAdapter T P Q R := mkSyncAdapter inner None probe call_timeout ∅ 0 0.

Definition set_lock (inner : T) (locked : option nat) (a : SyncAdapter T P Q R) : SyncAdapter T P Q R :=
  mkSyncAdapter inner locked (ad_probe a) (ad_call_timeout a) (ad_calls a) (ad_next a) (ad_now a).
Definition set_flight (call : nat) (f : Flight T Q R) (a : SyncAdapter T P Q R) : SyncAdapter T P Q R :=
  mkSyncAdapter (ad_inner a) (ad_locked a) (ad_probe a) (ad_call_timeout a) (<[call := f]> (ad_calls a)) (ad_next a) (ad_now a).
Definition drop_flight (call : nat) (a : SyncAdapter T P Q R) : SyncAdapter T P Q R :=
  mkSyncAdapter (ad_inner a) (ad_locked a) (ad_probe a) (ad_call_timeout a) (delete call (ad_calls a)) (ad_next a) (ad_now a).
Definition set_probe (p : P) (a : SyncAdapter T P Q R) : SyncAdapter T P Q R :=
  mkSyncAdapter (ad_inner a) (ad_locked a) p (ad_call_timeout a) (ad_calls a) (ad_next a) (ad_now a).
Definition next_call (a : SyncAdapter T P Q R) : SyncAdapter T P Q R :=
  mkSyncAdapter (ad_inner a) (ad_locked a) (ad_probe a) (ad_call_timeout a) (ad_calls a) (S (ad_next a)) (ad_now a).

(** What runs on the service inside the lock. *)
Definition body (request : Request T Q R) : st T ClientError R :=
  match request with
  | PortCall operation request => serve operation request
  | SyncAccess f => fun t => let '(r, t) := f t in (Ok r, t)
  end.

(** [call]: the charge of a call, from the probe's answer. *)
Definition charge_of (pending : PendingCall) (a : SyncAdapter T P Q R) : N :=
  if pc_timeout pending then ad_call_timeout a else ticks_to_virtual (pc_latency_ticks pending).

Inductive port_event :=
| EvInvoke (request : Request T Q R)
| EvProbe (call : nat)
| EvLock (call : nat)
| EvRun (call : nat)
| EvUnlock (call : nat)
| EvRespond (call : nat)
| EvAbandon (call : nat)
| EvPass (ms : N).

(** [with_service_sync]: [try_lock] takes the lock or is refused at once. *)
Definition with_service_sync (call : nat) (f : T -> R * T) (a : SyncAdapter T P Q R) : SyncAdapter T P Q R :=
  match ad_locked a with
  | Some _ => set_flight call (Returning (Err SERVICE_BUSY)) a
  | None => set_flight call (Holding (SyncAccess f)) (set_lock (ad_inner a) (Some call) a)
  end.

(** One step, with what a caller sees of it; [None] when the event cannot
    happen.  A call is dropped only at an await: before it has the lock. *)
Definition port_step (e : port_event) (a : SyncAdapter T P Q R) : option (SyncAdapter T P Q R * option (Seen T Q R)) :=
  match e with
  | EvInvoke request =>
    let call := ad_next a in
    let a := next_call a in
    Some (match request with
          | PortCall operation request => set_flight call (Asked operation request) a
          | SyncAccess f => with_service_sync call f a
          end, Some (Invoked call request (ad_now a)))
  | EvProbe call =>
    match ad_calls a !! call with
    | Some (Asked operation request) =>
      let '(pending, probe) := pending_call operation (identity_bytes request) (ad_probe a) in
      Some (set_flight call (Sleeping operation request (ad_now a + charge_of pending a)) (set_probe probe a), None)
    | _ => None
    end
  | EvLock call =>
    match ad_calls a !! call, ad_locked a with
    | Some (Sleeping operation request until), None =>
      if (until <=? ad_now a)%N then Some (set_flight call (Holding (PortCall operation request)) (set_lock (ad_inner a) (Some call) a), None) else None
    | _, _ => None
    end
  | EvRun call =>
    match ad_calls a !! call with
    | Some (Holding request) => let '(answer, t) := body request (ad_inner a) in Some (set_flight call (Running answer t) a, None)
    | _ => None
    end
  | EvUnlock call =>
    match ad_calls a !! call with
    | Some (Running answer t) => Some (set_flight call (Returning answer) (set_lock t None a), None)
    | _ => None
    end
  | EvRespond call =>
    match ad_calls a !! call with
    | Some (Returning answer) => Some (drop_flight call a, Some (Responded call answer (ad_now a)))
    | _ => None
    end
  | EvAbandon call =>
    match ad_calls a !! call with
    | Some (Asked _ _) | Some (Sleeping _ _ _) => Some (drop_flight call a, None)
    | _ => None
    end
  | EvPass ms => Some (mkSyncAdapter (ad_inner a) (ad_locked a) (ad_probe a) (ad_call_timeout a) (ad_calls a) (ad_next a) (ad_now a + ms), None)
  end.

(** The histories of an adapter. *)
Inductive port_history (inner : T) (probe : P) (call_timeout : N) : list (Seen T Q R) -> SyncAdapter T P Q R -> Prop :=
| port_start : port_history inner probe call_timeout [] (adapter_new inner probe call_timeout)
| port_next e h a a' o : port_history inner probe call_timeout h a -> port_step e a = Some (a', o) ->
    port_history inner probe call_timeout (h ++ option_list o) a'.

(** ** The service and the probe, asked one after another *)

Fixpoint serve_all (requests : list (Request T Q R)) (t : T) : list (res ClientError R) * T :=
  match requests with
  | [] => ([], t)
  | request :: requests =>
    let '(answer, t) := body request t in
    let '(answers, t) := serve_all requests t in (answer :: answers, t)
  end.
Fixpoint probe_all (asked : list (string * Q)) (p : P) : list PendingCall * P :=
  match asked with
  | [] => ([], p)
  | (operation, request) :: asked =>
    let '(pending, p) := pending_call operation (identity_bytes request) p in
    let '(pendings, p) := probe_all asked p in (pending :: pendings, p)
  end.

Lemma serve_all_snoc requests request : forall t, serve_all (requests ++ [request]) t =
  let '(answers, t) := serve_all requests t in let '(answer, t) := body request t in (answers ++ [answer], t).
Proof.
  induction requests as [|q requests IH]; intros t; cbn [serve_all app]; [by destruct (body request t)|].
  destruct (body q t) as [x t1]. rewrite IH. destruct (serve_all requests t1) as [xs t2]. by destruct (body request t2).
Qed.
Lemma probe_all_snoc asked operation request : forall p, probe_all (asked ++ [(operation, request)]) p =
  let '(pendings, p) := probe_all asked p in let '(pending, p) := pending_call operation (identity_bytes request) p in (pendings ++ [pending], p).
Proof.
  induction asked as [|[o q] asked IH]; intros p; cbn [probe_all app]; [by destruct (pending_call _ _ p)|].
  destruct (pending_call o _ p) as [x p1]. rewrite IH. destruct (probe_all asked p1) as [xs p2]. by destruct (pending_call _ _ p2).
Qed.

Section History.
Context (inner : T) (probe : P) (call_timeout : N).
Implicit Types (h : list (Seen T Q R)) (lin : list (nat * Request T Q R)) (probed : list (nat * (string * Q))).

(** The answers of the service and of the probe, asked in these orders. *)
Definition answers lin : list (res ClientError R) := (serve_all lin.*2 inner).1.
Definition pendings probed : list PendingCall := (probe_all probed.*2 probe).1.

Lemma answers_prefix lin lin' i x : lin `prefix_of` lin' -> answers lin !! i = Some x -> answers lin' !! i = Some x.
Proof.
  intros [more ->] Hx. unfold answers in *. induction more as [|[c q] more IH] using rev_ind; [by rewrite app_nil_r|]. rewrite app_assoc, fmap_app. cbn.
  rewrite serve_all_snoc. destruct (serve_all (lin ++ more).*2 inner) as [xs t]. destruct (body _ _). by apply lookup_app_l_Some.
Qed.
Lemma pendings_prefix probed probed' i x : probed `prefix_of` probed' -> pendings probed !! i = Some x -> pendings probed' !! i = Some x.
Proof.
  intros [more ->] Hx. unfold pendings in *. induction more as [|[c [o q]] more IH] using rev_ind; [by rewrite app_nil_r|]. rewrite app_assoc, fmap_app. cbn.
  rewrite probe_all_snoc. destruct (probe_all (probed ++ more).*2 probe) as [xs t]. destruct (pending_call _ _ _). by apply lookup_app_l_Some.
Qed.
Lemma answers_length lin : length (answers lin) = length lin.
Proof.
  unfold answers. induction lin as [|[c q] lin IH] using rev_ind; [done|]. rewrite fmap_app, length_app. cbn. rewrite serve_all_snoc.
  destruct (serve_all _ _) as [xs t]. destruct (body _ _). cbn in *. rewrite length_app. cbn. lia.
Qed.
Lemma pendings_length probed : length (pendings probed) = length probed.
Proof.
  unfold pendings. induction probed as [|[c [o q]] probed IH] using rev_ind; [done|]. rewrite fmap_app, length_app. cbn. rewrite probe_all_snoc.
  destruct (probe_all _ _) as [xs t]. destruct (pending_call _ _ _). cbn in *. rewrite length_app. cbn. lia.
Qed.

(** By [now] a port call has been charged what the probe said of it. *)
Definition charged h probed (c : nat) (now : N) : Prop := forall o q t0, Invoked c (PortCall o q) t0 ∈ h ->
  exists k pending, probed !! k = Some (c, (o, q)) /\ pendings probed !! k = Some pending /\
    (t0 + (if pc_timeout pending then call_timeout else pc_latency_ticks pending) <= now)%N.

(** [x] is the answer of a call that has its place in [lin], or the refusal of
    a closure. *)
Definition answered h lin (c : nat) (x : res ClientError R) : Prop :=
  (exists i q t0, lin !! i = Some (c, q) /\ answers lin !! i = Some x /\ Invoked c q t0 ∈ h) \/
  (x = Err SERVICE_BUSY /\ (c ∉ lin.*1) /\ exists f t0, Invoked c (SyncAccess f) t0 ∈ h).

Definition flight_ok h lin probed (t : T) (locked : option nat) (now : N) (c : nat) (f : Flight T Q R) : Prop :=
  match f with
  | Asked o q => (exists t0, Invoked c (PortCall o q) t0 ∈ h) /\ (c ∉ probed.*1) /\ c ∉ lin.*1
  | Sleeping o q until => (exists t0, Invoked c (PortCall o q) t0 ∈ h) /\ charged h probed c until /\ c ∉ lin.*1
  | Holding q => (exists t0, Invoked c q t0 ∈ h) /\ charged h probed c now /\ (c ∉ lin.*1) /\ locked = Some c
  | Running x t' => exists q, (exists t0, Invoked c q t0 ∈ h) /\ charged h probed c now /\ (c ∉ lin.*1) /\ locked = Some c /\ body q t = (x, t')
  | Returning x => answered h lin c x /\ charged h probed c now
  end.

Record port_ok h lin probed (a : SyncAdapter T P Q R) : Prop := {
  pk_inner : (serve_all lin.*2 inner).2 = ad_inner a;
  pk_probe : (probe_all probed.*2 probe).2 = ad_probe a;
  pk_timeout : ad_call_timeout a = call_timeout;
  pk_flights : forall c f, ad_calls a !! c = Some f -> (c < ad_next a)%nat /\ flight_ok h lin probed (ad_inner a) (ad_locked a) (ad_now a) c f;
  pk_lin : forall c q, (c, q) ∈ lin -> (exists t0, Invoked c q t0 ∈ h) /\ (is_Some (ad_calls a !! c) \/ exists x t1, Responded c x t1 ∈ h);
  pk_once : NoDup lin.*1;
  pk_probed : NoDup probed.*1 /\ forall c, c ∈ probed.*1 -> (c < ad_next a)%nat;
  pk_invoked : forall c q t0, Invoked c q t0 ∈ h -> (c < ad_next a)%nat /\ (t0 <= ad_now a)%N /\ forall q' t', Invoked c q' t' ∈ h -> q' = q /\ t' = t0;
  pk_responded : forall c x t1, Responded c x t1 ∈ h -> ad_calls a !! c = None /\ answered h lin c x /\ charged h probed c t1;
  pk_order : forall i j c x t1 c' q' t0 m n, (i < j)%nat -> h !! i = Some (Responded c x t1) -> h !! j = Some (Invoked c' q' t0) ->
    lin.*1 !! m = Some c -> lin.*1 !! n = Some c' -> (m < n)%nat
}.

(** What a call relies on stays when others move: its invocation, its places
    and, while it has the lock, the service. *)
Lemma charged_mono h h' probed probed' c now now' : (forall q t0, Invoked c q t0 ∈ h' -> Invoked c q t0 ∈ h) -> probed `prefix_of` probed' -> (now <= now')%N ->
  charged h probed c now -> charged h' probed' c now'.
Proof.
  intros Hh Hp Hn Hc o q t0 Hi%Hh. destruct (Hc o q t0 Hi) as (k & pending & Hk & Hpend & Hle). exists k, pending.
  split_and!; [by eapply prefix_lookup_Some|by eapply pendings_prefix|lia].
Qed.
Lemma answered_mono h h' lin lin' c x : h ⊆ h' -> lin `prefix_of` lin' -> (c ∈ lin'.*1 -> c ∈ lin.*1) -> answered h lin c x -> answered h' lin' c x.
Proof.
  intros Hh Hl Hc [(i & q & t0 & H1 & H2 & H3)|(-> & H2 & f & t0 & H3)]; [left|right].
  - exists i, q, t0. split_and!; [by eapply prefix_lookup_Some|by eapply answers_prefix|by apply Hh].
  - split_and!; [done|by intros ?%Hc|]. exists f, t0. by apply Hh.
Qed.

Definition held (f : Flight T Q R) : Prop := match f with Holding _ | Running _ _ => True | _ => False end.
Lemma flight_mono h h' lin lin' probed probed' t t' locked locked' now now' c f :
  h ⊆ h' -> (forall q t0, Invoked c q t0 ∈ h' -> Invoked c q t0 ∈ h) -> lin `prefix_of` lin' -> (c ∈ lin'.*1 -> c ∈ lin.*1) ->
  probed `prefix_of` probed' -> (c ∈ probed'.*1 -> c ∈ probed.*1) -> (now <= now')%N -> (held f -> t' = t /\ locked' = locked) ->
  flight_ok h lin probed t locked now c f -> flight_ok h' lin' probed' t' locked' now' c f.
Proof.
  intros Hh Hi Hl Hcl Hp Hcp Hn Hheld.
  assert (forall q, (exists t0, Invoked c q t0 ∈ h) -> exists t0, Invoked c q t0 ∈ h') as He by (intros q [t0 ?]; exists t0; by apply Hh).
  assert (forall n n', (n <= n')%N -> charged h probed c n -> charged h' probed' c n') as Hc by (intros n n' Hle; by apply charged_mono).
  destruct f as [o q|o q until|q|x u|x]; cbn; [| |destruct (Hheld I) as [-> ->]..|].
  - intros (H1 & H2 & H3). split_and!; auto.
  - intros (H1 & H2 & H3). split_and!; [auto|by eapply Hc|auto].
  - intros (H1 & H2 & H3 & H4). split_and!; [auto|by eapply Hc|auto|done].
  - intros (q & H1 & H2 & H3 & H4 & H5). exists q. split_and!; [auto|by eapply Hc|auto|done|done].
  - intros (H1 & H2). split; [by eapply answered_mono|by eapply Hc].
Qed.

(** A call that has or takes the lock, or goes on inside it. *)
Lemma moved_ok h lin probed a c f0 f locked : port_ok h lin probed a -> ad_calls a !! c = Some f0 ->
  flight_ok h lin probed (ad_inner a) locked (ad_now a) c f -> (forall c' f', c' <> c -> ad_calls a !! c' = Some f' -> held f' -> locked = ad_locked a) ->
  port_ok h lin probed (set_flight c f (set_lock (ad_inner a) locked a)).
Proof.
  intros [H1 H2 H3 H4 H5 H6 H7 H8 H9 H10] Hc Hf Hothers. split; cbn; try done.
  - intros c' f' [[<- <-]|[Hne Hc']]%lookup_insert_Some; [split; [by eapply H4|done]|]. destruct (H4 c' f' Hc') as [Hlt Hok]. split; [done|].
    eapply flight_mono; [..|exact Hok]; try done. intros Hheld. split; [done|]. by eapply Hothers.
  - intros c' q Hin. destruct (H5 c' q Hin) as [Hi Hor]. split; [done|]. destruct Hor as [Hs|?]; [left|by right]. destruct (decide (c' = c)) as [->|];
      [by rewrite lookup_insert_eq|by rewrite lookup_insert_ne].
  - intros c' x t1 Hr. destruct (H9 c' x t1 Hr) as (Hn & Hrest). split; [|done]. rewrite lookup_insert_ne; [done|]. intros ->. congruence.
Qed.

Lemma lock_ok h lin probed a a' o call : port_ok h lin probed a -> port_step (EvLock call) a = Some (a', o) -> o = None /\ port_ok h lin probed a'.
Proof.
  intros Hok. cbn [port_step]. destruct (ad_calls a !! call) as [[|operation request until| | |]|] eqn:E; try done. destruct (ad_locked a) as [|] eqn:El; [done|].
  destruct (N.leb_spec until (ad_now a)) as [Hu|]; [|done]. intros [= <- <-]. split; [done|]. destruct (pk_flights _ _ _ _ Hok _ _ E) as [_ (Hi & Hch & Hl)].
  eapply moved_ok; [done|done| |].
  - split_and!; [done|by eapply charged_mono|done|done].
  - intros c' f' _ Hc'. destruct (pk_flights _ _ _ _ Hok _ _ Hc') as [_ Hf]. destruct f'; cbn in *; try done; naive_solver.
Qed.

Lemma set_lock_id a : set_lock (ad_inner a) (ad_locked a) a = a.
Proof. by destruct a. Qed.
Lemma run_ok h lin probed a a' o call : port_ok h lin probed a -> port_step (EvRun call) a = Some (a', o) -> o = None /\ port_ok h lin probed a'.
Proof.
  intros Hok. cbn [port_step]. destruct (ad_calls a !! call) as [[| |request| |]|] eqn:E; try done. destruct (body request (ad_inner a)) as [answer t] eqn:Eb.
  intros [= <- <-]. split; [done|]. destruct (pk_flights _ _ _ _ Hok _ _ E) as [_ (Hi & Hch & Hl & Hlock)].
  rewrite <- (set_lock_id a) at 1. eapply moved_ok; [done|done| |done]. by exists request.
Qed.

Lemma probe_ok h lin probed a a' o call : port_ok h lin probed a -> port_step (EvProbe call) a = Some (a', o) -> o = None /\ exists probed', port_ok h lin probed' a'.
Proof.
  intros Hok. cbn [port_step]. destruct (ad_calls a !! call) as [[operation request| | | |]|] eqn:E; try done.
  destruct (pending_call _ _ _) as [pending p] eqn:Ep. intros [= <- <-]. split; [done|].
  destruct (pk_flights _ _ _ _ Hok _ _ E) as [Hlt ([t0 Hi] & Hnp & Hl)]. destruct Hok as [H1 H2 H3 H4 H5 H6 [H7 H7'] H8 H9 H10].
  set (probed' := probed ++ [(call, (operation, request))]). exists probed'.
  assert (probed `prefix_of` probed') as Hpre by (by eexists).
  assert (pendings probed' = pendings probed ++ [pending] /\ (probe_all probed'.*2 probe).2 = p) as [Epend Eprobe].
  { unfold pendings, probed'. rewrite fmap_app. cbn. rewrite probe_all_snoc. destruct (probe_all probed.*2 probe) as [xs p0] eqn:Ea. cbn in H2. subst p0. by rewrite Ep. }
  split; cbn; try done.
  - intros c' f' [[<- <-]|[Hne Hc']]%lookup_insert_Some.
    + split; [done|]. split_and!; [by exists t0| |done]. intros o q t1 Hi1. destruct (H8 _ _ _ Hi) as (_ & Hle & Huniq). destruct (Huniq _ _ Hi1) as [[= -> ->] ->].
      exists (length probed), pending. unfold probed'. rewrite list_lookup_middle by done. split; [done|]. fold probed'. rewrite Epend, list_lookup_middle by (symmetry; apply pendings_length).
      split; [done|]. unfold charge_of. rewrite H3. unfold ticks_to_virtual. destruct (pc_timeout pending); lia.
    + destruct (H4 c' f' Hc') as [Hlt' Hok]. split; [done|]. eapply flight_mono; [..|exact Hok]; try done.
      unfold probed'. rewrite fmap_app. intros [?|?%list_elem_of_singleton]%elem_of_app; done.
  - intros c' q Hin. destruct (H5 c' q Hin) as [Hi' Hor]. split; [done|]. destruct Hor as [Hs|?]; [left|by right]. destruct (decide (c' = call)) as [->|];
      [by rewrite lookup_insert_eq|by rewrite lookup_insert_ne].
  - unfold probed'. rewrite fmap_app. split.
    + apply NoDup_app. split_and!; [done|intros c Hc ->%list_elem_of_singleton; done|by apply NoDup_singleton].
    + intros c [Hc| ->%list_elem_of_singleton]%elem_of_app; [by apply H7'|done].
  - intros c' x t1 Hr. destruct (H9 c' x t1 Hr) as (Hn & Hans & Hch). split_and!; [|done|by eapply charged_mono]. rewrite lookup_insert_ne; [done|]. intros ->. congruence.
Qed.

Lemma unlock_ok h lin probed a a' o call : port_ok h lin probed a -> port_step (EvUnlock call) a = Some (a', o) -> o = None /\ exists lin', port_ok h lin' probed a'.
Proof.
  intros Hok. cbn [port_step]. destruct (ad_calls a !! call) as [[| | |answer t|]|] eqn:E; try done. intros [= <- <-]. split; [done|].
  destruct (pk_flights _ _ _ _ Hok _ _ E) as [Hlt (q & [t0 Hi] & Hch & Hnl & Hlock & Hb)]. destruct Hok as [H1 H2 H3 H4 H5 H6 H7 H8 H9 H10].
  set (lin' := lin ++ [(call, q)]). exists lin'. assert (lin `prefix_of` lin') as Hpre by (by eexists).
  assert (answers lin' = answers lin ++ [answer] /\ (serve_all lin'.*2 inner).2 = t) as [Eans Einner].
  { unfold answers, lin'. rewrite fmap_app. cbn. rewrite serve_all_snoc. destruct (serve_all lin.*2 inner) as [xs t1] eqn:Ea. cbn in H1. subst t1. by rewrite Hb. }
  assert (forall c, c <> call -> c ∈ lin'.*1 -> c ∈ lin.*1) as Hother
    by (intros c Hne; unfold lin'; rewrite fmap_app; by intros [?|?%list_elem_of_singleton]%elem_of_app).
  split; cbn; try done.
  - intros c' f' [[<- <-]|[Hne Hc']]%lookup_insert_Some.
    + split; [done|]. split; [|done]. left. exists (length lin), q, t0. unfold lin'. rewrite list_lookup_middle by done.
      split_and!; [done| |done]. fold lin'. rewrite Eans. apply list_lookup_middle. symmetry. apply answers_length.
    + destruct (H4 c' f' Hc') as [Hlt' Hok]. split; [done|]. eapply flight_mono; [..|exact Hok]; try done; [by apply Hother|].
      intros Hheld. exfalso. apply Hne. destruct f'; cbn in *; naive_solver.
  - intros c' q'. unfold lin'. intros [Hin|[= -> ->]%list_elem_of_singleton]%elem_of_app; [|by split; [exists t0|left; rewrite lookup_insert_eq]].
    destruct (H5 c' q' Hin) as [Hi' Hor]. split; [done|]. destruct Hor as [Hs|?]; [left|by right]. destruct (decide (c' = call)) as [->|];
      [by rewrite lookup_insert_eq|by rewrite lookup_insert_ne].
  - unfold lin'. rewrite fmap_app. apply NoDup_app. split_and!; [done|intros c Hc ->%list_elem_of_singleton; done|by apply NoDup_singleton].
  - intros c' x t1 Hr. destruct (H9 c' x t1 Hr) as (Hn & Hans & Hch'). assert (c' <> call) as Hne by congruence.
    split_and!; [by rewrite lookup_insert_ne|by eapply answered_mono; [..|exact Hans]; [done|done|apply Hother]|done].
  - intros i j c x t1 c' q' t1' m n Hij Hci Hcj. unfold lin'. rewrite fmap_app. cbn. rewrite !lookup_snoc_Some. intros [[Hm Hm']|[Hm <-]] [[Hn Hn']|[Hn Hn']].
    + exact (H10 i j c x t1 c' q' t1' m n Hij Hci Hcj Hm' Hn').
    + lia.
    + apply list_elem_of_lookup_2 in Hci. destruct (H9 _ _ _ Hci) as [Hnone _]. congruence.
    + subst. apply list_elem_of_lookup_2 in Hci. destruct (H9 _ _ _ Hci) as [Hnone _]. congruence.
Qed.

(** Time, and calls that are dropped before they have the lock. *)
Lemma pass_ok h lin probed a a' o ms : port_ok h lin probed a -> port_step (EvPass ms) a = Some (a', o) -> o = None /\ port_ok h lin probed a'.
Proof.
  intros [H1 H2 H3 H4 H5 H6 H7 H8 H9 H10] [= <- <-]. split; [done|]. split; cbn; try done.
  - intros c f Hc. destruct (H4 c f Hc) as [Hlt Hok]. split; [done|]. eapply flight_mono; [..|exact Hok]; try done. lia.
  - intros c q t0 Hi. destruct (H8 c q t0 Hi) as (Hlt & Hle & Hu). split_and!; [done|lia|done].
Qed.

Lemma abandon_ok h lin probed a a' o call : port_ok h lin probed a -> port_step (EvAbandon call) a = Some (a', o) -> o = None /\ port_ok h lin probed a'.
Proof.
  intros Hok. cbn [port_step]. assert (forall f, ad_calls a !! call = Some f -> match f with Asked _ _ | Sleeping _ _ _ => True | _ => False end ->
    port_ok h lin probed (drop_flight call a)) as Hdrop.
  { intros f E Hf. assert (call ∉ lin.*1) as Hnl by (destruct (pk_flights _ _ _ _ Hok _ _ E) as [_ Hfl]; destruct f; try done; by destruct Hfl as (_ & _ & ?)).
    destruct Hok as [H1 H2 H3 H4 H5 H6 H7 H8 H9 H10]. split; cbn; try done.
    - intros c f' [_ Hc]%lookup_delete_Some. by apply H4.
    - intros c q Hin. destruct (H5 c q Hin) as [Hi Hor]. split; [done|]. destruct Hor as [Hs|?]; [left|by right]. rewrite lookup_delete_ne; [done|].
      intros ->. apply Hnl. by apply (list_elem_of_fmap_2 fst) in Hin.
    - intros c x t1 Hr. destruct (H9 c x t1 Hr) as (Hn & Hrest). split; [|done]. by apply lookup_delete_None; right. }
  destruct (ad_calls a !! call) as [[| | | |]|] eqn:E; try done; intros [= <- <-]; (split; [done|]); by eapply Hdrop.
Qed.

(** A new event of the history leaves the old calls as they were. *)
Lemma seen_snoc_other h (e : Seen T Q R) c q t0 : (forall q' t', e <> Invoked c q' t') -> Invoked c q t0 ∈ h ++ [e] -> Invoked c q t0 ∈ h.
Proof. intros He [?|E%list_elem_of_singleton]%elem_of_app; [done|]. by destruct (He q t0). Qed.

Lemma respond_ok h lin probed a a' o call : port_ok h lin probed a -> port_step (EvRespond call) a = Some (a', o) -> port_ok (h ++ option_list o) lin probed a'.
Proof.
  intros Hok. cbn [port_step]. destruct (ad_calls a !! call) as [[| | | |answer]|] eqn:E; try done. intros [= <- <-]. cbn [option_list].
  destruct (pk_flights _ _ _ _ Hok _ _ E) as [Hlt [Hans Hch]]. destruct Hok as [H1 H2 H3 H4 H5 H6 H7 H8 H9 H10]. set (e := Responded call answer (ad_now a)).
  assert (h ⊆ h ++ [e]) as Hsub by set_solver. assert (forall c q t0, Invoked c q t0 ∈ h ++ [e] -> Invoked c q t0 ∈ h) as Hinv by (intros c q t0; by apply seen_snoc_other).
  split; cbn; try done.
  - intros c f [_ Hc]%lookup_delete_Some. destruct (H4 c f Hc) as [Hl Hf]. split; [done|]. eapply flight_mono; [..|exact Hf]; try done. by apply Hinv.
  - intros c q Hin. destruct (H5 c q Hin) as [[t0 Hi] Hor]. split; [exists t0; by apply Hsub|]. destruct (decide (c = call)) as [->|Hne].
    + right. exists answer, (ad_now a). apply elem_of_app. right. by left.
    + destruct Hor as [Hs|(x & t1 & ?)]; [left; by rewrite lookup_delete_ne|right; exists x, t1; by apply Hsub].
  - intros c q t0 Hi%Hinv. destruct (H8 c q t0 Hi) as (Hl & Hle & Hu). split_and!; [done|done|]. intros q' t' Hi'%Hinv. by apply Hu.
  - intros c x t1 [Hr|[= -> -> ->]%list_elem_of_singleton]%elem_of_app.
    + destruct (H9 c x t1 Hr) as (Hn & Ha & Hc). split_and!; [by apply lookup_delete_None; right|by eapply answered_mono; [..|exact Ha]|eapply charged_mono; [..|exact Hc]; [apply Hinv|done|done]].
    + split_and!; [apply lookup_delete_eq|by eapply answered_mono; [..|exact Hans]|eapply charged_mono; [..|exact Hch]; [apply Hinv|done|done]].
  - intros i j c x t1 c' q' t0 m n Hij [[Hli Hi]|[Hi Ei]]%lookup_snoc_Some [[Hlj Hj]|[Hj Ej]]%lookup_snoc_Some; [by apply (H10 i j c x t1 c' q' t0)|done|lia|lia].
Qed.

Lemma invoked_ok h lin probed a f locked request : port_ok h lin probed a ->
  flight_ok (h ++ [Invoked (ad_next a) request (ad_now a)]) lin probed (ad_inner a) locked (ad_now a) (ad_next a) f ->
  (locked = ad_locked a \/ ad_locked a = None) ->
  port_ok (h ++ [Invoked (ad_next a) request (ad_now a)]) lin probed (set_flight (ad_next a) f (set_lock (ad_inner a) locked (next_call a))).
Proof.
  intros [H1 H2 H3 H4 H5 H6 [H7 H7'] H8 H9 H10] Hf Hlock. set (e := Invoked (ad_next a) request (ad_now a)) in *.
  assert (h ⊆ h ++ [e]) as Hsub by set_solver.
  assert (forall c q t0, c <> ad_next a -> Invoked c q t0 ∈ h ++ [e] -> Invoked c q t0 ∈ h) as Hinv
    by (intros c q t0 Hne; apply seen_snoc_other; unfold e; congruence).
  assert (forall x t1, Responded (ad_next a) x t1 ∉ h) as Hnew.
  { intros x t1 Hr. destruct (H9 _ _ _ Hr) as (_ & [(i & q & t0 & _ & _ & Hi)|(_ & _ & f0 & t0 & Hi)] & _); destruct (H8 _ _ _ Hi); lia. }
  split; cbn; try done.
  - intros c f' [[<- <-]|[Hne Hc]]%lookup_insert_Some; [split; [lia|done]|]. destruct (H4 c f' Hc) as [Hl Hok]. split; [lia|].
    eapply flight_mono; [..|exact Hok]; try done; [by intros; apply Hinv|]. intros Hheld. split; [done|]. destruct Hlock as [->|Hnone]; [done|].
    exfalso. destruct f'; cbn in *; try done; naive_solver.
  - intros c q Hin. destruct (H5 c q Hin) as [[t0 Hi] Hor]. split; [exists t0; by apply Hsub|].
    destruct Hor as [Hs|(x & t1 & ?)]; [left|right; exists x, t1; by apply Hsub]. destruct (decide (c = ad_next a)) as [->|]; [by rewrite lookup_insert_eq|by rewrite lookup_insert_ne].
  - split; [done|]. intros c Hc. specialize (H7' c Hc). lia.
  - intros c q t0 [Hi|[= -> -> ->]%list_elem_of_singleton]%elem_of_app.
    + destruct (H8 c q t0 Hi) as (Hl & Hle & Hu). split_and!; [lia|done|]. intros q' t' Hi'%Hinv; [by apply Hu|lia].
    + split_and!; [lia|done|]. intros q' t' [Hi'|[= -> ->]%list_elem_of_singleton]%elem_of_app; [|done]. destruct (H8 _ _ _ Hi'); lia.
  - intros c x t1 [Hr|[=]%list_elem_of_singleton]%elem_of_app. destruct (H9 c x t1 Hr) as (Hn & Ha & Hc). assert (c <> ad_next a) as Hne by (intros ->; by eapply Hnew).
    split_and!; [by rewrite lookup_insert_ne|by eapply answered_mono; [..|exact Ha]|eapply charged_mono; [..|exact Hc]; [by intros; apply Hinv|done|done]].
  - intros i j c x t1 c' q' t0 m n Hij [[Hli Hi]|[Hi Ei]]%lookup_snoc_Some [[Hlj Hj]|[Hj Ej]]%lookup_snoc_Some; [by apply (H10 i j c x t1 c' q' t0)| |lia|lia].
    intros _ Hn. injection Ej as Ec _ _. apply list_elem_of_lookup_2, list_elem_of_fmap in Hn as ([c2 q''] & E2 & Hin). destruct (H5 _ _ Hin) as [[t2 Hi2] _].
    destruct (H8 _ _ _ Hi2). cbn in *. lia.
Qed.

Lemma invoke_ok h lin probed a a' o request : port_ok h lin probed a -> port_step (EvInvoke request) a = Some (a', o) -> port_ok (h ++ option_list o) lin probed a'.
Proof.
  intros Hok [= <- <-]. cbn [option_list]. change (ad_now (next_call a)) with (ad_now a).
  assert (ad_next a ∉ lin.*1) as Hnl.
  { intros ([c q] & E & Hin)%list_elem_of_fmap. destruct (pk_lin _ _ _ _ Hok _ _ Hin) as [[t0 Hi] _]. destruct (pk_invoked _ _ _ _ Hok _ _ _ Hi). cbn in *. lia. }
  assert (ad_next a ∉ probed.*1) as Hnp by (intros Hc; pose proof (proj2 (pk_probed _ _ _ _ Hok) _ Hc); lia).
  assert (forall q, exists t0, Invoked (ad_next a) q t0 ∈ h ++ [Invoked (ad_next a) q (ad_now a)]) as Hi by (intros q; exists (ad_now a); apply elem_of_app; right; by left).
  assert (forall f now, charged (h ++ [Invoked (ad_next a) (SyncAccess f) (ad_now a)]) probed (ad_next a) now) as Hch.
  { intros f now o q t0 [Hin|[=]%list_elem_of_singleton]%elem_of_app. destruct (pk_invoked _ _ _ _ Hok _ _ _ Hin). lia. }
  destruct request as [operation request|f].
  - apply (invoked_ok h lin probed a (Asked operation request) (ad_locked a) (PortCall operation request) Hok); [|by left]. by split_and!.
  - unfold with_service_sync. change (ad_locked (next_call a)) with (ad_locked a). destruct (ad_locked a) as [holder|] eqn:El.
    + change (next_call a) with (set_lock (ad_inner a) (ad_locked a) (next_call a)). apply invoked_ok; [done| |by left]. split; [|done]. right. split_and!; [done|done|]. exists f. apply Hi.
    + apply (invoked_ok h lin probed a (Holding (SyncAccess f)) (Some (ad_next a)) (SyncAccess f) Hok); [|by right]. by split_and!.
Qed.

Lemma port_step_ok e h lin probed a a' o : port_ok h lin probed a -> port_step e a = Some (a', o) ->
  exists lin' probed', port_ok (h ++ option_list o) lin' probed' a'.
Proof.
  intros Hok. destruct e as [request|call|call|call|call|call|call|ms]; intros Hstep.
  - exists lin, probed. by eapply invoke_ok.
  - destruct (probe_ok _ _ _ _ _ _ _ Hok Hstep) as [-> [probed' ?]]. exists lin, probed'. by rewrite app_nil_r.
  - destruct (lock_ok _ _ _ _ _ _ _ Hok Hstep) as [-> ?]. exists lin, probed. by rewrite app_nil_r.
  - destruct (run_ok _ _ _ _ _ _ _ Hok Hstep) as [-> ?]. exists lin, probed. by rewrite app_nil_r.
  - destruct (unlock_ok _ _ _ _ _ _ _ Hok Hstep) as [-> [lin' ?]]. exists lin', probed. by rewrite app_nil_r.
  - exists lin, probed. by eapply respond_ok.
  - destruct (abandon_ok _ _ _ _ _ _ _ Hok Hstep) as [-> ?]. exists lin, probed. by rewrite app_nil_r.
  - destruct (pass_ok _ _ _ _ _ _ _ Hok Hstep) as [-> ?]. exists lin, probed. by rewrite app_nil_r.
Qed.

Lemma port_history_ok h a : port_history inner probe call_timeout h a -> exists lin probed, port_ok h lin probed a.
Proof.
  induction 1 as [|e h a a' o _ (lin & probed & Hok) Hstep]; [|by eapply port_step_ok].
  exists [], []. split; cbn; try done; try (by intros ? ? ? ?%elem_of_nil); try (by intros ? ? ?%elem_of_nil); [constructor|].
  split; [constructor|by intros ? ?%elem_of_nil].
Qed.

(** C40. The adapter is linearizable, and it charges: however the calls on a port
    and the closures run on its service interleave, sleep and are dropped, what
    the callers see is as if the calls had been made on the service one after
    another.  There is an order of calls, each in it once and each invoked with
    the request it has there, that leaves the service in its state; a call in it
    is answered or still in flight, so that a dropped call has left no trace;
    every response is the answer the call has in that order, or the refusal of a
    closure that found the service busy; and a call that was answered before
    another was made comes before it.  A port call is answered no earlier than
    the charge after it was made that the probe, asked call by call, gives for
    it: the call timeout when it predicts a timeout, else its latency. *)
Theorem port_linearizable h a : port_history inner probe call_timeout h a ->
  exists lin : list (nat * Request T Q R), exists probed : list (nat * (string * Q)),
    NoDup lin.*1 /\ (serve_all lin.*2 inner).2 = ad_inner a /\
    (forall c q, (c, q) ∈ lin -> (exists t0, Invoked c q t0 ∈ h) /\ (is_Some (ad_calls a !! c) \/ exists x t1, Responded c x t1 ∈ h)) /\
    (forall c x t1, Responded c x t1 ∈ h ->
       (exists i q, lin !! i = Some (c, q) /\ (serve_all lin.*2 inner).1 !! i = Some x) \/
       (x = Err SERVICE_BUSY /\ (c ∉ lin.*1) /\ exists f t0, Invoked c (SyncAccess f) t0 ∈ h)) /\
    (forall i j c x t1 c' q t0 m n, (i < j)%nat -> h !! i = Some (Responded c x t1) -> h !! j = Some (Invoked c' q t0) ->
       lin.*1 !! m = Some c -> lin.*1 !! n = Some c' -> (m < n)%nat) /\
    NoDup probed.*1 /\ (probe_all probed.*2 probe).2 = ad_probe a /\
    (forall c o q t0 x t1, Invoked c (PortCall o q) t0 ∈ h -> Responded c x t1 ∈ h ->
       exists k pending, probed !! k = Some (c, (o, q)) /\ (probe_all probed.*2 probe).1 !! k = Some pending /\
         (t0 + (if pc_timeout pending then call_timeout else pc_latency_ticks pending) <= t1)%N).
Proof.
  intros (lin & probed & [H1 H2 H3 H4 H5 H6 [H7 _] H8 H9 H10])%port_history_ok. exists lin, probed. split_and!; try done.
  - intros c x t1 Hr. destruct (H9 c x t1 Hr) as (_ & [(i & q & t0 & Hi & Hx & _)|?] & _); [left; by exists i, q|by right].
  - intros c o q t0 x t1 Hi Hr. destruct (H9 c x t1 Hr) as (_ & _ & Hc). by apply Hc.
Qed.
End History.
End Adapter.

(** ** Witness *)

(** A counter that answers the number before each addition.  Two calls overlap,
    the first charged the timeout and the second its latency, so that the second
    is served first; a closure finds the service busy, and a third call is
    dropped. *)
Definition sample_serve (operation : string) (n : N) : st N ClientError N := fun t => (Ok t, (t + n)%N).
#[local] Instance sample_probe : LatencyProbe (list PendingCall) := {| pending_call _ _ p := (default PendingCall_default (head p), tail p) |}.
Definition sample_port_events : list (port_event (T := N) (Q := N) (R := N)) :=
  [EvInvoke (PortCall "add" 5%N); EvInvoke (PortCall "add" 7%N); EvInvoke (PortCall "add" 9%N); EvProbe 0; EvProbe 1; EvProbe 2; EvPass 10; EvLock 1;
   EvInvoke (SyncAccess (fun t => (t, t))); EvRun 1; EvUnlock 1; EvRespond 3; EvRespond 1; EvAbandon 2; EvPass 90; EvLock 0; EvRun 0; EvUnlock 0; EvRespond 0].
Fixpoint port_run (es : list (port_event (T := N) (Q := N) (R := N))) (h : list (Seen N N N)) (a : SyncAdapter N (list PendingCall) N N)
    : option (list (Seen N N N) * SyncAdapter N (list PendingCall) N N) :=
  match es with
  | [] => Some (h, a)
  | e :: es => '(a, o) ← port_step sample_serve (fun n => [n]) e a; port_run es (h ++ option_list o) a
  end.

Lemma port_run_history es inner p t : forall h a h' a', port_history sample_serve (fun n => [n]) inner p t h a -> port_run es h a = Some (h', a') ->
  port_history sample_serve (fun n => [n]) inner p t h' a'.
Proof.
  induction es as [|e es IH]; intros h a h' a' Ha; cbn [port_run]; [by intros [= <- <-]|].
  destruct (port_step sample_serve (fun n => [n]) e a) as [[a1 o]|] eqn:E; [|done]. cbn. apply IH. by eapply port_next.
Qed.

Lemma port_linearizable_witness : exists h a (lin : list (nat * Request N N N)),
  port_run sample_port_events [] (adapter_new 100%N [mkPendingCall 3 true; mkPendingCall 10 false] 100) = Some (h, a) /\ ad_inner a = 112%N /\
  omap (fun e => match e with Responded c x t1 => Some (c, x, t1) | _ => None end) h = [(3%nat, Err SERVICE_BUSY, 10%N); (1%nat, Ok 100%N, 10%N); (0%nat, Ok 107%N, 100%N)] /\
  NoDup lin.*1 /\ (serve_all sample_serve lin.*2 100%N).2 = ad_inner a.
Proof.
  destruct (port_run sample_port_events [] (adapter_new 100%N [mkPendingCall 3 true; mkPendingCall 10 false] 100)) as [[h a]|] eqn:E; [|by vm_compute in E].
  destruct (port_linearizable sample_serve (fun n => [n]) 100%N [mkPendingCall 3 true; mkPendingCall 10 false] 100 h a) as (lin & probed & H1 & H2 & _).
  - by eapply port_run_history; [apply port_start|].
  - exists h, a, lin. assert (Some (h, a) = port_run sample_port_events [] (adapter_new 100%N [mkPendingCall 3 true; mkPendingCall 10 false] 100)) as Ea by done.
    vm_compute in Ea. split; [done|]. split; [by injection Ea as -> ->|]. split; [by injection Ea as -> ->|]. by split.
Defined.
